(* ===== verification/_CoqProject ===== *)
-Q . S2P
Prelude.v
Ledger.v
Planning.v
PlanningFacts.v
PlanningOrder.v
PlanningSpec.v
LedgerStore.v
LedgerStoreSpec.v
Schema.v
SchemaFacts.v
SchemaCanonical.v
SchemaSpec.v
JoinPlan.v
JoinFacts.v
JoinSpec.v
Intent.v
SqlCompile.v
SqlSpec.v
SqlTotal.v
QueryPlan.v
QuerySpec.v
PathIdentity.v
PathFacts.v
PathSpec.v
ContextCompiler.v
ContextSpec.v
ContextTotal.v
UserIntent.v
EditDistance.v
UserIntentFacts.v
UserIntentSpec.v
JsonCodec.v
ExactJson.v
ExactJsonFacts.v
ExactJsonSpec.v
SessionIntent.v
SessionFacts.v
SessionSpec.v
Timestamp.v
Scrum.v
ScrumFlow.v
ScrumBoard.v
ScrumPlay.v
ScrumEdit.v
ScrumChannel.v
ScrumRead.v
ScrumFacts.v
ScrumInv.v
ScrumReach.v
ScrumRevision.v
ScrumMetrics.v
ScrumMoveFacts.v
ScrumLane.v
ScrumSpec.v
ScrumExample.v
Workspace.v
WorkspaceFacts.v
WorkspaceFrame.v
WorkspaceSpec.v
WorkspaceTotal.v
WorkspaceLive.v
WorkspaceRead.v
WorkspaceReadSpec.v
WorkspaceExample.v
Jobs.v
JobStore.v
JobCommands.v
JobSteps.v
JobControl.v
JobFacts.v
JobReach.v
JobReplay.v
JobInv.v
JobKeeps.v
JobCutover.v
JobWellFormed.v
JobSpec.v
JobClaim.v
JobOutcome.v
JobExample.v
