(* ===== verification/Prelude.v ===== *)
(** * Omnidex: the verified core

    Omnidex is a server that turns conversations into planned and reviewed work: a
    channel carries messages, a planner keeps an engineering ledger of tasks, workers
    execute them, and questions about data are compiled to SQL.  Language models
    propose; code owns identities, state and authority.  This development models the
    code-owned decisions, the functions that say what a proposal may change and what
    is stored, shown or executed, and proves what they guarantee.  Paths below are
    relative to [src/].

    ** The parts and how they interact

    - _Ledger_ ([internal/model], [internal/codingagent], [internal/queue]).  A
      mutation is validated ([Ledger.v]), previewed for the owner ([Planning.v]) and
      applied by the repository ([LedgerStore.v]); the preview is meant to show what
      the repository will persist.
    - _Data sources_ ([internal/datasource]).  A catalog becomes a schema snapshot
      ([Schema.v]); a relational intent is validated against it ([Intent.v]), join
      paths are searched ([JoinPlan.v]), the intent is compiled to PostgreSQL
      ([SqlCompile.v]) and kept as a plan with its evidence ([QueryPlan.v]).
    - _Model context_ ([internal/modelcontext], [internal/assemblyline],
      [internal/contextcompiler]).  Names of files are redacted before a model sees a
      text and restored afterwards ([PathIdentity.v]); the material a station receives
      is selected and reduced by the context compiler ([ContextCompiler.v]).
    - _Sessions_ ([internal/userintent], [internal/sessionintent],
      [internal/queue/user_intent*.go]).  A message becomes a patch of the session's
      state: patches are checked and applied ([UserIntent.v]), the state travels as JSON
      ([JsonCodec.v]), and the delta is validated, routed and admitted
      ([SessionIntent.v]), which calls the first two.
    - _Workspace_ ([internal/workspace]).  Executed work ends as a list of desired files
      that is validated and applied to a directory ([Workspace.v]); the files it was
      planned against are read before ([WorkspaceRead.v]) and read again at the moment of
      applying.  The file system is a map from paths to nodes, every call into the
      operating system may fail, and what a failing run did remains.
    - _Scrum board_ ([internal/queue/scrum_*.go], [internal/scrum], the tables and
      triggers of [database/setup.sql]).  Projects have cards with a checklist, a
      channel, a place in a column and a play state; playing a card creates a job, whose
      end moves the card on.  Every operation is one transaction over the board, that is
      over the rows of projects, cards, messages, jobs and channel operations.
    - _Jobs_ ([internal/queue/repository*.go], [job_generation*.go], [step_attempt*.go],
      [lifecycle_*.go], [coding_*.go] and the tables and triggers of
      [database/setup.sql]).  A job runs the steps of its pipeline in generations; a
      worker claims a step under a lease and completes, fails or suspends it, and the
      owner interrupts, replans, resumes, answers or cancels the job.  Every call is one
      transaction over the rows of jobs, generations, steps, attempts, registered
      identities and recorded operations; what channels, cards, role play, evidence and
      the ledger do in the same transaction is the record [Others] of their calls.

    - _Exact JSON_ ([internal/exactjson]).  Before the bodies of requests, stored rows and
      transport frames are decoded, a walk over their tokens refuses repeated keys, and
      the decoded document is compared with the exact names of a Go type's fields;
      authority that is hashed is written in a canonical form.

    ** Files

    - [Prelude.v]: results, loops, guards, Go's strings (UTF-8, [TrimSpace], order),
      64-bit integers, and the tactics and lemmas all files share.
    - [Ledger.v], [Planning.v], [PlanningFacts.v], [PlanningOrder.v],
      [PlanningSpec.v], [LedgerStore.v], [LedgerStoreSpec.v]: the ledger.
    - [Schema.v], [SchemaFacts.v], [SchemaCanonical.v], [SchemaSpec.v], [JoinPlan.v],
      [JoinFacts.v], [JoinSpec.v], [Intent.v], [SqlCompile.v], [SqlSpec.v],
      [SqlTotal.v], [QueryPlan.v], [QuerySpec.v]: data sources.
    - [PathIdentity.v], [PathFacts.v], [PathSpec.v], [ContextCompiler.v],
      [ContextSpec.v], [ContextTotal.v]: model context.
    - [UserIntent.v], [EditDistance.v], [UserIntentFacts.v], [UserIntentSpec.v],
      [JsonCodec.v], [SessionIntent.v], [SessionFacts.v], [SessionSpec.v]: sessions.
    - [ExactJson.v], [ExactJsonFacts.v] (the walk, the fields of [encoding/json], decoding into a Go type),
      [ExactJsonSpec.v] (the canonical encoding, the theorems): exact JSON.
    - [Workspace.v], [WorkspaceFacts.v] (calls, frames), [WorkspaceFrame.v] (what an
      operation may touch and what its success means),
      [WorkspaceSpec.v], [WorkspaceTotal.v] (a weakest precondition for runs without
      failures), [WorkspaceLive.v], [WorkspaceRead.v], [WorkspaceReadSpec.v],
      [WorkspaceExample.v] (a sample workspace): the workspace.
    - [Timestamp.v] (time as nanoseconds since year 1 and its canonical text), [Scrum.v]
      (cards, items, messages, settings), [ScrumFlow.v] (flow metrics), [ScrumBoard.v]
      (tables, transactions, statements, triggers), [ScrumPlay.v] (play, jobs and
      auto-work), [ScrumEdit.v] (creating, editing, deleting, moving, reconciling),
      [ScrumChannel.v] (channel pages and operations), [ScrumRead.v] (summaries and
      selections): the operations of the board.  [ScrumFacts.v] (rules for
      transactions), [ScrumInv.v] (the invariant), [ScrumReach.v] (commands and
      reachable boards), [ScrumRevision.v], [ScrumMetrics.v],
      [ScrumMoveFacts.v], [ScrumLane.v] (the abstract lane), [ScrumSpec.v] (the theorems), [ScrumExample.v] (sample boards): their proofs.
    - [Jobs.v] (rows and commands), [JobStore.v] (queries, triggers, checks,
      transactions, statements), [JobCommands.v] (validation, identities, records and
      replays), [JobSteps.v] (admission, claims, authority, completion, failure,
      waiting), [JobControl.v] (generations, interruption, replanning, resumption,
      cancellation, replies): the life of a job.  [JobFacts.v] (what every transaction
      preserves), [JobReach.v] (calls, reachable states, what an attempt may do),
      [JobReplay.v] (commands at most once), [JobInv.v] (what a statement does, the
      invariant), [JobKeeps.v], [JobCutover.v], [JobWellFormed.v] (the calls keep it),
      [JobSpec.v], [JobClaim.v], [JobOutcome.v] (the theorems), [JobExample.v] (a sample
      job): their proofs.

    A file named after a component holds its data and operations, one definition per
    Go function (or per loop body or guarded part of a long one) under the function's
    name; [*Facts.v] holds lemmas and [*Spec.v], [*Total.v], [*Live.v] the theorems.  Structs are
    records with a two-letter prefix per field, string enumerations stay strings,
    since the code receives them from outside and rejects unknown ones itself.

    ** How Go is represented

    [(T, error)] is [result T]; an error is the format string of its [fmt.Errorf], the
    values substituted into it are dropped.  Loops that can fail are [for_each], [loop]
    and [collect].  A slice that distinguishes nil from empty is [slice]; a map is a
    [gmap], or a sorted list of fields where its JSON form is compared; [int64]
    arithmetic is [Z] with [wrap64] where it can overflow.  A database transaction is a
    function in [tx], state passing with errors, and [transact] commits it or rolls it
    back; an SQL statement is a function on the rows it selects, with the columns'
    types, the checks and the triggers of the schema.  A [panic] that the code can
    reach is an [Err].  Code that works byte by byte works on [text], a list of bytes.
    Code outside [src/] and model calls are parameters: the semantic transport and
    decoder in [Planning.v], the provider and the stations in [ContextCompiler.v].

    ** What the theorems show

    - Ledger: of an accepted mutation the preview shows what the repository persists, up
      to the review state of reordered tasks, when nothing accepted is restored and
      amended payloads are active ([preview_refines_store]); persisted revisions are valid, keep
      identities and never keep an agreement on changed content ([persisted_revision],
      [store_agreement], [preview_identities], [preview_frame], [preview_agreement]);
      moving, ordering and binding do what the owner sees ([move_exchanges],
      [proposed_order], [bound_criteria], [routes_accepted]).
    - Data sources: a snapshot passes its integrity check exactly when it can be built,
      with resolved references and independently of catalog order ([integrity_exact],
      [snapshot_references], [snapshot_order_independent]); planned join paths are the
      shortest ones and ambiguities are exact ([planned_path_shortest],
      [ambiguity_exact], [resolved_path_shortest], [connected_relations_planned]);
      compilation succeeds exactly when it should, values never reach the SQL text, and
      quoting and escaping are exact ([compiles_exactly], [sql_independent_of_values],
      [like_filters_exact], [quoted_identifier_roundtrip], [built_plan_roundtrip]).
    - Model context: a redacted text is restored with every identity as the full path it
      stands for, where identities do not touch and always without known paths,
      and a path-free text names no known path ([redact_restore_exact],
      [restore_exact], [identities_located],
      [path_free_hides]); a compiled context holds exactly what the answers of the
      provider and the stations select and condense, is
      produced for every good input within a bound of calls, and a failed one is empty
      ([compiled_context], [compile_succeeds], [compile_calls], [failed_compile_empty],
      [partition_greedy], [selection_closed]).
    - Sessions: an accepted patch is its operations one after the other, each changing
      exactly the member or element its pointer names; exactly the fields named differ in
      the end, with as few array edits as possible, where the edit distance is the true one
      ([apply_changes_named_fields], [array_edits_minimal],
      [array_edit_distance_correct]); the validation of a session delta is exactly the
      relation of allowed transitions ([validated_delta_exact]); typed messages arrive
      verbatim and always ([routed_message_verbatim], [direct_message_delivered]); what
      is done without approval is harmless ([admitted_transition]).
    - Scrum board: whatever operations run in whatever order, the board stays well formed
      ([board_well_formed]), commands are refused on a card that has changed and commit
      once ([stale_revision_refused], [command_commits_once]); playing, auto-work and the
      end of a job simulate an abstract lane, one running card and a queue
      ([play_refines_lane], [auto_work_refines_lane], [job_end_releases_card]); moves,
      items and channel pages are exact ([move_exact], [item_mutation_exact],
      [channel_page_contiguous]); flow metrics belong to their card, survive storage and
      are scored without overflow by points and rules stated on their own in
      [ScrumMetrics.v] ([flow_metrics_refreshed], [flow_metrics_roundtrip],
      [flow_score_exact]).
    - Workspace: a reconciliation that succeeds leaves exactly what was desired
      ([reconcile_exact]), whatever fails it stays within what it was asked to change
      ([reconcile_frame]), without failures it returns ([reconcile_completes]), and
      running it again changes nothing, where no file is create-only and no moved source
      is wanted again ([reconcile_idempotent]); it is applied once and
      only to the files that were observed ([apply_verified_guarded]); directory pages
      are exact and continue each other ([directory_page_exact]).
    - Jobs: whatever calls run in whatever order, with any clocks and any changes other
      components make in between, the tables stay well formed ([jobs_well_formed]) and
      history is kept ([history_kept]); one worker at most is accepted for a job
      ([authority_exclusive]) and an attempt that is over can change nothing
      ([lapsed_attempt_fenced]); a command is applied once ([lifecycle_command_once]);
      claims, completions, replans, interruptions and cancellations are exact
      ([claim_exact], [completion_exact], [replan_exact], [interrupt_exact],
      [cancellation_exact]); and a job that can go on is handed to the next worker that
      asks ([claim_progress]).
    - Exact JSON: the walk accepts exactly the objects of the grammar without repeated
      keys ([unique_object_exact]); for a target type with regular fields ([regular] of
      [ExactJsonFacts.v]) an accepted document has only members whose names
      [encoding/json] knows exactly, is decoded as exact names say
      and assigns no place twice ([validated_decode_exact]); canonical texts decode to
      what they were made from and are equal exactly when that is
      ([canonical_exact]).

    Interfaces between parts are type classes: [RelevancePromise],
    [MinificationPromise] and [ProviderPromise] are what the context compiler relies on,
    [Json] and [JsonExact] what the session relies on of its encoding, and [Collation]
    (the order of identities is total) what the order of cards relies on of PostgreSQL.
    What a Scrum transaction reads from outside, the clock, random bytes, the next job
    number, other components' decisions about a job, model routing, is the record [Env],
    an argument of every operation; the theorems hold for every [Env].  So it is for the
    jobs, where the clock of the database is read anew by every statement, and where the
    record [Others] stands for the calls into other components: the theorems assume
    nothing of it, but for [claim_progress], which needs the provider calls of an expired
    attempt to be closed.

    ** Fuel and bounds

    The breadth-first search of [JoinPlan.v] runs on [search_fuel], two more than the
    code's own work bound; [search_total] proves it never runs out.  The scanners of
    [PathIdentity.v] run on the length of the text plus one and advance at every step;
    the free identities of [Planning.v] are searched among one more candidate than there
    are names in use.  The removal of a tree in [Workspace.v] runs on the depth of the file
    system plus two, which [wp_removal] proves to be enough, and a temporary name is
    tried 64 times as in the code.  The Scrum board and the jobs use no fuel: their loops
    run over lists, and the calendar of [Timestamp.v] over the twelve months.  The walk and the parser of
    [ExactJson.v] run on two rounds per byte; [walks] and [reads_back] prove that they
    never run out.  Everything else is structural recursion.

    ** Not modelled

    SQL statements, transactions and row mapping of the repositories other than the Scrum
    board's and the jobs', and what runs between two of their transactions at the same
    time: row locks serialise them, and the rows a concurrent claim would skip are
    [env_locked_job] and [env_locked_step].  The Scrum board and the jobs are two models:
    on the board the generations, steps and records of a job are [env_cancel],
    [env_control] and [env_recorded], in the queue the card of a job is [o_release_card].
    Jobs are admitted with the steps of one of the two pipelines; deleting a job is not
    modelled, and the transactions that combine job statements with those of channel
    sessions and user intents are not among the operations of the jobs.  Of the deletion
    of a project the effect on cards and messages is a step of the board
    ([project_deleted]).  The tag catalogue and the encoding of a card for the channel; the order in
    which Go iterates over a map, where it only chooses which of several errors is
    reported.  The network and process work of workers, transports, host bridge and clients; the locks and mounts
    behind the workspace's mutation fence, hard links, and other processes writing to a
    fenced workspace; HTTP
    handlers and the user interface; prompt texts and the decoding of model output; the
    compilation of generated programs ([internal/assemblyline]'s language fragments,
    [internal/gofragment]), which needs grammars and tool chains; the schema that
    [StateContract] shows to a model; and what an executed session proposal does to the
    database.  Of [encoding/json] the effect on decoded values is modelled and, in
    [ExactJson.v], the scanner, the decoder's tokens and its nesting limit, but not
    [json.Marshal].  How it finds the fields of a struct is stated in [ExactJsonFacts.v]
    ([typeFields], for ASCII names), apart from [exactStructFields] of the repository, so
    that the theorem compares the two; Go types that contain themselves and maps
    with keys that are not strings are not represented.  [time.Time] values are texts, or nanoseconds in the Scrum board.

    ** Plan

    Next would come the freezing and restoring of ledgers around their review
    ([coding_plan_lifecycle.go]), the encoding of a card for the channel, and the validation of evidence
    ([internal/datasource/evidence_validate.go]). *)
From Stdlib Require Import Ascii.
From stdpp Require Import sorting base tactics strings list gmap numbers pretty.
From stdpp Require Import list options.
Open Scope Z_scope.

Declare Scope go_scope.
Delimit Scope go_scope with go.
Open Scope go_scope.

(** ** Results: Go's [(value, error)] pairs

    An operation that returns [(T, error)] is a value of [result T].  An error
    is represented by the format string the source gives to [fmt.Errorf]; the
    values substituted into it are not represented. *)

Inductive result (A : Type) : Type :=
| Ok (a : A)
| Err (e : string).
Arguments Ok {A} a.
Arguments Err {A} e.

#[global] Instance result_eq_dec {A} `{EqDecision A} : EqDecision (result A).
Proof. solve_decision. Defined.

Notation "'let?' x ':=' c 'in' k" :=
  (match c with Ok x => k | Err e => Err e end)
  (at level 10, x name, c at level 100, k at level 200) : go_scope.
Notation "'check' c ';' k" :=
  (match c with Ok _ => k | Err e => Err e end)
  (at level 10, c at level 100, k at level 200) : go_scope.
Notation "'reject' e 'when' b ';' k" :=
  (if b then Err e else k)
  (at level 10, e at level 9, b at level 100, k at level 200) : go_scope.

(** Go's comparisons on comparable types. *)
Notation "a == b" := (bool_decide (a = b)) (at level 70, no associativity) : go_scope.
Notation "a != b" := (negb (bool_decide (a = b))) (at level 70, no associativity) : go_scope.

(** A slice distinguishes [nil] from an empty slice ([reflect.DeepEqual] and
    [encoding/json] tell them apart). *)
Abbreviation slice A := (option (list A)).
Definition elems {A} (s : slice A) : list A := default [] s.

(** [for ... { if err := f(x); err != nil { return err } }] *)
Fixpoint for_each {A} (f : A -> result unit) (l : list A) : result unit :=
  match l with
  | [] => Ok tt
  | x :: l => check f x; for_each f l
  end.

(** The same with loop-carried variables. *)
Fixpoint loop {A S} (f : S -> A -> result S) (s : S) (l : list A) : result S :=
  match l with
  | [] => Ok s
  | x :: l => let? s' := f s x in loop f s' l
  end.

(** A loop that fills a result slice, stopping at the first error. *)
Fixpoint collect {A B} (f : A -> result B) (l : list A) : result (list B) :=
  match l with
  | [] => Ok []
  | x :: l => let? y := f x in let? ys := collect f l in Ok (y :: ys)
  end.

(** Splits every guard and every call on the way to an [Ok]. *)
Ltac split_ok H :=
  repeat match type of H with
  | Ok _ = Ok _ => injection H as H
  | Err _ = Ok _ => discriminate H
  | (if ?b then Err _ else _) = Ok _ => destruct b eqn:?; [discriminate H|]
  | (match ?c with Ok _ => _ | Err _ => Err _ end) = Ok _ =>
      let e := fresh "E" in destruct c eqn:e; [|discriminate H]
  end.

(** Turns boolean guards into propositions. *)
Ltac reflect :=
  repeat match goal with
  | H : bool_decide _ = true |- _ => apply bool_decide_eq_true in H
  | H : bool_decide _ = false |- _ => apply bool_decide_eq_false in H
  | H : negb _ = true |- _ => apply negb_true_iff in H
  | H : negb _ = false |- _ => apply negb_false_iff in H
  | H : (_ || _)%bool = false |- _ => apply orb_false_iff in H; destruct H
  | H : (_ && _)%bool = true |- _ => apply andb_true_iff in H; destruct H
  | H : Z.ltb _ _ = true |- _ => apply Z.ltb_lt in H
  | H : Z.ltb _ _ = false |- _ => apply Z.ltb_ge in H
  | H : Z.leb _ _ = true |- _ => apply Z.leb_le in H
  | H : Z.leb _ _ = false |- _ => apply Z.leb_gt in H
  | H : Z.eqb _ _ = true |- _ => apply Z.eqb_eq in H
  | H : Z.eqb _ _ = false |- _ => apply Z.eqb_neq in H
  end.

(** Evaluates the comparisons of two constants. *)
Ltac consts :=
  repeat match goal with
  | H : context [@bool_decide (?a = ?b) ?d] |- _ =>
      let v := eval vm_compute in (@bool_decide (a = b) d) in
      match v with
      | true => change (@bool_decide (a = b) d) with true in H
      | false => change (@bool_decide (a = b) d) with false in H
      end
  | |- context [@bool_decide (?a = ?b) ?d] =>
      let v := eval vm_compute in (@bool_decide (a = b) d) in
      match v with
      | true => change (@bool_decide (a = b) d) with true
      | false => change (@bool_decide (a = b) d) with false
      end
  end; cbn [negb andb orb] in *; cbv iota in *.

Create HintDb omni.

Lemma for_each_ok {A} (f : A -> result unit) l :
  for_each f l = Ok tt <-> Forall (fun x => f x = Ok tt) l.
Proof.
  induction l as [|x l IH]; simpl; [by split|].
  destruct (f x) as [[]|e] eqn:Hx; rewrite Forall_cons, Hx; [|naive_solver]. by rewrite IH; split; [intros; split|intros [_ ?]].
Qed.

Lemma loop_app {A S} (f : S -> A -> result S) s l1 l2 :
  loop f s (l1 ++ l2) = let? s' := loop f s l1 in loop f s' l2.
Proof. revert s. induction l1 as [|x l IH]; intros s; simpl; [done|]. by destruct (f s x). Qed.

(** Loop invariants: a predicate kept by every successful iteration. *)
Lemma loop_inv {A S} (P : S -> Prop) (f : S -> A -> result S) l s s' :
  (forall s x s', x ∈ l -> P s -> f s x = Ok s' -> P s') ->
  P s -> loop f s l = Ok s' -> P s'.
Proof.
  revert s. induction l as [|x l IH]; intros s Hstep HP Hl; simpl in Hl.
  - by injection Hl as <-.
  - destruct (f s x) as [s1|e] eqn:Hx; [|done].
    apply (IH s1); [|eapply Hstep; [left|exact HP|exact Hx]|done].
    intros s2 y s3 Hy. apply Hstep. by right.
Qed.

(** Every element went through a successful iteration. *)
Lemma loop_forall {A S} (P : A -> Prop) (f : S -> A -> result S) s l s' :
  (forall s x s', f s x = Ok s' -> P x) -> loop f s l = Ok s' -> Forall P l.
Proof.
  intros Hf. revert s. induction l as [|x l IH]; intros s; simpl; [done|].
  destruct (f s x) eqn:E; [|done]. intros ?. constructor; eauto.
Qed.

Lemma collect_ok {A B} (f : A -> result B) l ys :
  collect f l = Ok ys <-> Forall2 (fun x y => f x = Ok y) l ys.
Proof.
  revert ys. induction l as [|x l IH]; intros ys; simpl.
  - split; [intros [= <-]; constructor|by inversion 1].
  - destruct (f x) as [y|e] eqn:Hx; [|split; [done|inversion 1; congruence]].
    destruct (collect f l) as [zs|e] eqn:Hl.
    + split.
      * intros [= <-]. constructor; [done|]. by apply IH.
      * inversion 1 as [|? ? ? ? Hy Hys]; subst. apply IH in Hys. congruence.
    + split; [done|]. inversion 1 as [|? ? ? ? Hy Hys]; subst. apply IH in Hys. congruence.
Qed.

(** ** Machine integers *)

(** Two's-complement wrap-around of Go's [int64] (and [int] on 64-bit). *)
Definition wrap64 (z : Z) : Z := (z + 2 ^ 63) mod 2 ^ 64 - 2 ^ 63.
Definition int64 (z : Z) : Prop := - 2 ^ 63 <= z < 2 ^ 63.

Lemma wrap64_id z : int64 z -> wrap64 z = z.
Proof. unfold wrap64, int64. intros. rewrite Z.mod_small; lia. Qed.
Lemma wrap64_range z : int64 (wrap64 z).
Proof. unfold wrap64, int64. pose proof (Z.mod_pos_bound (z + 2 ^ 63) (2 ^ 64)). lia. Qed.
#[export] Hint Resolve wrap64_range : omni.

(** ** Go strings: byte sequences *)

Definition byte_in (lo hi : N) (a : ascii) : bool :=
  (N.leb lo (Ascii.N_of_ascii a) && N.leb (Ascii.N_of_ascii a) hi)%bool.
Definition is_cont : ascii -> bool := byte_in 128 191.

(** The well-formed multi-byte sequences of package [unicode/utf8]. *)
Definition seq1 (a : ascii) : bool := byte_in 0 127 a.
Definition seq2 (a b : ascii) : bool := (byte_in 194 223 a && is_cont b)%bool.
Definition seq3 (a b c : ascii) : bool :=
  (is_cont c &&
   ((byte_in 224 224 a && byte_in 160 191 b) || (byte_in 225 236 a && is_cont b) ||
    (byte_in 237 237 a && byte_in 128 159 b) || (byte_in 238 239 a && is_cont b)))%bool.
Definition seq4 (a b c d : ascii) : bool :=
  (is_cont c && is_cont d &&
   ((byte_in 240 240 a && byte_in 144 191 b) || (byte_in 241 243 a && is_cont b) ||
    (byte_in 244 244 a && byte_in 128 143 b)))%bool.

(** [utf8.ValidString] *)
Fixpoint valid_utf8 (s : string) : bool :=
  match s with
  | EmptyString => true
  | String a s1 =>
      if seq1 a then valid_utf8 s1 else
      match s1 with
      | EmptyString => false
      | String b s2 =>
          if seq2 a b then valid_utf8 s2 else
          match s2 with
          | EmptyString => false
          | String c s3 =>
              if seq3 a b c then valid_utf8 s3 else
              match s3 with
              | EmptyString => false
              | String d s4 => (seq4 a b c d && valid_utf8 s4)%bool
              end
          end
      end
  end.

(** U+FFFD in UTF-8. *)
Definition replacement : string :=
  String (Ascii.ascii_of_N 239) (String (Ascii.ascii_of_N 191) (String (Ascii.ascii_of_N 189) "")).

(** What a string becomes when [encoding/json] encodes and decodes it: every
    byte that does not start a well-formed sequence turns into U+FFFD. *)
Fixpoint json_text (s : string) : string :=
  match s with
  | EmptyString => EmptyString
  | String a s1 =>
      if seq1 a then String a (json_text s1) else
      match s1 with
      | EmptyString => replacement
      | String b s2 =>
          if seq2 a b then String a (String b (json_text s2)) else
          match s2 with
          | EmptyString => replacement +:+ json_text s1
          | String c s3 =>
              if seq3 a b c then String a (String b (String c (json_text s3))) else
              match s3 with
              | EmptyString => replacement +:+ json_text s1
              | String d s4 =>
                  if seq4 a b c d
                  then String a (String b (String c (String d (json_text s4))))
                  else replacement +:+ json_text s1
              end
          end
      end
  end.

Lemma json_text_valid s : valid_utf8 s = true -> json_text s = s.
Proof.
  remember (String.length s) as n eqn:Hn. revert s Hn.
  induction n as [n IH] using lt_wf_ind; intros s -> Hv.
  destruct s as [|a s1]; [done|]. simpl in *.
  destruct (seq1 a); [by rewrite (IH (String.length s1)) by (done || lia)|].
  destruct s1 as [|b s2]; [done|]. simpl in *.
  destruct (seq2 a b); [by rewrite (IH (String.length s2)) by (done || lia)|].
  destruct s2 as [|c s3]; [done|]. simpl in *.
  destruct (seq3 a b c); [by rewrite (IH (String.length s3)) by (done || lia)|].
  destruct s3 as [|d s4]; [done|]. simpl in *.
  apply andb_true_iff in Hv as [-> Hv].
  by rewrite (IH (String.length s4)) by (done || lia).
Qed.

(** [unicode.IsSpace] on the encodings of the White_Space characters. *)
Definition space1 (a : ascii) : bool := (byte_in 9 13 a || byte_in 32 32 a)%bool.
Definition space2 (a b : ascii) : bool :=
  (byte_in 194 194 a && (byte_in 133 133 b || byte_in 160 160 b))%bool.
Definition space3 (a b c : ascii) : bool :=
  ((byte_in 225 225 a && byte_in 154 154 b && byte_in 128 128 c) ||
   (byte_in 226 226 a && byte_in 128 128 b &&
     (byte_in 128 138 c || byte_in 168 169 c || byte_in 175 175 c)) ||
   (byte_in 226 226 a && byte_in 129 129 b && byte_in 159 159 c) ||
   (byte_in 227 227 a && byte_in 128 128 b && byte_in 128 128 c))%bool.

Fixpoint trim_left (l : list ascii) : list ascii :=
  match l with
  | [] => []
  | a :: l1 =>
      if space1 a then trim_left l1 else
      match l1 with
      | [] => l
      | b :: l2 =>
          if space2 a b then trim_left l2 else
          match l2 with
          | [] => l
          | c :: l3 => if space3 a b c then trim_left l3 else l
          end
      end
  end.

(** The same from the end, on the reversed bytes. *)
Fixpoint trim_right_rev (l : list ascii) : list ascii :=
  match l with
  | [] => []
  | c :: l1 =>
      if space1 c then trim_right_rev l1 else
      match l1 with
      | [] => l
      | b :: l2 =>
          if space2 b c then trim_right_rev l2 else
          match l2 with
          | [] => l
          | a :: l3 => if space3 a b c then trim_right_rev l3 else l
          end
      end
  end.

(** [strings.TrimSpace] *)
Definition trim_space (s : string) : string :=
  String.string_of_list_ascii
    (reverse (trim_right_rev (reverse (trim_left (String.list_ascii_of_string s))))).

(** [strings.TrimSpace(s) == ""] *)
Definition blank (s : string) : bool := trim_space s == "".

(** [strings.ContainsAny] for an ASCII set of bytes. *)
Definition contains_any (s : string) (set : list ascii) : bool :=
  existsb (fun a => bool_decide (a ∈ set)) (String.list_ascii_of_string s).
Definition byte (n : N) : ascii := Ascii.ascii_of_N n.
(** ["\x00\r\n"] *)
Definition control_bytes : list ascii := [byte 0; byte 13; byte 10].

(** Go's [<] on strings is the bytewise lexicographic order. *)
Definition str_lt (a b : string) : bool := String.ltb a b.
Definition has_prefix (s p : string) : bool := String.prefix p s.

Lemma str_lt_irrefl a : str_lt a a = false.
Proof.
  unfold str_lt, String.ltb. pose proof (String.compare_antisym a a) as H.
  by destruct (String.compare a a).
Qed.

Lemma str_lt_le a b : str_lt a b = false <-> String.le b a.
Proof.
  unfold str_lt, String.ltb, String.le, String.leb.
  rewrite (String.compare_antisym b a). by destruct (String.compare a b).
Qed.

Lemma str_lt_total a b : a <> b -> str_lt a b = true \/ str_lt b a = true.
Proof.
  unfold str_lt, String.ltb. rewrite (String.compare_antisym b a).
  destruct (String.compare a b) eqn:E; simpl; auto.
  by apply String.compare_eq_iff in E.
Qed.

(** ** Duplicate detection with a [seen] set

    The code's idiom: walk a slice, reject an element whose key was already
    seen or which is itself invalid, and record the key. *)
Section seen.
Context {A K : Type} `{Countable K} (key : A -> K) (P : A -> Prop).
Context (f : gset K -> A -> result (gset K)).
Hypothesis f_ok : forall seen x s',
  f seen x = Ok s' <-> key x ∉ seen /\ P x /\ s' = ({[ key x ]} ∪ seen).

Lemma loop_seen seen l :
  (exists s', loop f seen l = Ok s') <->
  NoDup (key <$> l) /\ Forall P l /\ Forall (fun x => key x ∉ seen) l.
Proof using f_ok.
  revert seen. induction l as [|x l IH]; intros seen; simpl.
  - split; [by repeat constructor|eauto].
  - destruct (f seen x) as [s1|e] eqn:Hx.
    + apply f_ok in Hx as (Hnew & HP & ->).
      rewrite IH, NoDup_cons, !Forall_cons, !Forall_forall, list_elem_of_fmap.
      split.
      * intros (Hnd & HPl & Hs). split_and!; try done.
        -- intros (y & Hy & Hin). specialize (Hs y Hin). set_solver.
        -- intros y Hin. specialize (Hs y Hin). set_solver.
      * intros ([Hno Hnd] & [_ HPl] & [_ Hs]). split_and!; try done.
        intros y Hin. rewrite elem_of_union, elem_of_singleton.
        intros [Hy|Hy]; [apply Hno; eauto|by apply (Hs y Hin)].
    + split; [by intros [? ?]|]. rewrite NoDup_cons, !Forall_cons.
      intros (_ & [HP _] & [Hno _]). exfalso.
      assert (f seen x = Ok ({[ key x ]} ∪ seen)) as Hx2 by (by apply f_ok).
      congruence.
Qed.
End seen.

(** The loop's success as an equation on [result unit]. *)
Lemma check_loop_ok {A S} (f : S -> A -> result S) s l :
  (check (loop f s l); (Ok tt)) = Ok tt <-> exists s', loop f s l = Ok s'.
Proof. destruct (loop f s l); naive_solver. Qed.
