(* ===== verification/Ledger.v ===== *)
(** * The engineering ledger: data model and validation

    Models [internal/model/coding_ledger.go] (items, tasks, owner-turn
    dispositions, mutations and their validators) and the projection
    [CodingPlan] of [internal/model/coding_plan.go].  String-typed enums stay
    strings, since the code receives them from JSON and rejects the unknown
    ones itself. *)
From S2P Require Import Prelude.
From stdpp Require Import base tactics strings list gmap.
From stdpp Require Import list options.
Open Scope Z_scope.
Open Scope go_scope.

(** ** Enumerations *)

Definition LedgerDispositionActive : string := "active".
Definition LedgerDispositionTombstoned : string := "tombstoned".

Definition LedgerReviewProposed : string := "proposed".
Definition LedgerReviewAgreed : string := "agreed".
Definition LedgerReviewNeedsDiscussion : string := "needs_discussion".

Definition OwnerTurnRepresented : string := "represented".
Definition OwnerTurnOutOfScope : string := "out_of_scope".

Definition LedgerMutationAdd : string := "add".
Definition LedgerMutationAmend : string := "amend".
Definition LedgerMutationRemove : string := "remove".
Definition LedgerMutationRestore : string := "restore".
Definition LedgerMutationReview : string := "set_review_state".
Definition LedgerMutationReorder : string := "reorder".

(** ** Records *)

Record LedgerProvenance := mkProvenance {
  prov_Kind : string;
  prov_Reference : string;
  prov_Revision : Z
}.

Record LedgerItem := mkItem {
  li_ID : string;
  li_Provenance : LedgerProvenance;
  li_Rationale : string;
  li_Rank : Z;
  li_Disposition : string;
  li_ReviewState : string
}.

Record TaskContext := mkTaskContext {
  tc_Text : string;
  tc_Provenance : LedgerProvenance
}.

Record TaskFileResponsibility := mkTaskFileResponsibility {
  tfr_Path : string;
  tfr_Action : string;
  tfr_Responsibility : string
}.

Record TaskAcceptance := mkTaskAcceptance {
  ta_ID : string;
  ta_Text : string;
  ta_Verification : slice string
}.

Record LedgerTask := mkTask {
  lt_Item : LedgerItem;
  lt_Goal : string;
  lt_Objective : string;
  lt_OwnerContext : slice TaskContext;
  lt_Constraints : slice string;
  lt_FileResponsibilities : slice TaskFileResponsibility;
  lt_Acceptance : slice TaskAcceptance;
  lt_ReadFiles : slice string;
  lt_WriteFiles : slice string;
  lt_DeleteFiles : slice string
}.

Record EngineeringLedger := mkLedger {
  el_ID : string;
  el_Revision : Z;
  el_Tasks : list LedgerTask
}.

Record OwnerStatementDisposition := mkStatement {
  os_Kind : string;
  os_ItemIDs : list string;
  os_Reason : string
}.

Record OwnerTurnDisposition := mkDisposition {
  od_Statements : list OwnerStatementDisposition
}.

Record LedgerMutationItem := mkMutationItem {
  lmi_Task : option LedgerTask
}.

Record LedgerMutationOperation := mkOperation {
  op_Kind : string;
  op_TargetID : string;
  op_Item : option LedgerMutationItem;
  op_ReviewState : string;
  op_Rank : option Z;
  op_Rationale : string
}.

Record LedgerMutation := mkMutation {
  lm_OperationID : string;
  lm_BaseRevision : Z;
  lm_OwnerTurnID : string;
  lm_OwnerTurnDisposition : OwnerTurnDisposition;
  lm_Operations : list LedgerMutationOperation
}.

#[global] Instance LedgerProvenance_eq_dec : EqDecision LedgerProvenance.
Proof. solve_decision. Defined.
#[global] Instance LedgerItem_eq_dec : EqDecision LedgerItem.
Proof. solve_decision. Defined.
#[global] Instance TaskContext_eq_dec : EqDecision TaskContext.
Proof. solve_decision. Defined.
#[global] Instance TaskFileResponsibility_eq_dec : EqDecision TaskFileResponsibility.
Proof. solve_decision. Defined.
#[global] Instance TaskAcceptance_eq_dec : EqDecision TaskAcceptance.
Proof. solve_decision. Defined.
#[global] Instance LedgerTask_eq_dec : EqDecision LedgerTask.
Proof. solve_decision. Defined.
#[global] Instance EngineeringLedger_eq_dec : EqDecision EngineeringLedger.
Proof. solve_decision. Defined.
#[global] Instance LedgerMutationItem_eq_dec : EqDecision LedgerMutationItem.
Proof. solve_decision. Defined.
#[global] Instance LedgerMutationOperation_eq_dec : EqDecision LedgerMutationOperation.
Proof. solve_decision. Defined.
#[global] Instance OwnerStatementDisposition_eq_dec : EqDecision OwnerStatementDisposition.
Proof. solve_decision. Defined.

(** The promoted fields of the embedded [LedgerItem]. *)
Definition lt_ID (t : LedgerTask) : string := li_ID (lt_Item t).
Definition lt_Rank (t : LedgerTask) : Z := li_Rank (lt_Item t).
Definition lt_Disposition (t : LedgerTask) : string := li_Disposition (lt_Item t).
Definition lt_ReviewState (t : LedgerTask) : string := li_ReviewState (lt_Item t).

(** Field updates. *)
Definition with_item (t : LedgerTask) (i : LedgerItem) : LedgerTask :=
  mkTask i (lt_Goal t) (lt_Objective t) (lt_OwnerContext t) (lt_Constraints t)
    (lt_FileResponsibilities t) (lt_Acceptance t) (lt_ReadFiles t) (lt_WriteFiles t)
    (lt_DeleteFiles t).
Definition item_with_review (i : LedgerItem) (r : string) : LedgerItem :=
  mkItem (li_ID i) (li_Provenance i) (li_Rationale i) (li_Rank i) (li_Disposition i) r.
Definition item_with_disposition (i : LedgerItem) (d r : string) : LedgerItem :=
  mkItem (li_ID i) (li_Provenance i) (li_Rationale i) (li_Rank i) d r.
Definition item_with_rank (i : LedgerItem) (r : Z) : LedgerItem :=
  mkItem (li_ID i) (li_Provenance i) (li_Rationale i) r (li_Disposition i) (li_ReviewState i).
Definition with_rank (t : LedgerTask) (r : Z) : LedgerTask :=
  with_item t (item_with_rank (lt_Item t) r).
Definition ledger_with_tasks (l : EngineeringLedger) (ts : list LedgerTask) : EngineeringLedger :=
  mkLedger (el_ID l) (el_Revision l) ts.
Definition ledger_with_revision (l : EngineeringLedger) (r : Z) : EngineeringLedger :=
  mkLedger (el_ID l) r (el_Tasks l).

Definition task_ids (l : EngineeringLedger) : list string := lt_ID <$> el_Tasks l.

(** ** Validation *)

Definition ValidateTaskFileReference (value : string) : result unit :=
  reject "task file reference must be nonblank UTF-8 text of at most 4096 bytes"
    when (blank value || negb (valid_utf8 value) || contains_any value control_bytes)%bool;
  Ok tt.

Definition validate_file_group (seen : gset string) (file : string) : result (gset string) :=
  match ValidateTaskFileReference file with
  | Err _ => Err "task %s has invalid %s file %q"
  | Ok _ =>
      reject "task %s repeats %s file %q" when bool_decide (file ∈ seen);
      Ok ({[ file ]} ∪ seen)
  end.

Definition validateLedgerTaskFiles (task : LedgerTask) : result unit :=
  for_each
    (fun files => check loop validate_file_group ∅ (elems files); Ok tt)
    [lt_ReadFiles task; lt_WriteFiles task; lt_DeleteFiles task].

Definition RepresentedOwnerTurn (itemIDs : list string) : OwnerTurnDisposition :=
  mkDisposition [mkStatement OwnerTurnRepresented itemIDs ""].

Definition OutOfScopeOwnerTurn (reason : string) : OwnerTurnDisposition :=
  mkDisposition [mkStatement OwnerTurnOutOfScope [] reason].

Definition validateLedgerItemIDs (ids : list string) : result unit :=
  reject "%s requires item references" when bool_decide (ids = []);
  for_each (fun id => reject "%s contains a blank item reference" when blank id; Ok tt) ids.

Definition validate_statement (d : OwnerStatementDisposition) : result unit :=
  if os_Kind d == OwnerTurnRepresented then
    check validateLedgerItemIDs (os_ItemIDs d);
    reject "represented owner turn contains fields from another disposition"
      when (os_Reason d != "");
    Ok tt
  else if os_Kind d == OwnerTurnOutOfScope then
    reject "out-of-scope owner turn requires a reason" when blank (os_Reason d);
    reject "out-of-scope owner turn contains fields from another disposition"
      when negb (bool_decide (os_ItemIDs d = []));
    Ok tt
  else Err "owner statement requires a disposition".

Definition valid_review_state (r : string) : bool :=
  ((r == LedgerReviewProposed) || (r == LedgerReviewAgreed) || (r == LedgerReviewNeedsDiscussion))%bool.

Definition validate_item (item : LedgerItem) : result unit :=
  reject "ledger item requires a stable identity" when blank (li_ID item);
  reject "ledger item %s requires provenance"
    when (blank (prov_Kind (li_Provenance item)) || blank (prov_Reference (li_Provenance item))
          || (prov_Revision (li_Provenance item) <? 0))%bool;
  reject "ledger item %s has invalid rank" when (li_Rank item <? 0);
  if li_Disposition item == LedgerDispositionActive then
    reject "active ledger item %s requires a review state"
      when negb (valid_review_state (li_ReviewState item));
    Ok tt
  else if li_Disposition item == LedgerDispositionTombstoned then
    reject "tombstoned ledger item %s cannot have a review state"
      when (li_ReviewState item != "");
    Ok tt
  else Err "ledger item %s has invalid disposition".

(** [LedgerMutationItem.validate]: the identity of the payload, or its error. *)
Definition validate_mutation_item (item : LedgerMutationItem) : result string :=
  match lmi_Task item with
  | None => Err "task payload is required"
  | Some task =>
      check validate_item (lt_Item task);
      reject "task %s requires instructions" when blank (lt_Goal task);
      check validateLedgerTaskFiles task;
      Ok (lt_ID task)
  end.

Definition mutation_item_count (item : LedgerMutationItem) : Z :=
  match lmi_Task item with Some _ => 1 | None => 0 end.

Definition validate_ledger_task (seen : gset string) (task : LedgerTask) : result (gset string) :=
  reject "duplicate task %s" when bool_decide (lt_ID task ∈ seen);
  check validate_mutation_item (mkMutationItem (Some task));
  Ok ({[ lt_ID task ]} ∪ seen).

(** [EngineeringLedger.Validate]; [ValidateDraft] is the same function. *)
Definition validate_ledger (ledger : EngineeringLedger) : result unit :=
  reject "ledger requires an identity and non-negative revision"
    when (blank (el_ID ledger) || (el_Revision ledger <? 0))%bool;
  check loop validate_ledger_task ∅ (el_Tasks ledger);
  Ok tt.

(** The [switch operation.Kind] of [LedgerMutation.Validate]. *)
Definition validate_operation (operation : LedgerMutationOperation) : result unit :=
  let targetSet := op_TargetID operation != "" in
  let targetValid := negb (blank (op_TargetID operation)) in
  let kind := op_Kind operation in
  if ((kind == LedgerMutationAdd) || (kind == LedgerMutationAmend))%bool then
    match op_Item operation with
    | None => Err "%s operation requires exactly one typed item"
    | Some item =>
        reject "%s operation requires exactly one typed item"
          when negb (mutation_item_count item =? 1);
        reject "%s operation contains fields from another operation"
          when ((op_ReviewState operation != "") || negb (bool_decide (op_Rank operation = None)))%bool;
        reject "add operation contains fields from another operation"
          when ((kind == LedgerMutationAdd) && targetSet)%bool;
        reject "amend operation requires a target"
          when ((kind == LedgerMutationAmend) && negb targetValid)%bool;
        match validate_mutation_item item with
        | Err _ => Err "%s operation has invalid payload: %w"
        | Ok payloadID =>
            reject "add operation item %s must start active and proposed"
              when ((kind == LedgerMutationAdd) &&
                    match lmi_Task item with
                    | Some t => (lt_Disposition t != LedgerDispositionActive)
                                || (lt_ReviewState t != LedgerReviewProposed)
                    | None => true
                    end)%bool;
            reject "amend operation payload identity %s does not match target %s"
              when ((kind == LedgerMutationAmend) && (payloadID != op_TargetID operation))%bool;
            Ok tt
        end
    end
  else if ((kind == LedgerMutationRemove) || (kind == LedgerMutationRestore))%bool then
    reject "%s operation requires only a target"
      when (negb targetValid || negb (bool_decide (op_Item operation = None))
            || (op_ReviewState operation != "") || negb (bool_decide (op_Rank operation = None)))%bool;
    Ok tt
  else if kind == LedgerMutationReview then
    reject "review operation requires only a target and valid state"
      when (negb targetValid || negb (bool_decide (op_Item operation = None))
            || negb (bool_decide (op_Rank operation = None))
            || negb (valid_review_state (op_ReviewState operation)))%bool;
    Ok tt
  else if kind == LedgerMutationReorder then
    reject "reorder operation requires only a target and rank"
      when (negb targetValid || negb (bool_decide (op_Item operation = None))
            || (op_ReviewState operation != "")
            || match op_Rank operation with None => true | Some r => r <? 0 end)%bool;
    Ok tt
  else Err "unknown ledger mutation operation %q".

(** One iteration of the operation loop; [seen] is [seenOperations]. *)
Definition validate_operation_step (seen : list LedgerMutationOperation)
    (operation : LedgerMutationOperation) : result (list LedgerMutationOperation) :=
  reject "ledger mutation contains an exact duplicate operation"
    when existsb (fun prior => prior == operation) seen;
  check validate_operation operation;
  Ok (seen ++ [operation]).

Definition validate_mutation (mutation : LedgerMutation) : result unit :=
  reject "ledger mutation requires operation identity, exact base revision and owner turn"
    when (blank (lm_OperationID mutation) || (lm_BaseRevision mutation <? 0)
          || blank (lm_OwnerTurnID mutation))%bool;
  let statements := od_Statements (lm_OwnerTurnDisposition mutation) in
  let operations := lm_Operations mutation in
  reject "ledger mutation requires owner-statement dispositions"
    when bool_decide (statements = []);
  let hasMaterialDisposition :=
    existsb (fun s => os_Kind s != OwnerTurnOutOfScope) statements in
  reject "ledger mutation requires typed operations"
    when (bool_decide (operations = []) && hasMaterialDisposition)%bool;
  check for_each
    (fun d =>
       check validate_statement d;
       reject "out-of-scope owner turn contains fields or operations from another disposition"
         when ((os_Kind d == OwnerTurnOutOfScope) && (Nat.eqb (length statements) 1)
               && negb (bool_decide (operations = [])))%bool;
       Ok tt) statements;
  check loop validate_operation_step [] operations;
  Ok tt.

(** ** What the validators accept *)

Definition file_ok (f : string) : Prop := ValidateTaskFileReference f = Ok tt.
Definition files_ok (fs : slice string) : Prop := NoDup (elems fs) /\ Forall file_ok (elems fs).

(** An active item carries one of the three review states, a tombstone none. *)
Record item_ok (i : LedgerItem) : Prop := {
  item_ok_id : blank (li_ID i) = false;
  item_ok_kind : blank (prov_Kind (li_Provenance i)) = false;
  item_ok_reference : blank (prov_Reference (li_Provenance i)) = false;
  item_ok_revision : 0 <= prov_Revision (li_Provenance i);
  item_ok_rank : 0 <= li_Rank i;
  item_ok_state :
    (li_Disposition i = LedgerDispositionActive /\ valid_review_state (li_ReviewState i) = true) \/
    (li_Disposition i = LedgerDispositionTombstoned /\ li_ReviewState i = "")
}.

Record task_ok (t : LedgerTask) : Prop := {
  task_ok_item : item_ok (lt_Item t);
  task_ok_goal : blank (lt_Goal t) = false;
  task_ok_read : files_ok (lt_ReadFiles t);
  task_ok_write : files_ok (lt_WriteFiles t);
  task_ok_delete : files_ok (lt_DeleteFiles t)
}.

Record ledger_ok (l : EngineeringLedger) : Prop := {
  ledger_ok_id : blank (el_ID l) = false;
  ledger_ok_revision : 0 <= el_Revision l;
  ledger_ok_nodup : NoDup (task_ids l);
  ledger_ok_tasks : Forall task_ok (el_Tasks l)
}.

Lemma validate_item_ok i : validate_item i = Ok tt <-> item_ok i.
Proof.
  unfold validate_item. split.
  - intros H. split_ok H. reflect.
    destruct (bool_decide _) eqn:Ha in H; split_ok H; reflect; [constructor; auto|].
    destruct (bool_decide _) eqn:Ht in H; split_ok H; reflect. constructor; auto.
  - intros [-> -> -> Hrev Hrank Hst]. simpl.
    rewrite (proj2 (Z.ltb_ge _ _) Hrev), (proj2 (Z.ltb_ge _ _) Hrank).
    by destruct Hst as [[-> ->]|[-> ->]].
Qed.

Lemma files_loop_ok fs :
  (check loop validate_file_group ∅ (elems fs); Ok tt) = Ok tt <-> files_ok fs.
Proof.
  rewrite check_loop_ok, (loop_seen id file_ok).
  - unfold files_ok. rewrite list_fmap_id. split; [tauto|].
    intros [? ?]. split_and!; try done. apply Forall_true. set_solver.
  - intros seen x s'. unfold validate_file_group, file_ok.
    destruct (ValidateTaskFileReference x) as [[]|e]; [|naive_solver].
    case_bool_decide; naive_solver.
Qed.

Lemma validate_files_ok t :
  validateLedgerTaskFiles t = Ok tt <->
  files_ok (lt_ReadFiles t) /\ files_ok (lt_WriteFiles t) /\ files_ok (lt_DeleteFiles t).
Proof.
  unfold validateLedgerTaskFiles. rewrite for_each_ok, !Forall_cons, !files_loop_ok. 
  naive_solver.
Qed.

Lemma validate_mutation_item_ok t id :
  validate_mutation_item (mkMutationItem (Some t)) = Ok id <-> task_ok t /\ id = lt_ID t.
Proof.
  unfold validate_mutation_item. simpl. split.
  - intros H. split_ok H. repeat match goal with u : unit |- _ => destruct u end.
    rewrite validate_item_ok, validate_files_ok in *. naive_solver (constructor; auto).
  - intros [[Hi Hg Hr Hw Hd] ->]. rewrite (proj2 (validate_item_ok _) Hi), Hg.
    by rewrite (proj2 (validate_files_ok t)).
Qed.

Lemma validate_ledger_ok l : validate_ledger l = Ok tt <-> ledger_ok l.
Proof.
  assert (Hloop : (check loop validate_ledger_task ∅ (el_Tasks l); Ok tt) = Ok tt <->
    NoDup (task_ids l) /\ Forall task_ok (el_Tasks l)).
  { rewrite check_loop_ok, (loop_seen lt_ID task_ok).
    - unfold task_ids. split; [tauto|]. intros [? ?]. split_and!; try done.
      apply Forall_true. set_solver.
    - intros seen t s'. unfold validate_ledger_task. case_bool_decide; [naive_solver|].
      destruct (validate_mutation_item _) as [id|e] eqn:E.
      + apply validate_mutation_item_ok in E. naive_solver.
      + split; [done|]. intros (_ & Ht & _). exfalso.
        by rewrite (proj2 (validate_mutation_item_ok t _) (conj Ht eq_refl)) in E. }
  unfold validate_ledger. split.
  - intros H. destruct (_ || _)%bool eqn:E in H; [done|]. apply Hloop in H as [? ?]. reflect.
    by constructor.
  - intros [-> Hr Hn Ht]. rewrite (proj2 (Z.ltb_ge _ _) Hr). by apply Hloop.
Qed.
