(* ===== verification/Planning.v ===== *)
(** * Planning: direct edits, the mutation preview, and task order

    Models the code-owned half of [internal/codingagent]: the typed UI actions
    ([planning_mutation.go], [manual_ledger_order.go]), the preview
    [ApplyPlanningMutation], the identity binding of [planning_parser_result.go],
    the model-proposed task order ([task_ordering.go], [planning_ordering.go])
    and the predecessors shown to a planner ([planning_prerequisites.go]). *)
From S2P Require Import Prelude Ledger.
From stdpp Require Import sorting base tactics strings list gmap numbers pretty.
From stdpp Require Import list options.
Open Scope Z_scope.
Open Scope go_scope.

(** ** Turns and actions *)

Record PlanningDirection := mkDirection {
  pd_OperationID : string;
  pd_Text : string
}.

Record PlanningTurn := mkTurn {
  pt_ItemID : string;
  pt_OperationID : string;
  pt_OwnerTurnID : string;
  pt_Text : string;
  pt_ObservedRevision : Z;
  pt_NewerOwnerDirection : option PlanningDirection
}.

Record DirectPlanningAction := mkAction {
  da_Move : Z;
  da_Item : option LedgerTask;
  da_Kind : string;
  da_TargetID : string;
  da_ReviewState : string;
  da_Rank : option Z;
  da_Rationale : string
}.

(** [PlanningTurn.validate] *)
Definition validate_turn (turn : PlanningTurn) (initial : bool) : result unit :=
  reject "planning turn requires operation, owner-turn, and exact text authority"
    when (blank (pt_OperationID turn) || blank (pt_OwnerTurnID turn) || blank (pt_Text turn))%bool;
  if initial then
    reject "initial planning turn must observe revision zero"
      when negb (pt_ObservedRevision turn =? 0);
    Ok tt
  else
    reject "planning mutation requires an observed proposal revision"
      when (pt_ObservedRevision turn <? 1);
    Ok tt.

Definition ValidateLedgerMutation (currentRevision : Z) (mutation : LedgerMutation) : result unit :=
  reject "ledger mutation base revision %d is stale; current revision is %d"
    when negb (lm_BaseRevision mutation =? currentRevision);
  validate_mutation mutation.

(** ** Order: [Rank], then identity *)

Definition task_less (a b : LedgerTask) : bool :=
  ((lt_Rank a <? lt_Rank b) ||
   ((lt_Rank a =? lt_Rank b) && str_lt (lt_ID a) (lt_ID b)))%bool.
Definition task_le (a b : LedgerTask) : Prop := task_less b a = false.
#[global] Instance task_le_dec : RelDecision task_le.
Proof. intros a b. unfold task_le. apply _. Defined.

(** [sort.Slice] and [sort.SliceStable] with that comparison. *)
Definition sort_tasks (ts : list LedgerTask) : list LedgerTask := merge_sort task_le ts.

Definition active (t : LedgerTask) : bool := lt_Disposition t == LedgerDispositionActive.
Definition active_tasks (l : EngineeringLedger) : list LedgerTask :=
  List.filter active (el_Tasks l).

(** ** [moveLedgerItem] *)

Definition index_of (id : string) (ts : list LedgerTask) : option nat :=
  fst <$> list_find (fun t => lt_ID t = id) ts.

(** [tasks[i], tasks[j] = tasks[j], tasks[i]] for indices in range *)
Definition swap {A} (i j : nat) (l : list A) : list A :=
  match l !! i, l !! j with
  | Some x, Some y => <[i := y]> (<[j := x]> l)
  | _, _ => l
  end.

Definition reorder_op (id : string) (rank : Z) (rationale : string) : LedgerMutationOperation :=
  mkOperation LedgerMutationReorder id None "" (Some rank) rationale.

(** The loop that numbers the tasks and keeps the operations that change a rank. *)
Definition renumber_ops (rationale : string) (ts : list LedgerTask) : list LedgerMutationOperation :=
  concat (imap (fun i t =>
    if negb (lt_Rank t =? Z.of_nat i) then [reorder_op (lt_ID t) (Z.of_nat i) rationale] else []) ts).

Definition moveLedgerItem (ledger : EngineeringLedger) (turn : PlanningTurn)
    (action : DirectPlanningAction) : result LedgerMutation :=
  let tasks := sort_tasks (active_tasks ledger) in
  match index_of (da_TargetID action) tasks with
  | None => Err "selected task is unavailable"
  | Some selected =>
      let neighbor := Z.to_nat (Z.max 0 (Z.min (Z.of_nat (length tasks) - 1)
                        (wrap64 (Z.of_nat selected + da_Move action)))) in
      match tasks !! selected, tasks !! neighbor with
      | Some ts, Some tn =>
          let selectedRank := lt_Rank ts in
          let neighborRank := lt_Rank tn in
          let clash := existsb (fun '(i, t) =>
            (negb (Nat.eqb i selected) && negb (Nat.eqb i neighbor) &&
             ((lt_Rank t =? selectedRank) || (lt_Rank t =? neighborRank)))%bool)
            (imap pair tasks) in
          let unique := (negb (Nat.eqb selected neighbor) && negb (selectedRank =? neighborRank)
                         && negb clash)%bool in
          if unique then
            let mutation := mkMutation (pt_OperationID turn) (pt_ObservedRevision turn)
              (pt_OwnerTurnID turn) (RepresentedOwnerTurn [lt_ID ts; lt_ID tn])
              [reorder_op (lt_ID ts) neighborRank (da_Rationale action);
               reorder_op (lt_ID tn) selectedRank (da_Rationale action)] in
            check validate_mutation mutation; Ok mutation
          else
            let tasks := swap selected neighbor tasks in
            let operations := renumber_ops (da_Rationale action) tasks in
            let operations :=
              match operations, tasks !! neighbor with
              | [], Some t => [reorder_op (da_TargetID action) (lt_Rank t) (da_Rationale action)]
              | _, _ => operations
              end in
            let mutation := mkMutation (pt_OperationID turn) (pt_ObservedRevision turn)
              (pt_OwnerTurnID turn) (RepresentedOwnerTurn (op_TargetID <$> operations)) operations in
            check validate_mutation mutation; Ok mutation
      | _, _ => Err "index out of range"
      end
  end.

(** ** [bindPlanningDetails] *)

Definition criterion_name (n : Z) : string := "criterion_" +:+ pretty n.

(** [for used[fmt.Sprintf("criterion_%d", next)] { next++ }] *)
Fixpoint next_free (fuel : nat) (used : gset string) (next : Z) : Z :=
  match fuel with
  | O => next
  | S fuel => if bool_decide (criterion_name next ∈ used) then next_free fuel used (next + 1) else next
  end.

Definition bind_criterion (criteria : gmap string string)
    (st : Z * gset string * list TaskAcceptance) (criterion : TaskAcceptance) :=
  let '(next, used, out) := st in
  match criteria !! ta_Text criterion with
  | Some retained => (next, used, out ++ [mkTaskAcceptance retained (ta_Text criterion) (ta_Verification criterion)])
  | None =>
      let next := next_free (S (size used)) used next in
      let name := criterion_name next in
      (next, {[ name ]} ∪ used, out ++ [mkTaskAcceptance name (ta_Text criterion) (ta_Verification criterion)])
  end.

Definition original_contexts (original : option LedgerTask) : gmap string LedgerProvenance :=
  match original with
  | None => ∅
  | Some o => foldl (fun m v => <[tc_Text v := tc_Provenance v]> m) ∅ (elems (lt_OwnerContext o))
  end.
Definition original_criteria (original : option LedgerTask) : gmap string string :=
  match original with
  | None => ∅
  | Some o => foldl (fun m v => <[ta_Text v := ta_ID v]> m) ∅ (elems (lt_Acceptance o))
  end.
Definition original_used (original : option LedgerTask) : gset string :=
  match original with
  | None => ∅
  | Some o => list_to_set (ta_ID <$> elems (lt_Acceptance o))
  end.

Definition bindPlanningDetails (task : LedgerTask) (original : option LedgerTask)
    (provenance : LedgerProvenance) : LedgerTask :=
  let contexts := original_contexts original in
  let criteria := original_criteria original in
  let used := original_used original in
  let bound_contexts :=
    fmap (M := option) (fmap (M := list) (fun c =>
      mkTaskContext (tc_Text c) (default provenance (contexts !! tc_Text c)))) (lt_OwnerContext task) in
  let bound_acceptance :=
    fmap (M := option) (fun cs => (foldl (bind_criterion criteria) (1, used, []) cs).2)
      (lt_Acceptance task) in
  mkTask (lt_Item task) (lt_Goal task) (lt_Objective task) bound_contexts (lt_Constraints task)
    (lt_FileResponsibilities task) bound_acceptance (lt_ReadFiles task) (lt_WriteFiles task)
    (lt_DeleteFiles task).

(** ** Direct mutations *)

Definition DirectPlanningMutation (turn : PlanningTurn) (action : DirectPlanningAction)
    : result LedgerMutation :=
  check validate_turn turn false;
  reject "direct planning action %q requires semantic interpretation"
    when negb ((da_Kind action == LedgerMutationRemove) || (da_Kind action == LedgerMutationRestore)
               || (da_Kind action == LedgerMutationReview) || (da_Kind action == LedgerMutationReorder))%bool;
  let operation := mkOperation (da_Kind action) (da_TargetID action) None (da_ReviewState action)
                     (da_Rank action) (da_Rationale action) in
  let mutation := mkMutation (pt_OperationID turn) (pt_ObservedRevision turn) (pt_OwnerTurnID turn)
    (mkDisposition [mkStatement OwnerTurnRepresented [da_TargetID action] ""]) [operation] in
  check ValidateLedgerMutation (pt_ObservedRevision turn) mutation;
  Ok mutation.

(** [for _, item := range ledger.Tasks { rank = max(rank, item.Rank+1) }] *)
Definition next_rank (ts : list LedgerTask) : Z :=
  foldl (fun rank t => Z.max rank (wrap64 (lt_Rank t + 1))) 0 ts.

Definition DirectPlanningItemMutation (ledger : EngineeringLedger) (turn : PlanningTurn)
    (action : DirectPlanningAction) : result LedgerMutation :=
  if ((da_Kind action == LedgerMutationReorder) && negb (da_Move action =? 0))%bool then
    moveLedgerItem ledger turn action
  else if negb ((da_Kind action == LedgerMutationAdd) || (da_Kind action == LedgerMutationAmend))%bool then
    DirectPlanningMutation turn action
  else
    match da_Item action with
    | None => Err "task contents are required"
    | Some contents =>
        let provenance := mkProvenance "owner_turn" (pt_OwnerTurnID turn) (wrap64 (el_Revision ledger + 1)) in
        let bound :=
          if da_Kind action == LedgerMutationAdd then
            Ok (with_item contents
                  (mkItem ("manual-" +:+ pt_OperationID turn) provenance "" (next_rank (el_Tasks ledger))
                     LedgerDispositionActive LedgerReviewProposed), None)
          else
            match list_find (fun t => lt_ID t = da_TargetID action) (el_Tasks ledger) with
            | Some (_, item) => Ok (with_item contents (lt_Item item), Some item)
            | None => Err "selected task does not exist"
            end in
        match bound with
        | Err e => Err e
        | Ok (task, original) =>
            let task := bindPlanningDetails task original provenance in
            let op := mkOperation (da_Kind action)
                        (if da_Kind action == LedgerMutationAmend then lt_ID task else "")
                        (Some (mkMutationItem (Some task))) "" None (da_Rationale action) in
            let mutation := mkMutation (pt_OperationID turn) (pt_ObservedRevision turn)
                              (pt_OwnerTurnID turn) (RepresentedOwnerTurn [lt_ID task]) [op] in
            check validate_mutation mutation; Ok mutation
        end
    end.

(** ** The preview: [ApplyPlanningMutation] *)

(** [json.Marshal] followed by [json.Unmarshal] on a ledger: strings are coerced
    to UTF-8 and an empty slice of an [omitempty] field comes back as [nil]. *)
Definition clone_omitempty {A} (f : A -> A) (s : slice A) : slice A :=
  match s with
  | None | Some [] => None
  | Some l => Some (f <$> l)
  end.
Definition clone_slice {A} (f : A -> A) (s : slice A) : slice A :=
  fmap (M := option) (fmap (M := list) f) s.

Definition clone_provenance (p : LedgerProvenance) : LedgerProvenance :=
  mkProvenance (json_text (prov_Kind p)) (json_text (prov_Reference p)) (prov_Revision p).
Definition clone_item (i : LedgerItem) : LedgerItem :=
  mkItem (json_text (li_ID i)) (clone_provenance (li_Provenance i)) (json_text (li_Rationale i))
    (li_Rank i) (json_text (li_Disposition i)) (json_text (li_ReviewState i)).
Definition clone_task (t : LedgerTask) : LedgerTask :=
  mkTask (clone_item (lt_Item t)) (json_text (lt_Goal t)) (json_text (lt_Objective t))
    (clone_omitempty (fun c => mkTaskContext (json_text (tc_Text c)) (clone_provenance (tc_Provenance c)))
       (lt_OwnerContext t))
    (clone_omitempty json_text (lt_Constraints t))
    (clone_omitempty (fun f => mkTaskFileResponsibility (json_text (tfr_Path f)) (json_text (tfr_Action f))
                                 (json_text (tfr_Responsibility f))) (lt_FileResponsibilities t))
    (clone_omitempty (fun a => mkTaskAcceptance (json_text (ta_ID a)) (json_text (ta_Text a))
                                 (clone_slice json_text (ta_Verification a))) (lt_Acceptance t))
    (clone_slice json_text (lt_ReadFiles t)) (clone_slice json_text (lt_WriteFiles t))
    (clone_slice json_text (lt_DeleteFiles t)).
Definition clone_ledger (l : EngineeringLedger) : EngineeringLedger :=
  mkLedger (json_text (el_ID l)) (el_Revision l) (clone_task <$> el_Tasks l).

(** [updatePlanningItem]: the first task with the identity. *)
Fixpoint update_tasks (id : string) (update : LedgerItem -> result LedgerItem)
    (ts : list LedgerTask) : result (list LedgerTask) :=
  match ts with
  | [] => Err "planning task %s does not exist"
  | t :: ts =>
      if lt_ID t == id then let? i := update (lt_Item t) in Ok (with_item t i :: ts)
      else let? ts' := update_tasks id update ts in Ok (t :: ts')
  end.
Definition updatePlanningItem (ledger : EngineeringLedger) (id : string)
    (update : LedgerItem -> result LedgerItem) : result EngineeringLedger :=
  let? ts := update_tasks id update (el_Tasks ledger) in Ok (ledger_with_tasks ledger ts).

Definition propose_if_active (i : LedgerItem) : LedgerItem :=
  if li_Disposition i == LedgerDispositionActive then item_with_review i LedgerReviewProposed else i.

Definition resetPlanningAgreements (ledger : EngineeringLedger) (id : string) : EngineeringLedger :=
  match updatePlanningItem ledger id (fun i => Ok (propose_if_active i)) with
  | Ok l => l
  | Err _ => ledger
  end.

Definition planningMutationItemID (item : option LedgerMutationItem) : string :=
  match item with
  | Some (mkMutationItem (Some t)) => lt_ID t
  | _ => ""
  end.

Definition appendPlanningItem (ledger : EngineeringLedger) (item : option LedgerMutationItem)
    : EngineeringLedger :=
  match item with
  | Some (mkMutationItem (Some t)) => ledger_with_tasks ledger (el_Tasks ledger ++ [t])
  | _ => ledger
  end.

Fixpoint replace_task (id : string) (task : LedgerTask) (ts : list LedgerTask)
    : option (list LedgerTask) :=
  match ts with
  | [] => None
  | t :: ts => if lt_ID t == id then Some (task :: ts)
               else (fun r => t :: r) <$> replace_task id task ts
  end.
(** [None] is the result [false]. *)
Definition replacePlanningItem (ledger : EngineeringLedger) (id : string)
    (item : option LedgerMutationItem) : option EngineeringLedger :=
  match item with
  | Some (mkMutationItem (Some t)) => ledger_with_tasks ledger <$> replace_task id t (el_Tasks ledger)
  | _ => None
  end.

Definition is_removed (l : EngineeringLedger) (id : string) : bool :=
  match list_find (fun t => lt_ID t = id) (el_Tasks l) with
  | Some (_, t) => lt_Disposition t == LedgerDispositionTombstoned
  | None => false
  end.

Definition applyPlanningOperation (ledger : EngineeringLedger)
    (operation : LedgerMutationOperation) : result EngineeringLedger :=
  let kind := op_Kind operation in
  let target := op_TargetID operation in
  if kind == LedgerMutationAdd then
    Ok (resetPlanningAgreements (appendPlanningItem ledger (op_Item operation))
          (planningMutationItemID (op_Item operation)))
  else if kind == LedgerMutationAmend then
    check updatePlanningItem ledger target (fun i =>
      reject "planning mutation amend target %s is not active"
        when (li_Disposition i != LedgerDispositionActive); Ok i);
    let ledger := resetPlanningAgreements ledger target in
    match replacePlanningItem ledger target (op_Item operation) with
    | None => Err "planning mutation target %s does not exist with the supplied type"
    | Some ledger =>
        let ledger := resetPlanningAgreements ledger target in
        updatePlanningItem ledger target (fun i => Ok (propose_if_active i))
    end
  else if kind == LedgerMutationRemove then
    let ledger := resetPlanningAgreements ledger target in
    updatePlanningItem ledger target (fun i =>
      reject "planning item %s is not active" when (li_Disposition i != LedgerDispositionActive);
      Ok (item_with_disposition i LedgerDispositionTombstoned ""))
  else if kind == LedgerMutationRestore then
    let wasRemoved := is_removed ledger target in
    let? ledger := updatePlanningItem ledger target (fun i =>
      if li_Disposition i == LedgerDispositionActive then Ok i
      else
        reject "planning item %s is not removed" when (li_Disposition i != LedgerDispositionTombstoned);
        Ok (item_with_disposition i LedgerDispositionActive LedgerReviewProposed)) in
    Ok (if wasRemoved then resetPlanningAgreements ledger target else ledger)
  else if kind == LedgerMutationReview then
    updatePlanningItem ledger target (fun i =>
      reject "removed planning item %s cannot be reviewed"
        when (li_Disposition i != LedgerDispositionActive);
      Ok (item_with_review i (op_ReviewState operation)))
  else if kind == LedgerMutationReorder then
    match op_Rank operation with
    | None => Err "nil pointer dereference"
    | Some rank => updatePlanningItem ledger target (fun i => Ok (item_with_rank i rank))
    end
  else Err "unsupported planning mutation %q".

Definition ApplyPlanningMutation (current : EngineeringLedger) (mutation : LedgerMutation)
    : result EngineeringLedger :=
  check validate_ledger current;
  check ValidateLedgerMutation (el_Revision current) mutation;
  let? next := loop applyPlanningOperation (clone_ledger current) (lm_Operations mutation) in
  let next := ledger_with_revision next (wrap64 (el_Revision current + 1)) in
  match validate_ledger next with
  | Err _ => Err "planning mutation result: %w"
  | Ok _ => Ok next
  end.

(** ** Predecessors of a selected task *)

Record PlanningTaskPrerequisite := mkPrerequisite {
  pp_ID : string;
  pp_Name : string;
  pp_Objective : string;
  pp_Constraints : slice string;
  pp_Acceptance : list string
}.

Definition precedingIncompletePlanningTasks (ledger : EngineeringLedger) (selected : string)
    (completed : list string) : list PlanningTaskPrerequisite :=
  match list_find (fun t => lt_ID t = selected) (el_Tasks ledger) with
  | None => []
  | Some (_, target) =>
      let earlier := List.filter (fun task =>
        (active task && negb (bool_decide (lt_ID task ∈ completed)) && task_less task target)%bool)
        (el_Tasks ledger) in
      (fun task => mkPrerequisite (lt_ID task) (lt_Goal task) (lt_Objective task) (lt_Constraints task)
                     (ta_Text <$> elems (lt_Acceptance task))) <$> sort_tasks earlier
  end.

(** ** A model-proposed order *)

Section ordering.
(** [decode_ids raw] is the first [decoder.Decode(&sequence)] with the input it
    leaves, [at_eof] the test that the next [Decode] returns [io.EOF]. *)
Context (decode_ids : string -> result (list string * string)) (at_eof : string -> bool).
(** The semantic transport, given the instructions rendered in the prompt;
    [None] is a nil function. *)
Context (ask : option (list (string * string) -> result string)).
(** What [ctx.Err()] returns at its two uses, before and after the call. *)
Context (ctx_before ctx_after : result unit).

Definition index_tasks (tasks : list LedgerTask) : result unit :=
  check loop (fun (seen : gset string) task =>
    reject "task ordering requires code-owned identities" when blank (lt_ID task);
    reject "duplicate input task identity %q" when bool_decide (lt_ID task ∈ seen);
    Ok ({[ lt_ID task ]} ∪ seen)) ∅ tasks;
  Ok tt.

Definition check_sequence (ids : gset string) (sequence : list string) : result unit :=
  check loop (fun (seen : gset string) id =>
    reject "task ordering contains a foreign or duplicate identity %q"
      when (negb (bool_decide (id ∈ ids)) || bool_decide (id ∈ seen))%bool;
    Ok ({[ id ]} ∪ seen)) ∅ sequence;
  Ok tt.

(** [for i, id := range sequence { tasks[indices[id]].Rank = int64(i + 1) }] *)
Definition assign_rank (id : string) (rank : Z) (tasks : list LedgerTask) : list LedgerTask :=
  (fun t => if lt_ID t == id then with_rank t rank else t) <$> tasks.
Definition assign_ranks (sequence : list string) (tasks : list LedgerTask) : list LedgerTask :=
  foldl (fun ts '(i, id) => assign_rank id (Z.of_nat i + 1) ts) tasks (imap pair sequence).

Definition OrderUnorderedTasks (tasks : list LedgerTask) : result (list LedgerTask) :=
  check ctx_before;
  if Nat.leb (length tasks) 1 then Ok tasks else
  match ask with
  | None => Err "task ordering requires a semantic transport"
  | Some ask =>
      check index_tasks tasks;
      match ask ((fun t => (lt_ID t, lt_Goal t)) <$> tasks) with
      | Err _ => Err "task ordering transport: %w"
      | Ok raw =>
          check ctx_after;
          match decode_ids raw with
          | Err _ => Err "task ordering sequence: %w"
          | Ok (sequence, rest) =>
              reject "trailing task ordering data" when negb (at_eof rest);
              reject "task ordering is not a complete permutation"
                when negb (Nat.eqb (length sequence) (length tasks));
              check check_sequence (list_to_set (lt_ID <$> tasks)) sequence;
              Ok (assign_ranks sequence tasks)
          end
      end
  end.
End ordering.
