(* ===== verification/PlanningFacts.v ===== *)
(** * Facts about the planning preview

    Every non-add operation edits exactly one task in place; an add appends.
    From this normal form follow the stability of identities, the frame of a
    mutation and the fate of agreements. *)
From S2P Require Import Prelude Ledger Planning.
From stdpp Require Import sorting base tactics strings list gmap numbers pretty.
From stdpp Require Import list options.
Open Scope Z_scope.
Open Scope go_scope.

(** ** First task with an identity *)

Abbreviation find_task id ts := (list_find (fun t => lt_ID t = id) ts).

Lemma with_item_id t i : lt_ID (with_item t i) = li_ID i.
Proof. done. Qed.
Lemma with_item_same t : with_item t (lt_Item t) = t.
Proof. by destruct t. Qed.

Lemma update_tasks_find id f ts :
  update_tasks id f ts =
  match find_task id ts with
  | Some (i, t) => let? it := f (lt_Item t) in Ok (<[i := with_item t it]> ts)
  | None => Err "planning task %s does not exist"
  end.
Proof.
  induction ts as [|t ts IH]; simpl; [done|].
  case_bool_decide as Hid; [rewrite decide_True by done; by destruct (f _)|].
  rewrite decide_False, IH by done.
  destruct (find_task id ts) as [[i u]|]; simpl; [|done]. by destruct (f _).
Qed.

Lemma replace_task_find id task ts :
  replace_task id task ts = (fun '(i, _) => <[i := task]> ts) <$> find_task id ts.
Proof.
  induction ts as [|t ts IH]; simpl; [done|].
  case_bool_decide as Hid; [by rewrite decide_True by done|].
  rewrite decide_False, IH by done. by destruct (find_task id ts) as [[i u]|].
Qed.

Lemma find_task_insert id ts i t t' :
  find_task id ts = Some (i, t) -> lt_ID t' = id ->
  find_task id (<[i := t']> ts) = Some (i, t').
Proof.
  rewrite !list_find_Some. intros (Hi & Hid & Hbefore) Hid'. split_and!; [|done|].
  - apply list_lookup_insert_eq. by eapply lookup_lt_Some.
  - intros j u Hu Hj. rewrite list_lookup_insert_ne in Hu by lia. eauto.
Qed.

Lemma ids_insert (ts : list LedgerTask) i t t' :
  ts !! i = Some t -> lt_ID t' = lt_ID t -> lt_ID <$> <[i := t']> ts = lt_ID <$> ts.
Proof.
  intros Hi Hid. rewrite list_fmap_insert, Hid. apply list_insert_id.
  by rewrite list_lookup_fmap, Hi.
Qed.

Lemma find_task_NoDup (ts : list LedgerTask) i t :
  NoDup (lt_ID <$> ts) -> ts !! i = Some t -> find_task (lt_ID t) ts = Some (i, t).
Proof.
  intros Hnd Hi. apply list_find_Some. split_and!; [done..|].
  intros j u Hu Hj Heq. assert (j = i); [|lia].
  eapply (NoDup_lookup (lt_ID <$> ts)); [done| |].
  - by rewrite list_lookup_fmap, Hu.
  - by rewrite list_lookup_fmap, Hi, Heq.
Qed.

Lemma find_task_None id (ts : list LedgerTask) : id ∉ lt_ID <$> ts -> find_task id ts = None.
Proof.
  intros Hno. apply list_find_None, list.Forall_forall. intros t Ht Heq.
  apply Hno, list_elem_of_fmap. simpl in Heq. subst id. by exists t.
Qed.

Lemma update_item_eq l id f :
  updatePlanningItem l id f =
  match find_task id (el_Tasks l) with
  | Some (i, t) =>
      let? it := f (lt_Item t) in Ok (ledger_with_tasks l (<[i := with_item t it]> (el_Tasks l)))
  | None => Err "planning task %s does not exist"
  end.
Proof.
  unfold updatePlanningItem. rewrite update_tasks_find.
  destruct (find_task id _) as [[i t]|]; [|done]. by destruct (f _).
Qed.

Lemma reset_eq l id :
  resetPlanningAgreements l id =
  match find_task id (el_Tasks l) with
  | Some (i, t) =>
      ledger_with_tasks l (<[i := with_item t (propose_if_active (lt_Item t))]> (el_Tasks l))
  | None => l
  end.
Proof. unfold resetPlanningAgreements. rewrite update_item_eq. by destruct (find_task id _) as [[??]|]. Qed.

Lemma propose_if_active_id i : li_ID (propose_if_active i) = li_ID i.
Proof. unfold propose_if_active. by case_bool_decide. Qed.
Lemma propose_if_active_idemp i : propose_if_active (propose_if_active i) = propose_if_active i.
Proof.
  unfold propose_if_active. case_bool_decide; case_bool_decide; done.
Qed.

(** ** The effect of one operation on one task *)

Definition preview_edit (op : LedgerMutationOperation) (t : LedgerTask) : option LedgerTask :=
  let kind := op_Kind op in
  if kind == LedgerMutationAmend then
    match op_Item op with
    | Some (mkMutationItem (Some p)) =>
        if active t then Some (with_item p (propose_if_active (lt_Item p))) else None
    | _ => None
    end
  else if kind == LedgerMutationRemove then
    if active t then Some (with_item t (item_with_disposition (lt_Item t) LedgerDispositionTombstoned ""))
    else None
  else if kind == LedgerMutationRestore then
    if active t then Some t
    else if lt_Disposition t == LedgerDispositionTombstoned
    then Some (with_item t (item_with_disposition (lt_Item t) LedgerDispositionActive LedgerReviewProposed))
    else None
  else if kind == LedgerMutationReview then
    if active t then Some (with_item t (item_with_review (lt_Item t) (op_ReviewState op))) else None
  else if kind == LedgerMutationReorder then
    (fun r => with_item t (item_with_rank (lt_Item t) r)) <$> op_Rank op
  else None.

(** The payload of a validated amendment carries its target's identity. *)
Lemma validated_amend_id op p :
  validate_operation op = Ok tt -> op_Kind op = LedgerMutationAmend ->
  op_Item op = Some (mkMutationItem (Some p)) -> lt_ID p = op_TargetID op.
Proof.
  unfold validate_operation. intros H Hk Hi. rewrite Hk, Hi in H. consts. split_ok H.
  apply validate_mutation_item_ok in E as [_ ->]. by reflect.
Qed.

Lemma validated_add_item op :
  validate_operation op = Ok tt -> op_Kind op = LedgerMutationAdd ->
  exists p, op_Item op = Some (mkMutationItem (Some p)) /\ task_ok p /\
    lt_Disposition p = LedgerDispositionActive /\ lt_ReviewState p = LedgerReviewProposed.
Proof.
  unfold validate_operation. intros H Hk. rewrite Hk in H. consts.
  destruct (op_Item op) as [[[p|]]|]; [|by split_ok H|done]. split_ok H.
  apply validate_mutation_item_ok in E as [Hp ->]. simpl in *. reflect. eauto.
Qed.

(** Normal form of a non-add operation: one task, found by identity, edited in
    place. *)
Definition edits (l : EngineeringLedger) (op : LedgerMutationOperation) (l' : EngineeringLedger) : Prop :=
  exists i t t', find_task (op_TargetID op) (el_Tasks l) = Some (i, t) /\
    preview_edit op t = Some t' /\ l' = ledger_with_tasks l (<[i := t']> (el_Tasks l)).

Ltac one_edit := split; [intros [= <-]; by eexists|intros (? & [= <-] & ->); done].
Ltac no_edit := split; [done|intros (? & ? & ?); done].

Section one_operation.
Context (l : EngineeringLedger) (op : LedgerMutationOperation) (i : nat) (t : LedgerTask).
Hypothesis (Hf : find_task (op_TargetID op) (el_Tasks l) = Some (i, t)).

Lemma find_after_set u :
  lt_ID u = op_TargetID op ->
  find_task (op_TargetID op) (<[i := u]> (el_Tasks l)) = Some (i, u).
Proof using Hf. by apply find_task_insert with t. Qed.

Lemma edits_found l' :
  edits l op l' <->
  exists t', preview_edit op t = Some t' /\ l' = ledger_with_tasks l (<[i := t']> (el_Tasks l)).
Proof using Hf. unfold edits. rewrite Hf. naive_solver. Qed.

Lemma apply_amend l' :
  validate_operation op = Ok tt -> op_Kind op = LedgerMutationAmend ->
  applyPlanningOperation l op = Ok l' <-> edits l op l'.
Proof using Hf.
  intros Hv Hk. pose proof Hf as (_ & Hid & _)%list_find_Some.
  rewrite edits_found. unfold applyPlanningOperation, preview_edit, active, lt_Disposition.
  rewrite Hk. consts. rewrite reset_eq, !update_item_eq, Hf.
  destruct (bool_decide (li_Disposition _ = _)) eqn:Hact; simpl.
  2: { destruct (op_Item op) as [[[p|]]|]; no_edit. }
  destruct (op_Item op) as [[[p|]]|] eqn:Hp; simpl; [|no_edit..].
  pose proof (validated_amend_id _ _ Hv Hk Hp) as Hpid.
  rewrite replace_task_find, find_after_set by (by rewrite with_item_id, propose_if_active_id).
  simpl. rewrite list_insert_insert_eq, reset_eq, update_item_eq. simpl.
  rewrite find_after_set by done. simpl.
  rewrite list_insert_insert_eq, find_after_set by (by rewrite with_item_id, propose_if_active_id).
  simpl. rewrite list_insert_insert_eq, propose_if_active_idemp. one_edit.
Qed.

Lemma apply_remove l' :
  op_Kind op = LedgerMutationRemove -> applyPlanningOperation l op = Ok l' <-> edits l op l'.
Proof using Hf.
  intros Hk. pose proof Hf as (_ & Hid & _)%list_find_Some.
  rewrite edits_found. unfold applyPlanningOperation, preview_edit, active, lt_Disposition.
  rewrite Hk. consts. rewrite update_item_eq, reset_eq, Hf. simpl.
  rewrite find_after_set by (by rewrite with_item_id, propose_if_active_id).
  unfold propose_if_active. simpl.
  destruct (bool_decide (li_Disposition (lt_Item t) = _)) eqn:Hact; simpl; rewrite ?Hact; simpl.
  - rewrite list_insert_insert_eq. one_edit.
  - no_edit.
Qed.

Lemma apply_restore l' :
  op_Kind op = LedgerMutationRestore -> applyPlanningOperation l op = Ok l' <-> edits l op l'.
Proof using Hf.
  intros Hk. pose proof Hf as (_ & Hid & _)%list_find_Some.
  rewrite edits_found. unfold applyPlanningOperation, preview_edit, active, is_removed, lt_Disposition.
  rewrite Hk. consts. rewrite update_item_eq, Hf.
  destruct (bool_decide (li_Disposition (lt_Item t) = LedgerDispositionActive)) eqn:Hact; simpl.
  - rewrite bool_decide_false by (reflect; by rewrite Hact). rewrite with_item_same. one_edit.
  - destruct (bool_decide (li_Disposition _ = LedgerDispositionTombstoned)) eqn:Hto; simpl; [|no_edit].
    rewrite reset_eq. simpl. rewrite find_after_set by done.
    rewrite list_insert_insert_eq. one_edit.
Qed.

Lemma apply_review_reorder l' :
  op_Kind op = LedgerMutationReview \/ op_Kind op = LedgerMutationReorder ->
  applyPlanningOperation l op = Ok l' <-> edits l op l'.
Proof using Hf.
  rewrite edits_found. unfold applyPlanningOperation, preview_edit, active, lt_Disposition.
  intros [Hk|Hk]; rewrite Hk; consts.
  - rewrite update_item_eq, Hf. destruct (bool_decide _); simpl; [one_edit|no_edit].
  - destruct (op_Rank op); simpl; [rewrite update_item_eq, Hf; one_edit|no_edit].
Qed.
End one_operation.

Lemma known_kinds op :
  validate_operation op = Ok tt ->
  op_Kind op ∈ [LedgerMutationAdd; LedgerMutationAmend; LedgerMutationRemove;
                LedgerMutationRestore; LedgerMutationReview; LedgerMutationReorder].
Proof.
  unfold validate_operation. intros H. rewrite !elem_of_cons.
  repeat match goal with |- ?a = ?b \/ _ => destruct (decide (a = b)); [by left|right] end.
  exfalso. repeat match goal with
  | Hn : op_Kind op <> ?k |- _ => rewrite (bool_decide_eq_false_2 (op_Kind op = k) Hn) in H; clear Hn
  end. discriminate H.
Qed.

Lemma apply_missing l op :
  validate_operation op = Ok tt -> op_Kind op <> LedgerMutationAdd ->
  find_task (op_TargetID op) (el_Tasks l) = None ->
  forall l', applyPlanningOperation l op <> Ok l'.
Proof.
  intros Hv Hadd Hf l'. unfold applyPlanningOperation.
  rewrite (bool_decide_false (op_Kind op = LedgerMutationAdd)) by done.
  rewrite reset_eq, !update_item_eq, Hf; simpl; rewrite Hf.
  destruct (bool_decide (op_Kind op = LedgerMutationAmend)); [intros [=]|].
  destruct (bool_decide (op_Kind op = LedgerMutationRemove)); [intros [=]|].
  destruct (bool_decide (op_Kind op = LedgerMutationRestore)); [intros [=]|].
  destruct (bool_decide (op_Kind op = LedgerMutationReview)); [intros [=]|].
  destruct (bool_decide (op_Kind op = LedgerMutationReorder)); [|intros [=]].
  destruct (op_Rank op); [rewrite update_item_eq, Hf|]; intros [=].
Qed.

Lemma apply_edit l op l' :
  validate_operation op = Ok tt -> op_Kind op <> LedgerMutationAdd ->
  applyPlanningOperation l op = Ok l' <-> edits l op l'.
Proof.
  intros Hv Hadd. destruct (find_task (op_TargetID op) (el_Tasks l)) as [[i t]|] eqn:Hf.
  - pose proof (known_kinds op Hv) as Hk. rewrite !elem_of_cons in Hk.
    destruct Hk as [?|[?|[?|[?|[?|[?|?%elem_of_nil]]]]]]; try done;
      eauto using apply_amend, apply_remove, apply_restore, apply_review_reorder.
  - split; [by intros ?%(apply_missing l op Hv Hadd Hf)|].
    intros (? & ? & ? & ? & _). congruence.
Qed.

(** An add appends its item, unchanged when its identity is new. *)
Lemma apply_add l op l' :
  validate_operation op = Ok tt -> op_Kind op = LedgerMutationAdd ->
  applyPlanningOperation l op = Ok l' ->
  exists p, op_Item op = Some (mkMutationItem (Some p)) /\ task_ok p /\
    task_ids l' = task_ids l ++ [lt_ID p] /\
    (lt_ID p ∉ task_ids l -> l' = ledger_with_tasks l (el_Tasks l ++ [p])).
Proof.
  intros Hv Hk. destruct (validated_add_item op Hv Hk) as (p & Hp & Hok & Hact & Hrev).
  unfold applyPlanningOperation. rewrite Hk, Hp. consts. simpl. intros [= <-].
  exists p. split_and!; [done..| |].
  - rewrite reset_eq. simpl. destruct (find_task (lt_ID p) _) as [[i t]|] eqn:Hf; unfold task_ids; simpl.
    + apply list_find_Some in Hf as (Hi & Hid & _).
      rewrite (ids_insert _ _ t), fmap_app; [done..|]. by rewrite with_item_id, propose_if_active_id.
    + by rewrite fmap_app.
  - intros Hnew. rewrite reset_eq. simpl.
    assert (find_task (lt_ID p) (el_Tasks l ++ [p]) = Some (length (el_Tasks l), p)) as ->.
    { apply list_find_Some. split_and!; [by apply list_lookup_middle|done|].
      intros j u Hu Hj Heq. apply Hnew, list_elem_of_fmap. exists u. split; [by symmetry|].
      rewrite lookup_app_l in Hu by lia. by eapply list_elem_of_lookup_2. }
    assert (with_item p (propose_if_active (lt_Item p)) = p) as ->.
    { unfold propose_if_active, lt_Disposition, lt_ReviewState in *. rewrite Hact. simpl.
      destruct p as [[]]. simpl in *. by rewrite Hrev. }
    f_equal. apply list_insert_id. by apply list_lookup_middle.
Qed.

(** ** Sequences of operations *)

Lemma validated_operations m :
  validate_mutation m = Ok tt ->
  Forall (fun op => validate_operation op = Ok tt) (lm_Operations m).
Proof.
  unfold validate_mutation. intros H. split_ok H.
  eapply loop_forall; [|done]. intros s x s' Hs. unfold validate_operation_step in Hs.
  split_ok Hs. by destruct a1.
Qed.

(** The identities an operation list adds, in order. *)
Definition added_ids (op : LedgerMutationOperation) : list string :=
  if op_Kind op == LedgerMutationAdd then [planningMutationItemID (op_Item op)] else [].
Definition all_added (ops : list LedgerMutationOperation) : list string := ops ≫= added_ids.

(** The step relation of a mutation whose identities stay distinct. *)
Inductive preview_step (l : EngineeringLedger) (op : LedgerMutationOperation) : EngineeringLedger -> Prop :=
| step_add p :
    op_Kind op = LedgerMutationAdd -> op_Item op = Some (mkMutationItem (Some p)) ->
    task_ok p -> lt_ReviewState p = LedgerReviewProposed -> lt_ID p ∉ task_ids l ->
    preview_step l op (ledger_with_tasks l (el_Tasks l ++ [p]))
| step_edit l' :
    op_Kind op <> LedgerMutationAdd -> edits l op l' -> preview_step l op l'.

Inductive preview_steps : EngineeringLedger -> list LedgerMutationOperation -> EngineeringLedger -> Prop :=
| steps_nil l : preview_steps l [] l
| steps_cons l op l1 ops l2 :
    validate_operation op = Ok tt -> preview_step l op l1 -> preview_steps l1 ops l2 ->
    preview_steps l (op :: ops) l2.

Lemma preview_edit_id op t t' :
  validate_operation op = Ok tt -> lt_ID t = op_TargetID op ->
  preview_edit op t = Some t' -> lt_ID t' = lt_ID t.
Proof.
  intros Hv Ht. unfold preview_edit.
  destruct (bool_decide (op_Kind op = LedgerMutationAmend)) eqn:Hk.
  { reflect. destruct (op_Item op) as [[[p|]]|] eqn:Hp; try done.
    destruct (active t); [|done]. intros [= <-].
    rewrite with_item_id, propose_if_active_id, Ht. exact (validated_amend_id _ _ Hv Hk Hp). }
  intros H. repeat case_match; simplify_eq; try done.
  apply fmap_Some in H as (r & _ & ->). done.
Qed.

Lemma apply_op_ids l op l' :
  validate_operation op = Ok tt -> applyPlanningOperation l op = Ok l' ->
  task_ids l' = task_ids l ++ added_ids op.
Proof.
  intros Hv Happ. unfold added_ids. case_bool_decide as Hk.
  - destruct (apply_add l op l' Hv Hk Happ) as (p & -> & _ & -> & _). done.
  - apply (apply_edit l op l' Hv Hk) in Happ as (i & t & t' & Hf & He & ->).
    apply list_find_Some in Hf as (Hi & Hid & _). rewrite app_nil_r.
    unfold task_ids. simpl. eapply ids_insert; [done|]. by eapply preview_edit_id.
Qed.

Lemma loop_ids ops : forall l l',
  Forall (fun op => validate_operation op = Ok tt) ops ->
  loop applyPlanningOperation l ops = Ok l' -> task_ids l' = task_ids l ++ all_added ops.
Proof.
  induction ops as [|op ops IH]; intros l l' Hv Hl; simpl in Hl.
  - injection Hl as <-. by rewrite app_nil_r.
  - inversion_clear Hv as [|? ? Hop Hops].
    destruct (applyPlanningOperation l op) as [l1|] eqn:E; [|done].
    rewrite (IH l1 l' Hops Hl), (apply_op_ids l op l1 Hop E), <- app_assoc. done.
Qed.

Lemma apply_op_step l op l' :
  validate_operation op = Ok tt -> applyPlanningOperation l op = Ok l' ->
  NoDup (task_ids l') -> preview_step l op l'.
Proof.
  intros Hv Happ Hnd. destruct (decide (op_Kind op = LedgerMutationAdd)) as [Hk|Hk].
  - destruct (validated_add_item op Hv Hk) as (p' & Hp' & _ & _ & Hprop).
    destruct (apply_add l op l' Hv Hk Happ) as (p & Hp & Hok & Hids & Heq).
    rewrite Hids in Hnd. apply list.NoDup_app in Hnd as (_ & Hno & _).
    assert (lt_ID p ∉ task_ids l) as Hnew by (intros Hin; specialize (Hno _ Hin); set_solver).
    rewrite (Heq Hnew). constructor; [done..| |done]. congruence.
  - apply step_edit; [done|]. by apply apply_edit.
Qed.

(** A run that ends with distinct identities is a run of the step relation. *)
Lemma loop_steps ops : forall l l',
  Forall (fun op => validate_operation op = Ok tt) ops ->
  loop applyPlanningOperation l ops = Ok l' -> NoDup (task_ids l') -> preview_steps l ops l'.
Proof.
  induction ops as [|op ops IH]; intros l l' Hv Hl Hnd; simpl in Hl.
  - injection Hl as <-. constructor.
  - inversion_clear Hv as [|? ? Hop Hops].
    destruct (applyPlanningOperation l op) as [l1|] eqn:E; [|done].
    assert (NoDup (task_ids l1)) as Hnd1.
    { rewrite (loop_ids ops l1 l' Hops Hl) in Hnd. by apply list.NoDup_app in Hnd as [? _]. }
    econstructor; [done|by apply apply_op_step|by apply IH].
Qed.

(** What a successful preview gives. *)
Lemma preview_inv current m next :
  ApplyPlanningMutation current m = Ok next ->
  ledger_ok current /\ ledger_ok next /\ lm_BaseRevision m = el_Revision current /\
  validate_mutation m = Ok tt /\
  exists mid, loop applyPlanningOperation (clone_ledger current) (lm_Operations m) = Ok mid /\
    preview_steps (clone_ledger current) (lm_Operations m) mid /\
    next = ledger_with_revision mid (wrap64 (el_Revision current + 1)).
Proof.
  unfold ApplyPlanningMutation, ValidateLedgerMutation. intros H. split_ok H. split_ok E0.
  repeat match goal with u : unit |- _ => destruct u end. reflect. subst next.
  rewrite validate_ledger_ok in *. do 4 (split; [done|]). eexists. split_and!; [done| |done]. apply loop_steps; [by apply validated_operations|done|].
  match goal with H : ledger_ok (ledger_with_revision _ _) |- _ => exact (ledger_ok_nodup _ H) end.
Qed.

(** ** Frame and agreements, one step *)

Lemma step_frame l op l' i t :
  preview_step l op l' -> el_Tasks l !! i = Some t -> op_TargetID op <> lt_ID t ->
  el_Tasks l' !! i = Some t.
Proof.
  intros [p Hk Hp Hok Hprop Hnew|l2 Hk (j & u & u' & Hf & He & ->)] Hi Hne; simpl.
  - rewrite lookup_app_l; [done|by eapply lookup_lt_Some].
  - apply list_find_Some in Hf as (Hj & Hid & _). destruct (decide (j = i)) as [->|].
    + congruence.
    + by rewrite list_lookup_insert_ne.
Qed.

Lemma steps_frame l ops l' i t :
  preview_steps l ops l' -> el_Tasks l !! i = Some t ->
  (forall op, op ∈ ops -> op_TargetID op <> lt_ID t) -> el_Tasks l' !! i = Some t.
Proof.
  induction 1 as [|l op l1 ops l2 _ Hs _ IH]; intros Hi Hne; [done|].
  apply IH; [|intros; apply Hne; by right]. eapply step_frame; [done..|]. apply Hne. by left.
Qed.

(** A validated amendment never leaves its target agreed. *)
Lemma validated_amend_not_agreed op p :
  validate_operation op = Ok tt -> op_Kind op = LedgerMutationAmend ->
  op_Item op = Some (mkMutationItem (Some p)) ->
  li_ReviewState (propose_if_active (lt_Item p)) <> LedgerReviewAgreed.
Proof.
  unfold validate_operation. intros H Hk Hi. rewrite Hk, Hi in H. consts. split_ok H.
  apply validate_mutation_item_ok in E as [[[_ _ _ _ _ Hst] _ _ _ _] _].
  unfold propose_if_active. destruct Hst as [[-> _]|[-> Hr]].
  - discriminate.
  - simpl. by rewrite Hr.
Qed.

Lemma edit_agreed op t t' :
  validate_operation op = Ok tt -> preview_edit op t = Some t' ->
  lt_ReviewState t' = LedgerReviewAgreed -> op_Kind op <> LedgerMutationReview ->
  lt_ReviewState t = LedgerReviewAgreed /\ t' = with_rank t (lt_Rank t').
Proof.
  intros Hv He Hag Hk. unfold preview_edit in He.
  destruct (bool_decide (op_Kind op = LedgerMutationAmend)) eqn:Ham.
  { reflect. destruct (op_Item op) as [[[p|]]|] eqn:Hp; try done.
    destruct (active t); [|done]. injection He as <-.
    by apply (validated_amend_not_agreed op p) in Hag. }
  rewrite (bool_decide_false (op_Kind op = LedgerMutationReview)) in He by done.
  repeat case_match; simplify_eq; try discriminate.
  - split; [done|]. by destruct t' as [[]].
  - apply fmap_Some in He as (r & _ & ->). done.
Qed.

Lemma step_agreed l op l' i t' :
  validate_operation op = Ok tt -> preview_step l op l' -> el_Tasks l' !! i = Some t' ->
  lt_ReviewState t' = LedgerReviewAgreed ->
  (op_Kind op = LedgerMutationReview -> op_TargetID op <> lt_ID t') ->
  exists t, el_Tasks l !! i = Some t /\ lt_ReviewState t = LedgerReviewAgreed /\
    t' = with_rank t (lt_Rank t').
Proof.
  intros Hv [p Hk Hp Hok Hprop Hnew|l2 Hk (j & u & u' & Hf & He & ->)] Hi Hag Hrev; simpl in Hi.
  - apply lookup_app_Some in Hi as [Hi|[_ Hi]].
    + exists t'. split_and!; [done..|]. by destruct t' as [[]].
    + apply list_lookup_singleton_Some in Hi as [_ <-]. by rewrite Hprop in Hag.
  - apply list_find_Some in Hf as (Hj & Hid & _).
    apply list_lookup_insert_Some in Hi as [(-> & <- & _)|[_ Hi]].
    + destruct (edit_agreed op u u' Hv He Hag) as [Hu ->]; [|eauto].
      intros Hk2. apply (Hrev Hk2). symmetry. rewrite <- Hid. by eapply preview_edit_id.
    + exists t'. split_and!; [done..|]. by destruct t' as [[]].
Qed.

Lemma steps_agreed l ops l' i t' :
  preview_steps l ops l' -> el_Tasks l' !! i = Some t' ->
  lt_ReviewState t' = LedgerReviewAgreed ->
  (forall op, op ∈ ops -> op_Kind op = LedgerMutationReview -> op_TargetID op <> lt_ID t') ->
  exists t, el_Tasks l !! i = Some t /\ lt_ReviewState t = LedgerReviewAgreed /\
    t' = with_rank t (lt_Rank t').
Proof.
  intros Hs Hi Hag. induction Hs as [|l op l1 ops l2 Hv Hstep _ IH]; intros Hrev.
  - exists t'. split_and!; [done..|]. by destruct t' as [[]].
  - destruct (IH Hi) as (t1 & Ht1 & Hag1 & Heq); [intros; apply Hrev; [by right|done]|].
    destruct (step_agreed l op l1 i t1 Hv Hstep Ht1 Hag1) as (t & Ht & Hag0 & Heq1).
    { intros Hk. rewrite Heq in Hrev. apply (Hrev op); [by left|done]. }
    exists t. split_and!; [done..|]. rewrite Heq, Heq1. by destruct t as [[]].
Qed.

(** ** Fresh criterion names *)

Lemma criterion_name_inj n m : criterion_name n = criterion_name m -> n = m.
Proof.
  unfold criterion_name. intros H. apply (inj pretty).
  assert (forall p a b, p +:+ a = p +:+ b -> a = b) as Hcancel; [|by apply (Hcancel "criterion_")].
  induction p as [|c p IH]; simpl; [done|]. intros a b [= ?]. by apply IH.
Qed.

(** Candidates from [n] on that are taken. *)
Lemma next_free_spec fuel used n :
  (exists k, (k < fuel)%nat /\ criterion_name (n + Z.of_nat k) ∉ used) ->
  criterion_name (next_free fuel used n) ∉ used /\ n <= next_free fuel used n.
Proof.
  revert n. induction fuel as [|fuel IH]; intros n (k & Hk & Hfree); [lia|]. simpl.
  case_bool_decide as Hin; [|split; [done|lia]].
  destruct (IH (n + 1)) as [? ?]; [|split; [done|lia]].
  destruct k as [|k]; [by rewrite Z.add_0_r in Hfree|].
  exists k. split; [lia|]. by replace (n + 1 + Z.of_nat k) with (n + Z.of_nat (S k)) by lia.
Qed.

(** Among [S (size used)] consecutive candidates one is free: the search with
    that much fuel always finds a fresh name. *)
Lemma fresh_candidate (used : gset string) n :
  exists k, (k < S (size used))%nat /\ criterion_name (n + Z.of_nat k) ∉ used.
Proof.
  destruct (decide (Forall (fun k => criterion_name (n + Z.of_nat k) ∈ used) (seq 0 (S (size used)))))
    as [Hall|Hex%not_Forall_Exists]; [|try apply _..].
  - exfalso. set (names := (fun k => criterion_name (n + Z.of_nat k)) <$> seq 0 (S (size used))).
    assert (NoDup names) as Hnd.
    { apply NoDup_fmap_2_strong; [|apply NoDup_seq]. intros x y _ _ ?%criterion_name_inj. lia. }
    assert (list_to_set names ⊆ used) as Hsub.
    { intros x. rewrite elem_of_list_to_set. unfold names. rewrite list_elem_of_fmap.
      intros (k & -> & Hk). rewrite Forall_forall in Hall. by apply Hall. }
    apply subseteq_size in Hsub. rewrite size_list_to_set in Hsub by done.
    unfold names in Hsub. rewrite length_fmap, length_seq in Hsub. lia.
  - apply Exists_exists in Hex as (k & Hk & Hfree). exists k. split; [|done].
    apply elem_of_seq in Hk. lia.
Qed.

Lemma next_free_fresh (used : gset string) n :
  criterion_name (next_free (S (size used)) used n) ∉ used.
Proof. apply next_free_spec, fresh_candidate. Qed.

(** ** Identities of bound criteria *)

Lemma foldl_insert_lookup {A} (key val : A -> string) l (m : gmap string string) :
  NoDup (key <$> l) ->
  (forall x, x ∈ l -> foldl (fun m v => <[key v := val v]> m) m l !! key x = Some (val x)) /\
  (forall k, k ∉ key <$> l -> foldl (fun m v => <[key v := val v]> m) m l !! k = m !! k).
Proof.
  revert m. induction l as [|y l IH]; intros m; simpl; [by split; [intros ? ?%elem_of_nil|]|].
  rewrite NoDup_cons. intros [Hno Hnd]. destruct (IH (<[key y := val y]> m) Hnd) as [IH1 IH2]. split.
  - intros x [->|Hx]%elem_of_cons; [|by apply IH1]. rewrite IH2 by done. apply lookup_insert_eq.
  - intros k Hk. rewrite IH2 by set_solver. apply lookup_insert_ne. set_solver.
Qed.

Lemma nodup_fmap_inj {A B} (f : A -> B) l x y :
  NoDup (f <$> l) -> x ∈ l -> y ∈ l -> f x = f y -> x = y.
Proof.
  intros Hnd [i Hi]%list_elem_of_lookup [j Hj]%list_elem_of_lookup Hf.
  assert (i = j) as ->; [|congruence].
  apply (NoDup_lookup _ i j (f x) Hnd); rewrite list_lookup_fmap; [by rewrite Hi|rewrite Hj; simpl; by f_equal].
Qed.

Section criteria.
Context (criteria : gmap string string) (used0 : gset string).
Hypothesis (Hused : forall x i, criteria !! x = Some i -> i ∈ used0).
Hypothesis (Hinj : forall x y i, criteria !! x = Some i -> criteria !! y = Some i -> x = y).

(** What the loop over the criteria keeps: distinct identities, all recorded as
    used; a retained text has its old identity, any other a fresh one. *)
Record crit_inv (used : gset string) (out : list TaskAcceptance) : Prop := {
  crit_sub : used0 ⊆ used;
  crit_ids : NoDup (ta_ID <$> out);
  crit_used : forall c, c ∈ out -> ta_ID c ∈ used;
  crit_retained : forall c i, c ∈ out -> criteria !! ta_Text c = Some i -> ta_ID c = i;
  crit_fresh : forall c, c ∈ out -> criteria !! ta_Text c = None -> ta_ID c ∉ used0
}.

Lemma crit_inv_snoc used used' out c :
  crit_inv used out -> used ⊆ used' -> ta_ID c ∈ used' -> ta_ID c ∉ ta_ID <$> out ->
  (forall i, criteria !! ta_Text c = Some i -> ta_ID c = i) ->
  (criteria !! ta_Text c = None -> ta_ID c ∉ used0) ->
  crit_inv used' (out ++ [c]).
Proof.
  intros [Hsub Hids Hin Hret Hfr] Hsub' Hc Hnew Hri Hfi. constructor.
  - by trans used.
  - rewrite fmap_app. apply list.NoDup_app. split_and!; [done| |apply NoDup_singleton].
    intros x Hx ->%list_elem_of_singleton. done.
  - intros d [Hd| ->%list_elem_of_singleton]%elem_of_app; auto.
  - intros d i [Hd| ->%list_elem_of_singleton]%elem_of_app; auto.
  - intros d [Hd| ->%list_elem_of_singleton]%elem_of_app; auto.
Qed.

Lemma crit_inv_step next used out c :
  crit_inv used out -> ta_Text c ∉ ta_Text <$> out ->
  exists next' used' nm, bind_criterion criteria (next, used, out) c =
      (next', used', out ++ [mkTaskAcceptance nm (ta_Text c) (ta_Verification c)]) /\
    crit_inv used' (out ++ [mkTaskAcceptance nm (ta_Text c) (ta_Verification c)]).
Proof using Hused Hinj.
  intros Hinv Hnew. pose proof Hinv as [Hsub Hids Hin Hret Hfr]. simpl.
  destruct (criteria !! ta_Text c) as [i|] eqn:Hc; eexists _, _, _; (split; [done|]).
  - apply crit_inv_snoc with used; simpl; [done|done|by eapply Hsub, Hused| |congruence..].
    intros (d & Hid & Hd)%list_elem_of_fmap. destruct (criteria !! ta_Text d) as [j|] eqn:Hj.
    + apply Hnew, list_elem_of_fmap. exists d. split; [|done].
      apply (Hinj _ _ i); [done|]. rewrite Hj. f_equal. rewrite Hid. symmetry. by apply Hret.
    + apply (Hfr d Hd Hj). rewrite <- Hid. by eapply Hused.
  - pose proof (next_free_fresh used next) as Hnm.
    apply crit_inv_snoc with used; simpl; [done|set_solver..| |by intros; simplify_eq|set_solver].
    intros (d & Hid & Hd)%list_elem_of_fmap. apply Hnm. cbn [next_free].
    rewrite Hid. by apply Hin.
Qed.

Lemma crit_inv_loop cs : forall next used out,
  NoDup (ta_Text <$> out ++ cs) -> crit_inv used out ->
  let r := foldl (bind_criterion criteria) (next, used, out) cs in
  crit_inv r.1.2 r.2 /\ ta_Text <$> r.2 = ta_Text <$> out ++ cs /\
  ta_Verification <$> r.2 = ta_Verification <$> out ++ cs.
Proof using Hused Hinj.
  induction cs as [|c cs IH]; intros next used out Hnd Hinv; [by rewrite app_nil_r|].
  destruct (crit_inv_step next used out c Hinv) as (next' & used' & nm & Hstep & Hinv').
  { rewrite fmap_app in Hnd. apply list.NoDup_app in Hnd as (_ & Hd & _). intros H.
    specialize (Hd _ H). rewrite fmap_cons in Hd. set_solver. }
  cbn [foldl]. rewrite Hstep. edestruct (IH next' used') as (H1 & H2 & H3); [|exact Hinv'|].
  - by rewrite <- app_assoc, fmap_app in *.
  - split_and!; [done|rewrite H2|rewrite H3]; rewrite !fmap_app, <- app_assoc; done.
Qed.
End criteria.
