(* ===== verification/PlanningOrder.v ===== *)
(** * Task order: moving a task and adopting a proposed order

    The (rank, identity) order is total; on a ledger with distinct identities a
    sorted arrangement is unique, so the visible order after an edit is found by
    exhibiting a sorted permutation. *)
From S2P Require Import Prelude Ledger Planning PlanningFacts.
From stdpp Require Import sorting base tactics strings list gmap numbers.
From stdpp Require Import list options.
Open Scope Z_scope.
Open Scope go_scope.

Lemma task_le_iff a b :
  task_le a b <-> lt_Rank a < lt_Rank b \/ (lt_Rank a = lt_Rank b /\ String.le (lt_ID a) (lt_ID b)).
Proof.
  unfold task_le, task_less. rewrite orb_false_iff, andb_false_iff, Z.ltb_ge, Z.eqb_neq, str_lt_le.
  destruct (Z.lt_trichotomy (lt_Rank a) (lt_Rank b)) as [?|[?|?]]; intuition lia.
Qed.

#[global] Instance task_le_total : Total task_le.
Proof.
  intros a b. rewrite !task_le_iff.
  destruct (Z.lt_trichotomy (lt_Rank a) (lt_Rank b)) as [?|[?|?]]; [by left; left| |by right; left].
  destruct (total String.le (lt_ID a) (lt_ID b)); [left|right]; right; auto.
Qed.

#[global] Instance task_le_trans : Transitive task_le.
Proof.
  intros a b c. rewrite !task_le_iff.
  intros [?|[? ?]] [?|[? ?]]; [left; lia..|]. right. split; [lia|]. by trans (lt_ID b).
Qed.

Lemma task_le_antisym_id a b : task_le a b -> task_le b a -> lt_ID a = lt_ID b.
Proof. rewrite !task_le_iff. intros [?|[? ?]] [?|[? ?]]; try lia. by apply (anti_symm String.le). Qed.

Lemma sort_perm l : sort_tasks l ≡ₚ l.
Proof. apply merge_sort_Permutation. Qed.

Lemma sort_sorted l : StronglySorted task_le (sort_tasks l).
Proof. apply StronglySorted_merge_sort; apply _. Qed.

(** Sortedness by position. *)
Lemma sorted_lookup {A} (R : relation A) l :
  StronglySorted R l <->
  forall a b x y, (a < b)%nat -> l !! a = Some x -> l !! b = Some y -> R x y.
Proof.
  induction l as [|z l IH]; split.
  - intros _ a b x y _ Ha. by rewrite lookup_nil in Ha.
  - intros _. constructor.
  - intros Hs a b x y Hab Ha Hb. inversion_clear Hs as [|? ? Hl Hall].
    destruct b as [|b]; [lia|]. destruct a as [|a]; simpl in *.
    + injection Ha as <-. rewrite list.Forall_forall in Hall. apply Hall.
      by eapply list_elem_of_lookup_2.
    + apply (proj1 IH Hl a b); [lia|done..].
  - intros H. constructor.
    + apply IH. intros a b x y Hab. apply (H (S a) (S b)). lia.
    + apply list.Forall_forall. intros y [b Hb]%list_elem_of_lookup.
      apply (H 0%nat (S b)); [lia|done..].
Qed.

(** With distinct identities the sorted arrangement is unique. *)
Lemma sort_unique l L :
  NoDup (lt_ID <$> l) -> L ≡ₚ l -> StronglySorted task_le L -> sort_tasks l = L.
Proof.
  intros Hnd Hp Hs. apply (StronglySorted_unique_strong task_le).
  - intros x y Hx Hy Hxy Hyx. pose proof (task_le_antisym_id x y Hxy Hyx) as Hid.
    rewrite sort_perm in Hx. rewrite Hp in Hy.
    apply list_elem_of_lookup in Hx as [i Hi], Hy as [j Hj].
    assert (i = j) as ->; [|congruence].
    eapply (NoDup_lookup (lt_ID <$> l)); [done| |].
    + by rewrite list_lookup_fmap, Hi.
    + rewrite list_lookup_fmap, Hj. simpl. by rewrite Hid.
  - apply sort_sorted.
  - done.
  - by rewrite sort_perm, Hp.
Qed.

(** ** A batch of reorders *)

(** The rank a batch of (identity, rank) assignments gives a task. *)
Definition set_ranks (rs : list (string * Z)) (t : LedgerTask) : LedgerTask :=
  match list_find (fun r => r.1 = lt_ID t) rs with
  | Some (_, (_, rank)) => with_rank t rank
  | None => t
  end.

Lemma set_ranks_id rs t : lt_ID (set_ranks rs t) = lt_ID t.
Proof. unfold set_ranks. by destruct (list_find _ _) as [[? []]|]. Qed.
Lemma set_ranks_active rs t : active (set_ranks rs t) = active t.
Proof. unfold set_ranks. by destruct (list_find _ _) as [[? []]|]. Qed.

Lemma set_ranks_cons id r rs t :
  id ∉ rs.*1 ->
  set_ranks ((id, r) :: rs) t = set_ranks rs (if bool_decide (lt_ID t = id) then with_rank t r else t).
Proof.
  intros Hno. unfold set_ranks at 1. simpl. destruct (decide (id = lt_ID t)) as [->|Hne]; simpl.
  - rewrite bool_decide_eq_true_2 by done. unfold set_ranks. simpl.
    destruct (list_find _ rs) as [[i [id' r']]|] eqn:E; [|done].
    apply list_find_Some in E as (Hi & Heq & _). simpl in Heq. exfalso. apply Hno.
    apply list_elem_of_fmap. exists (id', r'). split; [done|]. by eapply list_elem_of_lookup_2.
  - rewrite bool_decide_eq_false_2 by done. unfold set_ranks.
    by destruct (list_find _ rs) as [[i [id' r']]|].
Qed.

(** With distinct identities, editing the first match is editing the match. *)
Lemma insert_as_map (ts : list LedgerTask) i t f :
  NoDup (lt_ID <$> ts) -> ts !! i = Some t ->
  <[i := f t]> ts = (fun u => if bool_decide (lt_ID u = lt_ID t) then f u else u) <$> ts.
Proof.
  intros Hnd Hi. apply list_eq. intros j. rewrite list_lookup_fmap.
  destruct (decide (i = j)) as [<-|Hne].
  - rewrite list_lookup_insert_eq, Hi by (by eapply lookup_lt_Some). simpl.
    by rewrite bool_decide_eq_true_2.
  - rewrite list_lookup_insert_ne by done. destruct (ts !! j) as [u|] eqn:Hj; [|done]. simpl.
    rewrite bool_decide_eq_false_2; [done|]. intros Heq. apply Hne.
    eapply (NoDup_lookup (lt_ID <$> ts)); [done|by rewrite list_lookup_fmap, Hi|].
    rewrite list_lookup_fmap, Hj. simpl. by rewrite Heq.
Qed.

Lemma apply_reorder l id r why :
  NoDup (task_ids l) -> id ∈ task_ids l ->
  applyPlanningOperation l (reorder_op id r why) =
  Ok (ledger_with_tasks l ((fun u => if bool_decide (lt_ID u = id) then with_rank u r else u) <$> el_Tasks l)).
Proof.
  intros Hnd (t & -> & Ht)%list_elem_of_fmap. apply list_elem_of_lookup in Ht as [i Hi].
  unfold applyPlanningOperation, reorder_op. simpl. consts.
  rewrite update_item_eq, (find_task_NoDup _ i t) by done.
  do 2 f_equal. by rewrite (insert_as_map _ _ t (fun t => with_item t (item_with_rank (lt_Item t) r))).
Qed.

Lemma apply_reorders why rs : forall l,
  NoDup (task_ids l) -> NoDup rs.*1 -> (forall id, id ∈ rs.*1 -> id ∈ task_ids l) ->
  loop applyPlanningOperation l ((fun '(id, r) => reorder_op id r why) <$> rs) =
  Ok (ledger_with_tasks l (set_ranks rs <$> el_Tasks l)).
Proof.
  induction rs as [|[id r] rs IH]; intros l Hnd Hrs Hin; simpl.
  - f_equal. destruct l as [lid rev ts]. unfold ledger_with_tasks. simpl. f_equal.
    by rewrite list_fmap_id.
  - apply NoDup_cons in Hrs as [Hno Hrs].
    rewrite apply_reorder by (done || apply Hin; by left). rewrite IH; simpl.
    + unfold ledger_with_tasks. simpl. do 2 f_equal. rewrite <- list_fmap_compose.
      apply list_fmap_ext. intros _ t _. unfold compose. by rewrite set_ranks_cons.
    + unfold task_ids. simpl. rewrite <- list_fmap_compose.
      rewrite (list_fmap_ext _ lt_ID); [done|]. intros _ t _. unfold compose. by case_bool_decide.
    + done.
    + intros id' Hid'. unfold task_ids. simpl. rewrite <- list_fmap_compose.
      rewrite (list_fmap_ext _ lt_ID); [apply Hin; by right|]. intros _ t _. unfold compose. by case_bool_decide.
Qed.

(** ** The visible order *)

Definition visible_order (l : EngineeringLedger) : list string := lt_ID <$> sort_tasks (active_tasks l).

Lemma filter_fmap_ranks rs ts :
  List.filter active (set_ranks rs <$> ts) = set_ranks rs <$> List.filter active ts.
Proof.
  induction ts as [|t ts IH]; [done|]. rewrite fmap_cons. simpl. rewrite set_ranks_active.
  destruct (active t); [rewrite fmap_cons|]; by rewrite <- IH.
Qed.

Lemma filter_ids_sublist (ts : list LedgerTask) f :
  NoDup (lt_ID <$> ts) -> NoDup (lt_ID <$> List.filter f ts).
Proof.
  induction ts as [|t ts IH]; [done|]. rewrite fmap_cons, NoDup_cons. intros [Hno Hnd]. simpl.
  destruct (f t); [|by apply IH]. rewrite fmap_cons, NoDup_cons. split; [|by apply IH].
  intros (u & Hu & Hin)%list_elem_of_fmap. apply Hno, list_elem_of_fmap. exists u. split; [done|].
  apply list_elem_of_In, List.filter_In in Hin as [? _]. by apply list_elem_of_In.
Qed.

Lemma active_ids_nodup l : NoDup (task_ids l) -> NoDup (lt_ID <$> active_tasks l).
Proof. apply filter_ids_sublist. Qed.

Lemma sorted_ids_nodup l : NoDup (task_ids l) -> NoDup (lt_ID <$> sort_tasks (active_tasks l)).
Proof. intros Hnd. rewrite sort_perm. by apply active_ids_nodup. Qed.

Lemma active_in l t : t ∈ active_tasks l -> t ∈ el_Tasks l /\ active t = true.
Proof. unfold active_tasks. by rewrite !list_elem_of_In, List.filter_In. Qed.

Lemma sorted_active_in l t : t ∈ sort_tasks (active_tasks l) -> t ∈ el_Tasks l.
Proof. rewrite sort_perm. by intros [? _]%active_in. Qed.

Lemma with_rank_ok t r : task_ok t -> 0 <= r -> task_ok (with_rank t r).
Proof. by intros [[] ? ? ? ?] Hr. Qed.

Lemma set_ranks_ok rs t :
  task_ok t -> Forall (fun r => 0 <= r.2) rs -> task_ok (set_ranks rs t).
Proof.
  intros Ht Hrs. unfold set_ranks. destruct (list_find _ _) as [[i [id r]]|] eqn:E; [|done].
  apply list_find_Some in E as (Hi & _ & _). apply with_rank_ok; [done|].
  by apply (Forall_lookup_1 _ _ _ _ Hrs Hi).
Qed.

(** A batch of reorders previews successfully; the order it shows is any sorted
    arrangement of the re-ranked active tasks. *)
Lemma reorders_apply l m rs why L :
  ledger_ok l -> clone_ledger l = l -> lm_BaseRevision m = el_Revision l ->
  el_Revision l + 1 < 2 ^ 63 -> validate_mutation m = Ok tt ->
  lm_Operations m = (fun '(id, r) => reorder_op id r why) <$> rs ->
  NoDup rs.*1 -> (forall id, id ∈ rs.*1 -> id ∈ task_ids l) -> Forall (fun r => 0 <= r.2) rs ->
  L ≡ₚ set_ranks rs <$> active_tasks l -> StronglySorted task_le L ->
  exists next, ApplyPlanningMutation l m = Ok next /\ visible_order next = lt_ID <$> L.
Proof.
  intros Hl Hclone Hbase Hrev Hm Hops Hnd Hin Hpos HL Hs.
  pose proof (ledger_ok_nodup l Hl) as Hnodup. pose proof (ledger_ok_revision l Hl) as H0.
  set (next := ledger_with_revision (ledger_with_tasks l (set_ranks rs <$> el_Tasks l))
                 (wrap64 (el_Revision l + 1))).
  assert (ledger_ok next) as Hnext.
  { constructor; simpl.
    - by apply Hl.
    - rewrite wrap64_id by (split; lia). lia.
    - unfold task_ids, next. simpl. rewrite <- list_fmap_compose.
      rewrite (list_fmap_ext _ lt_ID); [done|]. intros _ t _. apply set_ranks_id.
    - apply Forall_fmap. eapply Forall_impl; [apply Hl|]. intros t Ht. by apply set_ranks_ok. }
  exists next. split.
  - unfold ApplyPlanningMutation, ValidateLedgerMutation.
    rewrite (proj2 (validate_ledger_ok l) Hl), Hbase, Z.eqb_refl. simpl.
    rewrite Hm, Hclone, Hops, apply_reorders by done.
    fold next. by rewrite (proj2 (validate_ledger_ok next) Hnext).
  - unfold visible_order, next, active_tasks. simpl. f_equal. rewrite filter_fmap_ranks.
    apply sort_unique; [|done..]. rewrite <- list_fmap_compose.
    rewrite (list_fmap_ext _ lt_ID); [by apply active_ids_nodup|]. intros _ t _. apply set_ranks_id.
Qed.

(** ** Exchanging two positions *)

Definition swap_index (i j k : nat) : nat :=
  if decide (k = i) then j else if decide (k = j) then i else k.

Lemma swap_lookup {A} i j (l : list A) k :
  (i < length l)%nat -> (j < length l)%nat -> swap i j l !! k = l !! swap_index i j k.
Proof.
  intros Hi Hj. unfold swap, swap_index.
  destruct (lookup_lt_is_Some_2 l i Hi) as [x Hx], (lookup_lt_is_Some_2 l j Hj) as [y Hy].
  rewrite Hx, Hy. destruct (decide (k = i)) as [->|Hki].
  - rewrite list_lookup_insert_eq by (by rewrite length_insert). by rewrite Hy.
  - rewrite list_lookup_insert_ne by done. destruct (decide (k = j)) as [->|Hkj].
    + by rewrite list_lookup_insert_eq, Hx.
    + by rewrite list_lookup_insert_ne.
Qed.

Lemma swap_length {A} i j (l : list A) : length (swap i j l) = length l.
Proof. unfold swap. repeat case_match; by rewrite ?length_insert. Qed.

Lemma swap_fmap {A B} (f : A -> B) i j l : f <$> swap i j l = swap i j (f <$> l).
Proof.
  unfold swap. rewrite !list_lookup_fmap.
  destruct (l !! i), (l !! j); simpl; rewrite ?list_fmap_insert; done.
Qed.

Lemma swap_perm {A} i j (l : list A) :
  (i < length l)%nat -> (j < length l)%nat -> swap i j l ≡ₚ l.
Proof.
  intros Hi Hj. apply Permutation_inj. split; [apply swap_length|].
  exists (swap_index i j). split; [|intros k; by apply swap_lookup].
  intros a b. unfold swap_index. repeat case_decide; naive_solver.
Qed.

Lemma swap_same {A} i (l : list A) : swap i i l = l.
Proof.
  unfold swap. destruct (l !! i) as [x|] eqn:Hx; [|done].
  by rewrite list_insert_insert_eq, list_insert_id.
Qed.

(** ** Renumbering *)

Fixpoint renumber_from (n : nat) (ts : list LedgerTask) : list (string * Z) :=
  match ts with
  | [] => []
  | t :: ts => (if negb (lt_Rank t =? Z.of_nat n) then [(lt_ID t, Z.of_nat n)] else [])
               ++ renumber_from (S n) ts
  end.

Lemma renumber_ops_from why ts :
  renumber_ops why ts = (fun '(id, r) => reorder_op id r why) <$> renumber_from 0 ts.
Proof.
  unfold renumber_ops.
  assert (forall n, concat (imap (fun i t => if negb (lt_Rank t =? Z.of_nat (n + i))
      then [reorder_op (lt_ID t) (Z.of_nat (n + i)) why] else []) ts) =
    (fun '(id, r) => reorder_op id r why) <$> renumber_from n ts) as H; [|exact (H 0%nat)].
  induction ts as [|t ts IH]; intros n; [done|]. rewrite imap_cons. simpl.
  rewrite fmap_app, <- (IH (S n)), Nat.add_0_r. f_equal.
  - by case_match.
  - f_equal. apply imap_ext. intros i u _. unfold compose. by rewrite Nat.add_succ_r.
Qed.

Lemma renumber_fst n ts id : id ∈ (renumber_from n ts).*1 -> id ∈ lt_ID <$> ts.
Proof.
  revert n. induction ts as [|t ts IH]; intros n; simpl; [done|].
  rewrite fmap_app, elem_of_app, elem_of_cons. case_match; simpl; set_solver.
Qed.

Lemma renumber_nodup n ts : NoDup (lt_ID <$> ts) -> NoDup (renumber_from n ts).*1.
Proof.
  revert n. induction ts as [|t ts IH]; intros n; simpl; [constructor|].
  rewrite NoDup_cons. intros [Hno Hnd]. case_match; simpl; [|by apply IH].
  apply NoDup_cons. split; [|by apply IH]. by intros ?%renumber_fst.
Qed.

Lemma renumber_pos n ts : Forall (fun r => 0 <= r.2) (renumber_from n ts).
Proof. revert n. induction ts as [|t ts IH]; intros n; simpl; [done|]. case_match; simpl; [constructor; [simpl; lia|]|]; apply IH. Qed.

Lemma set_ranks_other rs t : lt_ID t ∉ rs.*1 -> set_ranks rs t = t.
Proof.
  intros Hno. unfold set_ranks. destruct (list_find _ _) as [[i [id r]]|] eqn:E; [|done].
  apply list_find_Some in E as (Hi & Heq & _). simpl in Heq. subst id. exfalso. apply Hno.
  apply list_elem_of_fmap. exists (lt_ID t, r). split; [done|]. by eapply list_elem_of_lookup_2.
Qed.

Lemma with_rank_same t : with_rank t (lt_Rank t) = t.
Proof. by destruct t as [[]]. Qed.

(** Renumbering gives every task its position. *)
Lemma renumber_ranks ts : forall n k t,
  NoDup (lt_ID <$> ts) -> ts !! k = Some t ->
  set_ranks (renumber_from n ts) t = with_rank t (Z.of_nat (n + k)).
Proof.
  induction ts as [|u ts IH]; intros n k t Hnd Hk; [done|].
  rewrite fmap_cons, NoDup_cons in Hnd. destruct Hnd as [Hno Hnd]. simpl.
  destruct k as [|k]; simpl in Hk.
  - injection Hk as <-. rewrite Nat.add_0_r. destruct (negb _) eqn:E; simpl.
    + unfold set_ranks. simpl. by rewrite decide_True.
    + reflect. rewrite <- E, with_rank_same. apply set_ranks_other. by intros ?%renumber_fst.
  - rewrite <- Nat.add_succ_comm, <- (IH (S n) k t Hnd Hk).
    destruct (negb _); simpl; [|done]. rewrite set_ranks_cons.
    + rewrite bool_decide_eq_false_2; [done|]. intros Heq. apply Hno. rewrite <- Heq.
      apply list_elem_of_fmap. exists t. split; [done|]. by eapply list_elem_of_lookup_2.
    + by intros ?%renumber_fst.
Qed.

Lemma renumber_sorted ts :
  NoDup (lt_ID <$> ts) -> StronglySorted task_le (set_ranks (renumber_from 0 ts) <$> ts).
Proof.
  intros Hnd. apply sorted_lookup. intros a b x y Hab Hx Hy.
  rewrite list_lookup_fmap in Hx, Hy.
  destruct (ts !! a) as [t|] eqn:Ha; [|done]. destruct (ts !! b) as [u|] eqn:Hb; [|done].
  simpl in *. rewrite (renumber_ranks ts 0 a) in Hx by done.
  rewrite (renumber_ranks ts 0 b) in Hy by done. simplify_eq.
  apply task_le_iff. left. unfold lt_Rank. simpl. lia.
Qed.

(** An empty renumbering means every rank is already its position. *)
Lemma renumber_nil n ts k t :
  renumber_from n ts = [] -> ts !! k = Some t -> lt_Rank t = Z.of_nat (n + k).
Proof.
  revert n k. induction ts as [|u ts IH]; intros n k; simpl; [done|].
  intros [Hu Hts]%app_eq_nil Hk. destruct (negb _) eqn:E; [done|]. reflect.
  destruct k as [|k]; simpl in Hk.
  - injection Hk as <-. by rewrite Nat.add_0_r.
  - rewrite (IH (S n) k Hts Hk). f_equal. lia.
Qed.

(** ** Exchanging two ranks no other task has *)

Lemma exchange_sorted S i j ti tj :
  StronglySorted task_le S -> NoDup (lt_ID <$> S) -> i <> j ->
  S !! i = Some ti -> S !! j = Some tj -> lt_Rank ti <> lt_Rank tj ->
  (forall k t, k <> i -> k <> j -> S !! k = Some t -> lt_Rank t <> lt_Rank ti /\ lt_Rank t <> lt_Rank tj) ->
  StronglySorted task_le
    (set_ranks [(lt_ID ti, lt_Rank tj); (lt_ID tj, lt_Rank ti)] <$> swap i j S).
Proof.
  intros HS Hnd Hij Hi Hj Hr Hothers. rewrite sorted_lookup in HS.
  set (rs := [(lt_ID ti, lt_Rank tj); (lt_ID tj, lt_Rank ti)]).
  assert (Hid : forall a b x y, S !! a = Some x -> S !! b = Some y -> lt_ID x = lt_ID y -> a = b).
  { intros a b x y Ha Hb Heq. eapply (NoDup_lookup (lt_ID <$> S)); [done| |].
    - by rewrite list_lookup_fmap, Ha.
    - rewrite list_lookup_fmap, Hb. simpl. by rewrite Heq. }
  assert (Hrank : forall k x, (set_ranks rs <$> swap i j S) !! k = Some x ->
    exists t, S !! k = Some t /\ lt_Rank x = lt_Rank t /\ (k <> i -> k <> j -> x = t)).
  { intros k x. rewrite list_lookup_fmap, swap_lookup by (by eapply lookup_lt_Some).
    unfold swap_index. repeat case_decide; subst.
    - rewrite Hj. simpl. intros [= <-]. exists ti. split_and!; [done| |done].
      unfold set_ranks, rs. simpl. rewrite decide_False by (intros E; by apply Hij, (Hid i j _ _ Hi Hj)).
      by rewrite decide_True.
    - rewrite Hi. simpl. intros [= <-]. exists tj. split_and!; [done| |done].
      unfold set_ranks, rs. simpl. by rewrite decide_True.
    - destruct (S !! k) as [t|] eqn:Hk; [|done]. simpl. intros [= <-]. exists t.
      rewrite set_ranks_other; [done|]. unfold rs. simpl. rewrite !elem_of_cons, elem_of_nil.
      intros [E|[E|[]]]; [by apply (Hid k i) in E|by apply (Hid k j) in E]. }
  apply sorted_lookup. intros a b x y Hab Hx Hy.
  destruct (Hrank a x Hx) as (u & Hu & Hxu & Hxeq), (Hrank b y Hy) as (v & Hv & Hyv & Hyeq).
  pose proof (HS a b u v Hab Hu Hv) as Huv.
  destruct (decide (a = i \/ a = j \/ b = i \/ b = j)) as [Hin|Hout].
  - apply task_le_iff. left. rewrite Hxu, Hyv. apply task_le_iff in Huv.
    assert (lt_Rank u <> lt_Rank v) as Hne; [|lia].
    destruct (decide (a = i)), (decide (a = j)), (decide (b = i)), (decide (b = j)); simplify_eq; try lia;
      try (destruct (Hothers a u); [done..|congruence]);
      try (destruct (Hothers b v); [done..|congruence]).
  - rewrite Hxeq, Hyeq by tauto. done.
Qed.

(** ** [moveLedgerItem] *)

(** The position the code moves to: clamped to the list. *)
Definition move_target (l : EngineeringLedger) (selected : nat) (move : Z) : nat :=
  Z.to_nat (Z.max 0 (Z.min (Z.of_nat (length (visible_order l)) - 1) (Z.of_nat selected + move))).

Lemma index_of_order id l s :
  index_of id (sort_tasks (active_tasks l)) = Some s ->
  exists t, sort_tasks (active_tasks l) !! s = Some t /\ lt_ID t = id.
Proof.
  unfold index_of. intros ([i t] & (Hi & Hid & _)%list_find_Some & ->)%fmap_Some. eauto.
Qed.

(** The two shapes of a successful move. *)
Lemma move_inv l turn action m s :
  index_of (da_TargetID action) (sort_tasks (active_tasks l)) = Some s ->
  int64 (Z.of_nat s + da_Move action) ->
  moveLedgerItem l turn action = Ok m ->
  let S := sort_tasks (active_tasks l) in
  let n := move_target l s (da_Move action) in
  exists ts tn, S !! s = Some ts /\ S !! n = Some tn /\
    lm_BaseRevision m = pt_ObservedRevision turn /\ validate_mutation m = Ok tt /\
    ((s <> n /\ lt_Rank ts <> lt_Rank tn /\
      (forall k t, k <> s -> k <> n -> S !! k = Some t ->
         lt_Rank t <> lt_Rank ts /\ lt_Rank t <> lt_Rank tn) /\
      lm_Operations m = (fun '(id, r) => reorder_op id r (da_Rationale action)) <$>
        [(lt_ID ts, lt_Rank tn); (lt_ID tn, lt_Rank ts)])
     \/ lm_Operations m = match renumber_ops (da_Rationale action) (swap s n S), swap s n S !! n with
          | [], Some t => [reorder_op (da_TargetID action) (lt_Rank t) (da_Rationale action)]
          | _, _ => renumber_ops (da_Rationale action) (swap s n S)
          end).
Proof.
  intros Hs Hmove. unfold moveLedgerItem, move_target, visible_order. rewrite Hs, length_fmap, wrap64_id by done.
  set (S := sort_tasks (active_tasks l)). set (n := Z.to_nat _). cbv zeta.
  destruct (S !! s) as [ts|] eqn:Hts; [|done]. destruct (S !! n) as [tn|] eqn:Htn; [|done].
  destruct (_ && _)%bool eqn:Hu; intros H; split_ok H; subst m; exists ts, tn; simpl;
    match goal with u : unit |- _ => destruct u end; split_and!; try done; [left|right; done].
  reflect. split_and!; [by apply Nat.eqb_neq|done| |done].
  intros k t Hks Hkn Hk.
  match goal with H : existsb _ _ = false |- _ => rename H into Hclash end.
  assert ((k, t) ∈ imap pair S) as Hin.
  { apply list_elem_of_lookup. exists k. by rewrite list_lookup_imap, Hk. }
  apply list_elem_of_In in Hin. rewrite <- not_true_iff_false, existsb_exists in Hclash.
  split; intros Heq; apply Hclash; exists (k, t); (split; [done|]); simpl;
    rewrite (proj2 (Nat.eqb_neq _ _) Hks), (proj2 (Nat.eqb_neq _ _) Hkn), Heq, Z.eqb_refl;
    by rewrite ?orb_true_r.
Qed.

Lemma move_target_lt l s move :
  (0 < length (visible_order l))%nat -> (move_target l s move < length (visible_order l))%nat.
Proof. unfold move_target. lia. Qed.

(** Sorting and swapping only permute the active tasks. *)
Lemma swapped_perm l s n rs :
  (s < length (sort_tasks (active_tasks l)))%nat -> (n < length (sort_tasks (active_tasks l)))%nat ->
  set_ranks rs <$> swap s n (sort_tasks (active_tasks l)) ≡ₚ set_ranks rs <$> active_tasks l.
Proof. intros ? ?. by rewrite swap_perm, sort_perm. Qed.

Lemma swapped_ids rs s n (S : list LedgerTask) :
  lt_ID <$> (set_ranks rs <$> swap s n S) = swap s n (lt_ID <$> S).
Proof.
  rewrite <- list_fmap_compose, <- swap_fmap. apply list_fmap_ext. intros _ t _. apply set_ranks_id.
Qed.

Lemma sorted_rank_ok l k t :
  ledger_ok l -> sort_tasks (active_tasks l) !! k = Some t -> lt_ID t ∈ task_ids l /\ 0 <= lt_Rank t.
Proof.
  intros Hl Hk%list_elem_of_lookup_2%sorted_active_in. split.
  - apply list_elem_of_fmap. eauto.
  - pose proof (ledger_ok_tasks l Hl) as Hall. rewrite Forall_forall in Hall.
    by destruct (Hall t Hk) as [[] _ _ _ _].
Qed.

Lemma move_target_zero_swap l s n ts tn :
  let S := sort_tasks (active_tasks l) in
  S !! s = Some ts -> S !! n = Some tn -> renumber_from 0 (swap s n S) = [] -> s = n.
Proof.
  intros S Hs Hn Hnil.
  assert (s < length S)%nat by (by eapply lookup_lt_Some).
  assert (n < length S)%nat by (by eapply lookup_lt_Some).
  assert (lt_Rank tn = Z.of_nat s) as Hrn.
  { apply (renumber_nil 0 (swap s n S) s); [done|]. rewrite swap_lookup by done.
    unfold swap_index. by rewrite decide_True. }
  assert (lt_Rank ts = Z.of_nat n) as Hrs.
  { apply (renumber_nil 0 (swap s n S) n); [done|]. rewrite swap_lookup by done.
    unfold swap_index. case_decide as E; [by rewrite E in *; congruence|]. by rewrite decide_True. }
  pose proof (sort_sorted (active_tasks l)) as Hsorted. rewrite sorted_lookup in Hsorted.
  destruct (Nat.lt_trichotomy s n) as [Hlt|[?|Hlt]]; [|done|].
  - pose proof (Hsorted s n _ _ Hlt Hs Hn) as Hle%task_le_iff. lia.
  - pose proof (Hsorted n s _ _ Hlt Hn Hs) as Hle%task_le_iff. lia.
Qed.

(** ** The three ways a move takes effect *)

Section move_cases.
Context (l : EngineeringLedger) (m : LedgerMutation) (why : string) (s n : nat) (ts tn : LedgerTask).
Let S := sort_tasks (active_tasks l).
Hypotheses (Hl : ledger_ok l) (Hclone : clone_ledger l = l) (Hrev : el_Revision l + 1 < 2 ^ 63).
Hypotheses (Hbase : lm_BaseRevision m = el_Revision l) (Hval : validate_mutation m = Ok tt).
Hypotheses (Hts : S !! s = Some ts) (Htn : S !! n = Some tn).

Lemma batch_applies rs :
  NoDup rs.*1 -> (forall id, id ∈ rs.*1 -> id ∈ lt_ID <$> S) -> Forall (fun r => 0 <= r.2) rs ->
  lm_Operations m = (fun '(id, r) => reorder_op id r why) <$> rs ->
  StronglySorted task_le (set_ranks rs <$> swap s n S) ->
  exists next, ApplyPlanningMutation l m = Ok next /\ visible_order next = swap s n (visible_order l).
Proof using Hl Hclone Hrev Hbase Hval Hts Htn.
  intros Hnd Hin Hpos Hops Hsorted. unfold visible_order at 2. fold S.
  rewrite <- (swapped_ids rs s n S).
  apply (reorders_apply l m rs why); try done.
  - intros id (t & -> & [k Hk]%list_elem_of_lookup)%Hin%list_elem_of_fmap.
    by apply (sorted_rank_ok l k t Hl).
  - apply swapped_perm; by eapply lookup_lt_Some.
Qed.

Lemma exchange_applies :
  s <> n -> lt_Rank ts <> lt_Rank tn ->
  (forall k t, k <> s -> k <> n -> S !! k = Some t -> lt_Rank t <> lt_Rank ts /\ lt_Rank t <> lt_Rank tn) ->
  lm_Operations m = (fun '(id, r) => reorder_op id r why) <$>
    [(lt_ID ts, lt_Rank tn); (lt_ID tn, lt_Rank ts)] ->
  exists next, ApplyPlanningMutation l m = Ok next /\ visible_order next = swap s n (visible_order l).
Proof using Hl Hclone Hrev Hbase Hval Hts Htn.
  intros Hsn Hne Hothers Hops.
  pose proof (sorted_ids_nodup l (ledger_ok_nodup l Hl)) as Hnd.
  destruct (sorted_rank_ok l s ts Hl Hts) as [_ Hrs], (sorted_rank_ok l n tn Hl Htn) as [_ Hrn].
  apply (batch_applies [(lt_ID ts, lt_Rank tn); (lt_ID tn, lt_Rank ts)]);
    [| | |exact Hops|by apply exchange_sorted; [apply sort_sorted|..]].
  - simpl. apply NoDup_cons. split; [|apply NoDup_singleton]. intros E%list_elem_of_singleton.
    apply Hsn. eapply (NoDup_lookup (lt_ID <$> S)); [done| |]; rewrite list_lookup_fmap, ?Hts, ?Htn; [done|].
    simpl. by rewrite E.
  - simpl. intros id. rewrite !elem_of_cons, elem_of_nil, list_elem_of_fmap.
    intros [->|[->|[]]]; eexists; (split; [done|]); by eapply list_elem_of_lookup_2.
  - by repeat constructor.
Qed.

Lemma renumber_applies :
  lm_Operations m = renumber_ops why (swap s n S) ->
  exists next, ApplyPlanningMutation l m = Ok next /\ visible_order next = swap s n (visible_order l).
Proof using Hl Hclone Hrev Hbase Hval Hts Htn.
  intros Hops. rewrite renumber_ops_from in Hops.
  assert (NoDup (lt_ID <$> swap s n S)) as Hnd.
  { rewrite swap_perm by (by eapply lookup_lt_Some). by apply sorted_ids_nodup, Hl. }
  apply (batch_applies (renumber_from 0 (swap s n S)));
    [by apply renumber_nodup| |apply renumber_pos|exact Hops|by apply renumber_sorted].
  intros id Hid%renumber_fst. rewrite swap_perm in Hid by (by eapply lookup_lt_Some). done.
Qed.

Lemma noop_applies :
  s = n -> lm_Operations m = [reorder_op (lt_ID ts) (lt_Rank ts) why] ->
  exists next, ApplyPlanningMutation l m = Ok next /\ visible_order next = swap s n (visible_order l).
Proof using Hl Hclone Hrev Hbase Hval Hts Htn.
  intros Hsn Hops. destruct (sorted_rank_ok l s ts Hl Hts) as [_ Hrs].
  apply (batch_applies [(lt_ID ts, lt_Rank ts)]); [apply NoDup_singleton| |by repeat constructor|done|].
  - simpl. intros id ->%list_elem_of_singleton. apply list_elem_of_fmap. eexists. split; [done|].
    by eapply list_elem_of_lookup_2.
  - rewrite <- Hsn, swap_same. rewrite (list_fmap_ext _ id), list_fmap_id; [apply sort_sorted|].
    intros k t Hk. destruct (decide (k = s)) as [->|Hks].
    + assert (t = ts) as -> by congruence. unfold set_ranks. simpl. rewrite decide_True by done.
      apply with_rank_same.
    + apply set_ranks_other. simpl. intros E%list_elem_of_singleton. apply Hks.
      eapply (NoDup_lookup (lt_ID <$> S)); [by apply sorted_ids_nodup, Hl| |].
      * by rewrite list_lookup_fmap, Hk.
      * rewrite list_lookup_fmap, Hts. simpl. by rewrite E.
Qed.
End move_cases.

(** ** Adopting a proposed sequence *)

Lemma set_ranks_at rs k t r :
  NoDup rs.*1 -> rs !! k = Some (lt_ID t, r) -> set_ranks rs t = with_rank t r.
Proof.
  intros Hnd Hk. unfold set_ranks.
  assert (list_find (fun r => r.1 = lt_ID t) rs = Some (k, (lt_ID t, r))) as ->; [|done].
  apply list_find_Some. split_and!; [done..|]. intros j [id r'] Hj Hlt E. simpl in E. subst id.
  assert (j = k); [|lia]. eapply (NoDup_lookup rs.*1); [done| |]; by rewrite list_lookup_fmap, ?Hj, ?Hk.
Qed.

Lemma assign_ranks_batch rs : forall ts,
  NoDup rs.*1 -> foldl (fun ts '(id, r) => assign_rank id r ts) ts rs = set_ranks rs <$> ts.
Proof.
  induction rs as [|[id r] rs IH]; intros ts Hnd; simpl.
  - by rewrite list_fmap_id.
  - apply NoDup_cons in Hnd as [Hno Hnd]. rewrite IH by done. unfold assign_rank.
    rewrite <- list_fmap_compose. apply list_fmap_ext. intros _ t _. unfold compose.
    by rewrite set_ranks_cons.
Qed.

(** The assignments a sequence stands for. *)
Definition positions (sequence : list string) : list (string * Z) :=
  imap (fun i id => (id, Z.of_nat i + 1)) sequence.

Lemma positions_fst sequence : (positions sequence).*1 = sequence.
Proof.
  apply list_eq. intros k. unfold positions. rewrite list_lookup_fmap, list_lookup_imap.
  by destruct (sequence !! k).
Qed.

Lemma assign_ranks_positions sequence ts :
  NoDup sequence -> assign_ranks sequence ts = set_ranks (positions sequence) <$> ts.
Proof.
  intros Hnd. rewrite <- assign_ranks_batch by (by rewrite positions_fst).
  unfold assign_ranks, positions.
  assert (forall n ts, foldl (fun ts '(i, id) => assign_rank id (Z.of_nat i + 1) ts) ts
      (imap (fun i id => ((n + i)%nat, id)) sequence) =
    foldl (fun ts '(id, r) => assign_rank id r ts) ts (imap (fun i id => (id, Z.of_nat (n + i) + 1)) sequence))
    as H; [|exact (H 0%nat ts)].
  clear. induction sequence as [|id seq IH]; intros n ts; [done|].
  rewrite !imap_cons. simpl.
  rewrite (imap_ext _ (fun i id => ((S n + i)%nat, id)) seq) by (intros; unfold compose; simpl; f_equal; lia).
  rewrite IH. f_equal. apply imap_ext. intros. unfold compose. do 2 f_equal. lia.
Qed.

(** Ranking a list by a permutation of its identities sorts it into that order. *)
Lemma positions_sort sequence ts :
  NoDup (lt_ID <$> ts) -> sequence ≡ₚ lt_ID <$> ts ->
  lt_ID <$> sort_tasks (set_ranks (positions sequence) <$> ts) = sequence.
Proof.
  intros Hnd Hperm. assert (NoDup sequence) as Hnds by (by rewrite Hperm).
  destruct (Permutation_map_inv _ _ Hperm) as (P & HP & HPts). change (map lt_ID P) with (lt_ID <$> P) in HP.
  assert (sort_tasks (set_ranks (positions sequence) <$> ts) = set_ranks (positions sequence) <$> P) as ->.
  { apply sort_unique.
    - rewrite <- list_fmap_compose, (list_fmap_ext _ lt_ID); [done|]. intros _ t _. apply set_ranks_id.
    - by rewrite HPts.
    - apply sorted_lookup. intros a b x y Hab Hx Hy.
      apply list_lookup_fmap_Some in Hx as (t & -> & Ht), Hy as (u & -> & Hu).
      assert (forall k v, P !! k = Some v -> set_ranks (positions sequence) v = with_rank v (Z.of_nat k + 1)) as Hk.
      { intros k v Hv. apply (set_ranks_at _ k); [by rewrite positions_fst|].
        unfold positions. rewrite list_lookup_imap, HP, list_lookup_fmap, Hv. done. }
      rewrite (Hk a), (Hk b) by done. apply task_le_iff. left. unfold lt_Rank. simpl. lia. }
  rewrite <- list_fmap_compose, (list_fmap_ext _ lt_ID) by (intros _ t _; apply set_ranks_id). done.
Qed.

Lemma NoDup_submseteq_perm (l k : list string) :
  NoDup l -> (forall x, x ∈ l -> x ∈ k) -> length l = length k -> l ≡ₚ k.
Proof.
  intros Hnd Hin Hlen. apply submseteq_length_Permutation; [|lia]. by apply NoDup_submseteq.
Qed.

(** The checks on a sequence accept exactly the permutations of the identities. *)
Lemma check_sequence_perm ids sequence :
  NoDup ids -> length sequence = length ids ->
  check_sequence (list_to_set ids) sequence = Ok tt <-> sequence ≡ₚ ids.
Proof.
  intros Hnd Hlen. unfold check_sequence. rewrite check_loop_ok.
  rewrite (loop_seen id (fun x => x ∈ ids)).
  - rewrite list_fmap_id, Forall_forall. split.
    + intros (Hs & Hin & _). by apply NoDup_submseteq_perm.
    + intros Hp. split_and!; [by rewrite Hp|intros x; by rewrite Hp|]. apply Forall_true. set_solver.
  - intros seen x s'. rewrite (bool_decide_ext _ (x ∈ ids)) by (by rewrite elem_of_list_to_set).
    repeat case_bool_decide; naive_solver.
Qed.

Lemma index_tasks_ok ts : index_tasks ts = Ok tt <->
  NoDup (lt_ID <$> ts) /\ Forall (fun t => blank (lt_ID t) = false) ts.
Proof.
  unfold index_tasks. rewrite check_loop_ok, (loop_seen lt_ID (fun t => blank (lt_ID t) = false)).
  - split; [tauto|]. intros [? ?]. split_and!; try done. apply Forall_true. set_solver.
  - intros seen t s'. destruct (blank (lt_ID t)); [naive_solver|]. case_bool_decide; naive_solver.
Qed.

(** ** Filtering and prefixes of a sorted list *)

Lemma sorted_filter (R : relation LedgerTask) f l :
  StronglySorted R l -> StronglySorted R (List.filter f l).
Proof.
  induction 1 as [|t l Hl IH Hall]; simpl; [constructor|]. destruct (f t); [|done].
  constructor; [done|]. rewrite Forall_forall in Hall |- *. intros u Hu. apply Hall.
  apply list_elem_of_In, List.filter_In in Hu as [? _]. by apply list_elem_of_In.
Qed.

Lemma filter_perm {A} (f : A -> bool) l k : l ≡ₚ k -> List.filter f l ≡ₚ List.filter f k.
Proof.
  induction 1 as [|x l k _ IH|x y l|l1 l2 l3 _ IH1 _ IH2]; simpl; [done| | |by trans (List.filter f l2)].
  - by destruct (f x); rewrite IH.
  - destruct (f x), (f y); by try apply Permutation_swap.
Qed.

Lemma filter_comp {A} (f g : A -> bool) l :
  List.filter f (List.filter g l) = List.filter (fun x => (g x && f x)%bool) l.
Proof. induction l as [|x l IH]; [done|]. simpl. destruct (g x); simpl; [destruct (f x)|]; by rewrite IH. Qed.

Lemma task_less_of_le x y : task_le x y -> lt_ID x <> lt_ID y -> task_less x y = true.
Proof.
  intros Hle Hne. destruct (task_less x y) eqn:E; [done|].
  exfalso. by apply Hne, task_le_antisym_id.
Qed.

(** The tasks strictly before the one at position [k] are the first [k]. *)
Lemma sorted_prefix S k target :
  StronglySorted task_le S -> NoDup (lt_ID <$> S) -> S !! k = Some target ->
  List.filter (fun t => task_less t target) S = take k S.
Proof.
  revert k. induction S as [|t S IH]; intros k Hs Hnd Hk; [done|].
  inversion_clear Hs as [|? ? HS Hall]. rewrite fmap_cons, NoDup_cons in Hnd. destruct Hnd as [Hno Hnd].
  rewrite Forall_forall in Hall. destruct k as [|k]; simpl in Hk |- *.
  - injection Hk as ->.
    assert (task_less target target = false) as -> by (by destruct (total task_le target target)).
    clear IH HS Hno Hnd. induction S as [|u S IH]; [done|]. simpl.
    assert (task_less u target = false) as -> by (apply Hall; by left).
    apply IH. intros v Hv. apply Hall. by right.
  - rewrite task_less_of_le.
    + f_equal. by apply IH.
    + apply Hall. by eapply list_elem_of_lookup_2.
    + intros E. apply Hno, list_elem_of_fmap. exists target. split; [done|]. by eapply list_elem_of_lookup_2.
Qed.

(** ** A task ranked above all others comes last *)

Lemma sort_snoc ts t :
  NoDup (lt_ID <$> ts ++ [t]) -> Forall (fun u => lt_Rank u < lt_Rank t) ts ->
  sort_tasks (ts ++ [t]) = sort_tasks ts ++ [t].
Proof.
  intros Hnd Hall. apply sort_unique; [done|by rewrite sort_perm|].
  apply sorted_lookup. intros a b x y Hab Ha Hb. rewrite Forall_forall in Hall.
  apply lookup_app_Some in Hb as [Hb|[Hge Hb]].
  - pose proof (lookup_lt_Some _ _ _ Hb). rewrite lookup_app_l in Ha by lia.
    exact (proj1 (sorted_lookup task_le _) (sort_sorted ts) a b x y Hab Ha Hb).
  - apply list_lookup_singleton_Some in Hb as [Hb <-].
    rewrite lookup_app_l in Ha by lia. apply task_le_iff. left. apply Hall.
    rewrite <- (sort_perm ts). by eapply list_elem_of_lookup_2.
Qed.

Lemma next_rank_above ts u :
  Forall (fun t => 0 <= lt_Rank t < 2 ^ 63 - 1) ts -> u ∈ ts -> lt_Rank u < next_rank ts.
Proof.
  unfold next_rank.
  assert (forall r, Forall (fun t => 0 <= lt_Rank t < 2 ^ 63 - 1) ts ->
    r <= foldl (fun rank t => Z.max rank (wrap64 (lt_Rank t + 1))) r ts /\
    (u ∈ ts -> lt_Rank u < foldl (fun rank t => Z.max rank (wrap64 (lt_Rank t + 1))) r ts)) as H;
    [|intros Hall Hu; by apply (H 0 Hall)].
  induction ts as [|t ts IH]; intros r Hall; simpl.
  - split; [lia|]. by intros ?%elem_of_nil.
  - inversion_clear Hall as [|? ? Ht Hts]. rewrite wrap64_id by (split; lia).
    destruct (IH (Z.max r (lt_Rank t + 1)) Hts) as [Hr Hin]. split; [lia|].
    intros [->|Hu]%elem_of_cons; [lia|by apply Hin].
Qed.

Lemma next_rank_nonneg ts : 0 <= next_rank ts.
Proof.
  unfold next_rank. assert (forall r, 0 <= r ->
    0 <= foldl (fun rank t => Z.max rank (wrap64 (lt_Rank t + 1))) r ts) as H; [|by apply H].
  induction ts as [|t ts IH]; intros r Hr; simpl; [done|]. apply IH. lia.
Qed.

(** ** Predecessors *)

Lemma find_unique l t :
  NoDup (task_ids l) -> t ∈ el_Tasks l ->
  exists i, list_find (fun u => lt_ID u = lt_ID t) (el_Tasks l) = Some (i, t).
Proof.
  intros Hnd [i Hi]%list_elem_of_lookup. exists i. apply list_find_Some. split_and!; [done..|].
  intros j y Hj Hji Hid. assert (j = i) as ->; [|lia].
  apply (NoDup_lookup _ j i (lt_ID t) Hnd); unfold task_ids; rewrite list_lookup_fmap;
    [by rewrite Hj; simpl; f_equal|by rewrite Hi].
Qed.

Lemma filter_ids (f : string -> bool) ts :
  List.filter f (lt_ID <$> ts) = lt_ID <$> List.filter (fun t => f (lt_ID t)) ts.
Proof.
  induction ts as [|t ts IH]; [done|]. rewrite fmap_cons. cbn [List.filter].
  destruct (f (lt_ID t)); [rewrite fmap_cons; by f_equal|done].
Qed.

(** Filtering commutes with sorting when identities are distinct. *)
Lemma sort_filter f ts :
  NoDup (lt_ID <$> ts) -> sort_tasks (List.filter f ts) = List.filter f (sort_tasks ts).
Proof.
  intros Hnd. apply sort_unique.
  - apply (sublist_NoDup _ (lt_ID <$> ts)); [done|]. apply fmap_sublist. clear Hnd.
    induction ts as [|t ts IH]; simpl; [constructor|]. destruct (f t); by constructor.
  - apply filter_perm, sort_perm.
  - apply sorted_filter, sort_sorted.
Qed.

(** ** Manual additions *)

Lemma manual_add_inv l turn action m :
  da_Kind action = LedgerMutationAdd -> DirectPlanningItemMutation l turn action = Ok m ->
  exists t, lt_Item t = mkItem ("manual-" +:+ pt_OperationID turn)
      (mkProvenance "owner_turn" (pt_OwnerTurnID turn) (wrap64 (el_Revision l + 1))) ""
      (next_rank (el_Tasks l)) LedgerDispositionActive LedgerReviewProposed /\
    validate_mutation m = Ok tt /\ lm_BaseRevision m = pt_ObservedRevision turn /\
    lm_Operations m = [mkOperation LedgerMutationAdd "" (Some (mkMutationItem (Some t))) "" None
                         (da_Rationale action)].
Proof.
  intros Hk. unfold DirectPlanningItemMutation. rewrite Hk. consts.
  destruct (da_Item action) as [c|]; [|done]. cbv zeta. intros H. split_ok H. subst m.
  destruct a. eexists. split_and!; [|done..]. done.
Qed.

(** Adding one new valid task previews successfully. *)
Lemma add_applies l m t why :
  ledger_ok l -> clone_ledger l = l -> el_Revision l + 1 < 2 ^ 63 ->
  lm_BaseRevision m = el_Revision l -> validate_mutation m = Ok tt -> lt_ID t ∉ task_ids l ->
  lm_Operations m = [mkOperation LedgerMutationAdd "" (Some (mkMutationItem (Some t))) "" None why] ->
  ApplyPlanningMutation l m =
    Ok (mkLedger (el_ID l) (wrap64 (el_Revision l + 1)) (el_Tasks l ++ [t])).
Proof.
  intros Hl Hclone Hrev Hbase Hm Hnew Hops.
  pose proof (validated_operations m Hm) as Hv. rewrite Hops in Hv. apply Forall_cons in Hv as [Hv _].
  destruct (applyPlanningOperation l (mkOperation LedgerMutationAdd "" (Some (mkMutationItem (Some t))) "" None why))
    as [l'|e] eqn:Happ; [|done].
  destruct (apply_add l _ l' Hv eq_refl Happ) as (p & [= <-] & Hok & _ & Heq).
  unfold ApplyPlanningMutation, ValidateLedgerMutation.
  rewrite (proj2 (validate_ledger_ok l) Hl), Hbase, Z.eqb_refl, Hclone, Hops. cbn [negb loop].
  rewrite Hm, Happ, Heq by done.
  rewrite (proj2 (validate_ledger_ok _)); [done|]. destruct Hl as [H1 H2 H3 H4]. constructor; simpl.
  - done.
  - rewrite wrap64_id by (split; lia). lia.
  - unfold task_ids. simpl. rewrite fmap_app. apply list.NoDup_app. split_and!; [done| |apply NoDup_singleton].
    intros x Hx ->%list_elem_of_singleton. done.
  - apply Forall_app. split; [done|]. constructor; [done|constructor].
Qed.

Lemma active_ids_in l x : x ∈ lt_ID <$> active_tasks l -> x ∈ task_ids l.
Proof.
  intros (t & -> & Ht)%list_elem_of_fmap. apply list_elem_of_In, List.filter_In in Ht as [Ht _].
  by apply list_elem_of_fmap_2, list_elem_of_In.
Qed.
