(* ===== verification/PlanningSpec.v ===== *)
(** * Planning: the theorems

    The preview of a mutation, direct moves, manual additions, adopted orders and
    predecessor lists, stated on the functions of [Planning] and proved from
    [PlanningFacts] and [PlanningOrder]. *)
From S2P Require Import Prelude Ledger Planning PlanningFacts PlanningOrder.
From stdpp Require Import sorting base tactics strings list gmap numbers.
From stdpp Require Import list options.
Open Scope Z_scope.
Open Scope go_scope.

(** ** Sample data for the witnesses *)

Definition demo_provenance : LedgerProvenance := mkProvenance "owner_turn" "turn-1" 1.
Definition demo_task (id goal review : string) (rank : Z) : LedgerTask :=
  mkTask (mkItem id demo_provenance "" rank LedgerDispositionActive review) goal "" None None None None
    None None None.
Definition demo_ledger : EngineeringLedger :=
  mkLedger "planning-7" 3
    [demo_task "a" "first" LedgerReviewAgreed 1; demo_task "b" "second" LedgerReviewAgreed 2;
     demo_task "c" "third" LedgerReviewProposed 2].
Definition demo_turn : PlanningTurn := mkTurn "" "op-9" "turn-9" "change it" 3 None.
Definition demo_op (kind target review : string) (item : option LedgerMutationItem) : LedgerMutationOperation :=
  mkOperation kind target item review None "why".
Definition demo_mutation : LedgerMutation :=
  mkMutation "op-9" 3 "turn-9" (RepresentedOwnerTurn ["b"; "d"])
    [demo_op LedgerMutationAmend "b" "" (Some (mkMutationItem (Some (demo_task "b" "second, revised" LedgerReviewAgreed 2))));
     demo_op LedgerMutationAdd "" "" (Some (mkMutationItem (Some (demo_task "d" "fourth" LedgerReviewProposed 4))))].
Definition demo_next : EngineeringLedger :=
  mkLedger "planning-7" 4
    [demo_task "a" "first" LedgerReviewAgreed 1; demo_task "b" "second, revised" LedgerReviewProposed 2;
     demo_task "c" "third" LedgerReviewProposed 2; demo_task "d" "fourth" LedgerReviewProposed 4].

Example demo_preview : ApplyPlanningMutation demo_ledger demo_mutation = Ok demo_next.
Proof. vm_compute. reflexivity. Qed.

(** a successful preview yields a valid ledger, one revision later (the
    revision never wraps around), whose identities are those of the current
    ledger in their old order followed by the identities the mutation adds:
    no task ever disappears or moves. *)
Theorem preview_identities current m next :
  int64 (el_Revision current) ->
  ApplyPlanningMutation current m = Ok next ->
  ledger_ok next /\ el_Revision next = el_Revision current + 1 /\
  task_ids next = (json_text <$> task_ids current) ++ all_added (lm_Operations m).
Proof.
  intros Hrev (Hcur & Hnext & _ & Hm & mid & Hloop & _ & ->)%preview_inv. split_and!; [done| |].
  - pose proof (ledger_ok_revision _ Hnext) as H0. simpl in *.
    destruct (decide (el_Revision current + 1 < 2 ^ 63)) as [Hlt|Hge].
    + apply wrap64_id. pose proof (ledger_ok_revision _ Hcur). split; lia.
    + assert (el_Revision current + 1 = 2 ^ 63) as E by (unfold int64 in Hrev; lia).
      rewrite E in H0. vm_compute in H0. by destruct H0.
  - change (task_ids (ledger_with_revision mid _)) with (task_ids mid).
    rewrite (loop_ids _ _ _ (validated_operations m Hm) Hloop). f_equal.
    unfold task_ids. simpl. rewrite <- !list_fmap_compose. by apply list_fmap_ext.
Qed.

Lemma preview_identities_witness :
  int64 (el_Revision demo_ledger) /\ ApplyPlanningMutation demo_ledger demo_mutation = Ok demo_next /\
  (ledger_ok demo_next /\ el_Revision demo_next = el_Revision demo_ledger + 1 /\
   task_ids demo_next = (json_text <$> task_ids demo_ledger) ++ all_added (lm_Operations demo_mutation)).
Proof.
  split; [vm_compute; split; [discriminate|reflexivity]|]. split; [vm_compute; reflexivity|].
  apply (preview_identities demo_ledger demo_mutation demo_next).
  - vm_compute; split; [discriminate|reflexivity].
  - vm_compute; reflexivity.
Defined.

(** a previewed mutation leaves every task it does not target in its place
    and unchanged, up to the JSON round trip the preview starts with. *)
Theorem preview_frame current m next i t :
  ApplyPlanningMutation current m = Ok next ->
  el_Tasks current !! i = Some t ->
  (forall op, op ∈ lm_Operations m -> op_TargetID op <> json_text (lt_ID t)) ->
  el_Tasks next !! i = Some (clone_task t).
Proof.
  intros (_ & _ & _ & _ & mid & _ & Hsteps & ->)%preview_inv Hi Hne. simpl.
  apply (steps_frame _ _ _ i (clone_task t) Hsteps); [|done].
  simpl. by rewrite list_lookup_fmap, Hi.
Qed.

Lemma preview_frame_witness :
  ApplyPlanningMutation demo_ledger demo_mutation = Ok demo_next /\
  el_Tasks demo_next !! 0%nat = Some (clone_task (demo_task "a" "first" LedgerReviewAgreed 1)).
Proof.
  split; [vm_compute; reflexivity|].
  apply (preview_frame demo_ledger demo_mutation demo_next 0%nat).
  - vm_compute; reflexivity.
  - reflexivity.
  - intros op Hop. unfold demo_mutation in Hop. simpl in Hop.
    repeat (apply elem_of_cons in Hop as [->|Hop]; [vm_compute; discriminate|]).
    by apply elem_of_nil in Hop.
Defined.

(** agreements do not survive a change of contents. A task that the
    mutation does not explicitly review is agreed afterwards only if it was
    agreed before, and then it is the very same task up to its rank. *)
Theorem preview_agreement current m next i t' :
  ApplyPlanningMutation current m = Ok next ->
  el_Tasks next !! i = Some t' ->
  lt_ReviewState t' = LedgerReviewAgreed ->
  (forall op, op ∈ lm_Operations m -> op_Kind op = LedgerMutationReview -> op_TargetID op <> lt_ID t') ->
  exists t, el_Tasks current !! i = Some t /\
    lt_ReviewState (clone_task t) = LedgerReviewAgreed /\
    t' = with_rank (clone_task t) (lt_Rank t').
Proof.
  intros (_ & _ & _ & _ & mid & _ & Hsteps & ->)%preview_inv Hi Hag Hrev.
  destruct (steps_agreed _ _ _ i t' Hsteps Hi Hag Hrev) as (t & Ht & Hagt & Heq).
  simpl in Ht. apply list_lookup_fmap_Some in Ht as (u & -> & Hu). eauto.
Qed.

Lemma preview_agreement_witness :
  exists t, el_Tasks demo_ledger !! 0%nat = Some t /\
    lt_ReviewState (clone_task t) = LedgerReviewAgreed /\
    demo_task "a" "first" LedgerReviewAgreed 1 = with_rank (clone_task t) 1.
Proof.
  apply (preview_agreement demo_ledger demo_mutation demo_next 0%nat
           (demo_task "a" "first" LedgerReviewAgreed 1)).
  - vm_compute; reflexivity.
  - reflexivity.
  - reflexivity.
  - intros op Hop Hk. unfold demo_mutation in Hop. simpl in Hop.
    repeat (apply elem_of_cons in Hop as [->|Hop]; [vm_compute in Hk; discriminate|]).
    by apply elem_of_nil in Hop.
Defined.

(** a manual move always works and does exactly what it says. On a valid
    ledger whose revision the turn observed, the mutation built by
    [moveLedgerItem] previews successfully and the visible order afterwards is
    the old one with the selected task and the task at the clamped target
    position exchanged, whatever ties the old ranks have. *)
Theorem move_exchanges l turn action m s :
  ledger_ok l -> clone_ledger l = l -> el_Revision l + 1 < 2 ^ 63 ->
  pt_ObservedRevision turn = el_Revision l ->
  index_of (da_TargetID action) (sort_tasks (active_tasks l)) = Some s ->
  int64 (Z.of_nat s + da_Move action) ->
  moveLedgerItem l turn action = Ok m ->
  exists next, ApplyPlanningMutation l m = Ok next /\
    visible_order next = swap s (move_target l s (da_Move action)) (visible_order l).
Proof.
  intros Hl Hclone Hrev Hobs Hs Hmove Hm.
  destruct (move_inv l turn action m s Hs Hmove Hm) as (ts & tn & Hts & Htn & Hbase & Hval & Hcase).
  rewrite Hobs in Hbase. destruct Hcase as [(Hsn & Hne & Hothers & Hops)|Hops].
  - by eapply exchange_applies.
  - set (n := move_target l s (da_Move action)) in *.
    destruct (renumber_ops _ _) as [|op ops] eqn:Hren.
    + rewrite renumber_ops_from in Hren. apply fmap_nil_inv in Hren.
      pose proof (move_target_zero_swap l s n ts tn Hts Htn Hren) as Hsn.
      destruct (index_of_order _ _ _ Hs) as (u & Hu & Huid). assert (u = ts) as -> by congruence.
      rewrite <- Hsn, swap_same, Hts, <- Huid in Hops. rewrite <- Hsn in Htn |- *.
      by eapply noop_applies.
    + eapply renumber_applies; try done. rewrite Hren. by destruct (_ !! _).
Qed.

Definition demo_move : DirectPlanningAction := mkAction (-1) None LedgerMutationReorder "c" "" None "up".
Lemma move_exchanges_witness :
  moveLedgerItem demo_ledger demo_turn demo_move =
    Ok (mkMutation "op-9" 3 "turn-9" (RepresentedOwnerTurn ["a"; "c"])
         [reorder_op "a" 0 "up"; reorder_op "c" 1 "up"]) /\
  exists next,
    ApplyPlanningMutation demo_ledger
      (mkMutation "op-9" 3 "turn-9" (RepresentedOwnerTurn ["a"; "c"])
         [reorder_op "a" 0 "up"; reorder_op "c" 1 "up"]) = Ok next /\
    visible_order next = swap 2 (move_target demo_ledger 2 (-1)) (visible_order demo_ledger).
Proof.
  split; [vm_compute; reflexivity|].
  apply (move_exchanges demo_ledger demo_turn demo_move).
  - apply validate_ledger_ok. vm_compute. reflexivity.
  - vm_compute. reflexivity.
  - reflexivity.
  - reflexivity.
  - vm_compute. reflexivity.
  - vm_compute. split; [discriminate|reflexivity].
  - vm_compute. reflexivity.
Defined.

(** an order proposed for unordered tasks is adopted exactly when it is a
    permutation of their identities. The adopted ranks sort the tasks into that
    very sequence and nothing but ranks changes; any other sequence is an error. *)
Theorem proposed_order decode_ids at_eof ask ts raw sequence rest :
  (1 < length ts)%nat -> NoDup (lt_ID <$> ts) -> Forall (fun t => blank (lt_ID t) = false) ts ->
  ask ((fun t => (lt_ID t, lt_Goal t)) <$> ts) = Ok raw ->
  decode_ids raw = Ok (sequence, rest) -> at_eof rest = true ->
  (sequence ≡ₚ lt_ID <$> ts ->
    exists out, OrderUnorderedTasks decode_ids at_eof (Some ask) (Ok tt) (Ok tt) ts = Ok out /\
      lt_ID <$> sort_tasks out = sequence /\
      (forall i t, ts !! i = Some t -> exists r, out !! i = Some (with_rank t r))) /\
  (~ sequence ≡ₚ lt_ID <$> ts ->
    exists e, OrderUnorderedTasks decode_ids at_eof (Some ask) (Ok tt) (Ok tt) ts = Err e).
Proof.
  intros Hlen Hnd Hnb Hask Hdec Heof. unfold OrderUnorderedTasks.
  rewrite (proj2 (Nat.leb_gt _ _) Hlen), (proj2 (index_tasks_ok ts)), Hask, Hdec, Heof by done. simpl.
  destruct (Nat.eqb_spec (length sequence) (length ts)) as [Hl|Hl]; simpl.
  - pose proof (check_sequence_perm (lt_ID <$> ts) sequence Hnd) as Hiff.
    rewrite length_fmap in Hiff. specialize (Hiff Hl). split.
    + intros Hp. rewrite (proj2 Hiff Hp), assign_ranks_positions by (by rewrite Hp).
      eexists. split_and!; [done|by apply positions_sort|].
      intros i t Hi. rewrite list_lookup_fmap, Hi. simpl. unfold set_ranks.
      destruct (list_find _ _) as [[? [? r]]|]; [by exists r|].
      exists (lt_Rank t). by destruct t as [[]].
    + intros Hp. destruct (check_sequence _ _) as [[]|e] eqn:E; [|by eexists].
      by destruct Hp; apply Hiff.
  - split; [|by eexists]. intros Hp. by rewrite Hp, length_fmap in Hl.
Qed.

Lemma proposed_order_witness :
  exists out,
    OrderUnorderedTasks (fun _ => Ok (["c"; "a"; "b"], "")) (fun r => r == "") (Some (fun _ => Ok "raw"))
      (Ok tt) (Ok tt) (el_Tasks demo_ledger) = Ok out /\
    lt_ID <$> sort_tasks out = ["c"; "a"; "b"] /\
    (forall i t, el_Tasks demo_ledger !! i = Some t -> exists r, out !! i = Some (with_rank t r)).
Proof.
  apply (proposed_order (fun _ => Ok (["c"; "a"; "b"], "")) (fun r => r == "") (fun _ => Ok "raw")
           (el_Tasks demo_ledger) "raw" ["c"; "a"; "b"] "").
  - simpl. lia.
  - apply (bool_decide_unpack _). vm_compute. exact I.
  - repeat constructor.
  - reflexivity.
  - reflexivity.
  - reflexivity.
  - simpl. apply (Permutation_cons_append ["a"; "b"] "c").
Defined.

(** The predecessors shown for an active task are the tasks displayed before
    it that are not completed, in display order. *)
Theorem predecessors_displayed l selected completed k :
  NoDup (task_ids l) -> visible_order l !! k = Some selected ->
  pp_ID <$> precedingIncompletePlanningTasks l selected completed =
  List.filter (fun id => negb (bool_decide (id ∈ completed))) (take k (visible_order l)).
Proof.
  intros Hnd Hk. unfold visible_order in *. apply list_lookup_fmap_Some in Hk as (target & -> & Hk).
  assert (target ∈ el_Tasks l) as Hin.
  { apply list_elem_of_lookup_2 in Hk. rewrite sort_perm in Hk. unfold active_tasks in Hk.
    apply list_elem_of_In, List.filter_In in Hk as [? _]. by apply list_elem_of_In. }
  unfold precedingIncompletePlanningTasks. destruct (find_unique l target Hnd Hin) as [i ->].
  rewrite <- list_fmap_compose, <- fmap_take, filter_ids.
  rewrite <- (sorted_prefix _ k target) by (apply sort_sorted || done || by apply sorted_ids_nodup).
  rewrite filter_comp. unfold active_tasks. rewrite !sort_filter, filter_comp by done.
  rewrite (filter_ext (fun x => (active x && (task_less x target && negb (bool_decide (lt_ID x ∈ completed))))%bool)
    (fun x => (active x && negb (bool_decide (lt_ID x ∈ completed)) && task_less x target)%bool)); [done|].
  intros t. destruct (active t), (task_less t target), (bool_decide _); done.
Qed.

Lemma predecessors_displayed_witness :
  pp_ID <$> precedingIncompletePlanningTasks demo_ledger "c" ["b"] =
  List.filter (fun id => negb (bool_decide (id ∈ ["b"]))) (take 2 (visible_order demo_ledger)).
Proof.
  apply (predecessors_displayed demo_ledger "c" ["b"] 2).
  - apply (bool_decide_unpack _). vm_compute. exact I.
  - vm_compute. reflexivity.
Defined.

(** A task added by hand always previews and is displayed last. The only
    conditions are that the identity derived from the operation is new, that no
    rank is the largest [int64] and that the contents are a valid task. *)
Theorem manual_add_last l turn action m :
  ledger_ok l -> clone_ledger l = l -> el_Revision l + 1 < 2 ^ 63 ->
  pt_ObservedRevision turn = el_Revision l ->
  da_Kind action = LedgerMutationAdd ->
  "manual-" +:+ pt_OperationID turn ∉ task_ids l ->
  Forall (fun t => lt_Rank t < 2 ^ 63 - 1) (el_Tasks l) ->
  DirectPlanningItemMutation l turn action = Ok m ->
  exists next, ApplyPlanningMutation l m = Ok next /\
    visible_order next = visible_order l ++ ["manual-" +:+ pt_OperationID turn].
Proof.
  intros Hl Hclone Hrev Hobs Hkind Hnew Hranks Hm.
  destruct (manual_add_inv l turn action m Hkind Hm) as (t & Hitem & Hval & Hbase & Hops).
  assert (lt_ID t = "manual-" +:+ pt_OperationID turn) as Hid by (unfold lt_ID; by rewrite Hitem).
  rewrite <- Hid in Hnew |- *. eexists. split.
  { eapply add_applies; try done. by rewrite Hbase. }
  unfold visible_order, active_tasks. simpl. rewrite List.filter_app. simpl.
  assert (active t = true) as -> by (unfold active, lt_Disposition; by rewrite Hitem).
  rewrite sort_snoc; [by rewrite fmap_app| |].
  - rewrite fmap_app. apply list.NoDup_app. split_and!; [by apply active_ids_nodup, Hl| |apply NoDup_singleton].
    intros x Hx ->%list_elem_of_singleton. by apply Hnew, active_ids_in.
  - rewrite Forall_forall in Hranks |- *. intros u Hu. apply list_elem_of_In, List.filter_In in Hu as [Hu _].
    apply list_elem_of_In in Hu. unfold lt_Rank at 2. rewrite Hitem.
    apply next_rank_above; [|done]. rewrite Forall_forall. intros v Hv. split; [|by apply Hranks].
    destruct Hl as [_ _ _ Hts]. rewrite Forall_forall in Hts. by destruct (Hts v Hv) as [[]].
Qed.

Definition demo_add : DirectPlanningAction :=
  mkAction 0 (Some (demo_task "" "extra" "" 0)) LedgerMutationAdd "" "" None "more".
Definition demo_added : LedgerMutation :=
  mkMutation "op-9" 3 "turn-9" (RepresentedOwnerTurn ["manual-op-9"])
    [mkOperation LedgerMutationAdd ""
       (Some (mkMutationItem (Some (with_item (demo_task "" "extra" "" 0)
          (mkItem "manual-op-9" (mkProvenance "owner_turn" "turn-9" 4) "" 3 LedgerDispositionActive
             LedgerReviewProposed))))) "" None "more"].
Lemma manual_add_last_witness :
  DirectPlanningItemMutation demo_ledger demo_turn demo_add = Ok demo_added /\
    exists next, ApplyPlanningMutation demo_ledger demo_added = Ok next /\
    visible_order next = visible_order demo_ledger ++ ["manual-op-9"].
Proof.
  split; [vm_compute; reflexivity|].
  apply (manual_add_last demo_ledger demo_turn demo_add demo_added).
  - apply validate_ledger_ok. vm_compute. reflexivity.
  - vm_compute. reflexivity.
  - reflexivity.
  - reflexivity.
  - reflexivity.
  - apply (bool_decide_unpack _). vm_compute. exact I.
  - repeat constructor.
  - vm_compute. reflexivity.
Defined.

(** Binding parsed details to code-owned identities. When neither the
    original nor the new task repeats a criterion text, every criterion of the
    result has an identity of its own, a criterion whose text is retained keeps
    its identity, a new one gets an identity the original never used, and texts
    and verification commands are those of the new task. *)
Theorem bound_criteria task original provenance :
  NoDup (ta_Text <$> elems (lt_Acceptance task)) ->
  NoDup (ta_Text <$> elems (lt_Acceptance original)) ->
  NoDup (ta_ID <$> elems (lt_Acceptance original)) ->
  let bound := elems (lt_Acceptance (bindPlanningDetails task (Some original) provenance)) in
  ta_Text <$> bound = ta_Text <$> elems (lt_Acceptance task) /\
    ta_Verification <$> bound = ta_Verification <$> elems (lt_Acceptance task) /\
    NoDup (ta_ID <$> bound) /\
    (forall c o, c ∈ bound -> o ∈ elems (lt_Acceptance original) -> (ta_ID c = ta_ID o <-> ta_Text c = ta_Text o)).
Proof.
  intros Hnd Hnt Hni. cbv zeta. unfold bindPlanningDetails. simpl.
  destruct (lt_Acceptance task) as [cs|]; simpl; 
    [|split_and!; [done|done|apply NoDup_nil_2|by intros ? ? ?%elem_of_nil]].
  simpl in Hnd. set (os := elems (lt_Acceptance original)) in *.
  set (criteria := foldl (fun m v => <[ta_Text v := ta_ID v]> m) (∅ : gmap string string) os).
  destruct (foldl_insert_lookup ta_Text ta_ID os ∅ Hnt) as [Hin Hout]. fold criteria in Hin, Hout.
  assert (forall x i, criteria !! x = Some i -> exists o, o ∈ os /\ ta_Text o = x /\ ta_ID o = i) as Hinv.
  { intros x i Hx. destruct (decide (x ∈ ta_Text <$> os)) as [(o & -> & Ho)%list_elem_of_fmap|Hno].
    - rewrite (Hin o Ho) in Hx. exists o. naive_solver.
    - by rewrite (Hout x Hno), lookup_empty in Hx. }
  destruct (crit_inv_loop criteria (list_to_set (ta_ID <$> os))) with (cs := cs) (next := 1)
    (used := list_to_set (ta_ID <$> os) : gset string) (out := @nil TaskAcceptance)
    as ([_ Hids _ Hret Hfr] & Htext & Hver).
  - intros x i (o & Ho & _ & <-)%Hinv. apply elem_of_list_to_set. by apply list_elem_of_fmap_2.
  - intros x y i (o & Ho & <- & <-)%Hinv (o' & Ho' & <- & Hid)%Hinv. f_equal.
    by apply (nodup_fmap_inj ta_ID os).
  - done.
  - constructor; [done|apply NoDup_nil_2|by intros ? ?%elem_of_nil..| |]; by intros ? ? ?%elem_of_nil || intros ? ?%elem_of_nil.
  - split_and!; [done..|]. intros c o Hc Ho. split.
    + intros Hid. destruct (criteria !! ta_Text c) as [i|] eqn:E.
      * destruct (Hinv _ _ E) as (o' & Ho' & Ht & Hi). rewrite <- Ht. f_equal.
        apply (nodup_fmap_inj ta_ID os); try done. rewrite Hi, <- Hid. symmetry. by apply Hret.
      * exfalso. apply (Hfr c Hc E). rewrite Hid. apply elem_of_list_to_set. by apply list_elem_of_fmap_2.
    + intros Ht. apply Hret; [done|]. rewrite Ht. by apply Hin.
Qed.

Definition demo_criterion (id text : string) : TaskAcceptance := mkTaskAcceptance id text (Some ["run"]).
Definition demo_detailed (cs : list TaskAcceptance) : LedgerTask :=
  mkTask (lt_Item (demo_task "a" "first" LedgerReviewAgreed 1)) "first" "" None None None (Some cs) None None None.
Lemma bound_criteria_witness :
  let bound := elems (lt_Acceptance (bindPlanningDetails
    (demo_detailed [demo_criterion "" "new"; demo_criterion "" "kept"; demo_criterion "" "newer"])
    (Some (demo_detailed [demo_criterion "criterion_1" "dropped"; demo_criterion "criterion_2" "kept"]))
    demo_provenance)) in
  ta_ID <$> bound = ["criterion_3"; "criterion_2"; "criterion_4"] /\ NoDup (ta_ID <$> bound).
Proof.
  cbv zeta. split; [vm_compute; reflexivity|].
  apply (bound_criteria
    (demo_detailed [demo_criterion "" "new"; demo_criterion "" "kept"; demo_criterion "" "newer"])
    (demo_detailed [demo_criterion "criterion_1" "dropped"; demo_criterion "criterion_2" "kept"])
    demo_provenance); apply (bool_decide_unpack _); vm_compute; exact I.
Defined.
