(* ===== verification/LedgerStore.v ===== *)
(** * The ledger repository: applying a mutation

    Models the code-owned part of [internal/queue/coding_plan_mutation.go] and
    [coding_plan_validation.go]: from what a transaction has read (the state and
    revision of the ledger, its current contents and routes, the accepted
    contracts to restore) to the contents it is about to persist.  Reading and
    writing the rows is PostgreSQL's and is not modelled. *)
From Stdlib Require Import Ascii.
From S2P Require Import Prelude Ledger Planning.
From stdpp Require Import sorting base tactics strings list gmap numbers.
From stdpp Require Import list options.
Open Scope Z_scope.
Open Scope go_scope.

(** ** Routes *)

Record CodingLedgerRoute := mkRoute {
  cr_Role : string;
  cr_ConfigurationRevision : Z;
  cr_Provider : string;
  cr_Model : string;
  cr_ReasoningEffort : string;
  cr_ServiceTier : string
}.
#[global] Instance CodingLedgerRoute_eq : EqDecision CodingLedgerRoute. Proof. solve_decision. Defined.

Definition route_options (r : CodingLedgerRoute) : list string :=
  [cr_Provider r; cr_Model r; cr_ReasoningEffort r; cr_ServiceTier r].
Definition invalid_option (v : string) : bool :=
  ((v == "") || (v != trim_space v) || contains_any v control_bytes)%bool.

Definition validate_route (revision : Z) (st : gset string * Z) (route : CodingLedgerRoute)
    : result (gset string * Z) :=
  let '(seen, configurationRevision) := st in
  reject "coding ledger route has unsupported role %q"
    when negb (bool_decide (cr_Role route ∈ ["planner"; "executor"; "reviewer"]));
  reject "coding ledger route repeats role %q" when bool_decide (cr_Role route ∈ seen);
  reject "coding ledger route %s has invalid configuration revision"
    when ((cr_ConfigurationRevision route <=? 0) || (revision <? cr_ConfigurationRevision route))%bool;
  reject "coding ledger routes require one configuration revision"
    when (negb (configurationRevision =? 0) &&
          negb (configurationRevision =? cr_ConfigurationRevision route))%bool;
  reject "coding ledger route %s contains an invalid option" when existsb invalid_option (route_options route);
  Ok ({[ cr_Role route ]} ∪ seen, cr_ConfigurationRevision route).

Definition validateCodingLedgerRoutes (routes : list CodingLedgerRoute) (revision : Z) : result unit :=
  reject "coding ledger requires exactly planner, executor, and reviewer routes"
    when negb (Nat.eqb (length routes) 3);
  check loop (validate_route revision) (∅, 0) routes;
  Ok tt.

(** The maps by role that [codingLedgerRoutesEqual] compares. *)
Definition routes_by_role (routes : list CodingLedgerRoute) : gmap string CodingLedgerRoute :=
  foldl (fun m r => <[cr_Role r := r]> m) ∅ routes.
Definition codingLedgerRoutesEqual (left right : list CodingLedgerRoute) : bool :=
  (Nat.eqb (length left) (length right) && (routes_by_role left == routes_by_role right))%bool.

Definition validateCodingLedgerRouteMutation (current supplied : list CodingLedgerRoute) (nextRevision : Z)
    (operations : list LedgerMutationOperation) (disposition : OwnerTurnDisposition) : result unit :=
  if ((supplied == []) || codingLedgerRoutesEqual current supplied)%bool then Ok tt
  else
    let represented := existsb (fun s => os_Kind s == OwnerTurnRepresented) (od_Statements disposition) in
    reject "coding ledger route replacement requires a represented material mutation"
      when (bool_decide (operations = []) || negb represented)%bool;
    for_each (fun route =>
      reject "coding ledger route replacement requires configuration revision %d"
        when negb (cr_ConfigurationRevision route =? nextRevision); Ok tt) supplied.

(** ** Identities and duplicates *)

Definition alphanumeric (a : ascii) : bool := (byte_in 48 57 a || byte_in 65 90 a || byte_in 97 122 a)%bool.
(** [^[A-Za-z0-9][A-Za-z0-9_.:-]*$] *)
Definition codingLedgerItemIDPattern (s : string) : bool :=
  match String.list_ascii_of_string s with
  | [] => false
  | a :: r => (alphanumeric a &&
               forallb (fun b => alphanumeric b || bool_decide (b ∈ [byte 95; byte 46; byte 58; byte 45])) r)%bool
  end.

(** The payload that is compared: the encoded task without the fields of its
    [LedgerItem].  Equal encodings are equal decodings; the numbers in a payload are
    compared as integers, where the code's decoding into [any] has them as [float64]:
    for the revisions a ledger reaches, far below 2^53, that is the same. *)
Definition blank_item : LedgerItem := mkItem "" (mkProvenance "" "" 0) "" 0 "" "".
Definition duplicate_payload (t : LedgerTask) : LedgerTask := with_item (clone_task t) blank_item.

Definition add_payload (duplicates : list LedgerTask) (t : LedgerTask) : result (list LedgerTask) :=
  reject "coding ledger contains exact duplicate %s records"
    when bool_decide (duplicate_payload t ∈ duplicates);
  Ok (duplicate_payload t :: duplicates).
Definition validateCodingLedgerExactDuplicates (ledger : EngineeringLedger) : result unit :=
  check loop add_payload [] (el_Tasks ledger); Ok tt.

Definition validateLedgerForRepository (ledger : EngineeringLedger) : result unit :=
  check validate_ledger ledger;
  check for_each (fun t =>
    reject "coding ledger item %q has an invalid or reserved stable identity"
      when negb (codingLedgerItemIDPattern (lt_ID t)); Ok tt) (el_Tasks ledger);
  validateCodingLedgerExactDuplicates ledger.

Definition validateInitialCodingLedgerReviewStates (ledger : EngineeringLedger) : result unit :=
  for_each (fun t =>
    reject "initial coding ledger item %s must start proposed"
      when (active t && (lt_ReviewState t != LedgerReviewProposed))%bool; Ok tt) (el_Tasks ledger).

Definition validateCodingLedgerOperationID (v : string) : result unit :=
  reject "coding ledger operation requires a trimmed identity of at most 256 bytes" when invalid_option v; Ok tt.
Definition codingLedgerInternalOwnerTurnPrefix : string := "omnidex-internal:".
Definition validateCodingLedgerExternalOwnerTurnID (turnID : string) : result unit :=
  reject "coding ledger owner turn identity uses reserved internal namespace"
    when has_prefix turnID codingLedgerInternalOwnerTurnPrefix; Ok tt.

(** ** Dispositions of the owner's turn *)

Definition validate_initial_statement (ledger : EngineeringLedger) (d : OwnerStatementDisposition) : result unit :=
  if os_Kind d == OwnerTurnRepresented then
    reject "represented owner turn cannot include a reason" when negb (blank (os_Reason d));
    reject "represented owner turn requires active item references" when bool_decide (os_ItemIDs d = []);
    for_each (fun id =>
      reject "represented owner turn references unavailable item %s"
        when negb (bool_decide (id ∈ lt_ID <$> active_tasks ledger)); Ok tt) (os_ItemIDs d)
  else if os_Kind d == OwnerTurnOutOfScope then
    reject "out-of-scope owner turn cannot include item references" when negb (bool_decide (os_ItemIDs d = []));
    reject "out-of-scope owner turn requires a reason" when blank (os_Reason d);
    Ok tt
  else Err "owner turn requires a disposition".
Definition validateOwnerTurnDisposition (ledger : EngineeringLedger) (disposition : OwnerTurnDisposition)
    : result unit :=
  if bool_decide (od_Statements disposition = []) then
    reject "owner turn requires statement dispositions" when negb (Nat.eqb (length (el_Tasks ledger)) 0); Ok tt
  else for_each (validate_initial_statement ledger) (od_Statements disposition).

Definition represent (next : EngineeringLedger) (st : gset string * bool) (s : OwnerStatementDisposition)
    : result (gset string * bool) :=
  if os_Kind s == OwnerTurnRepresented then
    check for_each (fun id =>
      reject "represented owner turn references unavailable item %s"
        when negb (bool_decide (id ∈ task_ids next)); Ok tt) (os_ItemIDs s);
    Ok (list_to_set (os_ItemIDs s) ∪ st.1, st.2)
  else if os_Kind s == OwnerTurnOutOfScope then Ok (st.1, true)
  else Ok st.

Definition operation_target (op : LedgerMutationOperation) : string :=
  if op_Kind op == LedgerMutationAdd then planningMutationItemID (op_Item op) else op_TargetID op.

Definition validateMutationOwnerTurnDisposition (next : EngineeringLedger)
    (operations : list LedgerMutationOperation) (disposition : OwnerTurnDisposition) : result unit :=
  let? st := loop (represent next) (∅, false) (od_Statements disposition) in
  check for_each (fun op =>
    reject "owner turn disposition does not reference mutation target %s"
      when negb (bool_decide (operation_target op ∈ st.1)); Ok tt) operations;
  if (negb (bool_decide (operations = [])) || st.2)%bool then Ok tt
  else Err "owner turn requires a disposition consistent with its mutation".

(** ** Operations *)

(** [setCodingLedgerItem]: the first task with the identity; [None] is [false]. *)
Fixpoint set_item (id : string) (update : LedgerItem -> LedgerItem) (ts : list LedgerTask)
    : option (list LedgerTask) :=
  match ts with
  | [] => None
  | t :: ts => if lt_ID t == id then Some (with_item t (update (lt_Item t)) :: ts)
               else (fun r => t :: r) <$> set_item id update ts
  end.
Definition setCodingLedgerItem (ledger : EngineeringLedger) (id : string) (update : LedgerItem -> LedgerItem)
    : option EngineeringLedger :=
  ledger_with_tasks ledger <$> set_item id update (el_Tasks ledger).

Definition codingLedgerItemDisposition (ledger : EngineeringLedger) (id : string) : option string :=
  (fun r => lt_Disposition r.2) <$> list_find (fun t => lt_ID t = id) (el_Tasks ledger).

Definition resetCodingLedgerAffectedAgreements (ledger : EngineeringLedger) (id : string) : EngineeringLedger :=
  default ledger (setCodingLedgerItem ledger id propose_if_active).

Definition set_or (e : string) (ledger : EngineeringLedger) (id : string) (update : LedgerItem -> LedgerItem)
    : result EngineeringLedger :=
  match setCodingLedgerItem ledger id update with Some l => Ok l | None => Err e end.

(** The first loop: an item is not removed and restored in one revision. *)
Definition check_conflict (st : gset string * gset string) (op : LedgerMutationOperation)
    : result (gset string * gset string) :=
  let '(removed, restored) := st in
  if op_Kind op == LedgerMutationRemove then
    reject "coding ledger item %s cannot be removed and restored in one revision"
      when bool_decide (op_TargetID op ∈ restored);
    Ok ({[ op_TargetID op ]} ∪ removed, restored)
  else if op_Kind op == LedgerMutationRestore then
    reject "coding ledger item %s cannot be removed and restored in one revision"
      when bool_decide (op_TargetID op ∈ removed);
    Ok (removed, {[ op_TargetID op ]} ∪ restored)
  else Ok st.

Definition has_disposition (ledger : EngineeringLedger) (id d : string) : bool :=
  codingLedgerItemDisposition ledger id == Some d.

(** The [switch] of the second loop. *)
Definition apply_store_operation (accepted : gmap string LedgerTask) (ledger : EngineeringLedger)
    (op : LedgerMutationOperation) : result EngineeringLedger :=
  let kind := op_Kind op in
  let target := op_TargetID op in
  if kind == LedgerMutationAdd then
    let id := planningMutationItemID (op_Item op) in
    reject "coding ledger item %s already exists" when bool_decide (id ∈ task_ids ledger);
    Ok (resetCodingLedgerAffectedAgreements (appendPlanningItem ledger (op_Item op)) id)
  else if kind == LedgerMutationAmend then
    reject "coding ledger amend target %s is not active"
      when negb (has_disposition ledger target LedgerDispositionActive);
    let ledger := resetCodingLedgerAffectedAgreements ledger target in
    match replacePlanningItem ledger target (op_Item op) with
    | None => Err "coding ledger amend target %s does not exist with the same kind"
    | Some ledger =>
        let ledger := resetCodingLedgerAffectedAgreements ledger target in
        Ok (default ledger (setCodingLedgerItem ledger target (fun i =>
              item_with_disposition i LedgerDispositionActive LedgerReviewProposed)))
    end
  else if kind == LedgerMutationRemove then
    reject "coding ledger remove target %s is not active"
      when negb (has_disposition ledger target LedgerDispositionActive);
    let ledger := resetCodingLedgerAffectedAgreements ledger target in
    set_or "coding ledger remove target %s does not exist" ledger target (fun i =>
      if li_Disposition i != LedgerDispositionActive then i
      else item_with_disposition i LedgerDispositionTombstoned "")
  else if kind == LedgerMutationRestore then
    match accepted !! target with
    | Some task =>
        match replacePlanningItem ledger target (Some (mkMutationItem (Some task))) with
        | None => Err "accepted task %s is absent from the current ledger"
        | Some ledger => Ok ledger
        end
    | None =>
        reject "coding ledger restore target %s is not tombstoned"
          when negb (has_disposition ledger target LedgerDispositionTombstoned);
        let? ledger := set_or "coding ledger restore target %s does not exist" ledger target (fun i =>
          if li_Disposition i != LedgerDispositionTombstoned then i
          else item_with_disposition i LedgerDispositionActive LedgerReviewProposed) in
        Ok (resetCodingLedgerAffectedAgreements ledger target)
    end
  else if kind == LedgerMutationReview then
    reject "coding ledger review target %s is not active"
      when negb (has_disposition ledger target LedgerDispositionActive);
    set_or "coding ledger review target %s does not exist" ledger target (fun i =>
      if li_Disposition i == LedgerDispositionActive then item_with_review i (op_ReviewState op) else i)
  else if kind == LedgerMutationReorder then
    reject "coding ledger reorder target %s is not active"
      when negb (has_disposition ledger target LedgerDispositionActive);
    match op_Rank op with
    | None => Err "nil pointer dereference"
    | Some rank =>
        set_or "coding ledger reorder target %s does not exist" ledger target (fun i =>
          let i' := if negb (li_Rank i =? rank) then item_with_review i LedgerReviewProposed else i in
          item_with_rank i' rank)
    end
  else Err "unsupported coding ledger mutation operation %q".

Definition applyCodingLedgerOperationsWithRestores (ledger : EngineeringLedger)
    (operations : list LedgerMutationOperation) (accepted : gmap string LedgerTask) : result EngineeringLedger :=
  check loop check_conflict (∅, ∅) operations;
  loop (apply_store_operation accepted) ledger operations.

(** ** The transaction body between reading and writing *)

(** What the transaction read: the ledger row and the current projection. *)
Record stored_ledger := mkStored {
  sl_State : string;
  sl_Revision : Z;
  sl_Ledger : EngineeringLedger;
  sl_Routes : list CodingLedgerRoute
}.

(** [applyCodingLedgerMutationTx] for an operation that is not a replay: the
    ledger and routes to persist as the next revision.  [accepted] is the result
    of [acceptedCodingLedgerRestoresTx]. *)
Definition prepare_mutation (stored : stored_ledger) (accepted : gmap string LedgerTask)
    (mutation : LedgerMutation) (supplied : list CodingLedgerRoute)
    : result (EngineeringLedger * list CodingLedgerRoute) :=
  let current := sl_Revision stored in
  reject "%w: coding ledger state is %s"
    when ((sl_State stored != "proposed") && (sl_State stored != "revising"))%bool;
  reject "%w: mutation base revision %d is stale; current revision is %d"
    when negb (lm_BaseRevision mutation =? current);
  let next := ledger_with_revision (clone_ledger (sl_Ledger stored)) (wrap64 (current + 1)) in
  let? next := applyCodingLedgerOperationsWithRestores next (lm_Operations mutation) accepted in
  check validate_ledger next;
  check validateCodingLedgerExactDuplicates next;
  check validateMutationOwnerTurnDisposition next (lm_Operations mutation) (lm_OwnerTurnDisposition mutation);
  check validateCodingLedgerRouteMutation (sl_Routes stored) supplied (el_Revision next)
    (lm_Operations mutation) (lm_OwnerTurnDisposition mutation);
  let routes := if supplied == [] then sl_Routes stored else supplied in
  check validateCodingLedgerRoutes routes (el_Revision next);
  Ok (next, routes).

(** The checks of [applyCodingLedgerMutation] before the transaction begins. *)
Definition admit_mutation (ledgerID : Z) (ownerTurnText ownerAction : string) (mutation : LedgerMutation)
    : result unit :=
  reject "coding ledger mutation requires repository, ledger, and exact owner turn"
    when ((ledgerID <=? 0) || blank ownerTurnText)%bool;
  reject "coding ledger mutation requires an exact owner action"
    when ((ownerAction != "planning") && (ownerAction != "planning_control"))%bool;
  check validate_mutation mutation;
  check validateCodingLedgerOperationID (lm_OperationID mutation);
  validateCodingLedgerExternalOwnerTurnID (lm_OwnerTurnID mutation).

(** [applyCodingLedgerMutation] on an operation that is not a replay. *)
Definition applyCodingLedgerMutation (ledgerID : Z) (ownerTurnText ownerAction : string)
    (stored : stored_ledger) (accepted : gmap string LedgerTask) (mutation : LedgerMutation)
    (supplied : list CodingLedgerRoute) : result (EngineeringLedger * list CodingLedgerRoute) :=
  check admit_mutation ledgerID ownerTurnText ownerAction mutation;
  prepare_mutation stored accepted mutation supplied.
