(* ===== verification/LedgerStoreSpec.v ===== *)
(** * The ledger repository: what it persists

    An operation of the repository edits one task in place, as the preview's
    does ([store_edit] against [preview_edit]); the two are related by a
    simulation, from which the refinement theorem follows. *)
From S2P Require Import Prelude Ledger Planning PlanningFacts LedgerStore.
From stdpp Require Import sorting base tactics strings list gmap numbers.
From stdpp Require Import list options.
Open Scope Z_scope.
Open Scope go_scope.

(** ** Normal form of a repository operation *)

Lemma set_item_find id f ts :
  set_item id f ts = (fun '(i, t) => <[i := with_item t (f (lt_Item t))]> ts) <$> find_task id ts.
Proof.
  induction ts as [|t ts IH]; simpl; [done|].
  case_bool_decide as Hid; [by rewrite decide_True by done|].
  rewrite decide_False, IH by done. by destruct (find_task id ts) as [[i u]|].
Qed.

Definition set_task (l : EngineeringLedger) (i : nat) (t : LedgerTask) : EngineeringLedger :=
  ledger_with_tasks l (<[i := t]> (el_Tasks l)).

Lemma set_ledger_find l id f :
  setCodingLedgerItem l id f =
  (fun '(i, t) => set_task l i (with_item t (f (lt_Item t)))) <$> find_task id (el_Tasks l).
Proof. unfold setCodingLedgerItem. rewrite set_item_find. by destruct (find_task _ _) as [[??]|]. Qed.

Lemma set_task_twice l i t u : set_task (set_task l i t) i u = set_task l i u.
Proof. unfold set_task. simpl. by rewrite list_insert_insert_eq. Qed.

Lemma find_set_task l id i t t' :
  find_task id (el_Tasks l) = Some (i, t) -> lt_ID t' = id ->
  find_task id (el_Tasks (set_task l i t')) = Some (i, t').
Proof. intros Hf Hid. by apply (find_task_insert id (el_Tasks l) i t t'). Qed.

Lemma set_found l id i t t' f :
  find_task id (el_Tasks l) = Some (i, t) -> lt_ID t' = id ->
  setCodingLedgerItem (set_task l i t') id f = Some (set_task l i (with_item t' (f (lt_Item t')))).
Proof. intros Hf Hid. rewrite set_ledger_find, (find_set_task l id i t t') by done. simpl. by rewrite set_task_twice. Qed.

(** What an operation makes of its target. *)
Definition store_edit (accepted : gmap string LedgerTask) (op : LedgerMutationOperation) (t : LedgerTask)
    : option LedgerTask :=
  let kind := op_Kind op in
  if kind == LedgerMutationAmend then
    match op_Item op with
    | Some (mkMutationItem (Some p)) =>
        if active t then
          Some (with_item p (item_with_disposition (lt_Item p) LedgerDispositionActive LedgerReviewProposed))
        else None
    | _ => None
    end
  else if kind == LedgerMutationRemove then
    if active t then Some (with_item t (item_with_disposition (lt_Item t) LedgerDispositionTombstoned ""))
    else None
  else if kind == LedgerMutationRestore then
    match accepted !! op_TargetID op with
    | Some contract => Some contract
    | None =>
        if lt_Disposition t == LedgerDispositionTombstoned
        then Some (with_item t (item_with_disposition (lt_Item t) LedgerDispositionActive LedgerReviewProposed))
        else None
    end
  else if kind == LedgerMutationReview then
    if active t then Some (with_item t (item_with_review (lt_Item t) (op_ReviewState op))) else None
  else if kind == LedgerMutationReorder then
    if active t then
      (fun r => with_item t (item_with_rank
         (if negb (lt_Rank t =? r) then item_with_review (lt_Item t) LedgerReviewProposed else lt_Item t) r))
        <$> op_Rank op
    else None
  else None.

Lemma active_decide t : active t = bool_decide (li_Disposition (lt_Item t) = LedgerDispositionActive).
Proof. done. Qed.

Lemma has_disposition_found l id d i t :
  find_task id (el_Tasks l) = Some (i, t) ->
  has_disposition l id d = bool_decide (li_Disposition (lt_Item t) = d).
Proof.
  intros Hf. unfold has_disposition, codingLedgerItemDisposition. rewrite Hf. simpl.
  apply bool_decide_ext. unfold lt_Disposition. split; [by intros [= ?]|by intros <-].
Qed.
Lemma has_disposition_missing l id d :
  find_task id (el_Tasks l) = None -> has_disposition l id d = false.
Proof. intros Hf. unfold has_disposition, codingLedgerItemDisposition. by rewrite Hf. Qed.

Section one_store_operation.
Context (accepted : gmap string LedgerTask) (l : EngineeringLedger) (op : LedgerMutationOperation).
Context (i : nat) (t : LedgerTask).
Hypothesis (Hf : find_task (op_TargetID op) (el_Tasks l) = Some (i, t)).

Lemma reset_found :
resetCodingLedgerAffectedAgreements l (op_TargetID op) =
set_task l i (with_item t (propose_if_active (lt_Item t))).
Proof using Hf. unfold resetCodingLedgerAffectedAgreements. by rewrite set_ledger_find, Hf. Qed.

Lemma target_id : lt_ID t = op_TargetID op.
Proof using Hf. by apply list_find_Some in Hf as (_ & ? & _). Qed.

Lemma store_amend l' :
validate_operation op = Ok tt -> op_Kind op = LedgerMutationAmend ->
apply_store_operation accepted l op = Ok l' ->
exists t', store_edit accepted op t = Some t' /\ l' = set_task l i t'.
Proof using Hf.
intros Hv Hk. unfold apply_store_operation, store_edit. rewrite Hk. consts.
rewrite (has_disposition_found _ _ _ _ _ Hf), active_decide, reset_found.
destruct (bool_decide _); [|done]. simpl.
destruct (op_Item op) as [[[p|]]|] eqn:Hp; simpl; [|done|done].
pose proof (validated_amend_id op p Hv Hk Hp) as Hpid.
rewrite replace_task_find.
change (<[i := with_item t (propose_if_active (lt_Item t))]> (el_Tasks l))
  with (el_Tasks (set_task l i (with_item t (propose_if_active (lt_Item t))))).
rewrite (find_set_task l _ i t) by (done || by rewrite with_item_id, propose_if_active_id; apply target_id).
simpl. rewrite list_insert_insert_eq. change (ledger_with_tasks _ (<[i := p]> _)) with (set_task l i p).
unfold resetCodingLedgerAffectedAgreements. rewrite (set_found l _ i t) by done. cbn [default from_option id].
rewrite (set_found l _ i t) by (done || by rewrite with_item_id, propose_if_active_id).
simpl. intros [= <-]. eexists; split; [done|]. f_equal.
unfold propose_if_active. by case_bool_decide.
Qed.

Lemma store_remove l' :
op_Kind op = LedgerMutationRemove -> apply_store_operation accepted l op = Ok l' ->
exists t', store_edit accepted op t = Some t' /\ l' = set_task l i t'.
Proof using Hf.
intros Hk. unfold apply_store_operation, store_edit. rewrite Hk. consts.
rewrite (has_disposition_found _ _ _ _ _ Hf), active_decide, reset_found.
case_bool_decide as Ha; [|done]. simpl. unfold set_or.
rewrite (set_found l _ i t) by (done || by rewrite with_item_id, propose_if_active_id; apply target_id).
intros [= <-]. eexists; split; [done|]. f_equal.
unfold propose_if_active. rewrite (bool_decide_true (_ = LedgerDispositionActive)) by done.
simpl. by rewrite (bool_decide_true (_ = LedgerDispositionActive)) by done.
Qed.

Lemma store_restore l' :
op_Kind op = LedgerMutationRestore -> apply_store_operation accepted l op = Ok l' ->
exists t', store_edit accepted op t = Some t' /\ l' = set_task l i t'.
Proof using Hf.
intros Hk. unfold apply_store_operation, store_edit. rewrite Hk. consts.
destruct (accepted !! op_TargetID op) as [c|] eqn:Hc; simpl.
{ rewrite replace_task_find, Hf. simpl. intros [= <-]. by eexists. }
rewrite (has_disposition_found _ _ _ _ _ Hf). unfold lt_Disposition.
case_bool_decide as Ha; [|done]. simpl. unfold set_or. rewrite set_ledger_find, Hf. simpl.
unfold resetCodingLedgerAffectedAgreements.
rewrite (bool_decide_true (_ = LedgerDispositionTombstoned)) by done. simpl.
rewrite (set_found l _ i t) by (done || by rewrite with_item_id; apply target_id).
intros [= <-]. by eexists.
Qed.

Lemma store_review_reorder l' :
op_Kind op = LedgerMutationReview \/ op_Kind op = LedgerMutationReorder ->
apply_store_operation accepted l op = Ok l' ->
exists t', store_edit accepted op t = Some t' /\ l' = set_task l i t'.
Proof using Hf.
unfold apply_store_operation, store_edit, set_or.
intros [Hk|Hk]; rewrite Hk; consts;
  rewrite (has_disposition_found _ _ _ _ _ Hf), active_decide;
  (destruct (bool_decide _) eqn:Ha; [|done]); simpl.
- rewrite set_ledger_find, Hf. simpl. rewrite Ha. intros [= <-]. by eexists.
- destruct (op_Rank op); [|done]. rewrite set_ledger_find, Hf. simpl. intros [= <-]. by eexists.
Qed.
End one_store_operation.

(** A step of the repository: an append or an edit. *)
Inductive store_step (accepted : gmap string LedgerTask) (l : EngineeringLedger) (op : LedgerMutationOperation)
    : EngineeringLedger -> Prop :=
| store_step_add p :
    op_Kind op = LedgerMutationAdd -> op_Item op = Some (mkMutationItem (Some p)) ->
    lt_Disposition p = LedgerDispositionActive -> lt_ReviewState p = LedgerReviewProposed ->
    task_ok p -> lt_ID p ∉ task_ids l ->
    store_step accepted l op (ledger_with_tasks l (el_Tasks l ++ [p]))
| store_step_edit i t t' :
    op_Kind op <> LedgerMutationAdd -> find_task (op_TargetID op) (el_Tasks l) = Some (i, t) ->
    store_edit accepted op t = Some t' -> store_step accepted l op (set_task l i t').

Lemma find_appended (ts : list LedgerTask) p :
  lt_ID p ∉ lt_ID <$> ts -> find_task (lt_ID p) (ts ++ [p]) = Some (length ts, p).
Proof.
  intros Hno. apply list_find_Some. split_and!; [by rewrite list_lookup_middle|done|].
  intros j u Hu Hj Heq. rewrite lookup_app_l in Hu by done.
  apply Hno, list_elem_of_fmap. exists u. split; [done|by eapply list_elem_of_lookup_2].
Qed.

Lemma propose_proposed t :
  lt_Disposition t = LedgerDispositionActive -> lt_ReviewState t = LedgerReviewProposed ->
  with_item t (propose_if_active (lt_Item t)) = t.
Proof.
  destruct t as [[? ? ? ? d r] ? ? ? ? ? ? ? ? ?]. unfold lt_Disposition, lt_ReviewState. simpl.
  by intros -> ->.
Qed.

Lemma store_add accepted l op l' :
  validate_operation op = Ok tt -> op_Kind op = LedgerMutationAdd ->
  apply_store_operation accepted l op = Ok l' -> store_step accepted l op l'.
Proof.
  intros Hv Hk Happ. destruct (validated_add_item op Hv Hk) as (p & Hp & Hok & Hd & Hr).
  unfold apply_store_operation in Happ. rewrite Hk, Hp in Happ. consts. simpl in Happ.
  case_bool_decide as Hin; [done|]. injection Happ as <-.
  unfold resetCodingLedgerAffectedAgreements. rewrite set_ledger_find. simpl.
  rewrite find_appended by done. simpl. rewrite propose_proposed by done.
  unfold set_task. simpl. rewrite list_insert_id by (by rewrite list_lookup_middle).
  exact (store_step_add accepted l op p Hk Hp Hd Hr Hok Hin).
Qed.

Lemma store_missing accepted l op l' :
  validate_operation op = Ok tt -> op_Kind op <> LedgerMutationAdd ->
  find_task (op_TargetID op) (el_Tasks l) = None -> apply_store_operation accepted l op <> Ok l'.
Proof.
  intros Hv Hadd Hf. unfold apply_store_operation.
  pose proof (known_kinds op Hv) as Hk. rewrite !elem_of_cons in Hk.
  destruct Hk as [Hk|[Hk|[Hk|[Hk|[Hk|[Hk|?%elem_of_nil]]]]]]; try done; rewrite Hk; consts;
    rewrite ?(has_disposition_missing _ _ _ Hf); simpl; try done.
  destruct (accepted !! _); simpl; [|done]. by rewrite replace_task_find, Hf.
Qed.

Lemma store_op_step accepted l op l' :
  validate_operation op = Ok tt -> apply_store_operation accepted l op = Ok l' ->
  store_step accepted l op l'.
Proof.
  intros Hv Happ. destruct (decide (op_Kind op = LedgerMutationAdd)) as [Hk|Hk]; [by apply store_add|].
  destruct (find_task (op_TargetID op) (el_Tasks l)) as [[i t]|] eqn:Hf;
    [|by apply (store_missing accepted l op l') in Happ].
  assert (exists t', store_edit accepted op t = Some t' /\ l' = set_task l i t') as (t' & He & ->);
    [|by eapply store_step_edit].
  pose proof (known_kinds op Hv) as Hks. rewrite !elem_of_cons in Hks.
  destruct Hks as [?|[?|[?|[?|[?|[?|?%elem_of_nil]]]]]]; try done;
    eauto using store_amend, store_remove, store_restore, store_review_reorder.
Qed.

(** ** The simulation between preview and repository *)

Definition reordered (ops : list LedgerMutationOperation) : list string :=
  op_TargetID <$> filter (fun op => op_Kind op = LedgerMutationReorder) ops.

(** The two views of a task: equal, or a reordered active task that the
    repository put back to [proposed]. *)
Definition same_view (moved : list string) (p r : LedgerTask) : Prop :=
  p = r \/
  (lt_ID p ∈ moved /\ active p = true /\ valid_review_state (lt_ReviewState p) = true /\
   r = with_item p (item_with_review (lt_Item p) LedgerReviewProposed)).

Definition simulated (moved : list string) (p r : EngineeringLedger) : Prop :=
  el_ID p = el_ID r /\ Forall2 (same_view moved) (el_Tasks p) (el_Tasks r).

Lemma same_view_id moved p r : same_view moved p r -> lt_ID p = lt_ID r.
Proof. by intros [->|(_ & _ & _ & ->)]. Qed.
Lemma same_view_active moved p r : same_view moved p r -> active p = active r.
Proof. by intros [->|(_ & _ & _ & ->)]. Qed.

Lemma same_view_find moved ps rs id j r :
  Forall2 (same_view moved) ps rs -> find_task id rs = Some (j, r) ->
  exists p, find_task id ps = Some (j, p) /\ same_view moved p r.
Proof.
  intros Hs (Hj & Hid & Hb)%list_find_Some.
  destruct (Forall2_lookup_r _ _ _ _ _ Hs Hj) as (p & Hp & Hv). exists p. split; [|done].
  apply list_find_Some. split_and!; [done|by rewrite (same_view_id _ _ _ Hv)|].
  intros k q Hq Hk. destruct (Forall2_lookup_l _ _ _ _ _ Hs Hq) as (s & Hs' & Hv').
  rewrite (same_view_id _ _ _ Hv'). eauto.
Qed.

Lemma same_view_ids moved ps rs : Forall2 (same_view moved) ps rs -> lt_ID <$> ps = lt_ID <$> rs.
Proof. induction 1 as [|p r ps rs Hv _ IH]; [done|]. by rewrite !fmap_cons, IH, (same_view_id _ _ _ Hv). Qed.

(** Amendments that keep their task active. *)
Definition amend_active (op : LedgerMutationOperation) : bool :=
  match op_Item op with
  | Some (mkMutationItem (Some p)) => active p || negb (op_Kind op == LedgerMutationAmend)
  | _ => true
  end.

Lemma edit_simulated moved op p r r' :
  validate_operation op = Ok tt -> amend_active op = true ->
  (op_Kind op = LedgerMutationReorder -> lt_ID r ∈ moved) ->
  (active r = true -> valid_review_state (lt_ReviewState p) = true) ->
  same_view moved p r -> store_edit ∅ op r = Some r' ->
  exists p', preview_edit op p = Some p' /\ same_view moved p' r'.
Proof.
  intros Hv Ham Hmv Hval Hs He. unfold store_edit in He. unfold preview_edit.
  pose proof (known_kinds op Hv) as Hks. rewrite !elem_of_cons in Hks.
  rewrite (same_view_active _ _ _ Hs).
  destruct Hks as [Hk|[Hk|[Hk|[Hk|[Hk|[Hk|?%elem_of_nil]]]]]]; try done; rewrite Hk in *; consts; try done.
  - unfold amend_active in Ham. rewrite Hk in Ham. destruct (op_Item op) as [[[q|]]|]; [|done..]. consts.
    destruct (active r); [|done]. injection He as <-. eexists; split; [done|]. left.
    unfold propose_if_active. rewrite orb_false_r in Ham. unfold active, lt_Disposition in Ham.
    rewrite Ham. destruct q as [[] ? ? ? ? ? ? ? ? ?]. simpl in *. by reflect; subst.
  - destruct (active r) eqn:Ha; [|done]. injection He as <-. eexists; split; [done|]. left.
    by destruct Hs as [->|(_ & _ & _ & ->)].
  - rewrite lookup_empty in He. unfold active in *. case_bool_decide as Ht; [|done].
    destruct Hs as [->|(_ & Hact & _ & ->)].
    + rewrite Ht. consts. injection He as <-. eexists; split; [done|]. by left.
    + exfalso. unfold active, lt_Disposition in *. simpl in Ht. rewrite Ht in Hact. discriminate.
  - destruct (active r) eqn:Ha; [|done]. injection He as <-. eexists; split; [done|]. left.
    by destruct Hs as [->|(_ & _ & _ & ->)].
  - destruct (active r) eqn:Ha; [|done]. destruct (op_Rank op) as [rk|]; [|done]. simpl in *.
    injection He as <-. eexists; split; [done|].
    rewrite <- (same_view_id _ _ _ Hs) in Hmv.
    pose proof (same_view_active _ _ _ Hs) as Hact. rewrite Ha in Hact.
    destruct Hs as [->|(Hin & _ & Hval' & ->)].
    + destruct (negb _); [|by left]. right. split_and!; [by apply Hmv|done|by apply Hval|done].
    + right. split_and!; [done..|]. by destruct (negb _).
Qed.

(** Between validated operations every active task of the preview has a valid
    review state. *)
Definition reviewed (l : EngineeringLedger) : Prop :=
  Forall (fun t => active t = true -> valid_review_state (lt_ReviewState t) = true) (el_Tasks l).

Lemma edit_reviewed op t t' :
  validate_operation op = Ok tt -> preview_edit op t = Some t' ->
  (active t = true -> valid_review_state (lt_ReviewState t) = true) ->
  active t' = true -> valid_review_state (lt_ReviewState t') = true.
Proof.
  intros Hv He Ht Hact. unfold preview_edit in He.
  pose proof (known_kinds op Hv) as Hks. rewrite !elem_of_cons in Hks.
  destruct Hks as [Hk|[Hk|[Hk|[Hk|[Hk|[Hk|?%elem_of_nil]]]]]]; try done; rewrite Hk in He; consts; try done.
  - destruct (op_Item op) as [[[q|]]|]; [|done..]. destruct (active t); [|done]. injection He as <-.
    unfold active, lt_Disposition, lt_ReviewState, propose_if_active in *. simpl in *.
    destruct (bool_decide (li_Disposition (lt_Item q) = LedgerDispositionActive)) eqn:Hd; [done|]. congruence.
  - destruct (active t); [|done]. by injection He as <-.
  - destruct (active t); [injection He as <-; auto|]. case_bool_decide; [|done]. by injection He as <-.
  - unfold validate_operation in Hv. rewrite Hk in Hv. consts. split_ok Hv. reflect.
    destruct (active t); [|done]. by injection He as <-.
  - destruct (op_Rank op); [|done]. injection He as <-. by apply Ht.
Qed.

Lemma step_simulated moved p r op r' :
  validate_operation op = Ok tt -> amend_active op = true ->
  (op_Kind op = LedgerMutationReorder -> op_TargetID op ∈ moved) ->
  simulated moved p r -> reviewed p -> store_step ∅ r op r' ->
  exists p', applyPlanningOperation p op = Ok p' /\ simulated moved p' r' /\ reviewed p'.
Proof.
  intros Hv Ham Hmv [Hid Hs] Hrev [q Hk Hq Hd Hr Hok Hnew|i t t' Hk Hf He].
  - exists (ledger_with_tasks p (el_Tasks p ++ [q])). split_and!.
    + unfold applyPlanningOperation. rewrite Hk, Hq. consts. simpl. rewrite reset_eq. simpl.
      rewrite find_appended by (by rewrite (same_view_ids _ _ _ Hs)).
      rewrite propose_proposed, list_insert_id by (done || by rewrite list_lookup_middle). done.
    + split; [done|]. simpl. apply Forall2_app; [done|]. repeat constructor.
    + apply Forall_app. split; [done|]. repeat constructor. by rewrite Hr.
  - destruct (same_view_find _ _ _ _ _ _ Hs Hf) as (u & Hu & Hsv).
    pose proof Hf as (Hit & Hidt & _)%list_find_Some. pose proof Hu as (Hiu & _ & _)%list_find_Some.
    assert (active u = true -> valid_review_state (lt_ReviewState u) = true) as Hrevu
      by (by apply (Forall_lookup_1 _ _ _ _ Hrev Hiu)).
    destruct (edit_simulated moved op u t t') as (u' & Hu' & Hsv'); try done.
    { intros. rewrite Hidt. auto. }
    { by rewrite <- (same_view_active _ _ _ Hsv). }
    exists (set_task p i u'). split_and!.
    + apply apply_edit; [done..|]. by exists i, u, u'.
    + split; [done|]. by apply Forall2_insert.
    + apply Forall_insert; [done|]. by apply (edit_reviewed op u u').
Qed.

Lemma loop_simulated moved ops : forall p r r',
  Forall (fun op => validate_operation op = Ok tt) ops -> Forall (fun op => amend_active op = true) ops ->
  reordered ops ⊆ moved ->
  simulated moved p r -> reviewed p -> loop (apply_store_operation ∅) r ops = Ok r' ->
  exists p', loop applyPlanningOperation p ops = Ok p' /\ simulated moved p' r' /\ reviewed p'.
Proof.
  induction ops as [|op ops IH]; intros p r r' Hv Ham Hmv Hs Hrev Hl; simpl in Hl.
  - injection Hl as <-. by exists p.
  - apply Forall_cons in Hv as [Hop Hv]. apply Forall_cons in Ham as [Hao Ham].
    destruct (apply_store_operation ∅ r op) as [r1|] eqn:Happ; [|done].
    unfold reordered in Hmv. rewrite filter_cons in Hmv.
    destruct (step_simulated moved p r op r1) as (p1 & Hp1 & Hs1 & Hrev1); try done.
    { intros Hk. rewrite decide_True in Hmv by done. apply Hmv. by left. }
    { by apply store_op_step. }
    simpl. rewrite Hp1. apply (IH p1 r1 r'); try done.
    destruct (decide _); [|done]. set_solver.
Qed.

(** ** A persisted revision *)

Lemma distinct_payloads ts : forall seen s',
  loop add_payload seen ts = Ok s' ->
  NoDup (duplicate_payload <$> ts) /\ Forall (fun t => duplicate_payload t ∉ seen) ts.
Proof.
  induction ts as [|t ts IH]; intros seen s' Hl; simpl in Hl; [by repeat constructor|].
  unfold add_payload at 1 in Hl. case_bool_decide as Hin; [done|].
  apply IH in Hl as [Hnd Hs]. rewrite fmap_cons, NoDup_cons, Forall_cons, !Forall_forall in *.
  split_and!; [|done|done|].
  - intros (u & Hu & Hu')%list_elem_of_fmap. apply (Hs u Hu'). rewrite Hu. by left.
  - intros u Hu Hc. apply (Hs u Hu). by right.
Qed.

(** Everything a successful call went through. *)
Record persisted (stored : stored_ledger) (accepted : gmap string LedgerTask) (m : LedgerMutation)
    (supplied : list CodingLedgerRoute) (next : EngineeringLedger) (routes : list CodingLedgerRoute) : Prop := {
  per_valid : validate_mutation m = Ok tt;
  per_state : sl_State stored = "proposed" \/ sl_State stored = "revising";
  per_base : lm_BaseRevision m = sl_Revision stored;
  per_loop : loop (apply_store_operation accepted)
               (ledger_with_revision (clone_ledger (sl_Ledger stored)) (wrap64 (sl_Revision stored + 1)))
               (lm_Operations m) = Ok next;
  per_ok : ledger_ok next;
  per_distinct : NoDup (duplicate_payload <$> el_Tasks next);
  per_turn : validateMutationOwnerTurnDisposition next (lm_Operations m) (lm_OwnerTurnDisposition m) = Ok tt;
  per_change : validateCodingLedgerRouteMutation (sl_Routes stored) supplied (el_Revision next)
                 (lm_Operations m) (lm_OwnerTurnDisposition m) = Ok tt;
  per_routes : validateCodingLedgerRoutes routes (el_Revision next) = Ok tt;
  per_which : routes = if supplied == [] then sl_Routes stored else supplied
}.

Lemma apply_persisted ledgerID text action stored accepted m supplied next routes :
  applyCodingLedgerMutation ledgerID text action stored accepted m supplied = Ok (next, routes) ->
  persisted stored accepted m supplied next routes.
Proof.
  unfold applyCodingLedgerMutation, prepare_mutation, admit_mutation,
    applyCodingLedgerOperationsWithRestores, validateCodingLedgerExactDuplicates.
  intros H. split_ok H. simplify_eq. repeat match goal with u : unit |- _ => destruct u end.
  split_ok E. split_ok E0. split_ok E2.
  repeat match goal with u : unit |- _ => destruct u end. constructor; try done.
  - apply andb_false_iff in Heqb as [?|?]; reflect; auto.
  - by reflect.
  - by apply validate_ledger_ok.
  - by eapply distinct_payloads.
Qed.

Lemma loop_rest accepted ops : forall l l',
  Forall (fun op => validate_operation op = Ok tt) ops ->
  loop (apply_store_operation accepted) l ops = Ok l' ->
  el_ID l' = el_ID l /\ el_Revision l' = el_Revision l.
Proof.
  intros l l' Hv Hl. rewrite Forall_forall in Hv.
  revert Hl. apply (loop_inv (fun x => el_ID x = el_ID l /\ el_Revision x = el_Revision l)); [|done]. intros s op s' Hin Hs Happ.
  by destruct (store_op_step accepted s op s' (Hv op Hin) Happ).
Qed.

Lemma clone_reviewed l : ledger_ok l -> reviewed (clone_ledger l).
Proof.
  intros [_ _ _ Hts]. unfold reviewed. simpl. apply Forall_fmap.
  eapply Forall_impl; [exact Hts|]. intros t [[_ _ _ _ _ Hst] _ _ _ _]. simpl.
  unfold active, lt_Disposition, lt_ReviewState. simpl.
  destruct Hst as [[_ Hr]|[-> _]]; [|done]. intros _.
  unfold valid_review_state in Hr. destruct (bool_decide (_ = LedgerReviewProposed)) eqn:E1; [by reflect; rewrite E1|].
  destruct (bool_decide (_ = LedgerReviewAgreed)) eqn:E2; [by reflect; rewrite E2|].
  simpl in Hr. reflect. by rewrite Hr.
Qed.

Lemma same_view_ok moved p r : same_view moved p r -> task_ok r -> task_ok p.
Proof.
  intros [->|(_ & Hact & Hval & ->)]; [done|].
  intros [[H1 H2 H3 H4 H5 _] Hg Hr Hw Hd]. constructor; try done. constructor; try done.
  left. split; [|done]. unfold active in Hact. by reflect.
Qed.

(** C1: the repository persists what the owner saw. When the repository
    accepts a mutation of a valid stored ledger whose revision is the stored one,
    without restoring an accepted contract and with an active payload in every
    amendment ([amend_preview_differs] shows what happens else), the preview computed from the same stored
    ledger succeeds, and its tasks are position by position the persisted
    ones, except that a task the mutation reorders to another rank is back to
    [proposed] in the repository while the preview keeps its review state.
    Without reorder operations preview and repository are equal. *)
Theorem preview_refines_store ledgerID text action stored m supplied next routes :
  applyCodingLedgerMutation ledgerID text action stored ∅ m supplied = Ok (next, routes) ->
  ledger_ok (sl_Ledger stored) ->
  el_Revision (sl_Ledger stored) = sl_Revision stored ->
  Forall (fun op => amend_active op = true) (lm_Operations m) ->
  exists preview, ApplyPlanningMutation (sl_Ledger stored) m = Ok preview /\
    el_ID preview = el_ID next /\ el_Revision preview = el_Revision next /\
    Forall2 (same_view (reordered (lm_Operations m))) (el_Tasks preview) (el_Tasks next) /\
    (reordered (lm_Operations m) = [] -> preview = next).
Proof.
  intros H%apply_persisted Hok Hrev Ham. destruct H as [Hv _ Hbase Hl Hnext _ _ _ _ _].
  pose proof (validated_operations m Hv) as Hops.
  destruct (loop_rest _ _ _ _ Hops Hl) as [Hid Hrv]. simpl in Hid, Hrv.
  assert (simulated (reordered (lm_Operations m)) (clone_ledger (sl_Ledger stored))
            (ledger_with_revision (clone_ledger (sl_Ledger stored)) (wrap64 (sl_Revision stored + 1)))) as Hs0.
  { split; [done|]. simpl. induction (clone_task <$> el_Tasks (sl_Ledger stored)); constructor; [by left|done]. }
  destruct (loop_simulated _ _ _ _ next Hops Ham (reflexivity _) Hs0 (clone_reviewed _ Hok) Hl)
    as (p & Hp & [Hpid Hs] & _).
  exists (ledger_with_revision p (wrap64 (el_Revision (sl_Ledger stored) + 1))).
  assert (ledger_ok (ledger_with_revision p (wrap64 (el_Revision (sl_Ledger stored) + 1)))) as Hpok.
  { destruct Hnext as [H1 H2 H3 H4]. constructor; simpl.
    - by rewrite Hpid.
    - by rewrite Hrev, <- Hrv.
    - unfold task_ids in *. simpl. by rewrite (same_view_ids _ _ _ Hs).
    - rewrite Forall_lookup in *. intros i t Ht.
      destruct (Forall2_lookup_l _ _ _ _ _ Hs Ht) as (r & Hr & Hsv). eapply same_view_ok; eauto. }
  split_and!; [|done|by rewrite Hrv, <- Hrev|done|].
  - unfold ApplyPlanningMutation. rewrite (proj2 (validate_ledger_ok _) Hok).
    unfold ValidateLedgerMutation. rewrite Hbase, Hrev, Z.eqb_refl, Hv. simpl.
    rewrite Hp. simpl. by rewrite <- Hrev, (proj2 (validate_ledger_ok _) Hpok).
  - intros Hno. rewrite Hno in Hs. destruct next as [nid nrev nts], p as [pid prev pts]. simpl in *.
    unfold ledger_with_revision. simpl. f_equal; [done|by rewrite Hrv, <- Hrev|].
    clear -Hs. induction Hs as [|? ? ? ? [->|([]%elem_of_nil & _)] _ IH]; congruence.
Qed.

Definition store_task (id goal review : string) (rank : Z) : LedgerTask :=
  mkTask (mkItem id (mkProvenance "owner_turn" "turn-1" 1) "" rank LedgerDispositionActive review)
    goal "" None None None None (Some ["go.mod"]) (Some []) (Some []).
Definition store_route (role : string) : CodingLedgerRoute :=
  mkRoute role 2 "codex" "gpt" "high" "default".
Definition store_sample : stored_ledger :=
  mkStored "revising" 3
    (mkLedger "ledger" 3 [store_task "a" "first" LedgerReviewAgreed 1; store_task "b" "second" LedgerReviewAgreed 2;
                          store_task "c" "third" LedgerReviewProposed 3])
    [store_route "planner"; store_route "executor"; store_route "reviewer"].
Definition store_op (kind target : string) (item : option LedgerMutationItem) (rank : option Z)
    : LedgerMutationOperation := mkOperation kind target item "" rank "".
Definition store_mutation : LedgerMutation :=
  mkMutation "op-9" 3 "turn-9" (RepresentedOwnerTurn ["b"; "c"; "d"])
    [store_op LedgerMutationAmend "c" (Some (mkMutationItem (Some (store_task "c" "third, changed" LedgerReviewAgreed 3)))) None;
     store_op LedgerMutationAdd "" (Some (mkMutationItem (Some (store_task "d" "fourth" LedgerReviewProposed 4)))) None;
     store_op LedgerMutationReorder "b" None (Some 5)].
Definition store_next : EngineeringLedger :=
  mkLedger "ledger" 4
    [store_task "a" "first" LedgerReviewAgreed 1; store_task "b" "second" LedgerReviewProposed 5;
     store_task "c" "third, changed" LedgerReviewProposed 3; store_task "d" "fourth" LedgerReviewProposed 4].

Example store_accepts :
  applyCodingLedgerMutation 1 "please" "planning" store_sample ∅ store_mutation [] =
  Ok (store_next, sl_Routes store_sample).
Proof. vm_compute. reflexivity. Qed.

Lemma preview_refines_store_witness :
  exists preview, ApplyPlanningMutation (sl_Ledger store_sample) store_mutation = Ok preview /\
    el_ID preview = el_ID store_next /\ el_Revision preview = el_Revision store_next /\
    Forall2 (same_view (reordered (lm_Operations store_mutation))) (el_Tasks preview) (el_Tasks store_next) /\
    (reordered (lm_Operations store_mutation) = [] -> preview = store_next).
Proof.
  apply (preview_refines_store 1 "please" "planning" store_sample store_mutation [] store_next
           (sl_Routes store_sample)).
  - exact store_accepts.
  - apply validate_ledger_ok. vm_compute. reflexivity.
  - reflexivity.
  - repeat constructor.
Defined.

(** ** Agreements in the repository *)

Section agreements.
Context (accepted : gmap string LedgerTask).
Hypothesis (Hkeys : forall k c, accepted !! k = Some c -> lt_ID c = k).

Lemma store_edit_agreed op t t' :
validate_operation op = Ok tt -> lt_ID t = op_TargetID op -> store_edit accepted op t = Some t' ->
lt_ReviewState t' = LedgerReviewAgreed -> op_Kind op <> LedgerMutationReview ->
t' = t \/ accepted !! lt_ID t' = Some t'.
Proof using Hkeys.
intros Hv Hid He Hag Hnr. unfold store_edit in He.
pose proof (known_kinds op Hv) as Hks. rewrite !elem_of_cons in Hks.
destruct Hks as [Hk|[Hk|[Hk|[Hk|[Hk|[Hk|?%elem_of_nil]]]]]]; try done; rewrite Hk in He; consts; try done.
- destruct (op_Item op) as [[[q|]]|]; [|done..]. destruct (active t); [|done]. by injection He as <-.
- destruct (active t); [|done]. by injection He as <-.
- destruct (accepted !! op_TargetID op) as [c|] eqn:Hc.
  + injection He as <-. right. by rewrite (Hkeys _ _ Hc).
  + case_bool_decide; [|done]. by injection He as <-.
- destruct (active t); [|done]. destruct (op_Rank op) as [r|]; [|done]. injection He as <-.
  destruct (lt_Rank t =? r) eqn:Hr; [|done]. left. reflect. subst r. by destruct t as [[] ? ? ? ? ? ? ? ? ?].
Qed.

Lemma store_step_agreed l op l' i t' :
validate_operation op = Ok tt -> store_step accepted l op l' -> el_Tasks l' !! i = Some t' ->
lt_ReviewState t' = LedgerReviewAgreed ->
(op_Kind op = LedgerMutationReview -> op_TargetID op <> lt_ID t') ->
el_Tasks l !! i = Some t' \/ accepted !! lt_ID t' = Some t'.
Proof using Hkeys.
intros Hv [p Hk Hp Hd Hr Hok Hnew|j t u Hk Hf He] Hi Hag Hnr; simpl in Hi.
- apply lookup_app_Some in Hi as [?|[_ Hi]]; [by left|].
  apply list_lookup_singleton_Some in Hi as [_ <-]. by rewrite Hr in Hag.
- apply list_find_Some in Hf as (Hj & Hid & _).
  apply list_lookup_insert_Some in Hi as [(<- & <- & _)|[_ ?]]; [|by left].
  assert (op_Kind op <> LedgerMutationReview) as Hnr'.
  { intros Hk'. apply (Hnr Hk'). unfold store_edit in He. rewrite Hk' in He. consts.
    destruct (active t); [|done]. by injection He as <-. }
  destruct (store_edit_agreed op t u Hv Hid He Hag Hnr') as [->|?]; [by left|by right].
Qed.

Lemma store_loop_agreed ops i t' : forall l l',
Forall (fun op => validate_operation op = Ok tt) ops ->
loop (apply_store_operation accepted) l ops = Ok l' -> el_Tasks l' !! i = Some t' ->
lt_ReviewState t' = LedgerReviewAgreed ->
(forall op, op ∈ ops -> op_Kind op = LedgerMutationReview -> op_TargetID op <> lt_ID t') ->
el_Tasks l !! i = Some t' \/ accepted !! lt_ID t' = Some t'.
Proof using Hkeys.
induction ops as [|op ops IH]; intros l l' Hv Hl Hi Hag Hnr; simpl in Hl.
- injection Hl as <-. by left.
- apply Forall_cons in Hv as [Hop Hv].
  destruct (apply_store_operation accepted l op) as [l1|] eqn:Happ; [|done].
  destruct (IH l1 l' Hv Hl Hi Hag) as [Hi1|?]; [|  |by right].
  + intros. apply Hnr; [by right|done].
  + apply (store_step_agreed l op l1); try done; [by apply store_op_step|]. apply Hnr. by left.
Qed.
End agreements.

(** C29: an agreement in the repository covers the exact contract. A task that
    is agreed in the persisted revision and that the mutation does not review
    is, field for field and rank included, the task of the previous revision
    at the same position, or the accepted contract that was restored. *)
Theorem store_agreement ledgerID text action stored accepted m supplied next routes i t' :
  applyCodingLedgerMutation ledgerID text action stored accepted m supplied = Ok (next, routes) ->
  (forall k c, accepted !! k = Some c -> lt_ID c = k) ->
  el_Tasks next !! i = Some t' -> lt_ReviewState t' = LedgerReviewAgreed ->
  (forall op, op ∈ lm_Operations m -> op_Kind op = LedgerMutationReview -> op_TargetID op <> lt_ID t') ->
  (exists t, el_Tasks (sl_Ledger stored) !! i = Some t /\ t' = clone_task t) \/
  accepted !! lt_ID t' = Some t'.
Proof.
  intros H%apply_persisted Hkeys Hi Hag Hnr. destruct H as [Hv _ _ Hl _ _ _ _ _ _].
  destruct (store_loop_agreed accepted Hkeys _ i t' _ _ (validated_operations m Hv) Hl Hi Hag Hnr) as [Ht|?];
    [left|by right].
  simpl in Ht. apply list_lookup_fmap_Some in Ht as (t & -> & Ht). eauto.
Qed.

Lemma store_agreement_witness :
  (exists t, el_Tasks (sl_Ledger store_sample) !! 0%nat = Some t /\
     store_task "a" "first" LedgerReviewAgreed 1 = clone_task t) \/
  (∅ : gmap string LedgerTask) !! "a" = Some (store_task "a" "first" LedgerReviewAgreed 1).
Proof.
  apply (store_agreement 1 "please" "planning" store_sample ∅ store_mutation [] store_next
           (sl_Routes store_sample) 0 (store_task "a" "first" LedgerReviewAgreed 1)).
  - exact store_accepts.
  - intros k c Hk. by rewrite lookup_empty in Hk.
  - reflexivity.
  - reflexivity.
  - intros op Hop Hk. unfold store_mutation in Hop. simpl in Hop.
    repeat (apply elem_of_cons in Hop as [->|Hop]; [vm_compute in Hk; discriminate|]).
    by apply elem_of_nil in Hop.
Defined.

(** ** Routes *)

Definition route_roles : list string := ["planner"; "executor"; "reviewer"].

(** One route per role, all from one configuration revision that exists, every
    option a trimmed single-line value. *)
Record routes_ok (routes : list CodingLedgerRoute) (revision : Z) : Prop := {
  routes_ok_roles : cr_Role <$> routes ≡ₚ route_roles;
  routes_ok_revision : exists c, 0 < c <= revision /\ Forall (fun r => cr_ConfigurationRevision r = c) routes;
  routes_ok_options : Forall (fun r => Forall (fun v => invalid_option v = false) (route_options r)) routes
}.

Definition route_ok (revision : Z) (r : CodingLedgerRoute) : Prop :=
  cr_Role r ∈ route_roles /\ 0 < cr_ConfigurationRevision r <= revision /\
  Forall (fun v => invalid_option v = false) (route_options r).

Lemma existsb_none {A} (f : A -> bool) l : existsb f l = false <-> Forall (fun x => f x = false) l.
Proof.
  induction l as [|x l IH]; simpl; [done|]. rewrite orb_false_iff, Forall_cons, IH. done.
Qed.

Lemma validate_route_ok revision seen c r seen' c' :
  validate_route revision (seen, c) r = Ok (seen', c') <->
  cr_Role r ∉ seen /\ route_ok revision r /\ (c = 0 \/ c = cr_ConfigurationRevision r) /\
  seen' = {[ cr_Role r ]} ∪ seen /\ c' = cr_ConfigurationRevision r.
Proof.
  unfold validate_route, route_ok. fold route_roles. split.
  - intros H. split_ok H. simplify_eq. reflect. apply existsb_none in Heqb3.
    split_and!; try done; lia.
  - intros (Hs & (Hr & [Hc1 Hc2] & Ho) & Hc & -> & ->). rewrite (bool_decide_true (_ ∈ route_roles)) by done.
    rewrite bool_decide_false by done. cbn [negb].
    rewrite (proj2 (Z.leb_gt _ _) Hc1), (proj2 (Z.ltb_ge _ _) Hc2). cbn [orb].
    rewrite (proj2 (existsb_none _ _) Ho).
    destruct Hc as [->| ->]; [done|]. by rewrite (Z.eqb_refl (cr_ConfigurationRevision r)), andb_false_r.
Qed.

Lemma route_loop_ok revision routes : forall seen c,
  (exists s, loop (validate_route revision) (seen, c) routes = Ok s) <->
  NoDup (cr_Role <$> routes) /\ Forall (route_ok revision) routes /\
  Forall (fun r => cr_Role r ∉ seen) routes /\
  exists d, (c = 0 \/ c = d) /\ Forall (fun r => cr_ConfigurationRevision r = d) routes.
Proof.
  induction routes as [|r routes IH]; intros seen c.
  { split; [|simpl; eauto]. intros _. repeat split; try constructor. exists c. auto. }
  rewrite fmap_cons, NoDup_cons, !Forall_cons. cbn [loop].
  destruct (validate_route revision (seen, c) r) as [[seen1 c1]|e] eqn:Hr.
  - apply validate_route_ok in Hr as (Hs & Hok & Hc & -> & ->). rewrite IH.
    assert (0 < cr_ConfigurationRevision r) as Hpos by (destruct Hok as (_ & ? & _); lia).
    split.
    + intros (Hnd & Hoks & Hnew & d & Hd & Hds). rewrite Forall_forall in Hnew. split_and!; try done.
      * intros (u & Hu & Hin)%list_elem_of_fmap. apply (Hnew u Hin). rewrite Hu. set_solver.
      * rewrite Forall_forall. intros u Hu. specialize (Hnew u Hu). set_solver.
      * destruct Hd as [?|<-]; [lia|]. exists (cr_ConfigurationRevision r). rewrite Forall_cons. auto.
    + intros ([Hno Hnd] & [_ Hoks] & [_ Hnew] & d & Hd & Hds). rewrite Forall_cons in Hds. destruct Hds as [<- Hds].
      split_and!; try done; [|eauto]. rewrite Forall_forall in *. intros u Hu.
      rewrite elem_of_union, elem_of_singleton. intros [Heq|?]; [|by apply (Hnew u Hu)].
      apply Hno, list_elem_of_fmap. eauto.
  - split; [by intros [? ?]|]. intros (_ & [Hok _] & [Hs _] & d & Hd & Hds).
    rewrite Forall_cons in Hds. destruct Hds as [<- _]. exfalso.
    by rewrite (proj2 (validate_route_ok revision seen c r _ _)
                  (conj Hs (conj Hok (conj Hd (conj eq_refl eq_refl))))) in Hr.
Qed.

Lemma roles_permutation routes :
  length routes = 3%nat -> NoDup (cr_Role <$> routes) -> Forall (fun r => cr_Role r ∈ route_roles) routes ->
  cr_Role <$> routes ≡ₚ route_roles.
Proof.
  intros Hlen Hnd Hin. apply submseteq_length_Permutation.
  - apply NoDup_submseteq; [done|]. intros x (r & -> & Hr)%list_elem_of_fmap.
    rewrite Forall_forall in Hin. by apply Hin.
  - rewrite length_fmap, Hlen. done.
Qed.

Lemma validate_routes_ok routes revision :
  validateCodingLedgerRoutes routes revision = Ok tt <-> routes_ok routes revision.
Proof.
  unfold validateCodingLedgerRoutes. split.
  - intros H. destruct (Nat.eqb (length routes) 3) eqn:Hlen; [|done]. apply Nat.eqb_eq in Hlen. simpl in H.
    destruct (loop _ _ routes) as [s|] eqn:Hl; [|done].
    destruct (proj1 (route_loop_ok revision routes ∅ 0)) as (Hnd & Hok & _ & d & _ & Hd); [eauto|].
    constructor.
    + apply roles_permutation; [done..|]. eapply Forall_impl; [exact Hok|]. by intros r [? _].
    + exists d. split; [|done]. destruct routes as [|r routes]; [done|].
      apply Forall_cons in Hok as [(_ & ? & _) _]. apply Forall_cons in Hd as [<- _]. done.
    + eapply Forall_impl; [exact Hok|]. by intros r (_ & _ & ?).
  - intros [Hroles (c & Hc & Hcs) Hopts].
    pose proof (Permutation_length Hroles) as Hlen. rewrite length_fmap in Hlen. rewrite Hlen. simpl.
    destruct (proj2 (route_loop_ok revision routes ∅ 0)) as [s ->]; [|done]. split_and!.
    + rewrite Hroles. apply (bool_decide_unpack _). vm_compute. done.
    + apply Forall_forall. intros r Hr. rewrite Forall_forall in Hcs, Hopts. unfold route_ok.
      rewrite (Hcs r Hr). split_and!; [|lia|lia|by apply Hopts].
      rewrite <- Hroles. apply list_elem_of_fmap. eauto.
    + apply Forall_true. set_solver.
    + exists c. auto.
Qed.

Lemma routes_by_role_map routes :
  routes_by_role routes = list_to_map ((fun r => (cr_Role r, r)) <$> reverse routes).
Proof.
  induction routes as [|r routes IH] using rev_ind; [done|].
  unfold routes_by_role in *. rewrite foldl_snoc, IH, reverse_snoc. done.
Qed.

Lemma routes_equal_permutation left right :
  NoDup (cr_Role <$> left) -> NoDup (cr_Role <$> right) ->
  codingLedgerRoutesEqual left right = true -> left ≡ₚ right.
Proof.
  intros Hl Hr. unfold codingLedgerRoutesEqual. intros H. reflect.
  rewrite !routes_by_role_map in H0. apply list_to_map_inj in H0.
  - apply (fmap_Permutation snd) in H0. rewrite <- !list_fmap_compose in H0.
    unfold compose in H0. simpl in H0. rewrite !list_fmap_id in H0. by rewrite !reverse_Permutation in H0.
  - rewrite <- list_fmap_compose. unfold compose. simpl. by rewrite reverse_Permutation.
  - rewrite <- list_fmap_compose. unfold compose. simpl. by rewrite reverse_Permutation.
Qed.

Lemma routes_ok_nodup routes revision : routes_ok routes revision -> NoDup (cr_Role <$> routes).
Proof. intros [-> _ _]. apply (bool_decide_unpack _). vm_compute. done. Qed.

(** The routes accepted beside a revision are exactly one planner, one
    executor and one reviewer, taken from one existing configuration revision,
    with well-formed options; anything else is refused. *)
Theorem routes_accepted routes revision :
  validateCodingLedgerRoutes routes revision = Ok tt <->
  (cr_Role <$> routes ≡ₚ ["planner"; "executor"; "reviewer"]) /\
  (exists c, 0 < c <= revision /\ Forall (fun r => cr_ConfigurationRevision r = c) routes) /\
  Forall (fun r => Forall (fun v => invalid_option v = false)
    [cr_Provider r; cr_Model r; cr_ReasoningEffort r; cr_ServiceTier r]) routes.
Proof.
  rewrite validate_routes_ok. split; [by intros [? ? ?]|]. by intros (? & ? & ?).
Qed.

(** ** Invariants of a persisted revision *)

Lemma store_edit_id accepted op t t' :
  (forall k c, accepted !! k = Some c -> lt_ID c = k) ->
  validate_operation op = Ok tt -> lt_ID t = op_TargetID op -> store_edit accepted op t = Some t' ->
  lt_ID t' = lt_ID t.
Proof.
  intros Hkeys Hv Hid He. unfold store_edit in He.
  pose proof (known_kinds op Hv) as Hks. rewrite !elem_of_cons in Hks.
  destruct Hks as [Hk|[Hk|[Hk|[Hk|[Hk|[Hk|?%elem_of_nil]]]]]]; try done; rewrite Hk in He; consts; try done.
  - destruct (op_Item op) as [[[q|]]|] eqn:Hq; [|done..]. destruct (active t); [|done]. injection He as <-.
    rewrite with_item_id. simpl. rewrite Hid. by apply (validated_amend_id op q).
  - destruct (active t); [|done]. by injection He as <-.
  - destruct (accepted !! op_TargetID op) as [c|] eqn:Hc.
    + injection He as <-. by rewrite (Hkeys _ _ Hc).
    + case_bool_decide; [|done]. by injection He as <-.
  - destruct (active t); [|done]. by injection He as <-.
  - destruct (active t); [|done]. destruct (op_Rank op); [|done]. injection He as <-. by destruct (negb _).
Qed.

Lemma store_loop_ids accepted ops : forall l l',
  (forall k c, accepted !! k = Some c -> lt_ID c = k) ->
  Forall (fun op => validate_operation op = Ok tt) ops ->
  loop (apply_store_operation accepted) l ops = Ok l' -> task_ids l' = task_ids l ++ all_added ops.
Proof.
  induction ops as [|op ops IH]; intros l l' Hkeys Hv Hl; simpl in Hl.
  - injection Hl as <-. by rewrite app_nil_r.
  - apply Forall_cons in Hv as [Hop Hv].
    destruct (apply_store_operation accepted l op) as [l1|] eqn:Happ; [|done].
    rewrite (IH l1 l' Hkeys Hv Hl). unfold all_added. simpl. rewrite (assoc_L (++)). f_equal.
    apply store_op_step in Happ; [|done]. unfold added_ids, task_ids.
    destruct Happ as [p Hk Hp Hd Hr Hok Hnew|i t t' Hk Hf He]; simpl.
    + rewrite Hk, Hp. consts. by rewrite fmap_app.
    + rewrite bool_decide_false, app_nil_r by done. apply list_find_Some in Hf as (Hi & Hid & _).
      apply (ids_insert _ _ t); [done|]. by apply (store_edit_id accepted op).
Qed.

Lemma represent_loop next ss : forall st st',
  loop (represent next) st ss = Ok st' ->
  forall id, id ∈ st'.1 -> id ∈ st.1 \/
    (id ∈ task_ids next /\ exists s, s ∈ ss /\ os_Kind s = OwnerTurnRepresented /\ id ∈ os_ItemIDs s).
Proof.
  induction ss as [|s ss IH]; intros st st' Hl id Hid; simpl in Hl.
  - injection Hl as <-. by left.
  - destruct (represent next st s) as [st1|] eqn:Hs; [|done].
    destruct (IH st1 st' Hl id Hid) as [Hin|(Hin & s' & ? & ? & ?)];
      [|right; split; [done|]; exists s'; split_and!; [by right|done..]].
    unfold represent in Hs. case_bool_decide as Hk.
    + destruct (for_each _ _) as [[]|] eqn:Hall; [|done]. apply for_each_ok in Hall.
      rewrite Forall_forall in Hall. injection Hs as <-. simpl in Hin.
      apply elem_of_union in Hin as [Hin%elem_of_list_to_set|?]; [|by left]. right.
      specialize (Hall id Hin). simpl in Hall. case_bool_decide as Hd; [|done].
      split; [done|]. exists s. split_and!; [by left|done..].
    + case_bool_decide; injection Hs as <-; by left.
Qed.

(** C2: what a revision of the repository always satisfies. It is the next
    revision of a ledger open for planning, a valid ledger in which the old
    identities keep their positions and additions follow, with no two tasks of
    the same content; the routes are well formed and either those in force or
    all configured by this very revision; and every operation's target is an
    item of the new ledger that the owner's turn names as represented. *)
Theorem persisted_revision ledgerID text action stored accepted m supplied next routes :
  applyCodingLedgerMutation ledgerID text action stored accepted m supplied = Ok (next, routes) ->
  (forall k c, accepted !! k = Some c -> lt_ID c = k) ->
  routes_ok (sl_Routes stored) (sl_Revision stored) ->
  (sl_State stored = "proposed" \/ sl_State stored = "revising") /\
  lm_BaseRevision m = sl_Revision stored /\
  ledger_ok next /\ el_Revision next = wrap64 (sl_Revision stored + 1) /\
  task_ids next = task_ids (clone_ledger (sl_Ledger stored)) ++ all_added (lm_Operations m) /\
  NoDup (duplicate_payload <$> el_Tasks next) /\
  routes_ok routes (el_Revision next) /\
  (routes ≡ₚ sl_Routes stored \/ Forall (fun r => cr_ConfigurationRevision r = el_Revision next) routes) /\
  Forall (fun op => operation_target op ∈ task_ids next /\
    exists s, s ∈ od_Statements (lm_OwnerTurnDisposition m) /\ os_Kind s = OwnerTurnRepresented /\
      operation_target op ∈ os_ItemIDs s) (lm_Operations m).
Proof.
  intros H%apply_persisted Hkeys Hroutes. destruct H as [Hv Hst Hbase Hl Hok Hdis Hturn Hch Hro Hwhich].
  pose proof (validated_operations m Hv) as Hops.
  destruct (loop_rest _ _ _ _ Hops Hl) as [_ Hrv]. apply validate_routes_ok in Hro.
  split_and!; try done.
  - by rewrite (store_loop_ids _ _ _ _ Hkeys Hops Hl).
  - subst routes. case_bool_decide as Hsup; [by left|].
    unfold validateCodingLedgerRouteMutation in Hch. rewrite (bool_decide_false _ Hsup) in Hch. simpl in Hch.
    destruct (codingLedgerRoutesEqual _ _) eqn:Heq.
    + left. symmetry. apply routes_equal_permutation in Heq; eauto using routes_ok_nodup.
    + right. destruct (_ || _)%bool; [done|]. apply for_each_ok in Hch. eapply Forall_impl; [exact Hch|].
      simpl. intros r Hr. destruct (_ =? _) eqn:E in Hr; [|done]. by reflect.
  - unfold validateMutationOwnerTurnDisposition in Hturn. split_ok Hturn. destruct a0.
    apply for_each_ok in E0. eapply Forall_impl; [exact E0|]. simpl. intros op Hop.
    case_bool_decide as Hin; [|done].
    by destruct (represent_loop _ _ _ _ E _ Hin) as [?%elem_of_empty|?].
Qed.

Lemma persisted_revision_witness :
  (sl_State store_sample = "proposed" \/ sl_State store_sample = "revising") /\
  lm_BaseRevision store_mutation = sl_Revision store_sample /\
  ledger_ok store_next /\ el_Revision store_next = wrap64 (sl_Revision store_sample + 1) /\
  task_ids store_next = task_ids (clone_ledger (sl_Ledger store_sample)) ++ all_added (lm_Operations store_mutation) /\
  NoDup (duplicate_payload <$> el_Tasks store_next) /\
  routes_ok (sl_Routes store_sample) (el_Revision store_next) /\
  (sl_Routes store_sample ≡ₚ sl_Routes store_sample \/
   Forall (fun r => cr_ConfigurationRevision r = el_Revision store_next) (sl_Routes store_sample)) /\
  Forall (fun op => operation_target op ∈ task_ids store_next /\
    exists s, s ∈ od_Statements (lm_OwnerTurnDisposition store_mutation) /\ os_Kind s = OwnerTurnRepresented /\
      operation_target op ∈ os_ItemIDs s) (lm_Operations store_mutation).
Proof.
  apply (persisted_revision 1 "please" "planning" store_sample ∅ store_mutation [] store_next
           (sl_Routes store_sample)).
  - exact store_accepts.
  - intros k c Hk. by rewrite lookup_empty in Hk.
  - apply validate_routes_ok. vm_compute. reflexivity.
Defined.

(** ** Where preview and repository differ *)

Definition store_divergent (op : LedgerMutationOperation) : option (string * string) * option (string * string) :=
  let m := mkMutation "op-9" 3 "turn-9" (RepresentedOwnerTurn ["b"]) [op] in
  let view l := (fun t => (lt_Disposition t, lt_ReviewState t)) <$> el_Tasks l !! 1%nat in
  (match ApplyPlanningMutation (sl_Ledger store_sample) m with Ok l => view l | Err _ => None end,
   match applyCodingLedgerMutation 1 "please" "planning" store_sample ∅ m [] with
   | Ok (l, _) => view l
   | Err _ => None
   end).

(** Reordering an agreed task: the preview still shows it agreed, the persisted
    task is proposed. *)
Lemma reorder_preview_differs :
  store_divergent (store_op LedgerMutationReorder "b" None (Some 5)) =
  (Some (LedgerDispositionActive, LedgerReviewAgreed), Some (LedgerDispositionActive, LedgerReviewProposed)).
Proof. vm_compute. reflexivity. Qed.

(** Amending with a tombstoned payload: the preview shows the task removed, the
    persisted task is active. *)
Lemma amend_preview_differs :
  store_divergent (store_op LedgerMutationAmend "b"
    (Some (mkMutationItem (Some (with_item (store_task "b" "second" "" 2)
       (item_with_disposition (lt_Item (store_task "b" "second" "" 2)) LedgerDispositionTombstoned ""))))) None) =
  (Some (LedgerDispositionTombstoned, ""), Some (LedgerDispositionActive, LedgerReviewProposed)).
Proof. vm_compute. reflexivity. Qed.
