(* ===== verification/Schema.v ===== *)
(** * Schema snapshots of a data source

    Models [internal/datasource/schema_types.go], [schema_snapshot.go],
    [schema_snapshot_helpers.go], [schema_snapshot_canonical.go]
    and [schema_snapshot_validate.go] (the projection of [schema_projection.go] is in
    [QueryPlan.v]): relation definitions are canonicalised, given code-owned local identities and checked
    by rebuilding.  Enumerations are strings, as in the source.  Slices that
    [reflect.DeepEqual] compares keep the difference between nil and empty. *)
From S2P Require Import Prelude.
From stdpp Require Import sorting base tactics strings list gmap numbers pretty.
From stdpp Require Import list options.
Open Scope Z_scope.
Open Scope go_scope.

Definition SchemaSnapshotV1 : string := "omnidex.datasource-schema.v1".
Definition DriverPostgres : string := "postgres".
Definition MaxSchemaColumns : Z := 20000.

Definition RelationTable : string := "table".
Definition RelationPartitionedTable : string := "partitioned_table".
Definition RelationView : string := "view".
Definition RelationMaterializedView : string := "materialized_view".
Definition RelationForeignTable : string := "foreign_table".

Definition TypeInteger : string := "integer".
Definition TypeDecimal : string := "decimal".
Definition TypeText : string := "text".
Definition TypeBoolean : string := "boolean".
Definition TypeTemporal : string := "temporal".
Definition TypeDate : string := "date".
Definition TypeUUID : string := "uuid".
Definition TypeJSON : string := "json".
Definition TypeBinary : string := "binary".
Definition TypeOther : string := "other".

(** ** Definitions, as read from a catalog *)

Record ColumnDefinition := mkColumnDefinition {
  cd_Name : string;
  cd_Ordinal : Z;
  cd_DataType : string;
  cd_TypeCategory : string;
  cd_Nullable : bool;
  cd_Generated : bool;
  cd_Identity : bool;
  cd_AllowedValues : list string
}.

Record ForeignKeyDefinition := mkForeignKeyDefinition {
  fd_Name : string;
  fd_Columns : list string;
  fd_ReferencedSchema : string;
  fd_ReferencedRelation : string;
  fd_ReferencedColumns : list string;
  fd_MatchType : string;
  fd_OnUpdate : string;
  fd_OnDelete : string;
  fd_Deferrable : bool
}.

Record UniqueConstraintDefinition := mkUniqueConstraintDefinition {
  ud_Name : string;
  ud_Columns : list string
}.

Record CheckConstraintDefinition := mkCheckConstraintDefinition {
  kd_Name : string;
  kd_Expression : string
}.

Record IndexDefinition := mkIndexDefinition {
  xd_Name : string;
  xd_Columns : list string;
  xd_Unique : bool;
  xd_Primary : bool;
  xd_Expression : string;
  xd_Predicate : string
}.

Record RelationDefinition := mkRelationDefinition {
  rd_Schema : string;
  rd_Name : string;
  rd_Kind : string;
  rd_RowEstimate : Z;
  rd_Columns : list ColumnDefinition;
  rd_PrimaryKeyName : string;
  rd_PrimaryKey : list string;
  rd_ForeignKeys : list ForeignKeyDefinition;
  rd_UniqueConstraints : list UniqueConstraintDefinition;
  rd_CheckConstraints : list CheckConstraintDefinition;
  rd_Indexes : list IndexDefinition
}.

(** ** Snapshots, with local identities *)

Record SchemaColumn := mkSchemaColumn {
  sc_ID : string;
  sc_Name : string;
  sc_Ordinal : Z;
  sc_DataType : string;
  sc_TypeCategory : string;
  sc_Nullable : bool;
  sc_Generated : bool;
  sc_Identity : bool;
  sc_AllowedValues : slice string
}.

Record SchemaForeignKey := mkSchemaForeignKey {
  sf_ID : string;
  sf_Name : string;
  sf_ColumnIDs : slice string;
  sf_ReferencedRelationID : string;
  sf_ReferencedColumnIDs : slice string;
  sf_MatchType : string;
  sf_OnUpdate : string;
  sf_OnDelete : string;
  sf_Deferrable : bool
}.

Record SchemaUniqueConstraint := mkSchemaUniqueConstraint {
  su_ID : string;
  su_Name : string;
  su_ColumnIDs : slice string
}.

Record SchemaCheckConstraint := mkSchemaCheckConstraint {
  sk_ID : string;
  sk_Name : string;
  sk_Expression : string
}.

Record SchemaIndex := mkSchemaIndex {
  sx_ID : string;
  sx_Name : string;
  sx_ColumnIDs : slice string;
  sx_Unique : bool;
  sx_Primary : bool;
  sx_Expression : string;
  sx_Predicate : string
}.

Record SchemaRelation := mkSchemaRelation {
  sr_ID : string;
  sr_Schema : string;
  sr_Name : string;
  sr_Kind : string;
  sr_RowEstimate : Z;
  sr_Columns : slice SchemaColumn;
  sr_PrimaryKeyID : string;
  sr_PrimaryKeyName : string;
  sr_PrimaryKey : slice string;
  sr_ForeignKeys : slice SchemaForeignKey;
  sr_UniqueConstraints : slice SchemaUniqueConstraint;
  sr_CheckConstraints : slice SchemaCheckConstraint;
  sr_Indexes : slice SchemaIndex
}.

(** A [time.Time]: nanoseconds since the zero time, and whether its location is UTC. *)
Record Instant := mkInstant { in_Nanoseconds : Z; in_UTC : bool }.

Record SchemaSnapshot := mkSnapshot {
  ss_Schema : string;
  ss_SourceID : string;
  ss_SourceName : string;
  ss_Driver : string;
  ss_CapturedAt : Instant;
  ss_Relations : slice SchemaRelation
}.

#[global] Instance SchemaColumn_eq : EqDecision SchemaColumn. Proof. solve_decision. Defined.
#[global] Instance SchemaForeignKey_eq : EqDecision SchemaForeignKey. Proof. solve_decision. Defined.
#[global] Instance SchemaUniqueConstraint_eq : EqDecision SchemaUniqueConstraint. Proof. solve_decision. Defined.
#[global] Instance SchemaCheckConstraint_eq : EqDecision SchemaCheckConstraint. Proof. solve_decision. Defined.
#[global] Instance SchemaIndex_eq : EqDecision SchemaIndex. Proof. solve_decision. Defined.
#[global] Instance SchemaRelation_eq : EqDecision SchemaRelation. Proof. solve_decision. Defined.
#[global] Instance Instant_eq : EqDecision Instant. Proof. solve_decision. Defined.
#[global] Instance SchemaSnapshot_eq : EqDecision SchemaSnapshot. Proof. solve_decision. Defined.

(** ** Lookups *)

(** [SchemaSnapshot.Relation] *)
Definition Relation (snapshot : SchemaSnapshot) (id : string) : result SchemaRelation :=
  match list_find (fun r => sr_ID r = id) (elems (ss_Relations snapshot)) with
  | Some (_, relation) => Ok relation
  | None => Err "unknown relation ID %q for data source %q"
  end.

(** [SchemaSnapshot.Column]: the first column with the identity, with its relation. *)
Definition snapshot_columns (snapshot : SchemaSnapshot) : list (SchemaRelation * SchemaColumn) :=
  concat ((fun r => (fun c => (r, c)) <$> elems (sr_Columns r)) <$> elems (ss_Relations snapshot)).
Definition Column (snapshot : SchemaSnapshot) (id : string) : result (SchemaRelation * SchemaColumn) :=
  match list_find (fun rc => sc_ID rc.2 = id) (snapshot_columns snapshot) with
  | Some (_, rc) => Ok rc
  | None => Err "unknown column ID %q for data source %q"
  end.

Definition relationDefinitionKey (schema name : string) : string :=
  trim_space schema +:+ "." +:+ trim_space name.

(** ** Canonical definitions *)

Definition contains_nul (s : string) : bool := contains_any s [byte 0].

Definition validRelationKind (kind : string) : bool :=
  bool_decide (kind ∈ [RelationTable; RelationPartitionedTable; RelationView;
                       RelationMaterializedView; RelationForeignTable]).
Definition validTypeCategory (category : string) : bool :=
  bool_decide (category ∈ [TypeInteger; TypeDecimal; TypeText; TypeBoolean; TypeTemporal; TypeDate;
                           TypeUUID; TypeJSON; TypeBinary; TypeOther]).

Definition validate_column_name (columns : gset string) (seen : gset string) (name : string)
    : result (gset string) :=
  let name := trim_space name in
  reject "%s references unknown column %q" when negb (bool_decide (name ∈ columns));
  reject "%s repeats column %q" when bool_decide (name ∈ seen);
  Ok ({[ name ]} ∪ seen).
Definition validateColumnNames (names : list string) (columns : gset string) (allowEmpty : bool)
    : result unit :=
  reject "%s requires at least one column" when (bool_decide (names = []) && negb allowEmpty)%bool;
  check loop (validate_column_name columns) ∅ names;
  Ok tt.

Definition normalizeNames (names : list string) : list string := trim_space <$> names.

(** [kind + "\x00" + name]; the values of the map only occur in messages. *)
Definition metadata_key (kind name : string) : string := kind +:+ String (byte 0) name.
Definition registerSchemaMetadataName (seen : gset string) (kind name : string) : result (gset string) :=
  reject "duplicate schema metadata name %q used by %s and %s"
    when bool_decide (metadata_key kind name ∈ seen);
  Ok ({[ metadata_key kind name ]} ∪ seen).

(** [sort.Slice] by a string key.  The code sorts by distinct keys, where the
    result does not depend on the algorithm. *)
Definition key_le {A} (key : A -> string) (a b : A) : Prop := str_lt (key b) (key a) = false.
#[global] Instance key_le_dec {A} (key : A -> string) : RelDecision (key_le key).
Proof. intros a b. unfold key_le. apply _. Defined.
Definition sort_by {A} (key : A -> string) (l : list A) : list A := merge_sort (key_le key) l.

Definition canonical_value (st : gset string * list string) (v : string) : result (gset string * list string) :=
  let '(seen, out) := st in
  let value := trim_space v in
  reject "column %q has an invalid allowed value" when ((value == "") || contains_nul value)%bool;
  reject "column %q repeats allowed value %q" when bool_decide (value ∈ seen);
  Ok ({[ value ]} ∪ seen, out ++ [value]).
Definition canonicalizeAllowedValues (values : list string) : result (list string) :=
  let? st := loop canonical_value (∅, []) values in Ok st.2.

Definition ordinal_le (a b : ColumnDefinition) : Prop := cd_Ordinal a <= cd_Ordinal b.
#[global] Instance ordinal_le_dec : RelDecision ordinal_le.
Proof. intros a b. unfold ordinal_le. apply _. Defined.

(** One iteration of the column loop of [canonicalizeRelationDefinition]. *)
Definition canonical_column (st : gset string * gset Z * list ColumnDefinition) (c : ColumnDefinition)
    : result (gset string * gset Z * list ColumnDefinition) :=
  let '(columns, ordinals, out) := st in
  let name := trim_space (cd_Name c) in
  let dataType := trim_space (cd_DataType c) in
  reject "column %d has invalid name, ordinal, data type, or category"
    when ((name == "") || (cd_Ordinal c <=? 0) || (dataType == "") || contains_nul name
          || contains_nul dataType || negb (validTypeCategory (cd_TypeCategory c)))%bool;
  reject "duplicate column %q" when bool_decide (name ∈ columns);
  reject "duplicate column ordinal %d" when bool_decide (cd_Ordinal c ∈ ordinals);
  let? values := canonicalizeAllowedValues (cd_AllowedValues c) in
  Ok ({[ name ]} ∪ columns, {[ cd_Ordinal c ]} ∪ ordinals,
      out ++ [mkColumnDefinition name (cd_Ordinal c) dataType (cd_TypeCategory c) (cd_Nullable c)
                (cd_Generated c) (cd_Identity c) values]).

(** [validatePrimaryKeyDefinition]: the new name and columns of the primary key. *)
Definition validatePrimaryKeyDefinition (name : string) (key : list string) (columns : gset string)
    : result (string * list string) :=
  check validateColumnNames key columns true;
  let name := trim_space name in
  reject "primary key name is invalid" when contains_nul name;
  reject "primary key name exists without primary key columns"
    when (bool_decide (key = []) && (name != ""))%bool;
  let name := if (negb (bool_decide (key = [])) && (name == ""))%bool then "__primary_key__" else name in
  Ok (name, normalizeNames key).

Definition canonical_foreign_key (columns : gset string)
    (st : gset string * list ForeignKeyDefinition) (fk : ForeignKeyDefinition)
    : result (gset string * list ForeignKeyDefinition) :=
  let '(metadataNames, out) := st in
  let name := trim_space (fd_Name fk) in
  let schema := trim_space (fd_ReferencedSchema fk) in
  let relation := trim_space (fd_ReferencedRelation fk) in
  reject "foreign key %d has invalid identity or column cardinality"
    when ((name == "") || (schema == "") || (relation == "") ||
          contains_nul (name +:+ schema +:+ relation) ||
          negb (Nat.eqb (length (fd_Columns fk)) (length (fd_ReferencedColumns fk))))%bool;
  check validateColumnNames (fd_Columns fk) columns false;
  let fk := mkForeignKeyDefinition name (normalizeNames (fd_Columns fk)) schema relation
              (normalizeNames (fd_ReferencedColumns fk)) (trim_space (fd_MatchType fk))
              (trim_space (fd_OnUpdate fk)) (trim_space (fd_OnDelete fk)) (fd_Deferrable fk) in
  let? metadataNames := registerSchemaMetadataName metadataNames "constraint" name in
  Ok (metadataNames, out ++ [fk]).

Definition canonical_unique (columns : gset string)
    (st : gset string * list UniqueConstraintDefinition) (unique : UniqueConstraintDefinition)
    : result (gset string * list UniqueConstraintDefinition) :=
  let '(metadataNames, out) := st in
  let name := trim_space (ud_Name unique) in
  reject "unique constraint requires a valid name" when ((name == "") || contains_nul name)%bool;
  check validateColumnNames (ud_Columns unique) columns false;
  let? metadataNames := registerSchemaMetadataName metadataNames "constraint" name in
  Ok (metadataNames, out ++ [mkUniqueConstraintDefinition name (normalizeNames (ud_Columns unique))]).

Definition canonical_check (st : gset string * list CheckConstraintDefinition)
    (constraint : CheckConstraintDefinition) : result (gset string * list CheckConstraintDefinition) :=
  let '(metadataNames, out) := st in
  let name := trim_space (kd_Name constraint) in
  let expression := trim_space (kd_Expression constraint) in
  reject "check constraint requires a valid name and expression"
    when ((name == "") || (expression == "") || contains_nul expression)%bool;
  let? metadataNames := registerSchemaMetadataName metadataNames "constraint" name in
  Ok (metadataNames, out ++ [mkCheckConstraintDefinition name expression]).

Definition canonical_index (columns : gset string)
    (st : gset string * list IndexDefinition) (index : IndexDefinition)
    : result (gset string * list IndexDefinition) :=
  let '(metadataNames, out) := st in
  let name := trim_space (xd_Name index) in
  let expression := trim_space (xd_Expression index) in
  let predicate := trim_space (xd_Predicate index) in
  reject "index requires valid bounded metadata"
    when ((name == "") || contains_nul (expression +:+ predicate))%bool;
  check validateColumnNames (xd_Columns index) columns true;
  reject "index %s requires columns or an expression"
    when (bool_decide (xd_Columns index = []) && (expression == ""))%bool;
  let? metadataNames := registerSchemaMetadataName metadataNames "index" name in
  Ok (metadataNames, out ++ [mkIndexDefinition name (normalizeNames (xd_Columns index)) (xd_Unique index)
                               (xd_Primary index) expression predicate]).

(** The two results of [canonicalizeConstraintsAndIndexes] and [canonicalizeForeignKeys]
    besides the updated [metadataNames]. *)
Definition canonicalizeForeignKeys (columns metadataNames : gset string) (fks : list ForeignKeyDefinition)
    : result (gset string * list ForeignKeyDefinition) :=
  loop (canonical_foreign_key columns) (metadataNames, []) fks.
Definition canonicalizeConstraintsAndIndexes (columns metadataNames : gset string) (d : RelationDefinition)
    : result (list UniqueConstraintDefinition * list CheckConstraintDefinition * list IndexDefinition) :=
  let? uniques := loop (canonical_unique columns) (metadataNames, []) (rd_UniqueConstraints d) in
  let? checks := loop canonical_check (uniques.1, []) (rd_CheckConstraints d) in
  let? indexes := loop (canonical_index columns) (checks.1, []) (rd_Indexes d) in
  Ok (uniques.2, checks.2, indexes.2).

(** [canonicalizeRelationDefinition], [sortSchemaMetadata] included. *)
Definition canonicalizeRelationDefinition (d : RelationDefinition) : result RelationDefinition :=
  reject "requires at least one column" when bool_decide (rd_Columns d = []);
  let? st := loop canonical_column (∅, ∅, []) (merge_sort ordinal_le (rd_Columns d)) in
  let columns := st.1.1 in
  let? pk := validatePrimaryKeyDefinition (rd_PrimaryKeyName d) (rd_PrimaryKey d) columns in
  let? metadataNames :=
    (if pk.1 != "" then registerSchemaMetadataName ∅ "constraint" pk.1 else Ok ∅) in
  let? fks := canonicalizeForeignKeys columns metadataNames (rd_ForeignKeys d) in
  let? rest := canonicalizeConstraintsAndIndexes columns fks.1 d in
  Ok (mkRelationDefinition (rd_Schema d) (rd_Name d) (rd_Kind d) (rd_RowEstimate d) st.2 pk.1 pk.2
        (sort_by fd_Name fks.2) (sort_by ud_Name rest.1.1) (sort_by kd_Name rest.1.2)
        (sort_by xd_Name rest.2)).

Definition definition_key (d : RelationDefinition) : string :=
  relationDefinitionKey (rd_Schema d) (rd_Name d).

Definition with_names (d : RelationDefinition) (schema name : string) : RelationDefinition :=
  mkRelationDefinition schema name (rd_Kind d) (rd_RowEstimate d) (rd_Columns d) (rd_PrimaryKeyName d)
    (rd_PrimaryKey d) (rd_ForeignKeys d) (rd_UniqueConstraints d) (rd_CheckConstraints d) (rd_Indexes d).

(** One iteration of [canonicalizeRelationDefinitions]. *)
Definition canonical_relation (st : gset string * Z * list RelationDefinition) (d : RelationDefinition)
    : result (gset string * Z * list RelationDefinition) :=
  let '(seenRelations, totalColumns, out) := st in
  let schema := trim_space (rd_Schema d) in
  let name := trim_space (rd_Name d) in
  let key := relationDefinitionKey schema name in
  reject "relation %d requires valid schema and name"
    when ((schema == "") || (name == "") || contains_nul schema || contains_nul name)%bool;
  reject "relation %s has unsupported kind %q" when negb (validRelationKind (rd_Kind d));
  reject "duplicate relation %q" when bool_decide (key ∈ seenRelations);
  match canonicalizeRelationDefinition (with_names d schema name) with
  | Err _ => Err "relation %s: %w"
  | Ok d =>
      let totalColumns := totalColumns + Z.of_nat (length (rd_Columns d)) in
      reject "schema snapshot exceeds %d columns" when (MaxSchemaColumns <? totalColumns);
      Ok ({[ key ]} ∪ seenRelations, totalColumns, out ++ [d])
  end.

(** The input is cloned first ([cloneRelationDefinitions]), so the caller's
    definitions are not changed: here they are values. *)
Definition canonicalizeRelationDefinitions (input : list RelationDefinition)
    : result (list RelationDefinition) :=
  reject "schema snapshot requires 1..%d relations" when bool_decide (input = []);
  let? st := loop canonical_relation (∅, 0, []) (sort_by definition_key input) in
  Ok st.2.

(** ** Local identities *)

Definition relation_id (index : nat) : string := "rel_" +:+ pretty (Z.of_nat index + 1).
Definition child_id (relationID infix : string) (index : nat) : string :=
  relationID +:+ infix +:+ pretty (Z.of_nat index + 1).

(** What [append] leaves when it starts from a nil slice. *)
Definition appended {A} (l : list A) : slice A := match l with [] => None | _ => Some l end.

Definition relation_ids (defs : list RelationDefinition) : gmap string string :=
  foldl (fun m '(i, d) => <[definition_key d := relation_id i]> m) ∅ (imap pair defs).
Definition column_ids_of (relationID : string) (cs : list ColumnDefinition) : gmap string string :=
  foldl (fun m '(j, c) => <[cd_Name c := child_id relationID "_col_" j]> m) ∅ (imap pair cs).
Definition column_ids (defs : list RelationDefinition) : gmap string (gmap string string) :=
  foldl (fun m '(i, d) => <[definition_key d := column_ids_of (relation_id i) (rd_Columns d)]> m) ∅
    (imap pair defs).

Definition resolveColumnNames (ids : gmap string string) (names : list string) : slice string :=
  Some ((fun name => default "" (ids !! name)) <$> names).

Definition resolve_column (relationID : string) (j : nat) (c : ColumnDefinition) : SchemaColumn :=
  mkSchemaColumn (child_id relationID "_col_" j) (cd_Name c) (cd_Ordinal c) (cd_DataType c)
    (cd_TypeCategory c) (cd_Nullable c) (cd_Generated c) (cd_Identity c) (appended (cd_AllowedValues c)).

Section resolve.
Context (relationIDs : gmap string string) (columnIDs : gmap string (gmap string string)).

Definition resolve_foreign_key (relationID : string) (own : gmap string string)
  (jfk : nat * ForeignKeyDefinition) : result SchemaForeignKey :=
let '(j, fk) := jfk in
let targetKey := relationDefinitionKey (fd_ReferencedSchema fk) (fd_ReferencedRelation fk) in
match relationIDs !! targetKey with
| None => Err "foreign key %s references unknown relation %q"
| Some targetRelationID =>
    let targetColumns := default ∅ (columnIDs !! targetKey) in
    check validateColumnNames (fd_ReferencedColumns fk) (dom targetColumns) false;
    Ok (mkSchemaForeignKey (child_id relationID "_fk_" j) (fd_Name fk)
          (resolveColumnNames own (fd_Columns fk)) targetRelationID
          (resolveColumnNames targetColumns (fd_ReferencedColumns fk))
          (fd_MatchType fk) (fd_OnUpdate fk) (fd_OnDelete fk) (fd_Deferrable fk))
end.

Definition resolve_relation (jd : nat * RelationDefinition) : result SchemaRelation :=
let '(i, d) := jd in
let id := relation_id i in
let own := default ∅ (columnIDs !! definition_key d) in
let named := rd_PrimaryKeyName d != "" in
let? fks := collect (resolve_foreign_key id own) (imap pair (rd_ForeignKeys d)) in
Ok (mkSchemaRelation id (rd_Schema d) (rd_Name d) (rd_Kind d) (rd_RowEstimate d)
      (appended (imap (resolve_column id) (rd_Columns d)))
      (if named then id +:+ "_pk" else "") (if named then rd_PrimaryKeyName d else "")
      (resolveColumnNames own (rd_PrimaryKey d)) (appended fks)
      (appended (imap (fun j u => mkSchemaUniqueConstraint (child_id id "_unique_" j) (ud_Name u)
                   (resolveColumnNames own (ud_Columns u))) (rd_UniqueConstraints d)))
      (appended (imap (fun j k => mkSchemaCheckConstraint (child_id id "_check_" j) (kd_Name k)
                   (kd_Expression k)) (rd_CheckConstraints d)))
      (appended (imap (fun j x => mkSchemaIndex (child_id id "_index_" j) (xd_Name x)
                   (resolveColumnNames own (xd_Columns x)) (xd_Unique x) (xd_Primary x)
                   (xd_Expression x) (xd_Predicate x)) (rd_Indexes d)))).
End resolve.

Definition resolveSchemaDefinitions (defs : list RelationDefinition) : result (list SchemaRelation) :=
  collect (resolve_relation (relation_ids defs) (column_ids defs)) (imap pair defs).

Definition NewSchemaSnapshot (sourceID sourceName : string) (definitions : list RelationDefinition)
    (capturedAt : Instant) : result SchemaSnapshot :=
  let sourceID := trim_space sourceID in
  reject "schema snapshot requires a non-blank source ID" when ((sourceID == "") || contains_nul sourceID)%bool;
  reject "schema snapshot requires a non-blank source name"
    when (blank sourceName || contains_nul sourceName)%bool;
  reject "schema snapshot requires a capture time" when (in_Nanoseconds capturedAt =? 0);
  let? canonical := canonicalizeRelationDefinitions definitions in
  let? relations := resolveSchemaDefinitions canonical in
  Ok (mkSnapshot SchemaSnapshotV1 sourceID (trim_space sourceName) DriverPostgres
        (mkInstant (in_Nanoseconds capturedAt) true) (Some relations)).

(** ** Integrity: rebuild and compare *)

Abbreviation column_owners := (gmap string (string * SchemaColumn)).

Definition register_column (relationID : string) (columns : column_owners) (c : SchemaColumn)
    : result column_owners :=
  reject "relation %q contains a blank column ID" when (sc_ID c == "");
  reject "schema snapshot repeats column ID %q" when bool_decide (is_Some (columns !! sc_ID c));
  Ok (<[sc_ID c := (relationID, c)]> columns).
Definition register_relation (st : gmap string SchemaRelation * column_owners) (r : SchemaRelation)
    : result (gmap string SchemaRelation * column_owners) :=
  let '(relations, columns) := st in
  reject "schema snapshot contains a blank relation ID" when (sr_ID r == "");
  reject "schema snapshot repeats relation ID %q" when bool_decide (is_Some (relations !! sr_ID r));
  let? columns := loop (register_column (sr_ID r)) columns (elems (sr_Columns r)) in
  Ok (<[sr_ID r := r]> relations, columns).

Definition snapshot_column_name (columns : column_owners) (relationID id : string) : result string :=
  match columns !! id with
  | Some (owner, c) =>
      reject "column ID %q is not owned by relation %q" when (owner != relationID); Ok (sc_Name c)
  | None => Err "column ID %q is not owned by relation %q"
  end.
Definition snapshotColumnNames (relationID : string) (ids : list string) (columns : column_owners)
    : result (list string) :=
  collect (snapshot_column_name columns relationID) ids.

Definition column_definition (c : SchemaColumn) : ColumnDefinition :=
  mkColumnDefinition (sc_Name c) (sc_Ordinal c) (sc_DataType c) (sc_TypeCategory c) (sc_Nullable c)
    (sc_Generated c) (sc_Identity c) (elems (sc_AllowedValues c)).

Definition foreign_key_definition (relations : gmap string SchemaRelation) (columns : column_owners)
    (relationID : string) (fk : SchemaForeignKey) : result ForeignKeyDefinition :=
  match relations !! sf_ReferencedRelationID fk with
  | None => Err "foreign key %q references unknown relation ID %q"
  | Some target =>
      let? localNames := snapshotColumnNames relationID (elems (sf_ColumnIDs fk)) columns in
      let? targetNames := snapshotColumnNames (sr_ID target) (elems (sf_ReferencedColumnIDs fk)) columns in
      Ok (mkForeignKeyDefinition (sf_Name fk) localNames (sr_Schema target) (sr_Name target) targetNames
            (sf_MatchType fk) (sf_OnUpdate fk) (sf_OnDelete fk) (sf_Deferrable fk))
  end.

Definition relation_definition (relations : gmap string SchemaRelation) (columns : column_owners)
    (r : SchemaRelation) : result RelationDefinition :=
  let? primaryKey := snapshotColumnNames (sr_ID r) (elems (sr_PrimaryKey r)) columns in
  let? fks := collect (foreign_key_definition relations columns (sr_ID r)) (elems (sr_ForeignKeys r)) in
  let? uniques := collect (fun u =>
    let? names := snapshotColumnNames (sr_ID r) (elems (su_ColumnIDs u)) columns in
    Ok (mkUniqueConstraintDefinition (su_Name u) names)) (elems (sr_UniqueConstraints r)) in
  let? indexes := collect (fun x =>
    let? names := snapshotColumnNames (sr_ID r) (elems (sx_ColumnIDs x)) columns in
    Ok (mkIndexDefinition (sx_Name x) names (sx_Unique x) (sx_Primary x) (sx_Expression x) (sx_Predicate x)))
    (elems (sr_Indexes r)) in
  Ok (mkRelationDefinition (sr_Schema r) (sr_Name r) (sr_Kind r) (sr_RowEstimate r)
        (column_definition <$> elems (sr_Columns r)) (sr_PrimaryKeyName r) primaryKey fks uniques
        ((fun k => mkCheckConstraintDefinition (sk_Name k) (sk_Expression k)) <$> elems (sr_CheckConstraints r))
        indexes).

Definition definitionsFromSnapshot (snapshot : SchemaSnapshot) : result (list RelationDefinition) :=
  let? st := loop register_relation (∅, ∅) (elems (ss_Relations snapshot)) in
  collect (relation_definition st.1 st.2) (elems (ss_Relations snapshot)).

Definition ValidateIntegrity (snapshot : SchemaSnapshot) : result unit :=
  reject "schema snapshot has unsupported schema or driver"
    when ((ss_Schema snapshot != SchemaSnapshotV1) || (ss_Driver snapshot != DriverPostgres))%bool;
  reject "schema snapshot authority is incomplete"
    when ((ss_SourceID snapshot == "") || (ss_SourceName snapshot == "")
          || (ss_SourceName snapshot != trim_space (ss_SourceName snapshot))
          || (in_Nanoseconds (ss_CapturedAt snapshot) =? 0)
          || negb (in_UTC (ss_CapturedAt snapshot)))%bool;
  let? definitions := definitionsFromSnapshot snapshot in
  match NewSchemaSnapshot (ss_SourceID snapshot) (ss_SourceName snapshot) definitions (ss_CapturedAt snapshot) with
  | Err _ => Err "rebuild schema snapshot integrity: %w"
  | Ok rebuilt =>
      reject "schema snapshot metadata or local references are not canonical" when (snapshot != rebuilt);
      Ok tt
  end.

(** ** A sample schema: items of orders of customers

    Orders refer to customers twice, so that join paths can be ambiguous. *)
Definition sample_column (name : string) (ordinal : Z) (dataType category : string) : ColumnDefinition :=
  mkColumnDefinition name ordinal dataType category false false false [].
Definition sample_key (name column relation : string) : ForeignKeyDefinition :=
  mkForeignKeyDefinition name [column] "public" relation ["id"] "" "" "" false.
Definition sample_relation (name : string) (columns : list ColumnDefinition)
    (fks : list ForeignKeyDefinition) : RelationDefinition :=
  mkRelationDefinition "public" name RelationTable 10 columns "" ["id"] fks [] [] [].
Definition sample_definitions : list RelationDefinition :=
  [sample_relation "orders"
     [sample_column "id" 1 "bigint" TypeInteger; sample_column "buyer_id" 2 "bigint" TypeInteger;
      sample_column "referrer_id" 3 "bigint" TypeInteger; sample_column "placed_at" 4 "timestamptz" TypeTemporal]
     [sample_key "orders_referrer" "referrer_id" "customers"; sample_key "orders_buyer" "buyer_id" "customers"];
   sample_relation "customers"
     [sample_column "name" 2 "text" TypeText; sample_column " id" 1 "bigint" TypeInteger] [];
   sample_relation "items"
     [sample_column "id" 1 "bigint" TypeInteger; sample_column "order_id" 2 "bigint" TypeInteger;
      sample_column "price" 3 "numeric" TypeDecimal]
     [sample_key "items_order" "order_id" "orders"]].
Definition sample_snapshot : SchemaSnapshot :=
  match NewSchemaSnapshot "src-1" "shop" sample_definitions (mkInstant 1000 true) with
  | Ok s => s
  | Err _ => mkSnapshot "" "" "" "" (mkInstant 0 false) None
  end.
Example sample_valid : ValidateIntegrity sample_snapshot = Ok tt.
Proof. vm_compute. reflexivity. Qed.
