(* ===== verification/SchemaFacts.v ===== *)
(** * Facts about schema snapshots

    Canonical definitions are the fixpoints of canonicalisation, the local
    identities are distinct, and reading the definitions back from a resolved
    snapshot gives the canonical definitions again. *)
From Stdlib Require Import Ascii.
From S2P Require Import Prelude Schema.
From stdpp Require Import sorting base tactics strings list gmap numbers pretty.
From stdpp Require Import list options.
Open Scope Z_scope.
Open Scope go_scope.

(** ** [strings.TrimSpace] is idempotent *)

Definition starts_space (l : list ascii) : bool :=
  match l with
  | a :: l1 =>
      (space1 a ||
       match l1 with
       | b :: l2 => space2 a b || match l2 with c :: _ => space3 a b c | [] => false end
       | [] => false
       end)%bool
  | [] => false
  end.
Definition ends_space (l : list ascii) : bool :=
  match l with
  | c :: l1 =>
      (space1 c ||
       match l1 with
       | b :: l2 => space2 b c || match l2 with a :: _ => space3 a b c | [] => false end
       | [] => false
       end)%bool
  | [] => false
  end.

(** One step of the scanners. *)
Ltac over p := right; exists p; eexists; split_and!; [reflexivity|done|done].
Lemma trim_left_step l :
  (starts_space l = false /\ trim_left l = l) \/
  exists p l', l = p ++ l' /\ p <> [] /\ trim_left l = trim_left l'.
Proof.
  destruct l as [|a [|b [|c l]]]; simpl; [by left| | |];
    destruct (space1 a); [over [a]|by left|over [a]| |over [a]|];
    (destruct (space2 a b); [over [a; b]|]); [by left|].
  destruct (space3 a b c); [over [a; b; c]|by left].
Qed.
Lemma trim_right_step l :
  (ends_space l = false /\ trim_right_rev l = l) \/
  exists p l', l = p ++ l' /\ p <> [] /\ trim_right_rev l = trim_right_rev l'.
Proof.
  destruct l as [|a [|b [|c l]]]; simpl; [by left| | |];
    destruct (space1 a); [over [a]|by left|over [a]| |over [a]|];
    (destruct (space2 b a); [over [a; b]|]); [by left|].
  destruct (space3 c b a); [over [a; b; c]|by left].
Qed.

Section scanner.
Context (f : list ascii -> list ascii) (g : list ascii -> bool).
Hypothesis (step : forall l, (g l = false /\ f l = l) \/ exists p l', l = p ++ l' /\ p <> [] /\ f l = f l').
Lemma scan_spec l : g (f l) = false /\ f l `suffix_of` l.
Proof using step.
  remember (length l) as n eqn:Hn. revert l Hn. induction n as [n IH] using lt_wf_ind. intros l ->.
  destruct (step l) as [[Hg ->]|(p & l' & -> & Hp & ->)]; [done|].
  destruct (IH (length l')) with (l := l') as [Hg Hs]; [|done|].
  - rewrite length_app. destruct p; [done|simpl; lia].
  - split; [done|]. by apply suffix_app_r.
Qed.
End scanner.

(** A list that does not start with a space is not scanned. *)
Lemma trim_left_id l : starts_space l = false -> trim_left l = l.
Proof.
  destruct l as [|a [|b [|c l]]]; simpl; [done|..]; intros H;
    repeat (apply orb_false_iff in H as [-> H]); try done; by rewrite H.
Qed.
Lemma trim_right_id l : ends_space l = false -> trim_right_rev l = l.
Proof.
  destruct l as [|a [|b [|c l]]]; simpl; [done|..]; intros H;
    repeat (apply orb_false_iff in H as [-> H]); try done; by rewrite H.
Qed.
Lemma starts_space_prefix l k : l `prefix_of` k -> starts_space k = false -> starts_space l = false.
Proof.
  intros [r ->]. destruct l as [|a [|b [|c l]]]; simpl; [done|..]; intros H;
    repeat (apply orb_false_iff in H as [-> H]); done.
Qed.

Lemma trim_space_idemp s : trim_space (trim_space s) = trim_space s.
Proof.
  unfold trim_space. rewrite String.list_ascii_of_string_of_list_ascii. f_equal.
  set (l := trim_left (String.list_ascii_of_string s)).
  destruct (scan_spec trim_left starts_space trim_left_step (String.list_ascii_of_string s)) as [Hl _].
  fold l in Hl.
  destruct (scan_spec trim_right_rev ends_space trim_right_step (reverse l)) as [Hr [p Hp]].
  set (k := trim_right_rev (reverse l)) in *.
  rewrite (trim_left_id (reverse k)).
  - by rewrite reverse_involutive, (trim_right_id k).
  - apply starts_space_prefix with l; [|done]. exists (reverse p).
    by rewrite <- reverse_app, <- Hp, reverse_involutive.
Qed.

Lemma contains_nul_app a b : contains_nul (a +:+ b) = (contains_nul a || contains_nul b)%bool.
Proof.
  unfold contains_nul, contains_any. induction a as [|x a IH]; [done|]. simpl in *.
  change (String.list_ascii_of_string (String.app a b)) with (String.list_ascii_of_string (a +:+ b)).
  by rewrite IH, orb_assoc.
Qed.

(** ** Guards as propositions *)

Lemma reject_ok {A} (e : string) (b : bool) (k : result A) v :
  (if b then Err e else k) = Ok v <-> b = false /\ k = Ok v.
Proof. destruct b; naive_solver. Qed.
Lemma bind_ok {A B} (c : result A) (k : A -> result B) v :
  (match c with Ok x => k x | Err e => Err e end) = Ok v <-> exists x, c = Ok x /\ k x = Ok v.
Proof. destruct c; naive_solver. Qed.
Lemma check_ok {A} (c : result unit) (k : result A) v :
  (match c with Ok _ => k | Err e => Err e end) = Ok v <-> c = Ok tt /\ k = Ok v.
Proof. destruct c as [[]|]; naive_solver. Qed.
Lemma ok_ok {A} (x y : A) : Ok x = Ok y <-> y = x.
Proof. naive_solver. Qed.

(** ** Loops that replace each element by a canonical one

    [st_of out] is the loop's state after the outputs [out]; a step turns [x]
    into [y] when [N x y], provided [Q out y]. *)
Section canonical_loop.
Context {A B S : Type} (st_of : list B -> S) (N : A -> B -> Prop) (Q : list B -> B -> Prop).
Context (f : S -> A -> result S).

Fixpoint chain (out ys : list B) : Prop :=
  match ys with
  | [] => True
  | y :: ys => Q out y /\ chain (out ++ [y]) ys
  end.

Hypothesis (f_ok : forall out x st, f (st_of out) x = Ok st <->
  exists y, N x y /\ Q out y /\ st = st_of (out ++ [y])).

Lemma loop_canonical l : forall out st,
  loop f (st_of out) l = Ok st <-> exists ys, Forall2 N l ys /\ chain out ys /\ st = st_of (out ++ ys).
Proof using f_ok.
  induction l as [|x l IH]; intros out st; simpl.
  - rewrite ok_ok. split.
    + intros ->. exists []. by rewrite app_nil_r.
    + intros (ys & Hn & _ & ->). inversion Hn. by rewrite app_nil_r.
  - rewrite bind_ok. split.
    + intros (s1 & (y & Hn & Hq & ->)%f_ok & (ys & Hns & Hc & ->)%IH).
      exists (y :: ys). rewrite <- (assoc_L (++)). simpl. auto.
    + intros (ys & Hn & Hc & ->). inversion Hn as [|? y ? ys' Hy Hys]; subst. destruct Hc as [Hq Hc].
      exists (st_of (out ++ [y])). split; [by apply f_ok; eauto|]. apply IH.
      exists ys'. rewrite <- (assoc_L (++)). auto.
Qed.
End canonical_loop.

Lemma chain_conj {B} (P R : list B -> B -> Prop) ys : forall out,
  chain (fun o y => P o y /\ R o y) out ys <-> chain P out ys /\ chain R out ys.
Proof. induction ys as [|y ys IH]; intros out; simpl; [tauto|]. rewrite IH. tauto. Qed.
Lemma chain_forall {B} (P : B -> Prop) ys : forall out, chain (fun _ y => P y) out ys <-> Forall P ys.
Proof. induction ys as [|y ys IH]; intros out; simpl; [done|]. by rewrite IH, Forall_cons. Qed.
(** Keys that are new at every step are distinct. *)
Lemma chain_fresh {B K} (key : B -> K) (pre : list K) ys : forall out,
  chain (fun o y => key y ∉ pre ++ (key <$> o)) out ys <->
  NoDup (key <$> ys) /\ Forall (fun y => key y ∉ pre ++ (key <$> out)) ys.
Proof.
  induction ys as [|y ys IH]; intros out; simpl; [by repeat split; constructor|].
  rewrite IH, NoDup_cons, !Forall_cons, !Forall_forall, list_elem_of_fmap. split.
  - intros (Hy & Hnd & Hall). split_and!; try done.
    + intros (z & Hz & Hin). apply (Hall z Hin). rewrite fmap_app, <- Hz. set_solver.
    + intros z Hin Hk. apply (Hall z Hin). rewrite fmap_app. set_solver.
  - intros ([Hno Hnd] & Hy & Hall). split_and!; try done.
    intros z Hin. rewrite fmap_app, !elem_of_app. simpl. rewrite list_elem_of_singleton.
    intros [?|[?|Heq]]; [apply (Hall z Hin); set_solver..|]. apply Hno. eauto.
Qed.

Lemma chain_fresh_nil {B K} (key : B -> K) (pre : list K) ys :
  NoDup pre ->
  chain (fun o y => key y ∉ pre ++ (key <$> o)) [] ys <-> NoDup (pre ++ (key <$> ys)).
Proof.
  intros Hpre. rewrite chain_fresh, list.NoDup_app, Forall_forall. simpl. rewrite app_nil_r. split.
  - intros [Hnd Hall]. split_and!; try done. intros x Hx (y & -> & Hy)%list_elem_of_fmap. by apply (Hall y Hy).
  - intros (_ & Hdis & Hnd). split; [done|]. intros y Hy Hin. apply (Hdis _ Hin). apply list_elem_of_fmap. eauto.
Qed.

(** A canonical list is its own image. *)
Lemma Forall2_fixed {A} (N : A -> A -> Prop) l : Forall2 N l l <-> Forall (fun x => N x x) l.
Proof. rewrite Forall2_same_length_lookup, Forall_lookup. naive_solver. Qed.

Lemma Forall2_function {A B} (g : A -> B) l ys : Forall2 (fun x y => y = g x) l ys <-> ys = g <$> l.
Proof.
  split.
  - induction 1 as [|x y l ys -> _ IH]; [done|]. by rewrite fmap_cons, <- IH.
  - intros ->. apply Forall2_fmap_r, Forall2_fixed, Forall_true. done.
Qed.

(** ** Sorting by distinct keys *)

#[global] Instance key_le_total {A} (key : A -> string) : Total (key_le key).
Proof.
  intros a b. unfold key_le. rewrite !str_lt_le. destruct (total String.le (key a) (key b)); auto.
Qed.
#[global] Instance key_le_trans {A} (key : A -> string) : Transitive (key_le key).
Proof. intros a b c. unfold key_le. rewrite !str_lt_le. intros. by trans (key b). Qed.

Lemma sort_by_Permutation {A} (key : A -> string) l : sort_by key l ≡ₚ l.
Proof. apply merge_sort_Permutation. Qed.
Lemma sort_by_sorted {A} (key : A -> string) l : StronglySorted (key_le key) (sort_by key l).
Proof. apply StronglySorted_merge_sort; apply _. Qed.

Lemma keys_injective {A K} (key : A -> K) l x y :
  NoDup (key <$> l) -> x ∈ l -> y ∈ l -> key x = key y -> x = y.
Proof.
  intros Hnd [i Hi]%list_elem_of_lookup [j Hj]%list_elem_of_lookup Hk.
  assert (i = j) as ->; [|congruence].
  eapply (NoDup_lookup (key <$> l)); [done|by rewrite list_lookup_fmap, Hi|].
  rewrite list_lookup_fmap, Hj. simpl. by rewrite Hk.
Qed.

Lemma sort_by_fixed {A} (key : A -> string) l :
  NoDup (key <$> l) -> StronglySorted (key_le key) l -> sort_by key l = l.
Proof.
  intros Hnd Hs. apply (StronglySorted_unique_strong (key_le key)); try done.
  - intros x y Hx Hy Hxy Hyx. rewrite sort_by_Permutation in Hx.
    apply (keys_injective key l); [done..|]. unfold key_le in *. rewrite str_lt_le in *.
    by apply (anti_symm String.le).
  - apply sort_by_sorted.
  - apply sort_by_Permutation.
Qed.

#[global] Instance ordinal_le_total : Total ordinal_le.
Proof. intros a b. unfold ordinal_le. lia. Qed.
#[global] Instance ordinal_le_trans : Transitive ordinal_le.
Proof. intros a b c. unfold ordinal_le. lia. Qed.

Lemma sort_ordinals_fixed l :
  NoDup (cd_Ordinal <$> l) -> StronglySorted ordinal_le l -> merge_sort ordinal_le l = l.
Proof.
  intros Hnd Hs. apply (StronglySorted_unique_strong ordinal_le); try done.
  - intros x y Hx Hy Hxy Hyx. rewrite merge_sort_Permutation in Hx.
    apply (keys_injective cd_Ordinal l); [done..|]. unfold ordinal_le in *. lia.
  - apply StronglySorted_merge_sort; apply _.
  - apply merge_sort_Permutation.
Qed.

(** Sortedness only depends on the keys. *)
Lemma sorted_fmap {A B K} (R : relation K) (ka : A -> K) (kb : B -> K) l m :
  ka <$> l = kb <$> m ->
  StronglySorted (fun x y => R (ka x) (ka y)) l -> StronglySorted (fun x y => R (kb x) (kb y)) m.
Proof.
  revert m. induction l as [|x l IH]; intros [|y m] Heq Hs; try done; [constructor|].
  injection Heq as Hx Heq. inversion_clear Hs as [|? ? Hs' Hall]. constructor; [by apply IH|].
  apply Forall_forall. intros z Hz. rewrite Forall_forall in Hall. rewrite <- Hx.
  assert (kb z ∈ ka <$> l) as (w & -> & Hw)%list_elem_of_fmap; [|by apply Hall].
  change (list_fmap A K ka l) with (ka <$> l) in Heq. rewrite Heq. apply list_elem_of_fmap. eauto.
Qed.
