(* ===== verification/SchemaCanonical.v ===== *)
(** * Canonical relation definitions

    The canonical definitions ([canonical]) are exactly what
    [canonicalizeRelationDefinition] produces and what it leaves unchanged. *)
From S2P Require Import Prelude Schema SchemaFacts.
From stdpp Require Import sorting base tactics strings list gmap numbers.
From stdpp Require Import list options.
Open Scope Z_scope.
Open Scope go_scope.

(** ** Names *)

Lemma normalize_idemp ns : normalizeNames (normalizeNames ns) = normalizeNames ns.
Proof.
  unfold normalizeNames. rewrite <- list_fmap_compose. apply list_fmap_ext. intros i x _. apply trim_space_idemp.
Qed.

Lemma validate_names_ok names (columns : gset string) allowEmpty :
  validateColumnNames names columns allowEmpty = Ok tt <->
  (bool_decide (names = []) && negb allowEmpty)%bool = false /\
  NoDup (normalizeNames names) /\ Forall (fun n => n ∈ columns) (normalizeNames names).
Proof.
  unfold validateColumnNames. rewrite reject_ok, check_loop_ok.
  rewrite (loop_seen trim_space (fun n => trim_space n ∈ columns)).
  - unfold normalizeNames. rewrite Forall_fmap. split; [tauto|]. intros (? & ? & ?). split_and!; try done.
    apply Forall_true. set_solver.
  - intros seen x s'. unfold validate_column_name. rewrite !reject_ok, ok_ok.
    rewrite negb_false_iff, bool_decide_eq_true, bool_decide_eq_false. naive_solver.
Qed.

Lemma validate_names_normalize names columns allowEmpty :
  validateColumnNames (normalizeNames names) columns allowEmpty = Ok tt <->
  validateColumnNames names columns allowEmpty = Ok tt.
Proof.
  rewrite !validate_names_ok, normalize_idemp.
  assert (bool_decide (normalizeNames names = []) = bool_decide (names = [])) as ->; [|done].
  apply bool_decide_ext. by destruct names.
Qed.

(** ** Elements *)

Definition value_ok (v : string) : Prop := ((v == "") || contains_nul v)%bool = false.

Lemma allowed_values_ok values out :
  canonicalizeAllowedValues values = Ok out <->
  out = normalizeNames values /\ Forall value_ok out /\ NoDup out.
Proof.
  unfold canonicalizeAllowedValues. rewrite bind_ok.
  transitivity (exists x, loop canonical_value (∅, []) values = Ok x /\ out = x.2); [by setoid_rewrite ok_ok|].
  change (∅, []) with ((fun o : list string => (list_to_set o : gset string, o)) []).
  setoid_rewrite (loop_canonical _ (fun v w => w = trim_space v)
                    (fun o w => value_ok w /\ w ∉ [] ++ (id <$> o))).
  - setoid_rewrite chain_conj. setoid_rewrite chain_forall. setoid_rewrite chain_fresh_nil; [|apply NoDup_nil_2].
    setoid_rewrite list_fmap_id. setoid_rewrite Forall2_function. split.
    + intros (x & (ys & Hn & [Hok Hnd] & ->) & ->). done.
    + intros (-> & Hok & Hnd). exists (list_to_set (normalizeNames values), normalizeNames values).
      split; [|done]. eexists. split_and!; done.
  - intros o v st. unfold canonical_value. rewrite !reject_ok, ok_ok.
    rewrite bool_decide_eq_false. simpl. rewrite list_fmap_id, elem_of_list_to_set. split.
    + intros (? & ? & ->). eexists. split_and!; try done. f_equal. set_solver.
    + intros (w & -> & [? ?] & ->). split_and!; try done. f_equal. set_solver.
Qed.

(** Loops that register the name of each element. *)
Lemma register_ok (seen : gset string) kind name seen' :
  registerSchemaMetadataName seen kind name = Ok seen' <->
  metadata_key kind name ∉ seen /\ seen' = {[ metadata_key kind name ]} ∪ seen.
Proof. unfold registerSchemaMetadataName. by rewrite reject_ok, ok_ok, bool_decide_eq_false. Qed.

Section metadata_loop.
Context {A : Type} (key : A -> string) (norm : A -> A) (Q : A -> Prop).
Context (f : gset string * list A -> A -> result (gset string * list A)).
Hypothesis (f_ok : forall seen out x st, f (seen, out) x = Ok st <->
  Q (norm x) /\ key (norm x) ∉ seen /\ st = ({[ key (norm x) ]} ∪ seen, out ++ [norm x])).

Lemma metadata_loop pre l st :
  NoDup pre ->
  loop f (list_to_set pre, []) l = Ok st <->
  Forall Q (norm <$> l) /\ NoDup (pre ++ (key <$> (norm <$> l))) /\
  st = (list_to_set (pre ++ (key <$> (norm <$> l))), norm <$> l).
Proof using f_ok.
  intros Hpre. set (st_of := fun o : list A => (list_to_set (pre ++ (key <$> o)) : gset string, o)).
  assert ((list_to_set pre, []) = st_of []) as -> by (unfold st_of; by rewrite fmap_nil, app_nil_r).
  rewrite (loop_canonical st_of (fun x y => y = norm x) (fun o y => Q y /\ key y ∉ pre ++ (key <$> o))).
  - setoid_rewrite chain_conj. setoid_rewrite chain_forall. setoid_rewrite chain_fresh_nil; [|done].
    setoid_rewrite Forall2_function. split.
    + intros (ys & -> & [Hq Hnd] & ->). done.
    + intros (Hq & Hnd & ->). eexists. split_and!; done.
  - intros o x s. unfold st_of. rewrite f_ok, elem_of_list_to_set. split.
    + intros (Hq & Hk & ->). eexists. split_and!; try done. f_equal. rewrite fmap_app. simpl. set_solver.
    + intros (y & -> & [Hq Hk] & ->). split_and!; try done. f_equal. rewrite fmap_app. simpl. set_solver.
Qed.
End metadata_loop.

Definition constraint_key (name : string) : string := metadata_key "constraint" name.
Definition index_key (name : string) : string := metadata_key "index" name.

Definition norm_fk (fk : ForeignKeyDefinition) : ForeignKeyDefinition :=
  mkForeignKeyDefinition (trim_space (fd_Name fk)) (normalizeNames (fd_Columns fk))
    (trim_space (fd_ReferencedSchema fk)) (trim_space (fd_ReferencedRelation fk))
    (normalizeNames (fd_ReferencedColumns fk)) (trim_space (fd_MatchType fk))
    (trim_space (fd_OnUpdate fk)) (trim_space (fd_OnDelete fk)) (fd_Deferrable fk).
Definition fk_ok (columns : gset string) (fk : ForeignKeyDefinition) : Prop :=
  ((fd_Name fk == "") || (fd_ReferencedSchema fk == "") || (fd_ReferencedRelation fk == "") ||
   contains_nul (fd_Name fk +:+ fd_ReferencedSchema fk +:+ fd_ReferencedRelation fk) ||
   negb (Nat.eqb (length (fd_Columns fk)) (length (fd_ReferencedColumns fk))))%bool = false /\
  validateColumnNames (fd_Columns fk) columns false = Ok tt.

Lemma fk_loop columns pre fks st :
  NoDup pre ->
  canonicalizeForeignKeys columns (list_to_set pre) fks = Ok st <->
  Forall (fk_ok columns) (norm_fk <$> fks) /\
  NoDup (pre ++ (constraint_key ∘ fd_Name <$> (norm_fk <$> fks))) /\
  st = (list_to_set (pre ++ (constraint_key ∘ fd_Name <$> (norm_fk <$> fks))), norm_fk <$> fks).
Proof.
  apply metadata_loop. intros seen out x s. unfold canonical_foreign_key, fk_ok.
  rewrite reject_ok, check_ok, bind_ok. simpl. rewrite validate_names_normalize.
  unfold normalizeNames. rewrite !length_fmap. split.
  - intros (H1 & H2 & m & [H3 ->]%register_ok & ->%ok_ok). done.
  - intros ([H1 H2] & H3 & ->). split_and!; try done. eexists. rewrite register_ok. done.
Qed.

Definition norm_unique (u : UniqueConstraintDefinition) : UniqueConstraintDefinition :=
  mkUniqueConstraintDefinition (trim_space (ud_Name u)) (normalizeNames (ud_Columns u)).
Definition unique_ok (columns : gset string) (u : UniqueConstraintDefinition) : Prop :=
  value_ok (ud_Name u) /\ validateColumnNames (ud_Columns u) columns false = Ok tt.

Lemma unique_loop columns pre us st :
  NoDup pre ->
  loop (canonical_unique columns) (list_to_set pre, []) us = Ok st <->
  Forall (unique_ok columns) (norm_unique <$> us) /\
  NoDup (pre ++ (constraint_key ∘ ud_Name <$> (norm_unique <$> us))) /\
  st = (list_to_set (pre ++ (constraint_key ∘ ud_Name <$> (norm_unique <$> us))), norm_unique <$> us).
Proof.
  apply metadata_loop. intros seen out x s. unfold canonical_unique, unique_ok, value_ok.
  rewrite reject_ok, check_ok, bind_ok. simpl. rewrite validate_names_normalize. split.
  - intros (H1 & H2 & m & [H3 ->]%register_ok & ->%ok_ok). done.
  - intros ([H1 H2] & H3 & ->). split_and!; try done. eexists. rewrite register_ok. done.
Qed.

Definition norm_check (k : CheckConstraintDefinition) : CheckConstraintDefinition :=
  mkCheckConstraintDefinition (trim_space (kd_Name k)) (trim_space (kd_Expression k)).
Definition check_constraint_ok (k : CheckConstraintDefinition) : Prop :=
  ((kd_Name k == "") || (kd_Expression k == "") || contains_nul (kd_Expression k))%bool = false.

Lemma check_loop pre ks st :
  NoDup pre ->
  loop canonical_check (list_to_set pre, []) ks = Ok st <->
  Forall check_constraint_ok (norm_check <$> ks) /\
  NoDup (pre ++ (constraint_key ∘ kd_Name <$> (norm_check <$> ks))) /\
  st = (list_to_set (pre ++ (constraint_key ∘ kd_Name <$> (norm_check <$> ks))), norm_check <$> ks).
Proof.
  apply metadata_loop. intros seen out x s. unfold canonical_check, check_constraint_ok.
  rewrite reject_ok, bind_ok. simpl. split.
  - intros (H1 & m & [H3 ->]%register_ok & ->%ok_ok). done.
  - intros (H1 & H3 & ->). split_and!; try done. eexists. rewrite register_ok. done.
Qed.

Definition norm_index (x : IndexDefinition) : IndexDefinition :=
  mkIndexDefinition (trim_space (xd_Name x)) (normalizeNames (xd_Columns x)) (xd_Unique x) (xd_Primary x)
    (trim_space (xd_Expression x)) (trim_space (xd_Predicate x)).
Definition index_ok (columns : gset string) (x : IndexDefinition) : Prop :=
  ((xd_Name x == "") || contains_nul (xd_Expression x +:+ xd_Predicate x))%bool = false /\
  validateColumnNames (xd_Columns x) columns true = Ok tt /\
  (bool_decide (xd_Columns x = []) && (xd_Expression x == ""))%bool = false.

Lemma normalize_nil ns : bool_decide (normalizeNames ns = []) = bool_decide (ns = []).
Proof. apply bool_decide_ext. by destruct ns. Qed.

Lemma index_loop columns pre xs st :
  NoDup pre ->
  loop (canonical_index columns) (list_to_set pre, []) xs = Ok st <->
  Forall (index_ok columns) (norm_index <$> xs) /\
  NoDup (pre ++ (index_key ∘ xd_Name <$> (norm_index <$> xs))) /\
  st = (list_to_set (pre ++ (index_key ∘ xd_Name <$> (norm_index <$> xs))), norm_index <$> xs).
Proof.
  apply metadata_loop. intros seen out x s. unfold canonical_index, index_ok.
  rewrite !reject_ok, check_ok, reject_ok, bind_ok. simpl. rewrite validate_names_normalize, normalize_nil. split.
  - intros (H1 & H2 & H4 & m & [H3 ->]%register_ok & ->%ok_ok). done.
  - intros ((H1 & H2 & H4) & H3 & ->). split_and!; try done. eexists. rewrite register_ok. done.
Qed.

Definition norm_column (c : ColumnDefinition) : ColumnDefinition :=
  mkColumnDefinition (trim_space (cd_Name c)) (cd_Ordinal c) (trim_space (cd_DataType c)) (cd_TypeCategory c)
    (cd_Nullable c) (cd_Generated c) (cd_Identity c) (normalizeNames (cd_AllowedValues c)).
Definition column_ok (c : ColumnDefinition) : Prop :=
  ((cd_Name c == "") || (cd_Ordinal c <=? 0) || (cd_DataType c == "") || contains_nul (cd_Name c)
   || contains_nul (cd_DataType c) || negb (validTypeCategory (cd_TypeCategory c)))%bool = false /\
  Forall value_ok (cd_AllowedValues c) /\ NoDup (cd_AllowedValues c).

Definition column_names (cs : list ColumnDefinition) : gset string := list_to_set (cd_Name <$> cs).

Lemma column_loop cs st :
  loop canonical_column (∅, ∅, []) cs = Ok st <->
  Forall column_ok (norm_column <$> cs) /\ NoDup (cd_Name <$> (norm_column <$> cs)) /\
  NoDup (cd_Ordinal <$> (norm_column <$> cs)) /\
  st = (column_names (norm_column <$> cs), list_to_set (cd_Ordinal <$> (norm_column <$> cs)), norm_column <$> cs).
Proof.
  set (st_of := fun o : list ColumnDefinition =>
    (column_names o, list_to_set (cd_Ordinal <$> o) : gset Z, o)).
  change (∅, ∅, []) with (st_of []).
  rewrite (loop_canonical st_of (fun x y => y = norm_column x)
    (fun o y => (column_ok y /\ cd_Name y ∉ [] ++ (cd_Name <$> o)) /\ cd_Ordinal y ∉ [] ++ (cd_Ordinal <$> o))).
  - setoid_rewrite chain_conj. setoid_rewrite chain_conj. setoid_rewrite chain_forall.
    setoid_rewrite chain_fresh_nil; [|apply NoDup_nil_2..]. setoid_rewrite Forall2_function. split.
    + intros (ys & -> & [[Hq Hn] Ho] & ->). done.
    + intros (Hq & Hn & Ho & ->). eexists. split_and!; done.
  - intros o x s. unfold st_of, canonical_column, column_ok, column_names.
    rewrite !reject_ok, bind_ok, !bool_decide_eq_false, !elem_of_list_to_set. simpl. split.
    + intros (H1 & H2 & H3 & values & (-> & H4 & H5)%allowed_values_ok & ->%ok_ok).
      eexists. split_and!; try done. rewrite !fmap_app. simpl. repeat f_equal; set_solver.
    + intros (y & -> & [[(H1 & H4 & H5) H2] H3] & ->). split_and!; try done.
      exists (normalizeNames (cd_AllowedValues x)). rewrite allowed_values_ok, ok_ok. split_and!; try done.
      rewrite !fmap_app. simpl. repeat f_equal; set_solver.
Qed.

Lemma contains_nul_primary : contains_nul "__primary_key__" = false.
Proof. reflexivity. Qed.

Lemma primary_key_fixed name key columns pk :
  validatePrimaryKeyDefinition name key columns = Ok pk ->
  validatePrimaryKeyDefinition pk.1 pk.2 columns = Ok pk.
Proof.
  unfold validatePrimaryKeyDefinition. rewrite check_ok, !reject_ok, ok_ok.
  intros (Hnames & Hnul & Hempty & ->). cbn [fst snd].
  rewrite check_ok, !reject_ok, ok_ok, validate_names_normalize, normalize_nil, normalize_idemp.
  destruct (bool_decide (key = [])) eqn:Hk; cbn [negb andb] in *.
  - rewrite trim_space_idemp, Hnul. done.
  - destruct (bool_decide (trim_space name = "")) eqn:Hn.
    + by vm_compute (trim_space "__primary_key__").
    + rewrite trim_space_idemp, Hnul, Hn. done.
Qed.

(** ** Canonical definitions *)

Definition pk_keys (d : RelationDefinition) : list string :=
  if rd_PrimaryKeyName d != "" then [constraint_key (rd_PrimaryKeyName d)] else [].
Definition metadata_keys (d : RelationDefinition) : list string :=
  (((pk_keys d ++ (constraint_key ∘ fd_Name <$> rd_ForeignKeys d)) ++
    (constraint_key ∘ ud_Name <$> rd_UniqueConstraints d)) ++
   (constraint_key ∘ kd_Name <$> rd_CheckConstraints d)) ++ (index_key ∘ xd_Name <$> rd_Indexes d).

Record canonical (d : RelationDefinition) : Prop := {
  can_some : rd_Columns d <> [];
  can_order : StronglySorted ordinal_le (rd_Columns d);
  can_columns : Forall (fun c => column_ok c /\ norm_column c = c) (rd_Columns d);
  can_names : NoDup (cd_Name <$> rd_Columns d);
  can_ordinals : NoDup (cd_Ordinal <$> rd_Columns d);
  can_pk : validatePrimaryKeyDefinition (rd_PrimaryKeyName d) (rd_PrimaryKey d) (column_names (rd_Columns d)) =
             Ok (rd_PrimaryKeyName d, rd_PrimaryKey d);
  can_fks : Forall (fun k => fk_ok (column_names (rd_Columns d)) k /\ norm_fk k = k) (rd_ForeignKeys d);
  can_uniques : Forall (fun u => unique_ok (column_names (rd_Columns d)) u /\ norm_unique u = u)
                  (rd_UniqueConstraints d);
  can_checks : Forall (fun k => check_constraint_ok k /\ norm_check k = k) (rd_CheckConstraints d);
  can_indexes : Forall (fun x => index_ok (column_names (rd_Columns d)) x /\ norm_index x = x) (rd_Indexes d);
  can_metadata : NoDup (metadata_keys d);
  can_fks_sorted : StronglySorted (key_le fd_Name) (rd_ForeignKeys d);
  can_uniques_sorted : StronglySorted (key_le ud_Name) (rd_UniqueConstraints d);
  can_checks_sorted : StronglySorted (key_le kd_Name) (rd_CheckConstraints d);
  can_indexes_sorted : StronglySorted (key_le xd_Name) (rd_Indexes d)
}.

Lemma norm_column_idemp c : norm_column (norm_column c) = norm_column c.
Proof. unfold norm_column. simpl. by rewrite !trim_space_idemp, normalize_idemp. Qed.
Lemma norm_fk_idemp k : norm_fk (norm_fk k) = norm_fk k.
Proof. unfold norm_fk. simpl. by rewrite !trim_space_idemp, !normalize_idemp. Qed.
Lemma norm_unique_idemp u : norm_unique (norm_unique u) = norm_unique u.
Proof. unfold norm_unique. simpl. by rewrite !trim_space_idemp, normalize_idemp. Qed.
Lemma norm_check_idemp k : norm_check (norm_check k) = norm_check k.
Proof. unfold norm_check. simpl. by rewrite !trim_space_idemp. Qed.
Lemma norm_index_idemp x : norm_index (norm_index x) = norm_index x.
Proof. unfold norm_index. simpl. by rewrite !trim_space_idemp, normalize_idemp. Qed.

Lemma Forall_normal {A} (Q : A -> Prop) (norm : A -> A) l :
  (forall x, norm (norm x) = norm x) -> Forall Q (norm <$> l) ->
  Forall (fun y => Q y /\ norm y = y) (norm <$> l).
Proof.
  intros Hi HQ. apply Forall_and. split; [done|]. apply Forall_fmap, Forall_true. intros x. apply Hi.
Qed.

(** The keys registered for the primary key. *)
Lemma pk_register (d : RelationDefinition) :
  (if rd_PrimaryKeyName d != "" then registerSchemaMetadataName ∅ "constraint" (rd_PrimaryKeyName d) else Ok ∅) =
  Ok (list_to_set (pk_keys d)).
Proof.
  unfold pk_keys. destruct (rd_PrimaryKeyName d != ""); [|done].
  apply register_ok. split; [set_solver|]. unfold constraint_key. simpl. done.
Qed.
Lemma pk_keys_nodup d : NoDup (pk_keys d).
Proof. unfold pk_keys. destruct (_ != _); [apply NoDup_singleton|apply NoDup_nil_2]. Qed.

(** The metadata of a definition does not depend on the order of its parts. *)
Lemma metadata_keys_perm d d' :
  rd_PrimaryKeyName d = rd_PrimaryKeyName d' -> rd_ForeignKeys d ≡ₚ rd_ForeignKeys d' ->
  rd_UniqueConstraints d ≡ₚ rd_UniqueConstraints d' -> rd_CheckConstraints d ≡ₚ rd_CheckConstraints d' ->
  rd_Indexes d ≡ₚ rd_Indexes d' -> metadata_keys d ≡ₚ metadata_keys d'.
Proof. unfold metadata_keys, pk_keys. by intros -> -> -> -> ->. Qed.

(** What one successful run computes, before sorting. *)
Lemma canonicalize_runs d r :
  canonicalizeRelationDefinition d = Ok r <->
  exists cs pk, let n := column_names cs in
    let u := mkRelationDefinition (rd_Schema d) (rd_Name d) (rd_Kind d) (rd_RowEstimate d) cs pk.1 pk.2
      (norm_fk <$> rd_ForeignKeys d) (norm_unique <$> rd_UniqueConstraints d)
      (norm_check <$> rd_CheckConstraints d) (norm_index <$> rd_Indexes d) in
    rd_Columns d <> [] /\ cs = norm_column <$> merge_sort ordinal_le (rd_Columns d) /\
    Forall column_ok cs /\ NoDup (cd_Name <$> cs) /\ NoDup (cd_Ordinal <$> cs) /\
    validatePrimaryKeyDefinition (rd_PrimaryKeyName d) (rd_PrimaryKey d) n = Ok pk /\
    Forall (fk_ok n) (rd_ForeignKeys u) /\ Forall (unique_ok n) (rd_UniqueConstraints u) /\
    Forall check_constraint_ok (rd_CheckConstraints u) /\ Forall (index_ok n) (rd_Indexes u) /\
    NoDup (metadata_keys u) /\
    r = mkRelationDefinition (rd_Schema d) (rd_Name d) (rd_Kind d) (rd_RowEstimate d) cs pk.1 pk.2
          (sort_by fd_Name (rd_ForeignKeys u)) (sort_by ud_Name (rd_UniqueConstraints u))
          (sort_by kd_Name (rd_CheckConstraints u)) (sort_by xd_Name (rd_Indexes u)).
Proof.
  unfold canonicalizeRelationDefinition, canonicalizeConstraintsAndIndexes.
  rewrite reject_ok, bool_decide_eq_false, bind_ok. split.
  - intros (Hne & st & (Hq & Hn & Ho & ->)%column_loop & Hrun). cbn [fst snd] in Hrun.
    apply bind_ok in Hrun as (pk & Hpk & Hrun). exists (norm_column <$> merge_sort ordinal_le (rd_Columns d)), pk.
    set (u := mkRelationDefinition _ _ _ _ _ _ _ _ _ _ _).
    pose proof (pk_register u) as Hreg. cbn [rd_PrimaryKeyName u] in Hreg. rewrite Hreg in Hrun.
    apply bind_ok in Hrun as (fks & (Hfk & Hk1 & ->)%fk_loop & Hrun); [|apply pk_keys_nodup].
    apply bind_ok in Hrun as (rest & Hrest & ->%ok_ok).
    apply bind_ok in Hrest as (us & (Hu & Hk2 & ->)%unique_loop & Hrest); [|done].
    apply bind_ok in Hrest as (ks & (Hc & Hk3 & ->)%check_loop & Hrest); [|done].
    apply bind_ok in Hrest as (xs & (Hx & Hk4 & ->)%index_loop & ->%ok_ok); [|done].
    split_and!; done.
  - intros (cs & pk & Hne & -> & Hq & Hn & Ho & Hpk & Hfk & Hu & Hc & Hx & Hnd & ->).
    split; [done|]. eexists. split; [by apply column_loop|]. cbn [fst snd].
    apply bind_ok. exists pk. split; [done|].
    set (u := mkRelationDefinition _ _ _ _ (norm_column <$> _) _ _ (norm_fk <$> _) _ _ _) in *.
    pose proof (pk_register u) as Hreg. cbn [rd_PrimaryKeyName u] in Hreg. rewrite Hreg.
    unfold metadata_keys in Hnd. pose proof Hnd as (Hnd3 & _ & _)%list.NoDup_app.
    pose proof Hnd3 as (Hnd2 & _ & _)%list.NoDup_app. pose proof Hnd2 as (Hnd1 & _ & _)%list.NoDup_app.
    apply bind_ok. eexists. split; [apply fk_loop; [apply pk_keys_nodup|split_and!; done]|].
    apply bind_ok. exists (rd_UniqueConstraints u, rd_CheckConstraints u, rd_Indexes u). split; [|done].
    apply bind_ok. eexists. split; [apply unique_loop; [done|split_and!; done]|].
    apply bind_ok. eexists. split; [apply check_loop; [done|split_and!; done]|].
    apply bind_ok. eexists. split; [apply index_loop; [done|split_and!; done]|]. done.
Qed.

Lemma canonicalize_canonical d r :
  canonicalizeRelationDefinition d = Ok r ->
  canonical r /\ rd_Schema r = rd_Schema d /\ rd_Name r = rd_Name d /\ rd_Kind r = rd_Kind d.
Proof.
  intros (cs & pk & Hne & Hcs & Hq & Hn & Ho & Hpk & Hfk & Hu & Hc & Hx & Hnd & ->)%canonicalize_runs.
  cbn [rd_ForeignKeys rd_UniqueConstraints rd_CheckConstraints rd_Indexes] in *.
  split; [|done]. constructor; cbn [rd_Columns rd_PrimaryKeyName rd_PrimaryKey rd_ForeignKeys
    rd_UniqueConstraints rd_CheckConstraints rd_Indexes].
  - subst cs. intros Heq%fmap_nil_inv. apply Hne. apply Permutation_nil_r.
    by rewrite <- Heq, merge_sort_Permutation.
  - subst cs. apply (sorted_fmap Z.le cd_Ordinal cd_Ordinal (merge_sort ordinal_le (rd_Columns d))).
    + by rewrite <- list_fmap_compose.
    + apply (StronglySorted_merge_sort ordinal_le).
  - subst cs. apply Forall_normal; [apply norm_column_idemp|done].
  - done.
  - done.
  - rewrite (primary_key_fixed _ _ _ _ Hpk). by destruct pk.
  - rewrite sort_by_Permutation. apply Forall_normal; [apply norm_fk_idemp|done].
  - rewrite sort_by_Permutation. apply Forall_normal; [apply norm_unique_idemp|done].
  - rewrite sort_by_Permutation. apply Forall_normal; [apply norm_check_idemp|done].
  - rewrite sort_by_Permutation. apply Forall_normal; [apply norm_index_idemp|done].
  - eapply NoDup_Permutation_proper; [|exact Hnd]. apply metadata_keys_perm; try done; apply sort_by_Permutation.
  - apply sort_by_sorted.
  - apply sort_by_sorted.
  - apply sort_by_sorted.
  - apply sort_by_sorted.
Qed.

Lemma norm_fixed {A} (Q : A -> Prop) (norm : A -> A) l :
  Forall (fun y => Q y /\ norm y = y) l -> norm <$> l = l /\ Forall Q l.
Proof.
  intros [HQ Hn]%Forall_and. split; [|done].
  induction Hn as [|x l Hx _ IH]; [done|]. apply Forall_cons in HQ as [_ HQ].
  rewrite fmap_cons, Hx. f_equal. by apply IH.
Qed.

Lemma names_nodup {A} (key : string -> string) (name : A -> string) l :
  NoDup (key ∘ name <$> l) -> NoDup (name <$> l).
Proof. rewrite list_fmap_compose. apply NoDup_fmap_1. Qed.

Lemma metadata_names_nodup d :
  NoDup (metadata_keys d) ->
  NoDup (fd_Name <$> rd_ForeignKeys d) /\ NoDup (ud_Name <$> rd_UniqueConstraints d) /\
  NoDup (kd_Name <$> rd_CheckConstraints d) /\ NoDup (xd_Name <$> rd_Indexes d).
Proof.
  unfold metadata_keys. intros (Hm & _ & H4)%list.NoDup_app. apply list.NoDup_app in Hm as (Hm & _ & H3).
  apply list.NoDup_app in Hm as (Hm & _ & H2). apply list.NoDup_app in Hm as (_ & _ & H1).
  split_and!; eapply names_nodup; eassumption.
Qed.

Lemma canonical_fixed d : canonical d -> canonicalizeRelationDefinition d = Ok d.
Proof.
  intros [Hne Hso Hcs Hn Ho Hpk Hfk Hu Hc Hx Hm Sf Su Sk Sx].
  apply norm_fixed in Hcs as [Ecs Hcs], Hfk as [Efk Hfk], Hu as [Eu Hu], Hc as [Ec Hc], Hx as [Ex Hx].
  destruct (metadata_names_nodup d Hm) as (N1 & N2 & N3 & N4).
  apply canonicalize_runs. exists (rd_Columns d), (rd_PrimaryKeyName d, rd_PrimaryKey d).
  cbn [fst snd rd_ForeignKeys rd_UniqueConstraints rd_CheckConstraints rd_Indexes].
  rewrite Efk, Eu, Ec, Ex, (sort_ordinals_fixed _ Ho Hso), Ecs.
  split_and!; try done. rewrite !sort_by_fixed by done. by destruct d.
Qed.

(** ** Canonical schemas *)

Definition sum_columns (ds : list RelationDefinition) : Z :=
  foldr (fun d n => Z.of_nat (length (rd_Columns d)) + n) 0 ds.
Lemma sum_columns_app a b : sum_columns (a ++ b) = sum_columns a + sum_columns b.
Proof. induction a as [|d a IH]; simpl; [done|]. rewrite IH. lia. Qed.
Lemma sum_columns_nonneg a : 0 <= sum_columns a.
Proof. induction a as [|d a IH]; simpl; lia. Qed.

Lemma chain_bound ys : forall out,
  chain (fun o y => sum_columns (o ++ [y]) <= MaxSchemaColumns) out ys <->
  (ys <> [] -> sum_columns (out ++ ys) <= MaxSchemaColumns).
Proof.
  induction ys as [|y ys IH]; intros out; simpl; [done|]. rewrite IH, <- (assoc_L (++)). simpl. split.
  - intros [Hy Hys] _. destruct ys as [|z ys]; [done|]. by apply Hys.
  - intros H. specialize (H ltac:(done)). split; [|done].
    replace (out ++ y :: ys) with ((out ++ [y]) ++ ys) in H by (by rewrite <- (assoc_L (++))).
    rewrite (sum_columns_app _ ys) in H. pose proof (sum_columns_nonneg ys). lia.
Qed.

(** A relation with trimmed, printable names and a known kind. *)
Definition named (d : RelationDefinition) : Prop :=
  ((rd_Schema d == "") || (rd_Name d == "") || contains_nul (rd_Schema d) || contains_nul (rd_Name d))%bool = false /\
  negb (validRelationKind (rd_Kind d)) = false /\
  trim_space (rd_Schema d) = rd_Schema d /\ trim_space (rd_Name d) = rd_Name d.

Definition canonicalizes (d d' : RelationDefinition) : Prop :=
  canonical d' /\ named d' /\
  canonicalizeRelationDefinition (with_names d (trim_space (rd_Schema d)) (trim_space (rd_Name d))) = Ok d'.

Lemma key_trimmed schema name :
  relationDefinitionKey (trim_space schema) (trim_space name) = relationDefinitionKey schema name.
Proof. unfold relationDefinitionKey. by rewrite !trim_space_idemp. Qed.

Lemma canonicalizes_key d d' : canonicalizes d d' -> definition_key d' = definition_key d.
Proof.
  intros (_ & _ & (_ & Hs & Hn & _)%canonicalize_canonical). simpl in *.
  unfold definition_key. by rewrite Hs, Hn, key_trimmed.
Qed.
Lemma canonicalizes_fixed d : canonical d -> named d -> canonicalizes d d.
Proof.
  intros Hc Hn. split_and!; [done..|]. destruct Hn as (_ & _ & -> & ->).
  rewrite canonical_fixed; [by destruct d|]. by destruct d.
Qed.

Lemma relation_loop input st :
  loop canonical_relation (∅, 0, []) input = Ok st <->
  exists defs, Forall2 canonicalizes input defs /\ NoDup (definition_key <$> defs) /\
    (defs <> [] -> sum_columns defs <= MaxSchemaColumns) /\
    st = (list_to_set (definition_key <$> defs), sum_columns defs, defs).
Proof.
  set (st_of := fun o : list RelationDefinition =>
    (list_to_set (definition_key <$> o) : gset string, sum_columns o, o)).
  change (∅, 0, []) with (st_of []).
  rewrite (loop_canonical st_of canonicalizes
    (fun o y => definition_key y ∉ [] ++ (definition_key <$> o) /\ sum_columns (o ++ [y]) <= MaxSchemaColumns)).
  - setoid_rewrite chain_conj. setoid_rewrite chain_bound. setoid_rewrite chain_fresh_nil; [|apply NoDup_nil_2].
    split; intros (ds & H); exists ds; naive_solver.
  - intros o d s. unfold st_of, canonical_relation.
    rewrite !reject_ok, bool_decide_eq_false, elem_of_list_to_set. rewrite key_trimmed. fold (definition_key d).
    split.
    + intros (H1 & H2 & H3 & H4). destruct (canonicalizeRelationDefinition _) as [d'|] eqn:Hd; [|done].
      apply reject_ok in H4 as [H4 ->%ok_ok]. apply Z.ltb_ge in H4.
      destruct (canonicalize_canonical _ _ Hd) as (Hc & Hs & Hn & Hk). simpl in Hs, Hn, Hk.
      assert (canonicalizes d d') as Hdd.
      { split_and!; [done| |done]. unfold named. rewrite Hs, Hn, Hk, !trim_space_idemp. split_and!; done. }
      exists d'. rewrite sum_columns_app, (canonicalizes_key d d' Hdd), fmap_app. simpl.
      rewrite (canonicalizes_key d d' Hdd), Z.add_0_r. split_and!; try done. repeat f_equal. set_solver.
    + intros (d' & Hdd & [H3 H4] & ->). pose proof (canonicalizes_key d d' Hdd) as Hkey.
      destruct Hdd as (Hc & (H1 & H2 & _ & _) & Hd).
      destruct (canonicalize_canonical _ _ Hd) as (_ & Hs & Hn & Hk). simpl in Hs, Hn, Hk.
      rewrite Hs, Hn in H1. rewrite Hk in H2. rewrite Hkey in H3. split_and!; try done.
      rewrite Hd. apply reject_ok. rewrite ok_ok, fmap_app. rewrite sum_columns_app in H4 |- *. simpl in *.
      rewrite Z.add_0_r in *. rewrite Hkey. split; [by apply Z.ltb_ge|]. repeat f_equal. set_solver.
Qed.

(** What [canonicalizeRelationDefinitions] produces and leaves unchanged. *)
Record canonical_schema (defs : list RelationDefinition) : Prop := {
  cs_some : defs <> [];
  cs_defs : Forall (fun d => canonical d /\ named d) defs;
  cs_keys : NoDup (definition_key <$> defs);
  cs_sorted : StronglySorted (key_le definition_key) defs;
  cs_bound : sum_columns defs <= MaxSchemaColumns
}.

Lemma canonicalize_schema input defs :
  canonicalizeRelationDefinitions input = Ok defs -> canonical_schema defs.
Proof.
  unfold canonicalizeRelationDefinitions. rewrite reject_ok, bind_ok, bool_decide_eq_false.
  intros (Hne & st & (ds & H2 & Hnd & Hsum & ->)%relation_loop & ->%ok_ok). simpl.
  assert (definition_key <$> sort_by definition_key input = definition_key <$> ds) as Hkeys.
  { clear -H2. induction H2 as [|d d' l l' Hd _ IH]; [done|].
    by rewrite !fmap_cons, IH, (canonicalizes_key d d' Hd). }
  assert (ds <> []) as Hds.
  { intros ->. apply Forall2_nil_inv_r in H2. apply Hne, Permutation_nil_r.
    by rewrite <- H2, sort_by_Permutation. }
  constructor; try done.
  - clear -H2. induction H2 as [|d d' l l' (? & ? & _) _ IH]; by constructor.
  - apply (sorted_fmap (fun a b => str_lt b a = false) definition_key definition_key _ ds Hkeys).
    apply sort_by_sorted.
  - by apply Hsum.
Qed.

Lemma canonical_schema_fixed defs :
  canonical_schema defs -> canonicalizeRelationDefinitions defs = Ok defs.
Proof.
  intros [Hne Hd Hk Hs Hb]. unfold canonicalizeRelationDefinitions.
  rewrite reject_ok, bind_ok, bool_decide_eq_false, sort_by_fixed by done. split; [done|].
  exists (list_to_set (definition_key <$> defs), sum_columns defs, defs). split; [|done].
  apply relation_loop. exists defs. split_and!; try done.
  apply Forall2_fixed. eapply Forall_impl; [exact Hd|]. simpl. intros d [? ?]. by apply canonicalizes_fixed.
Qed.
