(* ===== verification/SchemaSpec.v ===== *)
(** * What a schema snapshot guarantees

    The local identities of a snapshot are distinct, its references resolve, and
    the integrity check accepts exactly the snapshots that can be built. *)
From Stdlib Require Import Ascii.
From S2P Require Import Prelude Schema SchemaFacts SchemaCanonical.
From stdpp Require Import sorting base tactics strings list gmap numbers pretty.
From stdpp Require Import list options.
Open Scope Z_scope.
Open Scope go_scope.

(** ** Identities *)

Definition bar : ascii := "_"%char.
(** Strings without an underscore. *)
Fixpoint plain (s : string) : bool :=
  match s with
  | EmptyString => true
  | String a s => (negb (bool_decide (a = bar)) && plain s)%bool
  end.

Lemma plain_cut a : forall b x y,
  plain a = true -> plain b = true -> a +:+ String bar x = b +:+ String bar y -> a = b /\ x = y.
Proof.
  induction a as [|c a IH]; intros [|d b] x y Ha Hb Heq; simpl in *.
  - by injection Heq as <-.
  - injection Heq as <- _. by rewrite bool_decide_true in Hb.
  - injection Heq as -> _. by rewrite bool_decide_true in Ha.
  - injection Heq as <- Heq. reflect. destruct (IH b x y) as [-> ->]; done.
Qed.

Lemma pretty_go_plain x : forall s, plain s = true -> plain (pretty_N_go x s) = true.
Proof.
  induction (N.lt_wf_0 x) as [x _ IH]. intros s Hs.
  destruct (decide (x = 0)%N) as [->|Hx]; [done|]. rewrite pretty_N_go_step by lia.
  apply IH; [by apply N.div_lt; lia|]. simpl. rewrite Hs, andb_true_r.
  unfold pretty_N_char. by repeat case_match.
Qed.
Lemma pretty_plain z : 0 <= z -> plain (pretty z) = true.
Proof.
  intros Hz. destruct z as [|p|p]; [done| |lia].
  change (pretty (Z.pos p)) with (pretty_N_go (N.pos p) ""). by apply pretty_go_plain.
Qed.

Lemma append_cancel p : forall a b, p +:+ a = p +:+ b -> a = b.
Proof. induction p as [|c p IH]; simpl; [done|]. intros a b [= ?]. by apply IH. Qed.

Lemma append_assoc a b c : (a +:+ b) +:+ c = a +:+ (b +:+ c).
Proof. induction a as [|x a IH]; [done|]. exact (f_equal (String x) IH). Qed.

Lemma index_text_inj i j : pretty (Z.of_nat i + 1) = pretty (Z.of_nat j + 1) -> i = j.
Proof. intros H%(inj pretty). lia. Qed.

#[global] Instance relation_id_inj : Inj (=) (=) relation_id.
Proof. intros i j H%(append_cancel "rel_"). by apply index_text_inj. Qed.

Lemma child_id_inj infix i j i' j' :
  child_id (relation_id i) (String bar infix) j = child_id (relation_id i') (String bar infix) j' ->
  i = i' /\ j = j'.
Proof.
  unfold child_id, relation_id. rewrite !append_assoc. intros H%(append_cancel "rel_").
  simpl in H. apply plain_cut in H as [Hi Hj]; [|apply pretty_plain; lia..].
  apply append_cancel in Hj. split; by apply index_text_inj.
Qed.

Lemma relation_id_nonblank i : relation_id i <> "".
Proof. done. Qed.
Lemma child_id_nonblank i infix j : child_id (relation_id i) infix j <> "".
Proof. done. Qed.

(** ** Maps filled by index *)

Lemma index_map_lookup {A V} (key : A -> string) (val : nat -> A -> V) l k v :
  NoDup (key <$> l) ->
  foldl (fun m '(i, x) => <[key x := val i x]> m) (∅ : gmap string V) (imap pair l) !! k = Some v <->
  exists i x, l !! i = Some x /\ key x = k /\ v = val i x.
Proof.
  induction l as [|y l IH] using rev_ind; intros Hnd.
  { simpl. rewrite lookup_empty. split; [done|]. intros (i & x & Hx & _). by rewrite lookup_nil in Hx. }
  rewrite fmap_app in Hnd. apply list.NoDup_app in Hnd as (Hnd & Hdis & _).
  rewrite imap_app. simpl. rewrite foldl_snoc, Nat.add_0_r. destruct (decide (key y = k)) as [<-|Hne].
  - rewrite lookup_insert_eq. split.
    + intros [= <-]. exists (length l), y. by rewrite list_lookup_middle.
    + intros (i & x & Hx & Hk & ->). f_equal. apply lookup_app_Some in Hx as [Hx|[Hlen Hx]].
      * exfalso. apply (Hdis (key x)).
        -- apply list_elem_of_fmap. exists x. split; [done|by eapply list_elem_of_lookup_2].
        -- simpl. rewrite Hk. by left.
      * apply list_lookup_singleton_Some in Hx as [Hi <-]. f_equal. lia.
  - rewrite lookup_insert_ne, IH by done. split; intros (i & x & Hx & Hk & ->); exists i, x.
    + split; [|done]. by apply lookup_app_l_Some.
    + split; [|done]. apply lookup_app_Some in Hx as [Hx|[_ Hx]]; [done|].
      apply list_lookup_singleton_Some in Hx as [_ <-]. done.
Qed.

Lemma relation_ids_lookup defs k v :
  NoDup (definition_key <$> defs) ->
  relation_ids defs !! k = Some v <-> exists i d, defs !! i = Some d /\ definition_key d = k /\ v = relation_id i.
Proof. apply (index_map_lookup definition_key (fun i _ => relation_id i)). Qed.
Lemma column_ids_lookup defs k v :
  NoDup (definition_key <$> defs) ->
  column_ids defs !! k = Some v <->
  exists i d, defs !! i = Some d /\ definition_key d = k /\ v = column_ids_of (relation_id i) (rd_Columns d).
Proof. apply (index_map_lookup definition_key (fun i d => column_ids_of (relation_id i) (rd_Columns d))). Qed.
Lemma columns_of_lookup rid cs k v :
  NoDup (cd_Name <$> cs) ->
  column_ids_of rid cs !! k = Some v <->
  exists j c, cs !! j = Some c /\ cd_Name c = k /\ v = child_id rid "_col_" j.
Proof. apply (index_map_lookup cd_Name (fun j _ => child_id rid "_col_" j)). Qed.

(** ** Reading the identities of a snapshot *)

Definition all_columns (rs : list SchemaRelation) : list (SchemaRelation * SchemaColumn) :=
  concat ((fun r => (fun c => (r, c)) <$> elems (sr_Columns r)) <$> rs).
Definition all_foreign_keys (rs : list SchemaRelation) : list (SchemaRelation * SchemaForeignKey) :=
  concat ((fun r => (fun k => (r, k)) <$> elems (sr_ForeignKeys r)) <$> rs).

Lemma column_ids_cons r rs :
  (fun rc => sc_ID rc.2) <$> all_columns (r :: rs) =
  (sc_ID <$> elems (sr_Columns r)) ++ ((fun rc => sc_ID rc.2) <$> all_columns rs).
Proof. unfold all_columns. simpl. rewrite fmap_app, <- list_fmap_compose. done. Qed.

Lemma elem_of_all_columns rs r c : (r, c) ∈ all_columns rs <-> r ∈ rs /\ c ∈ elems (sr_Columns r).
Proof.
  unfold all_columns. rewrite list_elem_of_In, in_concat. split.
  - intros (l & Hl%list_elem_of_In & Hin%list_elem_of_In).
    apply list_elem_of_fmap in Hl as (r' & -> & Hr). apply list_elem_of_fmap in Hin as (c' & [= -> ->] & Hc). done.
  - intros [Hr Hc]. exists ((fun c => (r, c)) <$> elems (sr_Columns r)).
    split; apply list_elem_of_In, list_elem_of_fmap; [by exists r|by exists c].
Qed.

Lemma register_columns rid cs : forall m : column_owners,
  Forall (fun c => sc_ID c <> "") cs -> NoDup (sc_ID <$> cs) -> Forall (fun c => m !! sc_ID c = None) cs ->
  exists m', loop (register_column rid) m cs = Ok m' /\
    forall k v, m' !! k = Some v <-> m !! k = Some v \/ exists c, c ∈ cs /\ sc_ID c = k /\ v = (rid, c).
Proof.
  induction cs as [|c cs IH]; intros m Hb Hnd Hnew; simpl.
  { exists m. split; [done|]. intros k v. split; [auto|]. intros [?|(c & ?%elem_of_nil & _)]; done. }
  apply Forall_cons in Hb as [Hc Hb]. apply Forall_cons in Hnew as [Hn Hnew].
  rewrite fmap_cons, NoDup_cons in Hnd. destruct Hnd as [Hno Hnd].
  unfold register_column at 1. rewrite (bool_decide_false (sc_ID c = "")) by done.
  rewrite (bool_decide_false (is_Some _)) by (by rewrite Hn; intros [? ?]).
  destruct (IH (<[sc_ID c := (rid, c)]> m) Hb Hnd) as (m' & Hm' & Hl).
  { rewrite Forall_forall in *. intros d Hd. rewrite lookup_insert_ne; [by apply Hnew|].
    intros Heq. apply Hno. rewrite Heq. apply list_elem_of_fmap. eauto. }
  exists m'. split; [done|]. intros k v. rewrite Hl, lookup_insert_Some. setoid_rewrite elem_of_cons.
  split.
  - intros [[[<- <-]|[_ ?]]|(d & ? & ? & ?)]; eauto 10.
  - intros [Hk|(d & [->|Hd] & Hk & ->)]; eauto 10.
    left. right. split; [|done]. intros <-. congruence.
Qed.

Lemma register_relations rs : forall (R : gmap string SchemaRelation) (M : column_owners),
  Forall (fun r => sr_ID r <> "") rs -> NoDup (sr_ID <$> rs) -> Forall (fun r => R !! sr_ID r = None) rs ->
  Forall (fun rc => sc_ID rc.2 <> "") (all_columns rs) ->
  NoDup ((fun rc => sc_ID rc.2) <$> all_columns rs) ->
  Forall (fun rc => M !! sc_ID rc.2 = None) (all_columns rs) ->
  exists R' M', loop register_relation (R, M) rs = Ok (R', M') /\
    (forall k r, R' !! k = Some r <-> R !! k = Some r \/ (r ∈ rs /\ sr_ID r = k)) /\
    (forall k v, M' !! k = Some v <-> M !! k = Some v \/
       exists rc, rc ∈ all_columns rs /\ sc_ID rc.2 = k /\ v = (sr_ID rc.1, rc.2)).
Proof.
  induction rs as [|r rs IH]; intros R M Hb Hnd Hnew Hcb Hcnd Hcnew; cbn [loop].
  { exists R, M. split_and!; [done|..]; intros k v; (split; [auto|]).
    - intros [?|[?%elem_of_nil _]]; done.
    - intros [?|(rc & ?%elem_of_nil & _)]; done. }
  apply Forall_cons in Hb as [Hr Hb]. apply Forall_cons in Hnew as [Hn Hnew].
  rewrite fmap_cons, NoDup_cons in Hnd. destruct Hnd as [Hno Hnd].
  rewrite column_ids_cons in Hcnd. apply list.NoDup_app in Hcnd as (Hcnd1 & Hdis & Hcnd).
  unfold all_columns in Hcb, Hcnew. simpl in Hcb, Hcnew.
  apply Forall_app in Hcb as [Hcb1 Hcb], Hcnew as [Hcnew1 Hcnew]. rewrite Forall_fmap in Hcb1, Hcnew1.
  unfold register_relation at 1. rewrite (bool_decide_false (sr_ID r = "")) by done.
  rewrite (bool_decide_false (is_Some _)) by (by rewrite Hn; intros [? ?]).
  destruct (register_columns (sr_ID r) _ M Hcb1 Hcnd1 Hcnew1) as (M1 & -> & HM1).
  destruct (IH (<[sr_ID r := r]> R) M1 Hb Hnd) as (R' & M' & Hl & HR & HM); [|done|done| |].
  { rewrite Forall_forall in *. intros q Hq. rewrite lookup_insert_ne; [by apply Hnew|].
    intros Heq. apply Hno. rewrite Heq. apply list_elem_of_fmap. eauto. }
  { fold (all_columns rs) in *. rewrite Forall_forall in *. intros rc Hrc.
    apply eq_None_not_Some. intros [v [Hv|(c & Hc & Hk & ->)]%HM1]; [by rewrite (Hcnew rc Hrc) in Hv|].
    apply (Hdis (sc_ID c)); [apply list_elem_of_fmap; eauto|]. rewrite Hk. apply list_elem_of_fmap. eauto. }
  exists R', M'. split_and!; [done|..].
  - intros k q. rewrite HR, lookup_insert_Some, elem_of_cons. split.
    + intros [[[<- <-]|[_ ?]]|[? ?]]; auto.
    + intros [Hk|[[->|Hq] <-]]; auto. left. right. split; [|done]. intros <-. congruence.
  - intros k v. rewrite HM, HM1. split.
    + intros [[?|(c & Hc & Hk & ->)]|([q c] & Hrc & Hk & ->)]; [by left|right..].
      * exists (r, c). rewrite elem_of_all_columns, elem_of_cons. auto.
      * exists (q, c). rewrite elem_of_all_columns in *. rewrite elem_of_cons. naive_solver.
    + intros [?|([q c] & Hrc & Hk & ->)]; [by left; left|]. rewrite elem_of_all_columns, elem_of_cons in Hrc.
      destruct Hrc as [[->|Hq] Hc]; [left; right; by exists c|]. right. exists (q, c).
      rewrite elem_of_all_columns. auto.
Qed.

(** ** Resolved definitions *)

Lemma elems_appended {A} (l : list A) : elems (appended l) = l.
Proof. by destruct l. Qed.

Lemma collect_same {A B} (f : A -> result B) l l' :
  Forall2 (fun x y => f x = f y) l l' -> collect f l = collect f l'.
Proof. induction 1 as [|x y l l' Hxy _ IH]; simpl; [done|]. by rewrite Hxy, IH. Qed.

Lemma Forall2_total {A B} (P : A -> B -> Prop) l :
  (forall x, x ∈ l -> exists y, P x y) -> exists ys, Forall2 P l ys.
Proof.
  induction l as [|x l IH]; intros H; [by exists []|].
  destruct (H x) as [y Hy]; [by left|]. destruct IH as [ys Hys]; [intros; apply H; by right|].
  exists (y :: ys). by constructor.
Qed.

Lemma Forall2_imap_pair {A} (P : nat * A -> nat * A -> Prop) l l' :
  length l = length l' ->
  (forall i x y, l !! i = Some x -> l' !! i = Some y -> P (i, x) (i, y)) ->
  Forall2 P (imap pair l) (imap pair l').
Proof.
  intros Hlen H. apply Forall2_same_length_lookup. rewrite !length_imap. split; [done|].
  intros i x y. rewrite !list_lookup_imap, !fmap_Some. intros (a & Ha & ->) (b & Hb & ->). auto.
Qed.

Lemma NoDup_concat {A} (ls : list (list A)) :
  (forall i l, ls !! i = Some l -> NoDup l) ->
  (forall i j l m x, ls !! i = Some l -> ls !! j = Some m -> x ∈ l -> x ∈ m -> i = j) ->
  NoDup (concat ls).
Proof.
  induction ls as [|l ls IH]; intros Hnd Hdis; simpl; [apply NoDup_nil_2|].
  apply list.NoDup_app. split_and!.
  - by apply (Hnd 0%nat).
  - intros x Hx (m & Hm%list_elem_of_In & Hxm%list_elem_of_In)%list_elem_of_In%in_concat.
    apply list_elem_of_lookup in Hm as [j Hj]. by specialize (Hdis 0%nat (S j) l m x eq_refl Hj Hx Hxm).
  - apply IH; [intros i; apply (Hnd (S i))|].
    intros i j a b x Hi Hj Ha Hb. specialize (Hdis (S i) (S j) a b x Hi Hj Ha Hb). lia.
Qed.

Lemma column_ids_concat rs :
  (fun rc => sc_ID rc.2) <$> all_columns rs = concat ((fun r => sc_ID <$> elems (sr_Columns r)) <$> rs).
Proof. induction rs as [|r rs IH]; [done|]. by rewrite column_ids_cons, IH. Qed.
Lemma foreign_key_ids_concat rs :
  (fun rk => sf_ID rk.2) <$> all_foreign_keys rs = concat ((fun r => sf_ID <$> elems (sr_ForeignKeys r)) <$> rs).
Proof.
  induction rs as [|r rs IH]; [done|]. unfold all_foreign_keys in *. simpl.
  rewrite fmap_app, <- list_fmap_compose. f_equal. exact IH.
Qed.

Section resolved.
Context (defs : list RelationDefinition) (rels : list SchemaRelation).
Hypothesis (Hcan : canonical_schema defs).
Hypothesis (Hres : resolveSchemaDefinitions defs = Ok rels).

Definition own (i : nat) (d : RelationDefinition) : gmap string string :=
  column_ids_of (relation_id i) (rd_Columns d).

Lemma def_canonical i d : defs !! i = Some d -> canonical d /\ named d.
Proof using Hcan. intros Hi. apply (Forall_lookup_1 _ _ _ _ (cs_defs _ Hcan) Hi). Qed.

Lemma own_lookup i d : defs !! i = Some d -> default ∅ (column_ids defs !! definition_key d) = own i d.
Proof using Hcan.
  intros Hi. rewrite (proj2 (column_ids_lookup defs _ (own i d) (cs_keys _ Hcan))); [done|]. by exists i, d.
Qed.

(** The relation that index [i] resolves to. *)
Definition resolves (i : nat) (d : RelationDefinition) (r : SchemaRelation) : Prop :=
  exists fks, collect (resolve_foreign_key (relation_ids defs) (column_ids defs) (relation_id i) (own i d))
                (imap pair (rd_ForeignKeys d)) = Ok fks /\
    r = mkSchemaRelation (relation_id i) (rd_Schema d) (rd_Name d) (rd_Kind d) (rd_RowEstimate d)
          (appended (imap (resolve_column (relation_id i)) (rd_Columns d)))
          (if rd_PrimaryKeyName d != "" then relation_id i +:+ "_pk" else "") (rd_PrimaryKeyName d)
          (resolveColumnNames (own i d) (rd_PrimaryKey d)) (appended fks)
          (appended (imap (fun j u => mkSchemaUniqueConstraint (child_id (relation_id i) "_unique_" j) (ud_Name u)
             (resolveColumnNames (own i d) (ud_Columns u))) (rd_UniqueConstraints d)))
          (appended (imap (fun j k => mkSchemaCheckConstraint (child_id (relation_id i) "_check_" j) (kd_Name k)
             (kd_Expression k)) (rd_CheckConstraints d)))
          (appended (imap (fun j x => mkSchemaIndex (child_id (relation_id i) "_index_" j) (xd_Name x)
             (resolveColumnNames (own i d) (xd_Columns x)) (xd_Unique x) (xd_Primary x)
             (xd_Expression x) (xd_Predicate x)) (rd_Indexes d))).

Lemma resolve_relation_resolves i d r :
  defs !! i = Some d ->
  resolve_relation (relation_ids defs) (column_ids defs) (i, d) = Ok r <-> resolves i d r.
Proof using Hcan.
  intros Hi. unfold resolve_relation, resolves. rewrite (own_lookup i d Hi), bind_ok.
  assert ((if rd_PrimaryKeyName d != "" then rd_PrimaryKeyName d else "") = rd_PrimaryKeyName d) as ->.
  { case_bool_decide as H; simpl; [by rewrite H|done]. }
  by setoid_rewrite ok_ok.
Qed.

Lemma resolved_length : length rels = length defs.
Proof using Hres.
  unfold resolveSchemaDefinitions in Hres. apply collect_ok, Forall2_length in Hres.
  by rewrite length_imap in Hres.
Qed.

Lemma resolved_at i d r : defs !! i = Some d -> rels !! i = Some r -> resolves i d r.
Proof using Hcan Hres.
  intros Hi Hr. apply (resolve_relation_resolves i d r Hi).
  unfold resolveSchemaDefinitions in Hres. apply collect_ok in Hres.
  apply (Forall2_lookup_lr _ _ _ i (i, d) r Hres); [|done]. by rewrite list_lookup_imap, Hi.
Qed.

Lemma resolved_relation i r : rels !! i = Some r -> exists d, defs !! i = Some d /\ resolves i d r.
Proof using Hcan Hres.
  intros Hr. destruct (lookup_lt_is_Some_2 defs i) as [d Hd].
  { rewrite <- resolved_length. by eapply lookup_lt_Some. }
  exists d. split; [done|]. by apply resolved_at.
Qed.
Lemma resolved_definition i d : defs !! i = Some d -> exists r, rels !! i = Some r /\ resolves i d r.
Proof using Hcan Hres.
  intros Hd. destruct (lookup_lt_is_Some_2 rels i) as [r Hr].
  { rewrite resolved_length. by eapply lookup_lt_Some. }
  exists r. split; [done|]. by apply resolved_at.
Qed.

Lemma resolves_id i d r : resolves i d r -> sr_ID r = relation_id i.
Proof. by intros (fks & _ & ->). Qed.
Lemma resolves_columns i d r :
  resolves i d r -> elems (sr_Columns r) = imap (resolve_column (relation_id i)) (rd_Columns d).
Proof. intros (fks & _ & ->). apply elems_appended. Qed.

(** A column of the snapshot, by its two indices. *)
Lemma resolved_column r c :
  (r, c) ∈ all_columns rels <->
  exists i j d cd, defs !! i = Some d /\ rels !! i = Some r /\ rd_Columns d !! j = Some cd /\
    c = resolve_column (relation_id i) j cd.
Proof using Hcan Hres.
  rewrite elem_of_all_columns. split.
  - intros [[i Hi]%list_elem_of_lookup Hc]. destruct (resolved_relation i r Hi) as (d & Hd & Hr).
    rewrite (resolves_columns i d r Hr) in Hc. apply list_elem_of_lookup in Hc as [j Hj].
    rewrite list_lookup_imap, fmap_Some in Hj. destruct Hj as (cd & Hcd & ->). by exists i, j, d, cd.
  - intros (i & j & d & cd & Hd & Hr & Hcd & ->). split; [by eapply list_elem_of_lookup_2|].
    rewrite (resolves_columns i d r (resolved_at i d r Hd Hr)). apply list_elem_of_lookup_2 with j.
    by rewrite list_lookup_imap, Hcd.
Qed.

Lemma relations_distinct : NoDup (sr_ID <$> rels).
Proof using Hcan Hres.
  apply NoDup_alt. intros i j x Hi Hj.
  apply list_lookup_fmap_Some in Hi as (r & -> & Hr), Hj as (q & Hq & Hj).
  destruct (resolved_relation i r Hr) as (d & _ & Hd). destruct (resolved_relation j q Hj) as (e & _ & He).
  rewrite (resolves_id _ _ _ Hd), (resolves_id _ _ _ He) in Hq. by apply (inj relation_id).
Qed.

(** Children numbered under each relation have distinct identities. *)
Lemma children_distinct {A} (ids : SchemaRelation -> list string) (part : RelationDefinition -> list A) infix :
  (forall i d r, rels !! i = Some r -> resolves i d r -> defs !! i = Some d ->
     ids r = imap (fun j _ => child_id (relation_id i) (String bar infix) j) (part d)) ->
  NoDup (concat (ids <$> rels)).
Proof using Hcan Hres.
  intros Hids. apply NoDup_concat.
  - intros i l Hl. apply list_lookup_fmap_Some in Hl as (r & -> & Hr).
    destruct (resolved_relation i r Hr) as (d & Hd & Hdr). rewrite (Hids i d r Hr Hdr Hd).
    apply NoDup_alt. intros a b x Ha Hb. rewrite list_lookup_imap, fmap_Some in Ha, Hb.
    destruct Ha as (? & _ & ->), Hb as (? & _ & [_ Hab]%child_id_inj). done.
  - intros i j l m x Hl Hm Hx Hx'.
    apply list_lookup_fmap_Some in Hl as (r & -> & Hr), Hm as (q & -> & Hq).
    destruct (resolved_relation i r Hr) as (d & Hd & Hdr). destruct (resolved_relation j q Hq) as (e & He & Heq).
    rewrite (Hids i d r Hr Hdr Hd) in Hx. rewrite (Hids j e q Hq Heq He) in Hx'.
    apply list_elem_of_lookup in Hx as [a Ha], Hx' as [b Hb]. rewrite list_lookup_imap, fmap_Some in Ha, Hb.
    destruct Ha as (? & _ & ->), Hb as (? & _ & [Hij _]%child_id_inj). done.
Qed.

Lemma fmap_imap_const {A B C} (f : B -> C) (g : nat -> A -> B) (h : nat -> A -> C) l :
  (forall i x, f (g i x) = h i x) -> f <$> imap g l = imap h l.
Proof. intros H. rewrite fmap_imap. apply imap_ext. intros i x _. apply H. Qed.

Lemma columns_distinct : NoDup ((fun rc => sc_ID rc.2) <$> all_columns rels).
Proof using Hcan Hres.
  rewrite column_ids_concat. apply (children_distinct _ rd_Columns "col_").
  intros i d r _ Hr _. rewrite (resolves_columns i d r Hr). by apply fmap_imap_const.
Qed.

(** The foreign keys of a resolved relation, in order. *)
Lemma resolves_foreign_keys i d r :
  resolves i d r ->
  Forall2 (fun k sk => resolve_foreign_key (relation_ids defs) (column_ids defs) (relation_id i) (own i d) k = Ok sk)
    (imap pair (rd_ForeignKeys d)) (elems (sr_ForeignKeys r)).
Proof. intros (fks & Hfks & ->). simpl. rewrite elems_appended. by apply collect_ok. Qed.

Lemma resolve_foreign_key_id id own j k sk :
  resolve_foreign_key (relation_ids defs) (column_ids defs) id own (j, k) = Ok sk -> sf_ID sk = child_id id "_fk_" j.
Proof.
  unfold resolve_foreign_key. destruct (relation_ids defs !! _); [|done].
  rewrite check_ok, ok_ok. by intros [_ ->].
Qed.

Lemma foreign_keys_distinct : NoDup ((fun rk => sf_ID rk.2) <$> all_foreign_keys rels).
Proof using Hcan Hres.
  rewrite foreign_key_ids_concat. apply (children_distinct _ rd_ForeignKeys "fk_").
  intros i d r _ Hr _. apply resolves_foreign_keys in Hr. apply list_eq. intros j.
  rewrite list_lookup_fmap, list_lookup_imap.
  destruct (rd_ForeignKeys d !! j) as [k|] eqn:Hk.
  - destruct (Forall2_lookup_l _ _ _ j (j, k) Hr) as (sk & Hsk & Hres').
    { by rewrite list_lookup_imap, Hk. }
    rewrite Hsk. simpl. f_equal. exact (resolve_foreign_key_id _ _ _ _ _ Hres').
  - rewrite lookup_ge_None in Hk. rewrite (proj2 (lookup_ge_None _ _)); [done|].
    apply Forall2_length in Hr. rewrite length_imap in Hr. lia.
Qed.

(** ** Reading the definitions back *)

Lemma registered :
  exists R M, loop register_relation (∅, ∅) rels = Ok (R, M) /\
    (forall k r, R !! k = Some r <-> r ∈ rels /\ sr_ID r = k) /\
    (forall k v, M !! k = Some v <-> exists rc, rc ∈ all_columns rels /\ sc_ID rc.2 = k /\ v = (sr_ID rc.1, rc.2)).
Proof using Hcan Hres.
  destruct (register_relations rels ∅ ∅) as (R & M & Hl & HR & HM).
  - apply Forall_forall. intros r [i Hi]%list_elem_of_lookup.
    destruct (resolved_relation i r Hi) as (d & _ & Hd). by rewrite (resolves_id _ _ _ Hd).
  - apply relations_distinct.
  - apply Forall_true. intros. apply lookup_empty.
  - apply Forall_forall. intros [r c] (i & j & d & cd & _ & _ & _ & ->)%resolved_column. done.
  - apply columns_distinct.
  - apply Forall_true. intros. apply lookup_empty.
  - exists R, M. split_and!; [done|..].
    + intros k r. rewrite HR, lookup_empty. naive_solver.
    + intros k v. rewrite HM, lookup_empty. naive_solver.
Qed.

Definition retarget (k : ForeignKeyDefinition) (target : RelationDefinition) : ForeignKeyDefinition :=
  mkForeignKeyDefinition (fd_Name k) (fd_Columns k) (rd_Schema target) (rd_Name target)
    (fd_ReferencedColumns k) (fd_MatchType k) (fd_OnUpdate k) (fd_OnDelete k) (fd_Deferrable k).
(** The same foreign key, its target spelled as the target spells itself. *)
Definition retargeted (k k' : ForeignKeyDefinition) : Prop :=
  exists target, target ∈ defs /\
    definition_key target = relationDefinitionKey (fd_ReferencedSchema k) (fd_ReferencedRelation k) /\
    k' = retarget k target.
Definition with_foreign_keys (d : RelationDefinition) (fks : list ForeignKeyDefinition) : RelationDefinition :=
  mkRelationDefinition (rd_Schema d) (rd_Name d) (rd_Kind d) (rd_RowEstimate d) (rd_Columns d)
    (rd_PrimaryKeyName d) (rd_PrimaryKey d) fks (rd_UniqueConstraints d) (rd_CheckConstraints d) (rd_Indexes d).
Definition redefined (d d' : RelationDefinition) : Prop :=
  exists fks, Forall2 retargeted (rd_ForeignKeys d) fks /\ d' = with_foreign_keys d fks.

Section registered.
Context (R : gmap string SchemaRelation) (M : column_owners).
Hypothesis (HR : forall k r, R !! k = Some r <-> r ∈ rels /\ sr_ID r = k).
Hypothesis (HM : forall k v, M !! k = Some v <->
  exists rc, rc ∈ all_columns rels /\ sc_ID rc.2 = k /\ v = (sr_ID rc.1, rc.2)).

Lemma names_back i d names :
  defs !! i = Some d -> Forall (fun n => n ∈ column_names (rd_Columns d)) names ->
  snapshotColumnNames (relation_id i) (elems (resolveColumnNames (own i d) names)) M = Ok names.
Proof using Hcan Hres HM.
  intros Hi Hn. apply collect_ok. unfold elems, resolveColumnNames. simpl.
  apply Forall2_fmap_l, Forall2_fixed. eapply Forall_impl; [exact Hn|]. simpl. intros n Hin.
  apply elem_of_list_to_set, list_elem_of_fmap in Hin as (c & -> & [j Hj]%list_elem_of_lookup).
  destruct (def_canonical i d Hi) as [Hc _].
  unfold own. rewrite (proj2 (columns_of_lookup (relation_id i) (rd_Columns d) (cd_Name c)
    (child_id (relation_id i) "_col_" j) (can_names _ Hc))) by (by exists j, c). simpl.
  destruct (resolved_definition i d Hi) as (r & Hr & Hdr).
  unfold snapshot_column_name.
  rewrite (proj2 (HM _ (sr_ID r, resolve_column (relation_id i) j c))).
  - rewrite (resolves_id _ _ _ Hdr), bool_decide_true by done. done.
  - exists (r, resolve_column (relation_id i) j c). split; [|done].
    apply resolved_column. by exists i, j, d, c.
Qed.

(** Columns that pass the validation of a canonical list are known. *)
Lemma validated_known names (columns : gset string) allowEmpty :
  normalizeNames names = names -> validateColumnNames names columns allowEmpty = Ok tt ->
  Forall (fun n => n ∈ columns) names.
Proof. intros Hn (_ & _ & H)%validate_names_ok. by rewrite Hn in H. Qed.

Lemma target_columns t td :
  defs !! t = Some td -> dom (own t td) = column_names (rd_Columns td).
Proof using Hcan.
  intros Ht. destruct (def_canonical t td Ht) as [Hc _]. apply set_eq. intros n.
  rewrite elem_of_dom. unfold column_names. rewrite elem_of_list_to_set, list_elem_of_fmap. split.
  - intros [v (j & c & Hj & <- & _)%(columns_of_lookup _ _ _ _ (can_names _ Hc))].
    exists c. split; [done|by eapply list_elem_of_lookup_2].
  - intros (c & -> & [j Hj]%list_elem_of_lookup). exists (child_id (relation_id t) "_col_" j).
    apply (columns_of_lookup _ _ _ _ (can_names _ Hc)). by exists j, c.
Qed.

(** What a resolved foreign key refers to. *)
Lemma foreign_key_target i d j k sk :
  resolve_foreign_key (relation_ids defs) (column_ids defs) (relation_id i) (own i d) (j, k) = Ok sk ->
  exists t td, defs !! t = Some td /\
    definition_key td = relationDefinitionKey (fd_ReferencedSchema k) (fd_ReferencedRelation k) /\
    validateColumnNames (fd_ReferencedColumns k) (column_names (rd_Columns td)) false = Ok tt /\
    sk = mkSchemaForeignKey (child_id (relation_id i) "_fk_" j) (fd_Name k)
          (resolveColumnNames (own i d) (fd_Columns k)) (relation_id t)
          (resolveColumnNames (own t td) (fd_ReferencedColumns k))
          (fd_MatchType k) (fd_OnUpdate k) (fd_OnDelete k) (fd_Deferrable k).
Proof using Hcan.
  unfold resolve_foreign_key. destruct (relation_ids defs !! _) as [rid|] eqn:Hrid; [|done].
  apply (relation_ids_lookup defs _ _ (cs_keys _ Hcan)) in Hrid as (t & td & Ht & Hkey & ->).
  rewrite <- Hkey, (own_lookup t td Ht), (target_columns t td Ht), check_ok, ok_ok.
  intros [Hv ->]. by exists t, td.
Qed.

Lemma foreign_key_back i d j k sk :
  defs !! i = Some d -> rd_ForeignKeys d !! j = Some k ->
  resolve_foreign_key (relation_ids defs) (column_ids defs) (relation_id i) (own i d) (j, k) = Ok sk ->
  exists k', retargeted k k' /\ foreign_key_definition R M (relation_id i) sk = Ok k'.
Proof using Hcan Hres HR HM.
  intros Hi Hj (t & td & Ht & Hkey & Hv & ->)%foreign_key_target.
  destruct (def_canonical i d Hi) as [Hc _].
  destruct (Forall_lookup_1 _ _ _ _ (can_fks _ Hc) Hj) as [[_ Hcols] Hnorm].
  destruct (resolved_definition t td Ht) as (tr & Htr & Hrt).
  exists (retarget k td). split; [exists td; split_and!; [by eapply list_elem_of_lookup_2|done..]|].
  unfold foreign_key_definition. cbn [sf_ReferencedRelationID sf_ColumnIDs sf_ReferencedColumnIDs].
  rewrite (proj2 (HR (relation_id t) tr)).
  - rewrite (names_back i d), (resolves_id _ _ _ Hrt), (names_back t td); try done.
    + destruct Hrt as (fks & _ & ->). done.
    + apply validated_known in Hv; [done|]. by rewrite <- Hnorm at 2.
    + apply validated_known in Hcols; [done|]. by rewrite <- Hnorm at 2.
  - split; [by eapply list_elem_of_lookup_2|by apply (resolves_id t td)].
Qed.

(** Parts that only hold column names come back unchanged. *)
Lemma parts_back {A B} (read : B -> result A) (write : nat -> A -> B) (l : list A) :
  (forall j x, l !! j = Some x -> read (write j x) = Ok x) -> collect read (imap write l) = Ok l.
Proof.
  intros H. apply collect_ok, Forall2_same_length_lookup. rewrite length_imap. split; [done|].
  intros j y x. rewrite list_lookup_imap, fmap_Some. intros (x' & Hx' & ->) Hx. simplify_eq. by apply H.
Qed.

Lemma imap_same {A} (l : list A) : imap (fun _ x => x) l = l.
Proof. exact (eq_trans (imap_const id l) (list_fmap_id l)). Qed.

Lemma column_back id j c :
  column_definition (resolve_column id j c) = c.
Proof. destruct c. unfold column_definition. simpl. by rewrite elems_appended. Qed.

Lemma relation_back i d r :
  defs !! i = Some d -> rels !! i = Some r -> resolves i d r ->
  exists d', redefined d d' /\ relation_definition R M r = Ok d'.
Proof using Hcan Hres HR HM.
  intros Hi Hr Hdr. pose proof (resolves_foreign_keys i d r Hdr) as Hfks.
  destruct (def_canonical i d Hi) as [Hc _].
  destruct (Forall2_total (fun sk k' => foreign_key_definition R M (relation_id i) sk = Ok k')
    (elems (sr_ForeignKeys r))) as (fks' & Hfks').
  { intros sk [j Hj]%list_elem_of_lookup. destruct (Forall2_lookup_r _ _ _ _ _ Hfks Hj) as ([j' k] & Hk & Hsk).
    rewrite list_lookup_imap, fmap_Some in Hk. destruct Hk as (k' & Hk & [= -> ->]).
    destruct (foreign_key_back i d j k' sk Hi Hk Hsk) as (k2 & _ & ?). eauto. }
  exists (with_foreign_keys d fks'). split.
  { exists fks'. split; [|done]. apply Forall2_same_length_lookup. split.
    - apply Forall2_length in Hfks, Hfks'. rewrite length_imap in Hfks. congruence.
    - intros j k k' Hk Hk'. destruct (Forall2_lookup_r _ _ _ _ _ Hfks' Hk') as (sk & Hsk & Hdef).
      assert (imap pair (rd_ForeignKeys d) !! j = Some (j, k)) as Hp by (by rewrite list_lookup_imap, Hk).
      pose proof (Forall2_lookup_lr _ _ _ _ _ _ Hfks Hp Hsk) as Hres'.
      destruct (foreign_key_back i d j k sk Hi Hk Hres') as (k2 & Hre & Hk2). simplify_eq. congruence. }
  apply collect_ok in Hfks'. pose proof (resolves_id i d r Hdr) as Hid.
  pose proof (resolves_columns i d r Hdr) as Hcs. unfold relation_definition. rewrite Hid, Hfks', Hcs.
  destruct Hdr as (fks & _ & ->).
  cbn [sr_PrimaryKey sr_UniqueConstraints sr_CheckConstraints sr_Indexes sr_Schema sr_Name sr_Kind sr_RowEstimate
       sr_PrimaryKeyName]. rewrite !elems_appended.
  pose proof (can_pk _ Hc) as Hpk. unfold validatePrimaryKeyDefinition in Hpk.
  apply check_ok in Hpk as (Hpkn & Hpk). rewrite !reject_ok, ok_ok in Hpk. destruct Hpk as (_ & _ & [= _ Hpkc]).
  rewrite (names_back i d _ Hi) by (by eapply validated_known).
  rewrite (parts_back _ (fun j u => mkSchemaUniqueConstraint (child_id (relation_id i) "_unique_" j) (ud_Name u)
             (resolveColumnNames (own i d) (ud_Columns u)))); [|].
  - rewrite (parts_back _ (fun j x => mkSchemaIndex (child_id (relation_id i) "_index_" j) (xd_Name x)
             (resolveColumnNames (own i d) (xd_Columns x)) (xd_Unique x) (xd_Primary x)
             (xd_Expression x) (xd_Predicate x))); [|].
    + f_equal. unfold with_foreign_keys. f_equal.
      * rewrite (fmap_imap_const _ _ (fun _ c => c)) by (intros; apply column_back). apply imap_same.
      * rewrite (fmap_imap_const _ _ (fun _ k => k)) by (by intros ? []). apply imap_same.
    + intros j x Hx. cbn [sx_ColumnIDs]. destruct (Forall_lookup_1 _ _ _ _ (can_indexes _ Hc) Hx) as [(_ & Hv & _) Hn].
      rewrite (names_back i d _ Hi); [by destruct x|]. eapply validated_known; [|exact Hv]. by rewrite <- Hn at 2.
  - intros j u Hu. cbn [su_ColumnIDs]. destruct (Forall_lookup_1 _ _ _ _ (can_uniques _ Hc) Hu) as [[_ Hv] Hn].
    rewrite (names_back i d _ Hi); [by destruct u|]. eapply validated_known; [|exact Hv]. by rewrite <- Hn at 2.
Qed.
End registered.

Lemma definitions_back s :
  ss_Relations s = Some rels -> exists defs', definitionsFromSnapshot s = Ok defs' /\ Forall2 redefined defs defs'.
Proof using Hcan Hres.
  intros Hs. destruct registered as (R & M & Hl & HR & HM).
  unfold definitionsFromSnapshot. rewrite Hs. cbn [elems default from_option id]. rewrite Hl. simpl.
  destruct (Forall2_total (fun r d' => relation_definition R M r = Ok d') rels) as (defs' & Hd).
  { intros r [i Hi]%list_elem_of_lookup. destruct (resolved_relation i r Hi) as (d & Hdi & Hdr).
    destruct (relation_back R M HR HM i d r Hdi Hi Hdr) as (d' & _ & ?). eauto. }
  exists defs'. split; [by apply collect_ok|]. apply Forall2_same_length_lookup. split.
  - apply Forall2_length in Hd. by rewrite <- Hd, resolved_length.
  - intros i d d' Hi Hi'. destruct (Forall2_lookup_r _ _ _ _ _ Hd Hi') as (r & Hr & Hrd).
    destruct (relation_back R M HR HM i d r Hi Hr (resolved_at i d r Hi Hr)) as (d2 & Hre & Hd2). congruence.
Qed.
End resolved.

(** ** The definitions read back are canonical and resolve alike *)

Lemma retargeted_ok defs columns k k' :
  Forall (fun d => canonical d /\ named d) defs -> retargeted defs k k' ->
  fk_ok columns k /\ norm_fk k = k -> fk_ok columns k' /\ norm_fk k' = k'.
Proof.
  intros Hdefs (td & Htd & _ & ->) [[Hg Hv] Hn]. rewrite Forall_forall in Hdefs.
  destruct (Hdefs td Htd) as [_ (Hnd & _ & Hts & Htn)]. split.
  - split; [|done]. simpl. rewrite !contains_nul_app in *. reflect.
    rewrite !orb_false_iff, !bool_decide_eq_false, negb_false_iff. split_and!; done.
  - unfold norm_fk, retarget in *. simpl. rewrite Hts, Htn. destruct k. simpl in *.
    injection Hn as H1 H2 _ _ H3 H4 H5 H6. congruence.
Qed.

Lemma redefined_fields defs d d' :
  redefined defs d d' ->
  definition_key d' = definition_key d /\ rd_Columns d' = rd_Columns d /\
  fd_Name <$> rd_ForeignKeys d' = fd_Name <$> rd_ForeignKeys d.
Proof.
  intros (fks & Hf & ->). split_and!; [done..|]. simpl.
  induction Hf as [|k k' l l' (td & _ & _ & ->) _ IH]; [done|]. by rewrite !fmap_cons, IH.
Qed.

Lemma redefined_canonical defs d d' :
  Forall (fun d => canonical d /\ named d) defs -> redefined defs d d' ->
  canonical d /\ named d -> canonical d' /\ named d'.
Proof.
  intros Hdefs Hre. destruct (redefined_fields defs d d' Hre) as (_ & _ & Hnames).
  destruct Hre as (fks & Hf & ->). simpl in Hnames.
  intros [[Hne Hso Hcs Hn Ho Hpk Hfk Hu Hc Hx Hm Sf Su Sk Sx] Hnamed]. split; [|done].
  constructor; simpl; try done.
  - clear -Hdefs Hf Hfk. induction Hf as [|k k' l l' Hk _ IH]; [constructor|].
    apply Forall_cons in Hfk as [? ?]. constructor; [by eapply retargeted_ok|by apply IH].
  - unfold metadata_keys, pk_keys in *. simpl. rewrite (list_fmap_compose fd_Name constraint_key fks), Hnames.
    by rewrite <- list_fmap_compose.
  - by apply (sorted_fmap (fun a b => str_lt b a = false) fd_Name fd_Name (rd_ForeignKeys d)).
Qed.

Lemma redefined_keys ds l l' :
  Forall2 (redefined ds) l l' -> definition_key <$> l' = definition_key <$> l /\ sum_columns l' = sum_columns l.
Proof.
  induction 1 as [|d d' l l' Hd _ [IH1 IH2]]; [done|]. rewrite !fmap_cons, IH1. simpl. rewrite IH2.
  by destruct (redefined_fields _ _ _ Hd) as (-> & -> & _).
Qed.

Section read_back.
Context (defs defs' : list RelationDefinition) (rels : list SchemaRelation).
Hypothesis (Hcan : canonical_schema defs).
Hypothesis (Hre : Forall2 (redefined defs) defs defs').

Lemma redefined_schema : canonical_schema defs'.
Proof using Hcan Hre.
  destruct Hcan as [Hne Hd Hk Hs Hb], (redefined_keys _ _ _ Hre) as [Hkeys Hsum]. constructor.
  - intros ->. apply Forall2_nil_inv_r in Hre. done.
  - apply Forall_lookup. intros i d' Hd'. destruct (Forall2_lookup_r _ _ _ _ _ Hre Hd') as (d & Hdi & Hdd).
    apply (redefined_canonical defs d d' Hd Hdd). by apply (Forall_lookup_1 _ _ _ _ Hd Hdi).
  - by rewrite Hkeys.
  - by apply (sorted_fmap (fun a b => str_lt b a = false) definition_key definition_key defs).
  - by rewrite Hsum.
Qed.

(** The maps of identities only depend on keys and columns. *)
Lemma redefined_lookup i d : defs !! i = Some d -> exists d', defs' !! i = Some d' /\ redefined defs d d'.
Proof using Hre. apply (Forall2_lookup_l _ _ _ _ _ Hre). Qed.
Lemma redefined_lookup_r i d' : defs' !! i = Some d' -> exists d, defs !! i = Some d /\ redefined defs d d'.
Proof using Hre. apply (Forall2_lookup_r _ _ _ _ _ Hre). Qed.

Lemma redefined_relation_ids : relation_ids defs' = relation_ids defs.
Proof using Hcan Hre.
  apply map_eq. intros k. apply option_eq. intros v.
  rewrite (relation_ids_lookup defs' _ _ (cs_keys _ redefined_schema)), (relation_ids_lookup defs _ _ (cs_keys _ Hcan)).
  split; intros (i & d & Hd & <- & ->).
  - destruct (redefined_lookup_r i d Hd) as (e & He & (Hk & _)%redefined_fields). by exists i, e.
  - destruct (redefined_lookup i d Hd) as (e & He & (Hk & _)%redefined_fields). by exists i, e.
Qed.
Lemma redefined_column_ids : column_ids defs' = column_ids defs.
Proof using Hcan Hre.
  apply map_eq. intros k. apply option_eq. intros v.
  rewrite (column_ids_lookup defs' _ _ (cs_keys _ redefined_schema)), (column_ids_lookup defs _ _ (cs_keys _ Hcan)).
  split; intros (i & d & Hd & <- & ->).
  - destruct (redefined_lookup_r i d Hd) as (e & He & (Hk & Hc & _)%redefined_fields).
    exists i, e. rewrite Hc. done.
  - destruct (redefined_lookup i d Hd) as (e & He & (Hk & Hc & _)%redefined_fields).
    exists i, e. rewrite Hc. done.
Qed.

Lemma redefined_resolves : resolveSchemaDefinitions defs' = resolveSchemaDefinitions defs.
Proof using Hcan Hre.
  unfold resolveSchemaDefinitions. rewrite redefined_relation_ids, redefined_column_ids.
  apply collect_same, Forall2_imap_pair; [by apply Forall2_length in Hre|].
  intros i d' d Hd' Hd. pose proof (Forall2_lookup_lr _ _ _ _ _ _ Hre Hd Hd') as Hdd.
  destruct (redefined_fields _ _ _ Hdd) as (Hk & _ & _). destruct Hdd as (fks & Hf & ->).
  unfold resolve_relation. rewrite Hk. cbn [rd_ForeignKeys with_foreign_keys].
  rewrite (collect_same _ (imap pair fks) (imap pair (rd_ForeignKeys d))); [done|].
  apply Forall2_imap_pair; [by apply Forall2_length in Hf|]. intros j k' k Hk' Hkk.
  destruct (Forall2_lookup_lr _ _ _ _ _ _ Hf Hkk Hk') as (td & _ & Htk & ->).
  unfold resolve_foreign_key. cbn [retarget fd_ReferencedSchema fd_ReferencedRelation].
  change (relationDefinitionKey (rd_Schema td) (rd_Name td)) with (definition_key td). by rewrite Htk.
Qed.
End read_back.

(** ** The integrity check *)

Lemma contains_nul_trim s : contains_nul s = false -> contains_nul (trim_space s) = false.
Proof.
  unfold contains_nul, contains_any, trim_space. rewrite String.list_ascii_of_string_of_list_ascii.
  set (l := String.list_ascii_of_string s). intros Hl.
  destruct (scan_spec trim_left starts_space trim_left_step l) as [_ [p Hp]].
  destruct (scan_spec trim_right_rev ends_space trim_right_step (reverse (trim_left l))) as [_ [q Hq]].
  assert (trim_left l = reverse (trim_right_rev (reverse (trim_left l))) ++ reverse q) as Hr.
  { by rewrite <- reverse_app, <- Hq, reverse_involutive. }
  rewrite Hp, existsb_app, Hr, existsb_app in Hl. by reflect.
Qed.

Lemma built_canonical sourceID sourceName definitions capturedAt s :
  NewSchemaSnapshot sourceID sourceName definitions capturedAt = Ok s ->
  exists defs rels, canonical_schema defs /\ resolveSchemaDefinitions defs = Ok rels /\
    ss_Relations s = Some rels.
Proof.
  unfold NewSchemaSnapshot. rewrite !reject_ok, bind_ok.
  intros (_ & _ & _ & defs & Hdefs & (rels & Hrels & ->%ok_ok)%bind_ok).
  exists defs, rels. split_and!; try done. by apply canonicalize_schema in Hdefs.
Qed.

Lemma built_valid sourceID sourceName definitions capturedAt s :
  NewSchemaSnapshot sourceID sourceName definitions capturedAt = Ok s -> ValidateIntegrity s = Ok tt.
Proof.
  intros Hnew. destruct (built_canonical _ _ _ _ _ Hnew) as (defs & rels & Hcan & Hrels & Hs).
  destruct (definitions_back defs rels Hcan Hrels s Hs) as (defs' & Hback & Hre).
  unfold NewSchemaSnapshot in Hnew. rewrite !reject_ok, bind_ok in Hnew.
  destruct Hnew as (Hid & Hname & Hat & _ & _ & (rels' & _ & [= <-])%bind_ok).
  injection Hs as ->.
  unfold ValidateIntegrity. rewrite Hback. cbn [ss_Schema ss_Driver ss_SourceID ss_SourceName ss_CapturedAt in_Nanoseconds in_UTC].
  apply orb_false_iff in Hid as [Hid Hidn], Hname as [Hname Hnamen].
  unfold blank in *. reflect. rewrite trim_space_idemp, (proj2 (Z.eqb_neq _ _) Hat).
  rewrite (bool_decide_true (SchemaSnapshotV1 = _)), (bool_decide_true (DriverPostgres = _)),
    (bool_decide_true (trim_space sourceName = trim_space sourceName)) by done.
  rewrite (bool_decide_false (trim_space sourceID = _)), (bool_decide_false (trim_space sourceName = _)) by done.
  cbn [negb orb].
  assert (NewSchemaSnapshot (trim_space sourceID) (trim_space sourceName) defs'
    (mkInstant (in_Nanoseconds capturedAt) true) =
    Ok (mkSnapshot SchemaSnapshotV1 (trim_space sourceID) (trim_space sourceName) DriverPostgres
          (mkInstant (in_Nanoseconds capturedAt) true) (Some rels))) as ->.
  { unfold NewSchemaSnapshot, blank. rewrite !trim_space_idemp, !bool_decide_false by done.
    rewrite Hidn, (contains_nul_trim sourceName) by done. cbn [orb in_Nanoseconds].
    rewrite (proj2 (Z.eqb_neq _ _) Hat), (canonical_schema_fixed defs' (redefined_schema _ _ Hcan Hre)).
    by rewrite (redefined_resolves _ _ Hcan Hre), Hrels. }
  by rewrite bool_decide_true by done.
Qed.

(** C34: the integrity check is exact. A snapshot passes [ValidateIntegrity] if
    and only if [NewSchemaSnapshot] returns it for some source and definitions:
    every snapshot that is built validates, and nothing else does. *)
Theorem integrity_exact s :
  ValidateIntegrity s = Ok tt <->
  exists sourceID sourceName definitions capturedAt,
    NewSchemaSnapshot sourceID sourceName definitions capturedAt = Ok s.
Proof.
  split.
  - unfold ValidateIntegrity. rewrite !reject_ok, bind_ok. intros (_ & _ & defs & _ & H).
    destruct (NewSchemaSnapshot _ _ defs _) as [t|] eqn:Hnew; [|done].
    apply reject_ok in H as [Heq _]. reflect. subst t. eauto 10.
  - intros (sourceID & sourceName & definitions & capturedAt & Hnew). by eapply built_valid.
Qed.

(** ** References *)

Lemma find_by_key {A} (key : A -> string) l x :
  NoDup (key <$> l) -> x ∈ l -> exists i, list_find (fun y => key y = key x) l = Some (i, x).
Proof.
  intros Hnd [i Hi]%list_elem_of_lookup. exists i. apply list_find_Some. split_and!; [done..|].
  intros j y Hy Hj Heq. assert (j = i); [|lia].
  eapply (NoDup_lookup (key <$> l)); [done|by rewrite list_lookup_fmap, Hy|]. by rewrite list_lookup_fmap, Hi, Heq.
Qed.

Section references.
Context (s : SchemaSnapshot) (defs : list RelationDefinition) (rels : list SchemaRelation).
Hypothesis (Hcan : canonical_schema defs) (Hres : resolveSchemaDefinitions defs = Ok rels).
Hypothesis (Hs : ss_Relations s = Some rels).

Lemma relation_found r : r ∈ rels -> Relation s (sr_ID r) = Ok r.
Proof using Hcan Hres Hs.
  intros Hr. unfold Relation. rewrite Hs. cbn [elems default from_option id].
  by destruct (find_by_key sr_ID rels r (relations_distinct _ _ Hcan Hres) Hr) as [i ->].
Qed.
Lemma column_found rc : rc ∈ all_columns rels -> Column s (sc_ID rc.2) = Ok rc.
Proof using Hcan Hres Hs.
  intros Hr. unfold Column, snapshot_columns. rewrite Hs. cbn [elems default from_option id].
  change (concat _) with (all_columns rels).
  by destruct (find_by_key (fun rc => sc_ID rc.2) _ rc (columns_distinct _ _ Hcan Hres) Hr) as [i ->].
Qed.

(** The identities that resolved names stand for. *)
Lemma named_columns_found i d r names id :
  defs !! i = Some d -> rels !! i = Some r -> Forall (fun n => n ∈ column_names (rd_Columns d)) names ->
  id ∈ elems (resolveColumnNames (own i d) names) -> exists c, Column s id = Ok (r, c).
Proof using Hcan Hres Hs.
  intros Hi Hr Hn Hid. unfold elems, resolveColumnNames in Hid. simpl in Hid.
  apply list_elem_of_fmap in Hid as (n & -> & Hin). rewrite Forall_forall in Hn. specialize (Hn n Hin).
  apply elem_of_list_to_set, list_elem_of_fmap in Hn as (c & -> & [j Hj]%list_elem_of_lookup).
  destruct (def_canonical defs Hcan i d Hi) as [Hc _].
  unfold own. rewrite (proj2 (columns_of_lookup (relation_id i) (rd_Columns d) (cd_Name c)
    (child_id (relation_id i) "_col_" j) (can_names _ Hc))) by (by exists j, c). simpl.
  exists (resolve_column (relation_id i) j c).
  apply (column_found (r, resolve_column (relation_id i) j c)).
  apply (resolved_column _ _ Hcan Hres). by exists i, j, d, c.
Qed.

Lemma foreign_key_resolves r k :
  r ∈ rels -> k ∈ elems (sr_ForeignKeys r) ->
  exists target, Relation s (sf_ReferencedRelationID k) = Ok target /\
    length (elems (sf_ColumnIDs k)) = length (elems (sf_ReferencedColumnIDs k)) /\
    elems (sf_ColumnIDs k) <> [] /\
    (forall id, id ∈ elems (sf_ColumnIDs k) -> exists c, Column s id = Ok (r, c)) /\
    (forall id, id ∈ elems (sf_ReferencedColumnIDs k) -> exists c, Column s id = Ok (target, c)).
Proof using Hcan Hres Hs.
  intros [i Hi]%list_elem_of_lookup [j Hj]%list_elem_of_lookup.
  destruct (resolved_relation _ _ Hcan Hres i r Hi) as (d & Hd & Hdr).
  destruct (Forall2_lookup_r _ _ _ _ _ (resolves_foreign_keys defs i d r Hdr) Hj) as ([j' kd] & Hk & Hsk).
  rewrite list_lookup_imap, fmap_Some in Hk. destruct Hk as (kd' & Hkd & [= -> ->]).
  destruct (foreign_key_target _ Hcan i d j kd' k Hsk) as (t & td & Ht & Hkey & Hv & ->).
  destruct (def_canonical defs Hcan i d Hd) as [Hc _].
  destruct (Forall_lookup_1 _ _ _ _ (can_fks _ Hc) Hkd) as [[Hg Hcols] Hnorm].
  destruct (resolved_definition _ _ Hcan Hres t td Ht) as (tr & Htr & Hrt).
  cbn [sf_ReferencedRelationID sf_ColumnIDs sf_ReferencedColumnIDs].
  exists tr. split_and!.
  - rewrite <- (resolves_id _ _ _ _ Hrt). apply relation_found. by eapply list_elem_of_lookup_2.
  - unfold elems, resolveColumnNames. simpl. rewrite !length_fmap. reflect. by apply Nat.eqb_eq.
  - apply validate_names_ok in Hcols as (Hne & _ & _). unfold elems, resolveColumnNames. simpl.
    by destruct (fd_Columns kd').
  - intros id. apply (named_columns_found i d r); try done. eapply validated_known; [|exact Hcols].
    by rewrite <- Hnorm at 2.
  - intros id. apply (named_columns_found t td tr); try done. eapply validated_known; [|exact Hv].
    by rewrite <- Hnorm at 2.
Qed.
End references.

Lemma valid_resolved s :
  ValidateIntegrity s = Ok tt ->
  exists defs rels, canonical_schema defs /\ resolveSchemaDefinitions defs = Ok rels /\
    ss_Relations s = Some rels.
Proof.
  unfold ValidateIntegrity. rewrite !reject_ok, bind_ok. intros (_ & _ & ds & _ & H).
  destruct (NewSchemaSnapshot _ _ ds _) as [t|] eqn:Hnew; [|done].
  apply reject_ok in H as [Heq _]. reflect. subst t. by eapply built_canonical.
Qed.

(** in a snapshot that passes the integrity check all identities of
    relations, columns and foreign keys are distinct, and every foreign key
    resolves: its target is a relation of the snapshot, it pairs as many own as
    referenced columns, at least one, and each of them is a column of the right
    relation. *)
Theorem snapshot_references s :
  ValidateIntegrity s = Ok tt ->
  let rels := elems (ss_Relations s) in
  NoDup (sr_ID <$> rels) /\ NoDup ((fun rc => sc_ID rc.2) <$> snapshot_columns s) /\
  NoDup ((fun rk => sf_ID rk.2) <$> all_foreign_keys rels) /\
  forall r k, r ∈ rels -> k ∈ elems (sr_ForeignKeys r) ->
    exists target, Relation s (sf_ReferencedRelationID k) = Ok target /\
      length (elems (sf_ColumnIDs k)) = length (elems (sf_ReferencedColumnIDs k)) /\
      elems (sf_ColumnIDs k) <> [] /\
      (forall id, id ∈ elems (sf_ColumnIDs k) -> exists c, Column s id = Ok (r, c)) /\
      (forall id, id ∈ elems (sf_ReferencedColumnIDs k) -> exists c, Column s id = Ok (target, c)).
Proof.
  intros (defs & rels & Hcan & Hres & Hs)%valid_resolved.
  unfold snapshot_columns. rewrite Hs. cbn [elems default from_option id]. split_and!.
  - by eapply relations_distinct.
  - by eapply (columns_distinct defs).
  - by eapply foreign_keys_distinct.
  - intros r k Hr Hk. by eapply foreign_key_resolves.
Qed.

Lemma snapshot_references_witness :
  NoDup (sr_ID <$> elems (ss_Relations sample_snapshot)) /\
  NoDup ((fun rc => sc_ID rc.2) <$> snapshot_columns sample_snapshot) /\
  NoDup ((fun rk => sf_ID rk.2) <$> all_foreign_keys (elems (ss_Relations sample_snapshot))) /\
  forall r k, r ∈ elems (ss_Relations sample_snapshot) -> k ∈ elems (sr_ForeignKeys r) ->
    exists target, Relation sample_snapshot (sf_ReferencedRelationID k) = Ok target /\
      length (elems (sf_ColumnIDs k)) = length (elems (sf_ReferencedColumnIDs k)) /\
      elems (sf_ColumnIDs k) <> [] /\
      (forall id, id ∈ elems (sf_ColumnIDs k) -> exists c, Column sample_snapshot id = Ok (r, c)) /\
      (forall id, id ∈ elems (sf_ReferencedColumnIDs k) -> exists c, Column sample_snapshot id = Ok (target, c)).
Proof. apply (snapshot_references sample_snapshot). exact sample_valid. Defined.

(** ** Order of the catalog *)

Lemma sort_by_perm_eq {A} (key : A -> string) l l' :
  NoDup (key <$> l) -> l ≡ₚ l' -> sort_by key l = sort_by key l'.
Proof.
  intros Hnd Hp. rewrite <- (sort_by_fixed key (sort_by key l')).
  - apply (StronglySorted_unique_strong (key_le key)).
    + intros x y Hx Hy Hxy Hyx. rewrite sort_by_Permutation in Hx. rewrite !sort_by_Permutation, <- Hp in Hy.
      apply (keys_injective key l); [done..|]. unfold key_le in *. rewrite str_lt_le in *.
      by apply (anti_symm String.le).
    + apply sort_by_sorted.
    + apply sort_by_sorted.
    + by rewrite !sort_by_Permutation.
  - by rewrite sort_by_Permutation, <- Hp.
  - apply sort_by_sorted.
Qed.

(** the snapshot does not depend on the order in which the catalog lists
    the relations. *)
Theorem snapshot_order_independent sourceID sourceName definitions definitions' capturedAt s :
  definitions ≡ₚ definitions' ->
  NewSchemaSnapshot sourceID sourceName definitions capturedAt = Ok s ->
  NewSchemaSnapshot sourceID sourceName definitions' capturedAt = Ok s.
Proof.
  intros Hp. unfold NewSchemaSnapshot. rewrite !reject_ok, !bind_ok.
  intros (H1 & H2 & H3 & defs & Hd & Hs). split_and!; try done. exists defs. split; [|done].
  unfold canonicalizeRelationDefinitions in *. rewrite !reject_ok, !bind_ok, !bool_decide_eq_false in *.
  destruct Hd as (Hne & st & Hl & [= <-]). pose proof Hl as (ds & H4 & Hnd & _)%relation_loop.
  assert (definition_key <$> sort_by definition_key definitions = definition_key <$> ds) as Hkeys.
  { clear -H4. induction H4 as [|d d' l l' Hd _ IH]; [done|].
    by rewrite !fmap_cons, IH, (canonicalizes_key d d' Hd). }
  rewrite <- Hkeys in Hnd. rewrite sort_by_Permutation in Hnd.
  split; [intros ->; by apply Permutation_nil_r in Hp|]. exists st. split; [|done].
  by rewrite <- (sort_by_perm_eq definition_key definitions definitions' Hnd Hp).
Qed.

Lemma snapshot_order_independent_witness :
  NewSchemaSnapshot "src-1" "shop" (reverse sample_definitions) (mkInstant 1000 true) = Ok sample_snapshot.
Proof.
  apply (snapshot_order_independent "src-1" "shop" sample_definitions).
  - symmetry. apply reverse_Permutation.
  - vm_compute. reflexivity.
Defined.
