(* ===== verification/JoinPlan.v ===== *)
(** * Foreign-key join planning

    Models [internal/datasource/join_plan.go]: the breadth-first search over the
    foreign-key graph of a snapshot, with its depth and work bounds, and the
    selection among equally short paths. *)
From S2P Require Import Prelude Schema.
From stdpp Require Import sorting base tactics strings list gmap numbers pretty.
From stdpp Require Import list options.
Open Scope Z_scope.
Open Scope go_scope.

Definition MaxJoinDepth : nat := 8.
Definition maxJoinSearchWork : nat := 256.

Definition JoinAlongForeignKey : string := "along_foreign_key".
Definition JoinAgainstForeignKey : string := "against_foreign_key".

Record JoinStep := mkJoinStep {
  js_FromRelationID : string;
  js_ToRelationID : string;
  js_ForeignKeyID : string;
  js_Direction : string
}.
Record JoinPath := mkJoinPath { jp_ID : string; jp_Steps : list JoinStep }.
Record joinEdge := mkJoinEdge {
  je_to : string;
  je_foreignKeyID : string;
  je_direction : string
}.

#[global] Instance JoinStep_eq : EqDecision JoinStep. Proof. solve_decision. Defined.
#[global] Instance JoinPath_eq : EqDecision JoinPath. Proof. solve_decision. Defined.
#[global] Instance joinEdge_eq : EqDecision joinEdge. Proof. solve_decision. Defined.

(** A path, the typed error [AmbiguousJoinPathError] with its candidates, or
    another error. *)
Inductive join_result :=
| Planned (path : JoinPath)
| AmbiguousJoinPath (candidates : list JoinPath)
| JoinError (e : string).

(** ** The graph *)

Definition nul : string := String (byte 0) "".
Definition edge_key (e : joinEdge) : string :=
  je_to e +:+ nul +:+ je_foreignKeyID e +:+ nul +:+ je_direction e.

Definition add_edge (from : string) (e : joinEdge) (graph : gmap string (list joinEdge))
    : gmap string (list joinEdge) :=
  <[from := default [] (graph !! from) ++ [e]]> graph.
Definition add_foreign_key (graph : gmap string (list joinEdge)) (rfk : string * SchemaForeignKey)
    : gmap string (list joinEdge) :=
  let '(relationID, fk) := rfk in
  let graph := add_edge relationID
    (mkJoinEdge (sf_ReferencedRelationID fk) (sf_ID fk) JoinAlongForeignKey) graph in
  add_edge (sf_ReferencedRelationID fk) (mkJoinEdge relationID (sf_ID fk) JoinAgainstForeignKey) graph.

(** The foreign keys of a snapshot in order, each with the relation that owns it. *)
Definition foreign_keys (snapshot : SchemaSnapshot) : list (SchemaRelation * SchemaForeignKey) :=
  concat ((fun r => (fun fk => (r, fk)) <$> elems (sr_ForeignKeys r)) <$> elems (ss_Relations snapshot)).

Definition buildJoinGraph (snapshot : SchemaSnapshot) : gmap string (list joinEdge) :=
  sort_by edge_key <$>
    foldl add_foreign_key ∅ ((fun rfk => (sr_ID rfk.1, rfk.2)) <$> foreign_keys snapshot).

Definition findForeignKey (snapshot : SchemaSnapshot) (foreignKeyID : string)
    : result (SchemaRelation * SchemaForeignKey) :=
  match list_find (fun rfk => sf_ID rfk.2 = foreignKeyID) (foreign_keys snapshot) with
  | Some (_, rfk) => Ok rfk
  | None => Err "unknown foreign key ID %q"
  end.

Definition joinPathSignature (steps : list JoinStep) : string :=
  String.concat nul (concat ((fun s =>
    [js_FromRelationID s; js_ToRelationID s; js_ForeignKeyID s; js_Direction s]) <$> steps)).

(** ** The search *)

Record searchPath := mkSearchPath {
  sp_at : string;
  sp_steps : list JoinStep;
  sp_seen : gset string
}.

Record search_state := mkSearchState {
  st_queue : list searchPath;
  st_bestDepth : gmap string nat;
  st_foundDepth : option nat;
  st_found : list (list JoinStep);
  st_work : nat
}.

Definition step_along (at_ : string) (e : joinEdge) : JoinStep :=
  mkJoinStep at_ (je_to e) (je_foreignKeyID e) (je_direction e).

(** The body of the loop over [graph[current.at]]. *)
Definition visit (toRelationID : string) (current : searchPath) (st : search_state) (edge : joinEdge)
    : result search_state :=
  let work := S (st_work st) in
  reject "foreign-key path search exceeded %d bounded steps" when Nat.ltb maxJoinSearchWork work;
  if bool_decide (je_to edge ∈ sp_seen current) then
    Ok (mkSearchState (st_queue st) (st_bestDepth st) (st_foundDepth st) (st_found st) work)
  else
    let steps := sp_steps current ++ [step_along (sp_at current) edge] in
    let depth := length steps in
    if je_to edge == toRelationID then
      let foundDepth := default depth (st_foundDepth st) in
      Ok (mkSearchState (st_queue st) (st_bestDepth st) (Some foundDepth)
            (if Nat.eqb depth foundDepth then st_found st ++ [steps] else st_found st) work)
    else
      let visited := match st_bestDepth st !! je_to edge with
                     | Some prior => Nat.ltb prior depth | None => false end in
      if visited then
        Ok (mkSearchState (st_queue st) (st_bestDepth st) (st_foundDepth st) (st_found st) work)
      else
        Ok (mkSearchState
              (st_queue st ++ [mkSearchPath (je_to edge) steps ({[ je_to edge ]} ∪ sp_seen current)])
              (<[je_to edge := depth]> (st_bestDepth st)) (st_foundDepth st) (st_found st) work).

(** The two [continue] tests before a path is expanded. *)
Definition skipped (st : search_state) (current : searchPath) : bool :=
  (match st_foundDepth st with
   | Some foundDepth => Nat.leb foundDepth (length (sp_steps current))
   | None => false
   end || Nat.leb MaxJoinDepth (length (sp_steps current)))%bool.

(** [for len(queue) > 0]; [None] is running out of fuel. *)
Fixpoint search (graph : gmap string (list joinEdge)) (toRelationID : string) (fuel : nat)
    (st : search_state) : option (result (list (list JoinStep))) :=
  match fuel with
  | O => None
  | S fuel =>
      match st_queue st with
      | [] => Some (Ok (st_found st))
      | current :: queue =>
          let st := mkSearchState queue (st_bestDepth st) (st_foundDepth st) (st_found st) (st_work st) in
          if skipped st current then search graph toRelationID fuel st
          else
            match loop (visit toRelationID current) st (default [] (graph !! sp_at current)) with
            | Err e => Some (Err e)
            | Ok st => search graph toRelationID fuel st
            end
      end
  end.

Definition initial_search (fromRelationID : string) : search_state :=
  mkSearchState [mkSearchPath fromRelationID [] {[ fromRelationID ]}] {[ fromRelationID := O ]} None [] O.

(** Every path in the queue but the first was put there by one unit of work. *)
Definition search_fuel : nat := S (S maxJoinSearchWork).

(** Sorted by signature and numbered from [path_1]. *)
Definition number_paths (found : list (list JoinStep)) : list JoinPath :=
  imap (fun i steps => mkJoinPath ("path_" +:+ pretty (Z.of_nat i + 1)) steps)
    (sort_by joinPathSignature found).

Definition PlanJoinPath (snapshot : SchemaSnapshot) (fromRelationID toRelationID : string) : join_result :=
  match Relation snapshot fromRelationID, Relation snapshot toRelationID with
  | Err e, _ | Ok _, Err e => JoinError e
  | Ok _, Ok _ =>
      if fromRelationID == toRelationID then Planned (mkJoinPath "path_1" [])
      else
        match search (buildJoinGraph snapshot) toRelationID search_fuel (initial_search fromRelationID) with
        | None => JoinError "out of fuel"
        | Some (Err e) => JoinError e
        | Some (Ok found) =>
            match number_paths found with
            | [] => JoinError "no foreign-key path connects relation %q to %q within depth %d"
            | [path] => Planned path
            | candidates => AmbiguousJoinPath candidates
            end
        end
  end.

Definition ResolveJoinPath (snapshot : SchemaSnapshot)
    (fromRelationID toRelationID selectedPathID : string) : join_result :=
  match PlanJoinPath snapshot fromRelationID toRelationID with
  | Planned path =>
      if selectedPathID != "" then
        JoinError "join path selection %q is unnecessary because the path is mechanically unique"
      else Planned path
  | JoinError e => JoinError e
  | AmbiguousJoinPath candidates =>
      if selectedPathID == "" then AmbiguousJoinPath candidates
      else match list_find (fun c => jp_ID c = selectedPathID) candidates with
           | Some (_, candidate) => Planned candidate
           | None => JoinError "join path selection %q is not a current candidate between %q and %q"
           end
  end.
