(* ===== verification/JoinFacts.v ===== *)
(** * Correctness of the join search

    The invariant of the breadth-first search of [JoinPlan], and what it gives
    when the search ends: the paths found are exactly the shortest walks. *)
From S2P Require Import Prelude Schema JoinPlan.
From stdpp Require Import sorting base tactics strings list gmap numbers.
From stdpp Require Import list options.

Section bfs.
Context (adj : string -> list joinEdge) (from to : string).

(** ** Walks from [from] *)

Inductive walk : list JoinStep -> string -> Prop :=
| walk_nil : walk [] from
| walk_snoc ss u e : walk ss u -> e ∈ adj u -> walk (ss ++ [step_along u e]) (je_to e).

(** Walks that do not leave [to]. *)
Inductive awalk : list JoinStep -> string -> Prop :=
| awalk_nil : awalk [] from
| awalk_snoc ss u e :
  awalk ss u -> u <> to -> e ∈ adj u -> awalk (ss ++ [step_along u e]) (je_to e).

Lemma awalk_walk ss v : awalk ss v -> walk ss v.
Proof. induction 1; by constructor. Qed.

Lemma walk_cut ss v :
walk ss v -> awalk ss v \/ exists ss', awalk ss' to /\ (length ss' < length ss)%nat.
Proof.
induction 1 as [|ss u e Hw [IH|(ss' & Hs & Hlt)] He]; [left; constructor| |].
- destruct (decide (u = to)) as [->|Hu].
  + right. exists ss. split; [done|]. rewrite length_app. simpl. lia.
  + left. by constructor.
- right. exists ss'. split; [done|]. rewrite length_app. lia.
Qed.

Lemma awalk_end ss v : awalk ss v -> forall v', awalk ss v' -> v = v'.
Proof.
intros H v' H'. inversion H as [|ss1 u1 e1 ? ? ? E1]; inversion H' as [|ss2 u2 e2 ? ? ? E2]; subst; try done;
  try (by destruct ss1); try (by destruct ss2).
apply app_inj_tail in E2 as [_ E2]. unfold step_along in E2. congruence.
Qed.

(** ** The invariant *)

Abbreviation depth r := (length (sp_steps r)).
Abbreviation extended r e := (sp_steps r ++ [step_along (sp_at r) e]).

(** [P] are the dequeued paths, [Q] the queue, [D] the expansions done, [d] the
  depth reached. *)
Record inv (P Q : list searchPath) (best : gmap string nat) (fd : option nat)
  (F : list (list JoinStep)) (D : searchPath -> joinEdge -> Prop) (d : nat) : Prop := {
i_root : exists r, r ∈ P ++ Q /\ sp_steps r = [];
i_item : forall r, r ∈ P ++ Q ->
  awalk (sp_steps r) (sp_at r) /\ sp_at r <> to /\ best !! sp_at r = Some (depth r);
i_best : forall v k, best !! v = Some k -> exists r, r ∈ P ++ Q /\ sp_at r = v;
i_seen : forall r v, r ∈ P ++ Q -> v ∈ sp_seen r -> exists k, best !! v = Some k /\ (k <= depth r)%nat;
i_done : forall r e, r ∈ P -> D r e -> je_to e <> to ->
  (exists k, best !! je_to e = Some k /\ (k <= S (depth r))%nat) /\
  (je_to e ∉ sp_seen r -> best !! je_to e = Some (S (depth r)) ->
   exists r', r' ∈ P ++ Q /\ sp_steps r' = extended r e);
i_past : forall r, r ∈ P -> (depth r <= d)%nat;
i_queue : forall q, q ∈ Q -> (d <= depth q <= S d)%nat;
i_sorted : StronglySorted (fun a b => depth a <= depth b)%nat Q;
i_none : fd = None -> F = [] /\ forall r e, r ∈ P -> D r e -> je_to e <> to;
i_some : forall n, fd = Some n ->
  F <> [] /\ (n <= MaxJoinDepth)%nat /\ (n <= S d)%nat /\
  (forall ss, ss ∈ F -> awalk ss to /\ length ss = n) /\
  forall r e, r ∈ P -> D r e -> je_to e = to ->
    (n <= S (depth r))%nat /\ (n = S (depth r) -> extended r e ∈ F)
}.

Arguments i_root {P Q best fd F D d} _.
Arguments i_item {P Q best fd F D d} _.
Arguments i_best {P Q best fd F D d} _.
Arguments i_seen {P Q best fd F D d} _.
Arguments i_done {P Q best fd F D d} _.
Arguments i_past {P Q best fd F D d} _.
Arguments i_queue {P Q best fd F D d} _.
Arguments i_sorted {P Q best fd F D d} _.
Arguments i_none {P Q best fd F D d} _.
Arguments i_some {P Q best fd F D d} _.

Section consequences.
Context P Q best fd F D d (I : inv P Q best fd F D d).

Lemma item_of_best v k : best !! v = Some k -> exists r, r ∈ P ++ Q /\ sp_at r = v /\ depth r = k.
Proof using I.
intros Hv. destruct (i_best I v k Hv) as (r & Hr & <-).
destruct (i_item I r Hr) as (_ & _ & Hb). exists r. split_and!; congruence.
Qed.

Lemma best_root : best !! from = Some O.
Proof using I.
destruct (i_root I) as (r & Hr & Hs). destruct (i_item I r Hr) as (Hw & _ & Hb).
rewrite Hs in Hw, Hb. by rewrite <- (awalk_end _ _ Hw from awalk_nil).
Qed.

Lemma to_not_seen r : r ∈ P ++ Q -> to ∉ sp_seen r.
Proof using I.
intros Hr Hin. destruct (i_seen I r to Hr Hin) as (k & Hk & _).
destruct (item_of_best _ _ Hk) as (r' & Hr' & Hat & _).
by apply (i_item I r' Hr').
Qed.

Lemma depth_bound r : r ∈ P ++ Q -> (depth r <= S d)%nat.
Proof using I.
intros [Hr|Hr]%elem_of_app; [apply (i_past I) in Hr|apply (i_queue I) in Hr]; lia.
Qed.
End consequences.

(** ** One edge *)

Abbreviation inv_state P st D d := (inv P (st_queue st) (st_bestDepth st) (st_foundDepth st) (st_found st) D d).
Definition also (D : searchPath -> joinEdge -> Prop) (cur : searchPath) (edge : joinEdge)
  : searchPath -> joinEdge -> Prop := fun r e => D r e \/ (r = cur /\ e = edge).

Section visit.
Context (P Q : list searchPath) (best : gmap string nat) (fd : option nat) (F : list (list JoinStep)).
Context (D : searchPath -> joinEdge -> Prop) (d : nat) (cur : searchPath) (edge : joinEdge).
Hypothesis (I : inv P Q best fd F D d) (Hcur : cur ∈ P) (Hd : depth cur = d).
Hypothesis (Hmax : (d < MaxJoinDepth)%nat) (He : edge ∈ adj (sp_at cur)).
Hypothesis (Hfd : forall n, fd = Some n -> (d < n)%nat).

Lemma cur_in : cur ∈ P ++ Q.
Proof using Hcur. apply elem_of_app. by left. Qed.
Hint Resolve cur_in : core.

Lemma inv_cycle : je_to edge ∈ sp_seen cur -> inv P Q best fd F (also D cur edge) d.
Proof using I Hcur Hd Hmax He Hfd.
intros Hin. pose proof (to_not_seen _ _ _ _ _ _ _ I cur cur_in) as Hto.
assert (je_to edge <> to) as Hnt by congruence.
destruct (i_seen I cur _ cur_in Hin) as (k & Hk & Hle).
constructor; try apply I.
- intros r e Hr [HD|[-> ->]] Hv; [by apply I|]. split; [|done]. exists k. split; [done|lia].
- intros Hn. split; [by apply I|]. intros r e Hr [HD|[-> ->]]; [by eapply (i_none I)|done].
- intros n Hn. destruct (i_some I n Hn) as (? & ? & ? & ? & Hdone). split_and!; try done.
  intros r e Hr [HD|[-> ->]] Hv; [by apply Hdone|done].
Qed.

Lemma extended_walk : awalk (extended cur edge) (je_to edge).
Proof using I Hcur He. destruct (i_item I cur cur_in) as (? & ? & _). by constructor. Qed.

Lemma inv_found : je_to edge = to ->
let n := default (S d) fd in
inv P Q best (Some n) (if Nat.eqb (S d) n then F ++ [extended cur edge] else F) (also D cur edge) d.
Proof using I Hcur Hd Hmax He Hfd.
intros Hto n. pose proof extended_walk as Hw. rewrite Hto in Hw.
assert (n = S d) as Hn.
{ unfold n. destruct fd as [m|] eqn:E; [|done]. simpl. pose proof (Hfd m eq_refl).
  destruct (i_some I m eq_refl) as (_ & _ & ? & _). lia. }
assert (forall ss, ss ∈ F -> awalk ss to /\ length ss = S d) as HF.
{ unfold n in Hn. destruct fd as [m|] eqn:E.
  - simpl in Hn. subst m. by apply (i_some I (S d) eq_refl).
  - destruct (i_none I eq_refl) as [-> _]. by intros ? ?%elem_of_nil. }
rewrite Hn, Nat.eqb_refl.
constructor; try apply I.
- intros r e Hr [HD|[-> ->]] Hv; [by apply I|done].
- done.
- intros m [= <-]. split_and!; [by destruct F|lia|lia| |].
  + intros ss [Hs| ->%list_elem_of_singleton]%elem_of_app; [by apply HF|].
    split; [done|]. rewrite length_app. simpl. lia.
  + intros r e Hr [HD|[-> ->]] Hv.
    * unfold n in Hn. destruct fd as [m|] eqn:E.
      -- simpl in Hn. subst m. destruct (i_some I _ eq_refl) as (_ & _ & _ & _ & Hdone).
         destruct (Hdone r e Hr HD Hv) as [? Hin]. split; [done|]. intros Hs. apply elem_of_app. left. by apply Hin.
      -- exfalso. by apply (proj2 (i_none I eq_refl) r e Hr HD).
    * split; [lia|]. intros _. apply elem_of_app. right. by apply list_elem_of_singleton.
Qed.

Lemma inv_visited prior : je_to edge <> to ->
best !! je_to edge = Some prior -> (prior < S d)%nat -> inv P Q best fd F (also D cur edge) d.
Proof using I Hcur Hd Hmax He Hfd.
intros Hto Hb Hlt. constructor; try apply I.
- intros r e Hr [HD|[-> ->]] Hv; [by apply I|]. split.
  + exists prior. split; [done|lia].
  + intros _ Hb'. rewrite Hb in Hb'. injection Hb' as ->. lia.
- intros Hn. split; [by apply I|]. intros r e Hr [HD|[-> ->]]; [by eapply (i_none I)|done].
- intros n Hn. destruct (i_some I n Hn) as (? & ? & ? & ? & Hdone). split_and!; try done.
  intros r e Hr [HD|[-> ->]] Hv; [by apply Hdone|done].
Qed.

Lemma sorted_snoc_depth (l : list searchPath) x :
StronglySorted (fun a b => depth a <= depth b)%nat l -> (forall y, y ∈ l -> (depth y <= depth x)%nat) ->
StronglySorted (fun a b => depth a <= depth b)%nat (l ++ [x]).
Proof.
induction 1 as [|y l Hl IH Hall]; intros Hx; simpl; [repeat constructor|].
constructor; [apply IH; intros z Hz; apply Hx; by right|].
apply Forall_app. split; [done|]. constructor; [apply Hx; by left|constructor].
Qed.

Lemma inv_enqueue : je_to edge <> to ->
(forall prior, best !! je_to edge = Some prior -> (S d <= prior)%nat) ->
inv P (Q ++ [mkSearchPath (je_to edge) (extended cur edge) ({[ je_to edge ]} ∪ sp_seen cur)])
  (<[je_to edge := S d]> best) fd F (also D cur edge) d.
Proof using I Hcur Hd Hmax He Hfd.
intros Hto Hprior. set (v := je_to edge) in *. set (new := mkSearchPath _ _ _).
assert (depth new = S d) as Hnd by (simpl; rewrite length_app; simpl; lia).
assert (forall x k, best !! x = Some k -> <[v := S d]> best !! x = Some k) as Hsub.
{ intros x k Hx. destruct (decide (x = v)) as [->|Hn]; [|by rewrite lookup_insert_ne].
  rewrite lookup_insert_eq. f_equal. pose proof (Hprior k Hx) as Hge.
  destruct (item_of_best _ _ _ _ _ _ _ I v k Hx) as (r & Hr & _ & Hk).
  pose proof (depth_bound _ _ _ _ _ _ _ I r Hr). lia. }
assert (forall x, x ∈ P ++ Q ++ [new] <-> x ∈ P ++ Q \/ x = new) as Hin.
{ intros x. rewrite app_assoc, elem_of_app, list_elem_of_singleton. done. }
constructor.
- destruct (i_root I) as (r & Hr & Hs). exists r. rewrite Hin. auto.
- intros r [Hr| ->]%Hin.
  + destruct (i_item I r Hr) as (? & ? & Hb). split_and!; [done..|by apply Hsub].
  + split_and!; [apply extended_walk|done|]. rewrite Hnd. apply lookup_insert_eq.
- intros x k Hx. destruct (decide (x = v)) as [->|Hn].
  + exists new. rewrite Hin. auto.
  + rewrite lookup_insert_ne in Hx by done. destruct (i_best I x k Hx) as (r & Hr & Hat).
    exists r. rewrite Hin. auto.
- intros r x [Hr| ->]%Hin Hx.
  + destruct (i_seen I r x Hr Hx) as (k & Hk & Hle). exists k. auto.
  + simpl in Hx. apply elem_of_union in Hx as [->%elem_of_singleton|Hx].
    * exists (S d). split; [apply lookup_insert_eq|lia].
    * destruct (i_seen I cur x cur_in Hx) as (k & Hk & Hle). exists k. split; [auto|lia].
- intros r e Hr [HD|[-> ->]] Hv.
  + destruct (i_done I r e Hr HD Hv) as [(k & Hk & Hle) Hex]. split; [exists k; auto|].
    intros Hns Hb. rewrite (Hsub _ _ Hk) in Hb. injection Hb as ->.
    destruct (Hex Hns Hk) as (r' & Hr' & Hs). exists r'. rewrite Hin. auto.
  + split; [exists (S d); split; [apply lookup_insert_eq|lia]|].
    intros _ _. exists new. rewrite Hin. auto.
- apply I.
- intros q [Hq| ->%list_elem_of_singleton]%elem_of_app; [by apply I|lia].
- apply sorted_snoc_depth; [apply I|]. intros q Hq. apply (i_queue I) in Hq. lia.
- intros Hn. split; [by apply I|]. intros r e Hr [HD|[-> ->]]; [by eapply (i_none I)|done].
- intros n Hn. destruct (i_some I n Hn) as (? & ? & ? & ? & Hdone). split_and!; try done.
  intros r e Hr [HD|[-> ->]] Hv; [by apply Hdone|done].
Qed.
End visit.

Lemma visit_inv P st st' D d cur edge :
inv_state P st D d -> cur ∈ P -> depth cur = d -> (d < MaxJoinDepth)%nat ->
edge ∈ adj (sp_at cur) -> (forall n, st_foundDepth st = Some n -> (d < n)%nat) ->
visit to cur st edge = Ok st' ->
inv_state P st' (also D cur edge) d /\ (forall n, st_foundDepth st' = Some n -> (d < n)%nat).
Proof.
intros I Hcur Hd Hmax He Hfd. unfold visit.
assert (length (extended cur edge) = S d) as Hlen by (rewrite length_app; simpl; lia). rewrite Hlen.
destruct (Nat.ltb _ _); [done|]. case_bool_decide as Hseen.
{ intros [= <-]. simpl. split; [by eapply inv_cycle|done]. }
case_bool_decide as Hto.
{ intros [= <-]. simpl. split; [by apply inv_found|]. intros n [= <-].
  destruct (st_foundDepth st) as [m|]; simpl; [by apply Hfd|lia]. }
destruct (st_bestDepth st !! je_to edge) as [prior|] eqn:Hb.
- destruct (Nat.ltb_spec prior (S d)) as [Hlt|Hge]; intros [= <-]; simpl; (split; [|done]).
  + by eapply inv_visited.
  + eapply inv_enqueue; try done. intros k Hk. rewrite Hb in Hk. injection Hk as <-. done.
- intros [= <-]. simpl. split; [|done]. eapply inv_enqueue; try done. intros k Hk. congruence.
Qed.

Lemma visit_loop P cur d es : forall st st' D,
inv_state P st D d -> cur ∈ P -> depth cur = d -> (d < MaxJoinDepth)%nat ->
(forall e, e ∈ es -> e ∈ adj (sp_at cur)) -> (forall n, st_foundDepth st = Some n -> (d < n)%nat) ->
loop (visit to cur) st es = Ok st' ->
inv_state P st' (fun r e => D r e \/ (r = cur /\ e ∈ es)) d.
Proof.
induction es as [|edge es IH]; intros st st' D I Hcur Hd Hmax Hes Hfd Hl; simpl in Hl.
- injection Hl as <-. destruct I. constructor; try done.
  + intros r e Hr [HD|[_ ?%elem_of_nil]]; [by auto|done].
  + intros Hn. destruct (i_none0 Hn) as [HF HD]. split; [done|].
    intros r e Hr [?|[_ ?%elem_of_nil]]; [by eapply HD|done].
  + intros n Hn. destruct (i_some0 n Hn) as (? & ? & ? & ? & HD). split_and!; try done.
    intros r e Hr [?|[_ ?%elem_of_nil]]; [by apply HD|done].
- destruct (visit to cur st edge) as [st1|] eqn:Hv; [|done].
  destruct (visit_inv P st st1 D d cur edge) as [I1 Hfd1]; try done; [apply Hes; by left|].
  assert (forall e, e ∈ es -> e ∈ adj (sp_at cur)) as Hes' by (intros e He; apply Hes; by right).
  pose proof (IH st1 st' _ I1 Hcur Hd Hmax Hes' Hfd1 Hl) as I2.
  destruct I2. constructor; try done.
  + intros r e Hr HD. apply i_done0; [done|]. unfold also. set_solver.
  + intros Hn. destruct (i_none0 Hn) as [HF HD]. split; [done|].
    intros r e Hr HDe. apply (HD r e Hr). unfold also. set_solver.
  + intros n Hn. destruct (i_some0 n Hn) as (? & ? & ? & ? & HD). split_and!; try done.
    intros r e Hr HDe. apply HD; [done|]. unfold also. set_solver.
Qed.

(** ** The whole search *)

Context (graph : gmap string (list joinEdge)) (Hgraph : forall v, adj v = default [] (graph !! v)).

Lemma search_skip fuel : forall st out,
(forall q, q ∈ st_queue st -> skipped st q = true) ->
search graph to fuel st = Some out -> out = Ok (st_found st).
Proof.
induction fuel as [|fuel IH]; intros st out Hq Hs; simpl in Hs; [done|].
destruct (st_queue st) as [|cur queue] eqn:E; [congruence|].
assert (skipped st cur = true) as Hc by (apply Hq; left).
change (skipped (mkSearchState queue (st_bestDepth st) (st_foundDepth st) (st_found st) (st_work st)) cur)
  with (skipped st cur) in Hs. rewrite Hc in Hs.
apply IH in Hs; [done|]. simpl. intros q Hin.
change (skipped st q = true). apply Hq. by right.
Qed.

(** What holds when the search has returned. *)
Definition finished (F : list (list JoinStep)) : Prop :=
exists P Q best fd D d, inv P Q best fd F D d /\
  (forall r e, r ∈ P -> e ∈ adj (sp_at r) -> D r e) /\
  (forall q, q ∈ Q -> skipped (mkSearchState Q best fd F O) q = true).

Lemma skipped_deeper st q q' :
(depth q <= depth q')%nat -> skipped st q = true -> skipped st q' = true.
Proof.
intros Hle. unfold skipped. rewrite !orb_true_iff. intros [H|H]; [left|right].
- destruct (st_foundDepth st); [|done]. apply Nat.leb_le in H. apply Nat.leb_le. lia.
- apply Nat.leb_le in H. apply Nat.leb_le. lia.
Qed.

Lemma advance P cur queue best fd F D d :
inv P (cur :: queue) best fd F D d ->
inv (P ++ [cur]) queue best fd F (fun r e => r ∈ P /\ D r e) (depth cur).
Proof.
intros I.
assert (forall x, x ∈ (P ++ [cur]) ++ queue <-> x ∈ P ++ cur :: queue) as Hin.
{ intros x. by rewrite <- app_assoc. }
pose proof (i_queue I cur ltac:(by left)) as Hcur. pose proof (i_sorted I) as Hs.
inversion_clear Hs as [|? ? Hsq Hall]. rewrite Forall_forall in Hall.
constructor.
- destruct (i_root I) as (r & Hr & ?). exists r. by rewrite Hin.
- intros r Hr%Hin. by apply I.
- intros v k Hv. destruct (i_best I v k Hv) as (r & Hr & ?). exists r. by rewrite Hin.
- intros r v Hr%Hin. by apply I.
- intros r e _ [Hr HD] Hv. destruct (i_done I r e Hr HD Hv) as [? Hex]. split; [done|].
  intros Hns Hb. destruct (Hex Hns Hb) as (r' & Hr' & ?). exists r'. by rewrite Hin.
- intros r [Hr| ->%list_elem_of_singleton]%elem_of_app; [|done]. apply (i_past I) in Hr. lia.
- intros q Hq. split; [by apply Hall|]. pose proof (i_queue I q ltac:(by right)). lia.
- done.
- intros Hn. destruct (i_none I Hn) as [HF HD]. split; [done|]. intros r e _ [Hr HDe]. by eapply HD.
- intros n Hn. destruct (i_some I n Hn) as (? & ? & ? & ? & HD). split_and!; try done; [lia|].
  intros r e _ [Hr HDe]. by apply HD.
Qed.

Lemma search_inv fuel : forall st P D d F,
inv_state P st D d -> (forall r e, r ∈ P -> e ∈ adj (sp_at r) -> D r e) ->
search graph to fuel st = Some (Ok F) -> finished F.
Proof using Hgraph.
induction fuel as [|fuel IH]; intros st P D d F I Hfull Hs; [done|].
destruct (st_queue st) as [|cur queue] eqn:E.
{ simpl in Hs. rewrite E in Hs. injection Hs as <-. exists P, [], (st_bestDepth st), (st_foundDepth st), D, d.
  split_and!; [done..|by intros ? ?%elem_of_nil]. }
destruct (skipped st cur) eqn:Hsk.
- assert (forall q, q ∈ cur :: queue -> skipped st q = true) as Hall.
  { intros q Hq. apply (skipped_deeper st cur); [|done]. apply elem_of_cons in Hq as [->|Hq]; [done|].
    pose proof (i_sorted I) as Hso. inversion_clear Hso as [|? ? _ Hf]. rewrite Forall_forall in Hf. by apply Hf. }
  assert (Ok F = Ok (st_found st)) as [= ->].
  { eapply (search_skip (S fuel)); [|done]. by rewrite E. }
  exists P, (cur :: queue), (st_bestDepth st), (st_foundDepth st), D, d. split_and!; [done..|].
  intros q Hq. by apply Hall.
- simpl in Hs. rewrite E in Hs.
  set (st0 := mkSearchState queue _ _ _ _) in Hs. change (skipped st0 cur) with (skipped st cur) in Hs.
  rewrite Hsk in Hs. destruct (loop (visit to cur) st0 _) as [st1|] eqn:Hl; [|done].
  unfold skipped in Hsk. apply orb_false_iff in Hsk as [Hsk1 Hsk2%Nat.leb_gt].
  rewrite <- Hgraph in Hl.
  pose proof (advance _ _ _ _ _ _ _ _ I) as I0.
  assert (cur ∈ P ++ [cur]) as HcurP by (apply elem_of_app; right; by apply list_elem_of_singleton).
  pose proof (visit_loop (P ++ [cur]) cur (depth cur) (adj (sp_at cur)) st0 st1 _ I0 HcurP eq_refl Hsk2
                (fun e He => He)) as I1.
  eapply (IH st1); [apply I1|..|done]; [|done|].
  + intros n Hn. simpl in Hn. rewrite Hn in Hsk1. by apply Nat.leb_gt in Hsk1.
  + intros r e [Hr| ->%list_elem_of_singleton]%elem_of_app He; [left|right; done]. split; [done|]. by apply Hfull.
Qed.

Lemma initial_inv : from <> to ->
inv [] [mkSearchPath from [] {[ from ]}] {[ from := O ]} None [] (fun _ _ => False) O.
Proof.
intros Hne. constructor; simpl; try done.
- eexists. split; [by apply list_elem_of_singleton|done].
- intros r ->%list_elem_of_singleton. simpl. split_and!; [constructor|done|apply lookup_singleton_eq].
- intros v k [<- <-]%lookup_singleton_Some. eexists. split; [by apply list_elem_of_singleton|done].
- intros r v ->%list_elem_of_singleton. simpl. intros ->%elem_of_singleton. exists O.
  split; [apply lookup_singleton_eq|lia].
- intros r ?%elem_of_nil. done.
- intros q ->%list_elem_of_singleton. simpl. lia.
- repeat constructor.
Qed.

(** Shortest walks to [to] in the whole graph. *)
Definition shortest (w : list JoinStep) : Prop :=
walk w to /\ forall w', walk w' to -> (length w <= length w')%nat.

Section finished.
Context P Q best fd F D d (I : inv P Q best fd F D d).
Hypothesis (Hfull : forall r e, r ∈ P -> e ∈ adj (sp_at r) -> D r e).
Hypothesis (Hskip : forall q, q ∈ Q -> skipped (mkSearchState Q best fd F O) q = true).

Lemma skip_bound n q : q ∈ Q -> (n <= MaxJoinDepth)%nat -> (forall m, fd = Some m -> (n <= m)%nat) -> (n <= depth q)%nat.
Proof using I Hskip.
intros Hq Hn Hfd. specialize (Hskip q Hq). unfold skipped in Hskip. cbn [st_foundDepth] in Hskip.
apply orb_true_iff in Hskip as [H|H%Nat.leb_le]; [|lia].
destruct fd as [m|]; [|done]. apply Nat.leb_le in H. specialize (Hfd m eq_refl). lia.
Qed.

(** Everything shallower than a bound on the queue is done. *)
Section bounded.
Context (b : nat) (Hb : forall q, q ∈ Q -> (b <= depth q)%nat).

Lemma shallow_past r : r ∈ P ++ Q -> (depth r < b)%nat -> r ∈ P.
Proof using Hb. intros [Hr|Hr]%elem_of_app Hd; [done|]. apply Hb in Hr. lia. Qed.

(** Whatever a short walk reaches has been reached at most as deep. *)
Lemma reach w v : awalk w v -> v <> to -> (length w <= b)%nat ->
exists k, best !! v = Some k /\ (k <= length w)%nat.
Proof using I Hfull Hb.
induction 1 as [|ss u e Hw IH Hu He]; intros Hv Hlen.
{ exists O. split; [by eapply best_root|done]. }
rewrite length_app in Hlen |- *. simpl in *. destruct (IH Hu) as (k & Hk & Hle); [lia|].
destruct (item_of_best _ _ _ _ _ _ _ I u k Hk) as (r & Hr & Hat & Hd).
assert (r ∈ P) as HrP by (apply shallow_past; [done|lia]).
destruct (i_done I r e HrP) as [(k' & Hk' & Hle') _]; [|done|exists k'; split; [done|lia]].
apply Hfull; [done|by rewrite Hat].
Qed.

(** Every shortest walk up to the bound is among the paths. *)
Lemma complete w v : awalk w v -> v <> to -> (length w <= b)%nat ->
(forall w', awalk w' v -> (length w <= length w')%nat) ->
exists r, r ∈ P ++ Q /\ sp_steps r = w.
Proof using I Hfull Hb.
induction 1 as [|ss u e Hw IH Hu He]; intros Hv Hlen Hmin; [apply I|].
rewrite length_app in Hlen. simpl in *.
destruct (IH Hu) as (r & Hr & Hs); [lia| |].
{ intros w' Hw'. pose proof (Hmin _ (awalk_snoc _ _ _ Hw' Hu He)) as Hm.
  rewrite !length_app in Hm. simpl in Hm. lia. }
assert (r ∈ P) as HrP by (apply shallow_past; [done|rewrite Hs; lia]).
destruct (i_item I r Hr) as (Hwr & _ & _). rewrite Hs in Hwr.
assert (sp_at r = u) as Hat by (by eapply awalk_end).
destruct (i_done I r e HrP) as [(k & Hk & Hle) Hnew]; [|done|].
{ apply Hfull; [done|by rewrite Hat]. }
assert (forall k', best !! je_to e = Some k' -> (S (length ss) <= k')%nat) as Hge.
{ intros k' Hk'. destruct (item_of_best _ _ _ _ _ _ _ I _ _ Hk') as (r' & Hr' & Hat' & <-).
  destruct (i_item I r' Hr') as (Hw' & _ & _). rewrite Hat' in Hw'.
  pose proof (Hmin _ Hw') as Hm. rewrite length_app in Hm. simpl in Hm. lia. }
rewrite Hs, Hat in Hnew. apply Hnew.
- intros Hin. destruct (i_seen I r _ Hr Hin) as (k' & Hk' & Hle').
  apply Hge in Hk'. rewrite Hs in Hle'. lia.
- rewrite Hk. f_equal. pose proof (Hge k Hk). rewrite Hs in Hle. lia.
Qed.
End bounded.

(** A walk to [to], up to its last edge. *)
Lemma last_edge w : from <> to -> awalk w to ->
exists p u e, w = p ++ [step_along u e] /\ awalk p u /\ u <> to /\ e ∈ adj u /\ je_to e = to.
Proof. intros Hne. inversion 1; subst; [done|]. eauto 10. Qed.

(** A short walk to [to] is seen by an expansion. *)
Lemma seen_last_edge w : from <> to -> awalk w to -> (length w <= MaxJoinDepth)%nat ->
(forall m, fd = Some m -> (length w <= m)%nat) ->
exists r e, r ∈ P /\ D r e /\ je_to e = to /\ (S (depth r) <= length w)%nat.
Proof using I Hfull Hskip.
intros Hne Hw Hmax Hfd. destruct (last_edge w Hne Hw) as (p & u & e & -> & Hp & Hu & He & Hto).
rewrite length_app in *. simpl in *.
assert (forall q, q ∈ Q -> (length p + 1 <= depth q)%nat) as Hb by (intros q Hq; by apply skip_bound).
destruct (reach _ Hb p u Hp Hu) as (k & Hk & Hle); [lia|].
destruct (item_of_best _ _ _ _ _ _ _ I u k Hk) as (r & Hr & Hat & Hd).
assert (r ∈ P) as HrP by (apply (shallow_past _ Hb); [done|lia]).
exists r, e. split_and!; [done| |done|lia]. apply Hfull; [done|by rewrite Hat].
Qed.

Lemma found_none w : from <> to -> fd = None -> walk w to -> (MaxJoinDepth < length w)%nat.
Proof using I Hfull Hskip.
intros Hne Hfd Hw. destruct (le_lt_dec (length w) MaxJoinDepth) as [Hle|]; [exfalso|done].
assert (exists w', awalk w' to /\ (length w' <= length w)%nat) as (w' & Hw' & Hle').
{ destruct (walk_cut w to Hw) as [?|(w' & ? & ?)]; [by exists w|]. exists w'. split; [done|lia]. }
destruct (seen_last_edge w' Hne Hw') as (r & e & Hr & HD & Hto & _); [lia|congruence|].
by apply (proj2 (i_none I Hfd) r e Hr HD).
Qed.

Lemma found_min n w : from <> to -> fd = Some n -> walk w to -> (n <= length w)%nat.
Proof using I Hfull Hskip.
intros Hne Hfd Hw. destruct (le_lt_dec n (length w)) as [|Hlt]; [done|exfalso].
destruct (i_some I n Hfd) as (_ & Hmax & _ & _ & HD).
assert (exists w', awalk w' to /\ (length w' <= length w)%nat) as (w' & Hw' & Hle').
{ destruct (walk_cut w to Hw) as [?|(w' & ? & ?)]; [by exists w|]. exists w'. split; [done|lia]. }
destruct (seen_last_edge w' Hne Hw') as (r & e & Hr & HDe & Hto & Hl); [lia|intros m Hm; simplify_eq; lia|].
destruct (HD r e Hr HDe Hto) as [? _]. lia.
Qed.

Lemma found_complete n w : from <> to -> fd = Some n -> walk w to -> length w = n -> w ∈ F.
Proof using I Hfull Hskip.
intros Hne Hfd Hw Hn. destruct (i_some I n Hfd) as (_ & Hmax & _ & _ & HD).
assert (awalk w to) as Haw.
{ destruct (walk_cut w to Hw) as [?|(w' & Hw' & Hlt)]; [done|].
  pose proof (found_min n w' Hne Hfd (awalk_walk _ _ Hw')). lia. }
destruct (last_edge w Hne Haw) as (p & u & e & -> & Hp & Hu & He & Hto).
rewrite length_app in Hn. simpl in Hn.
assert (forall q, q ∈ Q -> (length p + 1 <= depth q)%nat) as Hb.
{ intros q Hq. apply skip_bound; [done|lia|]. intros m Hm. simplify_eq. lia. }
destruct (complete _ Hb p u Hp Hu) as (r & Hr & Hs); [lia| |].
{ intros w' Hw'. pose proof (found_min n (w' ++ [step_along u e]) Hne Hfd) as Hm.
  rewrite length_app in Hm. simpl in Hm. rewrite <- Hto in Hm at 1.
  specialize (Hm (walk_snoc _ _ _ (awalk_walk _ _ Hw') He)). lia. }
destruct (i_item I r Hr) as (Hwr & _ & _). rewrite Hs in Hwr.
assert (sp_at r = u) as Hat by (by eapply awalk_end).
assert (r ∈ P) as HrP by (apply (shallow_past _ Hb); [done|rewrite Hs; lia]).
destruct (HD r e HrP) as [_ Hin]; [apply Hfull; [done|by rewrite Hat]|done|].
rewrite Hs, Hat in Hin. apply Hin. lia.
Qed.
End finished.

(** When the search returns, the paths found are the shortest walks if any has
  length at most [MaxJoinDepth], and none otherwise. *)
Lemma search_correct fuel F : from <> to ->
search graph to fuel (initial_search from) = Some (Ok F) ->
(F = [] /\ forall w, walk w to -> (MaxJoinDepth < length w)%nat) \/
(F <> [] /\ forall w, w ∈ F <-> shortest w).
Proof using Hgraph.
intros Hne Hs.
apply (search_inv _ _ [] (fun _ _ => False) O) in Hs as (P & Q & best & fd & D & d & I & Hfull & Hskip);
  [|by apply initial_inv|by intros ? ? ?%elem_of_nil].
destruct fd as [n|] eqn:Hfd.
- destruct (i_some I n eq_refl) as (HF & _ & _ & HFw & _). right. split; [done|]. intros w.
  assert (forall w', walk w' to -> (n <= length w')%nat) as Hmin by (intros w' Hw'; by eapply found_min).
  split.
  + intros Hw. destruct (HFw w Hw) as [Haw Hl]. split; [by apply awalk_walk|]. rewrite Hl. done.
  + intros [Hw Hsh]. eapply found_complete; try done. apply Nat.le_antisymm; [|by apply Hmin].
    destruct F as [|w0 F']; [done|]. destruct (HFw w0) as [Hw0 Hl0]; [by left|].
    rewrite <- Hl0. by apply Hsh, awalk_walk.
- left. split; [by apply I|]. intros w Hw. by eapply found_none.
Qed.

(** The fuel is enough: every queued path but the first was paid for with work. *)
Lemma visit_work cur es : forall st st',
loop (visit to cur) st es = Ok st' -> (st_work st <= maxJoinSearchWork)%nat ->
(st_work st' <= maxJoinSearchWork /\
 length (st_queue st') + (maxJoinSearchWork - st_work st') <=
 length (st_queue st) + (maxJoinSearchWork - st_work st))%nat.
Proof.
induction es as [|e es IH]; intros st st' Hl Hw; simpl in Hl; [by injection Hl as <-|].
destruct (visit to cur st e) as [st1|] eqn:Hv; [|done].
assert (st_work st1 <= maxJoinSearchWork /\
  length (st_queue st1) + (maxJoinSearchWork - st_work st1) <=
  length (st_queue st) + (maxJoinSearchWork - st_work st))%nat as [Hw1 Hle].
{ unfold visit in Hv. destruct (Nat.ltb_spec maxJoinSearchWork (S (st_work st))); [done|].
  repeat case_bool_decide; [..|destruct (match _ with Some _ => _ | None => _ end)];
    injection Hv as <-; cbn [st_queue st_work]; rewrite ?length_app; cbn [length]; lia. }
destruct (IH st1 st' Hl Hw1). split; [done|lia].
Qed.

Lemma search_total fuel : forall st, (st_work st <= maxJoinSearchWork)%nat ->
(length (st_queue st) + (maxJoinSearchWork - st_work st) < fuel)%nat ->
exists out, search graph to fuel st = Some out.
Proof.
induction fuel as [|fuel IH]; intros st Hw Hlt; [lia|]. simpl.
destruct (st_queue st) as [|cur queue] eqn:E; [by eexists|]. simpl in Hlt.
destruct (skipped _ cur); [apply IH; cbn [st_queue st_work]; [done|lia]|].
destruct (loop _ _ _) as [st1|e] eqn:Hl; [|by eexists].
apply visit_work in Hl as [? Hle]; cbn [st_queue st_work] in *; [|done]. apply IH; [done|lia].
Qed.
End bfs.
