(* ===== verification/JoinSpec.v ===== *)
(** * Join planning: the theorems

    Walks over foreign keys, stated on the snapshot itself, and what
    [PlanJoinPath] and [ResolveJoinPath] return in terms of them. *)
From S2P Require Import Prelude Schema SchemaFacts JoinPlan JoinFacts.
From stdpp Require Import sorting base tactics strings list gmap numbers pretty.
From stdpp Require Import list options.
Open Scope Z_scope.
Open Scope go_scope.

(** ** Walks over foreign keys *)

(** A step follows a foreign key of the snapshot in one of the two directions. *)
Inductive foreign_key_step (s : SchemaSnapshot) : JoinStep -> Prop :=
| step_forward r fk : (r, fk) ∈ foreign_keys s ->
    foreign_key_step s (mkJoinStep (sr_ID r) (sf_ReferencedRelationID fk) (sf_ID fk) JoinAlongForeignKey)
| step_backward r fk : (r, fk) ∈ foreign_keys s ->
    foreign_key_step s (mkJoinStep (sf_ReferencedRelationID fk) (sr_ID r) (sf_ID fk) JoinAgainstForeignKey).

Fixpoint joins (s : SchemaSnapshot) (a : string) (steps : list JoinStep) (b : string) : Prop :=
  match steps with
  | [] => a = b
  | step :: steps =>
      js_FromRelationID step = a /\ foreign_key_step s step /\ joins s (js_ToRelationID step) steps b
  end.

Definition shortest_join (s : SchemaSnapshot) (a b : string) (w : list JoinStep) : Prop :=
  joins s a w b /\ forall w', joins s a w' b -> (length w <= length w')%nat.

Lemma joins_snoc s steps step a b :
  joins s a (steps ++ [step]) b <->
  joins s a steps (js_FromRelationID step) /\ foreign_key_step s step /\ js_ToRelationID step = b.
Proof.
  revert a. induction steps as [|x steps IH]; intros a; simpl; [naive_solver|]. rewrite IH. naive_solver.
Qed.

(** ** The graph has an edge for every such step *)

Definition edge_of (a : string) (e : joinEdge) (rfk : string * SchemaForeignKey) : Prop :=
  (a = rfk.1 /\ e = mkJoinEdge (sf_ReferencedRelationID rfk.2) (sf_ID rfk.2) JoinAlongForeignKey) \/
  (a = sf_ReferencedRelationID rfk.2 /\ e = mkJoinEdge rfk.1 (sf_ID rfk.2) JoinAgainstForeignKey).

Lemma add_edge_elem a e b f g :
  e ∈ default [] (add_edge b f g !! a) <-> e ∈ default [] (g !! a) \/ (a = b /\ e = f).
Proof.
  unfold add_edge. destruct (decide (a = b)) as [->|Hne].
  - rewrite lookup_insert_eq. simpl. rewrite elem_of_app, list_elem_of_singleton. naive_solver.
  - rewrite lookup_insert_ne by done. naive_solver.
Qed.

Lemma graph_fold a e rfks : forall g,
  e ∈ default [] (foldl add_foreign_key g rfks !! a) <->
  e ∈ default [] (g !! a) \/ exists rfk, rfk ∈ rfks /\ edge_of a e rfk.
Proof.
  induction rfks as [|[r fk] rfks IH]; intros g; cbn [foldl].
  - split; [by left|]. intros [?|(x & ?%elem_of_nil & _)]; done.
  - rewrite IH. unfold add_foreign_key. rewrite !add_edge_elem. split.
    + intros [[[H|H]|H]|(x & Hx & He)]; [by left|right..].
      * exists (r, fk). split; [by left|by left].
      * exists (r, fk). split; [by left|by right].
      * exists x. split; [by right|done].
    + intros [H|(x & [->|Hx]%elem_of_cons & He)]; [tauto| |right; eauto]. left. unfold edge_of in He. simpl in He. tauto.
Qed.

Lemma graph_edges s a e :
  e ∈ default [] (buildJoinGraph s !! a) <-> foreign_key_step s (step_along a e).
Proof.
  unfold buildJoinGraph. rewrite lookup_fmap.
  assert (forall o : option (list joinEdge), e ∈ default [] (sort_by edge_key <$> o) <-> e ∈ default [] o) as ->.
  { intros [l|]; simpl; [|done]. unfold sort_by. by rewrite merge_sort_Permutation. }
  rewrite graph_fold, lookup_empty. split.
  - intros [?%elem_of_nil|(rfk & Hin & He)]; [done|].
    apply list_elem_of_fmap in Hin as ([r fk] & -> & Hin). destruct He as [[-> ->]|[-> ->]]; by constructor.
  - intros H. right. inversion H as [r fk Hin E|r fk Hin E]; destruct e; simpl in *; subst;
      (exists (sr_ID r, fk); split; [apply list_elem_of_fmap; by exists (r, fk)|]); [by left|by right].
Qed.

Lemma walk_joins s a w b :
  walk (fun v => default [] (buildJoinGraph s !! v)) a w b <-> joins s a w b.
Proof.
  split.
  - induction 1 as [|ss u e Hw IH He]; [done|]. apply joins_snoc. split_and!; [done|by apply graph_edges|done].
  - revert b. induction w as [|step w IH] using rev_ind; intros b Hj.
    + simpl in Hj. subst. constructor.
    + apply joins_snoc in Hj as (Hj & Hs & <-). destruct step as [u v fk dir]. simpl in *.
      change (mkJoinStep u v fk dir) with (step_along u (mkJoinEdge v fk dir)).
      change v with (je_to (mkJoinEdge v fk dir)) at 2. constructor; [by apply IH|].
      apply graph_edges. done.
Qed.

(** ** What the search finds *)

Lemma number_paths_steps found : jp_Steps <$> number_paths found = sort_by joinPathSignature found.
Proof.
  apply list_eq. intros i. unfold number_paths. rewrite list_lookup_fmap, list_lookup_imap.
  by destruct (sort_by _ _ !! i).
Qed.

Lemma plan_found s a b : a <> b ->
  exists out, search (buildJoinGraph s) b search_fuel (initial_search a) = Some out /\
    forall found, out = Ok found ->
      (found = [] /\ forall w, joins s a w b -> (MaxJoinDepth < length w)%nat) \/
      (found <> [] /\ forall w, w ∈ found <-> shortest_join s a b w).
Proof.
  intros Hne. destruct (search_total b (buildJoinGraph s) search_fuel (initial_search a)) as [out Hout];
    [simpl; lia|vm_compute; lia|].
  exists out. split; [done|]. intros found ->.
  destruct (search_correct _ a b (buildJoinGraph s) (fun v => eq_refl) _ _ Hne Hout) as [[HF H]|[HF H]]; [left|right].
  - split; [done|]. intros w Hw. by apply H, walk_joins.
  - split; [done|]. intros w. rewrite H. unfold shortest, shortest_join. rewrite walk_joins.
    split; intros [? Hmin]; (split; [done|]); intros w' Hw'; by apply Hmin, walk_joins.
Qed.

Lemma search_error graph b fuel e : forall st,
  search graph b fuel st = Some (Err e) -> e = "foreign-key path search exceeded %d bounded steps".
Proof.
  assert (forall cur es st, loop (visit b cur) st es = Err e ->
    e = "foreign-key path search exceeded %d bounded steps") as Hloop.
  { intros cur es. induction es as [|x es IH]; intros st H; simpl in H; [done|].
    destruct (visit b cur st x) as [st1|e1] eqn:Hv; [by apply (IH st1)|]. injection H as ->. unfold visit in Hv.
    destruct (Nat.ltb _ _); [by injection Hv as <-|].
    repeat case_bool_decide; [done..|]. by destruct (match _ with Some _ => _ | None => _ end). }
  induction fuel as [|fuel IH]; intros st H; simpl in H; [done|].
  destruct (st_queue st) as [|cur queue]; [done|]. destruct (skipped _ _); [by eapply IH|].
  destruct (loop _ _ _) eqn:Hl; [by eapply IH|]. injection H as ->. by eapply Hloop.
Qed.

Lemma number_paths_length found : length (number_paths found) = length found.
Proof. unfold number_paths. by rewrite length_imap, sort_by_Permutation. Qed.

Lemma in_numbered found w : w ∈ jp_Steps <$> number_paths found <-> w ∈ found.
Proof. by rewrite number_paths_steps, sort_by_Permutation. Qed.

(** Case analysis of a plan between two different relations. *)
Lemma plan_cases s a b : a <> b -> (exists r, Relation s a = Ok r) -> (exists r, Relation s b = Ok r) ->
  (PlanJoinPath s a b = JoinError "foreign-key path search exceeded %d bounded steps") \/
  (PlanJoinPath s a b = JoinError "no foreign-key path connects relation %q to %q within depth %d" /\
   forall w, joins s a w b -> (MaxJoinDepth < length w)%nat) \/
  (exists p, PlanJoinPath s a b = Planned p /\ forall w, shortest_join s a b w <-> w = jp_Steps p) \/
  (exists cs found, PlanJoinPath s a b = AmbiguousJoinPath cs /\ cs = number_paths found /\ (2 <= length cs)%nat /\
     forall w, shortest_join s a b w <-> w ∈ jp_Steps <$> cs).
Proof.
  intros Hne [ra Ha] [rb Hb]. unfold PlanJoinPath. rewrite Ha, Hb.
  rewrite bool_decide_eq_false_2 by done. destruct (plan_found s a b Hne) as (out & Hs & Hout). rewrite Hs.
  destruct out as [found|e]; [|left; f_equal; by eapply search_error].
  right. destruct (Hout found eq_refl) as [[-> H]|[HF H]]; [left; done|right].
  assert (forall w, shortest_join s a b w <-> w ∈ jp_Steps <$> number_paths found) as Hiff.
  { intros w. by rewrite in_numbered, H. }
  pose proof (number_paths_length found) as Hlen.
  destruct (number_paths found) as [|p [|p2 ps]] eqn:Hn.
  - by destruct found.
  - left. exists p. split; [done|]. intros w. rewrite Hiff. simpl. by rewrite list_elem_of_singleton.
  - right. exists (p :: p2 :: ps), found. split_and!; [done|done|simpl; lia|done].
Qed.

Lemma plan_known s a b : (forall e, PlanJoinPath s a b <> JoinError e) ->
  (exists r, Relation s a = Ok r) /\ (exists r, Relation s b = Ok r).
Proof.
  unfold PlanJoinPath. intros H. destruct (Relation s a) as [ra|e]; [|by destruct (H e)].
  destruct (Relation s b) as [rb|e]; [|by destruct (H e)]. eauto.
Qed.

Lemma planned_iff s a b p : PlanJoinPath s a b = Planned p ->
  forall w, shortest_join s a b w <-> w = jp_Steps p.
Proof.
  intros Hp. destruct (plan_known s a b) as [Ha Hb]; [congruence|].
  destruct (decide (a = b)) as [->|Hne].
  - unfold PlanJoinPath in Hp. destruct Hb as [r Hr]. rewrite Hr, bool_decide_eq_true_2 in Hp by done.
    injection Hp as <-. intros w. simpl. split.
    + intros [_ Hmin]. specialize (Hmin [] eq_refl). destruct w; [done|]. simpl in Hmin. lia.
    + intros ->. split; [done|]. simpl. lia.
  - destruct (plan_cases s a b Hne Ha Hb) as [H|[[H _]|[(q & H & Hw)|(cs & found & H & _)]]]; try congruence.
    by assert (q = p) as -> by congruence.
Qed.

Lemma ambiguous_iff s a b cs : PlanJoinPath s a b = AmbiguousJoinPath cs ->
  exists found, cs = number_paths found /\ (2 <= length cs)%nat /\
    forall w, shortest_join s a b w <-> w ∈ jp_Steps <$> cs.
Proof.
  intros Hp. destruct (plan_known s a b) as [Ha Hb]; [congruence|].
  assert (a <> b) as Hne.
  { intros ->. unfold PlanJoinPath in Hp. destruct Hb as [r Hr].
    by rewrite Hr, bool_decide_eq_true_2 in Hp. }
  destruct (plan_cases s a b Hne Ha Hb) as [H|[[H _]|[(q & H & Hw)|(cs' & found & H & ?)]]]; try congruence.
  assert (cs' = cs) as -> by congruence. eauto.
Qed.

Lemma resolved_shortest s a b selected p :
  ResolveJoinPath s a b selected = Planned p -> shortest_join s a b (jp_Steps p).
Proof.
  unfold ResolveJoinPath. destruct (PlanJoinPath s a b) as [q|cs|e] eqn:Hp; [| |done].
  - case_bool_decide; [|done]. intros [= ->]. by apply (planned_iff s a b p Hp).
  - case_bool_decide; [done|]. destruct (list_find _ cs) as [[i c]|] eqn:Hf; [|done].
    intros [= ->]. apply list_find_Some in Hf as (Hi & Hid & _).
    destruct (ambiguous_iff s a b cs Hp) as (_ & _ & _ & Hw). apply Hw.
    apply list_elem_of_fmap. exists p. split; [done|]. by eapply list_elem_of_lookup_2.
Qed.

(** ** Claims *)

(** C15: a planned join path is a walk over foreign keys from the first relation
    to the second, no walk is shorter, and no other walk is as short: the path
    was mechanically unique. *)
Theorem planned_path_shortest s a b p :
  PlanJoinPath s a b = Planned p ->
  joins s a (jp_Steps p) b /\
  forall w, joins s a w b -> (length (jp_Steps p) <= length w)%nat /\
    (length w = length (jp_Steps p) -> w = jp_Steps p).
Proof.
  intros Hp. pose proof (planned_iff s a b p Hp) as Hw.
  destruct (proj2 (Hw _) eq_refl) as [Hj Hmin]. split; [done|].
  intros w Hjw. split; [by apply Hmin|]. intros Hl. apply Hw. split; [done|]. by rewrite Hl.
Qed.

(** An ambiguity is reported with at least two candidates, their steps are
    exactly the shortest walks between the relations, and they carry the
    identities [path_1], [path_2], ... in that order. *)
Theorem ambiguity_exact s a b cs :
  PlanJoinPath s a b = AmbiguousJoinPath cs ->
  (2 <= length cs)%nat /\
  (forall w, w ∈ jp_Steps <$> cs <-> shortest_join s a b w) /\
  (forall i c, cs !! i = Some c -> jp_ID c = "path_" +:+ pretty (Z.of_nat i + 1)).
Proof.
  intros (found & Hcs & Hl & Hw)%ambiguous_iff. split_and!; [done|by intros w; rewrite Hw|].
  intros i c Hi. rewrite Hcs in Hi. unfold number_paths in Hi. rewrite list_lookup_imap in Hi.
  destruct (sort_by _ _ !! i); [|done]. by injection Hi as <-.
Qed.

(** Between two known relations connected by at most [MaxJoinDepth] foreign
    keys the planner never claims that they are not connected: it gives a path
    or an ambiguity, or reports that its work bound was exceeded. *)
Theorem connected_relations_planned s a b w :
  (exists r, Relation s a = Ok r) -> (exists r, Relation s b = Ok r) ->
  joins s a w b -> (length w <= MaxJoinDepth)%nat ->
  (exists p, PlanJoinPath s a b = Planned p) \/ (exists cs, PlanJoinPath s a b = AmbiguousJoinPath cs) \/
  PlanJoinPath s a b = JoinError "foreign-key path search exceeded %d bounded steps".
Proof.
  intros Ha Hb Hw Hl. destruct (decide (a = b)) as [->|Hne].
  - left. unfold PlanJoinPath. destruct Hb as [r ->]. rewrite bool_decide_eq_true_2 by done. by eexists.
  - destruct (plan_cases s a b Hne Ha Hb) as [H|[[H Hno]|[(q & H & _)|(cs & found & H & _)]]]; eauto.
    specialize (Hno w Hw). lia.
Qed.

(** A resolved path is always a shortest walk; without a selection it is the
    only one, and with a selection it is the candidate that carries the selected
    identity. *)
Theorem resolved_path_shortest s a b selected p :
  ResolveJoinPath s a b selected = Planned p ->
  shortest_join s a b (jp_Steps p) /\
  (selected = "" -> forall w, shortest_join s a b w -> w = jp_Steps p) /\
  (selected <> "" -> jp_ID p = selected).
Proof.
  intros H. split; [by eapply resolved_shortest|]. unfold ResolveJoinPath in H.
  destruct (PlanJoinPath s a b) as [q|cs|e] eqn:Hp; [| |done].
  - case_bool_decide as Hs; [|done]. injection H as ->. pose proof (planned_iff s a b p Hp) as Hw.
    split; [by intros _ w ?%Hw|done].
  - case_bool_decide as Hs; [done|]. destruct (list_find _ cs) as [[i c]|] eqn:Hf; [|done].
    injection H as ->. by apply list_find_Some in Hf as (_ & Hid & _).
Qed.

(** ** Witnesses on the sample schema: [rel_1] customers, [rel_2] items, [rel_3] orders *)

Definition sample_path : JoinPath :=
  mkJoinPath "path_1" [mkJoinStep "rel_2" "rel_3" "rel_2_fk_1" JoinAlongForeignKey].
Lemma planned_path_shortest_witness :
  PlanJoinPath sample_snapshot "rel_2" "rel_3" = Planned sample_path /\
  joins sample_snapshot "rel_2" (jp_Steps sample_path) "rel_3".
Proof.
  split; [vm_compute; reflexivity|].
  apply (planned_path_shortest sample_snapshot "rel_2" "rel_3" sample_path). vm_compute. reflexivity.
Defined.

Definition sample_candidates : list JoinPath :=
  [mkJoinPath "path_1" [mkJoinStep "rel_2" "rel_3" "rel_2_fk_1" JoinAlongForeignKey;
                        mkJoinStep "rel_3" "rel_1" "rel_3_fk_1" JoinAlongForeignKey];
   mkJoinPath "path_2" [mkJoinStep "rel_2" "rel_3" "rel_2_fk_1" JoinAlongForeignKey;
                        mkJoinStep "rel_3" "rel_1" "rel_3_fk_2" JoinAlongForeignKey]].
Lemma ambiguity_exact_witness :
  PlanJoinPath sample_snapshot "rel_2" "rel_1" = AmbiguousJoinPath sample_candidates /\
  (2 <= length sample_candidates)%nat /\
  (forall w, w ∈ jp_Steps <$> sample_candidates <-> shortest_join sample_snapshot "rel_2" "rel_1" w).
Proof.
  split; [vm_compute; reflexivity|].
  destruct (ambiguity_exact sample_snapshot "rel_2" "rel_1" sample_candidates) as (H1 & H2 & _).
  - vm_compute. reflexivity.
  - split; [exact H1|exact H2].
Defined.

Lemma connected_relations_planned_witness :
  (exists p, PlanJoinPath sample_snapshot "rel_2" "rel_3" = Planned p) \/
  (exists cs, PlanJoinPath sample_snapshot "rel_2" "rel_3" = AmbiguousJoinPath cs) \/
  PlanJoinPath sample_snapshot "rel_2" "rel_3" = JoinError "foreign-key path search exceeded %d bounded steps".
Proof.
  apply (connected_relations_planned sample_snapshot "rel_2" "rel_3" (jp_Steps sample_path)).
  - eexists. vm_compute. reflexivity.
  - eexists. vm_compute. reflexivity.
  - apply (planned_iff sample_snapshot "rel_2" "rel_3" sample_path); [vm_compute|]; reflexivity.
  - simpl. unfold MaxJoinDepth. lia.
Defined.

Definition sample_selected : JoinPath :=
  mkJoinPath "path_2" [mkJoinStep "rel_2" "rel_3" "rel_2_fk_1" JoinAlongForeignKey;
                       mkJoinStep "rel_3" "rel_1" "rel_3_fk_2" JoinAlongForeignKey].
Lemma resolved_path_shortest_witness :
  ResolveJoinPath sample_snapshot "rel_2" "rel_1" "path_2" = Planned sample_selected /\
  shortest_join sample_snapshot "rel_2" "rel_1" (jp_Steps sample_selected) /\ jp_ID sample_selected = "path_2".
Proof.
  split; [vm_compute; reflexivity|].
  destruct (resolved_path_shortest sample_snapshot "rel_2" "rel_1" "path_2" sample_selected) as (H1 & _ & H2).
  - vm_compute. reflexivity.
  - split; [exact H1|]. apply H2. discriminate.
Defined.
