(* ===== verification/Intent.v ===== *)
(** * Relational intents and their validation

    Models [internal/datasource/relational_intent_types.go],
    [relational_intent_literals.go], [relational_intent_projection_validate.go]
    and [relational_intent_validate.go], with the parts of [time.Parse],
    [strconv.ParseInt] and the regular expressions they use. *)
From Stdlib Require Import Ascii.
From S2P Require Import Prelude Schema.
From stdpp Require Import sorting base tactics strings list gmap numbers pretty.
From stdpp Require Import list options.
Open Scope Z_scope.
Open Scope go_scope.

Definition RelationalIntentV1 : string := "omnidex.relational-intent.v1".
Definition MaxIntentFilterValues : Z := 50.
Definition MaxIntentRows : Z := 500.

Definition ResultRecords : string := "records".
Definition ResultScalar : string := "scalar".
Definition ResultRanking : string := "ranking".
Definition ResultDistribution : string := "distribution".
Definition ResultComparison : string := "comparison".
Definition ResultTrend : string := "trend".
Definition ResultExistence : string := "existence".

Definition AggregateCountRows : string := "count_rows".
Definition AggregateCount : string := "count".
Definition AggregateCountDistinct : string := "count_distinct".
Definition AggregateSum : string := "sum".
Definition AggregateAverage : string := "average".
Definition AggregateMinimum : string := "minimum".
Definition AggregateMaximum : string := "maximum".

Definition BucketDay : string := "day".
Definition BucketWeek : string := "week".
Definition BucketMonth : string := "month".
Definition BucketQuarter : string := "quarter".
Definition BucketYear : string := "year".

Definition FilterEqual : string := "eq".
Definition FilterNotEqual : string := "neq".
Definition FilterGT : string := "gt".
Definition FilterGTE : string := "gte".
Definition FilterLT : string := "lt".
Definition FilterLTE : string := "lte".
Definition FilterIn : string := "in".
Definition FilterNotIn : string := "not_in".
Definition FilterIsNull : string := "is_null".
Definition FilterIsNotNull : string := "is_not_null".
Definition FilterContains : string := "contains".
Definition FilterPrefix : string := "prefix".

Definition LiteralString : string := "string".
Definition LiteralInteger : string := "integer".
Definition LiteralDecimal : string := "decimal".
Definition LiteralBoolean : string := "boolean".
Definition LiteralTimestamp : string := "timestamp".
Definition LiteralDate : string := "date".
Definition LiteralUUID : string := "uuid".

Definition WindowHour : string := "hour".
Definition WindowDay : string := "day".
Definition WindowWeek : string := "week".
Definition WindowMonth : string := "month".
Definition WindowYear : string := "year".

Definition OrderAscending : string := "asc".
Definition OrderDescending : string := "desc".

Record IntentLiteral := mkLiteral { il_Type : string; il_Value : string }.
Record RelationalProjection := mkProjection {
  rp_FieldID : string;
  rp_Aggregate : string;
  rp_TimeBucket : string
}.
Record RelationalPredicate := mkPredicate {
  pr_FieldID : string;
  pr_Operator : string;
  pr_Values : slice IntentLiteral
}.
Record TemporalWindow := mkWindow {
  tw_FieldID : string;
  tw_Unit : string;
  tw_Amount : Z;
  tw_AsOf : string
}.
Record AggregatePredicate := mkAggregatePredicate {
  ap_Aggregate : string;
  ap_FieldID : string;
  ap_Operator : string;
  ap_Value : IntentLiteral
}.
Record OrderTerm := mkOrderTerm { ot_Projection : Z; ot_Direction : string }.
Record ExistencePredicate := mkExistence {
  ex_RelationID : string;
  ex_Negated : bool;
  ex_Filters : slice RelationalPredicate
}.
Record RelationalIntent := mkIntent {
  ri_Schema : string;
  ri_SourceID : string;
  ri_FromRelationID : string;
  ri_Shape : string;
  ri_Projections : slice RelationalProjection;
  ri_Filters : slice RelationalPredicate;
  ri_TemporalWindows : slice TemporalWindow;
  ri_Exists : slice ExistencePredicate;
  ri_GroupBy : slice Z;
  ri_Having : slice AggregatePredicate;
  ri_OrderBy : slice OrderTerm;
  ri_Limit : Z
}.

#[global] Instance IntentLiteral_eq : EqDecision IntentLiteral. Proof. solve_decision. Defined.
#[global] Instance RelationalProjection_eq : EqDecision RelationalProjection. Proof. solve_decision. Defined.
#[global] Instance RelationalPredicate_eq : EqDecision RelationalPredicate. Proof. solve_decision. Defined.
#[global] Instance TemporalWindow_eq : EqDecision TemporalWindow. Proof. solve_decision. Defined.
#[global] Instance AggregatePredicate_eq : EqDecision AggregatePredicate. Proof. solve_decision. Defined.
#[global] Instance OrderTerm_eq : EqDecision OrderTerm. Proof. solve_decision. Defined.
#[global] Instance ExistencePredicate_eq : EqDecision ExistencePredicate. Proof. solve_decision. Defined.
#[global] Instance RelationalIntent_eq : EqDecision RelationalIntent. Proof. solve_decision. Defined.

(** ** Literal syntax *)

Abbreviation bytes := (list ascii).
Abbreviation to_bytes := String.list_ascii_of_string.
Abbreviation of_bytes := String.string_of_list_ascii.

Definition digit_value (a : ascii) : option Z :=
  if byte_in 48 57 a then Some (Z.of_N (Ascii.N_of_ascii a) - 48) else None.
Definition is_digit (a : ascii) : bool := byte_in 48 57 a.
Definition is_hex (a : ascii) : bool := (byte_in 48 57 a || byte_in 97 102 a || byte_in 65 70 a)%bool.

Definition strip_sign (l : bytes) : bytes :=
  match l with a :: r => if a == byte 45 then r else l | [] => l end.
(** [0|[1-9][0-9]*] *)
Definition whole_number (l : bytes) : bool :=
  match l with
  | [] => false
  | a :: r => if a == byte 48 then r == [] else (byte_in 49 57 a && forallb is_digit r)%bool
  end.
(** The bytes before the first ['.'] and, if there is one, those after it. *)
Fixpoint split_dot (l : bytes) : bytes * option bytes :=
  match l with
  | [] => ([], None)
  | a :: r => if a == byte 46 then ([], Some r) else let '(x, y) := split_dot r in (a :: x, y)
  end.

Definition intentIntegerPattern (s : string) : bool := whole_number (strip_sign (to_bytes s)).
Definition intentDecimalPattern (s : string) : bool :=
  let '(whole, fraction) := split_dot (strip_sign (to_bytes s)) in
  (whole_number whole &&
   match fraction with None => true | Some f => negb (f == []) && forallb is_digit f end)%bool.
Definition intentUUIDPattern (s : string) : bool :=
  let l := to_bytes s in
  (Nat.eqb (length l) 36 &&
   forallb (fun '(i, a) => if bool_decide (i ∈ [8; 13; 18; 23]%nat) then a == byte 45 else is_hex a)
     (imap pair l))%bool.

Definition digits_value (l : bytes) : Z :=
  foldl (fun n a => n * 10 + default 0 (digit_value a)) 0 l.
(** [strconv.ParseInt(s, 10, 64)] on what [intentIntegerPattern] accepts. *)
Definition parse_int64 (s : string) : option Z :=
  let l := to_bytes s in
  let n := digits_value (strip_sign l) in
  let v := if strip_sign l == l then n else - n in
  if ((- 2 ^ 63 <=? v) && (v <? 2 ^ 63))%bool then Some v else None.

(** ** [time.Parse] for [time.RFC3339] and ["2006-01-02"]

    A time is kept by its civil fields and its zone offset in seconds. *)
Record Time := mkTime {
  tm_year : Z; tm_month : Z; tm_day : Z;
  tm_hour : Z; tm_minute : Z; tm_second : Z; tm_nanosecond : Z;
  tm_offset : Z
}.

Definition getnum (fixed : bool) (l : bytes) : option (Z * bytes) :=
  match l with
  | [] => None
  | a :: l1 =>
      match digit_value a, l1 with
      | None, _ => None
      | Some x, b :: l2 =>
          match digit_value b with
          | Some y => Some (x * 10 + y, l2)
          | None => if fixed then None else Some (x, l1)
          end
      | Some x, [] => if fixed then None else Some (x, [])
      end
  end.
Definition skip_byte (c : N) (l : bytes) : option bytes :=
  match l with a :: l => if a == byte c then Some l else None | [] => None end.
Definition in_range (lo hi : Z) (r : Z * bytes) : option (Z * bytes) :=
  if ((lo <=? r.1) && (r.1 <=? hi))%bool then Some r else None.

Definition leap_year (y : Z) : bool :=
  ((y mod 4 =? 0) && (negb (y mod 100 =? 0) || (y mod 400 =? 0)))%bool.
Definition days_in (month year : Z) : Z :=
  if ((month =? 2) && leap_year year)%bool then 29
  else if month =? 2 then 28
  else if bool_decide (month ∈ [4; 6; 9; 11]) then 30 else 31.

Definition parse_year (l : bytes) : option (Z * bytes) :=
  if (Nat.leb 4 (length l) && forallb is_digit (take 4 l))%bool
  then Some (digits_value (take 4 l), drop 4 l) else None.
Definition parse_civil_date (l : bytes) : option (Z * Z * Z * bytes) :=
  y ← parse_year l;
  l ← skip_byte 45 y.2;
  m ← getnum true l ≫= in_range 1 12;
  l ← skip_byte 45 m.2;
  d ← getnum true l;
  if ((1 <=? d.1) && (d.1 <=? days_in m.1 y.1))%bool then Some (y.1, m.1, d.1, d.2) else None.

(** An optional fraction of a second: [.] or [,] and digits; nine count. *)
Fixpoint take_digits (l : bytes) : bytes :=
  match l with a :: r => if is_digit a then a :: take_digits r else [] | [] => [] end.
Definition parse_fraction (l : bytes) : Z * bytes :=
  match l with
  | p :: r =>
      if ((p == byte 46) || (p == byte 44))%bool then
        match take_digits r with
        | [] => (0, l)
        | ds => let shown := take 9 ds in
                (digits_value shown * 10 ^ (9 - Z.of_nat (length shown)), drop (length ds) r)
        end
      else (0, l)
  | [] => (0, l)
  end.

Definition parse_zone (l : bytes) : option (Z * bytes) :=
  match l with
  | a :: r =>
      if a == byte 90 then Some (0, r)
      else match l with
           | sign :: h1 :: h2 :: colon :: m1 :: m2 :: rest =>
               if negb (colon == byte 58) then None else
               h ← getnum true [h1; h2];
               m ← getnum true [m1; m2];
               if ((24 <? h.1) || (60 <? m.1))%bool then None else
               let offset := (h.1 * 60 + m.1) * 60 in
               if sign == byte 43 then Some (offset, rest)
               else if sign == byte 45 then Some (- offset, rest) else None
           | _ => None
           end
  | [] => None
  end.

Definition parse_rfc3339 (s : string) : option Time :=
  date ← parse_civil_date (to_bytes s);
  let '(year, month, day, l) := (date : Z * Z * Z * bytes) in
  l ← skip_byte 84 l;
  hour ← getnum false l ≫= in_range 0 23;
  l ← skip_byte 58 hour.2;
  minute ← getnum true l ≫= in_range 0 59;
  l ← skip_byte 58 minute.2;
  second ← getnum true l ≫= in_range 0 59;
  let '(nsec, l) := parse_fraction second.2 in
  zone ← parse_zone l;
  if zone.2 == [] then Some (mkTime year month day hour.1 minute.1 second.1 nsec zone.1) else None.

Definition parse_date (s : string) : option Time :=
  date ← parse_civil_date (to_bytes s);
  let '(year, month, day, l) := (date : Z * Z * Z * bytes) in
  if l == [] then Some (mkTime year month day 0 0 0 0 0) else None.

(** ** Literals *)

Definition validateLiteral (literal : IntentLiteral) : result unit :=
  let type := il_Type literal in
  let value := il_Value literal in
  if type == LiteralString then
    reject "string literal is invalid or exceeds %d bytes" when contains_nul value; Ok tt
  else if type == LiteralInteger then
    reject "integer literal %q is invalid" when negb (intentIntegerPattern value);
    match parse_int64 value with
    | None => Err "integer literal is outside signed 64-bit range"
    | Some _ => Ok tt
    end
  else if type == LiteralDecimal then
    reject "decimal literal %q is invalid" when negb (intentDecimalPattern value); Ok tt
  else if type == LiteralBoolean then
    reject "boolean literal must be true or false" when ((value != "true") && (value != "false"))%bool; Ok tt
  else if type == LiteralTimestamp then
    match parse_rfc3339 value with None => Err "timestamp literal is invalid: %w" | Some _ => Ok tt end
  else if type == LiteralDate then
    match parse_date value with None => Err "date literal is invalid: %w" | Some _ => Ok tt end
  else if type == LiteralUUID then
    reject "UUID literal is invalid" when negb (intentUUIDPattern value); Ok tt
  else Err "unsupported literal type %q".

(** The dynamic types a parameter can have. *)
Inductive value :=
| VString (s : string)
| VInt (z : Z)
| VBool (b : bool)
| VTime (t : Time).

Definition parseLiteral (literal : IntentLiteral) : result value :=
  check validateLiteral literal;
  let type := il_Type literal in
  let v := il_Value literal in
  if type == LiteralInteger then
    match parse_int64 v with Some z => Ok (VInt z) | None => Err "strconv.ParseInt" end
  else if type == LiteralBoolean then Ok (VBool (v == "true"))
  else if type == LiteralTimestamp then
    match parse_rfc3339 v with Some t => Ok (VTime t) | None => Err "time.Parse" end
  else if type == LiteralDate then
    match parse_date v with Some t => Ok (VTime t) | None => Err "time.Parse" end
  else Ok (VString v).

Definition expected_literals (category : string) : list string :=
  if category == TypeInteger then [LiteralInteger]
  else if category == TypeDecimal then [LiteralInteger; LiteralDecimal]
  else if category == TypeText then [LiteralString]
  else if category == TypeBoolean then [LiteralBoolean]
  else if category == TypeTemporal then [LiteralTimestamp]
  else if category == TypeDate then [LiteralDate]
  else if category == TypeUUID then [LiteralUUID]
  else [].

Definition validateLiteralForColumn (literal : IntentLiteral) (column : SchemaColumn) : result unit :=
  let expected := expected_literals (sc_TypeCategory column) in
  reject "field type %q is unsupported in filters" when (expected == []);
  reject "literal type %q is incompatible with field type %q"
    when negb (bool_decide (il_Type literal ∈ expected));
  let allowed := elems (sc_AllowedValues column) in
  reject "literal %q is not an allowed value for field %q"
    when (negb (allowed == []) && negb (bool_decide (il_Value literal ∈ allowed)))%bool;
  validateLiteral literal.

(** ** Validation against a snapshot *)

Definition numeric (category : string) : bool :=
  bool_decide (category ∈ [TypeInteger; TypeDecimal]).
Definition temporal (category : string) : bool :=
  bool_decide (category ∈ [TypeTemporal; TypeDate]).

Definition validateAggregate (snapshot : SchemaSnapshot) (operation fieldID : string) : result unit :=
  if operation == AggregateCountRows then
    reject "count_rows must not name a field" when (fieldID != ""); Ok tt
  else
    reject "aggregate %q requires a field" when (fieldID == "");
    let? rc := Column snapshot fieldID in
    let category := sc_TypeCategory rc.2 in
    if bool_decide (operation ∈ [AggregateCount; AggregateCountDistinct]) then Ok tt
    else if bool_decide (operation ∈ [AggregateSum; AggregateAverage]) then
      reject "aggregate %q requires a numeric field" when negb (numeric category); Ok tt
    else if bool_decide (operation ∈ [AggregateMinimum; AggregateMaximum]) then
      reject "aggregate %q does not support enum fields" when negb (elems (sc_AllowedValues rc.2) == []);
      reject "aggregate %q does not support field type %q"
        when negb (bool_decide (category ∈ [TypeInteger; TypeDecimal; TypeText; TypeTemporal; TypeDate]));
      Ok tt
    else Err "unsupported aggregate %q".

Definition projection_forms (p : RelationalProjection) : Z :=
  (if rp_Aggregate p != "" then 1 else 0) + (if rp_TimeBucket p != "" then 1 else 0)
  + (if ((rp_Aggregate p == "") && (rp_TimeBucket p == "") && (rp_FieldID p != ""))%bool then 1 else 0).

Definition validateProjection (snapshot : SchemaSnapshot) (projection : RelationalProjection) : result unit :=
  reject "must express exactly one field, aggregate, or time bucket"
    when negb (projection_forms projection =? 1);
  if rp_Aggregate projection != "" then
    validateAggregate snapshot (rp_Aggregate projection) (rp_FieldID projection)
  else
    let? rc := Column snapshot (rp_FieldID projection) in
    if rp_TimeBucket projection != "" then
      reject "time bucket field must be temporal or date" when negb (temporal (sc_TypeCategory rc.2));
      reject "unsupported time bucket %q"
        when negb (bool_decide (rp_TimeBucket projection ∈
                     [BucketDay; BucketWeek; BucketMonth; BucketQuarter; BucketYear]));
      Ok tt
    else Ok tt.

Definition comparison_operators : list string := [FilterGT; FilterGTE; FilterLT; FilterLTE].
Definition single_operators : list string :=
  [FilterEqual; FilterNotEqual; FilterGT; FilterGTE; FilterLT; FilterLTE; FilterContains; FilterPrefix].

Definition validate_value (column : SchemaColumn) (seenValues : gset string) (value : IntentLiteral)
    : result (gset string) :=
  let key := il_Type value +:+ String (byte 0) (il_Value value) in
  reject "operator %q repeats one literal" when bool_decide (key ∈ seenValues);
  check validateLiteralForColumn value column;
  Ok ({[ key ]} ∪ seenValues).

Definition validatePredicate (snapshot : SchemaSnapshot) (predicate : RelationalPredicate)
    (requiredRelationID : string) : result unit :=
  let? rc := Column snapshot (pr_FieldID predicate) in
  let column := rc.2 in
  reject "field %q is outside existence relation %q"
    when ((requiredRelationID != "") && (sr_ID rc.1 != requiredRelationID))%bool;
  let values := elems (pr_Values predicate) in
  let valueCount := Z.of_nat (length values) in
  let operator := pr_Operator predicate in
  if bool_decide (operator ∈ [FilterIsNull; FilterIsNotNull]) then
    reject "operator %q accepts no values" when negb (valueCount =? 0); Ok tt
  else
    check (if bool_decide (operator ∈ [FilterIn; FilterNotIn]) then
             reject "operator %q requires 1..%d values"
               when ((valueCount =? 0) || (MaxIntentFilterValues <? valueCount))%bool; Ok tt
           else if bool_decide (operator ∈ single_operators) then
             reject "operator %q requires exactly one value" when negb (valueCount =? 1); Ok tt
           else Err "unsupported filter operator %q");
    check (if bool_decide (operator ∈ [FilterContains; FilterPrefix]) then
             reject "operator %q requires a non-enum text field"
               when ((sc_TypeCategory column != TypeText) || negb (elems (sc_AllowedValues column) == []))%bool;
             Ok tt
           else if bool_decide (operator ∈ comparison_operators) then
             reject "operator %q does not support field type %q"
               when negb (numeric (sc_TypeCategory column) || temporal (sc_TypeCategory column)); Ok tt
           else Ok tt);
    check loop (validate_value column) ∅ values;
    Ok tt.

Definition validateTemporalWindow (snapshot : SchemaSnapshot) (window : TemporalWindow) : result unit :=
  let? rc := Column snapshot (tw_FieldID window) in
  let category := sc_TypeCategory rc.2 in
  reject "temporal window field must be temporal or date" when negb (temporal category);
  reject "temporal window amount must be within 1..10000"
    when ((tw_Amount window <=? 0) || (10000 <? tw_Amount window))%bool;
  check (if tw_Unit window == WindowHour then
           reject "hour windows do not support date fields" when (category == TypeDate); Ok tt
         else if bool_decide (tw_Unit window ∈ [WindowDay; WindowWeek; WindowMonth; WindowYear]) then Ok tt
         else Err "unsupported temporal window unit %q");
  match parse_rfc3339 (tw_AsOf window) with
  | None => Err "temporal window as_of must be RFC3339: %w"
  | Some _ => Ok tt
  end.

Definition validateExistence (snapshot : SchemaSnapshot) (exists_ : ExistencePredicate) : result unit :=
  check Relation snapshot (ex_RelationID exists_);
  for_each (fun p => validatePredicate snapshot p (ex_RelationID exists_)) (elems (ex_Filters exists_)).

(** [intent.Projections[i]] for an index that was checked. *)
Definition projection_at (intent : RelationalIntent) (i : Z) : option RelationalProjection :=
  if i <? 0 then None else elems (ri_Projections intent) !! Z.to_nat i.

Definition validate_group (intent : RelationalIntent) (seen : gset Z) (i : Z) : result (gset Z) :=
  match projection_at intent i with
  | None => Err "group_by projection %d is out of range"
  | Some projection =>
      reject "group_by projection %d is an aggregate" when (rp_Aggregate projection != "");
      reject "group_by repeats projection %d" when bool_decide (i ∈ seen);
      Ok ({[ i ]} ∪ seen)
  end.
Definition validateGrouping (intent : RelationalIntent) : result unit :=
  let groups := elems (ri_GroupBy intent) in
  let? seen := loop (validate_group intent) ∅ groups in
  if groups == [] then Ok tt
  else for_each (fun '(index, projection) =>
         reject "non-aggregate projection %d is not grouped"
           when ((rp_Aggregate projection == "") && negb (bool_decide (Z.of_nat index ∈ seen)))%bool;
         Ok tt) (imap pair (elems (ri_Projections intent))).

Definition validateAggregatePredicate (snapshot : SchemaSnapshot) (predicate : AggregatePredicate)
    : result unit :=
  check validateAggregate snapshot (ap_Aggregate predicate) (ap_FieldID predicate);
  reject "having supports count, sum, and average aggregates only"
    when negb (bool_decide (ap_Aggregate predicate ∈
      [AggregateCountRows; AggregateCount; AggregateCountDistinct; AggregateSum; AggregateAverage]));
  reject "having operator %q is unsupported"
    when negb (bool_decide (ap_Operator predicate ∈
      [FilterEqual; FilterNotEqual; FilterGT; FilterGTE; FilterLT; FilterLTE]));
  reject "having literal must be numeric"
    when negb (bool_decide (il_Type (ap_Value predicate) ∈ [LiteralInteger; LiteralDecimal]));
  validateLiteral (ap_Value predicate).

Definition validate_order_term (intent : RelationalIntent) (seen : gset Z) (term : OrderTerm)
    : result (gset Z) :=
  reject "order projection %d is out of range"
    when ((ot_Projection term <? 0) ||
          (Z.of_nat (length (elems (ri_Projections intent))) <=? ot_Projection term))%bool;
  reject "order direction %q is unsupported"
    when ((ot_Direction term != OrderAscending) && (ot_Direction term != OrderDescending))%bool;
  reject "order repeats projection %d" when bool_decide (ot_Projection term ∈ seen);
  Ok ({[ ot_Projection term ]} ∪ seen).
Definition validateOrder (intent : RelationalIntent) : result unit :=
  check loop (validate_order_term intent) ∅ (elems (ri_OrderBy intent)); Ok tt.

Definition count_where {A} (f : A -> bool) (l : list A) : nat := length (List.filter f l).

Definition validateResultShape (intent : RelationalIntent) : result unit :=
  let projections := elems (ri_Projections intent) in
  let aggregates := count_where (fun p => rp_Aggregate p != "") projections in
  let buckets := count_where (fun p => rp_TimeBucket p != "") projections in
  let grouped := negb (elems (ri_GroupBy intent) == []) in
  let having := negb (elems (ri_Having intent) == []) in
  let ordered := negb (elems (ri_OrderBy intent) == []) in
  let shape := ri_Shape intent in
  let none := Nat.eqb aggregates 0 in
  check (if shape == ResultRecords then
           reject "records shape requires plain projections without grouping or aggregates"
             when ((projections == []) || negb none || negb (Nat.eqb buckets 0) || grouped || having)%bool; Ok tt
         else if shape == ResultScalar then
           reject "scalar shape requires exactly one aggregate projection"
             when (negb (Nat.eqb (length projections) 1) || negb (Nat.eqb aggregates 1) || grouped || ordered)%bool;
           Ok tt
         else if shape == ResultRanking then
           reject "ranking shape requires grouping, an aggregate, and ordering"
             when (none || negb grouped || negb ordered)%bool; Ok tt
         else if bool_decide (shape ∈ [ResultDistribution; ResultComparison]) then
           reject "shape %q requires grouping and an aggregate" when (none || negb grouped)%bool; Ok tt
         else if shape == ResultTrend then
           reject "trend shape requires a grouped time bucket and aggregate"
             when (none || Nat.eqb buckets 0 || negb grouped)%bool; Ok tt
         else if shape == ResultExistence then
           reject "existence shape does not accept projections, grouping, having, or ordering"
             when (negb (projections == []) || grouped || having || ordered)%bool; Ok tt
         else Err "unsupported result shape %q");
  reject "aggregate projections require grouping outside scalar shape"
    when (negb none && (shape != ResultScalar) && negb grouped)%bool;
  Ok tt.

(** Go wraps the error of an element with its position. *)
Definition wrapped (e : string) (r : result unit) : result unit :=
  match r with Ok u => Ok u | Err _ => Err e end.

(** [RelationalIntent.Validate] *)
Definition validate_intent (snapshot : SchemaSnapshot) (intent : RelationalIntent) : result unit :=
  reject "relational intent requires a valid PostgreSQL schema snapshot"
    when ((ss_Schema snapshot != SchemaSnapshotV1) || (ss_Driver snapshot != DriverPostgres)
          || (ss_SourceID snapshot == ""))%bool;
  reject "relational intent schema must be %q" when (ri_Schema intent != RelationalIntentV1);
  reject "relational intent source %q does not match snapshot source"
    when (ri_SourceID intent != ss_SourceID snapshot);
  check Relation snapshot (ri_FromRelationID intent);
  reject "relational intent limit must be within 1..%d"
    when ((ri_Limit intent <=? 0) || (MaxIntentRows <? ri_Limit intent))%bool;
  check for_each (fun p => wrapped "projection %d: %w" (validateProjection snapshot p))
    (elems (ri_Projections intent));
  check for_each (fun p => wrapped "filter %d: %w" (validatePredicate snapshot p "")) (elems (ri_Filters intent));
  check for_each (fun w => wrapped "temporal window %d: %w" (validateTemporalWindow snapshot w))
    (elems (ri_TemporalWindows intent));
  check for_each (fun e => wrapped "existence predicate %d: %w" (validateExistence snapshot e))
    (elems (ri_Exists intent));
  check validateGrouping intent;
  check for_each (fun p => wrapped "having predicate %d: %w" (validateAggregatePredicate snapshot p))
    (elems (ri_Having intent));
  check validateOrder intent;
  validateResultShape intent.
