(* ===== verification/SqlCompile.v ===== *)
(** * Compiling an intent to PostgreSQL

    Models [internal/datasource/postgres_compile.go],
    [postgres_compile_joins.go], [postgres_compile_predicates.go] and
    [postgres_compile_types.go].  The compiler object becomes explicit state:
    the aliases and joins once planned, and the parameters threaded through. *)
From Stdlib Require Import Ascii.
From S2P Require Import Prelude Schema JoinPlan Intent.
From stdpp Require Import sorting base tactics strings list gmap numbers pretty.
From stdpp Require Import list options.
Open Scope Z_scope.
Open Scope go_scope.

Definition CompiledQueryV1 : string := "omnidex.compiled-postgres-query.v1".

Record CompiledParameter := mkParameter { cp_Position : Z; cp_Type : string; cp_value : value }.
Record CompiledOutput := mkOutput {
  co_Name : string;
  co_FieldID : string;
  co_Aggregate : string;
  co_TypeCategory : string
}.
Record CompiledQuery := mkCompiled {
  cq_Schema : string;
  cq_SourceID : string;
  cq_SQL : string;
  cq_Parameters : list CompiledParameter;
  cq_Outputs : list CompiledOutput;
  cq_Limit : Z
}.
#[global] Instance CompiledOutput_eq : EqDecision CompiledOutput. Proof. solve_decision. Defined.

Definition Arguments_ (query : CompiledQuery) : list value := cp_value <$> cq_Parameters query.

(** ** Text *)

Definition join_text (sep : string) (parts : list string) : string := String.concat sep parts.

(** [strings.ReplaceAll] of one byte. *)
Definition replace_byte (c : ascii) (by_ : bytes) (s : string) : string :=
  of_bytes (concat ((fun a => if a == c then by_ else [a]) <$> to_bytes s)).

Definition dquote : ascii := byte 34.
Definition quoteIdentifier (identifier : string) : string :=
  String dquote (replace_byte dquote [dquote; dquote] identifier +:+ String dquote "").
Definition quoteQualified (schema relation : string) : string :=
  quoteIdentifier schema +:+ "." +:+ quoteIdentifier relation.

Definition backslash : ascii := byte 92.
Definition percent : ascii := byte 37.
Definition underscore : ascii := byte 95.
Definition escapeLikePattern (v : string) : string :=
  replace_byte underscore [backslash; underscore]
    (replace_byte percent [backslash; percent] (replace_byte backslash [backslash; backslash] v)).

Definition upper_byte (a : ascii) : ascii :=
  if byte_in 97 122 a then Ascii.ascii_of_N (Ascii.N_of_ascii a - 32) else a.
Definition to_upper (s : string) : string := of_bytes (upper_byte <$> to_bytes s).

Definition postgresOperator (operator : string) : string :=
  if operator == FilterEqual then "="
  else if operator == FilterNotEqual then "<>"
  else if operator == FilterGT then ">"
  else if operator == FilterGTE then ">="
  else if operator == FilterLT then "<"
  else if operator == FilterLTE then "<="
  else "".

(** ** Parameters *)

Abbreviation params := (list CompiledParameter).

Definition addParameter (ps : params) (kind : string) (v : value) : string * params :=
  let position := Z.of_nat (length ps) + 1 in
  ("$" +:+ pretty position, ps ++ [mkParameter position kind v]).

(** ** Relations that have to be joined *)

Definition add_field (snapshot : SchemaSnapshot) (from : string) (ids : gset string) (fieldID : string)
    : result (gset string) :=
  if fieldID == "" then Ok ids
  else let? rc := Column snapshot fieldID in
       Ok (if sr_ID rc.1 != from then {[ sr_ID rc.1 ]} ∪ ids else ids).

Definition referenced_fields (intent : RelationalIntent) : list string :=
  (rp_FieldID <$> elems (ri_Projections intent)) ++ (pr_FieldID <$> elems (ri_Filters intent))
  ++ (tw_FieldID <$> elems (ri_TemporalWindows intent)) ++ (ap_FieldID <$> elems (ri_Having intent)).

Definition requiredJoinRelationIDs (snapshot : SchemaSnapshot) (intent : RelationalIntent)
    : result (list string) :=
  let? ids := loop (add_field snapshot (ri_FromRelationID intent)) ∅ (referenced_fields intent) in
  Ok (sort_by id (elements ids)).

(** The order in which a map is ranged over only decides which error is reported. *)
Definition validateSelectedJoinTargets (snapshot : SchemaSnapshot) (intent : RelationalIntent)
    (selected : gmap string string) : result unit :=
  let? allowed := requiredJoinRelationIDs snapshot intent in
  let allowedSet : gset string := list_to_set (allowed ++ (ex_RelationID <$> elems (ri_Exists intent))) in
  for_each (fun '(relationID, pathID) =>
    check Relation snapshot relationID;
    reject "join path selection targets unreferenced relation %q"
      when negb (bool_decide (relationID ∈ allowedSet));
    reject "join path selection for relation %q is blank" when (pathID == "");
    Ok tt) (map_to_list selected).

(** ** Joins *)

Definition resolve_path (snapshot : SchemaSnapshot) (from target selected : string) : result JoinPath :=
  match ResolveJoinPath snapshot from target selected with
  | Planned path => Ok path
  | AmbiguousJoinPath _ => Err "relations %q and %q have %d equally short foreign-key paths"
  | JoinError e => Err e
  end.

Definition join_column_pair (snapshot : SchemaSnapshot) (step : JoinStep) (fromAlias toAlias : string)
    (owner : SchemaRelation) (fk : SchemaForeignKey) (ids : string * string) : result string :=
  let? local := Column snapshot ids.1 in
  let? referenced := Column snapshot ids.2 in
  if js_Direction step == JoinAlongForeignKey then
    reject "foreign key step does not match along direction"
      when ((js_FromRelationID step != sr_ID owner) || (js_ToRelationID step != sf_ReferencedRelationID fk))%bool;
    Ok (fromAlias +:+ "." +:+ quoteIdentifier (sc_Name local.2) +:+ " = " +:+ toAlias +:+ "."
        +:+ quoteIdentifier (sc_Name referenced.2))
  else if js_Direction step == JoinAgainstForeignKey then
    reject "foreign key step does not match reverse direction"
      when ((js_FromRelationID step != sf_ReferencedRelationID fk) || (js_ToRelationID step != sr_ID owner))%bool;
    Ok (fromAlias +:+ "." +:+ quoteIdentifier (sc_Name referenced.2) +:+ " = " +:+ toAlias +:+ "."
        +:+ quoteIdentifier (sc_Name local.2))
  else Err "unsupported join direction %q".

Definition joinCondition (snapshot : SchemaSnapshot) (step : JoinStep) (fromAlias toAlias : string)
    : result string :=
  let? ofk := findForeignKey snapshot (js_ForeignKeyID step) in
  let '(owner, fk) := (ofk : SchemaRelation * SchemaForeignKey) in
  let columnIDs := elems (sf_ColumnIDs fk) in
  let referencedIDs := elems (sf_ReferencedColumnIDs fk) in
  reject "foreign key %q has invalid column cardinality"
    when (negb (Nat.eqb (length columnIDs) (length referencedIDs)) || (columnIDs == []))%bool;
  let? parts := collect (join_column_pair snapshot step fromAlias toAlias owner fk)
                  (zip columnIDs referencedIDs) in
  Ok (join_text " AND " parts).

Definition alias_number (prefix : string) (n : nat) : string := prefix +:+ pretty (Z.of_nat n).

(** One step of a path: skipped when the relation is already joined. *)
Definition plan_step (snapshot : SchemaSnapshot) (st : gmap string string * list string) (step : JoinStep)
    : result (gmap string string * list string) :=
  let '(aliases, joins) := st in
  match aliases !! js_ToRelationID step with
  | Some _ => Ok st
  | None =>
      match aliases !! js_FromRelationID step with
      | None => Err "join path reaches relation %q before its parent"
      | Some fromAlias =>
          let? toRelation := Relation snapshot (js_ToRelationID step) in
          let toAlias := alias_number "t" (size aliases) in
          let? condition := joinCondition snapshot step fromAlias toAlias in
          Ok (<[js_ToRelationID step := toAlias]> aliases,
              joins ++ ["JOIN " +:+ quoteQualified (sr_Schema toRelation) (sr_Name toRelation) +:+ " AS "
                        +:+ toAlias +:+ " ON " +:+ condition])
      end
  end.

Abbreviation target_path := (string * JoinPath)%type.
Definition path_less (a b : target_path) : bool :=
  let la := length (jp_Steps a.2) in
  let lb := length (jp_Steps b.2) in
  if Nat.eqb la lb then str_lt a.1 b.1 else Nat.ltb la lb.
Definition path_le (a b : target_path) : Prop := path_less b a = false.
#[global] Instance path_le_dec : RelDecision path_le.
Proof. intros a b. unfold path_le. apply _. Defined.

Definition planJoins (snapshot : SchemaSnapshot) (intent : RelationalIntent) (selected : gmap string string)
    (aliases : gmap string string) : result (gmap string string * list string) :=
  let? targets := requiredJoinRelationIDs snapshot intent in
  let? paths := collect (fun target =>
    let? path := resolve_path snapshot (ri_FromRelationID intent) target (default "" (selected !! target)) in
    Ok (target, path)) targets in
  loop (fun st (tp : target_path) => loop (plan_step snapshot) st (jp_Steps tp.2)) (aliases, [])
    (merge_sort path_le paths).

(** ** Predicates *)

Definition field_text (alias : string) (column : SchemaColumn) : string :=
  alias +:+ "." +:+ quoteIdentifier (sc_Name column).

Definition add_literal (st : list string * params) (literal : IntentLiteral) : result (list string * params) :=
  let '(placeholders, ps) := st in
  let? v := parseLiteral literal in
  let '(placeholder, ps) := addParameter ps (il_Type literal) v in
  Ok (placeholders ++ [placeholder], ps).

Definition compilePredicate (snapshot : SchemaSnapshot) (predicate : RelationalPredicate) (alias : string)
    (ps : params) : result (string * params) :=
  reject "predicate field has no joined relation alias" when (alias == "");
  let? rc := Column snapshot (pr_FieldID predicate) in
  let field := field_text alias rc.2 in
  let operator := pr_Operator predicate in
  let values := elems (pr_Values predicate) in
  if operator == FilterIsNull then Ok (field +:+ " IS NULL", ps)
  else if operator == FilterIsNotNull then Ok (field +:+ " IS NOT NULL", ps)
  else if bool_decide (operator ∈ [FilterIn; FilterNotIn]) then
    let? st := loop add_literal ([], ps) values in
    let keyword := if operator == FilterNotIn then " NOT IN " else " IN " in
    Ok (field +:+ keyword +:+ "(" +:+ join_text ", " st.1 +:+ ")", st.2)
  else
    match values with
    | [] => Err "index out of range"
    | literal :: _ =>
        if bool_decide (operator ∈ [FilterContains; FilterPrefix]) then
          let v := escapeLikePattern (il_Value literal) in
          let v := if operator == FilterContains then String percent (v +:+ String percent "")
                   else v +:+ String percent "" in
          let '(placeholder, ps) := addParameter ps "string" (VString v) in
          Ok (field +:+ " LIKE " +:+ placeholder +:+ " ESCAPE '" +:+ String backslash "'", ps)
        else
          let? v := parseLiteral literal in
          let '(placeholder, ps) := addParameter ps (il_Type literal) v in
          Ok (field +:+ " " +:+ postgresOperator operator +:+ " " +:+ placeholder, ps)
    end.

Definition add_predicate (snapshot : SchemaSnapshot) (alias : string) (st : list string * params)
    (predicate : RelationalPredicate) : result (list string * params) :=
  let? part := compilePredicate snapshot predicate alias st.2 in
  Ok (st.1 ++ [part.1], part.2).

Definition compileExistence (snapshot : SchemaSnapshot) (intent : RelationalIntent)
    (selected : gmap string string) (exists_ : ExistencePredicate) (index : nat) (ps : params)
    : result (string * params) :=
  let relationID := ex_RelationID exists_ in
  let? path := resolve_path snapshot (ri_FromRelationID intent) relationID (default "" (selected !! relationID)) in
  match jp_Steps path with
  | [step] =>
      let? target := Relation snapshot relationID in
      let alias := alias_number "e" (S index) in
      let? condition := joinCondition snapshot step "t0" alias in
      let? st := loop (add_predicate snapshot alias) ([condition], ps) (elems (ex_Filters exists_)) in
      let expression := "EXISTS (SELECT 1 FROM " +:+ quoteQualified (sr_Schema target) (sr_Name target)
        +:+ " AS " +:+ alias +:+ " WHERE " +:+ join_text " AND " st.1 +:+ ")" in
      Ok (if ex_Negated exists_ then "NOT " +:+ expression else expression, st.2)
  | _ => Err "existence predicates require one direct foreign key; relation %q needs %d joins"
  end.

Section where_clause.
Context (snapshot : SchemaSnapshot) (intent : RelationalIntent) (selected : gmap string string).
Context (aliases : gmap string string).

Definition add_filter (st : list string * params) (predicate : RelationalPredicate)
  : result (list string * params) :=
let? rc := Column snapshot (pr_FieldID predicate) in
add_predicate snapshot (default "" (aliases !! sr_ID rc.1)) st predicate.

Definition add_window (st : list string * params) (window : TemporalWindow) : result (list string * params) :=
let '(parts, ps) := st in
let? rc := Column snapshot (tw_FieldID window) in
match parse_rfc3339 (tw_AsOf window) with
| None => Err "time.Parse"
| Some asOf =>
    let '(asOfParameter, ps) := addParameter ps "timestamp" (VTime asOf) in
    let '(intervalParameter, ps) := addParameter ps "interval"
      (VString (pretty (tw_Amount window) +:+ " " +:+ tw_Unit window +:+ "s")) in
    let field := field_text (default "" (aliases !! sr_ID rc.1)) rc.2 in
    Ok (parts ++ [field +:+ " >= " +:+ asOfParameter +:+ " - " +:+ intervalParameter +:+ "::interval AND "
                  +:+ field +:+ " <= " +:+ asOfParameter], ps)
end.

Definition add_existence (st : list string * params) (ie : nat * ExistencePredicate)
  : result (list string * params) :=
let? part := compileExistence snapshot intent selected ie.2 ie.1 st.2 in
Ok (st.1 ++ [part.1], part.2).

Definition compileWhere (ps : params) : result (string * params) :=
let? st := loop add_filter ([], ps) (elems (ri_Filters intent)) in
let? st := loop add_window st (elems (ri_TemporalWindows intent)) in
let? st := loop add_existence st (imap pair (elems (ri_Exists intent))) in
Ok (if st.1 == [] then "" else " WHERE " +:+ join_text " AND " st.1, st.2).

(** ** Projections *)

Definition aggregateExpression (operation fieldID : string) : result (string * string) :=
if operation == AggregateCountRows then Ok ("COUNT(*)", TypeInteger)
else
  let? rc := Column snapshot fieldID in
  match aliases !! sr_ID rc.1 with
  | None => Err "relation %q has no planned join alias"
  | Some alias =>
      let field := field_text alias rc.2 in
      if operation == AggregateCount then Ok ("COUNT(" +:+ field +:+ ")", TypeInteger)
      else if operation == AggregateCountDistinct then Ok ("COUNT(DISTINCT " +:+ field +:+ ")", TypeInteger)
      else if operation == AggregateSum then Ok ("SUM(" +:+ field +:+ ")", TypeDecimal)
      else if operation == AggregateAverage then Ok ("AVG(" +:+ field +:+ ")", TypeDecimal)
      else if operation == AggregateMinimum then Ok ("MIN(" +:+ field +:+ ")", sc_TypeCategory rc.2)
      else if operation == AggregateMaximum then Ok ("MAX(" +:+ field +:+ ")", sc_TypeCategory rc.2)
      else Err "unsupported aggregate %q"
  end.

Definition compileProjection (projection : RelationalProjection) (index : nat)
  : result (string * CompiledOutput) :=
let output := mkOutput (alias_number "c" (S index)) (rp_FieldID projection) (rp_Aggregate projection) in
if rp_Aggregate projection != "" then
  let? e := aggregateExpression (rp_Aggregate projection) (rp_FieldID projection) in Ok (e.1, output e.2)
else
  let? rc := Column snapshot (rp_FieldID projection) in
  match aliases !! sr_ID rc.1 with
  | None => Err "relation %q has no planned join alias"
  | Some alias =>
      let expression := field_text alias rc.2 in
      if rp_TimeBucket projection != "" then
        Ok ("DATE_TRUNC('" +:+ rp_TimeBucket projection +:+ "', " +:+ expression +:+ ")", output TypeTemporal)
      else Ok (expression, output (sc_TypeCategory rc.2))
  end.

Definition add_having (st : list string * params) (predicate : AggregatePredicate)
  : result (list string * params) :=
let? e := aggregateExpression (ap_Aggregate predicate) (ap_FieldID predicate) in
let? v := parseLiteral (ap_Value predicate) in
let '(placeholder, ps) := addParameter st.2 (il_Type (ap_Value predicate)) v in
Ok (st.1 ++ [e.1 +:+ " " +:+ postgresOperator (ap_Operator predicate) +:+ " " +:+ placeholder], ps).

Definition compileHaving (ps : params) : result (string * params) :=
if elems (ri_Having intent) == [] then Ok ("", ps)
else let? st := loop add_having ([], ps) (elems (ri_Having intent)) in
     Ok (" HAVING " +:+ join_text " AND " st.1, st.2).

Definition compile_group (i : Z) : result string :=
match projection_at intent i with
| None => Err "index out of range"
| Some projection => let? e := compileProjection projection (Z.to_nat i) in Ok e.1
end.

Definition order_text (term : OrderTerm) : string :=
pretty (ot_Projection term + 1) +:+ " " +:+ to_upper (ot_Direction term).
End where_clause.

(** ** The query *)

Definition keyed (keyword : string) (parts : list string) : string :=
  if parts == [] then "" else keyword +:+ join_text ", " parts.

Definition CompilePostgresWithJoinPaths (snapshot : SchemaSnapshot) (intent : RelationalIntent)
    (selected : gmap string string) : result CompiledQuery :=
  check ValidateIntegrity snapshot;
  check validate_intent snapshot intent;
  check validateSelectedJoinTargets snapshot intent selected;
  let from := ri_FromRelationID intent in
  let? st := planJoins snapshot intent selected {[ from := "t0" ]} in
  let '(aliases, joins) := (st : gmap string string * list string) in
  let? fromRelation := Relation snapshot from in
  let fromClause := " FROM " +:+ quoteQualified (sr_Schema fromRelation) (sr_Name fromRelation) +:+ " AS t0"
    +:+ (if joins == [] then "" else " " +:+ join_text " " joins) in
  let? where_ := compileWhere snapshot intent selected aliases [] in
  let? body :=
    (if ri_Shape intent == ResultExistence then
       Ok ("SELECT EXISTS (SELECT 1" +:+ fromClause +:+ where_.1 +:+ ") AS " +:+ quoteIdentifier "c1",
           [mkOutput "c1" "" "" TypeBoolean], where_.2)
     else
       let? columns := collect (fun '(index, p) => compileProjection snapshot aliases p index)
                         (imap pair (elems (ri_Projections intent))) in
       let selectParts := (fun e => e.1 +:+ " AS " +:+ quoteIdentifier (co_Name e.2)) <$> columns in
       let? groups := collect (compile_group snapshot intent aliases) (elems (ri_GroupBy intent)) in
       let? having := compileHaving snapshot intent aliases where_.2 in
       Ok ("SELECT " +:+ join_text ", " selectParts +:+ fromClause +:+ where_.1
           +:+ keyed " GROUP BY " groups +:+ having.1
           +:+ keyed " ORDER BY " (order_text <$> elems (ri_OrderBy intent)), columns.*2, having.2)) in
  let '(sqlText, outputs, ps) := (body : string * list CompiledOutput * params) in
  let '(limitPlaceholder, ps) := addParameter ps "integer" (VInt (ri_Limit intent)) in
  Ok (mkCompiled CompiledQueryV1 (ss_SourceID snapshot) (sqlText +:+ " LIMIT " +:+ limitPlaceholder) ps
        outputs (ri_Limit intent)).

Definition CompilePostgres (snapshot : SchemaSnapshot) (intent : RelationalIntent) : result CompiledQuery :=
  CompilePostgresWithJoinPaths snapshot intent ∅.

(** ** A sample query *)

Definition sample_intent : RelationalIntent :=
  mkIntent RelationalIntentV1 "src-1" "rel_2" ResultRanking
    (Some [mkProjection "rel_1_col_2" "" ""; mkProjection "rel_2_col_3" AggregateSum ""])
    (Some [mkPredicate "rel_1_col_2" FilterContains (Some [mkLiteral LiteralString "50%"])])
    (Some [mkWindow "rel_3_col_4" WindowDay 30 "2024-02-29T12:00:00Z"]) None (Some [0])
    (Some [mkAggregatePredicate AggregateSum "rel_2_col_3" FilterGT (mkLiteral LiteralDecimal "10.5")])
    (Some [mkOrderTerm 1 OrderDescending]) 20.
Definition sample_selection : gmap string string := {[ "rel_1" := "path_2" ]}.
