(* ===== verification/SqlSpec.v ===== *)
(** * Compiled queries: the theorems

    Values never reach the SQL text, parameters are numbered as PostgreSQL
    expects, identifiers and LIKE patterns are quoted so that they mean what
    they say. *)
From Stdlib Require Import Ascii.
From S2P Require Import Prelude Schema JoinPlan Intent SqlCompile.
From stdpp Require Import sorting base tactics strings list gmap numbers pretty.
From stdpp Require Import list options.
Open Scope Z_scope.
Open Scope go_scope.

(** ** Intents up to their values *)

Definition erase_literal (l : IntentLiteral) : IntentLiteral := mkLiteral (il_Type l) "".
Definition erase_predicate (p : RelationalPredicate) : RelationalPredicate :=
  mkPredicate (pr_FieldID p) (pr_Operator p) (Some (erase_literal <$> elems (pr_Values p))).
Definition erase_window (w : TemporalWindow) : TemporalWindow := mkWindow (tw_FieldID w) "" 0 "".
Definition erase_existence (e : ExistencePredicate) : ExistencePredicate :=
  mkExistence (ex_RelationID e) (ex_Negated e) (Some (erase_predicate <$> elems (ex_Filters e))).
Definition erase_having (p : AggregatePredicate) : AggregatePredicate :=
  mkAggregatePredicate (ap_Aggregate p) (ap_FieldID p) (ap_Operator p) (erase_literal (ap_Value p)).

(** What is left of an intent without literal values, window bounds and limit. *)
Definition erase_intent (i : RelationalIntent) : RelationalIntent :=
  mkIntent (ri_Schema i) (ri_SourceID i) (ri_FromRelationID i) (ri_Shape i)
    (Some (elems (ri_Projections i))) (Some (erase_predicate <$> elems (ri_Filters i)))
    (Some (erase_window <$> elems (ri_TemporalWindows i))) (Some (erase_existence <$> elems (ri_Exists i)))
    (Some (elems (ri_GroupBy i))) (Some (erase_having <$> elems (ri_Having i)))
    (Some (elems (ri_OrderBy i))) 0.

Definition signature (p : CompiledParameter) : Z * string := (cp_Position p, cp_Type p).

(** ** Two runs side by side *)

Lemma loop_related {A B S T} (E : A -> B -> Prop) (R : S -> T -> Prop)
    (f : S -> A -> result S) (g : T -> B -> result T) l k :
  (forall s t a b s' t', R s t -> E a b -> f s a = Ok s' -> g t b = Ok t' -> R s' t') ->
  Forall2 E l k -> forall s t s' t', R s t -> loop f s l = Ok s' -> loop g t k = Ok t' -> R s' t'.
Proof.
  intros Hstep. induction 1 as [|a b l k Hab Hlk IH]; intros s t s' t' HR Hf Hg; simpl in *; [congruence|].
  destruct (f s a) eqn:Ef, (g t b) eqn:Eg; try done. eauto.
Qed.

Lemma fmap_same_Forall2 {A B} (f : A -> B) l k : f <$> l = f <$> k -> Forall2 (fun a b => f a = f b) l k.
Proof.
  revert k. induction l as [|a l IH]; intros [|b k] H; try done.
  rewrite !fmap_cons in H. injection H as Hab Hlk. constructor; [done|]. by apply IH.
Qed.

Definition same_params (ps qs : params) : Prop := signature <$> ps = signature <$> qs.
Definition same_parts (st tt : list string * params) : Prop := st.1 = tt.1 /\ same_params st.2 tt.2.

Lemma same_params_length ps qs : same_params ps qs -> length ps = length qs.
Proof. intros H. apply (f_equal length) in H. by rewrite !length_fmap in H. Qed.

Lemma same_add ps qs kind v w p p' q q' :
  same_params ps qs -> addParameter ps kind v = (p, p') -> addParameter qs kind w = (q, q') ->
  p = q /\ same_params p' q'.
Proof.
  unfold addParameter. intros H [= <- <-] [= <- <-]. rewrite (same_params_length _ _ H). split; [done|].
  unfold same_params in *. rewrite !fmap_app, H. done.
Qed.

(** Uses [same_add] on every pair of [addParameter]s in sight. *)
Ltac add_parameters :=
  repeat match goal with
  | H : ?T = Ok _ |- _ =>
      match T with context [addParameter ?ps ?k ?v] => destruct (addParameter ps k v) eqn:? end
  end;
  repeat match goal with
  | H1 : addParameter ?ps ?k ?v = (?p, ?p'), H2 : addParameter ?qs ?k ?w = (?q, ?q'),
    HS : same_params ?ps ?qs |- _ =>
      destruct (same_add _ _ _ _ _ _ _ _ _ HS H1 H2) as [? ?]; clear H1 H2; subst
  end.

Section related.
Context (s : SchemaSnapshot).

Lemma literal_related st tt a b st' tt' :
same_parts st tt -> erase_literal a = erase_literal b ->
add_literal st a = Ok st' -> add_literal tt b = Ok tt' -> same_parts st' tt'.
Proof.
destruct st as [xs ps], tt as [ys qs]. intros [Hx HS] [= Ht] Ha Hb. cbn [fst snd] in Hx, HS.
subst ys. unfold add_literal in Ha, Hb.
rewrite <- Ht in Hb. destruct (parseLiteral a), (parseLiteral b); try done. add_parameters.
injection Ha as <-. injection Hb as <-. done.
Qed.

Lemma predicate_related a b alias ps qs r r' :
same_params ps qs -> erase_predicate a = erase_predicate b ->
compilePredicate s a alias ps = Ok r -> compilePredicate s b alias qs = Ok r' ->
r.1 = r'.1 /\ same_params r.2 r'.2.
Proof.
intros HS [= Hf Ho Hv]. unfold compilePredicate. rewrite <- Hf, <- Ho.
destruct (alias == ""); [done|]. destruct (Column s _) as [rc|]; [|done].
destruct (_ == FilterIsNull); [intros [= <-] [= <-]; done|].
destruct (_ == FilterIsNotNull); [intros [= <-] [= <-]; done|].
apply fmap_same_Forall2 in Hv.
destruct (bool_decide (pr_Operator a ∈ _)).
{ destruct (loop add_literal ([], ps) _) as [st|] eqn:Ha; [|done].
  destruct (loop add_literal ([], qs) _) as [tt|] eqn:Hb; [|done]. intros [= <-] [= <-].
  destruct (loop_related _ same_parts _ _ _ _ literal_related Hv ([], ps) ([], qs) st tt) as [Hp Hq];
    [done..|]. simpl. by rewrite Hp. }
destruct Hv as [|x y xs ys [= Ht] _]; [done|].
destruct (bool_decide (pr_Operator a ∈ _)).
- intros Ha Hb. add_parameters. injection Ha as <-. injection Hb as <-. done.
- rewrite <- Ht. destruct (parseLiteral x), (parseLiteral y); try done.
  intros Ha Hb. add_parameters. injection Ha as <-. injection Hb as <-. done.
Qed.

Lemma add_predicate_related alias st tt a b st' tt' :
same_parts st tt -> erase_predicate a = erase_predicate b ->
add_predicate s alias st a = Ok st' -> add_predicate s alias tt b = Ok tt' -> same_parts st' tt'.
Proof.
intros [Hp HS] He. unfold add_predicate.
destruct (compilePredicate s a alias st.2) as [r|] eqn:Ha; [|done].
destruct (compilePredicate s b alias tt.2) as [r'|] eqn:Hb; [|done]. intros [= <-] [= <-].
destruct (predicate_related _ _ _ _ _ _ _ HS He Ha Hb). split; simpl; congruence.
Qed.

Context (i j : RelationalIntent) (Hij : erase_intent i = erase_intent j).
Context (selected : gmap string string).

Lemma filter_related aliases st tt a b st' tt' :
same_parts st tt -> erase_predicate a = erase_predicate b ->
add_filter s aliases st a = Ok st' -> add_filter s aliases tt b = Ok tt' -> same_parts st' tt'.
Proof.
intros HS He. assert (pr_FieldID a = pr_FieldID b) as Hf by (by injection He). unfold add_filter.
rewrite Hf. destruct (Column s _); [|done]. by apply add_predicate_related.
Qed.

Lemma window_related aliases st tt a b st' tt' :
same_parts st tt -> erase_window a = erase_window b ->
add_window s aliases st a = Ok st' -> add_window s aliases tt b = Ok tt' -> same_parts st' tt'.
Proof.
destruct st as [xs ps], tt as [ys qs]. intros [Hx HS] [= Hf] Ha Hb. cbn [fst snd] in Hx, HS.
subst ys. unfold add_window in Ha, Hb.
rewrite <- Hf in Hb. destruct (Column s _); [|done].
destruct (parse_rfc3339 (tw_AsOf a)), (parse_rfc3339 (tw_AsOf b)); try done. add_parameters.
injection Ha as <-. injection Hb as <-. done.
Qed.

Lemma existence_related st tt (a b : nat * ExistencePredicate) st' tt' :
same_parts st tt -> a.1 = b.1 /\ erase_existence a.2 = erase_existence b.2 ->
add_existence s i selected st a = Ok st' -> add_existence s j selected tt b = Ok tt' -> same_parts st' tt'.
Proof using Hij.
destruct a as [n a], b as [m b]. intros [Hp HS] [Hn He]. simpl in Hn, He. subst m. injection He as Hr Hneg Hfs.
assert (ri_FromRelationID i = ri_FromRelationID j) as Hfrom by (by injection Hij).
unfold add_existence, compileExistence. simpl. rewrite Hfrom, Hr, Hneg.
destruct (resolve_path _ _ _ _) as [p|]; [|done]. destruct (jp_Steps p) as [|st0 [|]]; try done.
destruct (Relation _ _) as [target|]; [|done]. destruct (joinCondition _ _ _ _) as [c|]; [|done].
destruct (loop _ ([c], st.2) _) as [r|] eqn:Ha; [|done].
destruct (loop _ ([c], tt.2) _) as [r'|] eqn:Hb; [|done]. intros [= <-] [= <-].
destruct (loop_related _ same_parts _ _ _ _ (add_predicate_related (alias_number "e" (S n))) (fmap_same_Forall2 _ _ _ Hfs)
            ([c], st.2) ([c], tt.2) r r') as [H1 H2]; [done..|].
split; simpl; [|done]. rewrite Hp, H1. done.
Qed.

Lemma having_related aliases st tt a b st' tt' :
same_parts st tt -> erase_having a = erase_having b ->
add_having s aliases st a = Ok st' -> add_having s aliases tt b = Ok tt' -> same_parts st' tt'.
Proof.
intros [Hp HS] [= Ha Hf Ho Ht]. unfold add_having. rewrite Ha, Hf, Ho, Ht.
destruct (aggregateExpression _ _ _ _); [|done].
destruct (parseLiteral (ap_Value a)), (parseLiteral (ap_Value b)); try done.
intros H1 H2. add_parameters. injection H1 as <-. injection H2 as <-. split; simpl; congruence.
Qed.

Lemma imap_pair_related {A} (f : A -> A) l k : f <$> l = f <$> k ->
Forall2 (fun a b => a.1 = b.1 /\ f a.2 = f b.2) (imap pair l) (imap pair k).
Proof.
intros H%fmap_same_Forall2. apply Forall2_same_length_lookup_2.
- by rewrite !length_imap, (Forall2_length _ _ _ H).
- intros n x y. rewrite !list_lookup_imap. intros (a & Ha & ->)%fmap_Some (b & Hb & ->)%fmap_Some.
  split; [done|]. by apply (Forall2_lookup_lr _ _ _ _ _ _ H Ha Hb).
Qed.

Lemma where_related aliases w w' :
compileWhere s i selected aliases [] = Ok w -> compileWhere s j selected aliases [] = Ok w' ->
w.1 = w'.1 /\ same_params w.2 w'.2.
Proof using Hij.
pose proof Hij as [= _ _ _ _ _ Hfi Hwi Hex _ _ _]. unfold compileWhere. intros Ha Hb. split_ok Ha. split_ok Hb.
apply fmap_same_Forall2 in Hfi, Hwi. apply imap_pair_related in Hex.
assert (same_parts a a2) as H1
  by (eapply (loop_related _ same_parts _ _ _ _ (filter_related aliases) Hfi ([], []) ([], [])); done).
assert (same_parts a0 a3) as H2
  by (eapply (loop_related _ same_parts _ _ _ _ (window_related aliases) Hwi a a2); done).
assert (same_parts a1 a4) as [H3 H4]
  by (eapply (loop_related _ same_parts _ _ _ _ existence_related Hex a0 a3); done).
subst w w'. simpl. by rewrite H3.
Qed.

Lemma compile_having_related aliases ps qs h h' :
same_params ps qs ->
compileHaving s i aliases ps = Ok h -> compileHaving s j aliases qs = Ok h' ->
h.1 = h'.1 /\ same_params h.2 h'.2.
Proof using Hij.
intros HS. pose proof Hij as [= _ _ _ _ _ _ _ _ _ Hh _]. apply fmap_same_Forall2 in Hh. unfold compileHaving.
destruct Hh as [|x y xs ys Hxy Hrest]; [by intros [= <-] [= <-]|]. cbn [bool_decide].
intros Ha Hb. rewrite !bool_decide_eq_false_2 in Ha, Hb by done. split_ok Ha. split_ok Hb. subst h h'.
assert (same_parts a a0) as [H1 H2]; [|simpl; by rewrite H1].
eapply (loop_related _ same_parts); [apply having_related|by apply Forall2_cons; split| |done|done]. by split.
Qed.
End related.

Lemma fmap_through {A B} (f : A -> A) (g : A -> B) (l k : list A) :
  (forall x, g (f x) = g x) -> f <$> l = f <$> k -> g <$> l = g <$> k.
Proof.
  intros Hg H. apply (f_equal (fmap g)) in H. rewrite <- !list_fmap_compose in H.
  rewrite !(list_fmap_ext (g ∘ f) g) in H; [done|..]; intros; apply Hg.
Qed.

Lemma referenced_same i j : erase_intent i = erase_intent j -> referenced_fields i = referenced_fields j.
Proof.
  intros [= _ _ _ _ Hp Hf Hw _ _ Hh _]. unfold referenced_fields. rewrite Hp.
  by rewrite (fmap_through erase_predicate pr_FieldID _ _ (fun _ => eq_refl) Hf),
    (fmap_through erase_window tw_FieldID _ _ (fun _ => eq_refl) Hw),
    (fmap_through erase_having ap_FieldID _ _ (fun _ => eq_refl) Hh).
Qed.

Lemma plan_joins_same s i j selected aliases :
  erase_intent i = erase_intent j -> planJoins s i selected aliases = planJoins s j selected aliases.
Proof.
  intros H. unfold planJoins, requiredJoinRelationIDs. rewrite (referenced_same i j H).
  by replace (ri_FromRelationID i) with (ri_FromRelationID j) by (by injection H).
Qed.

(** What compiling consists of once validation has passed. *)
Lemma compile_inv s i selected q :
  CompilePostgresWithJoinPaths s i selected = Ok q ->
  exists aliases joins relation where_ body,
    planJoins s i selected {[ ri_FromRelationID i := "t0" ]} = Ok (aliases, joins) /\
    Relation s (ri_FromRelationID i) = Ok relation /\
    compileWhere s i selected aliases [] = Ok where_ /\
    (let fromClause := " FROM " +:+ quoteQualified (sr_Schema relation) (sr_Name relation) +:+ " AS t0"
       +:+ (if joins == [] then "" else " " +:+ join_text " " joins) in
     if ri_Shape i == ResultExistence then
       body = ("SELECT EXISTS (SELECT 1" +:+ fromClause +:+ where_.1 +:+ ") AS " +:+ quoteIdentifier "c1",
               [mkOutput "c1" "" "" TypeBoolean], where_.2)
     else exists columns groups having,
       collect (fun '(index, p) => compileProjection s aliases p index)
         (imap pair (elems (ri_Projections i))) = Ok columns /\
       collect (compile_group s i aliases) (elems (ri_GroupBy i)) = Ok groups /\
       compileHaving s i aliases where_.2 = Ok having /\
       body = ("SELECT " +:+ join_text ", " ((fun e => e.1 +:+ " AS " +:+ quoteIdentifier (co_Name e.2)) <$> columns)
               +:+ fromClause +:+ where_.1 +:+ keyed " GROUP BY " groups +:+ having.1
               +:+ keyed " ORDER BY " (order_text <$> elems (ri_OrderBy i)), columns.*2, having.2)) /\
    q = mkCompiled CompiledQueryV1 (ss_SourceID s)
          (body.1.1 +:+ " LIMIT " +:+ (addParameter body.2 "integer" (VInt (ri_Limit i))).1)
          (addParameter body.2 "integer" (VInt (ri_Limit i))).2 body.1.2 (ri_Limit i).
Proof.
  unfold CompilePostgresWithJoinPaths. intros H. split_ok H.
  destruct a2 as [aliases joins]. split_ok H. destruct a4 as [[text outs] ps].
  rename a2 into relation, a3 into where_, E3 into Hrel, E4 into Hwhere, E2 into Hplan, E5 into Hbody.
  exists aliases, joins, relation, where_, (text, outs, ps). split_and!; [done..| |by injection H as <-].
  cbv zeta in *. destruct (ri_Shape i == ResultExistence); [by injection Hbody as <- <- <-|].
  split_ok Hbody. eexists _, _, _. split_and!; [done..|]. by simplify_eq.
Qed.

(** ** Claims *)

(** C14: values never reach the SQL text. Two intents that differ at most in
    literal values, window bounds and limit, and that both compile, give the
    same SQL, the same outputs, and parameters with the same positions and
    types: whatever the owner's data says, it only travels as a parameter. *)
Theorem sql_independent_of_values s i j selected q r :
  erase_intent i = erase_intent j ->
  CompilePostgresWithJoinPaths s i selected = Ok q ->
  CompilePostgresWithJoinPaths s j selected = Ok r ->
  cq_SQL q = cq_SQL r /\ cq_Outputs q = cq_Outputs r /\
  signature <$> cq_Parameters q = signature <$> cq_Parameters r.
Proof.
  intros Hij (al & jo & rel & w & body & Hpl & Hr & Hw & Hb & ->)%compile_inv
    (al' & jo' & rel' & w' & body' & Hpl' & Hr' & Hw' & Hb' & ->)%compile_inv.
  rewrite (plan_joins_same s i j selected _ Hij) in Hpl.
  pose proof Hij as [= _ _ Hfrom Hshape Hproj _ _ _ Hgroup _ Horder].
  rewrite Hfrom in Hpl, Hr. assert (al' = al) as -> by congruence. assert (jo' = jo) as -> by congruence.
  assert (rel' = rel) as -> by congruence. destruct (where_related s i j Hij selected al w w' Hw Hw') as [Hw1 Hw2].
  assert (body.1 = body'.1 /\ same_params body.2 body'.2) as [H1 H2].
  { cbv zeta in Hb, Hb'. rewrite Hshape in Hb. destruct (ri_Shape j == ResultExistence).
    - subst body body'. simpl. by rewrite Hw1.
    - destruct Hb as (cs & gs & hs & Hc & Hg & Hh & ->), Hb' as (cs' & gs' & hs' & Hc' & Hg' & Hh' & ->).
      rewrite Hproj in Hc. rewrite Hgroup in Hg. unfold compile_group, projection_at in Hg, Hg'. rewrite Hproj in Hg.
      assert (cs' = cs) as -> by congruence. assert (gs' = gs) as -> by congruence.
      destruct (compile_having_related s i j Hij al w.2 w'.2 hs hs' Hw2 Hh Hh') as [Hh1 Hh2].
      simpl. by rewrite Hw1, Hh1, Horder. }
  destruct (addParameter body.2 _ _) as [p1 ps1] eqn:E1, (addParameter body'.2 _ _) as [p2 ps2] eqn:E2. simpl.
  destruct (same_add _ _ _ _ _ _ _ _ _ H2 E1 E2) as [-> Hs]. split_and!; [by rewrite H1|by rewrite H1|done].
Qed.

Definition injection_intent : RelationalIntent :=
  mkIntent RelationalIntentV1 "src-1" "rel_2" ResultRanking
    (Some [mkProjection "rel_1_col_2" "" ""; mkProjection "rel_2_col_3" AggregateSum ""])
    (Some [mkPredicate "rel_1_col_2" FilterContains (Some [mkLiteral LiteralString "x'; DROP TABLE orders; --"])])
    (Some [mkWindow "rel_3_col_4" WindowYear 1 "2020-01-01T00:00:00+02:00"]) None (Some [0])
    (Some [mkAggregatePredicate AggregateSum "rel_2_col_3" FilterGT (mkLiteral LiteralDecimal "-1")])
    (Some [mkOrderTerm 1 OrderDescending]) 500.
Definition compiled_sample (i : RelationalIntent) : CompiledQuery :=
  match CompilePostgresWithJoinPaths sample_snapshot i sample_selection with
  | Ok q => q
  | Err _ => mkCompiled "" "" "" [] [] 0
  end.
Lemma sql_independent_of_values_witness :
  CompilePostgresWithJoinPaths sample_snapshot sample_intent sample_selection = Ok (compiled_sample sample_intent) /\
  CompilePostgresWithJoinPaths sample_snapshot injection_intent sample_selection = Ok (compiled_sample injection_intent) /\
  cq_SQL (compiled_sample sample_intent) = cq_SQL (compiled_sample injection_intent).
Proof.
  split; [vm_compute; reflexivity|]. split; [vm_compute; reflexivity|].
  apply (sql_independent_of_values sample_snapshot sample_intent injection_intent sample_selection).
  - vm_compute. reflexivity.
  - vm_compute. reflexivity.
  - vm_compute. reflexivity.
Defined.

(** ** Numbering *)

Definition numbered (ps : params) : Prop := cp_Position <$> ps = Z.of_nat <$> seq 1 (length ps).

Lemma numbered_add ps kind v : numbered ps -> numbered (addParameter ps kind v).2.
Proof.
  unfold numbered, addParameter. simpl. intros H. rewrite fmap_app, H, length_app, seq_app, fmap_app. simpl.
  do 2 f_equal. lia.
Qed.

Lemma numbered_add_eq ps kind v p ps' : addParameter ps kind v = (p, ps') -> numbered ps -> numbered ps'.
Proof. intros H Hn. pose proof (numbered_add ps kind v Hn) as Hn'. by rewrite H in Hn'. Qed.

Ltac numbered_parameters :=
  repeat match goal with
  | H : ?T = Ok _ |- _ =>
      match T with context [addParameter ?ps ?k ?v] => destruct (addParameter ps k v) eqn:? end
  end;
  repeat match goal with
  | H : addParameter ?ps _ _ = _, Hn : numbered ?ps |- _ => apply numbered_add_eq in H; [|exact Hn]
  end.

Lemma numbered_literal st l st' : numbered st.2 -> add_literal st l = Ok st' -> numbered st'.2.
Proof.
  destruct st as [xs ps]. unfold add_literal. cbn [fst snd]. intros Hn H. destruct (parseLiteral l); [|done].
  numbered_parameters. by injection H as <-.
Qed.

Lemma numbered_predicate s p alias ps r :
  numbered ps -> compilePredicate s p alias ps = Ok r -> numbered r.2.
Proof.
  unfold compilePredicate. intros Hn H. destruct (alias == ""); [done|]. destruct (Column s _); [|done].
  destruct (_ == FilterIsNull); [by injection H as <-|].
  destruct (_ == FilterIsNotNull); [by injection H as <-|].
  destruct (bool_decide (pr_Operator p ∈ _)).
  { split_ok H. subst r. simpl. eapply (loop_inv (fun st => numbered st.2)); [| |eassumption]; [|exact Hn].
    intros st x st' _. apply numbered_literal. }
  destruct (elems _) as [|l ls]; [done|]. destruct (bool_decide (pr_Operator p ∈ _)).
  - numbered_parameters. by injection H as <-.
  - destruct (parseLiteral l); [|done]. numbered_parameters. by injection H as <-.
Qed.

Lemma numbered_add_predicate s alias st p st' :
  numbered st.2 -> add_predicate s alias st p = Ok st' -> numbered st'.2.
Proof.
  unfold add_predicate. intros Hn H. split_ok H. subst st'. by eapply numbered_predicate.
Qed.

Lemma numbered_where s i selected aliases ps w :
  numbered ps -> compileWhere s i selected aliases ps = Ok w -> numbered w.2.
Proof.
  unfold compileWhere. intros Hn H. split_ok H. subst w. simpl.
  assert (numbered a.2) as H1.
  { eapply (loop_inv (fun st => numbered st.2)); [| |eassumption]; [|exact Hn]. intros st p st' _ Hst Hp.
    unfold add_filter in Hp. split_ok Hp. by eapply numbered_add_predicate. }
  assert (numbered a0.2) as H2.
  { eapply (loop_inv (fun st => numbered st.2)); [| |eassumption]; [|exact H1]. intros [xs qs] w st' _ Hst Hw. simpl in Hst.
    unfold add_window in Hw. split_ok Hw. destruct (parse_rfc3339 _); [|done]. numbered_parameters.
    by injection Hw as <-. }
  eapply (loop_inv (fun st => numbered st.2)); [| |eassumption]; [|exact H2]. intros st [n e] st' _ Hst He.
  unfold add_existence, compileExistence in He. split_ok He. subst st'. simpl.
  match goal with H : (let? path := _ in _) = Ok _ |- _ => rename H into Hc end. split_ok Hc.
  destruct (jp_Steps _) as [|step [|]]; try done. split_ok Hc. subst. simpl.
  eapply (loop_inv (fun st => numbered st.2)); [| |eassumption]; [|exact Hst]. intros ? ? ? _. apply numbered_add_predicate.
Qed.

(** The parameters of a compiled query are numbered 1, 2, 3, ... in the order
    of the arguments passed with it, and the last one is the row limit. *)
Theorem parameters_numbered s i selected q :
  CompilePostgresWithJoinPaths s i selected = Ok q ->
  cp_Position <$> cq_Parameters q = Z.of_nat <$> seq 1 (length (cq_Parameters q)) /\
  last (Arguments_ q) = Some (VInt (ri_Limit i)).
Proof.
  intros (al & jo & rel & w & body & _ & _ & Hw & Hb & ->)%compile_inv. simpl. split.
  - apply (numbered_add body.2 "integer" (VInt (ri_Limit i))).
    apply numbered_where in Hw; [|done]. cbv zeta in Hb.
    destruct (ri_Shape i == ResultExistence); [by subst body|].
    destruct Hb as (cs & gs & hs & _ & _ & Hh & ->). simpl. unfold compileHaving in Hh.
    destruct (elems _ == []); [by injection Hh as <-|]. split_ok Hh. subst hs. simpl.
    eapply (loop_inv (fun st => numbered st.2)); [| |eassumption]; [|exact Hw]. intros st p st' _ Hst Hp.
    unfold add_having in Hp. split_ok Hp. numbered_parameters. by injection Hp as <-.
  - unfold Arguments_. simpl. rewrite fmap_app. apply last_snoc.
Qed.

Lemma parameters_numbered_witness :
  cp_Position <$> cq_Parameters (compiled_sample sample_intent) = [1; 2; 3; 4; 5] /\
  last (Arguments_ (compiled_sample sample_intent)) = Some (VInt 20).
Proof.
  destruct (parameters_numbered sample_snapshot sample_intent sample_selection (compiled_sample sample_intent))
    as [H1 H2].
  - vm_compute. reflexivity.
  - split; [vm_compute; reflexivity|exact H2].
Defined.

(** ** Quoted identifiers *)

Lemma to_of_bytes l : to_bytes (of_bytes l) = l.
Proof. apply String.list_ascii_of_string_of_list_ascii. Qed.

Lemma to_bytes_app s t : to_bytes (s +:+ t) = to_bytes s ++ to_bytes t.
Proof. induction s as [|a s IH]; simpl; [done|]. by rewrite IH. Qed.

Lemma to_bytes_replace c by_ s :
  to_bytes (replace_byte c by_ s) = concat ((fun a => if a == c then by_ else [a]) <$> to_bytes s).
Proof. apply to_of_bytes. Qed.

(** PostgreSQL's reading of a quoted identifier: after the opening quote, two
    quotes stand for one and a single quote ends it. *)
Fixpoint lex_quoted_body (l : bytes) : option (bytes * bytes) :=
  match l with
  | [] => None
  | a :: r =>
      if a == dquote then
        match r with
        | b :: r' => if b == dquote then (fun x => (dquote :: x.1, x.2)) <$> lex_quoted_body r' else Some ([], r)
        | [] => Some ([], [])
        end
      else (fun x => (a :: x.1, x.2)) <$> lex_quoted_body r
  end.
Definition lex_identifier (s : string) : option (string * string) :=
  match to_bytes s with
  | a :: r => if a == dquote then (fun x => (of_bytes x.1, of_bytes x.2)) <$> lex_quoted_body r else None
  | [] => None
  end.

Lemma lex_body_ok l rest : head rest <> Some dquote ->
  lex_quoted_body (concat ((fun a => if a == dquote then [dquote; dquote] else [a]) <$> l) ++ dquote :: rest) =
  Some (l, rest).
Proof.
  intros Hrest. induction l as [|a l IH]; cbn [fmap list_fmap concat app lex_quoted_body].
  - consts. destruct rest as [|b rest]; [done|]. case_bool_decide as Hb; [|done]. by subst b.
  - case_bool_decide as Ha.
    + subst a. cbn [app lex_quoted_body]. consts. change (if bool_decide (dquote = dquote) then ?x else _) with x.
      by rewrite IH.
    + cbn [app lex_quoted_body]. rewrite bool_decide_eq_false_2 by done. by rewrite IH.
Qed.

(** A quoted identifier is one token. Whatever bytes a schema, relation or
    column name holds, reading a quoted identifier back yields exactly the name
    and leaves the rest of the SQL text, provided that text does not continue
    with another quote (the compiler always continues with punctuation). *)
Theorem quoted_identifier_roundtrip name rest :
  head (to_bytes rest) <> Some dquote ->
  lex_identifier (quoteIdentifier name +:+ rest) = Some (name, rest).
Proof.
  intros Hrest. unfold lex_identifier, quoteIdentifier. rewrite to_bytes_app. cbn [to_bytes app].
  rewrite bool_decide_eq_true_2 by done. rewrite to_bytes_app, to_bytes_replace, <- app_assoc. cbn [to_bytes app].
  rewrite lex_body_ok by done. simpl. by rewrite !String.string_of_list_ascii_of_string.
Qed.

Lemma quoted_identifier_roundtrip_witness :
  lex_identifier (quoteIdentifier (String dquote "; DROP TABLE t") +:+ " AS t0") =
  Some (String dquote "; DROP TABLE t", " AS t0").
Proof. apply quoted_identifier_roundtrip. vm_compute. discriminate. Defined.

(** ** LIKE patterns *)

(** Matching with [ESCAPE '\']: a percent sign matches any sequence, an underscore
    one byte, an escaped byte itself; a pattern that ends in the escape fails. *)
Fixpoint like_match (p : bytes) (s : bytes) : bool :=
  match p with
  | [] => s == []
  | a :: p' =>
      if a == backslash then
        match p' with
        | [] => false
        | c :: p'' => match s with b :: s' => ((b == c) && like_match p'' s')%bool | [] => false end
        end
      else if a == percent then
        existsb (fun k => like_match p' (drop k s)) (seq 0 (S (length s)))
      else match s with
           | [] => false
           | b :: s' => (((a == underscore) || (b == a)) && like_match p' s')%bool
           end
  end.

Definition escaped (a : ascii) : bytes :=
  if bool_decide (a ∈ [backslash; percent; underscore]) then [backslash; a] else [a].

Lemma escape_bytes v : to_bytes (escapeLikePattern v) = concat (escaped <$> to_bytes v).
Proof.
  unfold escapeLikePattern. rewrite !to_bytes_replace. induction (to_bytes v) as [|a l IH]; [done|].
  rewrite !fmap_cons. cbn [concat]. rewrite !fmap_app, !concat_app, !fmap_app, !concat_app, IH. f_equal.
  unfold escaped. destruct (decide (a = backslash)) as [->|H1]; [done|].
  rewrite (bool_decide_eq_false_2 (a = backslash)) by done. cbn [fmap list_fmap concat app].
  destruct (decide (a = percent)) as [->|H2]; [done|].
  rewrite (bool_decide_eq_false_2 (a = percent)) by done. cbn [fmap list_fmap concat app].
  destruct (decide (a = underscore)) as [->|H3]; [done|].
  rewrite (bool_decide_eq_false_2 (a = underscore)) by done. cbn [fmap list_fmap concat app].
  rewrite bool_decide_eq_false_2; [done|]. set_solver.
Qed.

(** Escaped text matches itself and nothing else. *)
Lemma like_escaped l p s :
  like_match (concat (escaped <$> l) ++ p) s = true <-> exists s', s = l ++ s' /\ like_match p s' = true.
Proof.
  revert s. induction l as [|a l IH]; intros s; [cbn [fmap list_fmap concat app]; naive_solver|].
  cbn [fmap list_fmap concat]. rewrite <- app_assoc. unfold escaped at 1. case_bool_decide as Ha.
  - cbn [app like_match]. rewrite bool_decide_eq_true_2 by done. destruct s as [|b s]; [naive_solver|].
    rewrite andb_true_iff, bool_decide_eq_true, IH. naive_solver.
  - cbn [app like_match]. rewrite !bool_decide_eq_false_2 by set_solver. destruct s as [|b s]; [naive_solver|].
    cbn [orb]. rewrite andb_true_iff, bool_decide_eq_true, IH. naive_solver.
Qed.

Lemma like_percent p s :
  like_match (percent :: p) s = true <-> exists a b, s = a ++ b /\ like_match p b = true.
Proof.
  cbn [like_match]. consts. rewrite existsb_exists. split.
  - intros (k & _ & Hk). exists (take k s), (drop k s). by rewrite take_drop.
  - intros (a & b & -> & Hb). exists (length a). rewrite drop_app_length. split; [|done].
    apply in_seq. rewrite length_app. lia.
Qed.

Lemma like_patterns v t :
  (like_match (percent :: to_bytes (escapeLikePattern v) ++ [percent]) t = true <->
   exists a b, t = a ++ to_bytes v ++ b) /\
  (like_match (to_bytes (escapeLikePattern v) ++ [percent]) t = true <-> exists b, t = to_bytes v ++ b).
Proof.
  assert (forall u, like_match [percent] u = true) as Hany.
  { intros u. apply like_percent. exists u, []. by rewrite app_nil_r. }
  rewrite escape_bytes. split.
  - rewrite like_percent. setoid_rewrite like_escaped. naive_solver.
  - rewrite like_escaped. naive_solver.
Qed.

(** The [contains] and [prefix] filters mean what they say. Each adds one
    parameter, and under LIKE with [ESCAPE '\'] the pattern passed in it matches
    exactly the texts that contain the literal, or that start with it, also when
    the literal itself holds wildcards or backslashes. *)
Theorem like_filters_exact s p alias ps r literal :
  bool_decide (pr_Operator p ∈ [FilterContains; FilterPrefix]) = true ->
  pr_Values p = Some [literal] ->
  compilePredicate s p alias ps = Ok r ->
  exists pattern, cp_value <$> r.2 = (cp_value <$> ps) ++ [VString pattern] /\
    forall t, like_match (to_bytes pattern) t = true <->
      if bool_decide (pr_Operator p = FilterContains)
      then exists a b, t = a ++ to_bytes (il_Value literal) ++ b
      else exists b, t = to_bytes (il_Value literal) ++ b.
Proof.
  intros Hop Hv. unfold compilePredicate. rewrite Hv. cbn [elems default]. destruct (alias == ""); [done|].
  destruct (Column s _) as [rc|]; [|done]. apply bool_decide_eq_true in Hop.
  assert (pr_Operator p = FilterContains \/ pr_Operator p = FilterPrefix) as [Ho|Ho] by set_solver;
    rewrite Ho; consts; intros [= <-]; cbn [snd]; rewrite fmap_app; eexists; (split; [done|]); intros t; simpl;
    rewrite to_bytes_app; apply like_patterns.
Qed.

Lemma like_filters_exact_witness :
  exists pattern,
    cp_value <$> (match compilePredicate sample_snapshot
        (mkPredicate "rel_1_col_2" FilterContains (Some [mkLiteral LiteralString "50%"])) "t0" [] with
      Ok r => r.2 | Err _ => [] end) = [VString pattern] /\
    forall t, like_match (to_bytes pattern) t = true <-> exists a b, t = a ++ to_bytes "50%" ++ b.
Proof.
  apply (like_filters_exact sample_snapshot
    (mkPredicate "rel_1_col_2" FilterContains (Some [mkLiteral LiteralString "50%"])) "t0" []
    (match compilePredicate sample_snapshot
        (mkPredicate "rel_1_col_2" FilterContains (Some [mkLiteral LiteralString "50%"])) "t0" [] with
      Ok r => r | Err _ => ("", []) end) (mkLiteral LiteralString "50%")).
  - reflexivity.
  - reflexivity.
  - vm_compute. reflexivity.
Defined.
