(* ===== verification/SqlTotal.v ===== *)
(** * When an intent compiles

    A validated intent over a valid snapshot compiles exactly when every
    relation it needs has a resolved join path: the compiler's other error
    returns are unreachable. *)
From Stdlib Require Import Ascii.
From S2P Require Import Prelude Schema SchemaFacts SchemaCanonical SchemaSpec JoinPlan JoinFacts JoinSpec.
From S2P Require Import Intent SqlCompile.
From stdpp Require Import sorting base tactics strings list gmap numbers pretty.
From stdpp Require Import list options.
Open Scope Z_scope.
Open Scope go_scope.

(** ** Loops and collections that succeed *)

Lemma collect_total {A B} (f : A -> result B) l :
  (forall x, x ∈ l -> exists y, f x = Ok y) -> exists ys, collect f l = Ok ys.
Proof. intros H. destruct (Forall2_total _ l H) as [ys Hys]. exists ys. by apply collect_ok. Qed.

(** A loop makes progress when every iteration does under an invariant. *)
Lemma loop_total {A S} (I : S -> Prop) (f : S -> A -> result S) l : forall st,
  (forall st x, x ∈ l -> I st -> exists st', f st x = Ok st' /\ I st') ->
  I st -> exists st', loop f st l = Ok st' /\ I st'.
Proof.
  induction l as [|x l IH]; intros st Hf HI; simpl; [by exists st|].
  destruct (Hf st x) as (st1 & -> & H1); [by left|done|]. apply IH; [|done].
  intros st2 y Hy. apply Hf. by right.
Qed.
Lemma loop_succeeds {A S} (f : S -> A -> result S) l st :
  (forall st x, x ∈ l -> exists st', f st x = Ok st') -> exists st', loop f st l = Ok st'.
Proof.
  intros H. destruct (loop_total (fun _ => True) f l st) as (st' & ? & _); [|done|eauto].
  intros st1 x Hx _. destruct (H st1 x Hx) as [st2 ?]. eauto.
Qed.

Lemma wrapped_ok e r : wrapped e r = Ok tt <-> r = Ok tt.
Proof. destruct r as [[]|]; done. Qed.

(** ** Literals *)

Lemma parse_validated literal : validateLiteral literal = Ok tt -> exists v, parseLiteral literal = Ok v.
Proof.
  intros H. unfold parseLiteral. rewrite H. unfold validateLiteral in H.
  destruct literal as [t v]. simpl in *.
  destruct (bool_decide (t = LiteralInteger)) eqn:E1.
  { reflect. subst t. consts. destruct (negb _); [done|]. destruct (parse_int64 v); [|done]. eauto. }
  destruct (bool_decide (t = LiteralBoolean)); [eauto|].
  destruct (bool_decide (t = LiteralTimestamp)) eqn:E2.
  { reflect. subst t. consts. destruct (parse_rfc3339 v); [|done]. eauto. }
  destruct (bool_decide (t = LiteralDate)) eqn:E3.
  { reflect. subst t. consts. destruct (parse_date v); [|done]. eauto. }
  eauto.
Qed.

Lemma validated_literal literal column :
  validateLiteralForColumn literal column = Ok tt -> validateLiteral literal = Ok tt.
Proof. unfold validateLiteralForColumn. rewrite !reject_ok. by intros (_ & _ & _ & ?). Qed.

Lemma check_ok_loop {A} (column : SchemaColumn) (vs : list IntentLiteral) (v : A) :
  (match loop (validate_value column) ∅ vs with Ok _ => Ok v | Err e => Err e end) = Ok v <->
  Forall (fun l => validateLiteralForColumn l column = Ok tt) vs /\
  NoDup ((fun l => il_Type l +:+ String (byte 0) (il_Value l)) <$> vs).
Proof.
  transitivity (exists st, loop (validate_value column) ∅ vs = Ok st).
  { destruct (loop _ _ _); naive_solver. }
  rewrite (loop_seen (fun l => il_Type l +:+ String (byte 0) (il_Value l))
             (fun l => validateLiteralForColumn l column = Ok tt)).
  - split; [tauto|]. intros [? ?]. split_and!; try done. apply Forall_true. set_solver.
  - intros seen l st. unfold validate_value. rewrite reject_ok, check_ok, ok_ok, bool_decide_eq_false. done.
Qed.

Section valid_snapshot.
Context (s : SchemaSnapshot).
Hypothesis (Hs : ValidateIntegrity s = Ok tt).

(** ** References *)

Lemma column_relation f rc : Column s f = Ok rc -> Relation s (sr_ID rc.1) = Ok rc.1.
Proof using Hs.
  destruct (valid_resolved s Hs) as (defs & rels & Hcan & Hres & Hr).
  unfold Column. destruct (list_find _ _) as [[i x]|] eqn:E; [|done]. intros [= <-].
  apply list_find_Some in E as (Hi & _ & _). apply list_elem_of_lookup_2 in Hi.
  unfold snapshot_columns in Hi. rewrite Hr in Hi. simpl in Hi. destruct x as [r c].
  apply (elem_of_all_columns rels r c) in Hi as [Hin _].
  by apply (relation_found s defs rels Hcan Hres Hr).
Qed.

Lemma relation_known id r : Relation s id = Ok r -> sr_ID r = id.
Proof.
  unfold Relation. destruct (list_find _ _) as [[i x]|] eqn:E; [|done]. intros [= <-].
  by apply list_find_Some in E as (_ & ? & _).
Qed.

Lemma foreign_key_found r fk : (r, fk) ∈ foreign_keys s -> findForeignKey s (sf_ID fk) = Ok (r, fk).
Proof using Hs.
  destruct (valid_resolved s Hs) as (defs & rels & Hcan & Hres & Hr). intros Hin.
  unfold findForeignKey. assert (foreign_keys s = all_foreign_keys rels) as Hall.
  { unfold foreign_keys. by rewrite Hr. }
  rewrite Hall in *.
  destruct (find_by_key (fun rk => sf_ID rk.2) _ (r, fk) (foreign_keys_distinct _ _ Hcan Hres) Hin) as [i Hi].
  simpl in Hi. by rewrite Hi.
Qed.

Lemma foreign_key_columns r fk :
  (r, fk) ∈ foreign_keys s ->
  exists target, Relation s (sf_ReferencedRelationID fk) = Ok target /\ Relation s (sr_ID r) = Ok r /\
    length (elems (sf_ColumnIDs fk)) = length (elems (sf_ReferencedColumnIDs fk)) /\
    elems (sf_ColumnIDs fk) <> [] /\
    (forall id, id ∈ elems (sf_ColumnIDs fk) -> exists c, Column s id = Ok (r, c)) /\
    (forall id, id ∈ elems (sf_ReferencedColumnIDs fk) -> exists c, Column s id = Ok (target, c)).
Proof using Hs.
  destruct (valid_resolved s Hs) as (defs & rels & Hcan & Hres & Hr). intros Hin.
  unfold foreign_keys in Hin. rewrite Hr in Hin. simpl in Hin.
  apply list_elem_of_In, in_concat in Hin as (l & Hl%list_elem_of_In & Hin%list_elem_of_In).
  apply list_elem_of_fmap in Hl as (r' & -> & Hr'). apply list_elem_of_fmap in Hin as (k & [= -> ->] & Hk).
  destruct (foreign_key_resolves s defs rels Hcan Hres Hr r' k Hr' Hk) as (target & ? & ? & ? & ? & ?).
  exists target. split_and!; try done. by apply (relation_found s defs rels Hcan Hres Hr).
Qed.

(** ** Joins *)

Lemma join_condition_ok step fromAlias toAlias :
  foreign_key_step s step -> exists c, joinCondition s step fromAlias toAlias = Ok c.
Proof using Hs.
  intros Hstep. assert (exists r fk, (r, fk) ∈ foreign_keys s /\ js_ForeignKeyID step = sf_ID fk /\
    ((js_Direction step = JoinAlongForeignKey /\ js_FromRelationID step = sr_ID r /\
      js_ToRelationID step = sf_ReferencedRelationID fk) \/
     (js_Direction step = JoinAgainstForeignKey /\ js_FromRelationID step = sf_ReferencedRelationID fk /\
      js_ToRelationID step = sr_ID r))) as (r & fk & Hin & Hid & Hdir).
  { destruct Hstep as [r fk Hin|r fk Hin]; exists r, fk; simpl; auto 10. }
  destruct (foreign_key_columns r fk Hin) as (target & Ht & Hr & Hlen & Hne & Hc1 & Hc2).
  unfold joinCondition. rewrite Hid, (foreign_key_found r fk Hin), Hlen, Nat.eqb_refl.
  rewrite bool_decide_false by done. cbn [negb orb].
  destruct (collect_total (join_column_pair s step fromAlias toAlias r fk)
    (zip (elems (sf_ColumnIDs fk)) (elems (sf_ReferencedColumnIDs fk)))) as [parts ->]; [|eauto].
  intros [a b] Hab. pose proof (elem_of_zip_l _ _ _ _ Hab) as Ha. pose proof (elem_of_zip_r _ _ _ _ Hab) as Hb.
  destruct (Hc1 a Ha) as [c1 H1], (Hc2 b Hb) as [c2 H2]. unfold join_column_pair. simpl. rewrite H1, H2.
  destruct Hdir as [(-> & -> & ->)|(-> & -> & ->)]; consts; rewrite !bool_decide_true by done; eauto.
Qed.

Lemma step_target step : foreign_key_step s step -> exists r, Relation s (js_ToRelationID step) = Ok r.
Proof using Hs.
  intros [r fk Hin|r fk Hin]; destruct (foreign_key_columns r fk Hin) as (target & ? & ? & _); simpl; eauto.
Qed.

(** The aliases handed out so far: never blank, and only ever extended. *)
Definition aliases_ok (known : gset string) (st : gmap string string * list string) : Prop :=
  known ⊆ dom st.1 /\ forall k a, st.1 !! k = Some a -> a <> "".

Lemma plan_step_ok known st step :
  foreign_key_step s step -> js_FromRelationID step ∈ known -> aliases_ok known st ->
  exists st', plan_step s st step = Ok st' /\ aliases_ok ({[ js_ToRelationID step ]} ∪ known) st'.
Proof using Hs.
  destruct st as [aliases js]. intros Hstep Hfrom [Hk Hb]. unfold plan_step. simpl in *.
  destruct (aliases !! js_ToRelationID step) as [a|] eqn:Ha.
  - exists (aliases, js). split; [done|]. split; [|done]. simpl.
    apply union_subseteq. split; [|done]. apply singleton_subseteq_l, elem_of_dom. eauto.
  - apply Hk, elem_of_dom in Hfrom as [fa Hfa]. rewrite Hfa.
    destruct (step_target step Hstep) as [r ->].
    destruct (join_condition_ok step fa (alias_number "t" (size aliases)) Hstep) as [c ->].
    eexists. split; [done|]. split; simpl.
    + rewrite dom_insert. set_solver.
    + intros k b. rewrite lookup_insert_Some. intros [[_ <-]|[_ ?]]; [done|by eapply Hb].
Qed.

Lemma plan_path_ok steps : forall known st a b,
  joins s a steps b -> a ∈ known -> aliases_ok known st ->
  exists st', loop (plan_step s) st steps = Ok st' /\ aliases_ok ({[ b ]} ∪ known) st'.
Proof using Hs.
  induction steps as [|step steps IH]; intros known st a b Hj Ha Hok; simpl in *.
  - subst b. exists st. split; [done|]. replace ({[a]} ∪ known) with known by set_solver. done.
  - destruct Hj as (Hfrom & Hstep & Hj). subst a.
    destruct (plan_step_ok known st step Hstep Ha Hok) as (st1 & -> & Hok1).
    destruct (IH ({[ js_ToRelationID step ]} ∪ known) st1 _ b Hj ltac:(set_solver) Hok1) as (st2 & -> & [Hk2 Hb2]).
    exists st2. split; [done|]. split; [|done]. set_solver.
Qed.

(** ** Predicates and projections *)

Lemma predicate_ok p requiredID alias ps :
  validatePredicate s p requiredID = Ok tt -> alias <> "" -> exists r, compilePredicate s p alias ps = Ok r.
Proof.
  unfold validatePredicate, compilePredicate. rewrite bind_ok. intros (rc & Hc & H) Ha.
  rewrite (bool_decide_false _ Ha), Hc. apply reject_ok in H as [_ H].
  destruct (bool_decide (pr_Operator p = FilterIsNull)) eqn:En; [eauto|].
  destruct (bool_decide (pr_Operator p = FilterIsNotNull)) eqn:Enn; [eauto|].
  rewrite (bool_decide_false (pr_Operator p ∈ [FilterIsNull; FilterIsNotNull])) in H
    by (reflect; rewrite !elem_of_cons, elem_of_nil; tauto).
  apply check_ok in H as [Hcount H]. apply check_ok in H as [_ [Hvals _]%check_ok_loop].
  assert (Forall (fun v => validateLiteral v = Ok tt) (elems (pr_Values p))) as Hlits.
  { eapply Forall_impl; [exact Hvals|]. simpl. intros v. apply validated_literal. }
  rewrite Forall_forall in Hlits.
  destruct (bool_decide (pr_Operator p ∈ [FilterIn; FilterNotIn])).
  - destruct (loop_succeeds add_literal (elems (pr_Values p)) ([], ps)) as [st ->]; [|eauto].
    intros [phs qs] v Hv. unfold add_literal. destruct (parse_validated v (Hlits v Hv)) as [x ->]. eauto.
  - destruct (bool_decide (pr_Operator p ∈ single_operators)); [|done].
    destruct (elems (pr_Values p)) as [|v vs]; [done|].
    destruct (bool_decide (pr_Operator p ∈ [FilterContains; FilterPrefix])); [eauto|].
    destruct (parse_validated v (Hlits v ltac:(by left))) as [x ->]. eauto.
Qed.

Lemma aggregate_ok aliases operation fieldID :
  validateAggregate s operation fieldID = Ok tt ->
  (forall rc, fieldID <> "" -> Column s fieldID = Ok rc -> is_Some (aliases !! sr_ID rc.1)) ->
  exists e, aggregateExpression s aliases operation fieldID = Ok e.
Proof.
  unfold validateAggregate, aggregateExpression. intros H Hal.
  destruct (bool_decide (operation = AggregateCountRows)) eqn:Ec; [eauto|].
  apply reject_ok in H as [Hf H]. apply bind_ok in H as (rc & Hc & H). rewrite Hc. reflect.
  destruct (Hal rc Hf Hc) as [a ->].
  repeat match goal with
  | H : context [bool_decide (operation ∈ [?x; ?y])] |- _ =>
      destruct (bool_decide (operation ∈ [x; y])) eqn:?;
      [apply bool_decide_eq_true in Heqb; rewrite !elem_of_cons, elem_of_nil in Heqb;
       destruct Heqb as [->|[->|[]]]; consts; eauto|clear Heqb]
  end.
  done.
Qed.

Lemma projection_ok aliases p index :
  validateProjection s p = Ok tt ->
  (forall rc, rp_FieldID p <> "" -> Column s (rp_FieldID p) = Ok rc -> is_Some (aliases !! sr_ID rc.1)) ->
  (forall rc, Column s "" <> Ok rc) ->
  exists e, compileProjection s aliases p index = Ok e.
Proof.
  unfold validateProjection, compileProjection. rewrite reject_ok. intros [_ H] Hal Hblank.
  destruct (rp_Aggregate p != "").
  - destruct (aggregate_ok aliases _ _ H Hal) as [e ->]. eauto.
  - apply bind_ok in H as (rc & Hc & H). rewrite Hc.
    assert (rp_FieldID p <> "") as Hne by (intros E; rewrite E in Hc; by apply Hblank in Hc).
    destruct (Hal rc Hne Hc) as [a ->]. destruct (rp_TimeBucket p != ""); eauto.
Qed.
End valid_snapshot.

(** ** Fields of a validated intent *)

Lemma column_blank s rc : ValidateIntegrity s = Ok tt -> Column s "" <> Ok rc.
Proof.
  intros (defs & rels & Hcan & Hres & Hr)%valid_resolved.
  unfold Column. destruct (list_find _ _) as [[i [r c]]|] eqn:E; [|done].
  apply list_find_Some in E as (Hi & Hid & _). apply list_elem_of_lookup_2 in Hi.
  unfold snapshot_columns in Hi. rewrite Hr in Hi. simpl in Hi.
  apply (resolved_column defs rels Hcan Hres r c) in Hi as (a & b & d & cd & _ & _ & _ & ->). done.
Qed.

Record intent_ok (s : SchemaSnapshot) (i : RelationalIntent) : Prop := {
  io_from : exists r, Relation s (ri_FromRelationID i) = Ok r;
  io_projections : Forall (fun p => validateProjection s p = Ok tt) (elems (ri_Projections i));
  io_filters : Forall (fun p => validatePredicate s p "" = Ok tt) (elems (ri_Filters i));
  io_windows : Forall (fun w => validateTemporalWindow s w = Ok tt) (elems (ri_TemporalWindows i));
  io_exists : Forall (fun e => validateExistence s e = Ok tt) (elems (ri_Exists i));
  io_groups : Forall (fun g => is_Some (projection_at i g)) (elems (ri_GroupBy i));
  io_having : Forall (fun p => validateAggregatePredicate s p = Ok tt) (elems (ri_Having i))
}.

Lemma validated_intent s i : validate_intent s i = Ok tt -> intent_ok s i.
Proof.
  unfold validate_intent. rewrite !reject_ok. intros (_ & _ & _ & H).
  destruct (Relation s (ri_FromRelationID i)) as [r|] eqn:Hr; [|done]. apply reject_ok in H as [_ H].
  rewrite !check_ok in H. destruct H as (Hp & Hf & Hw & He & Hg & Hh & _).
  rewrite !for_each_ok in *. constructor; try (eapply Forall_impl; [eassumption|]; intros ? ?%wrapped_ok; done).
  - eauto.
  - unfold validateGrouping in Hg. apply bind_ok in Hg as (seen & Hl & _). eapply loop_forall; [|exact Hl].
    intros st g st' Hst. unfold validate_group in Hst. destruct (projection_at i g); [by eexists|done].
Qed.

Lemma aggregate_field s operation f :
  validateAggregate s operation f = Ok tt -> f = "" \/ exists rc, Column s f = Ok rc.
Proof.
  unfold validateAggregate. destruct (operation == AggregateCountRows).
  - rewrite reject_ok. intros [H _]. reflect. by left.
  - rewrite reject_ok, bind_ok. intros (_ & rc & ? & _). eauto.
Qed.

Lemma field_known s i f :
  intent_ok s i -> f ∈ referenced_fields i -> f = "" \/ exists rc, Column s f = Ok rc.
Proof.
  intros [_ Hp Hf Hw _ _ Hh]. rewrite Forall_forall in Hp. rewrite Forall_forall in Hf.
  rewrite Forall_forall in Hw. rewrite Forall_forall in Hh.
  unfold referenced_fields. rewrite !elem_of_app, !list_elem_of_fmap.
  intros [(x & -> & Hx)|[(x & -> & Hx)|[(x & -> & Hx)|(x & -> & Hx)]]].
  - specialize (Hp x Hx). unfold validateProjection in Hp. apply reject_ok in Hp as [_ Hp].
    destruct (rp_Aggregate x != ""); [by eapply aggregate_field|]. apply bind_ok in Hp as (rc & ? & _). eauto.
  - specialize (Hf x Hx). unfold validatePredicate in Hf. apply bind_ok in Hf as (rc & ? & _). eauto.
  - specialize (Hw x Hx). unfold validateTemporalWindow in Hw. apply bind_ok in Hw as (rc & ? & _). eauto.
  - specialize (Hh x Hx). unfold validateAggregatePredicate in Hh. apply check_ok in Hh as [Hh _].
    by eapply aggregate_field.
Qed.

Lemma add_fields s from fs : forall ids ids',
  loop (add_field s from) ids fs = Ok ids' ->
  forall t, t ∈ ids' <-> t ∈ ids \/
    exists f rc, f ∈ fs /\ f <> "" /\ Column s f = Ok rc /\ sr_ID rc.1 = t /\ t <> from.
Proof.
  induction fs as [|f fs IH]; intros ids ids' H t; simpl in H.
  - injection H as <-. split; [auto|]. intros [?|(f & rc & ?%elem_of_nil & _)]; done.
  - destruct (add_field s from ids f) as [ids1|] eqn:Hf; [|done]. rewrite (IH ids1 ids' H t).
    setoid_rewrite elem_of_cons. unfold add_field in Hf. case_bool_decide as Hb.
    + injection Hf as <-. naive_solver.
    + destruct (Column s f) as [rc|] eqn:Hc; [|done]. injection Hf as <-. case_bool_decide as Hr; simpl.
      * split; [naive_solver|]. intros [?|(g & rc' & [->|?] & ? & ? & <- & ?)]; [by left| |naive_solver].
        exfalso. congruence.
      * rewrite elem_of_union, elem_of_singleton. split.
        -- intros [[->|?]|?]; [right; exists f, rc; auto 10|by left|naive_solver].
        -- intros [?|(g & rc' & [->|?] & ? & ? & <- & ?)]; [by left; right|left; left; congruence|].
           right. naive_solver.
Qed.

(** ** Paths *)

Definition resolves_to (s : SchemaSnapshot) (i : RelationalIntent) (selected : gmap string string)
    (target : string) (p : JoinPath) : Prop :=
  ResolveJoinPath s (ri_FromRelationID i) target (default "" (selected !! target)) = Planned p.

Lemma resolve_path_ok s i selected target p :
  resolve_path s (ri_FromRelationID i) target (default "" (selected !! target)) = Ok p <->
  resolves_to s i selected target p.
Proof.
  unfold resolve_path, resolves_to. destruct (ResolveJoinPath _ _ _ _); split; intros [=]; congruence.
Qed.

Lemma required_ok s i ids :
  requiredJoinRelationIDs s i = Ok ids ->
  forall t, t ∈ ids <-> exists f rc, f ∈ referenced_fields i /\ f <> "" /\ Column s f = Ok rc /\
    sr_ID rc.1 = t /\ t <> ri_FromRelationID i.
Proof.
  unfold requiredJoinRelationIDs. rewrite bind_ok. intros (set & Hl & [= <-]) t.
  rewrite sort_by_Permutation, elem_of_elements, (add_fields _ _ _ _ _ Hl). set_solver.
Qed.
Lemma required_total s i : intent_ok s i -> exists ids, requiredJoinRelationIDs s i = Ok ids.
Proof.
  intros Hi. unfold requiredJoinRelationIDs.
  destruct (loop_succeeds (add_field s (ri_FromRelationID i)) (referenced_fields i) ∅) as [ids ->]; [|eauto].
  intros st f Hf. unfold add_field. destruct (field_known s i f Hi Hf) as [->|[rc ->]].
  - rewrite bool_decide_true by done. eauto.
  - destruct (f == ""); eauto.
Qed.

(** The join paths the compiler needs: to the relation of every field the
    intent mentions, and a direct one to every relation it tests for existence. *)
Definition joinable (s : SchemaSnapshot) (i : RelationalIntent) (selected : gmap string string) : Prop :=
  (forall f rc, f ∈ referenced_fields i -> Column s f = Ok rc -> sr_ID rc.1 <> ri_FromRelationID i ->
     exists p, resolves_to s i selected (sr_ID rc.1) p) /\
  (forall e, e ∈ elems (ri_Exists i) ->
     exists p step, resolves_to s i selected (ex_RelationID e) p /\ jp_Steps p = [step]).

Lemma plan_paths_ok s a paths :
  ValidateIntegrity s = Ok tt -> Forall (fun tp : target_path => joins s a (jp_Steps tp.2) tp.1) paths ->
  forall known st, a ∈ known -> aliases_ok known st ->
  exists st', loop (fun st (tp : target_path) => loop (plan_step s) st (jp_Steps tp.2)) st paths = Ok st' /\
    aliases_ok (list_to_set (paths.*1) ∪ known) st'.
Proof.
  intros Hs. induction paths as [|[t p] paths IH]; intros Hj known st Ha Hok; simpl.
  - exists st. split; [done|]. by replace (∅ ∪ known) with known by set_solver.
  - apply Forall_cons in Hj as [Ht Hj]. simpl in *.
    destruct (plan_path_ok s Hs _ known st a t Ht Ha Hok) as (st1 & -> & Hok1).
    destruct (IH Hj ({[ t ]} ∪ known) st1) as (st2 & -> & Hok2); [set_solver|done|].
    exists st2. split; [done|]. destruct Hok2 as [Hk Hb]. split; [|done]. set_solver.
Qed.

Lemma plan_joins_ok s i selected :
  ValidateIntegrity s = Ok tt -> intent_ok s i -> joinable s i selected ->
  exists aliases js, planJoins s i selected {[ ri_FromRelationID i := "t0" ]} = Ok (aliases, js) /\
    (forall k a, aliases !! k = Some a -> a <> "") /\
    (forall f rc, f ∈ referenced_fields i -> f <> "" -> Column s f = Ok rc -> is_Some (aliases !! sr_ID rc.1)).
Proof.
  intros Hs Hi [Hj _]. unfold planJoins. destruct (required_total s i Hi) as [ids Hids]. rewrite Hids.
  pose proof (required_ok s i ids Hids) as Hreq.
  destruct (collect_total (fun target =>
    let? path := resolve_path s (ri_FromRelationID i) target (default "" (selected !! target)) in
    Ok (target, path)) ids) as [paths Hpaths].
  { intros t (f & rc & Hf & Hne & Hc & <- & Ht)%Hreq. destruct (Hj f rc Hf Hc Ht) as [p Hp].
    apply resolve_path_ok in Hp. rewrite Hp. eauto. }
  rewrite Hpaths. apply collect_ok in Hpaths.
  assert (Forall (fun tp : target_path => joins s (ri_FromRelationID i) (jp_Steps tp.2) tp.1) paths /\
          paths.*1 = ids) as [Hjoins Hfst].
  { clear -Hpaths. induction Hpaths as [|t tp l l' Htp _ [IH1 IH2]]; [done|].
    apply bind_ok in Htp as (p & Hp & [= <-]). split; [|by rewrite fmap_cons, IH2].
    constructor; [|done]. apply resolve_path_ok, resolved_shortest in Hp as [Hp _]. done. }
  destruct (plan_paths_ok s (ri_FromRelationID i) (merge_sort path_le paths) Hs) with
    (known := {[ ri_FromRelationID i ]} : gset string) (st := ({[ ri_FromRelationID i := "t0" ]} : gmap string string, [] : list string))
    as ([aliases js] & Hl & [Hk Hb]).
  - by rewrite merge_sort_Permutation.
  - set_solver.
  - split; simpl; [by rewrite dom_singleton|]. intros k a [_ <-]%lookup_singleton_Some. done.
  - exists aliases, js. split_and!; [done..|]. intros f rc Hf Hne Hc. apply elem_of_dom, Hk.
    destruct (decide (sr_ID rc.1 = ri_FromRelationID i)) as [->|Hne']; [set_solver|].
    apply elem_of_union_l, elem_of_list_to_set. rewrite merge_sort_Permutation, Hfst.
    apply Hreq. exists f, rc. auto.
Qed.

(** ** Clauses *)

Section clauses.
Context (s : SchemaSnapshot) (i : RelationalIntent) (selected aliases : gmap string string).
Hypothesis (Hs : ValidateIntegrity s = Ok tt) (Hi : intent_ok s i) (Hj : joinable s i selected).
Hypothesis (Hblank : forall k a, aliases !! k = Some a -> a <> "").
Hypothesis (Hfields : forall f rc, f ∈ referenced_fields i -> f <> "" -> Column s f = Ok rc ->
  is_Some (aliases !! sr_ID rc.1)).

Lemma field_alias f rc :
  f ∈ referenced_fields i -> Column s f = Ok rc -> default "" (aliases !! sr_ID rc.1) <> "".
Proof using Hs Hblank Hfields.
  intros Hf Hc. destruct (Hfields f rc Hf) as [a Ha]; [|done|].
  - intros ->. by apply (column_blank s rc) in Hc.
  - rewrite Ha. simpl. by eapply Hblank.
Qed.

Lemma filters_ok ps : exists st, loop (add_filter s aliases) ([], ps) (elems (ri_Filters i)) = Ok st.
Proof using Hs Hi Hblank Hfields.
  apply loop_succeeds. intros st p Hp. pose proof (io_filters s i Hi) as Hv. rewrite Forall_forall in Hv.
  specialize (Hv p Hp). pose proof Hv as Hv'. unfold validatePredicate in Hv'.
  apply bind_ok in Hv' as (rc & Hc & _). unfold add_filter, add_predicate. rewrite Hc.
  destruct (predicate_ok s p "" (default "" (aliases !! sr_ID rc.1)) st.2 Hv) as [r ->]; [|eauto].
  apply (field_alias (pr_FieldID p) rc); [|done].
  unfold referenced_fields. rewrite !elem_of_app, !list_elem_of_fmap. eauto 10.
Qed.

Lemma windows_ok st : exists st', loop (add_window s aliases) st (elems (ri_TemporalWindows i)) = Ok st'.
Proof using Hi.
  apply loop_succeeds. intros [parts ps] w Hw. pose proof (io_windows s i Hi) as Hv. rewrite Forall_forall in Hv.
  specialize (Hv w Hw). unfold validateTemporalWindow in Hv. apply bind_ok in Hv as (rc & Hc & Hv).
  rewrite !reject_ok, check_ok in Hv. destruct Hv as (_ & _ & _ & Hp).
  unfold add_window. rewrite Hc. destruct (parse_rfc3339 (tw_AsOf w)); [|done]. eauto.
Qed.

Lemma existences_ok st :
  exists st', loop (add_existence s i selected) st (imap pair (elems (ri_Exists i))) = Ok st'.
Proof using Hs Hi Hj.
  apply loop_succeeds. intros [parts ps] [k e] Hke.
  apply elem_of_lookup_imap in Hke as (j & e' & [= -> ->] & He%list_elem_of_lookup_2).
  pose proof (io_exists s i Hi) as Hv. rewrite Forall_forall in Hv. specialize (Hv e' He).
  unfold validateExistence in Hv. destruct (Relation s (ex_RelationID e')) as [r|] eqn:Hr; [|done].
  apply for_each_ok in Hv. rewrite Forall_forall in Hv.
  destruct (proj2 Hj e' He) as (p & step & Hp & Hsteps).
  pose proof (resolved_shortest _ _ _ _ _ Hp) as [Hw _]. rewrite Hsteps in Hw. destruct Hw as (_ & Hfk & _).
  unfold add_existence, compileExistence. simpl. apply resolve_path_ok in Hp. rewrite Hp, Hsteps, Hr.
  destruct (join_condition_ok s Hs step "t0" (alias_number "e" (S j)) Hfk) as [c ->].
  destruct (loop_succeeds (add_predicate s (alias_number "e" (S j))) (elems (ex_Filters e')) ([c], ps))
    as [st' ->]; [|eauto].
  intros [q qs] f Hf. unfold add_predicate. simpl.
  destruct (predicate_ok s f (ex_RelationID e') (alias_number "e" (S j)) qs (Hv f Hf)) as [x ->]; [done|eauto].
Qed.

Lemma where_ok ps : exists w, compileWhere s i selected aliases ps = Ok w.
Proof using Hs Hi Hj Hblank Hfields.
  unfold compileWhere. destruct (filters_ok ps) as [st1 ->]. destruct (windows_ok st1) as [st2 ->].
  destruct (existences_ok st2) as [st3 ->]. eauto.
Qed.

Lemma projection_compiles p index :
  p ∈ elems (ri_Projections i) -> exists e, compileProjection s aliases p index = Ok e.
Proof using Hs Hi Hfields.
  intros Hp. pose proof (io_projections s i Hi) as Hv. rewrite Forall_forall in Hv.
  apply projection_ok; [by apply Hv| |intros rc; by apply column_blank].
  intros rc. apply Hfields. unfold referenced_fields. rewrite !elem_of_app, !list_elem_of_fmap. eauto 10.
Qed.

Lemma having_ok ps : exists h, compileHaving s i aliases ps = Ok h.
Proof using Hi Hfields.
  unfold compileHaving. destruct (elems (ri_Having i) == []); [eauto|].
  destruct (loop_succeeds (add_having s aliases) (elems (ri_Having i)) ([], ps)) as [st ->]; [|eauto].
  intros [parts qs] p Hp. pose proof (io_having s i Hi) as Hv. rewrite Forall_forall in Hv.
  specialize (Hv p Hp). unfold validateAggregatePredicate in Hv. rewrite check_ok, !reject_ok in Hv.
  destruct Hv as (Ha & _ & _ & _ & Hlit). unfold add_having.
  destruct (aggregate_ok s aliases _ _ Ha) as [e ->].
  - intros rc. apply Hfields. unfold referenced_fields. rewrite !elem_of_app, !list_elem_of_fmap. eauto 10.
  - destruct (parse_validated _ Hlit) as [v ->]. eauto.
Qed.

Lemma groups_ok : exists gs, collect (compile_group s i aliases) (elems (ri_GroupBy i)) = Ok gs.
Proof using Hs Hi Hfields.
  apply collect_total. intros g Hg. pose proof (io_groups s i Hi) as Hv. rewrite Forall_forall in Hv.
  destruct (Hv g Hg) as [p Hp]. unfold compile_group. rewrite Hp. unfold projection_at in Hp.
  destruct (g <? 0); [done|]. apply list_elem_of_lookup_2 in Hp.
  destruct (projection_compiles p (Z.to_nat g) Hp) as [e ->]. eauto.
Qed.
End clauses.

(** C30: an intent compiles exactly when it should. Compilation succeeds if and
    only if the snapshot and the intent validate, the path selections target
    relations of the query, and the join planner resolves a path to every
    relation the intent mentions (a direct one for an existence test). In
    particular a validated intent never fails for a missing alias, an
    unparsable literal, an unknown column or an inconsistent foreign key. *)
Theorem compiles_exactly s i selected :
  (exists q, CompilePostgresWithJoinPaths s i selected = Ok q) <->
  ValidateIntegrity s = Ok tt /\ validate_intent s i = Ok tt /\
  validateSelectedJoinTargets s i selected = Ok tt /\ joinable s i selected.
Proof.
  unfold CompilePostgresWithJoinPaths. split.
  - intros (q & Hq). rewrite !check_ok, bind_ok in Hq.
    destruct Hq as (Hs & Hv & Hsel & [aliases js] & Hjoins & Hq). split_and!; try done.
    apply bind_ok in Hq as (r & _ & Hq). apply bind_ok in Hq as (w & Hw & _).
    unfold planJoins in Hjoins. apply bind_ok in Hjoins as (ids & Hids & Hjoins).
    apply bind_ok in Hjoins as (paths & Hpaths & _). apply collect_ok in Hpaths.
    unfold compileWhere in Hw. apply bind_ok in Hw as (st1 & _ & Hw). apply bind_ok in Hw as (st2 & _ & Hw).
    apply bind_ok in Hw as (st3 & Hex & _). split.
    + intros f rc Hf Hc Hne. assert (sr_ID rc.1 ∈ ids) as [k Hk]%list_elem_of_lookup.
      { apply (required_ok s i ids Hids). exists f, rc. split_and!; try done.
        intros ->. by apply (column_blank s rc) in Hc. }
      destruct (Forall2_lookup_l _ _ _ _ _ Hpaths Hk) as (tp & _ & (p & Hp & _)%bind_ok).
      exists p. by apply resolve_path_ok.
    + intros e [k Hk]%list_elem_of_lookup.
      assert (Forall (fun ke : nat * ExistencePredicate => exists p step,
        resolves_to s i selected (ex_RelationID ke.2) p /\ jp_Steps p = [step]) (imap pair (elems (ri_Exists i)))) as Hall.
      { eapply loop_forall; [|exact Hex]. intros st [j x] st' Hst. unfold add_existence, compileExistence in Hst.
        apply bind_ok in Hst as (part & Hpart & _). apply bind_ok in Hpart as (p & Hp & Hpart). simpl in *.
        destruct (jp_Steps p) as [|step [|]] eqn:Hsteps; [done| |done].
        exists p, step. split; [by apply resolve_path_ok|done]. }
      rewrite Forall_forall in Hall. apply (Hall (k, e)). by apply elem_of_lookup_imap_2.
  - intros (Hs & Hv & Hsel & Hj). pose proof (validated_intent s i Hv) as Hi. rewrite Hs, Hv, Hsel.
    destruct (plan_joins_ok s i selected Hs Hi Hj) as (aliases & js & -> & Hblank & Hfields).
    destruct (io_from s i Hi) as [r ->].
    destruct (where_ok s i selected aliases Hs Hi Hj Hblank Hfields []) as [w ->].
    destruct (ri_Shape i == ResultExistence); [eauto|].
    destruct (collect_total (fun '(index, p) => compileProjection s aliases p index)
      (imap pair (elems (ri_Projections i)))) as [cs ->].
    { intros [k p] Hkp. apply elem_of_lookup_imap in Hkp as (j & p' & [= -> ->] & Hp%list_elem_of_lookup_2).
      by eapply projection_compiles. }
    destruct (groups_ok s i aliases Hs Hi Hfields) as [gs ->].
    destruct (having_ok s i aliases Hi Hfields w.2) as [h ->]. eauto.
Qed.
