(* ===== verification/QueryPlan.v ===== *)
(** * Relational query plans and their evidence

    Models [internal/datasource/relational_query_plan.go],
    [schema_projection.go], [evidence_rows.go] and [executed_query.go]. *)
From Stdlib Require Import Ascii.
From S2P Require Import Prelude Schema JoinPlan Intent SqlCompile.
From stdpp Require Import sorting base tactics strings list gmap numbers pretty.
From stdpp Require Import list options.
Open Scope Z_scope.
Open Scope go_scope.

Definition RelationalQueryPlanV1 : string := "omnidex.relational-query-plan.v1".

Record JoinPathSelection := mkSelection { jps_TargetRelationID : string; jps_PathID : string }.
Record PlannedJoinPath := mkPlannedPath { pjp_TargetRelationID : string; pjp_Path : JoinPath }.
Record RelationalQueryPlan := mkPlan {
  qp_Schema : string;
  qp_SourceID : string;
  qp_Intent : RelationalIntent;
  qp_JoinPathSelections : slice JoinPathSelection;
  qp_JoinPaths : slice PlannedJoinPath;
  qp_Outputs : slice CompiledOutput
}.
#[global] Instance JoinPathSelection_eq : EqDecision JoinPathSelection. Proof. solve_decision. Defined.
#[global] Instance PlannedJoinPath_eq : EqDecision PlannedJoinPath. Proof. solve_decision. Defined.
#[global] Instance RelationalQueryPlan_eq : EqDecision RelationalQueryPlan. Proof. solve_decision. Defined.

(** ** [normalizeIntentSlices]

    The function gets a copy of the intent whose slices share their elements with
    the caller's: [normalize_elements] is what the caller sees afterwards, and
    [normalizeIntentSlices] what the copy holds. *)
Definition non_nil {A} (s : slice A) : slice A := Some (elems s).

Definition normalize_predicate (p : RelationalPredicate) : RelationalPredicate :=
  mkPredicate (pr_FieldID p) (pr_Operator p) (non_nil (pr_Values p)).
Definition normalize_existence (e : ExistencePredicate) : ExistencePredicate :=
  mkExistence (ex_RelationID e) (ex_Negated e) (non_nil (ex_Filters e)).

Definition normalize_elements (i : RelationalIntent) : RelationalIntent :=
  mkIntent (ri_Schema i) (ri_SourceID i) (ri_FromRelationID i) (ri_Shape i) (ri_Projections i)
    (fmap (M := option) (fmap (M := list) normalize_predicate) (ri_Filters i)) (ri_TemporalWindows i)
    (fmap (M := option) (fmap (M := list) normalize_existence) (ri_Exists i))
    (ri_GroupBy i) (ri_Having i) (ri_OrderBy i) (ri_Limit i).

Definition normalizeIntentSlices (i : RelationalIntent) : RelationalIntent :=
  let i := normalize_elements i in
  mkIntent (ri_Schema i) (ri_SourceID i) (ri_FromRelationID i) (ri_Shape i) (non_nil (ri_Projections i))
    (non_nil (ri_Filters i)) (non_nil (ri_TemporalWindows i)) (non_nil (ri_Exists i))
    (non_nil (ri_GroupBy i)) (non_nil (ri_Having i)) (non_nil (ri_OrderBy i)) (ri_Limit i).

(** ** Building a plan *)

Definition relationalPlanJoinTargets (snapshot : SchemaSnapshot) (intent : RelationalIntent)
    : result (list string) :=
  let? targets := requiredJoinRelationIDs snapshot intent in
  let others := List.filter (fun id => id != ri_FromRelationID intent)
                  (ex_RelationID <$> elems (ri_Exists intent)) in
  Ok (sort_by id (elements (list_to_set (targets ++ others) : gset string))).

Definition plan_selections (selected : gmap string string) : list JoinPathSelection :=
  sort_by jps_TargetRelationID ((fun '(target, pathID) => mkSelection target pathID) <$> map_to_list selected).

Definition plan_path (snapshot : SchemaSnapshot) (from : string) (selected : gmap string string)
    (target : string) : result PlannedJoinPath :=
  let? path := resolve_path snapshot from target (default "" (selected !! target)) in
  Ok (mkPlannedPath target path).

Definition BuildRelationalQueryPlan (snapshot : SchemaSnapshot) (intent : RelationalIntent)
    (selected : gmap string string) : result RelationalQueryPlan :=
  check ValidateIntegrity snapshot;
  let intent := normalizeIntentSlices intent in
  let? compiled := CompilePostgresWithJoinPaths snapshot intent selected in
  let? targets := relationalPlanJoinTargets snapshot intent in
  let? paths := collect (plan_path snapshot (ri_FromRelationID intent) selected) targets in
  Ok (mkPlan RelationalQueryPlanV1 (ss_SourceID snapshot) intent (Some (plan_selections selected))
        (Some paths) (appended (cq_Outputs compiled))).

Definition add_selection (selected : gmap string string) (selection : JoinPathSelection)
    : result (gmap string string) :=
  reject "relational query plan contains an incomplete join-path selection"
    when ((jps_TargetRelationID selection == "") || (jps_PathID selection == ""))%bool;
  reject "relational query plan repeats a join-path selection target"
    when bool_decide (is_Some (selected !! jps_TargetRelationID selection));
  Ok (<[jps_TargetRelationID selection := jps_PathID selection]> selected).

(** The plan as it is left by the normalisation of its shared elements. *)
Definition plan_with_intent (plan : RelationalQueryPlan) (i : RelationalIntent) : RelationalQueryPlan :=
  mkPlan (qp_Schema plan) (qp_SourceID plan) i (qp_JoinPathSelections plan) (qp_JoinPaths plan)
    (qp_Outputs plan).
Definition normalized_plan (plan : RelationalQueryPlan) : RelationalQueryPlan :=
  plan_with_intent plan (normalize_elements (qp_Intent plan)).

(** [RelationalQueryPlan.Validate]; when it succeeds the caller's plan has become
    [normalized_plan plan]. *)
Definition validate_plan (snapshot : SchemaSnapshot) (plan : RelationalQueryPlan) : result unit :=
  reject "relational query plan authority does not match schema snapshot"
    when ((qp_Schema plan != RelationalQueryPlanV1) || (qp_SourceID plan != ss_SourceID snapshot))%bool;
  let? selected := loop add_selection ∅ (elems (qp_JoinPathSelections plan)) in
  match BuildRelationalQueryPlan snapshot (qp_Intent plan) selected with
  | Err _ => Err "rebuild relational query plan: %w"
  | Ok rebuilt =>
      reject "relational query plan does not match its intent, selected joins, or outputs"
        when (normalized_plan plan != rebuilt);
      Ok tt
  end.

Definition selections_map (selections : list JoinPathSelection) : gmap string string :=
  foldl (fun m s => <[jps_TargetRelationID s := jps_PathID s]> m) ∅ selections.

Definition CompilePostgresPlan (snapshot : SchemaSnapshot) (plan : RelationalQueryPlan) : result CompiledQuery :=
  check validate_plan snapshot plan;
  let plan := normalized_plan plan in
  let selected := selections_map (elems (qp_JoinPathSelections plan)) in
  let? compiled := CompilePostgresWithJoinPaths snapshot (qp_Intent plan) selected in
  reject "compiled PostgreSQL query diverged from relational plan"
    when (Some (cq_Outputs compiled) != qp_Outputs plan);
  Ok compiled.

(** ** What was executed *)

Record ExecutedParameter := mkExecutedParameter {
  xp_Position : Z;
  xp_Type : string;
  xp_Value : string
}.
Record ExecutedQuery := mkExecutedQuery { xq_SQL : string; xq_Parameters : list ExecutedParameter }.

(** [%0*d] *)
Definition zero_padded (width : nat) (n : Z) : string :=
  let digits := to_bytes (pretty n) in
  of_bytes (repeat (byte 48) (width - length digits) ++ digits).

(** The fraction of [time.RFC3339Nano]: nine digits without trailing zeros. *)
Fixpoint drop_zeros_rev (l : bytes) : bytes :=
  match l with a :: r => if a == byte 48 then drop_zeros_rev r else l | [] => [] end.
Definition fraction_text (nsec : Z) : string :=
  match reverse (drop_zeros_rev (reverse (to_bytes (zero_padded 9 nsec)))) with
  | [] => ""
  | ds => "." +:+ of_bytes ds
  end.
Definition zone_text (offset : Z) : string :=
  if offset =? 0 then "Z"
  else
    let minutes := Z.abs offset / 60 in
    (if offset <? 0 then "-" else "+") +:+ zero_padded 2 (minutes / 60) +:+ ":" +:+ zero_padded 2 (minutes mod 60).
(** [Time.Format(time.RFC3339Nano)] *)
Definition format_rfc3339_nano (t : Time) : string :=
  zero_padded 4 (tm_year t) +:+ "-" +:+ zero_padded 2 (tm_month t) +:+ "-" +:+ zero_padded 2 (tm_day t) +:+ "T"
  +:+ zero_padded 2 (tm_hour t) +:+ ":" +:+ zero_padded 2 (tm_minute t) +:+ ":" +:+ zero_padded 2 (tm_second t)
  +:+ fraction_text (tm_nanosecond t) +:+ zone_text (tm_offset t).

(** The type switch of [executionEvidence]; its default case is not reached by
    the dynamic types of compiled parameters. *)
Definition value_text (v : value) : string :=
  match v with
  | VString s => s
  | VInt z => pretty z
  | VBool b => if b then "true" else "false"
  | VTime t => format_rfc3339_nano t
  end.
Definition executionEvidence (query : CompiledQuery) : ExecutedQuery :=
  mkExecutedQuery (cq_SQL query)
    ((fun p => mkExecutedParameter (cp_Position p) (cp_Type p) (value_text (cp_value p))) <$> cq_Parameters query).

(** ** Rows shown and cited *)

Record EvidenceValue := mkEvidenceValue { ev_Kind : string; ev_Value : string }.
Record EvidenceColumn := mkEvidenceColumn {
  ec_Name : string;
  ec_PostgresTypeOID : Z;
  ec_FieldID : string;
  ec_Aggregate : string;
  ec_TypeCategory : string
}.
Record TypedEvidenceResult := mkEvidence {
  er_Columns : list EvidenceColumn;
  er_Rows : list (list EvidenceValue);
  er_RowCount : Z;
  er_ByteCount : Z
}.
Record EvidenceRowColumn := mkRowColumn { rc_Label : string; rc_Kind : string }.
Record EvidenceRows := mkRows { ro_Columns : list EvidenceRowColumn; ro_Rows : list (list EvidenceValue) }.

Definition evidenceColumnLabel (snapshot : SchemaSnapshot) (projection : RelationalProjection) : result string :=
  if rp_Aggregate projection == AggregateCountRows then Ok "count_rows"
  else
    let? rc := Column snapshot (rp_FieldID projection) in
    let name := sr_Schema rc.1 +:+ "." +:+ sr_Name rc.1 +:+ "." +:+ sc_Name rc.2 in
    Ok (if rp_Aggregate projection != "" then rp_Aggregate projection +:+ "(" +:+ name +:+ ")"
        else if rp_TimeBucket projection != "" then rp_TimeBucket projection +:+ "(" +:+ name +:+ ")"
        else name).

Definition row_column (snapshot : SchemaSnapshot) (fc : RelationalProjection * EvidenceColumn)
    : result EvidenceRowColumn :=
  let '(field, column) := fc in
  reject "database evidence column %d differs from the relational intent"
    when ((ec_FieldID column != rp_FieldID field) || (ec_Aggregate column != rp_Aggregate field))%bool;
  let? label := evidenceColumnLabel snapshot field in
  Ok (mkRowColumn label (ec_TypeCategory column)).

Definition ProjectEvidenceRows (snapshot : SchemaSnapshot) (intent : RelationalIntent)
    (result_ : TypedEvidenceResult) (start end_ : Z) : result EvidenceRows :=
  let rows := er_Rows result_ in
  let columns := er_Columns result_ in
  let fields := elems (ri_Projections intent) in
  reject "database evidence row range is outside the actual result"
    when ((start <? 0) || (end_ <? start) || (Z.of_nat (length rows) <? end_)
          || negb (er_RowCount result_ =? Z.of_nat (length rows))
          || ((start =? end_) && (negb (start =? 0) || negb (er_RowCount result_ =? 0))))%bool;
  let? shown :=
    (if ri_Shape intent == ResultExistence then
       match fields, columns with
       | [], [column] =>
           reject "database existence evidence requires one boolean column"
             when (ec_TypeCategory column != TypeBoolean);
           Ok [mkRowColumn "exists" TypeBoolean]
       | _, _ => Err "database existence evidence requires one boolean column"
       end
     else
       reject "database evidence columns differ from the relational intent"
         when (negb (Nat.eqb (length columns) (length fields)) || Nat.eqb (length columns) 0)%bool;
       collect (row_column snapshot) (zip fields columns)) in
  let? projected := collect (fun row =>
    reject "database evidence row has the wrong column count"
      when negb (Nat.eqb (length row) (length shown)); Ok row)
    (take (Z.to_nat (end_ - start)) (drop (Z.to_nat start) rows)) in
  Ok (mkRows shown projected).

(** ** The part of a schema shown to a model *)

Definition IntentSchemaProjectionV1 : string := "omnidex.intent-schema-projection.v1".
Definition MaxProjectedColumns : Z := 120.
Definition MaxProjectedEnumValues : Z := 512.

Record IntentColumnProjection := mkColumnProjection {
  icp_ID : string;
  icp_Name : string;
  icp_TypeCategory : string;
  icp_Nullable : bool;
  icp_AllowedValues : list string
}.
Record IntentForeignKeyProjection := mkForeignKeyProjection {
  ifp_ID : string;
  ifp_ColumnIDs : list string;
  ifp_ReferencedRelationID : string;
  ifp_ReferencedColumnIDs : list string
}.
Record IntentRelationProjection := mkRelationProjection {
  irp_ID : string;
  irp_SchemaName : string;
  irp_Name : string;
  irp_Kind : string;
  irp_Columns : list IntentColumnProjection;
  irp_PrimaryKey : list string;
  irp_ForeignKeys : list IntentForeignKeyProjection
}.
Record IntentSchemaProjection := mkSchemaProjection {
  isp_Schema : string;
  isp_SourceID : string;
  isp_Relations : list IntentRelationProjection
}.

Definition project_column (c : SchemaColumn) : IntentColumnProjection :=
  mkColumnProjection (sc_ID c) (sc_Name c) (sc_TypeCategory c) (sc_Nullable c) (elems (sc_AllowedValues c)).
Definition project_foreign_key (fk : SchemaForeignKey) : IntentForeignKeyProjection :=
  mkForeignKeyProjection (sf_ID fk) (elems (sf_ColumnIDs fk)) (sf_ReferencedRelationID fk)
    (elems (sf_ReferencedColumnIDs fk)).
Definition project_relation (r : SchemaRelation) : IntentRelationProjection :=
  mkRelationProjection (sr_ID r) (sr_Schema r) (sr_Name r) (sr_Kind r) (project_column <$> elems (sr_Columns r))
    (elems (sr_PrimaryKey r)) (project_foreign_key <$> elems (sr_ForeignKeys r)).

Definition count_enum_values (count : Z) (c : SchemaColumn) : result Z :=
  let count := count + Z.of_nat (length (elems (sc_AllowedValues c))) in
  reject "intent schema projection exceeds %d enum values" when (MaxProjectedEnumValues <? count);
  Ok count.

Definition project_step (snapshot : SchemaSnapshot)
    (st : gset string * Z * Z * list IntentRelationProjection) (relationID : string)
    : result (gset string * Z * Z * list IntentRelationProjection) :=
  let '(seen, columnCount, enumValueCount, out) := st in
  reject "intent schema projection repeats relation ID %q" when bool_decide (relationID ∈ seen);
  let? relation := Relation snapshot relationID in
  let columnCount := columnCount + Z.of_nat (length (elems (sr_Columns relation))) in
  reject "intent schema projection exceeds %d columns" when (MaxProjectedColumns <? columnCount);
  let? enumValueCount := loop count_enum_values enumValueCount (elems (sr_Columns relation)) in
  Ok ({[ relationID ]} ∪ seen, columnCount, enumValueCount, out ++ [project_relation relation]).

Definition ProjectSchemaForIntent (snapshot : SchemaSnapshot) (relationIDs : list string)
    : result IntentSchemaProjection :=
  match ValidateIntegrity snapshot with
  | Err _ => Err "intent schema projection requires a valid snapshot: %w"
  | Ok _ =>
      reject "intent schema projection requires 1..%d relation IDs" when (relationIDs == []);
      let? st := loop (project_step snapshot) (∅, 0, 0, []) relationIDs in
      Ok (mkSchemaProjection IntentSchemaProjectionV1 (ss_SourceID snapshot) st.2)
  end.
