(* ===== verification/QuerySpec.v ===== *)
(** * Query plans: the theorems

    A plan that was built validates and compiles to the query it was built from;
    selections survive the round trip through the plan. *)
From Stdlib Require Import Ascii.
From S2P Require Import Prelude Schema JoinPlan Intent SqlCompile SqlSpec QueryPlan.
From stdpp Require Import sorting base tactics strings list gmap numbers pretty.
From stdpp Require Import list options.
Open Scope Z_scope.
Open Scope go_scope.

(** ** Known relations have an identity *)

Lemma integral_relation_ids s r :
  ValidateIntegrity s = Ok tt -> r ∈ elems (ss_Relations s) -> sr_ID r <> "".
Proof.
  unfold ValidateIntegrity. intros H Hr. destruct (definitionsFromSnapshot s) as [ds|] eqn:Hd; [|by split_ok H].
  clear H. unfold definitionsFromSnapshot in Hd.
  destruct (loop register_relation _ _) as [st|] eqn:Hl in Hd; [|done]. clear Hd.
  assert (forall rs st0, loop register_relation st0 rs = Ok st -> r ∈ rs -> sr_ID r <> "") as H; [|by eapply H].
  clear. induction rs as [|x rs IH]; intros st0 Hl Hr; [by apply elem_of_nil in Hr|].
  simpl in Hl. destruct (register_relation st0 x) as [st'|] eqn:Hx; [|done].
  apply elem_of_cons in Hr as [->|Hr]; [|by eapply IH].
  destruct st0 as [rels cols]. unfold register_relation in Hx. split_ok Hx. by reflect.
Qed.

Lemma relation_blank s id r : ValidateIntegrity s = Ok tt -> Relation s id = Ok r -> id <> "".
Proof.
  intros Hs. unfold Relation. destruct (list_find _ _) as [[k x]|] eqn:E; [|done]. intros _.
  apply list_find_Some in E as (Hk & <- & _). apply (integral_relation_ids s x Hs).
  by eapply list_elem_of_lookup_2.
Qed.

(** ** Selections *)

Lemma selections_perm selected :
  plan_selections selected ≡ₚ (fun '(k, v) => mkSelection k v) <$> map_to_list selected.
Proof. apply merge_sort_Permutation. Qed.

Lemma add_selections (sels : list JoinPathSelection) : forall m : gmap string string,
  Forall (fun x => jps_TargetRelationID x <> "" /\ jps_PathID x <> "") sels ->
  NoDup (jps_TargetRelationID <$> sels) ->
  Forall (fun x => m !! jps_TargetRelationID x = None) sels ->
  loop add_selection m sels = Ok (foldl (fun m x => <[jps_TargetRelationID x := jps_PathID x]> m) m sels).
Proof.
  induction sels as [|x sels IH]; intros m Hne Hnd Hm; [done|]. simpl.
  apply Forall_cons in Hne as [[H1 H2] Hne]. apply Forall_cons in Hm as [Hx Hm].
  rewrite fmap_cons, NoDup_cons in Hnd. destruct Hnd as [Hno Hnd].
  unfold add_selection at 1. rewrite !bool_decide_eq_false_2; [|by rewrite Hx; intros [? ?]|done..]. simpl.
  apply IH; [done..|]. rewrite Forall_forall in Hm |- *. intros y Hy.
  rewrite lookup_insert_ne; [by apply Hm|]. intros E. apply Hno. rewrite E. by apply list_elem_of_fmap_2.
Qed.

Lemma selections_map_lookup (sels : list JoinPathSelection) k v : forall m : gmap string string,
  NoDup (jps_TargetRelationID <$> sels) ->
  foldl (fun m x => <[jps_TargetRelationID x := jps_PathID x]> m) m sels !! k = Some v <->
  mkSelection k v ∈ sels \/ (k ∉ jps_TargetRelationID <$> sels /\ m !! k = Some v).
Proof.
  induction sels as [|x sels IH]; intros m Hnd; cbn [foldl].
  - split; [right; split; [apply not_elem_of_nil|done]|]. intros [?%elem_of_nil|[_ ?]]; done.
  - rewrite fmap_cons, NoDup_cons in Hnd. destruct Hnd as [Hno Hnd]. rewrite (IH _ Hnd).
    rewrite fmap_cons, not_elem_of_cons, elem_of_cons. destruct x as [kx vx]. simpl in *.
    destruct (decide (k = kx)) as [->|Hk].
    + rewrite lookup_insert_eq. split.
      * intros [Hin|[_ [= <-]]]; [|auto]. left. right. done.
      * intros [[[= <-]|Hin]|[[? _] _]]; [by right|by left|done].
    + rewrite lookup_insert_ne by done. split.
      * intros [Hin|[? ?]]; [auto|]. right. split_and!; done.
      * intros [[[= <- _]|Hin]|[[_ ?] ?]]; [done|auto..].
Qed.

Lemma selection_targets_nodup selected : NoDup (jps_TargetRelationID <$> plan_selections selected).
Proof.
  rewrite selections_perm, <- list_fmap_compose.
  rewrite (list_fmap_ext _ fst); [apply NoDup_fst_map_to_list|]. by intros _ [k v] _.
Qed.

Lemma selections_map_id selected : selections_map (plan_selections selected) = selected.
Proof.
  apply map_eq. intros k. apply option_eq. intros v. unfold selections_map.
  rewrite selections_map_lookup by apply selection_targets_nodup.
  rewrite lookup_empty, selections_perm, list_elem_of_fmap. split.
  - intros [([k' v'] & [= -> ->] & H)|[_ ?]]; [by apply elem_of_map_to_list|done].
  - intros H. left. exists (k, v). split; [done|]. by apply elem_of_map_to_list.
Qed.

(** ** Normalised intents *)

Lemma elems_non_nil {A} (s : slice A) : elems (non_nil s) = elems s.
Proof. done. Qed.

Lemma normalize_elements_fixed i : normalize_elements (normalizeIntentSlices i) = normalizeIntentSlices i.
Proof.
  unfold normalizeIntentSlices, normalize_elements. simpl. f_equal; simpl; unfold non_nil; simpl; f_equal.
  - destruct (ri_Filters i) as [l|]; simpl; [|done]. rewrite <- list_fmap_compose. by apply list_fmap_ext.
  - destruct (ri_Exists i) as [l|]; simpl; [|done]. rewrite <- list_fmap_compose. by apply list_fmap_ext.
Qed.

Lemma normalize_fixed i : normalizeIntentSlices (normalizeIntentSlices i) = normalizeIntentSlices i.
Proof. unfold normalizeIntentSlices at 1. rewrite normalize_elements_fixed. done. Qed.

(** ** Compiled queries have outputs *)

Lemma shaped_projections i : validateResultShape i = Ok tt -> ri_Shape i <> ResultExistence ->
  elems (ri_Projections i) <> [].
Proof.
  intros H Hs Hp. unfold validateResultShape in H. rewrite Hp in H. cbn [count_where List.filter length] in H.
  rewrite (bool_decide_eq_false_2 (ri_Shape i = ResultExistence)) in H by done.
  repeat match type of H with
  | context [bool_decide (ri_Shape i = ?x)] => destruct (bool_decide (ri_Shape i = x)); [done|]
  | context [bool_decide (ri_Shape i ∈ ?x)] => destruct (bool_decide (ri_Shape i ∈ x)); [done|]
  end. done.
Qed.

Lemma compiled_outputs s i selected q :
  CompilePostgresWithJoinPaths s i selected = Ok q -> cq_Outputs q <> [].
Proof.
  intros H. assert (validateResultShape i = Ok tt) as Hshape.
  { unfold CompilePostgresWithJoinPaths in H. split_ok H. unfold validate_intent in E0. split_ok E0. by destruct a0. }
  apply compile_inv in H as (al & jo & rel & w & body & _ & _ & _ & Hb & ->). simpl. cbv zeta in Hb.
  destruct (bool_decide (ri_Shape i = ResultExistence)) eqn:E; [by subst body|]. reflect.
  destruct Hb as (cs & gs & hs & Hc & _ & _ & ->). simpl. intros Hnil.
  apply collect_ok, Forall2_length in Hc. rewrite length_imap in Hc.
  apply (shaped_projections i Hshape E). apply length_zero_iff_nil. rewrite Hc.
  apply (f_equal length) in Hnil. by rewrite length_fmap in Hnil.
Qed.

Lemma compiled_selections s i selected q :
  CompilePostgresWithJoinPaths s i selected = Ok q ->
  Forall (fun x => jps_TargetRelationID x <> "" /\ jps_PathID x <> "") (plan_selections selected).
Proof.
  unfold CompilePostgresWithJoinPaths. intros H. split_ok H. clear H. destruct a.
  unfold validateSelectedJoinTargets in E1. split_ok E1. destruct a1. rewrite for_each_ok in E1.
  rewrite selections_perm, Forall_fmap. eapply Forall_impl; [exact E1|].
  intros [k v] Hkv. split_ok Hkv. reflect. simpl. split; [|done]. by eapply relation_blank.
Qed.

(** building and validating a plan agree. A plan that was built from an
    intent and a selection of join paths validates against the same snapshot,
    and compiling it gives the very query that the (normalised) intent compiles
    to under that selection. *)
Theorem built_plan_roundtrip s intent selected plan :
  BuildRelationalQueryPlan s intent selected = Ok plan ->
  validate_plan s plan = Ok tt /\
  exists q, CompilePostgresPlan s plan = Ok q /\
    CompilePostgresWithJoinPaths s (normalizeIntentSlices intent) selected = Ok q.
Proof.
  intros Hb. pose proof Hb as Hb'. unfold BuildRelationalQueryPlan in Hb'. cbv zeta in Hb'. split_ok Hb'.
  set (i := normalizeIntentSlices intent) in *. rename a0 into q, E0 into Hq, E1 into Ht, E2 into Hpaths. subst plan.
  pose proof (compiled_outputs _ _ _ _ Hq) as Hout.
  assert (normalize_elements i = i) as Hfix by apply normalize_elements_fixed.
  assert (validate_plan s (mkPlan RelationalQueryPlanV1 (ss_SourceID s) i (Some (plan_selections selected))
            (Some a2) (appended (cq_Outputs q))) = Ok tt) as Hv.
  { unfold validate_plan. cbn [qp_Schema qp_SourceID qp_JoinPathSelections qp_Intent elems default from_option id].
    rewrite !bool_decide_eq_true_2 by done. cbn [negb orb].
    rewrite add_selections; [|by eapply compiled_selections|apply selection_targets_nodup|].
    2:{ apply Forall_true. intros x. apply lookup_empty. }
    pose proof (selections_map_id selected) as Hsel. unfold selections_map in Hsel. rewrite Hsel.
    unfold BuildRelationalQueryPlan. cbv zeta. unfold i at 1 2 3 4 5 6.
    rewrite normalize_fixed. fold i. rewrite E, Hq, Ht, Hpaths.
    rewrite bool_decide_eq_true_2; [done|]. unfold normalized_plan, plan_with_intent.
    cbn [qp_Schema qp_SourceID qp_JoinPathSelections qp_Intent qp_JoinPaths qp_Outputs]. by rewrite Hfix. }
  split; [done|]. exists q. split; [|done]. unfold CompilePostgresPlan. rewrite Hv.
  unfold normalized_plan, plan_with_intent.
  cbn [qp_JoinPathSelections qp_Intent qp_Outputs elems default from_option id]. rewrite Hfix.
  rewrite selections_map_id, Hq. rewrite bool_decide_eq_true_2; [done|]. by destruct (cq_Outputs q).
Qed.

Definition sample_plan : RelationalQueryPlan :=
  match BuildRelationalQueryPlan sample_snapshot sample_intent sample_selection with
  | Ok p => p
  | Err _ => mkPlan "" "" sample_intent None None None
  end.
Lemma built_plan_roundtrip_witness :
  BuildRelationalQueryPlan sample_snapshot sample_intent sample_selection = Ok sample_plan /\
  validate_plan sample_snapshot sample_plan = Ok tt.
Proof.
  split; [vm_compute; reflexivity|].
  apply (built_plan_roundtrip sample_snapshot sample_intent sample_selection). vm_compute. reflexivity.
Defined.

(** ** Conflicting selections

    Orders refer to customers twice and customers to regions.  Selecting the
    first path to customers and the second path to regions gives a plan whose
    recorded path to regions goes through the second foreign key, but the
    compiler joins customers only once: the SQL is the one of the plan that uses
    the first foreign key for both. *)
Definition region_definitions : list RelationDefinition :=
  [sample_relation "regions" [sample_column "id" 1 "bigint" TypeInteger; sample_column "name" 2 "text" TypeText] [];
   sample_relation "customers"
     [sample_column "id" 1 "bigint" TypeInteger; sample_column "region_id" 2 "bigint" TypeInteger;
      sample_column "name" 3 "text" TypeText] [sample_key "customers_region" "region_id" "regions"];
   sample_relation "orders"
     [sample_column "id" 1 "bigint" TypeInteger; sample_column "buyer_id" 2 "bigint" TypeInteger;
      sample_column "referrer_id" 3 "bigint" TypeInteger]
     [sample_key "orders_buyer" "buyer_id" "customers"; sample_key "orders_referrer" "referrer_id" "customers"]].
Definition region_snapshot : SchemaSnapshot :=
  match NewSchemaSnapshot "src-1" "shop" region_definitions (mkInstant 1000 true) with
  | Ok s => s
  | Err _ => sample_snapshot
  end.
Definition region_intent : RelationalIntent :=
  mkIntent RelationalIntentV1 "src-1" "rel_2" ResultRecords
    (Some [mkProjection "rel_1_col_3" "" ""; mkProjection "rel_3_col_2" "" ""]) None None None None None None 10.
Definition region_selection (customers regions : string) : gmap string string :=
  {[ "rel_1" := customers; "rel_3" := regions ]}.
Definition plan_of (selected : gmap string string) : option (list PlannedJoinPath) :=
  match BuildRelationalQueryPlan region_snapshot region_intent selected with
  | Ok plan => qp_JoinPaths plan
  | Err _ => None
  end.
Definition sql_of (selected : gmap string string) : option string :=
  match CompilePostgresWithJoinPaths region_snapshot region_intent selected with
  | Ok q => Some (cq_SQL q)
  | Err _ => None
  end.
Lemma conflicting_selection_ignored :
  is_Some (plan_of (region_selection "path_1" "path_2")) /\
  plan_of (region_selection "path_1" "path_2") <> plan_of (region_selection "path_1" "path_1") /\
  sql_of (region_selection "path_1" "path_2") = sql_of (region_selection "path_1" "path_1").
Proof.
  split; [eexists; vm_compute; reflexivity|]. split; [|vm_compute; reflexivity].
  intros H. vm_compute in H. discriminate H.
Qed.
