(* ===== verification/PathIdentity.v ===== *)
(** * Filesystem identities in model-visible text

    Models [internal/modelcontext/path_provenance.go], [path_identity.go], the
    escape decoder of [source_literal_identity.go], and the redaction and
    restoration of [internal/assemblyline/artifact_redaction.go].  The code
    indexes its strings byte by byte, so a Go string is a list of bytes here and
    an index is a [nat]; [value[i:j]] is [sub]. *)
From Stdlib Require Import Ascii.
From S2P Require Import Prelude Schema.
From stdpp Require Import sorting base tactics strings list gmap numbers pretty.
From stdpp Require Import list options.
Open Scope Z_scope.
Open Scope go_scope.

Abbreviation text := (list ascii).
Definition bytes : string -> text := String.list_ascii_of_string.
Definition of_bytes : text -> string := String.string_of_list_ascii.

(** [value[s:e]] *)
Definition sub (l : text) (s e : nat) : text := take (e - s) (drop s l).
(** A test of [value[i]], where the code has checked that [i] is in range. *)
Definition at_ (l : text) (i : nat) (p : ascii -> bool) : bool :=
  match l !! i with Some a => p a | None => false end.
(** The longest run of bytes that satisfy [p]. *)
Fixpoint run_length (p : ascii -> bool) (l : text) : nat :=
  match l with
  | a :: l => if p a then S (run_length p l) else 0%nat
  | [] => 0%nat
  end.
(** [for i < len(l) && p(l[i]) { i++ }] *)
Definition advance (p : ascii -> bool) (l : text) (i : nat) : nat := (i + run_length p (drop i l))%nat.
(** [strings.Index] *)
Definition starts_with (m l : text) : bool := take (length m) l == m.
Fixpoint index (m l : text) : option nat :=
  if starts_with m l then Some 0%nat else
  match l with [] => None | _ :: l => S <$> index m l end.

Definition one_of (set : text) (a : ascii) : bool := bool_decide (a ∈ set).
Definition is_byte (b a : ascii) : bool := a == b.
Definition slash : ascii := byte 47.
Definition backslash : ascii := byte 92.

(** ** [path.Clean] and [path.Base] *)

Fixpoint split_slash (l : text) : list text :=
  match l with
  | [] => [[]]
  | a :: l =>
      if is_byte slash a then [] :: split_slash l else
      match split_slash l with
      | w :: ws => (a :: w) :: ws
      | [] => [[a]]
      end
  end.
Fixpoint join_with (sep : text) (ws : list text) : text :=
  match ws with
  | [] => []
  | [w] => w
  | w :: ws => w ++ sep ++ join_with sep ws
  end.
(** The elements kept so far, last first. *)
Definition clean_step (rooted : bool) (out : list text) (element : text) : list text :=
  if bool_decide (element = [] \/ element = bytes ".") then out else
  if element == bytes ".." then
    match out with
    | last :: rest =>
        if last == bytes ".." then (if rooted then out else element :: out) else rest
    | [] => if rooted then [] else [element]
    end
  else element :: out.
Definition Clean (l : text) : text :=
  let rooted := starts_with [slash] l in
  let body := join_with [slash] (reverse (foldl (clean_step rooted) [] (split_slash l))) in
  if rooted then slash :: body else if body == [] then bytes "." else body.

Definition Base (l : text) : text :=
  if l == [] then bytes "." else
  let stripped := take (length l - run_length (is_byte slash) (reverse l)) l in
  if stripped == [] then [slash] else
  reverse (take (run_length (fun a => negb (is_byte slash a)) (reverse stripped)) (reverse stripped)).

(** ** Provenance *)

Record ArtifactIdentityProvenance := mkProvenance {
  pr_paths : list text;
  pr_mentions : gmap text text;
  pr_orderedMentions : list text
}.
(** The zero value. *)
Definition no_provenance : ArtifactIdentityProvenance := mkProvenance [] ∅ [].

Definition validateProvenancePath (value : text) : result unit :=
  reject "%q must be one normalized relative slash path" when
    ((value == []) || (value != bytes (trim_space (of_bytes value))) || one_of value (byte 0) ||
     one_of value backslash || starts_with [slash] value)%bool;
  let clean := Clean value in
  reject "%q must be one normalized relative slash path" when
    ((clean != value) || (clean == bytes ".") || (clean == bytes "..") ||
     starts_with (bytes "../") clean)%bool;
  Ok tt.

(** Longer mentions first, then by bytes. *)
Definition mention_le (a b : text) : Prop :=
  (length b < length a)%nat \/
  length a = length b /\ str_lt (of_bytes b) (of_bytes a) = false.
#[global] Instance mention_le_dec : RelDecision mention_le.
Proof. intros a b. unfold mention_le. apply _. Defined.

Definition provenance_path (st : option text * gmap text text * gmap text (list text)) (value : text)
    : result (option text * gmap text text * gmap text (list text)) :=
  let '(previous, mentions, basenameOwners) := st in
  check validateProvenancePath value;
  reject "artifact identity provenance path %q is duplicated" when (previous == Some value);
  let base := Base value in
  Ok (Some value, <[value := value]> mentions,
      <[base := default [] (basenameOwners !! base) ++ [value]]> basenameOwners).

Definition own_basename (mentions : gmap text text) (entry : text * list text) : gmap text text :=
  match entry.2 with
  | [owner] => <[entry.1 := owner]> mentions
  | _ => mentions
  end.

Definition NewArtifactIdentityProvenance (paths : list text) : result ArtifactIdentityProvenance :=
  let known := sort_by of_bytes paths in
  let? st := loop provenance_path (None, ∅, ∅) known in
  let '(_, mentions0, basenameOwners) := st in
  let mentions := foldl own_basename mentions0 (map_to_list basenameOwners) in
  Ok (mkProvenance known mentions (merge_sort mention_le (map_to_list mentions).*1)).

Definition resolve (provenance : ArtifactIdentityProvenance) (value : text) : option text :=
  if bool_decide (size (pr_mentions provenance) = 0%nat) then None else
  match pr_mentions provenance !! value with
  | Some resolved => Some resolved
  | None =>
      if starts_with (bytes "./") value
      then pr_mentions provenance !! drop 2 value
      else None
  end.

(** ** Path tokens *)

Record PathIdentity := mkIdentity { pi_Start : nat; pi_End : nat; pi_Value : text }.
Record pathTokenSpan := mkSpan { ps_start : nat; ps_end : nat; ps_quoted : bool }.

Definition isASCIIAlpha (a : ascii) : bool := (byte_in 97 122 a || byte_in 65 90 a)%bool.
Definition artifactMentionByte (a : ascii) : bool :=
  (isASCIIAlpha a || byte_in 48 57 a || is_byte (byte 95) a || is_byte (byte 45) a ||
   is_byte slash a || is_byte backslash a)%bool.

Definition artifactMentionBoundary (value : text) (start end_ : nat) : bool :=
  negb ((bool_decide (0 < start)%nat &&
         (at_ value (start - 1) artifactMentionByte ||
          (at_ value (start - 1) (is_byte (byte 46)) && bool_decide (1 < start)%nat &&
           at_ value (start - 2) artifactMentionByte))) ||
        (bool_decide (end_ < length value)%nat &&
         (at_ value end_ artifactMentionByte ||
          (at_ value end_ (is_byte (byte 46)) && bool_decide (end_ + 1 < length value)%nat &&
           at_ value (end_ + 1) artifactMentionByte))))%bool.

Definition pathIdentityOverlap (start end_ : nat) (identities : list PathIdentity) : bool :=
  existsb (fun i => bool_decide (start < pi_End i)%nat && bool_decide (pi_Start i < end_)%nat)%bool identities.

(** The loop over one mention; a mention is not empty, so every round advances. *)
Fixpoint scan_mention (fuel : nat) (value mention resolved : text) (offset : nat)
    (identities : list PathIdentity) : list PathIdentity :=
  match fuel with
  | O => identities
  | S fuel =>
      if bool_decide (offset + length mention <= length value)%nat then
        match index mention (drop offset value) with
        | None => identities
        | Some relative =>
            let start := (offset + relative)%nat in
            let end_ := (start + length mention)%nat in
            scan_mention fuel value mention resolved end_
              (if (negb (artifactMentionBoundary value start end_) ||
                   pathIdentityOverlap start end_ identities)%bool
               then identities else identities ++ [mkIdentity start end_ resolved])
        end
      else identities
  end.

Definition identities (provenance : ArtifactIdentityProvenance) (value : text) : list PathIdentity :=
  foldl (fun ids mention =>
    scan_mention (S (length value)) value mention (default [] (pr_mentions provenance !! mention)) 0 ids)
    [] (pr_orderedMentions provenance).

Definition pathTokenSeparator (a : ascii) : bool :=
  (byte_in 0 32 a || is_byte (byte 44) a || is_byte (byte 59) a)%bool.
Definition pathQuote (a : ascii) : bool :=
  (is_byte (byte 39) a || is_byte (byte 34) a || is_byte (byte 96) a)%bool.
Definition opening : ascii -> bool := one_of [byte 40; byte 91; byte 123; byte 60].
Definition closing : ascii -> bool :=
  one_of [byte 39; byte 41; byte 93; byte 125; byte 62; byte 44; byte 46; byte 33; byte 63].

Definition trimPathToken (value : text) (start end_ : nat) : nat * nat :=
  let start' := (start + run_length opening (sub value start end_))%nat in
  (start', (end_ - run_length closing (reverse (sub value start' end_)))%nat).

(** One round of [lexPathTokens] from a byte that is not a separator: the raw
    token, whether it is quoted, and the next offset. *)
Definition lex_token (value : text) (offset : nat) : nat * nat * bool * nat :=
  match value !! offset with
  | Some quote =>
      if pathQuote quote then
        let start := S offset in
        let end_ := advance (fun a => negb (is_byte quote a)) value start in
        (start, end_, true, if bool_decide (end_ < length value)%nat then S end_ else end_)
      else
        let end_ := advance (fun a => negb (pathTokenSeparator a)) value offset in
        (offset, end_, false, end_)
  | None => (offset, offset, false, offset)
  end.

(** Every round consumes a byte, so the length of the text is enough fuel. *)
Fixpoint lex_from (fuel : nat) (value : text) (offset : nat) : list pathTokenSpan :=
  match fuel with
  | O => []
  | S fuel =>
      let offset := advance pathTokenSeparator value offset in
      if bool_decide (length value <= offset)%nat then [] else
      let '(start, end_, quoted, next) := lex_token value offset in
      let '(start, end_) := trimPathToken value start end_ in
      (if bool_decide (start < end_)%nat then [mkSpan start end_ quoted] else []) ++
      lex_from fuel value next
  end.
Definition lexPathTokens (value : text) : list pathTokenSpan := lex_from (S (length value)) value 0.

Definition drive_prefix (value : text) : bool :=
  (at_ value 0 isASCIIAlpha && at_ value 1 (is_byte (byte 58)))%bool.

Definition isQualifiedPath (value : text) : bool :=
  match value with
  | [] => false
  | first :: _ =>
      (starts_with (bytes "./") value || starts_with (bytes "../") value ||
       is_byte slash first || is_byte backslash first || is_byte (byte 126) first ||
       drive_prefix value || one_of value slash || one_of value backslash)%bool
  end.

(** ** Source-style escapes *)

Definition sourceHexByte (a : ascii) : bool :=
  (byte_in 48 57 a || byte_in 97 102 a || byte_in 65 70 a)%bool.
Definition sourceHexBytes (value : text) : bool := ((value != []) && forallb sourceHexByte value)%bool.

Definition digit_value (a : ascii) : Z :=
  let n := Z.of_N (N_of_ascii a) in
  if byte_in 48 57 a then n - 48 else if byte_in 97 102 a then n - 87 else n - 55.
Definition parse_uint (digits : text) (base : Z) : Z :=
  foldl (fun acc a => acc * base + digit_value a) 0 digits.
Definition zbyte (z : Z) : ascii := ascii_of_N (Z.to_N z).
(** [string(rune)] of a valid code point *)
Definition encode_rune (r : Z) : text :=
  if r <? 128 then [zbyte r] else
  if r <? 2048 then [zbyte (192 + r / 64); zbyte (128 + r mod 64)] else
  if r <? 65536 then [zbyte (224 + r / 4096); zbyte (128 + r / 64 mod 64); zbyte (128 + r mod 64)] else
  [zbyte (240 + r / 262144); zbyte (128 + r / 4096 mod 64); zbyte (128 + r / 64 mod 64); zbyte (128 + r mod 64)].
(** [utf8.ValidRune] *)
Definition valid_rune (r : Z) : bool :=
  ((0 <=? r) && (r <? 55296) || (57343 <? r) && (r <=? 1114111))%bool.

(** [(decoded, end, ok)]; the digits are valid in their base and at most 32 bits
    long, so [strconv.ParseUint] succeeds. *)
Definition decodeSourceEscapeCodePoint (digits : text) (base : Z) (end_ : nat) : text * nat * bool :=
  let value := parse_uint digits base in
  if valid_rune value then (encode_rune value, end_, true) else ([], end_, false).

Definition sourceSimpleEscape (a : ascii) : option text :=
  let n := N_of_ascii a in
  if one_of [backslash; slash; byte 39; byte 34; byte 96] a then Some [a] else
  if (n =? 97)%N then Some [byte 7] else
  if (n =? 98)%N then Some [byte 8] else
  if (n =? 101)%N then Some [byte 27] else
  if (n =? 102)%N then Some [byte 12] else
  if (n =? 110)%N then Some [byte 10] else
  if (n =? 114)%N then Some [byte 13] else
  if (n =? 116)%N then Some [byte 9] else
  if (n =? 118)%N then Some [byte 11] else None.

Definition decodeSourceUnicodeEscape (raw : text) (start : nat) : text * nat * bool :=
  let digitsStart := (start + 2)%nat in
  if at_ raw digitsStart (is_byte (byte 123)) then
    let digitsStart := S digitsStart in
    let end_ := (digitsStart + run_length sourceHexByte (sub raw digitsStart (digitsStart + 6)))%nat in
    if (bool_decide (end_ = digitsStart) || negb (at_ raw end_ (is_byte (byte 125))))%bool
    then ([], start, false)
    else decodeSourceEscapeCodePoint (sub raw digitsStart end_) 16 (S end_)
  else
    let end_ := (digitsStart + 4)%nat in
    if (bool_decide (length raw < end_)%nat || negb (sourceHexBytes (sub raw digitsStart end_)))%bool
    then ([], start, false)
    else decodeSourceEscapeCodePoint (sub raw digitsStart end_) 16 end_.

Definition decodeSourceLiteralEscape (raw : text) (start : nat) : text * nat * bool :=
  match raw !! S start with
  | Some next =>
      if negb (at_ raw start (is_byte backslash)) then ([], start, false) else
      match sourceSimpleEscape next with
      | Some decoded => (decoded, (start + 2)%nat, true)
      | None =>
          if is_byte (byte 10) next then ([byte 10], (start + 2)%nat, true) else
          if is_byte (byte 13) next then
            ([byte 10], if at_ raw (start + 2) (is_byte (byte 10)) then (start + 3)%nat else (start + 2)%nat, true) else
          if byte_in 48 55 next then
            let end_ := (start + 2 + run_length (byte_in 48 55) (sub raw (start + 2) (start + 4)))%nat in
            decodeSourceEscapeCodePoint (sub raw (start + 1) end_) 8 end_ else
          if (is_byte (byte 120) next && bool_decide (start + 4 <= length raw)%nat &&
              sourceHexBytes (sub raw (start + 2) (start + 4)))%bool then
            decodeSourceEscapeCodePoint (sub raw (start + 2) (start + 4)) 16 (start + 4) else
          if is_byte (byte 117) next then decodeSourceUnicodeEscape raw start else
          if (is_byte (byte 85) next && bool_decide (start + 10 <= length raw)%nat &&
              sourceHexBytes (sub raw (start + 2) (start + 10)))%bool then
            decodeSourceEscapeCodePoint (sub raw (start + 2) (start + 10)) 16 (start + 10) else
          ([], start, false)
      end
  | None => ([], start, false)
  end.

(** Every accepted escape advances the cursor. *)
Fixpoint escapes_only (fuel : nat) (value : text) (cursor : nat) : bool :=
  match fuel with
  | O => false
  | S fuel =>
      if bool_decide (length value <= cursor)%nat then true else
      let '(_, end_, ok) := decodeSourceLiteralEscape value cursor in
      if (negb ok || bool_decide (end_ <= cursor)%nat)%bool then false
      else escapes_only fuel value end_
  end.
Definition quotedTrailingEscapeLiteral (value : text) (quoted : bool) : bool :=
  if (negb quoted || one_of value slash || drive_prefix value)%bool then false else
  match index [backslash] value with
  | None => false
  | Some escape => escapes_only (S (length value)) value escape
  end.

(** ** Identities of a text *)

Definition pathSpanOverlapsIdentity (span : pathTokenSpan) (ids : list PathIdentity) : bool :=
  existsb (fun i => bool_decide (ps_start span < pi_End i)%nat && bool_decide (pi_Start i < ps_end span)%nat)%bool ids.

(** Insertion sort: the sorted part is kept last first. *)
Fixpoint insert_back (x : PathIdentity) (sorted : list PathIdentity) : list PathIdentity :=
  match sorted with
  | y :: rest => if bool_decide (pi_Start x < pi_Start y)%nat then y :: insert_back x rest else x :: sorted
  | [] => [x]
  end.
Definition sortPathIdentities (ids : list PathIdentity) : list PathIdentity :=
  reverse (foldl (fun sorted x => insert_back x sorted) [] ids).

Definition add_span (provenance : ArtifactIdentityProvenance) (value : text)
    (ids : list PathIdentity) (span : pathTokenSpan) : list PathIdentity :=
  if pathSpanOverlapsIdentity span ids then ids else
  let token := sub value (ps_start span) (ps_end span) in
  match resolve provenance token with
  | Some resolved => ids ++ [mkIdentity (ps_start span) (ps_end span) resolved]
  | None =>
      if quotedTrailingEscapeLiteral token (ps_quoted span) then ids else
      if negb (isQualifiedPath token) then ids else
      ids ++ [mkIdentity (ps_start span) (ps_end span) token]
  end.

Definition PathIdentities (value : text) (provenance : ArtifactIdentityProvenance) : list PathIdentity :=
  sortPathIdentities
    (foldl (add_span provenance value) (identities provenance value) (lexPathTokens value)).

Definition ProvenArtifactIdentities (value : text) (provenance : ArtifactIdentityProvenance)
    : list PathIdentity :=
  sortPathIdentities (identities provenance value).

(** ** Redaction *)

Record ArtifactIdentity := mkArtifact { ai_Token : text; ai_Value : text }.

Definition artifact_token (n : nat) : text := bytes "ARTIFACT_" ++ bytes (pretty n).

Definition redact_step (input : text)
    (st : list ArtifactIdentity * gmap text text * text * nat) (m : PathIdentity)
    : list ArtifactIdentity * gmap text text * text * nat :=
  let '(ids, tokens, redacted, previous) := st in
  let '(token, ids, tokens) :=
    match tokens !! pi_Value m with
    | Some token => (token, ids, tokens)
    | None =>
        let token := artifact_token (length ids + 1) in
        (token, ids ++ [mkArtifact token (pi_Value m)], <[pi_Value m := token]> tokens)
    end in
  (ids, tokens, redacted ++ sub input previous (pi_Start m) ++ token, pi_End m).

Definition RedactArtifactIdentities (input : text) (provenance : ArtifactIdentityProvenance)
    : text * list ArtifactIdentity :=
  match PathIdentities input provenance with
  | [] => (input, [])
  | matches =>
      let '(ids, _, redacted, previous) := foldl (redact_step input) ([], ∅, [], 0%nat) matches in
      (redacted ++ drop previous input, ids)
  end.

(** ** Restoration *)

Definition is_digit : ascii -> bool := byte_in 48 57.
(** The length of the leftmost-longest match of [ARTIFACT_[1-9][0-9]*] at the
    start of the text. *)
Definition token_length (l : text) : option nat :=
  if (starts_with (bytes "ARTIFACT_") l && at_ l 9 (byte_in 49 57))%bool
  then Some (9 + run_length is_digit (drop 9 l))%nat else None.
(** [^ARTIFACT_[1-9][0-9]*$] *)
Definition opaque_token (l : text) : bool := token_length l == Some (length l).

Definition artifactTokenByte (a : ascii) : bool :=
  (isASCIIAlpha a || is_digit a || is_byte (byte 95) a)%bool.
Definition artifactTokenBoundary (value : text) (start end_ : nat) : bool :=
  ((bool_decide (start = 0%nat) || negb (at_ value (start - 1) artifactTokenByte)) &&
   (bool_decide (end_ = length value) || negb (at_ value end_ artifactTokenByte)))%bool.

(** [opaqueArtifactMentionPattern.FindAllStringIndex]: the rest of the text, the
    offset of its first byte, and how much of it belongs to the last match. *)
Fixpoint find_tokens (l : text) (i skip : nat) : list (nat * nat) :=
  match l with
  | [] => []
  | _ :: l' =>
      match skip with
      | S skip => find_tokens l' (S i) skip
      | O =>
          match token_length l with
          | Some n => (i, (i + n)%nat) :: find_tokens l' (S i) (n - 1)
          | None => find_tokens l' (S i) 0
          end
      end
  end.

Definition identity_entry (resolved : gmap text text) (identity : ArtifactIdentity) : result (gmap text text) :=
  reject "invalid opaque artifact identity %#v" when
    (negb (opaque_token (ai_Token identity)) || blank (of_bytes (ai_Value identity)))%bool;
  reject "duplicate opaque artifact token %s" when bool_decide (is_Some (resolved !! ai_Token identity));
  Ok (<[ai_Token identity := ai_Value identity]> resolved).
Definition artifactIdentityMap (ids : list ArtifactIdentity) : result (gmap text text) :=
  loop identity_entry ∅ ids.

Definition restore_step (input : text) (resolved : gmap text text)
    (st : text * nat) (m : nat * nat) : result (text * nat) :=
  let '(restored, previous) := st in
  if negb (artifactTokenBoundary input m.1 m.2) then Ok st else
  match resolved !! sub input m.1 m.2 with
  | None => Err "semantic result contains unknown artifact token %s"
  | Some value => Ok (restored ++ sub input previous m.1 ++ value, m.2)
  end.

Definition RestoreArtifactIdentities (input : text) (ids : list ArtifactIdentity) : result text :=
  let? resolved := artifactIdentityMap ids in
  match find_tokens input 0 0 with
  | [] => Ok input
  | matches =>
      let? st := loop (restore_step input resolved) ([], 0%nat) matches in
      if bool_decide (st.2 = 0%nat) then Ok input else Ok (st.1 ++ drop st.2 input)
  end.

(** ** The path-free boundary *)

Fixpoint ValidatePathFreeModelContextWithProvenance (provenance : ArtifactIdentityProvenance)
    (values : list text) : result unit :=
  match values with
  | [] => Ok tt
  | value :: values =>
      match PathIdentities value provenance with
      | [] => ValidatePathFreeModelContextWithProvenance provenance values
      | _ => Err "%s field %d contains filesystem identity %q"
      end
  end.
