(* ===== verification/PathFacts.v ===== *)
(** * Facts about path identities

    Spans found by the lexer and by the mention scanner, their order, and the
    contents of a provenance. *)
From Stdlib Require Import Ascii.
From S2P Require Import Prelude Schema SchemaFacts PathIdentity.
From stdpp Require Import sorting base tactics strings list gmap numbers pretty.
From stdpp Require Import list options.

(** ** Slices and searches *)

Lemma sub_lookup l s e i : (s + i < e)%nat -> sub l s e !! i = l !! (s + i)%nat.
Proof. intros. unfold sub. rewrite lookup_take_lt by lia. by rewrite lookup_drop. Qed.
Lemma sub_length l s e : (e <= length l)%nat -> length (sub l s e) = (e - s)%nat.
Proof. intros. unfold sub. rewrite length_take, length_drop. lia. Qed.
Lemma sub_drop l s e : (s <= e)%nat -> sub l s e ++ drop e l = drop s l.
Proof.
  intros. unfold sub. replace (drop e l) with (drop (e - s) (drop s l)).
  - apply take_drop.
  - rewrite drop_drop. f_equal. lia.
Qed.
Lemma sub_sub l s m e : (s <= m <= e)%nat -> sub l s m ++ sub l m e = sub l s e.
Proof.
  intros. unfold sub. replace (drop m l) with (drop (m - s) (drop s l)) by (rewrite drop_drop; f_equal; lia).
  generalize (drop s l) as k. intros k. rewrite <- (take_drop (m - s) (take (e - s) k)).
  rewrite take_take, Nat.min_l by lia. f_equal. rewrite skipn_firstn_comm. f_equal. lia.
Qed.

Lemma at_true l i p : at_ l i p = true <-> exists a, l !! i = Some a /\ p a = true.
Proof. unfold at_. destruct (l !! i); naive_solver. Qed.
Lemma at_false l i p a : at_ l i p = false -> l !! i = Some a -> p a = false.
Proof. unfold at_. intros H E. by rewrite E in H. Qed.

Lemma starts_with_spec m l : starts_with m l = true <-> m `prefix_of` l.
Proof.
  unfold starts_with. rewrite bool_decide_eq_true. split.
  - intros <-. exists (drop (length m) l). by rewrite take_drop.
  - intros [k ->]. apply take_app_length.
Qed.

(** An occurrence of [m] in [l] at [i]. *)
Definition occurs (m l : text) (i : nat) : Prop := sub l i (i + length m) = m.
Lemma occurs_prefix m l i : occurs m l i <-> m `prefix_of` drop i l.
Proof.
  unfold occurs, sub. replace (i + length m - i)%nat with (length m) by lia.
  rewrite <- starts_with_spec. unfold starts_with. by rewrite bool_decide_eq_true.
Qed.
Lemma occurs_lookup m l i j a : occurs m l i -> m !! j = Some a -> l !! (i + j)%nat = Some a.
Proof.
  intros Ho%occurs_prefix Hj. rewrite <- lookup_drop.
  destruct Ho as [k ->]. by apply lookup_app_l_Some.
Qed.
Lemma occurs_end m l i : m <> [] -> occurs m l i -> (i + length m <= length l)%nat.
Proof.
  intros Hne Ho%occurs_prefix. apply prefix_length in Ho. rewrite length_drop in Ho.
  destruct m; [done|]. simpl in *. lia.
Qed.

Lemma index_some m l k :
  index m l = Some k -> occurs m l k /\ forall j, (j < k)%nat -> ~ occurs m l j.
Proof.
  revert k. induction l as [|a l IH]; intros k.
  - simpl. destruct (starts_with m []) eqn:E; [|done]. intros [= <-].
    apply starts_with_spec in E. split; [by apply occurs_prefix|lia].
  - cbn [index]. destruct (starts_with m (a :: l)) eqn:E.
    + intros [= <-]. apply starts_with_spec in E. split; [by apply occurs_prefix|lia].
    + destruct (index m l) as [k'|]; [|done]. intros [= <-].
      destruct (IH k' eq_refl) as [Ho Hn]. split.
      * apply occurs_prefix. by apply occurs_prefix in Ho.
      * intros [|j] Hj Hc%occurs_prefix.
        -- rewrite drop_0 in Hc. apply starts_with_spec in Hc. congruence.
        -- apply (Hn j); [lia|]. by apply occurs_prefix.
Qed.
Lemma index_none m l j : m <> [] -> index m l = None -> ~ occurs m l j.
Proof.
  intros Hne. revert j. induction l as [|a l IH]; intros j.
  - cbn [index]. destruct (starts_with m []) eqn:E; [done|]. intros _ Hc%occurs_prefix.
    assert (m `prefix_of` []) as Hc' by (by rewrite drop_nil in Hc). apply starts_with_spec in Hc'. congruence.
  - cbn [index]. destruct (starts_with m (a :: l)) eqn:E; [done|].
    destruct (index m l); [done|]. intros _ Hc%occurs_prefix. destruct j as [|j].
    + rewrite drop_0 in Hc. apply starts_with_spec in Hc. congruence.
    + by apply (IH j eq_refl), occurs_prefix.
Qed.
Lemma occurs_drop m l o j : occurs m (drop o l) j <-> occurs m l (o + j).
Proof. by rewrite !occurs_prefix, drop_drop. Qed.

Lemma run_length_le p l : (run_length p l <= length l)%nat.
Proof. induction l as [|a l IH]; simpl; [done|]. destruct (p a); lia. Qed.
Lemma run_length_in p l i a : (i < run_length p l)%nat -> l !! i = Some a -> p a = true.
Proof.
  revert i. induction l as [|b l IH]; intros i; simpl; [done|].
  destruct (p b) eqn:E; [|lia]. destruct i as [|i]; simpl; [naive_solver|].
  intros ? ?. apply (IH i); [lia|done].
Qed.
Lemma run_length_stop p l a : l !! run_length p l = Some a -> p a = false.
Proof.
  induction l as [|b l IH]; simpl; [done|]. destruct (p b) eqn:E; simpl; naive_solver.
Qed.
Lemma advance_stop p l i a : l !! advance p l i = Some a -> p a = false.
Proof. unfold advance. rewrite <- lookup_drop. apply run_length_stop. Qed.
Lemma advance_in p l i j a : (i <= j < advance p l i)%nat -> l !! j = Some a -> p a = true.
Proof.
  unfold advance. intros Hj Ha. apply (run_length_in p (drop i l) (j - i)); [lia|].
  rewrite lookup_drop. by replace (i + (j - i))%nat with j by lia.
Qed.
Lemma advance_le p l i : (i <= advance p l i)%nat.
Proof. unfold advance. lia. Qed.
Lemma advance_bound p l i : (i <= length l)%nat -> (advance p l i <= length l)%nat.
Proof. unfold advance. intros. pose proof (run_length_le p (drop i l)) as H'. rewrite length_drop in H'. lia. Qed.

(** ** Disjoint spans and their order *)

Definition apart (a b : PathIdentity) : Prop :=
  (pi_End a <= pi_Start b)%nat \/ (pi_End b <= pi_Start a)%nat.
Definition inhabited_span (value : text) (i : PathIdentity) : Prop :=
  (pi_Start i < pi_End i <= length value)%nat.
Definition before (a b : PathIdentity) : Prop := (pi_End a <= pi_Start b)%nat.
(** What every list of identities of a text satisfies while it is built. *)
Definition spans_ok (value : text) (ids : list PathIdentity) : Prop :=
  Forall (inhabited_span value) ids /\ ForallOrdPairs apart ids.

Lemma spans_ok_snoc value ids x :
  spans_ok value ids -> inhabited_span value x -> Forall (fun i => apart i x) ids ->
  spans_ok value (ids ++ [x]).
Proof.
  intros [Hi Ha] Hx Hax. split; [by apply Forall_app; split; [|constructor]|].
  induction Ha as [|y ids Hy Ha IH]; simpl.
  - by repeat constructor.
  - apply Forall_cons in Hax as [? ?]. apply Forall_cons in Hi as [? ?].
    constructor; [|by apply IH]. apply Forall_app. by split; [|constructor].
Qed.

Lemma insert_back_perm x l : insert_back x l ≡ₚ x :: l.
Proof.
  induction l as [|y l IH]; simpl; [done|]. case_bool_decide; [|done].
  rewrite IH. constructor.
Qed.
Lemma insert_back_sorted value x l :
  inhabited_span value x -> Forall (inhabited_span value) l -> Forall (apart x) l ->
  StronglySorted (fun a b => before b a) l ->
  StronglySorted (fun a b => before b a) (insert_back x l).
Proof.
  intros Hx. induction l as [|y l IH]; simpl; intros Hi Ha Hs; [by repeat constructor|].
  apply Forall_cons in Hi as [Hy Hi]. apply Forall_cons in Ha as [Hxy Ha].
  inversion Hs as [|? ? Hs' Hyl]; subst. unfold inhabited_span, apart, before in *.
  case_bool_decide as Hlt.
  - constructor; [by apply IH|]. rewrite insert_back_perm. constructor; [lia|done].
  - assert (before y x) as Hb by (unfold before; lia). unfold before in Hb.
    constructor; [done|]. constructor; [lia|].
    rewrite Forall_forall in *. intros z Hz. specialize (Hyl z Hz). lia.
Qed.
Lemma sort_identities_spec value ids :
  spans_ok value ids ->
  sortPathIdentities ids ≡ₚ ids /\ StronglySorted before (sortPathIdentities ids).
Proof.
  intros [Hi Ha]. unfold sortPathIdentities.
  assert (forall acc, Forall (inhabited_span value) acc ->
    StronglySorted (fun a b => before b a) acc -> Forall (fun x => Forall (apart x) acc) ids ->
    foldl (fun sorted x => insert_back x sorted) acc ids ≡ₚ acc ++ ids /\
    StronglySorted (fun a b => before b a) (foldl (fun sorted x => insert_back x sorted) acc ids)) as Hg.
  { induction Ha as [|x ids Hx Ha IH]; intros acc Hacc Hs Hd; simpl.
    - rewrite app_nil_r. by split.
    - apply Forall_cons in Hi as [Hix Hi]. apply Forall_cons in Hd as [Hdx Hd].
      destruct (IH Hi (insert_back x acc)) as [Hp Hss].
      + rewrite insert_back_perm. by constructor.
      + by apply insert_back_sorted with value.
      + rewrite Forall_forall in *. intros y Hy. rewrite insert_back_perm.
        constructor; [|by apply Hd]. specialize (Hx y Hy). unfold apart in *. tauto.
      + split; [|done]. rewrite Hp, insert_back_perm. apply (Permutation_middle acc ids x). }
  destruct (Hg []) as [Hp Hs]; [done|constructor|by apply Forall_forall|]. simpl in Hp.
  split; [by rewrite reverse_Permutation|].
  revert Hs. generalize (foldl (fun sorted x => insert_back x sorted) [] ids). clear.
  intros l. induction l as [|x l IH]; intros Hs; [constructor|].
  inversion Hs as [|? ? Hs' Hx]; subst. rewrite reverse_cons.
  apply StronglySorted_app. split_and!; [|by apply IH|by repeat constructor].
  intros a b Ha Hb. apply list_elem_of_singleton in Hb as ->. rewrite elem_of_reverse in Ha.
  rewrite Forall_forall in Hx. by apply Hx.
Qed.

(** ** The mention scanner *)

Lemma overlap_false s e ids :
  (s < e)%nat -> pathIdentityOverlap s e ids = false ->
  Forall (fun i => apart i (mkIdentity s e [])) ids.
Proof.
  intros Hlt. unfold pathIdentityOverlap. induction ids as [|i ids IH]; simpl; [done|].
  intros [H1 H2]%orb_false_iff. constructor; [|by apply IH]. unfold apart; simpl.
  apply andb_false_iff in H1 as [H1|H1]; apply bool_decide_eq_false in H1; lia.
Qed.

(** An identity found by scanning for a mention. *)
Definition mentioned (value mention resolved : text) (i : PathIdentity) : Prop :=
  occurs mention value (pi_Start i) /\ pi_End i = (pi_Start i + length mention)%nat /\
  pi_Value i = resolved /\ artifactMentionBoundary value (pi_Start i) (pi_End i) = true.

Lemma scan_mention_spec fuel value mention resolved offset ids :
  mention <> [] -> spans_ok value ids ->
  exists new, scan_mention fuel value mention resolved offset ids = ids ++ new /\
    spans_ok value (ids ++ new) /\ Forall (mentioned value mention resolved) new.
Proof.
  intros Hne. revert offset ids. induction fuel as [|fuel IH]; intros offset ids Hok; simpl.
  { exists []. by rewrite app_nil_r. }
  case_bool_decide; [|exists []; by rewrite app_nil_r].
  destruct (index mention (drop offset value)) as [k|] eqn:Hk; [|exists []; by rewrite app_nil_r].
  apply index_some in Hk as [Ho%occurs_drop _].
  destruct (negb _ || _)%bool eqn:Hb; [by apply IH|].
  apply orb_false_iff in Hb as [Hb Hov]. apply negb_false_iff in Hb.
  pose proof (occurs_end _ _ _ Hne Ho) as Hend.
  assert (0 < length mention)%nat by (destruct mention; [done|simpl; lia]).
  destruct (IH (offset + k + length mention)%nat (ids ++ [mkIdentity (offset + k) (offset + k + length mention) resolved]))
    as (new & -> & Hnew & Hf).
  - apply spans_ok_snoc; [done|split; simpl; lia|].
    by apply overlap_false in Hov; [|lia].
  - rewrite <- app_assoc in Hnew |- *. eexists. split_and!; [done|done|].
    by constructor.
Qed.

(** Identities found by provenance alone. *)
Definition provenance_ok (provenance : ArtifactIdentityProvenance) : Prop :=
  forall m, m ∈ pr_orderedMentions provenance <-> is_Some (pr_mentions provenance !! m).
Definition proven (provenance : ArtifactIdentityProvenance) (value : text) (i : PathIdentity) : Prop :=
  exists m, pr_mentions provenance !! m = Some (pi_Value i) /\ mentioned value m (pi_Value i) i.

Lemma identities_spec provenance value :
  provenance_ok provenance -> pr_mentions provenance !! [] = None ->
  spans_ok value (identities provenance value) /\
  Forall (proven provenance value) (identities provenance value).
Proof.
  intros Hp Hnil. unfold identities.
  assert (Forall (fun m => is_Some (pr_mentions provenance !! m)) (pr_orderedMentions provenance)) as Hall
    by (apply Forall_forall; intros m Hm; by apply Hp).
  clear Hp. revert Hall. generalize (pr_orderedMentions provenance) as ms.
  assert (spans_ok value [] /\ Forall (proven provenance value) []) as H0 by (repeat constructor).
  revert H0. generalize (@nil PathIdentity) as ids. intros ids H0 ms. revert ids H0.
  induction ms as [|m ms IH]; intros ids [Hok Hf] Hall; cbn [foldl]; [done|].
  apply Forall_cons in Hall as [[v Hm] Hall]. rewrite Hm. change (default [] (Some v)) with v.
  destruct (scan_mention_spec (S (length value)) value m v 0 ids) as (new & E & Hok' & Hnew);
    [by intros ->; congruence|done|]. rewrite E.
  apply IH; [|done]. split; [done|]. apply Forall_app. split; [done|].
  eapply Forall_impl; [exact Hnew|]. intros i Hi. exists m. pose proof Hi as (_ & _ & -> & _). by split.
Qed.

(** ** The lexer *)

Lemma edge_bytes a :
  (pathTokenSeparator a || pathQuote a || opening a || closing a)%bool = true -> artifactTokenByte a = false.
Proof. destruct a as [[] [] [] [] [] [] [] []]; vm_compute; done. Qed.
Lemma edge_at l i a : l !! i = Some a ->
  (pathTokenSeparator a || pathQuote a || opening a || closing a)%bool = true ->
  at_ l i artifactTokenByte = false.
Proof. intros Ha He. unfold at_. rewrite Ha. by apply edge_bytes. Qed.

Definition left_edge (value : text) (s : nat) : Prop := s = 0%nat \/ at_ value (s - 1) artifactTokenByte = false.
Definition right_edge (value : text) (e : nat) : Prop := e = length value \/ at_ value e artifactTokenByte = false.
Lemma edges_boundary value s e :
  left_edge value s -> right_edge value e -> artifactTokenBoundary value s e = true.
Proof.
  unfold artifactTokenBoundary, left_edge, right_edge. intros Hs He. apply andb_true_iff. split; apply orb_true_iff.
  - destruct Hs as [?|Hs]; [left; by apply bool_decide_eq_true|right; by rewrite Hs].
  - destruct He as [?|He]; [left; by apply bool_decide_eq_true|right; by rewrite He].
Qed.

(** A raw token: where it ends and where lexing goes on. *)
Lemma lex_token_spec value offset :
  (offset < length value)%nat -> at_ value offset pathTokenSeparator = false -> left_edge value offset ->
  exists s e q n, lex_token value offset = (s, e, q, n) /\
    (offset <= s)%nat /\ (s <= e)%nat /\ (e <= n)%nat /\ (offset < n <= length value)%nat /\
    left_edge value s /\ right_edge value e /\
    ((e < n)%nat /\ left_edge value n \/ n = length value \/ at_ value n pathTokenSeparator = true).
Proof.
  intros Hlt Hsep Hl. unfold lex_token.
  destruct (lookup_lt_is_Some_2 value offset Hlt) as [a Ha]. rewrite Ha.
  destruct (pathQuote a) eqn:Hq.
  - set (e := advance (fun b => negb (is_byte a b)) value (S offset)).
    assert (S offset <= e <= length value)%nat as He by (split; [apply advance_le|apply advance_bound; lia]).
    assert (left_edge value (S offset)) as Hls.
    { right. replace (S offset - 1)%nat with offset by lia. eapply edge_at; [exact Ha|]. by rewrite Hq, orb_true_r. }
    case_bool_decide as Hend.
    + destruct (lookup_lt_is_Some_2 value e Hend) as [b Hb].
      assert (b = a) as ->.
      { pose proof (advance_stop _ _ _ _ Hb) as Hs. apply negb_false_iff in Hs. unfold is_byte in Hs.
        by apply bool_decide_eq_true in Hs. }
      assert (at_ value e artifactTokenByte = false) as Hr
        by (eapply edge_at; [exact Hb|by rewrite Hq, orb_true_r]).
      exists (S offset), e, true, (S e). split_and!; try (done || lia); [by right|].
      left. split; [lia|]. right. by replace (S e - 1)%nat with e by lia.
    + exists (S offset), e, true, e. split_and!; try (done || lia); left; lia.
  - set (e := advance (fun b => negb (pathTokenSeparator b)) value offset).
    assert (offset <= e <= length value)%nat as He by (split; [apply advance_le|apply advance_bound; lia]).
    assert (offset < e)%nat as Hoe.
    { destruct (decide (e = offset)) as [E|]; [|lia]. exfalso.
      assert (value !! e = Some a) as Hb by (by rewrite E).
      pose proof (advance_stop _ _ _ _ Hb) as Hs. apply negb_false_iff in Hs.
      unfold at_ in Hsep. rewrite Ha in Hsep. congruence. }
    assert (e = length value \/ at_ value e pathTokenSeparator = true) as Hr.
    { destruct (decide (e = length value)) as [|Hne]; [by left|right].
      destruct (lookup_lt_is_Some_2 value e) as [b Hb]; [lia|].
      pose proof (advance_stop _ _ _ _ Hb) as Hs. apply negb_false_iff in Hs.
      unfold at_. by rewrite Hb. }
    exists offset, e, false, e. split_and!; try (done || lia).
    + destruct Hr as [Hr|Hr]; [by left|right]. apply at_true in Hr as (b & Hb & Hs).
      eapply edge_at; [exact Hb|by rewrite Hs].
    + by right.
Qed.

(** Trimming keeps the edges. *)
Lemma trim_token_spec value s e s' e' :
  trimPathToken value s e = (s', e') -> (s <= e <= length value)%nat ->
  left_edge value s -> right_edge value e ->
  (s <= s')%nat /\ (e' <= e)%nat /\ left_edge value s' /\ ((s' < e')%nat -> right_edge value e').
Proof.
  intros Ht Hle Hl Hr. unfold trimPathToken in Ht. injection Ht as Hs He.
  pose proof (run_length_le opening (sub value s e)) as Hb1. rewrite sub_length in Hb1 by lia.
  rewrite Hs in He.
  pose proof (run_length_le closing (reverse (sub value s' e))) as Hb2.
  rewrite length_reverse, sub_length in Hb2 by lia.
  split_and!; [lia|lia| |].
  - destruct (decide (s' = s)) as [->|Hne]; [done|]. right.
    destruct (lookup_lt_is_Some_2 value (s' - 1)) as [a Ha]; [lia|].
    assert (opening a = true) as Ho.
    { apply (run_length_in opening (sub value s e) (s' - 1 - s)); [lia|].
      rewrite sub_lookup by lia. by replace (s + (s' - 1 - s))%nat with (s' - 1)%nat by lia. }
    eapply edge_at; [exact Ha|by rewrite Ho, orb_true_r].
  - intros Hlt. destruct (decide (e' = e)) as [->|Hne]; [done|]. right.
    destruct (lookup_lt_is_Some_2 value e') as [a Ha]; [lia|].
    assert (closing a = true) as Hc.
    { apply (run_length_in closing (reverse (sub value s' e)) (e - 1 - e')); [lia|].
      rewrite reverse_lookup by (rewrite sub_length by lia; lia).
      rewrite sub_length by lia. rewrite sub_lookup by lia.
      by replace (s' + (e - s' - S (e - 1 - e')))%nat with e' by lia. }
    eapply edge_at; [exact Ha|by rewrite Hc, orb_true_r].
Qed.

Definition span_ok (value : text) (sp : pathTokenSpan) : Prop :=
  (ps_start sp < ps_end sp <= length value)%nat /\
  left_edge value (ps_start sp) /\ right_edge value (ps_end sp).

Lemma skip_separators value offset :
  (offset <= length value)%nat ->
  left_edge value offset \/ offset = length value \/ at_ value offset pathTokenSeparator = true ->
  let o := advance pathTokenSeparator value offset in
  (o < length value)%nat -> left_edge value o /\ at_ value o pathTokenSeparator = false.
Proof.
  intros Hle Hoff o Ho. unfold o in *. split.
  - destruct (decide (advance pathTokenSeparator value offset = offset)) as [E|E].
    + rewrite E in *. destruct Hoff as [|[?|Hs]]; [done|lia|].
      apply at_true in Hs as (a & Ha & Hs). exfalso.
      assert (value !! advance pathTokenSeparator value offset = Some a) as Hb by (by rewrite E).
      apply advance_stop in Hb. congruence.
    + pose proof (advance_le pathTokenSeparator value offset) as Hge. right.
      destruct (lookup_lt_is_Some_2 value (advance pathTokenSeparator value offset - 1)) as [a Ha]; [lia|].
      eapply edge_at; [exact Ha|].
      by rewrite (advance_in pathTokenSeparator value offset (advance pathTokenSeparator value offset - 1) a) by (done || lia).
  - destruct (lookup_lt_is_Some_2 value _ Ho) as [a Ha].
    pose proof (advance_stop _ _ _ _ Ha) as Hs. unfold at_. by rewrite Ha.
Qed.

Lemma advance_sep_strict value offset :
  at_ value offset pathTokenSeparator = true -> (offset < advance pathTokenSeparator value offset)%nat.
Proof.
  intros (a & Ha & Hs)%at_true. unfold advance.
  destruct (drop offset value) as [|b l] eqn:E.
  - pose proof (lookup_drop value offset 0) as Hd. rewrite E in Hd. rewrite Nat.add_0_r in Hd. simpl in Hd. congruence.
  - pose proof (lookup_drop value offset 0) as Hd. rewrite E, Nat.add_0_r, Ha in Hd. injection Hd as ->.
    simpl. rewrite Hs. lia.
Qed.

Lemma lex_from_spec fuel value offset :
  (offset <= length value)%nat ->
  left_edge value offset \/ offset = length value \/ at_ value offset pathTokenSeparator = true ->
  let spans := lex_from fuel value offset in
  Forall (span_ok value) spans /\ StronglySorted (fun a b => ps_end a < ps_start b)%nat spans /\
  Forall (fun sp => advance pathTokenSeparator value offset <= ps_start sp)%nat spans.
Proof.
  revert offset. induction fuel as [|fuel IH]; intros offset Hle Hoff; [by repeat constructor|].
  cbn [lex_from]. set (o := advance pathTokenSeparator value offset).
  case_bool_decide as Hend; [by repeat constructor|].
  destruct (skip_separators value offset Hle Hoff) as [Hlo Hso]; [fold o; lia|]. fold o in Hlo, Hso.
  destruct (lex_token_spec value o) as (s & e & q & n & -> & Hos & Hse & Hen & Hn & Hls & Hre & Hnext); [lia|done|done|].
  destruct (trimPathToken value s e) as [s' e'] eqn:Ht.
  apply trim_token_spec in Ht as (Hs' & He' & Hls' & Hre'); [|lia|done|done].
  destruct (IH n) as (Hok & Hsort & Hstart); [lia|naive_solver|].
  assert (Forall (fun sp => e < ps_start sp)%nat (lex_from fuel value n)) as Hafter.
  { rewrite Forall_forall in *. intros sp Hsp. specialize (Hstart sp Hsp). specialize (Hok sp Hsp) as [? _].
    pose proof (advance_le pathTokenSeparator value n).
    destruct Hnext as [[? _]|[?|Hs]]; [lia|lia|]. apply advance_sep_strict in Hs. lia. }
  assert (Forall (fun sp => o <= ps_start sp)%nat (lex_from fuel value n)) as Ho
    by (eapply Forall_impl; [exact Hafter|]; simpl; intros; lia).
  case_bool_decide as Hlt; [|by split_and!]. simpl. split_and!.
  - constructor; [|done]. split; simpl; [lia|]. by split; [|apply Hre'].
  - constructor; [done|]. eapply Forall_impl; [exact Hafter|]. simpl. intros; lia.
  - constructor; [|done]. simpl. lia.
Qed.

Lemma lex_spans_ok value :
  Forall (span_ok value) (lexPathTokens value) /\
  StronglySorted (fun a b => ps_end a < ps_start b)%nat (lexPathTokens value).
Proof.
  destruct (lex_from_spec (S (length value)) value 0) as (? & ? & _); [lia|by left; left|]. done.
Qed.

(** ** Building a provenance *)

Lemma of_bytes_inj a b : of_bytes a = of_bytes b -> a = b.
Proof.
  intros H. rewrite <- (String.list_ascii_of_string_of_list_ascii a), <- (String.list_ascii_of_string_of_list_ascii b).
  unfold of_bytes in H. by rewrite H.
Qed.

Definition no_slash (l : text) : Prop := Forall (fun a => is_byte slash a = false) l.
Lemma Base_proper value :
  value <> [] -> starts_with [slash] value = false -> Base value <> [] /\ no_slash (Base value).
Proof.
  intros Hne Hs. unfold Base. rewrite bool_decide_false by done.
  set (r := run_length (is_byte slash) (reverse value)).
  assert (r < length value)%nat as Hr.
  { destruct value as [|a l]; [done|]. unfold r. pose proof (run_length_le (is_byte slash) (reverse (a :: l))) as Hle.
    rewrite length_reverse in Hle. destruct (decide (run_length (is_byte slash) (reverse (a :: l)) = length (a :: l))) as [E|]; [|lia].
    exfalso. assert (is_byte slash a = true) as Ha.
    { apply (run_length_in (is_byte slash) (reverse (a :: l)) (length l)); [rewrite E; simpl; lia|].
      rewrite reverse_lookup by (simpl; lia). replace (length (a :: l) - S (length l))%nat with 0%nat by (simpl; lia). done. }
    unfold is_byte in Ha. apply bool_decide_eq_true in Ha. subst a.
    assert (starts_with [slash] (slash :: l) = true) as Hc by (apply starts_with_spec; by exists l). congruence. }
  assert (reverse (take (length value - r) value) = drop r (reverse value)) as Hrev.
  { rewrite <- (reverse_involutive value) at 2. rewrite take_reverse, length_reverse, reverse_involutive.
    f_equal. lia. }
  rewrite bool_decide_false.
  2:{ intros E%(f_equal length). rewrite length_take in E. simpl in E. lia. }
  rewrite Hrev. set (l := drop r (reverse value)).
  destruct (lookup_lt_is_Some_2 (reverse value) r) as [a Ha]; [rewrite length_reverse; lia|].
  pose proof (run_length_stop _ _ _ Ha) as Hstop.
  assert (l = a :: drop (S r) (reverse value)) as ->.
  { unfold l. by apply drop_S. }
  split.
  - intros E%(f_equal length). rewrite length_reverse in E. simpl in E. rewrite Hstop in E. done.
  - unfold no_slash. apply Forall_reverse. apply Forall_forall. intros b Hb.
    apply list_elem_of_lookup in Hb as [i Hi]. apply lookup_take_Some in Hi as [Hi Hlt].
    apply (run_length_in _ _ _ _ Hlt) in Hi. by apply negb_true_iff in Hi.
Qed.

Lemma run_length_all p l : Forall (fun a => p a = true) l -> run_length p l = length l.
Proof. induction 1 as [|a l Ha _ IH]; simpl; [done|]. by rewrite Ha, IH. Qed.
Lemma Base_self value : value <> [] -> no_slash value -> Base value = value.
Proof.
  intros Hne Hn. unfold Base. rewrite bool_decide_false by done.
  assert (run_length (is_byte slash) (reverse value) = 0%nat) as ->.
  { destruct (reverse value) as [|a l] eqn:E; [done|]. simpl.
    assert (a ∈ value) as Ha by (rewrite <- elem_of_reverse, E; left).
    unfold no_slash in Hn. rewrite Forall_forall in Hn. by rewrite (Hn a Ha). }
  rewrite Nat.sub_0_r, (take_ge value (length value)) by lia. rewrite bool_decide_false by done.
  rewrite run_length_all, take_ge, reverse_involutive; [done|lia|].
  apply Forall_reverse. eapply Forall_impl; [exact Hn|]. intros a Ha. simpl. by rewrite Ha.
Qed.

Lemma valid_path value :
  validateProvenancePath value = Ok tt ->
  value <> [] /\ starts_with [slash] value = false /\ blank (of_bytes value) = false.
Proof.
  unfold validateProvenancePath. intros H. split_ok H. reflect.
  split_and!; try done. unfold blank. apply bool_decide_eq_false. intros E.
  rewrite E in *. done.
Qed.

(** What the loop over the sorted paths has gathered. *)
Definition gathered (known : list text) (mentions : gmap text text) (owners : gmap text (list text)) : Prop :=
  (forall m, mentions !! m = if decide (m ∈ known) then Some m else None) /\
  (forall b, default [] (owners !! b) = filter (fun v => Base v = b) known).

Lemma provenance_loop known done_ prev mentions owners st :
  gathered done_ mentions owners ->
  loop provenance_path (prev, mentions, owners) known = Ok st ->
  gathered (done_ ++ known) st.1.2 st.2 /\ Forall (fun v => validateProvenancePath v = Ok tt) known.
Proof.
  revert done_ prev mentions owners. induction known as [|v known IH]; intros done_ prev mentions owners Hg Hl.
  - cbn [loop] in Hl. injection Hl as <-. rewrite app_nil_r. by split.
  - cbn [loop] in Hl. destruct (provenance_path _ v) as [st'|] eqn:E; [|done].
    unfold provenance_path in E. destruct (validateProvenancePath v) as [[]|] eqn:Ev; [|done].
    case_bool_decide; [done|]. injection E as <-.
    apply IH with (done_ := done_ ++ [v]) in Hl as [Hg' Hf].
    + rewrite <- app_assoc in Hg'. split; [done|by constructor].
    + destruct Hg as [Hm Ho]. split.
      * intros m. destruct (decide (m = v)) as [->|Hne].
        -- rewrite lookup_insert_eq, decide_True; [done|]. set_solver.
        -- rewrite lookup_insert_ne, Hm by done. apply decide_ext. set_solver.
      * intros b. rewrite filter_app, filter_cons, filter_nil. destruct (decide (b = Base v)) as [->|Hne].
        -- rewrite lookup_insert_eq, decide_True by done. simpl. by rewrite Ho.
        -- rewrite lookup_insert_ne, decide_False by done. by rewrite app_nil_r, Ho.
Qed.

Lemma own_basenames l mentions m :
  NoDup l.*1 ->
  foldl own_basename mentions l !! m =
    match (list_to_map l : gmap text (list text)) !! m with Some [o] => Some o | _ => (mentions : gmap text text) !! m end.
Proof.
  revert mentions. induction l as [|[b os] l IH]; intros mentions Hnd; [done|].
  apply NoDup_cons in Hnd as [Hb Hnd]. cbn [foldl]. rewrite IH by done. cbn [list_to_map foldr].
  simpl list_to_map. destruct (decide (m = b)) as [->|Hne].
  - rewrite lookup_insert_eq, not_elem_of_list_to_map_1 by done.
    unfold own_basename; simpl. destruct os as [|o [|]]; [done|by rewrite lookup_insert_eq|done].
  - rewrite lookup_insert_ne by done.
    assert (own_basename mentions (b, os) !! m = mentions !! m) as ->; [|done].
    unfold own_basename; simpl. destruct os as [|o [|]]; [done|by rewrite lookup_insert_ne|done].
Qed.

Lemma sorted_distinct known prev mentions owners st :
  StronglySorted (key_le of_bytes) known ->
  loop provenance_path (prev, mentions, owners) known = Ok st -> NoDup known.
Proof.
  intros Hs. revert prev mentions owners.
  induction Hs as [|v known Hs IH Hv]; intros prev mentions owners Hl; [constructor|].
  cbn [loop] in Hl. destruct (provenance_path _ v) as [st'|] eqn:E; [|done].
  unfold provenance_path in E. destruct (validateProvenancePath v) as [[]|]; [|done].
  case_bool_decide; [done|]. injection E as <-. constructor; [|by eapply IH].
  intros Hin. destruct known as [|w known]; [by apply not_elem_of_nil in Hin|].
  assert (w = v) as ->.
  { apply Forall_cons in Hv as [Hvw _]. inversion Hs as [|? ? _ Hw]; subst.
    apply list_elem_of_In in Hin as [->|Hin]; [done|]. apply list_elem_of_In in Hin.
    rewrite Forall_forall in Hw. specialize (Hw v Hin). unfold key_le in *.
    destruct (decide (of_bytes v = of_bytes w)) as [Heq|Hne]; [by apply of_bytes_inj|].
    destruct (str_lt_total _ _ Hne); congruence. }
  cbn [loop] in Hl. unfold provenance_path in Hl.
  destruct (validateProvenancePath v) as [[]|]; [|done]. by rewrite bool_decide_true in Hl.
Qed.

(** The mentions of a provenance: its paths, and the basenames only one of them
    has. *)
Definition basename_of (paths : list text) (m p : text) : Prop :=
  p ∈ paths /\ Base p = m /\ forall q, q ∈ paths -> Base q = m -> q = p.

Lemma unique_filter (known : list text) (b p : text) :
  NoDup known -> basename_of known b p <-> filter (fun v => Base v = b) known = [p].
Proof.
  intros Hnd. split.
  - intros (Hin & Hb & Hu).
    assert (NoDup (filter (fun v => Base v = b) known)) as Hnf by (by apply NoDup_filter).
    assert (p ∈ filter (fun v => Base v = b) known) as Hp by (by apply list_elem_of_filter).
    assert (forall q, q ∈ filter (fun v => Base v = b) known -> q = p) as Hq
      by (intros q [? ?]%list_elem_of_filter; by apply Hu).
    revert Hnf Hp Hq. generalize (filter (fun v => Base v = b) known). intros l Hnf Hp Hq.
    destruct l as [|x [|y l]]; [by apply not_elem_of_nil in Hp|by rewrite (Hq x) by left|].
    exfalso. rewrite (Hq x) in Hnf by left. rewrite (Hq y) in Hnf by (right; left).
    apply NoDup_cons in Hnf as [Hnf _]. apply Hnf. left.
  - intros E. assert (forall q, q ∈ filter (fun v => Base v = b) known <-> q = p) as Hq
      by (intros q; rewrite E; apply list_elem_of_singleton).
    assert (p ∈ filter (fun v => Base v = b) known) as [? ?]%list_elem_of_filter by (by apply Hq).
    split_and!; [done|done|]. intros q ? ?. apply Hq. by apply list_elem_of_filter.
Qed.

Lemma new_provenance paths provenance :
  NewArtifactIdentityProvenance paths = Ok provenance ->
  provenance_ok provenance /\
  Forall (fun v => validateProvenancePath v = Ok tt) paths /\
  forall m v, pr_mentions provenance !! m = Some v <-> (m = v /\ v ∈ paths) \/ basename_of paths m v.
Proof.
  unfold NewArtifactIdentityProvenance. intros H.
  destruct (loop _ _ _) as [[[prev mentions] owners]|] eqn:Hl; [|done]. injection H as <-.
  pose proof (sort_by_Permutation of_bytes paths) as Hperm.
  pose proof (sorted_distinct _ _ _ _ _ (sort_by_sorted of_bytes paths) Hl) as Hnd.
  apply provenance_loop with (done_ := []) in Hl as [[Hm Ho] Hf].
  2:{ split; intros; [by rewrite lookup_empty|by rewrite lookup_empty]. }
  simpl in Hm, Ho. split_and!.
  - intros m. cbn [pr_orderedMentions pr_mentions]. rewrite merge_sort_Permutation, list_elem_of_fmap. split.
    + intros ([k v] & -> & Hin). apply elem_of_map_to_list in Hin. by exists v.
    + intros [v Hv]. exists (m, v). split; [done|]. by apply elem_of_map_to_list.
  - by rewrite <- Hperm.
  - intros m v. cbn [pr_mentions].
    rewrite own_basenames by apply NoDup_fst_map_to_list. rewrite list_to_map_to_list.
    specialize (Ho m). assert (basename_of paths m v <-> default [] (owners !! m) = [v]) as ->.
    { rewrite Ho, <- unique_filter by done. unfold basename_of. by setoid_rewrite Hperm. }
    assert (mentions !! m = Some v <-> m = v /\ v ∈ paths) as Hmm.
    { rewrite Hm. case_decide as Hin; rewrite Hperm in Hin; naive_solver. }
    destruct (owners !! m) as [[|o [|o2 os]]|] eqn:Hom; simpl; [naive_solver| |naive_solver|naive_solver].
    simpl in Ho. split; [naive_solver|]. intros [[-> Hv]|E]; [|naive_solver].
    assert (basename_of (sort_by of_bytes paths) v o) as (Hoin & Hob & Hu) by (by apply unique_filter).
    rewrite Forall_forall in Hf.
    destruct (valid_path o) as (Hne & Hsl & _); [by apply Hf|].
    destruct (Base_proper o Hne Hsl) as [Hbne Hbs]. rewrite Hob in Hbne, Hbs.
    f_equal. symmetry. apply Hu; [by rewrite Hperm|]. by apply Base_self.
Qed.

(** The mentions are not empty and resolve to non-blank paths. *)
Lemma new_provenance_values paths provenance m v :
  NewArtifactIdentityProvenance paths = Ok provenance ->
  pr_mentions provenance !! m = Some v -> m <> [] /\ v ∈ paths /\ blank (of_bytes v) = false.
Proof.
  intros (_ & Hf & Hm)%new_provenance Hv. rewrite Forall_forall in Hf.
  apply Hm in Hv as [[-> Hin]|(Hin & <- & _)]; destruct (valid_path v (Hf v Hin)) as (Hne & Hs & Hb).
  - done.
  - by destruct (Base_proper v Hne Hs).
Qed.

(** ** All identities of a text *)

Definition token_of (value : text) (i : PathIdentity) : text := sub value (pi_Start i) (pi_End i).
Definition qualified (provenance : ArtifactIdentityProvenance) (value : text) (i : PathIdentity) : Prop :=
  resolve provenance (token_of value i) = None /\ pi_Value i = token_of value i /\
  isQualifiedPath (token_of value i) = true.
Definition located (provenance : ArtifactIdentityProvenance) (value : text) (i : PathIdentity) : Prop :=
  artifactTokenBoundary value (pi_Start i) (pi_End i) = true /\
  (resolve provenance (token_of value i) = Some (pi_Value i) \/ qualified provenance value i).

Lemma token_byte_mention a : artifactTokenByte a = true -> artifactMentionByte a = true.
Proof. destruct a as [[] [] [] [] [] [] [] []]; vm_compute; done. Qed.
Lemma mention_boundary_token value s e :
  artifactMentionBoundary value s e = true -> artifactTokenBoundary value s e = true.
Proof.
  intros H. unfold artifactMentionBoundary in H. apply negb_true_iff, orb_false_iff in H as [H1 H2].
  apply edges_boundary.
  - unfold left_edge. destruct (decide (s = 0%nat)) as [|Hs]; [by left|right].
    rewrite bool_decide_true in H1 by lia. apply orb_false_iff in H1 as [H1 _].
    destruct (at_ value (s - 1) artifactTokenByte) eqn:E; [|done].
    apply at_true in E as (a & Ha & Hb). apply token_byte_mention in Hb.
    apply (at_false _ _ _ _ H1) in Ha. congruence.
  - unfold right_edge. destruct (at_ value e artifactTokenByte) eqn:E; [|by right].
    apply at_true in E as (a & Ha & Hb). apply token_byte_mention in Hb.
    rewrite bool_decide_true in H2 by (by eapply lookup_lt_Some). apply orb_false_iff in H2 as [H2 _].
    apply (at_false _ _ _ _ H2) in Ha. congruence.
Qed.
Lemma resolve_mention provenance m v :
  pr_mentions provenance !! m = Some v -> resolve provenance m = Some v.
Proof.
  intros Hm. unfold resolve. rewrite bool_decide_false, Hm; [done|].
  intros E%map_size_empty_iff. rewrite E in Hm. done.
Qed.
Lemma proven_located provenance value i : proven provenance value i -> located provenance value i.
Proof.
  intros (m & Hm & Ho & He & _ & Hb). split; [by apply mention_boundary_token|]. left.
  unfold token_of. rewrite He. rewrite Ho. by apply resolve_mention.
Qed.

Lemma span_overlap_false span ids :
  (ps_start span < ps_end span)%nat -> pathSpanOverlapsIdentity span ids = false ->
  Forall (fun i => apart i (mkIdentity (ps_start span) (ps_end span) [])) ids.
Proof.
  intros Hlt H. apply overlap_false; [done|]. exact H.
Qed.

Lemma add_spans provenance value spans ids :
  Forall (span_ok value) spans -> spans_ok value ids -> Forall (located provenance value) ids ->
  let out := foldl (add_span provenance value) ids spans in
  spans_ok value out /\ Forall (located provenance value) out.
Proof.
  intros Hsp. revert ids. induction Hsp as [|span spans Hs Hsp IH]; intros ids Hok Hl; [done|].
  cbn [foldl]. destruct Hs as (Hr & Hle & Hre).
  assert (forall v, pathSpanOverlapsIdentity span ids = false ->
    (resolve provenance (sub value (ps_start span) (ps_end span)) = Some v \/
     qualified provenance value (mkIdentity (ps_start span) (ps_end span) v)) ->
    spans_ok value (ids ++ [mkIdentity (ps_start span) (ps_end span) v]) /\
    Forall (located provenance value) (ids ++ [mkIdentity (ps_start span) (ps_end span) v])) as Hadd.
  { intros v Hov Hv. split.
    - apply spans_ok_snoc; [done|split; simpl; lia|]. by apply span_overlap_false in Hov; [|lia].
    - apply Forall_app. split; [done|]. constructor; [|done]. split; [|done]. by apply edges_boundary. }
  unfold add_span. destruct (pathSpanOverlapsIdentity span ids) eqn:Hov; [by apply IH|].
  destruct (resolve provenance _) as [v|] eqn:Hv.
  - destruct (Hadd v) as [? ?]; [done|by left|]. by apply IH.
  - destruct (quotedTrailingEscapeLiteral _ _); [by apply IH|].
    destruct (isQualifiedPath _) eqn:Hq; [|by apply IH].
    destruct (Hadd (sub value (ps_start span) (ps_end span))) as [? ?]; [done|by right|]. by apply IH.
Qed.

Lemma path_identities_spec paths provenance value :
  NewArtifactIdentityProvenance paths = Ok provenance ->
  StronglySorted before (PathIdentities value provenance) /\
  Forall (inhabited_span value) (PathIdentities value provenance) /\
  Forall (located provenance value) (PathIdentities value provenance).
Proof.
  intros Hp. pose proof (new_provenance _ _ Hp) as (Hok & _ & Hm).
  destruct (identities_spec provenance value Hok) as [Hids Hprov].
  { destruct (pr_mentions provenance !! []) as [v|] eqn:E; [|done].
    by apply (new_provenance_values _ _ _ _ Hp) in E as [? _]. }
  destruct (add_spans provenance value (lexPathTokens value) (identities provenance value)) as [Ha Hl];
    [apply lex_spans_ok|done|eapply Forall_impl; [exact Hprov|apply proven_located]|].
  unfold PathIdentities. destruct (sort_identities_spec value _ Ha) as [Hperm Hs].
  split_and!; [done| |]; rewrite Hperm; [apply Ha|done].
Qed.

(** A text resolves to a path it spells, possibly by a basename or after [./]. *)
Definition spells (paths : list text) (m v : text) : Prop :=
  v ∈ paths /\ (m = v \/ m = Base v).
Lemma resolve_spells paths provenance m v :
  NewArtifactIdentityProvenance paths = Ok provenance -> resolve provenance m = Some v ->
  spells paths m v \/ exists m', m = bytes "./" ++ m' /\ spells paths m' v.
Proof.
  intros (_ & _ & Hm)%new_provenance. unfold resolve. case_bool_decide; [done|].
  assert (forall m, pr_mentions provenance !! m = Some v -> spells paths m v) as Hsp.
  { intros k [[-> ?]|(? & <- & _)]%Hm; split; auto. }
  destruct (pr_mentions provenance !! m) as [w|] eqn:E; [intros [= ->]; left; by apply Hsp|].
  destruct (starts_with (bytes "./") m) eqn:Es; [|done]. intros Hd. right.
  apply starts_with_spec in Es as [m' ->]. exists m'. split; [done|]. by apply Hsp.
Qed.
