(* ===== verification/PathSpec.v ===== *)
(** * Redaction and restoration: the theorems

    Restoration rewrites exactly the stand-alone words of the form [ARTIFACT_n];
    it undoes redaction; a text that passes the path-free boundary names no known
    path. *)
From Stdlib Require Import Ascii.
From S2P Require Import Prelude Schema SchemaFacts PathIdentity PathFacts.
From stdpp Require Import sorting base tactics strings list gmap numbers pretty.
From stdpp Require Import list options.

(** ** Words of a text

    A word is a maximal run of token bytes; every other byte stands alone. *)
Fixpoint segments (l : text) : list text :=
  match l with
  | [] => []
  | a :: l =>
      match segments l with
      | (b :: w) :: rest =>
          if (artifactTokenByte a && artifactTokenByte b)%bool
          then (a :: b :: w) :: rest else [a] :: (b :: w) :: rest
      | _ => [[a]]
      end
  end.

(** [ARTIFACT_n] words replaced through [resolved]. *)
Definition restore_word (resolved : gmap text text) (w : text) : option text :=
  if opaque_token w then resolved !! w else Some w.
Definition restore_words (resolved : gmap text text) (l : text) : option text :=
  concat (A:=ascii) <$> mapM (restore_word resolved) (segments l).

Definition token_run (w : text) : Prop := w <> [] /\ Forall (fun a => artifactTokenByte a = true) w.
(** [l] does not continue a word. *)
Definition fresh (l : text) : Prop := match l with a :: _ => artifactTokenByte a = false | [] => True end.

Lemma segments_cons a l :
  segments (a :: l) =
    match segments l with
    | (b :: w) :: rest =>
        if (artifactTokenByte a && artifactTokenByte b)%bool
        then (a :: b :: w) :: rest else [a] :: (b :: w) :: rest
    | _ => [[a]]
    end.
Proof. reflexivity. Qed.
Lemma segments_shape l :
  concat (segments l) = l /\ Forall (fun w => w <> []) (segments l).
Proof.
  induction l as [|a l [IHc IHn]]; [done|]. simpl.
  destruct (segments l) as [|[|b w] rest].
  - simpl in IHc. subst. by repeat constructor.
  - apply Forall_cons in IHn as [? _]. done.
  - destruct (_ && _)%bool; simpl in *; rewrite IHc; split; try done.
    + constructor; [done|]. by apply Forall_cons in IHn as [_ ?].
    + by constructor.
Qed.
Lemma segments_head a l : exists w rest, segments (a :: l) = (a :: w) :: rest.
Proof. simpl. destruct (segments l) as [|[|b w] rest]; eauto. destruct (_ && _)%bool; eauto. Qed.

Lemma segments_other a l : artifactTokenByte a = false -> segments (a :: l) = [a] :: segments l.
Proof.
  intros Ha. simpl. destruct (segments_shape l) as [Hc Hn].
  destruct (segments l) as [|[|b w] rest]; [done| |by rewrite Ha].
  apply Forall_cons in Hn as [? _]. done.
Qed.
Lemma segments_run w l : token_run w -> fresh l -> segments (w ++ l) = w :: segments l.
Proof.
  intros [Hne Hw] Hl. induction Hw as [|a w Ha Hw IH]; [done|].
  destruct w as [|b w].
  - simpl. destruct l as [|c l]; [done|]. destruct (segments_head c l) as (w & rest & E). rewrite E.
    simpl in Hl. by rewrite Hl, andb_false_r.
  - change ((a :: b :: w) ++ l) with (a :: ((b :: w) ++ l)). rewrite segments_cons, IH by done. apply Forall_cons in Hw as [Hb _]. by rewrite Ha, Hb.
Qed.
(** Every text that starts with a token byte starts with a maximal run. *)
Lemma first_run a l :
  artifactTokenByte a = true -> exists w l', a :: l = w ++ l' /\ token_run w /\ fresh l'.
Proof.
  intros Ha. revert a Ha. induction l as [|b l IH]; intros a Ha.
  - exists [a], []. repeat split; try done. by repeat constructor.
  - destruct (artifactTokenByte b) eqn:Hb.
    + destruct (IH b Hb) as (w & l' & E & [_ Hw] & Hl). exists (a :: w), l'. rewrite E. repeat split; try done. by constructor.
    + exists [a], (b :: l). repeat split; try done. by repeat constructor.
Qed.
(** Induction over the words of a text. *)
Lemma words_ind (P : text -> Prop) :
  P [] -> (forall a l, artifactTokenByte a = false -> P l -> P (a :: l)) ->
  (forall w l, token_run w -> fresh l -> P l -> P (w ++ l)) -> forall l, P l.
Proof.
  intros H0 H1 H2 l. remember (length l) as n eqn:Hn. revert l Hn.
  induction n as [n IH] using lt_wf_ind. intros l ->.
  destruct l as [|a l]; [done|]. destruct (artifactTokenByte a) eqn:Ha.
  - destruct (first_run a l Ha) as (w & l' & E & Hw & Hl). rewrite E. apply H2; [done|done|].
    apply (IH (length l')); [|done]. rewrite E, length_app. destruct Hw as [? _]. destruct w; [done|simpl; lia].
  - apply H1; [done|]. apply (IH (length l)); [simpl; lia|done].
Qed.
Lemma segments_app l1 l2 :
  (forall a, last l1 = Some a -> artifactTokenByte a = false) \/ fresh l2 ->
  segments (l1 ++ l2) = segments l1 ++ segments l2.
Proof.
  induction l1 as [|a l Ha IH|w l Hw Hl IH] using words_ind; intros Hcut; [done| |].
  - change ((a :: l) ++ l2) with (a :: (l ++ l2)). rewrite !segments_other by done. rewrite IH; [done|].
    destruct Hcut as [Hcut|]; [left|by right]. intros b Hb. apply Hcut. by rewrite last_cons, Hb.
  - rewrite <- app_assoc. destruct l as [|b l].
    + rewrite app_nil_r. destruct Hcut as [Hcut|Hcut].
      * exfalso. destruct Hw as [Hne Hw]. rewrite app_nil_r in Hcut.
        destruct (last w) as [c|] eqn:Hc; [|by apply last_None in Hc].
        apply last_Some_elem_of in Hc as Hin. rewrite Forall_forall in Hw.
        specialize (Hw c Hin). rewrite (Hcut c) in Hw; done.
      * simpl. rewrite segments_run by done. rewrite <- (app_nil_r w) at 2. by rewrite segments_run.
    + rewrite (segments_run w ((b :: l) ++ l2)), (segments_run w (b :: l)) by done. rewrite IH; [done|].
      destruct Hcut as [Hcut|]; [left|by right]. intros c Hc. apply Hcut.
      by rewrite last_app, Hc.
Qed.

(** ** Matches of the token pattern *)

Lemma run_length_fresh w l : fresh l -> run_length is_digit (w ++ l) = run_length is_digit w.
Proof.
  intros Hl. induction w as [|a w IH]; simpl; [|by rewrite IH].
  destruct l as [|b l]; [done|]. simpl in *. unfold artifactTokenByte in Hl.
  apply orb_false_iff in Hl as [[_ Hd]%orb_false_iff _]. by rewrite Hd.
Qed.
Lemma prefix_bytes_tokens : Forall (fun a => artifactTokenByte a = true) (bytes "ARTIFACT_").
Proof. by repeat constructor. Qed.
Lemma token_length_short w : (length w <= 9)%nat -> token_length w = None.
Proof.
  intros. unfold token_length. assert (at_ w 9 (byte_in 49 57) = false) as ->; [|by rewrite andb_false_r].
  unfold at_. by rewrite lookup_ge_None_2.
Qed.
Lemma digit_token_byte a : byte_in 49 57 a = true -> artifactTokenByte a = true.
Proof. destruct a as [[] [] [] [] [] [] [] []]; vm_compute; done. Qed.
Lemma token_length_fresh w l :
  Forall (fun a => artifactTokenByte a = true) w -> fresh l -> token_length (w ++ l) = token_length w.
Proof.
  intros Hw Hl. destruct (decide (length w <= 9)%nat) as [Hs|Hs].
  - rewrite (token_length_short w) by done. unfold token_length.
    destruct (starts_with _ _ && _)%bool eqn:E; [|done]. exfalso.
    apply andb_true_iff in E as [E1 E2]. apply at_true in E2 as (c & Hc & Hd%digit_token_byte).
    destruct l as [|b l].
    { rewrite app_nil_r in Hc. apply lookup_lt_Some in Hc. lia. }
    simpl in Hl. assert ((w ++ b :: l) !! length w = Some b) as Hb by (by rewrite list_lookup_middle).
    destruct (decide (length w = 9%nat)) as [E9|Hne]; [rewrite E9 in Hb; congruence|].
    apply starts_with_spec in E1 as [k Hk]. rewrite Hk in Hb.
    rewrite lookup_app_l in Hb by (simpl; lia).
    pose proof prefix_bytes_tokens as Hp. rewrite Forall_lookup in Hp. specialize (Hp _ _ Hb).
    simpl in Hp. congruence.
  - unfold token_length. assert (starts_with (bytes "ARTIFACT_") (w ++ l) = starts_with (bytes "ARTIFACT_") w) as ->.
    { unfold starts_with. by rewrite take_app_le by (simpl; lia). }
    assert (at_ (w ++ l) 9 (byte_in 49 57) = at_ w 9 (byte_in 49 57)) as ->.
    { unfold at_. by rewrite lookup_app_l by lia. }
    rewrite drop_app_le by lia. by rewrite run_length_fresh.
Qed.
Lemma token_length_bound w n : token_length w = Some n -> (10 <= n <= length w)%nat.
Proof.
  unfold token_length. destruct (_ && _)%bool eqn:E; [|done]. intros [= <-].
  apply andb_true_iff in E as [_ E]. apply at_true in E as (a & Ha & Hd).
  pose proof (run_length_le is_digit (drop 9 w)) as Hle. rewrite length_drop in Hle.
  apply lookup_lt_Some in Ha as Hlt.
  rewrite (drop_S _ _ _ Ha). simpl. rewrite (drop_S _ _ _ Ha) in Hle. simpl in Hle.
  assert (is_digit a = true) as Hda by (clear -Hd; revert Hd; destruct a as [[] [] [] [] [] [] [] []]; vm_compute; done).
  rewrite Hda in *. lia.
Qed.
Lemma token_length_other a l : artifactTokenByte a = false -> token_length (a :: l) = None.
Proof.
  intros Ha. change (a :: l) with ([] ++ a :: l). by rewrite token_length_fresh.
Qed.

Lemma find_tokens_run w l i skip :
  Forall (fun a => artifactTokenByte a = true) w -> fresh l -> (skip <= length w)%nat ->
  find_tokens (w ++ l) i skip = find_tokens w i skip ++ find_tokens l (i + length w) 0.
Proof.
  intros Hw Hl. revert i skip. induction Hw as [|a w Ha Hw IH]; intros i skip Hs; simpl in Hs.
  - replace skip with 0%nat by lia. by rewrite Nat.add_0_r.
  - change ((a :: w) ++ l) with (a :: (w ++ l)). cbn [find_tokens length].
    replace (i + S (length w))%nat with (S i + length w)%nat by lia.
    destruct skip as [|skip]; [|apply IH; lia].
    change (a :: (w ++ l)) with ((a :: w) ++ l). rewrite token_length_fresh by (done || by constructor).
    destruct (token_length (a :: w)) as [n|] eqn:E; [|apply IH; lia].
    apply token_length_bound in E. simpl in E. simpl. f_equal. apply IH. lia.
Qed.
Lemma find_tokens_in w i skip s e :
  (s, e) ∈ find_tokens w i skip ->
  (i <= s)%nat /\ exists n, token_length (drop (s - i) w) = Some n /\ e = (s + n)%nat.
Proof.
  revert i skip. induction w as [|a w IH]; intros i skip H; [by apply not_elem_of_nil in H|].
  assert (forall k, (s, e) ∈ find_tokens w (S i) k ->
    (i <= s)%nat /\ exists n, token_length (drop (s - i) (a :: w)) = Some n /\ e = (s + n)%nat) as Hrec.
  { intros k [Hle (n & Hn & He)]%IH. split; [lia|]. exists n. split; [|done].
    replace (s - i)%nat with (S (s - S i)) by lia. done. }
  cbn [find_tokens] in H. destruct skip as [|skip]; [|by eapply Hrec].
  destruct (token_length (a :: w)) as [n|] eqn:E; [|by eapply Hrec].
  apply list_elem_of_In in H as [[= <- <-]|H]; [|apply list_elem_of_In in H; by eapply Hrec].
  split; [lia|]. exists n. by rewrite Nat.sub_diag.
Qed.
Lemma find_tokens_skip w i skip : (length w <= skip)%nat -> find_tokens w i skip = [].
Proof. revert i skip. induction w as [|a w IH]; intros i [|skip]; simpl; intros; try done; [lia|]. apply IH. lia. Qed.
Lemma find_tokens_opaque w i :
  opaque_token w = true -> find_tokens w i 0 = [(i, i + length w)%nat].
Proof.
  unfold opaque_token. intros E%bool_decide_eq_true.
  destruct w as [|a w]; [by rewrite token_length_short in E by (simpl; lia)|].
  cbn [find_tokens]. rewrite E. by rewrite find_tokens_skip by (simpl; lia).
Qed.

(** Only a whole word stands alone. *)
Lemma boundary_word p w l s e :
  token_run w -> (s, e) ∈ find_tokens w (length p) 0 ->
  artifactTokenBoundary (p ++ w ++ l) s e = true -> opaque_token w = true.
Proof.
  intros [_ Hw] Hin Hb. apply find_tokens_in in Hin as (Hle & n & Hn & ->).
  pose proof (token_length_bound _ _ Hn) as Hbd. rewrite length_drop in Hbd.
  assert (forall j, (length p <= j < length p + length w)%nat -> at_ (p ++ w ++ l) j artifactTokenByte = true) as Hat.
  { intros j Hj. destruct (lookup_lt_is_Some_2 w (j - length p)) as [a Ha]; [lia|].
    unfold at_. rewrite lookup_app_r, lookup_app_l, Ha by lia. rewrite Forall_lookup in Hw. by eapply Hw. }
  unfold artifactTokenBoundary in Hb. apply andb_true_iff in Hb as [H1 H2].
  destruct (decide (s = length p)) as [->|Hne].
  - destruct (decide (n = length w)) as [->|Hne2].
    + rewrite Nat.sub_diag, drop_0 in Hn. unfold opaque_token. rewrite Hn. by apply bool_decide_eq_true.
    + exfalso. rewrite Hat in H2 by lia. rewrite bool_decide_false in H2; [done|]. rewrite !length_app. lia.
  - exfalso. rewrite Hat in H1 by lia. rewrite bool_decide_false in H1; [done|lia].
Qed.

(** ** Restoration, word by word *)

Definition unknown_token : string := "semantic result contains unknown artifact token %s".
Definition restored_text (resolved : gmap text text) (out : text) (l : text) : result text :=
  match restore_words resolved l with Some t => Ok (out ++ t) | None => Err unknown_token end.
Definition finish (input : text) (r : result (text * nat)) : result text :=
  let? st := r in Ok (st.1 ++ drop st.2 input).
(** [p] does not end inside a word. *)
Definition cut (p : text) : Prop := forall a, last p = Some a -> artifactTokenByte a = false.

Lemma sub_prefix p l s : (s <= length p)%nat -> sub (p ++ l) s (length p) = drop s p.
Proof.
  intros. unfold sub. rewrite drop_app_le by done. by rewrite <- length_drop, take_app_length.
Qed.
Lemma sub_middle p w l : sub (p ++ w ++ l) (length p) (length p + length w) = w.
Proof.
  unfold sub. rewrite drop_app_length. replace (length p + length w - length p)%nat with (length w) by lia.
  apply take_app_length.
Qed.
Lemma other_not_opaque a : opaque_token [a] = false.
Proof. unfold opaque_token. by rewrite token_length_short by (simpl; lia). Qed.

Lemma restore_word_other resolved a : restore_word resolved [a] = Some [a].
Proof. unfold restore_word. by rewrite other_not_opaque. Qed.

Lemma restore_loop resolved l p out prev :
  (prev <= length p)%nat -> cut p \/ fresh l ->
  finish (p ++ l) (loop (restore_step (p ++ l) resolved) (out, prev) (find_tokens l (length p) 0)) =
  restored_text resolved (out ++ drop prev p) l.
Proof.
  revert p out prev. induction l as [|a l Ha IH|w l Hw Hl IH] using words_ind; intros p out prev Hp Hcut.
  - simpl. unfold finish, restored_text. simpl. by rewrite !app_nil_r.
  - cbn [find_tokens]. rewrite token_length_other by done.
    replace (p ++ a :: l) with ((p ++ [a]) ++ l) by (by rewrite <- app_assoc).
    replace (S (length p)) with (length (p ++ [a])) by (rewrite length_app; simpl; lia).
    rewrite IH.
    + unfold restored_text, restore_words. rewrite segments_other by done. cbn [mapM].
      rewrite restore_word_other. simpl.
      destruct (mapM _ _); simpl; [|done]. rewrite drop_app_le by done. by rewrite <- !app_assoc.
    + rewrite length_app. simpl. lia.
    + left. intros b. rewrite last_snoc. by intros [= <-].
  - destruct Hcut as [Hcut|Hc].
    2:{ destruct Hw as [Hne Hw]. destruct w as [|b w]; [done|]. simpl in Hc.
        apply Forall_cons in Hw as [Hw _]. congruence. }
    pose proof (proj2 Hw) as Hws. rewrite find_tokens_run by (done || lia). rewrite loop_app.
    replace (length p + length w)%nat with (length (p ++ w)) by (by rewrite length_app).
    assert (restored_text resolved (out ++ drop prev p) (w ++ l) =
      match restore_word resolved w with
      | Some v => restored_text resolved ((out ++ drop prev p) ++ v) l
      | None => Err unknown_token
      end) as ->.
    { unfold restored_text, restore_words. rewrite segments_run by done. cbn [mapM].
      destruct (restore_word resolved w) as [v|]; simpl; [|done].
      destruct (mapM _ _); simpl; [|done]. by rewrite <- !app_assoc. }
    unfold restore_word. destruct (opaque_token w) eqn:Ho.
    + rewrite find_tokens_opaque by done. cbn [loop].
      assert (artifactTokenBoundary (p ++ w ++ l) (length p) (length p + length w) = true) as Hb; [apply edges_boundary|].
      3: unfold restore_step at 1; cbn [fst snd]; rewrite Hb; cbn [negb].
      3: {
        rewrite sub_middle. destruct (resolved !! w) as [v|]; simpl; [|done].
        replace (p ++ w ++ l) with ((p ++ w) ++ l) by (by rewrite app_assoc).
        replace (length p + length w)%nat with (length (p ++ w)) by (by rewrite length_app).
        rewrite IH by (done || by right). f_equal. rewrite drop_all, app_nil_r.
        rewrite <- app_assoc, sub_prefix by done. by rewrite !app_assoc. }
      * destruct p as [|c p'] using rev_ind; [by left|right]. rewrite length_app. simpl.
        replace (length p' + 1 - 1)%nat with (length p') by lia. unfold at_.
        rewrite lookup_app_l by (rewrite length_app; simpl; lia).
        rewrite list_lookup_middle by done. apply Hcut. by rewrite last_snoc.
      * destruct l as [|b l]; [left; rewrite !length_app; simpl; lia|right].
        unfold at_. rewrite app_assoc, list_lookup_middle by (by rewrite length_app). done.
    + assert (loop (restore_step (p ++ w ++ l) resolved) (out, prev) (find_tokens w (length p) 0) = Ok (out, prev)) as ->.
      { assert (Forall (fun m => artifactTokenBoundary (p ++ w ++ l) m.1 m.2 = false) (find_tokens w (length p) 0)) as Hall.
        { apply Forall_forall. intros [s e] Hin. simpl.
          destruct (artifactTokenBoundary (p ++ w ++ l) s e) eqn:Hb; [|done].
          apply boundary_word in Hb; [congruence|done|done]. }
        induction Hall as [|m ms Hm _ IHm]; [done|]. cbn [loop]. unfold restore_step at 1. by rewrite Hm. }
      replace (p ++ w ++ l) with ((p ++ w) ++ l) by (by rewrite app_assoc).
      rewrite IH; [|rewrite length_app; lia|by right]. by rewrite drop_app_le, app_assoc by done.
Qed.

(** The special cases of the code for "nothing was replaced" agree with the
    general one. *)
Lemma restore_uniform input ids resolved :
  artifactIdentityMap ids = Ok resolved ->
  RestoreArtifactIdentities input ids =
    finish input (loop (restore_step input resolved) ([], 0%nat) (find_tokens input 0 0)).
Proof.
  intros Hm. unfold RestoreArtifactIdentities. rewrite Hm.
  destruct (find_tokens input 0 0) as [|m ms] eqn:E; [done|]. rewrite <- E.
  destruct (loop _ _ _) as [[out prev]|] eqn:Hl; [|done]. simpl.
  case_bool_decide as H0; [|done]. subst prev.
  assert (out = [] /\ 0%nat = 0%nat \/ (0 < 0)%nat) as [[-> _]|?]; [|done|lia].
  eapply (loop_inv (fun st : text * nat => st.1 = [] /\ st.2 = 0%nat \/ (0 < st.2)%nat)) in Hl; [exact Hl| |by left].
  intros [o q] [s e] st' Hin Hinv Hs. apply find_tokens_in in Hin as (_ & n & Hn & ->).
  apply token_length_bound in Hn. unfold restore_step in Hs.
  destruct (negb _); [by injection Hs as <-|]. destruct (resolved !! _); [|done].
  injection Hs as <-. right. simpl. lia.
Qed.

Lemma restore_by_words input ids resolved :
  artifactIdentityMap ids = Ok resolved ->
  RestoreArtifactIdentities input ids = restored_text resolved [] input.
Proof.
  intros Hm. rewrite (restore_uniform _ _ _ Hm).
  by apply (restore_loop resolved input [] [] 0); [|left].
Qed.

(** Restoration rewrites exactly the stand-alone words [ARTIFACT_n]: the text
    is cut into maximal runs of letters, digits and underscores, each run that is
    an opaque token is replaced by its binding, everything else is kept; the only
    errors are an invalid or repeated binding and a token without one. *)
Theorem restore_exact input ids :
  RestoreArtifactIdentities input ids =
  match artifactIdentityMap ids with
  | Err e => Err e
  | Ok resolved =>
      match mapM (restore_word resolved) (segments input) with
      | Some words => Ok (concat words)
      | None => Err unknown_token
      end
  end.
Proof.
  destruct (artifactIdentityMap ids) as [resolved|e] eqn:E.
  - rewrite (restore_by_words _ _ _ E). unfold restored_text, restore_words. by destruct (mapM _ _).
  - unfold RestoreArtifactIdentities. by rewrite E.
Qed.

(** ** Tokens and bindings *)

Definition digits (l : text) : Prop := Forall (fun a => is_digit a = true) l.
Lemma pretty_digits x s :
  (x <> 0)%N -> exists d ds, bytes (pretty_N_go x s) = d :: ds ++ bytes s /\ byte_in 49 57 d = true /\ digits ds.
Proof.
  revert s. induction x as [x IH] using (well_founded_induction N.lt_wf_0). intros s Hx.
  rewrite pretty_N_go_step by lia.
  assert (is_digit (pretty_N_char (x `mod` 10)) = true) as Hd by (unfold pretty_N_char; by repeat case_match).
  destruct (decide (x / 10 = 0)%N) as [E|E].
  - rewrite E, pretty_N_go_0. exists (pretty_N_char (x `mod` 10)), []. split_and!; [done| |constructor].
    assert (x < 10)%N as Hlt by (apply N.div_small_iff in E; lia). rewrite N.mod_small by done.
    assert (x = 1 \/ x = 2 \/ x = 3 \/ x = 4 \/ x = 5 \/ x = 6 \/ x = 7 \/ x = 8 \/ x = 9)%N as Hc by lia.
    destruct_or! Hc; subst x; reflexivity.
  - destruct (IH (x / 10)%N) with (s := String (pretty_N_char (x `mod` 10)) s) as (d & ds & -> & Hd1 & Hds);
      [apply N.div_lt; lia|done|].
    exists d, (ds ++ [pretty_N_char (x `mod` 10)]). split_and!; [|done|].
    + cbn [bytes String.list_ascii_of_string]. by rewrite <- app_assoc.
    + apply Forall_app. by split; [|constructor].
Qed.
Lemma token_shape n :
  exists d ds, artifact_token (S n) = bytes "ARTIFACT_" ++ d :: ds /\ byte_in 49 57 d = true /\ digits ds.
Proof.
  destruct (pretty_digits (N.of_nat (S n)) "") as (d & ds & E & Hd & Hds); [lia|].
  exists d, ds. split_and!; [|done|done]. unfold artifact_token. f_equal.
  rewrite app_nil_r in E. rewrite <- E. unfold pretty, pretty_nat, pretty, pretty_N.
  by rewrite decide_False by lia.
Qed.
Lemma token_opaque n : opaque_token (artifact_token (S n)) = true.
Proof.
  destruct (token_shape n) as (d & ds & -> & Hd & Hds). unfold opaque_token, token_length.
  assert (starts_with (bytes "ARTIFACT_") (bytes "ARTIFACT_" ++ d :: ds) = true) as ->
    by (apply starts_with_spec; by eexists).
  assert (at_ (bytes "ARTIFACT_" ++ d :: ds) 9 (byte_in 49 57) = true) as -> by exact Hd.
  change (drop 9 (bytes "ARTIFACT_" ++ d :: ds)) with (d :: ds). cbn [andb run_length].
  assert (is_digit d = true) as -> by (revert Hd; clear; destruct d as [[] [] [] [] [] [] [] []]; vm_compute; done).
  rewrite run_length_all by done. by apply bool_decide_eq_true.
Qed.
Lemma token_is_run n : token_run (artifact_token (S n)).
Proof.
  destruct (token_shape n) as (d & ds & -> & Hd & Hds). split; [done|].
  apply Forall_app. split; [apply prefix_bytes_tokens|]. constructor; [by apply digit_token_byte|].
  eapply Forall_impl; [exact Hds|]. intros a. simpl. clear. destruct a as [[] [] [] [] [] [] [] []]; vm_compute; done.
Qed.
Lemma token_inj n m : artifact_token n = artifact_token m -> n = m.
Proof.
  unfold artifact_token. intros H%app_inv_head. apply (f_equal String.string_of_list_ascii) in H.
  unfold bytes in H. rewrite !String.string_of_list_ascii_of_string in H. by apply (inj pretty) in H.
Qed.

(** The bindings of a redaction are numbered from one. *)
Definition numbered (ids : list ArtifactIdentity) : Prop :=
  forall k a, ids !! k = Some a -> ai_Token a = artifact_token (S k).
Definition binds (ids : list ArtifactIdentity) (tokens : gmap text text) : Prop :=
  forall v t, tokens !! v = Some t <-> mkArtifact t v ∈ ids.

Lemma numbered_nodup ids : numbered ids -> NoDup (ai_Token <$> ids).
Proof.
  intros Hn. apply NoDup_alt. intros i j t. rewrite !list_lookup_fmap. unfold numbered in Hn.
  destruct (ids !! i) eqn:Ei; [|done]. destruct (ids !! j) eqn:Ej; [|done]. simpl.
  apply Hn in Ei, Ej. intros [= <-] [= E]. rewrite Ei, Ej in E. apply token_inj in E. lia.
Qed.
Lemma identity_map_total ids :
  NoDup (ai_Token <$> ids) ->
  Forall (fun a => opaque_token (ai_Token a) = true /\ blank (of_bytes (ai_Value a)) = false) ids ->
  exists resolved, artifactIdentityMap ids = Ok resolved /\
    forall a, a ∈ ids -> resolved !! ai_Token a = Some (ai_Value a).
Proof.
  intros Hnd Hf. unfold artifactIdentityMap.
  assert (forall r0 : gmap text text, Forall (fun a => r0 !! ai_Token a = None) ids ->
    exists resolved, loop identity_entry r0 ids = Ok resolved /\
      (forall a, a ∈ ids -> resolved !! ai_Token a = Some (ai_Value a)) /\
      (forall t v, r0 !! t = Some v -> resolved !! t = Some v)) as Hg.
  { induction Hf as [|a ids [Hop Hb] Hf IH]; intros r0 Hr0.
    - exists r0. split_and!; [done|intros a []%not_elem_of_nil|done].
    - cbn in Hnd. apply NoDup_cons in Hnd as [Hna Hnd]. apply Forall_cons in Hr0 as [Ha Hr0].
      cbn [loop]. unfold identity_entry at 1. rewrite Hop, Hb. cbn [negb orb].
      rewrite bool_decide_false by (rewrite Ha; by intros [? ?]).
      destruct (IH Hnd (<[ai_Token a := ai_Value a]> r0)) as (resolved & Hl & Hin & Hext).
      + rewrite Forall_forall in *. intros b Hb'. rewrite lookup_insert_ne; [by apply Hr0|].
        intros E. apply Hna. rewrite E. by apply list_elem_of_fmap_2.
      + exists resolved. split_and!; [done| |].
        * intros b [->|Hb']%elem_of_cons; [apply Hext; apply lookup_insert_eq|by apply Hin].
        * intros t v Ht. apply Hext. rewrite lookup_insert_ne; [done|congruence]. }
  destruct (Hg ∅) as (resolved & Hl & Hin & _); [apply Forall_forall; intros; apply lookup_empty|].
  by exists resolved.
Qed.

(** ** Redaction as a rendering of the spans *)

Fixpoint render (f : PathIdentity -> text) (input : text) (prev : nat) (ms : list PathIdentity) : text :=
  match ms with
  | [] => drop prev input
  | m :: ms => sub input prev (pi_Start m) ++ f m ++ render f input (pi_End m) ms
  end.
Lemma render_ext f g input prev ms :
  Forall (fun m => f m = g m) ms -> render f input prev ms = render g input prev ms.
Proof. intros H. revert prev. induction H as [|m ms Hm _ IH]; intros prev; simpl; [done|]. by rewrite Hm, IH. Qed.

Lemma redact_fold input ms ids tokens red prev ids' tokens' red' prev' :
  numbered ids -> binds ids tokens ->
  foldl (redact_step input) (ids, tokens, red, prev) ms = (ids', tokens', red', prev') ->
  numbered ids' /\ binds ids' tokens' /\ tokens ⊆ tokens' /\
  Forall (fun a => a ∈ ids \/ ai_Value a ∈ (pi_Value <$> ms)) ids' /\
  Forall (fun m => is_Some (tokens' !! pi_Value m)) ms /\
  red' ++ drop prev' input = red ++ render (fun m => default [] (tokens' !! pi_Value m)) input prev ms.
Proof.
  revert ids tokens red prev. induction ms as [|m ms IH]; intros ids tokens red prev Hn Hb Hf.
  - simpl in Hf. injection Hf as <- <- <- <-. split_and!; try done.
    apply Forall_forall. by left.
  - cbn [foldl] in Hf. unfold redact_step at 2 in Hf.
    destruct (tokens !! pi_Value m) as [t|] eqn:Ht.
    + apply IH in Hf as (Hn' & Hb' & Hsub & Hids & Hms & Hr); [|done|done]. split_and!; try done.
      * eapply Forall_impl; [exact Hids|]. simpl. intros a [?|?]; [by left|right; by right].
      * constructor; [|done]. exists t. by eapply lookup_weaken.
      * rewrite Hr. simpl. rewrite (lookup_weaken _ _ _ _ Ht Hsub). simpl. by rewrite <- !app_assoc.
    + set (t := artifact_token (length ids + 1)) in *.
      apply IH in Hf as (Hn' & Hb' & Hsub & Hids & Hms & Hr).
      * assert (tokens' !! pi_Value m = Some t) as Ht'.
        { eapply lookup_weaken; [|exact Hsub]. apply lookup_insert_eq. }
        split_and!; try done.
        -- etrans; [|exact Hsub]. by apply insert_subseteq.
        -- eapply Forall_impl; [exact Hids|]. simpl. intros a [Ha|?]; [|right; by right].
           apply elem_of_app in Ha as [?|Ha]; [by left|]. apply list_elem_of_singleton in Ha as ->. right. left.
        -- constructor; [by exists t|done].
        -- rewrite Hr. simpl. rewrite Ht'. simpl. by rewrite <- !app_assoc.
      * intros k a Hk. apply lookup_app_Some in Hk as [Hk|[Hge Hk]]; [by apply Hn|].
        apply list_lookup_singleton_Some in Hk as [Hk <-]. simpl. unfold t. f_equal. lia.
      * intros v t'. rewrite elem_of_app, list_elem_of_singleton, <- (Hb v t').
        rewrite lookup_insert_Some. split.
        -- intros [[-> ->]|[? ?]]; [by right|by left].
        -- intros [Hv|[= -> ->]]; [|by left]. right. split; [congruence|done].
Qed.

(** ** Words of a rendered text *)

(** The spans stand alone, in order, with text between them. *)
Fixpoint standing (input : text) (prev : nat) (ms : list PathIdentity) : Prop :=
  match ms with
  | [] => True
  | m :: ms =>
      (prev = 0%nat \/ (prev < pi_Start m)%nat) /\ (prev <= pi_Start m)%nat /\
      (pi_Start m < pi_End m <= length input)%nat /\
      left_edge input (pi_Start m) /\ right_edge input (pi_End m) /\ standing input (pi_End m) ms
  end.

Lemma gap_cut input prev s :
  (s <= length input)%nat -> left_edge input s -> cut (sub input prev s).
Proof.
  intros Hs Hl a Ha. rewrite last_lookup, sub_length in Ha by done.
  destruct (decide (prev < s)%nat) as [Hlt|Hge].
  - rewrite sub_lookup in Ha by lia. replace (prev + Nat.pred (s - prev))%nat with (s - 1)%nat in Ha by lia.
    destruct Hl as [->|Hl]; [lia|]. by apply (at_false _ _ _ _ Hl).
  - assert (sub input prev s = []) as E by (apply nil_length_inv; rewrite sub_length by done; lia).
    by rewrite E in Ha.
Qed.
Lemma fresh_drop input e : right_edge input e -> fresh (drop e input).
Proof.
  intros Hr. destruct (drop e input) as [|a l] eqn:E; [done|]. simpl.
  assert (input !! e = Some a) as Ha by (rewrite <- (Nat.add_0_r e), <- lookup_drop, E; done).
  destruct Hr as [->|Hr]; [apply lookup_lt_Some in Ha; lia|]. by apply (at_false _ _ _ _ Hr).
Qed.
Lemma fresh_render f input e ms :
  (0 < e)%nat -> right_edge input e -> standing input e ms -> fresh (render f input e ms).
Proof.
  intros He Hr. destruct ms as [|m ms]; simpl; [by intros _; apply fresh_drop|].
  intros ([?|Hlt] & _ & Hm & _ & _ & _); [lia|]. pose proof (fresh_drop input e Hr) as Hf.
  rewrite <- (sub_drop input e (pi_Start m)) in Hf by lia.
  assert (length (sub input e (pi_Start m)) = pi_Start m - e)%nat as Hlen by (apply sub_length; lia).
  destruct (sub input e (pi_Start m)) as [|a l]; [simpl in Hlen; lia|]. exact Hf.
Qed.

Lemma restore_words_some resolved l t :
  restore_words resolved l = Some t <->
  exists ws, Forall2 (fun w v => restore_word resolved w = Some v) (segments l) ws /\ t = concat ws.
Proof.
  unfold restore_words. rewrite fmap_Some. setoid_rewrite mapM_Some. naive_solver.
Qed.
Lemma restore_words_app resolved l1 l2 t1 t2 :
  cut l1 \/ fresh l2 -> restore_words resolved l1 = Some t1 -> restore_words resolved l2 = Some t2 ->
  restore_words resolved (l1 ++ l2) = Some (t1 ++ t2).
Proof.
  intros Hc (w1 & H1 & ->)%restore_words_some (w2 & H2 & ->)%restore_words_some.
  apply restore_words_some. exists (w1 ++ w2). rewrite segments_app by done. split; [by apply Forall2_app|].
  by rewrite concat_app.
Qed.
Lemma restore_words_plain resolved l :
  Forall (fun w => opaque_token w = false) (segments l) -> restore_words resolved l = Some l.
Proof.
  intros H. apply restore_words_some. exists (segments l). split; [|by destruct (segments_shape l)].
  apply Forall_Forall2_diag. eapply Forall_impl; [exact H|]. intros w Hw. unfold restore_word. by rewrite Hw.
Qed.
Lemma restore_words_token resolved w v :
  token_run w -> opaque_token w = true -> resolved !! w = Some v -> restore_words resolved w = Some v.
Proof.
  intros Hr Ho Hv. apply restore_words_some. exists [v]. rewrite <- (app_nil_r w), segments_run by done.
  split; [|simpl; by rewrite app_nil_r]. constructor; [|done]. unfold restore_word. by rewrite Ho.
Qed.

Lemma restore_render resolved f g input prev ms :
  standing input prev ms -> Forall (fun w => opaque_token w = false) (segments (drop prev input)) ->
  Forall (fun m => token_run (f m) /\ opaque_token (f m) = true /\ resolved !! f m = Some (g m)) ms ->
  restore_words resolved (render f input prev ms) = Some (render g input prev ms).
Proof.
  intros Hst Hw Hf. revert prev Hst Hw. induction Hf as [|m ms (Hr & Ho & Hv) Hf IH]; intros prev Hst Hw.
  - by apply restore_words_plain.
  - destruct Hst as (Hgap & Hle & Hm & Hl & Hre & Hst). cbn [render].
    rewrite <- (sub_drop input prev (pi_Start m)) in Hw by done.
    pose proof (gap_cut input prev (pi_Start m) ltac:(lia) Hl) as Hcut.
    rewrite segments_app in Hw by (by left). apply Forall_app in Hw as [Hw1 Hw2].
    rewrite <- (sub_drop input (pi_Start m) (pi_End m)) in Hw2 by lia.
    rewrite segments_app in Hw2 by (right; by apply fresh_drop). apply Forall_app in Hw2 as [_ Hw2].
    apply restore_words_app; [by left|by apply restore_words_plain|].
    apply restore_words_app; [|by apply restore_words_token|by apply IH].
    right. apply fresh_render; [lia|done|done].
Qed.

(** Redaction followed by restoration, when the spans have text between them. *)
Lemma redact_restore_render input provenance red ids :
  standing input 0 (PathIdentities input provenance) ->
  Forall (fun m => blank (of_bytes (pi_Value m)) = false) (PathIdentities input provenance) ->
  Forall (fun w => opaque_token w = false) (segments input) ->
  RedactArtifactIdentities input provenance = (red, ids) ->
  RestoreArtifactIdentities red ids = Ok (render pi_Value input 0 (PathIdentities input provenance)).
Proof.
  intros Hst Hb Hw Hred. unfold RedactArtifactIdentities in Hred.
  destruct (PathIdentities input provenance) as [|m0 ms0] eqn:Em.
  { injection Hred as <- <-. rewrite (restore_by_words _ _ ∅) by done. unfold restored_text.
    by rewrite restore_words_plain. }
  rewrite <- Em in *. clear m0 ms0 Em.
  destruct (foldl _ _ _) as [[[ids' tokens] red'] prev'] eqn:Hf. injection Hred as <- <-.
  apply redact_fold in Hf as (Hn & Hbd & _ & Hids & Hms & Hr); [|by intros ? ? ?|].
  2:{ intros v t. rewrite lookup_empty. split; [done|intros []%not_elem_of_nil]. }
  rewrite Hr. simpl app.
  assert (forall a, a ∈ ids' -> exists k, ai_Token a = artifact_token (S k)) as Htok.
  { intros a Ha. apply list_elem_of_lookup in Ha as [k Hk]. exists k. by apply Hn. }
  destruct (identity_map_total ids') as (resolved & Hmap & Hres); [by apply numbered_nodup| |].
  { rewrite Forall_forall in Hb. rewrite Forall_forall in Hids. apply Forall_forall. intros a Ha.
    destruct (Htok a Ha) as [k ->]. split; [apply token_opaque|].
    destruct (Hids a Ha) as [H|H]; [by apply not_elem_of_nil in H|].
    apply list_elem_of_fmap in H as (m & -> & Hm). by apply Hb. }
  rewrite (restore_by_words _ _ _ Hmap). unfold restored_text.
  rewrite (restore_render resolved _ pi_Value); [done|done|by rewrite drop_0|].
  rewrite Forall_forall in Hms. apply Forall_forall. intros m Hm. destruct (Hms m Hm) as [t Ht]. rewrite Ht. simpl.
  apply Hbd in Ht as Hin. destruct (Htok _ Hin) as [k Hk]. simpl in Hk.
  specialize (Hres _ Hin). simpl in Hres. rewrite Hk in *.
  split_and!; [apply token_is_run|apply token_opaque|done].
Qed.

(** ** Values are not blank *)

Definition printable : ascii -> bool := byte_in 33 126.
Definition dropped (p : text) : Prop := p <> [] /\ Forall (fun a => printable a = false) p.
Lemma byte_in_printable lo hi a :
  (126 < lo)%N -> byte_in lo hi a = true -> printable a = false.
Proof.
  unfold printable, byte_in. intros Hlo [H1 H2]%andb_true_iff. apply N.leb_le in H1.
  apply andb_false_iff. right. apply N.leb_gt. lia.
Qed.
Lemma space1_dropped a : space1 a = true -> dropped [a].
Proof. destruct a as [[] [] [] [] [] [] [] []]; vm_compute; try done; repeat constructor; done. Qed.
Ltac dropped_bytes :=
  split; [done|]; repeat (apply Forall_cons; split; [eapply byte_in_printable; [|eassumption]; done|]); done.
Lemma space2_dropped a b : space2 a b = true -> dropped [a; b].
Proof. intros [H1 [H2|H2]%orb_true_iff]%andb_true_iff; dropped_bytes. Qed.
Lemma space3_dropped a b c : space3 a b c = true -> dropped [a; b; c].
Proof.
  unfold space3. intros H.
  repeat match goal with
  | H : (_ || _)%bool = true |- _ => apply orb_true_iff in H as [H|H]
  | H : (_ && _)%bool = true |- _ => apply andb_true_iff in H as [? H]
  | H1 : (_ && _)%bool = true |- _ => apply andb_true_iff in H1 as [? ?]
  end; dropped_bytes.
Qed.

(** Trimming drops only unprintable bytes. *)
Section trimming.
Context (f : text -> text).
Hypothesis step : forall l, f l = l \/ exists p l', l = p ++ l' /\ dropped p /\ f l = f l'.
Lemma trim_keeps a l : printable a = true -> a ∈ l -> a ∈ f l.
Proof using step.
  intros Hp. remember (length l) as n eqn:Hn. revert l Hn. induction n as [n IH] using lt_wf_ind. intros l -> Hin.
  destruct (step l) as [->|(p & l' & -> & [Hne Hd] & ->)]; [done|].
  apply elem_of_app in Hin as [Hin|Hin].
  - rewrite Forall_forall in Hd. specialize (Hd a Hin). simpl in Hd. congruence.
  - apply (IH (length l')); [|done|done]. rewrite length_app. destruct p; [done|simpl; lia].
Qed.
End trimming.
Lemma trim_left_drops l :
  trim_left l = l \/ exists p l', l = p ++ l' /\ dropped p /\ trim_left l = trim_left l'.
Proof.
  destruct l as [|a l1]; [by left|]. cbn [trim_left].
  destruct (space1 a) eqn:E1; [right; exists [a], l1; split_and!; [done|by apply space1_dropped|done]|].
  destruct l1 as [|b l2]; [by left|].
  destruct (space2 a b) eqn:E2; [right; exists [a; b], l2; split_and!; [done|by apply space2_dropped|done]|].
  destruct l2 as [|c l3]; [by left|].
  destruct (space3 a b c) eqn:E3; [right; exists [a; b; c], l3; split_and!; [done|by apply space3_dropped|done]|by left].
Qed.
Lemma trim_right_drops l :
  trim_right_rev l = l \/ exists p l', l = p ++ l' /\ dropped p /\ trim_right_rev l = trim_right_rev l'.
Proof.
  assert (forall p, dropped p -> dropped (reverse p)) as Hrev.
  { intros p [Hne Hd]. split; [|by apply Forall_reverse]. intros E. apply Hne. by rewrite <- (reverse_involutive p), E. }
  destruct l as [|c l1]; [by left|]. cbn [trim_right_rev].
  destruct (space1 c) eqn:E1; [right; exists [c], l1; split_and!; [done|by apply space1_dropped|done]|].
  destruct l1 as [|b l2]; [by left|].
  destruct (space2 b c) eqn:E2; [right; exists [c; b], l2; split_and!; [done|by apply (Hrev [b; c]), space2_dropped|done]|].
  destruct l2 as [|a l3]; [by left|].
  destruct (space3 a b c) eqn:E3; [right; exists [c; b; a], l3; split_and!; [done|by apply (Hrev [a; b; c]), space3_dropped|done]|by left].
Qed.
Lemma printable_not_blank a l : printable a = true -> a ∈ l -> blank (of_bytes l) = false.
Proof.
  intros Hp Hin. unfold blank. apply bool_decide_eq_false. intros E.
  unfold trim_space, of_bytes in E. rewrite String.list_ascii_of_string_of_list_ascii in E.
  apply (f_equal String.list_ascii_of_string) in E. rewrite String.list_ascii_of_string_of_list_ascii in E.
  apply (trim_keeps trim_left trim_left_drops a) in Hin; [|done]. apply elem_of_reverse in Hin.
  apply (trim_keeps trim_right_rev trim_right_drops a) in Hin; [|done]. apply elem_of_reverse in Hin.
  rewrite E in Hin. by apply not_elem_of_nil in Hin.
Qed.
Lemma alpha_printable a : isASCIIAlpha a = true -> printable a = true.
Proof. destruct a as [[] [] [] [] [] [] [] []]; vm_compute; done. Qed.
Lemma qualified_not_blank l : isQualifiedPath l = true -> blank (of_bytes l) = false.
Proof.
  intros Hq. assert (exists a, a ∈ l /\ printable a = true) as (a & Ha & Hp); [|by apply printable_not_blank with a].
  destruct l as [|x l]; [done|]. unfold isQualifiedPath in Hq.
  repeat (apply orb_true_iff in Hq as [Hq|Hq]).
  - apply starts_with_spec in Hq as [k ->]. exists (byte 46). split; [left|done].
  - apply starts_with_spec in Hq as [k ->]. exists (byte 46). split; [left|done].
  - apply bool_decide_eq_true in Hq as ->. eexists; split; [left|done].
  - apply bool_decide_eq_true in Hq as ->. eexists; split; [left|done].
  - apply bool_decide_eq_true in Hq as ->. eexists; split; [left|done].
  - apply andb_true_iff in Hq as [Hq _]. exists x. split; [left|by apply alpha_printable].
  - apply bool_decide_eq_true in Hq. by exists slash.
  - apply bool_decide_eq_true in Hq. by exists backslash.
Qed.

(** ** The round trip *)

Definition strictly_before (a b : PathIdentity) : Prop := (pi_End a < pi_Start b)%nat.

Lemma boundary_edges value s e :
  artifactTokenBoundary value s e = true -> left_edge value s /\ right_edge value e.
Proof.
  unfold artifactTokenBoundary. intros [H1 H2]%andb_true_iff. split.
  - apply orb_true_iff in H1 as [H1|H1]; [left; by apply bool_decide_eq_true in H1|right; by apply negb_true_iff in H1].
  - apply orb_true_iff in H2 as [H2|H2]; [left; by apply bool_decide_eq_true in H2|right; by apply negb_true_iff in H2].
Qed.
Lemma strict_standing provenance input prev ms :
  StronglySorted strictly_before ms -> Forall (inhabited_span input) ms ->
  Forall (located provenance input) ms ->
  prev = 0%nat \/ Forall (fun m => prev < pi_Start m)%nat ms -> standing input prev ms.
Proof.
  intros Hs. revert prev. induction Hs as [|m ms Hs IH Hm]; intros prev Hi Hl Hp; simpl; [done|].
  apply Forall_cons in Hi as [Hi1 Hi]. apply Forall_cons in Hl as [Hl1 Hl].
  destruct Hl1 as [Hb _]. apply boundary_edges in Hb as [Hle Hre].
  assert (prev = 0%nat \/ (prev < pi_Start m)%nat) as Hp'
    by (destruct Hp as [|Hp]; [by left|right; by apply Forall_cons in Hp as [? _]]).
  split_and!; try (done || apply Hi1 || lia). apply IH; [done|done|]. by right.
Qed.

Lemma render_self input prev ms :
  standing input prev ms -> render (token_of input) input prev ms = drop prev input.
Proof.
  revert prev. induction ms as [|m ms IH]; intros prev; simpl; [done|].
  intros (_ & Hle & Hm & _ & _ & Hst). rewrite IH by done. unfold token_of.
  rewrite sub_drop by lia. by apply sub_drop.
Qed.

(** Without provenance the identities are lexed tokens, in order. *)
Lemma resolve_none value : resolve no_provenance value = None.
Proof. reflexivity. Qed.
Lemma sort_fixed ids :
  StronglySorted strictly_before ids -> Forall (fun i => pi_Start i < pi_End i)%nat ids ->
  sortPathIdentities ids = ids.
Proof.
  intros Hs Hi. unfold sortPathIdentities.
  assert (forall acc, Forall (fun a => Forall (fun i => pi_Start a <= pi_Start i)%nat ids) acc ->
    foldl (fun sorted x => insert_back x sorted) acc ids = reverse ids ++ acc) as Hg.
  { induction Hs as [|x ids Hs IH Hx]; intros acc Hacc; [done|]. cbn [foldl].
    apply Forall_cons in Hi as [Hi1 Hi].
    assert (insert_back x acc = x :: acc) as ->.
    { destruct acc as [|a acc]; [done|]. simpl. apply Forall_cons in Hacc as [Ha _].
      apply Forall_cons in Ha as [Ha _]. by rewrite bool_decide_false by lia. }
    rewrite IH, reverse_cons, <- app_assoc; [done|done|].
    constructor; [eapply Forall_impl; [exact Hx|]; unfold strictly_before; intros; lia|].
    eapply Forall_impl; [exact Hacc|]. intros a Ha. by apply Forall_cons in Ha as [_ ?]. }
  rewrite Hg by done. by rewrite app_nil_r, reverse_involutive.
Qed.
Lemma add_spans_strict value spans ids :
  Forall (span_ok value) spans -> StronglySorted (fun a b => ps_end a < ps_start b)%nat spans ->
  StronglySorted strictly_before ids -> Forall (fun i => pi_Start i < pi_End i)%nat ids ->
  Forall (fun i => Forall (fun sp => pi_End i < ps_start sp)%nat spans) ids ->
  StronglySorted strictly_before (foldl (add_span no_provenance value) ids spans) /\
  Forall (fun i => pi_Start i < pi_End i)%nat (foldl (add_span no_provenance value) ids spans).
Proof.
  intros Hok Hs. revert ids. induction Hs as [|sp spans Hs IH Hsp]; intros ids Hids Hin Hb; [done|].
  apply Forall_cons in Hok as [Hsp1 Hok]. cbn [foldl].
  assert (Forall (fun i => Forall (fun sp => pi_End i < ps_start sp)%nat spans) ids) as Hb2
    by (eapply Forall_impl; [exact Hb|]; intros i Hi; by apply Forall_cons in Hi as [_ ?]).
  assert (Forall (fun i => pi_End i < ps_start sp)%nat ids) as Hb1
    by (eapply Forall_impl; [exact Hb|]; intros i Hi; by apply Forall_cons in Hi as [? _]).
  assert (add_span no_provenance value ids sp = ids \/
    exists v, add_span no_provenance value ids sp = ids ++ [mkIdentity (ps_start sp) (ps_end sp) v]) as [->|[v ->]].
  { unfold add_span. rewrite resolve_none. repeat case_match; eauto. }
  - by apply IH.
  - destruct Hsp1 as [Hr _]. apply IH; [done| | |].
    + apply StronglySorted_app. split_and!; [|done|repeat constructor].
      intros a b Ha Hbb. apply list_elem_of_singleton in Hbb as ->. rewrite Forall_forall in Hb1. by apply Hb1.
    + apply Forall_app. split; [done|]. constructor; [simpl; lia|done].
    + apply Forall_app. split; [done|]. by constructor.
Qed.
Lemma lexed_strict value : StronglySorted strictly_before (PathIdentities value no_provenance).
Proof.
  unfold PathIdentities. destruct (lex_spans_ok value) as [Hok Hs].
  destruct (add_spans_strict value (lexPathTokens value) (identities no_provenance value)) as [Ha Hi];
    [done|done|constructor|constructor|constructor|].
  by rewrite sort_fixed.
Qed.

Lemma located_value paths provenance value i :
  NewArtifactIdentityProvenance paths = Ok provenance ->
  located provenance value i -> blank (of_bytes (pi_Value i)) = false.
Proof.
  intros Hp [_ [Hr|(_ & -> & Hq)]]; [|by apply qualified_not_blank].
  pose proof (new_provenance _ _ Hp) as (_ & Hf & _). rewrite Forall_forall in Hf.
  apply (resolve_spells _ _ _ _ Hp) in Hr as [[Hin _]|(? & _ & Hin & _)];
    by destruct (valid_path _ (Hf _ Hin)) as (_ & _ & ?).
Qed.
Lemma redact_restore paths provenance input red ids :
  NewArtifactIdentityProvenance paths = Ok provenance ->
  StronglySorted strictly_before (PathIdentities input provenance) ->
  Forall (fun w => opaque_token w = false) (segments input) ->
  RedactArtifactIdentities input provenance = (red, ids) ->
  standing input 0 (PathIdentities input provenance) /\
  RestoreArtifactIdentities red ids = Ok (render pi_Value input 0 (PathIdentities input provenance)).
Proof.
  intros Hp Hs Hw Hr. destruct (path_identities_spec paths provenance input Hp) as (_ & Hi & Hl).
  assert (standing input 0 (PathIdentities input provenance)) as Hst
    by (eapply strict_standing; [done|done|exact Hl|by left]).
  split; [done|]. apply redact_restore_render; [done| |done|done].
  eapply Forall_impl; [exact Hl|]. intros i Hi'. by apply located_value with paths provenance input.
Qed.

(** Without known paths every identity is written as the path it stands for. *)
Lemma unproven_spelling input :
  Forall (fun i => token_of input i = pi_Value i) (PathIdentities input no_provenance).
Proof.
  destruct (path_identities_spec [] no_provenance input) as (_ & _ & Hl); [done|].
  eapply Forall_impl; [exact Hl|]. intros i [_ [H|(_ & H & _)]]; [|done]. by rewrite resolve_none in H.
Qed.

(** ** The path-free boundary *)

(** A name that can be written in a text without a gap: letters, digits, the
    other bytes of a mention and single dots. *)
Definition plain_byte (a : ascii) : bool := (artifactMentionByte a || is_byte (byte 46) a)%bool.
Definition plain_name (m : text) : Prop :=
  Forall (fun a => plain_byte a = true) m /\
  forall i, m !! i = Some (byte 46) -> m !! S i <> Some (byte 46).
Definition known_name (paths : list text) (m : text) : Prop :=
  m ∈ paths \/ exists p, basename_of paths m p.

Lemma boundary_left value s e :
  (0 < s)%nat -> at_ value (s - 1) artifactMentionByte = true \/
    (at_ value (s - 1) (is_byte (byte 46)) = true /\ (1 < s)%nat /\ at_ value (s - 2) artifactMentionByte = true) ->
  artifactMentionBoundary value s e = false.
Proof.
  intros Hs H. unfold artifactMentionBoundary. apply negb_false_iff, orb_true_iff. left.
  apply andb_true_iff. split; [by apply bool_decide_eq_true|]. apply orb_true_iff.
  destruct H as [H|(H1 & H2 & H3)]; [by left|right]. by rewrite H1, H3, bool_decide_true.
Qed.
Lemma mention_byte_dot : artifactMentionByte (byte 46) = false.
Proof. reflexivity. Qed.

(** An occurrence that overlaps an earlier one does not stand alone. *)
Lemma overlapping_occurrence m value start s :
  plain_name m -> occurs m value start -> occurs m value s ->
  (start < s < start + length m)%nat -> artifactMentionBoundary value s (s + length m) = false.
Proof.
  intros [Hp Hdots] H1 H2 Hr.
  assert (forall j, (j < length m)%nat -> exists a, m !! j = Some a /\ value !! (start + j)%nat = Some a /\
    (artifactMentionByte a = true \/ a = byte 46)) as Hm.
  { intros j Hj. destruct (lookup_lt_is_Some_2 m j Hj) as [a Ha]. exists a.
    split_and!; [done|by eapply occurs_lookup|]. rewrite Forall_lookup in Hp. specialize (Hp _ _ Ha).
    apply orb_true_iff in Hp as [?|Hp]; [by left|right]. by apply bool_decide_eq_true in Hp. }
  destruct (Hm (s - 1 - start)%nat) as (a & Ha & Hv & Hb); [lia|].
  replace (start + (s - 1 - start))%nat with (s - 1)%nat in Hv by lia.
  apply boundary_left; [lia|]. unfold at_ at 1 2. rewrite Hv.
  destruct Hb as [Hb| ->]; [by left|right].
  destruct (decide (s - 1 = start)%nat) as [E|Hne].
  - exfalso. replace (s - 1 - start)%nat with 0%nat in Ha by lia.
    destruct (Hm 1%nat) as (b & Hb & Hvb & _); [lia|].
    pose proof (occurs_lookup _ _ _ 0 _ H2 Ha) as Hs. replace (s + 0)%nat with (start + 1)%nat in Hs by lia.
    rewrite Hs in Hvb. injection Hvb as <-. by apply (Hdots 0%nat).
  - split_and!; [done|lia|]. destruct (Hm (s - 2 - start)%nat) as (b & Hb & Hvb & Hbb); [lia|].
    replace (start + (s - 2 - start))%nat with (s - 2)%nat in Hvb by lia. unfold at_. rewrite Hvb.
    destruct Hbb as [?| ->]; [done|]. exfalso. apply (Hdots _ Hb).
    by replace (S (s - 2 - start)) with (s - 1 - start)%nat by lia.
Qed.

Lemma scan_grows fuel value mention resolved offset ids :
  exists new, scan_mention fuel value mention resolved offset ids = ids ++ new.
Proof.
  revert offset ids. induction fuel as [|fuel IH]; intros offset ids; simpl; [exists []; by rewrite app_nil_r|].
  case_bool_decide; [|exists []; by rewrite app_nil_r].
  destruct (index _ _); [|exists []; by rewrite app_nil_r].
  edestruct IH as [new ->]. destruct (_ || _)%bool; [by exists new|]. rewrite <- app_assoc. by eexists.
Qed.
Lemma scan_nothing fuel value mention resolved offset s :
  plain_name mention -> mention <> [] -> (length value < fuel + offset)%nat ->
  scan_mention fuel value mention resolved offset [] = [] ->
  (offset <= s)%nat -> occurs mention value s ->
  artifactMentionBoundary value s (s + length mention) = false.
Proof.
  intros Hp Hne. revert offset. induction fuel as [|fuel IH]; intros offset Hf Hscan Hs Ho.
  { apply occurs_end in Ho; [|done]. lia. }
  pose proof (occurs_end _ _ _ Hne Ho) as Hend.
  cbn [scan_mention] in Hscan. rewrite bool_decide_true in Hscan by lia.
  destruct (index mention (drop offset value)) as [k|] eqn:Hk.
  2:{ exfalso. eapply (index_none _ _ (s - offset)); [exact Hne|exact Hk|].
      apply occurs_drop. by replace (offset + (s - offset))%nat with s by lia. }
  apply index_some in Hk as [Hoc%occurs_drop Hmin].
  set (start := (offset + k)%nat) in *.
  assert (0 < length mention)%nat by (destruct mention; [done|simpl; lia]).
  destruct (artifactMentionBoundary value start (start + length mention)) eqn:Hb.
  { exfalso. cbn in Hscan. edestruct scan_grows as [new E]. rewrite E in Hscan. done. }
  cbn [negb orb] in Hscan. assert (start <= s)%nat as Hge.
  { destruct (decide (start <= s)%nat); [done|]. exfalso. apply (Hmin (s - offset)%nat); [lia|].
    apply occurs_drop. by replace (offset + (s - offset))%nat with s by lia. }
  destruct (decide (s = start)) as [->|]; [done|].
  destruct (decide (s < start + length mention)%nat).
  - by apply (overlapping_occurrence mention value start s); [done|done|done|lia].
  - apply (IH (start + length mention)%nat); [unfold start in *; lia|done|lia|done].
Qed.

Lemma identities_grow provenance value ms ids :
  exists new, foldl (fun ids mention =>
    scan_mention (S (length value)) value mention (default [] (pr_mentions provenance !! mention)) 0 ids) ids ms = ids ++ new.
Proof.
  revert ids. induction ms as [|m ms IH]; intros ids; [exists []; by rewrite app_nil_r|]. cbn [foldl].
  edestruct scan_grows as [new ->]. edestruct IH as [new' ->]. rewrite <- app_assoc. by eexists.
Qed.
Lemma no_identity_scan provenance value m :
  identities provenance value = [] -> m ∈ pr_orderedMentions provenance ->
  scan_mention (S (length value)) value m (default [] (pr_mentions provenance !! m)) 0 [] = [].
Proof.
  intros H Hin. apply list_elem_of_split in Hin as (l1 & l2 & E). unfold identities in H.
  rewrite E, foldl_app in H. cbn [foldl] in H.
  destruct (identities_grow provenance value l1 []) as [new1 E1]. rewrite E1 in H.
  edestruct (identities_grow provenance value l2) as [new2 E2]. rewrite E2 in H.
  apply app_eq_nil in H as [H _]. destruct new1 as [|i new1]; [exact H|].
  edestruct scan_grows as [new3 E3]. rewrite E3 in H. done.
Qed.

Lemma add_spans_keep provenance value spans ids :
  ids <> [] -> foldl (add_span provenance value) ids spans <> [].
Proof.
  revert ids. induction spans as [|sp spans IH]; intros ids Hne; [done|]. cbn [foldl]. apply IH.
  unfold add_span. repeat case_match; try done; by destruct ids.
Qed.
Lemma spans_nothing provenance value spans :
  foldl (add_span provenance value) [] spans = [] ->
  Forall (fun sp => let t := sub value (ps_start sp) (ps_end sp) in
    resolve provenance t = None /\
    (isQualifiedPath t = true -> quotedTrailingEscapeLiteral t (ps_quoted sp) = true)) spans.
Proof.
  induction spans as [|sp spans IH]; intros H; [done|]. cbn [foldl] in H.
  assert (add_span provenance value [] sp = []) as E.
  { destruct (add_span provenance value [] sp) eqn:E; [done|]. by apply add_spans_keep in H. }
  rewrite E in H. constructor; [|by apply IH]. unfold add_span in E. cbn zeta.
  destruct (pathSpanOverlapsIdentity sp []) eqn:Eo; [done|].
  destruct (resolve _ _); [done|]. split; [done|]. intros Hq. rewrite Hq in E.
  by destruct (quotedTrailingEscapeLiteral _ _).
Qed.

Lemma validate_values provenance values :
  ValidatePathFreeModelContextWithProvenance provenance values = Ok tt <->
  Forall (fun v => PathIdentities v provenance = []) values.
Proof.
  induction values as [|v values IH]; simpl; [by split|]. rewrite Forall_cons, <- IH.
  destruct (PathIdentities v provenance); naive_solver.
Qed.
Lemma no_identities provenance value :
  PathIdentities value provenance = [] ->
  identities provenance value = [] /\ foldl (add_span provenance value) [] (lexPathTokens value) = [].
Proof.
  unfold PathIdentities, sortPathIdentities. intros H. apply (f_equal reverse) in H.
  rewrite reverse_involutive, reverse_nil in H.
  assert (forall l acc, foldl (fun sorted x => insert_back x sorted) acc l = [] -> l = [] /\ acc = []) as Hs.
  { induction l as [|x l IH]; intros acc; [done|]. cbn [foldl]. intros [_ E]%IH.
    pose proof (insert_back_perm x acc) as Hp. rewrite E in Hp. by apply Permutation_nil_cons in Hp. }
  apply Hs in H as [H _].
  destruct (identities provenance value) eqn:E; [done|]. exfalso. by apply add_spans_keep in H.
Qed.

(** A text that passes the path-free boundary of a repository names none of
    its files: neither a known path nor the basename of exactly one of them stands
    alone anywhere in it (for names without blanks or double dots), and no token
    of it resolves to a known path or is a qualified path, except quoted output
    examples ending in escapes. *)
Theorem path_free_hides paths provenance values value :
  NewArtifactIdentityProvenance paths = Ok provenance ->
  ValidatePathFreeModelContextWithProvenance provenance values = Ok tt -> value ∈ values ->
  (forall m s, known_name paths m -> plain_name m -> occurs m value s ->
    artifactMentionBoundary value s (s + length m) = false) /\
  Forall (fun sp => let t := sub value (ps_start sp) (ps_end sp) in
    resolve provenance t = None /\
    (isQualifiedPath t = true -> quotedTrailingEscapeLiteral t (ps_quoted sp) = true)) (lexPathTokens value).
Proof.
  intros Hp Hv Hin. apply validate_values in Hv. rewrite Forall_forall in Hv.
  apply Hv, no_identities in Hin as [Hid Hsp]. split; [|by apply spans_nothing].
  intros m s Hk Hpl Ho. pose proof (new_provenance _ _ Hp) as (Hok & _ & Hm).
  assert (exists v, pr_mentions provenance !! m = Some v) as [v Hmv].
  { destruct Hk as [Hk|[p Hk]]; [exists m|exists p]; apply Hm; naive_solver. }
  destruct (new_provenance_values _ _ _ _ Hp Hmv) as [Hne _].
  eapply scan_nothing; [done|done| | |apply Nat.le_0_l|done];
    [|apply no_identity_scan; [done|apply Hok; by exists v]]. lia.
Qed.

(** What an identity may be: the spelling of a known path, possibly by its
    basename or after [./], or a qualified path written in the text. *)
Definition stands_for (paths : list text) (written path : text) : Prop :=
  spells paths written path \/
  (exists m, written = bytes "./" ++ m /\ spells paths m path) \/
  (path = written /\ isQualifiedPath written = true).

(** The identities of a text are disjoint, in order, inside the text and stand
    alone; each is a spelling of a known path, possibly by its basename or after
    [./], or a qualified path written in the text. *)
Theorem identities_located paths provenance value :
  NewArtifactIdentityProvenance paths = Ok provenance ->
  StronglySorted before (PathIdentities value provenance) /\
  Forall (fun i => (pi_Start i < pi_End i <= length value)%nat /\
    artifactTokenBoundary value (pi_Start i) (pi_End i) = true /\
    stands_for paths (token_of value i) (pi_Value i))
    (PathIdentities value provenance).
Proof.
  intros Hp. destruct (path_identities_spec paths provenance value Hp) as (Hs & Hi & Hl).
  split; [done|]. rewrite Forall_forall in Hi. rewrite Forall_forall in Hl. apply Forall_forall.
  intros i Hin. destruct (Hl i Hin) as [Hb Hv]. split_and!; [apply Hi; done|apply Hi; done|done|].
  destruct Hv as [Hv|(_ & Hv & Hq)]; [|by right; right].
  apply (resolve_spells _ _ _ _ Hp) in Hv as [Hv|Hv]; [by left|by right; left].
Qed.

(** ** Limits of the boundary

    The scanner resumes after an occurrence that does not stand alone, so a name
    that overlaps itself across a blank can be missed. *)
Definition provenance_of (paths : list text) : ArtifactIdentityProvenance :=
  match NewArtifactIdentityProvenance paths with Ok p => p | Err _ => no_provenance end.

Lemma self_overlapping_name_missed :
  let value := bytes "qx y x y x" in
  NewArtifactIdentityProvenance [bytes "x y x"] = Ok (provenance_of [bytes "x y x"]) /\
  occurs (bytes "x y x") value 5 /\ artifactMentionBoundary value 5 10 = true /\
  PathIdentities value (provenance_of [bytes "x y x"]) = [].
Proof. vm_compute. by split_and!. Qed.

(** C36: Redaction loses nothing but the spelling: restoring a text redacted with
    any known paths gives the text in which every identity is replaced by the
    known path it spells or the qualified path it is; that is the text itself
    when every identity is written as its path in full, and always when there are
    no known paths.  This needs that the text holds no stand-alone word
    [ARTIFACT_n] and, with known paths, that some text lies between consecutive
    identities ([adjacent_identities_not_restored] shows that touching ones are
    not restored). *)
Theorem redact_restore_exact paths provenance input red ids :
  NewArtifactIdentityProvenance paths = Ok provenance ->
  Forall (fun w => opaque_token w = false) (segments input) ->
  RedactArtifactIdentities input provenance = (red, ids) ->
  let found := PathIdentities input provenance in
  (paths = [] -> RestoreArtifactIdentities red ids = Ok input) /\
  (StronglySorted strictly_before found ->
    Forall (fun i => stands_for paths (token_of input i) (pi_Value i)) found /\
    RestoreArtifactIdentities red ids = Ok (render pi_Value input 0 found) /\
    (Forall (fun i => token_of input i = pi_Value i) found -> RestoreArtifactIdentities red ids = Ok input)).
Proof.
  intros Hp Hw Hr found.
  assert (StronglySorted strictly_before found ->
    RestoreArtifactIdentities red ids = Ok (render pi_Value input 0 found) /\
    (Forall (fun i => token_of input i = pi_Value i) found ->
       RestoreArtifactIdentities red ids = Ok input)) as Hg.
  { intros Hs. destruct (redact_restore _ _ _ _ _ Hp Hs Hw Hr) as [Hst ->]. split; [done|]. intros Hf.
    f_equal. rewrite (render_ext _ (token_of input)); [by rewrite render_self|].
    eapply Forall_impl; [exact Hf|]. by intros i <-. }
  split.
  - intros ->. injection Hp as <-. apply Hg; [apply lexed_strict|apply unproven_spelling].
  - intros Hs. destruct (Hg Hs) as [H1 H2]. split_and!; [|done|done].
    destruct (identities_located _ _ input Hp) as [_ Hl].
    eapply Forall_impl; [exact Hl|]. by intros i (_ & _ & Hv).
Qed.

(** Two identities without text between them become one word, which restoration
    leaves alone: a repository with a file named by a non-ASCII letter. *)
Lemma adjacent_identities_not_restored :
  let name := [byte 195; byte 169] in
  RedactArtifactIdentities (name ++ name) (provenance_of [name]) =
    (bytes "ARTIFACT_1ARTIFACT_1", [mkArtifact (bytes "ARTIFACT_1") name]) /\
  RestoreArtifactIdentities (bytes "ARTIFACT_1ARTIFACT_1") [mkArtifact (bytes "ARTIFACT_1") name] =
    Ok (bytes "ARTIFACT_1ARTIFACT_1").
Proof. vm_compute. by split. Qed.

(** ** Witnesses *)

Lemma redact_restore_exact_witness :
  let input := bytes "open main.go or (/tmp/y), not src/main.go" in
  RestoreArtifactIdentities (bytes "open ARTIFACT_1 or (ARTIFACT_2), not ARTIFACT_1")
    [mkArtifact (bytes "ARTIFACT_1") (bytes "src/main.go"); mkArtifact (bytes "ARTIFACT_2") (bytes "/tmp/y")] =
  Ok (render pi_Value input 0 (PathIdentities input (provenance_of [bytes "src/main.go"]))).
Proof.
  apply (redact_restore_exact [bytes "src/main.go"]).
  - vm_compute. reflexivity.
  - refine (bool_decide_unpack _ _). vm_compute. exact I.
  - vm_compute. reflexivity.
  - vm_compute. repeat constructor.
Defined.

Example restored_in_full :
  let input := bytes "open main.go or (/tmp/y), not src/main.go" in
  render pi_Value input 0 (PathIdentities input (provenance_of [bytes "src/main.go"])) =
  bytes "open src/main.go or (/tmp/y), not src/main.go".
Proof. vm_compute. reflexivity. Qed.

Lemma path_free_hides_witness :
  artifactMentionBoundary (bytes "see xmain.go and Node.js") 5 12 = false.
Proof.
  apply (path_free_hides [bytes "src/main.go"] (provenance_of [bytes "src/main.go"])
           [bytes "see xmain.go and Node.js"] (bytes "see xmain.go and Node.js")) with (m := bytes "main.go").
  - vm_compute. reflexivity.
  - vm_compute. reflexivity.
  - left.
  - right. exists (bytes "src/main.go"). split; [left|]. split; [vm_compute; reflexivity|].
    intros q Hq _. by apply list_elem_of_singleton in Hq.
  - split; [refine (bool_decide_unpack _ _); vm_compute; exact I|].
    intros i Hi. do 8 (destruct i as [|i]; [try discriminate Hi; discriminate|]). discriminate Hi.
  - vm_compute. reflexivity.
Defined.

Lemma identities_located_witness :
  StronglySorted before (PathIdentities (bytes "open main.go or /tmp/y") (provenance_of [bytes "src/main.go"])) /\
  length (PathIdentities (bytes "open main.go or /tmp/y") (provenance_of [bytes "src/main.go"])) = 2%nat.
Proof.
  split; [|vm_compute; reflexivity].
  apply (identities_located [bytes "src/main.go"]). vm_compute. reflexivity.
Defined.
