(* ===== verification/ContextCompiler.v ===== *)
(** * The context compiler

    Models [internal/contextcompiler] and the candidate, relevance, minification
    and objective-context contracts of [internal/assemblyline] it relies on.  The
    candidate provider, the two semantic stations and the Go context are not part
    of this code: they are parameters that act on an abstract world [W], so that
    a retained answer or a cancellation may depend on everything that happened
    before. *)
From Stdlib Require Import Ascii.
From S2P Require Import Prelude Schema PathIdentity.
From stdpp Require Import sorting base tactics strings list gmap numbers pretty.
From stdpp Require Import list options.
Open Scope Z_scope.
Open Scope go_scope.

(** ** Contracts *)

Definition MaxContextMinificationAuthorities : Z := 8.
Definition MaxContextMinificationProjectionBytes : Z := 6 * 1024.
Definition ContextMinificationThresholdBytes : Z := 2 * 1024.
Definition ExactSemanticLeafCalls : Z := 1.
Definition ContextScopeRoleplaySimulation : string := "roleplay_simulation".
Definition ContextMinificationSchemaV1 : string := "omnidex.context-minification.v1".
Definition ContextRelevanceRelationSchemaV1 : string := "omnidex.context-relevance-relation.v1".
Definition ContextCandidateDirectlyRelevant : string := "DIRECTLY_RELEVANT_TO_EXACT_INSTRUCTION".
Definition ContextCandidateNotDirectlyRelevant : string := "NOT_DIRECTLY_RELEVANT_TO_EXACT_INSTRUCTION".

Definition validate_scope (scope : string) : result unit :=
  reject "context scope %q is not registered" when
    negb ((scope == "") || (scope == ContextScopeRoleplaySimulation))%bool;
  Ok tt.

Record ContextCandidateAuthority := mkAuthority {
  ca_Namespace : string; ca_CandidateID : string; ca_Content : string }.
#[global] Instance ContextCandidateAuthority_eq_dec : EqDecision ContextCandidateAuthority.
Proof. solve_decision. Defined.

(** [^[a-z][a-z0-9_.-]*$] *)
Definition namespace_matches (s : string) : bool :=
  match bytes s with
  | a :: l =>
      byte_in 97 122 a &&
      forallb (fun b => byte_in 97 122 b || is_digit b || one_of (bytes "_.-") b) l
  | [] => false
  end%bool.
(** [^CTX_[1-9][0-9]{0,5}$] *)
Definition candidate_id_matches (s : string) : bool :=
  let l := bytes s in
  (starts_with (bytes "CTX_") l && at_ l 4 (byte_in 49 57) && forallb is_digit (drop 5 l) &&
   bool_decide (length l <= 10)%nat)%bool.

Definition validateContextExactInstruction (value : string) : result unit :=
  reject "context sieve requires one non-blank exact instruction" when blank value;
  reject "context sieve exact instruction is not valid UTF-8" when negb (valid_utf8 value);
  reject "context sieve exact instruction contains NUL" when contains_nul value;
  Ok tt.
Definition validateContextCandidateText (value : string) : result unit :=
  reject "%s must be non-blank exact text" when blank value;
  reject "%s is not valid UTF-8" when negb (valid_utf8 value);
  reject "%s contains NUL" when contains_nul value;
  Ok tt.
Definition validateContextText (value : string) : result unit :=
  reject "%s must be non-empty trimmed text" when ((value == "") || (value != trim_space value))%bool;
  reject "%s is not valid UTF-8" when negb (valid_utf8 value);
  reject "%s contains NUL" when contains_nul value;
  Ok tt.

Definition candidate_step (st : gset string * gset string) (authority : ContextCandidateAuthority)
    : result (gset string * gset string) :=
  let '(seenIDs, seenContent) := st in
  reject "%s candidate %d has invalid namespace %q" when negb (namespace_matches (ca_Namespace authority));
  reject "%s candidate %d has invalid opaque ID %q" when negb (candidate_id_matches (ca_CandidateID authority));
  reject "%s candidate ID %q is duplicated" when bool_decide (ca_CandidateID authority ∈ seenIDs);
  check validateContextCandidateText (ca_Content authority);
  reject "%s candidate %s duplicates exact candidate content" when
    (bool_decide (ca_Content authority ∈ seenContent) &&
     negb (has_prefix (ca_Namespace authority) "session_"))%bool;
  Ok ({[ ca_CandidateID authority ]} ∪ seenIDs, {[ ca_Content authority ]} ∪ seenContent).
(** The size total the code adds up is not compared with anything. *)
Definition validateContextCandidateAuthorities (authorities : list ContextCandidateAuthority) : result unit :=
  reject "%s requires 1..%d candidate authorities" when (authorities == []);
  check loop candidate_step (∅, ∅) authorities;
  Ok tt.

Definition NewContextCandidateAuthority (namespace candidateID content : string)
    : result ContextCandidateAuthority :=
  let authority := mkAuthority namespace candidateID content in
  check validateContextCandidateAuthorities [authority];
  Ok authority.

Definition validateContextArtifactProvenance (paths : slice string) : result ArtifactIdentityProvenance :=
  match paths with
  | None => Err "%s requires explicit current-artifact provenance, including an empty set"
  | Some paths => NewArtifactIdentityProvenance (bytes <$> paths)
  end.

(** *** Relevance of one candidate *)

Record ContextRelevanceRelationInput := mkRelevanceInput {
  cr_ExactInstruction : string; cr_Candidate : ContextCandidateAuthority;
  cr_Scope : string; cr_KnownArtifactPaths : slice string }.
Record ContextRelevanceRelationResult := mkRelevanceResult { cr_Schema : string; cr_Relation : string }.

Definition validate_relevance_input (input : ContextRelevanceRelationInput) : result unit :=
  check validate_scope (cr_Scope input);
  check validateContextExactInstruction (cr_ExactInstruction input);
  check validateContextArtifactProvenance (cr_KnownArtifactPaths input);
  validateContextCandidateAuthorities [cr_Candidate input].
Definition validate_relevance_for (answer : ContextRelevanceRelationResult)
    (input : ContextRelevanceRelationInput) : result unit :=
  check validate_relevance_input input;
  reject "context relevance relation schema must be %q" when
    (cr_Schema answer != ContextRelevanceRelationSchemaV1);
  reject "context relevance relation %q is not registered" when
    negb ((cr_Relation answer == ContextCandidateDirectlyRelevant) ||
          (cr_Relation answer == ContextCandidateNotDirectlyRelevant))%bool;
  Ok tt.

(** *** Minification of a group *)

Record ContextMinificationInput := mkMinificationInput {
  cm_ExactInstruction : string; cm_SelectedAuthorities : list ContextCandidateAuthority;
  cm_Scope : string; cm_KnownArtifactPaths : slice string }.
Record ContextMinificationDecision := mkDecision { cm_Schema : string; cm_MinimalContext : string }.

Definition validate_minification_input (input : ContextMinificationInput) : result unit :=
  check validate_scope (cm_Scope input);
  check validateContextExactInstruction (cm_ExactInstruction input);
  check validateContextArtifactProvenance (cm_KnownArtifactPaths input);
  validateContextCandidateAuthorities (cm_SelectedAuthorities input).
Definition ValidateMinifiedContextText (value : string) (provenance : ArtifactIdentityProvenance) : result unit :=
  check validateContextText value;
  reject "minimal context exposes known artifact identity %q" when
    bool_decide (0 < length (ProvenArtifactIdentities (bytes value) provenance))%nat;
  Ok tt.
Definition validate_minification_for (decision : ContextMinificationDecision)
    (input : ContextMinificationInput) : result unit :=
  check validate_minification_input input;
  reject "context minification schema must be %q" when (cm_Schema decision != ContextMinificationSchemaV1);
  let? provenance := validateContextArtifactProvenance (cm_KnownArtifactPaths input) in
  ValidateMinifiedContextText (cm_MinimalContext decision) provenance.

(** *** The objective context *)

Record ObjectiveReplanAuthority := mkReplan { or_JobID : Z; or_Generation : Z; or_Feedback : string }.
Record ObjectiveContextSource := mkSource { os_Namespace : string; os_CandidateID : string }.
Record ObjectiveContextCapsule := mkCapsule { oc_Sources : list ObjectiveContextSource; oc_Content : string }.
Record ObjectiveContext := mkContext {
  ox_Capsules : slice ObjectiveContextCapsule; ox_ReplanAuthority : option ObjectiveReplanAuthority }.

Definition validateObjectiveContextText (value : string) : result unit :=
  reject "objective %s must be exact non-blank UTF-8 text without NUL" when
    (blank value || negb (valid_utf8 value) || contains_nul value)%bool;
  Ok tt.
Definition source_step (seen : gset string) (source : ObjectiveContextSource) : result (gset string) :=
  reject "objective context capsule %d source %d has invalid namespace" when
    negb (namespace_matches (os_Namespace source));
  reject "objective context capsule %d source %d has invalid candidate ID" when
    negb (candidate_id_matches (os_CandidateID source));
  reject "objective context source %q is duplicated" when bool_decide (os_CandidateID source ∈ seen);
  Ok ({[ os_CandidateID source ]} ∪ seen).
Definition capsule_step (seen : gset string) (capsule : ObjectiveContextCapsule) : result (gset string) :=
  reject "objective context capsule %d requires exact sources" when (oc_Sources capsule == []);
  let? seen := loop source_step seen (oc_Sources capsule) in
  check validateObjectiveContextText (oc_Content capsule);
  Ok seen.
Definition validate_replan (replan : ObjectiveReplanAuthority) : result unit :=
  reject "objective replan authority requires one same-job generation after the initial generation" when
    ((or_JobID replan <? 1) || (or_Generation replan <? 2))%bool;
  validateObjectiveContextText (or_Feedback replan).
Definition validate_context (context : ObjectiveContext) : result unit :=
  check loop capsule_step ∅ (elems (ox_Capsules context));
  match ox_ReplanAuthority context with
  | Some replan => validate_replan replan
  | None => Ok tt
  end.

(** ** Requests and candidate sets *)

Definition SearchUnavailable : string := "unavailable".
Definition SearchAvailable : string := "available".
Definition validate_availability (availability : string) : result unit :=
  reject "context search availability %q is invalid" when
    negb ((availability == SearchUnavailable) || (availability == SearchAvailable))%bool;
  Ok tt.
Record RetrievalDirective := mkDirective { rd_Availability : string }.
Record Request := mkRequest {
  rq_ExactInstruction : string; rq_ModelInstruction : string;
  rq_Retrieval : option RetrievalDirective; rq_Scope : string;
  rq_KnownArtifactPaths : slice string }.
Record OptionalSelectionGroup := mkGroup { og_CandidateIDs : list string }.
Record CandidateSet := mkSet {
  cs_Required : list ContextCandidateAuthority;
  cs_Optional : list ContextCandidateAuthority;
  cs_OptionalSelectionGroups : list OptionalSelectionGroup;
  cs_Replan : option ObjectiveReplanAuthority;
  cs_ReplanRepresentedByRequiredContext : bool }.
Record Result := mkResult { rs_Context : ObjectiveContext; rs_ModelCalls : Z }.

Definition validateRetrievalAuthority (exactInstruction scope : string) : result unit :=
  check validate_scope scope;
  reject "context retrieval requires one non-blank exact instruction" when blank exactInstruction;
  reject "context retrieval exact instruction is not valid UTF-8" when negb (valid_utf8 exactInstruction);
  reject "context retrieval exact instruction contains NUL" when contains_nul exactInstruction;
  Ok tt.
Definition retrievalQueries (exactInstruction scope : string) (directive : RetrievalDirective)
    : result (list string) :=
  check validateRetrievalAuthority exactInstruction scope;
  check validate_availability (rd_Availability directive);
  if rd_Availability directive == SearchUnavailable then Ok [] else Ok [exactInstruction].

(** *** Selection groups *)

Definition member_step (requiredIDs : gset string) (optionalMembers : gmap string (nat * string))
    (groupedIDs : gset string) (st : gset string * option (nat * string)) (candidateID : string)
    : result (gset string * option (nat * string)) :=
  let '(seenInGroup, previous) := st in
  reject "optional selection group %d duplicates candidate ID %q" when bool_decide (candidateID ∈ seenInGroup);
  reject "optional selection groups %d and %d overlap at candidate ID %q" when bool_decide (candidateID ∈ groupedIDs);
  reject "optional selection group %d contains required candidate ID %q" when bool_decide (candidateID ∈ requiredIDs);
  match optionalMembers !! candidateID with
  | None => Err "optional selection group %d contains unknown candidate ID %q"
  | Some member =>
      match previous with
      | None => Ok ({[ candidateID ]} ∪ seenInGroup, Some member)
      | Some (previousIndex, namespace) =>
          reject "optional selection group %d crosses candidate namespaces" when (member.2 != namespace);
          reject "optional selection group %d is not contiguous in optional authority order" when
            negb (bool_decide (member.1 = S previousIndex));
          Ok ({[ candidateID ]} ∪ seenInGroup, Some (member.1, namespace))
      end
  end.
Definition group_step (requiredIDs : gset string) (optionalMembers : gmap string (nat * string))
    (groupedIDs : gset string) (group : OptionalSelectionGroup) : result (gset string) :=
  reject "optional selection group %d requires at least two candidate IDs" when
    bool_decide (length (og_CandidateIDs group) < 2)%nat;
  check loop (member_step requiredIDs optionalMembers groupedIDs) (∅, None) (og_CandidateIDs group);
  Ok (list_to_set (og_CandidateIDs group) ∪ groupedIDs).
(** Later entries of [optionalMembers] overwrite earlier ones. *)
Definition optional_members (optional : list ContextCandidateAuthority) : gmap string (nat * string) :=
  foldl (fun m '(i, a) => <[ca_CandidateID a := (i, ca_Namespace a)]> m) ∅ (imap pair optional).
Definition validateOptionalSelectionGroups (set : CandidateSet) : result unit :=
  if bool_decide (length (cs_OptionalSelectionGroups set) = 0%nat) then Ok tt else
  check loop (group_step (list_to_set (ca_CandidateID <$> cs_Required set))
                         (optional_members (cs_Optional set))) ∅ (cs_OptionalSelectionGroups set);
  Ok tt.

(** *** Candidate sets *)

Record set_state := mkSetState {
  ss_seenIDs : gset string; ss_seenContent : gset string;
  ss_replanCandidates : Z; ss_requiredSessionRedirects : Z }.
Definition set_step (set : CandidateSet) (st : set_state) (entry : nat * ContextCandidateAuthority)
    : result set_state :=
  let '(index, authority) := entry in
  let required := bool_decide (index < length (cs_Required set))%nat in
  check NewContextCandidateAuthority (ca_Namespace authority) (ca_CandidateID authority) (ca_Content authority);
  reject "context candidate ID %q is duplicated across provider sets" when
    bool_decide (ca_CandidateID authority ∈ ss_seenIDs st);
  reject "context candidate %q duplicates exact provider content" when
    (bool_decide (ca_Content authority ∈ ss_seenContent st) &&
     negb (required && has_prefix (ca_Namespace authority) "session_"))%bool;
  let replan := ca_Namespace authority == "objective_replan" in
  reject "objective replan context must be required" when (replan && negb required)%bool;
  reject "objective replan candidate differs from exact replan authority" when
    (replan && match cs_Replan set with
               | None => true
               | Some r => ca_Content authority != or_Feedback r
               end)%bool;
  Ok (mkSetState ({[ ca_CandidateID authority ]} ∪ ss_seenIDs st)
        ({[ ca_Content authority ]} ∪ ss_seenContent st)
        (if replan then ss_replanCandidates st + 1 else ss_replanCandidates st)
        (if (required && (ca_Namespace authority == "session_redirect"))%bool
         then ss_requiredSessionRedirects st + 1 else ss_requiredSessionRedirects st)).

Definition optional_not_session (authority : ContextCandidateAuthority) : result unit :=
  reject "same-session authority must be required context" when has_prefix (ca_Namespace authority) "session_";
  Ok tt.

Definition validateCandidateSet (set : CandidateSet) : result unit :=
  let? st := loop (set_step set) (mkSetState ∅ ∅ 0 0) (imap pair (cs_Required set ++ cs_Optional set)) in
  let replan := bool_decide (is_Some (cs_Replan set)) in
  let represented := cs_ReplanRepresentedByRequiredContext set in
  reject "session-bound replan authority requires redirect context without a duplicate raw candidate" when
    (replan && represented &&
     (negb (ss_replanCandidates st =? 0) || (ss_requiredSessionRedirects st <? 1)))%bool;
  reject "objective replan authority requires exactly one required context candidate" when
    (replan && negb represented && negb (ss_replanCandidates st =? 1))%bool;
  reject "objective replan candidate has no exact replan authority" when
    (negb replan && negb (ss_replanCandidates st =? 0))%bool;
  reject "required context cannot represent an absent objective replan authority" when
    (negb replan && represented)%bool;
  check for_each optional_not_session (cs_Optional set);
  check validateOptionalSelectionGroups set;
  validate_context (mkContext (Some []) (cs_Replan set)).

(** *** Expanding a selection to whole groups *)

Definition selectedInAuthorityOrder (authorities : list ContextCandidateAuthority) (requested : gset string)
    : list ContextCandidateAuthority :=
  filter (fun authority => ca_CandidateID authority ∈ requested) authorities.
Definition expand_group (selectedIDs : gset string) (group : OptionalSelectionGroup) : gset string :=
  if existsb (fun candidateID => bool_decide (candidateID ∈ selectedIDs)) (og_CandidateIDs group)
  then list_to_set (og_CandidateIDs group) ∪ selectedIDs else selectedIDs.
Definition expandOptionalSelectionGroups (authorities selected : list ContextCandidateAuthority)
    (groups : list OptionalSelectionGroup) : list ContextCandidateAuthority :=
  selectedInAuthorityOrder authorities
    (foldl expand_group (list_to_set (ca_CandidateID <$> selected)) groups).

(** *** Partitioning *)

Definition contextAuthorityProjectionBytes (authority : ContextCandidateAuthority) : Z :=
  Z.of_nat (String.length (ca_Namespace authority)) + Z.of_nat (String.length (ca_CandidateID authority)) +
  Z.of_nat (String.length (ca_Content authority)).
Record partition_state := mkPartition {
  pt_groups : list (list ContextCandidateAuthority);
  pt_current : list ContextCandidateAuthority;
  pt_currentBytes : Z }.
Definition partition_step (maximumCount maximumBytes : Z) (st : partition_state)
    (authority : ContextCandidateAuthority) : partition_state :=
  let entryBytes := contextAuthorityProjectionBytes authority in
  let st :=
    if (negb (bool_decide (length (pt_current st) = 0%nat)) &&
        ((Z.of_nat (length (pt_current st)) =? maximumCount) ||
         (maximumBytes <? pt_currentBytes st + entryBytes)))%bool
    then mkPartition (pt_groups st ++ [pt_current st]) [] 0 else st in
  mkPartition (pt_groups st) (pt_current st ++ [authority]) (pt_currentBytes st + entryBytes).
Definition partitionContextAuthorities (authorities : list ContextCandidateAuthority)
    (maximumCount maximumBytes : Z) : result (list (list ContextCandidateAuthority)) :=
  reject "context partition requires positive count and byte budgets" when
    ((maximumCount <? 1) || (maximumBytes <? 1))%bool;
  let st := foldl (partition_step maximumCount maximumBytes) (mkPartition [] [] 0) authorities in
  Ok (if bool_decide (length (pt_current st) = 0%nat) then pt_groups st else pt_groups st ++ [pt_current st]).

Definition newlines : string := String (byte 10) (String (byte 10) "").
Definition join_contents (contents : list string) : string := String.concat newlines contents.
Definition joinAuthorityContent (authorities : list ContextCandidateAuthority) : string :=
  join_contents (ca_Content <$> authorities).
Definition fits (content : string) : bool :=
  Z.of_nat (String.length content) <=? ContextMinificationThresholdBytes.

Definition validateCallCount (calls : Z) : result unit :=
  reject "%s reported %d calls outside 0..%d" when ((calls <? 0) || (ExactSemanticLeafCalls <? calls))%bool;
  Ok tt.

(** ** Compilation

    A station answers with a value, the number of provider calls it made and
    possibly an error.  Integers that add up reported calls are Go [int]s. *)
Section compiler.
Context {W : Type}.

(** [Context.Err()] *)
Definition Context_ : Type := W -> option string.
Record CandidateProvider := mkProvider {
  cp_SearchAvailability : W -> W * result string;
  cp_Retrieve : list string -> W -> W * result CandidateSet }.
Definition RelevanceStation : Type :=
  ContextRelevanceRelationInput -> W -> W * (ContextRelevanceRelationResult * Z * option string).
Definition MinificationStation : Type :=
  ContextMinificationInput -> W -> W * (ContextMinificationDecision * Z * option string).
Record Stations := mkStations {
  st_Relevance : option RelevanceStation;
  st_Minification : option MinificationStation }.

Section authorities.
Context (modelInstruction scope : string) (knownArtifactPaths : list string).

Definition relevance_input (candidate : ContextCandidateAuthority) : ContextRelevanceRelationInput :=
  mkRelevanceInput modelInstruction candidate scope (Some knownArtifactPaths).
Definition minification_input (group : list ContextCandidateAuthority) : ContextMinificationInput :=
  mkMinificationInput modelInstruction group scope (Some knownArtifactPaths).

(** The results are the calls counted so far and the value or the error.  Encoding
    a job is [json.Marshal] of a structure of strings, which cannot fail. *)
Fixpoint relate_loop (station : RelevanceStation) (authorities selected : list ContextCandidateAuthority)
    (calls : Z) (w : W) : W * (Z * result (list ContextCandidateAuthority)) :=
  match authorities with
  | [] => (w, (calls, Ok selected))
  | candidate :: rest =>
      let input := relevance_input candidate in
      let '(w, (relation, leafCalls, err)) := station input w in
      let calls := wrap64 (calls + leafCalls) in
      match err with
      | Some e => (w, (calls, Err e))
      | None =>
          match validateCallCount leafCalls, validate_relevance_for relation input with
          | Err e, _ => (w, (calls, Err e))
          | _, Err e => (w, (calls, Err e))
          | Ok _, Ok _ =>
              relate_loop station rest
                (if cr_Relation relation == ContextCandidateDirectlyRelevant
                 then selected ++ [candidate] else selected) calls w
          end
      end
  end.
Definition selectRelevantAuthorities (authorities : list ContextCandidateAuthority)
    (station : option RelevanceStation) (w : W) : W * (Z * result (list ContextCandidateAuthority)) :=
  if bool_decide (length authorities = 0%nat) then (w, (0, Ok [])) else
  match station with
  | None => (w, (0, Err "context relevance remains unresolved but the station is unavailable"))
  | Some station => relate_loop station authorities [] 0 w
  end.

(** The content of one group: as it is, or minified. *)
Definition group_content (station : MinificationStation) (group : list ContextCandidateAuthority)
    (totalCalls : Z) (w : W) : W * (Z * result string) :=
  if bool_decide (1 < length group)%nat then
    let input := minification_input group in
    let '(w, (decision, leafCalls, err)) := station input w in
    let totalCalls := wrap64 (totalCalls + leafCalls) in
    match err with
    | Some e => (w, (totalCalls, Err e))
    | None =>
        match validateCallCount leafCalls, validate_minification_for decision input with
        | Err e, _ => (w, (totalCalls, Err e))
        | _, Err e => (w, (totalCalls, Err e))
        | Ok _, Ok _ => (w, (totalCalls, Ok (cm_MinimalContext decision)))
        end
    end
  else (w, (totalCalls, Ok (joinAuthorityContent group))).
Fixpoint reduce_loop (station : MinificationStation) (groups : list (list ContextCandidateAuthority))
    (contents : list string) (seenContent : gset string) (totalCalls : Z) (w : W)
    : W * (Z * result string) :=
  match groups with
  | [] => (w, (totalCalls, Ok (join_contents contents)))
  | group :: rest =>
      let pending := join_contents (contents ++ (joinAuthorityContent <$> groups)) in
      if fits pending then (w, (totalCalls, Ok pending)) else
      let '(w, (totalCalls, content)) := group_content station group totalCalls w in
      match content with
      | Err e => (w, (totalCalls, Err e))
      | Ok content =>
          if bool_decide (content ∈ seenContent)
          then reduce_loop station rest contents seenContent totalCalls w
          else reduce_loop station rest (contents ++ [content]) ({[ content ]} ∪ seenContent) totalCalls w
      end
  end.
Definition reduceSelectedAuthorities (selected : list ContextCandidateAuthority)
    (station : option MinificationStation) (w : W) : W * (Z * result string) :=
  let verbatim := joinAuthorityContent selected in
  if fits verbatim then (w, (0, Ok verbatim)) else
  match station with
  | None => (w, (0, Err "context exceeds the verbatim target but the minification station is unavailable"))
  | Some station =>
      match partitionContextAuthorities selected MaxContextMinificationAuthorities
              MaxContextMinificationProjectionBytes with
      | Err e => (w, (0, Err e))
      | Ok groups => reduce_loop station groups [] ∅ 0 w
      end
  end.
End authorities.

Definition ReduceRelevant (instruction : string) (selected : list ContextCandidateAuthority)
    (station : option MinificationStation) (w : W) : W * result string :=
  let '(w, (_, content)) := reduceSelectedAuthorities instruction "" [] selected station w in (w, content).

Definition ResolveRetrievalDirective (ctx : option Context_) (exactInstruction scope availability : string)
    (w : W) : result RetrievalDirective :=
  match ctx with
  | None => Err "context retrieval resolution requires a context"
  | Some ctx =>
      match ctx w with
      | Some e => Err e
      | None =>
          check validateRetrievalAuthority exactInstruction scope;
          check validate_availability availability;
          Ok (mkDirective availability)
      end
  end.

(** The directive of the request, or the provider's fixed availability. *)
Definition retrieval_directive (ctx : Context_) (request : Request) (provider : CandidateProvider) (w : W)
    : W * result RetrievalDirective :=
  match rq_Retrieval request with
  | Some directive => (w, Ok directive)
  | None =>
      let '(w, availability) := cp_SearchAvailability provider w in
      (w, let? availability := availability in
          ResolveRetrievalDirective (Some ctx) (rq_ExactInstruction request) (rq_Scope request) availability w)
  end.

(** The checks before anything is retrieved. *)
Definition validate_request (request : Request) : result unit :=
  match rq_KnownArtifactPaths request with
  | None => Err "context compilation requires explicit current-artifact provenance, including an empty set"
  | Some paths =>
      let? provenance := NewArtifactIdentityProvenance (bytes <$> paths) in
      check validateRetrievalAuthority (rq_ExactInstruction request) (rq_Scope request);
      check validateRetrievalAuthority (rq_ModelInstruction request) (rq_Scope request);
      ValidatePathFreeModelContextWithProvenance provenance [bytes (rq_ModelInstruction request)]
  end.

(** The candidate set, retrieved and validated. *)
Definition retrieve_candidates (ctx : Context_) (request : Request) (provider : CandidateProvider) (w : W)
    : W * result CandidateSet :=
  let '(w, directive) := retrieval_directive ctx request provider w in
  match (let? directive := directive in
         retrievalQueries (rq_ExactInstruction request) (rq_Scope request) directive) with
  | Err e => (w, Err e)
  | Ok queries =>
      let '(w, set) := cp_Retrieve provider queries w in
      (w, let? set := set in
          match ctx w with
          | Some e => Err e
          | None => check validateCandidateSet set; Ok set
          end)
  end.

(** The selected candidates: the required ones and the relevant optional ones. *)
Definition select_candidates (request : Request) (set : CandidateSet) (stations : Stations) (w : W)
    : W * (Z * result (list ContextCandidateAuthority)) :=
  if bool_decide (0 < length (cs_Optional set))%nat then
    let '(w, (calls, optional)) :=
      selectRelevantAuthorities (rq_ModelInstruction request) (rq_Scope request)
        (elems (rq_KnownArtifactPaths request)) (cs_Optional set) (st_Relevance stations) w in
    (w, (calls, let? optional := optional in
                Ok (cs_Required set ++
                    expandOptionalSelectionGroups (cs_Optional set) optional (cs_OptionalSelectionGroups set))))
  else (w, (0, Ok (cs_Required set))).

Definition source_of (authority : ContextCandidateAuthority) : ObjectiveContextSource :=
  mkSource (ca_Namespace authority) (ca_CandidateID authority).

(** [Compile] returns a result together with an error, as the code does. *)
Definition Compile (ctx : option Context_) (request : Request) (provider : option CandidateProvider)
    (stations : Stations) (w : W) : W * (Result * option string) :=
  let empty := mkResult (mkContext (Some []) None) 0 in
  match ctx with
  | None => (w, (empty, Some "context compilation requires a context"))
  | Some ctx =>
  match ctx w with
  | Some e => (w, (empty, Some e))
  | None =>
  match provider with
  | None => (w, (empty, Some "context compilation requires fixed retrieval authority"))
  | Some provider =>
  match validate_request request with
  | Err e => (w, (empty, Some e))
  | Ok _ =>
  let '(w, set) := retrieve_candidates ctx request provider w in
  match set with
  | Err e => (w, (empty, Some e))
  | Ok set =>
  let context := mkContext (Some []) (cs_Replan set) in
  let '(w, (calls, selected)) := select_candidates request set stations w in
  match selected with
  | Err e => (w, (mkResult context calls, Some e))
  | Ok selected =>
  if bool_decide (length selected = 0%nat) then
    (w, (mkResult context calls, match validate_context context with Err e => Some e | Ok _ => None end))
  else
  let '(w, (minificationCalls, content)) :=
    reduceSelectedAuthorities (rq_ModelInstruction request) (rq_Scope request)
      (elems (rq_KnownArtifactPaths request)) selected (st_Minification stations) w in
  let calls := wrap64 (calls + minificationCalls) in
  match content with
  | Err e => (w, (mkResult context calls, Some e))
  | Ok content =>
  let context := mkContext (Some [mkCapsule (source_of <$> selected) content]) (cs_Replan set) in
  match validate_context context with
  | Err e => (w, (mkResult (mkContext None None) 0, Some e))
  | Ok _ => (w, (mkResult context calls, None))
  end end end end end end end end.
End compiler.
Arguments CandidateProvider : clear implicits.
Arguments Stations : clear implicits.
