(* ===== verification/ContextSpec.v ===== *)
(** * The context compiler: the theorems

    Partitioning is greedy and loses nothing; a selection is closed under its
    groups; a compiled context names exactly the selected sources; what the
    content consists of; call counts; errors carry no content. *)
From Stdlib Require Import Ascii.
From S2P Require Import Prelude Schema SchemaFacts PathIdentity PathFacts PathSpec ContextCompiler.
From stdpp Require Import sorting base tactics strings list gmap numbers pretty.
From stdpp Require Import list options.
Open Scope Z_scope.
Open Scope go_scope.

(** ** Partitioning *)

Definition group_bytes (g : list ContextCandidateAuthority) : Z :=
  foldr (fun a n => contextAuthorityProjectionBytes a + n) 0 g.
(** A group is within its budgets, one oversized candidate excepted. *)
Definition within (maximumCount maximumBytes : Z) (g : list ContextCandidateAuthority) : Prop :=
  g <> [] /\ Z.of_nat (length g) <= maximumCount /\ (group_bytes g <= maximumBytes \/ length g = 1%nat).
(** The next candidate does not fit any more. *)
Definition full (maximumCount maximumBytes : Z) (g h : list ContextCandidateAuthority) : Prop :=
  exists a, head h = Some a /\
    (Z.of_nat (length g) = maximumCount \/ maximumBytes < group_bytes g + contextAuthorityProjectionBytes a).
Definition greedy (maximumCount maximumBytes : Z) (groups : list (list ContextCandidateAuthority)) : Prop :=
  forall i g h, groups !! i = Some g -> groups !! S i = Some h -> full maximumCount maximumBytes g h.

Lemma group_bytes_snoc g a : group_bytes (g ++ [a]) = group_bytes g + contextAuthorityProjectionBytes a.
Proof. unfold group_bytes. induction g as [|b g IH]; simpl; [lia|]. rewrite IH. lia. Qed.
Lemma greedy_last mc mb gs g h :
  greedy mc mb (gs ++ [g]) -> full mc mb g h -> greedy mc mb ((gs ++ [g]) ++ [h]).
Proof.
  intros Hg Hf i x y Hx Hy. apply lookup_app_Some in Hy as [Hy|[Hge Hy]].
  - apply (Hg i); [|done]. rewrite lookup_app_l in Hx; [done|]. apply lookup_lt_Some in Hy. lia.
  - apply list_lookup_singleton_Some in Hy as [Hi <-].
    assert (i = length gs) as -> by (rewrite length_app in Hge, Hi; simpl in *; lia).
    rewrite lookup_app_l in Hx by (rewrite length_app; simpl; lia).
    rewrite list_lookup_middle in Hx by done. by injection Hx as <-.
Qed.
Lemma greedy_grow mc mb gs g a :
  g <> [] -> greedy mc mb (gs ++ [g]) -> greedy mc mb (gs ++ [g ++ [a]]).
Proof.
  intros Hne Hg i x y Hx Hy. apply lookup_app_Some in Hy as [Hy|[Hge Hy]].
  - apply lookup_lt_Some in Hy as Hlt. rewrite lookup_app_l in Hx by lia.
    apply (Hg i); [by rewrite lookup_app_l by lia|by rewrite lookup_app_l].
  - apply list_lookup_singleton_Some in Hy as [Hi <-]. rewrite lookup_app_l in Hx by lia.
    assert (full mc mb x g) as (b & Hb & Hf).
    { apply (Hg i); [by rewrite lookup_app_l by lia|]. rewrite lookup_app_r by lia. by rewrite Hi. }
    exists b. split; [|done]. by destruct g.
Qed.

(** What the loop has built of [seen]. *)
Definition partitioned (mc mb : Z) (seen : list ContextCandidateAuthority) (st : partition_state) : Prop :=
  pt_currentBytes st = group_bytes (pt_current st) /\
  (seen = [] /\ st = mkPartition [] [] 0 \/
   pt_current st <> [] /\ concat (pt_groups st ++ [pt_current st]) = seen /\
   Forall (within mc mb) (pt_groups st ++ [pt_current st]) /\
   greedy mc mb (pt_groups st ++ [pt_current st])).

Lemma partition_step_inv mc mb seen st a :
  1 <= mc -> 1 <= mb -> partitioned mc mb seen st ->
  partitioned mc mb (seen ++ [a]) (partition_step mc mb st a).
Proof.
  intros Hmc Hmb [Hb Hst]. unfold partition_step.
  destruct Hst as [[-> ->]|(Hne & Hc & Hf & Hg)].
  - cbn. split; [unfold group_bytes; simpl; lia|]. right. split_and!; [done|done| |].
    + constructor; [|done]. split_and!; [done|simpl; lia|by right].
    + intros [|i] g h Hi Hh; [done|]. by destruct i.
  - rewrite (bool_decide_false (length (pt_current st) = 0%nat))
      by (intros E; by apply nil_length_inv in E). cbn [negb andb].
    destruct ((_ =? mc) || _)%bool eqn:Hcut; unfold partitioned; cbn [pt_groups pt_current pt_currentBytes].
    + split; [unfold group_bytes; simpl; lia|]. right. split_and!; [done| | |].
      * rewrite concat_app, Hc. done.
      * apply Forall_app. split; [done|]. constructor; [|done]. split_and!; [done|simpl; lia|by right].
      * apply greedy_last; [done|]. exists a. split; [done|].
        apply orb_true_iff in Hcut as [Hcut|Hcut]; [left; lia|right]. apply Z.ltb_lt in Hcut. lia.
    + apply orb_false_iff in Hcut as [H1 H2]. apply Z.eqb_neq in H1. apply Z.ltb_ge in H2.
      split; [by rewrite group_bytes_snoc, Hb|]. right. split_and!.
      * by destruct (pt_current st).
      * rewrite concat_app in Hc |- *. rewrite <- Hc. simpl. rewrite !app_nil_r. by rewrite app_assoc.
      * apply Forall_app in Hf as [Hf Hl]. apply Forall_app. split; [done|]. constructor; [|done].
        apply Forall_cons in Hl as [(_ & Hlen & _) _].
        split_and!; [by destruct (pt_current st)|rewrite length_app; simpl; lia|].
        left. rewrite group_bytes_snoc. lia.
      * by apply greedy_grow.
Qed.

Lemma partition_ok authorities mc mb groups :
  partitionContextAuthorities authorities mc mb = Ok groups ->
  concat groups = authorities /\ Forall (within mc mb) groups /\ greedy mc mb groups.
Proof.
  unfold partitionContextAuthorities. intros H. split_ok H. reflect.
  assert (forall l seen st, partitioned mc mb seen st ->
    partitioned mc mb (seen ++ l) (foldl (partition_step mc mb) st l)) as Hfold.
  { induction l as [|a l IH]; intros seen st Hst; [by rewrite app_nil_r|]. cbn [foldl].
    rewrite cons_middle, app_assoc. apply IH. apply partition_step_inv; [lia|lia|done]. }
  destruct (Hfold authorities [] (mkPartition [] [] 0)) as [_ Hst]; [split; [done|by left]|].
  simpl app in Hst. set (st := foldl _ _ _) in *.
  destruct Hst as [[-> E]|(Hne & Hc & Hf & Hg)].
  - rewrite E in H. cbn in H. subst groups. by split_and!.
  - rewrite bool_decide_false in H by (intros E; by apply nil_length_inv in E). by subst groups.
Qed.

(** Partitioning succeeds exactly for positive budgets; the groups, in order,
    are the candidates; every group is non-empty and within the count and byte
    budgets unless it is one oversized candidate; and no group could have taken
    the candidate that starts the next one. *)
Theorem partition_greedy authorities maximumCount maximumBytes :
  (1 <= maximumCount -> 1 <= maximumBytes -> exists groups,
    partitionContextAuthorities authorities maximumCount maximumBytes = Ok groups) /\
  (forall groups, partitionContextAuthorities authorities maximumCount maximumBytes = Ok groups ->
    1 <= maximumCount /\ 1 <= maximumBytes /\ concat groups = authorities /\
    Forall (within maximumCount maximumBytes) groups /\ greedy maximumCount maximumBytes groups).
Proof.
  split.
  - intros H1 H2. unfold partitionContextAuthorities.
    assert (maximumCount <? 1 = false) as -> by lia. assert (maximumBytes <? 1 = false) as -> by lia. by eexists.
  - intros groups H. pose proof (partition_ok _ _ _ _ H) as (Hc & Hf & Hg).
    unfold partitionContextAuthorities in H. split_ok H. reflect. split_and!; [lia|lia|done..].
Qed.

(** ** Selection groups *)

Definition group_ids (g : OptionalSelectionGroup) : list string := og_CandidateIDs g.
Definition disjoint_groups (g h : OptionalSelectionGroup) : Prop :=
  forall id, id ∈ group_ids g -> id ∉ group_ids h.

Section groups.
Context (requiredIDs : gset string) (members : gmap string (nat * string)).

Lemma member_loop grouped ids seen prev st :
  loop (member_step requiredIDs members grouped) (seen, prev) ids = Ok st ->
  Forall (fun id => id ∉ grouped) ids /\
  exists start ns, (forall p, prev = Some p -> start = S p.1 /\ ns = p.2) /\
    forall k id, ids !! k = Some id -> members !! id = Some ((start + k)%nat, ns).
Proof.
  revert seen prev. induction ids as [|id ids IH]; intros seen prev H.
  { split; [done|]. destruct prev as [[p ns]|]; [exists (S p), ns|exists 0%nat, ""]; (split; [naive_solver|done]). }
  cbn [loop] in H. unfold member_step at 1 in H.
  destruct (bool_decide (id ∈ seen)); [done|]. destruct (bool_decide (id ∈ grouped)) eqn:Hg; [done|].
  destruct (bool_decide (id ∈ requiredIDs)); [done|]. apply bool_decide_eq_false in Hg.
  destruct (members !! id) as [[i ns]|] eqn:Hm; [|done].
  assert (forall seen', loop (member_step requiredIDs members grouped) (seen', Some (i, ns)) ids = Ok st ->
    Forall (fun id => id ∉ grouped) (id :: ids) /\
    forall k id', (id :: ids) !! k = Some id' -> members !! id' = Some ((i + k)%nat, ns)) as Hrec.
  { intros seen' (Hf & start & ns' & Hp & Hk)%IH. destruct (Hp (i, ns) eq_refl) as [-> ->].
    split; [by constructor|]. intros [|k] id' E.
    - injection E as <-. by rewrite Nat.add_0_r.
    - replace (i + S k)%nat with (S i + k)%nat by lia. by apply Hk. }
  destruct prev as [[p pns]|].
  - destruct (negb _) eqn:Hns in H; [done|]. cbn [fst snd] in H.
    destruct (negb (bool_decide (i = S p))) eqn:Hi in H; [done|].
    apply negb_false_iff, bool_decide_eq_true in Hns, Hi. cbn in Hns. subst i ns.
    apply Hrec in H as [Hf Hk]. split; [done|]. exists (S p), pns. split; [by intros ? [= <-]|done].
  - apply Hrec in H as [Hf Hk]. split; [done|]. exists i, ns. by split.
Qed.

Lemma group_loop grouped groups grouped' :
  loop (group_step requiredIDs members) grouped groups = Ok grouped' ->
  ForallOrdPairs disjoint_groups groups /\
  Forall (fun g => Forall (fun id => id ∉ grouped) (group_ids g)) groups /\
  Forall (fun g => (2 <= length (group_ids g))%nat /\
    exists start ns, forall k id, group_ids g !! k = Some id -> members !! id = Some ((start + k)%nat, ns)) groups.
Proof.
  revert grouped. induction groups as [|g groups IH]; intros grouped H; [by repeat constructor|].
  cbn [loop] in H. unfold group_step at 1 in H.
  destruct (bool_decide (length _ < 2)%nat) eqn:Hlen; [done|]. apply bool_decide_eq_false in Hlen.
  destruct (loop (member_step _ _ _) _ _) as [st|] eqn:Hm; [|done].
  apply member_loop in Hm as (Hg & start & ns & _ & Hk).
  apply IH in H as (Hd & Hf & Hc). split_and!.
  - constructor; [|done]. eapply Forall_impl; [exact Hf|]. intros h Hh id Hin Hin'.
    rewrite Forall_forall in Hh. specialize (Hh id Hin'). unfold group_ids in *. set_solver.
  - constructor; [done|]. eapply Forall_impl; [exact Hf|]. intros h Hh. eapply Forall_impl; [exact Hh|].
    simpl. set_solver.
  - constructor; [|done]. unfold group_ids. split; [lia|]. by exists start, ns.
Qed.
End groups.

Lemma optional_members_spec optional id i ns :
  optional_members optional !! id = Some (i, ns) ->
  exists a, optional !! i = Some a /\ ca_CandidateID a = id /\ ca_Namespace a = ns.
Proof.
  unfold optional_members. induction optional as [|a l IH] using rev_ind; [done|].
  rewrite imap_app. cbn [imap]. rewrite foldl_app. cbn [foldl]. unfold compose. rewrite Nat.add_0_r.
  destruct (decide (id = ca_CandidateID a)) as [->|Hne].
  - rewrite lookup_insert_eq. intros [= <- <-]. exists a. by rewrite list_lookup_middle.
  - rewrite lookup_insert_ne by done. intros (b & Hb & ? & ?)%IH. exists b. split; [|done].
    by apply lookup_app_l_Some.
Qed.

(** Validated groups are disjoint runs of the optional candidates, each within
    one namespace. *)
Lemma validated_groups set :
  validateOptionalSelectionGroups set = Ok tt ->
  ForallOrdPairs disjoint_groups (cs_OptionalSelectionGroups set) /\
  Forall (fun g => (2 <= length (group_ids g))%nat /\ exists start ns, forall k id,
    group_ids g !! k = Some id -> exists a,
    cs_Optional set !! (start + k)%nat = Some a /\ ca_CandidateID a = id /\ ca_Namespace a = ns)
    (cs_OptionalSelectionGroups set).
Proof.
  unfold validateOptionalSelectionGroups. case_bool_decide as H0.
  { apply nil_length_inv in H0 as ->. by repeat constructor. }
  intros H. destruct (loop _ _ _) as [grouped|] eqn:Hl; [|done].
  apply group_loop in Hl as (Hd & _ & Hc). split; [done|]. eapply Forall_impl; [exact Hc|].
  intros g (Hlen & start & ns & Hk). split; [done|]. exists start, ns. intros k id Hid.
  by apply optional_members_spec, Hk.
Qed.

(** Selected itself, or in a group with a selected candidate. *)
Definition chosen (selectedIDs : gset string) (groups : list OptionalSelectionGroup) (id : string) : Prop :=
  id ∈ selectedIDs \/
  Exists (fun g => id ∈ group_ids g /\ Exists (fun j => j ∈ selectedIDs) (group_ids g)) groups.
#[global] Instance chosen_dec selectedIDs groups id : Decision (chosen selectedIDs groups id).
Proof. unfold chosen. apply _. Defined.

Lemma expand_group_spec selectedIDs g id :
  id ∈ expand_group selectedIDs g <-> chosen selectedIDs [g] id.
Proof.
  unfold expand_group, chosen. rewrite Exists_cons, Exists_nil. destruct (existsb _ _) eqn:E.
  - apply existsb_exists in E as (j & Hj & Hs). apply bool_decide_eq_true in Hs.
    assert (Exists (fun j => j ∈ selectedIDs) (group_ids g)) as Hex
      by (apply Exists_exists; exists j; by rewrite list_elem_of_In).
    unfold group_ids in *. set_solver.
  - split; [by left|]. intros [?|[[Hin Hex]|[]]]; [done|]. exfalso.
    apply Exists_exists in Hex as (j & Hj & Hs). apply list_elem_of_In in Hj.
    assert (existsb (fun candidateID => bool_decide (candidateID ∈ selectedIDs)) (og_CandidateIDs g) = true) as Ht
      by (apply existsb_exists; exists j; split; [done|by apply bool_decide_eq_true]).
    congruence.
Qed.
Lemma expand_groups_spec selectedIDs groups id :
  ForallOrdPairs disjoint_groups groups ->
  id ∈ foldl expand_group selectedIDs groups <-> chosen selectedIDs groups id.
Proof.
  intros Hd. revert selectedIDs. induction Hd as [|g groups Hg Hd IH]; intros S.
  { unfold chosen. rewrite Exists_nil. cbn. naive_solver. }
  cbn [foldl]. rewrite IH. unfold chosen at 1. rewrite expand_group_spec. unfold chosen.
  rewrite Exists_cons, Exists_cons, Exists_nil.
  assert (Exists (fun h => id ∈ group_ids h /\ Exists (fun j => j ∈ expand_group S g) (group_ids h)) groups <->
          Exists (fun h => id ∈ group_ids h /\ Exists (fun j => j ∈ S) (group_ids h)) groups) as ->; [|naive_solver].
  rewrite !Exists_exists. rewrite Forall_forall in Hg.
  split; intros (h & Hh & Hid & Hex); exists h; (split_and!; [done|done|]);
    apply Exists_exists in Hex as (j & Hj & HS); apply Exists_exists; exists j; (split; [done|]).
  - apply expand_group_spec in HS as [?|HS]; [done|].
    rewrite Exists_cons, Exists_nil in HS. destruct HS as [[Hjg _]|[]]. exfalso. by apply (Hg h Hh j).
  - apply expand_group_spec. by left.
Qed.

(** In a validated candidate set a selection expands to whole groups and no
    further: the result is the optional candidates, in their order, that were
    selected or share a group with one that was; and every group is a run of
    adjacent optional candidates of one namespace. *)
Theorem selection_closed set selected :
  validateOptionalSelectionGroups set = Ok tt ->
  expandOptionalSelectionGroups (cs_Optional set) selected (cs_OptionalSelectionGroups set) =
    filter (fun a => chosen (list_to_set (ca_CandidateID <$> selected)) (cs_OptionalSelectionGroups set)
                       (ca_CandidateID a)) (cs_Optional set) /\
  Forall (fun g => (2 <= length (group_ids g))%nat /\ exists start ns, forall k id,
    group_ids g !! k = Some id -> exists a,
    cs_Optional set !! (start + k)%nat = Some a /\ ca_CandidateID a = id /\ ca_Namespace a = ns)
    (cs_OptionalSelectionGroups set).
Proof.
  intros (Hd & Hc)%validated_groups. split; [|done].
  unfold expandOptionalSelectionGroups, selectedInAuthorityOrder. apply list_filter_iff.
  intros a. by apply expand_groups_spec.
Qed.

(** ** Validated candidates *)

Definition session (a : ContextCandidateAuthority) : bool := has_prefix (ca_Namespace a) "session_".
Definition valid_candidate (a : ContextCandidateAuthority) : Prop :=
  namespace_matches (ca_Namespace a) = true /\ candidate_id_matches (ca_CandidateID a) = true /\
  validateContextCandidateText (ca_Content a) = Ok tt.
(** Only a same-session candidate may repeat an earlier content. *)
Definition repeats_ok (a b : ContextCandidateAuthority) : Prop :=
  ca_Content a = ca_Content b -> session b = true.
Definition candidates_ok (l : list ContextCandidateAuthority) : Prop :=
  Forall valid_candidate l /\ NoDup (ca_CandidateID <$> l) /\ ForallOrdPairs repeats_ok l.

Lemma Forall_sublist {A} (P : A -> Prop) l k : k `sublist_of` l -> Forall P l -> Forall P k.
Proof.
  induction 1 as [|x l1 l2 Hs IH|x l1 l2 Hs IH]; intros H; [done| |]; apply Forall_cons in H as [? ?];
    [constructor; [done|by apply IH]|by apply IH].
Qed.
Lemma ordered_pairs_sublist {A} (R : A -> A -> Prop) l k :
  k `sublist_of` l -> ForallOrdPairs R l -> ForallOrdPairs R k.
Proof.
  induction 1 as [|x l1 l2 Hs IH|x l1 l2 Hs IH]; intros H; [done| |]; inversion H as [|? ? Hx Hl]; subst.
  - constructor; [|by apply IH]. by eapply Forall_sublist.
  - by apply IH.
Qed.
Lemma candidates_sublist l k : k `sublist_of` l -> candidates_ok l -> candidates_ok k.
Proof.
  intros Hs (Hv & Hn & Hr). split_and!; [by eapply Forall_sublist| |by eapply ordered_pairs_sublist].
  eapply sublist_NoDup; [exact Hn|]. by apply fmap_sublist.
Qed.

Lemma validate_authorities_step ids contents a st :
  candidate_step (ids, contents) a = Ok st <->
  (valid_candidate a /\ ca_CandidateID a ∉ ids /\ (ca_Content a ∈ contents -> session a = true)) /\
  st = ({[ ca_CandidateID a ]} ∪ ids, {[ ca_Content a ]} ∪ contents).
Proof.
  unfold candidate_step, valid_candidate, session.
  rewrite !reject_ok, check_ok, reject_ok, !negb_false_iff, bool_decide_eq_false.
  rewrite andb_false_iff, bool_decide_eq_false, negb_false_iff.
  destruct (decide (ca_Content a ∈ contents)); naive_solver.
Qed.
Lemma validate_authorities_ok l :
  validateContextCandidateAuthorities l = Ok tt <-> l <> [] /\ candidates_ok l.
Proof.
  unfold validateContextCandidateAuthorities. rewrite reject_ok, bool_decide_eq_false, check_loop_ok.
  assert (forall ids contents, (exists st, loop candidate_step (ids, contents) l = Ok st) <->
    candidates_ok l /\ Forall (fun a => ca_CandidateID a ∉ ids) l /\
    Forall (fun a => ca_Content a ∈ contents -> session a = true) l) as Hg.
  { induction l as [|a l IH]; intros ids contents.
    { split; [|eauto]. intros _. split_and!; repeat constructor. }
    cbn [loop]. unfold candidates_ok.
    rewrite fmap_cons, !Forall_cons, NoDup_cons, list_elem_of_fmap.
    assert (ForallOrdPairs repeats_ok (a :: l) <-> Forall (repeats_ok a) l /\ ForallOrdPairs repeats_ok l) as ->.
    { split; [by inversion 1|by intros [? ?]; constructor]. }
    destruct (candidate_step (ids, contents) a) as [st|e] eqn:Ha.
    - apply validate_authorities_step in Ha as [(Hv & Hid & Hc) ->]. rewrite IH.
      unfold candidates_ok. rewrite !Forall_forall. unfold repeats_ok.
      split.
      + intros ((H1 & H2 & H3) & H4 & H5). split_and!; try done.
        * intros (b & Hb & Hin). specialize (H4 b Hin). set_solver.
        * intros b Hin E. apply (H5 b Hin). set_solver.
        * intros b Hin. specialize (H4 b Hin). set_solver.
        * intros b Hin Hcb. apply (H5 b Hin). set_solver.
      + intros (([_ H1] & [H2 H2'] & [H3 H3']) & [_ H4] & [_ H5]). split_and!; try done.
        * intros b Hin. rewrite elem_of_union, elem_of_singleton.
          intros [E|E]; [apply H2; by exists b|by apply (H4 b)].
        * intros b Hin. rewrite elem_of_union, elem_of_singleton. intros [E|E]; [by apply (H3 b)|by apply (H5 b)].
    - split; [by intros [? ?]|]. intros (([Hv _] & _ & _) & [Hid _] & [Hc _]). exfalso.
      assert (candidate_step (ids, contents) a = Ok ({[ ca_CandidateID a ]} ∪ ids, {[ ca_Content a ]} ∪ contents)) as E
        by (by apply validate_authorities_step).
      congruence. }
  rewrite Hg. split; [naive_solver|]. intros [? ?]. split_and!; try done; by apply Forall_forall.
Qed.

Lemma set_loop set es st st' :
  loop (set_step set) st es = Ok st' ->
  candidates_ok es.*2 /\ Forall (fun a => ca_CandidateID a ∉ ss_seenIDs st) es.*2 /\
  Forall (fun a => ca_Content a ∈ ss_seenContent st -> session a = true) es.*2.
Proof.
  revert st. induction es as [|[i a] es IH]; intros st H; [by repeat constructor|].
  cbn [loop] in H. destruct (set_step set st (i, a)) as [st1|] eqn:Hs; [|done].
  apply IH in H as ((H1 & H2 & H3) & H4 & H5). unfold set_step in Hs.
  unfold NewContextCandidateAuthority in Hs. destruct a as [ns id content]. cbn [ca_Namespace ca_CandidateID ca_Content] in Hs.
  destruct (validateContextCandidateAuthorities _) as [[]|] eqn:Hv; [|done].
  apply validate_authorities_ok in Hv as (_ & Hv & _ & _). apply Forall_cons in Hv as [Hv _].
  rewrite !reject_ok in Hs. destruct Hs as (Hid & Hc & _ & _ & [= <-]).
  cbn [ss_seenIDs ss_seenContent] in H4, H5. apply bool_decide_eq_false in Hid.
  rewrite Forall_forall in H4. rewrite Forall_forall in H5. cbn [fmap list_fmap snd].
  assert (content ∈ ss_seenContent st -> session (mkAuthority ns id content) = true) as Hses.
  { intros Hin. rewrite (bool_decide_true (content ∈ _)) in Hc by done. cbn [andb] in Hc.
    apply negb_false_iff, andb_true_iff in Hc as [_ Hc]. done. }
  unfold candidates_ok. split_and!.
  - by constructor.
  - cbn. constructor; [|done]. rewrite list_elem_of_fmap. intros (b & Hb & Hin). specialize (H4 b Hin). set_solver.
  - constructor; [|done]. apply Forall_forall. intros b Hin E. apply (H5 b Hin). cbn in E. set_solver.
  - constructor; [done|]. apply Forall_forall. intros b Hin. specialize (H4 b Hin). set_solver.
  - constructor; [done|]. apply Forall_forall. intros b Hin Hcb. apply (H5 b Hin). set_solver.
Qed.
Lemma imap_pair_snd {A} (l : list A) : (imap pair l).*2 = l.
Proof. rewrite fmap_imap. rewrite <- (list_fmap_id l) at 2. apply (imap_const id). Qed.

Lemma validated_set set :
  validateCandidateSet set = Ok tt ->
  candidates_ok (cs_Required set ++ cs_Optional set) /\
  validateOptionalSelectionGroups set = Ok tt /\
  validate_context (mkContext (Some []) (cs_Replan set)) = Ok tt.
Proof.
  unfold validateCandidateSet. intros H.
  destruct (loop _ _ _) as [st|] eqn:Hl; [|done]. apply set_loop in Hl as (Hc & _ & _).
  rewrite imap_pair_snd in Hc. rewrite !reject_ok, !check_ok in H. by destruct H as (_ & _ & _ & _ & _ & ? & ?).
Qed.

(** ** Selection and reduction *)

Lemma call_count_ok calls : validateCallCount calls = Ok tt <-> 0 <= calls <= 1.
Proof.
  unfold validateCallCount, ExactSemanticLeafCalls. rewrite reject_ok, orb_false_iff, Z.ltb_ge, Z.ltb_ge. intuition.
Qed.

Section stations.
Context {W : Type} (modelInstruction scope : string) (paths : list string).

(** Adding the calls of one station to those counted so far. *)
Lemma add_calls calls leaf n :
  0 <= calls -> calls + n < 2 ^ 63 -> 1 <= n -> 0 <= leaf <= 1 ->
  0 <= wrap64 (calls + leaf) /\ wrap64 (calls + leaf) = calls + leaf.
Proof. intros. rewrite wrap64_id; [lia|]. unfold int64. lia. Qed.

(** The relevance station is asked about every candidate once, in order, each time in
    the world the previous answer left; the relevant candidates are those it called
    directly relevant. *)
Inductive asked (station : option (RelevanceStation (W:=W))) :
    list ContextCandidateAuthority -> list ContextCandidateAuthority -> W -> W -> Prop :=
  | asked_nobody w : asked station [] [] w w
  | asked_relevant s a l relevant w w1 w2 answer n :
      station = Some s -> s (relevance_input modelInstruction scope paths a) w = (w1, (answer, n, None)) -> 0 <= n <= 1 ->
      validate_relevance_for answer (relevance_input modelInstruction scope paths a) = Ok tt ->
      cr_Relation answer = ContextCandidateDirectlyRelevant ->
      asked station l relevant w1 w2 -> asked station (a :: l) (a :: relevant) w w2
  | asked_irrelevant s a l relevant w w1 w2 answer n :
      station = Some s -> s (relevance_input modelInstruction scope paths a) w = (w1, (answer, n, None)) -> 0 <= n <= 1 ->
      validate_relevance_for answer (relevance_input modelInstruction scope paths a) = Ok tt ->
      cr_Relation answer <> ContextCandidateDirectlyRelevant ->
      asked station l relevant w1 w2 -> asked station (a :: l) relevant w w2.
Lemma asked_sublist station l relevant w w' : asked station l relevant w w' -> relevant `sublist_of` l.
Proof. by induction 1; constructor. Qed.

Lemma relate_loop_ok (station : RelevanceStation (W:=W)) authorities selected calls w w' calls' out :
  relate_loop modelInstruction scope paths station authorities selected calls w = (w', (calls', Ok out)) ->
  (exists r, out = selected ++ r /\ asked (Some station) authorities r w w') /\
  (0 <= calls -> calls + Z.of_nat (length authorities) < 2 ^ 63 ->
   calls <= calls' <= calls + Z.of_nat (length authorities)).
Proof.
  revert selected calls w. induction authorities as [|a l IH]; intros selected calls w H.
  { injection H as <- <- <-. split; [exists []; rewrite app_nil_r; split; [done|constructor]|simpl; lia]. }
  cbn [relate_loop] in H. destruct (station _ _) as [w1 [[relation leaf] err]] eqn:Hs.
  destruct err; [done|]. destruct (validateCallCount leaf) as [[]|] eqn:Hc; [|done].
  destruct (validate_relevance_for _ _) as [[]|] eqn:Hv; [|done].
  apply call_count_ok in Hc. apply IH in H as [(r & -> & Hr) Hb]. split.
  - case_bool_decide as Hd; [exists (a :: r)|exists r].
    + rewrite <- app_assoc. split; [done|]. by eapply asked_relevant.
    + split; [done|]. by eapply asked_irrelevant.
  - intros H0 Hlt. cbn [length] in *. destruct (add_calls calls leaf (Z.of_nat (S (length l)))) as [Hge E]; [lia..|].
    rewrite E in Hb. lia.
Qed.
Lemma select_relevant_ok authorities station (w w' : W) calls out :
  selectRelevantAuthorities modelInstruction scope paths authorities station w = (w', (calls, Ok out)) ->
  asked station authorities out w w' /\
  (Z.of_nat (length authorities) < 2 ^ 63 -> 0 <= calls <= Z.of_nat (length authorities)).
Proof.
  unfold selectRelevantAuthorities. case_bool_decide as H0.
  { intros [= <- <- <-]. apply nil_length_inv in H0 as ->. split; [constructor|simpl; lia]. }
  destruct station as [station|]; [|done]. intros [(r & -> & Hr) Hb]%relate_loop_ok. split; [done|]. intros. lia.
Qed.

(** What a group contributes. *)
Definition contributes (g : list ContextCandidateAuthority) (c : string) : Prop :=
  ((length g <= 1)%nat /\ c = joinAuthorityContent g) \/
  ((1 < length g)%nat /\ exists d, validate_minification_for d (minification_input modelInstruction scope paths g) = Ok tt /\
    c = cm_MinimalContext d).
(** The minification station is asked about every group of several candidates, in order;
    a group of one is taken as it is. *)
Inductive minified (station : MinificationStation (W:=W)) :
    list (list ContextCandidateAuthority) -> list string -> W -> W -> Prop :=
  | minified_nothing w : minified station [] [] w w
  | minified_single g gs cs w w' : (length g <= 1)%nat ->
      minified station gs cs w w' -> minified station (g :: gs) (joinAuthorityContent g :: cs) w w'
  | minified_several g gs cs w w1 w2 decision n : (1 < length g)%nat ->
      station (minification_input modelInstruction scope paths g) w = (w1, (decision, n, None)) -> 0 <= n <= 1 ->
      validate_minification_for decision (minification_input modelInstruction scope paths g) = Ok tt ->
      minified station gs cs w1 w2 -> minified station (g :: gs) (cm_MinimalContext decision :: cs) w w2.
Lemma minified_contributes station gs cs w w' : minified station gs cs w w' -> Forall2 contributes gs cs.
Proof.
  induction 1 as [|g gs cs w w' Hl _ IH|g gs cs w w1 w2 d n Hl _ _ Hv _ IH]; constructor; [by left|done| |done].
  right. split; [done|by exists d].
Qed.
Definition station_calls (groups : list (list ContextCandidateAuthority)) : Z :=
  Z.of_nat (length (filter (fun g => 1 < length g)%nat groups)).
(** The first occurrences of a list. *)
Fixpoint firsts (seen : gset string) (l : list string) : list string :=
  match l with
  | [] => []
  | c :: l => if bool_decide (c ∈ seen) then firsts seen l else c :: firsts ({[ c ]} ∪ seen) l
  end.

Lemma group_content_ok (station : MinificationStation (W:=W)) g gs cs calls w w1 w' calls' c :
  group_content modelInstruction scope paths station g calls w = (w1, (calls', Ok c)) ->
  (minified station gs cs w1 w' -> minified station (g :: gs) (c :: cs) w w') /\
  (0 <= calls -> calls + 1 < 2 ^ 63 -> calls <= calls' <= calls + station_calls [g]).
Proof.
  unfold group_content, station_calls. rewrite filter_cons, filter_nil. case_bool_decide as Hl.
  - destruct (station _ _) as [w2 [[decision leaf] err]] eqn:Hs. destruct err; [done|].
    destruct (validateCallCount leaf) as [[]|] eqn:Hc; [|done].
    destruct (validate_minification_for _ _) as [[]|] eqn:Hv; [|done]. intros [= <- <- <-].
    apply call_count_ok in Hc. split; [intros; by eapply minified_several|]. intros H0 Hlt.
    destruct (add_calls calls leaf 1) as [_ E]; [lia..|]. rewrite E, decide_True by done. simpl. lia.
  - intros [= <- <- <-]. split; [intros; constructor; [lia|done]|]. rewrite decide_False by done. simpl. lia.
Qed.

Lemma station_calls_cons g gs : station_calls (g :: gs) = station_calls [g] + station_calls gs.
Proof.
  unfold station_calls. rewrite !filter_cons, filter_nil. case_decide; simpl; lia.
Qed.
Lemma station_calls_bound g : 0 <= station_calls [g] <= 1.
Proof. unfold station_calls. rewrite filter_cons, filter_nil. case_decide; simpl; lia. Qed.

(** The first groups are reduced one by one, no more of them than needed: every one was
    reduced because what came of those before it and all that was left did not fit; as
    soon as what is left fits, it is kept as it is. *)
Definition reduced (station : MinificationStation (W:=W)) (groups : list (list ContextCandidateAuthority)) (content : string)
    (w w' : W) : Prop :=
  exists processed rest cs, groups = processed ++ rest /\ minified station processed cs w w' /\
    content = join_contents (firsts ∅ cs ++ (joinAuthorityContent <$> rest)) /\
    (rest <> [] -> fits content = true) /\
    (forall k, (k < length processed)%nat ->
       fits (join_contents (firsts ∅ (take k cs) ++ (joinAuthorityContent <$> drop k groups))) = false).

Lemma reduce_loop_ok (station : MinificationStation (W:=W)) groups contents seen calls w w' calls' content :
  reduce_loop modelInstruction scope paths station groups contents seen calls w = (w', (calls', Ok content)) ->
  (exists processed rest cs, groups = processed ++ rest /\ minified station processed cs w w' /\
    content = join_contents (contents ++ firsts seen cs ++ (joinAuthorityContent <$> rest)) /\
    (rest <> [] -> fits content = true) /\
    (forall k, (k < length processed)%nat ->
       fits (join_contents (contents ++ firsts seen (take k cs) ++ (joinAuthorityContent <$> drop k groups))) = false)) /\
  (0 <= calls -> calls + Z.of_nat (length groups) < 2 ^ 63 -> calls <= calls' <= calls + station_calls groups).
Proof.
  revert contents seen calls w. induction groups as [|g groups IH]; intros contents seen calls w H.
  { injection H as <- <- <-. split; [|unfold station_calls; simpl; lia].
    exists [], [], []. simpl. rewrite app_nil_r. split_and!; [done|constructor|done|done|simpl; lia]. }
  cbn [reduce_loop] in H. destruct (fits _) eqn:Hfit in H.
  { injection H as <- <- <-. split.
    - exists [], (g :: groups), []. split_and!; [done|constructor|done|done|simpl; lia].
    - intros. pose proof (station_calls_bound g). rewrite station_calls_cons.
      assert (0 <= station_calls groups) by (unfold station_calls; lia). lia. }
  destruct (group_content _ _ _ _ _ _ _) as [w1 [calls1 [c|]]] eqn:Hg; [|done].
  rewrite station_calls_cons. cbn [length].
  case_bool_decide as Hseen; apply IH in H as [(processed & rest & cs & -> & Hm & -> & Hr & Hk) Hb2];
    pose proof (group_content_ok _ _ processed cs _ _ _ w' _ _ Hg) as [Hc Hb]; (split;
    [exists (g :: processed), rest, (c :: cs); split_and!; [done|by apply Hc| | |]|
     intros H0 Hlt; pose proof (station_calls_bound g); destruct Hb; [lia..|]; destruct Hb2; lia]).
  - cbn [firsts]. by rewrite bool_decide_true.
  - done.
  - intros [|k] Hlt; [done|]. cbn [take firsts drop]. rewrite bool_decide_true by done. apply Hk. simpl in Hlt. lia.
  - cbn [firsts]. rewrite bool_decide_false by done. by rewrite <- app_assoc.
  - done.
  - intros [|k] Hlt; [done|]. cbn [take firsts drop]. rewrite bool_decide_false by done. cbn [app].
    rewrite (cons_middle c), (app_assoc contents). apply Hk. simpl in Hlt. lia.
Qed.

Lemma length_within mc mb groups :
  Forall (within mc mb) groups -> (length groups <= length (concat groups))%nat.
Proof.
  induction 1 as [|g gs (Hne & _) _ IH]; simpl; [done|]. rewrite length_app. destruct g; [done|simpl; lia].
Qed.
Definition groups_of (selected : list ContextCandidateAuthority) : list (list ContextCandidateAuthority) :=
  match partitionContextAuthorities selected MaxContextMinificationAuthorities
          MaxContextMinificationProjectionBytes with Ok g => g | Err _ => [] end.
Lemma groups_of_eq selected :
  partitionContextAuthorities selected MaxContextMinificationAuthorities
    MaxContextMinificationProjectionBytes = Ok (groups_of selected).
Proof. reflexivity. Qed.

(** What is said about the selected candidates: their text when it fits, otherwise what
    the reduction of their groups gives. *)
Definition condensed (station : option (MinificationStation (W:=W))) (selected : list ContextCandidateAuthority)
    (content : string) (w w' : W) : Prop :=
  (fits (joinAuthorityContent selected) = true /\ content = joinAuthorityContent selected /\ w' = w) \/
  (fits (joinAuthorityContent selected) = false /\
   exists s, station = Some s /\ reduced s (groups_of selected) content w w').
Lemma reduce_ok selected station (w w' : W) calls content :
  reduceSelectedAuthorities modelInstruction scope paths selected station w = (w', (calls, Ok content)) ->
  condensed station selected content w w' /\
  (fits (joinAuthorityContent selected) = true -> calls = 0) /\
  (Z.of_nat (length selected) < 2 ^ 63 -> 0 <= calls <= station_calls (groups_of selected)).
Proof.
  unfold reduceSelectedAuthorities, condensed. destruct (fits _) eqn:Hf.
  { intros [= <- <- <-]. split; [by left|]. split; [done|]. unfold station_calls. lia. }
  destruct station as [station|]; [|done]. rewrite groups_of_eq. intros [H Hb]%reduce_loop_ok.
  split; [right; split; [done|]; exists station; split; [done|exact H]|]. split; [done|].
  intros Hlt. apply Hb; [done|]. destruct (partition_ok _ _ _ _ (groups_of_eq selected)) as (Hc & Hw & _).
  apply length_within in Hw. rewrite Hc in Hw. lia.
Qed.
End stations.

(** ** Compiled contexts *)

Section compile.
Context {W : Type}.

(** The provider is asked for the exact instruction, or for nothing when retrieval is
    known to be unavailable, by the request or by the provider's own word. *)
Definition retrieved (request : Request) (provider : CandidateProvider W) (set : CandidateSet) (w w' : W) : Prop :=
  exists availability w0,
    (rq_Retrieval request = Some (mkDirective availability) /\ w0 = w \/
     rq_Retrieval request = None /\ cp_SearchAvailability provider w = (w0, Ok availability)) /\
    cp_Retrieve provider (if decide (availability = SearchUnavailable) then [] else [rq_ExactInstruction request]) w0 =
      (w', Ok set).
Lemma retrieve_ok (c : Context_) request (provider : CandidateProvider W) w w' set :
  retrieve_candidates c request provider w = (w', Ok set) ->
  validateCandidateSet set = Ok tt /\ retrieved request provider set w w'.
Proof.
  unfold retrieve_candidates. destruct (retrieval_directive _ _ _ _) as [w1 d] eqn:Hd.
  destruct (let? directive := d in _) as [queries|] eqn:Hq; [|done].
  destruct (cp_Retrieve provider queries w1) as [w2 r] eqn:Hr. intros [= <- H].
  apply bind_ok in H as (set' & -> & H). destruct (c w2); [done|].
  apply check_ok in H as [Hv [= <-]]. split; [done|].
  apply bind_ok in Hq as ([availability] & -> & Hq). unfold retrievalQueries in Hq.
  apply check_ok in Hq as [_ Hq]. apply check_ok in Hq as [_ Hq]. cbn [rd_Availability] in Hq.
  exists availability, w1. split.
  - unfold retrieval_directive in Hd. destruct (rq_Retrieval request) as [d|]; [left; by injection Hd as <- ->|right].
    split; [done|]. destruct (cp_SearchAvailability provider w) as [w3 a]. injection Hd as <- Hd.
    apply bind_ok in Hd as (a' & -> & Hd). unfold ResolveRetrievalDirective in Hd. destruct (c w3); [done|].
    apply check_ok in Hd as [_ Hd]. apply check_ok in Hd as [_ [= ->]]. done.
  - rewrite <- Hr. f_equal. case_bool_decide; case_decide; try done; by injection Hq as <-.
Qed.

Lemma select_ok request set (stations : Stations W) w w' calls selected :
  validateCandidateSet set = Ok tt ->
  select_candidates request set stations w = (w', (calls, Ok selected)) ->
  (exists relevant,
    asked (rq_ModelInstruction request) (rq_Scope request) (elems (rq_KnownArtifactPaths request))
      (st_Relevance stations) (cs_Optional set) relevant w w' /\
    selected = cs_Required set ++
      filter (fun a => chosen (list_to_set (ca_CandidateID <$> relevant)) (cs_OptionalSelectionGroups set)
                         (ca_CandidateID a)) (cs_Optional set)) /\
  (Z.of_nat (length (cs_Optional set)) < 2 ^ 63 -> 0 <= calls <= Z.of_nat (length (cs_Optional set))).
Proof.
  intros (_ & Hg & _)%validated_set. unfold select_candidates. case_bool_decide as H0.
  - destruct (selectRelevantAuthorities _ _ _ _ _ _) as [w1 [calls1 [optional|]]] eqn:Hs; [|done].
    intros [= <- <- <-]. apply select_relevant_ok in Hs as [Hs Hb]. split; [|done].
    exists optional. split; [done|]. f_equal. apply validated_groups in Hg as [Hd _].
    unfold expandOptionalSelectionGroups, selectedInAuthorityOrder. apply list_filter_iff.
    intros a. by apply expand_groups_spec.
  - intros [= <- <- <-]. split; [|lia]. assert (cs_Optional set = []) as -> by (apply nil_length_inv; lia).
    exists []. split; [constructor|]. by rewrite app_nil_r.
Qed.
Lemma selected_ok set relevant :
  validateCandidateSet set = Ok tt ->
  candidates_ok (cs_Required set ++
    filter (fun a => chosen (list_to_set (ca_CandidateID <$> relevant)) (cs_OptionalSelectionGroups set)
                       (ca_CandidateID a)) (cs_Optional set)).
Proof.
  intros (Hc & _ & _)%validated_set. eapply candidates_sublist; [|exact Hc].
  apply sublist_app; [done|]. apply sublist_filter.
Qed.

(** How a successful compilation got its result. *)
Lemma compile_ok ctx request provider (stations : Stations W) w w' res :
  Compile ctx request provider stations w = (w', (res, None)) ->
  exists c prov set w1 w2 calls selected, ctx = Some c /\ provider = Some prov /\
    validate_request request = Ok tt /\
    retrieve_candidates c request prov w = (w1, Ok set) /\
    select_candidates request set stations w1 = (w2, (calls, Ok selected)) /\
    ((selected = [] /\ w' = w2 /\ res = mkResult (mkContext (Some []) (cs_Replan set)) calls) \/
     (selected <> [] /\ exists mcalls content,
       reduceSelectedAuthorities (rq_ModelInstruction request) (rq_Scope request)
         (elems (rq_KnownArtifactPaths request)) selected (st_Minification stations) w2 = (w', (mcalls, Ok content)) /\
       res = mkResult (mkContext (Some [mkCapsule (source_of <$> selected) content]) (cs_Replan set))
               (wrap64 (calls + mcalls)))) /\
    validate_context (rs_Context res) = Ok tt.
Proof.
  unfold Compile. destruct ctx as [c|]; [|done]. destruct (c w); [done|]. destruct provider as [prov|]; [|done].
  destruct (validate_request request) as [[]|] eqn:Hv; [|done].
  destruct (retrieve_candidates c request prov w) as [w1 [set|]] eqn:Hr; [|done].
  destruct (select_candidates request set stations w1) as [w2 [calls [selected|]]] eqn:Hs; [|done].
  intros H. exists c, prov, set, w1, w2, calls, selected. split_and!; try done.
  - case_bool_decide as H0; [left|right].
    + apply nil_length_inv in H0. by injection H as <- <- _.
    + split; [by intros ->|]. destruct (reduceSelectedAuthorities _ _ _ _ _ _) as [w3 [mcalls [content|]]] eqn:Hred; [|done].
      exists mcalls, content. destruct (validate_context _); [|done]. by injection H as <- <-.
  - case_bool_decide as H0.
    + injection H as <- <- H. cbn [rs_Context]. by destruct (validate_context _) as [[]|].
    + destruct (reduceSelectedAuthorities _ _ _ _ _ _) as [w3 [mcalls [content|]]] eqn:Hred; [|done].
      destruct (validate_context _) as [[]|] eqn:Hc; [|done]. by injection H as <- <-.
Qed.

(** C37: A compiled context is the one the provider and the stations determine: the
    provider was asked at most for the exact instruction and its set validated; then
    the relevance station was asked about every optional candidate; the sources are
    the required candidates followed, in the provider's order, by the optional ones it
    called directly relevant and those grouped with them; they are distinct; the
    content is their text verbatim when it fits, and otherwise that of their groups,
    the first of them, as few as fit, as the minification station condensed them, each
    text once; nothing but the replan authority is kept when nothing was selected.
    The world passes through these calls and no other. *)
Theorem compiled_context ctx request provider (stations : Stations W) w w' res :
  Compile ctx request provider stations w = (w', (res, None)) ->
  exists prov set relevant w1 w2,
    provider = Some prov /\ retrieved request prov set w w1 /\ validateCandidateSet set = Ok tt /\
    asked (rq_ModelInstruction request) (rq_Scope request) (elems (rq_KnownArtifactPaths request))
      (st_Relevance stations) (cs_Optional set) relevant w1 w2 /\
    ox_ReplanAuthority (rs_Context res) = cs_Replan set /\
    let selected := cs_Required set ++
      filter (fun a => chosen (list_to_set (ca_CandidateID <$> relevant)) (cs_OptionalSelectionGroups set)
                         (ca_CandidateID a)) (cs_Optional set) in
    NoDup (ca_CandidateID <$> selected) /\
    (selected = [] /\ ox_Capsules (rs_Context res) = Some [] /\ w' = w2 \/
     selected <> [] /\ exists content,
       ox_Capsules (rs_Context res) = Some [mkCapsule (source_of <$> selected) content] /\
       condensed (rq_ModelInstruction request) (rq_Scope request) (elems (rq_KnownArtifactPaths request))
         (st_Minification stations) selected content w2 w').
Proof.
  intros (c & prov & set & w1 & w2 & calls & selected & -> & -> & _ & Hr & Hs & Hres & _)%compile_ok.
  apply retrieve_ok in Hr as [Hv Hr].
  apply (select_ok _ _ _ _ _ _ _ Hv) in Hs as [(relevant & Hrel & ->) _].
  exists prov, set, relevant, w1, w2. cbn zeta. split_and!; [done|done|done|done| | |].
  - by destruct Hres as [(_ & _ & ->)|(_ & ? & ? & _ & ->)].
  - by apply selected_ok.
  - destruct Hres as [(Hnil & -> & ->)|(Hne & mcalls & content & Hred & ->)]; [by left|right].
    split; [done|]. exists content. split; [done|]. by apply reduce_ok in Hred as [? _].
Qed.

(** A successful compilation reports at most one relevance call for each
    optional candidate and at most one minification call for each group of
    several selected candidates, and none of the latter when the selected text
    fits. *)
Theorem compile_calls ctx request provider (stations : Stations W) w w' res :
  Compile ctx request provider stations w = (w', (res, None)) ->
  exists set selected, validateCandidateSet set = Ok tt /\
    selected `sublist_of` cs_Required set ++ cs_Optional set /\
    concat (oc_Sources <$> elems (ox_Capsules (rs_Context res))) = source_of <$> selected /\
    (Z.of_nat (length (cs_Optional set)) + Z.of_nat (length selected) < 2 ^ 63 ->
     0 <= rs_ModelCalls res <= Z.of_nat (length (cs_Optional set)) +
       (if fits (joinAuthorityContent selected) then 0 else station_calls (groups_of selected)) /\
     2 * station_calls (groups_of selected) <= Z.of_nat (length selected)).
Proof.
  intros (c & prov & set & w1 & w2 & calls & selected & -> & -> & _ & Hr & Hs & Hres & _)%compile_ok.
  apply retrieve_ok in Hr as (Hv & _). apply (select_ok _ _ _ _ _ _ _ Hv) in Hs as [(relevant & Hrel & Hsel) Hb].
  exists set, selected. split_and!; [done|subst; apply sublist_app; [done|apply sublist_filter]| |].
  { destruct Hres as [(-> & _ & ->)|(_ & ? & ? & _ & ->)]; [done|]. cbn. by rewrite app_nil_r. }
  intros Hlt. destruct Hb as [Hb0 Hb]; [lia|].
  assert (2 * station_calls (groups_of selected) <= Z.of_nat (length selected)) as Htwo.
  { destruct (partition_ok _ _ _ _ (groups_of_eq selected)) as (Hc & _ & _).
    assert (forall gs, 2 * station_calls gs <= Z.of_nat (length (concat gs))) as Hall; [|by rewrite <- Hc at 2].
    induction gs as [|g gs IH]; [unfold station_calls; simpl; lia|].
    rewrite station_calls_cons. cbn [concat]. rewrite length_app.
    unfold station_calls at 1. rewrite filter_cons, filter_nil. case_decide; simpl; lia. }
  split; [|done]. destruct Hres as [(-> & _ & ->)|(Hne & mcalls & content & Hred & ->)]; cbn [rs_ModelCalls].
  - destruct (fits _); [lia|]. unfold station_calls. lia.
  - apply reduce_ok in Hred as (_ & Hc & Hm). destruct Hm as [Hm0 Hm]; [lia|].
    rewrite wrap64_id by (unfold int64; lia).
    destruct (fits _); [rewrite Hc by done|]; lia.
Qed.

(** A failed compilation carries no context text: whatever went wrong, the
    returned context has no capsule. *)
Theorem failed_compile_empty ctx request provider (stations : Stations W) w w' res e :
  Compile ctx request provider stations w = (w', (res, Some e)) ->
  elems (ox_Capsules (rs_Context res)) = [].
Proof.
  unfold Compile. destruct ctx as [c|]; [|by intros [= <- <- _]]. destruct (c w); [by intros [= <- <- _]|].
  destruct provider as [prov|]; [|by intros [= <- <- _]].
  destruct (validate_request request) as [[]|]; [|by intros [= <- <- _]].
  destruct (retrieve_candidates c request prov w) as [w1 [set|]]; [|by intros [= <- <- _]].
  destruct (select_candidates request set stations w1) as [w2 [calls [selected|]]]; [|by intros [= <- <- _]].
  case_bool_decide; [by intros [= <- <- _]|].
  destruct (reduceSelectedAuthorities _ _ _ _ _ _) as [w3 [mcalls [content|]]]; [|by intros [= <- <- _]].
  destruct (validate_context _); [done|]. by intros [= <- <- _].
Qed.
End compile.
