(* ===== verification/ContextTotal.v ===== *)
(** * The context compiler never fails on good inputs

    Joining valid texts gives a valid text, every input handed to a station is
    valid, and the final validation of the compiled context cannot fail. *)
From Stdlib Require Import Ascii.
From S2P Require Import Prelude Schema SchemaFacts PathIdentity PathFacts PathSpec ContextCompiler ContextSpec.
From stdpp Require Import sorting base tactics strings list gmap numbers pretty.
From stdpp Require Import list options.
Open Scope Z_scope.
Open Scope go_scope.

(** ** Valid texts are closed under joining *)

Definition good_text (s : string) : Prop :=
  blank s = false /\ valid_utf8 s = true /\ contains_nul s = false.

Lemma candidate_text_ok s : validateContextCandidateText s = Ok tt <-> good_text s.
Proof. unfold validateContextCandidateText, good_text. rewrite !reject_ok, negb_false_iff. intuition. Qed.
Lemma instruction_ok s : validateContextExactInstruction s = Ok tt <-> good_text s.
Proof. unfold validateContextExactInstruction, good_text. rewrite !reject_ok, negb_false_iff. intuition. Qed.
Lemma retrieval_ok s scope :
  validateRetrievalAuthority s scope = Ok tt <-> validate_scope scope = Ok tt /\ good_text s.
Proof. unfold validateRetrievalAuthority, good_text. rewrite check_ok, !reject_ok, negb_false_iff. intuition. Qed.
Lemma context_text_ok s : validateObjectiveContextText s = Ok tt <-> good_text s.
Proof.
  unfold validateObjectiveContextText, good_text. rewrite reject_ok, !orb_false_iff, negb_false_iff. intuition.
Qed.
Lemma trimmed_text_good s : validateContextText s = Ok tt -> good_text s.
Proof.
  unfold validateContextText, good_text. rewrite !reject_ok, orb_false_iff, bool_decide_eq_false, !negb_false_iff, bool_decide_eq_true.
  intros ((Hne & Ht) & Hu & Hn & _). split_and!; [|done|done]. unfold blank. apply bool_decide_eq_false. congruence.
Qed.

Lemma bytes_app s t : bytes (s +:+ t) = bytes s ++ bytes t.
Proof. unfold bytes. induction s as [|a s IH]; [done|]. simpl. by f_equal. Qed.

Lemma valid_utf8_app s t : valid_utf8 s = true -> valid_utf8 t = true -> valid_utf8 (s +:+ t) = true.
Proof.
  intros Hs Ht. remember (String.length s) as n eqn:Hn. revert s Hn Hs.
  induction n as [n IH] using lt_wf_ind. intros s -> Hs.
  destruct s as [|a s]; [done|]. simpl in *.
  destruct (seq1 a); [apply (IH (String.length s)); [lia|done|done]|].
  destruct s as [|b s]; [done|]. simpl in *.
  destruct (seq2 a b); [apply (IH (String.length s)); [lia|done|done]|].
  destruct s as [|c s]; [done|]. simpl in *.
  destruct (seq3 a b c); [apply (IH (String.length s)); [lia|done|done]|].
  destruct s as [|d s]; [done|]. simpl in *.
  destruct (seq4 a b c d); [|done]. apply (IH (String.length s)); [lia|done|done].
Qed.
(** *** Blankness is decided from the left *)

Lemma starts_space_app l k : starts_space l = true -> starts_space (l ++ k) = true.
Proof.
  intros H. destruct (starts_space (l ++ k)) eqn:E; [done|].
  eapply starts_space_prefix in E; [|by exists k]. congruence.
Qed.
Lemma trim_right_all r : trim_right_rev r = [] -> r <> [] -> starts_space (reverse r) = true.
Proof.
  remember (length r) as n eqn:Hn. revert r Hn. induction n as [n IH] using lt_wf_ind. intros r -> H Hne.
  assert (forall p r', r = p ++ r' -> p <> [] -> trim_right_rev r' = [] -> starts_space (reverse p) = true ->
    starts_space (reverse r) = true) as Hrec.
  { intros p r' -> Hp Hr Hs. rewrite reverse_app. destruct r' as [|x r']; [by rewrite reverse_nil|].
    apply starts_space_app. apply (IH (length (x :: r'))); [|done|done|done].
    rewrite length_app. destruct p; [done|simpl; lia]. }
  destruct r as [|c r1]; [done|]. cbn [trim_right_rev] in H.
  destruct (space1 c) eqn:E1; [apply (Hrec [c] r1); try done; cbn; by rewrite E1|].
  destruct r1 as [|b r2]; [done|].
  destruct (space2 b c) eqn:E2; [apply (Hrec [c; b] r2); try done; cbn; by rewrite E2, orb_true_r|].
  destruct r2 as [|a r3]; [done|].
  destruct (space3 a b c) eqn:E3; [|done].
  apply (Hrec [c; b; a] r3); try done; cbn; by rewrite E3, !orb_true_r.
Qed.
Lemma blank_trim s : blank s = true <-> trim_left (bytes s) = [].
Proof.
  unfold blank, trim_space. rewrite bool_decide_eq_true. split.
  - intros H. apply (f_equal String.list_ascii_of_string) in H.
    rewrite String.list_ascii_of_string_of_list_ascii in H. cbn in H.
    apply (f_equal reverse) in H. rewrite reverse_involutive, reverse_nil in H.
    destruct (scan_spec trim_left starts_space trim_left_step (bytes s)) as [Hl _].
    change (String.list_ascii_of_string s) with (bytes s) in H.
    destruct (trim_left (bytes s)) as [|x l]; [done|]. exfalso.
    apply trim_right_all in H; [rewrite reverse_involutive in H; congruence|].
    intros E. apply (f_equal length) in E. by rewrite length_reverse in E.
  - intros H. change (String.list_ascii_of_string s) with (bytes s). by rewrite H.
Qed.

Definition newline : ascii := byte 10.
Lemma newline_no_space a b :
  space2 a newline = false /\ (forall c, space3 a newline c = false) /\ space3 a b newline = false.
Proof.
  unfold space2, space3. split_and!; [|intros c|].
  all: repeat match goal with |- context [byte_in ?lo ?hi newline] =>
    let v := eval vm_compute in (byte_in lo hi newline) in change (byte_in lo hi newline) with v end.
  all: by rewrite ?andb_false_r, ?andb_false_l.
Qed.
Lemma trim_left_newline l r : trim_left l <> [] -> trim_left (l ++ newline :: r) <> [].
Proof.
  remember (length l) as n eqn:Hn. revert l Hn. induction n as [n IH] using lt_wf_ind. intros l -> H.
  destruct l as [|a l]; [done|]. cbn [trim_left app] in *.
  destruct (space1 a); [apply (IH (length l)); [simpl; lia|done|done]|].
  destruct l as [|b l].
  { cbn [app]. destruct (newline_no_space a a) as (-> & H3 & _). destruct r as [|c r]; [done|]. by rewrite H3. }
  cbn [app]. destruct (space2 a b); [apply (IH (length l)); [simpl; lia|done|done]|].
  destruct l as [|c l].
  { cbn [app]. by destruct (newline_no_space a b) as (_ & _ & ->). }
  cbn [app]. destruct (space3 a b c); [apply (IH (length l)); [simpl; lia|done|done]|done].
Qed.

Lemma good_text_join s t : good_text s -> good_text t -> good_text (s +:+ newlines +:+ t).
Proof.
  intros (Hb & Hu & Hn) (_ & Hu' & Hn'). split_and!.
  - apply not_true_is_false. intros E. apply blank_trim in E. rewrite bytes_app in E.
    refine (trim_left_newline (bytes s) (newline :: bytes t) _ E).
    intros E'. apply blank_trim in E'. congruence.
  - apply valid_utf8_app; [done|]. by apply valid_utf8_app.
  - by rewrite !contains_nul_app, Hn, Hn'.
Qed.
Lemma good_join l : l <> [] -> Forall good_text l -> good_text (join_contents l).
Proof.
  intros Hne Hf. unfold join_contents. induction Hf as [|s l Hs Hf IH]; [done|].
  destruct l as [|t l]; [done|].
  change (String.concat newlines (s :: t :: l)) with (s +:+ newlines +:+ String.concat newlines (t :: l)).
  apply good_text_join; [done|]. by apply IH.
Qed.

(** ** What the compiler relies on *)

Section promises.
Context {W : Type}.

(** A station answers every valid input for the instruction, scope and artifacts
    of a compilation with a valid answer and at most one provider call. *)
Class RelevancePromise (instruction scope : string) (paths : slice string)
    (station : RelevanceStation (W:=W)) : Prop :=
  relevance_answers : forall input w,
    cr_ExactInstruction input = instruction -> cr_Scope input = scope -> cr_KnownArtifactPaths input = paths ->
    validate_relevance_input input = Ok tt ->
    exists w' answer calls, station input w = (w', (answer, calls, None)) /\
      0 <= calls <= 1 /\ validate_relevance_for answer input = Ok tt.
Class MinificationPromise (instruction scope : string) (paths : slice string)
    (station : MinificationStation (W:=W)) : Prop :=
  minification_answers : forall input w,
    cm_ExactInstruction input = instruction -> cm_Scope input = scope -> cm_KnownArtifactPaths input = paths ->
    validate_minification_input input = Ok tt ->
    exists w' decision calls, station input w = (w', (decision, calls, None)) /\
      0 <= calls <= 1 /\ validate_minification_for decision input = Ok tt.
(** A provider knows whether it can search and returns validated candidate sets. *)
Class ProviderPromise (provider : CandidateProvider W) : Prop := {
  availability_known : forall w, exists w' a,
    cp_SearchAvailability provider w = (w', Ok a) /\ validate_availability a = Ok tt;
  candidates_valid : forall queries w, exists w' set,
    cp_Retrieve provider queries w = (w', Ok set) /\ validateCandidateSet set = Ok tt }.

Section inputs.
Context (modelInstruction scope : string) (paths : list string).
Hypothesis scope_ok : validate_scope scope = Ok tt.
Hypothesis model_instruction_ok : good_text modelInstruction.
Hypothesis paths_ok : exists provenance, NewArtifactIdentityProvenance (bytes <$> paths) = Ok provenance.

Lemma relevance_input_valid a :
  valid_candidate a -> validate_relevance_input (relevance_input modelInstruction scope paths a) = Ok tt.
Proof using All.
  intros Hv. unfold validate_relevance_input, relevance_input, validateContextArtifactProvenance.
  cbn [cr_Scope cr_ExactInstruction cr_KnownArtifactPaths cr_Candidate].
  rewrite scope_ok. apply instruction_ok in model_instruction_ok as ->. destruct paths_ok as [p ->].
  apply validate_authorities_ok. split; [done|]. split_and!; [by constructor|cbn; apply NoDup_singleton|by repeat constructor].
Qed.
Lemma minification_input_valid g :
  g <> [] -> candidates_ok g ->
  validate_minification_input (minification_input modelInstruction scope paths g) = Ok tt.
Proof using All.
  intros Hne Hc. unfold validate_minification_input, minification_input, validateContextArtifactProvenance.
  cbn [cm_Scope cm_ExactInstruction cm_KnownArtifactPaths cm_SelectedAuthorities].
  rewrite scope_ok. apply instruction_ok in model_instruction_ok as ->. destruct paths_ok as [p ->].
  by apply validate_authorities_ok.
Qed.

Lemma relate_total station `{!RelevancePromise modelInstruction scope (Some paths) station} authorities selected calls w :
  Forall valid_candidate authorities ->
  exists w' calls' out,
    relate_loop modelInstruction scope paths station authorities selected calls w = (w', (calls', Ok out)).
Proof using All.
  intros Hv. revert selected calls w. induction Hv as [|a l Ha Hv IH]; intros selected calls w; [by eauto|].
  cbn [relate_loop]. destruct (relevance_answers (relevance_input modelInstruction scope paths a) w)
    as (w' & answer & n & -> & Hn & ->); [done..|by apply relevance_input_valid|].
  apply call_count_ok in Hn as ->. apply IH.
Qed.

Lemma verbatim_good g : g <> [] -> Forall valid_candidate g -> good_text (joinAuthorityContent g).
Proof.
  intros Hne Hv. apply good_join; [by destruct g|]. apply Forall_fmap. eapply Forall_impl; [exact Hv|].
  intros a (_ & _ & Ht). by apply candidate_text_ok in Ht.
Qed.
Lemma contribution_good g c :
  g <> [] -> candidates_ok g -> contributes modelInstruction scope paths g c -> good_text c.
Proof.
  intros Hne (Hv & _) [[_ ->]|(_ & d & Hd & ->)]; [by apply verbatim_good|].
  unfold validate_minification_for in Hd. apply check_ok in Hd as [_ Hd]. apply reject_ok in Hd as [_ Hd].
  apply bind_ok in Hd as (p & _ & Hd). unfold ValidateMinifiedContextText in Hd.
  apply check_ok in Hd as [Hd _]. by apply trimmed_text_good.
Qed.

Lemma reduce_total station `{!MinificationPromise modelInstruction scope (Some paths) station} groups contents seen calls w :
  Forall (fun g => g <> [] /\ candidates_ok g) groups ->
  exists w' calls' out,
    reduce_loop modelInstruction scope paths station groups contents seen calls w = (w', (calls', Ok out)).
Proof using All.
  intros Hg. revert contents seen calls w. induction Hg as [|g gs [Hne Hc] Hg IH]; intros contents seen calls w; [by eauto|].
  cbn [reduce_loop]. destruct (fits _); [by eauto|].
  assert (exists w' calls' c, group_content modelInstruction scope paths station g calls w = (w', (calls', Ok c)))
    as (w' & calls' & c & ->); [|by case_bool_decide].
  unfold group_content. case_bool_decide; [|by eauto].
  destruct (minification_answers (minification_input modelInstruction scope paths g) w)
    as (w' & d & n & -> & Hn & ->); [done..|by apply minification_input_valid|].
  apply call_count_ok in Hn as ->. by eauto.
Qed.

Lemma sublist_concat {A} (g : list A) gs : g ∈ gs -> g `sublist_of` concat gs.
Proof.
  induction gs as [|h gs IH]; [by intros ?%not_elem_of_nil|]. intros [->|Hin]%elem_of_cons; cbn.
  - by apply sublist_inserts_r.
  - apply sublist_inserts_l. by apply IH.
Qed.
Lemma groups_valid selected :
  candidates_ok selected -> Forall (fun g => g <> [] /\ candidates_ok g) (groups_of selected).
Proof.
  intros Hc. destruct (partition_ok _ _ _ _ (groups_of_eq selected)) as (Hcat & Hw & _).
  apply Forall_forall. intros g Hin. rewrite Forall_forall in Hw. split; [by destruct (Hw g Hin)|].
  eapply candidates_sublist; [|exact Hc]. rewrite <- Hcat. by apply sublist_concat.
Qed.

Lemma firsts_good seen cs : Forall good_text cs -> Forall good_text (firsts seen cs).
Proof.
  intros H. revert seen. induction H as [|c cs Hc H IH]; intros seen; cbn; [done|].
  case_bool_decide; [done|]. by constructor.
Qed.
Lemma reduced_good (station : MinificationStation (W:=W)) groups content w w' :
  groups <> [] -> Forall (fun g => g <> [] /\ candidates_ok g) groups ->
  reduced modelInstruction scope paths station groups content w w' -> good_text content.
Proof.
  intros Hne Hg (processed & rest & cs & -> & Hf%minified_contributes & -> & _). apply Forall_app in Hg as [Hp Hr].
  apply good_join.
  - destruct Hf; cbn; [|done]. by destruct rest.
  - apply Forall_app. split.
    + apply firsts_good. clear Hne. induction Hf as [|g c gs cs Hc Hf IH]; [done|].
      apply Forall_cons in Hp as [[? ?] Hp]. constructor; [by apply contribution_good with g|by apply IH].
    + apply Forall_fmap. eapply Forall_impl; [exact Hr|]. intros g [? (? & _)]. by apply verbatim_good.
Qed.
End inputs.

Lemma sources_loop l seen :
  Forall valid_candidate l -> NoDup (ca_CandidateID <$> l) ->
  Forall (fun a => ca_CandidateID a ∉ seen) l ->
  exists seen', loop source_step seen (source_of <$> l) = Ok seen'.
Proof.
  intros Hv. revert seen. induction Hv as [|a l (Hn & Hi & _) Hv IH]; intros seen Hnd Hs; [by eauto|].
  cbn [fmap list_fmap] in *. apply NoDup_cons in Hnd as [Ha Hnd]. apply Forall_cons in Hs as [Hsa Hs].
  cbn [loop]. unfold source_step at 1. cbn [source_of os_Namespace os_CandidateID].
  rewrite Hn, Hi, bool_decide_false by done. cbn [negb]. apply IH; [done|].
  rewrite Forall_forall in Hs |- *. intros b Hb. rewrite elem_of_union, elem_of_singleton.
  intros [E|E]; [|by apply (Hs b)]. apply Ha. rewrite <- E. by apply list_elem_of_fmap_2.
Qed.
Lemma context_valid set selected content :
  validateCandidateSet set = Ok tt -> selected <> [] -> candidates_ok selected -> good_text content ->
  validate_context (mkContext (Some [mkCapsule (source_of <$> selected) content]) (cs_Replan set)) = Ok tt.
Proof.
  intros (_ & _ & Hc)%validated_set Hne (Hv & Hnd & _) Hg.
  assert (exists seen, capsule_step ∅ (mkCapsule (source_of <$> selected) content) = Ok seen) as [seen E].
  { unfold capsule_step. cbn [oc_Sources oc_Content]. rewrite bool_decide_false by (by destruct selected).
    destruct (sources_loop selected ∅) as [seen ->]; [done|done|by apply Forall_forall|].
    apply context_text_ok in Hg as ->. by exists seen. }
  unfold validate_context in *. cbn [ox_Capsules ox_ReplanAuthority] in *.
  change (elems (Some [mkCapsule (source_of <$> selected) content])) with [mkCapsule (source_of <$> selected) content].
  cbn [loop]. rewrite E. exact Hc.
Qed.

(** Compilation never fails on account of the compiler: for a valid request, a
    context that is not cancelled, a provider of validated sets and stations that
    answer valid inputs validly, it returns a context; in particular every input
    it hands to a station is valid and the final validation succeeds. *)
Theorem compile_succeeds c request provider rs ms (w : W)
    `{!ProviderPromise provider,
      !RelevancePromise (rq_ModelInstruction request) (rq_Scope request) (rq_KnownArtifactPaths request) rs,
      !MinificationPromise (rq_ModelInstruction request) (rq_Scope request) (rq_KnownArtifactPaths request) ms} :
  (forall w, c w = None) -> validate_request request = Ok tt ->
  (forall d, rq_Retrieval request = Some d -> validate_availability (rd_Availability d) = Ok tt) ->
  exists w' res,
    Compile (Some c) request (Some provider) (mkStations (Some rs) (Some ms)) w = (w', (res, None)).
Proof.
  intros Hctx Hreq Hdir. unfold Compile. rewrite Hctx, Hreq.
  unfold validate_request in Hreq. destruct (rq_KnownArtifactPaths request) as [paths|] eqn:Hpaths; [|done].
  apply bind_ok in Hreq as (p & Hp & Hreq). apply check_ok in Hreq as [He Hreq].
  apply check_ok in Hreq as [Hm _]. pose proof He as [Hscope He']%retrieval_ok. apply retrieval_ok in Hm as [_ Hm].
  assert (exists w1 set, retrieve_candidates c request provider w = (w1, Ok set) /\ validateCandidateSet set = Ok tt)
    as (w1 & set & -> & Hset).
  { unfold retrieve_candidates.
    assert (exists w1 d, retrieval_directive c request provider w = (w1, Ok d) /\
      validate_availability (rd_Availability d) = Ok tt) as (w1 & d & -> & Hd).
    { unfold retrieval_directive. destruct (rq_Retrieval request) as [d|]; [by eauto|].
      destruct (availability_known (provider:=provider) w) as (w1 & a & -> & Ha). unfold ResolveRetrievalDirective.
      rewrite Hctx, He, Ha. by eauto. }
    unfold retrievalQueries. rewrite He, Hd.
    destruct (_ == SearchUnavailable);
      (edestruct (candidates_valid (provider:=provider)) as (w2 & set & E & Hs); rewrite E, Hctx, Hs; by eauto). }
  pose proof (validated_set _ Hset) as ((Hall & _) & _ & Hc0).
  assert (exists w2 calls selected, select_candidates request set (mkStations (Some rs) (Some ms)) w1 =
    (w2, (calls, Ok selected))) as (w2 & calls & selected & Hsel).
  { unfold select_candidates. rewrite Hpaths. case_bool_decide as H0; [|by eauto].
    unfold selectRelevantAuthorities. rewrite bool_decide_false by lia. cbn [st_Relevance elems default].
    apply Forall_app in Hall as [_ Hall].
    destruct (relate_total (rq_ModelInstruction request) (rq_Scope request) paths Hscope Hm (ex_intro _ _ Hp) rs
      (cs_Optional set) [] 0 w1 Hall) as (w2 & calls & out & E). cbn. rewrite E. by eauto. }
  rewrite Hsel. apply (select_ok _ _ _ _ _ _ _ Hset) in Hsel as [(relevant & _ & ->) _].
  clear Hall. pose proof (selected_ok set relevant Hset) as Hok. set (selected := cs_Required set ++ _) in *.
  case_bool_decide as H0; [rewrite Hc0; by eauto|].
  assert (selected <> []) as Hne by (intros E; apply H0; by rewrite E).
  assert (exists w3 mcalls content, reduceSelectedAuthorities (rq_ModelInstruction request) (rq_Scope request)
    paths selected (Some ms) w2 = (w3, (mcalls, Ok content))) as (w3 & mcalls & content & Hred).
  { unfold reduceSelectedAuthorities. destruct (fits _); [by eauto|]. rewrite groups_of_eq.
    apply (reduce_total (rq_ModelInstruction request) (rq_Scope request) paths Hscope Hm (ex_intro _ _ Hp) ms).
    by apply groups_valid. }
  change (elems (Some paths)) with paths. cbn [st_Minification]. rewrite Hred.
  rewrite context_valid; [by eauto|done|done|done|].
  apply reduce_ok in Hred as [[(_ & -> & _)|(Hnf & s & _ & Hred)] _]; [apply verbatim_good; [done|apply Hok]|].
  eapply reduced_good; [|by apply groups_valid|exact Hred].
  intros E. destruct (partition_ok _ _ _ _ (groups_of_eq selected)) as (Hcat & _). rewrite E in Hcat. by apply Hne.
Qed.
End promises.

(** ** Witnesses *)

Module sample.

Definition request : Request :=
  mkRequest "What did we decide?" "What did we decide?" None "" (Some []).
Definition candidate (n content : string) : ContextCandidateAuthority := mkAuthority "memory" ("CTX_" +:+ n) content.
Definition candidates : CandidateSet :=
  mkSet [candidate "1" "alpha"] [candidate "2" "beta"; candidate "3" "gamma"; candidate "4" "delta"]
    [mkGroup ["CTX_2"; "CTX_3"]] None false.
Definition provider : CandidateProvider unit :=
  mkProvider (fun w => (w, Ok SearchAvailable)) (fun _ w => (w, Ok candidates)).
Definition relevance : RelevanceStation (W:=unit) := fun input w =>
  (w, (mkRelevanceResult ContextRelevanceRelationSchemaV1
         (if ca_Content (cr_Candidate input) == "gamma"
          then ContextCandidateDirectlyRelevant else ContextCandidateNotDirectlyRelevant), 1, None)).
Definition minification : MinificationStation (W:=unit) := fun input w =>
  (w, (mkDecision ContextMinificationSchemaV1 "short", 1, None)).
Definition stations : Stations unit := mkStations (Some relevance) (Some minification).
Definition compiled : Result :=
  mkResult (mkContext (Some [mkCapsule [mkSource "memory" "CTX_1"; mkSource "memory" "CTX_2"; mkSource "memory" "CTX_3"]
    (join_contents ["alpha"; "beta"; "gamma"])]) None) 3.

#[global] Instance provider_promise : ProviderPromise provider.
Proof.
  split.
  - intros w. by exists w, SearchAvailable.
  - intros queries w. by exists w, candidates.
Defined.
#[global] Instance relevance_promise :
  RelevancePromise (rq_ModelInstruction request) (rq_Scope request) (rq_KnownArtifactPaths request) relevance.
Proof.
  intros input w _ _ _ Hv. unfold relevance. eexists w, _, 1. split_and!; [done|lia|lia|].
  unfold validate_relevance_for. rewrite Hv. destruct (ca_Content _ == "gamma"); vm_compute; reflexivity.
Defined.
#[global] Instance minification_promise :
  MinificationPromise (rq_ModelInstruction request) (rq_Scope request) (rq_KnownArtifactPaths request) minification.
Proof.
  intros input w _ _ Hp Hv. unfold minification. eexists w, _, 1. split_and!; [done|lia|lia|].
  unfold validate_minification_for. rewrite Hv, Hp. vm_compute. reflexivity.
Defined.
End sample.

Lemma compile_succeeds_witness :
  exists w' res, Compile (Some (fun _ => None)) sample.request (Some sample.provider) sample.stations tt =
    (w', (res, None)).
Proof.
  apply (compile_succeeds (fun _ => None) sample.request sample.provider sample.relevance sample.minification tt).
  - intros w. reflexivity.
  - vm_compute. reflexivity.
  - intros d Hd. discriminate Hd.
Defined.

Lemma compiled_context_witness :
  Compile (Some (fun _ => None)) sample.request (Some sample.provider) sample.stations tt =
    (tt, (sample.compiled, None)) /\
  exists (set : CandidateSet) relevant, validateCandidateSet set = Ok tt /\
    asked "What did we decide?" "" [] (Some sample.relevance) (cs_Optional set) relevant tt tt /\
    ox_ReplanAuthority (rs_Context sample.compiled) = cs_Replan set.
Proof.
  assert (Compile (Some (fun _ => None)) sample.request (Some sample.provider) sample.stations tt =
    (tt, (sample.compiled, None))) as H by (vm_compute; reflexivity).
  split; [exact H|].
  destruct (compiled_context _ _ _ _ _ _ _ H) as (prov & set & relevant & [] & [] & _ & _ & Hv & Ha & Hr & _).
  exists set, relevant. exact (conj Hv (conj Ha Hr)).
Defined.

Lemma compile_calls_witness :
  exists set selected, validateCandidateSet set = Ok tt /\
    selected `sublist_of` cs_Required set ++ cs_Optional set.
Proof.
  destruct (compile_calls (Some (fun _ => None)) sample.request (Some sample.provider) sample.stations tt tt
    sample.compiled) as (set & selected & Hv & Hs & _); [vm_compute; reflexivity|].
  exists set, selected. split; [exact Hv|exact Hs].
Defined.

Lemma failed_compile_empty_witness :
  elems (ox_Capsules (rs_Context (mkResult (mkContext (Some []) None) 0))) = [].
Proof.
  apply (failed_compile_empty (W:=unit) None sample.request (Some sample.provider) sample.stations tt tt _
           "context compilation requires a context").
  vm_compute. reflexivity.
Defined.

Lemma selection_closed_witness :
  expandOptionalSelectionGroups (cs_Optional sample.candidates) [sample.candidate "3" "gamma"]
    (cs_OptionalSelectionGroups sample.candidates) =
  [sample.candidate "2" "beta"; sample.candidate "3" "gamma"].
Proof.
  destruct (selection_closed sample.candidates [sample.candidate "3" "gamma"]) as [-> _]; vm_compute; reflexivity.
Defined.

Lemma partition_greedy_witness :
  exists groups, partitionContextAuthorities (cs_Optional sample.candidates) 2 100 = Ok groups.
Proof. apply partition_greedy; lia. Defined.
