(* ===== verification/UserIntent.v ===== *)
(** * State patches of a user intent

    Models [internal/userintent/patch_validation.go] and
    [patch_array_validation.go]: JSON-Pointer patches applied to a state document,
    the rejection of overlapping and redundant edits, and the banded edit distance
    that decides whether array edits are minimal.

    A decoded JSON value is a [value]; an object is the list of its fields in the
    order of their keys, which is how [json.Marshal] writes it, so that comparing
    encodings is comparing values.  A number is its literal ([UseNumber]).  Every
    call decodes its own copy of the document, so updating in place is replacing. *)
From Stdlib Require Import Ascii.
From S2P Require Import Prelude Schema PathIdentity.
From stdpp Require Import sorting base tactics strings list gmap numbers pretty.
From stdpp Require Import list options.
Open Scope Z_scope.
Open Scope go_scope.

Inductive value : Type :=
| VNull
| VBool (b : bool)
| VNumber (literal : text)
| VString (s : text)
| VArray (elements : list value)
| VObject (fields : list (text * value)).

(** [reflect.DeepEqual] *)
Definition list_eqb {A} (eqb : A -> A -> bool) : list A -> list A -> bool :=
  fix go l k :=
    match l, k with
    | [], [] => true
    | x :: l, y :: k => eqb x y && go l k
    | _, _ => false
    end%bool.
Fixpoint value_eqb (v w : value) : bool :=
  match v, w with
  | VNull, VNull => true
  | VBool a, VBool b => bool_decide (a = b)
  | VNumber a, VNumber b => bool_decide (a = b)
  | VString a, VString b => bool_decide (a = b)
  | VArray l, VArray k => list_eqb value_eqb l k
  | VObject l, VObject k =>
      list_eqb (fun p q => bool_decide (p.1 = q.1) && value_eqb p.2 q.2)%bool l k
  | _, _ => false
  end.
Lemma list_eqb_spec {A} (eqb : A -> A -> bool) l k :
  Forall (fun x => forall y, eqb x y = true <-> x = y) l -> list_eqb eqb l k = true <-> l = k.
Proof.
  intros H. revert k. induction H as [|x l Hx H IH]; intros [|y k]; simpl; try done.
  rewrite andb_true_iff, Hx, IH. split; [by intros [-> ->]|by intros [= -> ->]].
Qed.
(** Induction over nested values. *)
Lemma value_induction (P : value -> Prop) :
  P VNull -> (forall b, P (VBool b)) -> (forall n, P (VNumber n)) -> (forall s, P (VString s)) ->
  (forall l, Forall P l -> P (VArray l)) -> (forall fs, Forall (fun f => P f.2) fs -> P (VObject fs)) ->
  forall v, P v.
Proof.
  intros H1 H2 H3 H4 H5 H6. fix IH 1. intros [|b|n|s|l|fs]; [exact H1|exact (H2 b)|exact (H3 n)|exact (H4 s)| |].
  - apply H5. induction l as [|x l IHl]; constructor; [apply IH|exact IHl].
  - apply H6. induction fs as [|[k x] l IHl]; constructor; [apply IH|exact IHl].
Qed.
Lemma value_eqb_spec v : forall w, value_eqb v w = true <-> v = w.
Proof.
  induction v as [|a|a|a|l H|l H] using value_induction; intros [|b|b|b|k|k]; simpl; try done;
    try (rewrite bool_decide_eq_true; naive_solver).
  - rewrite list_eqb_spec; [naive_solver|done].
  - rewrite list_eqb_spec; [naive_solver|]. eapply Forall_impl; [exact H|].
    intros [key x] Hx [key' y]. cbn in *.
    rewrite andb_true_iff, bool_decide_eq_true, Hx. naive_solver.
Qed.
#[global] Instance value_eq_dec : EqDecision value.
Proof.
  intros v w. destruct (value_eqb v w) eqn:E; [left; by apply value_eqb_spec|right].
  intros H. apply value_eqb_spec in H. congruence.
Defined.

(** ** Objects as maps *)

Abbreviation fields_t := (list (text * value)).
Definition key_lt (a b : text) : bool := str_lt (of_bytes a) (of_bytes b).
Fixpoint field_get (key : text) (fs : fields_t) : option value :=
  match fs with
  | [] => None
  | (k, v) :: fs => if k == key then Some v else field_get key fs
  end.
Fixpoint field_set (key : text) (new : value) (fs : fields_t) : fields_t :=
  match fs with
  | [] => [(key, new)]
  | (k, v) :: fs =>
      if k == key then (key, new) :: fs
      else if key_lt key k then (key, new) :: (k, v) :: fs
      else (k, v) :: field_set key new fs
  end.
Definition field_delete (key : text) (fs : fields_t) : fields_t := filter (fun f => f.1 <> key) fs.

(** ** Pointers *)

Definition tilde : ascii := byte 126.
(** [strconv.Atoi]: an optional sign and digits within [int64]. *)
Definition atoi (s : text) : option Z :=
  let '(negative, ds) :=
    match s with
    | a :: l => if is_byte (byte 45) a then (true, l) else if is_byte (byte 43) a then (false, l) else (false, s)
    | [] => (false, [])
    end in
  if ((ds == []) || negb (forallb is_digit ds))%bool then None else
  let z := if negative : bool then - parse_uint ds 10 else parse_uint ds 10 in
  if bool_decide (int64 z) then Some z else None.
(** [strconv.Itoa] *)
Definition itoa (z : Z) : text := bytes (pretty z).

(** [strings.ReplaceAll] of a two-byte pattern by a byte. *)
Fixpoint replace_pair (a b r : ascii) (l : text) : text :=
  match l with
  | x :: (y :: l') as tail =>
      if (is_byte a x && is_byte b y)%bool then r :: replace_pair a b r l' else x :: replace_pair a b r tail
  | l => l
  end.
Fixpoint valid_escapes (part : text) : bool :=
  match part with
  | [] => true
  | x :: l =>
      if is_byte tilde x then
        match l with
        | y :: l' => (one_of [byte 48; byte 49] y && valid_escapes l')%bool
        | [] => false
        end
      else valid_escapes l
  end.
Definition unescape (part : text) : text :=
  replace_pair tilde (byte 48) tilde (replace_pair tilde (byte 49) slash part).
Definition pointer_part (part : text) : result text :=
  reject "invalid pointer escape" when negb (valid_escapes part);
  Ok (unescape part).
Definition pointerParts (path : text) : result (list text) :=
  reject "patch requires an absolute field pointer" when negb (starts_with [slash] path);
  collect pointer_part (split_slash (drop 1 path)).

(** The node at a pointer; a missing field is a nil interface, like [null]. *)
Fixpoint walk (node : value) (parts : list text) : option value :=
  match parts with
  | [] => Some node
  | key :: parts =>
      match node with
      | VObject fs => walk (default VNull (field_get key fs)) parts
      | VArray l =>
          match atoi key with
          | Some i => if (i <? 0)%bool then None else
                      match l !! Z.to_nat i with Some child => walk child parts | None => None end
          | None => None
          end
      | _ => None
      end
  end.
Definition arrayAt (node : value) (parts : list text) : option (list value) :=
  match walk node parts with Some (VArray l) => Some l | _ => None end.
Definition isArrayElement (node : value) (parts : list text) : bool :=
  match arrayAt node (removelast parts) with Some _ => true | None => false end.

(** ** Patches

    A raw message comes out of a JSON decoder: it is the text of one value, or
    empty ([None]). *)
Record Patch := mkPatch { pt_Op : string; pt_Path : text; pt_Value : option value }.

Definition patchValue (old : option value) (patch : Patch) : result value :=
  reject "patch target is absent" when ((pt_Op patch != "add") && bool_decide (old = None))%bool;
  if pt_Op patch == "remove" then
    reject "remove cannot contain a value" when bool_decide (is_Some (pt_Value patch));
    Ok VNull
  else
    reject "unsupported patch operation" when ((pt_Op patch != "add") && (pt_Op patch != "replace"))%bool;
    let? new := match pt_Value patch with Some v => Ok v | None => Err "EOF" end in
    reject "patch contains unchanged state" when bool_decide (old = Some new);
    Ok new.

Definition array_edit (op : string) (index : nat) (new : value) (l : list value) : list value :=
  if op == "add" then take index l ++ new :: drop index l
  else if op == "replace" then <[index := new]> l
  else take index l ++ drop (S index) l.

Fixpoint patchNode (node : value) (parts : list text) (patch : Patch) : result value :=
  match parts with
  | [] => Err "patch requires an absolute field pointer"
  | key :: rest =>
      match node with
      | VObject fs =>
          match rest with
          | _ :: _ =>
              match field_get key fs with
              | None => Err "patch parent is absent"
              | Some old => let? new := patchNode old rest patch in Ok (VObject (field_set key new fs))
              end
          | [] =>
              let? new := patchValue (field_get key fs) patch in
              Ok (VObject (if pt_Op patch == "remove" then field_delete key fs else field_set key new fs))
          end
      | VArray l =>
          let size := Z.of_nat (length l) in
          let append := ((key == bytes "-") && (pt_Op patch == "add") && bool_decide (rest = []))%bool in
          match (if append then Some size else atoi key) with
          | None => Err "invalid array index"
          | Some i =>
              reject "invalid array index" when
                ((i <? 0) || (size <? i) || ((key != bytes "-") && (itoa i != key)))%bool;
              let index := Z.to_nat i in
              match rest with
              | _ :: _ =>
                  match l !! index with
                  | None => Err "array parent is absent"
                  | Some child => let? new := patchNode child rest patch in Ok (VArray (<[index := new]> l))
                  end
              | [] =>
                  let? new := patchValue (if pt_Op patch == "add" then None else l !! index) patch in
                  Ok (VArray (array_edit (pt_Op patch) index new l))
              end
          end
      | _ => Err "patch parent is not an object or array"
      end
  end.

(** [path[:strings.LastIndex(path, "/")+1]] *)
Definition not_slash (a : ascii) : bool := negb (is_byte slash a).
Definition parent_prefix (path : text) : text :=
  take (length path - run_length not_slash (reverse path)) path.

(** Where a recorded path points after a structural array edit; [None] when its
    element was removed. *)
Definition shiftedPath (path : text) (patch : Patch) (document : value) : option text :=
  let parts := match pointerParts (pt_Path patch) with Ok parts => parts | Err _ => [] end in
  if (((pt_Op patch != "add") && (pt_Op patch != "remove")) || negb (isArrayElement document parts))%bool
  then Some path else
  match atoi (default [] (last parts)) with
  | None => Some path
  | Some index =>
      let parent := parent_prefix (pt_Path patch) in
      if negb (starts_with parent path) then Some path else
      let suffix := drop (length parent) path in
      let n := run_length not_slash suffix in
      match atoi (take n suffix) with
      | None => Some path
      | Some position =>
          if position <? index then Some path else
          if ((pt_Op patch == "remove") && (position =? index))%bool then None else
          Some (parent ++ itoa (if pt_Op patch == "remove" then position - 1 else position + 1) ++ drop n suffix)
      end
  end.

(** ** Applying patches *)

Definition under (path p : text) : bool := starts_with (path ++ [slash]) p.

(** An edit at or around an earlier one is refused, except an insertion in front
    of an edited element. *)
Definition overlaps (op : string) (element : bool) (p path : text) : bool :=
  if ((op == "add") && element && ((path == p) || under p path))%bool then false
  else ((path == p) || under p path || under path p)%bool.

Definition record_path (patch : Patch) (parts : list text) (document : value) : text :=
  if ((pt_Op patch == "add") && (default [] (last parts) == bytes "-"))%bool then
    match arrayAt document (removelast parts) with
    | Some array => take (length (pt_Path patch) - 1) (pt_Path patch) ++ itoa (Z.of_nat (length array))
    | None => pt_Path patch
    end
  else pt_Path patch.

(** Only the paths of the edits recorded in [seen] are ever used. *)
Definition patch_step (writable : text -> bool) (st : gset text * fields_t) (patch : Patch)
    : result (gset text * fields_t) :=
  let '(seen, fs) := st in
  let document := VObject fs in
  reject "state field is not writable: %s" when negb (writable (pt_Path patch));
  let? parts := pointerParts (pt_Path patch) in
  let element := isArrayElement document parts in
  reject "overlapping patch paths" when
    existsb (fun path => overlaps (pt_Op patch) element (pt_Path patch) path) (elements seen);
  let rebased : gset text := list_to_set (omap (fun path => shiftedPath path patch document) (elements seen)) in
  let seen :=
    if ((pt_Op patch != "remove") || negb element)%bool
    then {[ record_path patch parts document ]} ∪ rebased else rebased in
  let? updated := patchNode document parts patch in
  match updated with
  | VObject fs => Ok (seen, fs)
  | _ => Err "interface conversion"
  end.
Definition applyPatchOperations (snapshot : fields_t) (patches : list Patch) (writable : text -> bool)
    : result fields_t :=
  let? st := loop (patch_step writable) (∅, snapshot) patches in Ok st.2.

(** ** The edit distance of two arrays *)

Section edit_distance.
Context {A : Type} `{EqDecision A} (left right : list A) (limit : nat).

(** A row of the table keeps the entries of its band; others count as [limit]. *)
Definition row_value (row : gmap nat nat) (j : nat) : nat := default limit (row !! j).
Definition cell (i : nat) (previous current : gmap nat nat) (j : nat) : nat :=
  match j with
  | O => i
  | S j' =>
      let replacement := if decide (left !! (i - 1)%nat = right !! j') then 0%nat else 1%nat in
      Nat.min limit
        (Nat.min (row_value previous j + 1)
          (Nat.min (row_value current j' + 1) (row_value previous j' + replacement)))%nat
  end.
Definition next_row (previous : gmap nat nat) (i : nat) : gmap nat nat :=
  let first := (i - limit)%nat in
  foldl (fun current j => <[j := cell i previous current j]> current) ∅
    (seq first (S (Nat.min (length right) (i + limit)) - first)).
Definition first_row : gmap nat nat :=
  foldl (fun row j => <[j := j]> row) ∅ (seq 0 (S (Nat.min (length right) limit))).
Definition arrayEditDistance : nat :=
  row_value (foldl next_row first_row (seq 1 (length left))) (length right).
End edit_distance.

(** ** Redundant array edits *)

Definition parent_path (path : text) : text := take (length (parent_prefix path) - 1) (parent_prefix path).
Abbreviation groups_t := (gmap text (list value * nat)).

Definition count_edit (parent : text) (document : value) (groups : groups_t) : result groups_t :=
  if parent == [] then Ok groups else
  let? parts := pointerParts parent in
  match arrayAt document parts with
  | None => Ok groups
  | Some array =>
      Ok (<[parent := match groups !! parent with
                      | Some (before, count) => (before, S count)
                      | None => (array, 1%nat)
                      end]> groups)
  end.
Definition rebase_groups (patch : Patch) (document : value) (groups : groups_t) : groups_t :=
  list_to_map (omap (fun '(path, group) =>
    (fun p => (p, group)) <$> shiftedPath path patch document) (map_to_list groups)).
Definition delta_step (st : groups_t * fields_t) (patch : Patch) : result (groups_t * fields_t) :=
  let '(groups, old) := st in
  let document := VObject old in
  let? groups := count_edit (parent_path (pt_Path patch)) document groups in
  let groups := rebase_groups patch document groups in
  let? parts := pointerParts (pt_Path patch) in
  let? updated := patchNode document parts patch in
  match updated with
  | VObject fs => Ok (groups, fs)
  | _ => Err "interface conversion"
  end.
Definition redundant_group (next : value) (entry : text * (list value * nat)) : bool :=
  let '(path, (before, count)) := entry in
  match arrayAt next (match pointerParts path with Ok parts => parts | Err _ => [] end) with
  | Some array => bool_decide (arrayEditDistance before array count < count)%nat
  | None => false
  end.
Definition validateArrayDeltas (before after : fields_t) (patches : list Patch) : result unit :=
  let? st := loop delta_step (∅, before) patches in
  reject "patch contains redundant array edits at %s" when
    existsb (redundant_group (VObject after)) (map_to_list st.1);
  Ok tt.

(** ** The whole check *)

(** The pointers of the subtrees a path lies in: [/a], [/a/b], ... *)
Definition subtrees (path : text) : list text :=
  let parts := split_slash path in
  (fun i => join_with [slash] (take i parts)) <$> seq 2 (length parts - 1).
Definition without (path : text) (patches : list Patch) : list Patch :=
  filter (fun p => ((pt_Path p == path) || under path (pt_Path p))%bool = false) patches.
Definition replays_to (snapshot : fields_t) (patches : list Patch) (writable : text -> bool)
    (after : fields_t) : bool :=
  applyPatchOperations snapshot patches writable == Ok after.
Definition drop_two (i j : nat) (patches : list Patch) : list Patch :=
  (imap pair patches) ≫= (fun '(k, p) => if (bool_decide (k = i) || bool_decide (k = j))%bool then [] else [p]).
Definition redundant_pair (snapshot : fields_t) (patches : list Patch) (writable : text -> bool)
    (after : fields_t) (ij : nat * nat) : bool :=
  let '(i, j) := ij in
  match patches !! i, patches !! j with
  | Some removed, Some added =>
      (pt_Op removed == "remove") && (pt_Op added == "add") && negb (bool_decide (i = j)) &&
      replays_to snapshot (drop_two i j patches) writable after
  | _, _ => false
  end%bool.
Definition applyPatch (snapshot : fields_t) (patches : list Patch) (writable : text -> bool) : result fields_t :=
  let? after := applyPatchOperations snapshot patches writable in
  check validateArrayDeltas snapshot after patches;
  reject "patch contains redundant subtree changes" when
    existsb (fun path => replays_to snapshot (without path patches) writable after)
      (patches ≫= fun p => subtrees (pt_Path p));
  let indices := seq 0 (length patches) in
  reject "patch contains redundant removal and addition" when
    existsb (redundant_pair snapshot patches writable after)
      (indices ≫= fun i => (fun j => (i, j)) <$> indices);
  Ok after.
Definition Apply (snapshot : fields_t) (patches : slice Patch) (writable : option (text -> bool)) : result fields_t :=
  match writable, patches with
  | Some writable, Some patches => applyPatch snapshot patches writable
  | _, _ => Err "invalid state patch contract"
  end.
