(* ===== verification/EditDistance.v ===== *)
(** * The edit distance behind the array check

    [arrayEditDistance] of [UserIntent.v] is the program's banded table.  Here is
    what it must compute: the least number of single insertions, removals and
    replacements that turn one array into another.  The proof goes through the full
    table ([distance]) and through alignments ([align]), which carry a cost through
    one edit at a time. *)
From stdpp Require Import base tactics list relations gmap.
From S2P Require Import UserIntent.
From stdpp Require Import list options.
Open Scope nat_scope.

Section edits.
Context {A : Type} `{EqDecision A}.
Implicit Types (l r a b : list A) (x y : A).

(** One edit of an array, as a patch operation makes it. *)
Inductive edit : list A -> list A -> Prop :=
| edit_insert a x b : edit (a ++ b) (a ++ x :: b)
| edit_remove a x b : edit (a ++ x :: b) (a ++ b)
| edit_replace a x y b : edit (a ++ x :: b) (a ++ y :: b).

(** An alignment of two arrays with its cost. *)
Inductive align : list A -> list A -> nat -> Prop :=
| align_nil : align [] [] 0
| align_remove x l r k : align l r k -> align (x :: l) r (S k)
| align_insert y l r k : align l r k -> align l (y :: r) (S k)
| align_replace x y l r k : align l r k -> align (x :: l) (y :: r) (S k)
| align_keep x l r k : align l r k -> align (x :: l) (x :: r) k.
#[local] Hint Constructors align : core.

Lemma align_refl l : align l l 0.
Proof. induction l; auto. Qed.
Lemma align_app a a' b b' k n : align a a' k -> align b b' n -> align (a ++ b) (a' ++ b') (k + n).
Proof. induction 1; simpl; auto. Qed.
Lemma align_split a b r n : align (a ++ b) r n ->
  exists r1 r2 k1 k2, r = r1 ++ r2 /\ align a r1 k1 /\ align b r2 k2 /\ n = k1 + k2.
Proof.
  remember (a ++ b) as l eqn:El. intros H. revert a b El.
  induction H as [|x l r k H IH|y l r k H IH|x y l r k H IH|x l r k H IH]; intros [|z a] b El; simplify_eq/=.
  all: try by eexists [], _, 0, _; repeat split; eauto.
  all: try (destruct (IH a b eq_refl) as (r1 & r2 & k1 & k2 & -> & H1 & H2 & ->)).
  - exists r1, r2, (S k1), k2. auto.
  - destruct (IH (z :: a) b eq_refl) as (r1 & r2 & k1 & k2 & -> & H1 & H2 & ->).
    exists (y :: r1), r2, (S k1), k2. auto.
  - exists (y :: r1), r2, (S k1), k2. auto.
  - exists (z :: r1), r2, k1, k2. auto.
Qed.

(** Dropping or changing the first element costs at most one more. *)
Lemma align_uncons x b r k : align (x :: b) r k -> exists k', k' <= S k /\ align b r k'.
Proof.
  remember (x :: b) as l eqn:El. intros H. revert b El.
  induction H as [|z l r k H IH|y l r k H IH|z y l r k H IH|z l r k H IH]; intros b El; simplify_eq/=; eauto.
  - destruct (IH b eq_refl) as (k' & ? & ?). exists (S k'). split; [lia|auto].
Qed.
Lemma align_rehead x y b r k : align (y :: b) r k -> exists k', k' <= S k /\ align (x :: b) r k'.
Proof.
  remember (y :: b) as l eqn:El. intros H. revert b El.
  induction H as [|z l r k H IH|w l r k H IH|z w l r k H IH|z l r k H IH]; intros b El; simplify_eq/=; eauto.
  - destruct (IH b eq_refl) as (k' & ? & ?). exists (S k'). split; [lia|auto].
Qed.
Lemma align_edit l m r k : edit l m -> align m r k -> exists k', k' <= S k /\ align l r k'.
Proof.
  intros [a x b|a x b|a x y b] H; apply align_split in H as (r1 & r2 & k1 & k2 & -> & H1 & H2 & ->).
  - apply align_uncons in H2 as (k' & ? & ?). exists (k1 + k'). split; [lia|by apply align_app].
  - exists (k1 + S k2). split; [lia|apply align_app; auto].
  - apply (align_rehead x) in H2 as (k' & ? & ?). exists (k1 + k'). split; [lia|by apply align_app].
Qed.
Lemma align_nsteps l r k : nsteps edit k l r -> exists k', k' <= k /\ align l r k'.
Proof.
  induction 1 as [l|n l m r Hedit _ (k & Hk & H)].
  - exists 0. split; [lia|apply align_refl].
  - destruct (align_edit _ _ _ _ Hedit H) as (k' & ? & ?). exists k'. split; [lia|done].
Qed.

(** The full table. *)
Section table.
Context (left right : list A) (limit : nat).
Fixpoint distance (i j : nat) {struct i} : nat :=
  match i with
  | O => j
  | S i' =>
      (fix row (j : nat) : nat :=
         match j with
         | O => i
         | S j' =>
             Nat.min (distance i' j + 1)
               (Nat.min (row j' + 1)
                  (distance i' j' + if decide (left !! i' = right !! j') then 0 else 1))
         end) j
  end.

Lemma distance_0_r i : distance i 0 = i.
Proof. by destruct i. Qed.
Lemma distance_S i j : distance (S i) (S j) =
  Nat.min (distance i (S j) + 1)
    (Nat.min (distance (S i) j + 1)
       (distance i j + if decide (left !! i = right !! j) then 0 else 1)).
Proof. done. Qed.

Lemma distance_removes i j : distance (S i) j <= S (distance i j).
Proof. destruct j; [by rewrite !distance_0_r|rewrite distance_S; lia]. Qed.
Lemma distance_inserts i j : distance i (S j) <= S (distance i j).
Proof. destruct i; [done|rewrite distance_S; lia]. Qed.
Lemma distance_skew i j : i <= j + distance i j /\ j <= i + distance i j.
Proof.
  revert j. induction i as [|i IH]; intros j; [simpl; lia|].
  induction j as [|j IHj]; [simpl; lia|].
  rewrite distance_S. pose proof (IH j). pose proof (IH (S j)). case_decide; lia.
Qed.

(** The table bounds every alignment, ... *)
Lemma distance_align l2 r2 k : align l2 r2 k -> forall l1 r1, left = l1 ++ l2 -> right = r1 ++ r2 ->
  distance (length left) (length right) <= distance (length l1) (length r1) + k.
Proof.
  induction 1 as [|x l r k H IH|y l r k H IH|x y l r k H IH|x l r k H IH]; intros l1 r1 Hl Hr.
  - rewrite app_nil_r in Hl, Hr. subst. lia.
  - specialize (IH (l1 ++ [x]) r1). rewrite last_length, <-app_assoc in IH.
    specialize (IH Hl Hr). pose proof (distance_removes (length l1) (length r1)). lia.
  - specialize (IH l1 (r1 ++ [y])). rewrite last_length, <-app_assoc in IH.
    specialize (IH Hl Hr). pose proof (distance_inserts (length l1) (length r1)). lia.
  - specialize (IH (l1 ++ [x]) (r1 ++ [y])). rewrite !last_length, <-!app_assoc in IH. specialize (IH Hl Hr).
    pose proof (distance_S (length l1) (length r1)) as E. case_decide; lia.
  - specialize (IH (l1 ++ [x]) (r1 ++ [x])). rewrite !last_length, <-!app_assoc in IH. specialize (IH Hl Hr).
    pose proof (distance_S (length l1) (length r1)) as E.
    rewrite decide_True in E by (rewrite Hl, Hr, !list_lookup_middle; done). lia.
Qed.

(** ... and is attained by edits of the prefixes. *)
Lemma nsteps_grow u t : nsteps edit (length u) t (u ++ t).
Proof.
  induction u as [|x u IH]; [constructor|].
  eapply nsteps_r; [exact IH|]. apply (edit_insert [] x).
Qed.
Lemma nsteps_shrink u t : nsteps edit (length u) (u ++ t) t.
Proof. induction u as [|x u IH]; [constructor|]. eapply nsteps_l; [|exact IH]. apply (edit_remove [] x). Qed.
Lemma distance_steps i j t : i <= length left -> j <= length right ->
  nsteps edit (distance i j) (take i left ++ t) (take j right ++ t).
Proof.
  revert j t. induction i as [|i IHi]; intros j t Hi Hj.
  { simpl. rewrite <-(length_take_le right j) at 1 by lia. apply nsteps_grow. }
  revert t. induction j as [|j IHj]; intros t.
  { rewrite distance_0_r. rewrite <-(length_take_le left (S i)) at 1 by lia. apply nsteps_shrink. }
  destruct (lookup_lt_is_Some_2 left i ltac:(lia)) as [x Hx].
  destruct (lookup_lt_is_Some_2 right j ltac:(lia)) as [y Hy].
  rewrite distance_S.
  destruct (Nat.min_spec (distance i (S j) + 1) (Nat.min (distance (S i) j + 1)
       (distance i j + if decide (left !! i = right !! j) then 0 else 1))) as [[_ ->]|[_ ->]].
  { rewrite (take_S_r _ _ _ Hx), <-app_assoc. rewrite Nat.add_comm. eapply nsteps_l; [apply edit_remove|].
    apply IHi; lia. }
  match goal with |- nsteps _ (Nat.min ?a ?b) _ _ => destruct (Nat.min_spec a b) as [[_ ->]|[_ ->]] end.
  { rewrite (take_S_r _ _ _ Hy), <-app_assoc. rewrite Nat.add_comm. eapply nsteps_r; [|apply edit_insert].
    apply IHj; lia. }
  rewrite (take_S_r _ _ _ Hx), (take_S_r _ _ _ Hy), <-!app_assoc. simpl. case_decide as E.
  - rewrite Nat.add_0_r. rewrite Hx, Hy in E. injection E as <-. apply IHi; lia.
  - rewrite Nat.add_comm. eapply nsteps_r; [apply IHi; lia|]. apply edit_replace.
Qed.

(** ** The banded table keeps the full one, up to the limit *)


(** A row is filled from left to right over its band. *)
Lemma fill_spec (f : gmap nat nat -> nat -> nat) n first (g : nat -> nat) :
  (forall current j, first <= j < first + n ->
     (forall j', current !! j' = if decide (first <= j' < j) then Some (g j') else None) ->
     f current j = g j) ->
  forall j', foldl (fun current j => <[j := f current j]> current) ∅ (seq first n) !! j' =
    if decide (first <= j' < first + n) then Some (g j') else None.
Proof.
  induction n as [|n IH]; intros Hf j'.
  { rewrite decide_False by lia. apply lookup_empty. }
  rewrite seq_S, foldl_app. simpl. specialize (IH ltac:(intros; apply Hf; [lia|done])).
  rewrite (Hf _ (first + n)) by (lia || done).
  destruct (decide (j' = first + n)) as [->|Hne].
  - rewrite lookup_insert_eq, decide_True by lia. done.
  - rewrite lookup_insert_ne, IH by done. repeat case_decide; done || lia.
Qed.

(** Only columns up to the length of the target count. *)
Definition faithful (i : nat) (row : gmap nat nat) : Prop :=
  forall j, j <= length right -> row_value limit row j = Nat.min limit (distance i j).

Lemma faithful_band i row first last :
  (forall j, row !! j = if decide (first <= j < last) then Some (Nat.min limit (distance i j)) else None) ->
  (forall j, j <= length right -> first <= j < last \/ limit <= distance i j) -> faithful i row.
Proof.
  intros Hrow Hout j Hj. unfold row_value. rewrite Hrow. case_decide; [done|]. simpl.
  destruct (Hout j Hj); [lia|]. lia.
Qed.
Lemma first_row_faithful : faithful 0 (first_row right limit).
Proof.
  apply (faithful_band _ _ 0 (S (Nat.min (length right) limit))).
  - intros j. unfold first_row.
    rewrite (fill_spec (fun _ j => j) _ 0 (fun j => Nat.min limit (distance 0 j))) by (simpl; intros; lia). done.
  - intros j Hj. simpl. lia.
Qed.
Lemma next_row_faithful i previous : faithful i previous ->
  faithful (S i) (next_row left right limit previous (S i)).
Proof.
  intros Hprev. set (first := S i - limit). set (last := S (Nat.min (length right) (S i + limit))).
  apply (faithful_band _ _ first (first + (last - first))).
  - apply (fill_spec _ _ _ (fun j => Nat.min limit (distance (S i) j))).
    intros current [|j] Hj Hcur; cbn [cell].
    { simpl. unfold first in *. lia. }
    rewrite (Hprev (S j)), (Hprev j), distance_S by (unfold first, last in *; lia).
    replace (S i - 1) with i by lia.
    assert (row_value limit current j = Nat.min limit (distance (S i) j)) as ->.
    { unfold row_value. rewrite Hcur. case_decide; [done|].
      change (limit = Nat.min limit (distance (S i) j)). pose proof (distance_skew (S i) j). unfold first in *. lia. }
    case_decide; lia.
  - intros j Hj. pose proof (distance_skew (S i) j). unfold first, last. lia.
Qed.
Lemma rows_faithful n : faithful n (foldl (next_row left right limit) (first_row right limit) (seq 1 n)).
Proof.
  induction n as [|n IH]; [apply first_row_faithful|].
  rewrite seq_S, foldl_app. apply next_row_faithful. exact IH.
Qed.
Lemma distance_banded :
  arrayEditDistance left right limit = Nat.min limit (distance (length left) (length right)).
Proof. apply rows_faithful. done. Qed.
End table.

Lemma edit_distance_spec l r limit n :
  arrayEditDistance l r limit <= n <-> limit <= n \/ exists k, k <= n /\ nsteps edit k l r.
Proof.
  rewrite distance_banded, Nat.min_le_iff. split; intros [H|H]; auto.
  - right. exists (distance l r (length l) (length r)). split; [done|].
    pose proof (distance_steps l r (length l) (length r) [] (le_n _) (le_n _)) as Hsteps.
    by rewrite !app_nil_r, !firstn_all in Hsteps.
  - right. destruct H as (k & Hk & Hsteps).
    destruct (align_nsteps _ _ _ Hsteps) as (k' & Hk' & Halign).
    pose proof (distance_align l r l r k' Halign [] [] eq_refl eq_refl). simpl in *. lia.
Qed.

(** The banded table of the array check is the true edit distance capped at its
    limit: its answer is within a budget exactly when the cap is, or when that many
    single insertions, removals and replacements turn one array into the other. *)
Theorem array_edit_distance_correct l r limit n :
  arrayEditDistance l r limit <= n <-> limit <= n \/ exists k, k <= n /\ nsteps edit k l r.
Proof. apply edit_distance_spec. Qed.
End edits.
