(* ===== verification/UserIntentFacts.v ===== *)
(** * Facts about state patches

    Objects as maps, pointers and their first segments, how recorded paths move,
    and the effect of one patch on the fields of a document. *)
From Stdlib Require Import Ascii Wf_nat.
From S2P Require Import Prelude Schema SchemaFacts PathIdentity PathFacts UserIntent.
From stdpp Require Import sorting base tactics strings list gmap numbers pretty.
From stdpp Require Import list options.
Open Scope Z_scope.
Open Scope go_scope.

(** ** Objects *)

Definition field_update (key : text) (o : option value) (fs : fields_t) : fields_t :=
  match o with Some v => field_set key v fs | None => field_delete key fs end.

Lemma field_get_set key v fs k : field_get k (field_set key v fs) = if decide (k = key) then Some v else field_get k fs.
Proof.
  induction fs as [|[k' v'] fs IH]; simpl; repeat (case_bool_decide || case_decide || case_match); simplify_eq/=;
    repeat case_bool_decide; simplify_eq/=; congruence.
Qed.
Lemma field_get_delete key fs k : field_get k (field_delete key fs) = if decide (k = key) then None else field_get k fs.
Proof.
  unfold field_delete. induction fs as [|[k' v'] fs IH]; [by case_decide|].
  rewrite filter_cons. cbn [fst field_get]. repeat (case_decide || case_bool_decide); simplify_eq/=;
    repeat case_bool_decide; simplify_eq/=; congruence.
Qed.
Lemma field_get_update key o fs k : field_get k (field_update key o fs) = if decide (k = key) then o else field_get k fs.
Proof. destruct o; [apply field_get_set|apply field_get_delete]. Qed.

(** The keys of a decoded object are in strictly increasing order. *)
Definition field_lt (f g : text * value) : Prop := key_lt f.1 g.1 = true.
Definition sorted_fields (fs : fields_t) : Prop := StronglySorted field_lt fs.
#[global] Instance field_lt_dec : RelDecision field_lt.
Proof. intros f g. unfold field_lt. apply _. Defined.

Lemma key_lt_irrefl a : key_lt a a = false.
Proof. apply str_lt_irrefl. Qed.
Lemma key_lt_total a b : a <> b -> key_lt a b = true \/ key_lt b a = true.
Proof. intros H. apply str_lt_total. intros E. by apply H, of_bytes_inj. Qed.
Lemma key_lt_asym a b : key_lt a b = true -> key_lt b a = false.
Proof.
  unfold key_lt, str_lt, String.ltb. rewrite (String.compare_antisym (of_bytes b) (of_bytes a)).
  by destruct (String.compare (of_bytes a) (of_bytes b)).
Qed.
Lemma key_lt_trans a b c : key_lt a b = true -> key_lt b c = true -> key_lt a c = true.
Proof.
  intros Hab Hbc. destruct (decide (a = c)) as [->|Hne].
  { apply key_lt_asym in Hab. congruence. }
  destruct (key_lt_total a c Hne) as [H|H]; [done|].
  apply key_lt_asym in Hab, Hbc, H. unfold key_lt in *. rewrite str_lt_le in Hab, Hbc, H.
  assert (of_bytes a = of_bytes c) as ->%of_bytes_inj; [|done].
  apply (anti_symm String.le); [by trans (of_bytes b)|done].
Qed.

Lemma sorted_get_none k fs : sorted_fields fs -> Forall (fun f => key_lt k f.1 = true) fs -> field_get k fs = None.
Proof.
  intros _. induction 1 as [|[k' v] fs H _ IH]; [done|]. simpl in *. rewrite IH.
  rewrite bool_decide_eq_false_2; [done|]. intros <-. by rewrite key_lt_irrefl in H.
Qed.
Lemma sorted_update key o fs : sorted_fields fs -> sorted_fields (field_update key o fs).
Proof.
  destruct o as [v|]; simpl.
  - induction 1 as [|[k' v'] fs Hs IH Hall]; simpl; [repeat constructor|].
    assert (forall Q : text * value -> Prop, Q (key, v) -> Forall Q fs -> Forall Q (field_set key v fs)) as Hset.
    { intros Q HQ. clear -HQ. induction 1 as [|[k2 v2] fs2 ? ? IH2]; simpl; [by constructor|].
      repeat case_match; eauto. }
    case_bool_decide as E; [subst; by constructor|]. destruct (key_lt key k') eqn:L.
    + constructor; [by constructor|]. constructor; [done|]. eapply Forall_impl; [exact Hall|].
      intros f Hf. by apply (key_lt_trans _ k').
    + constructor; [done|]. apply Hset; [|done]. destruct (key_lt_total k' key E); [done|congruence].
  - induction 1 as [|f fs Hs IH Hall]; unfold field_delete in *; [constructor|]. rewrite filter_cons.
    case_decide; [|done]. constructor; [done|].
    apply Forall_forall. intros g [_ Hg]%list_elem_of_filter. by eapply Forall_forall in Hall.
Qed.
Lemma sorted_ext fs : forall gs, sorted_fields fs -> sorted_fields gs ->
  (forall k, field_get k fs = field_get k gs) -> fs = gs.
Proof.
  induction fs as [|[k v] fs IH]; intros [|[k' v'] gs] Hf Hg Hext.
  - done.
  - specialize (Hext k'). simpl in Hext. by rewrite bool_decide_eq_true_2 in Hext.
  - specialize (Hext k). simpl in Hext. by rewrite bool_decide_eq_true_2 in Hext.
  - inversion_clear Hf as [|? ? Hfs Hfk]. inversion_clear Hg as [|? ? Hgs Hgk].
    assert (k = k') as <-.
    { destruct (decide (k = k')) as [|Hne]; [done|exfalso].
      destruct (key_lt_total k k' Hne) as [L|L].
      - specialize (Hext k). simpl in Hext. rewrite bool_decide_eq_true_2, bool_decide_eq_false_2 in Hext by done.
        rewrite sorted_get_none in Hext; [done|done|]. eapply Forall_impl; [exact Hgk|].
        intros f Hlt. by apply (key_lt_trans _ k').
      - specialize (Hext k'). simpl in Hext. rewrite bool_decide_eq_false_2, bool_decide_eq_true_2 in Hext by done.
        rewrite sorted_get_none in Hext; [done|done|]. eapply Forall_impl; [exact Hfk|].
        intros f Hlt. by apply (key_lt_trans _ k). }
    pose proof (Hext k) as Hk. simpl in Hk. rewrite bool_decide_eq_true_2 in Hk by done. injection Hk as <-.
    f_equal. apply IH; [done..|]. intros j. destruct (decide (k = j)) as [<-|Hne].
    + by rewrite !sorted_get_none.
    + specialize (Hext j). simpl in Hext. by rewrite bool_decide_eq_false_2 in Hext.
Qed.

(** ** Pointers and their first segment *)

Definition rooted (seg path : text) : Prop :=
  path = slash :: seg \/ exists k, path = slash :: seg ++ slash :: k.

Lemma slash_cut l : no_slash l \/ exists w k, l = w ++ slash :: k /\ no_slash w.
Proof.
  induction l as [|a l [IH|(w & k & -> & Hw)]]; [left; constructor|..].
  - destruct (is_byte slash a) eqn:E; [|left; by constructor].
    right. exists [], l. unfold is_byte in E. reflect. subst. split; [done|constructor].
  - right. destruct (is_byte slash a) eqn:E.
    + unfold is_byte in E. reflect. subst. exists [], (w ++ slash :: k). split; [done|constructor].
    + exists (a :: w), k. split; [done|by constructor].
Qed.
Lemma slash_cut_last path : starts_with [slash] path = true -> exists a w, path = a ++ slash :: w /\ no_slash w.
Proof.
  rewrite starts_with_spec. intros [r ->]. simpl.
  assert (forall a l, exists b w, a ++ slash :: l = b ++ slash :: w /\ no_slash w) as H; [|apply (H [])].
  intros a l. revert a. induction l as [l IH] using (induction_ltof1 _ (@length ascii)). intros a.
  destruct (slash_cut l) as [Hl|(w & k & -> & Hw)]; [by exists a, l|].
  destruct (IH k ltac:(unfold ltof; rewrite length_app; simpl; lia) (a ++ slash :: w)) as (b & w' & E & Hw').
  exists b, w'. by rewrite <-E, <-app_assoc.
Qed.
Lemma split_slash_single w : no_slash w -> split_slash w = [w].
Proof. induction 1 as [|a l Ha _ IH]; simpl; [done|]. by rewrite Ha, IH. Qed.
Lemma split_slash_cut w k : no_slash w -> split_slash (w ++ slash :: k) = w :: split_slash k.
Proof. induction 1 as [|a l Ha _ IH]; simpl; [done|]. by rewrite Ha, IH. Qed.
Lemma split_slash_cons l : split_slash l <> [].
Proof. destruct l; simpl; repeat case_match; done. Qed.

Lemma no_slash_cut_inj w w' k k' : no_slash w -> no_slash w' -> w ++ slash :: k = w' ++ slash :: k' -> w = w'.
Proof. intros H H' E. apply (f_equal split_slash) in E. rewrite !split_slash_cut in E by done. by injection E. Qed.
Lemma no_slash_not_cut w a k : no_slash w -> w <> a ++ slash :: k.
Proof.
  intros H ->. apply Forall_app in H as [_ H]. inversion_clear H as [|? ? Hs _].
  unfold is_byte in Hs. by rewrite bool_decide_eq_true_2 in Hs.
Qed.
Lemma rooted_unique seg seg' path : no_slash seg -> no_slash seg' -> rooted seg path -> rooted seg' path -> seg = seg'.
Proof.
  intros H H' [->|[k ->]] [E|[k' E]]; injection E as E; [done|..].
  - by apply no_slash_not_cut in E.
  - symmetry in E. by apply no_slash_not_cut in E.
  - by eapply no_slash_cut_inj.
Qed.
Lemma rooted_under seg path : ((path == slash :: seg) || under (slash :: seg) path)%bool = true <-> rooted seg path.
Proof.
  unfold under, rooted. rewrite orb_true_iff, bool_decide_eq_true, starts_with_spec.
  split; (intros [H|[k H]]; [by left|right]); exists k; rewrite H; simpl; by rewrite <-?app_assoc.
Qed.

Lemma pointer_part_ok w a : pointer_part w = Ok a -> valid_escapes w = true /\ a = unescape w.
Proof. unfold pointer_part. rewrite reject_ok, negb_false_iff, ok_ok. done. Qed.
(** A pointer's parts start with its first segment, unescaped. *)
Lemma pointer_rooted path parts : pointerParts path = Ok parts ->
  starts_with [slash] path = true /\
  exists seg, no_slash seg /\ rooted seg path /\ valid_escapes seg = true /\
    exists rest, parts = unescape seg :: rest /\ (path = slash :: seg /\ rest = [] \/
      exists k, path = slash :: seg ++ slash :: k /\ collect pointer_part (split_slash k) = Ok rest).
Proof.
  unfold pointerParts. intros [Hs H]%reject_ok. apply negb_false_iff in Hs. split; [done|].
  rewrite starts_with_spec in Hs. destruct Hs as [l ->]. simpl in *. rewrite drop_0 in H.
  destruct (slash_cut l) as [Hl|(w & k & -> & Hw)].
  - rewrite split_slash_single in H by done. simpl in H. exists l. split_ok H. simplify_eq.
    apply pointer_part_ok in E as [? ->]. split_and!; [done|by left|done|].
    eexists. split; [done|]. by left.
  - rewrite split_slash_cut in H by done. simpl in H. exists w. split_ok H. simplify_eq.
    apply pointer_part_ok in E as [? ->]. split_and!; [done|right; eauto|done|]. eexists. split; [done|]. right. eauto.
Qed.
Lemma split_rest_cons k rest : collect pointer_part (split_slash k) = Ok rest -> rest <> [].
Proof.
  destruct (split_slash k) as [|w ws] eqn:E; [by apply split_slash_cons in E|].
  simpl. intros H. split_ok H. by subst.
Qed.

(** Escapes decode one to one. *)
Inductive escaped : text -> text -> Prop :=
| escaped_nil : escaped [] []
| escaped_plain x l k : x <> tilde -> x <> slash -> escaped l k -> escaped (x :: l) (x :: k)
| escaped_tilde l k : escaped l k -> escaped (tilde :: byte 48 :: l) (tilde :: k)
| escaped_slash l k : escaped l k -> escaped (tilde :: byte 49 :: l) (slash :: k).
Lemma escaped_unescape l : no_slash l -> valid_escapes l = true -> escaped l (unescape l).
Proof.
  induction l as [l IH] using (induction_ltof1 _ (@length ascii)). intros Hn Hv.
  destruct l as [|x l]; [constructor|]. inversion_clear Hn as [|? ? Hx Hl].
  cbn [valid_escapes] in Hv. unfold is_byte in Hx, Hv. reflect. case_bool_decide as Ht.
  - subst x. destruct l as [|y l]; [done|]. apply andb_true_iff in Hv as [Hy Hv].
    inversion_clear Hl as [|? ? _ Hl'].
    specialize (IH l ltac:(unfold ltof; simpl; lia) Hl' Hv).
    unfold one_of in Hy. rewrite bool_decide_eq_true, !elem_of_cons in Hy.
    destruct Hy as [->|[->|Hy]]; [..|by apply not_elem_of_nil in Hy].
    + assert (unescape (tilde :: byte 48 :: l) = tilde :: unescape l) as ->; [|by constructor].
      unfold unescape. by destruct l.
    + assert (unescape (tilde :: byte 49 :: l) = slash :: unescape l) as ->; [|by constructor].
      unfold unescape. cbn [replace_pair]. cbv [is_byte]. 
      rewrite !(bool_decide_eq_true_2 (tilde = tilde)), (bool_decide_eq_true_2 (byte 49 = byte 49)) by done.
      cbn [andb]. destruct (replace_pair tilde (byte 49) slash l); [done|].
      cbn [replace_pair]. cbv [is_byte]. by rewrite (bool_decide_eq_false_2 (slash = tilde)).
  - specialize (IH l ltac:(unfold ltof; simpl; lia) Hl Hv).
    assert (unescape (x :: l) = x :: unescape l) as ->; [|by constructor].
    assert (forall b r k, replace_pair tilde b r (x :: k) = x :: replace_pair tilde b r k) as Hkeep.
    { intros b r [|y k]; [done|]. cbn [replace_pair]. unfold is_byte at 1. by rewrite bool_decide_eq_false_2. }
    unfold unescape. by rewrite !Hkeep.
Qed.
Lemma escaped_inj l k : escaped l k -> forall l', escaped l' k -> l = l'.
Proof.
  induction 1 as [|x l k Hx Hy _ IH|l k _ IH|l k _ IH]; intros l'; inversion 1; subst; try done; by repeat f_equal; auto.
Qed.
Lemma unescape_inj seg seg' :
  no_slash seg -> no_slash seg' -> valid_escapes seg = true -> valid_escapes seg' = true ->
  unescape seg = unescape seg' -> seg = seg'.
Proof.
  intros H H' Hv Hv' E. eapply escaped_inj; [by apply escaped_unescape|].
  rewrite E. by apply escaped_unescape.
Qed.

(** ** Parents and subtrees *)

Lemma run_length_cut p x y l : p y = false -> (run_length p (x ++ y :: l) <= length x)%nat.
Proof. intros Hy. induction x as [|a x IH]; simpl; [by rewrite Hy|]. destruct (p a); lia. Qed.
Lemma run_length_exact p x y l : Forall (fun a => p a = true) x -> p y = false ->
  run_length p (x ++ y :: l) = length x.
Proof. intros H Hy. induction H as [|a x Ha _ IH]; simpl; [by rewrite Hy|]. by rewrite Ha, IH. Qed.
Lemma not_slash_slash : not_slash slash = false.
Proof. done. Qed.

Lemma parent_prefix_under a k : exists k', parent_prefix (a ++ slash :: k) = a ++ slash :: k'.
Proof.
  unfold parent_prefix. rewrite reverse_app, reverse_cons, <-app_assoc. simpl.
  pose proof (run_length_cut not_slash (reverse k) slash (reverse a) not_slash_slash) as H.
  rewrite length_reverse in H. set (n := run_length _ _) in *.
  rewrite length_app. simpl. rewrite take_app_ge by lia.
  replace (length a + S (length k) - n - length a)%nat with (S (length k - n)) by lia. simpl. eauto.
Qed.
Lemma parent_prefix_last a w : no_slash w -> parent_prefix (a ++ slash :: w) = a ++ [slash].
Proof.
  intros Hw. unfold parent_prefix. rewrite reverse_app, reverse_cons, <-app_assoc. simpl.
  rewrite run_length_exact; [..|done].
  - rewrite length_reverse, length_app. simpl.
    replace (length a + S (length w) - length w)%nat with (length (a ++ [slash])) by (rewrite length_app; simpl; lia).
    replace (a ++ slash :: w) with ((a ++ [slash]) ++ w) by (by rewrite <-app_assoc). apply take_app_length.
  - apply Forall_reverse. eapply Forall_impl; [exact Hw|]. intros x Hx. unfold not_slash. by rewrite Hx.
Qed.
Lemma parent_path_last a w : no_slash w -> parent_path (a ++ slash :: w) = a.
Proof.
  intros Hw. unfold parent_path. rewrite parent_prefix_last, length_app by done. simpl.
  rewrite Nat.add_sub. apply take_app_length.
Qed.
Lemma parent_path_rooted seg path : parent_path path = slash :: seg -> starts_with [slash] path = true ->
  exists w, path = slash :: seg ++ slash :: w /\ no_slash w.
Proof.
  intros Hp (a & w & -> & Hw)%slash_cut_last. rewrite parent_path_last in Hp by done. subst a. by exists w.
Qed.

Lemma subtrees_root seg path : no_slash seg -> rooted seg path -> slash :: seg ∈ subtrees path.
Proof.
  intros Hseg Hr. unfold subtrees. apply list_elem_of_fmap. exists 2%nat.
  assert (exists rest, split_slash path = [] :: seg :: rest) as [rest ->].
  { destruct Hr as [->|[k ->]]; simpl; [rewrite split_slash_single by done|rewrite split_slash_cut by done]; eauto. }
  split; [done|]. apply elem_of_seq. simpl. lia.
Qed.

(** ** Where recorded paths move *)

Lemma isArrayElement_root fs key : isArrayElement (VObject fs) [key] = false.
Proof. done. Qed.

Section shift.
Set Default Proof Using "All".
Context (patch : Patch) (fs : fields_t) (parts : list text).
Hypothesis Hparts : pointerParts (pt_Path patch) = Ok parts.

(** A path only moves within the subtree of the patch's first segment. *)
Lemma shifted_cases path path' : shiftedPath path patch (VObject fs) = Some path' ->
  path' = path \/ exists seg k k', no_slash seg /\ rooted seg (pt_Path patch) /\
    path = slash :: seg ++ slash :: k /\ path' = slash :: seg ++ slash :: k'.
Proof.
  unfold shiftedPath. rewrite Hparts.
  destruct (pointer_rooted _ _ Hparts) as (_ & seg & Hseg & Hroot & _ & rest & -> & Hshape).
  destruct (_ || _)%bool eqn:Hop; [intros; left; congruence|]. apply orb_false_iff in Hop as [_ Hel].
  destruct (atoi (default [] _)) as [i|]; [|intros; left; congruence].
  destruct Hshape as [[Hpath ->]|(k & Hpath & _)]; [done|].
  destruct (parent_prefix_under (slash :: seg) k) as [k1 Hk1]. simpl in Hk1. rewrite Hpath, Hk1.
  destruct (starts_with _ path) eqn:Hst; cbn [negb]; [|intros; left; congruence].
  apply starts_with_spec in Hst as [suffix Hsuffix].
  destruct (atoi (take _ _)) as [pos|]; [|intros; left; congruence].
  case_match; [intros; left; congruence|]. case_match; [done|]. intros [= <-]. right.
  exists seg, (k1 ++ suffix). eexists. split_and!; [done|right; eauto|..].
  - rewrite Hsuffix. simpl. by rewrite <-app_assoc.
  - rewrite <-app_assoc. simpl. done.
Qed.
Lemma shifted_root seg : no_slash seg -> shiftedPath (slash :: seg) patch (VObject fs) = Some (slash :: seg).
Proof.
  intros Hseg. destruct (shiftedPath _ _ _) as [path'|] eqn:E.
  - destruct (shifted_cases _ _ E) as [->|(seg' & k & k' & _ & _ & H & _)]; [done|].
    injection H as H. by apply no_slash_not_cut in H.
  - exfalso. revert E. unfold shiftedPath. rewrite Hparts.
    destruct (pointer_rooted _ _ Hparts) as (_ & seg' & Hseg' & Hroot & _ & rest & -> & Hshape).
    repeat case_match; try done. destruct Hshape as [[Hpath ->]|(k & Hpath & _)].
    { rewrite isArrayElement_root in *. by rewrite orb_true_r in *. }
    destruct (parent_prefix_under (slash :: seg') k) as [k1 Hk1]. simpl in Hk1. rewrite Hpath, Hk1 in *.
    match goal with H : negb (starts_with _ _) = false |- _ => apply negb_false_iff in H end.
    rewrite starts_with_spec in *. match goal with H : _ `prefix_of` _ |- _ => destruct H as [u Hu] end.
    injection Hu as Hu. rewrite <-app_assoc in Hu. by apply no_slash_not_cut in Hu.
Qed.
(** Paths under other segments stay; and no path leaves its own segment. *)
Lemma shifted_other seg path : no_slash seg -> rooted seg path -> ~ rooted seg (pt_Path patch) ->
  shiftedPath path patch (VObject fs) = Some path.
Proof.
  intros Hseg Hp Hother. unfold shiftedPath. rewrite Hparts.
  destruct (pointer_rooted _ _ Hparts) as (_ & seg' & Hseg' & Hroot & _ & rest & -> & Hshape).
  repeat case_match; try done; exfalso.
  all: destruct Hshape as [[Hpath ->]|(k & Hpath & _)]; [rewrite isArrayElement_root in *; by rewrite orb_true_r in *|].
  all: destruct (parent_prefix_under (slash :: seg') k) as [k1 Hk1]; simpl in Hk1; rewrite Hpath, Hk1 in *.
  all: match goal with H : negb (starts_with _ _) = false |- _ => apply negb_false_iff in H end.
  all: rewrite starts_with_spec in *; match goal with H : _ `prefix_of` _ |- _ => destruct H as [u Hu] end.
  all: assert (seg = seg') as <- by
    (apply (rooted_unique _ _ path Hseg Hseg' Hp); right; rewrite Hu; eexists; simpl; by rewrite <-app_assoc).
  all: done.
Qed.
Lemma shifted_rooted seg path path' : no_slash seg -> rooted seg path ->
  shiftedPath path patch (VObject fs) = Some path' -> rooted seg path'.
Proof.
  intros Hseg Hr Hs. destruct (shifted_cases _ _ Hs) as [->|(seg' & k & k' & Hseg' & _ & -> & ->)]; [done|].
  assert (seg = seg') as <- by (eapply rooted_unique; [..|exact Hr|right; eauto]; done). right. eauto.
Qed.
Lemma record_rooted seg : no_slash seg -> rooted seg (pt_Path patch) -> rooted seg (record_path patch parts (VObject fs)).
Proof.
  intros Hseg Hr. unfold record_path. case_match eqn:Hdash; [|done]. case_match eqn:Harr; [|done].
  apply andb_true_iff in Hdash as [_ Hlast%bool_decide_eq_true].
  destruct (pointer_rooted _ _ Hparts) as (_ & seg' & Hseg' & Hroot & _ & rest & -> & Hshape).
  assert (seg = seg') as <- by (by eapply rooted_unique).
  destruct Hshape as [[Hpath ->]|(k & Hpath & Hrest)]; [done|]. right. rewrite Hpath.
  destruct k as [|a k]; [simpl in Hrest; by simplify_eq|].
  replace (slash :: seg ++ slash :: a :: k) with ((slash :: seg ++ [slash]) ++ a :: k) by (simpl; by rewrite <-app_assoc).
  rewrite length_app. rewrite take_app_ge by (simpl; lia). eexists. simpl. rewrite <-!app_assoc. simpl. done.
Qed.
End shift.

(** ** One patch and the field it edits *)

(** What a patch makes of the field that its first part names; [None] deletes it. *)
Definition field_patch (old : option value) (rest : list text) (patch : Patch) : result (option value) :=
  match rest with
  | _ :: _ =>
      match old with
      | None => Err "patch parent is absent"
      | Some old => let? new := patchNode old rest patch in Ok (Some new)
      end
  | [] => let? new := patchValue old patch in Ok (if pt_Op patch == "remove" then None else Some new)
  end.
Lemma patchNode_field fs key rest patch :
  patchNode (VObject fs) (key :: rest) patch =
  let? o := field_patch (field_get key fs) rest patch in Ok (VObject (field_update key o fs)).
Proof.
  simpl. unfold field_patch. destruct rest.
  - destruct (patchValue _ _); [|done]. by case_bool_decide.
  - destruct (field_get key fs); [|done]. by destruct (patchNode _ _ _).
Qed.
Lemma isArrayElement_field fs fs' key rest :
  field_get key fs = field_get key fs' ->
  isArrayElement (VObject fs) (key :: rest) = isArrayElement (VObject fs') (key :: rest).
Proof. intros E. destruct rest as [|r rest]; [done|]. unfold isArrayElement, arrayAt. simpl. by rewrite E. Qed.
Lemma arrayAt_field fs fs' key rest :
  field_get key fs = field_get key fs' ->
  arrayAt (VObject fs) (removelast (key :: rest)) = arrayAt (VObject fs') (removelast (key :: rest)).
Proof. intros E. destruct rest as [|r rest]; [done|]. unfold arrayAt. simpl. by rewrite E. Qed.
Lemma shifted_field patch fs fs' key rest path :
  pointerParts (pt_Path patch) = Ok (key :: rest) -> field_get key fs = field_get key fs' ->
  shiftedPath path patch (VObject fs) = shiftedPath path patch (VObject fs').
Proof. intros Hp E. unfold shiftedPath. by rewrite Hp, (isArrayElement_field fs fs'). Qed.
Lemma record_field patch fs fs' key rest :
  field_get key fs = field_get key fs' ->
  record_path patch (key :: rest) (VObject fs) = record_path patch (key :: rest) (VObject fs').
Proof. intros E. unfold record_path. by rewrite (arrayAt_field fs fs'). Qed.

(** The state after a step: the recorded paths and the one updated field. *)
Definition record_step (patch : Patch) (parts : list text) (fs : fields_t) (seen : gset text) : gset text :=
  let document := VObject fs in
  let rebased : gset text := list_to_set (omap (fun path => shiftedPath path patch document) (elements seen)) in
  if ((pt_Op patch != "remove") || negb (isArrayElement document parts))%bool
  then {[ record_path patch parts document ]} ∪ rebased else rebased.
Lemma patch_step_ok writable seen fs patch st :
  patch_step writable (seen, fs) patch = Ok st <->
  exists key rest o,
    writable (pt_Path patch) = true /\ pointerParts (pt_Path patch) = Ok (key :: rest) /\
    (forall path, path ∈ seen ->
       overlaps (pt_Op patch) (isArrayElement (VObject fs) (key :: rest)) (pt_Path patch) path = false) /\
    field_patch (field_get key fs) rest patch = Ok o /\
    st = (record_step patch (key :: rest) fs seen, field_update key o fs).
Proof.
  unfold patch_step. rewrite reject_ok, bind_ok, negb_false_iff.
  assert (forall element p, existsb (fun path => overlaps (pt_Op patch) element p path) (elements seen) = false <->
    (forall path, path ∈ seen -> overlaps (pt_Op patch) element p path = false)) as Hex.
  { intros element p. rewrite <-not_true_iff_false, existsb_exists. split.
    - intros H path Hin. apply not_true_iff_false. intros Ho. apply H. exists path.
      split; [by apply list_elem_of_In, elem_of_elements|done].
    - intros H (path & Hin & Ho). apply list_elem_of_In, elem_of_elements in Hin. rewrite (H _ Hin) in Ho. done. }
  split.
  - intros (Hw & parts & Hp & H). apply reject_ok in H as [Hov H].
    destruct (pointer_rooted _ _ Hp) as (_ & seg & _ & _ & _ & rest & -> & _).
    rewrite patchNode_field in H. rewrite Hex in Hov.
    destruct (field_patch (field_get (unescape seg) fs) rest patch) as [o|] eqn:Ho; [|done].
    apply ok_ok in H as ->. exists (unescape seg), rest, o. done.
  - intros (key & rest & o & Hw & Hp & Hov & Ho & ->). split; [done|]. exists (key :: rest). split; [done|].
    rewrite reject_ok. split; [by apply Hex|]. by rewrite patchNode_field, Ho.
Qed.
Lemma record_step_elem patch parts fs seen path' :
  path' ∈ record_step patch parts fs seen <->
  (path' = record_path patch parts (VObject fs) /\ ((pt_Op patch != "remove") || negb (isArrayElement (VObject fs) parts))%bool = true) \/
  exists path, path ∈ seen /\ shiftedPath path patch (VObject fs) = Some path'.
Proof.
  unfold record_step. assert (path' ∈ (list_to_set (omap (fun path => shiftedPath path patch (VObject fs)) (elements seen)) : gset text) <->
    exists path, path ∈ seen /\ shiftedPath path patch (VObject fs) = Some path') as Hre.
  { rewrite elem_of_list_to_set, list_elem_of_omap. by setoid_rewrite elem_of_elements. }
  case_match; [rewrite elem_of_union, elem_of_singleton, Hre; naive_solver|rewrite Hre; naive_solver].
Qed.

(** ** Fields that no patch names *)

Definition names (key : text) (patch : Patch) : Prop :=
  exists rest, pointerParts (pt_Path patch) = Ok (key :: rest).
#[global] Instance names_dec key patch : Decision (names key patch).
Proof.
  refine (match pointerParts (pt_Path patch) as r return Decision (exists rest, r = Ok (key :: rest)) with
          | Ok (k :: rest) => if decide (k = key) then left _ else right _
          | _ => right _
          end); naive_solver.
Defined.
Lemma untouched_field writable patches key : Forall (fun p => ~ names key p) patches ->
  forall st st', loop (patch_step writable) st patches = Ok st' -> field_get key st'.2 = field_get key st.2.
Proof.
  intros H st st'. apply (loop_inv (fun s => field_get key s.2 = field_get key st.2)); [|done].
  intros [seen fs] p s Hp Hfs (key' & rest & o & _ & Hparts & _ & _ & ->)%patch_step_ok. simpl in *.
  rewrite field_get_update, decide_False; [done|]. intros <-. rewrite Forall_forall in H.
  apply (H p Hp). by exists rest.
Qed.
Lemma patches_sorted writable patches st st' :
  sorted_fields st.2 -> loop (patch_step writable) st patches = Ok st' -> sorted_fields st'.2.
Proof.
  apply (loop_inv (fun s => sorted_fields s.2)).
  intros [seen fs] p s _ Hfs (key' & rest & o & _ & _ & _ & _ & ->)%patch_step_ok. by apply sorted_update.
Qed.

(** ** Leaving out the patches of one field *)

Section leave_out.
Set Default Proof Using "All".
Context (writable : text -> bool) (seg : text).
Hypotheses (Hseg : no_slash seg) (Hvalid : valid_escapes seg = true).

(** The reduced run has the same fields but one, and fewer recorded paths. *)
Definition reduced (full part : gset text * fields_t) : Prop :=
  part.1 ⊆ full.1 /\
  (forall path, path ∈ part.1 -> exists seg', no_slash seg' /\ seg' <> seg /\ rooted seg' path) /\
  (forall key, key <> unescape seg -> field_get key full.2 = field_get key part.2).

Lemma reduced_drop full part patch full' :
  rooted seg (pt_Path patch) -> reduced full part -> patch_step writable full patch = Ok full' -> reduced full' part.
Proof.
  destruct full as [seen fs]. intros Hr (Hsub & Hroots & Hget) (key & rest & o & _ & Hp & _ & _ & ->)%patch_step_ok.
  split_and!; [|done|].
  - intros path Hpath. apply record_step_elem. right. exists path. split; [by apply Hsub|].
    destruct (Hroots path Hpath) as (seg' & Hseg' & Hne & Hr'). eapply shifted_other; [done..|].
    intros Hr2. by apply Hne, (rooted_unique _ _ (pt_Path patch)).
  - intros key' Hne. simpl. rewrite field_get_update, decide_False; [by apply Hget|].
    destruct (pointer_rooted _ _ Hp) as (_ & seg2 & Hseg2 & Hr2 & _ & rest2 & [= -> _] & _).
    by rewrite (rooted_unique _ _ _ Hseg2 Hseg Hr2 Hr).
Qed.
Lemma reduced_keep full part patch full' :
  ~ rooted seg (pt_Path patch) -> reduced full part -> patch_step writable full patch = Ok full' ->
  exists part', patch_step writable part patch = Ok part' /\ reduced full' part'.
Proof.
  destruct full as [seen fs], part as [seen' fs'].
  intros Hr (Hsub & Hroots & Hget) (key & rest & o & Hw & Hp & Hov & Ho & ->)%patch_step_ok. simpl in *.
  destruct (pointer_rooted _ _ Hp) as (_ & seg2 & Hseg2 & Hr2 & Hv2 & rest2 & [= -> <-] & _).
  assert (field_get (unescape seg2) fs = field_get (unescape seg2) fs') as Hk.
  { apply Hget. intros E. apply Hr. rewrite <-(unescape_inj seg2 seg); done. }
  eexists. split.
  { apply patch_step_ok. exists (unescape seg2), rest, o. split_and!; [done..| | |done].
    - intros path Hin. rewrite <-(isArrayElement_field fs fs') by done. by apply Hov, Hsub.
    - by rewrite <-Hk. }
  split_and!.
  - intros path. simpl. rewrite !record_step_elem.
    rewrite <-(isArrayElement_field fs fs'), <-(record_field _ fs fs') by done.
    intros [H|(path0 & Hin & Hs)]; [by left|right]. exists path0. split; [by apply Hsub|].
    by rewrite (shifted_field _ fs fs' _ _ _ Hp).
  - intros path. simpl. rewrite record_step_elem. intros [[-> _]|(path0 & Hin & Hs)].
    + exists seg2. split_and!; [done|by intros ->|]. by eapply record_rooted.
    + destruct (Hroots _ Hin) as (seg' & Hseg' & Hne & Hr'). exists seg'. split_and!; [done..|].
      by eapply shifted_rooted.
  - intros key' Hne. simpl. rewrite !field_get_update. case_decide; [done|]. by apply Hget.
Qed.
Lemma reduced_run patches : forall full part full',
  reduced full part -> loop (patch_step writable) full patches = Ok full' ->
  exists part', loop (patch_step writable) part (without (slash :: seg) patches) = Ok part' /\ reduced full' part'.
Proof.
  induction patches as [|p patches IH]; intros full part full' Hred Hrun; simpl in Hrun.
  { simplify_eq. by exists part. }
  destruct (patch_step writable full p) as [full1|] eqn:Hp; [|done]. unfold without. rewrite filter_cons.
  case_decide as Hr.
  - assert (~ rooted seg (pt_Path p)) as Hr' by (rewrite <-rooted_under; congruence).
    destruct (reduced_keep _ _ _ _ Hr' Hred Hp) as (part1 & Hp1 & Hred1).
    destruct (IH _ _ _ Hred1 Hrun) as (part' & Hrun' & Hred'). exists part'. split; [|done].
    simpl. by rewrite Hp1.
  - apply not_false_iff_true, rooted_under in Hr. eapply IH; [|done]. by eapply reduced_drop.
Qed.
Lemma without_names patches : Forall (fun p => ~ names (unescape seg) p) (without (slash :: seg) patches).
Proof.
  apply Forall_forall. intros p [Hp _]%list_elem_of_filter [rest Hparts].
  destruct (pointer_rooted _ _ Hparts) as (_ & seg2 & Hseg2 & Hr2 & Hv2 & rest2 & [= Heq <-] & _).
  assert (seg = seg2) as <- by (by apply unescape_inj).
  apply rooted_under in Hr2. congruence.
Qed.
End leave_out.
