(* ===== verification/UserIntentSpec.v ===== *)
(** * What an accepted state patch changes

    The promises of [Apply] of [UserIntent.v]: the fields it changes are exactly the
    fields its pointers name, and its direct edits of an array are never more than
    the single edits that the change needs. *)
From Stdlib Require Import Ascii.
From S2P Require Import Prelude Schema SchemaFacts PathIdentity PathFacts UserIntent EditDistance UserIntentFacts.
From stdpp Require Import sorting base tactics strings list relations gmap numbers pretty.
From stdpp Require Import list options.
Open Scope Z_scope.
Open Scope go_scope.

(** ** The changed fields *)

Lemma applyPatch_ok snapshot patches writable after : applyPatch snapshot patches writable = Ok after ->
  applyPatchOperations snapshot patches writable = Ok after /\
  validateArrayDeltas snapshot after patches = Ok tt /\
  (forall p path, p ∈ patches -> path ∈ subtrees (pt_Path p) ->
     applyPatchOperations snapshot (without path patches) writable <> Ok after).
Proof.
  unfold applyPatch. rewrite bind_ok. intros (after' & Hops & H).
  apply check_ok in H as [Hdelta H]. apply reject_ok in H as [Hsub H]. apply reject_ok in H as [_ H].
  apply ok_ok in H as <-. split_and!; [done..|]. intros p path Hp Hpath Hreplay.
  apply not_true_iff_false in Hsub. apply Hsub, existsb_exists. exists path. split.
  - apply list_elem_of_In, list_elem_of_bind. eauto.
  - unfold replays_to. by apply bool_decide_eq_true_2.
Qed.
Lemma operations_run snapshot patches writable after : applyPatchOperations snapshot patches writable = Ok after ->
  exists seen, loop (patch_step writable) (∅, snapshot) patches = Ok (seen, after).
Proof. unfold applyPatchOperations. rewrite bind_ok. intros ([seen fs] & Hrun & [= <-]). eauto. Qed.

Lemma named_field_changes snapshot patches writable after key p :
  sorted_fields snapshot -> applyPatch snapshot patches writable = Ok after -> p ∈ patches -> names key p ->
  field_get key after <> field_get key snapshot.
Proof.
  intros Hsorted (Hops & _ & Hredundant)%applyPatch_ok Hp [rest Hparts] Hsame.
  destruct (pointer_rooted _ _ Hparts) as (_ & seg & Hseg & Hr & Hv & rest' & [= -> <-] & _).
  apply (Hredundant p (slash :: seg) Hp); [by apply subtrees_root|].
  apply operations_run in Hops as [seen Hrun].
  destruct (reduced_run writable seg Hseg Hv patches (∅, snapshot) (∅, snapshot) _
    ltac:(split_and!; [done|intros ? []%not_elem_of_empty|done]) Hrun) as ([seen' fs'] & Hrun' & _ & _ & Hget).
  unfold applyPatchOperations. rewrite Hrun'. f_equal. simpl in *. symmetry.
  apply sorted_ext; [by apply (patches_sorted _ _ (∅, snapshot) _ Hsorted Hrun)|
    by apply (patches_sorted _ _ (∅, snapshot) _ Hsorted Hrun')|].
  intros k. destruct (decide (k = unescape seg)) as [->|Hne]; [|by apply Hget].
  rewrite Hsame. symmetry. apply (untouched_field _ _ _ (without_names writable seg Hseg Hv patches) _ _ Hrun').
Qed.

(** ** What one patch changes

    A pointer leads to a value through members of objects and elements of arrays. *)
Definition position (i : nat) : text := bytes (pretty i).
Inductive found : value -> list text -> value -> Prop :=
  | found_here v : found v [] v
  | found_member key fs child rest w : field_get key fs = Some child -> found child rest w -> found (VObject fs) (key :: rest) w
  | found_element i l child rest w : l !! i = Some child -> found child rest w -> found (VArray l) (position i :: rest) w.
Definition same_kind (v w : value) : Prop :=
  match v, w with VObject _, VObject _ | VArray _, VArray _ => True | _, _ => False end.

(** The named member is removed, or gets the patch's value, which is not the one it had;
    only an addition may name a member that is absent. *)
Definition member_edit (patch : Patch) (key : text) (fs fs' : fields_t) : Prop :=
  (forall k, k <> key -> field_get k fs' = field_get k fs) /\
  (pt_Op patch = "remove" /\ pt_Value patch = None /\ is_Some (field_get key fs) /\ field_get key fs' = None \/
   exists v, pt_Value patch = Some v /\ field_get key fs' = Some v /\ field_get key fs <> Some v /\
     (pt_Op patch = "add" \/ pt_Op patch = "replace" /\ is_Some (field_get key fs))).
(** The element at the named index is removed, replaced by another value or preceded by a
    new one; what is behind a removed or new element moves by one. *)
Definition element_edit (patch : Patch) (key : text) (l l' : list value) : Prop :=
  exists i, (forall j, (j < i)%nat -> l' !! j = l !! j) /\
  (pt_Op patch = "remove" /\ pt_Value patch = None /\ key = position i /\ is_Some (l !! i) /\
     (forall j, (i <= j)%nat -> l' !! j = l !! S j) \/
   exists v, pt_Value patch = Some v /\ l' !! i = Some v /\
     (pt_Op patch = "replace" /\ key = position i /\ is_Some (l !! i) /\ l !! i <> Some v /\
        (forall j, (i < j)%nat -> l' !! j = l !! j) \/
      pt_Op patch = "add" /\ (key = position i /\ (i <= length l)%nat \/ key = bytes "-" /\ i = length l) /\
        (forall j, (i <= j)%nat -> l' !! S j = l !! j))).
(** An edit happens in the object or array the pointer names the last part of; no other
    pointer leads to anything else than before. *)
Definition edited (patch : Patch) (parent : list text) (key : text) (d d' : value) : Prop :=
  (exists fs fs', found d parent (VObject fs) /\ found d' parent (VObject fs') /\ member_edit patch key fs fs' \/
   exists l l', found d parent (VArray l) /\ found d' parent (VArray l') /\ element_edit patch key l l') /\
  (forall q, q `prefix_of` parent -> exists v v', found d q v /\ found d' q v' /\ same_kind v v') /\
  (forall q w, ~ q `prefix_of` parent -> ~ parent `prefix_of` q -> found d' q w <-> found d q w).
(** Patches take effect one after the other. *)
Inductive edits (writable : text -> bool) : list Patch -> value -> value -> Prop :=
  | no_edits d : edits writable [] d d
  | more_edits patch patches parent key d d1 d2 :
      writable (pt_Path patch) = true -> pointerParts (pt_Path patch) = Ok (parent ++ [key]) ->
      edited patch parent key d d1 -> edits writable patches d1 d2 -> edits writable (patch :: patches) d d2.

Lemma itoa_position i : 0 <= i -> itoa i = position (Z.to_nat i).
Proof. intros Hi. rewrite <-(Z2Nat.id i) at 1 by done. unfold itoa, position. by destruct (Z.to_nat i). Qed.
#[global] Instance position_inj : Inj (=) (=) position.
Proof.
  intros i j E. apply (f_equal String.string_of_list_ascii) in E. unfold position, bytes in E.
  rewrite !String.string_of_list_ascii_of_string in E. by apply (inj pretty).
Qed.
Lemma found_nil v w : found v [] w <-> w = v.
Proof. split; [by inversion 1|intros ->; constructor]. Qed.
Lemma found_object fs key rest w : found (VObject fs) (key :: rest) w <-> exists child, field_get key fs = Some child /\ found child rest w.
Proof. split; [inversion 1; eauto|intros (child & ? & ?); by econstructor]. Qed.
Lemma found_array l key rest w : found (VArray l) (key :: rest) w <->
  exists i child, key = position i /\ l !! i = Some child /\ found child rest w.
Proof. split; [inversion 1; eauto 6|intros (i & child & -> & ? & ?); by econstructor]. Qed.

Lemma patchValue_ok old patch new : patchValue old patch = Ok new ->
  pt_Op patch = "remove" /\ pt_Value patch = None /\ is_Some old \/
  pt_Value patch = Some new /\ old <> Some new /\ (pt_Op patch = "add" \/ pt_Op patch = "replace" /\ is_Some old).
Proof.
  unfold patchValue. intros [Habs H]%reject_ok. case_bool_decide as Hr.
  - left. apply reject_ok in H as [Hv _]. rewrite Hr in Habs. cbn in Habs. reflect.
    split_and!; [done|by apply eq_None_not_Some|]. by destruct old.
  - right. apply reject_ok in H as [Hop H]. apply bind_ok in H as (v & Hv & H). apply reject_ok in H as [Hne [= <-]].
    destruct (pt_Value patch); [injection Hv as <-|done]. apply bool_decide_eq_false in Hne. split_and!; [done|done|].
    destruct (decide (pt_Op patch = "add")) as [|Hna]; [by left|right].
    rewrite bool_decide_eq_false_2 in Habs, Hop by done. cbn in Habs, Hop. reflect. split; [done|]. by destruct old.
Qed.
Section node.
Context (patch : Patch).

(** An edit of a child is an edit of its parent. *)
Lemma edited_lift k parent key d d' old new :
  same_kind d d' -> (forall rest w, found d (k :: rest) w <-> found old rest w) ->
  (forall rest w, found d' (k :: rest) w <-> found new rest w) ->
  (forall k' rest w, k' <> k -> found d' (k' :: rest) w <-> found d (k' :: rest) w) ->
  edited patch parent key old new -> edited patch (k :: parent) key d d'.
Proof.
  intros Hkind Hd Hd' Hother (Hedit & Hkinds & Hframe). split_and!.
  - destruct Hedit as (x & x' & [(H1 & H2 & H)|(l & l' & H1 & H2 & H)]).
    + exists x, x'. left. by rewrite Hd, Hd'.
    + exists x, x'. right. exists l, l'. by rewrite Hd, Hd'.
  - intros [|k' q] Hq.
    + exists d, d'. split_and!; [constructor|constructor|done].
    + pose proof (prefix_cons_inv_1 _ _ _ _ Hq) as ->. apply prefix_cons_inv_2 in Hq.
      setoid_rewrite Hd. setoid_rewrite Hd'. by apply Hkinds.
  - intros [|k' q] w Hq Hp; [destruct Hq; by apply prefix_nil|].
    destruct (decide (k' = k)) as [->|Hne]; [|by apply Hother]. rewrite Hd, Hd'.
    apply Hframe; intros H; [by apply Hq, prefix_cons|by apply Hp, prefix_cons].
Qed.
Lemma edited_here key d d' :
  (exists fs fs', d = VObject fs /\ d' = VObject fs' /\ member_edit patch key fs fs') \/
  (exists l l', d = VArray l /\ d' = VArray l' /\ element_edit patch key l l') -> edited patch [] key d d'.
Proof.
  intros H. split_and!.
  - destruct H as [(fs & fs' & -> & -> & H)|(l & l' & -> & -> & H)].
    + exists fs, fs'. left. split_and!; [constructor|constructor|done].
    + exists [], []. right. exists l, l'. split_and!; [constructor|constructor|done].
  - intros q ->%prefix_nil_inv. exists d, d'. split_and!; [constructor|constructor|].
    by destruct H as [(fs & fs' & -> & -> & H)|(l & l' & -> & -> & H)].
  - intros q w _ Hp. destruct Hp. apply prefix_nil.
Qed.

Lemma member_edited key fs new : patchValue (field_get key fs) patch = Ok new ->
  member_edit patch key fs (if pt_Op patch == "remove" then field_delete key fs else field_set key new fs).
Proof.
  intros Hv%patchValue_ok. unfold member_edit. case_bool_decide as Hop.
  - split; [intros k Hk; by rewrite field_get_delete, decide_False|]. left. rewrite field_get_delete, decide_True by done.
    destruct Hv as [(_ & ? & ?)|(_ & _ & [E|[E _]])]; [done| |]; by rewrite Hop in E.
  - split; [intros k Hk; by rewrite field_get_set, decide_False|]. right. exists new.
    rewrite field_get_set, decide_True by done. destruct Hv as [(? & _)|(? & ? & ?)]; done.
Qed.
Lemma insert_lookup_before {A} (l : list A) i x j : (i <= length l)%nat -> (j < i)%nat -> (take i l ++ x :: drop i l) !! j = l !! j.
Proof. intros Hi Hj. rewrite lookup_app_l by (rewrite length_take; lia). by apply lookup_take_lt. Qed.
Lemma insert_lookup_here {A} (l : list A) i x : (i <= length l)%nat -> (take i l ++ x :: drop i l) !! i = Some x.
Proof. intros Hi. rewrite lookup_app_r by (rewrite length_take; lia). rewrite length_take_le, Nat.sub_diag by done. done. Qed.
Lemma insert_lookup_behind {A} (l : list A) i x j : (i <= length l)%nat -> (i <= j)%nat -> (take i l ++ x :: drop i l) !! S j = l !! j.
Proof.
  intros Hi Hj. rewrite lookup_app_r by (rewrite length_take; lia). rewrite length_take_le by done.
  replace (S j - i)%nat with (S (j - i)) by lia. change ((x :: drop i l) !! S (j - i)) with (drop i l !! (j - i)%nat).
  rewrite lookup_drop. f_equal. lia.
Qed.
Lemma element_edited key l i new : (i <= length l)%nat ->
  (key = position i \/ pt_Op patch = "add" /\ key = bytes "-" /\ i = length l) ->
  patchValue (if pt_Op patch == "add" then None else l !! i) patch = Ok new ->
  element_edit patch key l (array_edit (pt_Op patch) i new l).
Proof.
  intros Hi Hkey Hv%patchValue_ok. exists i. unfold array_edit. case_bool_decide as Hadd.
  - split; [intros; by apply insert_lookup_before|]. right. exists new.
    destruct Hv as [(E & _)|(Hval & _ & _)]; [by rewrite E in Hadd|].
    split_and!; [done|by apply insert_lookup_here|]. right. split_and!; [done| |intros; by apply insert_lookup_behind].
    destruct Hkey as [->|(_ & -> & ->)]; auto.
  - destruct Hkey as [->|(E & _)]; [|done]. case_bool_decide as Hrep.
    + split; [intros j Hj; apply list_lookup_insert_ne; lia|]. right. exists new.
      destruct Hv as [(E & _)|(Hval & Hne & [?|[_ Hs]])]; [by rewrite E in Hrep|done|].
      split_and!; [done|apply list_lookup_insert_eq; by apply lookup_lt_is_Some|].
      left. split_and!; [done|done|done|done|]. intros j Hj. apply list_lookup_insert_ne. lia.
    + destruct Hv as [(Hr & Hnone & Hs)|(_ & _ & [?|[? _]])]; [|done|done].
      split; [intros; rewrite lookup_app_l by (rewrite length_take; lia); by apply lookup_take_lt|].
      left. split_and!; [done|done|done|done|]. intros j Hj. apply lookup_lt_is_Some in Hs.
      rewrite lookup_app_r by (rewrite length_take; lia). rewrite length_take_le, lookup_drop by lia. f_equal. lia.
Qed.

(** The index a part names. *)
Lemma named_index key (l : list value) i :
  ((i <? 0) || (Z.of_nat (length l) <? i) || ((key != bytes "-") && (itoa i != key)))%bool = false ->
  (Z.to_nat i <= length l)%nat /\ (key <> bytes "-" -> key = position (Z.to_nat i)).
Proof.
  intros H. apply orb_false_iff in H as [[Hi Hl]%orb_false_iff H]. apply Z.ltb_ge in Hi, Hl. split; [lia|].
  intros Hne. apply andb_false_iff in H as [H|H]; apply negb_false_iff, bool_decide_eq_true in H; [done|].
  by rewrite <-H, itoa_position.
Qed.
Lemma node_edited parent : forall key d d', patchNode d (parent ++ [key]) patch = Ok d' -> edited patch parent key d d'.
Proof.
  induction parent as [|k parent IH]; intros key d d' H.
  - cbn [app patchNode] in H. destruct d as [| | | |l|fs]; try discriminate H; apply edited_here.
    + right. destruct (if (_ && _ && _)%bool then _ else _) as [i|] eqn:Hi; [|done].
      apply reject_ok in H as [[Hlen Hkey]%named_index H]. apply bind_ok in H as (new & Hv & [= <-]).
      eexists _, _. split_and!; [done|done|]. apply element_edited; [done| |done].
      destruct (decide (key = bytes "-")) as [->|Hne]; [right|by left; apply Hkey].
      rewrite bool_decide_eq_true_2 in Hi by done. cbn [andb] in Hi.
      destruct (decide (pt_Op patch = "add")) as [Ha|Ha].
      * rewrite !bool_decide_eq_true_2 in Hi by done. injection Hi as <-. by rewrite Nat2Z.id.
      * rewrite bool_decide_eq_false_2 in Hi by done. discriminate Hi.
    + left. apply bind_ok in H as (new & Hv & [= <-]). eexists _, _. split_and!; [done|done|]. by apply member_edited.
  - cbn [app patchNode] in H. destruct (parent ++ [key]) as [|r rs] eqn:E; [by destruct parent|]. rewrite <-E in H.
    destruct d as [| | | |l|fs]; try discriminate H.
    + rewrite (bool_decide_eq_false_2 (parent ++ [key] = [])) in H by (rewrite E; done). rewrite andb_false_r in H.
      destruct (atoi k) as [i|] eqn:Hi; [|done]. apply reject_ok in H as [[Hlen Hkey]%named_index H].
      assert (k = position (Z.to_nat i)) as -> by (apply Hkey; intros ->; discriminate Hi). clear Hkey Hi.
      destruct (l !! Z.to_nat i) as [old|] eqn:Hl; [|done]. apply bind_ok in H as (new & Hn & [= <-]).
      apply edited_lift with old new; [done| | | |by apply IH].
      * intros rest w. rewrite found_array. split; [intros (j & c & Hj%(inj _) & Hc & ?); subst j; congruence|intros; eauto 6].
      * intros rest w. rewrite found_array.
        assert (<[Z.to_nat i:=new]> l !! Z.to_nat i = Some new) as Hnew by (apply list_lookup_insert_eq; by eapply lookup_lt_Some).
        split; [intros (j & c & Hj%(inj _) & Hc & ?); subst j; congruence|intros; eauto 6].
      * intros k' rest w Hne. rewrite !found_array.
        split; intros (j & c & -> & Hc & Hw); exists j, c; rewrite list_lookup_insert_ne in *; auto; congruence.
    + destruct (field_get k fs) as [old|] eqn:Ho; [|done]. apply bind_ok in H as (new & Hn & [= <-]).
      apply edited_lift with old new; [done| | | |by apply IH].
      * intros rest w. rewrite found_object, Ho. naive_solver.
      * intros rest w. rewrite found_object, field_get_set, decide_True by done. naive_solver.
      * intros k' rest w Hne. by rewrite !found_object, field_get_set, decide_False.
Qed.
End node.

Lemma run_edits writable patches : forall seen fs seen' fs',
  loop (patch_step writable) (seen, fs) patches = Ok (seen', fs') -> edits writable patches (VObject fs) (VObject fs').
Proof.
  induction patches as [|patch patches IH]; intros seen fs seen' fs' H; cbn [loop] in H.
  { injection H as _ <-. constructor. }
  destruct (patch_step writable (seen, fs) patch) as [[seen1 fs1]|] eqn:Hp; [|done].
  unfold patch_step in Hp. apply reject_ok in Hp as [Hw Hp]. apply bind_ok in Hp as (parts & Hparts & Hp).
  apply reject_ok in Hp as [_ Hp]. apply bind_ok in Hp as (updated & Hn & Hp).
  destruct updated as [| | | | |fs2]; try discriminate Hp. injection Hp as _ <-.
  destruct (exists_last (l:=parts)) as (parent & key & ->).
  { destruct (pointer_rooted _ _ Hparts) as (_ & seg & _ & _ & _ & rest & -> & _). done. }
  eapply more_edits; [by apply negb_false_iff in Hw|exact Hparts|by apply node_edited|by eapply IH].
Qed.

(** C40: An accepted patch is its operations carried out one after the other, each on a
    writable field and each changing exactly the member or the element its pointer names,
    to another value than it had: no other pointer leads to anything else than before,
    but for the elements behind an added or removed one, which move by one.  In the end
    exactly the fields of the state that some pointer starts with have another value than
    before. *)
Theorem apply_changes_named_fields snapshot patches writable after :
  sorted_fields snapshot -> Apply snapshot (Some patches) (Some writable) = Ok after ->
  edits writable patches (VObject snapshot) (VObject after) /\
  forall key, (exists p, p ∈ patches /\ names key p) <-> field_get key after <> field_get key snapshot.
Proof.
  intros Hsorted Happly. split.
  - apply applyPatch_ok in Happly as (Hops & _). apply operations_run in Hops as [seen Hrun]. by apply run_edits in Hrun.
  - intros key. split.
    + intros (p & Hp & Hn). by eapply named_field_changes.
    + intros Hne. apply applyPatch_ok in Happly as (Hops & _). apply operations_run in Hops as [seen Hrun].
      destruct (decide (Exists (names key) patches)) as [Hex|Hnone]; [by apply Exists_exists|].
      destruct Hne. apply (untouched_field _ _ _ (not_Exists_Forall _ _ Hnone) _ _ Hrun).
Qed.

(** ** Direct edits of an array *)

(** A patch that edits an element of the array at [/seg] itself. *)
Definition edits_array (seg : text) (patch : Patch) : Prop := parent_path (pt_Path patch) = slash :: seg.
#[global] Instance edits_array_dec seg patch : Decision (edits_array seg patch).
Proof. unfold edits_array. apply _. Defined.

Section one_array.
Set Default Proof Using "All".
Context (writable : text -> bool) (seg : text) (before : list value).
Hypotheses (Hseg : no_slash seg) (Hvalid : valid_escapes seg = true).
Abbreviation at_seg := (slash :: seg).
Abbreviation seg_key := (unescape seg).

Lemma pointer_path : pointerParts at_seg = Ok [seg_key].
Proof.
  unfold pointerParts. rewrite reject_ok. split; [done|]. simpl. rewrite drop_0, split_slash_single by done.
  simpl. unfold pointer_part. by rewrite Hvalid.
Qed.

(** Edits below a recorded at_seg are refused from then on. *)
Lemma recorded_blocks patches : forall st st', at_seg ∈ st.1 ->
  loop (patch_step writable) st patches = Ok st' -> Forall (fun p => ~ rooted seg (pt_Path p)) patches.
Proof.
  induction patches as [|p patches IH]; intros [seen fs] st' Hin Hrun; [constructor|]. cbn [loop] in Hrun. simpl in Hin.
  destruct (patch_step writable (seen, fs) p) as [st1|] eqn:Hp; [|done].
  apply patch_step_ok in Hp as (k & rest & o & _ & Hparts & Hov & _ & ->). constructor.
  - intros Hr. specialize (Hov _ Hin). unfold overlaps in Hov.
    destruct (pointer_rooted _ _ Hparts) as (_ & seg2 & Hseg2 & Hr2 & _ & rest2 & [= -> <-] & Hshape).
    assert (seg = seg2) as <- by (by eapply rooted_unique). apply rooted_under, orb_true_iff in Hr.
    destruct Hshape as [[Hpath ->]|(k & Hpath & _)].
    + rewrite isArrayElement_root, andb_false_r, Hpath in Hov. cbn [andb] in Hov.
      by rewrite bool_decide_eq_true_2 in Hov.
    + assert (at_seg <> pt_Path p) as Hne by (rewrite Hpath; intros [= E]; by apply no_slash_not_cut in E).
      assert (under (pt_Path p) at_seg = false) as Hnu.
      { apply not_true_iff_false. unfold under. rewrite starts_with_spec, Hpath. intros [u E].
        injection E as E. rewrite <-!app_assoc in E. by apply no_slash_not_cut in E. }
      rewrite (bool_decide_eq_false_2 (at_seg = _)) in Hov by done. rewrite Hnu, andb_false_r in Hov.
      destruct Hr as [Hr|Hr]; [apply bool_decide_eq_true in Hr; congruence|]. cbn [orb] in Hov. congruence.
  - eapply IH; [|exact Hrun]. simpl. apply record_step_elem. right. exists at_seg. split; [done|].
    by eapply shifted_root.
Qed.

(** The group of the array counts its direct edits. *)
Definition tally (n : nat) (array : list value) (groups : groups_t) : Prop :=
  groups !! at_seg = match n with O => None | S _ => Some (before, n) end /\ (n = O -> array = before).

Lemma rebase_root patch fs parts groups : pointerParts (pt_Path patch) = Ok parts ->
  rebase_groups patch (VObject fs) groups !! at_seg = groups !! at_seg.
Proof.
  intros Hparts. unfold rebase_groups.
  assert (forall group, (at_seg, group) ∈ omap (fun '(q, group) =>
      (fun p => (p, group)) <$> shiftedPath q patch (VObject fs)) (map_to_list groups) <->
      groups !! at_seg = Some group) as Hin.
  { intros group. rewrite list_elem_of_omap. split.
    - intros ([path' g] & Hin & (p' & Hs & [= <- <-])%fmap_Some). apply elem_of_map_to_list in Hin.
      destruct (shifted_cases _ _ _ Hparts _ _ Hs) as [->|(seg' & k & k' & _ & _ & _ & E)]; [done|].
      injection E as E. by apply no_slash_not_cut in E.
    - intros Hg. exists (at_seg, group). split; [by apply elem_of_map_to_list|].
      by rewrite (shifted_root _ _ _ Hparts seg Hseg). }
  destruct (groups !! at_seg) as [group|] eqn:Hg.
  - apply elem_of_list_to_map'; [|by apply Hin]. intros g' _ Hg'. apply Hin in Hg'. congruence.
  - apply not_elem_of_list_to_map_1. intros ([p g] & E & H)%list_elem_of_fmap.
    simpl in E. subst p. by apply Hin in H.
Qed.
Lemma count_edit_other parent fs groups groups' : parent <> at_seg ->
  count_edit parent (VObject fs) groups = Ok groups' -> groups' !! at_seg = groups !! at_seg.
Proof.
  unfold count_edit. intros Hne H. repeat case_match; simplify_eq; try done; by rewrite lookup_insert_ne.
Qed.

Lemma delta_step_ok groups fs patch groups' fs' :
  delta_step (groups, fs) patch = Ok (groups', fs') ->
  exists groups1 k rest o, count_edit (parent_path (pt_Path patch)) (VObject fs) groups = Ok groups1 /\
    pointerParts (pt_Path patch) = Ok (k :: rest) /\ groups' = rebase_groups patch (VObject fs) groups1 /\
    field_patch (field_get k fs) rest patch = Ok o /\ fs' = field_update k o fs.
Proof.
  unfold delta_step. intros (groups1 & Hcount & H)%bind_ok. apply bind_ok in H as (parts & Hparts & H).
  destruct (pointer_rooted _ _ Hparts) as (_ & seg2 & _ & _ & _ & rest & -> & _).
  rewrite patchNode_field in H. destruct (field_patch _ _ _) as [o|] eqn:Ho; [|done]. apply ok_ok in H.
  injection H as -> ->. exists groups1, (unescape seg2), rest, o. done.
Qed.
Lemma no_edits_stable patches : Forall (fun p => ~ edits_array seg p) patches -> forall groups fs groups' fs',
  loop delta_step (groups, fs) patches = Ok (groups', fs') -> groups' !! at_seg = groups !! at_seg.
Proof.
  intros Hno groups fs groups' fs' Hrun.
  apply (loop_inv (fun s => s.1 !! at_seg = groups !! at_seg) delta_step patches (groups, fs) (groups', fs')); [|done..].
  intros [g f] p [g' f'] Hp Hg (g1 & k & rest & o & Hcount & Hparts & -> & _ & _)%delta_step_ok. simpl in *.
  rewrite (rebase_root _ _ _ _ Hparts), <-Hg. eapply count_edit_other; [|exact Hcount].
  rewrite Forall_forall in Hno. by apply Hno.
Qed.

Lemma field_patch_array a rest patch o : rest <> [] -> field_patch (Some (VArray a)) rest patch = Ok o ->
  exists a', o = Some (VArray a').
Proof.
  destruct rest as [|r rest]; [done|]. intros _. unfold field_patch. intros (v & Hv & H)%bind_ok.
  apply ok_ok in H as ->. cbn [patchNode] in Hv. repeat case_match; simplify_eq; eauto.
Qed.

(** The count of an edit of the array itself. *)
Lemma count_edit_own fs groups groups' n array :
  field_get seg_key fs = Some (VArray array) -> tally n array groups ->
  count_edit at_seg (VObject fs) groups = Ok groups' -> groups' !! at_seg = Some (before, S n).
Proof.
  intros Hfield [Hg Hn] H. unfold count_edit in H. rewrite bool_decide_eq_false_2, pointer_path in H by done.
  unfold arrayAt in H. simpl in H. rewrite Hfield in H. simpl in H. injection H as <-.
  rewrite lookup_insert_eq, Hg. destruct n; [by rewrite Hn|done].
Qed.
Lemma edits_below p : edits_array seg p -> exists w, pt_Path p = slash :: seg ++ slash :: w.
Proof.
  unfold edits_array. intros He. destruct (parent_path_rooted _ _ He) as (w & E & _); [|eauto].
  unfold parent_path, parent_prefix in He. rewrite take_take in He. apply starts_with_spec.
  destruct (pt_Path p) as [|a l]; [by rewrite take_nil in He|]. 
  destruct (Nat.min _ _); [done|]. injection He as -> _. by exists l.
Qed.
Lemma below_not_at w : slash :: seg ++ slash :: w <> at_seg.
Proof. intros [= E]. symmetry in E. by apply no_slash_not_cut in E. Qed.

(** Every edit in the array's subtree is of an element, or replaces the array. *)
Definition flat (patch : Patch) : Prop := rooted seg (pt_Path patch) -> edits_array seg patch \/ pt_Path patch = at_seg.

(** One patch keeps the tally, or records the array's own path. *)
Lemma tally_step seen fs p seen1 fs1 groups groups1 fs1' n array :
  flat p -> patch_step writable (seen, fs) p = Ok (seen1, fs1) -> delta_step (groups, fs) p = Ok (groups1, fs1') ->
  field_get seg_key fs = Some (VArray array) -> tally n array groups ->
  let n' := if decide (edits_array seg p) then S n else n in
  fs1' = fs1 /\ ((exists array', field_get seg_key fs1 = Some (VArray array') /\ tally n' array' groups1) \/
                (at_seg ∈ seen1 /\ tally n' before groups1)).
Proof.
  intros Hflat (k & rest & o & Hw & Hparts & Hov & Ho & [= -> ->])%patch_step_ok
    (groups2 & k' & rest' & o' & Hcount & Hparts' & -> & Ho' & ->)%delta_step_ok Hfield Htally n'.
  rewrite Hparts in Hparts'. injection Hparts' as <- <-. rewrite Ho in Ho'. injection Ho' as <-. split; [done|].
  assert (forall array', (n' = O -> array' = before) -> tally n' array' (rebase_groups p (VObject fs) groups2)) as Hn'.
  { intros array' Harray. split; [|done]. rewrite (rebase_root _ fs _ groups2 Hparts). unfold n'. case_decide as He.
    - unfold edits_array in He. rewrite He in Hcount. by eapply count_edit_own.
    - rewrite (count_edit_other _ _ _ _ He Hcount). apply Htally. }
  destruct (pointer_rooted _ _ Hparts) as (_ & seg2 & Hseg2 & Hr2 & Hv2 & rest2 & [= -> <-] & Hshape).
  rewrite field_get_update. destruct (decide (seg2 = seg)) as [->|Hne].
  - destruct (Hflat Hr2) as [He|Hpath].
    + left. destruct (edits_below _ He) as [w Hpath]. rewrite decide_True by done.
      assert (rest <> []) as Hrest.
      { destruct Hshape as [[E _]|(w' & _ & Hc)]; [|by eapply split_rest_cons].
        rewrite Hpath in E. by apply below_not_at in E. }
      rewrite Hfield in Ho. destruct (field_patch_array _ _ _ _ Hrest Ho) as [array' ->].
      exists array'. split; [done|]. apply Hn'. unfold n'. by rewrite decide_True.
    + right. split; [|by apply Hn']. apply record_step_elem. left.
      destruct Hshape as [[_ ->]|(w & E & _)]; [|rewrite Hpath in E; by apply symmetry, below_not_at in E].
      split; [|by rewrite isArrayElement_root, orb_true_r]. unfold record_path. rewrite Hpath. by case_match.
  - left. exists array. rewrite decide_False by (intros E; apply Hne; symmetry; by apply unescape_inj).
    split; [done|]. apply Hn'. unfold n'. case_decide as He; [done|]. apply Htally.
Qed.
Lemma tally_run patches : Forall flat patches -> forall seen fs seen' after groups groups' after' n array,
  loop (patch_step writable) (seen, fs) patches = Ok (seen', after) ->
  loop delta_step (groups, fs) patches = Ok (groups', after') ->
  field_get seg_key fs = Some (VArray array) -> tally n array groups ->
  exists array', tally (n + length (filter (edits_array seg) patches)) array' groups'.
Proof.
  induction 1 as [|p patches Hp Hps IH];
    intros seen fs seen' after groups groups' after' n array Hrun Hdelta Hfield Htally.
  { injection Hdelta as <- <-. rewrite Nat.add_0_r. eauto. }
  cbn [loop] in Hrun, Hdelta.
  destruct (patch_step writable (seen, fs) p) as [[seen1 fs1]|] eqn:Hstep; [|done].
  destruct (delta_step (groups, fs) p) as [[groups1 fs1']|] eqn:Hd; [|done].
  destruct (tally_step _ _ _ _ _ _ _ _ _ _ Hp Hstep Hd Hfield Htally) as [-> Hcases]. rewrite filter_cons.
  set (m := (n + length _)%nat). set (n' := if decide _ then S n else n) in *.
  assert (m = (n' + length (filter (edits_array seg) patches))%nat) as ->.
  { unfold m, n'. case_decide; simpl; lia. }
  destruct Hcases as [(array' & Hfield' & Htally')|[Hin Htally']]; [by eapply IH|].
  pose proof (recorded_blocks patches (seen1, fs1) _ Hin Hrun) as Hblocked.
  assert (Forall (fun p => ~ edits_array seg p) patches) as Hno.
  { apply (Forall_impl _ _ _ Hblocked). intros q Hq He. apply Hq. right. by apply edits_below. }
  exists before. destruct Htally' as [Hg _]. split; [|done].
  assert (filter (edits_array seg) patches = []) as ->.
  { destruct (filter _ _) as [|q l] eqn:E; [done|]. assert (q ∈ filter (edits_array seg) patches) as Hq by (rewrite E; left).
    apply list_elem_of_filter in Hq as [He Hq]. rewrite Forall_forall in Hno. by destruct (Hno q Hq). }
  rewrite Nat.add_0_r, <-Hg. by eapply no_edits_stable.
Qed.
End one_array.

(** the direct edits of an accepted patch to an array field are as few as can be:
    no shorter sequence of single insertions, removals and replacements leads from
    the field's array to its new one. *)
Theorem array_edits_minimal snapshot patches writable after seg left right k :
  Apply snapshot (Some patches) (Some writable) = Ok after ->
  pointerParts (slash :: seg) = Ok [unescape seg] -> Forall (flat seg) patches ->
  field_get (unescape seg) snapshot = Some (VArray left) -> field_get (unescape seg) after = Some (VArray right) ->
  nsteps edit k left right -> (length (filter (edits_array seg) patches) <= k)%nat.
Proof.
  intros (Hops & Hdelta & _)%applyPatch_ok Hparts Hflat Hleft Hright Hsteps.
  destruct (pointer_rooted _ _ Hparts) as (_ & seg' & Hseg & Hr & Hv & rest & [= Heq <-] & Hshape).
  destruct Hshape as [[[= <-] _]|(w & _ & Hc)]; [|by apply split_rest_cons in Hc].
  apply operations_run in Hops as [seen Hrun]. unfold validateArrayDeltas in Hdelta.
  apply bind_ok in Hdelta as ([groups fs'] & Hgroups & H). apply reject_ok in H as [Hred _]. simpl in Hred.
  destruct (tally_run writable seg left Hseg Hv patches Hflat _ _ _ _ _ _ _ 0 left Hrun Hgroups Hleft) as (array' & Hg & _).
  { by split. }
  simpl in Hg. destruct (length (filter _ patches)) as [|n]; [lia|].
  assert (redundant_group (VObject after) (slash :: seg, (left, S n)) = false) as Hgroup.
  { apply not_true_iff_false. intros E. apply not_true_iff_false in Hred. apply Hred, existsb_exists.
    eexists. split; [|exact E]. apply list_elem_of_In. by apply elem_of_map_to_list. }
  unfold redundant_group in Hgroup. rewrite Hparts in Hgroup. unfold arrayAt in Hgroup. simpl in Hgroup.
  rewrite Hright in Hgroup. simpl in Hgroup. apply bool_decide_eq_false in Hgroup.
  destruct (decide (S n <= k)%nat) as [|Hk]; [done|]. exfalso. apply Hgroup.
  apply Nat.lt_succ_r, edit_distance_spec. right. exists k. split; [lia|done].
Qed.

(** ** One replaced field *)

(** Replacing a field by another value is accepted and does just that. *)
Lemma single_replace snapshot seg old new writable :
  no_slash seg -> valid_escapes seg = true ->
  writable (slash :: seg) = true -> field_get (unescape seg) snapshot = Some old -> old <> new ->
  Apply snapshot (Some [mkPatch "replace" (slash :: seg) (Some new)]) (Some writable) =
  Ok (field_set (unescape seg) new snapshot).
Proof.
  intros Hseg Hv Hw Hold Hne. set (patch := mkPatch _ _ _). set (after := field_set _ _ _).
  assert (pointerParts (slash :: seg) = Ok [unescape seg]) as Hparts by (exact (pointer_path writable seg [] Hseg Hv)).
  assert (field_patch (field_get (unescape seg) snapshot) [] patch = Ok (Some new)) as Hpatch.
  { rewrite Hold. unfold field_patch, patchValue. cbn [pt_Op pt_Value patch]. consts. 
    by rewrite bool_decide_eq_false_2 by congruence. }
  assert (forall st, loop (patch_step writable) (∅, snapshot) [patch] = Ok st <->
    patch_step writable (∅, snapshot) patch = Ok st) as Hone.
  { intros st. cbn [loop]. by destruct (patch_step _ _ _). }
  assert (applyPatchOperations snapshot [patch] writable = Ok after) as Hops.
  { unfold applyPatchOperations. rewrite (proj2 (Hone (record_step patch [unescape seg] snapshot ∅, after))); [done|].
    apply patch_step_ok. exists (unescape seg), [], (Some new). split_and!; try done. }
  unfold Apply, applyPatch. rewrite Hops.
  assert (validateArrayDeltas snapshot after [patch] = Ok tt) as ->.
  { unfold validateArrayDeltas. cbn [loop]. unfold delta_step.
    change (pt_Path patch) with ([] ++ slash :: seg). rewrite (parent_path_last [] seg Hseg). unfold count_edit.
    rewrite bool_decide_eq_true_2 by done. cbn [app]. rewrite Hparts, patchNode_field, Hpatch.
    unfold rebase_groups. rewrite map_to_list_empty. cbn iota beta. done. }
  assert (subtrees (slash :: seg) = [slash :: seg]) as Hsub.
  { unfold subtrees. simpl. by rewrite split_slash_single. }
  assert (existsb (fun path => replays_to snapshot (without path [patch]) writable after)
    ([patch] ≫= fun p => subtrees (pt_Path p)) = false) as ->.
  { cbn [mbind list_bind app]. change (pt_Path patch) with (slash :: seg). rewrite Hsub. cbn [app existsb].
    unfold without. rewrite filter_cons, decide_False, filter_nil by (cbn [pt_Path patch]; by rewrite bool_decide_eq_true_2).
    rewrite orb_false_r. unfold replays_to. apply bool_decide_eq_false_2.
    unfold applyPatchOperations. cbn [loop]. intros [= E]. apply (f_equal (field_get (unescape seg))) in E.
    unfold after in E. rewrite field_get_set, decide_True in E by done. congruence. }
  done.
Qed.

(** ** A document *)

Module state_sample.
Definition str (s : string) : value := VString (bytes s).
Definition change (op path : string) (v : option value) : Patch := mkPatch op (bytes path) v.
Definition snapshot : fields_t :=
  [(bytes "approved", VBool false); (bytes "items", VArray [str "one"; str "two"; str "three"])].
Definition after : fields_t :=
  [(bytes "approved", VBool true); (bytes "items", VArray [str "two"; str "third"; str "four"])].
Definition patches : list Patch :=
  [change "remove" "/items/0" None; change "replace" "/approved" (Some (VBool true));
   change "replace" "/items/1" (Some (str "third")); change "add" "/items/-" (Some (str "four"))].
Definition anything (path : text) : bool := true.

Lemma accepted : Apply snapshot (Some patches) (Some anything) = Ok after.
Proof. vm_compute. reflexivity. Qed.

(** Removing an item and adding it back is refused, also around other edits. *)
Example round_trip_refused :
  Apply snapshot (Some [change "remove" "/items/2" None; change "replace" "/approved" (Some (VBool true));
                        change "add" "/items/-" (Some (str "three"))]) (Some anything) =
  Err "patch contains redundant array edits at %s".
Proof. vm_compute. reflexivity. Qed.
Example overlap_refused :
  Apply snapshot (Some [change "replace" "/items" (Some (VArray [])); change "add" "/items/-" (Some (str "x"))])
    (Some anything) = Err "overlapping patch paths".
Proof. vm_compute. reflexivity. Qed.

Lemma apply_changes_named_fields_witness :
  edits anything patches (VObject snapshot) (VObject after) /\
  ((exists p, p ∈ patches /\ names (bytes "items") p) <->
   field_get (bytes "items") after <> field_get (bytes "items") snapshot).
Proof.
  destruct (apply_changes_named_fields snapshot patches anything after) as [He Hn].
  - repeat constructor.
  - exact accepted.
  - split; [exact He|apply Hn].
Defined.
Lemma array_edits_minimal_witness : (length (filter (edits_array (bytes "items")) patches) <= 3)%nat.
Proof.
  apply (array_edits_minimal snapshot patches anything after (bytes "items")
    [str "one"; str "two"; str "three"] [str "two"; str "third"; str "four"] 3).
  - exact accepted.
  - vm_compute. reflexivity.
  - apply Forall_cons. split; [intros _; left; vm_compute; reflexivity|].
    apply Forall_cons. split; [intros [E|[k E]]; discriminate E|].
    apply Forall_cons. split; [intros _; left; vm_compute; reflexivity|].
    apply Forall_cons. split; [intros _; left; vm_compute; reflexivity|]. constructor.
  - vm_compute. reflexivity.
  - vm_compute. reflexivity.
  - eapply nsteps_l; [apply (edit_remove [])|]. eapply nsteps_l; [apply (edit_replace [str "two"])|].
    eapply nsteps_l; [apply (edit_insert [str "two"; str "third"])|]. constructor.
Defined.

(** The baseline of an array is taken at its first direct edit, so that an earlier
    edit inside an element hides a longer sequence: here two direct edits are
    accepted where one insertion is enough. *)
Definition item (n : string) : value := VObject [(bytes "v", VNumber (bytes n))].
Lemma nested_edit_hides_redundancy :
  let patches := [change "replace" "/items/0/v" (Some (VNumber (bytes "2")));
                  change "replace" "/items/1" (Some (item "3")); change "add" "/items/0" (Some (item "1"))] in
  let left := [item "1"; item "2"] in let right := [item "1"; item "2"; item "3"] in
  Apply [(bytes "items", VArray left)] (Some patches) (Some anything) = Ok [(bytes "items", VArray right)] /\
  length (filter (edits_array (bytes "items")) patches) = 2%nat /\ edit left right.
Proof.
  split; [vm_compute; reflexivity|]. split; [vm_compute; reflexivity|].
  apply (edit_insert [item "1"; item "2"]).
Qed.
End state_sample.
