(* ===== verification/JsonCodec.v ===== *)
(** * Structs and JSON values

    How [encoding/json] turns the structs of a program into the [value]s of
    [UserIntent.v] and back: the [json.Marshal] of a struct and the strict
    [DecodeState] (unknown fields are errors) of [internal/userintent].  A type that
    the program sends through JSON is an instance of [Json]; what survives the round
    trip is [portable], and [JsonExact] is the promise that it does survive. *)
From Stdlib Require Import Ascii.
From S2P Require Import Prelude PathIdentity PathFacts UserIntent UserIntentFacts.
From stdpp Require Import sorting base tactics strings list gmap numbers pretty.
From stdpp Require Import list options.
Open Scope Z_scope.
Open Scope go_scope.

(** [from_json x v] decodes [v] into a variable that holds [x]; [null] leaves
    anything but a pointer or a slice as it is. *)
Class Json (A : Type) := { zero : A; to_json : A -> value; from_json : A -> value -> result A }.
Class JsonExact (A : Type) `{Json A} := {
  portable : A -> Prop;
  json_exact : forall x, portable x -> from_json zero (to_json x) = Ok x }.

Definition mismatch {A} : result A := Err "json: cannot unmarshal %s".

#[global] Instance string_json : Json string := {
  zero := ""; to_json s := VString (bytes (json_text s));
  from_json x v := match v with VNull => Ok x | VString s => Ok (of_bytes s) | _ => mismatch end }.
#[global] Instance bool_json : Json bool := {
  zero := false; to_json := VBool;
  from_json x v := match v with VNull => Ok x | VBool b => Ok b | _ => mismatch end }.
(** [strconv.ParseInt] of a JSON number. *)
#[global] Instance int64_json : Json Z := {
  zero := 0; to_json z := VNumber (itoa z);
  from_json x v :=
    match v with
    | VNull => Ok x
    | VNumber n => match atoi n with Some z => Ok z | None => mismatch end
    | _ => mismatch
    end }.
#[global] Instance pointer_json {A} `{Json A} : Json (option A) := {
  zero := None; to_json p := match p with Some x => to_json x | None => VNull end;
  from_json p v := match v with VNull => Ok None | v => let? x := from_json (default zero p) v in Ok (Some x) end }.
(** A slice is decoded afresh. *)
Definition slice_to_json {A} `{Json A} (s : slice A) : value :=
  match s with Some l => VArray (to_json <$> l) | None => VNull end.
Definition slice_from_json {A} `{Json A} (s : slice A) (v : value) : result (slice A) :=
  match v with
  | VNull => Ok None
  | VArray l => let? xs := collect (from_json zero) l in Ok (Some xs)
  | _ => mismatch
  end.

(** ** Structs *)

(** A field: its name, its encoding ([None]: left out by [omitempty]) and how a
    value is decoded into it. *)
Record json_field (A : Type) := mkField {
  jf_name : string; jf_encode : A -> option value; jf_decode : A -> value -> result A }.
Arguments mkField {A}. Arguments jf_name {A}. Arguments jf_encode {A}. Arguments jf_decode {A}.

Definition plain {A B} `{Json B} (name : string) (get : A -> B) (set : A -> B -> A) : json_field A :=
  mkField name (fun x => Some (to_json (get x))) (fun x v => let? y := from_json (get x) v in Ok (set x y)).
Definition sliced {A B} `{Json B} (name : string) (get : A -> slice B) (set : A -> slice B -> A) : json_field A :=
  mkField name (fun x => Some (slice_to_json (get x))) (fun x v => let? y := slice_from_json (get x) v in Ok (set x y)).
Definition omitted {A} (empty : A -> bool) (f : json_field A) : json_field A :=
  mkField (jf_name f) (fun x => if empty x then None else jf_encode f x) (jf_decode f).

Definition lower (a : ascii) : ascii :=
  let n := N_of_ascii a in if ((65 <=? n) && (n <=? 90))%N then ascii_of_N (n + 32) else a.
(** The field a key names: by its exact name, else without regard to case (names
    that contain a [k] or an [s] also match two letters outside ASCII). *)
Definition find_field {A} (fields : list (json_field A)) (key : text) : option (json_field A) :=
  match list_find (fun f => bytes (jf_name f) = key) fields with
  | Some (_, f) => Some f
  | None => snd <$> list_find (fun f => lower <$> bytes (jf_name f) = lower <$> key) fields
  end.
Definition struct_fields {A} (fields : list (json_field A)) (x : A) : fields_t :=
  foldl (fun fs f => match jf_encode f x with Some v => field_set (bytes (jf_name f)) v fs | None => fs end) [] fields.
Definition decode_field {A} (fields : list (json_field A)) (x : A) (kv : text * value) : result A :=
  match find_field fields kv.1 with
  | Some f => jf_decode f x kv.2
  | None => Err "json: unknown field %q"
  end.
Definition struct_decode {A} (fields : list (json_field A)) (x : A) (v : value) : result A :=
  match v with VNull => Ok x | VObject fs => loop (decode_field fields) x fs | _ => mismatch end.

(** ** Leaves survive *)

Lemma of_bytes_bytes s : of_bytes (bytes s) = s.
Proof. apply String.string_of_list_ascii_of_string. Qed.

Lemma parse_uint_snoc ds a : parse_uint (ds ++ [a]) 10 = parse_uint ds 10 * 10 + digit_value a.
Proof. unfold parse_uint. by rewrite foldl_app. Qed.

#[global] Instance string_exact : JsonExact string.
Proof.
  refine {| portable s := valid_utf8 s = true |}. intros s Hs. simpl.
  by rewrite json_text_valid, of_bytes_bytes.
Defined.
#[global] Instance bool_exact : JsonExact bool.
Proof. refine {| portable _ := True |}. done. Defined.

(** Decimal numerals read back. *)
Lemma numeral_digit x : (x < 10)%N -> is_digit (pretty_N_char x) = true /\ digit_value (pretty_N_char x) = Z.of_N x.
Proof.
  intros Hx. assert (exists n, (n < 10)%nat /\ x = N.of_nat n) as (n & Hn & ->).
  { exists (N.to_nat x). split; lia. }
  do 10 (destruct n as [|n]; [by vm_compute|]). lia.
Qed.
Lemma numeral_go x s : exists ds, bytes (pretty_N_go x s) = ds ++ bytes s /\
  forallb is_digit ds = true /\ parse_uint ds 10 = Z.of_N x /\ ((0 < x)%N -> ds <> []).
Proof.
  revert s. induction (N.lt_wf_0 x) as [x _ IH]; intros s.
  destruct (decide (x = 0%N)) as [->|Hne].
  { exists []. rewrite pretty_N_go_0. split_and!; [done..|lia]. }
  rewrite pretty_N_go_step by lia.
  destruct (IH (x `div` 10)%N ltac:(apply N.div_lt; lia) (String (pretty_N_char (x `mod` 10)) s)) as (ds & -> & Hd & Hp & _).
  destruct (numeral_digit (x `mod` 10) ltac:(apply N.mod_lt; lia)) as [Hdig Hval].
  exists (ds ++ [pretty_N_char (x `mod` 10)]). split_and!.
  - by rewrite <-app_assoc.
  - rewrite forallb_app, Hd. simpl. by rewrite Hdig.
  - rewrite parse_uint_snoc, Hp, Hval. rewrite (N.Div0.div_mod x 10) at 3. lia.
  - intros _. by destruct ds.
Qed.
Lemma numeral x : exists ds, bytes (pretty x) = ds /\ forallb is_digit ds = true /\ parse_uint ds 10 = Z.of_N x /\ ds <> [].
Proof.
  unfold pretty, pretty_N. case_decide as H; [subst; exists (bytes "0"); by split_and!|].
  destruct (numeral_go x "") as (ds & E & Hd & Hp & Hn). rewrite app_nil_r in E.
  exists ds. split_and!; [done..|]. apply Hn. lia.
Qed.
Lemma atoi_itoa z : int64 z -> atoi (itoa z) = Some z.
Proof.
  intros Hz. unfold itoa. destruct z as [|p|p].
  - by vm_compute.
  - change (pretty (Z.pos p)) with (pretty (N.pos p)). destruct (numeral (N.pos p)) as (ds & -> & Hd & Hp & Hn).
    unfold atoi. destruct ds as [|a ds]; [done|]. cbn [forallb] in Hd. apply andb_true_iff in Hd as [Ha Hd].
    assert (is_byte (byte 45) a = false /\ is_byte (byte 43) a = false) as [-> ->].
    { unfold is_byte. split; apply bool_decide_eq_false; intros ->; done. }
    rewrite bool_decide_eq_false_2 by done. cbn [forallb orb]. rewrite Ha, Hd, Hp. cbn [andb negb].
    by rewrite bool_decide_eq_true_2.
  - change (pretty (Z.neg p)) with ("-" +:+ pretty (N.pos p)).
    change (bytes ("-" +:+ pretty (N.pos p))) with (byte 45 :: bytes (pretty (N.pos p))).
    destruct (numeral (N.pos p)) as (ds & -> & Hd & Hp & Hn).
    unfold atoi. change (is_byte (byte 45) (byte 45)) with true. cbv iota beta.
    rewrite bool_decide_eq_false_2, Hd, Hp by done. cbn [negb orb].
    by rewrite bool_decide_eq_true_2.
Qed.
#[global] Instance int64_exact : JsonExact Z.
Proof. refine {| portable z := int64 z |}. intros z Hz. simpl. by rewrite atoi_itoa. Defined.

Lemma slice_exact {A} `{JsonExact A} (l : list A) s :
  Forall portable l -> slice_from_json s (slice_to_json (Some l)) = Ok (Some l).
Proof.
  intros Hl. unfold slice_from_json, slice_to_json.
  enough (collect (from_json (zero : A)) (to_json <$> l) = Ok l) as E by (by rewrite E).
  induction Hl as [|x l Hx _ IH]; [done|]. rewrite fmap_cons. cbn [collect]. by rewrite json_exact, IH.
Qed.
