(* ===== verification/ExactJson.v ===== *)
(** * Exact JSON

    Models [internal/exactjson]: the walk that refuses repeated object keys, the
    check of a decoded document against the fields of a Go type, and the canonical
    encoding.

    Of [encoding/json] this file holds what the package calls: the scanner's lexemes,
    the token stream of a [Decoder] with its states, and [Decode] into [any] with
    [UseNumber] and its nesting limit.  A decoded object is a map, kept as the list of
    its members in key order ([UserIntent.v]); before that, as it stands in the text,
    it is the list of its members in their order, repetitions included. *)
From Stdlib Require Import Ascii.
From S2P Require Import Prelude Schema PathIdentity UserIntent UserIntentFacts.
From stdpp Require Import sorting base tactics strings list gmap numbers pretty.
From stdpp Require Import list options.
Open Scope Z_scope.
Open Scope go_scope.

Definition quote : ascii := byte 34.
Definition comma : ascii := byte 44.
Definition colon : ascii := byte 58.
Definition open_brace : ascii := byte 123.
Definition close_brace : ascii := byte 125.
Definition open_bracket : ascii := byte 91.
Definition close_bracket : ascii := byte 93.
Definition dot : ascii := byte 46.
Definition hyphen : ascii := byte 45.
Definition plus_sign : ascii := byte 43.
Definition zero_digit : ascii := byte 48.
Definition letter_u : ascii := byte 117.
Definition replacement_char : text := bytes replacement.

(** ** Lexemes of the scanner *)

Definition is_space (a : ascii) : bool := one_of [byte 32; byte 9; byte 10; byte 13] a.
Fixpoint skip_spaces (l : text) : text :=
  match l with a :: l' => if is_space a then skip_spaces l' else l | [] => [] end.

Definition is_hex : ascii -> bool := sourceHexByte.
Definition escape_letters : text := bytes "bfnrt\/" ++ [quote].
(** The rest of a string literal up to its closing quote, and what follows. *)
Fixpoint scan_string (l : text) : option (text * text) :=
  match l with
  | [] => None
  | a :: l1 =>
      if is_byte quote a then Some ([], l1) else
      if is_byte backslash a then
        match l1 with
        | b :: l2 =>
            if is_byte letter_u b then
              match l2 with
              | h1 :: h2 :: h3 :: h4 :: l3 =>
                  if forallb is_hex [h1; h2; h3; h4]
                  then prod_map (fun s => a :: b :: h1 :: h2 :: h3 :: h4 :: s) id <$> scan_string l3
                  else None
              | _ => None
              end
            else if one_of escape_letters b then prod_map (fun s => a :: b :: s) id <$> scan_string l2
            else None
        | [] => None
        end
      else if byte_in 0 31 a then None
      else prod_map (cons a) id <$> scan_string l1
  end.

(** The runes of a string, each as its encoding: what [utf8.DecodeRune] yields
    from the first byte on, U+FFFD for a byte that starts no well-formed sequence. *)
Fixpoint runes (l : text) : list text :=
  match l with
  | [] => []
  | a :: l1 =>
      if seq1 a then [a] :: runes l1 else
      match l1 with
      | [] => [replacement_char]
      | b :: l2 =>
          if seq2 a b then [a; b] :: runes l2 else
          match l2 with
          | [] => replacement_char :: runes l1
          | c :: l3 =>
              if seq3 a b c then [a; b; c] :: runes l3 else
              match l3 with
              | [] => replacement_char :: runes l1
              | d :: l4 =>
                  if seq4 a b c d then [a; b; c; d] :: runes l4 else replacement_char :: runes l1
              end
          end
      end
  end.

(** [getu4]: the code unit of four digits; the runes are ASCII. *)
Definition code_unit (digits : list text) : Z := parse_uint (concat digits) 16.
(** [utf16.IsSurrogate] and [utf16.DecodeRune] *)
Definition is_surrogate (r : Z) : bool := ((55296 <=? r) && (r <? 57344))%bool.
Definition high_surrogate (r : Z) : bool := ((55296 <=? r) && (r <? 56320))%bool.
Definition low_surrogate (r : Z) : bool := ((56320 <=? r) && (r <? 57344))%bool.
Definition decode_surrogates (r1 r2 : Z) : Z := (r1 - 55296) * 1024 + (r2 - 56320) + 65536.
Definition control_escape (a : ascii) : option ascii :=
  let n := N_of_ascii a in
  if one_of [quote; backslash; slash; byte 39] a then Some a else
  if (n =? 98)%N then Some (byte 8) else
  if (n =? 102)%N then Some (byte 12) else
  if (n =? 110)%N then Some (byte 10) else
  if (n =? 114)%N then Some (byte 13) else
  if (n =? 116)%N then Some (byte 9) else None.
Definition hex_rune (r : text) : bool := match r with [a] => is_hex a | _ => false end.
(** A byte that may not stand in a literal. *)
Definition bare_rune (r : text) : bool := match r with [a] => is_byte quote a || byte_in 0 31 a | _ => false end%bool.
(** [unquoteBytes] of what stands between the quotes. *)
Fixpoint unquote (rs : list text) : option text :=
  match rs with
  | [] => Some []
  | r :: rs1 =>
      if r == [backslash] then
        match rs1 with
        | e :: rs2 =>
            if e == [letter_u] then
              match rs2 with
              | h1 :: h2 :: h3 :: h4 :: rs3 =>
                  let rr := code_unit [h1; h2; h3; h4] in
                  if negb (forallb hex_rune [h1; h2; h3; h4]) then None else
                  if is_surrogate rr then
                    match rs3 with
                    | b :: u :: g1 :: g2 :: g3 :: g4 :: rs4 =>
                        let rr1 := code_unit [g1; g2; g3; g4] in
                        if ((b == [backslash]) && (u == [letter_u]) && forallb hex_rune [g1; g2; g3; g4] &&
                            high_surrogate rr && low_surrogate rr1)%bool
                        then app (encode_rune (decode_surrogates rr rr1)) <$> unquote rs4
                        else app replacement_char <$> unquote rs3
                    | _ => app replacement_char <$> unquote rs3
                    end
                  else app (encode_rune rr) <$> unquote rs3
              | _ => None
              end
            else match e with [a] => c ← control_escape a; cons c <$> unquote rs2 | _ => None end
        | [] => None
        end
      else if bare_rune r then None
      else app r <$> unquote rs1
  end.
Definition lex_string (l : text) : option (text * text) :=
  '(raw, rest) ← scan_string l; s ← unquote (runes raw); Some (s, rest).

(** [-? (0 | [1-9][0-9]* ) (. [0-9]+)? ([eE] [+-]? [0-9]+)?], as far as it goes. *)
Fixpoint digits (l : text) : text * text :=
  match l with
  | a :: l' => if is_digit a then prod_map (cons a) id (digits l') else ([], l)
  | [] => ([], [])
  end.
Definition digits1 (l : text) : option (text * text) :=
  match digits l with ([], _) => None | p => Some p end.
Definition lex_integer (l : text) : option (text * text) :=
  match l with
  | a :: l' => if is_byte zero_digit a then Some ([a], l') else digits1 l
  | [] => None
  end.
Definition lex_fraction (l : text) : option (text * text) :=
  match l with
  | a :: l' => if is_byte dot a then prod_map (cons a) id <$> digits1 l' else Some ([], l)
  | [] => Some ([], l)
  end.
Definition lex_sign (set : text) (l : text) : text * text :=
  match l with a :: l' => if one_of set a then ([a], l') else ([], l) | [] => ([], l) end.
Definition lex_exponent (l : text) : option (text * text) :=
  match l with
  | a :: l' =>
      if one_of [byte 101; byte 69] a then
        let '(sign, l2) := lex_sign [plus_sign; hyphen] l' in
        prod_map (fun ds => a :: sign ++ ds) id <$> digits1 l2
      else Some ([], l)
  | [] => Some ([], l)
  end.
Definition lex_number (l : text) : option (text * text) :=
  let '(sign, l1) := lex_sign [hyphen] l in
  '(whole, l2) ← lex_integer l1;
  '(fraction, l3) ← lex_fraction l2;
  '(exponent, l4) ← lex_exponent l3;
  Some (sign ++ whole ++ fraction ++ exponent, l4).

Definition lex_word (word l : text) : option text :=
  if starts_with word l then Some (drop (length word) l) else None.
(** A value that is not an object or an array, from its first byte on. *)
Definition lex_scalar (l : text) : option (value * text) :=
  match l with
  | [] => None
  | a :: l' =>
      if is_byte quote a then prod_map VString id <$> lex_string l' else
      if is_byte (byte 116) a then (fun r => (VBool true, r)) <$> lex_word (bytes "true") l else
      if is_byte (byte 102) a then (fun r => (VBool false, r)) <$> lex_word (bytes "false") l else
      if is_byte (byte 110) a then (fun r => (VNull, r)) <$> lex_word (bytes "null") l else
      prod_map VNumber id <$> lex_number l
  end.

(** ** The token stream of a decoder *)

Inductive TokenState :=
| tokenTopValue | tokenArrayStart | tokenArrayValue | tokenArrayComma
| tokenObjectStart | tokenObjectKey | tokenObjectColon | tokenObjectValue | tokenObjectComma.
#[global] Instance TokenState_eq_dec : EqDecision TokenState.
Proof. solve_decision. Defined.
Inductive TokenValue := Delim (a : ascii) | Scalar (v : value).
Record Decoder := mkDecoder { input : text; tokenState : TokenState; tokenStack : list TokenState }.

Definition NewDecoder (raw : text) : Decoder := mkDecoder raw tokenTopValue [].
Definition EOF : string := "EOF".
Definition tokenError {A} : result A := Err "invalid character %s".
Definition tokenValueAllowed (st : TokenState) : bool :=
  match st with tokenTopValue | tokenArrayStart | tokenArrayValue | tokenObjectValue => true | _ => false end.
(** [tokenValueEnd] *)
Definition value_end (st : TokenState) : TokenState :=
  match st with
  | tokenArrayStart | tokenArrayValue => tokenArrayComma
  | tokenObjectValue => tokenObjectComma
  | st => st
  end.
(** [Decode] of a scalar token. *)
Definition token_scalar (st : TokenState) (stack : list TokenState) (l : text) : result (TokenValue * Decoder) :=
  match lex_scalar l with
  | Some (v, rest) => Ok (Scalar v, mkDecoder rest st stack)
  | None => Err "unexpected EOF or invalid character"
  end.
Definition close_token (a : ascii) (stack : list TokenState) (l : text) : result (TokenValue * Decoder) :=
  match stack with
  | st :: stack => Ok (Delim a, mkDecoder l (value_end st) stack)
  | [] => Err "runtime error: index out of range"
  end.
Fixpoint next_token (st : TokenState) (stack : list TokenState) (l : text) : result (TokenValue * Decoder) :=
  match l with
  | [] => Err EOF
  | c :: l1 =>
      if is_space c then next_token st stack l1 else
      if is_byte open_bracket c then
        if tokenValueAllowed st then Ok (Delim c, mkDecoder l1 tokenArrayStart (st :: stack)) else tokenError
      else if is_byte close_bracket c then
        if bool_decide (st ∈ [tokenArrayStart; tokenArrayComma]) then close_token c stack l1 else tokenError
      else if is_byte open_brace c then
        if tokenValueAllowed st then Ok (Delim c, mkDecoder l1 tokenObjectStart (st :: stack)) else tokenError
      else if is_byte close_brace c then
        if bool_decide (st ∈ [tokenObjectStart; tokenObjectComma]) then close_token c stack l1 else tokenError
      else if is_byte colon c then
        if st == tokenObjectColon then next_token tokenObjectValue stack l1 else tokenError
      else if is_byte comma c then
        if st == tokenArrayComma then next_token tokenArrayValue stack l1 else
        if st == tokenObjectComma then next_token tokenObjectKey stack l1 else tokenError
      else if (is_byte quote c && bool_decide (st ∈ [tokenObjectStart; tokenObjectKey]))%bool then
        token_scalar tokenObjectColon stack l
      else if tokenValueAllowed st then token_scalar (value_end st) stack l
      else tokenError
  end.
Definition NextToken (decoder : Decoder) : result (TokenValue * Decoder) :=
  next_token (tokenState decoder) (tokenStack decoder) (input decoder).
Definition More (decoder : Decoder) : bool :=
  match skip_spaces (input decoder) with
  | [] => false
  | c :: _ => negb (one_of [close_bracket; close_brace] c)
  end.

(** ** Repeated keys *)

Definition out_of_fuel {A} : result A := Err "out of fuel".
Definition is_delim (a : ascii) (token : TokenValue) : bool :=
  match token with Delim b => is_byte a b | Scalar _ => false end.
(** What ends an object or an array. *)
Definition walk_end (close : ascii) (unclosed : string) (decoder : Decoder) : result Decoder :=
  let? next := NextToken decoder in
  if is_delim close next.1 then Ok next.2 else Err unclosed.
Fixpoint walkValue (fuel : nat) (decoder : Decoder) : result Decoder :=
  match fuel with
  | O => out_of_fuel
  | S fuel =>
      let? next := NextToken decoder in
      match next.1 with
      | Scalar _ => Ok next.2
      | Delim d =>
          if is_byte open_brace d then walkUniqueObject fuel ∅ next.2 else
          if is_byte open_bracket d then walkArray fuel next.2 else
          Err "unexpected JSON delimiter %q"
      end
  end
with walkUniqueObject (fuel : nat) (seen : gset text) (decoder : Decoder) : result Decoder :=
  match fuel with
  | O => out_of_fuel
  | S fuel =>
      if More decoder then
        let? next := NextToken decoder in
        match next.1 with
        | Scalar (VString key) =>
            reject "JSON object contains duplicate key %q" when bool_decide (key ∈ seen);
            let? decoder := walkValue fuel next.2 in
            walkUniqueObject fuel ({[ key ]} ∪ seen) decoder
        | _ => Err "JSON object key is not a string"
        end
      else walk_end close_brace "JSON object is not closed" decoder
  end
with walkArray (fuel : nat) (decoder : Decoder) : result Decoder :=
  match fuel with
  | O => out_of_fuel
  | S fuel =>
      if More decoder then
        let? decoder := walkValue fuel decoder in
        walkArray fuel decoder
      else walk_end close_bracket "JSON array is not closed" decoder
  end.

(** Two rounds per byte are enough. *)
Definition walk_fuel (raw : text) : nat := 2 * length raw + 2.
Definition ValidateUniqueObject (raw : text) (subject : string) : result unit :=
  reject "exact JSON contract is uninitialized" when (subject == "");
  let decoder := NewDecoder raw in
  let? start := NextToken decoder in
  reject "%s must be one JSON object" when negb (is_delim open_brace start.1);
  let? decoder := walkUniqueObject (walk_fuel raw) ∅ start.2 in
  match NextToken decoder with
  | Ok _ => Err "%s has trailing JSON token %v"
  | Err e => if e == EOF then Ok tt else Err e
  end.

(** ** [Decode] into [any] *)

(** The nesting limit of the scanner; [None]: no limit, the grammar itself. *)
Definition maxNestingDepth : Z := 10000.
Definition too_deep (limit : option Z) (depth : Z) : bool :=
  match limit with Some limit => limit <=? depth | None => false end.
(** The items of an array or an object up to its end: at the [start] after the
    opening delimiter, else after an item. *)
Definition items_from {A} (close : ascii) (start : bool) (items : text -> option (list A * text)) (l : text)
    : option (list A * text) :=
  match skip_spaces l with
  | [] => None
  | c :: l' =>
      if is_byte close c then Some ([], l') else
      if start then items l else
      if is_byte comma c then items l' else None
  end.
Fixpoint parse_value (limit : option Z) (fuel : nat) (depth : Z) (l : text) : option (value * text) :=
  match fuel with
  | O => None
  | S fuel =>
      match skip_spaces l with
      | [] => None
      | c :: l1 =>
          if is_byte open_bracket c then
            if too_deep limit depth then None else
            prod_map VArray id <$> items_from close_bracket true (parse_elements limit fuel (depth + 1)) l1
          else if is_byte open_brace c then
            if too_deep limit depth then None else
            prod_map VObject id <$> items_from close_brace true (parse_members limit fuel (depth + 1)) l1
          else lex_scalar (c :: l1)
      end
  end
with parse_elements (limit : option Z) (fuel : nat) (depth : Z) (l : text) : option (list value * text) :=
  match fuel with
  | O => None
  | S fuel =>
      '(x, l1) ← parse_value limit fuel depth l;
      prod_map (cons x) id <$> items_from close_bracket false (parse_elements limit fuel depth) l1
  end
with parse_members (limit : option Z) (fuel : nat) (depth : Z) (l : text) : option (fields_t * text) :=
  match fuel with
  | O => None
  | S fuel =>
      match skip_spaces l with
      | q :: l1 =>
          if negb (is_byte quote q) then None else
          '(key, l2) ← lex_string l1;
          match skip_spaces l2 with
          | k :: l3 =>
              if negb (is_byte colon k) then None else
              '(x, l4) ← parse_value limit fuel depth l3;
              prod_map (cons (key, x)) id <$> items_from close_brace false (parse_members limit fuel depth) l4
          | [] => None
          end
      | [] => None
      end
  end.

(** The first value of a text as it stands there. *)
Definition parse (limit : option Z) (l : text) : option (value * text) := parse_value limit (walk_fuel l) 0 l.
(** Objects become maps: of several members with one key the last one stays. *)
Fixpoint as_maps (v : value) : value :=
  match v with
  | VArray l => VArray (as_maps <$> l)
  | VObject fs => VObject (foldl (fun m kv => field_set kv.1 (as_maps kv.2) m) [] fs)
  | v => v
  end.
Definition Decode (raw : text) : result value :=
  match parse (Some maxNestingDepth) raw with Some (v, _) => Ok (as_maps v) | None => Err "json: cannot decode" end.

(** ** The fields of a Go type *)

(** What [reflect] shows of a type: whether it, or a pointer to it, implements
    [json.Unmarshaler], and its kind: a map is one from strings, [TOther] is any kind
    without fields and elements.  The types the program checks are finite trees. *)
Record StructField (T : Type) := mkStructField {
  sf_Name : string; sf_Tag : string; sf_Exported : bool; sf_Anonymous : bool; sf_Type : T }.
Arguments mkStructField {T}. Arguments sf_Name {T}. Arguments sf_Tag {T}. Arguments sf_Exported {T}.
Arguments sf_Anonymous {T}. Arguments sf_Type {T}.
Inductive GoType : Type :=
| TPointer (elem : GoType)
| TStruct (unmarshaler : bool) (fields : list (StructField GoType))
| TSlice (unmarshaler : bool) (elem : GoType)
| TArray (unmarshaler : bool) (len : nat) (elem : GoType)
| TMap (unmarshaler : bool) (elem : GoType)
| TOther (unmarshaler : bool).

(** [strings.Split(field.Tag.Get("json"), ",")[0]] *)
Definition json_name {T} (field : StructField T) : text :=
  let tag := bytes (sf_Tag field) in take (run_length (fun a => negb (is_byte comma a)) tag) tag.
(** A struct, or one pointer to a struct. *)
Definition struct_kind (t : GoType) : bool :=
  match t with TStruct _ _ | TPointer (TStruct _ _) => true | _ => false end.
Definition promoted (field : StructField GoType) : bool :=
  (sf_Exported field && sf_Anonymous field && (json_name field == []) && struct_kind (sf_Type field))%bool.
Definition own_name (field : StructField GoType) : option text :=
  let name := json_name field in
  if negb (sf_Exported field) then None else
  if name == [hyphen] then None else
  if (sf_Anonymous field && (name == []) && struct_kind (sf_Type field))%bool then None else
  Some (if name == [] then bytes (sf_Name field) else name).
Definition own_field (fields : gmap text GoType) (field : StructField GoType) : gmap text GoType :=
  match own_name field with Some name => <[name := sf_Type field]> fields | None => fields end.
Fixpoint exactStructFields (target : GoType) : gmap text GoType :=
  match target with
  | TStruct _ fs =>
      foldl own_field
        (foldl (fun fields field =>
           if promoted field then
             match sf_Type field with
             | TPointer elem => exactStructFields elem
             | _ => exactStructFields (sf_Type field)
             end ∪ fields
           else fields) ∅ fs) fs
  | _ => ∅
  end.

(** [strings.EqualFold] with a name in ASCII, which the names of all fields are:
    besides the letters of the other case only the Kelvin sign and the long s fold
    to a letter. *)
Definition fold_rune (r : text) : text :=
  match r with
  | [a] => [let n := N_of_ascii a in if ((65 <=? n) && (n <=? 90))%N then ascii_of_N (n + 32) else a]
  | [a; b] => if r == [byte 197; byte 191] then [byte 115] else r
  | [a; b; c] => if r == [byte 226; byte 132; byte 170] then [byte 107] else r
  | r => r
  end.
Definition EqualFold (a b : text) : bool := (fold_rune <$> runes a) == (fold_rune <$> runes b).

Fixpoint strip_pointers (t : GoType) : GoType := match t with TPointer elem => strip_pointers elem | t => t end.
Definition unmarshals (t : GoType) : bool :=
  match t with TPointer _ => false | TStruct u _ | TSlice u _ | TArray u _ _ | TMap u _ | TOther u => u end.
Definition alias_of (fields : gmap text GoType) (name : text) : bool :=
  existsb (fun entry => EqualFold name entry.1) (map_to_list fields).
(** The loop over the map of an object visits its members in the order of the keys. *)
Fixpoint validateShape (v : value) (target : GoType) (path : string) (allowUnknown : bool) : result unit :=
  let target := strip_pointers target in
  match v with
  | VNull => Ok tt
  | _ =>
      if unmarshals target then Ok tt else
      match target, v with
      | TStruct _ _, VObject object =>
          let fields := exactStructFields target in
          for_each (fun member =>
            match fields !! member.1 with
            | Some fieldType => validateShape member.2 fieldType (path +:+ "." +:+ of_bytes member.1) allowUnknown
            | None =>
                if allowUnknown then
                  reject "%s contains inexact alias %q for %q" when alias_of fields member.1; Ok tt
                else Err "%s contains inexact or unknown field %q"
            end) object
      | TSlice _ elem, VArray values | TArray _ _ elem, VArray values =>
          for_each (fun nested => validateShape nested elem (path +:+ "[%d]") allowUnknown) values
      | _, _ => Ok tt
      end
  end.

Definition ValidateExactFields (raw : text) (target : option GoType) (subject : string) : result unit :=
  match target with
  | None => Err "exact JSON contract is uninitialized"
  | Some target =>
      reject "exact JSON contract is uninitialized" when (subject == "");
      let? decoded := Decode raw in
      validateShape decoded target subject false
  end.
Definition ValidateObject (raw : text) (target : option GoType) (subject : string) : result unit :=
  check ValidateUniqueObject raw subject;
  ValidateExactFields raw target subject.
Definition ValidateCompatibleObject (raw : text) (target : option GoType) (subject : string) : result unit :=
  check ValidateUniqueObject raw subject;
  match target with
  | None => Err "exact JSON contract is uninitialized"
  | Some target =>
      reject "exact JSON contract is uninitialized" when (subject == "");
      let? decoded := Decode raw in
      validateShape decoded target subject true
  end.

(** ** The canonical encoding *)

Definition canonical_hex (n : N) : ascii := ascii_of_N (if (n <? 10)%N then 48 + n else 87 + n).
Definition write_rune (r : text) : text :=
  match r with
  | [a] =>
      let n := N_of_ascii a in
      if one_of [quote; backslash] a then [backslash; a] else
      if (n =? 8)%N then [backslash; byte 98] else
      if (n =? 12)%N then [backslash; byte 102] else
      if (n =? 10)%N then [backslash; byte 110] else
      if (n =? 13)%N then [backslash; byte 114] else
      if (n =? 9)%N then [backslash; byte 116] else
      if (n <? 32)%N then bytes "\u00" ++ [canonical_hex (N.shiftr n 4); canonical_hex (N.land n 15)] else r
  | r => r
  end.
Definition writeCanonicalString (s : text) : text := quote :: concat (write_rune <$> runes s) ++ [quote].
(** The members of a map by [sort.Strings] of its keys, in whatever order they are
    visited ([canonical_any_order]). *)
Fixpoint insert_member (f : text * text) (l : list (text * text)) : list (text * text) :=
  match l with
  | [] => [f]
  | g :: l' => if key_lt g.1 f.1 then g :: insert_member f l' else f :: l
  end.
Definition sort_members (fs : list (text * text)) : list (text * text) := foldr insert_member [] fs.
Definition comma_separated (items : list text) : text :=
  match items with [] => [] | x :: l => x ++ concat ((fun item => comma :: item) <$> l) end.
Fixpoint writeCanonical (v : value) : text :=
  match v with
  | VNull => bytes "null"
  | VBool b => bytes (if b then "true" else "false")
  | VNumber n => n
  | VString s => writeCanonicalString s
  | VArray l => open_bracket :: comma_separated (writeCanonical <$> l) ++ [close_bracket]
  | VObject fs =>
      open_brace :: comma_separated ((fun member => writeCanonicalString member.1 ++ colon :: member.2) <$>
        sort_members ((fun member => (member.1, writeCanonical member.2)) <$> fs)) ++ [close_brace]
  end.
(** [marshal] is [json.Marshal] of the value's type. *)
Definition Canonical {A} (marshal : A -> result text) (x : A) : result text :=
  let? raw := marshal x in
  let? decoded := Decode raw in
  Ok (writeCanonical decoded).
