(* ===== verification/ExactJsonFacts.v ===== *)
(** * Facts about exact JSON

    What the lexemes and the parser consume; the walk over the token stream against
    the grammar; and what decoding a document into a Go type assigns. *)
From Stdlib Require Import Ascii.
From S2P Require Import Prelude Schema SchemaFacts PathIdentity PathFacts UserIntent UserIntentFacts JsonCodec ExactJson.
From stdpp Require Import sorting base tactics strings list gmap numbers pretty.
From stdpp Require Import list options.
Open Scope Z_scope.
Open Scope go_scope.

(** ** What the lexemes consume *)

Lemma is_byte_true a b : is_byte a b = true <-> b = a.
Proof. unfold is_byte. by rewrite bool_decide_eq_true. Qed.

Lemma skip_spaces_idem l : skip_spaces (skip_spaces l) = skip_spaces l.
Proof. induction l as [|a l IH]; [done|]. simpl. destruct (is_space a) eqn:E; [done|]. simpl. by rewrite E. Qed.
Lemma skip_spaces_length l : (length (skip_spaces l) <= length l)%nat.
Proof. induction l as [|a l IH]; simpl; [lia|]. destruct (is_space a); simpl; lia. Qed.
Lemma skip_spaces_head l c r : skip_spaces l = c :: r -> is_space c = false /\ (length r < length l)%nat.
Proof.
  induction l as [|a l IH]; [done|]. simpl. destruct (is_space a) eqn:E.
  - intros H. apply IH in H as [? ?]. split; [done|lia].
  - intros [= -> ->]. split; [done|lia].
Qed.

(** A lexer that succeeds leaves less, or no more, than it was given. *)
Definition consumes {A} (f : text -> option (A * text)) : Prop := forall l x r, f l = Some (x, r) -> (length r < length l)%nat.
Lemma consumes_scan_string : consumes scan_string.
Proof.
  intros l. remember (length l) as n eqn:Hn. revert l Hn. induction n as [n IH] using lt_wf_ind. intros l -> x r.
  destruct l as [|a l1]; [done|]. cbn [scan_string].
  assert (forall l', (length l' < length (a :: l1))%nat -> forall y (g : text -> text), prod_map g id <$> scan_string l' = Some (y, r) -> (length r < length (a :: l1))%nat) as Hrec.
  { intros l' Hl y g. destruct (scan_string l') as [[z r']|] eqn:E; simpl; [|done]. intros [= _ <-]. unfold id. apply (IH (length l')) in E; [simpl in *; lia|done|done]. }
  intros H. repeat case_match; try done; first [eapply Hrec; [|exact H]; subst; simpl; lia|simplify_eq/=; lia].
Qed.
Lemma consumes_lex_string : consumes lex_string.
Proof.
  intros l x r. unfold lex_string. destruct (scan_string l) as [[raw r']|] eqn:E; cbn; [|done].
  destruct (unquote _); cbn; [|done]. intros [= _ <-]. by apply consumes_scan_string in E.
Qed.
Lemma digits_length l : (length (digits l).2 <= length l)%nat.
Proof. induction l as [|a l IH]; simpl; [lia|]. destruct (is_digit a); simpl; [destruct (digits l); simpl in *; lia|lia]. Qed.
Lemma consumes_digits1 : consumes digits1.
Proof.
  intros [|a l] x r; unfold digits1; simpl; [done|]. destruct (is_digit a); simpl; [|done].
  pose proof (digits_length l). destruct (digits l) as [ds r']. simpl in *. intros [= <- <-]. lia.
Qed.
Lemma lex_sign_length set l : (length (lex_sign set l).2 <= length l)%nat.
Proof. destruct l as [|a l]; simpl; [lia|]. destruct (one_of set a); simpl; lia. Qed.
Lemma consumes_lex_number : consumes lex_number.
Proof.
  intros l x r. unfold lex_number. pose proof (lex_sign_length [hyphen] l) as H1.
  destruct (lex_sign [hyphen] l) as [sign l1]. simpl in H1.
  destruct (lex_integer l1) as [[whole l2]|] eqn:E2; simpl; [|done].
  destruct (lex_fraction l2) as [[fraction l3]|] eqn:E3; simpl; [|done].
  destruct (lex_exponent l3) as [[exponent l4]|] eqn:E4; simpl; [|done]. intros [= <- <-].
  assert (length l2 < length l1)%nat.
  { destruct l1 as [|a l1]; [done|]. cbn [lex_integer] in E2. destruct (is_byte zero_digit a); [by simplify_eq/=; lia|].
    by apply consumes_digits1 in E2. }
  assert (length l3 <= length l2)%nat.
  { destruct l2 as [|a l2']; [by simplify_eq/=|]. cbn [lex_fraction] in E3. destruct (is_byte dot a); [|by simplify_eq/=].
    destruct (digits1 l2') as [[ds r']|] eqn:E; simplify_eq/=. apply consumes_digits1 in E. lia. }
  assert (length l4 <= length l3)%nat; [|lia].
  destruct l3 as [|a l3']; [by simplify_eq/=|]. cbn [lex_exponent] in E4. case_match; [|by simplify_eq/=].
  pose proof (lex_sign_length [plus_sign; hyphen] l3') as Hs. destruct (lex_sign [plus_sign; hyphen] l3') as [s l5]. simpl in *.
  destruct (digits1 l5) as [[ds r']|] eqn:E; simplify_eq/=. apply consumes_digits1 in E. lia.
Qed.
Lemma consumes_lex_word word l r : word <> [] -> lex_word word l = Some r -> (length r < length l)%nat.
Proof.
  unfold lex_word, starts_with. intros Hw. case_bool_decide as E; [|done]. intros [= <-].
  rewrite length_drop. assert (length word <= length l)%nat by (rewrite <-E, length_take; lia).
  destruct word; [done|]. simpl in *. lia.
Qed.
Lemma consumes_lex_scalar : consumes lex_scalar.
Proof.
  intros [|a l] x r; [done|]. unfold lex_scalar. intros H. repeat case_match; try done.
  - destruct (lex_string l) as [[s r']|] eqn:E; simplify_eq/=. apply consumes_lex_string in E. lia.
  - destruct (lex_word _ _) eqn:E; simplify_eq/=. by apply consumes_lex_word in E.
  - destruct (lex_word _ _) eqn:E; simplify_eq/=. by apply consumes_lex_word in E.
  - destruct (lex_word _ _) eqn:E; simplify_eq/=. by apply consumes_lex_word in E.
  - destruct (lex_number _) as [[s r']|] eqn:E; simplify_eq/=. by apply consumes_lex_number in E.
Qed.

Lemma consumes_items {A} close start (items : text -> option (list A * text)) :
  consumes items -> consumes (items_from close start items).
Proof.
  intros Hi l x r. unfold items_from. destruct (skip_spaces l) as [|c l'] eqn:El; [done|]. apply skip_spaces_head in El as [_ Hl].
  destruct (is_byte close c); [by intros [= _ <-]|]. destruct start; [apply Hi|]. destruct (is_byte comma c); [|done].
  intros H%Hi. lia.
Qed.
Lemma consumes_map {A B} (g : A -> B) o x (r : text) : prod_map g id <$> o = Some (x, r) -> exists y, o = Some (y, r) /\ x = g y.
Proof. destruct o as [[y r']|]; simpl; [|done]. intros [= <- <-]. eauto. Qed.
Lemma parse_consumes limit n :
  (forall depth, consumes (parse_value limit n depth)) /\ (forall depth, consumes (parse_elements limit n depth)) /\
  (forall depth, consumes (parse_members limit n depth)).
Proof.
  induction n as [|n (IHv & IHe & IHm)]; [done|]. split_and!; intros depth l x r.
  - cbn [parse_value]. destruct (skip_spaces l) as [|c l1] eqn:El; [done|]. apply skip_spaces_head in El as [_ Hl].
    destruct (is_byte open_bracket c); [|destruct (is_byte open_brace c)].
    + destruct (too_deep limit depth); [done|]. intros (y & H & _)%consumes_map. apply consumes_items in H; [lia|apply IHe].
    + destruct (too_deep limit depth); [done|]. intros (y & H & _)%consumes_map. apply consumes_items in H; [lia|apply IHm].
    + intros H%consumes_lex_scalar. simpl in H. lia.
  - cbn [parse_elements]. destruct (parse_value limit n depth l) as [[y l1]|] eqn:E; simpl; [|done]. apply IHv in E.
    intros (z & H & _)%consumes_map. apply consumes_items in H; [lia|apply IHe].
  - cbn [parse_members]. destruct (skip_spaces l) as [|q l1] eqn:El; [done|]. apply skip_spaces_head in El as [_ Hl].
    destruct (is_byte quote q); cbn [negb]; [|done].
    destruct (lex_string l1) as [[key l2]|] eqn:Es; simpl; [|done]. apply consumes_lex_string in Es.
    destruct (skip_spaces l2) as [|k l3] eqn:E2; [done|]. apply skip_spaces_head in E2 as [_ Hl2].
    destruct (is_byte colon k); cbn [negb]; [|done].
    destruct (parse_value limit n depth l3) as [[y l4]|] eqn:E; simpl; [|done]. apply IHv in E.
    intros (z & H & _)%consumes_map. apply consumes_items in H; [lia|apply IHm].
Qed.
Lemma consumes_parse_value limit n depth : consumes (parse_value limit n depth).
Proof. apply parse_consumes. Qed.

(** ** The token stream *)

Lemma next_token_spaces st k l : next_token st k l = next_token st k (skip_spaces l).
Proof.
  induction l as [|a l IH]; [done|]. simpl. destruct (is_space a) eqn:E; [done|]. simpl. by rewrite ?E.
Qed.

(** Whether the outcome of a walk is the expected one, which error aside. *)
Definition agrees {A} (o : option A) (w : result A) : Prop :=
  match o with Some x => w = Ok x | None => exists e, w = Err e end.

(** No object repeats a key. *)
Fixpoint unique_keys (v : value) : bool :=
  match v with
  | VArray l => forallb unique_keys l
  | VObject fs => bool_decide (NoDup (fst <$> fs)) && forallb (fun member => unique_keys member.2) fs
  | _ => true
  end%bool.

Lemma lex_scalar_delimiter c l :
  c ∈ [open_bracket; close_bracket; open_brace; close_brace; colon; comma] -> lex_scalar (c :: l) = None.
Proof. intros H. repeat (apply elem_of_cons in H as [->|H]; [reflexivity|]). by apply not_elem_of_nil in H. Qed.

(** A decoder inside an array or object that belongs to a value in state [st]. *)
Section walk.
Definition accepted {A} (ok : A -> bool) (next : text -> Decoder) (parsed : option (A * text)) : option Decoder :=
  '(x, r) ← parsed; if ok x then Some (next r) else None.

Definition walks_value (n : nat) : Prop := forall m depth st k l,
  tokenValueAllowed st = true -> (2 * length l < n)%nat -> (2 * length l < m)%nat ->
  agrees (accepted unique_keys (fun r => mkDecoder r (value_end st) k) (parse_value None m depth l))
    (walkValue n (mkDecoder l st k)).
Definition walks_array (n : nat) : Prop := forall m depth st s0 k l,
  st = tokenArrayStart \/ st = tokenArrayComma -> (2 * length l + 1 < n)%nat -> (2 * length l + 1 < m)%nat ->
  agrees (accepted (forallb unique_keys) (fun r => mkDecoder r (value_end s0) k)
      (items_from close_bracket (st == tokenArrayStart) (parse_elements None m depth) l))
    (walkArray n (mkDecoder l st (s0 :: k))).
(** Members whose keys are new and distinct. *)
Definition new_members (seen : gset text) (fs : fields_t) : bool :=
  (bool_decide (NoDup (fst <$> fs)) && forallb (fun member => bool_decide (member.1 ∉ seen) && unique_keys member.2) fs)%bool.
Definition walks_object (n : nat) : Prop := forall m depth st s0 k l seen,
  st = tokenObjectStart \/ st = tokenObjectComma -> (2 * length l + 1 < n)%nat -> (2 * length l + 1 < m)%nat ->
  agrees (accepted (new_members seen) (fun r => mkDecoder r (value_end s0) k)
      (items_from close_brace (st == tokenObjectStart) (parse_members None m depth) l))
    (walkUniqueObject n seen (mkDecoder l st (s0 :: k))).

Lemma new_members_cons seen key x fs :
  new_members seen ((key, x) :: fs) = (bool_decide (key ∉ seen) && unique_keys x && new_members ({[ key ]} ∪ seen) fs)%bool.
Proof.
  unfold new_members. rewrite fmap_cons. cbn [forallb fst snd].
  apply Bool.eq_iff_eq_true. rewrite !andb_true_iff, !bool_decide_eq_true, !forallb_forall, NoDup_cons.
  setoid_rewrite andb_true_iff. setoid_rewrite bool_decide_eq_true. setoid_rewrite <-list_elem_of_In.
  rewrite list_elem_of_fmap. setoid_rewrite not_elem_of_union. setoid_rewrite not_elem_of_singleton.
  split; intros H; destruct_and!; split_and!; try done.
  - intros y Hy. split_and!; [intros E; naive_solver|naive_solver..].
  - intros (y & -> & Hy). naive_solver.
  - intros y Hy. naive_solver.
Qed.

Lemma accepted_none {A} ok next : @accepted A ok next None = None.
Proof. done. Qed.
Lemma accepted_some {A} ok next (x : A) r : accepted ok next (Some (x, r)) = if ok x then Some (next r) else None.
Proof. done. Qed.
Lemma accepted_map {A B} (g : A -> B) ok next o :
  accepted ok next (prod_map g id <$> o) = accepted (fun x => ok (g x)) next o.
Proof. by destruct o as [[x r]|]. Qed.

Lemma next_token_head l st k c l1 : skip_spaces l = c :: l1 -> NextToken (mkDecoder l st k) = next_token st k (c :: l1).
Proof. intros H. unfold NextToken. cbn [tokenState tokenStack input]. by rewrite next_token_spaces, H. Qed.
Lemma next_token_end l st k : skip_spaces l = [] -> NextToken (mkDecoder l st k) = Err EOF.
Proof. intros H. unfold NextToken. cbn [tokenState tokenStack input]. by rewrite next_token_spaces, H. Qed.
Lemma more_head l st k c l1 : skip_spaces l = c :: l1 -> More (mkDecoder l st k) = negb (one_of [close_bracket; close_brace] c).
Proof. intros H. unfold More. cbn [input]. by rewrite H. Qed.
(** A state that takes no value refuses every byte but the ones it waits for. *)
Lemma next_token_refused st k c l1 :
  is_space c = false -> tokenValueAllowed st = false -> bool_decide (st ∈ [tokenObjectStart; tokenObjectKey]) = false ->
  (is_byte close_bracket c = true -> st ∉ [tokenArrayStart; tokenArrayComma]) ->
  (is_byte close_brace c = true -> st ∉ [tokenObjectStart; tokenObjectComma]) ->
  (is_byte colon c = true -> st <> tokenObjectColon) ->
  (is_byte comma c = true -> st ∉ [tokenArrayComma; tokenObjectComma]) ->
  next_token st k (c :: l1) = tokenError.
Proof.
  intros Hs Hv Hk H1 H2 H3 H4. cbn [next_token]. rewrite Hs, Hv, Hk, andb_false_r.
  destruct (is_byte open_bracket c), (is_byte close_bracket c); try done;
    [by rewrite bool_decide_eq_false_2 by auto|].
  destruct (is_byte open_brace c), (is_byte close_brace c); try done; [by rewrite bool_decide_eq_false_2 by auto|].
  destruct (is_byte colon c); [by rewrite bool_decide_eq_false_2 by auto|].
  destruct (is_byte comma c); [|done]. specialize (H4 eq_refl).
  rewrite !bool_decide_eq_false_2; [done|intros ->; apply H4; set_solver..].
Qed.

Lemma walk_array_items n m depth st s0 k l :
  walks_value n -> walks_array n -> st = tokenArrayStart \/ st = tokenArrayValue ->
  (2 * length l < n)%nat -> (2 * length l + 1 < m)%nat ->
  agrees (accepted (forallb unique_keys) (fun r => mkDecoder r (value_end s0) k) (parse_elements None m depth l))
    (let? decoder := walkValue n (mkDecoder l st (s0 :: k)) in walkArray n decoder).
Proof.
  intros Hv Ha Hst Hn Hm. destruct m as [|m]; [lia|]. cbn [parse_elements].
  assert (tokenValueAllowed st = true /\ value_end st = tokenArrayComma) as [Hok Hend] by (destruct Hst as [->| ->]; done).
  specialize (Hv m depth st (s0 :: k) l Hok Hn ltac:(lia)).
  destruct (parse_value None m depth l) as [[x r]|] eqn:Ep; cbn [mbind option_bind];
    rewrite ?accepted_none, ?accepted_some in *; [|destruct Hv as [e ->]; by eexists].
  apply consumes_parse_value in Ep. destruct (unique_keys x) eqn:Ex; cbn [agrees] in Hv.
  - rewrite Hv, Hend. specialize (Ha m depth tokenArrayComma s0 k r (or_intror eq_refl) ltac:(lia) ltac:(lia)).
    rewrite accepted_map. cbn [forallb]. rewrite Ex. exact Ha.
  - destruct Hv as [e ->]. rewrite accepted_map. cbn [forallb]. rewrite Ex. cbn [andb].
    destruct (items_from _ _ _ _) as [[xs r']|]; simpl; by eexists.
Qed.

(** After a value only a comma, which it consumes, leads on. *)
Lemma walk_after_comma n k l l1 :
  skip_spaces l = comma :: l1 -> walkValue n (mkDecoder l tokenArrayComma k) = walkValue n (mkDecoder l1 tokenArrayValue k).
Proof. intros H. destruct n as [|n]; [done|]. cbn [walkValue]. by rewrite (next_token_head _ _ _ _ _ H). Qed.
Lemma walk_value_refused n l st k c l1 : skip_spaces l = c :: l1 -> next_token st k (c :: l1) = tokenError ->
  exists e, walkValue n (mkDecoder l st k) = Err e.
Proof. intros H E. destruct n as [|n]; [by eexists|]. cbn [walkValue]. rewrite (next_token_head _ _ _ _ _ H), E. by eexists. Qed.
Lemma walk_end_refused close e0 l st k c l1 : skip_spaces l = c :: l1 -> next_token st k (c :: l1) = tokenError ->
  exists e, walk_end close e0 (mkDecoder l st k) = Err e.
Proof. intros H E. unfold walk_end. rewrite (next_token_head _ _ _ _ _ H), E. by eexists. Qed.
Lemma parse_delimiter limit m depth l c l1 : skip_spaces l = c :: l1 -> c ∈ [close_bracket; close_brace; colon; comma] ->
  parse_value limit m depth l = None.
Proof.
  intros H Hc. destruct m as [|m]; [done|]. cbn [parse_value]. rewrite H.
  repeat (apply elem_of_cons in Hc as [->|Hc]; [reflexivity|]). by apply not_elem_of_nil in Hc.
Qed.

Lemma walk_array_step n : walks_value n -> walks_array n -> walks_array (S n).
Proof.
  intros Hv Ha m depth st s0 k l Hst Hn Hm. cbn [walkArray]. unfold items_from.
  destruct (skip_spaces l) as [|c l1] eqn:El.
  { unfold More. cbn [input]. rewrite El. unfold walk_end. rewrite next_token_end by done. by eexists. }
  pose proof (skip_spaces_head _ _ _ El) as [Hc Hl]. rewrite (more_head _ _ _ _ _ El).
  destruct (is_byte close_bracket c) eqn:E1.
  { apply is_byte_true in E1 as ->. unfold walk_end. change (negb _) with false. cbv iota.
    rewrite (next_token_head _ _ _ _ _ El). destruct Hst as [-> | ->]; done. }
  destruct (is_byte close_brace c) eqn:E2.
  { apply is_byte_true in E2 as ->. change (negb _) with false. cbv iota.
    assert (forall o, o = None -> agrees (accepted (forallb unique_keys) (fun r => mkDecoder r (value_end s0) k) o)
      (walk_end close_bracket "JSON array is not closed" (mkDecoder l st (s0 :: k)))) as Hr.
    { intros o ->. eapply walk_end_refused; [exact El|]. destruct Hst as [-> | ->]; done. }
    apply Hr. destruct Hst as [-> | ->]; [|done]. destruct m as [|m]; [done|]. cbn [bool_decide parse_elements].
    by rewrite (parse_delimiter _ _ _ _ _ _ El) by set_solver. }
  assert (one_of [close_bracket; close_brace] c = false) as ->.
  { unfold one_of. rewrite bool_decide_eq_false. intros H. repeat (apply elem_of_cons in H as [->|H]; [done|]).
    by apply not_elem_of_nil in H. }
  cbn [negb]. destruct Hst as [-> | ->].
  - rewrite bool_decide_eq_true_2 by done. apply walk_array_items; [done..|by left|lia|lia].
  - rewrite bool_decide_eq_false_2 by done. destruct (is_byte comma c) eqn:E3.
    + apply is_byte_true in E3 as ->. rewrite (walk_after_comma _ _ _ _ El).
      apply walk_array_items; [done..|by right|lia|lia].
    + edestruct (walk_value_refused n l tokenArrayComma (s0 :: k)) as [e ->]; [exact El|apply next_token_refused; try done; congruence|].
      by eexists.
Qed.

Lemma walk_after_colon n k l l1 :
  skip_spaces l = colon :: l1 -> walkValue n (mkDecoder l tokenObjectColon k) = walkValue n (mkDecoder l1 tokenObjectValue k).
Proof. intros H. destruct n as [|n]; [done|]. cbn [walkValue]. by rewrite (next_token_head _ _ _ _ _ H). Qed.
Lemma next_key l st k l1 : st = tokenObjectStart \/ st = tokenObjectKey -> skip_spaces l = quote :: l1 ->
  NextToken (mkDecoder l st k) =
  match lex_string l1 with
  | Some (key, r) => Ok (Scalar (VString key), mkDecoder r tokenObjectColon k)
  | None => Err "unexpected EOF or invalid character"
  end.
Proof.
  intros Hst H. rewrite (next_token_head _ _ _ _ _ H).
  assert (next_token st k (quote :: l1) = token_scalar tokenObjectColon k (quote :: l1)) as -> by (destruct Hst as [-> | ->]; done).
  unfold token_scalar. change (lex_scalar (quote :: l1)) with (prod_map VString id <$> lex_string l1).
  by destruct (lex_string l1) as [[key r]|].
Qed.
Lemma next_no_key l st k c l1 : st = tokenObjectStart \/ st = tokenObjectKey -> skip_spaces l = c :: l1 -> is_byte quote c = false ->
  agrees None (let? next := NextToken (mkDecoder l st k) in
     match next.1 with Scalar (VString _) => Ok () | _ => Err "JSON object key is not a string" end).
Proof.
  intros Hst H Hq. rewrite (next_token_head _ _ _ _ _ H). cbn [next_token].
  rewrite (proj1 (skip_spaces_head _ _ _ H)), Hq. cbn [andb].
  destruct Hst as [-> | ->]; cbn; repeat case_match; simplify_eq/=; try (by eexists); destruct k; simplify_eq/=; by eexists.
Qed.

(** One member from its key on, and the rest of the object. *)
Definition walk_member (n : nat) (seen : gset text) (decoder : Decoder) : result Decoder :=
  let? next := NextToken decoder in
  match next.1 with
  | Scalar (VString key) =>
      reject "JSON object contains duplicate key %q" when bool_decide (key ∈ seen);
      let? decoder := walkValue n next.2 in
      walkUniqueObject n ({[ key ]} ∪ seen) decoder
  | _ => Err "JSON object key is not a string"
  end.
Lemma walk_key n seen l st k : st = tokenObjectStart \/ st = tokenObjectKey ->
  forall c l1, skip_spaces l = c :: l1 -> is_byte quote c = false -> agrees None (walk_member n seen (mkDecoder l st k)).
Proof.
  intros Hst c l1 H Hq. destruct (next_no_key _ _ k _ _ Hst H Hq) as [e He]. unfold walk_member.
  destruct (NextToken _) as [[[d|[]] dec]|e']; simplify_eq/=; by eexists.
Qed.

Lemma walk_object_members n m depth st s0 k l seen :
  walks_value n -> walks_object n -> st = tokenObjectStart \/ st = tokenObjectKey ->
  (2 * length l < n)%nat -> (2 * length l + 1 < m)%nat ->
  agrees (accepted (new_members seen) (fun r => mkDecoder r (value_end s0) k) (parse_members None m depth l))
    (walk_member n seen (mkDecoder l st (s0 :: k))).
Proof.
  intros Hv Ho Hst Hn Hm. destruct m as [|m]; [lia|]. cbn [parse_members].
  destruct (skip_spaces l) as [|q l1] eqn:El; [unfold walk_member; rewrite next_token_end by done; by eexists|].
  destruct (is_byte quote q) eqn:Eq; cbn [negb]; [|by eapply walk_key].
  apply is_byte_true in Eq as ->. unfold walk_member. rewrite (next_key _ _ _ _ Hst El). apply skip_spaces_head in El as [_ Hl].
  destruct (lex_string l1) as [[key l2]|] eqn:Es; cbn [mbind option_bind fst snd]; [|by eexists].
  apply consumes_lex_string in Es.
  assert (forall w, (exists e, w = Err e) -> agrees None (if bool_decide (key ∈ seen) then Err "JSON object contains duplicate key %q" else
    let? decoder := w in walkUniqueObject n ({[key]} ∪ seen) decoder)) as Hw by (intros w [e ->]; case_match; by eexists).
  destruct (skip_spaces l2) as [|c l3] eqn:E2.
  { rewrite accepted_none. apply Hw. destruct n as [|n']; [by eexists|]. cbn [walkValue]. rewrite next_token_end by done. by eexists. }
  pose proof (skip_spaces_head _ _ _ E2) as [Hc Hl3].
  destruct (is_byte colon c) eqn:E3; cbn [negb].
  2: { rewrite accepted_none. apply Hw. eapply walk_value_refused; [exact E2|].
       apply next_token_refused; try done; try congruence; intros _; set_solver. }
  apply is_byte_true in E3 as ->. rewrite (walk_after_colon _ _ _ _ E2).
  specialize (Hv m depth tokenObjectValue (s0 :: k) l3 eq_refl ltac:(lia) ltac:(lia)).
  destruct (parse_value None m depth l3) as [[x r]|] eqn:Ep; cbn [mbind option_bind].
  2: { rewrite accepted_none in *. by apply Hw. }
  rewrite accepted_some in Hv. rewrite accepted_map. apply consumes_parse_value in Ep.
  specialize (Ho m depth tokenObjectComma s0 k r ({[ key ]} ∪ seen) (or_intror eq_refl) ltac:(lia) ltac:(lia)).
  change (tokenObjectComma == tokenObjectStart) with false in Ho.
  destruct (items_from _ _ _ r) as [[fs r']|] eqn:Ei; rewrite ?accepted_none, ?accepted_some in *.
  - rewrite new_members_cons. destruct (decide (key ∈ seen)) as [Hin|Hin].
    { rewrite (bool_decide_eq_true_2 (key ∈ seen)), (bool_decide_eq_false_2 (key ∉ seen)) by auto. by eexists. }
    rewrite (bool_decide_eq_false_2 (key ∈ seen)), (bool_decide_eq_true_2 (key ∉ seen)) by auto.
    destruct (unique_keys x); cbn [agrees andb] in *; [rewrite Hv; exact Ho|]. destruct Hv as [e ->]. by eexists.
  - case_match; [by eexists|]. destruct (unique_keys x); cbn [agrees] in *; [rewrite Hv; exact Ho|].
    destruct Hv as [e ->]. by eexists.
Qed.

Lemma walk_object_step n : walks_value n -> walks_object n -> walks_object (S n).
Proof.
  intros Hv Ho m depth st s0 k l seen Hst Hn Hm. cbn [walkUniqueObject]. unfold items_from.
  destruct (skip_spaces l) as [|c l1] eqn:El.
  { unfold More. cbn [input]. rewrite El. unfold walk_end. rewrite next_token_end by done. by eexists. }
  pose proof (skip_spaces_head _ _ _ El) as [Hc Hl]. rewrite (more_head _ _ _ _ _ El).
  destruct (is_byte close_brace c) eqn:E1.
  { apply is_byte_true in E1 as ->. unfold walk_end. change (negb _) with false. cbv iota.
    rewrite (next_token_head _ _ _ _ _ El). destruct Hst as [-> | ->]; done. }
  destruct (is_byte close_bracket c) eqn:E2.
  { apply is_byte_true in E2 as ->. change (negb _) with false. cbv iota.
    assert (forall o, o = None -> agrees (accepted (new_members seen) (fun r => mkDecoder r (value_end s0) k) o)
      (walk_end close_brace "JSON object is not closed" (mkDecoder l st (s0 :: k)))) as Hr.
    { intros o ->. eapply walk_end_refused; [exact El|]. destruct Hst as [-> | ->]; done. }
    apply Hr. destruct Hst as [-> | ->]; [|done]. destruct m as [|m]; [done|]. cbn [bool_decide parse_members]. by rewrite El. }
  assert (one_of [close_bracket; close_brace] c = false) as ->.
  { unfold one_of. rewrite bool_decide_eq_false. intros H. repeat (apply elem_of_cons in H as [->|H]; [done|]).
    by apply not_elem_of_nil in H. }
  cbn [negb]. fold (walk_member n seen (mkDecoder l st (s0 :: k))). destruct Hst as [-> | ->].
  - rewrite bool_decide_eq_true_2 by done. apply walk_object_members; [done..|by left|lia|lia].
  - rewrite bool_decide_eq_false_2 by done. destruct (is_byte comma c) eqn:E3.
    + apply is_byte_true in E3 as ->.
      assert (walk_member n seen (mkDecoder l tokenObjectComma (s0 :: k)) = walk_member n seen (mkDecoder l1 tokenObjectKey (s0 :: k))) as ->.
      { unfold walk_member. by rewrite (next_token_head _ _ _ _ _ El). }
      apply walk_object_members; [done..|by right|lia|lia].
    + rewrite accepted_none. unfold walk_member. rewrite (next_token_head _ _ _ _ _ El), next_token_refused; [by eexists|try done; congruence..].
Qed.

Lemma new_members_empty fs : new_members ∅ fs = unique_keys (VObject fs).
Proof.
  unfold new_members. cbn [unique_keys]. by f_equal.
Qed.
Lemma accepted_ext {A} ok ok' next (o : option (A * text)) : (forall x, ok x = ok' x) -> accepted ok next o = accepted ok' next o.
Proof. intros H. destruct o as [[x r]|]; [|done]. by rewrite !accepted_some, H. Qed.
Lemma lex_scalar_unique l v r : lex_scalar l = Some (v, r) -> unique_keys v = true.
Proof.
  destruct l as [|a l]; [done|]. unfold lex_scalar. intros H. repeat case_match; try done.
  - by apply consumes_map in H as (s & _ & ->).
  - destruct (lex_word _ _); by simplify_eq/=.
  - destruct (lex_word _ _); by simplify_eq/=.
  - destruct (lex_word _ _); by simplify_eq/=.
  - by apply consumes_map in H as (s & _ & ->).
Qed.

Lemma next_token_value_refused st k c l1 : tokenValueAllowed st = true -> 
  c ∈ [close_bracket; close_brace; colon; comma] -> 
  (exists e, (let? next := next_token st k (c :: l1) in match next.1 with Scalar _ => Ok next.2 | Delim d =>
     if is_byte open_brace d then Ok next.2 else if is_byte open_bracket d then Ok next.2 else Err "unexpected JSON delimiter %q" end) = Err e).
Proof.
  intros Hok Hc. repeat (apply elem_of_cons in Hc as [->|Hc]; [destruct st; try done; try (by eexists); destruct k; by eexists|]).
  by apply not_elem_of_nil in Hc.
Qed.
Lemma walk_value_step n : walks_array n -> walks_object n -> walks_value (S n).
Proof.
  intros Ha Ho m depth st k l Hok Hn Hm. destruct m as [|m]; [lia|]. cbn [walkValue parse_value].
  destruct (skip_spaces l) as [|c l1] eqn:El; [rewrite next_token_end by done; by eexists|].
  pose proof (skip_spaces_head _ _ _ El) as [Hc Hl]. rewrite (next_token_head _ _ _ _ _ El).
  assert (bool_decide (st ∈ [tokenObjectStart; tokenObjectKey]) = false /\ st <> tokenObjectColon /\
    st <> tokenArrayComma /\ st <> tokenObjectComma) as (Hkey & Hcolon & Hacomma & Hocomma) by (destruct st; done).
  destruct (is_byte open_bracket c) eqn:E1.
  { apply is_byte_true in E1 as ->. cbn [too_deep]. rewrite accepted_map.
    specialize (Ha m (depth + 1) tokenArrayStart st k l1 (or_introl eq_refl) ltac:(lia) ltac:(lia)).
    cbn. rewrite Hok. exact Ha. }
  destruct (is_byte open_brace c) eqn:E2.
  { apply is_byte_true in E2 as ->. cbn [too_deep]. rewrite accepted_map.
    specialize (Ho m (depth + 1) tokenObjectStart st k l1 ∅ (or_introl eq_refl) ltac:(lia) ltac:(lia)).
    rewrite (accepted_ext _ _ _ _ new_members_empty) in Ho. cbn. rewrite Hok. exact Ho. }
  destruct (decide (c ∈ [close_bracket; close_brace; colon; comma])) as [Hd|Hd].
  { rewrite lex_scalar_delimiter, accepted_none by set_solver. destruct (next_token_value_refused st k c l1 Hok Hd) as [e He].
    destruct (next_token st k (c :: l1)) as [[[d|v] dec]|e']; cbn [fst snd] in *; [|done|by eexists].
    repeat case_match; simplify_eq/=; by eexists. }
  assert (next_token st k (c :: l1) = token_scalar (value_end st) k (c :: l1)) as ->.
  { cbn [next_token]. rewrite Hc, E1, E2, Hkey, Hok, andb_false_r.
    assert (forall d, d ∈ [close_bracket; close_brace; colon; comma] -> is_byte d c = false) as Hne.
    { intros d Hin. apply not_true_iff_false. intros E%is_byte_true. by subst. }
    by rewrite !Hne by set_solver. }
  unfold token_scalar. destruct (lex_scalar (c :: l1)) as [[v r]|] eqn:Es; [|by eexists].
  rewrite accepted_some, (lex_scalar_unique _ _ _ Es). done.
Qed.
End walk.

Lemma walks n : walks_value n /\ walks_array n /\ walks_object n.
Proof.
  induction n as [|n (Hv & Ha & Ho)].
  - split_and!; red; intros; lia.
  - split_and!; [by apply walk_value_step|by apply walk_array_step|by apply walk_object_step].
Qed.

(** The text is one object of the grammar, [fs] its members as they stand there. *)
Definition one_object (raw : text) (fs : fields_t) : Prop :=
  exists rest, parse None raw = Some (VObject fs, rest) /\ skip_spaces rest = [].

Lemma next_token_top l : next_token tokenTopValue [] l = Err EOF <-> skip_spaces l = [].
Proof.
  rewrite next_token_spaces. destruct (skip_spaces l) as [|c l1] eqn:El; [done|]. apply skip_spaces_head in El as [Hc _].
  split; [|done]. intros H. exfalso. revert H. cbn [next_token]. rewrite Hc.
  repeat case_match; try done; unfold token_scalar; repeat case_match; done.
Qed.
Lemma lex_scalar_no_object l v r : lex_scalar l = Some (v, r) -> forall fs, v <> VObject fs.
Proof.
  destruct l as [|a l]; [done|]. unfold lex_scalar. intros H fs. repeat case_match; try done.
  - by apply consumes_map in H as (s & _ & ->).
  - destruct (lex_word _ _); by simplify_eq/=.
  - destruct (lex_word _ _); by simplify_eq/=.
  - destruct (lex_word _ _); by simplify_eq/=.
  - by apply consumes_map in H as (s & _ & ->).
Qed.
(** Where an object starts. *)
Lemma parse_object raw fs rest : parse None raw = Some (VObject fs, rest) <->
  exists l1, skip_spaces raw = open_brace :: l1 /\
    items_from close_brace true (parse_members None (2 * length raw + 1) 1) l1 = Some (fs, rest).
Proof.
  unfold parse. replace (walk_fuel raw) with (S (2 * length raw + 1)) by (unfold walk_fuel; lia). cbn [parse_value].
  destruct (skip_spaces raw) as [|c l1]; [split; [done|by intros (? & ? & _)]|].
  destruct (is_byte open_bracket c) eqn:E1.
  { apply is_byte_true in E1 as ->. split; [|by intros (? & ? & _)]. intros (y & _ & ?)%consumes_map. done. }
  destruct (is_byte open_brace c) eqn:E2.
  { apply is_byte_true in E2 as ->. cbn [too_deep]. change (0 + 1) with 1. split.
    - intros (y & H & [= ->])%consumes_map. eauto.
    - intros (l2 & [= <-] & ->). done. }
  split; [intros H; by apply lex_scalar_no_object with (fs := fs) in H|].
  intros (l2 & [= -> _] & _). done.
Qed.

Lemma start_token raw : (let? start := NextToken (NewDecoder raw) in
    reject "%s must be one JSON object" when negb (is_delim open_brace start.1); Ok start.2) =
  match skip_spaces raw with
  | c :: l1 => if is_byte open_brace c then Ok (mkDecoder l1 tokenObjectStart [tokenTopValue])
               else (let? start := next_token tokenTopValue [] (c :: l1) in
                 reject "%s must be one JSON object" when negb (is_delim open_brace start.1); Ok start.2)
  | [] => Err EOF
  end.
Proof.
  unfold NextToken, NewDecoder. cbn [tokenState tokenStack input]. rewrite next_token_spaces.
  destruct (skip_spaces raw) as [|c l1] eqn:El; [done|]. destruct (is_byte open_brace c) eqn:E; [|done].
  apply is_byte_true in E as ->. done.
Qed.
Lemma no_start c l1 : is_space c = false -> is_byte open_brace c = false ->
  exists e, (let? start := next_token tokenTopValue [] (c :: l1) in
    reject "%s must be one JSON object" when negb (is_delim open_brace start.1); Ok start.2) = Err e.
Proof.
  intros Hs Hb. assert (forall next, next_token tokenTopValue [] (c :: l1) = Ok next -> is_delim open_brace next.1 = false) as H.
  { intros next. cbn [next_token]. rewrite Hs, Hb. unfold token_scalar, tokenError. cbn [tokenValueAllowed].
    repeat case_match; intros; simplify_eq; done. }
  destruct (next_token _ _ _) as [next|e]; [|by eexists]. rewrite (H next eq_refl). by eexists.
Qed.

(** The walk accepts exactly the objects without a repeated key. *)
Lemma unique_object_accepts raw subject : subject <> "" ->
  ValidateUniqueObject raw subject = Ok tt <-> exists fs, one_object raw fs /\ unique_keys (VObject fs) = true.
Proof.
  intros Hsub. unfold ValidateUniqueObject. rewrite bool_decide_eq_false_2 by done.
  pose proof (start_token raw) as Hstart. destruct (skip_spaces raw) as [|c l1] eqn:El.
  { destruct (NextToken _) as [next|e]; [destruct (negb _)|]; try done;
      (split; [done|intros (fs & (rest & Hp & _) & _)]); apply parse_object in Hp as (? & ? & _); congruence. }
  pose proof (skip_spaces_head _ _ _ El) as [Hc Hl]. destruct (is_byte open_brace c) eqn:Eb.
  2: { destruct (no_start c l1 Hc Eb) as [e He]. rewrite He in Hstart.
       destruct (NextToken _) as [next|e']; [destruct (negb _)|]; try done;
         (split; [done|intros (fs & (rest & Hp & _) & _)]); apply parse_object in Hp as (? & ? & _);
         rewrite El in *; simplify_eq; done. }
  apply is_byte_true in Eb as ->.
  destruct (NextToken (NewDecoder raw)) as [next|e']; [|done]. destruct (negb _); [done|]. injection Hstart as ->.
  destruct (walks (walk_fuel raw)) as (_ & _ & Ho).
  specialize (Ho (2 * length raw + 1)%nat 1 tokenObjectStart tokenTopValue [] l1 ∅ (or_introl eq_refl)
    ltac:(unfold walk_fuel; lia) ltac:(lia)). rewrite (accepted_ext _ _ _ _ new_members_empty) in Ho.
  change (tokenObjectStart == tokenObjectStart) with true in Ho.
  assert (forall fs rest, parse None raw = Some (VObject fs, rest) <->
    items_from close_brace true (parse_members None (2 * length raw + 1) 1) l1 = Some (fs, rest)) as Hparse.
  { intros fs rest. rewrite parse_object, El. naive_solver. }
  destruct (items_from _ _ _ _) as [[fs rest]|].
  2: { rewrite accepted_none in Ho. destruct Ho as [e ->]. split; [done|]. intros (fs & (rest & Hp & _) & _).
       by apply Hparse in Hp. }
  rewrite accepted_some in Ho. destruct (unique_keys (VObject fs)) eqn:Eu.
  - cbn [agrees] in Ho. rewrite Ho. cbn [value_end]. unfold NextToken. cbn [tokenState tokenStack input].
    pose proof (next_token_top rest) as Htop. split.
    + intros H. exists fs. split; [|done]. exists rest. split; [by apply Hparse|]. apply Htop.
      destruct (next_token _ _ _) as [next'|e]; [done|]. destruct (bool_decide (e = EOF)) eqn:E; [|done]. by reflect; subst.
    + intros (fs' & (rest' & Hp & Hr) & _). apply Hparse in Hp as [= <- <-]. apply Htop in Hr as ->. done.
  - destruct Ho as [e ->]. split; [done|]. intros (fs' & (rest' & Hp & Hr) & Hu). apply Hparse in Hp as [= <- <-]. congruence.
Qed.

(** ** The fields that [encoding/json] sees *)

(** The field under its name, with its depth and whether a tag gave the name. *)
Record JsonField := mkJsonField { jf_Name : text; jf_Depth : nat; jf_Tagged : bool; jf_Type : GoType }.
(** [isValidTag]; names are ASCII in this model. *)
Definition tag_byte (a : ascii) : bool :=
  (byte_in 48 57 a || byte_in 65 90 a || byte_in 97 122 a || one_of (bytes "!#$%&()*+-./:;<=>?@[]^_{|}~ ") a)%bool.
Definition isValidTag (name : text) : bool := (negb (name == []) && forallb tag_byte name)%bool.
Definition tag_name (field : StructField GoType) : text := if isValidTag (json_name field) then json_name field else [].
(** [typeFields] passes over fields that are not exported, but for embedded structs, and
    over those whose whole tag is a hyphen. *)
Definition json_ignored (field : StructField GoType) : bool :=
  ((negb (sf_Exported field) && negb (sf_Anonymous field && struct_kind (sf_Type field))) || (bytes (sf_Tag field) == [hyphen]))%bool.
(** An embedded struct without a name is searched in its turn. *)
Definition json_promoted (field : StructField GoType) : bool :=
  ((tag_name field == []) && sf_Anonymous field && struct_kind (sf_Type field))%bool.
Definition json_field (depth : nat) (field : StructField GoType) : JsonField :=
  mkJsonField (if tag_name field == [] then bytes (sf_Name field) else tag_name field) depth
    (negb (tag_name field == [])) (sf_Type field).
Fixpoint collect_fields (depth : nat) (target : GoType) : list JsonField :=
  match target with
  | TStruct _ fs =>
      concat ((fun field =>
        if json_ignored field then [] else
        if json_promoted field then
          match sf_Type field with
          | TPointer elem => collect_fields (S depth) elem
          | _ => collect_fields (S depth) (sf_Type field)
          end
        else [json_field depth field]) <$> fs)
  | _ => []
  end.
(** [dominantField]: of the fields with one name the least deep one counts, of several
    of those the tagged one, and if there are several of those, none. *)
Definition beats (f g : JsonField) : bool :=
  (bool_decide (jf_Depth f < jf_Depth g)%nat || ((jf_Depth f =? jf_Depth g)%nat && jf_Tagged f && negb (jf_Tagged g)))%bool.
Definition dominant (fs : list JsonField) (i : nat) (f : JsonField) : bool :=
  forallb (fun other => ((other.1 =? i)%nat || negb (jf_Name other.2 == jf_Name f) || beats f other.2)%bool) (imap pair fs).
Definition typeFields (target : GoType) : list JsonField :=
  let fs := collect_fields 0 target in
  snd <$> filter (fun field => dominant fs field.1 field.2 = true) (imap pair fs).

(** The field a key means: the one with that name, or else the first one with that name
    but for the case of letters. *)
Definition exact_field (target : GoType) (key : text) : option (text * GoType) :=
  (fun f => (jf_Name f, jf_Type f)) <$> head (filter (fun f => jf_Name f = key) (typeFields target)).
Definition folded_field (target : GoType) (key : text) : option (text * GoType) :=
  match exact_field target key with
  | Some field => Some field
  | None => (fun f => (jf_Name f, jf_Type f)) <$> head (filter (fun f => EqualFold key (jf_Name f) = true) (typeFields target))
  end.

(** ** What decoding into a Go type assigns *)

(** [json.Unmarshal] into a type goes through the members of an object in their
    order: into a struct a member is decoded as the field its key means, and skipped
    when there is none; into a map it is the value under its key; the elements of an
    array beyond the length of the type are skipped.  The assignments are
    the values that reach a place, in order; a value that is not of the kind of its type
    is one assignment, which the decoder may refuse. *)
Inductive place := Field (name : text) | Index (i : nat) | Key (key : text).
#[global] Instance place_eq_dec : EqDecision place.
Proof. solve_decision. Defined.
Definition assignment : Type := list place * value.
Definition at_place (p : place) (l : list assignment) : list assignment := prod_map (cons p) id <$> l.
Definition indexed (items : list (list assignment)) : list assignment :=
  concat (imap (fun i item => at_place (Index i) item) items).
Fixpoint assignments (find : GoType -> text -> option (text * GoType)) (v : value) (target : GoType)
    : list assignment :=
  let target := strip_pointers target in
  match v with
  | VNull => [([], v)]
  | _ =>
      if unmarshals target then [([], v)] else
      match target, v with
      | TStruct _ _, VObject object =>
          concat ((fun member =>
            match find target member.1 with
            | Some field => at_place (Field field.1) (assignments find member.2 field.2)
            | None => []
            end) <$> object)
      | TMap _ elem, VObject object =>
          concat ((fun member => at_place (Key member.1) (assignments find member.2 elem)) <$> object)
      | TSlice _ elem, VArray values => indexed ((fun nested => assignments find nested elem) <$> values)
      | TArray _ len elem, VArray values => indexed (take len ((fun nested => assignments find nested elem) <$> values))
      | _, _ => [([], v)]
      end
  end.
(** Every member of an object that is decoded into a struct has a field of its exact name. *)
Fixpoint all_known (v : value) (target : GoType) : bool :=
  let target := strip_pointers target in
  match v with
  | VNull => true
  | _ =>
      if unmarshals target then true else
      match target, v with
      | TStruct _ _, VObject object =>
          forallb (fun member =>
            match exact_field target member.1 with
            | Some field => all_known member.2 field.2
            | None => false
            end) object
      | TMap _ elem, VObject object => forallb (fun member => all_known member.2 elem) object
      | TSlice _ elem, VArray values | TArray _ _ elem, VArray values => forallb (fun nested => all_known nested elem) values
      | _, _ => true
      end
  end.

(** *** The types of which the check sees the fields as the decoder does *)

(** Nothing in a value of the type is decoded into a struct. *)
Fixpoint opaque (t : GoType) : bool :=
  match t with
  | TPointer elem => opaque elem
  | TStruct u _ => u
  | TSlice u elem | TArray u _ elem | TMap u elem => (u || opaque elem)%bool
  | TOther _ => true
  end.
(** An exported field, with a tag that names it validly, not by a hyphen, or not at all. *)
Definition plain_field (field : StructField GoType) : bool :=
  (json_ignored field ||
   (sf_Exported field && ((json_name field == []) || isValidTag (json_name field)) && negb (json_name field == [hyphen]) &&
    forallb (byte_in 0 127) (bytes (sf_Name field))))%bool.
(** No field is a struct embedded under a name that is not exported, no two fields have one
    name, and no map holds structs, at any depth; [embedded] structs are searched for
    fields even when they decode themselves. *)
Fixpoint regular (embedded : bool) (t : GoType) : bool :=
  match t with
  | TPointer elem => regular embedded elem
  | TStruct u fs =>
      ((u && negb embedded) ||
       (bool_decide (NoDup (jf_Name <$> collect_fields 0 t)) &&
        forallb (fun field => plain_field field && (json_ignored field || regular (json_promoted field) (sf_Type field))) fs))%bool
  | TSlice u elem | TArray u _ elem => (u || regular false elem)%bool
  | TMap u elem => (u || opaque elem)%bool
  | TOther _ => true
  end.

(** Induction over nested types. *)
Lemma GoType_induction (P : GoType -> Prop) :
  (forall e, P e -> P (TPointer e)) -> (forall u fs, Forall (fun f => P (sf_Type f)) fs -> P (TStruct u fs)) ->
  (forall u e, P e -> P (TSlice u e)) -> (forall u n e, P e -> P (TArray u n e)) -> (forall u e, P e -> P (TMap u e)) ->
  (forall u, P (TOther u)) -> forall t, P t.
Proof.
  intros H1 H2 H3 H4 H5 H6. fix IH 1. intros [e|u fs|u e|u n e|u e|u];
    [apply H1, IH| |apply H3, IH|apply H4, IH|apply H5, IH|apply H6].
  apply H2. induction fs as [|[n g x a t] fs IHfs]; constructor; [apply IH|exact IHfs].
Qed.
(** *** The field map of the check is the decoder's *)

Definition entries (l : list JsonField) : list (text * GoType) := (fun f => (jf_Name f, jf_Type f)) <$> l.
Definition deref (t : GoType) : GoType := match t with TPointer elem => elem | t => t end.
Definition own_entries (fs : list (StructField GoType)) : list (text * GoType) :=
  omap (fun f => (fun n => (n, sf_Type f)) <$> own_name f) fs.
Definition promoted_entries (depth : nat) (fs : list (StructField GoType)) : list (text * GoType) :=
  concat ((fun f => if promoted f then entries (collect_fields depth (deref (sf_Type f))) else []) <$> fs).

Lemma ignored_field f : json_ignored f = true -> own_name f = None /\ promoted f = false.
Proof.
  unfold json_ignored, own_name, promoted, struct_kind. intros [H|H]%orb_true_iff.
  - apply andb_true_iff in H as [Hx%negb_true_iff H]. rewrite Hx. done.
  - apply bool_decide_eq_true in H. unfold json_name. rewrite H. cbn. rewrite !andb_false_r. split; [by destruct (sf_Exported f)|done].
Qed.
Lemma regular_field depth f : plain_field f = true -> json_ignored f = false ->
  promoted f = json_promoted f /\
  own_name f = if json_promoted f then None else Some (jf_Name (json_field depth f)).
Proof.
  unfold plain_field. intros H Hi. rewrite Hi in H. cbn [orb] in H.
  apply andb_true_iff in H as [H _]. apply andb_true_iff in H as [[Hx Hn]%andb_true_iff Hh].
  assert (tag_name f = json_name f) as Ht.
  { unfold tag_name. apply orb_true_iff in Hn as [Hn|Hn]; [apply bool_decide_eq_true in Hn as ->; done|by rewrite Hn]. }
  unfold own_name, promoted, json_promoted, json_field. rewrite Hx, Ht. apply negb_true_iff in Hh. rewrite Hh. cbn [negb andb jf_Name].
  rewrite (andb_comm (sf_Anonymous f)). split; [done|]. destruct (json_name f == []); cbn [andb]; [|done].
  by destruct (sf_Anonymous f), (struct_kind (sf_Type f)).
Qed.
Lemma collect_deref depth f :
  json_promoted f = true ->
  match sf_Type f with TPointer elem => collect_fields depth elem | _ => collect_fields depth (sf_Type f) end =
  collect_fields depth (deref (sf_Type f)).
Proof. by destruct (sf_Type f). Qed.

(** The fields of a struct are its own ones and those of its embedded structs. *)
Lemma entries_split depth u fs : Forall (fun f => plain_field f = true) fs ->
  entries (collect_fields depth (TStruct u fs)) ≡ₚ own_entries fs ++ promoted_entries (S depth) fs.
Proof.
  cbn [collect_fields]. unfold promoted_entries.
  induction 1 as [|f fs Hf _ IH]; [done|]. cbn [fmap list_fmap concat own_entries omap list_omap].
  unfold entries at 1. rewrite fmap_app. fold (entries (concat ((fun field => if json_ignored field then [] else if json_promoted field then
    match sf_Type field with TPointer elem => collect_fields (S depth) elem | _ => collect_fields (S depth) (sf_Type field) end
    else [json_field depth field]) <$> fs))).
  change ((fix fmap (f : StructField GoType -> list JsonField) l := match l with [] => [] | x :: l => f x :: fmap f l end)) with (@list_fmap (StructField GoType) (list JsonField)) in *.
  rewrite IH. fold (own_entries fs).
  destruct (json_ignored f) eqn:Hi.
  - destruct (ignored_field _ Hi) as [-> ->]. done.
  - destruct (regular_field depth _ Hf Hi) as [-> ->]. destruct (json_promoted f) eqn:Hp.
    + rewrite (collect_deref _ _ Hp). cbn [fmap option_fmap option_map]. rewrite !app_assoc. apply Permutation_app_tail, Permutation_app_comm.
    + done.
Qed.

(** The two passes of [exactStructFields] as maps of the entries. *)
Lemma own_pass fs : forall m, NoDup (own_entries fs).*1 -> foldl own_field m fs = list_to_map (own_entries fs) ∪ m.
Proof.
  induction fs as [|f fs IH]; intros m H; cbn [foldl own_entries omap list_omap] in *; [symmetry; apply (left_id_L ∅ (∪))|].
  fold (own_entries fs) in *. unfold own_field at 2. destruct (own_name f) as [n|]; cbn [fmap option_fmap option_map] in *; [|by apply IH].
  rewrite fmap_cons in H. apply NoDup_cons in H as [Hn H]. rewrite IH by done. cbn [list_to_map].
  change (list_to_map ((n, sf_Type f) :: own_entries fs)) with (<[n:=sf_Type f]> (list_to_map (own_entries fs) : gmap text GoType)).
  rewrite <-insert_union_l. symmetry. apply insert_union_r. by apply not_elem_of_list_to_map_1.
Qed.
Lemma entries_disjoint (l k : list (text * GoType)) : NoDup (l ++ k).*1 ->
  (list_to_map l : gmap text GoType) ##ₘ list_to_map k.
Proof.
  rewrite fmap_app. intros (_ & H & _)%NoDup_app. apply map_disjoint_spec. intros n x y Hx Hy.
  apply elem_of_list_to_map_2, (list_elem_of_fmap_2 fst) in Hx. apply elem_of_list_to_map_2, (list_elem_of_fmap_2 fst) in Hy.
  by apply (H n).
Qed.
Lemma promoted_pass depth fs :
  Forall (fun f => promoted f = true -> exactStructFields (deref (sf_Type f)) = list_to_map (entries (collect_fields depth (deref (sf_Type f))))) fs ->
  forall m, NoDup (promoted_entries depth fs).*1 ->
  foldl (fun fields field =>
    if promoted field then
      match sf_Type field with TPointer elem => exactStructFields elem | _ => exactStructFields (sf_Type field) end ∪ fields
    else fields) m fs = list_to_map (promoted_entries depth fs) ∪ m.
Proof.
  unfold promoted_entries. induction 1 as [|f fs Hf _ IH]; intros m H; cbn [foldl fmap list_fmap concat] in *; [symmetry; apply (left_id_L ∅ (∪))|].
  pose proof (entries_disjoint _ _ H) as Hd. rewrite fmap_app in H. apply NoDup_app in H as (_ & _ & H).
  rewrite IH by done. rewrite list_to_map_app. destruct (promoted f).
  - assert (match sf_Type f with TPointer elem => exactStructFields elem | _ => exactStructFields (sf_Type f) end =
      exactStructFields (deref (sf_Type f))) as -> by (by destruct (sf_Type f)).
    rewrite Hf by done. rewrite (assoc_L (∪)). f_equal. by rewrite map_union_comm.
  - f_equal. symmetry. apply (left_id_L ∅ (∪)).
Qed.

Definition same_fields (t : GoType) : Prop := forall depth, regular true t = true ->
  NoDup (entries (collect_fields depth t)).*1 -> exactStructFields t = list_to_map (entries (collect_fields depth t)).
Lemma regular_plain e u fs : regular e (TStruct u fs) = true -> (u && negb e)%bool = false ->
  NoDup (jf_Name <$> collect_fields 0 (TStruct u fs)) /\
  Forall (fun f => plain_field f = true /\ (json_ignored f = true \/ regular (json_promoted f) (sf_Type f) = true)) fs.
Proof.
  cbn [regular]. intros H Hu. rewrite Hu in H. cbn [orb] in H. apply andb_true_iff in H as [Hn H]. split; [by apply bool_decide_eq_true in Hn|].
  apply Forall_forall. intros f Hf. rewrite forallb_forall in H. apply list_elem_of_In, H in Hf.
  by apply andb_true_iff in Hf as [? ?%orb_true_iff].
Qed.
Lemma regular_deref e t : regular e t = true -> regular e (deref t) = true.
Proof. by destruct t. Qed.
Lemma fields_same t : same_fields t /\ same_fields (deref t).
Proof.
  induction t as [t IH|u fs IH| | | | ] using GoType_induction; cbn [deref]; try (split; intros ? _ _; reflexivity).
  - split; [intros ? _ _; reflexivity|apply IH].
  - assert (same_fields (TStruct u fs)) as H; [|done]. intros depth Hr Hnd.
    apply regular_plain in Hr as [_ Hf]; [|by rewrite andb_false_r].
    assert (Forall (fun f => plain_field f = true) fs) as Hp by (by eapply Forall_impl; [exact Hf|]; intros ? [? _]).
    pose proof (entries_split depth u fs Hp) as Hperm.
    assert (NoDup (own_entries fs ++ promoted_entries (S depth) fs).*1) as Hnd' by (by rewrite <-Hperm).
    rewrite (list_to_map_proper _ _ Hnd Hperm), list_to_map_app. cbn [exactStructFields].
    rewrite fmap_app in Hnd'. apply NoDup_app in Hnd' as (Ho & _ & Hpr).
    rewrite own_pass by done. f_equal. rewrite (promoted_pass (S depth)); [apply (right_id_L ∅ (∪))| |done].
    apply Forall_forall. intros f Hin Hprom. rewrite Forall_forall in IH, Hf. destruct (IH f Hin) as [_ IHf]. destruct (Hf f Hin) as [Hpl [Hi|Hreg]].
    { apply ignored_field in Hi as [_ Hi]. congruence. }
    destruct (json_ignored f) eqn:Hi; [apply ignored_field in Hi as [_ Hi]; congruence|].
    destruct (regular_field depth f Hpl Hi) as [E _]. rewrite <-E, Hprom in Hreg. apply IHf; [by apply regular_deref|].
    clear -Hpr Hin Hprom. unfold promoted_entries in Hpr. induction fs as [|g fs IH]; [by apply not_elem_of_nil in Hin|].
    cbn [fmap list_fmap concat] in Hpr. rewrite fmap_app in Hpr. apply NoDup_app in Hpr as (H1 & _ & H2).
    apply elem_of_cons in Hin as [->|Hin]; [by rewrite Hprom in H1|by apply IH].
Qed.

Lemma filter_everything {A} (P : A -> Prop) `{forall x, Decision (P x)} l : Forall P l -> filter P l = l.
Proof. induction 1 as [|x l Hx _ IH]; [done|]. by rewrite filter_cons, decide_True, IH. Qed.
(** Without competing names every field dominates. *)
Lemma typeFields_all t : NoDup (jf_Name <$> collect_fields 0 t) -> typeFields t = collect_fields 0 t.
Proof.
  intros Hnd. unfold typeFields. set (fs := collect_fields 0 t) in *.
  assert (filter (fun field => dominant fs field.1 field.2 = true) (imap pair fs) = imap pair fs) as ->.
  { apply filter_everything, Forall_lookup. intros i [j f] Hi. rewrite list_lookup_imap in Hi.
    destruct (fs !! i) as [f'|] eqn:Ef; [|done]. injection Hi as <- <-. cbn [fst snd].
    apply forallb_forall. intros [k g] Hk%list_elem_of_In. apply list_elem_of_lookup in Hk as [k' Hk].
    rewrite list_lookup_imap in Hk. destruct (fs !! k') as [g'|] eqn:Eg; [|done]. injection Hk as <- <-. cbn [fst snd].
    destruct (decide (k' = i)) as [->|Hne]; [by rewrite Nat.eqb_refl|].
    assert (jf_Name g' <> jf_Name f') as Hn.
    { intros E. apply Hne. eapply NoDup_lookup; [exact Hnd|by rewrite list_lookup_fmap, Eg|by rewrite list_lookup_fmap, Ef, E]. }
    rewrite bool_decide_eq_false_2 by done. cbn [negb]. by rewrite orb_true_r. }
  rewrite fmap_imap. rewrite <-(list_fmap_id fs) at 2. apply (imap_const id).
Qed.
Lemma head_named (l : list JsonField) key : NoDup (jf_Name <$> l) ->
  (fun f => jf_Type f) <$> head (filter (fun f => jf_Name f = key) l) = (list_to_map (entries l) : gmap text GoType) !! key.
Proof.
  induction l as [|f l IH]; intros H; [done|]. rewrite fmap_cons in H. apply NoDup_cons in H as [_ H]. rewrite filter_cons.
  change (list_to_map (entries (f :: l)) : gmap text GoType) with (<[jf_Name f:=jf_Type f]> (list_to_map (entries l)) : gmap text GoType).
  case_decide as E; [by rewrite E, lookup_insert_eq|]. rewrite lookup_insert_ne by done. by apply IH.
Qed.
Lemma filter_head {A} (P : A -> Prop) `{forall x, Decision (P x)} l x : head (filter P l) = Some x -> P x /\ x ∈ l.
Proof.
  intros H1. assert (x ∈ filter P l) as Hin; [|by apply list_elem_of_filter in Hin].
  destruct (filter P l); [done|]. injection H1 as ->. by left.
Qed.
Lemma exact_field_named t key field : exact_field t key = Some field -> field.1 = key.
Proof. unfold exact_field. intros (f & (E & _)%filter_head & ->)%fmap_Some. done. Qed.

Lemma entries_names l : (entries l).*1 = jf_Name <$> l.
Proof. unfold entries. by rewrite <-list_fmap_compose. Qed.
(** A struct of a regular type: exact lookups agree. *)
Lemma regular_lookup u fs key : regular false (TStruct u fs) = true -> u = false ->
  exactStructFields (TStruct u fs) !! key = snd <$> exact_field (TStruct u fs) key.
Proof.
  intros Hr ->. assert (regular true (TStruct false fs) = true) as Hr' by exact Hr.
  apply regular_plain in Hr as [Hnd _]; [|done].
  rewrite (proj1 (fields_same (TStruct false fs)) 0%nat Hr') by (by rewrite entries_names).
  unfold exact_field. rewrite typeFields_all, <-option_fmap_compose by done. symmetry. by apply head_named.
Qed.
(** The fields of a regular type are of regular types. *)
Lemma collected_regular t : (forall depth, regular true t = true -> Forall (fun f => regular false (jf_Type f) = true) (collect_fields depth t)) /\
  (forall depth, regular true (deref t) = true -> Forall (fun f => regular false (jf_Type f) = true) (collect_fields depth (deref t))).
Proof.
  induction t as [t IH|u fs IH| | | | ] using GoType_induction; cbn [deref]; try (split; intros; constructor).
  - split; [intros; constructor|apply IH].
  - assert (forall depth, regular true (TStruct u fs) = true -> Forall (fun f => regular false (jf_Type f) = true) (collect_fields depth (TStruct u fs))) as H; [|done].
    intros depth Hr. apply regular_plain in Hr as [_ Hf]; [|by rewrite andb_false_r]. cbn [collect_fields]. apply Forall_concat, Forall_fmap, Forall_forall.
    intros f Hin. rewrite Forall_forall in IH, Hf. destruct (IH f Hin) as [_ IHf]. destruct (Hf f Hin) as [Hpl Hreg].
    unfold compose. destruct (json_ignored f) eqn:Hi; [constructor|]. destruct Hreg as [|Hreg]; [done|].
    destruct (json_promoted f) eqn:Hp; [rewrite collect_deref by done; by apply IHf, regular_deref|].
    constructor; [exact Hreg|constructor].
Qed.
Lemma regular_member u fs key field : regular false (TStruct u fs) = true -> u = false ->
  exact_field (TStruct u fs) key = Some field -> regular false field.2 = true.
Proof.
  intros Hr -> Hf. pose proof Hr as [Hnd _]%regular_plain; [|done]. unfold exact_field in Hf. rewrite typeFields_all in Hf by done.
  apply fmap_Some in Hf as (f & [_ Hin]%filter_head & ->). cbn [snd].
  pose proof (proj1 (collected_regular (TStruct false fs)) 0%nat Hr) as H. rewrite Forall_forall in H. by apply H.
Qed.
Lemma regular_strip t : regular false t = true -> regular false (strip_pointers t) = true.
Proof. by induction t as [t IH| | | | | ] using GoType_induction. Qed.

(** An alias the decoder would follow is one the check sees. *)
Lemma folded_exact u fs key : regular false (TStruct u fs) = true -> u = false ->
  is_Some (exact_field (TStruct u fs) key) \/ alias_of (exactStructFields (TStruct u fs)) key = false ->
  folded_field (TStruct u fs) key = exact_field (TStruct u fs) key.
Proof.
  intros Hr Hu H. unfold folded_field. destruct (exact_field (TStruct u fs) key) as [f|] eqn:E; [done|]. destruct H as [[? ?]|Ha]; [done|].
  destruct (head _) as [f|] eqn:Ef; [exfalso|done]. apply filter_head in Ef as [Hfold Hin].
  apply not_true_iff_false in Ha. apply Ha. unfold alias_of. apply existsb_exists. exists (jf_Name f, jf_Type f). split; [|done].
  apply list_elem_of_In, elem_of_map_to_list. rewrite (regular_lookup _ _ _ Hr Hu). unfold exact_field.
  rewrite <-option_fmap_compose. subst u. pose proof Hr as [Hnd _]%regular_plain; [|done]. rewrite typeFields_all in * by done.
  change (snd ∘ (fun f => (jf_Name f, jf_Type f))) with jf_Type. rewrite (head_named _ _ Hnd).
  apply elem_of_list_to_map_1; [by rewrite entries_names|]. apply list_elem_of_fmap. eauto.
Qed.

(** *** Objects without repeated keys as maps *)

Lemma field_get_elem k v fs : field_get k fs = Some v -> (k, v) ∈ fs.
Proof.
  induction fs as [|[k' v'] fs IH]; [done|]. cbn [field_get]. case_bool_decide; [intros [= ->]; subst; by left|].
  intros Hg. right. by apply IH.
Qed.
Lemma fold_fields_keep (g : value -> value) (fs : fields_t) m k : k ∉ (fst <$> fs) ->
  field_get k (foldl (fun m kv => field_set kv.1 (g kv.2) m) m fs) = field_get k m.
Proof.
  revert m. induction fs as [|[k' x] fs IH]; intros m Hk; [done|]. rewrite fmap_cons, not_elem_of_cons in Hk.
  destruct Hk as [Hne Hk]. cbn [foldl fst snd]. rewrite IH by done. rewrite field_get_set. by rewrite decide_False.
Qed.
Lemma fold_fields_get (g : value -> value) (fs : fields_t) m k x : NoDup (fst <$> fs) -> (k, x) ∈ fs ->
  field_get k (foldl (fun m kv => field_set kv.1 (g kv.2) m) m fs) = Some (g x).
Proof.
  revert m. induction fs as [|[k' x'] fs IH]; intros m Hnd Hin; [by apply not_elem_of_nil in Hin|].
  rewrite fmap_cons in Hnd. apply NoDup_cons in Hnd as [Hno Hnd]. cbn [foldl fst snd].
  apply elem_of_cons in Hin as [[= -> ->]|Hin]; [|by apply IH].
  rewrite fold_fields_keep by done. rewrite field_get_set. by rewrite decide_True.
Qed.

Lemma forallb_elem {A} (f : A -> bool) l : forallb f l = true <-> forall x, x ∈ l -> f x = true.
Proof. rewrite forallb_forall. by setoid_rewrite <-list_elem_of_In. Qed.

Lemma shape_of_maps v : unique_keys v = true -> forall t path allow,
  validateShape (as_maps v) t path allow = Ok tt -> validateShape v t path allow = Ok tt.
Proof.
  induction v as [|b|n|s|l IH|fs IH] using value_induction; intros Hu t path allow; try done;
    cbn [as_maps validateShape]; cbn [unique_keys] in Hu; rewrite Forall_forall in IH.
  - rewrite forallb_elem in Hu. destruct (unmarshals _); [done|].
    destruct (strip_pointers t); try done; rewrite !for_each_ok, !Forall_forall; intros Hall x Hx;
      (apply IH; [done|by apply Hu|]); apply (Hall (as_maps x)), list_elem_of_fmap; eauto.
  - apply andb_true_iff in Hu as [Hnd Hu]. reflect. rewrite forallb_elem in Hu. destruct (unmarshals _); [done|].
    destruct (strip_pointers t) as [|u sfs|u elem|u len elem|u elem|u]; try done.
    rewrite !for_each_ok, !Forall_forall. intros Hall [key x] Hin. cbn [fst snd].
    specialize (Hall (key, as_maps x)). cbn [fst snd] in Hall.
    assert (In : (key, as_maps x) ∈ foldl (fun m kv => field_set kv.1 (as_maps kv.2) m) [] fs) by (by apply field_get_elem, fold_fields_get).
    specialize (Hall In). destruct (_ !! key); [|done]. apply (IH (key, x)); [done|by apply (Hu (key, x))|done].
Qed.

(** *** Assignments of a checked document *)

Lemma elem_of_at_place p l a : a ∈ at_place p l -> exists q, a.1 = p :: q.
Proof. unfold at_place. intros ([q x] & -> & _)%list_elem_of_fmap. eauto. Qed.
Lemma NoDup_at_place p l : NoDup (fst <$> l) -> NoDup (fst <$> at_place p l).
Proof.
  unfold at_place. rewrite <-list_fmap_compose. intros H.
  rewrite (list_fmap_ext _ (cons p ∘ fst)); [|by intros i [q x]]. rewrite list_fmap_compose.
  by apply (NoDup_fmap_2 (cons p)).
Qed.
(** Blocks that start with different places do not meet. *)
Lemma NoDup_blocks (blocks : list (list assignment)) :
  Forall (fun l => NoDup (fst <$> l)) blocks ->
  (forall i j l l' a b, blocks !! i = Some l -> blocks !! j = Some l' -> a ∈ l -> b ∈ l' -> a.1 = b.1 -> i = j) ->
  NoDup (fst <$> concat blocks).
Proof.
  induction 1 as [|l blocks Hl _ IH]; intros Hsep; [constructor|]. cbn [concat]. rewrite fmap_app, NoDup_app. split_and!.
  - done.
  - intros p (a & -> & Ha)%list_elem_of_fmap (b & Hab & Hb)%list_elem_of_fmap.
    apply list_elem_of_In, in_concat in Hb as (l' & [j Hj]%list_elem_of_In%list_elem_of_lookup & Hb).
    apply list_elem_of_In in Hb. specialize (Hsep 0%nat (S j) l l' a b eq_refl Hj Ha Hb Hab). done.
  - apply IH. intros i j l1 l2 a b Hi Hj Ha Hb Hab. by specialize (Hsep (S i) (S j) l1 l2 a b Hi Hj Ha Hb Hab) as [= ->].
Qed.

Lemma opaque_strip t : opaque t = true -> opaque (strip_pointers t) = true.
Proof. by induction t as [t IH| | | | | ] using GoType_induction. Qed.
(** Of an opaque type no field is looked for. *)
Lemma opaque_assigns find find' v : forall t, opaque t = true -> assignments find v t = assignments find' v t.
Proof.
  induction v as [|b|n|s|l IH|fs IH] using value_induction; intros t Ho%opaque_strip; cbn [assignments]; try done;
    rewrite Forall_forall in IH; (destruct (unmarshals (strip_pointers t)) eqn:Eu; [done|]);
    destruct (strip_pointers t) as [t'|u sfs|u elem|u len elem|u elem|u]; try done; cbn [unmarshals] in Eu; subst; cbn [opaque orb] in Ho; try done.
  - f_equal. apply list_fmap_ext. intros i x Hx%list_elem_of_lookup_2. by apply IH.
  - do 2 f_equal. apply list_fmap_ext. intros i x Hx%list_elem_of_lookup_2. by apply IH.
  - f_equal. apply list_fmap_ext. intros i [key x] Hx%list_elem_of_lookup_2. cbn [fst snd]. f_equal. by apply (IH (key, x)).
Qed.
Lemma opaque_known v : forall t, opaque t = true -> all_known v t = true.
Proof.
  induction v as [|b|n|s|l IH|fs IH] using value_induction; intros t Ho%opaque_strip; cbn [all_known]; try (by repeat case_match);
    rewrite Forall_forall in IH; (destruct (unmarshals (strip_pointers t)) eqn:Eu; [done|]);
    destruct (strip_pointers t) as [t'|u sfs|u elem|u len elem|u elem|u]; try done; cbn [unmarshals] in Eu; subst; cbn [opaque orb] in Ho; try done;
    apply forallb_elem; [intros x Hx; by apply IH..|]. intros [key x] Hx. cbn [snd]. by apply (IH (key, x)).
Qed.

(** What the check of an object comes to. *)
Lemma struct_shape fs sfs path allow : regular false (TStruct false sfs) = true ->
  validateShape (VObject fs) (TStruct false sfs) path allow = Ok tt <->
  forall key x, (key, x) ∈ fs ->
    match exact_field (TStruct false sfs) key with
    | Some field => validateShape x field.2 (path +:+ "." +:+ of_bytes key) allow = Ok tt
    | None => allow = true /\ alias_of (exactStructFields (TStruct false sfs)) key = false
    end.
Proof.
  intros Hr. cbn [validateShape strip_pointers unmarshals]. rewrite for_each_ok, Forall_forall.
  assert (forall key x, match exactStructFields (TStruct false sfs) !! key with
      | Some fieldType => validateShape x fieldType (path +:+ "." +:+ of_bytes key) allow
      | None => if allow then reject "%s contains inexact alias %q for %q" when alias_of (exactStructFields (TStruct false sfs)) key; Ok tt
                else Err "%s contains inexact or unknown field %q" end = Ok tt <->
    match exact_field (TStruct false sfs) key with
    | Some field => validateShape x field.2 (path +:+ "." +:+ of_bytes key) allow = Ok tt
    | None => allow = true /\ alias_of (exactStructFields (TStruct false sfs)) key = false
    end) as Hm.
  { intros key x. rewrite (regular_lookup false sfs key Hr eq_refl). destruct (exact_field _ _) as [field|]; [done|].
    cbn [fmap option_fmap option_map]. destruct allow; [|split; [done|by intros [? _]]]. rewrite reject_ok. naive_solver. }
  split.
  - intros H key x Hin. apply Hm. exact (H (key, x) Hin).
  - intros H [key x] Hin. apply Hm. by apply H.
Qed.

Lemma strip_not_pointer t e : strip_pointers t <> TPointer e.
Proof. by induction t as [t IH| | | | | ] using GoType_induction. Qed.
Lemma shape_strip v t path allow : validateShape v t path allow = validateShape v (strip_pointers t) path allow.
Proof.
  assert (strip_pointers (strip_pointers t) = strip_pointers t) as E by (by induction t as [t IH| | | | | ] using GoType_induction).
  destruct v; cbn [validateShape]; by rewrite ?E.
Qed.
Lemma assigns_strip find v t : assignments find v t = assignments find v (strip_pointers t).
Proof.
  assert (strip_pointers (strip_pointers t) = strip_pointers t) as E by (by induction t as [t IH| | | | | ] using GoType_induction).
  destruct v; cbn [assignments]; by rewrite ?E.
Qed.
Lemma known_strip v t : all_known v t = all_known v (strip_pointers t).
Proof.
  assert (strip_pointers (strip_pointers t) = strip_pointers t) as E by (by induction t as [t IH| | | | | ] using GoType_induction).
  destruct v; cbn [all_known]; by rewrite ?E.
Qed.

Lemma shape_assigns v : forall t path allow, regular false t = true -> validateShape v t path allow = Ok tt ->
  assignments folded_field v t = assignments exact_field v t.
Proof.
  induction v as [|b|n|s|l IH|fs IH] using value_induction; intros t path allow Hr%regular_strip; rewrite shape_strip, !(assigns_strip _ _ t).
  1-4: cbn; by repeat case_match.
  all: rewrite Forall_forall in IH; destruct (strip_pointers t) as [t'|u sfs|u elem|u len elem|u elem|u] eqn:Et;
    [by destruct (strip_not_pointer _ _ Et)|..]; destruct u; try (by cbn); cbn [regular orb andb negb] in Hr.
  all: try (cbn [validateShape assignments strip_pointers unmarshals]; rewrite for_each_ok, Forall_forall; intros Hall;
    f_equal; first [apply list_fmap_ext|f_equal; apply list_fmap_ext]; intros i x Hx%list_elem_of_lookup_2; eapply IH; [done|exact Hr|by apply Hall]).
  - intros Hall. rewrite struct_shape in Hall by exact Hr. cbn [assignments strip_pointers unmarshals].
    f_equal. apply list_fmap_ext. intros i [key x] Hx%list_elem_of_lookup_2. specialize (Hall _ _ Hx). cbn [fst snd].
    rewrite folded_exact; [|exact Hr|done|destruct (exact_field _ key) as [field|]; [left; eauto|right; apply Hall]].
    destruct (exact_field _ key) as [field|] eqn:Ef; [|done]. f_equal. eapply (IH (key, x)); [done| |exact Hall].
    by eapply (regular_member false sfs).
  - intros _. by apply opaque_assigns.
Qed.
Lemma shape_known v : forall t path, regular false t = true -> validateShape v t path false = Ok tt <-> all_known v t = true.
Proof.
  induction v as [|b|n|s|l IH|fs IH] using value_induction; intros t path Hr%regular_strip; rewrite shape_strip, known_strip.
  1-4: cbn; by repeat case_match.
  all: rewrite Forall_forall in IH; destruct (strip_pointers t) as [t'|u sfs|u elem|u len elem|u elem|u] eqn:Et;
    [by destruct (strip_not_pointer _ _ Et)|..]; destruct u; try (by cbn); cbn [regular orb andb negb] in Hr.
  all: try (cbn [validateShape all_known strip_pointers unmarshals]; rewrite for_each_ok, Forall_forall, forallb_elem;
    split; intros Hall x Hx; (eapply IH; [done|exact Hr|by apply Hall])).
  - rewrite struct_shape by exact Hr. cbn [all_known strip_pointers unmarshals]. rewrite forallb_elem. split.
    + intros Hall [key x] Hx. specialize (Hall _ _ Hx). cbn [fst snd].
      destruct (exact_field _ key) as [field|] eqn:Ef; [|by destruct Hall]. eapply (IH (key, x)); [done| |exact Hall].
      by eapply (regular_member false sfs).
    + intros Hall key x Hx. specialize (Hall _ Hx). cbn [fst snd] in Hall.
      destruct (exact_field _ key) as [field|] eqn:Ef; [|done]. apply (IH (key, x)); [done| |exact Hall].
      by eapply (regular_member false sfs).
  - split; [intros _|done]. apply (opaque_known (VObject fs) (TMap false elem)). exact Hr.
Qed.
Lemma shape_compatible v : forall t path, validateShape v t path false = Ok tt -> validateShape v t path true = Ok tt.
Proof.
  induction v as [|b|n|s|l IH|fs IH] using value_induction; intros t path.
  1-4: cbn; by repeat case_match.
  all: cbn [validateShape]; rewrite Forall_forall in IH; (destruct (unmarshals _); [done|]);
    destruct (strip_pointers t); try done; rewrite !for_each_ok, !Forall_forall; intros Hall.
  - intros x Hx. apply IH; [done|]. by apply Hall.
  - intros x Hx. apply IH; [done|]. by apply Hall.
  - intros [key x] Hx. specialize (Hall _ Hx). cbn [fst snd] in *. destruct (_ !! key); [|done].
    by apply (IH (key, x)).
Qed.

(** Without repeated keys no place is assigned twice. *)
Lemma indexed_unique (items : list (list assignment)) : Forall (fun l => NoDup (fst <$> l)) items -> NoDup (fst <$> indexed items).
Proof.
  intros H. apply NoDup_blocks.
  - apply Forall_lookup. intros i l Hl. rewrite list_lookup_imap in Hl. destruct (items !! i) as [l0|] eqn:E; [|done].
    injection Hl as <-. apply NoDup_at_place. exact (Forall_lookup_1 _ _ _ _ H E).
  - intros i j l l' a b Hi Hj Ha Hb Hab. rewrite list_lookup_imap in Hi, Hj.
    destruct (items !! i), (items !! j); simplify_eq/=.
    apply elem_of_at_place in Ha as [p Ha], Hb as [q Hb]. congruence.
Qed.
Lemma member_places (find : text -> option (text * GoType)) (h : text -> place) (g : text * value -> GoType -> list assignment) (fs : fields_t) :
  Inj (=) (=) h -> NoDup (fst <$> fs) -> (forall key field, find key = Some field -> field.1 = key) ->
  (forall key x field, (key, x) ∈ fs -> find key = Some field -> NoDup (fst <$> g (key, x) field.2)) ->
  NoDup (fst <$> concat ((fun member => match find member.1 with Some field => at_place (h field.1) (g member field.2) | None => [] end) <$> fs)).
Proof.
  intros Hinj Hnd Hfind Hg. apply NoDup_blocks.
  - apply Forall_fmap, Forall_forall. intros [key x] Hx. unfold compose. cbn [fst snd].
    destruct (find key) as [field|] eqn:Ef; [|constructor]. apply NoDup_at_place. by eapply Hg.
  - intros i j l l' a b Hi Hj Ha Hb Hab. rewrite list_lookup_fmap in Hi, Hj.
    destruct (fs !! i) as [[k x]|] eqn:Ei, (fs !! j) as [[k' x']|] eqn:Ej; simplify_eq/=.
    destruct (find k) as [f|] eqn:Ek; [|by apply not_elem_of_nil in Ha]. destruct (find k') as [f'|] eqn:Ek'; [|by apply not_elem_of_nil in Hb].
    apply elem_of_at_place in Ha as [p Ha], Hb as [q Hb]. assert (h f.1 = h f'.1) as E%(inj h) by congruence.
    assert (k = k') as <- by (by rewrite <-(Hfind _ _ Ek), <-(Hfind _ _ Ek')).
    eapply NoDup_lookup; [exact Hnd|by rewrite list_lookup_fmap, Ei|by rewrite list_lookup_fmap, Ej].
Qed.
Lemma unique_assignments v : unique_keys v = true -> forall t, NoDup (fst <$> assignments exact_field v t).
Proof.
  induction v as [|b|n|s|l IH|fs IH] using value_induction; intros Hu t; cbn [assignments];
    try (repeat case_match; apply NoDup_singleton); rewrite Forall_forall in IH; cbn [unique_keys] in Hu.
  - rewrite forallb_elem in Hu. destruct (unmarshals _); [apply NoDup_singleton|].
    destruct (strip_pointers t); try apply NoDup_singleton; apply indexed_unique; [|apply Forall_take];
      (apply Forall_fmap, Forall_forall; intros x Hx; by apply IH, Hu).
  - apply andb_true_iff in Hu as [Hnd Hu]. reflect. rewrite forallb_elem in Hu. destruct (unmarshals _); [apply NoDup_singleton|].
    destruct (strip_pointers t) as [|u sfs|u elem|u len elem|u elem|u] eqn:Et; try apply NoDup_singleton.
    + apply (member_places (exact_field (TStruct u sfs)) Field (fun member t => assignments exact_field member.2 t)); [by intros ? ? [=]|done|apply exact_field_named|].
      intros key x field Hx _. by apply (IH (key, x)), (Hu (key, x)).
    + apply (member_places (fun key => Some (key, elem)) Key (fun member t => assignments exact_field member.2 t)); [by intros ? ? [=]|done|by intros key field [= <-]|].
      intros key x field Hx _. by apply (IH (key, x)), (Hu (key, x)).
Qed.

(** A limit only refuses. *)
Lemma items_from_mono {A} close start (f g : text -> option (list A * text)) l p :
  (forall l p, f l = Some p -> g l = Some p) -> items_from close start f l = Some p -> items_from close start g l = Some p.
Proof. intros H. unfold items_from. repeat case_match; eauto. Qed.
Lemma map_mono {A B} (h : A -> B) (o o' : option A) p : (forall q, o = Some q -> o' = Some q) -> h <$> o = Some p -> h <$> o' = Some p.
Proof. intros H. destruct o as [q|]; cbn; [|done]. intros E. rewrite (H q eq_refl). exact E. Qed.
Lemma parse_unlimited limit n :
  (forall depth l p, parse_value (Some limit) n depth l = Some p -> parse_value None n depth l = Some p) /\
  (forall depth l p, parse_elements (Some limit) n depth l = Some p -> parse_elements None n depth l = Some p) /\
  (forall depth l p, parse_members (Some limit) n depth l = Some p -> parse_members None n depth l = Some p).
Proof.
  induction n as [|n (IHv & IHe & IHm)]; [done|]. split_and!; intros depth l p.
  - cbn [parse_value]. destruct (skip_spaces l) as [|c l1]; [done|].
    destruct (is_byte open_bracket c); [|destruct (is_byte open_brace c); [|done]]; cbn [too_deep];
      (destruct (limit <=? depth); [done|]); apply map_mono; intros q; apply items_from_mono; eauto.
  - cbn [parse_elements]. destruct (parse_value (Some limit) n depth l) as [[x l1]|] eqn:E; [|done]. rewrite (IHv _ _ _ E).
    cbn [mbind option_bind]. apply map_mono. intros q. apply items_from_mono. eauto.
  - cbn [parse_members]. destruct (skip_spaces l) as [|q0 l1]; [done|]. destruct (negb _); [done|]. destruct (lex_string l1) as [[key l2]|]; [|done]. cbn [mbind option_bind].
    destruct (skip_spaces l2) as [|k l3]; [done|]. destruct (negb _); [done|].
    destruct (parse_value (Some limit) n depth l3) as [[x l4]|] eqn:E; [|done]. rewrite (IHv _ _ _ E).
    cbn [mbind option_bind]. apply map_mono. intros q. apply items_from_mono. eauto.
Qed.

(** What a checked text decodes to. *)
Lemma validated_shape raw target subject allow :
  ValidateUniqueObject raw subject = Ok tt ->
  (let? decoded := Decode raw in validateShape decoded target subject allow) = Ok tt ->
  exists fs, one_object raw fs /\ unique_keys (VObject fs) = true /\ Decode raw = Ok (as_maps (VObject fs)) /\
    validateShape (VObject fs) target subject allow = Ok tt.
Proof.
  intros Hu Hs. assert (subject <> "") as Hsub by (intros ->; done).
  apply unique_object_accepts in Hu as (fs & Hone & Hu); [|done]. exists fs. split_and!; [done..| |].
  all: destruct Hone as (rest & Hp & _); unfold Decode in *.
  all: destruct (parse (Some maxNestingDepth) raw) as [[v r]|] eqn:E; [|done].
  all: pose proof (proj1 (parse_unlimited _ _) _ _ _ E) as E'; unfold parse in Hp; rewrite Hp in E'; simplify_eq.
  - done.
  - by apply shape_of_maps.
Qed.
