(* ===== verification/ExactJsonSpec.v ===== *)
(** * What exact JSON promises

    The canonical encoding reads back, and the theorems of the component. *)
From Stdlib Require Import Ascii.
From S2P Require Import Prelude Schema SchemaFacts PathIdentity PathFacts UserIntent UserIntentFacts JsonCodec ExactJson ExactJsonFacts.
From stdpp Require Import sorting base tactics strings list gmap numbers pretty.
From stdpp Require Import list options.
Open Scope Z_scope.
Open Scope go_scope.

(** ** Runes *)

Inductive rune : text -> Prop :=
| rune1 a : seq1 a = true -> rune [a]
| rune2 a b : seq2 a b = true -> rune [a; b]
| rune3 a b c : seq3 a b c = true -> rune [a; b; c]
| rune4 a b c d : seq4 a b c d = true -> rune [a; b; c; d].
Lemma rune_replacement : rune replacement_char.
Proof. by constructor. Qed.

(** Byte ranges as inequalities. *)
Ltac ranges :=
  unfold seq1, seq2, seq3, seq4, is_cont, byte_in in *;
  repeat match goal with
  | H : (_ && _)%bool = true |- _ => apply andb_true_iff in H as [? ?]
  | H : (_ || _)%bool = true |- _ => apply orb_true_iff in H as [?|?]
  | H : (_ <=? _)%N = true |- _ => apply N.leb_le in H
  end.
Lemma seq2_lead a b : seq2 a b = true -> seq1 a = false.
Proof. intros H. ranges. apply andb_false_iff. right. apply N.leb_gt. lia. Qed.
Lemma seq3_lead a b c : seq3 a b c = true -> seq1 a = false /\ seq2 a b = false.
Proof.
  intros H. ranges; (split; [apply andb_false_iff; right; apply N.leb_gt; lia|]);
    apply andb_false_iff; left; apply andb_false_iff; right; apply N.leb_gt; lia.
Qed.
Lemma seq4_lead a b c d : seq4 a b c d = true -> seq1 a = false /\ seq2 a b = false /\ seq3 a b c = false.
Proof.
  intros H. assert (240 <= N_of_ascii a)%N as Ha by (ranges; lia). clear H. split_and!.
  - unfold seq1, byte_in. apply andb_false_iff. right. apply N.leb_gt. lia.
  - unfold seq2, byte_in. apply andb_false_iff. left. apply andb_false_iff. right. apply N.leb_gt. lia.
  - unfold seq3, byte_in. apply andb_false_iff. right. repeat (apply orb_false_iff; split);
      apply andb_false_iff; left; apply andb_false_iff; right; apply N.leb_gt; lia.
Qed.
Lemma runes_app r l : rune r -> runes (r ++ l) = r :: runes l.
Proof.
  destruct 1 as [a H|a b H|a b c H|a b c d H]; cbn [app runes].
  - by rewrite H.
  - by rewrite (seq2_lead _ _ H), H.
  - destruct (seq3_lead _ _ _ H) as [-> ->]. by rewrite H.
  - destruct (seq4_lead _ _ _ _ H) as (-> & -> & ->). by rewrite H.
Qed.
Lemma runes_concat rs l : Forall rune rs -> runes (concat rs ++ l) = rs ++ runes l.
Proof. induction 1 as [|r rs Hr _ IH]; [done|]. cbn [concat app]. by rewrite <-app_assoc, runes_app, IH. Qed.
Lemma runes_rune l : Forall rune (runes l).
Proof.
  remember (length l) as n eqn:Hn. revert l Hn. induction n as [n IH] using lt_wf_ind. intros l ->.
  assert (forall k, (length k < length l)%nat -> Forall rune (runes k)) as Hk by (intros k Hl; by eapply IH).
  destruct l as [|a [|b [|c [|d l]]]]; cbn [runes]; repeat case_match; repeat constructor; try done;
    try apply rune_replacement; try (apply Hk; simpl; lia).
Qed.

(** Text that is well-formed UTF-8. *)
Definition clean (s : text) : Prop := concat (runes s) = s.
Lemma clean_concat rs : Forall rune rs -> clean (concat rs).
Proof. intros H. unfold clean. rewrite <-(app_nil_r (concat rs)) at 1. by rewrite runes_concat, app_nil_r. Qed.

(** ** Decoded strings *)

Lemma zbyte_value z : 0 <= z < 256 -> N_of_ascii (zbyte z) = Z.to_N z.
Proof. intros H. unfold zbyte. apply N_ascii_embedding. lia. Qed.
(** [lia] with the equations of divisions by constants. *)
Ltac dlia := Z.to_euclidean_division_equations; lia.
Lemma encode_rune_rune z : 0 <= z <= 1114111 -> is_surrogate z = false -> rune (encode_rune z).
Proof.
  intros Hz Hs. unfold is_surrogate in Hs. apply andb_false_iff in Hs. rewrite Z.leb_gt, Z.ltb_ge in Hs. unfold encode_rune.
  destruct (z <? 128) eqn:E1; [|destruct (z <? 2048) eqn:E2; [|destruct (z <? 65536) eqn:E3]]; reflect.
  - constructor. unfold seq1, byte_in. rewrite zbyte_value by dlia. apply andb_true_iff. rewrite !N.leb_le. dlia.
  - constructor. unfold seq2, is_cont, byte_in. rewrite !zbyte_value by dlia. rewrite !andb_true_iff, !N.leb_le. dlia.
  - constructor. unfold seq3, is_cont, byte_in. rewrite !zbyte_value by dlia.
    rewrite !andb_true_iff, !orb_true_iff, !andb_true_iff, !N.leb_le. dlia.
  - constructor. unfold seq4, is_cont, byte_in. rewrite !zbyte_value by dlia.
    rewrite !andb_true_iff, !orb_true_iff, !andb_true_iff, !N.leb_le. dlia.
Qed.
Lemma hex_digits l : forallb hex_rune l = true -> Forall (fun r => exists a, r = [a] /\ 0 <= digit_value a < 16) l.
Proof.
  rewrite forallb_elem, Forall_forall. intros H r Hr. specialize (H r Hr). destruct r as [|a [|b r]]; try done. exists a. split; [done|].
  cbn [hex_rune] in H. unfold is_hex, sourceHexByte in H. unfold digit_value.
  destruct (byte_in 48 57 a) eqn:E1; [ranges; lia|]. destruct (byte_in 97 102 a) eqn:E2; [ranges; lia|]. cbn [orb] in H. ranges; lia.
Qed.
Lemma code_unit_bound h1 h2 h3 h4 : forallb hex_rune [h1; h2; h3; h4] = true -> 0 <= code_unit [h1; h2; h3; h4] < 65536.
Proof.
  intros H%hex_digits. rewrite !Forall_cons in H. destruct H as ((a & -> & Ha) & (b & -> & Hb) & (c & -> & Hc) & (d & -> & Hd) & _).
  unfold code_unit, parse_uint. cbn [concat app foldl]. lia.
Qed.
Lemma unquote_clean rs s : Forall rune rs -> unquote rs = Some s -> exists rs', Forall rune rs' /\ s = concat rs'.
Proof.
  remember (length rs) as n eqn:Hn. revert rs s Hn. induction n as [n IH] using lt_wf_ind. intros rs s -> Hrs.
  assert (forall r (k : list text), rune r -> Forall rune k -> (length k < length rs)%nat -> app r <$> unquote k = Some s ->
    exists rs', Forall rune rs' /\ s = concat rs') as Hrec.
  { intros r k Hr Hk Hl H. destruct (unquote k) as [s'|] eqn:E; [|done]. injection H as <-.
    destruct (IH (length k) Hl k s' eq_refl Hk E) as (rs' & Hrs' & ->). exists (r :: rs'). by split; [constructor|]. }
  destruct Hrs as [|r rs1 Hr Hrs1]; [intros [= <-]; by exists []|]. cbn [unquote].
  destruct (r == [backslash]); [|destruct (bare_rune r); [done|]; apply Hrec; [done..|simpl; lia]].
  destruct Hrs1 as [|e rs2 He Hrs2]; [done|]. destruct (e == [letter_u]).
  - destruct Hrs2 as [|h1 ? _ [|h2 ? _ [|h3 ? _ [|h4 rs3 _ Hrs3]]]]; try done.
    destruct (negb _) eqn:Eh; [done|]. apply negb_false_iff, code_unit_bound in Eh.
    destruct (is_surrogate _) eqn:Es; [|apply Hrec; [apply encode_rune_rune; [lia|done]|done|simpl; lia]].
    assert (app replacement_char <$> unquote rs3 = Some s -> exists rs', Forall rune rs' /\ s = concat rs') as Hrep
      by (apply Hrec; [apply rune_replacement|done|simpl; lia]).
    destruct Hrs3 as [|b ? _ [|u ? _ [|g1 ? _ [|g2 ? _ [|g3 ? _ [|g4 rs4 _ Hrs4]]]]]]; try exact Hrep.
    destruct (_ && _)%bool eqn:Eb; [|exact Hrep]. clear Hrep. apply Hrec; [|done|simpl; lia].
    apply andb_true_iff in Eb as [Eb Hlow]. apply andb_true_iff in Eb as [Eb Hhigh]. clear Eb.
    unfold low_surrogate, high_surrogate in *. apply andb_true_iff in Hlow as [? ?], Hhigh as [? ?].
    reflect. apply encode_rune_rune; unfold decode_surrogates; [lia|].
    unfold is_surrogate. apply andb_false_iff. right. apply Z.ltb_ge. lia.
  - destruct e as [|a [|? ?]]; try done. destruct (control_escape a) as [c|] eqn:Ec; [|done]. cbn [mbind option_bind].
    apply (Hrec [c]); [|done|simpl; lia]. unfold control_escape in Ec. constructor.
    repeat (case_match; simplify_eq; try done). by inversion He.
Qed.
Lemma lex_string_clean l s r : lex_string l = Some (s, r) -> clean s.
Proof.
  unfold lex_string. destruct (scan_string l) as [[raw r']|]; cbn; [|done]. destruct (unquote _) as [s'|] eqn:E; cbn; [|done].
  intros [= <- <-]. apply unquote_clean in E as (rs & Hrs & ->); [by apply clean_concat|apply runes_rune].
Qed.

(** ** Written strings *)

Lemma scan_high a l : byte_in 128 255 a = true -> scan_string (a :: l) = prod_map (cons a) id <$> scan_string l.
Proof.
  intros H. cbn [scan_string].
  assert (is_byte quote a = false /\ is_byte backslash a = false /\ byte_in 0 31 a = false) as (-> & -> & ->); [|done].
  split_and!; [apply not_true_iff_false; intros ->%is_byte_true; done..|].
  apply not_true_iff_false. intros H'. ranges. lia.
Qed.
Lemma high_tail r : rune r -> (exists a, r = [a] /\ seq1 a = true) \/ (write_rune r = r /\ runes r = [r] /\
  r <> [backslash] /\ bare_rune r = false /\ Forall (fun a => byte_in 128 255 a = true) r).
Proof.
  intros Hr. pose proof (runes_app _ [] Hr) as Hrunes. rewrite app_nil_r in Hrunes.
  destruct Hr as [a H|a b H|a b c H|a b c d H]; [by left; eauto|right..]; split_and!; try done; repeat constructor;
    ranges; unfold byte_in; apply andb_true_iff; rewrite !N.leb_le; lia.
Qed.
(** The 128 runes of one byte, one by one. *)
Lemma write_ascii a : seq1 a = true ->
  (forall l, scan_string (write_rune [a] ++ l) = prod_map (app (write_rune [a])) id <$> scan_string l) /\
  Forall rune (runes (write_rune [a])) /\ concat (runes (write_rune [a])) = write_rune [a] /\
  (forall rs, unquote (runes (write_rune [a]) ++ rs) = cons a <$> unquote rs).
Proof.
  destruct a as [[] [] [] [] [] [] [] []]; intros H; try discriminate H; clear H;
    (split_and!; [reflexivity|vm_compute; by repeat constructor|reflexivity|reflexivity]).
Qed.
Lemma scan_highs r l : Forall (fun a => byte_in 128 255 a = true) r -> scan_string (r ++ l) = prod_map (app r) id <$> scan_string l.
Proof.
  induction 1 as [|a r Ha _ IH]; cbn [app]; [by destruct (scan_string l) as [[? ?]|]|].
  rewrite scan_high, IH by done. by destruct (scan_string l) as [[? ?]|].
Qed.
Lemma write_one r l rs : rune r ->
  scan_string (write_rune r ++ l) = prod_map (app (write_rune r)) id <$> scan_string l /\
  runes (write_rune r ++ l) = runes (write_rune r) ++ runes l /\ unquote (runes (write_rune r) ++ rs) = app r <$> unquote rs.
Proof.
  intros Hr. destruct (high_tail r Hr) as [(a & -> & Ha)|(-> & Hrunes & Hne & Hbare & Hhigh)].
  - destruct (write_ascii a Ha) as (Hs & Hf & Hc & Hu). split_and!; [done| |by rewrite Hu; destruct (unquote rs)].
    rewrite <-Hc at 1. by rewrite runes_concat.
  - split_and!; [by apply scan_highs|rewrite Hrunes; by apply runes_app|]. rewrite Hrunes. cbn [app unquote].
    rewrite bool_decide_eq_false_2, Hbare by done. done.
Qed.
Lemma lex_written rs r : Forall rune rs ->
  lex_string (concat (write_rune <$> rs) ++ quote :: r) = Some (concat rs, r).
Proof.
  intros H. assert (scan_string (concat (write_rune <$> rs) ++ quote :: r) = Some (concat (write_rune <$> rs), r)) as Hs.
  { induction H as [|r0 rs Hr _ IH]; [done|]. rewrite fmap_cons. cbn [concat]. rewrite <-app_assoc.
    rewrite (proj1 (write_one r0 _ [] Hr)), IH. done. }
  assert (unquote (runes (concat (write_rune <$> rs))) = Some (concat rs)) as Hu.
  { clear Hs. induction H as [|r0 rs Hr _ IH]; [done|]. rewrite fmap_cons. cbn [concat].
    destruct (write_one r0 (concat (write_rune <$> rs)) (runes (concat (write_rune <$> rs))) Hr) as (_ & -> & ->). by rewrite IH. }
  unfold lex_string. rewrite Hs. cbn [mbind option_bind]. by rewrite Hu.
Qed.
Lemma lex_canonical_string s r : clean s -> lex_scalar (writeCanonicalString s ++ r) = Some (VString s, r) /\
  lex_string (concat (write_rune <$> runes s) ++ [quote] ++ r) = Some (s, r).
Proof.
  intros Hs. assert (lex_string (concat (write_rune <$> runes s) ++ [quote] ++ r) = Some (s, r)) as H
    by (cbn [app]; by rewrite lex_written, Hs by apply runes_rune).
  split; [|done]. unfold writeCanonicalString. cbn [app]. rewrite <-app_assoc.
  change (prod_map VString id <$> lex_string (concat (write_rune <$> runes s) ++ [quote] ++ r) = Some (VString s, r)). by rewrite H.
Qed.

(** ** Numbers *)

(** What may follow a value in a canonical text. *)
Definition stops (r : text) : Prop := match r with [] => True | c :: _ => c ∈ [comma; close_bracket; close_brace] end.
(** The first byte is none of the given ones. *)
Definition not_ahead (p : ascii -> bool) (l : text) : Prop := match l with [] => True | a :: _ => p a = false end.
Lemma stops_ahead p r : p comma = false -> p close_bracket = false -> p close_brace = false -> stops r -> not_ahead p r.
Proof.
  destruct r as [|c r]; [done|]. intros H1 H2 H3 Hc. cbn in *.
  repeat (apply elem_of_cons in Hc as [->|Hc]; [done|]). by apply not_elem_of_nil in Hc.
Qed.
Lemma digits_split l ds r : digits l = (ds, r) -> l = ds ++ r /\ not_ahead is_digit r /\
  forall r', not_ahead is_digit r' -> digits (ds ++ r') = (ds, r').
Proof.
  revert ds r. induction l as [|a l IH]; intros ds r; cbn [digits].
  - intros [= <- <-]. split_and!; [done..|]. intros [|b r'] Hr; [done|]. cbn [not_ahead] in Hr. cbn [app digits]. by rewrite Hr.
  - destruct (is_digit a) eqn:Ha.
    + destruct (digits l) as [ds' r0]. intros [= <- <-]. destruct (IH _ _ eq_refl) as (-> & Hn & Hd). split_and!; [done..|].
      intros r' Hr. cbn [app digits]. by rewrite Ha, Hd.
    + intros [= <- <-]. split_and!; [done..|]. intros [|b r'] Hr; [done|]. cbn [not_ahead] in Hr. cbn [app digits]. by rewrite Hr.
Qed.
Lemma digits1_again l ds r : digits1 l = Some (ds, r) -> ds <> [] /\ not_ahead is_digit r /\
  (forall r', not_ahead is_digit r' -> digits1 (ds ++ r') = Some (ds, r')) /\ exists a ds', ds = a :: ds' /\ is_digit a = true.
Proof.
  unfold digits1. destruct (digits l) as [ds0 r0] eqn:E. destruct ds0 as [|a ds0]; [done|]. intros [= <- <-].
  pose proof E as E'. apply digits_split in E as (-> & Hn & Hd). split_and!; [done..| |].
  - intros r' Hr. by rewrite Hd.
  - exists a, ds0. split; [done|]. cbn [app digits] in E'. by destruct (is_digit a).
Qed.
Lemma integer_again l x r : lex_integer l = Some (x, r) ->
  (forall r', not_ahead is_digit r' -> lex_integer (x ++ r') = Some (x, r')) /\ exists a x', x = a :: x' /\ is_digit a = true.
Proof.
  destruct l as [|a l]; [done|]. cbn [lex_integer]. destruct (is_byte zero_digit a) eqn:Ez.
  - intros [= <- <-]. apply is_byte_true in Ez as ->. split; [done|]. by exists zero_digit, [].
  - intros H. pose proof H as H'. apply digits1_again in H as (_ & _ & Hd & b & x' & -> & Hb). split; [|eauto].
    intros r' Hr. cbn [app lex_integer]. rewrite <-(Hd r' Hr). cbn [app].
    assert (b = a) as -> by (unfold digits1 in H'; cbn [digits] in H'; destruct (is_digit a); [destruct (digits l); by simplify_eq/=|done]).
    by rewrite Ez.
Qed.
Lemma fraction_again l x r : lex_fraction l = Some (x, r) ->
  not_ahead is_digit x /\
  forall r', not_ahead is_digit r' -> not_ahead (is_byte dot) r' -> lex_fraction (x ++ r') = Some (x, r').
Proof.
  assert (forall r', not_ahead (is_byte dot) r' -> lex_fraction ([] ++ r') = Some ([], r')) as Hnil.
  { intros [|b r'] Hr; [done|]. cbn [not_ahead] in Hr. cbn [app lex_fraction]. by rewrite Hr. }
  destruct l as [|a l]; [intros [= <- <-]; split_and!; [done..|intros; by apply Hnil]|]. cbn [lex_fraction]. destruct (is_byte dot a) eqn:Ed; [|intros [= <- <-]; split_and!; [done..|intros; by apply Hnil]].
  apply is_byte_true in Ed as ->. destruct (digits1 l) as [[ds r0]|] eqn:E; [|done]. intros [= <- <-]. split; [done|].
  intros r' Hr _. apply digits1_again in E as (_ & _ & Hd & _). cbn [app lex_fraction].
  change (prod_map (cons dot) id <$> digits1 (ds ++ r') = Some (dot :: ds, r')). by rewrite Hd.
Qed.
Definition is_exponent (a : ascii) : bool := one_of [byte 101; byte 69] a.
Lemma exponent_again l x r : lex_exponent l = Some (x, r) ->
  not_ahead is_digit x /\ not_ahead (is_byte dot) x /\
  forall r', not_ahead is_digit r' -> not_ahead is_exponent r' -> lex_exponent (x ++ r') = Some (x, r').
Proof.
  assert (forall r', not_ahead is_exponent r' -> lex_exponent ([] ++ r') = Some ([], r')) as Hnil.
  { intros [|b r'] Hr; [done|]. cbn [not_ahead] in Hr. unfold is_exponent in Hr. cbn [app lex_exponent]. by rewrite Hr. }
  destruct l as [|a l]; [intros [= <- <-]; split_and!; [done..|intros; by apply Hnil]|]. cbn [lex_exponent].
  destruct (one_of [byte 101; byte 69] a) eqn:Ea; [|intros [= <- <-]; split_and!; [done..|intros; by apply Hnil]].
  assert (is_digit a = false /\ is_byte dot a = false) as [Hda Hdot].
  { unfold one_of in Ea. reflect. repeat (apply elem_of_cons in Ea as [->|Ea]; [done|]). by apply not_elem_of_nil in Ea. }
  destruct (lex_sign [plus_sign; hyphen] l) as [sign l2] eqn:El.
  destruct (digits1 l2) as [[ds r0]|] eqn:E; [|done]. intros [= <- <-]. split_and!; [done..|].
  intros r' Hr _. apply digits1_again in E as (_ & _ & Hd & b & ds' & -> & Hb).
  cbn [app lex_exponent]. rewrite Ea, <-app_assoc.
  assert (lex_sign [plus_sign; hyphen] (sign ++ (b :: ds') ++ r') = (sign, (b :: ds') ++ r')) as ->.
  { assert (one_of [plus_sign; hyphen] b = false) as Hs.
    { unfold one_of. apply bool_decide_eq_false. intros Hin. repeat (apply elem_of_cons in Hin as [->|Hin]; [done|]).
      by apply not_elem_of_nil in Hin. }
    destruct l as [|c l]; cbn [lex_sign] in El; [injection El as <- <-; cbn [app lex_sign]; by rewrite Hs|].
    destruct (one_of [plus_sign; hyphen] c) eqn:Ec; injection El as <- <-; cbn [app lex_sign]; [by rewrite Ec|by rewrite Hs]. }
  by rewrite Hd.
Qed.

(** A number reads back before whatever may follow a value. *)
Definition numeral_text (n : text) : Prop :=
  (exists a n', n = a :: n' /\ (is_digit a || is_byte hyphen a)%bool = true) /\ forall r, stops r -> lex_number (n ++ r) = Some (n, r).
Lemma not_ahead_app p x r : not_ahead p x -> not_ahead p r -> not_ahead p (x ++ r).
Proof. by destruct x. Qed.
Lemma lex_number_again l n r : lex_number l = Some (n, r) -> numeral_text n.
Proof.
  unfold lex_number at 1. destruct (lex_sign [hyphen] l) as [sign l1] eqn:E1.
  destruct (lex_integer l1) as [[whole l2]|] eqn:E2; cbn [mbind option_bind]; [|done].
  destruct (lex_fraction l2) as [[fraction l3]|] eqn:E3; cbn [mbind option_bind]; [|done].
  destruct (lex_exponent l3) as [[exponent l4]|] eqn:E4; cbn [mbind option_bind]; [|done]. intros [= <- <-].
  apply integer_again in E2 as (Hi & a & whole' & -> & Ha). apply fraction_again in E3 as (Hf1 & Hf).
  apply exponent_again in E4 as (He1 & He2 & He).
  assert (sign = [] \/ sign = [hyphen]) as Hsign.
  { destruct l as [|c l]; cbn [lex_sign] in E1; [injection E1 as <- <-; by left|]. unfold one_of in E1.
    case_bool_decide as Ec; injection E1 as <- <-; [|by left]. apply list_elem_of_singleton in Ec as ->. by right. }
  split.
  { destruct Hsign as [-> | ->]; [exists a; eexists; split; [done|]; by rewrite Ha|by eexists _, _]. }
  intros r0 Hr. pose proof (stops_ahead is_digit r0 eq_refl eq_refl eq_refl Hr) as H1.
  pose proof (stops_ahead (is_byte dot) r0 eq_refl eq_refl eq_refl Hr) as H2.
  pose proof (stops_ahead is_exponent r0 eq_refl eq_refl eq_refl Hr) as H3.
  assert (lex_sign [hyphen] ((sign ++ (a :: whole') ++ fraction ++ exponent) ++ r0) = (sign, (a :: whole') ++ fraction ++ exponent ++ r0)) as Hs.
  { rewrite <-!app_assoc. destruct Hsign as [-> | ->]; [|done]. cbn [app lex_sign]. unfold one_of.
    rewrite bool_decide_eq_false_2; [done|]. intros ->%list_elem_of_singleton. done. }
  unfold lex_number. rewrite Hs, Hi by (by repeat apply not_ahead_app). cbn [mbind option_bind].
  rewrite Hf by (by apply not_ahead_app). cbn [mbind option_bind]. rewrite He by done. done.
Qed.
Lemma lex_scalar_number n r : numeral_text n -> stops r -> lex_scalar (n ++ r) = Some (VNumber n, r).
Proof.
  intros [(a & n' & -> & Ha) Hn] Hr. cbn [app]. unfold lex_scalar.
  assert (forall d, (is_digit d || is_byte hyphen d)%bool = false -> is_byte d a = false) as Hd.
  { intros d Hd. apply not_true_iff_false. intros ->%is_byte_true. congruence. }
  rewrite !Hd by done. change (a :: n' ++ r) with ((a :: n') ++ r). by rewrite Hn.
Qed.

(** ** Values *)

(** What parsing yields: well-formed texts, numbers that read back, nesting within
    the limit. *)
Inductive readable (limit : option Z) : Z -> value -> Prop :=
| readable_null d : readable limit d VNull
| readable_bool d b : readable limit d (VBool b)
| readable_number d n : numeral_text n -> readable limit d (VNumber n)
| readable_string d s : clean s -> readable limit d (VString s)
| readable_array d l : too_deep limit d = false -> Forall (readable limit (d + 1)) l -> readable limit d (VArray l)
| readable_object d fs : too_deep limit d = false -> Forall (fun f => clean f.1 /\ readable limit (d + 1) f.2) fs ->
    readable limit d (VObject fs).
(** Every object has its members in the order of their keys. *)
Inductive ordered : value -> Prop :=
| ordered_null : ordered VNull
| ordered_bool b : ordered (VBool b)
| ordered_number n : ordered (VNumber n)
| ordered_string s : ordered (VString s)
| ordered_array l : Forall ordered l -> ordered (VArray l)
| ordered_object fs : sorted_fields fs -> Forall (fun f => ordered f.2) fs -> ordered (VObject fs).
#[local] Hint Constructors readable ordered : core.

Lemma lex_scalar_readable limit d l v r : lex_scalar l = Some (v, r) -> readable limit d v.
Proof.
  destruct l as [|a l]; [done|]. unfold lex_scalar. intros H. repeat case_match; try done.
  - apply consumes_map in H as (s & Hs & ->). apply lex_string_clean in Hs. auto.
  - destruct (lex_word _ _); simplify_eq/=; auto.
  - destruct (lex_word _ _); simplify_eq/=; auto.
  - destruct (lex_word _ _); simplify_eq/=; auto.
  - apply consumes_map in H as (s & Hs & ->). apply lex_number_again in Hs. auto.
Qed.
Lemma items_readable {A} (P : A -> Prop) close start (items : text -> option (list A * text)) l xs r :
  (forall l xs r, items l = Some (xs, r) -> Forall P xs) -> items_from close start items l = Some (xs, r) -> Forall P xs.
Proof.
  intros Hi. unfold items_from. destruct (skip_spaces l) as [|c l']; [done|]. destruct (is_byte close c); [intros [= <- _]; constructor|].
  destruct start; [apply Hi|]. destruct (is_byte comma c); [apply Hi|done].
Qed.
Lemma parse_readable limit n :
  (forall d l v r, parse_value limit n d l = Some (v, r) -> readable limit d v) /\
  (forall d l vs r, parse_elements limit n d l = Some (vs, r) -> Forall (readable limit d) vs) /\
  (forall d l fs r, parse_members limit n d l = Some (fs, r) -> Forall (fun f => clean f.1 /\ readable limit d f.2) fs).
Proof.
  induction n as [|n (IHv & IHe & IHm)]; [done|]. split_and!; intros d l x r.
  - cbn [parse_value]. destruct (skip_spaces l) as [|c l1]; [done|].
    destruct (is_byte open_bracket c); [|destruct (is_byte open_brace c)]; [..|apply lex_scalar_readable];
      (destruct (too_deep limit d) eqn:Ed; [done|]); intros (y & H & ->)%consumes_map; constructor; try done;
      (eapply items_readable; [|exact H]; first [apply IHe|apply IHm]).
  - cbn [parse_elements]. destruct (parse_value limit n d l) as [[y l1]|] eqn:E; cbn [mbind option_bind]; [|done].
    intros (z & H & ->)%consumes_map. constructor; [by eapply IHv|]. eapply items_readable; [|exact H]. apply IHe.
  - cbn [parse_members]. destruct (skip_spaces l) as [|q l1]; [done|]. destruct (negb _); [done|].
    destruct (lex_string l1) as [[key l2]|] eqn:Es; cbn [mbind option_bind]; [|done]. apply lex_string_clean in Es.
    destruct (skip_spaces l2) as [|k l3]; [done|]. destruct (negb _); [done|].
    destruct (parse_value limit n d l3) as [[y l4]|] eqn:E; cbn [mbind option_bind]; [|done].
    intros (z & H & ->)%consumes_map. constructor; [split; [done|by eapply IHv]|]. eapply items_readable; [|exact H]. apply IHm.
Qed.

(** *** Objects as maps *)

Lemma field_set_forall (P : text * value -> Prop) k v fs : P (k, v) -> Forall P fs -> Forall P (field_set k v fs).
Proof. intros Hk. induction 1 as [|[k' v'] fs ? ? IH]; cbn [field_set]; [by repeat constructor|]. repeat case_match; auto. Qed.
Lemma fold_fields_forall (P : text * value -> Prop) (g : value -> value) fs m :
  Forall (fun f => P (f.1, g f.2)) fs -> Forall P m -> Forall P (foldl (fun m kv => field_set kv.1 (g kv.2) m) m fs).
Proof. intros H. revert m. induction H as [|f fs Hf _ IH]; intros m Hm; [done|]. by apply IH, field_set_forall. Qed.
Lemma as_maps_readable limit v : forall d, readable limit d v -> readable limit d (as_maps v).
Proof.
  induction v as [|b|n|s|l IH|fs IH] using value_induction; intros d H; [done..| |]; inversion_clear H as [| | | |? ? Hd Hl|? ? Hd Hl];
    cbn [as_maps]; constructor; try done.
  - apply Forall_fmap. rewrite Forall_forall in *. intros x Hx. cbn. auto.
  - apply fold_fields_forall; [|constructor]. rewrite Forall_forall in *. intros f Hf. cbn. destruct (Hl f Hf). auto.
Qed.
Lemma as_maps_ordered v : ordered (as_maps v).
Proof.
  induction v as [|b|n|s|l IH|fs IH] using value_induction; cbn [as_maps]; constructor.
  - by apply Forall_fmap.
  - assert (forall m : fields_t, sorted_fields m -> sorted_fields (foldl (fun m kv => field_set kv.1 (as_maps kv.2) m) m fs)) as H; [|apply H; constructor].
    clear IH. induction fs as [|f fs IH]; intros m Hm; [done|]. by apply IH, (sorted_update f.1 (Some (as_maps f.2))).
  - by apply fold_fields_forall.
Qed.
Lemma field_set_last k v m : Forall (fun f => key_lt f.1 k = true) m -> field_set k v m = m ++ [(k, v)].
Proof.
  induction 1 as [|[k' v'] m Hk _ IH]; [done|]. cbn [field_set app fst] in *. rewrite IH.
  rewrite bool_decide_eq_false_2 by (intros ->; by rewrite key_lt_irrefl in Hk). by rewrite (key_lt_asym _ _ Hk).
Qed.
Lemma fold_sorted (g : value -> value) fs : sorted_fields fs -> forall m, Forall (fun f => Forall (fun e => key_lt e.1 f.1 = true) m) fs ->
  foldl (fun m kv => field_set kv.1 (g kv.2) m) m fs = m ++ ((fun f => (f.1, g f.2)) <$> fs).
Proof.
  induction 1 as [|f fs _ IH Hf]; intros m Hm; [by rewrite app_nil_r|]. apply Forall_cons in Hm as [Hm1 Hm]. cbn [foldl].
  rewrite field_set_last by done. rewrite IH.
  - by rewrite <-app_assoc.
  - rewrite Forall_forall in *. intros h Hh. apply Forall_app. split; [by apply Hm|]. repeat constructor. by apply Hf.
Qed.
Lemma as_maps_id v : ordered v -> as_maps v = v.
Proof.
  induction v as [|b|n|s|l IH|fs IH] using value_induction; intros H; [done..| |]; inversion_clear H as [| | | |? Hl|? Hs Hl]; cbn [as_maps]; f_equal.
  - rewrite <-(list_fmap_id l) at 2. apply list_fmap_ext. intros i x Hx%list_elem_of_lookup_2. rewrite Forall_forall in *. by apply IH, Hl.
  - rewrite fold_sorted; [|done|by apply Forall_forall]. cbn [app]. rewrite <-(list_fmap_id fs) at 2. apply list_fmap_ext.
    intros i [k x] Hx%list_elem_of_lookup_2. rewrite Forall_forall in *. cbn. f_equal. by apply (IH (k, x)), (Hl (k, x)).
Qed.
Lemma insert_first f l : Forall (fun g => key_lt f.1 g.1 = true) l -> insert_member f l = f :: l.
Proof. destruct 1 as [|g l Hg _]; [done|]. cbn [insert_member]. by rewrite (key_lt_asym _ _ Hg). Qed.
Lemma sort_members_sorted (g : value -> text) fs : sorted_fields fs ->
  sort_members ((fun f => (f.1, g f.2)) <$> fs) = (fun f => (f.1, g f.2)) <$> fs.
Proof.
  unfold sort_members. induction 1 as [|f fs _ IH Hf]; [done|]. rewrite fmap_cons. cbn [foldr]. rewrite IH.
  apply insert_first. by apply Forall_fmap.
Qed.

(** ** The canonical text reads back *)

Lemma skip_none c l : is_space c = false -> skip_spaces (c :: l) = c :: l.
Proof. intros H. cbn [skip_spaces]. by rewrite H. Qed.
Lemma write_head limit d v : readable limit d v -> exists c w, writeCanonical v = c :: w /\ is_space c = false /\
  is_byte close_bracket c = false.
Proof.
  intros H. destruct H as [|? []|? n [(a & n' & -> & Ha) _]|? s _| |]; try by eexists _, _.
  exists a, n'. split; [done|].
  assert (forall b, (is_digit b || is_byte hyphen b)%bool = false -> a <> b) as Hne by (intros b Hb ->; congruence).
  split; [|apply not_true_iff_false; intros ->%is_byte_true; done]. unfold is_space, one_of. apply bool_decide_eq_false.
  intros Hin. repeat (apply elem_of_cons in Hin as [->|Hin]; [done|]). by apply not_elem_of_nil in Hin.
Qed.
Lemma comma_separated_cons x l : comma_separated (x :: l) = x ++ match l with [] => [] | _ => comma :: comma_separated l end.
Proof. destruct l as [|y l]; [done|]. cbn [comma_separated fmap list_fmap concat]. done. Qed.

(** A value that reads back at a depth, whatever may follow it. *)
Definition reads (limit : option Z) (d : Z) (v : value) : Prop := forall r m,
  stops r -> (2 * length (writeCanonical v) < m)%nat -> parse_value limit m d (writeCanonical v ++ r) = Some (v, r).
(** The items of an array or object, each written by [write]. *)
Lemma reads_items {A} (write : A -> text) close (items : nat -> text -> option (list A * text)) :
  close ∈ [close_bracket; close_brace] ->
  forall xs, (forall x, x ∈ xs -> forall m l, stops l -> (2 * length (write x) < m)%nat ->
    items (S m) (write x ++ l) = prod_map (cons x) id <$> items_from close false (items m) l) ->
  forall x xs', xs = x :: xs' -> forall r m, (2 * length (comma_separated (write <$> xs)) + 1 < m)%nat ->
    items m (comma_separated (write <$> xs) ++ close :: r) = Some (xs, r).
Proof.
  intros Hclose. induction xs as [|x0 xs IH]; intros Hitem x xs' [= <- <-] r m Hm. destruct m as [|m]; [lia|].
  rewrite fmap_cons, comma_separated_cons in *. rewrite length_app in Hm. rewrite <-app_assoc.
  assert (is_space close = false /\ is_byte close close = true /\ is_byte close comma = false /\ stops (close :: r)) as (H1 & H2 & H3 & H4).
  { repeat (apply elem_of_cons in Hclose as [->|Hclose]; [split_and!; try done; cbn; set_solver|]). by apply not_elem_of_nil in Hclose. }
  rewrite Hitem; [|by left|destruct xs; cbn [fmap list_fmap app]; [done|cbn; set_solver]|lia].
  destruct xs as [|y xs]; cbn [fmap list_fmap app] in *.
  - unfold items_from. by rewrite skip_none, H2.
  - unfold items_from. rewrite skip_none, H3 by done. change (is_byte comma comma) with true. cbv iota.
    rewrite (IH ltac:(intros z Hz; apply Hitem; by right) y xs eq_refl); [done|]. cbn [length] in Hm. lia.
Qed.

Lemma reads_array limit d l : too_deep limit d = false -> Forall (readable limit (d + 1)) l -> Forall (reads limit (d + 1)) l ->
  reads limit d (VArray l).
Proof.
  intros Hd Hr Hl r m Hs Hm. destruct m as [|m]; [lia|]. cbn [writeCanonical parse_value app] in *. rewrite skip_none by done.
  change (is_byte open_bracket open_bracket) with true. cbv iota. rewrite Hd, <-app_assoc. cbn [app].
  rewrite <-(list_fmap_id l) at 1. cbn [length] in Hm. rewrite length_app in Hm. cbn [length] in Hm. rewrite list_fmap_id.
  destruct l as [|x l].
  { done. }
  assert (exists c w, comma_separated (writeCanonical <$> x :: l) ++ close_bracket :: r = c :: w /\ is_space c = false /\ is_byte close_bracket c = false)
    as (c & w & Hw & Hc & Hne).
  { apply Forall_cons in Hr as [Hr _]. destruct (write_head _ _ _ Hr) as (c & w & Hw & ?). rewrite fmap_cons, comma_separated_cons, Hw.
    cbn [app]. by eexists _, _. }
  unfold items_from. rewrite Hw, skip_none, Hne, <-Hw by done.
  rewrite (reads_items writeCanonical close_bracket (fun m => parse_elements limit m (d + 1)) ltac:(set_solver) (x :: l)) with (x := x) (xs' := l);
    [done| |done|lia].
  intros y Hy k t Ht Hk. cbn [parse_elements]. rewrite Forall_forall in Hl. rewrite (Hl y Hy); [done|done|lia].
Qed.
Lemma reads_object limit d fs : too_deep limit d = false -> sorted_fields fs -> Forall (fun f => clean f.1) fs ->
  Forall (fun f => reads limit (d + 1) f.2) fs -> reads limit d (VObject fs).
Proof.
  intros Hd Hsorted Hr Hl r m Hs Hm. destruct m as [|m]; [lia|]. cbn [writeCanonical parse_value app] in *. rewrite skip_none by done.
  rewrite sort_members_sorted in * by done. rewrite <-list_fmap_compose in *. 
  change (is_byte open_bracket open_brace) with false. change (is_byte open_brace open_brace) with true. cbv iota.
  rewrite Hd, <-app_assoc. cbn [app]. cbn [length] in Hm. rewrite length_app in Hm. cbn [length] in Hm.
  set (write := (fun member : text * text => writeCanonicalString member.1 ++ colon :: member.2) ∘ (fun f : text * value => (f.1, writeCanonical f.2))) in *.
  destruct fs as [|x l]; [done|].
  assert (exists w, comma_separated (write <$> x :: l) ++ close_brace :: r = quote :: w) as (w & Hw)
    by (rewrite fmap_cons, comma_separated_cons; by eexists).
  unfold items_from. rewrite Hw, skip_none by done. change (is_byte close_brace quote) with false. cbv iota. rewrite <-Hw.
  rewrite (reads_items write close_brace (fun m => parse_members limit m (d + 1)) ltac:(set_solver) (x :: l)) with (x := x) (xs' := l);
    [done| |done|lia].
  intros [k y] Hy j t Ht Hj. rewrite Forall_forall in Hl, Hr. specialize (Hl _ Hy). specialize (Hr _ Hy). cbn [fst snd] in Hl, Hr.
  unfold write, compose in *. cbn [fst snd] in *. unfold writeCanonicalString in *. cbn [app] in *.
  cbn [parse_members]. rewrite skip_none by done. change (is_byte quote quote) with true. cbn [negb].
  rewrite <-!app_assoc. cbn [app]. pose proof (proj2 (lex_canonical_string k (colon :: writeCanonical y ++ t) Hr)) as Hkey. cbn [app] in Hkey. rewrite Hkey.
  cbn [mbind option_bind]. rewrite skip_none by done. change (is_byte colon colon) with true. cbn [negb].
  rewrite Hl; [done|done|]. cbn [length] in Hj. rewrite !length_app in Hj. cbn [length] in Hj. lia.
Qed.
(** A scalar is lexed where a value is expected. *)
Lemma parse_scalar limit m d c w v r : is_space c = false -> is_byte open_bracket c = false -> is_byte open_brace c = false ->
  lex_scalar (c :: w) = Some (v, r) -> parse_value limit (S m) d (c :: w) = Some (v, r).
Proof. intros H1 H2 H3 H. cbn [parse_value]. by rewrite skip_none, H2, H3. Qed.
Lemma reads_back limit v : forall d, readable limit d v -> ordered v -> reads limit d v.
Proof.
  induction v as [|b|n|s|l IH|fs IH] using value_induction; intros d Hr Ho; inversion Hr; inversion Ho; subst.
  - intros r [|m] Hs Hm; [lia|done].
  - intros r [|m] Hs Hm; [lia|by destruct b].
  - intros r [|m] Hs Hm; [lia|]. destruct (write_head _ _ _ Hr) as (c & w & Hw & Hc & _). cbn [writeCanonical] in *. 
    match goal with H : numeral_text n |- _ => pose proof (lex_scalar_number n r H Hs) as Hl; destruct H as [(a & n' & En & Ha) _] end.
    rewrite Hw in *. cbn [app] in *. injection En as -> ->.
    apply parse_scalar; [done| |by apply not_true_iff_false; intros ->%is_byte_true|done].
    apply not_true_iff_false. by intros ->%is_byte_true.
  - intros r [|m] Hs Hm; [lia|]. cbn [writeCanonical] in *.
    match goal with H : clean s |- _ => pose proof (proj1 (lex_canonical_string s r H)) as Hl end.
    unfold writeCanonicalString in *. cbn [app] in *. by apply parse_scalar.
  - apply reads_array; [done..|]. rewrite Forall_forall in *. auto.
  - apply reads_object; [done..| |]; rewrite Forall_forall in *; naive_solver.
Qed.

(** A decoded value is written and decoded again. *)
Lemma decode_readable raw v : Decode raw = Ok v -> readable (Some maxNestingDepth) 0 v /\ ordered v.
Proof.
  unfold Decode. destruct (parse _ raw) as [[x r]|] eqn:E; [|done]. intros [= <-].
  split; [|apply as_maps_ordered]. by eapply as_maps_readable, parse_readable.
Qed.
Lemma parse_written limit v : readable limit 0 v -> ordered v -> parse limit (writeCanonical v) = Some (v, []).
Proof.
  intros Hr Ho. unfold parse. rewrite <-(app_nil_r (writeCanonical v)) at 2. apply reads_back; [done..|].
  unfold walk_fuel. lia.
Qed.
Lemma decode_written raw v : Decode raw = Ok v -> Decode (writeCanonical v) = Ok v.
Proof.
  intros [Hr Ho]%decode_readable. unfold Decode. rewrite parse_written by done. by rewrite as_maps_id.
Qed.
Lemma ordered_unique v : ordered v -> unique_keys v = true.
Proof.
  induction v as [|b|n|s|l IH|fs IH] using value_induction; intros H; [done..| |]; inversion_clear H as [| | | |? Hl|? Hs Hl];
    cbn [unique_keys]; rewrite ?andb_true_iff, ?bool_decide_eq_true, forallb_elem; rewrite Forall_forall in *; [auto|split; [|auto]].
  clear IH Hl. induction Hs as [|f fs _ IHs Hf]; [constructor|]. rewrite fmap_cons. constructor; [|done].
  intros (g & Hg & Hin)%list_elem_of_fmap. rewrite Forall_forall in Hf. specialize (Hf g Hin). unfold field_lt in Hf.
  by rewrite Hg, key_lt_irrefl in Hf.
Qed.

(** ** Theorems *)

Lemma known_maps v : forall t, all_known v t = true -> all_known (as_maps v) t = true.
Proof.
  induction v as [|b|n|s|l IH|fs IH] using value_induction; intros t; try done;
    cbn [as_maps all_known]; rewrite Forall_forall in IH; (destruct (unmarshals _); [done|]);
    destruct (strip_pointers t); try done; rewrite !forallb_elem; intros H.
  - intros x (y & -> & Hy)%list_elem_of_fmap. auto.
  - intros x (y & -> & Hy)%list_elem_of_fmap. auto.
  - apply Forall_forall.
    apply fold_fields_forall; [|constructor]. apply Forall_forall. intros [key x] Hx. specialize (H _ Hx). cbn [fst snd] in *.
    destruct (exact_field _ key); [|done]. by apply (IH (key, x)).
  - apply Forall_forall. apply fold_fields_forall; [|constructor]. apply Forall_forall. intros [key x] Hx. specialize (H _ Hx). cbn [fst snd] in *.
    by apply (IH (key, x)).
Qed.
Lemma one_object_unique raw fs fs' : one_object raw fs -> one_object raw fs' -> fs = fs'.
Proof. intros (r & H & _) (r' & H' & _). congruence. Qed.

(** C31: The walk over the token stream is exactly the grammar without repeated keys: a
    text passes precisely when it is one JSON object, with nothing but white space
    around it, in which no object at any depth names a key twice. *)
Theorem unique_object_exact raw subject (Hsubject : subject <> "") :
  ValidateUniqueObject raw subject = Ok tt <-> exists fs, one_object raw fs /\ unique_keys (VObject fs) = true.
Proof. by apply unique_object_accepts. Qed.

(** C32: For a target type whose fields the check resolves as the decoder does, in
    particular with embedded exported structs but none that is not exported, no competing
    names and no structs in maps: [ValidateObject] accepts exactly the objects without
    repeated keys, nested at most 10000 deep, in which every member that is decoded into a
    struct has the exact name of a field of [encoding/json]; and of whatever it or
    [ValidateCompatibleObject] accepts, [encoding/json] with its loose matching of names
    assigns precisely what exact matching assigns and assigns no place twice.
    ([unexported_embedding_refused] and [map_values_unchecked] show what happens for other
    types.) *)
Theorem validated_decode_exact raw target subject (Hsubject : subject <> "") (Hregular : regular false target = true) :
  (ValidateObject raw (Some target) subject = Ok tt <->
    exists fs, one_object raw fs /\ unique_keys (VObject fs) = true /\ parse (Some maxNestingDepth) raw <> None /\
      all_known (VObject fs) target = true) /\
  forall fs, one_object raw fs ->
    ValidateObject raw (Some target) subject = Ok tt \/ ValidateCompatibleObject raw (Some target) subject = Ok tt ->
    assignments folded_field (VObject fs) target = assignments exact_field (VObject fs) target /\
    NoDup (fst <$> assignments folded_field (VObject fs) target).
Proof.
  unfold ValidateObject, ValidateCompatibleObject, ValidateExactFields.
  rewrite !(bool_decide_eq_false_2 (subject = "")) by done.
  destruct (ValidateUniqueObject raw subject) as [[]|e] eqn:Eu.
  - split.
    + split.
      * intros H. pose proof H as Hd. apply validated_shape in H as (fs & Hone & Hu & _ & Hs); [|done].
        exists fs. split_and!; try done; [|by eapply shape_known, Hs]. intros Hp. unfold Decode in Hd. by rewrite Hp in Hd.
      * intros (fs & (rest & Hp & _) & _ & Hlimit & Hknown). unfold Decode.
        destruct (parse (Some maxNestingDepth) raw) as [[v r]|] eqn:E; [|done].
        pose proof (proj1 (parse_unlimited _ _) _ _ _ E) as E'. unfold parse in Hp. rewrite Hp in E'. simplify_eq.
        by apply shape_known, known_maps.
    + intros fs Hone H. assert (exists allow, (let? decoded := Decode raw in validateShape decoded target subject allow) = Ok tt) as [allow Hs]
        by (destruct H; eauto).
      apply validated_shape in Hs as (fs' & Hone' & Hu & _ & Hs); [|done]. rewrite <-(one_object_unique _ _ _ Hone Hone') in *.
      rewrite (shape_assigns _ _ _ _ Hregular Hs). split; [done|by apply unique_assignments].
  - split; [|naive_solver]. split; [done|]. intros (fs & Hone & Hu & _).
    assert (ValidateUniqueObject raw subject = Ok tt) by (apply unique_object_accepts; eauto). congruence.
Qed.

(** The order in which the members of a map are visited does not matter, as the encoding
    sorts them. *)
Lemma insert_member_comm (f g : text * text) l : f.1 <> g.1 ->
  insert_member f (insert_member g l) = insert_member g (insert_member f l).
Proof.
  assert (forall f g h : text * text, f.1 <> g.1 -> key_lt h.1 g.1 = true -> key_lt h.1 f.1 = false -> key_lt f.1 g.1 = true) as Hle.
  { intros f' g' h Hne Hg Hf. destruct (decide (f'.1 = h.1)) as [->|Hn]; [done|].
    destruct (key_lt_total _ _ Hn) as [H|H]; [by apply (key_lt_trans _ h.1)|congruence]. }
  intros Hne. induction l as [|h l IH]; cbn [insert_member].
  - destruct (key_lt_total _ _ Hne) as [H|H]; rewrite H, (key_lt_asym _ _ H); done.
  - destruct (key_lt h.1 g.1) eqn:Hg, (key_lt h.1 f.1) eqn:Hf; cbn [insert_member]; rewrite ?Hg, ?Hf.
    + by rewrite IH.
    + by rewrite (Hle f g h).
    + by rewrite (Hle g f h).
    + destruct (key_lt_total _ _ Hne) as [H|H]; rewrite H, (key_lt_asym _ _ H); done.
Qed.
Lemma canonical_any_order fs gs : fs ≡ₚ gs -> NoDup (fst <$> fs) -> writeCanonical (VObject fs) = writeCanonical (VObject gs).
Proof.
  intros Hp Hnd. cbn [writeCanonical]. do 4 f_equal. unfold sort_members.
  apply (foldr_permutation (=) insert_member []); [|by rewrite Hp].
  intros j1 a1 j2 a2 b Hne H1 H2. apply insert_member_comm. intros E. apply Hne. rewrite list_lookup_fmap in H1, H2.
  destruct (fs !! j1) as [[k1 x1]|] eqn:E1, (fs !! j2) as [[k2 x2]|] eqn:E2; simplify_eq/=.
  eapply NoDup_lookup; [exact Hnd|by rewrite list_lookup_fmap, E1|by rewrite list_lookup_fmap, E2].
Qed.

(** C33: The canonical encoding is faithful and unique: the text decodes to the value
    that the encoded one decodes to, an object's text passes the walk for repeated
    keys, encoding the decoded value again gives the same text, and two values have
    one canonical text exactly when they decode to one value. *)
Theorem canonical_exact {A} (marshal : A -> result text) x c (Hx : Canonical marshal x = Ok c) :
  exists raw v, marshal x = Ok raw /\ Decode raw = Ok v /\ Decode c = Ok v /\ Canonical Ok c = Ok c /\
    (forall fs, v = VObject fs -> forall subject, subject <> "" -> ValidateUniqueObject c subject = Ok tt) /\
    forall y c' raw' v', Canonical marshal y = Ok c' -> marshal y = Ok raw' -> Decode raw' = Ok v' -> c' = c <-> v' = v.
Proof.
  unfold Canonical in *. destruct (marshal x) as [raw|] eqn:Em; [|done]. destruct (Decode raw) as [v|] eqn:Ed; [|done].
  injection Hx as <-. pose proof (decode_written _ _ Ed) as Hw. exists raw, v. split_and!; try done.
  - by rewrite Hw.
  - intros fs -> subject Hsubject. apply unique_object_accepts; [done|]. apply decode_readable in Ed as [Hr Ho].
    exists fs. split; [|by apply ordered_unique]. exists []. split; [|done].
    pose proof (parse_written _ _ Hr Ho) as Hp. unfold parse in *. by apply (proj1 (parse_unlimited _ _)) in Hp.
  - intros y c' raw' v' Hy Hm Hd. rewrite Hm, Hd in Hy. injection Hy as <-. split; [|by intros ->].
    intros E. pose proof (decode_written _ _ Hd) as Hw'. congruence.
Qed.

(** ** Witnesses *)

Definition json_quotes (s : string) : text := (fun a => if is_byte (byte 39) a then quote else a) <$> bytes s.
Definition example_text : text := json_quotes " {'name':'a\u00e9\n', 'tags':[1.50,-2e3,null], 'labels':{'K':'v','k':1}, 'id':7, 'x':{'name':true}} ".
Definition example_type : GoType :=
  TStruct false [
    mkStructField "Base" "" true true (TPointer (TStruct false [mkStructField "ID" "id" true false (TOther false)]));
    mkStructField "Name" "name" true false (TOther false);
    mkStructField "Secret" "-" true false (TOther false);
    mkStructField "mutex" "" false false (TStruct false []);
    mkStructField "Tags" "tags,omitempty" true false (TArray false 2 (TOther false));
    mkStructField "Labels" "labels" true false (TMap false (TOther false));
    mkStructField "X" "x" true false (TPointer (TStruct false [mkStructField "Name" "name" true false (TOther false)]))].
Example example_fields : (fun f => (of_bytes (jf_Name f), jf_Depth f)) <$> typeFields example_type =
  [("id", 1%nat); ("name", 0%nat); ("tags", 0%nat); ("labels", 0%nat); ("x", 0%nat)].
Proof. vm_compute. reflexivity. Qed.
Definition example_members : fields_t :=
  match parse None example_text with Some (VObject fs, _) => fs | _ => [] end.
Lemma example_one_object : one_object example_text example_members.
Proof. eexists. split; [vm_compute; reflexivity|reflexivity]. Qed.
Lemma unique_object_exact_witness :
  ValidateUniqueObject (json_quotes "{'a':{'b':1,'b':2}}") "x" <> Ok tt /\ ValidateUniqueObject example_text "x" = Ok tt.
Proof.
  split; [by vm_compute|]. apply unique_object_exact; [done|]. exists example_members.
  split; [exact example_one_object|by vm_compute].
Defined.
Lemma validated_decode_exact_witness :
  ValidateObject (json_quotes "{'Name':1}") (Some example_type) "x" <> Ok tt /\
  ValidateObject (json_quotes "{'Secret':1}") (Some example_type) "x" <> Ok tt /\
  ValidateCompatibleObject (json_quotes "{'NAME':1}") (Some example_type) "x" <> Ok tt /\
  ValidateObject example_text (Some example_type) "x" = Ok tt /\
  NoDup (fst <$> assignments folded_field (VObject example_members) example_type) /\
  length (assignments folded_field (VObject example_members) example_type) = 7%nat.
Proof.
  destruct (validated_decode_exact example_text example_type "x" ltac:(done) ltac:(vm_compute; reflexivity)) as [Hiff Hdec].
  assert (ValidateObject example_text (Some example_type) "x" = Ok tt) as Hok.
  { apply Hiff. exists example_members. split; [exact example_one_object|by vm_compute]. }
  split_and!; [by vm_compute..|exact Hok| |by vm_compute].
  apply (Hdec _ example_one_object). by left.
Defined.

(** The check leaves out what the decoder promotes from an embedded struct whose type is
    not exported: a member with the exact name of such a field is refused. *)
Definition embedding_type : GoType :=
  TStruct false [mkStructField "base" "" false true (TStruct false [mkStructField "Name" "name" true false (TOther false)])].
Lemma unexported_embedding_refused :
  regular false embedding_type = false /\
  assignments exact_field (VObject [(bytes "name", VNumber (bytes "1"))]) embedding_type = [([Field (bytes "name")], VNumber (bytes "1"))] /\
  ValidateObject (json_quotes "{'name':1}") (Some embedding_type) "x" = Err "%s contains inexact or unknown field %q".
Proof. split_and!; vm_compute; reflexivity. Qed.
(** The check does not look into maps: in a struct under a key of a map a name in other
    letters is accepted, and decoded. *)
Definition catalog_type : GoType :=
  TStruct false [mkStructField "Entries" "entries" true false
    (TMap false (TStruct false [mkStructField "Name" "name" true false (TOther false)]))].
Definition catalog_members : fields_t := [(bytes "entries", VObject [(bytes "a", VObject [(bytes "NAME", VNumber (bytes "1"))])])].
Lemma map_values_unchecked :
  regular false catalog_type = false /\
  ValidateObject (json_quotes "{'entries':{'a':{'NAME':1}}}") (Some catalog_type) "x" = Ok tt /\
  assignments folded_field (VObject catalog_members) catalog_type =
    [([Field (bytes "entries"); Key (bytes "a"); Field (bytes "name")], VNumber (bytes "1"))] /\
  assignments exact_field (VObject catalog_members) catalog_type = [].
Proof. split_and!; vm_compute; reflexivity. Qed.
Lemma canonical_exact_witness : exists raw v, Ok example_text = Ok raw /\ Decode raw = Ok v /\
  Decode (json_quotes "{'id':7,'labels':{'K':'v','k':1},'name':'a" ++ [byte 195; byte 169] ++ json_quotes "\n','tags':[1.50,-2e3,null],'x':{'name':true}}") = Ok v.
Proof.
  destruct (canonical_exact (fun raw => Ok raw) example_text
    (json_quotes "{'id':7,'labels':{'K':'v','k':1},'name':'a" ++ [byte 195; byte 169] ++ json_quotes "\n','tags':[1.50,-2e3,null],'x':{'name':true}}")
    ltac:(vm_compute; reflexivity)) as (raw & v & Hm & Hd & Hc & _).
  exists raw, v. split_and!; done.
Defined.
