(* ===== verification/SessionIntent.v ===== *)
(** * Session state proposals

    Models [internal/sessionintent]: the snapshot of a session that a message may
    change, its JSON form, the validation of a proposed delta, what needs the owner's
    approval, and the routing of typed messages; with them the message contract of
    [internal/model/channel_authority.go] and the admission of an interpreted message
    in [internal/queue/user_intent.go].  A [time.Time] is represented by the text it
    is encoded as; of the other types the JSON form is computed. *)
From Stdlib Require Import Ascii.
From S2P Require Import Prelude Ledger Schema PathIdentity UserIntent JsonCodec.
From stdpp Require Import sorting base tactics strings list gmap numbers pretty.
From stdpp Require Import list options.
Open Scope Z_scope.
Open Scope go_scope.

(** ** [internal/model] *)

Definition JobStatusPending : string := "pending".
Definition JobStatusRunning : string := "running".
Definition JobStatusFailed : string := "failed".
Definition JobStatusCanceled : string := "canceled".
Definition JobStatusWaiting : string := "waiting_input".
Definition ChannelMessageRoleUser : string := "user".
Definition ChannelMessageRoleAssistant : string := "assistant".

Definition validate_role (role : string) : result unit :=
  reject "channel message role %q is unsupported" when
    ((role != ChannelMessageRoleUser) && (role != ChannelMessageRoleAssistant))%bool;
  Ok tt.
Definition ValidateChannelMessageContent (content : string) : result unit :=
  reject "channel message content must contain 1..%d valid UTF-8 bytes without NUL" when
    ((content == "") || negb (valid_utf8 content) || contains_nul content)%bool;
  reject "channel message content is blank" when blank content;
  Ok tt.
Definition ValidateChannelMessage (role content : string) : result unit :=
  check validate_role role;
  ValidateChannelMessageContent content.

Record ChannelSessionJobState := mkJobState { cj_ID : Z; cj_Status : string; cj_Generation : Z; cj_UpdatedAt : string }.
Record ChannelSessionState := mkSessionState {
  cs_ChannelID : string; cs_WorkspaceRoot : string; cs_WorkspaceIdentity : string; cs_ChannelUpdatedAt : string;
  cs_LatestMessageID : option Z; cs_LatestTurnOperationID : option string;
  cs_LatestControlOperationID : option string; cs_LatestJob : option ChannelSessionJobState }.

(** ** Contracts *)

Record Item := mkItem { it_ID : string; it_Text : string; it_ReviewState : string; it_Disposition : string }.
Record Message := mkMessage { ms_Role : string; ms_Text : string }.
Record Proposal := mkProposal { pr_ID : string; pr_Pitch : string }.
Record Context := mkContext {
  cx_Recoverable : bool; cx_NativeChoices : slice string; cx_Recent : slice Message; cx_Facts : slice string;
  cx_Pending : option Proposal; cx_State : ChannelSessionState; cx_JobID : Z; cx_Generation : Z;
  cx_JobStatus : string; cx_Planning : bool; cx_LedgerID : Z; cx_Revision : Z; cx_PlanState : string;
  cx_InputID : option Z; cx_Prompt : string; cx_Items : slice Item }.
Record Content := mkContent { ct_Text : string; ct_Recipient : string }.
Record Snapshot := mkSnapshot {
  sn_Authority : Context; sn_JobStatus : string; sn_PlanState : string; sn_Items : slice Item;
  sn_Message : option Content; sn_NativeReply : option string; sn_Open : bool; sn_StatusVisible : bool;
  sn_Approval : option bool }.
Record Request := mkRequest {
  rq_Mode : string; rq_Recipient : string; rq_OperationID : string; rq_Text : string;
  rq_State : ChannelSessionState; rq_LedgerRevision : Z; rq_SelectedItem : string }.
Record Result := mkResult {
  rs_Error : string; rs_Pitch : string; rs_RequiresApproval : bool; rs_OperationID : string;
  rs_Patch : slice Patch; rs_Clarification : string }.

#[global] Instance Item_eq_dec : EqDecision Item.
Proof. solve_decision. Defined.
#[global] Instance Message_eq_dec : EqDecision Message.
Proof. solve_decision. Defined.
#[global] Instance Proposal_eq_dec : EqDecision Proposal.
Proof. solve_decision. Defined.
#[global] Instance ChannelSessionJobState_eq_dec : EqDecision ChannelSessionJobState.
Proof. solve_decision. Defined.
#[global] Instance ChannelSessionState_eq_dec : EqDecision ChannelSessionState.
Proof. solve_decision. Defined.
#[global] Instance Context_eq_dec : EqDecision Context.
Proof. solve_decision. Defined.
#[global] Instance Content_eq_dec : EqDecision Content.
Proof. solve_decision. Defined.
#[global] Instance Snapshot_eq_dec : EqDecision Snapshot.
Proof. solve_decision. Defined.

(** [authority := c] without the background facts and exchanges *)
Definition authority_of (c : Context) : Context :=
  mkContext (cx_Recoverable c) (cx_NativeChoices c) None None (cx_Pending c) (cx_State c) (cx_JobID c)
    (cx_Generation c) (cx_JobStatus c) (cx_Planning c) (cx_LedgerID c) (cx_Revision c) (cx_PlanState c)
    (cx_InputID c) (cx_Prompt c) (cx_Items c).
Definition State (c : Context) : Snapshot :=
  mkSnapshot (authority_of c) (cx_JobStatus c) (cx_PlanState c) (cx_Items c) None None true false None.

(** ** Their JSON form: the struct tags *)

Definition is_none {A B} (get : A -> option B) (x : A) : bool := match get x with Some _ => false | None => true end.
Definition no_elements {A B} (get : A -> slice B) (x : A) : bool := match elems (get x) with [] => true | _ => false end.
Definition is_empty {A} (get : A -> string) (x : A) : bool := get x == "".

Definition item_fields : list (json_field Item) := [
  plain "id" it_ID (fun x v => mkItem v (it_Text x) (it_ReviewState x) (it_Disposition x));
  plain "text" it_Text (fun x v => mkItem (it_ID x) v (it_ReviewState x) (it_Disposition x));
  plain "review_state" it_ReviewState (fun x v => mkItem (it_ID x) (it_Text x) v (it_Disposition x));
  plain "disposition" it_Disposition (fun x v => mkItem (it_ID x) (it_Text x) (it_ReviewState x) v)].
#[global] Instance item_json : Json Item := {
  zero := mkItem "" "" "" ""; to_json x := VObject (struct_fields item_fields x);
  from_json := struct_decode item_fields }.

Definition message_fields : list (json_field Message) := [
  plain "role" ms_Role (fun x v => mkMessage v (ms_Text x));
  plain "text" ms_Text (fun x v => mkMessage (ms_Role x) v)].
#[global] Instance message_json : Json Message := {
  zero := mkMessage "" ""; to_json x := VObject (struct_fields message_fields x);
  from_json := struct_decode message_fields }.

Definition proposal_fields : list (json_field Proposal) := [
  plain "id" pr_ID (fun x v => mkProposal v (pr_Pitch x));
  plain "pitch" pr_Pitch (fun x v => mkProposal (pr_ID x) v)].
#[global] Instance proposal_json : Json Proposal := {
  zero := mkProposal "" ""; to_json x := VObject (struct_fields proposal_fields x);
  from_json := struct_decode proposal_fields }.

Definition content_fields : list (json_field Content) := [
  plain "text" ct_Text (fun x v => mkContent v (ct_Recipient x));
  plain "recipient" ct_Recipient (fun x v => mkContent (ct_Text x) v)].
#[global] Instance content_json : Json Content := {
  zero := mkContent "" ""; to_json x := VObject (struct_fields content_fields x);
  from_json := struct_decode content_fields }.

Definition job_state_fields : list (json_field ChannelSessionJobState) := [
  plain "id" cj_ID (fun x v => mkJobState v (cj_Status x) (cj_Generation x) (cj_UpdatedAt x));
  plain "status" cj_Status (fun x v => mkJobState (cj_ID x) v (cj_Generation x) (cj_UpdatedAt x));
  plain "generation" cj_Generation (fun x v => mkJobState (cj_ID x) (cj_Status x) v (cj_UpdatedAt x));
  plain "updated_at" cj_UpdatedAt (fun x v => mkJobState (cj_ID x) (cj_Status x) (cj_Generation x) v)].
#[global] Instance job_state_json : Json ChannelSessionJobState := {
  zero := mkJobState 0 "" 0 ""; to_json x := VObject (struct_fields job_state_fields x);
  from_json := struct_decode job_state_fields }.

Definition session_state_fields : list (json_field ChannelSessionState) := [
  plain "channel_id" cs_ChannelID (fun '(mkSessionState _ b c d e f g h) v => mkSessionState v b c d e f g h);
  plain "workspace_root" cs_WorkspaceRoot (fun '(mkSessionState a _ c d e f g h) v => mkSessionState a v c d e f g h);
  plain "workspace_identity" cs_WorkspaceIdentity (fun '(mkSessionState a b _ d e f g h) v => mkSessionState a b v d e f g h);
  plain "channel_updated_at" cs_ChannelUpdatedAt (fun '(mkSessionState a b c _ e f g h) v => mkSessionState a b c v e f g h);
  omitted (is_none cs_LatestMessageID)
    (plain "latest_message_id" cs_LatestMessageID (fun '(mkSessionState a b c d _ f g h) v => mkSessionState a b c d v f g h));
  omitted (is_none cs_LatestTurnOperationID)
    (plain "latest_turn_operation_id" cs_LatestTurnOperationID (fun '(mkSessionState a b c d e _ g h) v => mkSessionState a b c d e v g h));
  omitted (is_none cs_LatestControlOperationID)
    (plain "latest_control_operation_id" cs_LatestControlOperationID (fun '(mkSessionState a b c d e f _ h) v => mkSessionState a b c d e f v h));
  omitted (is_none cs_LatestJob)
    (plain "latest_job" cs_LatestJob (fun '(mkSessionState a b c d e f g _) v => mkSessionState a b c d e f g v))].
#[global] Instance session_state_json : Json ChannelSessionState := {
  zero := mkSessionState "" "" "" "" None None None None; to_json x := VObject (struct_fields session_state_fields x);
  from_json := struct_decode session_state_fields }.

Definition context_fields : list (json_field Context) := [
  plain "recoverable" cx_Recoverable
    (fun '(mkContext _ b c d e f g h i j k l m n o p) v => mkContext v b c d e f g h i j k l m n o p);
  omitted (no_elements cx_NativeChoices) (sliced "native_choices" cx_NativeChoices
    (fun '(mkContext a _ c d e f g h i j k l m n o p) v => mkContext a v c d e f g h i j k l m n o p));
  sliced "recent" cx_Recent (fun '(mkContext a b _ d e f g h i j k l m n o p) v => mkContext a b v d e f g h i j k l m n o p);
  sliced "facts" cx_Facts (fun '(mkContext a b c _ e f g h i j k l m n o p) v => mkContext a b c v e f g h i j k l m n o p);
  omitted (is_none cx_Pending) (plain "pending" cx_Pending
    (fun '(mkContext a b c d _ f g h i j k l m n o p) v => mkContext a b c d v f g h i j k l m n o p));
  plain "state" cx_State (fun '(mkContext a b c d e _ g h i j k l m n o p) v => mkContext a b c d e v g h i j k l m n o p);
  plain "job_id" cx_JobID (fun '(mkContext a b c d e f _ h i j k l m n o p) v => mkContext a b c d e f v h i j k l m n o p);
  plain "generation" cx_Generation (fun '(mkContext a b c d e f g _ i j k l m n o p) v => mkContext a b c d e f g v i j k l m n o p);
  plain "job_status" cx_JobStatus (fun '(mkContext a b c d e f g h _ j k l m n o p) v => mkContext a b c d e f g h v j k l m n o p);
  plain "planning" cx_Planning (fun '(mkContext a b c d e f g h i _ k l m n o p) v => mkContext a b c d e f g h i v k l m n o p);
  plain "ledger_id" cx_LedgerID (fun '(mkContext a b c d e f g h i j _ l m n o p) v => mkContext a b c d e f g h i j v l m n o p);
  plain "revision" cx_Revision (fun '(mkContext a b c d e f g h i j k _ m n o p) v => mkContext a b c d e f g h i j k v m n o p);
  plain "plan_state" cx_PlanState (fun '(mkContext a b c d e f g h i j k l _ n o p) v => mkContext a b c d e f g h i j k l v n o p);
  omitted (is_none cx_InputID) (plain "input_id" cx_InputID
    (fun '(mkContext a b c d e f g h i j k l m _ o p) v => mkContext a b c d e f g h i j k l m v o p));
  omitted (is_empty cx_Prompt) (plain "prompt" cx_Prompt
    (fun '(mkContext a b c d e f g h i j k l m n _ p) v => mkContext a b c d e f g h i j k l m n v p));
  sliced "items" cx_Items (fun '(mkContext a b c d e f g h i j k l m n o _) v => mkContext a b c d e f g h i j k l m n o v)].
Definition no_context : Context :=
  mkContext false None None None None zero 0 0 "" false 0 0 "" None "" None.
#[global] Instance context_json : Json Context := {
  zero := no_context; to_json x := VObject (struct_fields context_fields x); from_json := struct_decode context_fields }.

Definition snapshot_fields : list (json_field Snapshot) := [
  plain "authority" sn_Authority (fun '(mkSnapshot _ b c d e f g h i) v => mkSnapshot v b c d e f g h i);
  plain "job_status" sn_JobStatus (fun '(mkSnapshot a _ c d e f g h i) v => mkSnapshot a v c d e f g h i);
  plain "plan_state" sn_PlanState (fun '(mkSnapshot a b _ d e f g h i) v => mkSnapshot a b v d e f g h i);
  sliced "items" sn_Items (fun '(mkSnapshot a b c _ e f g h i) v => mkSnapshot a b c v e f g h i);
  plain "message" sn_Message (fun '(mkSnapshot a b c d _ f g h i) v => mkSnapshot a b c d v f g h i);
  plain "native_reply" sn_NativeReply (fun '(mkSnapshot a b c d e _ g h i) v => mkSnapshot a b c d e v g h i);
  plain "open" sn_Open (fun '(mkSnapshot a b c d e f _ h i) v => mkSnapshot a b c d e f v h i);
  plain "status_visible" sn_StatusVisible (fun '(mkSnapshot a b c d e f g _ i) v => mkSnapshot a b c d e f g v i);
  plain "approval" sn_Approval (fun '(mkSnapshot a b c d e f g h _) v => mkSnapshot a b c d e f g h v)].
Definition no_snapshot : Snapshot := mkSnapshot no_context "" "" None None None false false None.
(** [json.Marshal] of a snapshot and [DecodeState[Snapshot]] *)
Definition encode_snapshot (s : Snapshot) : fields_t := struct_fields snapshot_fields s.
Definition decode_snapshot (fs : fields_t) : result Snapshot := struct_decode snapshot_fields no_snapshot (VObject fs).

(** ** Validation of a delta *)

Definition Writable (path : text) : bool :=
  if bool_decide (path ∈ bytes <$> ["/job_status"; "/plan_state"; "/message"; "/native_reply"; "/open"; "/status_visible"; "/approval"])
  then true else
  match split_slash path with
  | [_; root; _; field] =>
      ((root == bytes "items") && ((field == bytes "review_state") || (field == bytes "disposition")))%bool
  | _ => false
  end.

Definition required_fields : list string :=
  ["authority"; "job_status"; "plan_state"; "items"; "message"; "native_reply"; "open"; "status_visible"; "approval"].
Definition non_null_fields : list string := ["authority"; "job_status"; "plan_state"; "open"; "status_visible"].
Definition require_field (fs : fields_t) (key : string) : result unit :=
  match field_get (bytes key) fs with
  | None => Err "required state field removed: %s"
  | Some v =>
      reject "invalid null state field: %s" when (bool_decide (v = VNull) && bool_decide (key ∈ non_null_fields))%bool;
      Ok tt
  end.

Definition messageRecipient (c : Context) : string := if cx_Planning c then "planner" else "codex".

(** The loop over the items carries [ledgerChanged] and [needsDiscussion]. *)
Definition item_step (st : bool * bool) (pair : Item * Item) : result (bool * bool) :=
  let '(ledgerChanged, needsDiscussion) := st in
  let '(old, item) := pair in
  reject "protected ledger item changed" when ((it_ID item != it_ID old) || (it_Text item != it_Text old))%bool;
  let review := it_ReviewState item != it_ReviewState old in
  let disposition := it_Disposition item != it_Disposition old in
  reject "invalid owner review state" when
    (review && (it_ReviewState item != LedgerReviewAgreed) && (it_ReviewState item != LedgerReviewNeedsDiscussion))%bool;
  reject "invalid item disposition delta" when
    (disposition && ((it_Disposition old != LedgerDispositionActive) ||
                     (it_Disposition item != LedgerDispositionTombstoned) || review))%bool;
  Ok ((ledgerChanged || review || disposition)%bool,
      (needsDiscussion || ((it_Disposition item == LedgerDispositionActive) && (it_ReviewState item != LedgerReviewAgreed)))%bool).

Definition job_transition (c : Context) (b : Snapshot) (needsDiscussion : bool) : bool :=
  (bool_decide (0 < cx_JobID c) &&
   (((sn_JobStatus b == JobStatusRunning) &&
     (cx_Recoverable c || (cx_Planning c && (sn_PlanState b == "frozen") && negb needsDiscussion))) ||
    ((sn_JobStatus b == JobStatusCanceled) && (cx_JobStatus c != JobStatusFailed)) ||
    ((sn_JobStatus b == JobStatusWaiting) &&
     ((cx_JobStatus c == JobStatusRunning) || (cx_JobStatus c == JobStatusPending)))))%bool.
Definition validate_message (c : Context) (message : option Content) : result unit :=
  match message with
  | None => Ok tt
  | Some m =>
      check ValidateChannelMessage ChannelMessageRoleUser (ct_Text m);
      reject "message recipient does not own the current workflow" when ct_Recipient m != messageRecipient c;
      Ok tt
  end.
Definition validate_reply (c : Context) (reply : option string) : result unit :=
  match reply with
  | None => Ok tt
  | Some answer =>
      reject "no native question to answer" when (is_none cx_InputID c || (answer == ""))%bool;
      reject "native answer is not a current choice" when
        (negb (bool_decide (elems (cx_NativeChoices c) = [])) &&
         negb (existsb (fun label => label == answer) (elems (cx_NativeChoices c))))%bool;
      Ok tt
  end.
Definition count_changes (changes : list bool) : Z := Z.of_nat (length (List.filter id changes)).

Definition validate_delta (a b : Snapshot) : result unit :=
  reject "protected session authority changed" when
    ((sn_Authority a != sn_Authority b) || negb (bool_decide (length (elems (sn_Items a)) = length (elems (sn_Items b)))))%bool;
  let c := sn_Authority a in
  let? flags := loop item_step (sn_PlanState b != sn_PlanState a, false)
                  (zip (elems (sn_Items a)) (elems (sn_Items b))) in
  let '(ledgerChanged, needsDiscussion) := flags in
  reject "no displayed editable plan" when
    (ledgerChanged && (negb (cx_Planning c) || (cx_PlanState c != "proposed") || (cx_Revision c <? 1)))%bool;
  reject "only an agreed plan can become frozen" when
    ((sn_PlanState b != sn_PlanState a) && ((sn_PlanState b != "frozen") || needsDiscussion))%bool;
  let jobChanged := sn_JobStatus a != sn_JobStatus b in
  reject "unavailable job state transition" when (jobChanged && negb (job_transition c b needsDiscussion))%bool;
  check validate_message c (sn_Message b);
  check validate_reply c (sn_NativeReply b);
  reject "no pending proposal to confirm" when (negb (is_none sn_Approval b) && is_none cx_Pending c)%bool;
  let exclusive := count_changes [jobChanged; ledgerChanged; negb (is_none sn_Message b);
                                  negb (is_none sn_NativeReply b); negb (is_none sn_Approval b)] in
  let exclusive :=
    if (jobChanged && ledgerChanged && (sn_PlanState b == "frozen") && (sn_JobStatus b == JobStatusRunning))%bool
    then exclusive - 1 else exclusive in
  reject "incompatible state changes require clarification" when 1 <? exclusive;
  Ok tt.

Definition Validate (before after : fields_t) : result unit :=
  check for_each (require_field after) required_fields;
  let? a := decode_snapshot before in
  let? b := decode_snapshot after in
  validate_delta a b.

Definition Apply (c : Context) (patch : slice Patch) : result Snapshot :=
  let raw := encode_snapshot (State c) in
  let? after := UserIntent.Apply raw patch (Some Writable) in
  check Validate raw after;
  decode_snapshot after.

(** ** Approval *)

Definition needs_approval_item (old item : Item) : bool :=
  ((it_Disposition item != it_Disposition old) ||
   ((it_ReviewState item != it_ReviewState old) && (it_ReviewState item == LedgerReviewNeedsDiscussion)))%bool.
(** [c.Items[i]] is out of range when the snapshot has more items. *)
Fixpoint needs_approval_items (olds items : list Item) : result bool :=
  match items, olds with
  | [], _ => Ok false
  | _ :: _, [] => Err "index out of range"
  | item :: items, old :: olds => if needs_approval_item old item then Ok true else needs_approval_items olds items
  end.
Definition NeedsApproval (c : Context) (after : Snapshot) : result bool :=
  if ((sn_JobStatus after != cx_JobStatus c) &&
      ((sn_JobStatus after == JobStatusCanceled) || (sn_JobStatus after == JobStatusWaiting)))%bool
  then Ok true else needs_approval_items (elems (cx_Items c)) (elems (sn_Items after)).

Definition arrow : string := String (byte 226) (String (byte 134) (String (byte 146) EmptyString)).
Fixpoint pitch_items (olds items : list Item) : result (list string) :=
  match items, olds with
  | [], _ => Ok []
  | _ :: _, [] => Err "index out of range"
  | item :: items, old :: olds =>
      let? rest := pitch_items olds items in
      Ok ((if it_Disposition item != it_Disposition old then ["Remove plan item: " +:+ it_Text item] else []) ++
          (if it_ReviewState item != it_ReviewState old then ["Plan item needs discussion: " +:+ it_Text item] else []) ++ rest)
  end.
Definition newline : string := String (byte 10) EmptyString.
Definition ConfirmationPitch (c : Context) (after : Snapshot) : result string :=
  let? items := pitch_items (elems (cx_Items c)) (elems (sn_Items after)) in
  let job := if cx_JobStatus c != sn_JobStatus after
             then ["Job " +:+ pretty (cx_JobID c) +:+ ": " +:+ cx_JobStatus c +:+ " " +:+ arrow +:+ " " +:+ sn_JobStatus after +:+ "."]
             else [] in
  Ok (String.concat newline (job ++ items) +:+ newline +:+ "Apply these changes?").

(** ** Routing *)

Definition Infer : string := "infer".
Definition Interact : string := "interact".
Definition ModeLedger : string := "ledger".
Definition Research : string := "research".
Definition validate_mode (m : string) : result unit :=
  if bool_decide (m ∈ [""; Infer; Interact; ModeLedger; Research]) then Ok tt else Err "unknown conversation mode %q".

Definition RecipientPlanner : string := "planner".
Definition RecipientCodex : string := "codex".
Definition RecipientApproval : string := "approval".
Definition RecipientNative : string := "native".
Definition InteractionRecipient (c : Context) : string :=
  if negb (is_none cx_Pending c) then RecipientApproval else
  if negb (is_none cx_InputID c) then RecipientNative else
  if cx_Planning c then RecipientPlanner else RecipientCodex.

Definition replace_patch (path : string) (v : value) : Patch := mkPatch "replace" (bytes path) (Some v).
Definition direct_patch (recipient text : string) (c : Context) : result (string * value) :=
  if ((recipient == RecipientPlanner) || (recipient == RecipientCodex))%bool
  then Ok ("/message", to_json (mkContent text recipient))
  else if recipient == RecipientNative then
    reject "native choice needs interpretation" when negb (bool_decide (elems (cx_NativeChoices c) = []));
    Ok ("/native_reply", to_json text)
  else Err "approval reply needs interpretation".
(** The proposal is also returned with an error of its validation; callers drop it. *)
Definition DirectContent (request : Request) (c : Context) : result Result :=
  let recipient := if rq_Recipient request == "" then InteractionRecipient c else rq_Recipient request in
  reject "typed recipient no longer owns this interaction" when
    ((rq_Mode request != Interact) || (recipient != InteractionRecipient c))%bool;
  let? change := direct_patch recipient (rq_Text request) c in
  let patch := [replace_patch change.1 change.2] in
  let? _after := Apply c (Some patch) in
  Ok (mkResult "" "" false (rq_OperationID request) (Some patch) "").

Definition ValidateRouting (r : Request) (c : Context) : result unit :=
  check validate_mode (rq_Mode r);
  if ((rq_Mode r == "") || (rq_Mode r == Infer))%bool then
    reject "Infer has no typed recipient" when rq_Recipient r != "";
    Ok tt
  else if rq_Mode r == Interact then
    reject "interaction recipient changed" when
      ((rq_Recipient r != "") && (rq_Recipient r != InteractionRecipient c))%bool;
    Ok tt
  else Err "%s uses its dedicated controls or conversation".

Definition routed_path (recipient : string) : text :=
  if recipient == RecipientNative then bytes "/native_reply"
  else if recipient == RecipientApproval then bytes "/approval" else bytes "/message".
Definition only_path (path : text) (op : Patch) : result unit :=
  reject "typed interaction cannot change %s" when pt_Path op != path;
  Ok tt.
Definition ValidateRoutedPatch (r : Request) (c : Context) (patch : slice Patch) : result unit :=
  check ValidateRouting r c;
  if rq_Mode r != Interact then Ok tt else
  let recipient := InteractionRecipient c in
  check for_each (only_path (routed_path recipient)) (elems patch);
  check (if ((recipient == RecipientPlanner) || (recipient == RecipientCodex))%bool then
           let? after := Apply c patch in
           match sn_Message after with
           | Some m => reject "typed content must preserve the exact owner text" when ct_Text m != rq_Text r; Ok tt
           | None => Err "typed content must preserve the exact owner text"
           end
         else Ok tt);
  if ((recipient == RecipientNative) && bool_decide (elems (cx_NativeChoices c) = []))%bool then
    let? after := Apply c patch in
    match sn_NativeReply after with
    | Some answer => reject "typed reply must preserve the exact owner text" when answer != rq_Text r; Ok tt
    | None => Err "typed reply must preserve the exact owner text"
    end
  else Ok tt.

(** An object, or [true], proposed as the message selects its delivery. *)
Definition selects_message (op : Patch) : bool :=
  ((pt_Path op == bytes "/message") && ((pt_Op op == "replace") || (pt_Op op == "add")) &&
   match pt_Value op with Some (VObject _) | Some (VBool true) => true | _ => false end)%bool.
Definition bind_op (r : Request) (c : Context) (op : Patch) : Patch :=
  if selects_message op
  then mkPatch (pt_Op op) (pt_Path op) (Some (to_json (mkContent (rq_Text r) (messageRecipient c)))) else op.
Definition BindContent (r : Request) (c : Context) (patch : slice Patch) : slice Patch :=
  Some (bind_op r c <$> elems patch).

(** ** Admission of an interpreted message ([internal/queue]) *)

(** Without a displayed ledger the message sees no plan items. *)
Definition userIntentDisplayedContext (current : Context) (request : Request) : Context :=
  if rq_LedgerRevision request =? 0 then
    mkContext (cx_Recoverable current) (cx_NativeChoices current) (cx_Recent current) (cx_Facts current)
      (cx_Pending current) (cx_State current) (cx_JobID current) (cx_Generation current) (cx_JobStatus current)
      (if rq_Mode request != Interact then false else cx_Planning current)
      (cx_LedgerID current) (cx_Revision current) (cx_PlanState current) (cx_InputID current) (cx_Prompt current)
      (Some [])
  else current.
(** From the interpretation of a message to the result that is stored. *)
Definition admit_result (request : Request) (displayed : Context) (result : Result) : Prelude.result Result :=
  reject "interpreted user message identity changed" when rs_OperationID result != rq_OperationID request;
  if ((rs_Error result == "") && (rs_Clarification result == ""))%bool then
    let patch := BindContent request displayed (rs_Patch result) in
    check ValidateRoutedPatch request displayed patch;
    let? after := Apply displayed patch in
    let? approval := NeedsApproval displayed after in
    let? pitch := if approval : bool then ConfirmationPitch displayed after else Ok "" in
    Ok (mkResult (rs_Error result) pitch approval (rs_OperationID result) patch (rs_Clarification result))
  else
    reject "ambiguous user intent must have no state changes" when negb (bool_decide (elems (rs_Patch result) = []));
    Ok (mkResult (rs_Error result) "" false (rs_OperationID result) (rs_Patch result) (rs_Clarification result)).
(** What is checked again before a stored delta is executed. *)
Definition validateStoredUserDelta (current : Context) (request : Request) (bound : Context) (patch : slice Patch) : result unit :=
  let displayed := userIntentDisplayedContext current request in
  check ValidateRoutedPatch request displayed patch;
  let? after := Apply displayed patch in
  reject "user intention refers to changed session or ledger state" when
    (negb (is_none sn_Approval after) && (cx_Pending current != cx_Pending bound))%bool;
  Ok tt.
