(* ===== verification/SessionFacts.v ===== *)
(** * Facts about session state proposals

    The JSON form of a snapshot read field by field, its round trip, and what a
    validated delta is. *)
From Stdlib Require Import Ascii.
From S2P Require Import Prelude Ledger Schema SchemaFacts PathIdentity PathFacts UserIntent UserIntentFacts JsonCodec SessionIntent.
From stdpp Require Import sorting base tactics strings list gmap numbers pretty.
From stdpp Require Import list options.
Open Scope Z_scope.
Open Scope go_scope.

(** ** The JSON form, field by field *)

Definition snapshot_values (approval authority items_ job message reply open plan status : value) : fields_t :=
  [(bytes "approval", approval); (bytes "authority", authority); (bytes "items", items_); (bytes "job_status", job);
   (bytes "message", message); (bytes "native_reply", reply); (bytes "open", open); (bytes "plan_state", plan);
   (bytes "status_visible", status)].
Lemma encode_snapshot_eq s : encode_snapshot s =
  snapshot_values (to_json (sn_Approval s)) (to_json (sn_Authority s)) (slice_to_json (sn_Items s)) (to_json (sn_JobStatus s))
    (to_json (sn_Message s)) (to_json (sn_NativeReply s)) (to_json (sn_Open s)) (to_json (sn_PlanState s))
    (to_json (sn_StatusVisible s)).
Proof. reflexivity. Qed.
(** The [i]-th field of a struct decodes its key. *)
Lemma decode_nth {A} (fields : list (json_field A)) i f x k v :
  fields !! i = Some f -> find_field fields k = Some f -> decode_field fields x (k, v) = jf_decode f x v.
Proof. intros _ H. unfold decode_field. simpl. by rewrite H. Qed.
(** Decodes the next key of an object as the [i]-th field. *)
Ltac next_field fields i :=
  cbn [loop]; erewrite (decode_nth fields i) by reflexivity;
  cbn [jf_decode plain sliced omitted it_ID it_Text it_ReviewState it_Disposition pr_ID pr_Pitch ct_Text ct_Recipient
       cj_ID cj_Status cj_Generation cj_UpdatedAt cs_ChannelID cs_WorkspaceRoot cs_WorkspaceIdentity cs_ChannelUpdatedAt
       cs_LatestMessageID cs_LatestTurnOperationID cs_LatestControlOperationID cs_LatestJob
       cx_Recoverable cx_NativeChoices cx_Recent cx_Facts cx_Pending cx_State cx_JobID cx_Generation cx_JobStatus
       cx_Planning cx_LedgerID cx_Revision cx_PlanState cx_InputID cx_Prompt cx_Items
       sn_Authority sn_JobStatus sn_PlanState sn_Items sn_Message sn_NativeReply sn_Open sn_StatusVisible sn_Approval].
Ltac split_field :=
  match goal with
  | |- (match (match ?c with Ok _ => _ | Err _ => _ end) with Ok _ => _ | Err _ => _ end) = _ => destruct c; [|done]
  end.

Lemma decode_snapshot_eq v1 v2 v3 v4 v5 v6 v7 v8 v9 :
  decode_snapshot (snapshot_values v1 v2 v3 v4 v5 v6 v7 v8 v9) =
  let? approval := from_json None v1 in let? authority := from_json no_context v2 in
  let? items := slice_from_json None v3 in let? job := from_json "" v4 in let? message := from_json None v5 in
  let? reply := from_json None v6 in let? open := from_json false v7 in let? plan := from_json "" v8 in
  let? status := from_json false v9 in
  Ok (mkSnapshot authority job plan items message reply open status approval).
Proof.
  unfold decode_snapshot, struct_decode, snapshot_values, no_snapshot.
  next_field snapshot_fields 8%nat. split_field. next_field snapshot_fields 0%nat. split_field.
  next_field snapshot_fields 3%nat. split_field. next_field snapshot_fields 1%nat. split_field.
  next_field snapshot_fields 4%nat. split_field. next_field snapshot_fields 5%nat. split_field.
  next_field snapshot_fields 6%nat. split_field. next_field snapshot_fields 2%nat. split_field.
  next_field snapshot_fields 7%nat. split_field. done.
Qed.

(** ** Round trips *)

Lemma string_back s : valid_utf8 s = true -> from_json "" (to_json s) = Ok s.
Proof. intros H. exact (json_exact s H). Qed.
Lemma int64_back z : int64 z -> from_json 0 (to_json z) = Ok z.
Proof. intros H. exact (json_exact z H). Qed.
Lemma bool_back b : from_json false (to_json b) = Ok b.
Proof. done. Qed.
Lemma pointer_back {A} `{JsonExact A} (x : A) : portable x -> to_json x <> VNull ->
  from_json None (to_json (Some x)) = Ok (Some x).
Proof.
  intros Hx Hn. change (to_json (Some x)) with (to_json x). destruct (to_json x) eqn:E; try done;
    cbn [from_json pointer_json default]; by rewrite <-E, (json_exact x Hx).
Qed.
Ltac exact_field fields i :=
  next_field fields i;
  first [ rewrite string_back by done | rewrite int64_back by done | rewrite bool_back | rewrite pointer_back by done
        | match goal with H : _ = Ok _ |- _ => rewrite H end ];
  cbn iota beta.

Definition item_portable (x : Item) : Prop :=
  valid_utf8 (it_ID x) = true /\ valid_utf8 (it_Text x) = true /\
  valid_utf8 (it_ReviewState x) = true /\ valid_utf8 (it_Disposition x) = true.
#[global] Instance item_exact : JsonExact Item.
Proof.
  refine {| portable := item_portable |}.
  intros [id text review disposition] (H1 & H2 & H3 & H4). simpl in H1, H2, H3, H4.
  change (struct_decode item_fields (mkItem "" "" "" "") (VObject [(bytes "disposition", to_json disposition); (bytes "id", to_json id);
    (bytes "review_state", to_json review); (bytes "text", to_json text)]) = Ok (mkItem id text review disposition)).
  unfold struct_decode. exact_field item_fields 3%nat. exact_field item_fields 0%nat.
  exact_field item_fields 2%nat. exact_field item_fields 1%nat. done.
Defined.
#[global] Instance proposal_exact : JsonExact Proposal.
Proof.
  refine {| portable x := valid_utf8 (pr_ID x) = true /\ valid_utf8 (pr_Pitch x) = true |}.
  intros [id pitch] (H1 & H2). simpl in H1, H2.
  change (struct_decode proposal_fields (mkProposal "" "") (VObject [(bytes "id", to_json id); (bytes "pitch", to_json pitch)]) =
    Ok (mkProposal id pitch)).
  unfold struct_decode. exact_field proposal_fields 0%nat. exact_field proposal_fields 1%nat. done.
Defined.
#[global] Instance content_exact : JsonExact Content.
Proof.
  refine {| portable x := valid_utf8 (ct_Text x) = true /\ valid_utf8 (ct_Recipient x) = true |}.
  intros [text recipient] (H1 & H2). simpl in H1, H2.
  change (struct_decode content_fields (mkContent "" "") (VObject [(bytes "recipient", to_json recipient); (bytes "text", to_json text)]) =
    Ok (mkContent text recipient)).
  unfold struct_decode. exact_field content_fields 1%nat. exact_field content_fields 0%nat. done.
Defined.
#[global] Instance job_state_exact : JsonExact ChannelSessionJobState.
Proof.
  refine {| portable x := int64 (cj_ID x) /\ valid_utf8 (cj_Status x) = true /\ int64 (cj_Generation x) /\
                          valid_utf8 (cj_UpdatedAt x) = true |}.
  intros [id status generation updated] (H1 & H2 & H3 & H4). simpl in H1, H2, H3, H4.
  change (struct_decode job_state_fields (mkJobState 0 "" 0 "") (VObject [(bytes "generation", to_json generation); (bytes "id", to_json id);
    (bytes "status", to_json status); (bytes "updated_at", to_json updated)]) = Ok (mkJobState id status generation updated)).
  unfold struct_decode. exact_field job_state_fields 2%nat. exact_field job_state_fields 0%nat.
  exact_field job_state_fields 1%nat. exact_field job_state_fields 3%nat. done.
Defined.

(** Writes out the fields that a struct with known optional parts encodes to. *)
Ltac write_fields :=
  match goal with
  | |- struct_decode ?F ?z (VObject ?fs) = ?r =>
      let l := eval cbv -[to_json slice_to_json string_json int64_json bool_json pointer_json item_json message_json proposal_json
                          content_json job_state_json session_state_json context_json] in fs in
      change (loop (decode_field F) z l = r)
  end.

Definition session_portable (x : ChannelSessionState) : Prop :=
  valid_utf8 (cs_ChannelID x) = true /\ valid_utf8 (cs_WorkspaceRoot x) = true /\
  valid_utf8 (cs_WorkspaceIdentity x) = true /\ valid_utf8 (cs_ChannelUpdatedAt x) = true /\
  (forall z, cs_LatestMessageID x = Some z -> int64 z) /\
  (forall s, cs_LatestTurnOperationID x = Some s -> valid_utf8 s = true) /\
  (forall s, cs_LatestControlOperationID x = Some s -> valid_utf8 s = true) /\
  (forall j, cs_LatestJob x = Some j -> portable j).
#[global] Instance session_state_exact : JsonExact ChannelSessionState.
Proof.
  refine {| portable := session_portable |}.
  intros [a b c d e f g h] (H1 & H2 & H3 & H4 & H5 & H6 & H7 & H8). simpl in H1, H2, H3, H4, H5, H6, H7, H8.
  change (struct_decode session_state_fields (mkSessionState "" "" "" "" None None None None)
    (VObject (struct_fields session_state_fields (mkSessionState a b c d e f g h))) = Ok (mkSessionState a b c d e f g h)).
  destruct e as [e|]; [specialize (H5 e eq_refl)|]; (destruct f as [f|]; [specialize (H6 f eq_refl)|]);
    (destruct g as [g|]; [specialize (H7 g eq_refl)|]); (destruct h as [h|]; [specialize (H8 h eq_refl)|]); write_fields.
  all: repeat first [exact_field session_state_fields 0%nat | exact_field session_state_fields 1%nat
    | exact_field session_state_fields 2%nat | exact_field session_state_fields 3%nat | exact_field session_state_fields 4%nat
    | exact_field session_state_fields 5%nat | exact_field session_state_fields 6%nat | exact_field session_state_fields 7%nat].
  all: done.
Defined.

(** Texts are valid UTF-8 and numbers are 64-bit; an empty list of choices is [nil]. *)
Definition context_portable (c : Context) : Prop :=
  (cx_NativeChoices c <> Some [] /\ Forall (fun s => valid_utf8 s = true) (elems (cx_NativeChoices c))) /\
  (forall p, cx_Pending c = Some p -> portable p) /\ portable (cx_State c) /\
  int64 (cx_JobID c) /\ int64 (cx_Generation c) /\ valid_utf8 (cx_JobStatus c) = true /\ int64 (cx_LedgerID c) /\
  int64 (cx_Revision c) /\ valid_utf8 (cx_PlanState c) = true /\ (forall z, cx_InputID c = Some z -> int64 z) /\
  valid_utf8 (cx_Prompt c) = true /\ Forall portable (elems (cx_Items c)).
Lemma slice_back {A} `{JsonExact A} (s : slice A) : Forall portable (elems s) ->
  slice_from_json None (slice_to_json s) = Ok s.
Proof. destruct s as [l|]; [apply slice_exact|done]. Qed.
Lemma no_messages : slice_from_json (A := Message) None (slice_to_json (A := Message) None) = Ok None.
Proof. done. Qed.
Lemma no_facts : slice_from_json (A := string) None (slice_to_json (A := string) None) = Ok None.
Proof. done. Qed.

Lemma authority_exact c : context_portable c -> from_json no_context (to_json (authority_of c)) = Ok (authority_of c).
Proof.
  destruct c as [a b c d e f g h i j k l m n o p].
  intros (Hb & He & Hf & Hg & Hh & Hi & Hk & Hl & Hm & Hn & Ho & Hp). unfold authority_of.
  cbn [cx_Recoverable cx_NativeChoices cx_Recent cx_Facts cx_Pending cx_State cx_JobID cx_Generation cx_JobStatus
       cx_Planning cx_LedgerID cx_Revision cx_PlanState cx_InputID cx_Prompt cx_Items] in *.
  set (x := mkContext _ _ _ _ _ _ _ _ _ _ _ _ _ _ _ _).
  change (struct_decode context_fields no_context (VObject (struct_fields context_fields x)) = Ok x). subst x.
  pose proof (slice_back p Hp) as Hp'. pose proof (json_exact f Hf) as Hf'. cbn [zero session_state_json] in Hf'.
  destruct Hb as [Hb Hb']. pose proof (slice_back b Hb') as Hb2. pose proof no_messages as Hno. pose proof no_facts as Hno'.
  destruct b as [[|b bs]|]; [done|..]; (destruct e as [e|]; [specialize (He e eq_refl)|]);
    (destruct n as [n|]; [specialize (Hn n eq_refl)|]); (destruct o as [|o1 o2]); write_fields;
    unfold no_context; cbn [zero session_state_json].
  all: repeat first
    [ exact_field context_fields 0%nat | exact_field context_fields 1%nat | exact_field context_fields 2%nat
    | exact_field context_fields 3%nat | exact_field context_fields 4%nat | exact_field context_fields 5%nat
    | exact_field context_fields 6%nat | exact_field context_fields 7%nat | exact_field context_fields 8%nat
    | exact_field context_fields 9%nat | exact_field context_fields 10%nat | exact_field context_fields 11%nat
    | exact_field context_fields 12%nat | exact_field context_fields 13%nat | exact_field context_fields 14%nat
    | exact_field context_fields 15%nat ].
  all: done.
Qed.

Lemma pointer_none {A} `{Json A} : from_json (None : option A) (to_json (None : option A)) = Ok None.
Proof. done. Qed.
(** A snapshot whose message is replaced by another value decodes to the session
    with that message. *)
Definition with_message (s : Snapshot) (m : option Content) : Snapshot :=
  mkSnapshot (sn_Authority s) (sn_JobStatus s) (sn_PlanState s) (sn_Items s) m (sn_NativeReply s) (sn_Open s)
    (sn_StatusVisible s) (sn_Approval s).
Lemma state_with_message c v : context_portable c ->
  decode_snapshot (field_set (bytes "message") v (encode_snapshot (State c))) =
  let? m := from_json None v in Ok (with_message (State c) m).
Proof.
  intros Hc. rewrite encode_snapshot_eq.
  match goal with |- context [field_set _ v (snapshot_values ?a ?b ?i ?j ?m ?r ?o ?p ?s)] =>
    change (field_set (bytes "message") v (snapshot_values a b i j m r o p s)) with (snapshot_values a b i j v r o p s) end.
  rewrite decode_snapshot_eq. cbn [State sn_Authority sn_JobStatus sn_PlanState sn_Items sn_Message sn_NativeReply sn_Open
    sn_StatusVisible sn_Approval].
  rewrite (authority_exact c Hc). destruct Hc as (_ & _ & _ & _ & _ & Hjob & _ & _ & Hplan & _ & _ & Hitems).
  rewrite !pointer_none, (slice_back _ Hitems), (string_back _ Hjob), (string_back _ Hplan), !bool_back. done.
Qed.
Lemma state_exact c : context_portable c -> decode_snapshot (encode_snapshot (State c)) = Ok (State c).
Proof.
  intros Hc. pose proof (state_with_message c VNull Hc) as H.
  change (field_set (bytes "message") VNull (encode_snapshot (State c))) with (encode_snapshot (State c)) in H. exact H.
Qed.

(** ** Decoded items *)

(** What the owner may do to one item: nothing, review it, or remove it. *)
Inductive item_change (old : Item) : Item -> Prop :=
| item_kept : item_change old old
| item_reviewed review :
    review ∈ [LedgerReviewAgreed; LedgerReviewNeedsDiscussion] ->
    item_change old (mkItem (it_ID old) (it_Text old) review (it_Disposition old))
| item_removed :
    it_Disposition old = LedgerDispositionActive ->
    item_change old (mkItem (it_ID old) (it_Text old) (it_ReviewState old) LedgerDispositionTombstoned).
Definition undecided (item : Item) : Prop :=
  it_Disposition item = LedgerDispositionActive /\ it_ReviewState item <> LedgerReviewAgreed.
#[global] Instance undecided_dec item : Decision (undecided item).
Proof. unfold undecided. apply _. Defined.

Lemma bool_decide_refl {A} (x : A) (d : Decision (x = x)) : bool_decide (x = x) = true.
Proof. by apply bool_decide_eq_true_2. Qed.
Lemma item_step_ok st old item st' : item_step st (old, item) = Ok st' <->
  item_change old item /\
  st' = ((st.1 || (item != old))%bool, (st.2 || bool_decide (undecided item))%bool).
Proof.
  destruct st as [lc nd], old as [id text rev disp], item as [id' text' rev' disp']. unfold item_step.
  rewrite !reject_ok, ok_ok. cbn [it_ID it_Text it_ReviewState it_Disposition fst snd].
  assert (((lc || (rev' != rev) || (disp' != disp))%bool, (nd || ((disp' == LedgerDispositionActive) && (rev' != LedgerReviewAgreed)))%bool) =
    ((lc || (mkItem id text rev' disp' != mkItem id text rev disp))%bool, (nd || bool_decide (undecided (mkItem id text rev' disp')))%bool)) as Hst.
  { unfold undecided. cbn [it_Disposition it_ReviewState]. f_equal.
    - rewrite <-orb_assoc, <-negb_andb, <-bool_decide_and. do 2 f_equal. apply bool_decide_ext.
      split; [by intros [-> ->]|by intros [= -> ->]].
    - f_equal. rewrite <-bool_decide_not, <-bool_decide_and. by apply bool_decide_ext. }
  split.
  - intros (H1 & H2 & H3 & ->). apply orb_false_iff in H1 as [H1 H1']. reflect. subst id' text'. split; [|exact Hst].
    destruct (decide (rev' = rev)) as [->|Hr], (decide (disp' = disp)) as [->|Hd].
    + apply item_kept.
    + rewrite (bool_decide_eq_false_2 (disp' = disp)) in H3 by done. rewrite (bool_decide_eq_true_2 (rev = rev)) in H3 by done.
      cbn [negb andb] in H3. rewrite orb_false_r in H3. reflect. subst. by apply (item_removed (mkItem id text rev _)).
    + rewrite (bool_decide_eq_false_2 (rev' = rev)) in H2 by done. cbn [negb andb] in H2.
      apply (item_reviewed (mkItem id text rev disp)). apply andb_false_iff in H2 as [H2|H2]; reflect; subst; set_solver.
    + rewrite (bool_decide_eq_false_2 (disp' = disp)), (bool_decide_eq_false_2 (rev' = rev)) in H3 by done.
      cbn [negb andb] in H3. by rewrite orb_true_r in H3.
  - intros [Hc ->]. inversion Hc as [|review Hrev|Hact]; subst; simpl in *.
    all: rewrite <-Hst, !bool_decide_refl; cbn [negb andb orb]; split_and!; try done.
    + apply elem_of_cons in Hrev as [->|Hrev]; [|apply list_elem_of_singleton in Hrev as ->];
        consts; by rewrite ?andb_false_r.
    + rewrite Hact, bool_decide_refl. by rewrite andb_false_r.
Qed.

Lemma items_loop olds : forall items lc nd st, length olds = length items ->
  loop item_step (lc, nd) (zip olds items) = Ok st <->
  Forall2 item_change olds items /\
  st = ((lc || (items != olds))%bool, (nd || bool_decide (Exists undecided items))%bool).
Proof.
  induction olds as [|old olds IH]; intros [|item items] lc nd st Hlen; try done.
  - simpl. rewrite ok_ok, !orb_false_r. split; [intros ->; split; [constructor|done]|by intros [_ ->]].
  - injection Hlen as Hlen. cbn [zip zip_with loop]. rewrite bind_ok, Forall2_cons. setoid_rewrite item_step_ok.
    assert (forall b : bool, (b || (item != old) || (items != olds))%bool = (b || (item :: items != old :: olds))%bool) as Hne.
    { intros b. rewrite <-orb_assoc, <-negb_andb, <-bool_decide_and. do 2 f_equal. apply bool_decide_ext.
      split; [by intros [-> ->]|by intros [= -> ->]]. }
    assert (forall b : bool, (b || bool_decide (undecided item) || bool_decide (Exists undecided items))%bool =
      (b || bool_decide (Exists undecided (item :: items)))%bool) as Hex.
    { intros b. rewrite <-orb_assoc, <-bool_decide_or. f_equal. apply bool_decide_ext. by rewrite Exists_cons. }
    split.
    + intros (st1 & [Hc ->] & Hrun). apply IH in Hrun as [Hall ->]; [|done]. simpl. by rewrite Hne, Hex.
    + intros [[Hc Hall] ->]. eexists. split; [done|]. apply IH; [done|]. simpl. by rewrite Hne, Hex.
Qed.
