(* ===== verification/SessionSpec.v ===== *)
(** * What a session message may do

    The abstract transitions of a session ([session_step]) and the proof that the
    validation of [SessionIntent.v] accepts exactly these; what reaches a workflow
    from a typed message; and what is done without asking the owner. *)
From Stdlib Require Import Ascii.
From S2P Require Import Prelude Ledger Schema SchemaFacts PathIdentity PathFacts UserIntent UserIntentFacts.
From S2P Require Import UserIntentSpec JsonCodec SessionIntent SessionFacts.
From stdpp Require Import sorting base tactics strings list gmap numbers pretty.
From stdpp Require Import list options.
Open Scope Z_scope.
Open Scope go_scope.

(** ** The transitions *)

Section transitions.
Context (c : Context) (b : Snapshot).

Definition same_job : Prop := sn_JobStatus b = cx_JobStatus c.
Definition same_ledger : Prop := sn_PlanState b = cx_PlanState c /\ elems (sn_Items b) = elems (cx_Items c).
Definition no_content : Prop := sn_Message b = None /\ sn_NativeReply b = None /\ sn_Approval b = None.
Definition all_agreed : Prop := Forall (fun item => ~ undecided item) (elems (sn_Items b)).
(** A displayed plan that can still be edited. *)
Definition open_plan : Prop := cx_Planning c = true /\ cx_PlanState c = "proposed" /\ 1 <= cx_Revision c.

(** A job is resumed, started on a frozen plan, canceled or interrupted. *)
Inductive job_step : Prop :=
| job_resumed : sn_JobStatus b = JobStatusRunning -> cx_Recoverable c = true -> job_step
| job_started : sn_JobStatus b = JobStatusRunning -> cx_Planning c = true -> sn_PlanState b = "frozen" -> all_agreed -> job_step
| job_canceled : sn_JobStatus b = JobStatusCanceled -> cx_JobStatus c <> JobStatusFailed -> job_step
| job_interrupted : sn_JobStatus b = JobStatusWaiting ->
    cx_JobStatus c = JobStatusRunning \/ cx_JobStatus c = JobStatusPending -> job_step.

(** One message does one of these things. *)
Inductive session_step : Prop :=
| step_nothing : same_job -> same_ledger -> no_content -> session_step
| step_review :
    open_plan -> Forall2 item_change (elems (cx_Items c)) (elems (sn_Items b)) -> elems (sn_Items b) <> elems (cx_Items c) ->
    sn_PlanState b = cx_PlanState c -> same_job -> no_content -> session_step
| step_freeze :
    open_plan -> Forall2 item_change (elems (cx_Items c)) (elems (sn_Items b)) ->
    sn_PlanState b = "frozen" -> all_agreed ->
    same_job \/ (sn_JobStatus b = JobStatusRunning /\ 0 < cx_JobID c) -> no_content -> session_step
| step_control : sn_JobStatus b <> cx_JobStatus c -> 0 < cx_JobID c -> job_step -> same_ledger -> no_content -> session_step
| step_message text :
    sn_Message b = Some (mkContent text (messageRecipient c)) -> ValidateChannelMessage ChannelMessageRoleUser text = Ok tt ->
    sn_NativeReply b = None -> sn_Approval b = None -> same_job -> same_ledger -> session_step
| step_reply answer :
    sn_NativeReply b = Some answer -> cx_InputID c <> None -> answer <> "" ->
    elems (cx_NativeChoices c) = [] \/ answer ∈ elems (cx_NativeChoices c) ->
    sn_Message b = None -> sn_Approval b = None -> same_job -> same_ledger -> session_step
| step_answer approved :
    sn_Approval b = Some approved -> cx_Pending c <> None ->
    sn_Message b = None -> sn_NativeReply b = None -> same_job -> same_ledger -> session_step.
End transitions.

(** ** Guards as propositions *)

Lemma is_none_spec {A B} (get : A -> option B) x : is_none get x = true <-> get x = None.
Proof. unfold is_none. by destruct (get x). Qed.
Lemma is_none_false {A B} (get : A -> option B) x : is_none get x = false <-> get x <> None.
Proof. unfold is_none. by destruct (get x). Qed.
Lemma validate_message_ok c m : validate_message c m = Ok tt <->
  m = None \/ exists text, m = Some (mkContent text (messageRecipient c)) /\ ValidateChannelMessage ChannelMessageRoleUser text = Ok tt.
Proof.
  destruct m as [[text recipient]|]; [|naive_solver]. unfold validate_message. cbn [ct_Text ct_Recipient].
  rewrite check_ok, reject_ok, negb_false_iff, bool_decide_eq_true. naive_solver.
Qed.
Lemma validate_reply_ok c r : validate_reply c r = Ok tt <->
  r = None \/ exists answer, r = Some answer /\ cx_InputID c <> None /\ answer <> "" /\
    (elems (cx_NativeChoices c) = [] \/ answer ∈ elems (cx_NativeChoices c)).
Proof.
  destruct r as [answer|]; [|naive_solver]. unfold validate_reply.
  rewrite !reject_ok, orb_false_iff, andb_false_iff, !negb_false_iff, bool_decide_eq_true, bool_decide_eq_false, is_none_false.
  rewrite existsb_exists. setoid_rewrite bool_decide_eq_true. setoid_rewrite list_elem_of_In. naive_solver.
Qed.
Lemma job_transition_spec c b nd : nd = bool_decide (Exists undecided (elems (sn_Items b))) ->
  job_transition c b nd = true <-> 0 < cx_JobID c /\ job_step c b.
Proof.
  intros ->. unfold job_transition.
  assert (negb (bool_decide (Exists undecided (elems (sn_Items b)))) = true <-> all_agreed b) as Hnd.
  { rewrite negb_true_iff, bool_decide_eq_false. unfold all_agreed. split.
    - apply (not_Exists_Forall _).
    - apply Forall_not_Exists. }
  rewrite !andb_true_iff, !orb_true_iff, !andb_true_iff, !orb_true_iff, !andb_true_iff, Hnd, negb_true_iff, bool_decide_eq_false.
  rewrite !bool_decide_eq_true. split.
  - intros [Hid Hj]. split; [done|]. destruct Hj as [[[Hr [H|[[Hp Hf] Ha]]]|[Hc Hn]]|[Hw Hs]].
    + by apply job_resumed. + by apply job_started. + by apply job_canceled. + by apply job_interrupted.
  - intros [Hid [Hr Hrec|Hr Hp Hf Ha|Hc Hn|Hw Hs]]; split; [done| |done| |done| |done|]; tauto.
Qed.

Lemma guard_implies (p q : bool) : (p && q)%bool = false <-> (p = true -> q = false).
Proof. destruct p, q; naive_solver. Qed.
Lemma open_plan_guard c :
  (negb (cx_Planning c) || (cx_PlanState c != "proposed") || (cx_Revision c <? 1))%bool = false <-> open_plan c.
Proof.
  unfold open_plan. rewrite !orb_false_iff, !negb_false_iff, bool_decide_eq_true, Z.ltb_ge. tauto.
Qed.
Lemma agreed_guard b : bool_decide (Exists undecided (elems (sn_Items b))) = false <-> all_agreed b.
Proof. rewrite bool_decide_eq_false. split; [apply (not_Exists_Forall _)|apply Forall_not_Exists]. Qed.

(** The checks of [validate_delta], one proposition each. *)
Definition job_changed (c : Context) (b : Snapshot) : bool := cx_JobStatus c != sn_JobStatus b.
Definition ledger_changed (c : Context) (b : Snapshot) : bool :=
  ((sn_PlanState b != cx_PlanState c) || (elems (sn_Items b) != elems (cx_Items c)))%bool.
Definition changes (c : Context) (b : Snapshot) : list bool :=
  [job_changed c b; ledger_changed c b; negb (is_none sn_Message b); negb (is_none sn_NativeReply b); negb (is_none sn_Approval b)].
Definition starts (c : Context) (b : Snapshot) : bool :=
  (job_changed c b && ledger_changed c b && (sn_PlanState b == "frozen") && (sn_JobStatus b == JobStatusRunning))%bool.
Record delta_checks (c : Context) (b : Snapshot) : Prop := {
  dc_items : Forall2 item_change (elems (cx_Items c)) (elems (sn_Items b));
  dc_open : ledger_changed c b = true -> open_plan c;
  dc_freeze : sn_PlanState b <> cx_PlanState c -> sn_PlanState b = "frozen" /\ all_agreed b;
  dc_job : job_changed c b = true -> 0 < cx_JobID c /\ job_step c b;
  dc_message : validate_message c (sn_Message b) = Ok tt;
  dc_reply : validate_reply c (sn_NativeReply b) = Ok tt;
  dc_approval : sn_Approval b <> None -> cx_Pending c <> None;
  dc_single : count_changes (changes c b) <= (if starts c b then 2 else 1) }.
Lemma freeze_guard c b nd :
  ((sn_PlanState b != cx_PlanState c) && ((sn_PlanState b != "frozen") || nd))%bool = false <->
  (sn_PlanState b <> cx_PlanState c -> sn_PlanState b = "frozen" /\ nd = false).
Proof. rewrite guard_implies, negb_true_iff, bool_decide_eq_false, orb_false_iff, negb_false_iff, bool_decide_eq_true. done. Qed.
Lemma approval_guard c b :
  (negb (is_none sn_Approval b) && is_none cx_Pending c)%bool = false <-> (sn_Approval b <> None -> cx_Pending c <> None).
Proof. rewrite guard_implies, negb_true_iff, !is_none_false. done. Qed.
Lemma single_guard (start : bool) n : (1 <? (if start then n - 1 else n)) = false <-> n <= (if start then 2 else 1).
Proof. rewrite Z.ltb_ge. destruct start; lia. Qed.

Lemma validate_delta_ok c b : validate_delta (State c) b = Ok tt <-> sn_Authority b = authority_of c /\ delta_checks c b.
Proof.
  unfold validate_delta. split.
  - intros [[Hauth Hlen]%orb_false_iff H]%reject_ok. reflect.
    apply bind_ok in H as ([lc nd] & Hloop & H). apply items_loop in Hloop as [Hall [= -> ->]]; [|done].
    apply reject_ok in H as [Hopen H]. apply reject_ok in H as [Hfreeze H]. apply reject_ok in H as [Hjob H].
    apply check_ok in H as [Hmsg H]. apply check_ok in H as [Hreply H]. apply reject_ok in H as [Happ H].
    apply reject_ok in H as [Hsingle _]. split; [done|]. split; [done|..].
    + intros Hl. apply open_plan_guard. apply guard_implies in Hopen; [exact Hopen|exact Hl].
    + intros Hp. apply (proj1 (freeze_guard c b _)) in Hfreeze; [|exact Hp].
      destruct Hfreeze as [Hf Ha]. split; [done|by apply agreed_guard].
    + intros Hj. apply (job_transition_spec c b _ eq_refl), negb_false_iff. apply guard_implies in Hjob; [exact Hjob|exact Hj].
    + exact Hmsg.
    + exact Hreply.
    + by apply approval_guard.
    + by apply single_guard.
  - intros [Hauth [Hall Hopen Hfreeze Hjob Hmsg Hreply Happ Hsingle]].
    apply reject_ok. split.
    { apply orb_false_iff, (conj (A := _ = false)); apply negb_false_iff, bool_decide_eq_true_2; [by rewrite Hauth|].
      by apply Forall2_length in Hall. }
    apply bind_ok. eexists. split; [apply items_loop; [by apply Forall2_length in Hall|split; [exact Hall|reflexivity]]|].
    apply reject_ok. split; [apply guard_implies; intros Hl; by apply open_plan_guard, Hopen|].
    apply reject_ok. split; [apply (proj2 (freeze_guard c b _)); intros Hp; destruct (Hfreeze Hp); split; [done|by apply agreed_guard]|].
    apply reject_ok. split; [apply guard_implies; intros Hj; apply negb_false_iff; by apply (job_transition_spec c b _ eq_refl), Hjob|].
    apply check_ok. split; [exact Hmsg|]. apply check_ok. split; [exact Hreply|].
    apply reject_ok. split; [by apply approval_guard|]. apply reject_ok. split; [by apply single_guard|done].
Qed.

Lemma job_changed_false c b : job_changed c b = false <-> same_job c b.
Proof. unfold job_changed, same_job. rewrite negb_false_iff, bool_decide_eq_true. split; congruence. Qed.
Lemma job_changed_true c b : job_changed c b = true <-> sn_JobStatus b <> cx_JobStatus c.
Proof. unfold job_changed. rewrite negb_true_iff, bool_decide_eq_false. split; congruence. Qed.
Lemma ledger_changed_false c b : ledger_changed c b = false <-> same_ledger c b.
Proof. unfold ledger_changed, same_ledger. by rewrite orb_false_iff, !negb_false_iff, !bool_decide_eq_true. Qed.
Lemma same_items c b : same_ledger c b -> Forall2 item_change (elems (cx_Items c)) (elems (sn_Items b)).
Proof. intros [_ ->]. induction (elems (cx_Items c)); constructor; [apply item_kept|done]. Qed.

(** Which changes a step makes. *)
Lemma count_step c b : count_changes (changes c b) =
  (if job_changed c b then 1 else 0) + (if ledger_changed c b then 1 else 0) +
  (match sn_Message b with Some _ => 1 | None => 0 end) + (match sn_NativeReply b with Some _ => 1 | None => 0 end) +
  (match sn_Approval b with Some _ => 1 | None => 0 end).
Proof.
  unfold changes, is_none. destruct (job_changed c b), (ledger_changed c b), (sn_Message b), (sn_NativeReply b), (sn_Approval b);
    vm_compute; reflexivity.
Qed.
Lemma starts_spec c b : starts c b = true <->
  job_changed c b = true /\ ledger_changed c b = true /\ sn_PlanState b = "frozen" /\ sn_JobStatus b = JobStatusRunning.
Proof. unfold starts. rewrite !andb_true_iff, !bool_decide_eq_true. tauto. Qed.

Lemma checks_step c b : delta_checks c b -> session_step c b.
Proof.
  intros [Hall Hopen Hfreeze Hjob Hmsg Hreply Happ Hsingle]. rewrite count_step in Hsingle.
  assert (starts c b = false \/ job_changed c b = true /\ ledger_changed c b = true) as Hst.
  { destruct (starts c b) eqn:E; [right; by apply starts_spec in E as (? & ? & _)|by left]. }
  apply validate_message_ok in Hmsg. apply validate_reply_ok in Hreply.
  destruct (job_changed c b) eqn:J.
  - apply job_changed_true in J as J'. destruct (Hjob eq_refl) as [Hid Hstep].
    destruct (sn_Message b) eqn:M; [destruct (starts c b), (ledger_changed c b), (sn_NativeReply b), (sn_Approval b); naive_solver lia|].
    destruct (sn_NativeReply b) eqn:R; [destruct (starts c b), (ledger_changed c b), (sn_Approval b); naive_solver lia|].
    destruct (sn_Approval b) eqn:A; [destruct (starts c b), (ledger_changed c b); naive_solver lia|].
    destruct (ledger_changed c b) eqn:L; [|by apply step_control; [..|apply ledger_changed_false|]].
    destruct (starts c b) eqn:S; [|lia]. apply starts_spec in S as (_ & _ & Hf & Hr).
    apply step_freeze; [by apply Hopen|done|done| |by right|done]. apply Hfreeze.
    rewrite Hf. destruct (Hopen eq_refl) as (_ & -> & _). done.
  - destruct Hst as [Hst|[? _]]; [|done]. rewrite Hst in Hsingle. apply job_changed_false in J.
    destruct (ledger_changed c b) eqn:L.
    + destruct (sn_Message b) eqn:M; [destruct (sn_NativeReply b), (sn_Approval b); lia|].
      destruct (sn_NativeReply b) eqn:R; [destruct (sn_Approval b); lia|]. destruct (sn_Approval b) eqn:A; [lia|].
      specialize (Hopen eq_refl). destruct (decide (sn_PlanState b = cx_PlanState c)) as [Hp|Hp].
      * apply step_review; [done..| |done|done|done]. intros Hi. assert (ledger_changed c b = false); [|congruence].
        by apply ledger_changed_false.
      * destruct (Hfreeze Hp). by apply step_freeze; [..|left|].
    + apply ledger_changed_false in L. destruct (sn_Message b) eqn:M.
      { destruct (sn_NativeReply b) eqn:R; [destruct (sn_Approval b); lia|]. destruct (sn_Approval b) eqn:A; [lia|].
        destruct Hmsg as [|(text & [= ->] & Hv)]; [done|]. by eapply step_message. }
      destruct (sn_NativeReply b) eqn:R.
      { destruct (sn_Approval b) eqn:A; [lia|]. destruct Hreply as [|(answer & [= ->] & ? & ? & ?)]; [done|]. by eapply step_reply. }
      destruct (sn_Approval b) eqn:A; [|by apply step_nothing]. eapply step_answer; eauto.
Qed.
Lemma step_checks c b : session_step c b -> delta_checks c b.
Proof.
  assert (forall b, same_job c b -> job_changed c b = true -> 0 < cx_JobID c /\ job_step c b) as Hj.
  { intros b' H%job_changed_false H'. congruence. }
  assert (forall b, same_ledger c b -> ledger_changed c b = true -> open_plan c) as Hl.
  { intros b' H%ledger_changed_false H'. congruence. }
  assert (forall b, same_ledger c b -> sn_PlanState b <> cx_PlanState c -> sn_PlanState b = "frozen" /\ all_agreed b) as Hf.
  { intros b' [H _] H'. congruence. }
  intros [Hjob Hled (HM & HR & HA)|Ho Hall Hne Hp Hjob (HM & HR & HA)|Ho Hall Hp Ha Hjob (HM & HR & HA)|Hne Hid Hst Hled (HM & HR & HA)
         |text HM Hv HR HA Hjob Hled|answer HR Hi Hn Hc HM HA Hjob Hled|ok HA Hpend HM HR Hjob Hled];
    (split; [try done; try (by apply same_items)|auto|auto|auto| | | |rewrite count_step, HM, HR, HA]).
  all: try (apply validate_message_ok; rewrite HM; by eauto).
  all: try (apply validate_reply_ok; rewrite HR; by eauto 10).
  all: try (intros Happ; rewrite HA in Happ; done).
  all: try (by apply Hl).
  all: try (apply job_changed_false in Hjob); try (apply ledger_changed_false in Hled).
  all: try (rewrite Hjob); try (rewrite Hled); try (destruct (job_changed c b), (starts c b); lia).
  all: try (destruct (ledger_changed c b), (starts c b); lia).
  - intros. congruence.
  - intros J. destruct Hjob as [Hjob|[Hr Hid]]; [by apply Hj|]. split; [done|]. apply job_started; try done. apply Ho.
  - destruct (job_changed c b) eqn:J, (ledger_changed c b) eqn:L; try (destruct (starts c b); lia).
    destruct Hjob as [Hjob|[Hr Hid]]; [apply job_changed_false in Hjob; congruence|].
    rewrite (proj2 (starts_spec c b)); [lia|done].
Qed.

(** C38: the validation of a session delta is exactly the relation of the allowed
    transitions: what it accepts keeps the session's authority and is one of them,
    and it accepts every one of them. *)
Theorem validated_delta_exact c b :
  validate_delta (State c) b = Ok tt <-> sn_Authority b = authority_of c /\ session_step c b.
Proof.
  rewrite validate_delta_ok. split; intros [Ha H]; (split; [exact Ha|]); [by apply checks_step|by apply step_checks].
Qed.

(** ** Applying a patch to the session *)

Lemma apply_ok c patch b : Apply c patch = Ok b <->
  exists patches after, patch = Some patches /\ applyPatch (encode_snapshot (State c)) patches Writable = Ok after /\
    Validate (encode_snapshot (State c)) after = Ok tt /\ decode_snapshot after = Ok b.
Proof.
  unfold Apply, UserIntent.Apply. split.
  - destruct patch as [patches|]; [|done]. intros (after & Ha & H)%bind_ok. apply check_ok in H as [Hv Hd]. eauto 10.
  - intros (patches & after & -> & -> & -> & ->). done.
Qed.
Lemma applied_step c patch b : context_portable c -> Apply c patch = Ok b ->
  sn_Authority b = authority_of c /\ session_step c b.
Proof.
  intros Hc (patches & after & -> & _ & Hv & Hd)%apply_ok. unfold Validate in Hv.
  apply check_ok in Hv as [_ Hv]. rewrite (state_exact c Hc), Hd in Hv.
  apply validate_delta_ok in Hv as [Ha Hv]. split; [done|by apply checks_step].
Qed.

Lemma encoded_sorted c : sorted_fields (encode_snapshot (State c)).
Proof. rewrite encode_snapshot_eq. unfold snapshot_values. repeat constructor. Qed.

(** A patch of the message alone changes the message alone. *)
Lemma message_patch c patches after v : Forall (fun p => pt_Path p = bytes "/message") patches ->
  applyPatch (encode_snapshot (State c)) patches Writable = Ok after -> field_get (bytes "message") after = Some v ->
  after = field_set (bytes "message") v (encode_snapshot (State c)).
Proof.
  intros Hpaths (Hops & _ & _)%applyPatch_ok Hv. apply operations_run in Hops as [seen Hrun].
  apply sorted_ext.
  - by apply (patches_sorted _ _ (∅, encode_snapshot (State c)) _ (encoded_sorted c) Hrun).
  - by apply (sorted_update _ (Some v)), encoded_sorted.
  - intros k. rewrite field_get_set. case_decide as E; [by subst|].
    apply (untouched_field _ patches k) in Hrun; [done|]. apply (Forall_impl _ _ _ Hpaths).
    intros p Hp [rest Hparts]. rewrite Hp in Hparts. vm_compute in Hparts. by injection Hparts as <- _.
Qed.
Lemma required_message after : for_each (require_field after) required_fields = Ok tt ->
  exists v, field_get (bytes "message") after = Some v.
Proof.
  intros H%for_each_ok. rewrite Forall_forall in H. specialize (H "message" ltac:(unfold required_fields; set_solver)).
  unfold require_field in H. destruct (field_get _ _); [eauto|done].
Qed.

Definition content_recipient (c : Context) : Prop := cx_Pending c = None /\ cx_InputID c = None.
Lemma content_recipient_spec c : content_recipient c <->
  ((InteractionRecipient c == RecipientPlanner) || (InteractionRecipient c == RecipientCodex))%bool = true.
Proof.
  unfold content_recipient, InteractionRecipient, is_none.
  destruct (cx_Pending c), (cx_InputID c), (cx_Planning c); vm_compute; naive_solver.
Qed.
Lemma content_recipient_message c : content_recipient c -> InteractionRecipient c = messageRecipient c.
Proof. intros [Hp Hi]. unfold InteractionRecipient, is_none. rewrite Hp, Hi. by destruct c, cx_Planning. Qed.

(** C39: a typed message that passes routing reaches its workflow verbatim: the patch
    delivers exactly the owner's text to the recipient that owns the workflow, and
    nothing else of the session changes. *)
Theorem routed_message_verbatim r c patch :
  context_portable c -> rq_Mode r = Interact -> content_recipient c -> ValidateRoutedPatch r c patch = Ok tt ->
  Apply c patch = Ok (with_message (State c) (Some (mkContent (rq_Text r) (messageRecipient c)))).
Proof.
  intros Hc Hmode Hrec H. unfold ValidateRoutedPatch in H. apply check_ok in H as [_ H].
  rewrite Hmode in H. cbn [negb] in H. rewrite bool_decide_refl in H. cbn [negb] in H. apply check_ok in H as [Hpaths H].
  apply check_ok in H as [Hmsg _]. rewrite (proj1 (content_recipient_spec c) Hrec) in Hmsg.
  apply bind_ok in Hmsg as (b & Hb & Hmsg). rewrite Hb. f_equal.
  pose proof (applied_step c patch b Hc Hb) as [_ Hstep].
  apply apply_ok in Hb as (patches & after & -> & Happly & Hval & Hdec).
  apply for_each_ok in Hpaths. unfold Validate in Hval. apply check_ok in Hval as [Hreq _].
  destruct (required_message _ Hreq) as [v Hv].
  rewrite (message_patch c patches after v) in Hdec; [|clear -Hpaths Hrec|done..].
  - rewrite (state_with_message c v Hc) in Hdec. apply bind_ok in Hdec as (m & _ & [= <-]).
    destruct m as [[text recipient]|]; [|done]. cbn [with_message sn_Message ct_Text] in Hmsg.
    apply reject_ok in Hmsg as [Ht _]. apply negb_false_iff, bool_decide_eq_true in Ht. subst text.
    destruct Hstep as [? ? (? & _)|? ? ? ? ? (? & _)|? ? ? ? ? (? & _)|? ? ? ? (? & _)|text HM| |]; try done.
    cbn in HM. by injection HM as -> ->.
  - apply (Forall_impl _ _ _ Hpaths). intros p [Hp _]%reject_ok. apply negb_false_iff, bool_decide_eq_true in Hp.
    rewrite Hp, (content_recipient_message c Hrec). unfold messageRecipient. by destruct (cx_Planning c).
Qed.

(** ** Direct delivery *)

Lemma recipient_utf8 c : valid_utf8 (messageRecipient c) = true.
Proof. unfold messageRecipient. by destruct (cx_Planning c). Qed.
Lemma message_utf8 text : ValidateChannelMessage ChannelMessageRoleUser text = Ok tt -> valid_utf8 text = true.
Proof.
  unfold ValidateChannelMessage, ValidateChannelMessageContent. intros [_ H]%check_ok.
  apply reject_ok in H as [H _]. apply orb_false_iff in H as [H _]. apply orb_false_iff in H as [_ H].
  by apply negb_false_iff in H.
Qed.
Lemma required_present c v : for_each (require_field (field_set (bytes "message") v (encode_snapshot (State c)))) required_fields = Ok tt.
Proof. destruct c as [a b c d e f g h i j k l m n o [items|]], v; reflexivity. Qed.

(** Delivering a valid message to the owner of the workflow is applied. *)
Lemma message_applies c text : context_portable c -> ValidateChannelMessage ChannelMessageRoleUser text = Ok tt ->
  Apply c (Some [replace_patch "/message" (to_json (mkContent text (messageRecipient c)))]) =
  Ok (with_message (State c) (Some (mkContent text (messageRecipient c)))).
Proof.
  intros Hc Hv. set (content := mkContent text (messageRecipient c)).
  assert (decode_snapshot (field_set (bytes "message") (to_json content) (encode_snapshot (State c))) =
    Ok (with_message (State c) (Some content))) as Hdec.
  { rewrite (state_with_message c _ Hc). change (to_json content) with (to_json (Some content)).
    rewrite pointer_back; [done| |done]. split; [by apply message_utf8|apply recipient_utf8]. }
  apply apply_ok. exists [replace_patch "/message" (to_json content)], (field_set (bytes "message") (to_json content) (encode_snapshot (State c))).
  split_and!; [done| | |exact Hdec].
  - apply (single_replace (encode_snapshot (State c)) (bytes "message") VNull (to_json content) Writable); try done.
    repeat constructor.
  - unfold Validate. rewrite required_present, (state_exact c Hc), Hdec. apply validate_delta_ok.
    split; [done|]. apply step_checks. by apply step_message with text.
Qed.

(** A typed message to a workflow without a pending proposal or question is always
    delivered: the direct proposal is made, it applies to exactly the delivery of the
    owner's text, and it passes the check that guards the stored proposal. *)
Theorem direct_message_delivered r c :
  context_portable c -> rq_Mode r = Interact -> rq_Recipient r ∈ [""; InteractionRecipient c] -> content_recipient c ->
  ValidateChannelMessage ChannelMessageRoleUser (rq_Text r) = Ok tt ->
  exists proposed, DirectContent r c = Ok proposed /\
    Apply c (rs_Patch proposed) = Ok (with_message (State c) (Some (mkContent (rq_Text r) (messageRecipient c)))) /\
    ValidateRoutedPatch r c (rs_Patch proposed) = Ok tt.
Proof.
  intros Hc Hmode Hr Hrec Hv. pose proof (message_applies c (rq_Text r) Hc Hv) as Happly.
  set (patch := Some _) in Happly. exists (mkResult "" "" false (rq_OperationID r) patch "").
  cbn [rs_Patch]. split_and!; [|exact Happly|].
  - unfold DirectContent. assert ((if rq_Recipient r == "" then InteractionRecipient c else rq_Recipient r) = InteractionRecipient c) as ->.
    { case_bool_decide; [done|]. set_solver. }
    rewrite Hmode, !bool_decide_refl. cbn [negb orb].
    unfold direct_patch. rewrite (proj1 (content_recipient_spec c) Hrec), (content_recipient_message c Hrec). cbn iota beta.
    change (Some [replace_patch _ _]) with patch. by rewrite Happly.
  - unfold ValidateRoutedPatch, ValidateRouting. rewrite Hmode. consts.
    assert (((rq_Recipient r != "") && (rq_Recipient r != InteractionRecipient c))%bool = false) as ->.
    { apply andb_false_iff. rewrite !negb_false_iff, !bool_decide_eq_true. set_solver. }
    rewrite (proj1 (content_recipient_spec c) Hrec), (content_recipient_message c Hrec), Happly. 
    assert (for_each (only_path (routed_path (messageRecipient c))) (elems patch) = Ok tt) as ->.
    { unfold messageRecipient. by destruct (cx_Planning c). }
    cbn [with_message sn_Message ct_Text]. rewrite bool_decide_refl. cbn [negb].
    unfold messageRecipient. by destruct (cx_Planning c).
Qed.

(** ** Approval *)

(** The changes that wait for the owner's approval. *)
Definition disruptive (c : Context) (b : Snapshot) : Prop :=
  (sn_JobStatus b <> cx_JobStatus c /\ sn_JobStatus b ∈ [JobStatusCanceled; JobStatusWaiting]) \/
  exists i old item, elems (cx_Items c) !! i = Some old /\ elems (sn_Items b) !! i = Some item /\
    (it_Disposition item <> it_Disposition old \/
     it_ReviewState item <> it_ReviewState old /\ it_ReviewState item = LedgerReviewNeedsDiscussion).
Lemma needs_approval_items_spec olds items : length olds = length items ->
  exists answer, needs_approval_items olds items = Ok answer /\
    (answer = true <-> exists i old item, olds !! i = Some old /\ items !! i = Some item /\ needs_approval_item old item = true).
Proof.
  revert items. induction olds as [|old olds IH]; intros [|item items] Hlen; try done.
  { exists false. split; [done|]. split; [done|]. by intros (i & ? & ? & H & _). }
  injection Hlen as Hlen. destruct (IH items Hlen) as (answer & Heq & Hiff). cbn [needs_approval_items].
  destruct (needs_approval_item old item) eqn:E.
  - exists true. split; [done|]. split; [intros _; by exists O, old, item|done].
  - exists answer. split; [done|]. rewrite Hiff. split.
    + intros (i & o & it & H). by exists (S i), o, it.
    + intros ([|i] & o & it & Ho & Hi & H); [simpl in *; congruence|by exists i, o, it].
Qed.
Lemma needs_approval_spec c b : length (elems (cx_Items c)) = length (elems (sn_Items b)) ->
  exists answer, NeedsApproval c b = Ok answer /\ (answer = true <-> disruptive c b).
Proof.
  intros Hlen. destruct (needs_approval_items_spec _ _ Hlen) as (answer & Heq & Hiff). unfold NeedsApproval, disruptive.
  assert (forall old item, needs_approval_item old item = true <-> it_Disposition item <> it_Disposition old \/
     it_ReviewState item <> it_ReviewState old /\ it_ReviewState item = LedgerReviewNeedsDiscussion) as Hitem.
  { intros old item. unfold needs_approval_item.
    rewrite orb_true_iff, andb_true_iff, !negb_true_iff, !bool_decide_eq_false, bool_decide_eq_true. done. }
  setoid_rewrite <-Hitem. destruct (_ && _)%bool eqn:E.
  - exists true. split; [done|]. split; [intros _; left|done].
    rewrite andb_true_iff, orb_true_iff, negb_true_iff, bool_decide_eq_false, !bool_decide_eq_true in E. set_solver.
  - exists answer. rewrite Heq. split; [done|]. rewrite Hiff. split; [by right|]. intros [[Hne Hin]|H]; [exfalso|done].
    apply not_true_iff_false in E. apply E.
    rewrite andb_true_iff, orb_true_iff, negb_true_iff, bool_decide_eq_false, !bool_decide_eq_true. set_solver.
Qed.
Lemma pitch_items_total olds items : length olds = length items -> exists lines, pitch_items olds items = Ok lines.
Proof.
  revert items. induction olds as [|old olds IH]; intros [|item items] Hlen; try done; [by eexists|].
  injection Hlen as Hlen. destruct (IH items Hlen) as [lines H]. cbn [pitch_items]. rewrite H. eauto.
Qed.
Lemma step_items_length c b : session_step c b -> length (elems (cx_Items c)) = length (elems (sn_Items b)).
Proof. intros H%step_checks. eapply Forall2_length, dc_items, H. Qed.

(** an interpretation that passes routing and applies is stored as one of the
    allowed transitions, without any failing index, and it waits for the owner's
    approval exactly when it cancels or interrupts the job, removes a plan item or
    puts one back to discussion. *)
Theorem admitted_transition r c proposed b :
  context_portable c -> rs_OperationID proposed = rq_OperationID r -> rs_Error proposed = "" -> rs_Clarification proposed = "" ->
  ValidateRoutedPatch r c (BindContent r c (rs_Patch proposed)) = Ok tt -> Apply c (BindContent r c (rs_Patch proposed)) = Ok b ->
  exists stored, admit_result r c proposed = Ok stored /\ rs_Patch stored = BindContent r c (rs_Patch proposed) /\
    (rs_RequiresApproval stored = true <-> disruptive c b) /\ sn_Authority b = authority_of c /\ session_step c b.
Proof.
  intros Hc Hid Herr Hcl Hroute Happly. destruct (applied_step c _ b Hc Happly) as [Hauth Hstep].
  pose proof (step_items_length c b Hstep) as Hlen. destruct (needs_approval_spec c b Hlen) as (answer & Hneeds & Hiff).
  destruct (pitch_items_total _ _ Hlen) as [lines Hlines].
  assert (exists pitch, (if answer : bool then ConfirmationPitch c b else Ok "") = Ok pitch) as [pitch Hpitch].
  { destruct answer; [|eauto]. unfold ConfirmationPitch. rewrite Hlines. eauto. }
  eexists. split.
  { unfold admit_result. rewrite Hid, Herr, Hcl, !bool_decide_refl. cbn [negb andb]. rewrite Hroute, Happly, Hneeds, Hpitch. reflexivity. }
  done.
Qed.

(** ** A session *)

Module session_sample.
Definition state : ChannelSessionState :=
  mkSessionState "channel_1" "/work" "id" "2024-01-02T03:04:05Z" (Some 12) None None
    (Some (mkJobState 7 "waiting_input" 2 "2024-01-02T03:04:05Z")).
Definition item (id text review : string) : Item := mkItem id text review "active".
Definition plan : Context :=
  mkContext false None (Some []) (Some ["fact"]) None state 7 2 "waiting_input" true 3 4 "proposed" None ""
    (Some [item "t1" "parser" "proposed"; item "t2" "printer" "proposed"]).
Definition request : Request := mkRequest "interact" "" "lifecycle_operation_1" "add a test" state 4 "".

Lemma portable_plan : context_portable plan.
Proof.
  split_and!; try done; try (intros ? [= <-]; done); try (unfold int64; cbn; lia).
  - split_and!; try done; intros ? [= <-]; unfold portable; simpl; split_and!; (unfold int64; lia) || done.
  - repeat constructor.
Defined.

Definition content : value := to_json (mkContent "add a test" "planner").
Lemma routed : ValidateRoutedPatch request plan (Some [replace_patch "/message" content]) = Ok tt.
Proof. vm_compute. reflexivity. Qed.
Lemma routed_message_verbatim_witness :
  Apply plan (Some [replace_patch "/message" content]) =
  Ok (with_message (State plan) (Some (mkContent "add a test" "planner"))).
Proof.
  apply (routed_message_verbatim request plan).
  - exact portable_plan.
  - reflexivity.
  - split; reflexivity.
  - exact routed.
Defined.
Lemma direct_message_delivered_witness :
  exists proposed, DirectContent request plan = Ok proposed /\
    Apply plan (rs_Patch proposed) = Ok (with_message (State plan) (Some (mkContent "add a test" "planner"))) /\
    ValidateRoutedPatch request plan (rs_Patch proposed) = Ok tt.
Proof.
  apply (direct_message_delivered request plan).
  - exact portable_plan.
  - reflexivity.
  - left.
  - split; reflexivity.
  - vm_compute. reflexivity.
Defined.

(** One message removes an item and agrees to the other; the pitch names the agreed
    item as one that needs discussion. *)
Definition infer : Request := mkRequest "infer" "" "lifecycle_operation_2" "drop the parser, the printer is fine" state 4 "".
Definition review : Result :=
  mkResult "" "" false "lifecycle_operation_2"
    (Some [replace_patch "/items/0/disposition" (to_json "tombstoned"); replace_patch "/items/1/review_state" (to_json "agreed")]) "".
Definition reviewed : Snapshot :=
  mkSnapshot (authority_of plan) "waiting_input" "proposed"
    (Some [mkItem "t1" "parser" "proposed" "tombstoned"; item "t2" "printer" "agreed"]) None None true false None.
Lemma review_applies : Apply plan (BindContent infer plan (rs_Patch review)) = Ok reviewed.
Proof. vm_compute. reflexivity. Qed.
Lemma admitted_transition_witness :
  exists stored, admit_result infer plan review = Ok stored /\ rs_Patch stored = BindContent infer plan (rs_Patch review) /\
    (rs_RequiresApproval stored = true <-> disruptive plan reviewed) /\
    sn_Authority reviewed = authority_of plan /\ session_step plan reviewed.
Proof.
  apply (admitted_transition infer plan review reviewed).
  - exact portable_plan.
  - reflexivity.
  - reflexivity.
  - reflexivity.
  - vm_compute. reflexivity.
  - exact review_applies.
Defined.
Lemma agreed_item_pitched_as_discussion :
  Apply plan (rs_Patch review) = Ok reviewed /\ NeedsApproval plan reviewed = Ok true /\
  ConfirmationPitch plan reviewed =
    Ok ("Remove plan item: parser" +:+ newline +:+ "Plan item needs discussion: printer" +:+ newline +:+ "Apply these changes?").
Proof. split; [|split]; vm_compute; reflexivity. Qed.

(** Starting a plan with undecided items is refused. *)
Example undecided_plan_not_started :
  Apply plan (Some [replace_patch "/plan_state" (to_json "frozen"); replace_patch "/job_status" (to_json "running")]) =
  Err "only an agreed plan can become frozen".
Proof. vm_compute. reflexivity. Qed.
End session_sample.
