(* ===== verification/Timestamp.v ===== *)
(** * Instants

    The revisions of the Scrum board are PostgreSQL timestamps.  An instant is kept
    in nanoseconds since Go's zero time, 0001-01-01 00:00 UTC; here it is broken into
    civil fields, rendered with the layout of [internal/queue] and read back with
    [time.Parse] of [Intent.v]. *)
From Stdlib Require Import Ascii.
From S2P Require Import Prelude Schema PathIdentity PathFacts JsonCodec Intent QueryPlan.
From stdpp Require Import sorting base tactics strings list gmap numbers pretty.
From stdpp Require Import list options.
Open Scope Z_scope.
Open Scope go_scope.

Definition second : Z := 1000000000.
Definition microsecond : Z := 1000.

(** ** The calendar *)

(** Days before a month of a year. *)
Definition days_before (month year : Z) : Z :=
  foldl (fun n m => n + days_in m year) 0 (firstn (Z.to_nat (month - 1)) [1; 2; 3; 4; 5; 6; 7; 8; 9; 10; 11; 12]).
(** Month and day of the [n]-th day of a year, from 0. *)
Fixpoint month_day (n : Z) (year : Z) (months : list Z) : Z * Z :=
  match months with
  | [] => (12, n + 1)
  | m :: months => if n <? days_in m year then (m, n + 1) else month_day (n - days_in m year) year months
  end.
(** The years of a cycle of 400 are counted from 0, so that year [y] stands for
    [y + 1] of the calendar. *)
Definition year_start (y : Z) : Z := 365 * y + y / 4 - y / 100 + y / 400.
Definition civil_of_days (days : Z) : Z * Z * Z :=
  let cycle := days / 146097 in
  let rest := days mod 146097 in
  let guess := rest / 365 in
  let y := if rest <? year_start guess then guess - 1 else guess in
  let '(m, d) := month_day (rest - year_start y) (y + 1) [1; 2; 3; 4; 5; 6; 7; 8; 9; 10; 11; 12] in
  (400 * cycle + y + 1, m, d).
Definition days_of_civil (year month day : Z) : Z :=
  let y := (year - 1) mod 400 in
  (year - 1) / 400 * 146097 + year_start y + days_before month (y + 1) + (day - 1).

Definition utc (t : Z) : Time :=
  let seconds := t / second in
  let '(year, month, day) := civil_of_days (seconds / 86400) in
  let s := seconds mod 86400 in
  mkTime year month day (s / 3600) (s / 60 mod 60) (s mod 60) (t mod second) 0.
Definition instant (c : Time) : Z :=
  ((days_of_civil (tm_year c) (tm_month c) (tm_day c) * 86400
    + tm_hour c * 3600 + tm_minute c * 60 + tm_second c) - tm_offset c) * second + tm_nanosecond c.

(** ** Revisions *)

(** [t.UTC().Format("2006-01-02T15:04:05.999999Z")] *)
Definition render (t : Z) : string := format_rfc3339_nano (utc (t - t mod microsecond)).
(** [time.Parse(time.RFC3339Nano, s)] yields a UTC time of whole microseconds that
    formats to [s]. *)
Definition canonical_time (s : string) : bool :=
  match parse_rfc3339 s with
  | Some c => ((tm_offset c =? 0) && (tm_nanosecond c mod microsecond =? 0) && (format_rfc3339_nano c == s))%bool
  | None => false
  end.
(** The check [scrum_cards_timestamps_closed]: whole microseconds of the years 1 to
    9999. *)
Definition canonical_timestamp (t : Z) : bool :=
  ((t mod microsecond =? 0) && (0 <=? t) && (t <? 3652059 * 86400 * second))%bool.

(** ** The calendar is a bijection *)

Definition cycle_ok (r : Z) : bool :=
  let '(y, m, d) := civil_of_days r in
  ((1 <=? y) && (y <=? 400) && (1 <=? m) && (m <=? 12) && (1 <=? d) && (d <=? days_in m y) &&
   (days_of_civil y m d =? r) && ((145731 <=? r) || (y <=? 399)))%bool.
Fixpoint all_below (n : nat) (r : Z) (p : Z -> bool) : bool :=
  match n with O => true | S n => (p r && all_below n (r + 1) p)%bool end.
Lemma all_below_spec n r p : all_below n r p = true -> forall x, r <= x < r + Z.of_nat n -> p x = true.
Proof.
  revert r. induction n as [|n IH]; intros r H x Hx; [lia|]. cbn [all_below] in H. apply andb_true_iff in H as [Hp H].
  destruct (decide (x = r)) as [->|Hne]; [done|]. apply (IH (r + 1) H). lia.
Qed.
Lemma cycle_checked : all_below (Z.to_nat 146097) 0 cycle_ok = true.
Proof. by vm_compute. Qed.

Lemma civil_cycle days : civil_of_days days = let '(y, m, d) := civil_of_days (days mod 146097) in (400 * (days / 146097) + y, m, d).
Proof.
  unfold civil_of_days. assert (0 <= days mod 146097 < 146097) as Hr by (apply Z.mod_pos_bound; lia).
  rewrite (Z.div_small (days mod 146097) 146097), (Z.mod_small (days mod 146097) 146097) by lia.
  destruct (month_day _ _ _) as [m d]. f_equal. f_equal. lia.
Qed.
Lemma leap_cycle c y : leap_year (400 * c + y) = leap_year y.
Proof.
  unfold leap_year.
  assert (forall k, (k | 400) -> (400 * c + y) mod k = y mod k) as H.
  { intros k [q Hq]. rewrite Hq. replace (q * k * c + y) with (y + (q * c) * k) by ring. apply Z.mod_add. nia. }
  rewrite !H; [done| | |]; [by exists 1|by exists 4|by exists 100].
Qed.

(** The civil date of a day is a date of the calendar, and its only one. *)
Lemma civil_date days : let '(y, m, d) := civil_of_days days in
  400 * (days / 146097) + 1 <= y <= 400 * (days / 146097) + 400 /\ 1 <= m <= 12 /\ 1 <= d <= days_in m y /\
  days_of_civil y m d = days /\ (days < 3652059 -> y <= 9999).
Proof.
  assert (0 <= days mod 146097 < 146097) as Hr by (apply Z.mod_pos_bound; lia).
  pose proof (all_below_spec _ _ _ cycle_checked (days mod 146097) ltac:(lia)) as H. unfold cycle_ok in H.
  rewrite civil_cycle. destruct (civil_of_days (days mod 146097)) as [[y m] d]. reflect.
  split_and!; try lia.
  - unfold days_in. rewrite leap_cycle. exact H2.
  - unfold days_of_civil in *. replace (400 * (days / 146097) + y - 1) with (y - 1 + (days / 146097) * 400) by ring.
    rewrite Z.div_add, Z.mod_add by lia. rewrite (Z.div_small (y - 1)) in H1 |- * by lia.
    pose proof (Z.div_mod days 146097 ltac:(lia)). lia.
  - intros Hd. pose proof (Z.div_mod days 146097 ltac:(lia)). apply orb_true_iff in H0 as [H0|H0]; reflect; lia.
Qed.

Lemma instant_utc t : instant (utc t) = t.
Proof.
  unfold utc, instant. pose proof (civil_date (t / second / 86400)) as H.
  destruct (civil_of_days _) as [[y m] d]. cbn [tm_year tm_month tm_day tm_hour tm_minute tm_second tm_nanosecond tm_offset].
  destruct H as (_ & _ & _ & -> & _). unfold second.
  pose proof (Z.div_mod t 1000000000 ltac:(lia)). set (s := t / 1000000000) in *.
  pose proof (Z.div_mod s 86400 ltac:(lia)). set (r := s mod 86400) in *.
  pose proof (Z.div_mod r 60 ltac:(lia)). pose proof (Z.div_mod (r / 60) 60 ltac:(lia)).
  assert (r / 3600 = r / 60 / 60) as E by (rewrite Z.div_div by lia; done). lia.
Qed.

(** ** Rendered instants read back *)

Lemma text_bytes_app (a b : string) : to_bytes (a +:+ b) = to_bytes a ++ to_bytes b.
Proof. induction a as [|x a IH]; [done|]. change (x :: to_bytes (a +:+ b) = x :: (to_bytes a ++ to_bytes b)). by rewrite IH. Qed.

Definition two_ok (n : Z) : bool :=
  match to_bytes (zero_padded 2 n) with
  | [a; b] => match digit_value a, digit_value b with Some x, Some y => x * 10 + y =? n | _, _ => false end
  | _ => false
  end.
Definition four_ok (n : Z) : bool :=
  let l := to_bytes (zero_padded 4 n) in
  (Nat.eqb (length l) 4 && forallb is_digit l && (digits_value l =? n))%bool.
Lemma two_checked : all_below 100 0 two_ok = true.
Proof. by vm_compute. Qed.
Lemma four_checked : all_below (Z.to_nat 10000) 0 four_ok = true.
Proof. by vm_compute. Qed.

Lemma getnum_two fixed n l : 0 <= n < 100 -> getnum fixed (to_bytes (zero_padded 2 n) ++ l) = Some (n, l).
Proof.
  intros Hn. pose proof (all_below_spec _ _ _ two_checked n ltac:(lia)) as H. unfold two_ok in H.
  destruct (to_bytes (zero_padded 2 n)) as [|a [|b [|c k]]]; try done. cbn [app getnum].
  destruct (digit_value a) as [x|]; [|done]. destruct (digit_value b) as [y|]; [|done].
  apply Z.eqb_eq in H. by subst.
Qed.
Lemma parse_year_four n l : 0 <= n < 10000 -> parse_year (to_bytes (zero_padded 4 n) ++ l) = Some (n, l).
Proof.
  intros Hn. pose proof (all_below_spec _ _ _ four_checked n ltac:(lia)) as H. unfold four_ok in H.
  set (k := to_bytes (zero_padded 4 n)) in *. apply andb_true_iff in H as [H Hv]. apply andb_true_iff in H as [Hl Hd].
  apply Nat.eqb_eq in Hl. apply Z.eqb_eq in Hv. unfold parse_year.
  rewrite (take_app_le k l 4), (drop_app_le k l 4), (firstn_all2 k), (skipn_all2 k) by lia. rewrite Hd, Hv, length_app, Hl. done.
Qed.

(** The digits of a numeral. *)
Lemma digits_value_snoc l a : digits_value (l ++ [a]) = digits_value l * 10 + default 0 (digit_value a).
Proof. unfold digits_value. by rewrite foldl_app. Qed.
Lemma digits_value_zeros k l : digits_value (repeat (byte 48) k ++ l) = digits_value l.
Proof. by induction k as [|k IH]. Qed.
Lemma digits_value_parse l : forallb is_digit l = true -> parse_uint l 10 = digits_value l.
Proof.
  induction l as [|a l IH] using rev_ind; [done|]. rewrite forallb_app. intros H. apply andb_true_iff in H as [H Ha].
  rewrite parse_uint_snoc, digits_value_snoc, IH by done. f_equal. cbn [forallb] in Ha. rewrite andb_true_r in Ha.
  unfold digit_value. unfold is_digit in Ha. rewrite Ha. unfold PathIdentity.digit_value. rewrite Ha. done.
Qed.
Lemma pretty_go_length k x s : (x < 10 ^ N.of_nat k)%N -> (length (to_bytes (pretty_N_go x s)) <= k + length (to_bytes s))%nat.
Proof.
  revert x s. induction k as [|k IH]; intros x s Hx; (destruct (decide (x = 0%N)) as [->|Hne]; [rewrite pretty_N_go_0; lia|]).
  - simpl in Hx. lia.
  - rewrite pretty_N_go_step by lia. etransitivity; [apply IH|simpl; lia].
    apply N.Div0.div_lt_upper_bound. rewrite Nat2N.inj_succ, N.pow_succ_r' in Hx. lia.
Qed.
Lemma numeral_text (n : Z) : 0 <= n ->
  forallb is_digit (to_bytes (pretty n)) = true /\ digits_value (to_bytes (pretty n)) = n.
Proof.
  intros Hn. assert (exists m, n = Z.of_N m) as [m ->] by (exists (Z.to_N n); lia).
  assert (pretty (Z.of_N m) = pretty m) as -> by by destruct m.
  destruct (numeral m) as (ds & E & Hd & Hp & _). change (to_bytes (pretty m)) with (PathIdentity.bytes (pretty m)). rewrite E.
  split; [done|]. by rewrite <-digits_value_parse.
Qed.
Lemma pretty_length k (n : Z) : 0 <= n < 10 ^ Z.of_nat k -> (0 < k)%nat -> (length (to_bytes (pretty n)) <= k)%nat.
Proof.
  intros [Hn Hk] Hpos. assert (exists m, n = Z.of_N m) as [m ->] by (exists (Z.to_N n); lia).
  assert (pretty (Z.of_N m) = pretty m) as -> by by destruct m. unfold pretty, pretty_N. case_decide; [simpl; lia|].
  etransitivity; [apply (pretty_go_length k)|simpl; lia]. apply N2Z.inj_lt. by rewrite N2Z.inj_pow, nat_N_Z.
Qed.
Lemma padded_digits (width : nat) n : 0 <= n < 10 ^ Z.of_nat width -> (0 < width)%nat ->
  let l := to_bytes (zero_padded width n) in
  length l = width /\ forallb is_digit l = true /\ digits_value l = n.
Proof.
  intros Hn Hw. pose proof (pretty_length width n Hn Hw) as Hl. destruct (numeral_text n ltac:(lia)) as [Hd Hv].
  unfold zero_padded. rewrite String.list_ascii_of_string_of_list_ascii. remember (to_bytes (pretty n)) as ds eqn:Eds; clear Eds.
  split_and!.
  - rewrite length_app, repeat_length. lia.
  - rewrite forallb_app, Hd, andb_true_r. apply forallb_forall. intros a Ha. apply repeat_spec in Ha. by rewrite Ha.
  - by rewrite digits_value_zeros.
Qed.

(** Trailing zeros carry no value. *)
Lemma repeat_replicate {A} (x : A) k : repeat x k = replicate k x.
Proof. induction k as [|k IH]; [done|]. cbn. by rewrite IH. Qed.
Lemma dropped_zeros l : exists k, l = repeat (byte 48) k ++ drop_zeros_rev l.
Proof.
  induction l as [|a l [k IH]]; [by exists 0%nat|]. cbn [drop_zeros_rev]. case_bool_decide as H.
  - subst a. exists (S k). cbn [repeat app]. by rewrite <-IH.
  - by exists 0%nat.
Qed.
Lemma value_trailing l k : digits_value (l ++ repeat (byte 48) k) = digits_value l * 10 ^ Z.of_nat k.
Proof.
  induction k as [|k IH]; [by rewrite app_nil_r, Z.mul_1_r|].
  assert (repeat (byte 48) (S k) = repeat (byte 48) k ++ [byte 48]) as -> by (apply repeat_cons).
  rewrite app_assoc, digits_value_snoc, IH, Nat2Z.inj_succ, Z.pow_succ_r by lia. change (default 0 (digit_value (byte 48))) with 0. lia.
Qed.
Lemma take_digits_app l r : forallb is_digit l = true -> take_digits r = [] -> take_digits (l ++ r) = l.
Proof.
  intros Hl Hr. induction l as [|a l IH]; [done|]. cbn [forallb] in Hl. apply andb_true_iff in Hl as [Ha Hl].
  cbn [app take_digits]. by rewrite Ha, IH.
Qed.

Lemma parse_fraction_text n r : 0 <= n < second -> take_digits r = [] -> parse_fraction r = (0, r) ->
  parse_fraction (to_bytes (fraction_text n) ++ r) = (n, r).
Proof.
  intros Hn Hr Hz. destruct (padded_digits 9 n ltac:(unfold second in *; lia) ltac:(lia)) as (Hl & Hd & Hv).
  unfold fraction_text. set (l := to_bytes (zero_padded 9 n)) in *.
  destruct (dropped_zeros (reverse l)) as [k Hk]. set (z := drop_zeros_rev (reverse l)) in *.
  assert (l = reverse z ++ repeat (byte 48) k) as E.
  { rewrite <-(reverse_involutive l), Hk, reverse_app. f_equal. rewrite repeat_replicate. apply reverse_replicate. }
  clearbody l z. subst l. rewrite value_trailing in Hv. rewrite length_app, repeat_length in Hl. rewrite forallb_app in Hd.
  apply andb_true_iff in Hd as [Hd _]. destruct (reverse z) as [|a y] eqn:Ey.
  { cbn in Hv. subst n. done. }
  rewrite text_bytes_app, String.list_ascii_of_string_of_list_ascii. set (ds := a :: y) in *.
  change (to_bytes ".") with [byte 46]. cbn [app parse_fraction]. rewrite bool_decide_eq_true_2 by done. cbn [orb].
  rewrite take_digits_app by done. unfold ds at 1. fold ds.
  rewrite firstn_all2, drop_app_length by lia. f_equal. rewrite <-Hv. f_equal. f_equal. lia.
Qed.

Lemma utc_fields t : 0 <= t < 3652059 * 86400 * second ->
  let c := utc t in
  1 <= tm_year c <= 9999 /\ 1 <= tm_month c <= 12 /\ 1 <= tm_day c <= days_in (tm_month c) (tm_year c) /\
  0 <= tm_hour c < 24 /\ 0 <= tm_minute c < 60 /\ 0 <= tm_second c < 60 /\
  tm_nanosecond c = t mod second /\ tm_offset c = 0.
Proof.
  intros Ht. unfold utc. pose proof (civil_date (t / second / 86400)) as H.
  assert (0 <= t / second / 86400 < 3652059) as Hd.
  { split; [repeat apply Z.div_pos; unfold second; lia|]. repeat apply Z.div_lt_upper_bound; unfold second in *; lia. }
  assert (0 <= t / second / 86400 / 146097) as Hc by (apply Z.div_pos; lia).
  destruct (civil_of_days _) as [[y m] d]. cbn [tm_year tm_month tm_day tm_hour tm_minute tm_second tm_nanosecond tm_offset].
  destruct H as (Hy & Hm & Hday & _ & Hmax). specialize (Hmax ltac:(lia)).
  pose proof (Z.mod_pos_bound (t / second) 86400 ltac:(lia)) as Hs.
  pose proof (Z.mod_pos_bound (t / second mod 86400 / 60) 60 ltac:(lia)).
  pose proof (Z.mod_pos_bound (t / second mod 86400) 60 ltac:(lia)).
  split_and!; try lia; [apply Z.div_pos; lia|apply Z.div_lt_upper_bound; lia].
Qed.

Lemma skip_byte_cons c l : skip_byte c (byte c :: l) = Some l.
Proof. unfold skip_byte. by rewrite bool_decide_eq_true_2. Qed.
Lemma in_range_ok lo hi (r : Z * list ascii) : lo <= r.1 <= hi -> in_range lo hi r = Some r.
Proof. intros H. unfold in_range. rewrite (proj2 (Z.leb_le _ _)), (proj2 (Z.leb_le _ _)) by lia. done. Qed.
Lemma days_in_bound m y : days_in m y <= 31.
Proof. unfold days_in. destruct (_ && _)%bool; [lia|]. destruct (m =? 2); [lia|]. case_bool_decide; lia. Qed.

(** [time.Parse] reads back what [Time.Format] writes, for UTC times of the years 1
    to 9999. *)
Lemma format_parse t : 0 <= t < 3652059 * 86400 * second ->
  parse_rfc3339 (format_rfc3339_nano (utc t)) = Some (utc t).
Proof.
  intros Ht. pose proof (utc_fields t Ht) as H. cbv zeta in H. destruct (utc t) as [y m d h mi s ns off].
  cbn [tm_year tm_month tm_day tm_hour tm_minute tm_second tm_nanosecond tm_offset] in H.
  destruct H as (Hy & Hm & Hd & Hh & Hmi & Hs & Hns & ->). pose proof (days_in_bound m y).
  assert (0 <= ns < second) as Hn by (subst ns; apply Z.mod_pos_bound; unfold second; lia).
  unfold format_rfc3339_nano. cbn [tm_year tm_month tm_day tm_hour tm_minute tm_second tm_nanosecond tm_offset].
  unfold parse_rfc3339, parse_civil_date. rewrite !text_bytes_app.
  change (to_bytes "-") with [byte 45]. change (to_bytes "T") with [byte 84]. change (to_bytes ":") with [byte 58].
  change (to_bytes (zone_text 0)) with [byte 90]. cbn [app].
  rewrite parse_year_four by lia. cbn [mbind option_bind fst snd]. rewrite skip_byte_cons. cbn [mbind option_bind].
  rewrite getnum_two by lia. cbn [mbind option_bind]. rewrite in_range_ok by (simpl; lia). cbn [mbind option_bind fst snd].
  rewrite skip_byte_cons. cbn [mbind option_bind]. rewrite getnum_two by lia. cbn [mbind option_bind fst snd].
  rewrite (proj2 (Z.leb_le 1 d)), (proj2 (Z.leb_le d _)) by lia. cbn [andb mbind option_bind].
  rewrite skip_byte_cons. cbn [mbind option_bind]. rewrite getnum_two by lia. cbn [mbind option_bind].
  rewrite in_range_ok by (simpl; lia). cbn [mbind option_bind fst snd]. rewrite skip_byte_cons. cbn [mbind option_bind].
  rewrite getnum_two by lia. cbn [mbind option_bind]. rewrite in_range_ok by (simpl; lia). cbn [mbind option_bind fst snd].
  rewrite skip_byte_cons. cbn [mbind option_bind]. rewrite getnum_two by lia. cbn [mbind option_bind].
  rewrite in_range_ok by (simpl; lia). cbn [mbind option_bind fst snd].
  rewrite parse_fraction_text by done. reflexivity.
Qed.

Lemma whole_microseconds t : canonical_timestamp t = true -> t - t mod microsecond = t /\ 0 <= t < 3652059 * 86400 * second.
Proof. unfold canonical_timestamp. intros H. reflect. lia. Qed.
Lemma render_canonical t : canonical_timestamp t = true -> canonical_time (render t) = true.
Proof.
  intros H. destruct (whole_microseconds t H) as [E Ht]. unfold canonical_time, render. rewrite E, format_parse by done.
  pose proof (utc_fields t Ht) as F. cbv zeta in F. destruct F as (_ & _ & _ & _ & _ & _ & -> & ->).
  rewrite bool_decide_eq_true_2 by done. unfold canonical_timestamp in H. reflect. rewrite andb_true_r. apply Z.eqb_eq.
  unfold second, microsecond in *. rewrite <-Znumtheory.Zmod_div_mod; [done|lia|lia|]. by exists 1000000.
Qed.
(** Two revisions are written differently. *)
Lemma render_inj t u : canonical_timestamp t = true -> canonical_timestamp u = true -> render t = render u -> t = u.
Proof.
  intros Ht Hu H. destruct (whole_microseconds t Ht) as [Et Rt]. destruct (whole_microseconds u Hu) as [Eu Ru].
  unfold render in H. rewrite Et, Eu in H. apply (f_equal parse_rfc3339) in H. rewrite !format_parse in H by done.
  injection H as H. apply (f_equal instant) in H. by rewrite !instant_utc in H.
Qed.
