(* ===== verification/Scrum.v ===== *)
(** * Scrum cards: data and validation

    The card, its checklist items, its channel messages and the auto-work setting of its
    project, with the validators that every read and every write of
    [internal/queue/scrum_*.go] goes through, and the checklist as text
    ([internal/scrum/context.go]).  A [jsonb] column holds a [value]; the tables are in [ScrumBoard.v],
    the flow metrics in [ScrumFlow.v]. *)
From Stdlib Require Import Ascii.
From S2P Require Import Prelude Schema PathIdentity UserIntent JsonCodec.
From stdpp Require Import sorting base tactics strings list gmap numbers pretty.
From stdpp Require Import list options.
Open Scope Z_scope.
Open Scope go_scope.

(** [!utf8.ValidString(s) || strings.ContainsRune(s, '\x00')] *)
Definition bad_text (s : string) : bool := (negb (valid_utf8 s) || contains_nul s)%bool.
Definition trimmed (s : string) : bool := s == trim_space s.

(** ** Columns and play states *)

Definition ScrumCardBacklog : string := "backlog".
Definition ScrumCardReady : string := "ready".
Definition ScrumCardAssigned : string := "assigned".
Definition ScrumCardInProgress : string := "in_progress".
Definition ScrumCardReview : string := "review".
Definition ScrumCardBlocked : string := "blocked".
Definition ScrumCardError : string := "error".
Definition ScrumCardDone : string := "done".
Definition scrum_columns : list string :=
  [ScrumCardBacklog; ScrumCardReady; ScrumCardAssigned; ScrumCardInProgress; ScrumCardReview; ScrumCardBlocked;
   ScrumCardError; ScrumCardDone].

Definition ParseScrumCardColumn (value : string) : result string :=
  if bool_decide (value ∈ scrum_columns) then Ok value else Err "Scrum card column %q is not registered".

Definition play_states : list string := [""; "queued"; "running"; "paused"].
Definition validateStoredScrumPlayState (value : string) : result unit :=
  if bool_decide (value ∈ play_states) then Ok tt else Err "stored Scrum play state %q is not registered".

(** [strconv.ParseInt(value, 10, 64)] with its canonical spelling. *)
Definition parse_job_id (value : string) : option Z :=
  match atoi (bytes value) with
  | Some z => if ((0 <? z) && (itoa z == bytes value))%bool then Some z else None
  | None => None
  end.
Definition canonicalPositiveDecimal (value : string) : bool := bool_decide (is_Some (parse_job_id value)).
(** [strconv.FormatInt(id, 10)] *)
Definition job_text (id : Z) : string := of_bytes (itoa id).

(** ** Cards *)

Record DBScrumCard := mkCard {
  card_ID : string; card_ProjectID : Z; card_Title : string; card_Description : string; card_Column : string;
  card_Checklist : value; card_RefFiles : value; card_CardTicket : string; card_CardPrompt : string;
  card_Tags : value; card_TestCriteria : value; card_FlowMetrics : value;
  card_JobID : string; card_PlayState : string; card_QueueOrder : Z; card_BoardOrder : Z;
  card_ChannelMessageCount : Z; card_ChannelContentBytes : Z;
  card_CreatedAt : Z; card_UpdatedAt : Z
}.

(** Assignment to one field of a struct. *)
Class Setter {R T} (field : R -> T) := assign : (T -> T) -> R -> R.
Notation "x '<|' field ':=' v '|>'" := (assign (field := field) (fun _ => v) x)
  (at level 12, left associativity, v at level 99) : go_scope.
Ltac setter eta field :=
  match eval pattern field in eta with
  | ?update _ => exact (fun f x => update (fun y => f (field y)) x)
  end.
Ltac card_setter field :=
  let eta := constr:(fun c : DBScrumCard => mkCard (card_ID c) (card_ProjectID c) (card_Title c) (card_Description c)
    (card_Column c) (card_Checklist c) (card_RefFiles c) (card_CardTicket c) (card_CardPrompt c) (card_Tags c)
    (card_TestCriteria c) (card_FlowMetrics c) (card_JobID c) (card_PlayState c) (card_QueueOrder c) (card_BoardOrder c)
    (card_ChannelMessageCount c) (card_ChannelContentBytes c) (card_CreatedAt c) (card_UpdatedAt c)) in
  setter eta field.
#[export] Instance set_title : Setter card_Title := ltac:(card_setter card_Title).
#[export] Instance set_description : Setter card_Description := ltac:(card_setter card_Description).
#[export] Instance set_column : Setter card_Column := ltac:(card_setter card_Column).
#[export] Instance set_checklist : Setter card_Checklist := ltac:(card_setter card_Checklist).
#[export] Instance set_files : Setter card_RefFiles := ltac:(card_setter card_RefFiles).
#[export] Instance set_ticket : Setter card_CardTicket := ltac:(card_setter card_CardTicket).
#[export] Instance set_prompt : Setter card_CardPrompt := ltac:(card_setter card_CardPrompt).
#[export] Instance set_tags : Setter card_Tags := ltac:(card_setter card_Tags).
#[export] Instance set_criteria : Setter card_TestCriteria := ltac:(card_setter card_TestCriteria).
#[export] Instance set_metrics : Setter card_FlowMetrics := ltac:(card_setter card_FlowMetrics).
#[export] Instance set_job : Setter card_JobID := ltac:(card_setter card_JobID).
#[export] Instance set_play : Setter card_PlayState := ltac:(card_setter card_PlayState).
#[export] Instance set_queue : Setter card_QueueOrder := ltac:(card_setter card_QueueOrder).
#[export] Instance set_board : Setter card_BoardOrder := ltac:(card_setter card_BoardOrder).
#[export] Instance set_messages : Setter card_ChannelMessageCount := ltac:(card_setter card_ChannelMessageCount).
#[export] Instance set_bytes : Setter card_ChannelContentBytes := ltac:(card_setter card_ChannelContentBytes).
#[export] Instance set_updated : Setter card_UpdatedAt := ltac:(card_setter card_UpdatedAt).

Definition validateStoredScrumText (value : string) : result unit :=
  reject "stored Scrum %s must be valid UTF-8 without NUL" when bad_text value; Ok tt.

Definition validateStoredScrumCardIdentity (id : string) (projectID : Z) (title : string) : result unit :=
  reject "stored Scrum card requires a positive project and canonical bounded ID"
    when ((projectID <=? 0) || (id == "") || negb (trimmed id))%bool;
  check validateStoredScrumText id;
  check validateStoredScrumText title;
  reject "stored Scrum card title must not be blank" when blank title; Ok tt.

(** [json.Unmarshal] into [[]string]; [null] elements leave [""]. *)
Definition validateStoredScrumStringArray (raw : value) : result unit :=
  match slice_from_json (A := string) None raw with
  | Ok (Some values) => for_each validateStoredScrumText values
  | _ => Err "stored Scrum %s must be one string array"
  end.
Definition validateStoredScrumArray (strings_only : bool) (raw : value) : result unit :=
  match raw with
  | VArray values =>
      if strings_only then validateStoredScrumStringArray raw
      else for_each (fun item => match item with VObject _ => Ok tt | _ => Err "stored Scrum %s item %d must be one object" end) values
  | _ => Err "stored Scrum %s must be one JSON array"
  end.

(** ** Checklist items *)

Record ScrumCardItem := mkScrumItem { si_ID : string; si_Text : string; si_Done : bool }.
#[global] Instance ScrumCardItem_eq : EqDecision ScrumCardItem. Proof. solve_decision. Defined.
Definition scrum_item_fields : list (json_field ScrumCardItem) :=
  [plain "id" si_ID (fun x v => mkScrumItem v (si_Text x) (si_Done x));
   plain "text" si_Text (fun x v => mkScrumItem (si_ID x) v (si_Done x));
   plain "done" si_Done (fun x v => mkScrumItem (si_ID x) (si_Text x) v)].
#[global] Instance scrum_item_json : Json ScrumCardItem := {
  zero := mkScrumItem "" "" false; to_json x := VObject (struct_fields scrum_item_fields x);
  from_json := struct_decode scrum_item_fields }.
(** [json.Unmarshal] ignores the fields it does not know. *)
Definition lenient_decode {A} (fields : list (json_field A)) (x : A) (v : value) : result A :=
  match v with
  | VNull => Ok x
  | VObject fs => loop (fun x kv => match find_field fields kv.1 with Some f => jf_decode f x kv.2 | None => Ok x end) x fs
  | _ => mismatch
  end.

(** [exactjson.ValidateObject] for a struct of scalars and slices of scalars. *)
Definition validate_object {A} (fields : list (json_field A)) (v : value) : result unit :=
  match v with
  | VObject fs =>
      reject "JSON object contains duplicate key %q" when negb (bool_decide (NoDup fs.*1));
      reject "%s contains inexact or unknown field %q"
        when negb (forallb (fun kv => bool_decide (kv.1 ∈ (fun f => bytes (jf_name f)) <$> fields)) fs);
      Ok tt
  | _ => Err "%s must be one JSON object"
  end.

Definition item_unique (seen : gset string) (item : ScrumCardItem) : result (gset string) :=
  reject "item %d requires a non-blank id and text" when ((si_ID item == "") || (si_Text item == ""))%bool;
  reject "item %d contains noncanonical id or text" when (negb (trimmed (si_ID item)) || negb (trimmed (si_Text item)))%bool;
  reject "duplicate item id %q" when bool_decide (si_ID item ∈ seen);
  Ok ({[si_ID item]} ∪ seen).
Definition decodeCanonicalScrumCardItems (raw : value) : result (list ScrumCardItem) :=
  match raw with
  | VNull => Ok []
  | VArray entries =>
      let? items := collect (lenient_decode scrum_item_fields zero) entries in
      check loop item_unique ∅ items;
      Ok items
  | _ => mismatch
  end.

Record ScrumCardItemMutation := mkItemMutation {
  im_ProjectID : Z; im_CardID : string; im_ExpectedUpdatedAt : Z;
  im_Collection : string; im_Action : string; im_ItemID : string; im_Text : string; im_Done : option bool
}.
Definition validate_item_mutation (m : ScrumCardItemMutation) : result unit :=
  reject "Scrum card item mutation requires a project and card" when ((im_ProjectID m <=? 0) || (im_CardID m == ""))%bool;
  reject "Scrum card item mutation card ID must be canonical" when negb (trimmed (im_CardID m));
  reject "Scrum card item mutation item ID must be canonical" when negb (trimmed (im_ItemID m));
  reject "Scrum card item mutation text must be canonical" when negb (trimmed (im_Text m));
  reject "Scrum card item mutation requires an expected card revision" when (im_ExpectedUpdatedAt m =? 0);
  reject "unsupported Scrum card item collection %q" when ((im_Collection m != "checklist") && (im_Collection m != "test_criteria"))%bool;
  reject "Scrum card item text must be valid UTF-8 without NUL" when bad_text (im_Text m);
  if im_Action m == "add" then
    reject "add requires text and forbids item_id and done"
      when ((im_Text m == "") || (im_ItemID m != "") || (im_Done m != None))%bool; Ok tt
  else if im_Action m == "toggle" then
    reject "toggle requires item_id and done and forbids text"
      when ((im_ItemID m == "") || (im_Text m != "") || (im_Done m == None))%bool; Ok tt
  else if im_Action m == "remove" then
    reject "remove requires item_id and forbids text and done"
      when ((im_ItemID m == "") || (im_Text m != "") || (im_Done m != None))%bool; Ok tt
  else Err "unsupported Scrum card item action %q".

(** [hex.EncodeToString] *)
Definition hex_digit (n : N) : ascii := if (n <? 10)%N then byte (48 + n) else byte (87 + n).
Definition hex_text (l : list ascii) : string :=
  of_bytes (l ≫= fun a => [hex_digit (N_of_ascii a / 16); hex_digit (N_of_ascii a mod 16)]).

(** [identity]: the twelve bytes read from [crypto/rand], when it has them. *)
Definition applyScrumCardItemMutation (identity : option (list ascii)) (items : list ScrumCardItem)
    (m : ScrumCardItemMutation) : result (list ScrumCardItem) :=
  let position := fst <$> list_find (fun item => si_ID item = im_ItemID m) items in
  if im_Action m == "add" then
    match identity with
    | None => Err "generate Scrum card item identity: %w"
    | Some b => Ok (items ++ [mkScrumItem ("item_" +:+ hex_text b) (im_Text m) false])
    end
  else match position with
  | Some i =>
      if im_Action m == "toggle" then
        Ok (alter (fun item => mkScrumItem (si_ID item) (si_Text item) (default false (im_Done m))) i items)
      else if im_Action m == "remove" then Ok (take i items ++ drop (S i) items)
      else Err "Scrum card item was not found: %q"
  | None => Err "Scrum card item was not found: %q"
  end.

(** ** Channel messages *)

Record ScrumCardMessageAppend := mkAppend {
  ma_ID : string; ma_Role : string; ma_Content : string; ma_Status : string; ma_OperationID : string
}.
Definition id_byte (index : nat) (a : ascii) : bool :=
  (byte_in 65 90 a || byte_in 97 122 a || byte_in 48 57 a ||
   (Nat.ltb 0 index && bool_decide (a ∈ [byte 95; byte 46; byte 58; byte 45])))%bool.
Definition validScrumMessageID (value : string) : bool :=
  ((value != "") && forallb (fun '(index, a) => id_byte index a) (imap pair (bytes value)))%bool.
(** [^lifecycle_operation_[a-z0-9_]+$] *)
Definition ParseLifecycleOperationID (value : string) : result unit :=
  let prefix := bytes "lifecycle_operation_" in
  let rest := drop (length prefix) (bytes value) in
  if (starts_with prefix (bytes value) && negb (rest == []) &&
      forallb (fun a => byte_in 97 122 a || byte_in 48 57 a || (a == byte 95))%bool rest)%bool
  then Ok tt
  else Err "lifecycle operation ID requires lifecycle_operation_ plus 1..128 lowercase letters, digits, or underscores".
Definition message_roles : list string := ["user"; "assistant"; "system"; "error"; "tool"; "thinking"; "status"].
Definition message_statuses : list string := [""; "running"; "completed"; "failed"].
Definition normalizeScrumCardMessageAppend (m : ScrumCardMessageAppend) : result ScrumCardMessageAppend :=
  reject "Scrum message %s is not canonical"
    when (negb (trimmed (ma_ID m)) || negb (trimmed (ma_Role m)) || negb (trimmed (ma_Status m)) || negb (trimmed (ma_OperationID m)))%bool;
  reject "Scrum message ID %q is not canonical" when negb (validScrumMessageID (ma_ID m));
  reject "Scrum message role %q is not registered" when negb (bool_decide (ma_Role m ∈ message_roles));
  reject "Scrum message content must be valid UTF-8 without NUL" when bad_text (ma_Content m);
  reject "Scrum message content must contain 1..%d bytes" when (ma_Content m == "");
  reject "Scrum message status %q is not registered" when negb (bool_decide (ma_Status m ∈ message_statuses));
  check (if ma_OperationID m == "" then Ok tt else ParseLifecycleOperationID (ma_OperationID m));
  Ok m.
Definition NewScrumMessageID (identity : option (list ascii)) : result string :=
  match identity with
  | Some b => Ok ("chatmsg_" +:+ hex_text b)
  | None => Err "generate cryptographic Scrum message identity: %w"
  end.

(** ** Checklists in a job's instruction *)

Definition item_line (st : gset string * list string) (item : ScrumCardItem) : result (gset string * list string) :=
  reject "Scrum checklist item %d has a noncanonical ID"
    when (bad_text (si_ID item) || (si_ID item == "") || negb (trimmed (si_ID item)))%bool;
  reject "Scrum checklist item ID %q is duplicated" when bool_decide (si_ID item ∈ st.1);
  reject "Scrum checklist item %q has invalid text" when (bad_text (si_Text item) || blank (si_Text item))%bool;
  let state := if si_Done item then "[x]" else "[ ]" in
  Ok ({[si_ID item]} ∪ st.1, st.2 ++ [state +:+ " " +:+ si_Text item]).
Definition join_strings (sep : string) (l : list string) : string := of_bytes (join_with (bytes sep) (bytes <$> l)).
Definition newline : string := of_bytes [byte 10].
Definition FormatChecklist (items : list ScrumCardItem) : result string :=
  let? st := loop item_line (∅, []) items in Ok (join_strings newline st.2).
Definition AppendCardContextLines (lines : list string) (description : string) (checklist tests : list ScrumCardItem)
    : result (list string) :=
  let lines := if blank description then lines else lines ++ ["Description:"; description] in
  let? checklist := FormatChecklist checklist in
  let lines := if checklist == "" then lines else lines ++ ["Checklist:"; checklist] in
  let? tests := FormatChecklist tests in
  Ok (if tests == "" then lines else lines ++ ["Test criteria (must pass before done):"; tests]).
Definition decodeScrumPlayItems (raw : value) : result (list ScrumCardItem) :=
  match raw with
  | VArray entries =>
      collect (fun item => check validate_object scrum_item_fields item; from_json zero item) entries
  | _ => Err "Scrum %s must be one JSON array"
  end.

(** ** Auto-work *)

Record ScrumAutoWorkConfig := mkAutoWork { aw_Enabled : bool; aw_SourceColumns : slice string }.
Record exactScrumAutoWorkConfig := mkExactAutoWork { xw_Enabled : option bool; xw_SourceColumns : slice string }.
Definition exact_auto_work_fields : list (json_field exactScrumAutoWorkConfig) :=
  [plain "enabled" xw_Enabled (fun x v => mkExactAutoWork v (xw_SourceColumns x));
   sliced "source_columns" xw_SourceColumns (fun x v => mkExactAutoWork (xw_Enabled x) v)].
Definition auto_work_fields : list (json_field ScrumAutoWorkConfig) :=
  [plain "enabled" aw_Enabled (fun x v => mkAutoWork v (aw_SourceColumns x));
   sliced "source_columns" aw_SourceColumns (fun x v => mkAutoWork (aw_Enabled x) v)].
Definition DefaultScrumAutoWorkConfig : ScrumAutoWorkConfig := mkAutoWork false (Some ["assigned"]).

Definition source_columns : list string :=
  [ScrumCardBacklog; ScrumCardReady; ScrumCardAssigned; ScrumCardInProgress; ScrumCardBlocked].
Definition source_column (st : gset string * list string) (raw : string) : result (gset string * list string) :=
  let? column := ParseScrumCardColumn raw in
  reject "Scrum auto-work source column %q is not registered" when negb (bool_decide (column ∈ source_columns));
  reject "duplicate Scrum auto-work source column %q" when bool_decide (raw ∈ st.1);
  Ok ({[raw]} ∪ st.1, st.2 ++ [raw]).
Definition ValidateScrumAutoWorkConfig (config : ScrumAutoWorkConfig) : result ScrumAutoWorkConfig :=
  reject "Scrum auto-work requires at least one source column" when (elems (aw_SourceColumns config) == []);
  let? st := loop source_column (∅, []) (elems (aw_SourceColumns config)) in
  Ok (mkAutoWork (aw_Enabled config) (Some st.2)).

Definition auto_work_key : text := bytes "scrum_auto_work".
Definition DecodeScrumAutoWorkConfig (settings : value) : result ScrumAutoWorkConfig :=
  match settings with
  | VObject root =>
      reject "retired project setting %q has no compatibility path"
        when existsb (fun retired => bool_decide (field_get (bytes retired) root <> None)) ["scrum_auto_play_through"; "scrum_auto_review"];
      match field_get auto_work_key root with
      | None => Ok DefaultScrumAutoWorkConfig
      | Some VNull => Err "Scrum auto-work config must be an object"
      | Some raw =>
          check validate_object exact_auto_work_fields raw;
          let? stored := struct_decode exact_auto_work_fields (mkExactAutoWork None None) raw in
          match xw_Enabled stored, xw_SourceColumns stored with
          | None, _ => Err "stored Scrum auto-work enabled is required"
          | _, None => Err "stored Scrum auto-work source_columns is required"
          | Some enabled, Some columns => ValidateScrumAutoWorkConfig (mkAutoWork enabled (Some columns))
          end
      end
  | _ => Err "%s must be one JSON object"
  end.

Definition removedProjectSettingKeys : list string :=
  ["planning_chat"; "planning_chat_config"; "planning_draft_queue"; "scrum_auto_play_through"; "scrum_auto_review"; "agent_config"].

Section settings.
(** [modelconfig.FromSettingsJSON]: the model routing of a project. *)
Context (routing : value -> result unit).

Definition validateProjectSettings (settings : value) : result unit :=
  match settings with
  | VObject payload =>
      reject "project setting %q was removed and has no compatibility path"
        when existsb (fun key => bool_decide (field_get (bytes key) payload <> None)) removedProjectSettingKeys;
      match routing settings with Ok _ => Ok tt | Err _ => Err "project settings model routing: %w" end
  | _ => Err "project settings must be a JSON object"
  end.

Definition encodeScrumAutoWorkSettings (settings : value) (config : ScrumAutoWorkConfig) : result value :=
  check validateProjectSettings settings;
  let? validated := ValidateScrumAutoWorkConfig config in
  check DecodeScrumAutoWorkConfig settings;
  match settings with
  | VObject root =>
      let reencoded := VObject (field_set auto_work_key (VObject (struct_fields auto_work_fields validated)) root) in
      check validateProjectSettings reencoded;
      Ok reencoded
  | _ => Err "project settings must be a JSON object"
  end.
End settings.
