(* ===== verification/ScrumFlow.v ===== *)
(** * Flow metrics of a Scrum card

    The counters a card keeps about its way over the board, their JSON form, the
    deltas that advance them and the score they give
    ([internal/queue/scrum_flow_*.go], [scrum_channel_card_projection.go]), and the
    validator of a whole stored card, which binds the metrics to the card's revision
    ([scrum_card_state_validation.go]). *)
From Stdlib Require Import Ascii.
From S2P Require Import Prelude Schema PathIdentity UserIntent JsonCodec Timestamp Scrum.
From stdpp Require Import sorting base tactics strings list gmap numbers pretty.
From stdpp Require Import list options.
Open Scope Z_scope.
Open Scope go_scope.

Record ScrumFlowMetrics := mkMetrics {
  fm_AssignedReturns : Z; fm_ReviewBounces : Z; fm_RegressionCount : Z; fm_PlayRuns : Z;
  fm_ChannelMessages : Z; fm_ConversationChars : Z; fm_IncompleteScore : Z;
  fm_CompletionStatus : string; fm_Signals : slice string;
  fm_LastPlayOutcome : string; fm_Column : string; fm_UpdatedAt : string
}.
#[global] Instance ScrumFlowMetrics_eq : EqDecision ScrumFlowMetrics. Proof. solve_decision. Defined.
Ltac metrics_setter field :=
  let eta := constr:(fun m : ScrumFlowMetrics => mkMetrics (fm_AssignedReturns m) (fm_ReviewBounces m) (fm_RegressionCount m)
    (fm_PlayRuns m) (fm_ChannelMessages m) (fm_ConversationChars m) (fm_IncompleteScore m) (fm_CompletionStatus m)
    (fm_Signals m) (fm_LastPlayOutcome m) (fm_Column m) (fm_UpdatedAt m)) in
  setter eta field.
#[export] Instance set_returns : Setter fm_AssignedReturns := ltac:(metrics_setter fm_AssignedReturns).
#[export] Instance set_bounces : Setter fm_ReviewBounces := ltac:(metrics_setter fm_ReviewBounces).
#[export] Instance set_regressions : Setter fm_RegressionCount := ltac:(metrics_setter fm_RegressionCount).
#[export] Instance set_runs : Setter fm_PlayRuns := ltac:(metrics_setter fm_PlayRuns).
#[export] Instance set_message_count : Setter fm_ChannelMessages := ltac:(metrics_setter fm_ChannelMessages).
#[export] Instance set_chars : Setter fm_ConversationChars := ltac:(metrics_setter fm_ConversationChars).
#[export] Instance set_score : Setter fm_IncompleteScore := ltac:(metrics_setter fm_IncompleteScore).
#[export] Instance set_status : Setter fm_CompletionStatus := ltac:(metrics_setter fm_CompletionStatus).
#[export] Instance set_signals : Setter fm_Signals := ltac:(metrics_setter fm_Signals).
#[export] Instance set_outcome : Setter fm_LastPlayOutcome := ltac:(metrics_setter fm_LastPlayOutcome).
#[export] Instance set_metrics_column : Setter fm_Column := ltac:(metrics_setter fm_Column).
#[export] Instance set_metrics_time : Setter fm_UpdatedAt := ltac:(metrics_setter fm_UpdatedAt).

Definition no_metrics : ScrumFlowMetrics := mkMetrics 0 0 0 0 0 0 0 "" None "" "" "".
Definition scrum_flow_fields : list (json_field ScrumFlowMetrics) :=
  [plain "assigned_returns" fm_AssignedReturns (fun m v => m <| fm_AssignedReturns := v |>);
   plain "review_bounces" fm_ReviewBounces (fun m v => m <| fm_ReviewBounces := v |>);
   plain "regression_count" fm_RegressionCount (fun m v => m <| fm_RegressionCount := v |>);
   plain "play_runs" fm_PlayRuns (fun m v => m <| fm_PlayRuns := v |>);
   plain "channel_messages" fm_ChannelMessages (fun m v => m <| fm_ChannelMessages := v |>);
   plain "conversation_chars" fm_ConversationChars (fun m v => m <| fm_ConversationChars := v |>);
   plain "incomplete_score" fm_IncompleteScore (fun m v => m <| fm_IncompleteScore := v |>);
   plain "completion_status" fm_CompletionStatus (fun m v => m <| fm_CompletionStatus := v |>);
   sliced "signals" fm_Signals (fun m v => m <| fm_Signals := v |>);
   omitted (fun m => fm_LastPlayOutcome m == "") (plain "last_play_outcome" fm_LastPlayOutcome (fun m v => m <| fm_LastPlayOutcome := v |>));
   omitted (fun m => fm_Column m == "") (plain "column" fm_Column (fun m v => m <| fm_Column := v |>));
   omitted (fun m => fm_UpdatedAt m == "") (plain "updated_at" fm_UpdatedAt (fun m v => m <| fm_UpdatedAt := v |>))].
(** [json.Marshal] of the metrics. *)
Definition encode_metrics (m : ScrumFlowMetrics) : value := VObject (struct_fields scrum_flow_fields m).

(** ** Validation *)

Definition max_int32 : Z := 2147483647.
Definition maxScrumFlowWideCounter : Z := 9007199254740991.
Definition completion_statuses : list string := ["uncertain"; "likely_incomplete"; "likely_complete"].

Definition flow_signal (seen : gset string) (signal : string) : result (gset string) :=
  reject "Scrum flow signal %d is outside its registered text domain"
    when (bad_text signal || negb (trimmed signal) || (signal == ""))%bool;
  reject "Scrum flow signals contain duplicate %q" when bool_decide (signal ∈ seen);
  Ok ({[signal]} ∪ seen).
Definition validateScrumFlowMetrics (m : ScrumFlowMetrics) : result unit :=
  check for_each (fun z => reject "Scrum flow metric %s is outside its registered integer domain" when ((z <? 0) || (max_int32 <? z))%bool; Ok tt)
    [fm_AssignedReturns m; fm_ReviewBounces m; fm_RegressionCount m; fm_PlayRuns m; fm_IncompleteScore m];
  check for_each (fun z => reject "Scrum flow metric %s is outside exact transport authority" when ((z <? 0) || (maxScrumFlowWideCounter <? z))%bool; Ok tt)
    [fm_ChannelMessages m; fm_ConversationChars m];
  reject "Scrum flow completion status %q is not registered" when negb (bool_decide (fm_CompletionStatus m ∈ completion_statuses));
  check loop flow_signal ∅ (elems (fm_Signals m));
  reject "Scrum flow outcome %q is not registered"
    when ((fm_LastPlayOutcome m != "") && (fm_LastPlayOutcome m != "success") && (fm_LastPlayOutcome m != "failed"))%bool;
  check (if fm_Column m == "" then Ok "" else ParseScrumCardColumn (fm_Column m));
  reject "Scrum flow updated_at is not canonical UTC microsecond time"
    when ((fm_UpdatedAt m != "") && negb (canonical_time (fm_UpdatedAt m)))%bool;
  Ok tt.

Definition required_metrics : list string :=
  ["assigned_returns"; "review_bounces"; "regression_count"; "play_runs"; "channel_messages"; "conversation_chars";
   "incomplete_score"; "completion_status"; "signals"].
Definition optional_metrics : list string := ["last_play_outcome"; "column"; "updated_at"].
Definition require_metric (fs : fields_t) (name : string) : result unit :=
  match field_get (bytes name) fs with
  | None => Err "Scrum flow metrics requires exact field %s"
  | Some VNull => Err "Scrum flow metric %s must not be null"
  | Some _ => Ok tt
  end.
Definition nonempty_metric (fs : fields_t) (name : string) : result unit :=
  match field_get (bytes name) fs with
  | Some (VString []) => Err "Scrum flow metric %s must be absent instead of explicitly empty"
  | Some VNull => Err "Scrum flow metric %s must be absent instead of null"
  | _ => Ok tt
  end.
(** The metrics of a stored value, [None] for [{}]. *)
Definition canonicalScrumFlowMetrics (raw : value) : result (option ScrumFlowMetrics) :=
  check validate_object scrum_flow_fields raw;
  match raw with
  | VObject [] => Ok None
  | VObject fs =>
      check for_each (require_metric fs) required_metrics;
      check for_each (nonempty_metric fs) optional_metrics;
      let? metrics := struct_decode scrum_flow_fields no_metrics raw in
      reject "Scrum flow metrics signals must be one explicit array" when (fm_Signals metrics == None);
      check validateScrumFlowMetrics metrics;
      Ok (Some metrics)
  | _ => mismatch
  end.
(** Its canonical text, as a value. *)
Definition canonical_value (m : option ScrumFlowMetrics) : value :=
  match m with Some m => encode_metrics m | None => VObject [] end.

Definition canonicalScrumFlowMetricsForRevision (raw : value) (revision : Z) : result value :=
  let? canonical := canonicalScrumFlowMetrics raw in
  match canonical with
  | None => Ok (canonical_value None)
  | Some metrics =>
      reject "updated_at %q differs from card revision %q" when ((revision =? 0) || (fm_UpdatedAt metrics != render revision))%bool;
      Ok (canonical_value canonical)
  end.

(** ** The stored card *)

Definition validateStoredScrumCard (card : DBScrumCard) : result unit :=
  check validateStoredScrumCardIdentity (card_ID card) (card_ProjectID card) (card_Title card);
  check for_each validateStoredScrumText [card_Description card; card_CardTicket card; card_CardPrompt card; card_JobID card];
  check ParseScrumCardColumn (card_Column card);
  check validateStoredScrumPlayState (card_PlayState card);
  reject "Scrum card %q %s %q is not one canonical positive integer"
    when ((card_JobID card != "") && negb (canonicalPositiveDecimal (card_JobID card)))%bool;
  reject "Scrum card %q has a negative operational position" when ((card_QueueOrder card <? 0) || (card_BoardOrder card <? 0))%bool;
  reject "Scrum card %q channel counters are outside exact transport authority"
    when ((card_ChannelMessageCount card <? 0) || (maxScrumFlowWideCounter <? card_ChannelMessageCount card) ||
          (card_ChannelContentBytes card <? 0) || (maxScrumFlowWideCounter <? card_ChannelContentBytes card))%bool;
  check validateStoredScrumArray false (card_Checklist card);
  check validateStoredScrumArray true (card_RefFiles card);
  check validateStoredScrumArray true (card_Tags card);
  check validateStoredScrumArray false (card_TestCriteria card);
  check canonicalScrumFlowMetricsForRevision (card_FlowMetrics card) (card_UpdatedAt card);
  Ok tt.

(** ** Deltas *)

Inductive DeltaKind := ColumnMove | PlayStarted | PlayFinish.
#[global] Instance DeltaKind_eq : EqDecision DeltaKind. Proof. solve_decision. Defined.
Record ScrumFlowMetricDelta := mkDelta { dl_Kind : DeltaKind; dl_FromColumn : string; dl_ToColumn : string; dl_Outcome : string }.

Definition increment (z : Z) : result Z :=
  reject "Scrum flow metric %s cannot exceed %d" when (max_int32 <=? z); Ok (z + 1).
Definition scrumFlowColumnRank (column : string) : Z :=
  if column == "backlog" then 0 else if column == "ready" then 1 else if column == "assigned" then 2
  else if column == "in_progress" then 3 else if ((column == "review") || (column == "blocked"))%bool then 4
  else if column == "done" then 5 else -1.
Definition returned_to_assigned (from to : string) : bool :=
  ((to == "assigned") && bool_decide (from ∈ ["in_progress"; "review"; "blocked"; "done"]))%bool.
Definition bounced (from to : string) : bool := ((from == "review") && (to == "in_progress"))%bool.
Definition regressed (from to : string) : bool := scrumFlowColumnRank to <? scrumFlowColumnRank from.

Definition applyScrumFlowMetricDelta (m : ScrumFlowMetrics) (delta : ScrumFlowMetricDelta) : result ScrumFlowMetrics :=
  let from := dl_FromColumn delta in
  let to := dl_ToColumn delta in
  match dl_Kind delta with
  | ColumnMove =>
      check ParseScrumCardColumn from;
      check ParseScrumCardColumn to;
      reject "Scrum column metric delta requires distinct columns and no outcome" when ((from == to) || (dl_Outcome delta != ""))%bool;
      let? returns := (if returned_to_assigned from to then increment (fm_AssignedReturns m) else Ok (fm_AssignedReturns m)) in
      let? bounces := (if bounced from to then increment (fm_ReviewBounces m) else Ok (fm_ReviewBounces m)) in
      let? regressions := (if regressed from to then increment (fm_RegressionCount m) else Ok (fm_RegressionCount m)) in
      Ok (m <| fm_AssignedReturns := returns |> <| fm_ReviewBounces := bounces |> <| fm_RegressionCount := regressions |>)
  | PlayStarted =>
      reject "Scrum play-start metric delta contains unrelated state" when ((from != "") || (to != "") || (dl_Outcome delta != ""))%bool;
      let? runs := increment (fm_PlayRuns m) in
      Ok (m <| fm_PlayRuns := runs |>)
  | PlayFinish =>
      reject "Scrum play-finish metric delta requires one registered outcome"
        when ((from != "") || (to != "") || ((dl_Outcome delta != "success") && (dl_Outcome delta != "failed")))%bool;
      Ok (m <| fm_LastPlayOutcome := dl_Outcome delta |>)
  end.

(** ** The score *)

Definition scrumChecklistIncomplete (raw : value) : result bool :=
  match raw with
  | VArray entries =>
      (fix any (l : list value) : result bool :=
        match l with
        | [] => Ok false
        | item :: l =>
            check validate_object scrum_item_fields item;
            let? item := from_json (zero : ScrumCardItem) item in
            if si_Done item then any l else Ok true
        end) entries
  | _ => Err "decode Scrum checklist for flow metrics: %w"
  end.

Definition decimal (z : Z) : string := of_bytes (itoa z).
(** The signals that hold, in the order of the source, each with its weight. *)
Definition flow_signals (m : ScrumFlowMetrics) (checklistIncomplete : bool) : list (string * Z) :=
  let extra := fm_RegressionCount m - fm_AssignedReturns m - fm_ReviewBounces m in
  let when_ (b : bool) (signal : string) (weight : Z) := if b then [(signal, weight)] else [] in
  when_ (0 <? fm_AssignedReturns m) ("returned to assigned " +:+ decimal (fm_AssignedReturns m) +:+ " time(s) after review or later")
    (fm_AssignedReturns m * 25) ++
  when_ (0 <? fm_ReviewBounces m) ("bounced out of review " +:+ decimal (fm_ReviewBounces m) +:+ " time(s)") (fm_ReviewBounces m * 20) ++
  when_ (0 <? extra) (decimal extra +:+ " other column regression(s)") (extra * 10) ++
  when_ (2 <? fm_PlayRuns m) ("played " +:+ decimal (fm_PlayRuns m) +:+ " times") ((fm_PlayRuns m - 2) * 10) ++
  when_ ((30 <=? fm_ChannelMessages m) && (fm_Column m != "done"))%bool
    ("long conversation (" +:+ decimal (fm_ChannelMessages m) +:+ " messages) without reaching done") 15 ++
  when_ ((10000 <=? fm_ConversationChars m) && (fm_Column m != "done"))%bool
    ("heavy discussion (~" +:+ decimal (fm_ConversationChars m / 1000) +:+ "k chars) still open") 10 ++
  when_ (fm_Column m == "blocked") "currently blocked" 20 ++
  when_ (checklistIncomplete && ((fm_Column m == "review") || (fm_Column m == "done")))%bool "checklist still incomplete in review/done" 15 ++
  when_ (fm_LastPlayOutcome m == "failed") "last play outcome: failed" 15.
Definition add_signal (m : ScrumFlowMetrics) (signal : string * Z) : result ScrumFlowMetrics :=
  if signal.2 <=? 0 then Ok m else
  reject "Scrum flow incomplete score exceeds %d" when (max_int32 - fm_IncompleteScore m <? signal.2);
  Ok (m <| fm_IncompleteScore := fm_IncompleteScore m + signal.2 |> <| fm_Signals := Some (elems (fm_Signals m) ++ [signal.1]) |>).
Definition completion_of (m : ScrumFlowMetrics) : string :=
  if 50 <=? fm_IncompleteScore m then "likely_incomplete"
  else if ((fm_IncompleteScore m <=? 15) && (fm_Column m == "done") && (fm_AssignedReturns m =? 0))%bool then "likely_complete"
  else "uncertain".
Definition score (m : ScrumFlowMetrics) (checklistIncomplete : bool) : result ScrumFlowMetrics :=
  let? scored := loop add_signal m (flow_signals m checklistIncomplete) in
  Ok (scored <| fm_CompletionStatus := completion_of scored |>).

(** ** The next metrics of a card *)

Definition stored_metrics (stored : value) : result ScrumFlowMetrics :=
  match stored with
  | VObject [] => Ok (no_metrics <| fm_CompletionStatus := "uncertain" |> <| fm_Signals := Some [] |>)
  | _ =>
      check validate_object scrum_flow_fields stored;
      let? metrics := struct_decode scrum_flow_fields (no_metrics <| fm_CompletionStatus := "uncertain" |> <| fm_Signals := Some [] |>) stored in
      Ok (if fm_Signals metrics == None then metrics <| fm_Signals := Some [] |> else metrics)
  end.
(** What [updateScrumFlowMetricsTx] computes from the row it loads. *)
Definition next_flow_metrics (card : DBScrumCard) (deltas : list ScrumFlowMetricDelta) : result value :=
  let? metrics := stored_metrics (card_FlowMetrics card) in
  check validateScrumFlowMetrics metrics;
  let? metrics := loop applyScrumFlowMetricDelta metrics deltas in
  let? incomplete := scrumChecklistIncomplete (card_Checklist card) in
  let metrics := metrics <| fm_ChannelMessages := card_ChannelMessageCount card |> <| fm_ConversationChars := card_ChannelContentBytes card |>
    <| fm_Column := card_Column card |> <| fm_UpdatedAt := render (card_UpdatedAt card) |>
    <| fm_IncompleteScore := 0 |> <| fm_CompletionStatus := "uncertain" |> <| fm_Signals := Some [] |> in
  let? metrics := score metrics incomplete in
  let? canonical := canonicalScrumFlowMetrics (encode_metrics metrics) in
  Ok (canonical_value canonical).

(** The deltas of a change of column and play state. *)
Definition state_deltas (previous next : DBScrumCard) (outcome : string) : result (list ScrumFlowMetricDelta) :=
  reject "Scrum flow transition changed card identity"
    when ((card_ProjectID previous != card_ProjectID next) || (card_ID previous != card_ID next))%bool;
  let moved := if card_Column previous == card_Column next then []
               else [mkDelta ColumnMove (card_Column previous) (card_Column next) ""] in
  if card_PlayState previous == card_PlayState next then Ok moved
  else if card_PlayState next == "running" then Ok (moved ++ [mkDelta PlayStarted "" "" ""])
  else if ((card_PlayState next == "paused") || (card_PlayState next == "queued"))%bool then Ok moved
  else if ((card_PlayState previous == "running") && (card_PlayState next == "") && (outcome != ""))%bool
    then Ok (moved ++ [mkDelta PlayFinish "" "" outcome])
  else Err "Scrum flow transition %q to %q is not registered".
