(* ===== verification/ScrumBoard.v ===== *)
(** * The Scrum board: tables and transactions

    The tables [internal/queue/scrum_*.go] reads and writes, with the checks and
    triggers [database/setup.sql] puts on them; a transaction as a state-passing
    computation whose failure rolls everything back; and the statements every
    operation shares: lock and scan, field update, message append, metrics refresh. *)
From Stdlib Require Import Ascii.
From S2P Require Import Prelude Schema PathIdentity UserIntent JsonCodec Timestamp Scrum ScrumFlow.
From stdpp Require Import sorting base tactics strings list gmap numbers pretty.
From stdpp Require Import list options.
Open Scope Z_scope.
Open Scope go_scope.

(** ** Tables *)

Record ScrumJob := mkJob {
  job_ProjectID : Z;  (* COALESCE(project_id,0) *)
  job_Pipeline : string; job_Status : string; job_Instruction : string; job_Metadata : value
}.
Record StoredMessage := mkStored {
  sm_ProjectID : Z; sm_CardID : string; sm_Ordinal : Z; sm_Append : ScrumCardMessageAppend; sm_CreatedAt : Z
}.
Record Project := mkProject { pj_Settings : value; pj_UpdatedAt : Z; pj_LastSeenAt : Z }.
Record ScrumChannelOperationRequest := mkChannelRequest {
  cr_OperationID : string; cr_ProjectID : Z; cr_CardID : string; cr_Message : string
}.
#[global] Instance channel_request_eq : EqDecision ScrumChannelOperationRequest. Proof. solve_decision. Defined.
(** A row of [lifecycle_operation_registry]: the command of a Scrum channel message,
    or an identity reserved by another kind of operation. *)
Inductive Registered := ScrumChannelCommand (payload : ScrumChannelOperationRequest) | OtherCommand.
#[global] Instance Registered_eq : EqDecision Registered. Proof. solve_decision. Defined.
Record ChannelRow := mkChannelRow {
  co_ProjectID : Z; co_CardID : string; co_EffectKind : string; co_EffectOperationID : string; co_JobID : Z; co_Action : string
}.
(** The cards and the operations are kept under their primary keys. *)
Record Board := mkBoard {
  bd_projects : gmap Z Project;
  bd_cards : gmap string DBScrumCard;
  bd_messages : list StoredMessage;
  bd_jobs : gmap Z ScrumJob;
  bd_registry : gmap string Registered;
  bd_operations : gmap string ChannelRow
}.
Definition empty_board : Board := mkBoard ∅ ∅ [] ∅ ∅ ∅.
Definition with_cards (cards : gmap string DBScrumCard) (b : Board) : Board :=
  mkBoard (bd_projects b) cards (bd_messages b) (bd_jobs b) (bd_registry b) (bd_operations b).

(** What a transaction reads from outside: PostgreSQL's [NOW()] and clock, the bytes
    of [crypto/rand], the next value of the job sequence, the collation of text, the
    checks other components make before a job is canceled, the status they give a job
    that is replanned or fed and whether they record it, and the model routing and the
    coding configuration of jobs. *)
Record Env := mkEnv {
  env_now : Z;
  env_clock : nat -> string -> Z;
  env_entropy : nat -> option (list ascii);
  env_job : Z;
  env_cancel : Z -> ScrumJob -> result unit;
  env_control : string -> Z -> ScrumJob -> result string;
  env_recorded : string -> Z -> bool;
  env_collation : string -> string -> bool;
  env_routing : value -> result unit;
  env_snapshot : value -> result value;
  env_snapshot_valid : value -> result unit;
  env_coding : result value;
  env_coding_valid : value -> result unit
}.

(** ** Transactions *)

Record Tx := mkTx { tx_board : Board; tx_tick : nat; tx_draw : nat }.
Definition tx (A : Type) : Type := Tx -> result (A * Tx).
Definition ret {A} (x : A) : tx A := fun t => Ok (x, t).
Definition bind {A B} (c : tx A) (f : A -> tx B) : tx B :=
  fun t => match c t with Ok (x, t') => f x t' | Err e => Err e end.
Definition fail {A} (e : string) : tx A := fun _ => Err e.
Definition lift {A} (r : result A) : tx A := fun t => match r with Ok x => Ok (x, t) | Err e => Err e end.
Definition gets {A} (f : Board -> A) : tx A := fun t => Ok (f (tx_board t), t).
Definition put (f : Board -> Board) : tx unit := fun t => Ok (tt, mkTx (f (tx_board t)) (tx_tick t) (tx_draw t)).
Notation "'let*' x ':=' c 'in' k" := (bind c (fun x => k)) (at level 10, x name, c at level 100, k at level 200) : go_scope.
Notation "'exec' c ';' k" := (bind c (fun _ => k)) (at level 10, c at level 100, k at level 200) : go_scope.
(** [if b { return err }] *)
Notation "'abort' e 'if' b ';' k" := (if b then fail e else k) (at level 10, e at level 9, b at level 100, k at level 200) : go_scope.
Fixpoint each {A} (f : A -> tx unit) (l : list A) : tx unit :=
  match l with [] => ret tt | x :: l => exec f x; each f l end.

(** [BeginTx ... Commit], with the deferred rollback. *)
Definition transact {A} (c : tx A) (b : Board) : result A * Board :=
  match c (mkTx b 0 0) with Ok (x, t) => (Ok x, tx_board t) | Err e => (Err e, b) end.

Section board.
Context (env : Env).

(** [clock_timestamp()], read once per row of a statement. *)
Definition clock : tx (string -> Z) := fun t => Ok (env_clock env (tx_tick t), mkTx (tx_board t) (S (tx_tick t)) (tx_draw t)).
(** [GREATEST(clock_timestamp(), updated_at + interval '1 microsecond')] *)
Definition advance (reading : Z) (card : DBScrumCard) : Z := Z.max reading (card_UpdatedAt card + microsecond).
Definition entropy : tx (option (list ascii)) := fun t => Ok (env_entropy env (tx_draw t), mkTx (tx_board t) (tx_tick t) (S (tx_draw t))).

(** ** Statements *)

Definition int4 (z : Z) : bool := ((- 2147483648 <=? z) && (z <=? 2147483647))%bool.
(** The column types and the checks of [scrum_cards]. *)
Definition card_constraints (card : DBScrumCard) : bool :=
  (int4 (card_QueueOrder card) && int4 (card_BoardOrder card) &&
   bool_decide (card_PlayState card ∈ play_states) &&
   (0 <=? card_ChannelMessageCount card) && (card_ChannelMessageCount card <=? maxScrumFlowWideCounter) &&
   (0 <=? card_ChannelContentBytes card) && (card_ChannelContentBytes card <=? maxScrumFlowWideCounter) &&
   canonical_timestamp (card_CreatedAt card) && canonical_timestamp (card_UpdatedAt card))%bool.
Definition find_card (projectID : Z) (cardID : string) (b : Board) : option DBScrumCard :=
  match bd_cards b !! cardID with
  | Some card => if card_ProjectID card == projectID then Some card else None
  | None => None
  end.
Definition project_cards (projectID : Z) (b : Board) : list DBScrumCard :=
  filter (fun card => card_ProjectID card = projectID) (map_to_list (bd_cards b)).*2.
Definition put_card (card : DBScrumCard) : tx unit :=
  abort "scrum_cards check constraint" if negb (card_constraints card);
  put (fun b => with_cards (<[card_ID card := card]> (bd_cards b)) b).
(** [UPDATE scrum_cards SET ... WHERE project_id=$1 AND id=$2], with the rows it
    affected. *)
Definition update_card (projectID : Z) (cardID : string) (set : DBScrumCard -> DBScrumCard) : tx Z :=
  let* found := gets (find_card projectID cardID) in
  match found with
  | None => ret 0
  | Some card => exec put_card (set card); ret 1
  end.
(** [UPDATE scrum_cards SET ... WHERE p]: [set] yields the new row of the rows the
    condition selects. *)
Definition update_cards (set : DBScrumCard -> option DBScrumCard) : tx unit :=
  let* cards := gets bd_cards in
  let changed := omap set cards in
  abort "scrum_cards check constraint" if negb (bool_decide (map_Forall (fun _ card => card_constraints card = true) changed));
  put (fun b => with_cards (changed ∪ cards) b).

(** [SELECT ... WHERE project_id=$1 AND id=$2], scanned. *)
Definition scanDBScrumCard (card : DBScrumCard) : tx DBScrumCard := exec lift (validateStoredScrumCard card); ret card.
Definition select_card (missing : string) (projectID : Z) (cardID : string) : tx DBScrumCard :=
  let* found := gets (find_card projectID cardID) in
  match found with Some card => scanDBScrumCard card | None => fail missing end.
Definition lockScrumCardTx : Z -> string -> tx DBScrumCard := select_card "%w: Scrum card %q was not found in project %d".
Definition reload : Z -> string -> tx DBScrumCard := select_card "no rows in result set".

Definition lock_project (projectID : Z) : tx unit :=
  let* found := gets (fun b => bd_projects b !! projectID) in
  match found with Some _ => ret tt | None => fail "project not found" end.
Definition beginLockedProjectTx (projectID : Z) : tx unit :=
  abort "PostgreSQL, context, project, and operation are required for a locked project transaction" if projectID <=? 0;
  lock_project projectID.
(** [UPDATE projects SET last_seen_at=...,updated_at=...], with the rows affected. *)
Definition touch_project (projectID : Z) (seen updated : Z) : tx Z :=
  let* found := gets (fun b => bd_projects b !! projectID) in
  match found with
  | None => ret 0
  | Some p =>
      exec put (fun b => mkBoard (<[projectID := mkProject (pj_Settings p) updated seen]> (bd_projects b)) (bd_cards b)
        (bd_messages b) (bd_jobs b) (bd_registry b) (bd_operations b));
      ret 1
  end.
Definition touchScrumPlayProjectTx (projectID : Z) : tx unit :=
  let* now := clock in
  let* affected := touch_project projectID (now "") (now "") in
  abort "Scrum play project %d disappeared" if negb (affected =? 1); ret tt.
(** The same where the affected rows are not counted. *)
Definition touch_uncounted (projectID : Z) : tx unit :=
  let* now := clock in exec touch_project projectID (now "") (now ""); ret tt.

Definition updateScrumCardFieldsTx (card : DBScrumCard) : tx unit :=
  exec lift (validateStoredScrumCard card);
  let* affected := update_card (card_ProjectID card) (card_ID card) (fun row =>
    row <| card_Title := card_Title card |> <| card_Description := card_Description card |> <| card_Column := card_Column card |>
        <| card_Checklist := card_Checklist card |> <| card_RefFiles := card_RefFiles card |>
        <| card_CardTicket := card_CardTicket card |> <| card_CardPrompt := card_CardPrompt card |>
        <| card_Tags := card_Tags card |> <| card_TestCriteria := card_TestCriteria card |>
        <| card_JobID := card_JobID card |> <| card_PlayState := card_PlayState card |>
        <| card_QueueOrder := card_QueueOrder card |> <| card_BoardOrder := card_BoardOrder card |>
        <| card_UpdatedAt := env_now env |>) in
  abort "Scrum card mutation did not update exactly one card" if negb (affected =? 1); ret tt.

(** ** Messages *)

Definition message_of (projectID : Z) (cardID : string) (m : StoredMessage) : Prop :=
  sm_ProjectID m = projectID /\ sm_CardID m = cardID.
#[global] Instance message_of_dec projectID cardID m : Decision (message_of projectID cardID m).
Proof. unfold message_of. apply _. Defined.
(** The binding [own_scrum_card_message_insert] checks. *)
Definition bound_message (projectID : Z) (cardID : string) (m : ScrumCardMessageAppend) (b : Board) : bool :=
  if ma_OperationID m == "" then true else
  match bd_registry b !! ma_OperationID m with
  | Some (ScrumChannelCommand r) => ((cr_ProjectID r == projectID) && (cr_CardID r == cardID) && (cr_Message r == ma_Content m))%bool
  | _ => false
  end.
(** The unique indexes and checks of [scrum_card_messages]. *)
Definition message_allowed (projectID : Z) (cardID : string) (m : ScrumCardMessageAppend) (b : Board) : bool :=
  (((ma_OperationID m == "") || (ma_Role m == "user")) &&
   forallb (fun s => negb (bool_decide (message_of projectID cardID s) && (ma_ID (sm_Append s) == ma_ID m))) (bd_messages b) &&
   ((ma_OperationID m == "") || forallb (fun s => ma_OperationID (sm_Append s) != ma_OperationID m) (bd_messages b)))%bool.
Definition content_bytes (m : ScrumCardMessageAppend) : Z := Z.of_nat (String.length (ma_Content m)).
Definition store_message (m : StoredMessage) : tx unit :=
  put (fun b => mkBoard (bd_projects b) (bd_cards b) (bd_messages b ++ [m]) (bd_jobs b) (bd_registry b) (bd_operations b)).

(** The insert with its triggers [own_scrum_card_message_insert] and
    [apply_scrum_card_message_counters]. *)
Definition insertScrumCardMessageTx (projectID : Z) (cardID : string) (m : ScrumCardMessageAppend) : tx StoredMessage :=
  let* m := lift (normalizeScrumCardMessageAppend m) in
  let* found := gets (find_card projectID cardID) in
  match found with
  | None => fail "append Scrum card message %q: %w"
  | Some card =>
      let ordinal := card_ChannelMessageCount card + 1 in
      abort "append Scrum card message %q: %w" if maxScrumFlowWideCounter <? ordinal;
      let* bound := gets (bound_message projectID cardID m) in
      abort "append Scrum card message %q: %w" if negb bound;
      let* now := clock in
      let* allowed := gets (message_allowed projectID cardID m) in
      abort "append Scrum card message %q: %w" if (negb allowed || negb (canonical_timestamp (now "")))%bool;
      let stored := mkStored projectID cardID ordinal m (now "") in
      exec store_message stored;
      let* now := clock in
      exec update_card projectID cardID (fun row =>
        row <| card_ChannelMessageCount := ordinal |>
            <| card_ChannelContentBytes := card_ChannelContentBytes row + content_bytes m |>
            <| card_UpdatedAt := advance (now cardID) row |>);
      ret stored
  end.
Definition appendScrumPlayMessageTx (projectID : Z) (cardID role content : string) : tx unit :=
  let* identity := entropy in
  let* id := lift (NewScrumMessageID identity) in
  exec insertScrumCardMessageTx projectID cardID (mkAppend id role content "" "");
  ret tt.

(** ** Metrics *)

Definition updateScrumFlowMetricsTx (projectID : Z) (cardID : string) (deltas : list ScrumFlowMetricDelta) : tx unit :=
  let* found := gets (find_card projectID cardID) in
  match found with
  | None => fail "load Scrum card fields for flow metrics: %w"
  | Some card =>
      let* canonical := lift (next_flow_metrics card deltas) in
      let* affected := update_card projectID cardID (fun row => row <| card_FlowMetrics := canonical |>) in
      abort "persist atomic Scrum flow metrics: affected=%d, expected 1" if negb (affected =? 1); ret tt
  end.
Definition applyScrumFlowMetricDeltasTx (projectID : Z) (cardID : string) (deltas : list ScrumFlowMetricDelta) : tx unit :=
  abort "Scrum flow metrics require a transaction, project, and card" if ((projectID <=? 0) || (cardID == ""))%bool;
  updateScrumFlowMetricsTx projectID cardID deltas.
Definition refreshScrumFlowMetricsTx (projectID : Z) (cardID : string) : tx unit := updateScrumFlowMetricsTx projectID cardID [].
Definition applyScrumCardStateMetricsTx (previous next : DBScrumCard) (outcome : string) : tx unit :=
  let* deltas := lift (state_deltas previous next outcome) in
  applyScrumFlowMetricDeltasTx (card_ProjectID next) (card_ID next) deltas.

Definition revision_conflict : string := "%w: Scrum card %q changed; reload server state and retry".
End board.
