(* ===== verification/ScrumPlay.v ===== *)
(** * Playing Scrum cards

    A card is played by a job.  The metadata of the job ([internal/scrum/context.go]),
    the orders cards are selected in, starting, queueing and pausing a card
    ([scrum_card_play_transition.go], [scrum_play_authority.go]), the job it gets
    ([repository_scrum_enqueue.go]), what the end of the job does to the card
    ([scrum_job_terminal.go]), and the auto-work of a project
    ([scrum_project_auto_work.go], [scrum_auto_work_setting.go]). *)
From Stdlib Require Import Ascii.
From S2P Require Import Prelude Schema PathIdentity UserIntent JsonCodec Timestamp Scrum ScrumFlow ScrumBoard.
From stdpp Require Import sorting base tactics strings list gmap numbers pretty.
From stdpp Require Import list options.
Open Scope Z_scope.
Open Scope go_scope.

Definition PipelineScrum : string := "scrum".
Definition JobStatusPending : string := "pending".
Definition JobStatusRunning : string := "running".
Definition JobStatusWaiting : string := "waiting_input".
Definition JobStatusCompleted : string := "completed".
Definition JobStatusFailed : string := "failed".
Definition JobStatusCanceled : string := "canceled".
Definition terminalJobStatus (status : string) : bool :=
  ((status == JobStatusCanceled) || (status == JobStatusCompleted) || (status == JobStatusFailed))%bool.

(** ** Job metadata *)

Record JobMetadata := mkMetadata {
  jm_CardID : string; jm_CardTitle : string; jm_CardDescription : string; jm_Checklist : string; jm_TestCriteria : string;
  jm_ReturnColumn : string; jm_ChannelOrigin : bool; jm_ChannelOperationID : string;
  jm_ModelConfig : value; jm_CodingExecution : option value  (* None: no mode *)
}.
Definition canonicalLifecycleOperationID (id : string) : bool :=
  let prefix := bytes "lifecycle_operation_" in
  (Nat.eqb (String.length id) (length prefix + 64) && starts_with prefix (bytes id) &&
   forallb (fun a => byte_in 48 57 a || byte_in 97 102 a) (drop (length prefix) (bytes id)))%bool.
(** [json.Marshal] of the metadata. *)
Definition encode_metadata (m : JobMetadata) : value :=
  VObject [(bytes "coding_execution", default (VObject []) (jm_CodingExecution m)); (bytes "model_config", jm_ModelConfig m);
           (bytes "scrum_card_description", to_json (jm_CardDescription m)); (bytes "scrum_card_id", to_json (jm_CardID m));
           (bytes "scrum_card_title", to_json (jm_CardTitle m)); (bytes "scrum_channel_operation_id", to_json (jm_ChannelOperationID m));
           (bytes "scrum_channel_origin", to_json (jm_ChannelOrigin m)); (bytes "scrum_checklist", to_json (jm_Checklist m));
           (bytes "scrum_return_column", to_json (jm_ReturnColumn m)); (bytes "scrum_test_criteria", to_json (jm_TestCriteria m))].

(** [ORDER BY]: the first key that tells two rows apart decides. *)
Definition order_keys := list (DBScrumCard -> DBScrumCard -> comparison).
Definition ordered (keys : order_keys) (a b : DBScrumCard) : Prop :=
  fold_right (fun key rest => match key a b with Eq => rest | Lt => true | Gt => false end) true keys = true.
#[global] Instance ordered_dec keys : RelDecision (ordered keys).
Proof. intros a b. unfold ordered. apply _. Defined.
Definition asc (f : DBScrumCard -> Z) (a b : DBScrumCard) : comparison := Z.compare (f a) (f b).
Definition desc (f : DBScrumCard -> Z) (a b : DBScrumCard) : comparison := Z.compare (f b) (f a).
(** [array_position], whose [NULL] sorts last. *)
Definition array_position (columns : list string) (column : string) : Z :=
  match list_find (fun c => c = column) columns with Some (i, _) => Z.of_nat i | None => Z.of_nat (length columns) end.
Definition flag (b : bool) : Z := if b then 1 else 0.

Record ScrumCardPlayCommand := mkPlay { pc_ProjectID : Z; pc_CardID : string; pc_ExpectedUpdatedAt : Z; pc_Pivot : bool }.
Record ScrumCardPlayResult := mkPlayResult { pr_Card : DBScrumCard; pr_Job : option Z; pr_Action : string; pr_QueuePosition : Z }.
Record ProjectAutoWorkResult := mkAutoResult { ar_Config : ScrumAutoWorkConfig; ar_ActiveCard : option DBScrumCard; ar_JobID : Z; ar_PausedCards : Z }.

Section play.
Context (env : Env).

Definition by_id (a b : DBScrumCard) : comparison :=
  match env_collation env (card_ID a) (card_ID b), env_collation env (card_ID b) (card_ID a) with
  | true, false => Lt | false, true => Gt | _, _ => Eq
  end.
Definition select_cards (projectID : Z) (p : DBScrumCard -> bool) (keys : order_keys) : tx (list DBScrumCard) :=
  gets (fun b => merge_sort (ordered keys) (filter (fun card => p card = true) (project_cards projectID b))).
Definition in_state (state : string) (card : DBScrumCard) : bool := card_PlayState card == state.

(** ** Jobs *)

Definition validate_metadata (m : JobMetadata) : result unit :=
  reject "Scrum job metadata %s is outside the exact text bound"
    when existsb bad_text [jm_CardID m; jm_CardTitle m; jm_CardDescription m; jm_Checklist m; jm_TestCriteria m; jm_ReturnColumn m];
  reject "Scrum job requires one canonical card ID" when ((jm_CardID m == "") || negb (trimmed (jm_CardID m)))%bool;
  reject "Scrum job requires a nonblank card title" when blank (jm_CardTitle m);
  reject "Scrum return column %q is not registered" when ((jm_ReturnColumn m != "") && negb (bool_decide (jm_ReturnColumn m ∈ scrum_columns)))%bool;
  reject "Scrum channel operation ID is required for channel-origin jobs"
    when (jm_ChannelOrigin m && negb (canonicalLifecycleOperationID (jm_ChannelOperationID m)))%bool;
  reject "ordinary Scrum jobs forbid a channel operation ID" when (negb (jm_ChannelOrigin m) && (jm_ChannelOperationID m != ""))%bool;
  check env_snapshot_valid env (jm_ModelConfig m);
  match jm_CodingExecution m with None => Ok tt | Some c => env_coding_valid env c end.

Definition load_settings (projectID : Z) : tx value :=
  let* found := gets (fun b => bd_projects b !! projectID) in
  match found with Some p => ret (pj_Settings p) | None => fail "no rows in result set" end.

Definition scrumPlayAuthorityTx (card : DBScrumCard) : tx (JobMetadata * string) :=
  let* settings := load_settings (card_ProjectID card) in
  let* snapshot := lift (env_snapshot env settings) in
  let* checklist := lift (decodeScrumPlayItems (card_Checklist card)) in
  let* tests := lift (decodeScrumPlayItems (card_TestCriteria card)) in
  let* formattedChecklist := lift (FormatChecklist checklist) in
  let* formattedTests := lift (FormatChecklist tests) in
  let metadata := mkMetadata (card_ID card) (card_Title card) (card_Description card) formattedChecklist formattedTests "" false "" snapshot None in
  exec lift (validate_metadata metadata);
  let* lines := lift (AppendCardContextLines ["Scrum task execution for card: " +:+ card_Title card] (card_Description card) checklist tests) in
  let lines := lines ++ ["Omnidex owns completion from typed job and verification state."] in
  ret (metadata, join_strings (newline +:+ newline) lines).

Definition validateJobInstruction (instruction : string) : result unit :=
  reject "%w: must be valid UTF-8" when negb (valid_utf8 instruction);
  reject "%w: must not contain NUL" when contains_nul instruction;
  reject "%w: must contain non-whitespace user authority" when blank instruction;
  Ok tt.
Definition put_job (id : Z) (job : ScrumJob) : tx unit :=
  put (fun b => mkBoard (bd_projects b) (bd_cards b) (bd_messages b) (<[id := job]> (bd_jobs b)) (bd_registry b) (bd_operations b)).
(** The row of [jobs]; the generation and the steps are rows of other tables. *)
Definition enqueueJobWithStepsTx (instruction pipeline : string) (metadata : value) (projectID : Z) : tx Z :=
  exec lift (validateJobInstruction instruction);
  let* taken := gets (fun b => bool_decide (is_Some (bd_jobs b !! env_job env))) in
  abort "duplicate key value violates unique constraint" if taken;
  exec put_job (env_job env) (mkJob projectID pipeline JobStatusPending instruction metadata);
  ret (env_job env).
Definition enqueueScrumJobTx (instruction : string) (projectID : Z) (metadata : JobMetadata) : tx Z :=
  abort "Scrum job requires one authoritative project" if projectID <=? 0;
  let* configuration := lift (env_coding env) in
  let metadata := mkMetadata (jm_CardID metadata) (jm_CardTitle metadata) (jm_CardDescription metadata) (jm_Checklist metadata)
    (jm_TestCriteria metadata) (jm_ReturnColumn metadata) (jm_ChannelOrigin metadata) (jm_ChannelOperationID metadata)
    (jm_ModelConfig metadata) (Some configuration) in
  exec lift (validate_metadata metadata);
  enqueueJobWithStepsTx instruction PipelineScrum (encode_metadata metadata) projectID.

Definition find_job (jobID : Z) (missing : string) : tx ScrumJob :=
  let* found := gets (fun b => bd_jobs b !! jobID) in
  match found with Some job => ret job | None => fail missing end.
Definition with_status (status : string) (job : ScrumJob) : ScrumJob :=
  mkJob (job_ProjectID job) (job_Pipeline job) status (job_Instruction job) (job_Metadata job).
(** Under a fresh operation identity; [env_cancel] stands for the session context, the
    coding plan and the step attempts of the job. *)
Definition cancelJobTx (jobID : Z) : tx unit :=
  abort "cancel command requires a positive job ID" if jobID <=? 0;
  let* job := find_job jobID "no rows in result set" in
  abort "job is already %s" if ((job_Status job == JobStatusCompleted) || (job_Status job == JobStatusFailed))%bool;
  abort "%w: job %d is already canceled under a different lifecycle operation" if job_Status job == JobStatusCanceled;
  exec lift (env_cancel env jobID job);
  put_job jobID (with_status JobStatusCanceled job).

(** ** The end of a job *)

Definition terminalizeScrumJobCardTx (id : Z) (job : ScrumJob) (status : string) : tx unit :=
  if job_Pipeline job != PipelineScrum then ret tt else
  let* row := find_job id "load Scrum job project authority: %w" in
  let projectID := job_ProjectID row in
  abort "Scrum job %d has no project authority" if projectID <=? 0;
  let jobID := job_text id in
  let* rows := gets (fun b => filter (fun card => card_JobID card = jobID) (project_cards projectID b)) in
  match rows with
  | [] => fail "Scrum job %d has no owning card"
  | card :: more =>
      exec scanDBScrumCard card;
      abort "Scrum job %d is owned by multiple cards" if more != [];
      let* expected := (if status == JobStatusCompleted then ret ("review", "success")
        else if ((status == JobStatusFailed) || (status == JobStatusCanceled))%bool then ret ("error", "failed")
        else fail "Scrum job %d cannot project nonterminal status %q") in
      let '(expectedColumn, outcome) := expected in
      if ((card_PlayState card == "") && (card_Column card == expectedColumn) && (card_QueueOrder card =? 0) && (card_JobID card == jobID))%bool
      then ret tt else
      abort "Scrum job %d terminal state contradicts card %q state column=%q play=%q job=%q"
        if ((card_PlayState card != "running") || (card_Column card != "in_progress") || (card_JobID card != jobID))%bool;
      let next := card <| card_Column := expectedColumn |> <| card_PlayState := "" |> <| card_QueueOrder := 0 |> in
      let* now := clock env in
      let* affected := update_card projectID (card_ID card) (fun row =>
        row <| card_Column := expectedColumn |> <| card_PlayState := "" |> <| card_QueueOrder := 0 |>
            <| card_UpdatedAt := advance (now (card_ID card)) row |>) in
      abort "Scrum job %d lost card terminalization authority" if negb (affected =? 1);
      exec applyScrumCardStateMetricsTx card next outcome;
      touchScrumPlayProjectTx env projectID
  end.

Definition CancelJob (jobID : Z) : tx unit :=
  exec cancelJobTx jobID;
  let* job := find_job jobID "no rows in result set" in
  terminalizeScrumJobCardTx jobID job JobStatusCanceled.
(** The last step of a job completes, or a step fails: the job ends and its card with
    it. *)
Definition end_job (jobID : Z) (status : string) : tx unit :=
  let* job := find_job jobID "no rows in result set" in
  abort "job lost terminal authority" if negb (bool_decide (job_Status job ∈ [JobStatusPending; JobStatusRunning; JobStatusWaiting]));
  exec put_job jobID (with_status status job);
  terminalizeScrumJobCardTx jobID job status.
Definition complete_job (jobID : Z) : tx unit := end_job jobID JobStatusCompleted.
Definition fail_job (jobID : Z) : tx unit := end_job jobID JobStatusFailed.

(** ** Play and pause *)

Definition findRunningScrumCardTx (projectID : Z) : tx (option DBScrumCard) :=
  let* rows := select_cards projectID (in_state "running") [by_id] in
  match rows with
  | [] => ret None
  | card :: more =>
      exec scanDBScrumCard card;
      abort "Scrum project %d has multiple running cards" if more != [];
      ret (Some card)
  end.

Definition setScrumCardPausedTx (card : DBScrumCard) (note : string) : tx DBScrumCard :=
  let card := card <| card_Column := "assigned" |> <| card_PlayState := "paused" |> <| card_QueueOrder := 0 |> <| card_JobID := "" |> in
  exec updateScrumCardFieldsTx env card;
  exec appendScrumPlayMessageTx env (card_ProjectID card) (card_ID card) "system" note;
  ret card.
Definition pauseRunningScrumCardTx (card : DBScrumCard) : tx unit :=
  abort "running Scrum card has invalid job authority" if ((card_PlayState card != "running") || (card_JobID card == ""))%bool;
  match parse_job_id (card_JobID card) with
  | None => fail "running Scrum card %q has noncanonical job ID %q"
  | Some jobID =>
      let* identity := entropy env in
      abort "generate lifecycle operation identity: %w" if identity == None;
      exec cancelJobTx jobID;
      let* paused := setScrumCardPausedTx card "Play paused" in
      applyScrumCardStateMetricsTx card paused ""
  end.
(** A queued card is paused: it may not own a job. *)
Definition pause_queued (card : DBScrumCard) (note : string) : tx unit :=
  abort "queued Scrum card %q unexpectedly owns a job" if card_JobID card != "";
  let* paused := setScrumCardPausedTx card note in
  applyScrumCardStateMetricsTx card paused "".

(** [COALESCE(MAX(column),empty)] *)
Definition max_order (empty : Z) (orders : list Z) : Z :=
  match orders with [] => empty | z :: orders => foldr Z.max z orders end.
(** [COALESCE(MAX(queue_order) FILTER (WHERE play_state='queued'),0)+1] and the number
    of queued cards plus one. *)
Definition queue_end (projectID : Z) (b : Board) : Z * Z :=
  let queued := filter (fun card => card_PlayState card = "queued") (project_cards projectID b) in
  (max_order 0 (card_QueueOrder <$> queued) + 1, Z.of_nat (length queued) + 1).
Definition queueScrumCardPlayTx (card : DBScrumCard) : tx ScrumCardPlayResult :=
  if card_PlayState card == "queued" then ret (mkPlayResult card None "already_queued" 0) else
  let* position := gets (queue_end (card_ProjectID card)) in
  abort "integer out of range" if negb (int4 position.1);
  let queued := card <| card_Column := "assigned" |> <| card_PlayState := "queued" |> <| card_QueueOrder := position.1 |> in
  exec updateScrumCardFieldsTx env queued;
  exec appendScrumPlayMessageTx env (card_ProjectID card) (card_ID card) "system"
    ("Queued for play (#" +:+ decimal position.1 +:+ " in assigned column)");
  exec applyScrumCardStateMetricsTx card queued "";
  let* updated := reload (card_ProjectID card) (card_ID card) in
  exec touchScrumPlayProjectTx env (card_ProjectID card);
  ret (mkPlayResult updated None "queued" position.2).

Definition playable_columns : list string := ["ready"; "assigned"; "in_progress"; "review"].
Definition prepareScrumCardPlayTx (card : DBScrumCard) : tx ScrumCardPlayResult :=
  abort "Scrum card %q column %q is not playable" if negb (bool_decide (card_Column card ∈ playable_columns));
  let* authority := scrumPlayAuthorityTx card in
  let '(metadata, instruction) := authority in
  let* job := enqueueScrumJobTx instruction (card_ProjectID card) metadata in
  let started := card <| card_Column := "in_progress" |> <| card_PlayState := "running" |> <| card_QueueOrder := 0 |>
                      <| card_JobID := job_text job |> in
  exec updateScrumCardFieldsTx env started;
  exec appendScrumPlayMessageTx env (card_ProjectID card) (card_ID card) "system" ("Job #" +:+ decimal job +:+ " queued");
  exec appendScrumPlayMessageTx env (card_ProjectID card) (card_ID card) "user" instruction;
  exec applyScrumCardStateMetricsTx card started "";
  let* updated := reload (card_ProjectID card) (card_ID card) in
  ret (mkPlayResult updated (Some job) "started" 0).

Definition ApplyScrumCardPlay (command : ScrumCardPlayCommand) : tx ScrumCardPlayResult :=
  abort "PostgreSQL, context, and project are required for Scrum play" if pc_ProjectID command <=? 0;
  abort "Scrum play requires one canonical card ID" if ((pc_CardID command == "") || negb (trimmed (pc_CardID command)))%bool;
  abort "Scrum play requires the observed card revision" if pc_ExpectedUpdatedAt command =? 0;
  exec beginLockedProjectTx (pc_ProjectID command);
  let* card := lockScrumCardTx (pc_ProjectID command) (pc_CardID command) in
  abort revision_conflict if negb (card_UpdatedAt card =? pc_ExpectedUpdatedAt command);
  let* found := findRunningScrumCardTx (pc_ProjectID command) in
  match found with
  | Some running =>
      if card_ID running == card_ID card then
        if (pc_Pivot command || (card_PlayState card == "running"))%bool then ret (mkPlayResult card None "already_running" 0)
        else fail "Scrum card %q has contradictory running selection"
      else if pc_Pivot command then exec pauseRunningScrumCardTx running; prepareScrumCardPlayTx card
      else queueScrumCardPlayTx card
  | None => prepareScrumCardPlayTx card
  end.

Definition PauseScrumCardPlayAtRevision (projectID : Z) (cardID : string) (expectedUpdatedAt : Z) : tx DBScrumCard :=
  abort "PostgreSQL, context, project, canonical card, and revision are required to pause Scrum play"
    if ((projectID <=? 0) || (cardID == "") || negb (trimmed cardID) || (expectedUpdatedAt =? 0))%bool;
  exec beginLockedProjectTx projectID;
  let* card := lockScrumCardTx projectID cardID in
  abort revision_conflict if negb (card_UpdatedAt card =? expectedUpdatedAt);
  abort "only active Scrum cards can be paused" if ((card_PlayState card != "running") && (card_PlayState card != "queued"))%bool;
  exec (if card_PlayState card == "running" then pauseRunningScrumCardTx card else pause_queued card "Play paused");
  let* updated := reload projectID cardID in
  exec touchScrumPlayProjectTx env projectID;
  ret updated.

(** ** Auto-work *)

Definition write_settings (projectID : Z) (settings : value) (now : Z) : tx Z :=
  let* found := gets (fun b => bd_projects b !! projectID) in
  match found with
  | None => ret 0
  | Some _ =>
      exec put (fun b => mkBoard (<[projectID := mkProject settings now now]> (bd_projects b)) (bd_cards b) (bd_messages b)
        (bd_jobs b) (bd_registry b) (bd_operations b));
      ret 1
  end.
Definition SetScrumAutoWorkConfig (projectID : Z) (config : ScrumAutoWorkConfig) : tx ScrumAutoWorkConfig :=
  abort "PostgreSQL, context, and project are required for Scrum auto-work config" if projectID <=? 0;
  exec beginLockedProjectTx projectID;
  let* settings := load_settings projectID in
  let* encoded := lift (encodeScrumAutoWorkSettings (env_routing env) settings config) in
  let* now := clock env in
  let* affected := write_settings projectID encoded (now "") in
  abort "project not found" if negb (affected =? 1);
  lift (ValidateScrumAutoWorkConfig config).

Definition auto_work_order (columns : list string) : order_keys :=
  [asc (fun c => flag (negb (in_state "queued" c))); asc card_QueueOrder; asc (fun c => array_position columns (card_Column c));
   asc card_BoardOrder; asc card_UpdatedAt; by_id].
Definition auto_work_candidate (columns : list string) (card : DBScrumCard) : bool :=
  (in_state "queued" card ||
   (negb (in_state "running" card || in_state "queued" card) && bool_decide (card_Column card ∈ columns)))%bool.
Definition findProjectAutoWorkCardTx (projectID : Z) (columns : list string) : tx (option DBScrumCard) :=
  let* rows := select_cards projectID (auto_work_candidate columns) (auto_work_order columns) in
  match rows with
  | [] => ret None
  | card :: _ => exec scanDBScrumCard card; ret (Some card)
  end.

Definition startProjectAutoWorkTx (projectID : Z) (config : ScrumAutoWorkConfig) : tx ProjectAutoWorkResult :=
  let* found := findRunningScrumCardTx projectID in
  match found with
  | Some running =>
      abort "running Scrum card %q has invalid job authority" if card_JobID running == "";
      match parse_job_id (card_JobID running) with
      | None => fail "running Scrum card %q has noncanonical job ID %q"
      | Some jobID => ret (mkAutoResult config (Some running) jobID 0)
      end
  | None =>
      let* found := findProjectAutoWorkCardTx projectID (elems (aw_SourceColumns config)) in
      match found with
      | None => ret (mkAutoResult config None 0 0)
      | Some card =>
          let* play := prepareScrumCardPlayTx card in
          ret (mkAutoResult config (Some (pr_Card play)) (default 0 (pr_Job play)) 0)
      end
  end.

Definition pause_order : order_keys := [asc (fun c => flag (negb (in_state "running" c))); asc card_QueueOrder; by_id].
Definition pauseProjectAutoWorkTx (projectID : Z) (config : ScrumAutoWorkConfig) : tx ProjectAutoWorkResult :=
  let* cards := select_cards projectID (fun c => in_state "running" c || in_state "queued" c)%bool pause_order in
  exec each (fun card => exec scanDBScrumCard card; ret tt) cards;
  abort "Scrum project %d has %d running cards" if Nat.ltb 1 (length (filter (fun c => card_PlayState c = "running") cards));
  exec each (fun card => if card_PlayState card == "running" then pauseRunningScrumCardTx card
                         else pause_queued card "Project auto-work paused") cards;
  ret (mkAutoResult config None 0 (Z.of_nat (length cards))).

Definition ApplyProjectAutoWork (projectID : Z) (action : string) : tx ProjectAutoWorkResult :=
  abort "PostgreSQL, context, and project are required for project auto-work" if projectID <=? 0;
  abort "project auto-work action %q is not registered" if ((action != "play") && (action != "pause"))%bool;
  exec beginLockedProjectTx projectID;
  let* settings := load_settings projectID in
  exec lift (validateProjectSettings (env_routing env) settings);
  let* config := lift (DecodeScrumAutoWorkConfig settings) in
  let config := mkAutoWork (action == "play") (aw_SourceColumns config) in
  let* encoded := lift (encodeScrumAutoWorkSettings (env_routing env) settings config) in
  let* now := clock env in
  exec write_settings projectID encoded (now "");
  if action == "pause" then pauseProjectAutoWorkTx projectID config else startProjectAutoWorkTx projectID config.
End play.
