(* ===== verification/ScrumEdit.v ===== *)
(** * Editing the Scrum board

    Cards are created, edited, deleted and moved, their items and tickets changed, and
    their state reconciled with the runtime: [scrum_card_record.go],
    [scrum_card_revision_mutation.go], [scrum_card_item_mutation.go],
    [scrum_card_ticket.go], [scrum_card_placement.go], [scrum_card_reconcile.go]. *)
From Stdlib Require Import Ascii.
From S2P Require Import Prelude Schema PathIdentity UserIntent JsonCodec Timestamp Scrum ScrumFlow ScrumBoard ScrumPlay.
From stdpp Require Import sorting base tactics strings list gmap numbers pretty.
From stdpp Require Import list options.
Open Scope Z_scope.
Open Scope go_scope.

(** A [json.RawMessage] a caller passes: empty, not JSON, or the text of a value. *)
Inductive Raw := RawEmpty | RawInvalid | RawValue (v : value).

Record ScrumCardRevisionPatch := mkCardPatch {
  pp_Title : option string; pp_Description : option string; pp_RefFiles : option (slice string);
  pp_CardTicket : option string; pp_CardPrompt : option string; pp_Tags : option (slice string)
}.
Definition validate_patch (patch : ScrumCardRevisionPatch) : result unit :=
  reject "revision-bound Scrum edit requires at least one editable field"
    when ((pp_Title patch == None) && (pp_Description patch == None) && (pp_RefFiles patch == None) &&
          (pp_CardTicket patch == None) && (pp_CardPrompt patch == None) && (pp_Tags patch == None))%bool;
  reject "revision-bound Scrum %s must be valid UTF-8 without NUL"
    when existsb (fun v => match v with Some s => bad_text s | None => false end)
      [pp_Title patch; pp_Description patch; pp_CardTicket patch; pp_CardPrompt patch];
  reject "revision-bound Scrum title must not be blank" when (match pp_Title patch with Some s => blank s | None => false end);
  reject "revision-bound Scrum %s %d must be valid UTF-8 without NUL"
    when existsb (fun v => match v with Some l => existsb bad_text (elems l) | None => false end) [pp_RefFiles patch; pp_Tags patch];
  Ok tt.
Definition applyTo (patch : ScrumCardRevisionPatch) (card : DBScrumCard) : DBScrumCard :=
  card <| card_Title := default (card_Title card) (pp_Title patch) |>
       <| card_Description := default (card_Description card) (pp_Description patch) |>
       <| card_CardTicket := default (card_CardTicket card) (pp_CardTicket patch) |>
       <| card_CardPrompt := default (card_CardPrompt card) (pp_CardPrompt patch) |>
       <| card_RefFiles := match pp_RefFiles patch with Some l => slice_to_json l | None => card_RefFiles card end |>
       <| card_Tags := match pp_Tags patch with Some l => slice_to_json l | None => card_Tags card end |>.

Record ScrumCardTicketMutation := mkTicket { tk_ProjectID : Z; tk_CardID : string; tk_ExpectedUpdatedAt : Z; tk_Ticket : string; tk_Elaboration : string }.
(** It trims the card's ID in place. *)
Definition validate_ticket (m : ScrumCardTicketMutation) : result ScrumCardTicketMutation :=
  reject "Scrum card ticket mutation requires a project and card" when ((tk_ProjectID m <=? 0) || blank (tk_CardID m))%bool;
  reject "Scrum card ticket mutation requires an expected card revision" when (tk_ExpectedUpdatedAt m =? 0);
  reject "Scrum card ticket mutation requires a non-blank ticket" when blank (tk_Ticket m);
  reject "Scrum card ticket %s must be valid UTF-8 without NUL" when (bad_text (tk_Ticket m) || bad_text (tk_Elaboration m))%bool;
  Ok (mkTicket (tk_ProjectID m) (trim_space (tk_CardID m)) (tk_ExpectedUpdatedAt m) (tk_Ticket m) (tk_Elaboration m)).

Record ScrumCardMove := mkMove { mv_ProjectID : Z; mv_CardID : string; mv_Column : string; mv_BeforeCardID : string; mv_ExpectedUpdatedAt : Z }.

Inductive ReconcileKind := JobProgress | AutoWorkReady | AutoWorkFailed.
#[global] Instance ReconcileKind_eq : EqDecision ReconcileKind. Proof. solve_decision. Defined.
Record ScrumCardReconcileCommand := mkReconcile {
  rc_ProjectID : Z; rc_CardID : string; rc_ExpectedUpdatedAt : Z; rc_ExpectedJobID : string; rc_Kind : ReconcileKind;
  rc_Column : string; rc_PlayState : string; rc_QueueOrder : Z; rc_JobID : string;
  rc_Messages : list ScrumCardMessageAppend; rc_Outcome : string
}.
Definition validateScrumCardReconcileCommand (c : ScrumCardReconcileCommand) : result unit :=
  check ParseScrumCardColumn (rc_Column c);
  reject "Scrum reconciliation %s is not canonical"
    when (negb (trimmed (rc_PlayState c)) || negb (trimmed (rc_JobID c)) || negb (trimmed (rc_ExpectedJobID c)) || negb (trimmed (rc_Outcome c)))%bool;
  reject "Scrum reconciliation queue order must be non-negative" when (rc_QueueOrder c <? 0);
  reject "Scrum reconciliation job ID %q is not canonical"
    when existsb (fun id => (id != "") && negb (canonicalPositiveDecimal id))%bool [rc_ExpectedJobID c; rc_JobID c];
  for_each (fun m => check normalizeScrumCardMessageAppend m; Ok tt) (rc_Messages c).
Definition validateScrumReconcileTransition (current : DBScrumCard) (c : ScrumCardReconcileCommand) : result unit :=
  reject "Scrum reconciliation may not replace card job identity" when (rc_JobID c != card_JobID current);
  check (if rc_PlayState c == "" then
      reject "inactive Scrum reconciliation requires zero queue order" when (rc_QueueOrder c != 0); Ok tt
    else if rc_PlayState c == "running" then
      reject "running Scrum reconciliation requires one exact job and zero queue order" when ((rc_QueueOrder c != 0) || (rc_JobID c == ""))%bool; Ok tt
    else if rc_PlayState c == "paused" then
      reject "paused Scrum reconciliation may not retain job authority" when ((rc_QueueOrder c != 0) || (rc_JobID c != ""))%bool; Ok tt
    else if rc_PlayState c == "queued" then Err "queued Scrum state is owned only by the play transaction"
    else Err "Scrum reconciliation play state %q is not registered");
  match rc_Kind c with
  | JobProgress =>
      reject "job-progress reconciliation may only append typed output rows"
        when ((rc_Outcome c != "") || (card_JobID current == "") || (rc_Column c != card_Column current) || (rc_PlayState c != card_PlayState current))%bool; Ok tt
  | AutoWorkReady =>
      reject "auto-work preparation has invalid Scrum transition authority"
        when ((rc_Outcome c != "") || (card_JobID current != "") || (rc_JobID c != "") || (rc_Column c != card_Column current) ||
              ((card_PlayState current != "") && (card_PlayState current != "paused")) || (rc_PlayState c != ""))%bool; Ok tt
  | AutoWorkFailed =>
      reject "auto-work failure has invalid Scrum transition authority"
        when ((rc_Outcome c != "") || (card_JobID current != "") || (rc_JobID c != "") || (rc_Column c != ScrumCardError) || (rc_PlayState c != ""))%bool; Ok tt
  end.

Section edit.
Context (env : Env).

(** ** Creation, edit and deletion *)

Definition raw_array (strings_only : bool) (raw : Raw) : result value :=
  match raw with
  | RawEmpty => Ok (VArray [])
  | RawInvalid => Err "stored Scrum %s must be one JSON array"
  | RawValue v => check validateStoredScrumArray strings_only v; Ok v
  end.
Definition next_board_order (projectID : Z) (column : string) (b : Board) : Z :=
  max_order (-1) (card_BoardOrder <$> filter (fun card => card_Column card = column) (project_cards projectID b)) + 1.
(** [unix_nano]: the clock of the process, read when the caller names no card. *)
Definition CreateScrumCard (unix_nano projectID : Z) (cardID title description column : string) (checklist refFiles : Raw) : tx DBScrumCard :=
  let title := trim_space title in
  abort "title is required" if title == "";
  let cardID := if blank cardID then "card_" +:+ decimal unix_nano else cardID in
  exec lift (ParseScrumCardColumn column);
  abort "%s must be valid UTF-8 without NUL" if (bad_text title || bad_text description)%bool;
  let* checklist := lift (raw_array false checklist) in
  let* refFiles := lift (raw_array true refFiles) in
  exec beginLockedProjectTx projectID;
  let* order := gets (next_board_order projectID column) in
  let* taken := gets (fun b => bool_decide (is_Some (bd_cards b !! cardID))) in
  abort "duplicate key value violates unique constraint" if taken;
  let* operated := gets (fun b => bool_decide (map_Exists (fun _ o => co_ProjectID o = projectID /\ co_CardID o = cardID) (bd_operations b))) in
  abort "Scrum card identity %/% has an immutable operation receipt and cannot be reused" if operated;
  let card := mkCard cardID projectID title description column checklist refFiles "" "" (VArray []) (VArray []) (VObject []) "" "" 0 order 0 0
    (env_now env) (env_now env) in
  exec put_card card;
  exec scanDBScrumCard card;
  let* affected := touch_project projectID (env_now env) (env_now env) in
  abort "Scrum card creation project %d disappeared" if negb (affected =? 1);
  ret card.

Definition UpdateScrumCardAtRevision (projectID : Z) (cardID : string) (expectedUpdatedAt : Z) (patch : ScrumCardRevisionPatch) : tx DBScrumCard :=
  abort "revision-bound Scrum edit requires one canonical card ID" if ((cardID == "") || negb (trimmed cardID))%bool;
  abort "PostgreSQL, context, project, and card are required for revision-bound Scrum edit" if projectID <=? 0;
  abort "revision-bound Scrum edit requires an expected card revision" if expectedUpdatedAt =? 0;
  exec lift (validate_patch patch);
  exec beginLockedProjectTx projectID;
  let* current := lockScrumCardTx projectID cardID in
  abort revision_conflict if negb (card_UpdatedAt current =? expectedUpdatedAt);
  exec updateScrumCardFieldsTx env (applyTo patch current);
  let* now := clock env in
  exec update_card projectID cardID (fun row => row <| card_UpdatedAt := Z.max (now cardID) (expectedUpdatedAt + microsecond) |>);
  exec refreshScrumFlowMetricsTx projectID cardID;
  let* updated := reload projectID cardID in
  exec touch_uncounted env projectID;
  ret updated.

Definition requireInactiveScrumCardForDeleteTx (card : DBScrumCard) : tx unit :=
  abort "%w: card %q has play_state=%q; pause it before deletion" if ((card_PlayState card == "running") || (card_PlayState card == "queued"))%bool;
  if card_JobID card == "" then ret tt else
  match parse_job_id (card_JobID card) with
  | None => fail "%w: card %q has noncanonical job identity %q"
  | Some jobID =>
      let* job := find_job jobID "%w: load card %q job %d: %v" in
      abort "%w: card %q job %d is not its project-bound Scrum job"
        if ((job_ProjectID job != card_ProjectID card) || (job_Pipeline job != PipelineScrum))%bool;
      abort "%w: card %q job %d remains %q" if negb (terminalJobStatus (job_Status job)); ret tt
  end.
(** Deletion cascades to the messages of the card. *)
Definition remove_card (projectID : Z) (cardID : string) : tx unit :=
  put (fun b => mkBoard (bd_projects b) (delete cardID (bd_cards b)) (filter (fun m => ~ message_of projectID cardID m) (bd_messages b))
    (bd_jobs b) (bd_registry b) (bd_operations b)).
Definition DeleteScrumCardAtRevision (projectID : Z) (cardID : string) (expectedUpdatedAt : Z) : tx unit :=
  abort "revision-bound Scrum deletion requires one canonical card ID" if ((cardID == "") || negb (trimmed cardID))%bool;
  abort "PostgreSQL, context, project, and card are required for revision-bound Scrum deletion" if projectID <=? 0;
  abort "revision-bound Scrum deletion requires an expected card revision" if expectedUpdatedAt =? 0;
  exec beginLockedProjectTx projectID;
  let* current := lockScrumCardTx projectID cardID in
  abort revision_conflict if negb (card_UpdatedAt current =? expectedUpdatedAt);
  exec requireInactiveScrumCardForDeleteTx current;
  exec remove_card projectID cardID;
  touch_uncounted env projectID.

(** ** Items and tickets *)

Definition MutateScrumCardItem (m : ScrumCardItemMutation) : tx DBScrumCard :=
  exec lift (validate_item_mutation m);
  let* current := lockScrumCardTx (im_ProjectID m) (im_CardID m) in
  abort revision_conflict if negb (card_UpdatedAt current =? im_ExpectedUpdatedAt m);
  let criteria := im_Collection m == "test_criteria" in
  let* items := lift (decodeCanonicalScrumCardItems (if criteria : bool then card_TestCriteria current else card_Checklist current)) in
  let* identity := (if im_Action m == "add" then entropy env else ret None) in
  let* items := lift (applyScrumCardItemMutation identity items m) in
  let encoded := VArray (to_json <$> items) in
  let* now := clock env in
  let* affected := update_card (im_ProjectID m) (im_CardID m) (fun row =>
    let row := if criteria then row <| card_TestCriteria := encoded |> else row <| card_Checklist := encoded |> in
    row <| card_UpdatedAt := advance (now (im_CardID m)) row |>) in
  abort "%w: Scrum card %q disappeared during mutation" if negb (affected =? 1);
  exec refreshScrumFlowMetricsTx (im_ProjectID m) (im_CardID m);
  exec touch_uncounted env (im_ProjectID m);
  reload (im_ProjectID m) (im_CardID m).

Definition UpdateScrumCardTicket (mutation : ScrumCardTicketMutation) : tx DBScrumCard :=
  let* m := lift (validate_ticket mutation) in
  let* current := lockScrumCardTx (tk_ProjectID m) (tk_CardID m) in
  abort revision_conflict if negb (card_UpdatedAt current =? tk_ExpectedUpdatedAt m);
  let* now := clock env in
  let* affected := update_card (tk_ProjectID m) (tk_CardID m) (fun row =>
    row <| card_CardTicket := tk_Ticket m |> <| card_CardPrompt := tk_Elaboration m |> <| card_UpdatedAt := advance (now (tk_CardID m)) row |>) in
  abort "%w: Scrum card %q disappeared during mutation" if negb (affected =? 1);
  exec refreshScrumFlowMetricsTx (tk_ProjectID m) (tk_CardID m);
  exec touchScrumPlayProjectTx env (tk_ProjectID m);
  reload (tk_ProjectID m) (tk_CardID m).

(** ** Moves *)

Definition column_keys (column : string) : order_keys :=
  let assigned c := ((column == "assigned") && in_state "queued" c)%bool in
  [asc (fun c => flag (assigned c)); asc (fun c => if assigned c then card_QueueOrder c else 0);
   asc (fun c => flag (negb ((column == "in_progress") && in_state "running" c)));
   asc card_BoardOrder; desc card_UpdatedAt; by_id env].
(** The other cards of a column in its order. *)
Definition column_order (projectID : Z) (column excludeID : string) (b : Board) : list DBScrumCard :=
  merge_sort (ordered (column_keys column))
    (filter (fun card => card_Column card = column /\ card_ID card <> excludeID) (project_cards projectID b)).
Definition positions (cards : list DBScrumCard) : gmap string Z := list_to_map (imap (fun i card => (card_ID card, Z.of_nat i)) cards).
Definition renumber (now : string -> Z) (next_order : gmap string Z) (card : DBScrumCard) : option DBScrumCard :=
  match next_order !! card_ID card with
  | Some n => if card_BoardOrder card =? n then None
              else Some (card <| card_BoardOrder := n |> <| card_UpdatedAt := advance (now (card_ID card)) card |>)
  | None => None
  end.
Definition normalizeScrumColumnOrderTx (projectID : Z) (column excludeID : string) : tx unit :=
  let* order := gets (column_order projectID column excludeID) in
  let* now := clock env in
  update_cards (renumber now (positions order)).
Definition in_column (projectID : Z) (column excludeID : string) (card : DBScrumCard) : bool :=
  bool_decide (card_ProjectID card = projectID /\ card_Column card = column /\ card_ID card <> excludeID).
Definition scrumMoveInsertPositionTx (move : ScrumCardMove) : tx Z :=
  if mv_BeforeCardID move == "" then
    gets (fun b => Z.of_nat (length (filter (fun card => in_column (mv_ProjectID move) (mv_Column move) (mv_CardID move) card = true)
      (project_cards (mv_ProjectID move) b))))
  else
    let* found := gets (find_card (mv_ProjectID move) (mv_BeforeCardID move)) in
    match found with
    | Some card => if card_Column card == mv_Column move then ret (card_BoardOrder card) else fail "no rows in result set"
    | None => fail "no rows in result set"
    end.
(** The cards from the insertion point on move by one. *)
Definition shift_from (now : string -> Z) (move : ScrumCardMove) (insertAt : Z) (card : DBScrumCard) : option DBScrumCard :=
  if (in_column (mv_ProjectID move) (mv_Column move) (mv_CardID move) card && (insertAt <=? card_BoardOrder card))%bool
  then Some (card <| card_BoardOrder := card_BoardOrder card + 1 |> <| card_UpdatedAt := advance (now (card_ID card)) card |>)
  else None.

Definition MoveScrumCard (move : ScrumCardMove) : tx (DBScrumCard * DBScrumCard) :=
  abort "Scrum card move requires one canonical card ID" if ((mv_CardID move == "") || bad_text (mv_CardID move) || negb (trimmed (mv_CardID move)))%bool;
  exec lift (ParseScrumCardColumn (mv_Column move));
  abort "Scrum card move requires one canonical before-card ID" if (bad_text (mv_BeforeCardID move) || negb (trimmed (mv_BeforeCardID move)))%bool;
  abort "Scrum card move requires an expected card revision" if mv_ExpectedUpdatedAt move =? 0;
  abort "PostgreSQL, context, project, card, and column are required for Scrum card move" if mv_ProjectID move <=? 0;
  exec beginLockedProjectTx (mv_ProjectID move);
  let* previous := lockScrumCardTx (mv_ProjectID move) (mv_CardID move) in
  abort revision_conflict if negb (card_UpdatedAt previous =? mv_ExpectedUpdatedAt move);
  abort "%w: card %q is %s; pause it before moving" if ((card_PlayState previous == "running") || (card_PlayState previous == "queued"))%bool;
  abort "before card must differ from moved card" if mv_BeforeCardID move == mv_CardID move;
  exec (if mv_BeforeCardID move == "" then ret tt else
    let* found := gets (find_card (mv_ProjectID move) (mv_BeforeCardID move)) in
    match found with
    | Some card => if card_Column card == mv_Column move then ret tt else fail "before card %q was not found in target column %q"
    | None => fail "before card %q was not found in target column %q"
    end);
  exec (if card_Column previous == mv_Column move then ret tt
        else normalizeScrumColumnOrderTx (mv_ProjectID move) (card_Column previous) (mv_CardID move));
  exec normalizeScrumColumnOrderTx (mv_ProjectID move) (mv_Column move) (mv_CardID move);
  let* insertAt := scrumMoveInsertPositionTx move in
  let* now := clock env in
  exec update_cards (shift_from now move insertAt);
  let* now := clock env in
  exec update_card (mv_ProjectID move) (mv_CardID move) (fun row =>
    row <| card_Column := mv_Column move |> <| card_BoardOrder := insertAt |> <| card_UpdatedAt := advance (now (mv_CardID move)) row |>);
  exec (if card_Column previous == mv_Column move then ret tt
        else applyScrumFlowMetricDeltasTx (mv_ProjectID move) (mv_CardID move) [mkDelta ColumnMove (card_Column previous) (mv_Column move) ""]);
  exec touch_uncounted env (mv_ProjectID move);
  let* updated := reload (mv_ProjectID move) (mv_CardID move) in
  ret (previous, updated).

(** ** Reconciliation *)

Definition ReconcileScrumCard (c : ScrumCardReconcileCommand) : tx DBScrumCard :=
  abort "PostgreSQL, context, and project are required for Scrum reconciliation" if rc_ProjectID c <=? 0;
  abort "Scrum reconciliation requires a canonical card and observed revision"
    if ((rc_CardID c == "") || negb (trimmed (rc_CardID c)) || (rc_ExpectedUpdatedAt c =? 0))%bool;
  exec lift (validateScrumCardReconcileCommand c);
  exec beginLockedProjectTx (rc_ProjectID c);
  let* current := lockScrumCardTx (rc_ProjectID c) (rc_CardID c) in
  abort revision_conflict if negb (card_UpdatedAt current =? rc_ExpectedUpdatedAt c);
  abort "Scrum card %q job authority changed before reconciliation" if card_JobID current != rc_ExpectedJobID c;
  exec lift (validateScrumReconcileTransition current c);
  let next (card : DBScrumCard) := card <| card_Column := rc_Column c |> <| card_PlayState := rc_PlayState c |>
    <| card_QueueOrder := rc_QueueOrder c |> <| card_JobID := rc_JobID c |> in
  let* now := clock env in
  let* affected := update_card (rc_ProjectID c) (rc_CardID c) (fun row => next row <| card_UpdatedAt := advance (now (rc_CardID c)) row |>) in
  abort revision_conflict if negb (affected =? 1);
  exec each (fun m => exec insertScrumCardMessageTx env (rc_ProjectID c) (rc_CardID c) m; ret tt) (rc_Messages c);
  exec applyScrumCardStateMetricsTx current (next current) (rc_Outcome c);
  exec touchScrumPlayProjectTx env (rc_ProjectID c);
  reload (rc_ProjectID c) (rc_CardID c).
End edit.
