(* ===== verification/ScrumChannel.v ===== *)
(** * Messages that drive a card's job

    A channel message starts, replans or feeds the job of a card
    ([scrum_channel_operation_*.go]): its identity is registered once, its effect and
    the card's new state are committed with the receipt of the operation, and the
    database checks the receipt ([own_scrum_channel_operation_insert]).  The pages of a
    card's channel ([scrum_card_messages.go]). *)
From Stdlib Require Import Ascii.
From S2P Require Import Prelude Schema PathIdentity UserIntent JsonCodec Timestamp Scrum ScrumFlow ScrumBoard ScrumPlay.
From stdpp Require Import sorting base tactics strings list gmap numbers pretty.
From stdpp Require Import list options.
Open Scope Z_scope.
Open Scope go_scope.

Inductive EffectKind := StartJob | ReplanJob | SubmitFeedback | OtherEffect.
#[global] Instance EffectKind_eq : EqDecision EffectKind. Proof. solve_decision. Defined.
Definition effect_text (k : EffectKind) : string :=
  match k with StartJob => "start_job" | ReplanJob => "replan_job" | SubmitFeedback => "submit_feedback" | OtherEffect => "" end.
Record ScrumChannelEffect := mkEffect { ce_Kind : EffectKind; ce_JobID : Z; ce_Instruction : string }.
Record ScrumChannelOperationCommand := mkChannelCommand {
  cc_Request : ScrumChannelOperationRequest; cc_ExpectedCardUpdatedAt : Z; cc_Effect : ScrumChannelEffect; cc_ResultAction : string
}.
Record ScrumChannelCardUpdate := mkChannelUpdate {
  cu_Messages : list ScrumCardMessageAppend; cu_Column : string; cu_JobID : string; cu_PlayState : string; cu_QueueOrder : Z
}.
Record ScrumChannelOperationResult := mkChannelResult {
  cs_OperationID : string; cs_Card : DBScrumCard; cs_Messages : list StoredMessage; cs_MessageStart : Z; cs_MessageTotal : Z;
  cs_PreviousCard : option DBScrumCard; cs_JobID : Z; cs_Action : string; cs_Applied : bool
}.

(** ** Commands *)

Definition ValidateChannelMessageContent (content : string) : result unit :=
  reject "channel message content must contain 1..%d valid UTF-8 bytes without NUL" when ((content == "") || bad_text content)%bool;
  reject "channel message content is blank" when blank content;
  Ok tt.
Definition describeScrumChannelOperation (r : ScrumChannelOperationRequest) : result unit :=
  check ParseLifecycleOperationID (cr_OperationID r);
  reject "Scrum channel operation requires a positive project ID" when (cr_ProjectID r <=? 0);
  reject "Scrum channel operation requires one canonical card ID" when ((cr_CardID r == "") || negb (trimmed (cr_CardID r)))%bool;
  check ValidateChannelMessageContent (cr_Message r);
  Ok tt.
Definition hasScrumChannelStartFields (effect : ScrumChannelEffect) : bool := ce_Instruction effect != "".
Definition validateScrumChannelEffect (c : ScrumChannelOperationCommand) : result unit :=
  let effect := cc_Effect c in
  match ce_Kind effect with
  | StartJob =>
      reject "start-job Scrum channel operation requires action started and no existing job"
        when ((ce_JobID effect != 0) || (cc_ResultAction c != "started"))%bool;
      reject "start-job Scrum channel instruction must equal the exact request message"
        when (ce_Instruction effect != cr_Message (cc_Request c)); Ok tt
  | ReplanJob =>
      reject "replan Scrum channel operation requires a job and action replanned"
        when ((ce_JobID effect <=? 0) || (cc_ResultAction c != "replanned"))%bool;
      reject "replan Scrum channel operation forbids start-job fields" when hasScrumChannelStartFields effect; Ok tt
  | SubmitFeedback =>
      reject "feedback Scrum channel operation requires a job and action feedback"
        when ((ce_JobID effect <=? 0) || (cc_ResultAction c != "feedback"))%bool;
      reject "feedback Scrum channel operation forbids start-job fields" when hasScrumChannelStartFields effect; Ok tt
  | OtherEffect => Err "Scrum channel effect kind %q is not registered"
  end.
Definition normalizeScrumChannelOperation (c : ScrumChannelOperationCommand) : result unit :=
  check describeScrumChannelOperation (cc_Request c);
  reject "Scrum channel operation requires the observed card version" when (cc_ExpectedCardUpdatedAt c =? 0);
  reject "Scrum channel result action is not canonical" when negb (trimmed (cc_ResultAction c));
  validateScrumChannelEffect c.

Definition bound_count (operationID : string) (messages : list ScrumCardMessageAppend) : nat :=
  length (filter (fun m => ma_OperationID m = operationID) messages).
Definition validateScrumChannelCardUpdate (r : ScrumChannelOperationRequest) (jobID : Z) (u : ScrumChannelCardUpdate) : result unit :=
  check for_each (fun m =>
    check normalizeScrumCardMessageAppend m;
    reject "Scrum channel operation message does not match its authoritative request"
      when ((ma_OperationID m == cr_OperationID r) && ((ma_Role m != "user") || (ma_Content m != cr_Message r)))%bool; Ok tt) (cu_Messages u);
  reject "Scrum channel operation requires exactly one operation-bound user message, received %d"
    when negb (Nat.eqb (bound_count (cr_OperationID r) (cu_Messages u)) 1);
  reject "Scrum channel card update has noncanonical authority text"
    when (negb (trimmed (cu_Column u)) || negb (trimmed (cu_JobID u)) || negb (trimmed (cu_PlayState u)))%bool;
  reject "Scrum channel card update has invalid job, column, play-state, or queue authority"
    when ((cu_Column u != "in_progress") || (cu_PlayState u != "running") || (cu_QueueOrder u != 0) || (cu_JobID u != job_text jobID))%bool;
  Ok tt.

(** ** Channel pages *)

Definition MaxScrumChannelPageSize : Z := 100.
Definition MaxScrumChannelPageBytes : Z := 4 * 1024 * 1024.
(** [scrumCardMessageTailQuery]: the messages up to ordinal [total], newest first, at
    most [limit] of them, while their bytes add up to at most [maxBytes]. *)
Definition newest_first (a b : StoredMessage) : Prop := sm_Ordinal b <= sm_Ordinal a.
#[global] Instance newest_first_dec : RelDecision newest_first.
Proof. intros a b. unfold newest_first. apply _. Defined.
Fixpoint within_bytes (maxBytes sum : Z) (l : list StoredMessage) : list StoredMessage :=
  match l with
  | [] => []
  | m :: l => let sum := sum + content_bytes (sm_Append m) in
              if sum <=? maxBytes then m :: within_bytes maxBytes sum l else within_bytes maxBytes sum l
  end.
Definition message_tail (projectID : Z) (cardID : string) (total limit maxBytes : Z) (b : Board) : list StoredMessage :=
  within_bytes maxBytes 0 (take (Z.to_nat limit) (merge_sort newest_first
    (filter (fun m => message_of projectID cardID m /\ sm_Ordinal m <= total) (bd_messages b)))).
Definition loadScrumCardMessageTail (projectID : Z) (cardID : string) (total limit maxBytes : Z) (b : Board) : result (list StoredMessage * Z) :=
  reject "Scrum message tail request is outside bounded authority"
    when ((total <? 0) || (limit <? 1) || (MaxScrumChannelPageSize <? limit) || (maxBytes <? 1))%bool;
  let reversed := message_tail projectID cardID total limit maxBytes b in
  reject "Scrum message tail exceeds its %d-byte authority" when (maxBytes <? foldr (fun m n => content_bytes (sm_Append m) + n) 0 reversed);
  let messages := reverse reversed in
  match messages with
  | [] => reject "Scrum message tail could not fit one canonical row" when (0 <? total); Ok ([], total)
  | m :: _ => Ok (messages, sm_Ordinal m - 1)
  end.

Record ScrumChannelPage := mkPage { cp_Messages : list StoredMessage; cp_PlayState : string; cp_Start : Z; cp_Total : Z; cp_HasMore : bool }.
Definition ScrumChannelPage_of (projectID : Z) (cardID : string) (limit before : Z) (b : Board) : result ScrumChannelPage :=
  reject "PostgreSQL, context, project, and card are required for Scrum channel paging"
    when ((projectID <=? 0) || (cardID == "") || negb (trimmed cardID))%bool;
  reject "Scrum channel limit must be between 1 and %d" when ((limit <? 1) || (MaxScrumChannelPageSize <? limit))%bool;
  reject "Scrum channel cursor must be omitted or one canonical positive ordinal" when ((before != -1) && (before <=? 0))%bool;
  match find_card projectID cardID b with
  | None => Err "load Scrum channel authority: %w"
  | Some card =>
      let total := card_ChannelMessageCount card in
      let pageEnd := if before <? 0 then total else before in
      check validateStoredScrumPlayState (card_PlayState card);
      reject "Scrum card or channel cursor was not found" when ((pageEnd <? 0) || (total <? pageEnd))%bool;
      let? tail := loadScrumCardMessageTail projectID cardID pageEnd limit MaxScrumChannelPageBytes b in
      Ok (mkPage tail.1 (card_PlayState card) tail.2 total (0 <? tail.2))
  end.

(** ** Receipts *)

Definition metadata_field (name : string) (job : ScrumJob) : option value :=
  match job_Metadata job with VObject fs => field_get (bytes name) fs | _ => None end.
Definition field_is (name text_ : string) (job : ScrumJob) : bool := metadata_field name job == Some (VString (bytes text_)).
(** What [own_scrum_channel_operation_insert] demands of the job and the card. *)
Definition receipt_relationship (row : ChannelRow) (b : Board) : bool :=
  match bd_jobs b !! co_JobID row, find_card (co_ProjectID row) (co_CardID row) b with
  | Some job, Some card =>
      ((job_ProjectID job == co_ProjectID row) && (job_Pipeline job == PipelineScrum) && field_is "source" "omni-scrum" job &&
       (metadata_field "project_id" job == Some (VNumber (itoa (co_ProjectID row)))) && field_is "scrum_card_id" (co_CardID row) job &&
       (card_JobID card == job_text (co_JobID row)) && (card_Column card == "in_progress") && (card_PlayState card == "running"))%bool
  | _, _ => false
  end.

Section channel.
Context (env : Env).

Definition receipt_effect (operationID : string) (row : ChannelRow) (request : ScrumChannelOperationRequest) (b : Board) : bool :=
  match bd_jobs b !! co_JobID row with
  | None => false
  | Some job =>
      if co_EffectKind row == "start_job" then
        (field_is "scrum_card_id" (co_CardID row) job && (metadata_field "scrum_channel_origin" job == Some (VBool true)) &&
         field_is "scrum_channel_operation_id" operationID job && (job_Instruction job == cr_Message request) &&
         (co_EffectOperationID row == operationID) && (co_Action row == "started"))%bool
      else
        (env_recorded env (co_EffectOperationID row) (co_JobID row) &&
         negb ((co_EffectKind row == "submit_feedback") && (co_Action row != "feedback")) &&
         negb ((co_EffectKind row == "replan_job") && (co_Action row != "replanned")))%bool
  end.
(** The insert into [scrum_channel_operations] with its trigger and keys. *)
Definition insertScrumChannelOperationTx (operationID : string) (row : ChannelRow) : tx unit :=
  let* registered := gets (fun b => bd_registry b !! operationID) in
  match registered with
  | Some (ScrumChannelCommand request) =>
      abort "Scrum operation registry payload differs"
        if ((cr_OperationID request != operationID) || (cr_ProjectID request != co_ProjectID row) || (cr_CardID request != co_CardID row))%bool;
      let* related := gets (receipt_relationship row) in
      abort "Scrum operation lacks exact project/card job relationship" if negb related;
      let* effective := gets (receipt_effect operationID row request) in
      abort "Scrum operation lacks exact lifecycle effect" if negb effective;
      let* bound := gets (fun b => existsb (fun m => bool_decide (message_of (co_ProjectID row) (co_CardID row) m) &&
        (ma_OperationID (sm_Append m) == operationID))%bool (bd_messages b)) in
      abort "Scrum operation lacks exact bound user message" if negb bound;
      let* taken := gets (fun b => bool_decide (is_Some (bd_operations b !! operationID) \/
        map_Exists (fun _ o => co_EffectOperationID o = co_EffectOperationID row) (bd_operations b))) in
      abort "record Scrum channel operation %q: %w" if taken;
      put (fun b => mkBoard (bd_projects b) (bd_cards b) (bd_messages b) (bd_jobs b) (bd_registry b)
        (<[operationID := row]> (bd_operations b)))
  | _ => fail "Scrum operation registry payload differs"
  end.

(** [INSERT ... ON CONFLICT DO NOTHING], then the comparison with what is stored. *)
Definition reserveLifecycleOperationIdentityTx (request : ScrumChannelOperationRequest) : tx bool :=
  exec lift (ParseLifecycleOperationID (cr_OperationID request));
  let* registered := gets (fun b => bd_registry b !! cr_OperationID request) in
  match registered with
  | None =>
      exec put (fun b => mkBoard (bd_projects b) (bd_cards b) (bd_messages b) (bd_jobs b)
        (<[cr_OperationID request := ScrumChannelCommand request]> (bd_registry b)) (bd_operations b));
      ret true
  | Some known =>
      abort "%w: operation ID %q is reserved for different kind, scope, or command content" if known != ScrumChannelCommand request;
      ret false
  end.

Definition message_page (card : DBScrumCard) : tx (list StoredMessage * Z) :=
  let* loaded := gets (loadScrumCardMessageTail (card_ProjectID card) (card_ID card) (card_ChannelMessageCount card) 50 MaxScrumChannelPageBytes) in
  lift loaded.
Definition loadScrumChannelOperation (request : ScrumChannelOperationRequest) : tx (option ScrumChannelOperationResult) :=
  let* found := gets (fun b => bd_operations b !! cr_OperationID request) in
  match found with
  | None => ret None
  | Some row =>
      let* card := lockScrumCardTx (cr_ProjectID request) (cr_CardID request) in
      let* job := find_job (co_JobID row) "load current Scrum operation job: %w" in
      abort "load current Scrum operation job: %w" if job_ProjectID job != cr_ProjectID request;
      let* page := message_page card in
      ret (Some (mkChannelResult (cr_OperationID request) card page.1 page.2 (card_ChannelMessageCount card) None (co_JobID row) (co_Action row) false))
  end.
Definition requireRegisteredScrumChannelIdentity (request : ScrumChannelOperationRequest) : tx bool :=
  let* registered := gets (fun b => bd_registry b !! cr_OperationID request) in
  match registered with
  | None => ret false
  | Some known =>
      abort "%w: operation ID %q is reserved for different kind, scope, or command content" if known != ScrumChannelCommand request;
      ret true
  end.
Definition LoadScrumChannelOperation (request : ScrumChannelOperationRequest) : tx (option ScrumChannelOperationResult) :=
  exec lift (describeScrumChannelOperation request);
  let* found := requireRegisteredScrumChannelIdentity request in
  if negb found then ret None else
  let* result := loadScrumChannelOperation request in
  match result with
  | None => fail "registered Scrum channel operation %q has no immutable result"
  | Some _ => ret result
  end.

(** ** Execution *)

Definition updateScrumChannelCardTx (current : DBScrumCard) (request : ScrumChannelOperationRequest) (jobID : Z) (u : ScrumChannelCardUpdate) : tx DBScrumCard :=
  exec lift (validateScrumChannelCardUpdate request jobID u);
  let next (card : DBScrumCard) := card <| card_Column := cu_Column u |> <| card_JobID := cu_JobID u |>
    <| card_PlayState := cu_PlayState u |> <| card_QueueOrder := cu_QueueOrder u |> in
  let* now := clock env in
  let* affected := update_card (card_ProjectID current) (card_ID current) (fun row => next row <| card_UpdatedAt := advance (now (card_ID current)) row |>) in
  abort "Scrum channel card changed before exact mutation apply" if negb (affected =? 1);
  exec each (fun m => exec insertScrumCardMessageTx env (card_ProjectID current) (card_ID current) m; ret tt) (cu_Messages u);
  exec applyScrumCardStateMetricsTx current (next current) "";
  let* card := reload (card_ProjectID current) (card_ID current) in
  let* affected := touch_project (card_ProjectID current) (env_now env) (env_now env) in
  abort "Scrum channel project %d was not updated" if negb (affected =? 1);
  ret card.

(** Replanning and feedback are steps of the job's life cycle: [env_control] gives the
    status they leave it in. *)
Definition executeScrumChannelEffectTx (c : ScrumChannelOperationCommand) (card : DBScrumCard) (metadata : option JobMetadata) : tx Z :=
  let effect := cc_Effect c in
  abort "Scrum card %q has noncanonical job authority %q" if (bool_decide (ce_Kind effect <> StartJob) && negb (trimmed (card_JobID card)))%bool;
  abort "Scrum card %q job authority %q does not match requested job %d"
    if (bool_decide (ce_Kind effect <> StartJob) &&
        negb (match atoi (bytes (card_JobID card)) with Some z => (0 <? z) && (z =? ce_JobID effect) | None => false end))%bool;
  let* jobID := (match ce_Kind effect, metadata with
    | StartJob, Some metadata =>
        abort "Scrum card %q already has active play state %q" if ((card_PlayState card == "running") || (card_PlayState card == "queued"))%bool;
        exec lift (validate_metadata env metadata);
        enqueueScrumJobTx env (ce_Instruction effect) (cr_ProjectID (cc_Request c)) metadata
    | (ReplanJob | SubmitFeedback) as kind, _ =>
        let* job := find_job (ce_JobID effect) "no rows in result set" in
        let* status := lift (env_control env (effect_text kind) (ce_JobID effect) job) in
        exec put_job (ce_JobID effect) (with_status status job);
        ret (ce_JobID effect)
    | _, _ => fail "Scrum channel effect kind %q is not registered"
    end) in
  let* job := find_job jobID "validate Scrum channel result job project: %w" in
  abort "Scrum channel result job %d has invalid project authority" if job_ProjectID job != cr_ProjectID (cc_Request c);
  ret jobID.

Definition channel_metadata (c : ScrumChannelOperationCommand) (current : DBScrumCard) : tx (option JobMetadata) :=
  if bool_decide (ce_Kind (cc_Effect c) = StartJob) then
    let* authority := scrumPlayAuthorityTx env current in
    let m := authority.1 in
    let* column := lift (ParseScrumCardColumn (card_Column current)) in
    ret (Some (mkMetadata (jm_CardID m) (jm_CardTitle m) (jm_CardDescription m) (jm_Checklist m) (jm_TestCriteria m) column true
      (cr_OperationID (cc_Request c)) (jm_ModelConfig m) (jm_CodingExecution m)))
  else ret None.

(** [builder]: the card update the HTTP layer derives from the locked card and the
    job. *)
Definition ExecuteScrumChannelOperation (c : ScrumChannelOperationCommand) (builder : DBScrumCard -> Z -> result ScrumChannelCardUpdate)
    : tx ScrumChannelOperationResult :=
  let request := cc_Request c in
  exec lift (normalizeScrumChannelOperation c);
  let* created := reserveLifecycleOperationIdentityTx request in
  let* existing := loadScrumChannelOperation request in
  match existing with
  | Some result => ret result
  | None =>
      abort "registered Scrum channel operation %q has no immutable result" if negb created;
      let* current := lockScrumCardTx (cr_ProjectID request) (cr_CardID request) in
      abort "Scrum card %q changed after channel operation preparation" if negb (card_UpdatedAt current =? cc_ExpectedCardUpdatedAt c);
      let* metadata := channel_metadata c current in
      let* identity := (if bool_decide (ce_Kind (cc_Effect c) = StartJob) then ret None else entropy env) in
      let* effectID := (if bool_decide (ce_Kind (cc_Effect c) = StartJob) then ret (cr_OperationID request) else
        match identity with Some b => ret ("lifecycle_operation_" +:+ hex_text b) | None => fail "generate lifecycle operation identity: %w" end) in
      let* jobID := executeScrumChannelEffectTx c current metadata in
      let* update := lift (builder current jobID) in
      let* card := updateScrumChannelCardTx current request jobID update in
      let* page := message_page card in
      exec insertScrumChannelOperationTx (cr_OperationID request)
        (mkChannelRow (cr_ProjectID request) (cr_CardID request) (effect_text (ce_Kind (cc_Effect c))) effectID jobID (cc_ResultAction c));
      ret (mkChannelResult (cr_OperationID request) card page.1 page.2 (card_ChannelMessageCount card) (Some current) jobID (cc_ResultAction c) true)
  end.
End channel.
