(* ===== verification/ScrumRead.v ===== *)
(** * Reading the Scrum board

    The selections of the scheduler and the bounded lists of the board:
    [scrum_card_selection.go], [scrum_auto_work_selection.go],
    [scrum_card_pagination.go], [scrum_card_summary_query.go],
    [scrum_flow_summary.go]. *)
From Stdlib Require Import Ascii.
From S2P Require Import Prelude Schema PathIdentity UserIntent JsonCodec Timestamp Scrum ScrumFlow ScrumBoard ScrumPlay.
From stdpp Require Import sorting base tactics strings list gmap numbers pretty.
From stdpp Require Import list options.
Open Scope Z_scope.
Open Scope go_scope.

Definition MaxScrumCardPageSize : Z := 100.

(** ** JSON paths *)

(** [v #> path] *)
Fixpoint json_path (v : value) (path : list string) : option value :=
  match path with
  | [] => Some v
  | key :: path => match v with VObject fs => match field_get (bytes key) fs with Some w => json_path w path | None => None end | _ => None end
  end.
(** [->>] of a scalar. *)
Definition scalar_text (v : value) : option text :=
  match v with
  | VString s => Some s | VNumber n => Some n
  | VBool true => Some (bytes "true") | VBool false => Some (bytes "false")
  | _ => None
  end.

(** ** Summaries *)

Record DBScrumCardSummary := mkSummary {
  cm_ID : string; cm_ProjectID : Z; cm_Title : string; cm_Description : string; cm_Column : string;
  cm_ChecklistDone : Z; cm_ChecklistTotal : Z; cm_RefFileCount : Z; cm_ChatCount : Z; cm_TestCriteriaDone : Z; cm_TestCriteriaTotal : Z;
  cm_HasCardTicket : bool; cm_Tags : value; cm_FlowMetrics : value; cm_JobID : string; cm_PlayState : string;
  cm_QueueOrder : Z; cm_BoardOrder : Z; cm_CreatedAt : Z; cm_UpdatedAt : Z
}.
Definition array_elements (v : value) : result (list value) :=
  match v with VArray l => Ok l | _ => Err "cannot get array length of a non-array" end.
Definition item_done (item : value) : bool :=
  match item with VObject fs => match field_get (bytes "done") fs with Some v => scalar_text v == Some (bytes "true") | None => false end | _ => false end.
Definition absent_or (name : string) (p : value -> bool) (fs : fields_t) : bool :=
  match field_get (bytes name) fs with Some v => p v | None => true end.
Definition is_string (v : value) : bool := match v with VString _ => true | _ => false end.
Definition is_boolean (v : value) : bool := match v with VBool _ => true | _ => false end.
Definition item_typed (item : value) : bool :=
  match item with
  | VObject fs => (absent_or "id" is_string fs && absent_or "text" is_string fs && absent_or "done" is_boolean fs)%bool
  | _ => false
  end.
Definition done_count (items : list value) : Z := Z.of_nat (length (filter (fun item => item_done item = true) items)).
(** [BTRIM(s) <> '']: only blanks are trimmed. *)
Definition has_text (s : string) : bool := existsb (fun a => a != byte 32) (bytes s).

Definition validateStoredScrumCardSummary (card : DBScrumCardSummary) : result unit :=
  check validateStoredScrumCardIdentity (cm_ID card) (cm_ProjectID card) (cm_Title card);
  check validateStoredScrumText (cm_Description card);
  check ParseScrumCardColumn (cm_Column card);
  check validateStoredScrumPlayState (cm_PlayState card);
  reject "Scrum card %q job_id %q is not canonical" when ((cm_JobID card != "") && negb (canonicalPositiveDecimal (cm_JobID card)))%bool;
  reject "Scrum card %q contains negative summary authority"
    when ((cm_QueueOrder card <? 0) || (cm_BoardOrder card <? 0) || (cm_ChatCount card <? 0))%bool;
  check validateStoredScrumStringArray (cm_Tags card);
  check canonicalScrumFlowMetricsForRevision (cm_FlowMetrics card) (cm_UpdatedAt card);
  Ok tt.
Definition scanDBScrumCardSummary (card : DBScrumCard) : result DBScrumCardSummary :=
  let? checklist := array_elements (card_Checklist card) in
  let? files := array_elements (card_RefFiles card) in
  let? tests := array_elements (card_TestCriteria card) in
  reject "Scrum card %q %s must contain the registered typed JSON array"
    when (negb (forallb item_typed checklist) || negb (forallb is_string files) || negb (forallb item_typed tests))%bool;
  let summary := mkSummary (card_ID card) (card_ProjectID card) (card_Title card) (card_Description card) (card_Column card)
    (done_count checklist) (Z.of_nat (length checklist)) (Z.of_nat (length files)) (card_ChannelMessageCount card)
    (done_count tests) (Z.of_nat (length tests)) (has_text (card_CardTicket card)) (card_Tags card) (card_FlowMetrics card)
    (card_JobID card) (card_PlayState card) (card_QueueOrder card) (card_BoardOrder card) (card_CreatedAt card) (card_UpdatedAt card) in
  check validateStoredScrumCardSummary summary;
  Ok summary.

Record ScrumCardPage := mkCardPage { pg_Items : list DBScrumCardSummary; pg_Offset : Z; pg_HasMore : bool }.
Record ScrumFlowSummary := mkFlowSummary {
  fs_TotalCards : Z; fs_LikelyIncomplete : Z; fs_LikelyComplete : Z; fs_Uncertain : Z; fs_AssignedReturnsTotal : Z; fs_LongConversations : Z
}.
Definition count_cards (p : DBScrumCard -> bool) (cards : list DBScrumCard) : Z := Z.of_nat (length (filter (fun c => p c = true) cards)).
Definition metrics_status (card : DBScrumCard) : text :=
  match json_path (card_FlowMetrics card) ["completion_status"] with Some v => default (bytes "uncertain") (scalar_text v) | None => bytes "uncertain" end.
(** The value of a metric whose text is [^[0-9]+$]. *)
Definition metric_number (name : string) (card : DBScrumCard) : option Z :=
  match json_path (card_FlowMetrics card) [name] with
  | Some v => match scalar_text v with
              | Some s => if (negb (s == []) && forallb is_digit s)%bool then Some (parse_uint s 10) else None
              | None => None
              end
  | None => None
  end.

Section read.
Context (env : Env).

Definition listed (projectID : Z) (p : DBScrumCard -> bool) (keys : order_keys) (b : Board) : list DBScrumCard :=
  merge_sort (ordered keys) (filter (fun card => p card = true) (project_cards projectID b)).

(** [scrumCardSummaryPageSQL]'s order: by revision for the whole board, else the order
    of the column. *)
Definition page_keys (column : string) : order_keys :=
  let assigned c := ((column == "assigned") && in_state "queued" c)%bool in
  (if column == "" then [desc card_UpdatedAt; by_id env] else []) ++
  [asc (fun c => flag (assigned c)); asc (fun c => if assigned c then card_QueueOrder c else 0);
   asc (fun c => flag (negb ((column == "in_progress") && in_state "running" c)));
   asc card_BoardOrder; desc card_UpdatedAt; by_id env].
Definition ListScrumCardPage (projectID : Z) (column : string) (limit offset : Z) (b : Board) : result ScrumCardPage :=
  reject "Scrum card page requires a positive project id" when (projectID <=? 0);
  reject "Scrum card page limit must be between 1 and %d" when ((limit <? 1) || (MaxScrumCardPageSize <? limit))%bool;
  reject "Scrum card page offset must be non-negative" when (offset <? 0);
  let column := trim_space column in
  let rows := listed projectID (fun c => (column == "") || (card_Column c == column))%bool (page_keys column) b in
  let? items := collect scanDBScrumCardSummary (take (Z.to_nat (limit + 1)) (drop (Z.to_nat offset) rows)) in
  let hasMore := Nat.ltb (Z.to_nat limit) (length items) in
  Ok (mkCardPage (if hasMore then take (Z.to_nat limit) items else items) offset hasMore).

Definition CountScrumCardsByColumn (projectID : Z) (b : Board) : result (gmap string Z) :=
  reject "Scrum card counts require a positive project id" when (projectID <=? 0);
  Ok (foldr (fun c (counts : gmap string Z) => <[card_Column c := default 0 (counts !! card_Column c) + 1]> counts) ∅ (project_cards projectID b)).

Definition ScrumFlowSummary_of (projectID : Z) (b : Board) : result ScrumFlowSummary :=
  reject "PostgreSQL, context, and project are required for Scrum flow summary" when (projectID <=? 0);
  let cards := project_cards projectID b in
  let returns := default 0 ∘ metric_number "assigned_returns" in
  let messages := metric_number "channel_messages" in
  reject "integer out of range"
    when (existsb (fun c => negb (int4 (returns c))) cards || existsb (fun c => negb (int4 (default 0 (messages c)))) cards)%bool;
  Ok (mkFlowSummary (Z.of_nat (length cards))
    (count_cards (fun c => metrics_status c == bytes "likely_incomplete") cards)
    (count_cards (fun c => metrics_status c == bytes "likely_complete") cards)
    (count_cards (fun c => (metrics_status c != bytes "likely_incomplete") && (metrics_status c != bytes "likely_complete"))%bool cards)
    (foldr Z.add 0 (returns <$> cards))
    (count_cards (fun c => match messages c with Some n => 30 <=? n | None => false end) cards)).

(** ** Selections *)

Definition scan_first (unique : bool) (rows : list DBScrumCard) : result (option DBScrumCard) :=
  match rows with
  | [] => Ok None
  | card :: more =>
      check validateStoredScrumCard card;
      reject "Scrum invariant rejected multiple cards matching %s" when (unique && (more != []))%bool;
      Ok (Some card)
  end.
Definition findOneScrumCard (projectID : Z) (p : DBScrumCard -> bool) (keys : order_keys) (unique : bool) (b : Board) : result (option DBScrumCard) :=
  reject "Scrum card query requires a positive project id" when (projectID <=? 0);
  scan_first unique (listed projectID p keys b).
Definition FindRunningScrumCard (projectID : Z) : Board -> result (option DBScrumCard) :=
  findOneScrumCard projectID (in_state "running") [desc card_UpdatedAt; by_id env] true.
Definition FindNextQueuedScrumCard (projectID : Z) : Board -> result (option DBScrumCard) :=
  findOneScrumCard projectID (in_state "queued") [asc card_QueueOrder; asc card_UpdatedAt; by_id env] false.
Definition FindNextEligibleScrumCard (projectID : Z) (columns : list string) (b : Board) : result (option DBScrumCard) :=
  reject "eligible Scrum card query requires project and columns" when ((projectID <=? 0) || (columns == []))%bool;
  scan_first false (listed projectID (fun c => bool_decide (card_Column c ∈ columns) && negb (in_state "running" c || in_state "queued" c))%bool
    [asc (fun c => array_position columns (card_Column c)); asc card_BoardOrder; desc card_UpdatedAt; by_id env] b).

Record ScrumPlayQueueSnapshot := mkQueueSnapshot { qs_RunningCardID : string; qs_QueuedCount : Z; qs_QueuedCardIDs : list string; qs_QueuedHasMore : bool }.
Definition later_text (a b : string) : string := if env_collation env a b then b else a.
Definition ScrumPlayQueueSnapshot_of (projectID queuedLimit : Z) (b : Board) : result ScrumPlayQueueSnapshot :=
  reject "Scrum play queue requires project and a bounded queued limit"
    when ((projectID <=? 0) || (queuedLimit <? 1) || (MaxScrumCardPageSize <? queuedLimit))%bool;
  let cards := project_cards projectID b in
  let running := match card_ID <$> filter (fun c => in_state "running" c = true) cards with [] => "" | id :: ids => foldl later_text id ids end in
  let count := count_cards (in_state "queued") cards in
  let ids := card_ID <$> take (Z.to_nat queuedLimit) (listed projectID (in_state "queued") [asc card_QueueOrder; asc card_UpdatedAt; by_id env] b) in
  Ok (mkQueueSnapshot running count ids (Z.of_nat (length ids) <? count)).
Definition ScrumQueueOrderAndPosition (projectID : Z) (cardID : string) (b : Board) : result (Z * Z) :=
  reject "Scrum queue order requires project and card" when ((projectID <=? 0) || blank cardID)%bool;
  reject "integer out of range" when negb (int4 (queue_end projectID b).1);
  Ok (queue_end projectID b).
Definition ScrumProjectComplete (projectID : Z) (b : Board) : bool :=
  let cards := project_cards projectID b in
  (Nat.ltb 0 (length cards) && negb (existsb (fun c => negb (bool_decide (card_Column c ∈ ["review"; "done"]))) cards))%bool.

(** The columns a project's auto-work takes cards from, when it is enabled. *)
Definition element_text (v : value) : string := of_bytes (default [] (scalar_text v)).
Definition configured_columns (settings : value) : option (list string) :=
  if json_path settings ["scrum_auto_work"; "enabled"] ≫= scalar_text == Some (bytes "true") then
    match json_path settings ["scrum_auto_work"; "source_columns"] with
    | Some (VArray (x :: l)) => Some (element_text <$> (x :: l))
    | _ => Some ["assigned"]
    end
  else None.
Record ScrumAutoWorkCandidate := mkCandidate { ca_ProjectID : Z; ca_CardID : string; ca_QueuedAt : Z }.
Definition project_candidate (b : Board) (entry : Z * Project) : list ScrumAutoWorkCandidate :=
  match configured_columns (pj_Settings entry.2) with
  | None => []
  | Some columns =>
      if existsb (in_state "running") (project_cards entry.1 b) then [] else
      match listed entry.1 (auto_work_candidate columns) (auto_work_order env columns) b with
      | [] => []
      | card :: _ => [mkCandidate entry.1 (card_ID card) (card_UpdatedAt card)]
      end
  end.
Definition candidate_le (a b : ScrumAutoWorkCandidate) : Prop :=
  ca_QueuedAt a < ca_QueuedAt b \/ (ca_QueuedAt a = ca_QueuedAt b /\ ca_ProjectID a <= ca_ProjectID b).
#[global] Instance candidate_le_dec : RelDecision candidate_le.
Proof. intros a b. unfold candidate_le. apply _. Defined.
Definition FindGlobalScrumAutoWorkCandidate (b : Board) : option ScrumAutoWorkCandidate :=
  head (merge_sort candidate_le (map_to_list (bd_projects b) ≫= project_candidate b)).
Definition RunningScrumPlayProjectID (b : Board) : result (option Z) :=
  let running := filter (fun id => existsb (in_state "running") (project_cards id b) = true) (elements (dom (bd_projects b))) in
  match merge_sort Z.le running with
  | [] => Ok None
  | [id] => Ok (Some id)
  | _ => Err "global Scrum invariant rejected running cards in multiple projects"
  end.
End read.
