(* ===== verification/ScrumFacts.v ===== *)
(** * Reasoning about board transactions

    Partial-correctness triples for [tx] computations, and what the shared statements
    do to the cards. *)
From Stdlib Require Import Ascii.
From S2P Require Import Prelude Schema PathIdentity UserIntent JsonCodec Timestamp Scrum ScrumFlow ScrumBoard ScrumPlay ScrumEdit ScrumChannel.
From stdpp Require Import sorting base tactics strings list gmap numbers pretty.
From stdpp Require Import list options.
Open Scope Z_scope.
Open Scope go_scope.

(** Reads the fields of an assigned card. *)
Ltac card_simpl :=
  cbn [assign set_title set_description set_column set_checklist set_files set_ticket set_prompt set_tags set_criteria set_metrics
       set_job set_play set_queue set_board set_messages set_bytes set_updated
       card_ID card_ProjectID card_Title card_Description card_Column card_Checklist card_RefFiles card_CardTicket card_CardPrompt
       card_Tags card_TestCriteria card_FlowMetrics card_JobID card_PlayState card_QueueOrder card_BoardOrder
       card_ChannelMessageCount card_ChannelContentBytes card_CreatedAt card_UpdatedAt].

(** ** Triples *)

Definition post (A : Type) : Type := A -> Board -> Prop.
Definition triple {A} (P : Board -> Prop) (c : tx A) (Q : post A) : Prop :=
  forall t x t', P (tx_board t) -> c t = Ok (x, t') -> Q x (tx_board t').

Lemma triple_weaken {A} (P P' : Board -> Prop) (c : tx A) (Q Q' : post A) :
  triple P' c Q' -> (forall b, P b -> P' b) -> (forall x b, Q' x b -> Q x b) -> triple P c Q.
Proof. intros H HP HQ t x t' Ht E. eauto. Qed.
Lemma triple_bind {A B} (P : Board -> Prop) (c : tx A) (f : A -> tx B) (Q : post A) (R : post B) :
  triple P c Q -> (forall x, triple (Q x) (f x) R) -> triple P (bind c f) R.
Proof.
  intros Hc Hf t y t' Ht E. unfold bind in E. destruct (c t) as [[x t1]|e] eqn:Ec; [|done].
  eapply Hf; [eapply Hc; eauto|exact E].
Qed.
Lemma triple_ret {A} (x : A) (Q : post A) : triple (Q x) (ret x) Q.
Proof. intros t y t' Ht E. by injection E as <- <-. Qed.
Lemma triple_fail {A} e P (Q : post A) : triple P (fail e) Q.
Proof. by intros t y t' Ht E. Qed.
Lemma triple_lift {A} (r : result A) P (Q : post A) : (forall x b, r = Ok x -> P b -> Q x b) -> triple P (lift r) Q.
Proof. intros H t y t' Ht E. unfold lift in E. destruct r as [x|e]; [|done]. injection E as <- <-. eauto. Qed.
Lemma triple_gets {A} (f : Board -> A) P : triple P (gets f) (fun x b => x = f b /\ P b).
Proof. intros t y t' Ht E. injection E as <- <-. eauto. Qed.
Lemma triple_put f P (Q : post unit) : (forall b, P b -> Q tt (f b)) -> triple P (put f) Q.
Proof. intros H t y t' Ht E. injection E as <- <-. apply H, Ht. Qed.
Lemma triple_abort {A} e (b : bool) (k : tx A) P Q : (b = false -> triple P k Q) -> triple P (if b then fail e else k) Q.
Proof. intros H. destruct b; [apply triple_fail|by apply H]. Qed.
Lemma triple_clock env P : triple P (clock env) (fun _ b => P b).
Proof. intros t y t' Ht E. by injection E as <- <-. Qed.
Lemma triple_entropy env P : triple P (entropy env) (fun _ b => P b).
Proof. intros t y t' Ht E. by injection E as <- <-. Qed.
Lemma triple_pure {A} (phi : Prop) P (c : tx A) Q : (phi -> triple P c Q) -> triple (fun b => phi /\ P b) c Q.
Proof. intros H t y t' [Hp Ht] E. eapply H; eauto. Qed.
Lemma triple_each {A} (f : A -> tx unit) l (I : Board -> Prop) :
  (forall x, x ∈ l -> triple I (f x) (fun _ => I)) -> triple I (each f l) (fun _ => I).
Proof.
  induction l as [|x l IH]; intros H; [exact (triple_ret tt _)|].
  cbn [each]. eapply triple_bind; [apply H; left|]. intros []. apply IH. intros y Hy. apply H. by right.
Qed.
Lemma triple_conj {A} P (c : tx A) (Q R : post A) : triple P c Q -> triple P c R -> triple P c (fun x b => Q x b /\ R x b).
Proof. intros H1 H2 t y t' Ht E. split; eauto. Qed.
(** What holds of the board before, whatever the computation does. *)
Lemma triple_pre {A} P (c : tx A) Q : (forall b0, P b0 -> triple (fun b => b = b0) c Q) -> triple P c Q.
Proof. intros H t y t' Ht E. eapply H; eauto. Qed.

(** A computation that only reads. *)
Definition reads {A} (c : tx A) : Prop := forall t x t', c t = Ok (x, t') -> tx_board t' = tx_board t.
Lemma triple_reads {A} (c : tx A) P : reads c -> triple P c (fun _ b => P b).
Proof. intros H t x t' Ht E. by rewrite (H _ _ _ E). Qed.
Lemma reads_bind {A B} (c : tx A) (f : A -> tx B) : reads c -> (forall x, reads (f x)) -> reads (bind c f).
Proof.
  intros Hc Hf t y t' E. unfold bind in E. destruct (c t) as [[x t1]|e] eqn:Ec; [|done].
  rewrite (Hf _ _ _ _ E). exact (Hc _ _ _ Ec).
Qed.
Lemma reads_ret {A} (x : A) : reads (ret x).
Proof. intros t y t' E. by injection E as <- <-. Qed.
Lemma reads_fail {A} e : reads (fail (A := A) e).
Proof. by intros t y t' E. Qed.
Lemma reads_lift {A} (r : result A) : reads (lift r).
Proof. intros t y t' E. unfold lift in E. destruct r; [|done]. by injection E as <- <-. Qed.
Lemma reads_gets {A} (f : Board -> A) : reads (gets f).
Proof. intros t y t' E. by injection E as <- <-. Qed.
Lemma reads_clock env : reads (clock env).
Proof. intros t y t' E. by injection E as <- <-. Qed.
Lemma reads_entropy env : reads (entropy env).
Proof. intros t y t' E. by injection E as <- <-. Qed.
Create HintDb board.
#[export] Hint Resolve reads_ret reads_fail reads_lift reads_gets reads_clock reads_entropy : board.
(** Proves [reads] by the shape of the computation. *)
Ltac reading :=
  repeat match goal with
  | |- reads (bind _ _) => apply reads_bind; [|intros ?]
  | |- reads (if ?b then _ else _) => destruct b
  | |- reads (match ?x with _ => _ end) => destruct x
  | |- reads (let _ := _ in _) => cbv zeta
  end; auto with board.

Lemma reads_scan card : reads (scanDBScrumCard card).
Proof. unfold scanDBScrumCard. reading. Qed.
#[export] Hint Resolve reads_scan : board.
Lemma reads_select missing p id : reads (select_card missing p id).
Proof. unfold select_card. reading. Qed.
Lemma reads_lock p id : reads (lockScrumCardTx p id).
Proof. apply reads_select. Qed.
Lemma reads_reload p id : reads (reload p id).
Proof. apply reads_select. Qed.
#[export] Hint Resolve reads_select reads_lock reads_reload : board.
Lemma reads_begin p : reads (beginLockedProjectTx p).
Proof. unfold beginLockedProjectTx, lock_project. reading. Qed.
Lemma reads_select_cards p f keys : reads (select_cards p f keys).
Proof. unfold select_cards. reading. Qed.
Lemma reads_settings p : reads (load_settings p).
Proof. unfold load_settings. reading. Qed.
Lemma reads_find_job id m : reads (find_job id m).
Proof. unfold find_job. reading. Qed.
#[export] Hint Resolve reads_begin reads_select_cards reads_settings reads_find_job : board.
Lemma reads_running env p : reads (findRunningScrumCardTx env p).
Proof. unfold findRunningScrumCardTx. reading. Qed.
Lemma reads_auto_card env p columns : reads (findProjectAutoWorkCardTx env p columns).
Proof. unfold findProjectAutoWorkCardTx. reading. Qed.
Lemma reads_authority env card : reads (scrumPlayAuthorityTx env card).
Proof. unfold scrumPlayAuthorityTx. reading. Qed.
#[export] Hint Resolve reads_running reads_auto_card reads_authority : board.

(** A computation that takes the board along a preorder. *)
Definition keeps (R : Board -> Board -> Prop) {A} (c : tx A) : Prop := forall t x t', c t = Ok (x, t') -> R (tx_board t) (tx_board t').
Section keeps.
Context (R : Board -> Board -> Prop) `{!PreOrder R}.

Lemma keeps_reads {A} (c : tx A) : reads c -> keeps R c.
Proof using Type*. intros H t x t' E. by rewrite (H _ _ _ E). Qed.
Lemma keeps_bind {A B} (c : tx A) (f : A -> tx B) : keeps R c -> (forall x, keeps R (f x)) -> keeps R (bind c f).
Proof using Type*.
  intros Hc Hf t y t' E. unfold bind in E. destruct (c t) as [[x t1]|e] eqn:Ec; [|done].
  etransitivity; [exact (Hc _ _ _ Ec)|exact (Hf _ _ _ _ E)].
Qed.
Lemma keeps_each {A} (f : A -> tx unit) l : (forall x, keeps R (f x)) -> keeps R (each f l).
Proof using Type*. intros H. induction l as [|x l IH]; [apply keeps_reads, reads_ret|]. cbn [each]. by apply keeps_bind. Qed.
Lemma keeps_put f : (forall b, R b (f b)) -> keeps R (put f).
Proof using Type. intros Hf t x t' E. injection E as <- <-. apply Hf. Qed.
End keeps.
(** Proves [keeps] by the shape of the computation. *)
Ltac keeping :=
  cbv beta; repeat match goal with
  | |- keeps _ (bind _ _) => apply keeps_bind; [exact _| |intros ?]
  | |- keeps _ (each _ _) => apply keeps_each; [exact _|intros ?]
  | |- keeps _ (if ?b then _ else _) => destruct b
  | |- keeps _ (match ?x with _ => _ end) => destruct x
  | |- keeps _ (let _ := _ in _) => cbv zeta
  end; auto with board; try (apply keeps_reads; [exact _|]; solve [auto with board]).

(** ** Cards of a board *)

Lemma find_card_spec p id b card :
  find_card p id b = Some card <-> bd_cards b !! id = Some card /\ card_ProjectID card = p.
Proof.
  unfold find_card. destruct (bd_cards b !! id) as [c|]; [|naive_solver].
  case_bool_decide; naive_solver.
Qed.
Lemma project_cards_spec p b card :
  card ∈ project_cards p b <-> exists id, bd_cards b !! id = Some card /\ card_ProjectID card = p.
Proof.
  unfold project_cards. rewrite list_elem_of_filter, list_elem_of_fmap. split.
  - intros (Hp & [id c] & -> & H). apply elem_of_map_to_list in H. eauto.
  - intros (id & H & Hp). split; [done|]. exists (id, card). split; [done|]. by apply elem_of_map_to_list.
Qed.

(** ** Inversion of a run *)

Lemma tx_bind_inv {A B} (c : tx A) (f : A -> tx B) t y t' :
  bind c f t = Ok (y, t') -> exists x t1, c t = Ok (x, t1) /\ f x t1 = Ok (y, t').
Proof. unfold bind. destruct (c t) as [[x t1]|e]; [|done]. eauto. Qed.
Lemma lift_inv {A} (r : result A) t x t' : lift r t = Ok (x, t') -> r = Ok x /\ t' = t.
Proof. unfold lift. destruct r; [|done]. by intros [= <- <-]. Qed.
Lemma gets_inv {A} (f : Board -> A) t x t' : gets f t = Ok (x, t') -> x = f (tx_board t) /\ t' = t.
Proof. by intros [= <- <-]. Qed.
Lemma ret_inv {A} (x y : A) t t' : ret x t = Ok (y, t') -> y = x /\ t' = t.
Proof. by intros [= <- <-]. Qed.
Lemma put_inv f t t' : put f t = Ok (tt, t') -> tx_board t' = f (tx_board t).
Proof. by intros [= <-]. Qed.
(** The next call of a run. *)
Ltac runs H x t E := apply tx_bind_inv in H as (x & t & E & H).
(** The next guard of a run. *)
Ltac guards H G := match type of H with (if ?b then fail _ else _) _ = _ => destruct b eqn:G; [discriminate H|] end.
(** A call that only reads leaves the board alone. *)
Ltac same_board E R :=
  match type of E with ?c ?t = Ok (?x, ?t') => let B := fresh "B" in assert (tx_board t' = tx_board t) as B by (exact (R _ _ _ E)) end.

Lemma scan_inv card t x t' : scanDBScrumCard card t = Ok (x, t') -> x = card /\ t' = t /\ validateStoredScrumCard card = Ok tt.
Proof. unfold scanDBScrumCard. intros H. runs H u t1 E. apply lift_inv in E as [Hv ->]. apply ret_inv in H as [-> ->]. by destruct u. Qed.
Lemma select_inv missing p id t card t' : select_card missing p id t = Ok (card, t') ->
  t' = t /\ find_card p id (tx_board t) = Some card /\ validateStoredScrumCard card = Ok tt.
Proof.
  unfold select_card. intros H. runs H found t1 E. apply gets_inv in E as [-> ->].
  destruct (find_card p id (tx_board t)) as [c|] eqn:Ef; [|done]. by apply scan_inv in H as (-> & -> & Hv).
Qed.

(** ** Writing cards *)

Lemma find_with_cards cards p id b : find_card p id (with_cards cards b) =
  match cards !! id with Some card => if card_ProjectID card == p then Some card else None | None => None end.
Proof. done. Qed.
Lemma put_card_inv card t t' : put_card card t = Ok (tt, t') ->
  card_constraints card = true /\ tx_board t' = with_cards (<[card_ID card := card]> (bd_cards (tx_board t))) (tx_board t).
Proof. unfold put_card. intros H. guards H G. apply put_inv in H. split; [by apply negb_false_iff in G|done]. Qed.
(** A write that keeps the key of the row. *)
Definition keeps_identity (set : DBScrumCard -> DBScrumCard) : Prop :=
  forall card, card_ID (set card) = card_ID card /\ card_ProjectID (set card) = card_ProjectID card.
Lemma update_card_inv p id set t n t' : update_card p id set t = Ok (n, t') ->
  (n = 0 /\ t' = t /\ find_card p id (tx_board t) = None) \/
  exists card, n = 1 /\ find_card p id (tx_board t) = Some card /\ card_constraints (set card) = true /\
    tx_board t' = with_cards (<[card_ID (set card) := set card]> (bd_cards (tx_board t))) (tx_board t).
Proof.
  unfold update_card. intros H. runs H found t1 E. apply gets_inv in E as [-> ->].
  destruct (find_card p id (tx_board t)) as [card|] eqn:Ef.
  - runs H u t2 E. destruct u. apply put_card_inv in E as [Hc Hb]. apply ret_inv in H as [-> ->]. right. eauto.
  - apply ret_inv in H as [-> ->]. by left.
Qed.
