(* ===== verification/ScrumInv.v ===== *)
(** * The invariant of the Scrum board

    What every transaction keeps: cards under their own identity, play states with the
    column, the queue position and the job that belong to them, one running card and
    distinct queue positions per project, and channels whose messages are numbered
    without gaps. *)
From Stdlib Require Import Ascii.
From S2P Require Import Prelude Schema PathIdentity UserIntent JsonCodec Timestamp Scrum ScrumFlow ScrumBoard ScrumPlay ScrumEdit ScrumChannel ScrumFacts.
From stdpp Require Import sorting base tactics strings list gmap numbers pretty.
From stdpp Require Import list options.
Open Scope Z_scope.
Open Scope go_scope.

(** ** The invariant *)

(** The four fields of a card that say how it is played. *)
Definition play_shape (card : DBScrumCard) : Prop :=
  (card_PlayState card = "running" /\ card_Column card = "in_progress" /\ card_QueueOrder card = 0 /\ is_Some (parse_job_id (card_JobID card))) \/
  (card_PlayState card = "queued" /\ card_Column card = "assigned" /\ 1 <= card_QueueOrder card) \/
  (card_PlayState card = "paused" /\ card_QueueOrder card = 0 /\ card_JobID card = "") \/
  (card_PlayState card = "" /\ card_QueueOrder card = 0).
(** No card of the project but [id] is running. *)
Definition runs_alone (p : Z) (id : string) (b : Board) : Prop :=
  forall id' card, bd_cards b !! id' = Some card -> card_ProjectID card = p -> card_PlayState card = "running" -> id' = id.
(** No queued card of the project but [id] has the position. *)
Definition queues_alone (p : Z) (id : string) (order : Z) (b : Board) : Prop :=
  forall id' card, bd_cards b !! id' = Some card -> card_ProjectID card = p -> card_PlayState card = "queued" ->
    card_QueueOrder card = order -> id' = id.
Definition ordinals (p : Z) (id : string) (b : Board) : list Z := sm_Ordinal <$> filter (message_of p id) (bd_messages b).

(** No Scrum job names a source: [JobMetadata] has no such field. *)
Definition unsourced (job : ScrumJob) : Prop := job_Pipeline job = PipelineScrum -> metadata_field "source" job = None.

Record board_inv (b : Board) : Prop := {
  inv_key : forall id card, bd_cards b !! id = Some card -> card_ID card = id;
  inv_checked : forall id card, bd_cards b !! id = Some card -> card_constraints card = true;
  inv_shape : forall id card, bd_cards b !! id = Some card -> play_shape card;
  inv_running : forall id card, bd_cards b !! id = Some card -> card_PlayState card = "running" -> runs_alone (card_ProjectID card) id b;
  inv_queue : forall id card, bd_cards b !! id = Some card -> card_PlayState card = "queued" ->
    queues_alone (card_ProjectID card) id (card_QueueOrder card) b;
  inv_ordinals : forall id card, bd_cards b !! id = Some card -> ordinals (card_ProjectID card) id b = seqZ 1 (card_ChannelMessageCount card);
  inv_owned : forall m, m ∈ bd_messages b -> exists card, bd_cards b !! sm_CardID m = Some card /\ card_ProjectID card = sm_ProjectID m;
  inv_source : forall id job, bd_jobs b !! id = Some job -> unsourced job
}.
Definition safe {A} (c : tx A) : Prop := forall t x t', board_inv (tx_board t) -> c t = Ok (x, t') -> board_inv (tx_board t').

Lemma safe_reads {A} (c : tx A) : reads c -> safe c.
Proof. intros H t x t' Hi E. by rewrite (H _ _ _ E). Qed.
Lemma safe_bind {A B} (c : tx A) (f : A -> tx B) : safe c -> (forall x, safe (f x)) -> safe (bind c f).
Proof. intros Hc Hf t x t' Hi H. runs H y t1 E. eapply Hf; [|exact H]. eapply Hc; [exact Hi|exact E]. Qed.
Lemma safe_fail {A} e : safe (fail (A := A) e).
Proof. by intros t x t' Hi E. Qed.
Lemma safe_ret {A} (x : A) : safe (ret x).
Proof. apply safe_reads, reads_ret. Qed.
Lemma safe_each {A} (f : A -> tx unit) l : (forall x, x ∈ l -> safe (f x)) -> safe (each f l).
Proof.
  induction l as [|x l IH]; intros H; [apply safe_ret|]. cbn [each]. apply safe_bind; [apply H; left|].
  intros _. apply IH. intros y Hy. apply H. by right.
Qed.
#[export] Hint Resolve safe_fail safe_ret : board.
(** Proves [safe] by the shape of the computation. *)
Ltac safely :=
  repeat match goal with
  | |- safe (bind _ _) => apply safe_bind; [|intros ?]
  | |- safe (if ?b then _ else _) => destruct b
  | |- safe (match ?x with _ => _ end) => destruct x
  | |- safe (let _ := _ in _) => cbv zeta
  end; auto with board; try (apply safe_reads; solve [auto with board]).

(** ** Writing one row *)

Lemma inv_alone b id card : board_inv b -> bd_cards b !! id = Some card ->
  (card_PlayState card = "running" -> runs_alone (card_ProjectID card) id b) /\
  (card_PlayState card = "queued" -> queues_alone (card_ProjectID card) id (card_QueueOrder card) b).
Proof. intros Hi Hc. split; intros Hp; [by eapply inv_running|by eapply inv_queue]. Qed.

(** A row whose new shape is right and whose running state or queue position is its
    own. *)
Lemma inv_write b id card card' :
  board_inv b -> bd_cards b !! id = Some card ->
  card_ID card' = card_ID card -> card_ProjectID card' = card_ProjectID card ->
  card_ChannelMessageCount card' = card_ChannelMessageCount card -> card_constraints card' = true ->
  play_shape card' ->
  (card_PlayState card' = "running" -> runs_alone (card_ProjectID card) id b) ->
  (card_PlayState card' = "queued" -> queues_alone (card_ProjectID card) id (card_QueueOrder card') b) ->
  board_inv (with_cards (<[id := card']> (bd_cards b)) b).
Proof.
  intros Hi Hc HID HP HM Hk' Hs Hr Hq. pose proof (inv_key b Hi id card Hc) as Hk.
  split; unfold runs_alone, queues_alone; cbn [bd_cards with_cards bd_messages].
  - intros id' c [[<- <-]|[Hne H]]%lookup_insert_Some; [congruence|by eapply inv_key].
  - intros id' c [[<- <-]|[Hne H]]%lookup_insert_Some; [done|by eapply inv_checked].
  - intros id' c [[<- <-]|[Hne H]]%lookup_insert_Some; [done|by eapply inv_shape].
  - intros id' c [[<- <-]|[Hne H]]%lookup_insert_Some Hp id2 c2 [[<- <-]|[Hne2 H2]]%lookup_insert_Some Hp2 Hr2; try done.
    + rewrite HP in Hp2. by eapply Hr.
    + rewrite HP in Hp2. symmetry. eapply Hr; [done|exact H|done|done].
    + by eapply inv_running.
  - intros id' c [[<- <-]|[Hne H]]%lookup_insert_Some Hp id2 c2 [[<- <-]|[Hne2 H2]]%lookup_insert_Some Hp2 Hr2 Ho; try done.
    + rewrite HP in Hp2. by eapply Hq.
    + rewrite HP in Hp2. symmetry. eapply Hq; [done|exact H|done|done|done].
    + by eapply inv_queue.
  - intros id' c [[<- <-]|[Hne H]]%lookup_insert_Some.
    + rewrite HP, HM. by eapply (inv_ordinals b).
    + by eapply (inv_ordinals b).
  - intros m Hm. destruct (inv_owned b Hi m Hm) as (c & H & Hp). destruct (decide (sm_CardID m = id)) as [E|Hne].
    + rewrite E in *. exists card'. rewrite lookup_insert_eq. split; [done|]. rewrite HP. congruence.
    + exists c. by rewrite lookup_insert_ne.
  - by eapply (inv_source b).
Qed.

(** Writes that leave alone who a card is, how it is played and its channel; the column
    of a card that is not in play is free. *)
Definition quiet (card card' : DBScrumCard) : Prop :=
  card_ID card' = card_ID card /\ card_ProjectID card' = card_ProjectID card /\
  card_ChannelMessageCount card' = card_ChannelMessageCount card /\
  card_PlayState card' = card_PlayState card /\ card_QueueOrder card' = card_QueueOrder card /\ card_JobID card' = card_JobID card /\
  (card_Column card' = card_Column card \/ (card_PlayState card <> "running" /\ card_PlayState card <> "queued")).
Lemma quiet_shape card card' : quiet card card' -> play_shape card -> play_shape card'.
Proof. intros (_ & _ & _ & Hp & Hq & Hj & Hc) Hs. unfold play_shape in *. rewrite Hp, Hq, Hj. destruct Hc as [->|[]]; naive_solver. Qed.
Lemma inv_quiet b id card card' : board_inv b -> bd_cards b !! id = Some card -> quiet card card' -> card_constraints card' = true ->
  board_inv (with_cards (<[id := card']> (bd_cards b)) b).
Proof.
  intros Hi Hc Hq Hk. destruct (inv_alone b id card Hi Hc) as [Hr Hu]. pose proof (quiet_shape _ _ Hq (inv_shape b Hi id card Hc)) as Hs.
  destruct Hq as (HID & HP & HM & Hp & Ho & Hj & _). eapply inv_write; eauto; rewrite Hp; [done|]. rewrite Ho. done.
Qed.
Lemma safe_update p id set : (forall card, quiet card (set card)) -> safe (update_card p id set).
Proof.
  intros Hs t n t' Hi H. apply update_card_inv in H as [(_ & -> & _)|(card & _ & Hf & Hk & ->)]; [done|].
  apply find_card_spec in Hf as [Hf Hp]. destruct (Hs card) as (HID & _). rewrite HID, (inv_key _ Hi _ _ Hf).
  by eapply inv_quiet.
Qed.
(** Writes that change other tables. *)
Lemma safe_put f : (forall b, bd_cards (f b) = bd_cards b /\ bd_messages (f b) = bd_messages b /\ bd_jobs (f b) = bd_jobs b) -> safe (put f).
Proof.
  intros Hf t [] t' Hi H. apply put_inv in H. rewrite H. destruct (Hf (tx_board t)) as (Hc & Hm & Hj). destruct Hi.
  split; unfold runs_alone, queues_alone, ordinals; rewrite ?Hc, ?Hm, ?Hj; eauto.
Qed.
Lemma safe_touch p seen updated : safe (touch_project p seen updated).
Proof. unfold touch_project. safely. by apply safe_put. Qed.
Lemma safe_put_job id job : unsourced job -> safe (put_job id job).
Proof.
  intros Hj t [] t' Hi H. apply put_inv in H. rewrite H. destruct Hi as [K C S R Q O W U]. split; try done.
  cbn [bd_jobs]. intros i j [[<- <-]|[_ E]]%lookup_insert_Some; [done|by eapply U].
Qed.
Lemma status_unsourced status job : unsourced job -> unsourced (with_status status job).
Proof. done. Qed.
Lemma find_job_inv id missing t job t' : find_job id missing t = Ok (job, t') -> t' = t /\ bd_jobs (tx_board t) !! id = Some job.
Proof.
  unfold find_job. intros H. runs H found t1 E. apply gets_inv in E as [-> ->].
  destruct (bd_jobs (tx_board t) !! id); [|done]. by apply ret_inv in H as [-> ->].
Qed.
Lemma safe_found {A} id missing (f : ScrumJob -> tx A) : (forall job, unsourced job -> safe (f job)) -> safe (bind (find_job id missing) f).
Proof.
  intros Hf t x t' Hi H. runs H job t1 E. apply find_job_inv in E as [-> E]. eapply Hf; [|exact Hi|exact H]. by eapply inv_source.
Qed.
#[export] Hint Resolve safe_touch status_unsourced : board.
#[export] Hint Resolve safe_put_job : board.
Lemma safe_touch_play env p : safe (touchScrumPlayProjectTx env p).
Proof. unfold touchScrumPlayProjectTx. safely. Qed.
Lemma safe_touch_uncounted env p : safe (touch_uncounted env p).
Proof. unfold touch_uncounted. safely. Qed.
Lemma safe_metrics p id deltas : safe (updateScrumFlowMetricsTx p id deltas).
Proof. unfold updateScrumFlowMetricsTx. safely. apply safe_update. intros card. repeat split; auto. Qed.
#[export] Hint Resolve safe_touch_play safe_touch_uncounted safe_metrics : board.
Lemma safe_deltas p id deltas : safe (applyScrumFlowMetricDeltasTx p id deltas).
Proof. unfold applyScrumFlowMetricDeltasTx. safely. Qed.
#[export] Hint Resolve safe_deltas : board.
Lemma safe_state_metrics previous next outcome : safe (applyScrumCardStateMetricsTx previous next outcome).
Proof. unfold applyScrumCardStateMetricsTx. safely. Qed.
#[export] Hint Resolve safe_state_metrics : board.

(** ** Messages *)

Lemma ordinals_app p id b m : ordinals p id (mkBoard (bd_projects b) (bd_cards b) (bd_messages b ++ [m]) (bd_jobs b) (bd_registry b) (bd_operations b)) =
  ordinals p id b ++ (if bool_decide (message_of p id m) then [sm_Ordinal m] else []).
Proof.
  unfold ordinals. cbn [bd_messages]. rewrite filter_app, fmap_app. f_equal. case_bool_decide as H.
  - by rewrite filter_cons_True.
  - by rewrite filter_cons_False.
Qed.
Lemma message_of_key p id m : message_of p id m -> sm_ProjectID m = p /\ sm_CardID m = id.
Proof. done. Qed.

Lemma constraints_count card : card_constraints card = true -> 0 <= card_ChannelMessageCount card <= maxScrumFlowWideCounter.
Proof. unfold card_constraints. intros H. reflect. lia. Qed.
(** An appended message and the counters of its card. *)
Lemma inv_append b p id card card' m :
  board_inv b -> find_card p id b = Some card -> quiet (card <| card_ChannelMessageCount := card_ChannelMessageCount card + 1 |>) card' ->
  message_of p id m -> sm_Ordinal m = card_ChannelMessageCount card + 1 -> card_constraints card' = true ->
  board_inv (with_cards (<[id := card']> (bd_cards b))
    (mkBoard (bd_projects b) (bd_cards b) (bd_messages b ++ [m]) (bd_jobs b) (bd_registry b) (bd_operations b))).
Proof.
  intros Hi Hf Hq Hm Ho Hk. apply find_card_spec in Hf as [Hc Hp].
  set (b1 := mkBoard _ _ _ _ _ _). pose proof (constraints_count card (inv_checked b Hi id card Hc)) as Hn.
  assert (board_inv (with_cards (<[id := card' <| card_ChannelMessageCount := card_ChannelMessageCount card |>]> (bd_cards b)) b)) as Hw.
  { eapply inv_quiet; [done|exact Hc| |].
    - destruct Hq as (H1 & H2 & H3 & H4 & H5 & H6 & H7). split_and!; done.
    - unfold card_constraints in *. card_simpl. reflect. rewrite !andb_true_iff, !Z.leb_le. split_and!; try done; [by apply bool_decide_eq_true|lia|lia]. }
  destruct Hw as [K C S R Q O W _].
  assert (forall id2 c2, <[id := card']> (bd_cards b) !! id2 = Some c2 -> exists c1,
    <[id := card' <| card_ChannelMessageCount := card_ChannelMessageCount card |>]> (bd_cards b) !! id2 = Some c1 /\
    card_ID c1 = card_ID c2 /\ card_ProjectID c1 = card_ProjectID c2 /\ card_PlayState c1 = card_PlayState c2 /\
    card_QueueOrder c1 = card_QueueOrder c2 /\ card_JobID c1 = card_JobID c2 /\ card_Column c1 = card_Column c2) as Hsim.
  { intros id2 c2 [[<- <-]|[Hne H]]%lookup_insert_Some.
    - eexists. rewrite lookup_insert_eq. split; [reflexivity|]. repeat split.
    - exists c2. by rewrite lookup_insert_ne. }
  split; unfold runs_alone, queues_alone; cbn [bd_cards with_cards bd_messages].
  - intros id2 c2 (c1 & H & E & _)%Hsim. rewrite <-E. by eapply K.
  - intros id2 c2 [[<- <-]|[Hne H]]%lookup_insert_Some; [done|by eapply (inv_checked b)].
  - intros id2 c2 (c1 & H & _ & _ & E1 & E2 & E3 & E4)%Hsim. pose proof (S _ _ H) as HS. unfold play_shape in *. congruence.
  - intros id2 c2 (c1 & H & _ & P1 & E1 & _)%Hsim Hr id3 c3 (c4 & H' & _ & P2 & E5 & _)%Hsim Hp3 Hr3.
    eapply (R id2 c1); [done|congruence|exact H'|congruence|congruence].
  - intros id2 c2 (c1 & H & _ & P1 & E1 & E2 & _)%Hsim Hr id3 c3 (c4 & H' & _ & P2 & E5 & E6 & _)%Hsim Hp3 Hr3 Ho3.
    eapply (Q id2 c1); [done|congruence|exact H'|congruence..].
  - intros id2 c2 H2. change (ordinals (card_ProjectID c2) id2 b1 = seqZ 1 (card_ChannelMessageCount c2)).
    unfold b1. rewrite ordinals_app. apply lookup_insert_Some in H2 as [[<- <-]|[Hne H2]].
    + destruct Hq as (_ & HP & HM & _). cbn in HP, HM. rewrite HP, HM, Hp. rewrite bool_decide_eq_true_2 by done.
      rewrite <-Hp, (inv_ordinals b Hi id card Hc), Ho. rewrite seqZ_app by lia. f_equal. rewrite seqZ_cons by lia.
      rewrite Z.add_comm. f_equal.
    + rewrite bool_decide_eq_false_2, app_nil_r; [by apply (inv_ordinals b)|]. intros [_ E]. destruct Hm as [_ E']. congruence.
  - intros m' [Hm'|Hm']%elem_of_app.
    + destruct (W m' Hm') as (c & H & Hpc). cbn [bd_cards with_cards] in H. apply lookup_insert_Some in H as [[E <-]|[Hne H]].
      * exists card'. rewrite <-E, lookup_insert_eq. by split.
      * exists c. by rewrite lookup_insert_ne.
    + apply list_elem_of_singleton in Hm' as ->. destruct Hm as [E1 E2]. exists card'. rewrite E2, lookup_insert_eq. split; [done|].
      destruct Hq as (_ & HP & _). cbn in HP. congruence.
  - by eapply (inv_source b).
Qed.


(** What a run of the append did. *)
Lemma insert_message_inv env p id m0 t stored t' : insertScrumCardMessageTx env p id m0 t = Ok (stored, t') ->
  exists card now, normalizeScrumCardMessageAppend m0 = Ok m0 /\ find_card p id (tx_board t) = Some card /\
    let b := tx_board t in
    let card' := card <| card_ChannelMessageCount := card_ChannelMessageCount card + 1 |>
      <| card_ChannelContentBytes := card_ChannelContentBytes card + content_bytes m0 |> <| card_UpdatedAt := advance now card |> in
    message_of p id stored /\ sm_Ordinal stored = card_ChannelMessageCount card + 1 /\ sm_Append stored = m0 /\
    card_constraints card' = true /\ message_allowed p id m0 b = true /\ bound_message p id m0 b = true /\
    tx_board t' = with_cards (<[card_ID card := card']> (bd_cards b))
      (mkBoard (bd_projects b) (bd_cards b) (bd_messages b ++ [stored]) (bd_jobs b) (bd_registry b) (bd_operations b)).
Proof.
  unfold insertScrumCardMessageTx. intros H. runs H m t1 E. apply lift_inv in E as [Hn ->].
  assert (m = m0) as ->.
  { unfold normalizeScrumCardMessageAppend in Hn. split_ok Hn. by destruct Hn. }
  runs H found t1 E. apply gets_inv in E as [-> ->].
  destruct (find_card p id (tx_board t)) as [card|] eqn:Hf; [|done].
  guards H G1. runs H bound t1 E. apply gets_inv in E as [-> ->]. guards H G2.
  runs H now t1 E. injection E as <- <-. runs H allowed t1 E. apply gets_inv in E as [-> ->]. cbn [tx_board] in *. guards H G3.
  cbv zeta in H. runs H u t1 E. destruct u. unfold store_message in E. apply put_inv in E. cbn [tx_board] in E.
  runs H now2 t2 E2. injection E2 as <- <-. runs H n t3 E3. apply ret_inv in H as [-> ->].
  apply update_card_inv in E3 as [(_ & _ & Hno)|(card2 & _ & Hf2 & Hk & Hb)].
  { exfalso. cbn [tx_board] in Hno. rewrite E in Hno. unfold find_card in Hno, Hf. cbn [bd_cards] in Hno. congruence. }
  cbn [tx_board] in Hf2, Hb. rewrite E in Hf2, Hb.
  assert (card2 = card) as -> by (unfold find_card in Hf2, Hf; cbn [bd_cards] in Hf2; congruence).
  exists card. eexists. split; [exact Hn|]. split; [done|]. apply negb_false_iff in G2. apply orb_false_iff in G3 as [G3 _].
  apply negb_false_iff in G3. split; [|split; [|split; [|split; [|split; [|split]]]]]; [..|exact Hb]; [done..|exact Hk|done|done].
Qed.

Lemma safe_insert env p id m : safe (insertScrumCardMessageTx env p id m).
Proof.
  intros t stored t' Hi H. apply insert_message_inv in H as (card & now & _ & Hf & Hm & Ho & _ & Hk & _ & _ & ->).
  assert (card_ID card = id) as Hid.
  { apply find_card_spec in Hf as [Hc _]. by eapply inv_key. }
  rewrite Hid. eapply inv_append; eauto. repeat split; auto.
Qed.
#[export] Hint Resolve safe_insert : board.
Lemma safe_append env p id role content : safe (appendScrumPlayMessageTx env p id role content).
Proof. unfold appendScrumPlayMessageTx. safely. Qed.
#[export] Hint Resolve safe_append : board.

(** ** The field update *)

Definition own_state (card : DBScrumCard) (b : Board) : Prop :=
  play_shape card /\
  (card_PlayState card = "running" -> runs_alone (card_ProjectID card) (card_ID card) b) /\
  (card_PlayState card = "queued" -> queues_alone (card_ProjectID card) (card_ID card) (card_QueueOrder card) b).

Lemma update_fields_inv env card t u t' : updateScrumCardFieldsTx env card t = Ok (u, t') ->
  exists row, find_card (card_ProjectID card) (card_ID card) (tx_board t) = Some row /\ validateStoredScrumCard card = Ok tt /\
    let row' := row <| card_Title := card_Title card |> <| card_Description := card_Description card |> <| card_Column := card_Column card |>
        <| card_Checklist := card_Checklist card |> <| card_RefFiles := card_RefFiles card |>
        <| card_CardTicket := card_CardTicket card |> <| card_CardPrompt := card_CardPrompt card |>
        <| card_Tags := card_Tags card |> <| card_TestCriteria := card_TestCriteria card |>
        <| card_JobID := card_JobID card |> <| card_PlayState := card_PlayState card |>
        <| card_QueueOrder := card_QueueOrder card |> <| card_BoardOrder := card_BoardOrder card |>
        <| card_UpdatedAt := env_now env |> in
    card_constraints row' = true /\ tx_board t' = with_cards (<[card_ID row := row']> (bd_cards (tx_board t))) (tx_board t).
Proof.
  unfold updateScrumCardFieldsTx. intros H. runs H v t1 E. apply lift_inv in E as [Hv ->]. destruct v. runs H n t1 E.
  guards H G. apply ret_inv in H as [-> ->]. apply negb_false_iff, Z.eqb_eq in G.
  apply update_card_inv in E as [(-> & _)|(row & _ & Hf & Hk & Hb)]; [done|]. exists row. done.
Qed.
Lemma safe_fields env card t u t' : board_inv (tx_board t) -> (validateStoredScrumCard card = Ok tt -> own_state card (tx_board t)) ->
  updateScrumCardFieldsTx env card t = Ok (u, t') -> board_inv (tx_board t').
Proof.
  intros Hi Hown H. apply update_fields_inv in H as (row & Hf & Hv & Hk & ->). destruct (Hown Hv) as (Hs & Hr & Hq). apply find_card_spec in Hf as [Hc Hp].
  rewrite (inv_key _ Hi _ _ Hc). eapply inv_write; eauto; card_simpl; rewrite Hp; auto.
Qed.

(** ** Pausing *)

Lemma paused_state card b : own_state (card <| card_Column := "assigned" |> <| card_PlayState := "paused" |> <| card_QueueOrder := 0 |> <| card_JobID := "" |>) b.
Proof. split; [right; right; left; card_simpl; auto|]. card_simpl. by split. Qed.
Lemma safe_set_paused env card note : safe (setScrumCardPausedTx env card note).
Proof.
  unfold setScrumCardPausedTx. cbv zeta. intros t x t' Hi H. runs H u t1 E.
  apply safe_fields in E; [|done|intros _; apply paused_state]. revert H. generalize E. clear. revert t1 x t'.
  change (safe (exec appendScrumPlayMessageTx env (card_ProjectID card) (card_ID card) "system" note;
    ret (card <| card_Column := "assigned" |> <| card_PlayState := "paused" |> <| card_QueueOrder := 0 |> <| card_JobID := "" |>))).
  safely.
Qed.
#[export] Hint Resolve safe_set_paused : board.
Lemma safe_cancel env id : safe (cancelJobTx env id).
Proof. unfold cancelJobTx. destruct (id <=? 0); [auto with board|]. apply safe_found. intros job Hj. safely. Qed.
#[export] Hint Resolve safe_cancel : board.
Lemma safe_pause_running env card : safe (pauseRunningScrumCardTx env card).
Proof. unfold pauseRunningScrumCardTx. safely. Qed.
Lemma safe_pause_queued env card note : safe (pause_queued env card note).
Proof. unfold pause_queued. safely. Qed.
#[export] Hint Resolve safe_pause_running safe_pause_queued : board.
Theorem safe_pause env p id revision : safe (PauseScrumCardPlayAtRevision env p id revision).
Proof. unfold PauseScrumCardPlayAtRevision. safely. Qed.

(** ** What a statement leaves alone *)

(** Where a card is and how it is played. *)
Definition state_of (card : DBScrumCard) : Z * string * string * Z * string * Z :=
  (card_ProjectID card, card_Column card, card_PlayState card, card_QueueOrder card, card_JobID card, card_BoardOrder card).
Definition states (b : Board) : gmap string (Z * string * string * Z * string * Z) := state_of <$> bd_cards b.
(** A computation that moves and plays no card. *)
Definition calm {A} (c : tx A) : Prop :=
  forall t x t', board_inv (tx_board t) -> c t = Ok (x, t') -> board_inv (tx_board t') /\ states (tx_board t') = states (tx_board t).
Lemma calm_reads {A} (c : tx A) : reads c -> calm c.
Proof. intros H t x t' Hi E. by rewrite (H _ _ _ E). Qed.
Lemma calm_bind {A B} (c : tx A) (f : A -> tx B) : calm c -> (forall x, calm (f x)) -> calm (bind c f).
Proof.
  intros Hc Hf t x t' Hi H. runs H y t1 E. destruct (Hc _ _ _ Hi E) as [Hi1 E1]. destruct (Hf _ _ _ _ Hi1 H) as [Hi2 E2].
  split; [done|congruence].
Qed.
Lemma calm_fail {A} e : calm (fail (A := A) e).
Proof. by intros t x t' Hi E. Qed.
Lemma calm_ret {A} (x : A) : calm (ret x).
Proof. apply calm_reads, reads_ret. Qed.
Lemma calm_each {A} (f : A -> tx unit) l : (forall x, x ∈ l -> calm (f x)) -> calm (each f l).
Proof.
  induction l as [|x l IH]; intros H; [apply calm_ret|]. cbn [each]. apply calm_bind; [apply H; left|].
  intros _. apply IH. intros y Hy. apply H. by right.
Qed.
Ltac calmly :=
  repeat match goal with
  | |- calm (bind _ _) => apply calm_bind; [|intros ?]
  | |- calm (if ?b then _ else _) => destruct b
  | |- calm (match ?x with _ => _ end) => destruct x
  | |- calm (let _ := _ in _) => cbv zeta
  end; auto with board; try (apply calm_reads; solve [auto with board]).
#[export] Hint Resolve calm_fail calm_ret : board.
Lemma calm_put f : (forall b, bd_cards (f b) = bd_cards b /\ bd_messages (f b) = bd_messages b /\ bd_jobs (f b) = bd_jobs b) -> calm (put f).
Proof.
  intros Hf t [] t' Hi H. split; [by eapply safe_put|]. apply put_inv in H. unfold states. rewrite H. by destruct (Hf (tx_board t)) as [-> _].
Qed.
Lemma calm_update p id set : (forall card, quiet card (set card) /\ state_of (set card) = state_of card) -> calm (update_card p id set).
Proof.
  intros Hs t n t' Hi H. split; [eapply safe_update; [|exact Hi|exact H]; intros card; apply Hs|].
  apply update_card_inv in H as [(_ & -> & _)|(card & _ & Hf & _ & ->)]; [done|]. apply find_card_spec in Hf as [Hf _].
  unfold states. cbn [bd_cards with_cards]. rewrite fmap_insert. destruct (Hs card) as [(HID & _) ->].
  rewrite HID, (inv_key _ Hi _ _ Hf). apply insert_id. rewrite lookup_fmap, Hf. done.
Qed.
Lemma calm_touch p seen updated : calm (touch_project p seen updated).
Proof. unfold touch_project. calmly. by apply calm_put. Qed.
Lemma calm_put_job id job : unsourced job -> calm (put_job id job).
Proof.
  intros Hj t [] t' Hi H. split; [by eapply safe_put_job|]. apply put_inv in H. unfold states. by rewrite H.
Qed.
Lemma calm_found {A} id missing (f : ScrumJob -> tx A) : (forall job, unsourced job -> calm (f job)) -> calm (bind (find_job id missing) f).
Proof.
  intros Hf t x t' Hi H. runs H job t1 E. apply find_job_inv in E as [-> E]. eapply Hf; [|exact Hi|exact H]. by eapply inv_source.
Qed.
#[export] Hint Resolve calm_touch calm_put_job : board.
Lemma calm_touch_play env p : calm (touchScrumPlayProjectTx env p).
Proof. unfold touchScrumPlayProjectTx. calmly. Qed.
Lemma calm_touch_uncounted env p : calm (touch_uncounted env p).
Proof. unfold touch_uncounted. calmly. Qed.
Lemma calm_metrics p id deltas : calm (updateScrumFlowMetricsTx p id deltas).
Proof. unfold updateScrumFlowMetricsTx. calmly. apply calm_update. intros card. repeat split; auto. Qed.
#[export] Hint Resolve calm_touch_play calm_touch_uncounted calm_metrics : board.
Lemma calm_deltas p id deltas : calm (applyScrumFlowMetricDeltasTx p id deltas).
Proof. unfold applyScrumFlowMetricDeltasTx. calmly. Qed.
#[export] Hint Resolve calm_deltas : board.
Lemma calm_state_metrics previous next outcome : calm (applyScrumCardStateMetricsTx previous next outcome).
Proof. unfold applyScrumCardStateMetricsTx. calmly. Qed.
Lemma calm_insert env p id m : calm (insertScrumCardMessageTx env p id m).
Proof.
  intros t stored t' Hi H. split; [by eapply safe_insert|]. apply insert_message_inv in H as (card & now & _ & Hf & _ & _ & _ & _ & _ & _ & ->).
  apply find_card_spec in Hf as [Hf _]. unfold states. cbn [bd_cards with_cards]. rewrite fmap_insert. apply insert_id.
  rewrite lookup_fmap, (inv_key _ Hi _ _ Hf), Hf. done.
Qed.
#[export] Hint Resolve calm_state_metrics calm_insert : board.
Lemma calm_append env p id role content : calm (appendScrumPlayMessageTx env p id role content).
Proof. unfold appendScrumPlayMessageTx. calmly. Qed.
Lemma calm_cancel env id : calm (cancelJobTx env id).
Proof. unfold cancelJobTx. destruct (id <=? 0); [auto with board|]. apply calm_found. intros job Hj. calmly. Qed.
#[export] Hint Resolve calm_append calm_cancel : board.
Lemma alone_states p id b b' : states b' = states b -> runs_alone p id b -> runs_alone p id b'.
Proof.
  intros Hs H id' card Hc Hp Hr. assert (states b' !! id' = Some (state_of card)) as E by (unfold states; by rewrite lookup_fmap, Hc).
  rewrite Hs in E. unfold states in E. rewrite lookup_fmap in E. destruct (bd_cards b !! id') as [c|] eqn:Ec; [|done].
  injection E as E1 E2 E3 E4 E5 E6. eapply H; [exact Ec|congruence|congruence].
Qed.

(** ** Starting and queueing *)

Lemma running_inv env p t found t' : findRunningScrumCardTx env p t = Ok (found, t') -> board_inv (tx_board t) ->
  t' = t /\ match found with
  | None => forall id, runs_alone p id (tx_board t)
  | Some card => runs_alone p (card_ID card) (tx_board t) /\ bd_cards (tx_board t) !! card_ID card = Some card /\
                 card_ProjectID card = p /\ card_PlayState card = "running" /\ validateStoredScrumCard card = Ok tt
  end.
Proof.
  intros H Hi. unfold findRunningScrumCardTx, select_cards in H. runs H rows t1 E. apply gets_inv in E as [Erows ->].
  assert (forall card, card ∈ rows <-> card ∈ project_cards p (tx_board t) /\ card_PlayState card = "running") as Hrows.
  { intros card. rewrite Erows, merge_sort_Permutation, list_elem_of_filter. unfold in_state. rewrite bool_decide_eq_true. tauto. }
  destruct rows as [|card more].
  - apply ret_inv in H as [-> ->]. split; [done|]. intros id id' c Hc Hp Hr. exfalso.
    assert (c ∈ []) as Hin by (apply Hrows; split; [apply project_cards_spec; eauto|done]). inversion Hin.
  - runs H u t1 E. apply scan_inv in E as (_ & -> & Hv). guards H G. apply ret_inv in H as [-> ->]. split; [done|].
    apply negb_false_iff, bool_decide_eq_true in G. subst more.
    assert (card ∈ [card]) as Hin by left. apply Hrows in Hin as [Hin Hr]. apply project_cards_spec in Hin as (id & Hc & Hp).
    pose proof (inv_key _ Hi _ _ Hc) as Hk. rewrite <-Hk in Hc. split; [|done]. intros id' c Hc' Hp' Hr'.
    assert (c ∈ [card]) as Hin by (apply Hrows; split; [apply project_cards_spec; eauto|done]).
    apply list_elem_of_singleton in Hin as ->. by rewrite (inv_key _ Hi _ _ Hc').
Qed.

(** Only the cards matter for who runs. *)
Lemma alone_cards p id b b' : bd_cards b' = bd_cards b -> runs_alone p id b -> runs_alone p id b'.
Proof. unfold runs_alone. by intros ->. Qed.
Lemma metadata_unsourced p instruction m : unsourced (mkJob p PipelineScrum JobStatusPending instruction (encode_metadata m)).
Proof. done. Qed.
Lemma enqueue_cards env instruction p metadata t id t' : enqueueScrumJobTx env instruction p metadata t = Ok (id, t') ->
  board_inv (tx_board t) -> bd_cards (tx_board t') = bd_cards (tx_board t) /\ board_inv (tx_board t').
Proof.
  unfold enqueueScrumJobTx, enqueueJobWithStepsTx. intros H Hi. guards H G. runs H c t1 E. apply lift_inv in E as [_ ->]. cbv zeta in H.
  runs H v t1 E. apply lift_inv in E as [_ ->]. runs H w t1 E. apply lift_inv in E as [_ ->].
  runs H taken t1 E. apply gets_inv in E as [_ ->]. guards H G2. runs H u t1 E. destruct u. pose proof (safe_put_job _ _ (metadata_unsourced _ _ _) _ _ _ Hi E) as Hi'.
  apply put_inv in E. apply ret_inv in H as [_ ->]. split; [by rewrite E|done].
Qed.
Lemma parse_job_text id : 0 < id -> int64 id -> parse_job_id (job_text id) = Some id.
Proof.
  intros Hp Hr. unfold parse_job_id, job_text. change (bytes (of_bytes (itoa id))) with (String.list_ascii_of_string (String.string_of_list_ascii (itoa id))).
  rewrite String.list_ascii_of_string_of_list_ascii, atoi_itoa by done. rewrite (proj2 (Z.ltb_lt 0 id)) by done.
  by rewrite bool_decide_eq_true_2.
Qed.
(** A stored card names no job or one canonical positive identity. *)
Lemma stored_job card : validateStoredScrumCard card = Ok tt -> card_JobID card <> "" -> is_Some (parse_job_id (card_JobID card)).
Proof.
  unfold validateStoredScrumCard. intros H Hne. split_ok H. reflect.
  match goal with G : ((card_JobID card != "") && _)%bool = false |- _ => rename G into Gj end. apply andb_false_iff in Gj as [Gj|Gj].
  - apply negb_false_iff, bool_decide_eq_true in Gj. done.
  - apply negb_false_iff in Gj. unfold canonicalPositiveDecimal in Gj. by apply bool_decide_eq_true in Gj.
Qed.
Lemma job_text_nonempty id : job_text id <> "".
Proof.
  unfold job_text. intros H. assert (itoa id = []) as E.
  { rewrite <-(String.list_ascii_of_string_of_list_ascii (itoa id)). change (String.list_ascii_of_string (String.string_of_list_ascii (itoa id))) with (bytes (of_bytes (itoa id))). by rewrite H. }
  unfold itoa in E. destruct id as [|p|p]; [done| |].
  - change (pretty (Z.pos p)) with (pretty (N.pos p)) in E. destruct (numeral (N.pos p)) as (ds & Eds & _ & _ & Hn). congruence.
  - by change (pretty (Z.neg p)) with ("-" +:+ pretty (N.pos p)) in E.
Qed.

(** The rest of a run whose remaining calls are safe. *)
Ltac rest_safe H :=
  match type of H with ?c ?t = Ok (?x, ?t') => let S := fresh in assert (safe c) as S; [safely|eapply S; [|exact H]; eassumption] end.

(** Pausing changes the state of one card. *)
Definition paused_as (card : DBScrumCard) : DBScrumCard :=
  card <| card_Column := "assigned" |> <| card_PlayState := "paused" |> <| card_QueueOrder := 0 |> <| card_JobID := "" |>.
Lemma set_paused_states env card note t x t' : board_inv (tx_board t) -> setScrumCardPausedTx env card note t = Ok (x, t') ->
  x = paused_as card /\ states (tx_board t') = <[card_ID card := state_of (paused_as card)]> (states (tx_board t)).
Proof.
  unfold setScrumCardPausedTx. cbv zeta. fold (paused_as card). intros Hi H. runs H u t1 E.
  pose proof (safe_fields _ _ _ _ _ Hi (fun _ => paused_state card _) E) as Hi1. runs H u2 t2 E2. apply ret_inv in H as [-> ->]. split; [done|].
  destruct (calm_append _ _ _ _ _ _ _ _ Hi1 E2) as [_ ->]. apply update_fields_inv in E as (row & Hf & _ & _ & ->).
  apply find_card_spec in Hf as [Hc Hp]. unfold states. cbn [bd_cards with_cards]. rewrite fmap_insert, (inv_key _ Hi _ _ Hc). f_equal.
  unfold state_of. card_simpl. unfold paused_as in *. card_simpl. cbn in Hp. by rewrite Hp.
Qed.
Lemma pause_running_states env card t x t' : board_inv (tx_board t) -> pauseRunningScrumCardTx env card t = Ok (x, t') ->
  states (tx_board t') = <[card_ID card := state_of (paused_as card)]> (states (tx_board t)).
Proof.
  unfold pauseRunningScrumCardTx. intros Hi H. guards H G. destruct (parse_job_id (card_JobID card)) as [job|]; [|done].
  runs H noise t1 E. same_board E (reads_entropy env). guards H G2. rewrite <-B in Hi. rewrite <-B. runs H u t2 E2.
  destruct (calm_cancel _ _ _ _ _ Hi E2) as [Hi2 Es2]. runs H paused t3 E3. pose proof (safe_set_paused _ _ _ _ _ _ Hi2 E3) as Hi3.
  apply set_paused_states in E3 as [-> Es3]; [|done]. destruct (calm_state_metrics _ _ _ _ _ _ Hi3 H) as [_ ->]. congruence.
Qed.
Lemma pause_queued_states env card note t x t' : board_inv (tx_board t) -> pause_queued env card note t = Ok (x, t') ->
  states (tx_board t') = <[card_ID card := state_of (paused_as card)]> (states (tx_board t)).
Proof.
  unfold pause_queued. intros Hi H. guards H G. runs H paused t3 E3. pose proof (safe_set_paused _ _ _ _ _ _ Hi E3) as Hi3.
  apply set_paused_states in E3 as [-> Es3]; [|done]. by destruct (calm_state_metrics _ _ _ _ _ _ Hi3 H) as [_ ->].
Qed.

Lemma safe_prepare env card t x t' : board_inv (tx_board t) -> runs_alone (card_ProjectID card) (card_ID card) (tx_board t) ->
  prepareScrumCardPlayTx env card t = Ok (x, t') -> board_inv (tx_board t').
Proof.
  unfold prepareScrumCardPlayTx. intros Hi Ha H. guards H G. runs H authority t1 E. same_board E (reads_authority env card). rewrite <-B in Hi, Ha.
  destruct authority as [metadata instruction]. runs H job t2 E2. apply enqueue_cards in E2 as [Hc Hi2]; [|done].
  apply (alone_cards _ _ _ (tx_board t2)) in Ha; [|done]. cbv zeta in H. runs H u t3 E3. apply safe_fields in E3; [|done|].
  - rest_safe H.
  - intros Hv. apply stored_job in Hv; [|apply job_text_nonempty]. split; [left; by split_and!|]. by split.
Qed.

Lemma foldr_max_le z l x : x ∈ z :: l -> x <= foldr Z.max z l.
Proof.
  intros H. induction l as [|y l IH]; simpl in *.
  - apply list_elem_of_singleton in H as ->. lia.
  - apply elem_of_cons in H as [->|H]; [specialize (IH ltac:(left)); lia|]. apply elem_of_cons in H as [->|H]; [lia|].
    specialize (IH ltac:(right; done)). lia.
Qed.
Lemma max_order_le e l x : x ∈ l -> x <= max_order e l.
Proof. destruct l as [|z l]; [inversion 1|apply foldr_max_le]. Qed.
Lemma max_order_ge e l : (forall x, x ∈ l -> e <= x) -> e <= max_order e l.
Proof. destruct l as [|z l]; [simpl; lia|]. intros H. etransitivity; [apply (H z); left|]. apply foldr_max_le. left. Qed.
(** The end of the queue is behind every queued card. *)
Lemma queue_end_fresh p b id card : board_inv b -> bd_cards b !! id = Some card -> card_ProjectID card = p -> card_PlayState card = "queued" ->
  card_QueueOrder card < (queue_end p b).1.
Proof.
  intros Hi Hc Hp Hq. unfold queue_end. cbn [fst]. apply Z.lt_succ_r. apply max_order_le. apply list_elem_of_fmap. exists card. split; [done|].
  apply list_elem_of_filter. split; [done|]. apply project_cards_spec. eauto.
Qed.
Lemma queue_end_pos p b : board_inv b -> 1 <= (queue_end p b).1.
Proof.
  intros Hi. unfold queue_end. cbn [fst]. enough (0 <= max_order 0 (card_QueueOrder <$> filter (fun card => card_PlayState card = "queued") (project_cards p b))) by lia.
  apply max_order_ge. intros x (card & -> & Hin)%list_elem_of_fmap. apply list_elem_of_filter in Hin as [Hq Hin].
  apply project_cards_spec in Hin as (id & Hc & _). pose proof (inv_shape _ Hi _ _ Hc) as Hs. unfold play_shape in Hs. naive_solver lia.
Qed.
Lemma safe_queue env card : safe (queueScrumCardPlayTx env card).
Proof.
  unfold queueScrumCardPlayTx. intros t x t' Hi H. destruct (card_PlayState card == "queued"); [by apply ret_inv in H as [_ ->]|].
  runs H position t1 E. apply gets_inv in E as [-> ->]. guards H G. cbv zeta in H. runs H u t1 E. apply safe_fields in E; [rest_safe H|done|].
  intros _. split; [right; left; split_and!; try done; by apply queue_end_pos|]. split; [done|]. card_simpl. intros _ id' c Hc Hp Hq Ho.
  pose proof (queue_end_fresh _ _ _ _ Hi Hc Hp Hq). lia.
Qed.
#[export] Hint Resolve safe_queue : board.

Theorem safe_play env command : safe (ApplyScrumCardPlay env command).
Proof.
  unfold ApplyScrumCardPlay. intros t x t' Hi H. guards H G1. guards H G2. guards H G3.
  runs H u t1 E. same_board E (reads_begin (pc_ProjectID command)). rewrite <-B in Hi. clear E B.
  runs H card t2 E. apply select_inv in E as (-> & Hf & _). guards H G4.
  runs H found t2 E. apply running_inv in E as [-> Hr]; [|done]. apply find_card_spec in Hf as [Hc Hp].
  pose proof (inv_key _ Hi _ _ Hc) as Hk. destruct found as [running|].
  - destruct (card_ID running == card_ID card) eqn:Eid.
    + destruct (pc_Pivot command || (card_PlayState card == "running"))%bool; [by apply ret_inv in H as [_ ->]|done].
    + destruct (pc_Pivot command); [|by eapply safe_queue].
      runs H u2 t2 E. pose proof (safe_pause_running _ _ _ _ _ Hi E) as Hi2.
      destruct Hr as (Ha & Hrc & Hrp & Hrr & _). eapply safe_prepare; [exact Hi2| |exact H]. rewrite Hp.
      intros id' c Hc' Hp' Hr'. exfalso. apply pause_running_states in E; [|done].
      assert (states (tx_board t2) !! id' = Some (state_of c)) as Es by (unfold states; by rewrite lookup_fmap, Hc').
      rewrite E in Es. apply lookup_insert_Some in Es as [[<- Es]|[Hne Es]].
      * injection Es as _ _ Es _ _ _. rewrite Hr' in Es. done.
      * unfold states in Es. rewrite lookup_fmap in Es. destruct (bd_cards (tx_board t1) !! id') as [c1|] eqn:Ec1; [|done].
        injection Es as E1 _ E3 _ _ _. apply Hne. symmetry. eapply Ha; [exact Ec1|congruence|congruence].
  - eapply safe_prepare; [exact Hi| |exact H]. rewrite Hp. apply Hr.
Qed.
