(* ===== verification/ScrumReach.v ===== *)
(** * Reachable Scrum boards

    Every operation keeps the invariant of [ScrumInv.v]; the boards reachable by the
    operations, interleaved with what other components do to projects and jobs. *)
From Stdlib Require Import Ascii.
From S2P Require Import Prelude Schema PathIdentity UserIntent JsonCodec Timestamp Scrum ScrumFlow ScrumBoard ScrumPlay ScrumEdit ScrumChannel ScrumFacts ScrumInv.
From stdpp Require Import sorting base tactics strings list gmap numbers pretty.
From stdpp Require Import list options.
Open Scope Z_scope.
Open Scope go_scope.

(** ** Updates of a row *)

Lemma safe_update_at p id set t n t' : board_inv (tx_board t) ->
  (forall row, find_card p id (tx_board t) = Some row -> card_ID (set row) = card_ID row /\ card_ProjectID (set row) = card_ProjectID row /\
    card_ChannelMessageCount (set row) = card_ChannelMessageCount row /\ own_state (set row) (tx_board t)) ->
  update_card p id set t = Ok (n, t') -> board_inv (tx_board t').
Proof.
  intros Hi Hs H. apply update_card_inv in H as [(_ & -> & _)|(row & _ & Hf & Hk & ->)]; [done|].
  destruct (Hs row Hf) as (HID & HP & HM & Hsh & Hr & Hq). apply find_card_spec in Hf as [Hc _]. pose proof (inv_key _ Hi _ _ Hc) as Hkey.
  rewrite HID, Hkey. rewrite HP, HID, Hkey in Hr, Hq. eapply inv_write; eauto.
Qed.
(** A card that comes to rest. *)
Lemma idle_state card b : card_PlayState card = "" -> card_QueueOrder card = 0 -> own_state card b.
Proof. intros Hp Hq. split; [unfold play_shape; auto|]. by rewrite Hp. Qed.

Lemma safe_terminalize env id job status : safe (terminalizeScrumJobCardTx env id job status).
Proof.
  unfold terminalizeScrumJobCardTx. intros t x t' Hi H. destruct (job_Pipeline job != PipelineScrum); [by apply ret_inv in H as [_ ->]|].
  runs H row t1 E. same_board E (reads_find_job id "load Scrum job project authority: %w"). rewrite <-B in Hi. clear E B. cbv zeta in H.
  guards H G1. runs H rows t2 E. apply gets_inv in E as [Erows ->]. destruct rows as [|card more]; [done|].
  runs H u t2 E. apply scan_inv in E as (_ & -> & _). guards H G2. runs H expected t2 E.
  assert (tx_board t2 = tx_board t1) as B.
  { destruct (status == JobStatusCompleted); [by apply ret_inv in E as [_ ->]|]. destruct (_ || _)%bool; [by apply ret_inv in E as [_ ->]|done]. }
  rewrite <-B in Hi. clear E B. destruct expected as [column outcome]. destruct (_ && _)%bool; [by apply ret_inv in H as [_ ->]|].
  guards H G3. runs H now t3 E. same_board E (reads_clock env). rewrite <-B in Hi. clear E B. runs H n t4 E.
  apply safe_update_at in E; [|done|].
  - rest_safe H.
  - intros r _. card_simpl. split_and!; try done. by apply idle_state.
Qed.
#[export] Hint Resolve safe_terminalize : board.
Theorem safe_cancel_job env id : safe (CancelJob env id).
Proof. unfold CancelJob. safely. Qed.
Lemma safe_end env id status : safe (end_job env id status).
Proof. unfold end_job. apply safe_found. intros job Hj. safely. Qed.

(** ** Auto-work *)

Lemma safe_settings p v now : safe (write_settings p v now).
Proof. unfold write_settings. safely. by apply safe_put. Qed.
#[export] Hint Resolve safe_settings : board.
Theorem safe_config env p config : safe (SetScrumAutoWorkConfig env p config).
Proof. unfold SetScrumAutoWorkConfig. safely. Qed.

Lemma auto_card_inv env p columns t found t' : findProjectAutoWorkCardTx env p columns t = Ok (found, t') ->
  t' = t /\ match found with
  | None => True
  | Some card => exists id, bd_cards (tx_board t) !! id = Some card /\ card_ProjectID card = p
  end.
Proof.
  intros H. unfold findProjectAutoWorkCardTx, select_cards in H. runs H rows t1 E. apply gets_inv in E as [Erows ->].
  destruct rows as [|card more]; [by apply ret_inv in H as [-> ->]|].
  runs H u t1 E. apply scan_inv in E as (_ & -> & Hv). apply ret_inv in H as [-> ->]. split; [done|].
  assert (card ∈ merge_sort (ordered (auto_work_order env columns)) (filter (fun c => auto_work_candidate columns c = true) (project_cards p (tx_board t)))) as Hin
    by (rewrite <-Erows; left).
  rewrite merge_sort_Permutation, list_elem_of_filter in Hin. destruct Hin as [_ Hin]. by apply project_cards_spec in Hin.
Qed.
Lemma safe_start_auto env p config : safe (startProjectAutoWorkTx env p config).
Proof.
  unfold startProjectAutoWorkTx. intros t x t' Hi H. runs H found t1 E. apply running_inv in E as [-> Hr]; [|done].
  destruct found as [running|].
  - guards H G. destruct (parse_job_id (card_JobID running)); [by apply ret_inv in H as [_ ->]|done].
  - runs H chosen t1 E. apply auto_card_inv in E as [-> Hc]. destruct chosen as [card|]; [|by apply ret_inv in H as [_ ->]].
    destruct Hc as (id & Hc & Hp). runs H play t1 E. apply ret_inv in H as [_ ->]. eapply safe_prepare; [exact Hi| |exact E]. rewrite Hp. apply Hr.
Qed.
Lemma safe_pause_auto env p config : safe (pauseProjectAutoWorkTx env p config).
Proof.
  unfold pauseProjectAutoWorkTx. apply safe_bind; [safely|intros cards]. apply safe_bind; [apply safe_each; intros card _; safely|intros _].
  destruct (Nat.ltb _ _); [safely|]. apply safe_bind; [apply safe_each; intros card _; safely|intros _]. safely.
Qed.
#[export] Hint Resolve safe_start_auto safe_pause_auto : board.
Theorem safe_auto_work env p action : safe (ApplyProjectAutoWork env p action).
Proof. unfold ApplyProjectAutoWork. safely. Qed.

(** ** Edits *)

Lemma safe_refresh p id : safe (refreshScrumFlowMetricsTx p id).
Proof. apply safe_metrics. Qed.
#[export] Hint Resolve safe_refresh : board.

Lemma state_own b id card : board_inv b -> bd_cards b !! id = Some card -> forall card', card_ID card' = card_ID card -> card_ProjectID card' = card_ProjectID card ->
  card_PlayState card' = card_PlayState card -> card_Column card' = card_Column card -> card_QueueOrder card' = card_QueueOrder card ->
  card_JobID card' = card_JobID card -> own_state card' b.
Proof.
  intros Hi Hc card' HID HP H1 H2 H3 H4. destruct (inv_alone b id card Hi Hc) as [Hr Hq]. pose proof (inv_shape b Hi id card Hc) as Hs.
  pose proof (inv_key b Hi id card Hc) as Hk. split; [unfold play_shape in *; congruence|]. rewrite HID, HP, H1, H3, Hk. done.
Qed.
Theorem safe_edit env p id revision patch : safe (UpdateScrumCardAtRevision env p id revision patch).
Proof.
  unfold UpdateScrumCardAtRevision. intros t x t' Hi H. guards H G1. guards H G2. guards H G3. runs H v t1 E. apply lift_inv in E as [_ ->].
  runs H u t1 E. same_board E (reads_begin p). rewrite <-B in Hi. clear E B. runs H card t2 E. apply select_inv in E as (-> & Hf & _).
  guards H G4. runs H w t2 E. apply find_card_spec in Hf as [Hc Hp]. apply safe_fields in E; [|done|].
  - runs H now t3 E3. rewrite <-(reads_clock env _ _ _ E3) in E. runs H n t4 E4. apply safe_update in E4; [rest_safe H| |done].
    intros c. repeat split; auto.
  - intros _. eapply state_own; eauto.
Qed.
Theorem safe_item env m : safe (MutateScrumCardItem env m).
Proof.
  unfold MutateScrumCardItem. safely; try (apply safe_update; intros card; destruct (im_Collection m == "test_criteria"); repeat split; auto).
Qed.
Theorem safe_ticket env m : safe (UpdateScrumCardTicket env m).
Proof. unfold UpdateScrumCardTicket. safely. apply safe_update. intros card. repeat split; auto. Qed.

Lemma require_reads card : reads (requireInactiveScrumCardForDeleteTx card).
Proof. unfold requireInactiveScrumCardForDeleteTx. reading. Qed.
#[export] Hint Resolve require_reads : board.
Theorem safe_delete env p id revision : safe (DeleteScrumCardAtRevision env p id revision).
Proof.
  unfold DeleteScrumCardAtRevision. intros t x t' Hi H. guards H G1. guards H G2. guards H G3.
  runs H u t1 E. same_board E (reads_begin p). rewrite <-B in Hi. clear E B. runs H card t2 E. apply select_inv in E as (-> & Hf & _).
  guards H G4. runs H w t2 E. same_board E (require_reads card). rewrite <-B in Hi, Hf. clear E B. runs H z t3 E.
  enough (board_inv (tx_board t3)) as Hi3 by rest_safe H. destruct z. unfold remove_card in E. apply put_inv in E. rewrite E.
  apply find_card_spec in Hf as [Hc Hp]. clear - Hi Hc Hp. set (b := tx_board t2) in *. destruct Hi as [K C S R Q O W U].
  split; unfold runs_alone, queues_alone; cbn [bd_cards bd_messages].
  - intros i c [Hne H]%lookup_delete_Some. by eapply K.
  - intros i c [Hne H]%lookup_delete_Some. by eapply C.
  - intros i c [Hne H]%lookup_delete_Some. by eapply S.
  - intros i c [Hne H]%lookup_delete_Some Hr i2 c2 [Hne2 H2]%lookup_delete_Some. by eapply R.
  - intros i c [Hne H]%lookup_delete_Some Hr i2 c2 [Hne2 H2]%lookup_delete_Some. by eapply Q.
  - intros i c [Hne H]%lookup_delete_Some. rewrite <-(O i c H). unfold ordinals. cbn [bd_messages]. f_equal.
    rewrite list_filter_filter. apply list_filter_iff. intros m. unfold message_of. naive_solver.
  - intros m [Hn Hm]%list_elem_of_filter. destruct (W m Hm) as (c & H & Hpc). exists c. split; [|done].
    apply lookup_delete_Some. split; [|done]. intros E2. apply Hn. unfold message_of. split; [|done]. rewrite <-Hpc. congruence.
  - exact U.
Qed.

(** ** Creation *)

Lemma inv_fresh b card : board_inv b -> bd_cards b !! card_ID card = None -> card_constraints card = true ->
  card_PlayState card = "" -> card_QueueOrder card = 0 -> card_ChannelMessageCount card = 0 ->
  board_inv (with_cards (<[card_ID card := card]> (bd_cards b)) b).
Proof.
  intros [K C S R Q O W U] Hn Hk Hp Hq Hm. split; unfold runs_alone, queues_alone; cbn [bd_cards with_cards bd_messages bd_jobs].
  - intros i c [[<- <-]|[Hne H]]%lookup_insert_Some; [done|by eapply K].
  - intros i c [[<- <-]|[Hne H]]%lookup_insert_Some; [done|by eapply C].
  - intros i c [[<- <-]|[Hne H]]%lookup_insert_Some; [|by eapply S]. by apply (idle_state _ b).
  - intros i c [[<- <-]|[Hne H]]%lookup_insert_Some Hr; [congruence|]. intros i2 c2 [[<- <-]|[Hne2 H2]]%lookup_insert_Some; [congruence|by eapply R].
  - intros i c [[<- <-]|[Hne H]]%lookup_insert_Some Hr; [congruence|]. intros i2 c2 [[<- <-]|[Hne2 H2]]%lookup_insert_Some; [congruence|by eapply Q].
  - intros i c [[<- <-]|[Hne H]]%lookup_insert_Some; [|by apply (O i)]. rewrite Hm. unfold ordinals. cbn [bd_messages with_cards].
    enough (filter (message_of (card_ProjectID card) (card_ID card)) (bd_messages b) = []) as -> by done.
    apply elem_of_nil_inv. intros m [[_ Hc] Hin]%list_elem_of_filter. destruct (W m Hin) as (c & H & _). congruence.
  - intros m Hin. destruct (W m Hin) as (c & H & Hpc). exists c. rewrite lookup_insert_ne; [done|]. congruence.
  - exact U.
Qed.
Theorem safe_create env nano p id title description column checklist files :
  safe (CreateScrumCard env nano p id title description column checklist files).
Proof.
  unfold CreateScrumCard. cbv zeta. intros t x t' Hi H. guards H G1. set (key := if blank id then _ else _) in *.
  runs H c t1 E. apply lift_inv in E as [_ ->]. guards H G2. runs H cl t1 E. apply lift_inv in E as [_ ->]. runs H fl t1 E. apply lift_inv in E as [_ ->].
  runs H u t1 E. same_board E (reads_begin p). rewrite <-B in Hi. clear E B. runs H position t2 E. apply gets_inv in E as [_ ->].
  runs H taken t2 E. apply gets_inv in E as [-> ->]. guards H G3. runs H operated t2 E. apply gets_inv in E as [-> ->]. guards H G4.
  runs H w t2 E. destruct w. apply put_card_inv in E as [Hk Hb]. apply bool_decide_eq_false in G3. rewrite <-eq_None_not_Some in G3.
  assert (board_inv (tx_board t2)) as Hi2 by (rewrite Hb; by apply inv_fresh). rest_safe H.
Qed.

(** ** Updates of many rows *)

Lemma update_cards_inv set t u t' : update_cards set t = Ok (u, t') ->
  tx_board t' = with_cards ((fun card => default card (set card)) <$> bd_cards (tx_board t)) (tx_board t) /\
  (forall id card card', bd_cards (tx_board t) !! id = Some card -> set card = Some card' -> card_constraints card' = true).
Proof.
  unfold update_cards. intros H. runs H cards t1 E. apply gets_inv in E as [-> ->]. guards H G. destruct u. apply put_inv in H.
  apply negb_false_iff, bool_decide_eq_true in G. split.
  - rewrite H. f_equal. apply map_eq. intros i. rewrite lookup_union, lookup_omap, lookup_fmap.
    destruct (bd_cards (tx_board t) !! i) as [c|]; [|done]. cbn. by destruct (set c).
  - intros id c c' Hc Hs. eapply (G id). by rewrite lookup_omap, Hc.
Qed.
Lemma inv_quiet_all b set : board_inv b -> (forall card, quiet card (set card)) ->
  (forall id card, bd_cards b !! id = Some card -> card_constraints (set card) = true) ->
  board_inv (with_cards (set <$> bd_cards b) b).
Proof.
  intros Hi Hq Hk. split; unfold runs_alone, queues_alone; cbn [bd_cards with_cards bd_messages bd_jobs].
  - intros i c' (c & <- & H)%lookup_fmap_Some. destruct (Hq c) as (-> & _). by eapply inv_key.
  - intros i c' (c & <- & H)%lookup_fmap_Some. by eapply Hk.
  - intros i c' (c & <- & H)%lookup_fmap_Some. eapply quiet_shape; [apply Hq|]. by eapply inv_shape.
  - intros i c' (c & <- & H)%lookup_fmap_Some Hr i2 c2' (c2 & <- & H2)%lookup_fmap_Some.
    destruct (Hq c) as (_ & -> & _ & Hp & _). rewrite Hp in Hr. destruct (Hq c2) as (_ & -> & _ & -> & _). by eapply inv_running.
  - intros i c' (c & <- & H)%lookup_fmap_Some Hr i2 c2' (c2 & <- & H2)%lookup_fmap_Some.
    destruct (Hq c) as (_ & -> & _ & Hp & -> & _). rewrite Hp in Hr. destruct (Hq c2) as (_ & -> & _ & -> & -> & _). by eapply inv_queue.
  - intros i c' (c & <- & H)%lookup_fmap_Some. destruct (Hq c) as (_ & -> & -> & _). by apply (inv_ordinals b).
  - intros m Hm. destruct (inv_owned b Hi m Hm) as (c & H & Hp). exists (set c). rewrite lookup_fmap, H. split; [done|].
    destruct (Hq c) as (_ & -> & _). done.
  - by eapply inv_source.
Qed.
Lemma quiet_refl card : quiet card card.
Proof. repeat split; auto. Qed.
Lemma safe_update_cards set : (forall card card', set card = Some card' -> quiet card card') -> safe (update_cards set).
Proof.
  intros Hs t u t' Hi H. apply update_cards_inv in H as [-> Hk]. apply inv_quiet_all; [done| |].
  - intros card. destruct (set card) as [c|] eqn:E; [by apply Hs|apply quiet_refl].
  - intros i card H. destruct (set card) as [c|] eqn:E; [by eapply Hk|by eapply inv_checked].
Qed.

(** ** Moves *)

(** How the cards are played. *)
Definition plays (b : Board) : gmap string (Z * string) := (fun card => (card_ProjectID card, card_PlayState card)) <$> bd_cards b.
Lemma renumber_quiet now next_order card card' : renumber now next_order card = Some card' -> quiet card card'.
Proof. unfold renumber. intros H. case_match; [|done]. case_match; [done|]. injection H as <-. repeat split; auto. Qed.
Lemma shift_quiet now move insertAt card card' : shift_from now move insertAt card = Some card' -> quiet card card'.
Proof. unfold shift_from. intros H. case_match; [|done]. injection H as <-. repeat split; auto. Qed.
Lemma plays_update_cards set t u t' : (forall card card', set card = Some card' -> quiet card card') ->
  update_cards set t = Ok (u, t') -> plays (tx_board t') = plays (tx_board t).
Proof.
  intros Hs H. apply update_cards_inv in H as [-> _]. unfold plays. cbn [bd_cards with_cards]. rewrite <-map_fmap_compose.
  apply map_fmap_ext. intros i card _. unfold compose. destruct (set card) as [c|] eqn:E; [|done].
  destruct (Hs _ _ E) as (_ & HP & _ & HS & _). cbn. congruence.
Qed.
Lemma normalize_run env p column excluded t u t' : board_inv (tx_board t) -> normalizeScrumColumnOrderTx env p column excluded t = Ok (u, t') ->
  board_inv (tx_board t') /\ plays (tx_board t') = plays (tx_board t).
Proof.
  unfold normalizeScrumColumnOrderTx. intros Hi H. runs H ordering t1 E. apply gets_inv in E as [-> ->]. runs H now t1 E.
  pose proof (reads_clock env _ _ _ E) as B. rewrite <-B in Hi |- *. split; [|eapply plays_update_cards; [|exact H]; apply renumber_quiet].
  eapply safe_update_cards; [|exact Hi|exact H]. apply renumber_quiet.
Qed.
Lemma optional_normalize_run (skip : bool) env p column excluded t u t' : board_inv (tx_board t) ->
  (if skip then ret tt else normalizeScrumColumnOrderTx env p column excluded) t = Ok (u, t') ->
  board_inv (tx_board t') /\ plays (tx_board t') = plays (tx_board t).
Proof. destruct skip; [|apply normalize_run]. by intros Hi [_ ->]%ret_inv. Qed.
Lemma insert_position_reads move : reads (scrumMoveInsertPositionTx move).
Proof. unfold scrumMoveInsertPositionTx. reading. Qed.
#[export] Hint Resolve insert_position_reads : board.
Lemma still_card b card' : play_shape card' -> card_PlayState card' <> "running" -> card_PlayState card' <> "queued" -> own_state card' b.
Proof. by intros Hs Hr Hq. Qed.
(** The statements of a committed move. *)
Lemma move_run env move t previous updated t' : MoveScrumCard env move t = Ok ((previous, updated), t') ->
  let p := mv_ProjectID move in let id := mv_CardID move in let column := mv_Column move in
  let same := card_Column previous == column in
  exists t1 u1 t2 u2 t3 insertAt now t4 u3 t5 now2 t6 n t7,
    tx_board t1 = tx_board t /\ find_card p id (tx_board t) = Some previous /\ card_UpdatedAt previous = mv_ExpectedUpdatedAt move /\
    card_PlayState previous <> "running" /\ card_PlayState previous <> "queued" /\ mv_BeforeCardID move <> id /\
    (if same then ret tt else normalizeScrumColumnOrderTx env p (card_Column previous) id) t1 = Ok (u1, t2) /\
    normalizeScrumColumnOrderTx env p column id t2 = Ok (u2, t3) /\
    scrumMoveInsertPositionTx move t3 = Ok (insertAt, t3) /\
    tx_board t4 = tx_board t3 /\ update_cards (shift_from now move insertAt) t4 = Ok (u3, t5) /\
    tx_board t6 = tx_board t5 /\ update_card p id (fun row =>
      row <| card_Column := column |> <| card_BoardOrder := insertAt |> <| card_UpdatedAt := advance (now2 id) row |>) t6 = Ok (n, t7) /\
    (exec (if same then ret tt else applyScrumFlowMetricDeltasTx p id [mkDelta ColumnMove (card_Column previous) column ""]);
     exec touch_uncounted env p;
     let* updated := reload p id in
     ret (previous, updated)) t7 = Ok ((previous, updated), t').
Proof.
  unfold MoveScrumCard. intros H. guards H G1. runs H c t1 E. apply lift_inv in E as [_ ->]. guards H G2. guards H G3. guards H G4.
  runs H u t1 E. pose proof (reads_begin (mv_ProjectID move) _ _ _ E) as B1.
  runs H card t2 E2. apply select_inv in E2 as (-> & Hf & _). guards H G5. guards H G6. guards H G7.
  runs H u2 t2 E2. assert (tx_board t2 = tx_board t1) as B2.
  { destruct (mv_BeforeCardID move == ""); [by apply ret_inv in E2 as [_ ->]|]. refine (reads_bind _ _ (reads_gets _) _ _ _ _ E2). intros f. reading. }
  runs H u3 t3 E3. runs H u4 t4 E4. runs H insertAt t5 E5. assert (t5 = t4) as ->.
  { unfold scrumMoveInsertPositionTx in E5. destruct (mv_BeforeCardID move == ""); [by apply gets_inv in E5 as [_ ->]|].
    runs E5 found t6 E6. apply gets_inv in E6 as [_ ->]. destruct found as [f|]; [|done]. destruct (card_Column f == mv_Column move); [by apply ret_inv in E5 as [_ ->]|done]. }
  runs H now t5 E6. pose proof (reads_clock env _ _ _ E6) as B6. runs H u5 t6 E7. runs H now2 t7 E8. pose proof (reads_clock env _ _ _ E8) as B8. runs H n t8 E9.
  assert (card = previous) as ->.
  { destruct (tx_bind_inv _ _ _ _ _ H) as (? & ? & _ & H1). destruct (tx_bind_inv _ _ _ _ _ H1) as (? & ? & _ & H2).
    destruct (tx_bind_inv _ _ _ _ _ H2) as (? & ? & _ & H3). apply ret_inv in H3 as [H3 _]. congruence. }
  exists t2, u3, t3, u4, t4, insertAt, now, t5, u5, t6, now2, t7, n, t8. rewrite B1 in Hf, B2. reflect. by split_and!.
Qed.
Theorem safe_move env move : safe (MoveScrumCard env move).
Proof.
  intros t [previous updated] t' Hi H. apply move_run in H as (t1 & u1 & t2 & u2 & t3 & insertAt & now & t4 & u3 & t5 & now2 & t6 & n & t7 & H).
  destruct H as (B & Hf & _ & Gr & Gq & _ & E1 & E2 & _ & B4 & E4 & B6 & E6 & H). rewrite <-B in Hi, Hf.
  apply optional_normalize_run in E1 as [Hi2 P2]; [|done]. apply normalize_run in E2 as [Hi3 P3]; [|done]. rewrite <-B4 in Hi3, P3.
  pose proof (plays_update_cards _ _ _ _ (shift_quiet now move insertAt) E4) as P5.
  apply safe_update_cards in E4; [|intros ? ?; apply shift_quiet|done]. rewrite <-B6 in E4, P5. apply safe_update_at in E6; [rest_safe H|done|].
  intros row Hrow. card_simpl. split_and!; try done. apply find_card_spec in Hrow as [Hc _], Hf as [Hcp _].
  assert (plays (tx_board t6) !! mv_CardID move = Some (card_ProjectID row, card_PlayState row)) as Hplay by (unfold plays; by rewrite lookup_fmap, Hc).
  rewrite P5, P3, P2 in Hplay. unfold plays in Hplay. rewrite lookup_fmap, Hcp in Hplay. injection Hplay as HP HS.
  rewrite HS in Gr, Gq. apply still_card; card_simpl; [|done..].
  eapply (quiet_shape row); [repeat split; auto|]. by eapply inv_shape.
Qed.

(** ** Reconciliation *)

Lemma safe_messages env p id l : safe (each (fun m => exec insertScrumCardMessageTx env p id m; ret tt) l).
Proof. apply safe_each. intros m _. safely. Qed.
#[export] Hint Resolve safe_messages : board.
Lemma reconciled_state b row c : board_inv b -> find_card (rc_ProjectID c) (rc_CardID c) b = Some row ->
  validateScrumReconcileTransition row c = Ok tt -> forall card', card_ID card' = card_ID row -> card_ProjectID card' = card_ProjectID row ->
  card_Column card' = rc_Column c -> card_PlayState card' = rc_PlayState c -> card_QueueOrder card' = rc_QueueOrder c ->
  card_JobID card' = rc_JobID c -> own_state card' b.
Proof.
  intros Hi Hf H card' HID HP HC HS HQ HJ. apply find_card_spec in Hf as [Hc _]. unfold validateScrumReconcileTransition in H.
  split_ok H. destruct (rc_PlayState c == "") eqn:E1; [split_ok E; reflect; apply idle_state; congruence|].
  destruct (rc_PlayState c == "running") eqn:E2.
  - split_ok E. destruct (rc_Kind c); split_ok H; reflect; [|congruence..].
    destruct (inv_alone b _ row Hi Hc) as [Hr _]. pose proof (inv_shape b Hi _ row Hc) as Hs. pose proof (inv_key b Hi _ row Hc) as Hk.
    assert (card_PlayState row = "running") as Hrun by congruence.
    assert (card_Column row = "in_progress" /\ is_Some (parse_job_id (card_JobID row))) as [HC' HJ'].
    { destruct Hs as [(_ & ? & _ & ?)|[(Hq & _)|[(Hq & _)|(Hq & _)]]]; [done|congruence..]. }
    split; [left; split_and!; congruence|]. rewrite HP, HID, Hk. split; [auto|congruence].
  - destruct (rc_PlayState c == "paused") eqn:E3; [|destruct (rc_PlayState c == "queued"); done].
    split_ok E. reflect. apply still_card; [right; right; left; split_and!; congruence|congruence|congruence].
Qed.
Theorem safe_reconcile env c : safe (ReconcileScrumCard env c).
Proof.
  unfold ReconcileScrumCard. cbv zeta. intros t x t' Hi H. guards H G1. guards H G2. runs H v t1 E. apply lift_inv in E as [_ ->].
  runs H u t1 E. same_board E (reads_begin (rc_ProjectID c)). rewrite <-B in Hi. clear E B.
  runs H current t2 E. apply select_inv in E as (-> & Hf & _). guards H G3. guards H G4. runs H w t2 E. apply lift_inv in E as [Ht ->]. destruct w.
  runs H now t2 E. pose proof (reads_clock env _ _ _ E) as B. rewrite <-B in Hi, Hf. clear E B. runs H n t3 E3. apply safe_update_at in E3; [rest_safe H|done|].
  intros row Hrow. assert (row = current) as -> by congruence. card_simpl. split_and!; try done. by eapply reconciled_state.
Qed.

(** ** Channel operations *)

(** The sources of the jobs stay absent. *)
Definition unsourced_jobs (b : Board) : Prop := forall id job, bd_jobs b !! id = Some job -> unsourced job.
Definition plain (b b' : Board) : Prop := unsourced_jobs b -> unsourced_jobs b'.
#[global] Instance plain_preorder : PreOrder plain.
Proof. split; unfold plain; [by intros b|intros b1 b2 b3; auto]. Qed.
Lemma plain_put f : (forall b, bd_jobs (f b) = bd_jobs b) -> keeps plain (put f).
Proof. intros Hf. apply keeps_put. intros b. unfold plain, unsourced_jobs. by rewrite Hf. Qed.
Lemma plain_put_job id job : unsourced job -> keeps plain (put_job id job).
Proof.
  intros Hj. apply keeps_put. intros b Hi i j E. cbn [bd_jobs] in E. apply lookup_insert_Some in E as [[<- <-]|[_ E]]; [done|by eapply Hi].
Qed.
Lemma plain_found {A} id missing (f : ScrumJob -> tx A) : (forall job, unsourced job -> keeps plain (f job)) -> keeps plain (bind (find_job id missing) f).
Proof. intros Hf t x t' H Hi. runs H job t1 E. apply find_job_inv in E as [-> E]. eapply Hf; [|exact H|exact Hi]. by eapply Hi. Qed.
#[export] Hint Extern 1 (keeps plain (put _)) => apply plain_put; done : board.
#[export] Hint Resolve metadata_unsourced plain_put_job : board.
Lemma plain_update p id set : keeps plain (update_card p id set).
Proof. unfold update_card, put_card. keeping. Qed.
#[export] Hint Resolve plain_update : board.
Lemma plain_insert env p id m : keeps plain (insertScrumCardMessageTx env p id m).
Proof. unfold insertScrumCardMessageTx, store_message. keeping. Qed.
Lemma plain_state_metrics previous next outcome : keeps plain (applyScrumCardStateMetricsTx previous next outcome).
Proof. unfold applyScrumCardStateMetricsTx, applyScrumFlowMetricDeltasTx, updateScrumFlowMetricsTx. keeping. Qed.
Lemma plain_touch p seen updated : keeps plain (touch_project p seen updated).
Proof. unfold touch_project. keeping. Qed.
#[export] Hint Resolve plain_insert plain_state_metrics plain_touch : board.
Lemma plain_channel_card env current request job u : keeps plain (updateScrumChannelCardTx env current request job u).
Proof. unfold updateScrumChannelCardTx. cbv zeta. keeping. Qed.
Lemma plain_enqueue env instruction p m : keeps plain (enqueueScrumJobTx env instruction p m).
Proof. unfold enqueueScrumJobTx, enqueueJobWithStepsTx. keeping. Qed.
#[export] Hint Resolve plain_channel_card plain_enqueue : board.
Lemma plain_control env c : keeps plain (
  let* job := find_job (ce_JobID (cc_Effect c)) "no rows in result set" in
  let* status := lift (env_control env (effect_text (ce_Kind (cc_Effect c))) (ce_JobID (cc_Effect c)) job) in
  exec put_job (ce_JobID (cc_Effect c)) (with_status status job);
  ret (ce_JobID (cc_Effect c))).
Proof. apply plain_found. intros job Hj. keeping. Qed.
Lemma plain_effect env c card metadata : keeps plain (executeScrumChannelEffectTx env c card metadata).
Proof.
  unfold executeScrumChannelEffectTx. cbv zeta. pose proof (plain_control env c) as Hc.
  destruct (_ && _)%bool; [keeping|]. destruct (_ && _)%bool; [keeping|]. apply keeps_bind; [exact _| |intros id; keeping].
  destruct (ce_Kind (cc_Effect c)); [destruct metadata; keeping|exact Hc|exact Hc|keeping].
Qed.
Lemma channel_metadata_reads env c current : reads (channel_metadata env c current).
Proof. unfold channel_metadata. reading. Qed.
Lemma message_page_reads card : reads (message_page card).
Proof. unfold message_page. reading. Qed.
#[export] Hint Resolve channel_metadata_reads message_page_reads : board.
Lemma reserve_run request t created t' : reserveLifecycleOperationIdentityTx request t = Ok (created, t') ->
  bd_cards (tx_board t') = bd_cards (tx_board t) /\ bd_messages (tx_board t') = bd_messages (tx_board t) /\
  bd_jobs (tx_board t') = bd_jobs (tx_board t) /\ bd_operations (tx_board t') = bd_operations (tx_board t).
Proof.
  unfold reserveLifecycleOperationIdentityTx. intros H. runs H u t1 E. apply lift_inv in E as [_ ->]. runs H known t1 E. apply gets_inv in E as [-> ->].
  destruct (bd_registry (tx_board t) !! cr_OperationID request).
  - guards H G. by apply ret_inv in H as [_ ->].
  - runs H v t1 E. destruct v. apply put_inv in E. apply ret_inv in H as [_ ->]. by rewrite E.
Qed.
Lemma receipt_refused env operationID row t u t' : unsourced_jobs (tx_board t) -> insertScrumChannelOperationTx env operationID row t <> Ok (u, t').
Proof.
  unfold insertScrumChannelOperationTx. intros Hu H. runs H registered t1 E. apply gets_inv in E as [-> ->].
  destruct (bd_registry (tx_board t) !! operationID) as [[request|]|]; [|done..]. guards H G1. runs H related t1 E. apply gets_inv in E as [-> ->].
  guards H G2. apply negb_false_iff in G2. unfold receipt_relationship in G2. destruct (bd_jobs (tx_board t) !! co_JobID row) as [job|] eqn:Ej; [|done].
  destruct (find_card _ _ _); [|done]. reflect. unfold field_is in *. reflect.
  match goal with P : job_Pipeline job = PipelineScrum |- _ => pose proof (Hu _ _ Ej P) as Hs end. congruence.
Qed.
(** No operation of a channel commits: the receipt asks for metadata no job has. *)
Lemma channel_refused env c builder t x t' : unsourced_jobs (tx_board t) -> bd_operations (tx_board t) !! cr_OperationID (cc_Request c) = None ->
  ExecuteScrumChannelOperation env c builder t <> Ok (x, t').
Proof.
  unfold ExecuteScrumChannelOperation. cbv zeta. intros Hu Ho H. runs H v t1 E. apply lift_inv in E as [_ ->]. runs H created t1 E.
  apply reserve_run in E as (_ & _ & Hj & Hops). rewrite <-Hops in Ho. assert (unsourced_jobs (tx_board t1)) as Hu1 by (unfold unsourced_jobs; by rewrite Hj).
  runs H existing t2 E. unfold loadScrumChannelOperation in E. runs E found t3 E3. apply gets_inv in E3 as [-> ->]. rewrite Ho in E.
  apply ret_inv in E as [-> ->]. guards H G1.
  runs H current t2 E. apply select_inv in E as (-> & _ & _). guards H G2. runs H metadata t2 E. pose proof (channel_metadata_reads env c current _ _ _ E) as B.
  runs H noise t3 E3. assert (reads (if bool_decide (ce_Kind (cc_Effect c) = StartJob) then ret (@None (list ascii)) else entropy env)) as R by reading.
  pose proof (R _ _ _ E3) as B3. runs H effect t4 E4.
  assert (tx_board t4 = tx_board t3) as B4 by (destruct (ce_Kind (cc_Effect c) == StartJob); [|destruct noise]; first [by apply ret_inv in E4 as [_ ->]|done]).
  rewrite <-B, <-B3, <-B4 in Hu1. runs H job t5 E5. pose proof (plain_effect _ _ _ _ _ _ _ E5 Hu1) as Hu5.
  runs H update t6 E6. apply lift_inv in E6 as [_ ->]. runs H card t6 E6. pose proof (plain_channel_card _ _ _ _ _ _ _ _ E6 Hu5) as Hu6.
  runs H page t7 E7. rewrite <-(message_page_reads _ _ _ _ E7) in Hu6. runs H w t8 E8. by apply receipt_refused in E8.
Qed.
Theorem safe_channel env c builder : safe (ExecuteScrumChannelOperation env c builder).
Proof.
  intros t x t' Hi H. destruct (bd_operations (tx_board t) !! cr_OperationID (cc_Request c)) as [row|] eqn:Ho.
  2:{ exfalso. eapply channel_refused; [|exact Ho|exact H]. intros id job. by apply inv_source. }
  unfold ExecuteScrumChannelOperation in H. cbv zeta in H. runs H v t1 E. apply lift_inv in E as [_ ->]. runs H created t1 E.
  apply reserve_run in E as (Hc & Hm & Hj & Hops). assert (board_inv (tx_board t1)) as Hi1.
  { destruct Hi. split; unfold runs_alone, queues_alone, ordinals; rewrite ?Hc, ?Hm, ?Hj; eauto. }
  runs H existing t2 E. unfold loadScrumChannelOperation in E. runs E found t3 E3. apply gets_inv in E3 as [-> ->]. rewrite Hops, Ho in E.
  assert (tx_board t2 = tx_board t1) as B.
  { runs E card t4 E4. rewrite <-(reads_lock _ _ _ _ _ E4). runs E job t5 E5. apply find_job_inv in E5 as [-> _]. guards E G.
    runs E page t5 E5. apply ret_inv in E as [_ ->]. by rewrite (message_page_reads _ _ _ _ E5). }
  destruct existing as [r|].
  - apply ret_inv in H as [_ ->]. by rewrite B.
  - runs E card t4 E4. runs E job t5 E5. guards E G. runs E page t6 E6. by apply ret_inv in E as [E _].
Qed.

(** ** Reachable boards *)

(** The operations of the board. *)
Inductive Command :=
  | Create (unix_nano projectID : Z) (cardID title description column : string) (checklist refFiles : Raw)
  | Edit (projectID : Z) (cardID : string) (expectedUpdatedAt : Z) (patch : ScrumCardRevisionPatch)
  | Remove (projectID : Z) (cardID : string) (expectedUpdatedAt : Z)
  | Item (m : ScrumCardItemMutation)
  | Ticket (m : ScrumCardTicketMutation)
  | Move (move : ScrumCardMove)
  | Reconcile (c : ScrumCardReconcileCommand)
  | Play (c : ScrumCardPlayCommand)
  | Pause (projectID : Z) (cardID : string) (expectedUpdatedAt : Z)
  | Configure (projectID : Z) (config : ScrumAutoWorkConfig)
  | AutoWork (projectID : Z) (action : string)
  | Channel (c : ScrumChannelOperationCommand) (builder : DBScrumCard -> Z -> result ScrumChannelCardUpdate)
  | Cancel (jobID : Z) | Complete (jobID : Z) | FailJob (jobID : Z).
Definition dropped {A} (c : tx A) : tx unit := exec c; ret tt.
Definition run (env : Env) (c : Command) : tx unit :=
  match c with
  | Create nano p id title description column checklist files => dropped (CreateScrumCard env nano p id title description column checklist files)
  | Edit p id revision patch => dropped (UpdateScrumCardAtRevision env p id revision patch)
  | Remove p id revision => DeleteScrumCardAtRevision env p id revision
  | Item m => dropped (MutateScrumCardItem env m)
  | Ticket m => dropped (UpdateScrumCardTicket env m)
  | Move m => dropped (MoveScrumCard env m)
  | Reconcile c => dropped (ReconcileScrumCard env c)
  | Play c => dropped (ApplyScrumCardPlay env c)
  | Pause p id revision => dropped (PauseScrumCardPlayAtRevision env p id revision)
  | Configure p config => dropped (SetScrumAutoWorkConfig env p config)
  | AutoWork p action => dropped (ApplyProjectAutoWork env p action)
  | Channel c builder => dropped (ExecuteScrumChannelOperation env c builder)
  | Cancel id => CancelJob env id
  | Complete id => complete_job env id
  | FailJob id => fail_job env id
  end.
(** What other components do between two operations: to projects, to jobs, to the
    registry. *)
Definition outside (b b' : Board) : Prop := bd_cards b' = bd_cards b /\ bd_messages b' = bd_messages b /\ unsourced_jobs b'.
(** The effect of deleting a project none of whose cards is played: its cards and their
    messages go with it. *)
Definition project_deleted (p : Z) (b b' : Board) : Prop :=
  (forall id card, bd_cards b !! id = Some card -> card_ProjectID card = p -> card_PlayState card ∉ ["running"; "queued"]) /\
  bd_cards b' = filter (fun entry => card_ProjectID entry.2 <> p) (bd_cards b) /\
  bd_messages b' = filter (fun m => sm_ProjectID m <> p) (bd_messages b) /\ unsourced_jobs b'.
(** A board without cards, the operations in any order and under any environment, and
    what happens between them. *)
Inductive reachable : Board -> Prop :=
  | reach_empty b : bd_cards b = ∅ -> bd_messages b = [] -> unsourced_jobs b -> reachable b
  | reach_run env c b : reachable b -> reachable (transact (run env c) b).2
  | reach_outside b b' : reachable b -> outside b b' -> reachable b'
  | reach_deletion p b b' : reachable b -> project_deleted p b b' -> reachable b'.

Lemma safe_dropped {A} (c : tx A) : safe c -> safe (dropped c).
Proof. intros H. unfold dropped. apply safe_bind; [done|intros _]. apply safe_ret. Qed.
#[export] Hint Resolve safe_dropped safe_create safe_edit safe_delete safe_item safe_ticket safe_move safe_reconcile safe_play safe_pause
  safe_config safe_auto_work safe_channel safe_cancel_job : board.
Lemma safe_run env c : safe (run env c).
Proof. destruct c; cbn [run]; auto with board; apply safe_end. Qed.
Lemma transact_inv {A} (c : tx A) b : safe c -> board_inv b -> board_inv (transact c b).2.
Proof.
  intros Hs Hi. unfold transact. destruct (c (mkTx b 0 0)) as [[x t]|e] eqn:E; [|done]. cbn [snd]. by apply (Hs (mkTx b 0 0) x t).
Qed.
Lemma inv_deletion p b b' : board_inv b -> project_deleted p b b' -> board_inv b'.
Proof.
  intros [Hk Hch Hsh Hru Hqu Hor How _] (_ & Hc & Hm & Hj).
  assert (forall id card, bd_cards b' !! id = Some card <-> bd_cards b !! id = Some card /\ card_ProjectID card <> p) as Hget.
  { intros id card. rewrite Hc. apply map_lookup_filter_Some. }
  split; unfold runs_alone, queues_alone; try (intros id card [Hi Hp]%Hget; eauto).
  - intros Hs id' card' [Hi' _]%Hget. by eapply Hru.
  - intros Hs id' card' [Hi' _]%Hget. by eapply Hqu.
  - rewrite <-(Hor id card Hi). unfold ordinals. rewrite Hm, list_filter_filter_l; [done|]. unfold message_of. naive_solver.
  - intros m Hin. rewrite Hm in Hin. apply list_elem_of_filter in Hin as [Hp Hin]. destruct (How m Hin) as (card & Hi & Ho).
    exists card. split; [apply Hget; split; [done|congruence]|done].
  - exact Hj.
Qed.
Lemma inv_reachable b : reachable b -> board_inv b.
Proof.
  induction 1 as [b Hc Hm Hj|env c b _ IH|b b' _ IH (Hc & Hm & Hj)|p b b' _ IH H].
  - split; unfold runs_alone, queues_alone, ordinals; rewrite ?Hc, ?Hm; try done. intros m Hin. by apply not_elem_of_nil in Hin.
  - apply transact_inv; [apply safe_run|done].
  - destruct IH. split; unfold runs_alone, queues_alone, ordinals; rewrite ?Hc, ?Hm; eauto.
  - by eapply inv_deletion.
Qed.
