(* ===== verification/ScrumRevision.v ===== *)
(** * Revisions of Scrum cards

    Every edit, move, item, ticket, reconciliation, play and pause names the revision of
    the card it was made against: it is refused when the card has another one, and a
    committed change moves the revision on, so the same command is refused afterwards. *)
From Stdlib Require Import Ascii.
From S2P Require Import Prelude Schema PathIdentity UserIntent JsonCodec Timestamp Scrum ScrumFlow ScrumBoard ScrumPlay ScrumEdit ScrumChannel ScrumFacts ScrumInv ScrumReach.
From stdpp Require Import sorting base tactics strings list gmap numbers pretty.
From stdpp Require Import list options.
Open Scope Z_scope.
Open Scope go_scope.

(** ** The revision a command names *)

Definition revision_of (c : Command) : option (Z * string * Z) :=
  match c with
  | Edit p id revision _ | Remove p id revision | Pause p id revision => Some (p, id, revision)
  | Item m => Some (im_ProjectID m, im_CardID m, im_ExpectedUpdatedAt m)
  | Ticket m => Some (tk_ProjectID m, trim_space (tk_CardID m), tk_ExpectedUpdatedAt m)
  | Move m => Some (mv_ProjectID m, mv_CardID m, mv_ExpectedUpdatedAt m)
  | Reconcile c => Some (rc_ProjectID c, rc_CardID c, rc_ExpectedUpdatedAt c)
  | Play c => Some (pc_ProjectID c, pc_CardID c, pc_ExpectedUpdatedAt c)
  | _ => None
  end.
(** The card of a command has the revision. *)
Definition current (p : Z) (id : string) (revision : Z) (b : Board) : Prop :=
  exists card, find_card p id b = Some card /\ card_UpdatedAt card = revision.

Lemma dropped_inv {A} (c : tx A) t u t' : dropped c t = Ok (u, t') -> exists x, c t = Ok (x, t').
Proof. unfold dropped. intros H. runs H x t1 E. apply ret_inv in H as [_ ->]. eauto. Qed.
(** The lock of a card and the comparison of its revision. *)
Lemma locked_current {A} p id revision (k : DBScrumCard -> tx A) t x t' :
  (let* card := lockScrumCardTx p id in abort revision_conflict if negb (card_UpdatedAt card =? revision); k card) t = Ok (x, t') ->
  exists card, find_card p id (tx_board t) = Some card /\ card_UpdatedAt card = revision /\ validateStoredScrumCard card = Ok tt /\ k card t = Ok (x, t').
Proof.
  intros H. runs H card t1 E. apply select_inv in E as (-> & Hf & Hv). guards H G. apply negb_false_iff, Z.eqb_eq in G. eauto.
Qed.
Lemma begin_current {A} p id revision (k : DBScrumCard -> tx A) t x t' :
  (exec beginLockedProjectTx p; let* card := lockScrumCardTx p id in abort revision_conflict if negb (card_UpdatedAt card =? revision); k card) t = Ok (x, t') ->
  exists card t1, tx_board t1 = tx_board t /\ find_card p id (tx_board t) = Some card /\ card_UpdatedAt card = revision /\
    validateStoredScrumCard card = Ok tt /\ k card t1 = Ok (x, t').
Proof.
  intros H. runs H u t1 E. pose proof (reads_begin p _ _ _ E) as B. apply locked_current in H as (card & Hf & Hr & Hv & H).
  exists card, t1. by rewrite <-B.
Qed.

Lemma edit_run env p id revision patch t x t' : UpdateScrumCardAtRevision env p id revision patch t = Ok (x, t') ->
  exists card t1, tx_board t1 = tx_board t /\ find_card p id (tx_board t) = Some card /\ card_UpdatedAt card = revision /\ validate_patch patch = Ok tt /\
  (exec updateScrumCardFieldsTx env (applyTo patch card);
   let* now := clock env in
   exec update_card p id (fun row => row <| card_UpdatedAt := Z.max (now id) (revision + microsecond) |>);
   exec refreshScrumFlowMetricsTx p id;
   let* updated := reload p id in
   exec touch_uncounted env p;
   ret updated) t1 = Ok (x, t').
Proof.
  unfold UpdateScrumCardAtRevision. intros H. guards H G1. guards H G2. guards H G3. runs H v t1 E. apply lift_inv in E as [Hp ->]. destruct v.
  apply begin_current in H as (card & t1 & B & Hf & Hr & _ & H). eauto 10.
Qed.
Lemma run_current env c t u t' p id revision : revision_of c = Some (p, id, revision) -> run env c t = Ok (u, t') -> current p id revision (tx_board t).
Proof.
  intros Hr H. destruct c; cbn [revision_of] in Hr; try discriminate Hr; injection Hr as <- <- <-; cbn [run] in H; try apply dropped_inv in H as [x H].
  - apply edit_run in H as (card & t1 & _ & Hf & E & _). by exists card.
  - unfold DeleteScrumCardAtRevision in H. guards H G1. guards H G2. guards H G3. apply begin_current in H as (card & t1 & _ & Hf & E & _). by exists card.
  - unfold MutateScrumCardItem in H. runs H v t1 E. apply lift_inv in E as [_ ->]. apply locked_current in H as (card & Hf & E & _). by exists card.
  - unfold UpdateScrumCardTicket in H. runs H m' t1 E. apply lift_inv in E as [Hm ->]. apply locked_current in H as (card & Hf & E & _).
    unfold validate_ticket in Hm. split_ok Hm. subst m'. by exists card.
  - unfold MoveScrumCard in H. guards H G1. runs H v t1 E. apply lift_inv in E as [_ ->]. guards H G2. guards H G3. guards H G4.
    apply begin_current in H as (card & t1 & _ & Hf & E & _). by exists card.
  - unfold ReconcileScrumCard in H. cbv zeta in H. guards H G1. guards H G2. runs H v t1 E. apply lift_inv in E as [_ ->].
    apply begin_current in H as (card & t1 & _ & Hf & E & _). by exists card.
  - unfold ApplyScrumCardPlay in H. guards H G1. guards H G2. guards H G3. apply begin_current in H as (card & t1 & _ & Hf & E & _). by exists card.
  - unfold PauseScrumCardPlayAtRevision in H. guards H G1. apply begin_current in H as (card & t1 & _ & Hf & E & _). by exists card.
Qed.

(** ** Revisions advance *)

Definition keyed (b : Board) : Prop := forall id card, bd_cards b !! id = Some card -> card_ID card = id.
(** Every card is still there, with a revision at least as late. *)
Definition later (b b' : Board) : Prop := keyed b -> keyed b' /\ forall p id card, find_card p id b = Some card ->
  exists card', find_card p id b' = Some card' /\ card_UpdatedAt card <= card_UpdatedAt card'.
#[global] Instance later_preorder : PreOrder later.
Proof.
  split.
  - intros b Hk. split; [done|]. intros p id card Hf. exists card. split; [done|lia].
  - intros b1 b2 b3 H12 H23 Hk. destruct (H12 Hk) as [Hk2 H1]. destruct (H23 Hk2) as [Hk3 H2]. split; [done|]. intros p id card Hf.
    destruct (H1 p id card Hf) as (c2 & Hf2 & L2). destruct (H2 p id c2 Hf2) as (c3 & Hf3 & L3). exists c3. split; [done|lia].
Qed.
Lemma later_cards b b' : bd_cards b' = bd_cards b -> later b b'.
Proof. unfold later, keyed, find_card. intros ->. intros Hk. split; [done|]. intros p id card Hf. exists card. split; [done|lia]. Qed.
Lemma later_write b card row : bd_cards b !! card_ID card = Some row -> card_ProjectID card = card_ProjectID row ->
  card_UpdatedAt row <= card_UpdatedAt card -> later b (with_cards (<[card_ID card := card]> (bd_cards b)) b).
Proof.
  intros Hc HP HU Hk. split.
  - intros i c H. cbn [bd_cards with_cards] in H. apply lookup_insert_Some in H as [[<- <-]|[_ H]]; [done|by apply Hk].
  - intros p i c Hf. apply find_card_spec in Hf as [Hi Hp]. destruct (decide (i = card_ID card)) as [->|Hne].
    + exists card. split; [apply find_card_spec; cbn [bd_cards with_cards]; rewrite lookup_insert_eq; split; [done|congruence]|]. congruence.
    + exists c. split; [apply find_card_spec; cbn [bd_cards with_cards]; by rewrite lookup_insert_ne|lia].
Qed.
Lemma later_update p id set : (forall card, card_ID (set card) = card_ID card /\ card_ProjectID (set card) = card_ProjectID card /\
  card_UpdatedAt card <= card_UpdatedAt (set card)) -> keeps later (update_card p id set).
Proof.
  intros Hs t n t' H. apply update_card_inv in H as [(_ & -> & _)|(card & _ & Hf & _ & ->)]; [reflexivity|]. intros Hk.
  apply find_card_spec in Hf as [Hc _]. destruct (Hs card) as (HID & HP & HU). refine (later_write _ _ card _ HP HU Hk).
  by rewrite HID, (Hk _ _ Hc).
Qed.
Lemma later_put f : (forall b, bd_cards (f b) = bd_cards b) -> keeps later (put f).
Proof. intros Hf. apply keeps_put. intros b. by apply later_cards. Qed.
#[export] Hint Extern 1 (keeps later (put _)) => apply later_put; done : board.
Lemma advance_later reading card : card_UpdatedAt card + microsecond <= advance reading card.
Proof. unfold advance. lia. Qed.
Lemma later_insert env p id m : keeps later (insertScrumCardMessageTx env p id m).
Proof.
  unfold insertScrumCardMessageTx, store_message. keeping. apply later_update. intros card. split_and!; [done..|]. card_simpl.
  unfold advance, microsecond. lia.
Qed.
Lemma later_metrics p id deltas : keeps later (updateScrumFlowMetricsTx p id deltas).
Proof. unfold updateScrumFlowMetricsTx. keeping. apply later_update. intros card. split_and!; [done..|]. card_simpl. lia. Qed.
Lemma later_touch p seen updated : keeps later (touch_project p seen updated).
Proof. unfold touch_project. keeping. Qed.
#[export] Hint Resolve later_insert later_metrics later_touch : board.
Lemma later_deltas p id deltas : keeps later (applyScrumFlowMetricDeltasTx p id deltas).
Proof. unfold applyScrumFlowMetricDeltasTx. keeping. Qed.
Lemma later_refresh p id : keeps later (refreshScrumFlowMetricsTx p id).
Proof. apply later_metrics. Qed.
Lemma later_touch_uncounted env p : keeps later (touch_uncounted env p).
Proof. unfold touch_uncounted. keeping. Qed.
Lemma later_touch_play env p : keeps later (touchScrumPlayProjectTx env p).
Proof. unfold touchScrumPlayProjectTx. keeping. Qed.
#[export] Hint Resolve later_deltas later_refresh later_touch_uncounted later_touch_play : board.
Lemma later_state_metrics previous next outcome : keeps later (applyScrumCardStateMetricsTx previous next outcome).
Proof. unfold applyScrumCardStateMetricsTx. keeping. Qed.
#[export] Hint Resolve later_state_metrics : board.

(** ** A committed change *)

Definition advanced (p : Z) (id : string) (revision : Z) (b : Board) : Prop :=
  exists card, find_card p id b = Some card /\ revision + microsecond <= card_UpdatedAt card.
Lemma later_advanced p id revision b b' : keyed b -> later b b' -> advanced p id revision b -> advanced p id revision b'.
Proof. intros Hk Hl (card & Hf & Hr). destruct (proj2 (Hl Hk) _ _ _ Hf) as (c & Hf' & Hu). exists c. split; [done|lia]. Qed.
(** A statement that stamps the row, and the rest of the transaction. *)
Lemma stamped {A} p id set revision (k : Z -> tx A) t x t' : keyed (tx_board t) -> is_Some (find_card p id (tx_board t)) ->
  (forall card, find_card p id (tx_board t) = Some card -> card_ID (set card) = card_ID card /\ card_ProjectID (set card) = card_ProjectID card /\
    revision + microsecond <= card_UpdatedAt (set card)) ->
  (forall n, keeps later (k n)) -> bind (update_card p id set) k t = Ok (x, t') -> advanced p id revision (tx_board t').
Proof.
  intros Hk [row0 Hrow] Hs Hrest H. runs H n t1 E. apply update_card_inv in E as [(_ & _ & E)|(row & _ & Hf & _ & Hb)]; [congruence|].
  destruct (Hs row Hf) as (HID & HP & HU). apply find_card_spec in Hf as [Hc Hp]. pose proof (Hk _ _ Hc) as Hid.
  rewrite HID, Hid in Hb. eapply later_advanced; [|exact (Hrest _ _ _ _ H)|].
  - rewrite Hb. intros i c Hi. cbn [bd_cards with_cards] in Hi. apply lookup_insert_Some in Hi as [[<- <-]|[_ Hi]]; [congruence|by apply Hk].
  - exists (set row). split; [|done]. apply find_card_spec. rewrite Hb. cbn [bd_cards with_cards]. rewrite lookup_insert_eq. split; congruence.
Qed.
Lemma keyed_inv b : board_inv b -> keyed b.
Proof. intros Hi id card. by apply inv_key. Qed.
Lemma updated_card_found env card t u t' : keyed (tx_board t) -> updateScrumCardFieldsTx env card t = Ok (u, t') ->
  keyed (tx_board t') /\ is_Some (find_card (card_ProjectID card) (card_ID card) (tx_board t')).
Proof.
  intros Hk H. apply update_fields_inv in H as (row & Hf & _ & _ & Hb). apply find_card_spec in Hf as [Hc Hp]. pose proof (Hk _ _ Hc) as Hid.
  rewrite Hb. split.
  - intros i c Hi. cbn [bd_cards with_cards] in Hi. apply lookup_insert_Some in Hi as [[<- <-]|[_ Hi]]; [done|by apply Hk].
  - eexists. apply find_card_spec. cbn [bd_cards with_cards]. rewrite Hid, lookup_insert_eq. split; [reflexivity|]. done.
Qed.

Lemma edit_advances env p id revision patch t x t' : board_inv (tx_board t) -> UpdateScrumCardAtRevision env p id revision patch t = Ok (x, t') ->
  advanced p id revision (tx_board t').
Proof.
  intros Hi H. apply edit_run in H as (card & t1 & B & Hf & _ & _ & H). rewrite <-B in Hi, Hf. apply keyed_inv in Hi as Hk.
  runs H u t2 E. apply updated_card_found in E as [Hk2 Hs2]; [|done]. apply find_card_spec in Hf as [Hc Hp].
  replace (card_ProjectID (applyTo patch card)) with p in Hs2 by (symmetry; exact Hp).
  replace (card_ID (applyTo patch card)) with id in Hs2 by (symmetry; exact (Hk _ _ Hc)).
  runs H now t3 E3. rewrite <-(reads_clock env _ _ _ E3) in Hk2, Hs2. eapply stamped; [exact Hk2|exact Hs2| | |exact H].
  - intros c _. split_and!; [done..|]. card_simpl. lia.
  - intros n. keeping.
Qed.
Lemma item_advances env m t x t' : board_inv (tx_board t) -> MutateScrumCardItem env m t = Ok (x, t') ->
  advanced (im_ProjectID m) (im_CardID m) (im_ExpectedUpdatedAt m) (tx_board t').
Proof.
  intros Hi H. unfold MutateScrumCardItem in H. runs H v t1 E. apply lift_inv in E as [_ ->]. apply locked_current in H as (card & Hf & Hr & _ & H).
  cbv zeta in H. runs H items t1 E. apply lift_inv in E as [_ ->]. runs H noise t1 E.
  assert (reads (if im_Action m == "add" then entropy env else ret None)) as R by reading. pose proof (R _ _ _ E) as B.
  runs H items' t2 E2. apply lift_inv in E2 as [_ ->]. runs H now t2 E2. pose proof (reads_clock env _ _ _ E2) as B2. rewrite <-B, <-B2 in Hi, Hf.
  eapply stamped; [by apply keyed_inv|by eexists| | |exact H].
  - intros c Hc. assert (c = card) as -> by congruence. rewrite <-Hr. destruct (im_Collection m == "test_criteria"); (split_and!; [done..|]); card_simpl; unfold advance; card_simpl; lia.
  - intros n. keeping.
Qed.
Lemma ticket_advances env m t x t' : board_inv (tx_board t) -> UpdateScrumCardTicket env m t = Ok (x, t') ->
  advanced (tk_ProjectID m) (trim_space (tk_CardID m)) (tk_ExpectedUpdatedAt m) (tx_board t').
Proof.
  intros Hi H. unfold UpdateScrumCardTicket in H. runs H m' t1 E. apply lift_inv in E as [Hm ->]. apply locked_current in H as (card & Hf & Hr & _ & H).
  unfold validate_ticket in Hm. split_ok Hm. subst m'. cbn [tk_ProjectID tk_CardID tk_ExpectedUpdatedAt tk_Ticket tk_Elaboration] in *.
  runs H now t2 E2. rewrite <-(reads_clock env _ _ _ E2) in Hi, Hf. eapply stamped; [by apply keyed_inv|by eexists| | |exact H].
  - intros c Hc. assert (c = card) as -> by congruence. rewrite <-Hr. split_and!; [done..|]. card_simpl. apply advance_later.
  - intros n. keeping.
Qed.
Lemma reconcile_advances env c t x t' : board_inv (tx_board t) -> ReconcileScrumCard env c t = Ok (x, t') ->
  advanced (rc_ProjectID c) (rc_CardID c) (rc_ExpectedUpdatedAt c) (tx_board t').
Proof.
  intros Hi H. unfold ReconcileScrumCard in H. cbv zeta in H. guards H G1. guards H G2. runs H v t1 E. apply lift_inv in E as [_ ->].
  apply begin_current in H as (card & t1 & B & Hf & Hr & _ & H). rewrite <-B in Hi, Hf. guards H G3. runs H w t2 E. apply lift_inv in E as [_ ->].
  runs H now t2 E2. rewrite <-(reads_clock env _ _ _ E2) in Hi, Hf. eapply stamped; [by apply keyed_inv|by eexists| | |exact H].
  - intros c' Hc. assert (c' = card) as -> by congruence. rewrite <-Hr. split_and!; [done..|]. card_simpl. apply advance_later.
  - intros n. keeping.
Qed.

(** Moves. *)
Lemma later_update_cards set : (forall card card', set card = Some card' -> card_ID card' = card_ID card /\ card_ProjectID card' = card_ProjectID card /\
  card_UpdatedAt card <= card_UpdatedAt card') -> keeps later (update_cards set).
Proof.
  intros Hs t u t' H Hk. apply update_cards_inv in H as [-> _].
  assert (forall card, let c := default card (set card) in card_ID c = card_ID card /\ card_ProjectID c = card_ProjectID card /\ card_UpdatedAt card <= card_UpdatedAt c) as Hd.
  { intros card. cbv zeta. destruct (set card) as [c|] eqn:E; [by apply Hs|]. cbn. split_and!; [done..|lia]. }
  split.
  - intros i c' Hi. cbn [bd_cards with_cards] in Hi. apply lookup_fmap_Some in Hi as (c & <- & Hi). destruct (Hd c) as (-> & _). by apply Hk.
  - intros p i c Hf. apply find_card_spec in Hf as [Hi Hp]. exists (default c (set c)). destruct (Hd c) as (_ & HP & HU). split; [|done].
    apply find_card_spec. cbn [bd_cards with_cards]. rewrite lookup_fmap, Hi. split; [done|congruence].
Qed.
Lemma renumber_later now next_order card card' : renumber now next_order card = Some card' ->
  card_ID card' = card_ID card /\ card_ProjectID card' = card_ProjectID card /\ card_UpdatedAt card <= card_UpdatedAt card'.
Proof.
  unfold renumber. intros H. case_match; [|done]. case_match; [done|]. injection H as <-. split_and!; [done..|]. card_simpl. unfold advance, microsecond. lia.
Qed.
Lemma shift_later now move insertAt card card' : shift_from now move insertAt card = Some card' ->
  card_ID card' = card_ID card /\ card_ProjectID card' = card_ProjectID card /\ card_UpdatedAt card <= card_UpdatedAt card'.
Proof. unfold shift_from. intros H. case_match; [|done]. injection H as <-. split_and!; [done..|]. card_simpl. unfold advance, microsecond. lia. Qed.
Lemma later_normalize env p column excluded : keeps later (normalizeScrumColumnOrderTx env p column excluded).
Proof. unfold normalizeScrumColumnOrderTx. keeping. apply later_update_cards, renumber_later. Qed.
#[export] Hint Resolve later_normalize : board.
Lemma later_normalize_if (skip : bool) env p column excluded : keeps later (if skip then ret tt else normalizeScrumColumnOrderTx env p column excluded).
Proof. keeping. Qed.
Lemma move_advances env move t x t' : board_inv (tx_board t) -> MoveScrumCard env move t = Ok (x, t') ->
  advanced (mv_ProjectID move) (mv_CardID move) (mv_ExpectedUpdatedAt move) (tx_board t').
Proof.
  destruct x as [previous updated]. intros Hi H.
  apply move_run in H as (t1 & u1 & t2 & u2 & t3 & insertAt & now & t4 & u3 & t5 & now2 & t6 & n & t7 & H).
  destruct H as (B & Hf & Hr & _ & _ & _ & E1 & E2 & _ & B4 & E4 & B6 & E6 & H). rewrite <-B in Hi, Hf. apply keyed_inv in Hi.
  assert (later (tx_board t1) (tx_board t6)) as Hl.
  { transitivity (tx_board t2); [exact (later_normalize_if _ _ _ _ _ _ _ _ E1)|]. transitivity (tx_board t3); [exact (later_normalize _ _ _ _ _ _ _ E2)|].
    rewrite B6, <-B4. exact (later_update_cards _ (shift_later now move insertAt) _ _ _ E4). }
  destruct (Hl Hi) as [Hk6 Hf6]. destruct (Hf6 _ _ _ Hf) as (row & Hrow & HU).
  eapply (stamped _ _ _ _ (fun _ => _) t6 (previous, updated) t' Hk6); [by eexists| | |unfold bind; rewrite E6; exact H].
  - intros c Hc. assert (c = row) as -> by congruence. split_and!; [done..|]. card_simpl. unfold advance. card_simpl. lia.
  - intros _. keeping.
Qed.

(** ** Pauses and deletions *)

Lemma pause_run env p id revision t x t' : PauseScrumCardPlayAtRevision env p id revision t = Ok (x, t') ->
  exists card t1 u t2, tx_board t1 = tx_board t /\ find_card p id (tx_board t) = Some card /\
    (card_PlayState card = "running" \/ card_PlayState card = "queued") /\
    (if card_PlayState card == "running" then pauseRunningScrumCardTx env card else pause_queued env card "Play paused") t1 = Ok (u, t2) /\
    (let* updated := reload p id in exec touchScrumPlayProjectTx env p; ret updated) t2 = Ok (x, t').
Proof.
  unfold PauseScrumCardPlayAtRevision. intros H. guards H G1. apply begin_current in H as (card & t1 & B & Hf & _ & _ & H). guards H G2.
  runs H u t2 E. exists card, t1, u, t2. split_and!; try done. apply andb_false_iff in G2 as [G|G]; apply negb_false_iff, bool_decide_eq_true in G; auto.
Qed.
Lemma calm_reload_touch env p id : calm (let* updated := reload p id in exec touchScrumPlayProjectTx env p; ret updated).
Proof. calmly. Qed.
(** A paused card is assigned, owns no job and has no place in the queue. *)
Lemma pause_states env p id revision t x t' : board_inv (tx_board t) -> PauseScrumCardPlayAtRevision env p id revision t = Ok (x, t') ->
  exists card, find_card p id (tx_board t) = Some card /\
    (card_PlayState card = "running" \/ card_PlayState card = "queued") /\
    states (tx_board t') = <[id := state_of (paused_as card)]> (states (tx_board t)).
Proof.
  intros Hi H. apply pause_run in H as (card & t1 & u & t2 & B & Hf & Hs & E & H). exists card. split; [done|]. split; [done|].
  rewrite <-B in Hi, Hf |- *. apply find_card_spec in Hf as [Hc _]. rewrite <-(inv_key _ Hi _ _ Hc) at 1.
  assert (board_inv (tx_board t2) /\ states (tx_board t2) = <[card_ID card := state_of (paused_as card)]> (states (tx_board t1))) as [Hi2 Es].
  { destruct (card_PlayState card == "running").
    - split; [exact (safe_pause_running _ _ _ _ _ Hi E)|exact (pause_running_states _ _ _ _ _ Hi E)].
    - split; [exact (safe_pause_queued _ _ _ _ _ _ Hi E)|exact (pause_queued_states _ _ _ _ _ _ Hi E)]. }
  destruct (calm_reload_touch env p id _ _ _ Hi2 H) as [_ ->]. exact Es.
Qed.
Lemma delete_run env p id revision t x t' : DeleteScrumCardAtRevision env p id revision t = Ok (x, t') ->
  bd_cards (tx_board t') !! id = None.
Proof.
  unfold DeleteScrumCardAtRevision. intros H. guards H G1. guards H G2. guards H G3. apply begin_current in H as (card & t1 & B & Hf & _ & _ & H).
  runs H w t2 E. runs H z t3 E3. destruct z. apply put_inv in E3. unfold touch_uncounted in H.
  runs H now t4 E4. pose proof (reads_clock env _ _ _ E4) as B4. runs H n t5 E5. apply ret_inv in H as [_ ->].
  assert (bd_cards (tx_board t5) = bd_cards (tx_board t4)) as ->.
  { unfold touch_project in E5. runs E5 found t6 E6. apply gets_inv in E6 as [_ ->]. destruct found; [|by apply ret_inv in E5 as [_ ->]].
    runs E5 w2 t7 E7. destruct w2. apply put_inv in E7. apply ret_inv in E5 as [_ ->]. by rewrite E7. }
  rewrite B4, E3. cbn [bd_cards]. apply lookup_delete_eq.
Qed.

(** ** Replays *)

(** Commands that a committed run invalidates; a card that is already played or queued
    may be played again. *)
Definition once (c : Command) : bool := match c with Play _ => false | _ => bool_decide (is_Some (revision_of c)) end.
Lemma advanced_not_current p id revision b : advanced p id revision b -> ~ current p id revision b.
Proof. intros (card & Hf & Hr) (c & Hf' & Hr'). assert (c = card) as -> by congruence. unfold microsecond in Hr. lia. Qed.
Lemma run_once env env' c t u t' t2 u2 t2' : board_inv (tx_board t) -> once c = true -> run env c t = Ok (u, t') -> tx_board t2 = tx_board t' ->
  run env' c t2 <> Ok (u2, t2').
Proof.
  intros Hi Ho H B H2. destruct (revision_of c) as [[[p id] revision]|] eqn:Hr; [|destruct c; done].
  pose proof (run_current _ _ _ _ _ _ _ _ Hr H2) as Hcur. rewrite B in Hcur.
  destruct c; cbn [revision_of] in Hr; try discriminate Hr; try discriminate Ho; injection Hr as <- <- <-; cbn [run] in H, H2;
    try (apply dropped_inv in H as [x H]); try (apply dropped_inv in H2 as [x2 H2]).
  - eapply advanced_not_current; [|exact Hcur]. exact (edit_advances _ _ _ _ _ _ _ _ Hi H).
  - destruct Hcur as (card & Hf & _). apply find_card_spec in Hf as [Hf _]. apply delete_run in H. congruence.
  - eapply advanced_not_current; [|exact Hcur]. exact (item_advances _ _ _ _ _ Hi H).
  - eapply advanced_not_current; [|exact Hcur]. exact (ticket_advances _ _ _ _ _ Hi H).
  - eapply advanced_not_current; [|exact Hcur]. exact (move_advances _ _ _ _ _ Hi H).
  - eapply advanced_not_current; [|exact Hcur]. exact (reconcile_advances _ _ _ _ _ Hi H).
  - apply pause_states in H as (card & _ & _ & Es); [|done].
    apply pause_run in H2 as (card2 & _ & _ & _ & _ & Hf2 & Hs2 & _). rewrite B in Hf2. apply find_card_spec in Hf2 as [Hc2 _].
    assert (states (tx_board t') !! cardID = Some (state_of card2)) as E by (unfold states; by rewrite lookup_fmap, Hc2).
    rewrite Es, lookup_insert_eq in E. injection E as _ _ E3 _ _ _. destruct Hs2; congruence.
Qed.
