(* ===== verification/ScrumMetrics.v ===== *)
(** * Flow metrics: round trip, score and counters

    The stored form of the metrics reads back as the metrics it was written from; the
    score is the sum of the weights of the signals, and an overflow is an error; the
    counters only grow, and every return and every bounce is also a regression. *)
From Stdlib Require Import Ascii.
From S2P Require Import Prelude Schema Intent QueryPlan PathIdentity PathFacts UserIntent JsonCodec Timestamp Scrum ScrumFlow SessionFacts.
From stdpp Require Import sorting base tactics strings list gmap numbers pretty.
From stdpp Require Import list options.
Open Scope Z_scope.
Open Scope go_scope.

(** ** Texts of timestamps are ASCII *)

Definition ascii_text (s : string) : bool := forallb seq1 (bytes s).
Lemma ascii_utf8 s : ascii_text s = true -> valid_utf8 s = true.
Proof. unfold ascii_text, bytes. induction s as [|a s IH]; [done|]. simpl. intros [Ha Hs]%andb_true_iff. rewrite Ha. auto. Qed.
Lemma ascii_app s t : ascii_text (s +:+ t) = (ascii_text s && ascii_text t)%bool.
Proof.
  unfold ascii_text, bytes. induction s as [|a s IH]; [done|]. simpl. by rewrite IH, andb_assoc.
Qed.
Lemma digits_ascii l : forallb is_digit l = true -> forallb seq1 l = true.
Proof.
  induction l as [|a l IH]; [done|]. simpl. intros [Ha Hl]%andb_true_iff. rewrite IH, andb_true_r by done.
  unfold seq1, byte_in. unfold is_digit, byte_in in Ha. apply andb_true_iff in Ha as [H1 H2]. apply N.leb_le in H1, H2.
  apply andb_true_iff. split; apply N.leb_le; lia.
Qed.
Lemma ascii_of_bytes l : ascii_text (of_bytes l) = forallb seq1 l.
Proof. unfold ascii_text, bytes, of_bytes. by rewrite String.list_ascii_of_string_of_list_ascii. Qed.
Lemma pretty_ascii (n : Z) : forallb seq1 (bytes (pretty n)) = true.
Proof.
  destruct n as [|p|p].
  - done.
  - change (pretty (Z.pos p)) with (pretty (N.pos p)). destruct (numeral (N.pos p)) as (ds & -> & Hd & _). by apply digits_ascii.
  - change (pretty (Z.neg p)) with ("-" +:+ pretty (N.pos p)). change (bytes ("-" +:+ pretty (N.pos p))) with (byte 45 :: bytes (pretty (N.pos p))).
    destruct (numeral (N.pos p)) as (ds & -> & Hd & _). simpl. by apply digits_ascii.
Qed.
Lemma zero_padded_ascii width n : ascii_text (zero_padded width n) = true.
Proof.
  unfold zero_padded. rewrite ascii_of_bytes, forallb_app. apply andb_true_iff. split; [|apply pretty_ascii].
  apply forallb_forall. intros a Ha. apply repeat_spec in Ha as ->. done.
Qed.
Lemma fraction_ascii n : ascii_text (fraction_text n) = true.
Proof.
  unfold fraction_text. assert (forall l, forallb seq1 l = true -> forallb seq1 (drop_zeros_rev l) = true) as Hz.
  { induction l as [|a l IH]; [done|]. simpl. intros H. apply andb_true_iff in H as [Ha Hl]. case_bool_decide; [auto|]. simpl. by rewrite Ha, Hl. }
  assert (forall l : list ascii, forallb seq1 l = true -> forallb seq1 (reverse l) = true) as Hr.
  { intros l H. apply forallb_forall. rewrite forallb_forall in H. intros a Ha. apply H. rewrite <-list_elem_of_In in Ha |- *. by apply elem_of_reverse. }
  pose proof (Hr _ (Hz _ (Hr _ (zero_padded_ascii 9 n)))) as H. unfold bytes in H.
  destruct (reverse _) as [|a l] eqn:E; [done|]. rewrite ascii_app, ascii_of_bytes. apply H.
Qed.
Lemma rfc3339_ascii t : ascii_text (format_rfc3339_nano t) = true.
Proof.
  unfold format_rfc3339_nano, zone_text. rewrite !ascii_app, !zero_padded_ascii, fraction_ascii. destruct (tm_offset t =? 0); [done|].
  rewrite !ascii_app, !zero_padded_ascii. by destruct (tm_offset t <? 0).
Qed.
Lemma canonical_time_utf8 s : canonical_time s = true -> valid_utf8 s = true.
Proof.
  unfold canonical_time. intros H. destruct (parse_rfc3339 s) as [c|]; [|done]. reflect. subst s. apply ascii_utf8, rfc3339_ascii.
Qed.

(** ** The stored form *)

(** Texts are valid UTF-8 and counters fit 64 bits. *)
Definition metrics_portable (m : ScrumFlowMetrics) : Prop :=
  Forall int64 [fm_AssignedReturns m; fm_ReviewBounces m; fm_RegressionCount m; fm_PlayRuns m; fm_ChannelMessages m;
                fm_ConversationChars m; fm_IncompleteScore m] /\
  Forall (fun s => valid_utf8 s = true) ([fm_CompletionStatus m; fm_LastPlayOutcome m; fm_Column m; fm_UpdatedAt m] ++ elems (fm_Signals m)).
Lemma column_utf8 s c : ParseScrumCardColumn s = Ok c -> valid_utf8 s = true.
Proof.
  unfold ParseScrumCardColumn. case_bool_decide as H; [|done]. intros _. unfold scrum_columns in H.
  repeat (apply elem_of_cons in H as [->|H]; [done|]). by apply not_elem_of_nil in H.
Qed.
Lemma flow_signal_utf8 l seen seen' : loop flow_signal seen l = Ok seen' -> Forall (fun s => valid_utf8 s = true) l.
Proof.
  apply loop_forall. intros st s st' H. unfold flow_signal in H. split_ok H. reflect.
  match goal with G : bad_text s = false |- _ => unfold bad_text in G; apply orb_false_iff in G as [G _]; by apply negb_false_iff in G end.
Qed.
Lemma valid_ranges m : validateScrumFlowMetrics m = Ok tt ->
  Forall (fun z => 0 <= z <= max_int32) [fm_AssignedReturns m; fm_ReviewBounces m; fm_RegressionCount m; fm_PlayRuns m; fm_IncompleteScore m] /\
  Forall (fun z => 0 <= z <= maxScrumFlowWideCounter) [fm_ChannelMessages m; fm_ConversationChars m].
Proof.
  unfold validateScrumFlowMetrics. intros H. split_ok H.
  match goal with G : for_each _ [fm_AssignedReturns m; _; _; _; _] = Ok ?a, G' : for_each _ [fm_ChannelMessages m; _] = Ok ?b |- _ =>
    destruct a, b; rewrite for_each_ok in G, G'; rename G into H1; rename G' into H2 end.
  split; [eapply Forall_impl; [exact H1|]|eapply Forall_impl; [exact H2|]]; intros z Hz; cbn beta in Hz; split_ok Hz; reflect; lia.
Qed.
Lemma valid_portable m : validateScrumFlowMetrics m = Ok tt -> metrics_portable m.
Proof.
  intros H. destruct (valid_ranges m H) as [H1 H2].
  repeat apply Forall_cons in H1 as [? H1]. repeat apply Forall_cons in H2 as [? H2]. unfold max_int32, maxScrumFlowWideCounter in *.
  split; [rewrite !Forall_cons; unfold int64; split_and!; try apply Forall_nil_2; lia|].
  unfold validateScrumFlowMetrics in H. split_ok H. apply Forall_app. split; [|by eapply flow_signal_utf8].
  repeat apply Forall_cons_2; [..|apply Forall_nil_2].
  - reflect. match goal with G : fm_CompletionStatus m ∈ _ |- _ => unfold completion_statuses in G;
      repeat (apply elem_of_cons in G as [->|G]; [done|]); by apply not_elem_of_nil in G end.
  - match goal with G : ((fm_LastPlayOutcome m != "") && _ && _)%bool = false |- _ => rename G into Go end.
    destruct (decide (fm_LastPlayOutcome m = "")) as [->|]; [done|]. destruct (decide (fm_LastPlayOutcome m = "success")) as [->|]; [done|].
    destruct (decide (fm_LastPlayOutcome m = "failed")) as [->|]; [done|]. rewrite !bool_decide_eq_false_2 in Go by done. done.
  - destruct (fm_Column m == "") eqn:Ec; [reflect; by rewrite Ec|]. by eapply column_utf8.
  - match goal with G : ((fm_UpdatedAt m != "") && _)%bool = false |- _ => rename G into Go end.
    destruct (decide (fm_UpdatedAt m = "")) as [->|]; [done|]. rewrite bool_decide_eq_false_2 in Go by done.
    apply negb_false_iff in Go. by apply canonical_time_utf8.
Qed.

(** Reads the fields of assigned metrics. *)
Ltac metrics_simpl :=
  cbn [assign set_returns set_bounces set_regressions set_runs set_message_count set_chars set_score set_status
       set_signals set_outcome set_metrics_column set_metrics_time fm_AssignedReturns fm_ReviewBounces fm_RegressionCount fm_PlayRuns
       fm_ChannelMessages fm_ConversationChars fm_IncompleteScore fm_CompletionStatus fm_Signals fm_LastPlayOutcome fm_Column fm_UpdatedAt
       elems default app].
Lemma string_again x s : valid_utf8 s = true -> from_json x (to_json s) = Ok s.
Proof. intros H. simpl. by rewrite json_text_valid, of_bytes_bytes. Qed.
Lemma int64_again x z : int64 z -> from_json x (to_json z) = Ok z.
Proof. intros H. simpl. by rewrite atoi_itoa. Qed.
Lemma signals_again x l : Forall (fun s => valid_utf8 s = true) l -> slice_from_json x (slice_to_json (Some l)) = Ok (Some l).
Proof. intros H. by apply (slice_exact (A := string)). Qed.
(** Decodes the next key of the metrics as the [i]-th field. *)
Ltac metric_field i :=
  cbn [loop]; erewrite (decode_nth scrum_flow_fields i) by reflexivity;
  cbn [jf_decode plain sliced omitted assign set_returns set_bounces set_regressions set_runs set_message_count set_chars set_score set_status
       set_signals set_outcome set_metrics_column set_metrics_time fm_AssignedReturns fm_ReviewBounces fm_RegressionCount fm_PlayRuns
       fm_ChannelMessages fm_ConversationChars fm_IncompleteScore fm_CompletionStatus fm_Signals fm_LastPlayOutcome fm_Column fm_UpdatedAt];
  first [rewrite string_again by done | rewrite int64_again by done | rewrite signals_again by done]; cbn iota beta.
(** The keys of the stored form. *)
Ltac write_metrics :=
  match goal with
  | |- context [struct_fields scrum_flow_fields ?m] =>
      let l := eval cbv -[to_json slice_to_json string_json int64_json] in (struct_fields scrum_flow_fields m) in
      change (struct_fields scrum_flow_fields m) with l
  end.
Lemma decode_metrics (base m : ScrumFlowMetrics) :
  metrics_portable m -> fm_Signals m <> None -> fm_LastPlayOutcome base = "" -> fm_Column base = "" -> fm_UpdatedAt base = "" ->
  struct_decode scrum_flow_fields base (encode_metrics m) = Ok m.
Proof.
  destruct m as [a b c d e f g h [i|] j k l]; intros [Hn Ht] Hs; [|done]. cbn in Hs. destruct base as [a0 b0 c0 d0 e0 f0 g0 h0 i0 j0 k0 l0].
  intros Hj Hk Hl. cbn in Hj, Hk, Hl. subst j0 k0 l0.
  repeat apply Forall_cons in Hn as [? Hn]. apply Forall_app in Ht as [Ht Hi]. repeat apply Forall_cons in Ht as [? Ht].
  cbn [fm_AssignedReturns fm_ReviewBounces fm_RegressionCount fm_PlayRuns fm_ChannelMessages fm_ConversationChars fm_IncompleteScore
       fm_CompletionStatus fm_Signals fm_LastPlayOutcome fm_Column fm_UpdatedAt elems] in *.
  unfold encode_metrics, struct_decode. destruct j as [|j1 j2], k as [|k1 k2], l as [|l1 l2]; write_metrics.
  all: repeat first [metric_field 0%nat | metric_field 1%nat | metric_field 2%nat | metric_field 3%nat | metric_field 4%nat | metric_field 5%nat
    | metric_field 6%nat | metric_field 7%nat | metric_field 8%nat | metric_field 9%nat | metric_field 10%nat | metric_field 11%nat].
  all: done.
Qed.
Lemma text_value s : valid_utf8 s = true -> to_json s = VString (bytes s).
Proof. intros H. cbn [to_json string_json]. by rewrite json_text_valid. Qed.
Lemma encoded_shape m l : metrics_portable m -> fm_Signals m = Some l ->
  validate_object scrum_flow_fields (encode_metrics m) = Ok tt /\
  exists fs, encode_metrics m = VObject fs /\ fs <> [] /\ for_each (require_metric fs) required_metrics = Ok tt /\
    for_each (nonempty_metric fs) optional_metrics = Ok tt.
Proof.
  destruct m as [a b c d e f g h i j k t]. intros [_ Ht] Hs. cbn in Hs. subst i. apply Forall_app in Ht as [Ht _]. repeat apply Forall_cons in Ht as [? Ht].
  cbn [fm_CompletionStatus fm_LastPlayOutcome fm_Column fm_UpdatedAt] in *. unfold encode_metrics.
  destruct j as [|j1 j2], k as [|k1 k2], t as [|t1 t2]; write_metrics; (split; [by vm_compute|]); (eexists; split; [reflexivity|]);
    rewrite ?text_value by done; (split; [done|]); split; reflexivity.
Qed.
Lemma metrics_back m : validateScrumFlowMetrics m = Ok tt -> fm_Signals m <> None -> canonicalScrumFlowMetrics (encode_metrics m) = Ok (Some m).
Proof.
  intros Hv Hs. pose proof (valid_portable m Hv) as Hp. destruct (fm_Signals m) as [l|] eqn:El; [|done].
  destruct (encoded_shape m l Hp El) as (H1 & fs & Efs & Hne & H2 & H3). unfold canonicalScrumFlowMetrics. rewrite H1.
  assert (struct_decode scrum_flow_fields no_metrics (VObject fs) = Ok m) as Hd by (rewrite <-Efs; apply decode_metrics; [done|congruence|done..]).
  rewrite Efs. destruct fs as [|kv fs]; [done|]. rewrite H2, H3, Hd, El, Hv. done.
Qed.
(** What is stored reads back as itself. *)
Lemma canonical_back v m : canonicalScrumFlowMetrics v = Ok m -> canonicalScrumFlowMetrics (canonical_value m) = Ok m.
Proof.
  destruct m as [m|]; [|done]. intros H. unfold canonicalScrumFlowMetrics in H. split_ok H. destruct v as [| | | | |fs]; try discriminate H.
  destruct fs as [|kv fs]; [discriminate H|]. split_ok H. subst m. reflect.
  match goal with G : validateScrumFlowMetrics _ = Ok ?u |- _ => destruct u; by apply metrics_back end.
Qed.

(** ** Refreshed metrics *)

(** What a refresh stores is the canonical form of some metrics of the card's revision,
    and the row reads back. *)
Lemma score_revision m incomplete m' : score m incomplete = Ok m' -> fm_UpdatedAt m' = fm_UpdatedAt m.
Proof.
  unfold score. intros H. split_ok H. subst m'. cbn. eapply (loop_inv (fun x => fm_UpdatedAt x = fm_UpdatedAt m)); [|reflexivity|exact E].
  intros x [s w] x' _ Hx Ha. unfold add_signal in Ha. cbn [fst snd] in Ha. destruct (w <=? 0); [by injection Ha as <-|]. split_ok Ha. by subst x'.
Qed.
Lemma canonical_some m c : canonicalScrumFlowMetrics (encode_metrics m) = Ok c -> fm_Signals m <> None -> metrics_portable m -> c = Some m.
Proof.
  intros H Hs Hp. destruct (fm_Signals m) as [l|] eqn:El; [|done]. destruct (encoded_shape m l Hp El) as (H1 & fs & Efs & Hne & H2 & H3).
  assert (struct_decode scrum_flow_fields no_metrics (VObject fs) = Ok m) as Hd by (rewrite <-Efs; apply decode_metrics; [done|congruence|done..]).
  unfold canonicalScrumFlowMetrics in H. rewrite H1, Efs in H. destruct fs as [|kv fs]; [done|]. rewrite H2, H3, Hd in H. split_ok H. done.
Qed.

(** ** The score *)

Definition total_weight (l : list (string * Z)) : Z := foldr (fun s n => s.2 + n) 0 l.
Definition counters_natural (m : ScrumFlowMetrics) : Prop :=
  Forall (fun z => 0 <= z) [fm_AssignedReturns m; fm_ReviewBounces m; fm_RegressionCount m; fm_PlayRuns m].
Lemma signal_weights m incomplete : Forall (fun s => 0 < s.2) (flow_signals m incomplete).
Proof.
  unfold flow_signals. cbv zeta.
  repeat (apply Forall_app; split); match goal with |- Forall _ (if ?b then _ else _) => destruct b eqn:Eb; [|apply Forall_nil_2] end;
    apply Forall_cons_2, Forall_nil_2; cbn [snd]; reflect; lia.
Qed.
Lemma add_signals l : Forall (fun s => 0 < s.2) l -> forall m names, fm_Signals m = Some names -> 0 <= fm_IncompleteScore m <= max_int32 ->
  loop add_signal m l =
  if fm_IncompleteScore m + total_weight l <=? max_int32
  then Ok (m <| fm_IncompleteScore := fm_IncompleteScore m + total_weight l |> <| fm_Signals := Some (names ++ l.*1) |>)
  else Err "Scrum flow incomplete score exceeds %d".
Proof.
  induction 1 as [|[s w] l Hw Hl IH]; intros m names Hs Hb; cbn [loop total_weight foldr snd].
  - rewrite Z.add_0_r, app_nil_r. rewrite (proj2 (Z.leb_le _ _)) by lia. destruct m. cbn in Hs. by subst.
  - cbn [snd] in Hw. assert (0 <= total_weight l) as Ht.
    { clear - Hl. induction Hl as [|x l Hx _ IH]; cbn [total_weight foldr]; [lia|]. fold (total_weight l). lia. }
    fold (total_weight l). unfold add_signal at 1. cbn [fst snd]. rewrite (proj2 (Z.leb_gt _ _)) by lia.
    destruct (max_int32 - fm_IncompleteScore m <? w) eqn:Eo; reflect.
    + rewrite (proj2 (Z.leb_gt _ _)) by lia. done.
    + rewrite Hs. cbn [elems]. rewrite (IH _ (names ++ [s])); [|done|cbn; lia]. destruct m. cbn in *. rewrite Z.add_assoc, <-app_assoc. done.
Qed.
(** The metrics before scoring: score and signals reset. *)
Definition unscored (m : ScrumFlowMetrics) : Prop := fm_IncompleteScore m = 0 /\ fm_Signals m = Some [].
Lemma score_run m incomplete : unscored m ->
  score m incomplete =
  let total := total_weight (flow_signals m incomplete) in
  if total <=? max_int32
  then let scored := m <| fm_IncompleteScore := total |> <| fm_Signals := Some (flow_signals m incomplete).*1 |> in
       Ok (scored <| fm_CompletionStatus := completion_of scored |>)
  else Err "Scrum flow incomplete score exceeds %d".
Proof.
  intros [Hs Hl]. unfold score. cbv zeta. rewrite (add_signals _ (signal_weights m incomplete) m []); [|done|rewrite Hs; unfold max_int32; lia].
  rewrite Hs, Z.add_0_l. by destruct (_ <=? _).
Qed.

(** ** The counters *)

Definition counters (m : ScrumFlowMetrics) : list Z := [fm_AssignedReturns m; fm_ReviewBounces m; fm_RegressionCount m; fm_PlayRuns m].
(** Returns and bounces are regressions. *)
Definition counted (m : ScrumFlowMetrics) : Prop :=
  Forall (fun z => 0 <= z <= max_int32) (counters m) /\ fm_AssignedReturns m + fm_ReviewBounces m <= fm_RegressionCount m.
Definition grown (m m' : ScrumFlowMetrics) : Prop :=
  fm_AssignedReturns m <= fm_AssignedReturns m' /\ fm_ReviewBounces m <= fm_ReviewBounces m' /\
  fm_RegressionCount m <= fm_RegressionCount m' /\ fm_PlayRuns m <= fm_PlayRuns m'.
Lemma returns_regress from to : returned_to_assigned from to = true -> regressed from to = true /\ bounced from to = false.
Proof.
  unfold returned_to_assigned. intros H. apply andb_true_iff in H as [Ht Hf]. apply bool_decide_eq_true in Ht, Hf. subst to.
  repeat (apply elem_of_cons in Hf as [->|Hf]; [by vm_compute|]). by apply not_elem_of_nil in Hf.
Qed.
Lemma bounces_regress from to : bounced from to = true -> regressed from to = true.
Proof. unfold bounced. intros H. apply andb_true_iff in H as [Hf Ht]. apply bool_decide_eq_true in Hf, Ht. by subst. Qed.
Lemma increment_ok z z' : increment z = Ok z' -> z' = z + 1 /\ z' <= max_int32.
Proof. unfold increment. intros H. split_ok H. reflect. lia. Qed.
Lemma delta_counted m d m' : counted m -> applyScrumFlowMetricDelta m d = Ok m' -> counted m' /\ grown m m'.
Proof.
  intros [Hr Hc] H. unfold counters in Hr. repeat apply Forall_cons in Hr as [? Hr]. unfold applyScrumFlowMetricDelta in H. destruct (dl_Kind d); split_ok H; subst m'.
  - match goal with E1 : (if returned_to_assigned ?f ?t then _ else _) = Ok ?x, E2 : (if bounced ?f ?t then _ else _) = Ok ?y,
      E3 : (if regressed ?f ?t then _ else _) = Ok ?z |- _ => rename E1 into K1; rename E2 into K2; rename E3 into K3;
      pose proof (returns_regress f t) as L1; pose proof (bounces_regress f t) as L2 end.
    destruct (returned_to_assigned _ _); [destruct (L1 eq_refl) as [L3 L4]; rewrite L4 in K2; rewrite L3 in K3|
      destruct (bounced _ _); [rewrite (L2 eq_refl) in K3|destruct (regressed _ _)]];
      repeat match goal with E : increment _ = Ok _ |- _ => apply increment_ok in E as [-> ?] | E : Ok _ = Ok _ |- _ => injection E as <- end;
      (split; [split; [repeat apply Forall_cons_2; try apply Forall_nil_2; cbn; lia|cbn; lia]|repeat split; cbn; lia]).
  - repeat match goal with E : increment _ = Ok _ |- _ => apply increment_ok in E as [-> ?] end.
    split; [split; [repeat apply Forall_cons_2; try apply Forall_nil_2; cbn; lia|cbn; lia]|repeat split; cbn; lia].
  - split; [split; [repeat apply Forall_cons_2; try apply Forall_nil_2; cbn; lia|cbn; lia]|repeat split; cbn; lia].
Qed.

(** ** Metrics written after a change read back *)

Lemma decimal_ascii z : ascii_text (decimal z) = true.
Proof. unfold decimal, itoa. rewrite ascii_of_bytes. apply pretty_ascii. Qed.
Lemma signals_ascii m incomplete : Forall (fun s => ascii_text s.1 = true) (flow_signals m incomplete).
Proof.
  unfold flow_signals. cbv zeta.
  repeat (apply Forall_app; split); match goal with |- Forall _ (if ?b then _ else _) => destruct b; [|apply Forall_nil_2] end;
    apply Forall_cons_2, Forall_nil_2; cbn [fst]; rewrite ?ascii_app, ?decimal_ascii; done.
Qed.
Lemma portable_delta m d m' : metrics_portable m -> Forall (fun z => 0 <= z <= max_int32) (counters m) -> applyScrumFlowMetricDelta m d = Ok m' ->
  metrics_portable m' /\ Forall (fun z => 0 <= z <= max_int32) (counters m').
Proof.
  destruct m as [a b c e f g h i j k l o]. intros [Hz Hs] Hr H. unfold counters in Hr. cbn in Hz, Hs, Hr. unfold applyScrumFlowMetricDelta in H.
  repeat apply Forall_cons in Hz as [? Hz]. repeat apply Forall_cons in Hs as [? Hs]. repeat apply Forall_cons in Hr as [? Hr].
  destruct (dl_Kind d); split_ok H; subst m'.
  - assert (forall (q : bool) z z', 0 <= z <= max_int32 -> (if q then increment z else Ok z) = Ok z' -> 0 <= z' <= max_int32) as Hi.
    { intros q z z' Hb E'. destruct q; [apply increment_ok in E' as [-> ?]; lia|by injection E' as <-]. }
    repeat match goal with G : (if ?q then increment ?z else Ok ?z) = Ok ?z' |- _ => apply Hi in G; [|cbn; done] end.
    unfold metrics_portable, counters, max_int32, int64 in *. cbn. split; [split|]; repeat apply Forall_cons_2; try apply Forall_nil_2; try done; lia.
  - match goal with G : increment _ = Ok _ |- _ => apply increment_ok in G as [-> ?] end. cbn in *.
    unfold metrics_portable, counters, max_int32, int64 in *. cbn. split; [split|]; repeat apply Forall_cons_2; try apply Forall_nil_2; try done; lia.
  - unfold metrics_portable, counters. cbn. split; [split|]; repeat apply Forall_cons_2; try apply Forall_nil_2; try done.
    match goal with G : ((dl_FromColumn d != "") || _ || _)%bool = false |- _ => rename G into Go end. apply orb_false_iff in Go as [_ Go].
    destruct (decide (dl_Outcome d = "success")) as [->|]; [done|]. destruct (decide (dl_Outcome d = "failed")) as [->|]; [done|].
    rewrite !bool_decide_eq_false_2 in Go by done. done.
Qed.
(** The metrics of a card before scoring. *)
Definition measured (card : DBScrumCard) (m : ScrumFlowMetrics) : ScrumFlowMetrics :=
  m <| fm_ChannelMessages := card_ChannelMessageCount card |> <| fm_ConversationChars := card_ChannelContentBytes card |>
    <| fm_Column := card_Column card |> <| fm_UpdatedAt := render (card_UpdatedAt card) |>
    <| fm_IncompleteScore := 0 |> <| fm_CompletionStatus := "uncertain" |> <| fm_Signals := Some [] |>.
Definition measurable (card : DBScrumCard) : Prop :=
  0 <= card_ChannelMessageCount card <= maxScrumFlowWideCounter /\ 0 <= card_ChannelContentBytes card <= maxScrumFlowWideCounter /\
  card_Column card ∈ scrum_columns.
Lemma completion_utf8 m : valid_utf8 (completion_of m) = true.
Proof. unfold completion_of. destruct (50 <=? _); [done|]. by destruct (_ && _)%bool. Qed.
Lemma completion_status m s : completion_of (m <| fm_CompletionStatus := s |>) = completion_of m.
Proof. by destruct m. Qed.
Lemma scored_portable card m incomplete m' : metrics_portable m -> measurable card -> score (measured card m) incomplete = Ok m' ->
  metrics_portable m' /\ fm_Signals m' <> None /\ fm_UpdatedAt m' = render (card_UpdatedAt card) /\
  fm_IncompleteScore m' = total_weight (flow_signals (measured card m) incomplete) /\ fm_CompletionStatus m' = completion_of m'.
Proof.
  intros [Hz Hs] (Hc & Hb & Hp) H. rewrite score_run in H by done. cbv zeta in H.
  pose proof (signals_ascii (measured card m) incomplete) as Ha. pose proof (signal_weights (measured card m) incomplete) as Hw.
  set (l := flow_signals _ _) in *. destruct (total_weight l <=? max_int32) eqn:Et; [|done]. injection H as <-. reflect.
  assert (0 <= total_weight l) as Hl.
  { clear - Hw. induction Hw as [|x l Hx _ IH]; cbn [total_weight foldr]; [lia|]. fold (total_weight l). lia. }
  destruct m as [a b c e f g h i j k p o]. cbn in Hz, Hs. repeat apply Forall_cons in Hz as [? Hz]. repeat apply Forall_cons in Hs as [? Hs].
  unfold maxScrumFlowWideCounter, max_int32 in *.
  split; [|split_and!; [discriminate|reflexivity|reflexivity|by rewrite completion_status]].
  assert (valid_utf8 (render (card_UpdatedAt card)) = true) as Hr by apply ascii_utf8, rfc3339_ascii.
  unfold measured. set (r := render _) in *. clearbody r.
  split; metrics_simpl; repeat apply Forall_cons_2; try apply Forall_nil_2; try done; try (unfold int64 in *; lia).
  - apply completion_utf8.
  - apply (column_utf8 _ (card_Column card)). unfold ParseScrumCardColumn. by rewrite bool_decide_eq_true_2.
  - apply Forall_fmap. eapply Forall_impl; [exact Ha|]. intros s. apply ascii_utf8.
Qed.
Lemma next_run card deltas v : measurable card -> next_flow_metrics card deltas = Ok v ->
  exists m0 m incomplete m', stored_metrics (card_FlowMetrics card) = Ok m0 /\ validateScrumFlowMetrics m0 = Ok tt /\
    loop applyScrumFlowMetricDelta m0 deltas = Ok m /\ scrumChecklistIncomplete (card_Checklist card) = Ok incomplete /\
    score (measured card m) incomplete = Ok m' /\ v = encode_metrics m' /\ canonicalScrumFlowMetrics v = Ok (Some m') /\
    fm_UpdatedAt m' = render (card_UpdatedAt card).
Proof.
  intros Hm H. unfold next_flow_metrics in H. split_ok H. subst v.
  match goal with G : stored_metrics _ = Ok ?x, G1 : validateScrumFlowMetrics _ = Ok ?u, G2 : loop _ _ deltas = Ok ?y,
    G3 : scrumChecklistIncomplete _ = Ok ?q, G4 : score _ _ = Ok ?z, G5 : canonicalScrumFlowMetrics _ = Ok ?c |- _ =>
    destruct u; rename x into m0, y into m, q into incomplete, z into m', c into stored; rename G into K, G1 into K1, G2 into K2, G3 into K3, G4 into K4, G5 into K5 end.
  fold (measured card m) in K4. destruct (valid_ranges m0 K1) as [Hr _].
  assert (metrics_portable m /\ Forall (fun z => 0 <= z <= max_int32) (counters m)) as [Hp _].
  { eapply (loop_inv (fun x => metrics_portable x /\ Forall (fun z => 0 <= z <= max_int32) (counters x))); [|split; [by apply valid_portable|]|exact K2].
    - intros x d x' _ [? ?] Hd. by eapply portable_delta.
    - repeat apply Forall_cons in Hr as [? Hr]. repeat apply Forall_cons_2; try apply Forall_nil_2; done. }
  destruct (scored_portable card m incomplete m' Hp Hm K4) as (Hp' & Hs' & Hu & _). pose proof (canonical_some m' stored K5 Hs' Hp') as ->.
  exists m0, m, incomplete, m'. by split_and!.
Qed.
Lemma next_reads card deltas v : measurable card -> card_UpdatedAt card <> 0 -> next_flow_metrics card deltas = Ok v ->
  canonicalScrumFlowMetricsForRevision v (card_UpdatedAt card) = Ok v.
Proof.
  intros Hm Hz H. destruct (next_run card deltas v Hm H) as (m0 & m & incomplete & m' & _ & _ & _ & _ & _ & Hv & Hc & Hu).
  unfold canonicalScrumFlowMetricsForRevision. rewrite Hc, Hu, bool_decide_eq_true_2 by done.
  rewrite (proj2 (Z.eqb_neq _ _)) by done. cbn [negb orb canonical_value]. by rewrite Hv.
Qed.

(** ** Fields of refreshed metrics *)

Lemma deltas_counted deltas : forall m m', counted m -> loop applyScrumFlowMetricDelta m deltas = Ok m' -> counted m' /\ grown m m'.
Proof.
  induction deltas as [|d deltas IH]; intros m m' Hc H; cbn [loop] in H.
  - injection H as <-. split; [done|]. unfold grown. lia.
  - destruct (applyScrumFlowMetricDelta m d) as [m1|] eqn:E; [|done]. destruct (delta_counted m d m1 Hc E) as [Hc1 Hg1].
    destruct (IH m1 m' Hc1 H) as [Hc2 Hg2]. split; [done|]. unfold grown in *. lia.
Qed.
Lemma score_fields card m incomplete m' : score (measured card m) incomplete = Ok m' ->
  fm_Column m' = card_Column card /\ fm_ChannelMessages m' = card_ChannelMessageCount card /\ fm_ConversationChars m' = card_ChannelContentBytes card /\
  fm_IncompleteScore m' = total_weight (flow_signals (measured card m) incomplete) /\ fm_CompletionStatus m' = completion_of m' /\
  fm_AssignedReturns m' = fm_AssignedReturns m /\ fm_ReviewBounces m' = fm_ReviewBounces m /\ fm_RegressionCount m' = fm_RegressionCount m /\
  fm_PlayRuns m' = fm_PlayRuns m.
Proof.
  intros H. rewrite score_run in H by done. cbv zeta in H. set (l := flow_signals _ _) in *. destruct (total_weight l <=? max_int32); [|done].
  injection H as <-. split_and!; first [by rewrite completion_status|reflexivity].
Qed.
(** The signals do not depend on the fields that scoring sets. *)
Lemma signals_of_scored m incomplete n l s :
  flow_signals (m <| fm_IncompleteScore := n |> <| fm_Signals := l |> <| fm_CompletionStatus := s |>) incomplete = flow_signals m incomplete.
Proof. by destruct m. Qed.
Lemma signals_same card m incomplete m' : score (measured card m) incomplete = Ok m' ->
  flow_signals m' incomplete = flow_signals (measured card m) incomplete.
Proof.
  intros H. rewrite score_run in H by done. cbv zeta in H. set (l := flow_signals (measured card m) incomplete) in *.
  destruct (total_weight l <=? max_int32); [|done]. injection H as <-. apply signals_of_scored.
Qed.

(** ** The score, rule by rule *)

(** What the history and the state of a card are worth. *)
Definition flow_points (m : ScrumFlowMetrics) (incomplete : bool) : Z :=
  25 * Z.max 0 (fm_AssignedReturns m) + 20 * Z.max 0 (fm_ReviewBounces m) +
  10 * Z.max 0 (fm_RegressionCount m - fm_AssignedReturns m - fm_ReviewBounces m) + 10 * Z.max 0 (fm_PlayRuns m - 2) +
  (if decide (30 <= fm_ChannelMessages m /\ fm_Column m <> "done") then 15 else 0) +
  (if decide (10000 <= fm_ConversationChars m /\ fm_Column m <> "done") then 10 else 0) +
  (if decide (fm_Column m = "blocked") then 20 else 0) +
  (if decide (incomplete = true /\ fm_Column m ∈ ["review"; "done"]) then 15 else 0) +
  (if decide (fm_LastPlayOutcome m = "failed") then 15 else 0).
(** What is reported about a card, by the number of the rule. *)
Inductive signalled (m : ScrumFlowMetrics) (incomplete : bool) : nat -> string -> Prop :=
  | signal_returns : 1 <= fm_AssignedReturns m -> signalled m incomplete 1
      ("returned to assigned " +:+ decimal (fm_AssignedReturns m) +:+ " time(s) after review or later")
  | signal_bounces : 1 <= fm_ReviewBounces m -> signalled m incomplete 2
      ("bounced out of review " +:+ decimal (fm_ReviewBounces m) +:+ " time(s)")
  | signal_regressions k : 1 <= k -> fm_AssignedReturns m + fm_ReviewBounces m + k = fm_RegressionCount m ->
      signalled m incomplete 3 (decimal k +:+ " other column regression(s)")
  | signal_runs : 3 <= fm_PlayRuns m -> signalled m incomplete 4 ("played " +:+ decimal (fm_PlayRuns m) +:+ " times")
  | signal_long : 30 <= fm_ChannelMessages m -> fm_Column m <> "done" -> signalled m incomplete 5
      ("long conversation (" +:+ decimal (fm_ChannelMessages m) +:+ " messages) without reaching done")
  | signal_heavy k r : fm_ConversationChars m = 1000 * k + r -> 0 <= r < 1000 -> 10 <= k -> fm_Column m <> "done" ->
      signalled m incomplete 6 ("heavy discussion (~" +:+ decimal k +:+ "k chars) still open")
  | signal_blocked : fm_Column m = "blocked" -> signalled m incomplete 7 "currently blocked"
  | signal_checklist : incomplete = true -> fm_Column m ∈ ["review"; "done"] ->
      signalled m incomplete 8 "checklist still incomplete in review/done"
  | signal_failed : fm_LastPlayOutcome m = "failed" -> signalled m incomplete 9 "last play outcome: failed".
(** What the points say about the work on the card. *)
Definition judged (m : ScrumFlowMetrics) (points : Z) (status : string) : Prop :=
  (50 <= points /\ status = "likely_incomplete") \/
  (points <= 15 /\ fm_Column m = "done" /\ fm_AssignedReturns m = 0 /\ status = "likely_complete") \/
  (points < 50 /\ ~ (points <= 15 /\ fm_Column m = "done" /\ fm_AssignedReturns m = 0) /\ status = "uncertain").

Lemma total_weight_app l1 l2 : total_weight (l1 ++ l2) = total_weight l1 + total_weight l2.
Proof. induction l1 as [|s l1 IH]; [done|]. unfold total_weight in *. simpl. rewrite IH. lia. Qed.
Lemma weight_when (b : bool) s w : total_weight (if b then [(s, w)] else []) = if b then w else 0.
Proof. destruct b; unfold total_weight; simpl; lia. Qed.
Lemma if_decided (b : bool) (P : Prop) `{Decision P} (x : Z) : (b = true <-> P) -> (if b then x else 0) = if decide P then x else 0.
Proof. intros E. destruct b, (decide P); try done; exfalso; naive_solver. Qed.
Lemma flow_points_sum m incomplete : total_weight (flow_signals m incomplete) = flow_points m incomplete.
Proof.
  unfold flow_signals, flow_points. cbv zeta. rewrite !total_weight_app, !weight_when, !Z.add_assoc.
  repeat apply (f_equal2 Z.add);
    try (match goal with |- context [(?a <? ?b)] => destruct (Z.ltb_spec a b) end; lia); apply if_decided;
    rewrite ?andb_true_iff, ?orb_true_iff, ?bool_decide_eq_true, ?negb_true_iff, ?bool_decide_eq_false, ?Z.leb_le; try done.
  rewrite !elem_of_cons, elem_of_nil. naive_solver.
Qed.

Definition fire (rule : nat * bool * string) : list (nat * string) := if rule.1.2 then [(rule.1.1, rule.2)] else [].
Lemma fired_in rules k s : (k, s) ∈ concat (fire <$> rules) <-> (k, true, s) ∈ rules.
Proof.
  rewrite list_elem_of_In, in_concat. split.
  - intros (l & Hl & Hin). apply list_elem_of_In, list_elem_of_fmap in Hl as ([[k' b] s'] & -> & Hr).
    destruct b; cbn in Hin; [|done]. destruct Hin as [[= -> ->]|[]]. done.
  - intros H. exists [(k, s)]. split; [|by left]. apply list_elem_of_In, list_elem_of_fmap. by exists (k, true, s).
Qed.
Lemma fired_sorted rules : StronglySorted lt ((fun r => r.1.1) <$> rules) -> StronglySorted lt (concat (fire <$> rules)).*1.
Proof.
  induction rules as [|[[k b] s] rules IH]; intros H; [constructor|]. cbn in H. apply StronglySorted_inv in H as [Hs Hk].
  cbn [fmap list_fmap concat]. unfold fire at 1. cbn [fst snd]. destruct b; [|by apply IH]. cbn. constructor; [by apply IH|].
  apply Forall_fmap, Forall_forall. intros [k' s'] Hin%fired_in. rewrite Forall_fmap, Forall_forall in Hk. apply (Hk _ Hin).
Qed.

(** The reported signals are those the rules give, in the order of the rules. *)
Lemma signals_by_rule m incomplete : exists listed,
  (flow_signals m incomplete).*1 = listed.*2 /\ StronglySorted lt listed.*1 /\
  forall k s, (k, s) ∈ listed <-> signalled m incomplete k s.
Proof.
  unfold flow_signals. cbv zeta.
  match goal with |- exists _, (?w1 ++ ?w2 ++ ?w3 ++ ?w4 ++ ?w5 ++ ?w6 ++ ?w7 ++ ?w8 ++ ?w9).*1 = _ /\ _ =>
    let rule k w := match w with (if ?b then [(?s, _)] else []) => constr:((k, b, s)) end in
    let r1 := rule 1%nat w1 in let r2 := rule 2%nat w2 in let r3 := rule 3%nat w3 in let r4 := rule 4%nat w4 in let r5 := rule 5%nat w5 in
    let r6 := rule 6%nat w6 in let r7 := rule 7%nat w7 in let r8 := rule 8%nat w8 in let r9 := rule 9%nat w9 in
    exists (concat (fire <$> [r1; r2; r3; r4; r5; r6; r7; r8; r9])) end.
  split_and!.
  - cbn [fmap list_fmap concat]. rewrite app_nil_r, !fmap_app. unfold fire. cbn [fst snd].
    repeat apply (f_equal2 app); match goal with |- context [if ?b then _ else _] => by destruct b end.
  - apply fired_sorted. cbn. repeat constructor.
  - intros k s. rewrite fired_in, !elem_of_cons, elem_of_nil. split.
    + intros H. repeat destruct H as [H|H]; try done; injection H as -> Hb ->; symmetry in Hb;
        rewrite ?andb_true_iff, ?orb_true_iff, ?bool_decide_eq_true, ?negb_true_iff, ?bool_decide_eq_false, ?Z.leb_le, ?Z.ltb_lt in Hb.
      * constructor. lia.
      * constructor. lia.
      * constructor; lia.
      * constructor. lia.
      * destruct Hb. by apply signal_long.
      * destruct Hb as [Hc Hd]. apply signal_heavy with (fm_ConversationChars m mod 1000); [|apply Z.mod_pos_bound; lia| |done].
        -- apply Z_div_mod_eq_full.
        -- apply Z.div_le_lower_bound; lia.
      * by constructor.
      * destruct Hb as [Hi Hc]. constructor; [done|]. rewrite !elem_of_cons. naive_solver.
      * by constructor.
    + destruct 1 as [H|H|k H Hk|H|H Hc|k r Hr H Hk Hc|H|H Hc|H].
      * left. do 2 f_equal. symmetry. apply Z.ltb_lt. lia.
      * right; left. do 2 f_equal. symmetry. apply Z.ltb_lt. lia.
      * do 2 right; left. replace (fm_RegressionCount m - fm_AssignedReturns m - fm_ReviewBounces m) with k by lia.
        do 2 f_equal. symmetry. apply Z.ltb_lt. lia.
      * do 3 right; left. do 2 f_equal. symmetry. apply Z.ltb_lt. lia.
      * do 4 right; left. do 2 f_equal. symmetry. apply andb_true_iff. split; [by apply Z.leb_le|].
        by apply negb_true_iff, bool_decide_eq_false.
      * do 5 right; left. rewrite Hr, (Z.mul_comm 1000), Z.div_add_l, Z.div_small, Z.add_0_r by lia.
        do 2 f_equal. symmetry. apply andb_true_iff. split; [apply Z.leb_le; lia|]. by apply negb_true_iff, bool_decide_eq_false.
      * do 6 right; left. do 2 f_equal. by rewrite H.
      * do 7 right; left. do 2 f_equal. rewrite H. repeat apply elem_of_cons in Hc as [->|Hc]; try done. by apply elem_of_nil in Hc.
      * do 8 right; left. do 2 f_equal. by rewrite H.
Qed.
Lemma completion_judged m points status : fm_IncompleteScore m = points -> completion_of m = status <-> judged m points status.
Proof.
  intros <-. unfold completion_of, judged.
  destruct (Z.leb_spec 50 (fm_IncompleteScore m)); [intuition (subst; done || lia)|].
  destruct (_ && _ && _)%bool eqn:E.
  - apply andb_true_iff in E as [[E1 E2]%andb_true_iff E3]. apply Z.leb_le in E1. apply bool_decide_eq_true in E2. apply Z.eqb_eq in E3.
    intuition (subst; done || lia).
  - assert (~ (fm_IncompleteScore m <= 15 /\ fm_Column m = "done" /\ fm_AssignedReturns m = 0)).
    { intros (H1 & H2 & H3). rewrite H2, H3, (proj2 (Z.leb_le _ _)) in E by done. done. }
    naive_solver lia.
Qed.
