(* ===== verification/ScrumMoveFacts.v ===== *)
(** * Orders on the board and what a move does

    The [ORDER BY] clauses are total orders when PostgreSQL's collation is one, so a
    selection is determined by the rows it selects.  The project, the column and the
    position of every card before and after the statements of [MoveScrumCard]. *)
From Stdlib Require Import Ascii.
From S2P Require Import Prelude Schema PathIdentity UserIntent JsonCodec Timestamp Scrum ScrumFlow ScrumBoard ScrumPlay ScrumEdit ScrumChannel ScrumFacts ScrumInv ScrumReach ScrumRevision.
From stdpp Require Import sorting base tactics strings list gmap numbers pretty.
From stdpp Require Import list options.
Open Scope Z_scope.
Open Scope go_scope.

(** ** Orders *)

(** ** Lawful keys *)

(** The collation of the database is a total order on text. *)
Class Collation (env : Env) : Prop := {
  collation_total a b : env_collation env a b = true \/ env_collation env b a = true;
  collation_trans a b c : env_collation env a b = true -> env_collation env b c = true -> env_collation env a c = true;
  collation_antisym a b : env_collation env a b = true -> env_collation env b a = true -> a = b
}.
(** A comparison that is a total preorder. *)
Record lawful (key : DBScrumCard -> DBScrumCard -> comparison) : Prop := {
  lawful_flip a b : key b a = CompOpp (key a b);
  lawful_eq a b c : key a b = Eq -> key b c = key a c;
  lawful_lt a b c : key a b = Lt -> key b c = Lt -> key a c = Lt
}.
Lemma lawful_asc f : lawful (asc f).
Proof.
  unfold asc. split; intros *.
  - apply Z.compare_antisym.
  - intros ->%Z.compare_eq. done.
  - rewrite !Z.compare_lt_iff. lia.
Qed.
Lemma lawful_desc f : lawful (desc f).
Proof.
  unfold desc. split; intros *.
  - apply Z.compare_antisym.
  - intros ->%Z.compare_eq. done.
  - rewrite !Z.compare_lt_iff. lia.
Qed.
Lemma by_id_cases env `{!Collation env} a b :
  (by_id env a b = Eq /\ card_ID a = card_ID b) \/ (by_id env a b = Lt /\ card_ID a <> card_ID b /\ env_collation env (card_ID a) (card_ID b) = true /\ by_id env b a = Gt) \/
  (by_id env a b = Gt /\ card_ID a <> card_ID b /\ env_collation env (card_ID b) (card_ID a) = true /\ by_id env b a = Lt).
Proof.
  unfold by_id. destruct (env_collation env (card_ID a) (card_ID b)) eqn:E1, (env_collation env (card_ID b) (card_ID a)) eqn:E2.
  - left. split; [done|]. by apply (collation_antisym (env := env)).
  - right. left. split_and!; try done. intros H. rewrite H in E1, E2. congruence.
  - right. right. split_and!; try done. intros H. rewrite H in E1, E2. congruence.
  - exfalso. destruct (collation_total (env := env) (card_ID a) (card_ID b)); congruence.
Qed.
Lemma lawful_by_id env `{!Collation env} : lawful (by_id env).
Proof.
  split.
  - intros a b. unfold by_id. by destruct (env_collation env (card_ID a) (card_ID b)), (env_collation env (card_ID b) (card_ID a)).
  - intros a b c H. destruct (by_id_cases env a b) as [[_ E]|[(E & _)|(E & _)]]; [|congruence..]. unfold by_id. by rewrite E.
  - intros a b c Hab Hbc. destruct (by_id_cases env a b) as [[E _]|[(_ & Hn & Eab & _)|(E & _)]]; [congruence| |congruence].
    destruct (by_id_cases env b c) as [[E _]|[(_ & Hn2 & Ebc & _)|(E & _)]]; [congruence| |congruence].
    pose proof (collation_trans (env := env) _ _ _ Eab Ebc) as Eac. destruct (by_id_cases env a c) as [[_ E]|[(E & _)|(_ & Hn3 & Eca & _)]]; [|done|].
    + exfalso. apply Hn. apply (collation_antisym (env := env)); [done|]. by rewrite E.
    + exfalso. apply Hn3. by apply (collation_antisym (env := env)).
Qed.

Section keys.
Context (keys : order_keys) (Hkeys : Forall lawful keys).

Lemma ordered_cons key rest a b : ordered (key :: rest) a b <-> key a b = Lt \/ (key a b = Eq /\ ordered rest a b).
Proof using Type. unfold ordered. cbn [fold_right]. destruct (key a b); intuition congruence. Qed.
Lemma ordered_total a b : ordered keys a b \/ ordered keys b a.
Proof using Type*.
  induction Hkeys as [|key rest Hk Hrest IH]; [by left|]. specialize (IH Hrest). rewrite !ordered_cons, (lawful_flip _ Hk a b).
  destruct IH, (key a b) eqn:Eab; cbn [CompOpp]; intuition congruence.
Qed.
Lemma ordered_trans a b c : ordered keys a b -> ordered keys b c -> ordered keys a c.
Proof using Type*.
  induction Hkeys as [|key rest Hk Hrest IH]; [done|]. specialize (IH Hrest). rewrite !ordered_cons. intros [H1|[H1 H2]] [H3|[H3 H4]].
  - left. by eapply lawful_lt.
  - left. pose proof (lawful_eq _ Hk c b a) as E. rewrite (lawful_flip _ Hk b c), H3 in E. specialize (E eq_refl).
    rewrite (lawful_flip _ Hk a b), H1, (lawful_flip _ Hk a c) in E. destruct (key a c); done.
  - left. by rewrite <-(lawful_eq _ Hk _ _ c H1).
  - right. rewrite <-(lawful_eq _ Hk _ _ c H1). auto.
Qed.
Lemma ordered_same a b key : key ∈ keys -> ordered keys a b -> ordered keys b a -> key a b = Eq.
Proof using Type*.
  induction Hkeys as [|k rest Hk Hrest IH]; [intros H; by apply not_elem_of_nil in H|]. specialize (IH Hrest). rewrite !ordered_cons, (lawful_flip _ Hk a b), elem_of_cons.
  intros [->|Hin] H1 H2; destruct (k a b) eqn:Eab; cbn [CompOpp] in *; intuition congruence.
Qed.
Lemma sorted_keys l : StronglySorted (ordered keys) (merge_sort (ordered keys) l).
Proof using Type*.
  apply StronglySorted_merge_sort; [intros a b c; apply ordered_trans|intros a b; apply ordered_total].
Qed.
End keys.
#[export] Hint Resolve lawful_asc lawful_desc lawful_by_id : board.

(** A selection ordered by identity in the end is determined by its rows. *)
Lemma selection_unique env `{!Collation env} keys l1 l2 : Forall lawful keys -> by_id env ∈ keys -> l1 ≡ₚ l2 ->
  (forall a b, a ∈ l1 -> b ∈ l1 -> card_ID a = card_ID b -> a = b) ->
  merge_sort (ordered keys) l1 = merge_sort (ordered keys) l2.
Proof.
  intros Hk Hin Hp Hid. apply (StronglySorted_unique_strong (ordered keys)).
  - intros a b Ha Hb H1 H2. rewrite merge_sort_Permutation in Ha, Hb. rewrite <-Hp in Hb. apply Hid; [done..|].
    pose proof (ordered_same keys Hk a b (by_id env) Hin H1 H2) as E. destruct (by_id_cases env a b) as [[_ ?]|[(? & _)|(? & _)]]; congruence.
  - by apply sorted_keys.
  - by apply sorted_keys.
  - by rewrite !merge_sort_Permutation.
Qed.

(** ** Moves *)

(** Project, column and position of a card. *)
Definition place_of (card : DBScrumCard) : Z * string * Z := (card_ProjectID card, card_Column card, card_BoardOrder card).
Definition places (b : Board) : gmap string (Z * string * Z) := place_of <$> bd_cards b.
(** The identities of a column, in its order, without one card. *)
Definition column_ids (env : Env) (p : Z) (column excluded : string) (b : Board) : list string :=
  card_ID <$> column_order env p column excluded b.
(** The list is the column: its cards, at the positions 0, 1, ... *)
Definition laid_out (p : Z) (column : string) (ids : list string) (b : Board) : Prop :=
  (forall i id, ids !! i = Some id -> places b !! id = Some (p, column, Z.of_nat i)) /\
  (forall id n, places b !! id = Some (p, column, n) -> id ∈ ids).
(** The list with an identity put before another one, or at its end. *)
Definition insert_at (n : nat) (id : string) (ids : list string) : list string := take n ids ++ id :: drop n ids.
Definition insertion (before : string) (ids : list string) : option nat :=
  if before == "" then Some (length ids) else fst <$> list_find (fun id => id = before) ids.

Lemma places_states b b' : states b' = states b -> places b' = places b.
Proof.
  intros H. apply map_eq. intros i. unfold places. rewrite !lookup_fmap. apply (f_equal (lookup i)) in H. unfold states in H. rewrite !lookup_fmap in H.
  destruct (bd_cards b' !! i) as [c'|], (bd_cards b !! i) as [c|]; try done. cbn in *. unfold state_of in H. unfold place_of. congruence.
Qed.

(** ** The order of a column *)

Lemma lawful_column env `{!Collation env} column : Forall lawful (column_keys env column).
Proof. unfold column_keys. repeat apply Forall_cons_2; try apply Forall_nil_2; auto with board. Qed.
Lemma project_cards_nodup p b : keyed b -> NoDup (card_ID <$> project_cards p b).
Proof.
  intros Hk. apply NoDup_fmap_2_strong.
  - intros x y (i & Hi & _)%project_cards_spec (j & Hj & _)%project_cards_spec E.
    pose proof (Hk _ _ Hi). pose proof (Hk _ _ Hj). congruence.
  - unfold project_cards. apply NoDup_filter. apply (NoDup_fmap_1 card_ID).
    rewrite <-list_fmap_compose. rewrite (list_fmap_ext _ fst); [apply NoDup_fst_map_to_list|].
    intros i [k c] Hin. apply list_elem_of_lookup_2, elem_of_map_to_list in Hin. by apply Hk.
Qed.
Lemma column_order_spec env p column excluded b card : card ∈ column_order env p column excluded b <->
  card ∈ project_cards p b /\ card_Column card = column /\ card_ID card <> excluded.
Proof. unfold column_order. rewrite merge_sort_Permutation, list_elem_of_filter. tauto. Qed.
Lemma column_ids_nodup env p column excluded b : keyed b -> NoDup (column_ids env p column excluded b).
Proof.
  intros Hk. unfold column_ids, column_order. rewrite merge_sort_Permutation. pose proof (project_cards_nodup p b Hk) as H.
  eapply sublist_NoDup; [exact H|]. apply fmap_sublist, sublist_filter.
Qed.
Lemma column_ids_spec env p column excluded b id : keyed b ->
  id ∈ column_ids env p column excluded b <-> id <> excluded /\ exists n, places b !! id = Some (p, column, n).
Proof.
  intros Hk. unfold column_ids. rewrite list_elem_of_fmap. split.
  - intros (card & -> & (Hin & Hc & Hne)%column_order_spec). apply project_cards_spec in Hin as (i & Hi & Hp). rewrite (Hk _ _ Hi) in *.
    split; [done|]. exists (card_BoardOrder card). unfold places. rewrite lookup_fmap, Hi. cbn. unfold place_of. by rewrite Hp, Hc.
  - intros (Hne & n & H). unfold places in H. rewrite lookup_fmap in H. destruct (bd_cards b !! id) as [card|] eqn:Hi; [|done].
    injection H as Hp Hc Ho. exists card. rewrite (Hk _ _ Hi). split; [done|]. apply column_order_spec. rewrite (Hk _ _ Hi).
    split_and!; [apply project_cards_spec; eauto|done..].
Qed.
(** The order of a column depends on the cards of the column only. *)
Lemma column_order_same env `{!Collation env} p column excluded b b' : keyed b -> keyed b' ->
  (forall i card, card_ProjectID card = p -> card_Column card = column -> bd_cards b !! i = Some card <-> bd_cards b' !! i = Some card) ->
  column_order env p column excluded b' = column_order env p column excluded b.
Proof.
  intros Hk Hk' H. apply (selection_unique env); [apply lawful_column; done|unfold column_keys; set_solver| |].
  - apply NoDup_Permutation; [apply NoDup_filter; eapply NoDup_fmap_1, project_cards_nodup; done..|].
    intros card. rewrite !list_elem_of_filter, !project_cards_spec. split; intros [[Hc Hne] (i & Hi & Hp)]; (split; [done|]); exists i; (split; [|done]);
      by apply (H i card Hp Hc).
  - intros x y [_ (i & Hi & _)%project_cards_spec]%list_elem_of_filter [_ (j & Hj & _)%project_cards_spec]%list_elem_of_filter E.
    pose proof (Hk' _ _ Hi). pose proof (Hk' _ _ Hj). congruence.
Qed.

(** ** The statements *)

Lemma positions_spec order id n : NoDup (card_ID <$> order) ->
  positions order !! id = Some n <-> exists k, (card_ID <$> order) !! k = Some id /\ n = Z.of_nat k.
Proof.
  intros Hn. unfold positions. rewrite <-elem_of_list_to_map.
  - rewrite list_elem_of_lookup. split.
    + intros [k H]. rewrite list_lookup_imap in H. destruct (order !! k) as [card|] eqn:E; [|done]. injection H as <- <-.
      exists k. rewrite list_lookup_fmap, E. by split.
    + intros (k & H & ->). rewrite list_lookup_fmap in H. destruct (order !! k) as [card|] eqn:E; [|done]. injection H as <-.
      exists k. by rewrite list_lookup_imap, E.
  - enough ((imap (fun i card => (card_ID card, Z.of_nat i)) order).*1 = card_ID <$> order) as -> by done.
    rewrite fmap_imap. apply list_eq. intros k. rewrite list_lookup_imap, list_lookup_fmap. by destruct (order !! k).
Qed.
(** Renumbering a column lays it out, and moves no other card. *)
Lemma normalize_places env p column excluded t u t' : keyed (tx_board t) -> normalizeScrumColumnOrderTx env p column excluded t = Ok (u, t') ->
  let ids := column_ids env p column excluded (tx_board t) in
  keyed (tx_board t') /\
  (forall k id, ids !! k = Some id -> places (tx_board t') !! id = Some (p, column, Z.of_nat k)) /\
  (forall id, id ∉ ids -> bd_cards (tx_board t') !! id = bd_cards (tx_board t) !! id).
Proof.
  intros Hk H. cbv zeta. unfold normalizeScrumColumnOrderTx in H. runs H order_ t1 E. apply gets_inv in E as [-> ->]. runs H now t1 E.
  apply update_cards_inv in H as [Hb _]. rewrite (reads_clock env _ _ _ E) in Hb. clear E. unfold column_ids.
  set (cards := column_order env p column excluded (tx_board t)) in *. pose proof (column_ids_nodup env p column excluded _ Hk) as Hn. fold cards in Hn.
  unfold column_ids in Hn. fold cards in Hn. rewrite Hb. split_and!.
  - intros i c Hi. cbn [bd_cards with_cards] in Hi. apply lookup_fmap_Some in Hi as (c0 & <- & Hi). rewrite <-(Hk _ _ Hi).
    unfold renumber. repeat case_match; done.
  - intros k id Hid. assert (positions cards !! id = Some (Z.of_nat k)) as Hpos by (apply positions_spec; eauto).
    rewrite list_lookup_fmap in Hid. destruct (cards !! k) as [card|] eqn:Ek; [|done]. injection Hid as Hid.
    apply list_elem_of_lookup_2 in Ek. unfold cards in Ek. apply column_order_spec in Ek as (Hin & Hc & Hne).
    apply project_cards_spec in Hin as (i & Hi & Hp). pose proof (Hk _ _ Hi) as Hid'. rewrite Hid in Hid'. subst i.
    unfold places. cbn [bd_cards with_cards]. rewrite !lookup_fmap, Hi. cbn. unfold renumber. rewrite Hid, Hpos.
    destruct (card_BoardOrder card =? Z.of_nat k) eqn:Eo; cbn; unfold place_of; card_simpl; [|congruence]. apply Z.eqb_eq in Eo. congruence.
  - intros id Hid. cbn [bd_cards with_cards]. rewrite lookup_fmap. destruct (bd_cards (tx_board t) !! id) as [card|] eqn:Hi; [|done]. cbn.
    unfold renumber. rewrite (Hk _ _ Hi). destruct (positions cards !! id) as [n|] eqn:En; [|done].
    apply positions_spec in En as (k & Hk' & _); [|done]. exfalso. apply Hid. by eapply list_elem_of_lookup_2.
Qed.
Lemma shift_places now move insertAt t u t' : keyed (tx_board t) -> update_cards (shift_from now move insertAt) t = Ok (u, t') ->
  keyed (tx_board t') /\ forall id, places (tx_board t') !! id = (fun '(p, column, n) =>
    (p, column, if bool_decide (p = mv_ProjectID move /\ column = mv_Column move /\ id <> mv_CardID move /\ insertAt <= n) then n + 1 else n)) <$>
    places (tx_board t) !! id.
Proof.
  intros Hk H. apply update_cards_inv in H as [-> _]. split.
  - intros i c Hi. cbn [bd_cards with_cards] in Hi. apply lookup_fmap_Some in Hi as (c0 & <- & Hi). rewrite <-(Hk _ _ Hi).
    unfold shift_from. by case_match.
  - intros id. unfold places. cbn [bd_cards with_cards]. rewrite !lookup_fmap. destruct (bd_cards (tx_board t) !! id) as [card|] eqn:Hi; [|done].
    cbn. unfold shift_from, in_column. rewrite (Hk _ _ Hi). f_equal.
    destruct (bool_decide (card_ProjectID card = _ /\ card_Column card = _ /\ id <> _) && (insertAt <=? card_BoardOrder card))%bool eqn:Eb.
    + apply andb_true_iff in Eb as [E1 E2]. apply bool_decide_eq_true in E1. apply Z.leb_le in E2.
      rewrite bool_decide_eq_true_2 by tauto. done.
    + rewrite bool_decide_eq_false_2; [done|]. intros (H1 & H2 & H3 & H4). rewrite bool_decide_eq_true_2 in Eb by done.
      by rewrite (proj2 (Z.leb_le _ _) H4) in Eb.
Qed.
Lemma place_card p id column n at_ t m t' : keyed (tx_board t) ->
  update_card p id (fun row => row <| card_Column := column |> <| card_BoardOrder := n |> <| card_UpdatedAt := advance at_ row |>) t = Ok (m, t') ->
  is_Some (find_card p id (tx_board t)) -> keyed (tx_board t') /\ places (tx_board t') = <[id := (p, column, n)]> (places (tx_board t)).
Proof.
  intros Hk H [c Hc]. apply update_card_inv in H as [(_ & _ & E)|(card & _ & Hf & _ & ->)]; [congruence|]. apply find_card_spec in Hf as [Hi Hp]. split.
  - intros i c' Hi'. cbn [bd_cards with_cards] in Hi'. apply lookup_insert_Some in Hi' as [[<- <-]|[_ Hi']]; [done|by apply Hk].
  - unfold places. cbn [bd_cards with_cards]. rewrite fmap_insert.
    assert (card_ID card = id) as Hid by exact (Hk _ _ Hi). card_simpl. rewrite Hid. f_equal. unfold place_of. card_simpl. by rewrite Hp.
Qed.

(** ** The whole move *)

(** Statements that place no card. *)
Definition placed (b b' : Board) : Prop := keyed b -> keyed b' /\ places b' = places b.
#[global] Instance placed_preorder : PreOrder placed.
Proof. split; [by intros b Hk|]. intros b1 b2 b3 H1 H2 Hk. destruct (H1 Hk) as [Hk2 <-]. by destruct (H2 Hk2) as [Hk3 <-]. Qed.
Lemma placed_put f : (forall b, bd_cards (f b) = bd_cards b) -> keeps placed (put f).
Proof. intros Hf. apply keeps_put. intros b Hk. unfold keyed, places. by rewrite Hf. Qed.
#[export] Hint Extern 1 (keeps placed (put _)) => apply placed_put; done : board.
Lemma placed_update p id set : (forall card, card_ID (set card) = card_ID card /\ place_of (set card) = place_of card) -> keeps placed (update_card p id set).
Proof.
  intros Hs t n t' H Hk. apply update_card_inv in H as [(_ & -> & _)|(card & _ & Hf & _ & ->)]; [done|]. apply find_card_spec in Hf as [Hc _].
  destruct (Hs card) as [HID HP]. rewrite HID, (Hk _ _ Hc). split.
  - intros i c Hi. cbn [bd_cards with_cards] in Hi. apply lookup_insert_Some in Hi as [[<- <-]|[_ Hi]]; [by rewrite HID, (Hk _ _ Hc)|by apply Hk].
  - unfold places. cbn [bd_cards with_cards]. rewrite fmap_insert, HP. apply insert_id. by rewrite lookup_fmap, Hc.
Qed.
Lemma placed_metrics p id deltas : keeps placed (updateScrumFlowMetricsTx p id deltas).
Proof. unfold updateScrumFlowMetricsTx. keeping. apply placed_update. by intros card. Qed.
Lemma placed_touch p seen updated : keeps placed (touch_project p seen updated).
Proof. unfold touch_project. keeping. Qed.
#[export] Hint Resolve placed_metrics placed_touch : board.
Lemma placed_rest (same : bool) env p id deltas (previous : DBScrumCard) : keeps placed (
  exec (if same then ret tt else applyScrumFlowMetricDeltasTx p id deltas);
  exec touch_uncounted env p; let* updated := reload p id in ret (previous, updated)).
Proof. unfold applyScrumFlowMetricDeltasTx, touch_uncounted. keeping. Qed.

Lemma insert_at_lookup n id ids i : (n <= length ids)%nat ->
  insert_at n id ids !! i = if decide (i < n)%nat then ids !! i else if decide (i = n) then Some id else ids !! (i - 1)%nat.
Proof.
  intros Hn. unfold insert_at. destruct (decide (i < n)%nat) as [H|H].
  - rewrite lookup_app_l by (rewrite length_take; lia). by apply lookup_take_lt.
  - rewrite lookup_app_r, length_take, Nat.min_l by (rewrite ?length_take; lia). destruct (decide (i = n)) as [->|Hne]; [by rewrite Nat.sub_diag|].
    destruct (i - n)%nat as [|k] eqn:Ek; [lia|].
    change (drop n ids !! k = ids !! (i - 1)%nat). rewrite lookup_drop. f_equal. lia.
Qed.
Lemma insert_at_elem n id ids x : x ∈ insert_at n id ids <-> x = id \/ x ∈ ids.
Proof. unfold insert_at. rewrite elem_of_app, elem_of_cons. rewrite <-(take_drop n ids) at 3. rewrite elem_of_app. tauto. Qed.
(** The position of the insertion, read after the renumbering. *)
Lemma insertion_position (env : Env) move t insertAt ids : keyed (tx_board t) -> NoDup ids -> mv_CardID move ∉ ids -> mv_BeforeCardID move <> mv_CardID move ->
  (forall k i, ids !! k = Some i -> places (tx_board t) !! i = Some (mv_ProjectID move, mv_Column move, Z.of_nat k)) ->
  (forall i n, i <> mv_CardID move -> places (tx_board t) !! i = Some (mv_ProjectID move, mv_Column move, n) -> i ∈ ids) ->
  scrumMoveInsertPositionTx move t = Ok (insertAt, t) ->
  exists n, insertion (mv_BeforeCardID move) ids = Some n /\ insertAt = Z.of_nat n /\ (n <= length ids)%nat.
Proof.
  intros Hk Hn Hnotin Hne Hpos Hin H. unfold scrumMoveInsertPositionTx in H. unfold insertion.
  destruct (mv_BeforeCardID move == "") eqn:Eb.
  - apply gets_inv in H as [-> _]. eexists. split; [done|]. split; [|done]. f_equal.
    rewrite <-(length_fmap card_ID). apply Permutation_length, NoDup_Permutation.
    + eapply sublist_NoDup; [apply (project_cards_nodup (mv_ProjectID move) _ Hk)|]. apply fmap_sublist, sublist_filter.
    + done.
    + intros i. pose proof (column_ids_spec env (mv_ProjectID move) (mv_Column move) (mv_CardID move) _ i Hk) as Hs.
      unfold column_ids in Hs. assert (forall card, card ∈ filter (fun card => in_column (mv_ProjectID move) (mv_Column move) (mv_CardID move) card = true)
        (project_cards (mv_ProjectID move) (tx_board t)) <-> card ∈ column_order env (mv_ProjectID move) (mv_Column move) (mv_CardID move) (tx_board t)) as Hf.
      { intros card. rewrite list_elem_of_filter, column_order_spec. unfold in_column. rewrite bool_decide_eq_true.
        split; [naive_solver|]. intros (Hc & ? & ?). pose proof Hc as (? & _ & ?)%project_cards_spec. naive_solver. }
      rewrite list_elem_of_fmap in Hs |- *. setoid_rewrite Hf. rewrite Hs. split.
      * intros [Hi [n Hp]]. by eapply Hin.
      * intros Hi. apply list_elem_of_lookup in Hi as [k Hi]. split; [|eauto]. intros ->. apply Hnotin. by eapply list_elem_of_lookup_2.
  - runs H found t1 E. apply gets_inv in E as [-> ->]. destruct (find_card _ _ _) as [card|] eqn:Ef; [|done].
    destruct (card_Column card == mv_Column move) eqn:Ec; [|done]. apply ret_inv in H as [-> _]. reflect. apply find_card_spec in Ef as [Hc Hp].
    assert (places (tx_board t) !! mv_BeforeCardID move = Some (mv_ProjectID move, mv_Column move, card_BoardOrder card)) as Hpl
      by (unfold places; rewrite lookup_fmap, Hc; cbn; unfold place_of; congruence).
    pose proof (Hin _ _ Hne Hpl) as [k Hl]%list_elem_of_lookup. pose proof (Hpos _ _ Hl) as Hpl2. rewrite Hpl in Hpl2. injection Hpl2 as Ho.
    exists k. split; [|split; [done|]].
    + rewrite (proj2 (list_find_Some (fun id => id = mv_BeforeCardID move) ids k (mv_BeforeCardID move))); [done|]. split_and!; [done..|].
      intros j y Hj Hlt ->. pose proof (proj1 (NoDup_alt ids) Hn _ _ _ Hj Hl). lia.
    + apply lookup_lt_Some in Hl. lia.
Qed.

(** A renumbered column, and the rest of the board. *)
Definition renumbered (p : Z) (column : string) (ids : list string) (b b' : Board) : Prop :=
  (forall k id, ids !! k = Some id -> places b' !! id = Some (p, column, Z.of_nat k)) /\
  (forall id, id ∉ ids -> bd_cards b' !! id = bd_cards b !! id).
Lemma renumbered_other p column ids b b' id : renumbered p column ids b b' -> id ∉ ids -> places b' !! id = places b !! id.
Proof. intros [_ H] Hid. unfold places. by rewrite !lookup_fmap, H. Qed.
Lemma renumbered_column env p column excluded b b' id c n : keyed b -> renumbered p column (column_ids env p column excluded b) b b' ->
  places b' !! id = Some (p, c, n) -> c <> column -> places b !! id = Some (p, c, n).
Proof.
  intros Hk Hr H Hc. destruct (decide (id ∈ column_ids env p column excluded b)) as [Hin|Hin].
  - apply list_elem_of_lookup in Hin as [k Hl]. rewrite (proj1 Hr _ _ Hl) in H. congruence.
  - by rewrite <-(renumbered_other _ _ _ _ _ _ Hr Hin).
Qed.
Lemma normalize_renumbered env p column excluded t u t' : keyed (tx_board t) -> normalizeScrumColumnOrderTx env p column excluded t = Ok (u, t') ->
  keyed (tx_board t') /\ renumbered p column (column_ids env p column excluded (tx_board t)) (tx_board t) (tx_board t').
Proof. intros Hk H. destruct (normalize_places env p column excluded t u t' Hk H) as (Hk' & H1 & H2). by split. Qed.
(** Renumbering a column leaves the order of another one alone. *)
Lemma column_ids_other env `{!Collation env} p source column excluded b b' : keyed b -> keyed b' -> source <> column ->
  renumbered p source (column_ids env p source excluded b) b b' -> column_ids env p column excluded b' = column_ids env p column excluded b.
Proof.
  intros Hk Hk' Hne [H1 H2]. unfold column_ids. f_equal. apply column_order_same; [done..|]. intros i card Hp Hc.
  destruct (decide (i ∈ column_ids env p source excluded b)) as [Hin|Hin]; [|by rewrite H2].
  split; intros Hi; exfalso.
  - apply column_ids_spec in Hin as (_ & n & Hpl); [|done]. unfold places in Hpl. rewrite lookup_fmap, Hi in Hpl. injection Hpl as _ E _. congruence.
  - apply list_elem_of_lookup in Hin as [k Hl]. specialize (H1 _ _ Hl). unfold places in H1. rewrite lookup_fmap, Hi in H1. injection H1 as _ E _. congruence.
Qed.

(** The position of a card after the shift. *)
Definition shifted (p : Z) (column : string) (n : nat) (place : Z * string * Z) : Z * string * Z :=
  let '(p', c, m) := place in (p', c, if bool_decide (p' = p /\ c = column /\ Z.of_nat n <= m) then m + 1 else m).
Lemma move_stages env `{!Collation env} move b previous updated t' : board_inv b ->
  MoveScrumCard env move (mkTx b 0 0) = Ok ((previous, updated), t') ->
  let p := mv_ProjectID move in let id := mv_CardID move in let column := mv_Column move in let source := card_Column previous in
  let ids := column_ids env p column id b in
  find_card p id b = Some previous /\ exists b2 b3 n,
    keyed b2 /\ (if decide (source = column) then b2 = b else renumbered p source (column_ids env p source id b) b b2) /\
    renumbered p column ids b2 b3 /\ column_ids env p column id b2 = ids /\
    insertion (mv_BeforeCardID move) ids = Some n /\ (n <= length ids)%nat /\
    forall x, places (tx_board t') !! x = if decide (x = id) then Some (p, column, Z.of_nat n) else shifted p column n <$> places b3 !! x.
Proof.
  intros Hi H p id column source ids. apply move_run in H as (t1 & u1 & t2 & u2 & t3 & insertAt & now & t4 & u3 & t5 & now2 & t6 & n' & t7 & H).
  fold p id column source in H. destruct H as (B & Hf & _ & _ & _ & Hb & E1 & E2 & E3 & B4 & E4 & B6 & E6 & H). cbn [tx_board] in B, Hf.
  split; [done|]. apply keyed_inv in Hi as Hk.
  assert (later b (tx_board t6)) as Hl.
  { rewrite <-B. transitivity (tx_board t2); [exact (later_normalize_if _ _ _ _ _ _ _ _ E1)|]. transitivity (tx_board t3); [exact (later_normalize _ _ _ _ _ _ _ E2)|].
    rewrite B6, <-B4. exact (later_update_cards _ (shift_later now move insertAt) _ _ _ E4). }
  destruct (proj2 (Hl Hk) _ _ _ Hf) as (row & Hrow & _). clear Hl.
  assert (keyed (tx_board t2) /\ (if decide (source = column) then tx_board t2 = b else renumbered p source (column_ids env p source id b) b (tx_board t2)) /\
    column_ids env p column id (tx_board t2) = ids) as (Hk2 & Hr2 & Hids).
  { destruct (decide (source = column)) as [->|Hne].
    - rewrite bool_decide_eq_true_2 in E1 by done. apply ret_inv in E1 as [_ ->]. rewrite B. done.
    - rewrite bool_decide_eq_false_2 in E1 by done. apply normalize_renumbered in E1 as [Hk2 Hr2]; [|by rewrite B]. rewrite B in Hr2.
      split_and!; [done..|]. by apply (column_ids_other env p source). }
  apply normalize_renumbered in E2 as [Hk3 Hr3]; [|done]. rewrite Hids in Hr3.
  destruct (insertion_position env move t3 insertAt ids) as (n & Hn & -> & Hle); [done|by apply column_ids_nodup| | |apply Hr3| |done|].
  { intros Hin. apply column_ids_spec in Hin as [Hne _]; done. }
  { done. }
  { intros i m Hne Hpl. destruct (decide (i ∈ ids)) as [|Hnin]; [done|]. rewrite <-Hids. apply column_ids_spec; [done|]. split; [done|]. exists m.
    by rewrite <-(renumbered_other _ _ _ _ _ _ Hr3 Hnin). }
  exists (tx_board t2), (tx_board t3), n. split_and!; try done. rewrite <-B4 in Hk3. apply shift_places in E4 as [Hk5 Hs]; [|done]. rewrite <-B6 in Hk5, Hs.
  apply place_card in E6 as [Hk7 Hpl]; [|done|by eexists]. destruct (placed_rest _ _ _ _ _ _ _ _ _ H Hk7) as [_ ->]. rewrite Hpl. intros x.
  destruct (decide (x = id)) as [->|Hne]; [by rewrite lookup_insert_eq|]. rewrite lookup_insert_ne by done. rewrite Hs, B4.
  destruct (places (tx_board t3) !! x) as [[[p' c] m]|]; [|done]. cbn. do 2 f_equal. fold p id column.
  destruct (decide (p' = p /\ c = column /\ Z.of_nat n <= m)); [rewrite !bool_decide_eq_true_2 by tauto|rewrite !bool_decide_eq_false_2 by tauto]; done.
Qed.

Section outcome.
Context (env : Env) (p : Z) (id column : string) (b2 b3 b' : Board) (ids : list string) (n : nat).
Context (Hk2 : keyed b2) (Hr3 : renumbered p column ids b2 b3) (Hids : column_ids env p column id b2 = ids) (Hle : (n <= length ids)%nat).
Context (Hfin : forall x, places b' !! x = if decide (x = id) then Some (p, column, Z.of_nat n) else shifted p column n <$> places b3 !! x).

Lemma id_not_in : id ∉ ids.
Proof using Hk2 Hids. rewrite <-Hids. intros H. apply column_ids_spec in H as [H _]; [|done]. done. Qed.
Lemma move_target : laid_out p column (insert_at n id ids) b'.
Proof using Hk2 Hr3 Hids Hle Hfin.
  pose proof id_not_in as Hnin. destruct Hr3 as [H1 _]. split.
  - intros i x Hx. rewrite insert_at_lookup in Hx by done. rewrite Hfin.
    destruct (decide (i < n)%nat) as [Hi|Hi]; [|destruct (decide (i = n)) as [->|Hne]].
    + rewrite decide_False by (intros ->; apply Hnin; by eapply list_elem_of_lookup_2). rewrite (H1 _ _ Hx). cbn. by rewrite bool_decide_eq_false_2 by lia.
    + injection Hx as <-. by rewrite decide_True.
    + rewrite decide_False by (intros ->; apply Hnin; by eapply list_elem_of_lookup_2). rewrite (H1 _ _ Hx). cbn.
      rewrite bool_decide_eq_true_2 by (split_and!; [done..|lia]). do 2 f_equal. lia.
  - intros x m Hx. apply insert_at_elem. destruct (decide (x = id)) as [|Hne]; [by left|]. right. rewrite Hfin, decide_False in Hx by done.
    destruct (places b3 !! x) as [[[p' c] k]|] eqn:E3; [|done]. cbn in Hx. injection Hx as -> -> _.
    destruct (decide (x ∈ ids)) as [|Hx]; [done|]. rewrite <-Hids. apply column_ids_spec; [done|]. split; [done|]. exists k. by rewrite <-(renumbered_other _ _ _ _ _ _ Hr3 Hx).
Qed.
(** A card outside the column stays where it is once the column it left is laid out. *)
Lemma move_elsewhere x p' c m : x <> id -> p' <> p \/ c <> column -> places b' !! x = Some (p', c, m) <-> places b2 !! x = Some (p', c, m).
Proof using Hk2 Hr3 Hids Hle Hfin.
  intros Hne Hpc. rewrite Hfin, decide_False by done.
  assert (forall place, shifted p column n <$> place = Some (p', c, m) <-> place = Some (p', c, m)) as Hs.
  { intros [[[p1 c1] k]|]; [|done]. cbn. split; intros [= -> -> E]; rewrite bool_decide_eq_false_2 in * by naive_solver; congruence. }
  rewrite Hs. destruct (decide (x ∈ ids)) as [Hin|Hin]; [|by rewrite (renumbered_other _ _ _ _ _ _ Hr3 Hin)].
  pose proof Hin as Hin2. rewrite <-Hids in Hin2. apply column_ids_spec in Hin2 as (_ & k & E); [|done].
  apply list_elem_of_lookup in Hin as [i Hl]. pose proof (proj1 Hr3 _ _ Hl) as E3. rewrite E, E3. split; intros [= -> -> _]; naive_solver.
Qed.
Context (source : string) (b : Board) (Hk : keyed b).
Lemma move_source : source <> column -> renumbered p source (column_ids env p source id b) b b2 -> laid_out p source (column_ids env p source id b) b'.
Proof using Hk2 Hr3 Hids Hle Hfin Hk.
  intros Hne Hr2. split.
  - intros i x Hx. apply move_elsewhere; [|by right|by apply Hr2]. intros ->.
    apply list_elem_of_lookup_2, column_ids_spec in Hx as [Hx _]; done.
  - intros x m Hx. destruct (decide (x = id)) as [->|Hxid]; [rewrite Hfin, decide_True in Hx by done; congruence|].
    apply move_elsewhere in Hx; [|done|by right]. destruct (decide (x ∈ column_ids env p source id b)) as [|Hnin]; [done|].
    rewrite (renumbered_other _ _ _ _ _ _ Hr2 Hnin) in Hx. apply column_ids_spec; eauto.
Qed.
Lemma move_others x p' c m : (if decide (source = column) then b2 = b else renumbered p source (column_ids env p source id b) b b2) ->
  x <> id -> places b !! x = Some (p', c, m) -> p' <> p \/ (c <> column /\ c <> source) -> places b' !! x = Some (p', c, m).
Proof using Hk2 Hr3 Hids Hle Hfin Hk.
  intros Hr2 Hx Hp Hother. apply move_elsewhere; [done|tauto|]. case_decide as Hd; [by rewrite Hr2|].
  rewrite (renumbered_other _ _ _ _ _ _ Hr2); [done|]. intros Hin. apply column_ids_spec in Hin as (_ & k & E); [|done]. rewrite Hp in E. naive_solver.
Qed.
End outcome.
