(* ===== verification/ScrumLane.v ===== *)
(** * The lane of a project

    What playing, pausing and auto-work promise: a project has one running card and a
    first-in first-out queue.  [represents] relates a board to this abstract lane, and
    every operation is simulated by the operation of the lane it stands for. *)
From Stdlib Require Import Ascii.
From S2P Require Import Prelude Schema PathIdentity UserIntent JsonCodec Timestamp Scrum ScrumFlow ScrumBoard ScrumPlay ScrumEdit ScrumChannel ScrumFacts ScrumInv ScrumReach ScrumRevision ScrumMoveFacts.
From stdpp Require Import sorting base tactics strings list gmap numbers pretty.
From stdpp Require Import list options.
Open Scope Z_scope.
Open Scope go_scope.

(** ** The abstract lane *)

Record Lane := mkLane { ln_running : option string; ln_queue : list string }.
Definition without (id : string) (l : list string) : list string := filter (fun x => x <> id) l.
(** The card leaves the lane. *)
Definition lane_drop (id : string) (l : Lane) : Lane :=
  mkLane (if decide (ln_running l = Some id) then None else ln_running l) (without id (ln_queue l)).
Definition lane_run (id : string) (l : Lane) : Lane := mkLane (Some id) (without id (ln_queue l)).
Definition lane_enqueue (id : string) (l : Lane) : Lane := mkLane (ln_running l) (without id (ln_queue l) ++ [id]).
(** Playing a card: it runs when nothing does, or takes the place of the running card,
    or goes to the end of the queue. *)
Definition lane_play (id : string) (pivot : bool) (l : Lane) : Lane :=
  match ln_running l with
  | None => lane_run id l
  | Some r =>
      if decide (r = id) then l
      else if pivot then lane_run id (lane_drop r l)
      else if decide (id ∈ ln_queue l) then l else lane_enqueue id l
  end.

(** ** Representation *)

Definition State : Type := Z * string * string * Z * string * Z.
Definition st_project (st : State) : Z := st.1.1.1.1.1.
Definition st_play (st : State) : string := st.1.1.1.2.
Definition st_order (st : State) : Z := st.1.1.2.
Definition plays_as (p : Z) (play id : string) (b : Board) : Prop :=
  exists st : State, states b !! id = Some st /\ st_project st = p /\ st_play st = play.
(** One queued card is ahead of another. *)
Definition ahead (b : Board) (i j : string) : Prop :=
  exists x y : State, states b !! i = Some x /\ states b !! j = Some y /\ st_order x < st_order y.
Record represents (p : Z) (b : Board) (l : Lane) : Prop := {
  rep_running id : ln_running l = Some id <-> plays_as p "running" id b;
  rep_queued id : id ∈ ln_queue l <-> plays_as p "queued" id b;
  rep_sorted : StronglySorted (ahead b) (ln_queue l)
}.

Lemma without_elem id l x : x ∈ without id l <-> x <> id /\ x ∈ l.
Proof. unfold without. by rewrite list_elem_of_filter. Qed.
Lemma sorted_without {R : string -> string -> Prop} id l : StronglySorted R l -> StronglySorted R (without id l).
Proof.
  induction 1 as [|x l Hl IH Hx]; [constructor|]. unfold without in *. rewrite filter_cons. case_decide; [|done].
  constructor; [done|]. apply Forall_forall. intros y [_ Hy]%list_elem_of_filter. rewrite Forall_forall in Hx. auto.
Qed.
Lemma plays_other p play id st b b' x : states b' = <[id := st]> (states b) -> x <> id -> plays_as p play x b' <-> plays_as p play x b.
Proof. intros E Hne. unfold plays_as. rewrite E, lookup_insert_ne by done. done. Qed.
Lemma plays_new p play id st b b' : states b' = <[id := st]> (states b) -> plays_as p play id b' <-> st_project st = p /\ st_play st = play.
Proof. intros E. unfold plays_as. rewrite E, lookup_insert_eq. naive_solver. Qed.
Lemma ahead_other id st b b' : states b' = <[id := st]> (states b) -> forall l, id ∉ l -> StronglySorted (ahead b) l -> StronglySorted (ahead b') l.
Proof.
  intros E l. induction l as [|x l IH]; intros Hid Hs; [constructor|]. apply StronglySorted_inv in Hs as [Hl Hx].
  apply not_elem_of_cons in Hid as [Hne Hid]. constructor; [auto|]. rewrite Forall_forall in Hx |- *. intros y Hy.
  destruct (Hx y Hy) as (sx & sy & Ex & Ey & Hlt). exists sx, sy. rewrite E, !lookup_insert_ne; [done| |done]. intros ->. done.
Qed.
Lemma ahead_without id st b b' l : states b' = <[id := st]> (states b) -> StronglySorted (ahead b) l -> StronglySorted (ahead b') (without id l).
Proof. intros E Hs. eapply ahead_other; [exact E| |by apply sorted_without]. rewrite without_elem. tauto. Qed.

Section step.
Context (p : Z) (id : string) (st : State) (b b' : Board) (l : Lane).
Context (Hrep : represents p b l) (Hst : states b' = <[id := st]> (states b)).

(** The card stops running and leaves the queue. *)
Lemma represents_drop : st_play st <> "running" -> st_play st <> "queued" -> represents p b' (lane_drop id l).
Proof using Type*.
  intros Hr Hq. destruct Hrep as [R Q S]. split; cbn [lane_drop ln_running ln_queue].
  - intros x. destruct (decide (x = id)) as [->|Hne].
    + rewrite (plays_new _ _ _ _ _ _ Hst). case_decide; [naive_solver|]. split; [done|naive_solver].
    + rewrite (plays_other _ _ _ _ _ _ _ Hst Hne), <-R. case_decide; [|done]. split; [done|congruence].
  - intros x. rewrite without_elem. destruct (decide (x = id)) as [->|Hne].
    + rewrite (plays_new _ _ _ _ _ _ Hst). naive_solver.
    + rewrite (plays_other _ _ _ _ _ _ _ Hst Hne), <-Q. tauto.
  - by eapply ahead_without.
Qed.
(** It runs, where no other card does. *)
Lemma represents_run : st_project st = p -> st_play st = "running" -> (forall x, ln_running l = Some x -> x = id) -> represents p b' (lane_run id l).
Proof using Type*.
  intros Hp Hr Ha. destruct Hrep as [R Q S]. split; cbn [lane_run ln_running ln_queue].
  - intros x. destruct (decide (x = id)) as [->|Hne].
    + rewrite (plays_new _ _ _ _ _ _ Hst). naive_solver.
    + rewrite (plays_other _ _ _ _ _ _ _ Hst Hne), <-R. split; [congruence|]. intros H. by apply Ha in H.
  - intros x. rewrite without_elem. destruct (decide (x = id)) as [->|Hne].
    + rewrite (plays_new _ _ _ _ _ _ Hst). rewrite Hr. naive_solver.
    + rewrite (plays_other _ _ _ _ _ _ _ Hst Hne), <-Q. tauto.
  - by eapply ahead_without.
Qed.
(** It is queued behind every queued card. *)
Lemma represents_enqueue : st_project st = p -> st_play st = "queued" -> ln_running l <> Some id ->
  (forall x sx, x <> id -> x ∈ ln_queue l -> states b !! x = Some sx -> st_order sx < st_order st) -> represents p b' (lane_enqueue id l).
Proof using Type*.
  intros Hp Hq Hn Ha. destruct Hrep as [R Q S]. split; cbn [lane_enqueue ln_running ln_queue].
  - intros x. destruct (decide (x = id)) as [->|Hne].
    + rewrite (plays_new _ _ _ _ _ _ Hst), Hq. naive_solver.
    + by rewrite (plays_other _ _ _ _ _ _ _ Hst Hne), <-R.
  - intros x. rewrite elem_of_app, without_elem, list_elem_of_singleton. destruct (decide (x = id)) as [->|Hne].
    + rewrite (plays_new _ _ _ _ _ _ Hst). naive_solver.
    + rewrite (plays_other _ _ _ _ _ _ _ Hst Hne), <-Q. naive_solver.
  - apply StronglySorted_app_2; [|by eapply ahead_without|by repeat constructor]. intros x y Hx Hy.
    apply list_elem_of_singleton in Hy as ->. apply without_elem in Hx as [Hne Hx]. pose proof (proj1 (Q x) Hx) as (sx & Ex & _).
    exists sx, st. rewrite Hst, lookup_insert_eq, lookup_insert_ne by done. split_and!; [done..|]. by eapply Ha.
Qed.
(** Another project's lane is not touched. *)
Lemma represents_other p' l' : represents p' b l' -> st_project st <> p' -> (forall s, states b !! id = Some s -> st_project s <> p') -> represents p' b' l'.
Proof using Hst.
  intros [R Q S] Hp Hold.
  assert (forall play x, plays_as p' play x b' <-> plays_as p' play x b) as Hsame.
  { intros play x. destruct (decide (x = id)) as [->|Hne]; [|by apply (plays_other _ _ _ _ _ _ _ Hst)].
    rewrite (plays_new _ _ _ _ _ _ Hst). unfold plays_as. split; [naive_solver|]. intros (s & Es & Eps & _). by apply Hold in Es. }
  split; [intros x; by rewrite Hsame|intros x; by rewrite Hsame|]. eapply ahead_other; [exact Hst| |done].
  intros Hin. apply Q in Hin as (s & Es & Ep & _). by apply Hold in Es.
Qed.
End step.

(** ** The lane of a board *)

Definition lane (p : Z) (b : Board) : Lane :=
  mkLane (card_ID <$> head (filter (fun card => card_PlayState card = "running") (project_cards p b)))
         (card_ID <$> merge_sort (ordered [asc card_QueueOrder]) (filter (fun card => card_PlayState card = "queued") (project_cards p b))).

Lemma plays_card p play id b : plays_as p play id b <-> exists card, bd_cards b !! id = Some card /\ card_ProjectID card = p /\ card_PlayState card = play.
Proof.
  unfold plays_as, states. split.
  - intros (st & E & Hp & Hs). rewrite lookup_fmap in E. destruct (bd_cards b !! id) as [card|]; [|done]. injection E as <-. eauto.
  - intros (card & E & Hp & Hs). exists (state_of card). by rewrite lookup_fmap, E.
Qed.
Lemma selected_card p play b card : keyed b -> card ∈ filter (fun card => card_PlayState card = play) (project_cards p b) <->
  bd_cards b !! card_ID card = Some card /\ card_ProjectID card = p /\ card_PlayState card = play.
Proof.
  intros Hk. rewrite list_elem_of_filter, project_cards_spec. split.
  - intros (Hs & i & Hi & Hp). by rewrite (Hk _ _ Hi).
  - naive_solver.
Qed.
Lemma lane_represents p b : board_inv b -> represents p b (lane p b).
Proof.
  intros Hi. apply keyed_inv in Hi as Hk. split.
  - intros id. unfold lane. cbn [ln_running]. rewrite plays_card. split.
    + intros H. destruct (filter _ _) as [|card l] eqn:E; [done|]. injection H as <-. exists card.
      apply (selected_card p "running" b card Hk). rewrite E. left.
    + intros (card & Hc & Hp & Hr). pose proof (Hk _ _ Hc) as Hid. subst id.
      destruct (filter _ _) as [|c l] eqn:E.
      * exfalso. apply not_elem_of_nil with (x := card). rewrite <-E. by apply selected_card.
      * assert (c ∈ c :: l) as Hin by left. rewrite <-E in Hin. apply selected_card in Hin as (Hc2 & Hp2 & Hr2); [|done]. cbn. f_equal.
        eapply (inv_running b Hi (card_ID card) card Hc Hr); [exact Hc2|congruence|done].
  - intros id. unfold lane. cbn [ln_queue]. rewrite merge_sort_Permutation, list_elem_of_fmap, plays_card. setoid_rewrite (selected_card p "queued" b); [|done]. split.
    + intros (card & -> & H). eauto.
    + intros (card & Hc & H). exists card. by rewrite (Hk _ _ Hc).
  - unfold lane. cbn [ln_queue].
    pose proof (sorted_keys [asc card_QueueOrder] ltac:(repeat constructor; apply lawful_asc) (filter (fun card => card_PlayState card = "queued") (project_cards p b))) as Hs.
    assert (NoDup (card_ID <$> merge_sort (ordered [asc card_QueueOrder]) (filter (fun card => card_PlayState card = "queued") (project_cards p b)))) as Hn.
    { rewrite merge_sort_Permutation. pose proof (project_cards_nodup p b Hk) as H. eapply sublist_NoDup; [exact H|]. apply fmap_sublist, sublist_filter. }
    assert (forall card, card ∈ merge_sort (ordered [asc card_QueueOrder]) (filter (fun card => card_PlayState card = "queued") (project_cards p b)) ->
      bd_cards b !! card_ID card = Some card /\ card_ProjectID card = p /\ card_PlayState card = "queued") as Hin.
    { intros card. rewrite merge_sort_Permutation. by apply selected_card. }
    induction Hs as [|c l Hl IH Hc]; [constructor|]. rewrite fmap_cons in *. apply NoDup_cons in Hn as [Hc' Hn].
    constructor; [apply IH; [done|intros card H; apply Hin; by right]|]. apply Forall_forall. intros y (d & -> & Hd)%list_elem_of_fmap.
    destruct (Hin c ltac:(left)) as (Ec & Pc & Sc). destruct (Hin d ltac:(by right)) as (Ed & Pd & Sd).
    exists (state_of c), (state_of d). unfold states. rewrite !lookup_fmap, Ec, Ed. split_and!; [done..|]. cbn.
    rewrite Forall_forall in Hc. specialize (Hc d Hd). apply ordered_cons in Hc. unfold asc in Hc.
    assert (card_QueueOrder c <> card_QueueOrder d) as Hne.
    { intros E. apply Hc'. apply list_elem_of_fmap. exists d. split; [|done].
      eapply (inv_queue b Hi _ d Ed Sd); [exact Ec|congruence|done|done]. }
    rewrite Z.compare_lt_iff, Z.compare_eq_iff in Hc. lia.
Qed.
Lemma represents_unique p b l l' : represents p b l -> represents p b l' -> l = l'.
Proof.
  assert (forall l, StronglySorted (ahead b) l -> NoDup l) as Hnodup.
  { induction 1 as [|x k _ IH Hx]; constructor; [|done]. intros Hin. rewrite Forall_forall in Hx.
    destruct (Hx x Hin) as (sx & sy & Ex & Ey & Hlt). assert (sx = sy) by congruence. subst. lia. }
  intros [R Q S] [R' Q' S']. destruct l as [r q], l' as [r' q']. cbn in *. f_equal.
  - destruct r as [x|], r' as [y|]; [|specialize (proj1 (R x) eq_refl)|specialize (proj1 (R' y) eq_refl)|done].
    + pose proof (proj1 (R x) eq_refl) as H. apply R' in H. congruence.
    + intros H. apply R' in H. done.
    + intros H. apply R in H. done.
  - apply (StronglySorted_unique_strong (ahead b)); [|done..|].
    + intros x y _ _ (sx & sy & Ex & Ey & Hlt) (sy' & sx' & Ey' & Ex' & Hlt'). exfalso. assert (sx = sx') by congruence. assert (sy = sy') by congruence. subst. lia.
    + apply NoDup_Permutation; [by apply Hnodup..|]. intros x. by rewrite Q, Q'.
Qed.
Lemma lane_eq p b l : board_inv b -> represents p b l -> lane p b = l.
Proof. intros Hi H. eapply represents_unique; [by apply lane_represents|done]. Qed.

(** ** What the operations do to the states *)

Lemma update_fields_states env card t u t' : board_inv (tx_board t) -> updateScrumCardFieldsTx env card t = Ok (u, t') ->
  states (tx_board t') = <[card_ID card := state_of card]> (states (tx_board t)).
Proof.
  intros Hi H. apply update_fields_inv in H as (row & Hf & _ & _ & ->). apply find_card_spec in Hf as [Hc Hp]. unfold states.
  cbn [bd_cards with_cards]. rewrite fmap_insert, (inv_key _ Hi _ _ Hc). f_equal. unfold state_of. card_simpl. by rewrite Hp.
Qed.
Lemma calm_enqueue env instruction p m : calm (enqueueScrumJobTx env instruction p m).
Proof. unfold enqueueScrumJobTx, enqueueJobWithStepsTx. calmly. Qed.
Lemma calm_authority env card : calm (scrumPlayAuthorityTx env card).
Proof. apply calm_reads, reads_authority. Qed.
#[export] Hint Resolve calm_enqueue calm_authority : board.
Definition started_as (job : Z) (card : DBScrumCard) : DBScrumCard :=
  card <| card_Column := "in_progress" |> <| card_PlayState := "running" |> <| card_QueueOrder := 0 |> <| card_JobID := job_text job |>.
Lemma prepare_states env card t r t' : board_inv (tx_board t) -> runs_alone (card_ProjectID card) (card_ID card) (tx_board t) ->
  prepareScrumCardPlayTx env card t = Ok (r, t') ->
  exists job, pr_Action r = "started" /\ pr_Job r = Some job /\ board_inv (tx_board t') /\
    states (tx_board t') = <[card_ID card := state_of (started_as job card)]> (states (tx_board t)).
Proof.
  unfold prepareScrumCardPlayTx. intros Hi Ha H. guards H G. runs H authority t1 E. destruct (calm_authority _ _ _ _ _ Hi E) as [Hi1 Es1].
  apply (alone_states _ _ _ _ Es1) in Ha. destruct authority as [metadata instruction].
  runs H job t2 E2. destruct (calm_enqueue _ _ _ _ _ _ _ Hi1 E2) as [Hi2 Es2]. apply (alone_states _ _ _ _ Es2) in Ha. cbv zeta in H. fold (started_as job card) in H.
  runs H u t3 E3. pose proof (update_fields_states _ _ _ _ _ Hi2 E3) as Es3. apply safe_fields in E3; [|done|].
  2:{ intros Hv. apply stored_job in Hv; [|apply job_text_nonempty]. split; [left; by split_and!|]. by split. }
  runs H u2 t4 E4. destruct (calm_append _ _ _ _ _ _ _ _ E3 E4) as [Hi4 Es4]. runs H u5 t5 E5. destruct (calm_append _ _ _ _ _ _ _ _ Hi4 E5) as [Hi5 Es5].
  runs H u6 t6 E6. destruct (calm_state_metrics _ _ _ _ _ _ Hi5 E6) as [Hi6 Es6]. runs H card' t7 E7. rewrite <-(reads_reload _ _ _ _ _ E7) in Hi6, Es6.
  apply ret_inv in H as [-> ->]. exists job. split_and!; [done..|]. rewrite Es6, Es5, Es4, Es3, Es2, Es1. done.
Qed.
Definition queued_as (position : Z) (card : DBScrumCard) : DBScrumCard :=
  card <| card_Column := "assigned" |> <| card_PlayState := "queued" |> <| card_QueueOrder := position |>.
Lemma queue_states env card t r t' : board_inv (tx_board t) -> queueScrumCardPlayTx env card t = Ok (r, t') ->
  (card_PlayState card = "queued" /\ r = mkPlayResult card None "already_queued" 0 /\ t' = t) \/
  (card_PlayState card <> "queued" /\ pr_Action r = "queued" /\ board_inv (tx_board t') /\
   states (tx_board t') = <[card_ID card := state_of (queued_as (queue_end (card_ProjectID card) (tx_board t)).1 card)]> (states (tx_board t))).
Proof.
  intros Hi H. pose proof (safe_queue env card _ _ _ Hi H) as Hi'. unfold queueScrumCardPlayTx in H. destruct (card_PlayState card == "queued") eqn:Eq.
  { reflect. apply ret_inv in H as [-> ->]. by left. }
  reflect. right. split; [done|]. runs H position t1 E. apply gets_inv in E as [-> ->]. guards H G. cbv zeta in H.
  set (position := (queue_end (card_ProjectID card) (tx_board t)).1) in *. fold (queued_as position card) in H.
  runs H u t1 E. pose proof (update_fields_states _ _ _ _ _ Hi E) as Es. apply safe_fields in E; [|done|].
  2:{ intros _. split; [right; left; split_and!; try done; by apply queue_end_pos|]. split; [done|]. card_simpl. intros _ id' c Hc Hp Hq Ho.
      pose proof (queue_end_fresh (card_ProjectID card) _ _ _ Hi Hc Hp Hq) as Hlt. change (card_QueueOrder c = position) in Ho. unfold position in Ho. lia. }
  runs H u2 t4 E4. destruct (calm_append _ _ _ _ _ _ _ _ E E4) as [Hi4 Es4]. runs H u6 t6 E6. destruct (calm_state_metrics _ _ _ _ _ _ Hi4 E6) as [Hi6 Es6].
  runs H card' t7 E7. rewrite <-(reads_reload _ _ _ _ _ E7) in Hi6, Es6. runs H u8 t8 E8. destruct (calm_touch_play _ _ _ _ _ Hi6 E8) as [Hi8 Es8].
  apply ret_inv in H as [-> ->]. split_and!; [done..|]. rewrite Es8, Es6, Es4, Es. done.
Qed.

(** ** Simulation *)

(** The lanes of all projects after the lane of one has changed. *)
Definition lanes (p : Z) (l : Lane) (b b' : Board) : Prop := represents p b' l /\ forall p', p' <> p -> lane p' b' = lane p' b.
Lemma lanes_refl p b : board_inv b -> lanes p (lane p b) b b.
Proof. intros Hi. split; [by apply lane_represents|done]. Qed.
Lemma lanes_trans p l1 l2 b b1 b2 : lanes p l1 b b1 -> lanes p l2 b1 b2 -> lanes p l2 b b2.
Proof. intros [_ H1] [H2 H3]. split; [done|]. intros p' Hp. by rewrite H3, H1. Qed.
Lemma others_same p id st b b' : board_inv b -> board_inv b' -> states b' = <[id := st]> (states b) -> st_project st = p ->
  (forall s, states b !! id = Some s -> st_project s = p) -> forall p', p' <> p -> lane p' b' = lane p' b.
Proof.
  intros Hi Hi' E Hp Hold p' Hne. apply lane_eq; [done|]. eapply (represents_other id st b b' E p' (lane p' b)).
  - by apply lane_represents.
  - congruence.
  - intros s Hs. rewrite (Hold s Hs). congruence.
Qed.
Section simulation.
Context (p : Z) (id : string) (card : DBScrumCard) (b b' : Board).
Context (Hi : board_inv b) (Hi' : board_inv b') (Hp : card_ProjectID card = p).
Context (Hold : exists st, states b !! id = Some st /\ st_project st = p).

Lemma lanes_step st l : states b' = <[id := st]> (states b) -> st_project st = p -> represents p b' l -> lanes p l b b'.
Proof using Hi Hi' Hp Hold.
  intros E Hst Hrep. split; [done|]. eapply others_same; [done|done|exact E|done|]. intros s Hs. destruct Hold as (s0 & Hs0 & <-). congruence.
Qed.
Lemma lanes_run l job : represents p b l -> (forall x, ln_running l = Some x -> x = id) ->
  states b' = <[id := state_of (started_as job card)]> (states b) -> lanes p (lane_run id l) b b'.
Proof using Hi Hi' Hp Hold.
  intros Hl Ha E. eapply lanes_step; [exact E|exact Hp|]. eapply represents_run; [exact Hl|exact E|exact Hp|done|done].
Qed.
Lemma lanes_drop l : represents p b l -> states b' = <[id := state_of (paused_as card)]> (states b) -> lanes p (lane_drop id l) b b'.
Proof using Hi Hi' Hp Hold.
  intros Hl E. eapply lanes_step; [exact E|exact Hp|]. eapply represents_drop; [exact Hl|exact E|done|done].
Qed.
Lemma lanes_enqueue l : represents p b l -> ln_running l <> Some id ->
  states b' = <[id := state_of (queued_as (queue_end p b).1 card)]> (states b) -> lanes p (lane_enqueue id l) b b'.
Proof using Hi Hi' Hp Hold.
  intros Hl Hr E. eapply lanes_step; [exact E|exact Hp|]. eapply represents_enqueue; [exact Hl|exact E|exact Hp|done|done|].
  intros x sx Hne Hx Hs. apply (rep_queued _ _ _ Hl) in Hx. apply plays_card in Hx as (c & Hc & Hpc & Hq).
  unfold states in Hs. rewrite lookup_fmap, Hc in Hs. injection Hs as <-. exact (queue_end_fresh p b x c Hi Hc Hpc Hq).
Qed.
End simulation.
Lemma found_state p id card b : find_card p id b = Some card -> exists st : State, states b !! id = Some st /\ st_project st = p.
Proof. intros [Hc Hp]%find_card_spec. exists (state_of card). unfold states. by rewrite lookup_fmap, Hc. Qed.
Lemma queued_member p id card b : board_inv b -> find_card p id b = Some card -> card_PlayState card = "queued" <-> id ∈ ln_queue (lane p b).
Proof.
  intros Hi [Hc Hp]%find_card_spec. rewrite (rep_queued _ _ _ (lane_represents p b Hi)), plays_card. split; [eauto|].
  intros (c & Hc' & _ & Hq). congruence.
Qed.
Lemma lane_running_none p b : board_inv b -> (forall id, runs_alone p id b) -> forall x, ln_running (lane p b) <> Some x.
Proof.
  intros Hi Ha x H. apply (rep_running _ _ _ (lane_represents p b Hi)) in H. apply plays_card in H as (c & Hc & Hp & Hr).
  pose proof (Ha (x +:+ "x") _ _ Hc Hp Hr) as E1. pose proof (Ha x _ _ Hc Hp Hr). apply (f_equal String.length) in E1. clear - E1.
  induction x as [|a x IH]; [done|]. simpl in E1. injection E1 as E1. auto.
Qed.
Lemma lane_running_some p b card : board_inv b -> bd_cards b !! card_ID card = Some card -> card_ProjectID card = p -> card_PlayState card = "running" ->
  ln_running (lane p b) = Some (card_ID card).
Proof. intros Hi Hc Hp Hr. apply (rep_running _ _ _ (lane_represents p b Hi)). apply plays_card. eauto. Qed.
(** The running card is paused and another one takes its place. *)
Lemma pivot_lanes env p id card running t r t' : board_inv (tx_board t) -> board_inv (tx_board t') ->
  find_card p id (tx_board t) = Some card -> runs_alone p (card_ID running) (tx_board t) -> bd_cards (tx_board t) !! card_ID running = Some running ->
  card_ProjectID running = p -> card_ID running <> id ->
  (exec pauseRunningScrumCardTx env running; prepareScrumCardPlayTx env card) t = Ok (r, t') ->
  lanes p (lane_run id (lane_drop (card_ID running) (lane p (tx_board t)))) (tx_board t) (tx_board t').
Proof.
  intros Hi Hi' Hf Ha Hrc Hrp Hne H. runs H u t1 E. pose proof (safe_pause_running _ _ _ _ _ Hi E) as Hi1. apply pause_running_states in E; [|done].
  pose proof Hf as [Hc Hp]%find_card_spec. pose proof (inv_key _ Hi _ _ Hc) as Hid. pose proof (found_state _ _ _ _ Hf) as Hold.
  assert (find_card p (card_ID running) (tx_board t) = Some running) as Hrf by (by apply find_card_spec).
  pose proof (lanes_drop p (card_ID running) running _ _ Hi Hi1 Hrp (found_state _ _ _ _ Hrf) _ (lane_represents p _ Hi) E) as Hd.
  assert (forall x, runs_alone p x (tx_board t1)) as Hnone.
  { intros x i c Hi2 Hp2 Hr2. exfalso. assert (plays_as p "running" i (tx_board t1)) as Hpl by (apply plays_card; eauto).
    apply (rep_running _ _ _ (proj1 Hd)) in Hpl. cbn [lane_drop ln_running] in Hpl. case_decide as Hd2; [done|].
    apply (rep_running _ _ _ (lane_represents p _ Hi)) in Hpl. apply plays_card in Hpl as (c2 & Hc2 & Hpc2 & Hrc2).
    pose proof (Ha _ _ Hc2 Hpc2 Hrc2) as ->. apply Hd2. apply (rep_running _ _ _ (lane_represents p _ Hi)), plays_card. eauto. }
  apply prepare_states in H as (job & _ & _ & _ & Es); [|done|rewrite Hp; apply Hnone]. rewrite Hid in Es.
  eapply lanes_trans; [exact Hd|]. eapply (lanes_run p id card); [done|done|exact Hp| |apply Hd| |exact Es].
  - destruct Hold as (st & Hst & Hsp). exists st. by rewrite E, lookup_insert_ne.
  - intros x Hx. apply (rep_running _ _ _ (proj1 Hd)), plays_card in Hx as (c & Hcx & Hpx & Hrx). exact (Hnone id x c Hcx Hpx Hrx).
Qed.
Lemma play_lanes env c b r t' : board_inv b -> ApplyScrumCardPlay env c (mkTx b 0 0) = Ok (r, t') ->
  lanes (pc_ProjectID c) (lane_play (pc_CardID c) (pc_Pivot c) (lane (pc_ProjectID c) b)) b (tx_board t').
Proof.
  intros Hi H. pose proof (safe_play env c (mkTx b 0 0) r t' Hi H) as Hi'. unfold ApplyScrumCardPlay in H. guards H G1. guards H G2. guards H G3.
  apply begin_current in H as (card & t1 & B & Hf & _ & _ & H). cbn [tx_board] in B, Hf. set (p := pc_ProjectID c) in *. set (id := pc_CardID c) in *.
  rewrite <-B in Hi, Hf |- *. clear B. runs H found t2 E. apply running_inv in E as [-> Hr]; [|done].
  pose proof Hf as [Hc Hp]%find_card_spec. pose proof (inv_key _ Hi _ _ Hc) as Hid. pose proof (found_state _ _ _ _ Hf) as Hold.
  pose proof (lane_represents p _ Hi) as Hrep. unfold lane_play. destruct found as [running|].
  - destruct Hr as (Ha & Hrc & Hrp & Hrs & _). pose proof (lane_running_some p _ running Hi Hrc Hrp Hrs) as Hrun. rewrite Hrun. rewrite Hid in H.
    destruct (card_ID running == id) eqn:Eid; reflect; [rewrite decide_True by done|rewrite decide_False by done].
    + destruct (pc_Pivot c || (card_PlayState card == "running"))%bool; [|done]. apply ret_inv in H as [_ ->]. by apply lanes_refl.
    + destruct (pc_Pivot c); [by eapply pivot_lanes|]. destruct (queue_states _ _ _ _ _ Hi H) as [(Hq & _ & ->)|(Hq & _ & _ & Es)].
      * rewrite decide_True by (by apply (queued_member p id card)). by apply lanes_refl.
      * rewrite decide_False by (by rewrite <-(queued_member p id card)). rewrite Hp, Hid in Es.
        eapply (lanes_enqueue p id card); [done..|congruence|exact Es].
  - pose proof (lane_running_none p _ Hi Hr) as Hnone. destruct (ln_running (lane p (tx_board t1))) as [x|] eqn:Ex; [by destruct (Hnone x)|].
    apply prepare_states in H as (job & _ & _ & _ & Es); [|done|rewrite Hp; apply Hr]. rewrite Hid in Es. eapply (lanes_run p id card); [done..|congruence|exact Es].
Qed.
Lemma pause_lanes env p id revision b x t' : board_inv b -> PauseScrumCardPlayAtRevision env p id revision (mkTx b 0 0) = Ok (x, t') ->
  lanes p (lane_drop id (lane p b)) b (tx_board t').
Proof.
  intros Hi H. pose proof (safe_pause env p id revision (mkTx b 0 0) x t' Hi H) as Hi'. apply pause_states in H as (card & Hf & _ & Es); [|done]. cbn [tx_board] in *.
  pose proof Hf as [_ Hp]%find_card_spec. eapply (lanes_drop p id card); [done..|by eapply found_state|by apply lane_represents|exact Es].
Qed.

(** ** Auto-work *)

(** The head of the queue runs. *)
Definition lane_advance (l : Lane) : Lane :=
  match ln_running l, ln_queue l with None, x :: q => mkLane (Some x) q | _, _ => l end.
Lemma lane_states p b b' : board_inv b -> board_inv b' -> states b' = states b -> lane p b' = lane p b.
Proof.
  intros Hi Hi' E. apply lane_eq; [done|]. destruct (lane_represents p b Hi) as [R Q S].
  split; [intros id; unfold plays_as; rewrite E; apply R|intros id; unfold plays_as; rewrite E; apply Q|].
  assert (ahead b' = ahead b) as -> by (unfold ahead; by rewrite E). exact S.
Qed.
Lemma lanes_states p l b b' : board_inv b -> board_inv b' -> states b' = states b -> l = lane p b -> lanes p l b b'.
Proof.
  intros Hi Hi' E ->. split; [|intros p' _; by apply lane_states]. rewrite <-(lane_states p b b') by done. by apply lane_represents.
Qed.
Lemma calm_settings p v now : calm (write_settings p v now).
Proof. unfold write_settings. calmly. by apply calm_put. Qed.
#[export] Hint Resolve calm_settings : board.
(** The transaction up to the action. *)
Lemma auto_work_run env p action b r t' : board_inv b -> ApplyProjectAutoWork env p action (mkTx b 0 0) = Ok (r, t') ->
  exists config t1, board_inv (tx_board t1) /\ states (tx_board t1) = states b /\
    (if action == "pause" then pauseProjectAutoWorkTx env p config else startProjectAutoWorkTx env p config) t1 = Ok (r, t').
Proof.
  intros Hi H. unfold ApplyProjectAutoWork in H. guards H G1. guards H G2. runs H u t1 E. pose proof (reads_begin p _ _ _ E) as B. cbn [tx_board] in B.
  runs H settings t2 E2. pose proof (reads_settings p _ _ _ E2) as B2. runs H u2 t3 E3. apply lift_inv in E3 as [_ ->]. runs H config t3 E3. apply lift_inv in E3 as [_ ->].
  cbv zeta in H. runs H encoded t3 E3. apply lift_inv in E3 as [_ ->]. runs H now t3 E3. pose proof (reads_clock env _ _ _ E3) as B3.
  runs H n t4 E4. assert (board_inv (tx_board t3)) as Hi3 by (rewrite B3, B2, B; done). destruct (calm_settings _ _ _ _ _ _ Hi3 E4) as [Hi4 Es4].
  eexists _, t4. split; [done|]. split; [rewrite Es4, B3, B2, B; done|]. destruct (action == "pause"); exact H.
Qed.

Lemma queue_first p b card x q : board_inv b -> ln_queue (lane p b) = x :: q -> find_card p (card_ID card) b = Some card ->
  card_PlayState card = "queued" -> (forall c, find_card p x b = Some c -> card_QueueOrder card <= card_QueueOrder c) -> card_ID card = x.
Proof.
  intros Hi Hq Hf Hs Hle. pose proof (lane_represents p b Hi) as Hrep. pose proof (rep_sorted _ _ _ Hrep) as Hsort. rewrite Hq in Hsort.
  apply StronglySorted_inv in Hsort as [_ Hx]. rewrite Forall_forall in Hx.
  pose proof (proj1 (queued_member p _ _ b Hi Hf) Hs) as Hin. rewrite Hq in Hin. apply elem_of_cons in Hin as [E|Hin]; [done|]. exfalso.
  destruct (Hx _ Hin) as (sx & sy & Ex & Ey & Hlt). assert (x ∈ ln_queue (lane p b)) as Hxq by (rewrite Hq; left).
  apply (rep_queued _ _ _ Hrep), plays_card in Hxq as (c & Hc & Hp & _). specialize (Hle c (proj2 (find_card_spec _ _ _ _) (conj Hc Hp))).
  apply find_card_spec in Hf as [Hf _]. unfold states in Ex, Ey. rewrite lookup_fmap, Hc in Ex. rewrite lookup_fmap, Hf in Ey. injection Ex as <-. injection Ey as <-.
  unfold st_order, state_of in Hlt. cbn in Hlt. lia.
Qed.
Lemma lawful_auto_work env `{!Collation env} columns : Forall lawful (auto_work_order env columns).
Proof. unfold auto_work_order. repeat apply Forall_cons_2; try apply Forall_nil_2; auto with board. Qed.
(** The candidate of auto-work is the head of the queue when there is one. *)
Lemma candidate_head env `{!Collation env} p columns t card t' x q : board_inv (tx_board t) ->
  findProjectAutoWorkCardTx env p columns t = Ok (card, t') -> ln_queue (lane p (tx_board t)) = x :: q ->
  exists c, card = Some c /\ find_card p x (tx_board t) = Some c.
Proof.
  intros Hi H Hq. unfold findProjectAutoWorkCardTx, select_cards in H. runs H rows t1 E. apply gets_inv in E as [Erows ->].
  pose proof (sorted_keys _ (lawful_auto_work env columns) (filter (fun card => auto_work_candidate columns card = true) (project_cards p (tx_board t)))) as Hs. rewrite <-Erows in Hs.
  assert (forall c, c ∈ rows <-> c ∈ project_cards p (tx_board t) /\ auto_work_candidate columns c = true) as Hrows.
  { intros c. rewrite Erows, merge_sort_Permutation, list_elem_of_filter. tauto. }
  assert (x ∈ ln_queue (lane p (tx_board t))) as Hx by (rewrite Hq; left).
  apply (rep_queued _ _ _ (lane_represents p _ Hi)), plays_card in Hx as (cx & Hcx & Hpx & Hqx).
  assert (cx ∈ rows) as Hin. { apply Hrows. split; [apply project_cards_spec; eauto|]. unfold auto_work_candidate, in_state. by rewrite Hqx. }
  destruct rows as [|c more]; [by apply not_elem_of_nil in Hin|]. runs H u t1 E. apply scan_inv in E as (_ & -> & _). apply ret_inv in H as [-> ->]. exists c. split; [done|].
  assert (c ∈ c :: more) as Hc by left. apply Hrows in Hc as [Hc _]. apply project_cards_spec in Hc as (i & Hi2 & Hp). pose proof (inv_key _ Hi _ _ Hi2) as Hid. subst i.
  apply elem_of_cons in Hin as [->|Hin]; [by apply find_card_spec; rewrite <-(inv_key _ Hi _ _ Hcx) at 1|].
  apply StronglySorted_inv in Hs as [_ Hs]. rewrite Forall_forall in Hs. specialize (Hs cx Hin). unfold auto_work_order in Hs.
  apply ordered_cons in Hs. unfold asc in Hs at 1 2. unfold in_state in Hs at 1 2 3 4. rewrite Hqx in Hs.
  assert (card_PlayState c = "queued") as Hqc.
  { destruct (decide (card_PlayState c = "queued")) as [|Hn]; [done|]. rewrite bool_decide_eq_false_2 in Hs by done. by destruct Hs as [|[? _]]. }
  rewrite Hqc in Hs. destruct Hs as [Hs|[_ Hs]]; [done|]. apply ordered_cons in Hs. unfold asc in Hs at 1 2. rewrite Z.compare_lt_iff, Z.compare_eq_iff in Hs.
  assert (card_ID c = x) as <-; [|by apply find_card_spec]. eapply (queue_first p _ c x q Hi Hq); [by apply find_card_spec|done|].
  intros c' [Hc' _]%find_card_spec. assert (c' = cx) as -> by congruence. lia.
Qed.
Lemma without_head p b x q : board_inv b -> ln_queue (lane p b) = x :: q -> without x (x :: q) = q.
Proof.
  intros Hi Hq. pose proof (rep_sorted _ _ _ (lane_represents p b Hi)) as Hs. rewrite Hq in Hs. apply StronglySorted_inv in Hs as [_ Hx].
  unfold without. rewrite filter_cons_False by naive_solver. clear Hq. induction Hx as [|y q (sx & sy & Ex & Ey & Hlt) _ IH]; [done|].
  rewrite filter_cons_True; [by rewrite IH|]. intros ->. assert (sx = sy) by congruence. subst. lia.
Qed.
Lemma start_lanes env `{!Collation env} p config t r t' : board_inv (tx_board t) -> startProjectAutoWorkTx env p config t = Ok (r, t') ->
  ln_running (lane p (tx_board t)) <> None \/ ln_queue (lane p (tx_board t)) <> [] ->
  lanes p (lane_advance (lane p (tx_board t))) (tx_board t) (tx_board t').
Proof.
  intros Hi H Hwork. pose proof (safe_start_auto env p config _ _ _ Hi H) as Hi'. unfold startProjectAutoWorkTx in H.
  runs H found t1 E. apply running_inv in E as [-> Hr]; [|done]. unfold lane_advance. destruct found as [running|].
  - destruct Hr as (_ & Hrc & Hrp & Hrs & _). rewrite (lane_running_some p _ running Hi Hrc Hrp Hrs).
    guards H G. destruct (parse_job_id (card_JobID running)); [|done]. apply ret_inv in H as [_ ->]. by apply lanes_refl.
  - pose proof (lane_running_none p _ Hi Hr) as Hnone. destruct (ln_running (lane p (tx_board t))) as [y|] eqn:Ey; [by destruct (Hnone y)|].
    destruct Hwork as [|Hwork]; [done|]. destruct (ln_queue (lane p (tx_board t))) as [|x q] eqn:Eq; [done|]. clear Hwork.
    runs H chosen t1 E. pose proof (reads_auto_card env p _ _ _ _ E) as B. destruct (candidate_head env p _ t chosen t1 x q Hi E Eq) as (card & -> & Hf).
    apply auto_card_inv in E as [-> _]. runs H play t2 E2. apply ret_inv in H as [_ ->]. pose proof Hf as [Hc Hp]%find_card_spec.
    apply prepare_states in E2 as (job & _ & _ & _ & Es); [|done|rewrite Hp; apply Hr]. rewrite (inv_key _ Hi _ _ Hc) in Es.
    pose proof (lanes_run p x card _ _ Hi Hi' Hp (found_state _ _ _ _ Hf) (lane p (tx_board t)) job (lane_represents p _ Hi)) as Hl.
    unfold lane_run in Hl. rewrite Eq, (without_head p _ x q Hi Eq) in Hl. apply Hl; [congruence|exact Es].
Qed.

(** Pausing card after card empties the lane. *)
Definition dropped_all (ids : list string) (l : Lane) : Lane := foldl (fun l id => lane_drop id l) l ids.
Lemma dropped_queue ids l x : x ∈ ln_queue (dropped_all ids l) -> x ∈ ln_queue l /\ x ∉ ids.
Proof.
  revert l. induction ids as [|i ids IH]; intros l H; [split; [done|apply not_elem_of_nil]|]. apply IH in H as [H Hn].
  cbn [lane_drop ln_queue] in H. apply without_elem in H as [Hne H]. split; [done|]. by apply not_elem_of_cons.
Qed.
Lemma dropped_running ids l x : ln_running (dropped_all ids l) = Some x -> ln_running l = Some x /\ x ∉ ids.
Proof.
  revert l. induction ids as [|i ids IH]; intros l H; [split; [done|apply not_elem_of_nil]|]. apply IH in H as [H Hn].
  cbn [lane_drop ln_running] in H. case_decide as Hd; [done|]. split; [done|]. apply not_elem_of_cons. split; [congruence|done].
Qed.
Lemma pause_each_lanes env p note cards : forall t t' u, board_inv (tx_board t) ->
  Forall (fun card => card_ProjectID card = p /\ exists st : State, states (tx_board t) !! card_ID card = Some st /\ st_project st = p) cards ->
  each (fun card => if card_PlayState card == "running" then pauseRunningScrumCardTx env card else pause_queued env card note) cards t = Ok (u, t') ->
  board_inv (tx_board t') /\ lanes p (dropped_all (card_ID <$> cards) (lane p (tx_board t))) (tx_board t) (tx_board t').
Proof.
  induction cards as [|card cards IH]; intros t t' u Hi Hall H; cbn [each] in H.
  - apply ret_inv in H as [_ ->]. split; [done|by apply lanes_refl].
  - runs H v t1 E. apply Forall_cons in Hall as [[Hp Hst] Hall].
    assert (board_inv (tx_board t1) /\ states (tx_board t1) = <[card_ID card := state_of (paused_as card)]> (states (tx_board t))) as [Hi1 Es].
    { destruct (card_PlayState card == "running").
      - split; [exact (safe_pause_running _ _ _ _ _ Hi E)|exact (pause_running_states _ _ _ _ _ Hi E)].
      - split; [exact (safe_pause_queued _ _ _ _ _ _ Hi E)|exact (pause_queued_states _ _ _ _ _ _ Hi E)]. }
    pose proof (lanes_drop p (card_ID card) card _ _ Hi Hi1 Hp Hst _ (lane_represents p _ Hi) Es) as Hd.
    apply IH in H as [Hi' Hl]; [|done|].
    + split; [done|]. rewrite fmap_cons. cbn [dropped_all foldl]. eapply lanes_trans; [exact Hd|]. rewrite (lane_eq p _ _ Hi1 (proj1 Hd)) in Hl. exact Hl.
    + eapply Forall_impl; [exact Hall|]. intros c (Hpc & st & Hs & Hsp). split; [done|]. rewrite Es.
      destruct (decide (card_ID c = card_ID card)) as [->|Hne]; [rewrite lookup_insert_eq; eexists; split; [reflexivity|exact Hp]|].
      exists st. by rewrite lookup_insert_ne.
Qed.
Lemma pause_all_lanes env p config t r t' : board_inv (tx_board t) -> pauseProjectAutoWorkTx env p config t = Ok (r, t') ->
  lanes p (mkLane None []) (tx_board t) (tx_board t').
Proof.
  intros Hi H. unfold pauseProjectAutoWorkTx, select_cards in H. runs H cards t1 E. apply gets_inv in E as [Ecards ->].
  assert (forall c, c ∈ cards <-> c ∈ project_cards p (tx_board t) /\ (card_PlayState c = "running" \/ card_PlayState c = "queued")) as Hin.
  { intros c. rewrite Ecards, merge_sort_Permutation, list_elem_of_filter. unfold in_state. rewrite orb_true_iff, !bool_decide_eq_true. tauto. }
  runs H u t1 E. assert (tx_board t1 = tx_board t) as B.
  { assert (reads (each (fun card => exec scanDBScrumCard card; ret tt) cards)) as R; [|exact (R _ _ _ E)].
    clear. induction cards as [|c l IH]; cbn [each]; [apply reads_ret|]. apply reads_bind; [reading|done]. }
  rewrite <-B in Hi, Hin |- *. guards H G. runs H v t2 E2. apply ret_inv in H as [_ ->]. apply (pause_each_lanes env p) in E2 as [Hi2 Hl]; [|done|].
  - replace (mkLane None []) with (dropped_all (card_ID <$> cards) (lane p (tx_board t1))); [done|].
    assert (forall play x, play = "running" \/ play = "queued" -> plays_as p play x (tx_board t1) -> x ∈ card_ID <$> cards) as Hall.
    { intros play x Hplay (c & Hc & Hp & Hs)%plays_card. apply list_elem_of_fmap. exists c. rewrite (inv_key _ Hi _ _ Hc). split; [done|].
      apply Hin. split; [apply project_cards_spec; eauto|]. by subst. }
    destruct (dropped_all _ _) as [run q] eqn:Ed. f_equal.
    + destruct run as [x|]; [|done]. exfalso. destruct (dropped_running (card_ID <$> cards) (lane p (tx_board t1)) x) as [H Hn]; [by rewrite Ed|].
      apply Hn, (Hall "running"); [by left|]. by apply (rep_running _ _ _ (lane_represents p _ Hi)).
    + apply elem_of_nil_inv. intros x Hx. destruct (dropped_queue (card_ID <$> cards) (lane p (tx_board t1)) x) as [H Hn]; [by rewrite Ed|].
      apply Hn, (Hall "queued"); [by right|]. by apply (rep_queued _ _ _ (lane_represents p _ Hi)).
  - apply Forall_forall. intros c Hc. apply Hin in Hc as [Hc _]. apply project_cards_spec in Hc as (i & Hc & Hp). split; [done|].
    exists (state_of c). unfold states. rewrite lookup_fmap, (inv_key _ Hi _ _ Hc), Hc. by split.
Qed.

(** ** The end of a job *)

(** The state a finished job leaves its card in. *)
Definition finished_as (status : string) (card : DBScrumCard) : DBScrumCard :=
  card <| card_Column := if status == JobStatusCompleted then "review" else "error" |> <| card_PlayState := "" |> <| card_QueueOrder := 0 |>.
Lemma update_card_states p id card set t n t' : board_inv (tx_board t) -> find_card p id (tx_board t) = Some card -> card_ID (set card) = card_ID card ->
  update_card p id set t = Ok (n, t') -> states (tx_board t') = <[id := state_of (set card)]> (states (tx_board t)).
Proof.
  intros Hi Hf HID H. apply update_card_inv in H as [(_ & _ & E)|(c & _ & Hf' & _ & ->)]; [congruence|]. assert (c = card) as -> by congruence.
  apply find_card_spec in Hf as [Hc _]. unfold states. cbn [bd_cards with_cards]. by rewrite fmap_insert, HID, (inv_key _ Hi _ _ Hc).
Qed.
Lemma terminal_states env id job status t u t' : board_inv (tx_board t) -> job_Pipeline job = PipelineScrum ->
  status = JobStatusCompleted \/ status = JobStatusFailed \/ status = JobStatusCanceled ->
  terminalizeScrumJobCardTx env id job status t = Ok (u, t') ->
  exists row card, bd_jobs (tx_board t) !! id = Some row /\ find_card (job_ProjectID row) (card_ID card) (tx_board t) = Some card /\
    card_JobID card = job_text id /\
    (forall c, c ∈ project_cards (job_ProjectID row) (tx_board t) -> card_JobID c = job_text id -> c = card) /\
    states (tx_board t') = <[card_ID card := state_of (finished_as status card)]> (states (tx_board t)).
Proof.
  intros Hi Hjob Hstatus H. unfold terminalizeScrumJobCardTx in H. rewrite Hjob in H. cbn [negb] in H. rewrite bool_decide_eq_true_2 in H by done. cbn [negb] in H.
  runs H row t1 E. apply find_job_inv in E as [-> Erow]. cbv zeta in H. guards H G1. runs H rows t1 E. apply gets_inv in E as [Erows ->].
  assert (forall c, c ∈ rows <-> c ∈ project_cards (job_ProjectID row) (tx_board t) /\ card_JobID c = job_text id) as Hrows.
  { intros c. rewrite Erows, list_elem_of_filter. tauto. }
  destruct rows as [|card more]; [done|]. runs H w t1 E. apply scan_inv in E as (_ & -> & _). guards H G2. reflect. subst more.
  assert (card ∈ [card]) as Hin by left. apply Hrows in Hin as [Hin Hj]. apply project_cards_spec in Hin as (i & Hc & Hp). pose proof (inv_key _ Hi _ _ Hc). subst i.
  assert (find_card (job_ProjectID row) (card_ID card) (tx_board t) = Some card) as Hf by (by apply find_card_spec).
  exists row, card. split; [done|]. split; [done|]. split; [done|]. split.
  { intros c Hcp Hcj. assert (c ∈ [card]) as Hin2 by (by apply Hrows). by apply list_elem_of_singleton in Hin2. }
  assert (exists outcome, (if status == JobStatusCompleted then ret ("review", "success")
        else if ((status == JobStatusFailed) || (status == JobStatusCanceled))%bool then ret ("error", "failed")
        else fail "Scrum job %d cannot project nonterminal status %q") = ret (if status == JobStatusCompleted then "review" else "error", outcome)) as [outcome Eo].
  { destruct Hstatus as [-> | [-> | ->]]; eexists; reflexivity. }
  rewrite Eo in H. clear Eo. runs H expected t1 E. apply ret_inv in E as [-> ->].
  destruct (_ && (card_JobID card == job_text id))%bool eqn:Ed in H.
  - apply ret_inv in H as [_ ->]. reflect. symmetry. apply insert_id. unfold states. rewrite lookup_fmap, Hc. cbn. f_equal.
    unfold finished_as, state_of. card_simpl. congruence.
  - guards H G3. runs H now t2 E. pose proof (reads_clock env _ _ _ E) as B. rewrite <-B in Hi, Hf |- *. runs H n t3 E3.
    pose proof E3 as Es. eapply update_card_states in Es; [|exact Hi|exact Hf|reflexivity]. apply safe_update_at in E3; [|done|].
    2:{ intros r _. card_simpl. split_and!; try done. by apply idle_state. }
    guards H G4. runs H v t4 E4. destruct (calm_state_metrics _ _ _ _ _ _ E3 E4) as [Hi4 Es4]. destruct (calm_touch_play _ _ _ _ _ Hi4 H) as [_ Es5].
    rewrite Es5, Es4, Es. done.
Qed.
Lemma end_lanes env id job status t u t' : board_inv (tx_board t) -> bd_jobs (tx_board t) !! id = Some job -> job_Pipeline job = PipelineScrum ->
  status = JobStatusCompleted \/ status = JobStatusFailed -> end_job env id status t = Ok (u, t') ->
  let p := job_ProjectID job in
  exists card, find_card p (card_ID card) (tx_board t) = Some card /\ card_JobID card = job_text id /\
    (forall c, c ∈ project_cards p (tx_board t) -> card_JobID c = job_text id -> c = card) /\
    states (tx_board t') !! card_ID card = Some (state_of (finished_as status card)) /\
    lanes p (lane_drop (card_ID card) (lane p (tx_board t))) (tx_board t) (tx_board t').
Proof.
  intros Hi Hjob Hpipe Hstatus H p. pose proof (safe_end env id status _ _ _ Hi H) as Hi'. unfold end_job in H.
  runs H job' t1 E. apply find_job_inv in E as [-> E]. assert (job' = job) as -> by congruence. guards H G1. runs H v t1 E1.
  pose proof (calm_put_job id (with_status status job) (status_unsourced status job (inv_source _ Hi _ _ Hjob)) _ _ _ Hi E1) as [Hi1 Es1].
  assert (bd_jobs (tx_board t1) !! id = Some (with_status status job)) as Hrow.
  { destruct v. apply put_inv in E1. rewrite E1. cbn [bd_jobs]. apply lookup_insert_eq. }
  assert (bd_cards (tx_board t1) = bd_cards (tx_board t)) as Hcards by (destruct v; apply put_inv in E1; by rewrite E1).
  apply terminal_states in H as (row & card & Er & Hf & Hj & Hu & Es); [|done|done|tauto]. assert (row = with_status status job) as -> by congruence.
  cbn [with_status job_ProjectID] in Hf, Hu. fold p in Hf, Hu. unfold find_card, project_cards in Hf, Hu. rewrite Hcards in Hf, Hu. fold (find_card p (card_ID card) (tx_board t)) in Hf.
  exists card. split; [done|]. split; [done|]. split; [exact Hu|]. rewrite Es, Es1. split; [apply lookup_insert_eq|].
  pose proof Hf as [Hc Hp]%find_card_spec. rewrite Es1 in Es. eapply (lanes_step p (card_ID card) card); [done..|by eapply found_state|exact Es|exact Hp|].
  eapply represents_drop; [by apply lane_represents|exact Es|done|done].
Qed.
