(* ===== verification/ScrumSpec.v ===== *)
(** * What the Scrum board promises

    The properties of the board's operations: well-formed boards, revisions, moves, the
    lane of a project, job ends, channel pages, items and flow metrics; first the lemmas on channel
    pages, which are runs of consecutive messages, and on item mutations. *)
From Stdlib Require Import Ascii.
From S2P Require Import Prelude Schema PathIdentity UserIntent JsonCodec Timestamp Scrum ScrumFlow ScrumBoard ScrumPlay ScrumEdit ScrumChannel ScrumFacts ScrumInv ScrumReach ScrumRevision ScrumMetrics ScrumMoveFacts ScrumLane.
From stdpp Require Import sorting base tactics strings list gmap numbers pretty.
From stdpp Require Import list options.
Open Scope Z_scope.
Open Scope go_scope.

(** ** Messages newest first *)

Definition size_of (l : list StoredMessage) : Z := foldr (fun m n => content_bytes (sm_Append m) + n) 0 l.
Lemma content_natural m : 0 <= content_bytes m.
Proof. unfold content_bytes. lia. Qed.
Lemma size_natural l : 0 <= size_of l.
Proof. induction l as [|m l IH]; cbn [size_of foldr]; [lia|]. fold (size_of l). pose proof (content_natural (sm_Append m)). lia. Qed.
Lemma size_app l1 l2 : size_of (l1 ++ l2) = size_of l1 + size_of l2.
Proof. induction l1 as [|m l IH]; [done|]. unfold size_of in *. cbn [app foldr]. lia. Qed.
Lemma size_reverse l : size_of (reverse l) = size_of l.
Proof. induction l as [|m l IH]; [done|]. rewrite reverse_cons, size_app, IH. unfold size_of. cbn [foldr]. lia. Qed.
(** The bytes only grow, so the rows that fit are the first ones. *)
Lemma within_none maxBytes l : forall sum, maxBytes < sum -> within_bytes maxBytes sum l = [].
Proof.
  induction l as [|m l IH]; intros sum H; cbn [within_bytes]; [done|]. cbv zeta. pose proof (content_natural (sm_Append m)).
  rewrite (proj2 (Z.leb_gt _ _)) by lia. apply IH. lia.
Qed.
Lemma within_prefix maxBytes l : forall sum, exists k, within_bytes maxBytes sum l = take k l /\ (k <= length l)%nat /\
  ((0 < k)%nat -> sum + size_of (take k l) <= maxBytes).
Proof.
  induction l as [|m l IH]; intros sum; [exists 0%nat; split_and!; [done|simpl; lia|lia]|]. cbn [within_bytes]. cbv zeta.
  destruct (sum + content_bytes (sm_Append m) <=? maxBytes) eqn:Es; reflect.
  - destruct (IH (sum + content_bytes (sm_Append m))) as (k & -> & Hk & Hs). exists (S k). split_and!; [done|simpl; lia|]. intros _.
    cbn [take size_of foldr]. fold (size_of (take k l)). destruct k as [|k]; [change (size_of (take 0 l)) with 0; lia|]. specialize (Hs ltac:(lia)). lia.
  - exists 0%nat. rewrite within_none by lia. split_and!; [done|simpl; lia|lia].
Qed.
Lemma sorted_snoc {A} (R : A -> A -> Prop) l x : StronglySorted R l -> Forall (fun y => R y x) l -> StronglySorted R (l ++ [x]).
Proof.
  intros Hl Hx. apply StronglySorted_app_2; [|done|repeat constructor]. intros y z Hy Hz. apply list_elem_of_singleton in Hz as ->.
  rewrite Forall_forall in Hx. auto.
Qed.
(** The messages of a channel, in the order of their numbers, sorted the other way. *)
Lemma newest_reverse l : StronglySorted (fun a b => sm_Ordinal a < sm_Ordinal b) l -> merge_sort newest_first l = reverse l.
Proof.
  intros Hs. assert (StronglySorted newest_first (reverse l)) as Hr.
  { induction Hs as [|x l Hl IH Hx]; [constructor|]. rewrite reverse_cons. apply sorted_snoc; [done|]. apply Forall_forall. intros y Hy.
    rewrite elem_of_reverse in Hy. rewrite Forall_forall in Hx. specialize (Hx y Hy). unfold newest_first. lia. }
  assert (forall x y, x ∈ l -> y ∈ l -> sm_Ordinal x = sm_Ordinal y -> x = y) as Hinj.
  { clear Hr. induction Hs as [|z l Hl IH Hz]; [intros x y H; by apply not_elem_of_nil in H|]. rewrite Forall_forall in Hz.
    intros x y [->|Hx]%elem_of_cons [->|Hy]%elem_of_cons E; [done| | |by apply IH].
    - specialize (Hz y Hy). lia.
    - specialize (Hz x Hx). lia. }
  apply (StronglySorted_unique_strong newest_first); [| |done|by rewrite merge_sort_Permutation, reverse_Permutation].
  - intros x y Hx Hy H1 H2. rewrite merge_sort_Permutation in Hx. rewrite elem_of_reverse in Hy. unfold newest_first in H1, H2. apply Hinj; [done..|lia].
  - apply StronglySorted_merge_sort; [intros x y z; unfold newest_first; lia|intros x y; unfold newest_first; lia].
Qed.
Lemma seqZ_sorted n start : forall l : list StoredMessage, sm_Ordinal <$> l = seqZ start n -> StronglySorted (fun a b => sm_Ordinal a < sm_Ordinal b) l.
Proof.
  intros l. revert start n. induction l as [|m l IH]; intros start n H; [constructor|]. destruct (decide (0 < n)) as [Hn|Hn].
  - rewrite fmap_cons, seqZ_cons in H by lia. injection H as Hm Hl. constructor; [by eapply IH|]. apply Forall_forall. intros y Hy.
    assert (sm_Ordinal y ∈ sm_Ordinal <$> l) as Hin by (apply list_elem_of_fmap; eauto). rewrite Hl in Hin. apply elem_of_seqZ in Hin. lia.
  - rewrite seqZ_nil in H by lia. done.
Qed.

(** ** Pages *)

Definition channel (p : Z) (id : string) (b : Board) : list StoredMessage := filter (message_of p id) (bd_messages b).
Lemma seqZ_filter n total : 0 <= total <= n -> forall l : list StoredMessage, sm_Ordinal <$> l = seqZ 1 n ->
  sm_Ordinal <$> filter (fun m => sm_Ordinal m <= total) l = seqZ 1 total.
Proof.
  intros Ht l Hl. replace n with (total + (n - total)) in Hl by lia. rewrite seqZ_app in Hl by lia.
  apply fmap_app_inv in Hl as (l1 & l2 & H1 & H2 & ->). rewrite filter_app.
  assert (filter (fun m => sm_Ordinal m <= total) l1 = l1) as ->.
  { assert (forall m, m ∈ l1 -> sm_Ordinal m <= total) as H.
    { intros m Hm. assert (sm_Ordinal m ∈ sm_Ordinal <$> l1) as Hin by (apply list_elem_of_fmap; eauto). rewrite <-H1 in Hin. apply elem_of_seqZ in Hin. lia. }
    clear - H. induction l1 as [|m l IH]; [done|]. rewrite filter_cons_True by (apply H; left). rewrite IH; [done|]. intros x Hx. apply H. by right. }
  assert (filter (fun m => sm_Ordinal m <= total) l2 = []) as ->.
  { apply elem_of_nil_inv. intros m [Hm Hin]%list_elem_of_filter.
    assert (sm_Ordinal m ∈ sm_Ordinal <$> l2) as Hi by (apply list_elem_of_fmap; eauto). rewrite <-H2 in Hi. apply elem_of_seqZ in Hi. lia. }
  by rewrite app_nil_r.
Qed.
Lemma take_reverse_last {A} k (l : list A) : (k <= length l)%nat -> reverse (take k (reverse l)) = drop (length l - k) l.
Proof.
  intros Hk. rewrite <-(reverse_involutive l) at 3. rewrite <-(take_drop k (reverse l)) at 2. rewrite reverse_app.
  rewrite drop_app_length'; [done|]. rewrite length_reverse, length_drop, length_reverse. lia.
Qed.
(** The tail up to a number: the last messages, as many as the limits allow. *)
Lemma tail_run p id card total limit maxBytes b : board_inv b -> find_card p id b = Some card -> 0 <= total <= card_ChannelMessageCount card ->
  exists k, (k <= Z.to_nat total)%nat /\ Z.of_nat k <= Z.max 0 limit /\
    size_of (message_tail p id total limit maxBytes b) <= Z.max 0 maxBytes /\
    sm_Ordinal <$> reverse (message_tail p id total limit maxBytes b) = seqZ (total - Z.of_nat k + 1) (Z.of_nat k).
Proof.
  intros Hi [Hc Hp]%find_card_spec Ht. pose proof (inv_ordinals b Hi id card Hc) as Ho. rewrite Hp in Ho. unfold ordinals in Ho.
  assert (sm_Ordinal <$> filter (fun m => message_of p id m /\ sm_Ordinal m <= total) (bd_messages b) = seqZ 1 total) as Hf.
  { rewrite <-(seqZ_filter _ total Ht _ Ho). f_equal. rewrite list_filter_filter. apply list_filter_iff. tauto. }
  unfold message_tail. clear Ho. set (l := filter (fun m => message_of p id m /\ sm_Ordinal m <= total) (bd_messages b)) in *. rewrite (newest_reverse l (seqZ_sorted _ _ _ Hf)).
  assert (length l = Z.to_nat total) as Hlen by (rewrite <-(length_fmap sm_Ordinal), Hf, length_seqZ; done).
  destruct (within_prefix maxBytes (take (Z.to_nat limit) (reverse l)) 0) as (k & -> & Hk & Hs). rewrite length_take, length_reverse, Hlen in Hk.
  rewrite take_take. exists (k `min` Z.to_nat limit)%nat. rewrite Nat.min_l by lia. rewrite take_take, Nat.min_l in Hs by lia. split_and!; [lia|lia| |].
  - destruct k as [|k]; [change (size_of (take 0 (reverse l))) with 0; lia|]. specialize (Hs ltac:(lia)). lia.
  - rewrite take_reverse_last by lia. rewrite fmap_drop, Hf, Hlen.
    replace total with ((total - Z.of_nat k) + Z.of_nat k) at 2 by lia. rewrite seqZ_app by lia. rewrite drop_app_length'; [f_equal; lia|].
    rewrite length_seqZ. lia.
Qed.
Definition page_end (before : Z) (card : DBScrumCard) : Z := if before <? 0 then card_ChannelMessageCount card else before.
Lemma page_run p id limit before b page : board_inv b -> ScrumChannelPage_of p id limit before b = Ok page ->
  exists card, find_card p id b = Some card /\ cp_Total page = card_ChannelMessageCount card /\ cp_PlayState page = card_PlayState card /\
    cp_HasMore page = (0 <? cp_Start page) /\
    sm_Ordinal <$> cp_Messages page = seqZ (cp_Start page + 1) (page_end before card - cp_Start page) /\
    Forall (message_of p id) (cp_Messages page) /\
    0 <= cp_Start page <= page_end before card /\ (0 < page_end before card -> cp_Start page < page_end before card) /\
    Z.of_nat (length (cp_Messages page)) <= limit /\ size_of (cp_Messages page) <= MaxScrumChannelPageBytes.
Proof.
  intros Hi H. unfold ScrumChannelPage_of in H. split_ok H. destruct (find_card p id b) as [card|] eqn:Hf; [|done]. cbv zeta in H.
  fold (page_end before card) in H. split_ok H. subst page. reflect. exists card.
  unfold loadScrumCardMessageTail in *. cbv zeta in *.
  match goal with G : _ = Ok ?q |- _ => match type of q with (list StoredMessage * Z)%type => rename G into Gt; rename q into tl_ end end.
  split_ok Gt. reflect. set (total := page_end before card) in *.
  destruct (tail_run p id card total limit MaxScrumChannelPageBytes b Hi Hf ltac:(lia)) as (k & Hk & Hkl & Hsz & Hord).
  set (rows := reverse (message_tail p id total limit MaxScrumChannelPageBytes b)) in *.
  assert (size_of rows <= Z.max 0 MaxScrumChannelPageBytes) as Hsz'.
  { unfold rows. by rewrite size_reverse. }
  assert (Forall (message_of p id) rows) as Hof.
  { apply Forall_forall. intros m Hm. unfold rows, message_tail in Hm. rewrite elem_of_reverse in Hm.
    destruct (within_prefix MaxScrumChannelPageBytes (take (Z.to_nat limit) (merge_sort newest_first (filter (fun m => message_of p id m /\ sm_Ordinal m <= total) (bd_messages b)))) 0) as (j & Ej & _).
    rewrite Ej in Hm. apply elem_of_take in Hm as (i & Hm & _). apply list_elem_of_lookup_2 in Hm. apply elem_of_take in Hm as (i2 & Hm & _).
    apply list_elem_of_lookup_2 in Hm. rewrite merge_sort_Permutation in Hm. by apply list_elem_of_filter in Hm as [[? _] _]. }
  assert (length rows = k) as Hlen by (rewrite <-(length_fmap sm_Ordinal), Hord, length_seqZ; lia).
  assert (0 <= MaxScrumChannelPageBytes) as Hmax by (unfold MaxScrumChannelPageBytes; lia).
  destruct rows as [|m rest] eqn:Er.
  - split_ok Gt. subst tl_. cbn in Hlen. subst k. cbn [cp_Messages cp_Start cp_Total cp_PlayState cp_HasMore fst snd]. reflect.
    split_and!; try done; try lia; [rewrite Z.sub_diag; rewrite seqZ_nil by lia; done|simpl; lia].
  - injection Gt as <-. cbn [cp_Messages cp_Start cp_Total cp_PlayState cp_HasMore fst snd]. destruct k as [|k]; [done|].
    assert (sm_Ordinal m = total - Z.of_nat (S k) + 1) as Hm.
    { rewrite fmap_cons, seqZ_cons in Hord by lia. by injection Hord. }
    rewrite Hm. split_and!; try done; try lia. rewrite Hord. f_equal; lia.
Qed.

(** ** Items *)

(** The intended effect of a mutation. *)
Definition item_reference (identity : option (list ascii)) (items : list ScrumCardItem) (m : ScrumCardItemMutation) : list ScrumCardItem :=
  if im_Action m == "add" then items ++ [mkScrumItem ("item_" +:+ hex_text (default [] identity)) (im_Text m) false]
  else if im_Action m == "toggle"
  then (fun item => if si_ID item == im_ItemID m then mkScrumItem (si_ID item) (si_Text item) (default false (im_Done m)) else item) <$> items
  else filter (fun item => si_ID item <> im_ItemID m) items.
Lemma unique_items items : forall seen seen', loop item_unique seen items = Ok seen' ->
  NoDup (si_ID <$> items) /\ Forall (fun item => si_ID item ∉ seen) items.
Proof.
  induction items as [|x l IH]; intros seen seen' H; [split; constructor|]. cbn [loop] in H. split_ok H.
  match goal with G : item_unique seen x = Ok _ |- _ => unfold item_unique in G; split_ok G; subst; rename H into Hl end. reflect.
  apply IH in Hl as [Hn Hf]. rewrite Forall_forall in Hf. split.
  - rewrite fmap_cons. constructor; [|done]. intros (y & E & Hy)%list_elem_of_fmap. apply (Hf y Hy). set_solver.
  - constructor; [done|]. apply Forall_forall. intros y Hy. specialize (Hf y Hy). set_solver.
Qed.
Lemma canonical_unique raw items : decodeCanonicalScrumCardItems raw = Ok items -> NoDup (si_ID <$> items).
Proof.
  unfold decodeCanonicalScrumCardItems. intros H. destruct raw; try discriminate H; [injection H as <-; constructor|].
  split_ok H. subst. match goal with G : loop item_unique _ _ = Ok _ |- _ => by apply unique_items in G as [G _] end.
Qed.
Lemma position_split id items i x : NoDup (si_ID <$> items) -> list_find (fun item => si_ID item = id) items = Some (i, x) ->
  exists l1 l2, items = l1 ++ x :: l2 /\ length l1 = i /\ si_ID x = id /\ Forall (fun y => si_ID y <> id) l1 /\ Forall (fun y => si_ID y <> id) l2.
Proof.
  intros Hn H. apply list_find_Some in H as (Hi & Hx & Hb). pose proof (take_drop_middle items i x Hi) as E.
  exists (take i items), (drop (S i) items). split; [done|]. pose proof (lookup_lt_Some _ _ _ Hi). split; [rewrite length_take; lia|]. split; [done|].
  rewrite <-E, fmap_app, fmap_cons in Hn. apply NoDup_app in Hn as (_ & Hd & Hn2). apply NoDup_cons in Hn2 as [Hn2 _].
  split; apply Forall_forall; intros y Hy Ey.
  - apply (Hd (si_ID y)); [apply list_elem_of_fmap; eauto|]. rewrite Ey, <-Hx. left.
  - apply Hn2, list_elem_of_fmap. exists y. split; [congruence|done].
Qed.
Lemma without_item id l1 l2 x : si_ID x = id -> Forall (fun y => si_ID y <> id) l1 -> Forall (fun y => si_ID y <> id) l2 ->
  filter (fun item => si_ID item <> id) (l1 ++ x :: l2) = l1 ++ l2.
Proof.
  intros Hx H1 H2. assert (forall l, Forall (fun y : ScrumCardItem => si_ID y <> id) l -> filter (fun item => si_ID item <> id) l = l) as Hf.
  { induction 1 as [|y l Hy _ IH]; [done|]. by rewrite filter_cons_True, IH. }
  rewrite filter_app, filter_cons_False by (intros H; exact (H Hx)). by rewrite !Hf.
Qed.
Lemma item_alter id f l1 l2 x : si_ID x = id -> Forall (fun y => si_ID y <> id) l1 -> Forall (fun y => si_ID y <> id) l2 ->
  alter f (length l1) (l1 ++ x :: l2) = (fun item => if si_ID item == id then f item else item) <$> (l1 ++ x :: l2).
Proof.
  intros Hx H1 H2. assert (forall l, Forall (fun y : ScrumCardItem => si_ID y <> id) l -> (fun item => if si_ID item == id then f item else item) <$> l = l) as Hf.
  { induction 1 as [|y l Hy _ IH]; [done|]. rewrite fmap_cons, IH. by rewrite bool_decide_eq_false_2. }
  rewrite fmap_app, fmap_cons, !Hf by done. rewrite bool_decide_eq_true_2 by done.
  replace (length l1) with (length l1 + 0)%nat by lia. by rewrite alter_app_r.
Qed.
Lemma item_run identity raw items m items' : decodeCanonicalScrumCardItems raw = Ok items -> applyScrumCardItemMutation identity items m = Ok items' ->
  items' = item_reference identity items m.
Proof.
  intros Hraw H. pose proof (canonical_unique raw items Hraw) as Hn. unfold applyScrumCardItemMutation in H. unfold item_reference.
  destruct (im_Action m == "add"); [destruct identity; [by injection H as <-|done]|].
  destruct (list_find (fun item => si_ID item = im_ItemID m) items) as [[i x]|] eqn:Ef; [|done]. cbn [fst fmap option_fmap option_map] in H.
  destruct (position_split _ _ _ _ Hn Ef) as (l1 & l2 & -> & <- & Hx & H1 & H2).
  destruct (im_Action m == "toggle"); [injection H as <-; by apply item_alter|]. destruct (im_Action m == "remove"); [|done]. injection H as <-.
  rewrite without_item by done. rewrite take_app_length, (cons_middle x l1 l2), app_assoc, drop_app_length'; [done|]. rewrite length_app. simpl. lia.
Qed.

(** ** The properties *)

Lemma transact_ok {A} (c : tx A) b x b' : transact c b = (Ok x, b') -> exists t', c (mkTx b 0 0) = Ok (x, t') /\ b' = tx_board t'.
Proof. unfold transact. destruct (c (mkTx b 0 0)) as [[y t']|e]; [|done]. intros [= <- <-]. eauto. Qed.
Lemma transact_refused {A} (c : tx A) b : (forall x t', c (mkTx b 0 0) <> Ok (x, t')) -> exists e, transact c b = (Err e, b).
Proof. unfold transact. intros H. destruct (c (mkTx b 0 0)) as [[x t']|e] eqn:E; [by destruct (H x t')|eauto]. Qed.

(** C16: In every board the operations can reach, in any order, with any clock, random
    bytes, deletions of projects and changes by other components in between, cards are stored under their
    identity and satisfy the table's checks, each play state has the column, queue
    position and job that belong to it, a project has at most one running card and no two
    queued cards at one position, every message belongs to a card and the messages of a
    card are numbered 1 to its message count, and no Scrum job names a source. *)
Theorem board_well_formed b : reachable b -> board_inv b.
Proof. apply inv_reachable. Qed.

(** C22: A command that names a revision is refused, and changes nothing, when the card
    has another revision. *)
Theorem stale_revision_refused env c b p id revision card :
  revision_of c = Some (p, id, revision) -> find_card p id b = Some card -> card_UpdatedAt card <> revision ->
  exists e, transact (run env c) b = (Err e, b).
Proof.
  intros Hr Hf Hne. apply transact_refused. intros x t' H.
  destruct (run_current _ _ _ _ _ _ _ _ Hr H) as (card' & Hf' & Hu). cbn [tx_board] in Hf'. congruence.
Qed.

(** C21: An edit, a deletion, an item, a ticket, a move, a reconciliation and a pause commit
    at most once: the same command is refused on the board it has produced, whatever the
    clock says. *)
Theorem command_commits_once env env' c b b' : reachable b -> once c = true ->
  transact (run env c) b = (Ok tt, b') -> exists e, transact (run env' c) b' = (Err e, b').
Proof.
  intros Hb Ho H. apply transact_ok in H as (t' & H & ->). apply transact_refused. intros x t2 H2.
  eapply (run_once env env' c (mkTx b 0 0)); [by apply inv_reachable|done|exact H| |exact H2]. done.
Qed.

(** C20: A committed move puts the card at the place before the named card, or at the end,
    in the order its column had; the positions of that column become 0, 1, 2, ... in this
    order, those of the column it left close up, and no other card moves. *)
Theorem move_exact env `{!Collation env} move b previous updated b' : reachable b ->
  transact (MoveScrumCard env move) b = (Ok (previous, updated), b') ->
  let p := mv_ProjectID move in let id := mv_CardID move in let column := mv_Column move in let source := card_Column previous in
  let ids := column_ids env p column id b in
  find_card p id b = Some previous /\
  (exists n, insertion (mv_BeforeCardID move) ids = Some n /\ laid_out p column (insert_at n id ids) b') /\
  (source <> column -> laid_out p source (column_ids env p source id b) b') /\
  (forall x p' c n, x <> id -> places b !! x = Some (p', c, n) -> p' <> p \/ (c <> column /\ c <> source) -> places b' !! x = Some (p', c, n)).
Proof.
  intros Hb H p id column source ids. apply transact_ok in H as (t' & H & ->). pose proof (inv_reachable b Hb) as Hi. pose proof (keyed_inv b Hi) as Hk.
  destruct (move_stages env move b previous updated t' Hi H) as (Hf & b2 & b3 & n & Hk2 & Hr2 & Hr3 & Hids & Hn & Hle & Hfin).
  fold p id column source ids in Hf, Hr2, Hr3, Hids, Hn, Hle, Hfin. split; [done|].
  split; [exists n; split; [done|exact (move_target env p id column b2 b3 _ ids n Hk2 Hr3 Hids Hle Hfin)]|]. split.
  - intros Hne. rewrite decide_False in Hr2 by done. exact (move_source env p id column b2 b3 _ ids n Hk2 Hr3 Hids Hle Hfin source b Hk Hne Hr2).
  - intros x p' c m Hx Hp Hother. exact (move_others env p id column b2 b3 _ ids n Hk2 Hr3 Hids Hle Hfin source b Hk x p' c m Hr2 Hx Hp Hother).
Qed.

(** C17: Playing a card, as a simulation of the abstract lane: the card runs when nothing
    does, takes the place of the running card when it pivots (which leaves the lane), and
    goes to the end of the queue otherwise, once; other projects' lanes are untouched. *)
Theorem play_refines_lane env c b r b' : reachable b -> transact (ApplyScrumCardPlay env c) b = (Ok r, b') ->
  let p := pc_ProjectID c in
  lane p b' = lane_play (pc_CardID c) (pc_Pivot c) (lane p b) /\ (forall p', p' <> p -> lane p' b' = lane p' b).
Proof.
  intros Hb H p. apply transact_ok in H as (t' & H & ->). pose proof (inv_reachable b Hb) as Hi.
  destruct (play_lanes env c b r t' Hi H) as [Hl Ho]. split; [|done]. apply lane_eq; [|done]. exact (safe_play env c (mkTx b 0 0) r t' Hi H).
Qed.

(** C26: Auto-work plays a project first in, first out: with nothing running the head of
    the queue starts and leaves the queue, with a card running the lane stays as it is;
    pausing empties the lane.  Other projects' lanes are untouched. *)
Theorem auto_work_refines_lane env `{!Collation env} p action b r b' : reachable b ->
  transact (ApplyProjectAutoWork env p action) b = (Ok r, b') ->
  action = "pause" \/ ln_running (lane p b) <> None \/ ln_queue (lane p b) <> [] ->
  lane p b' = (if action == "pause" then mkLane None [] else lane_advance (lane p b)) /\ (forall p', p' <> p -> lane p' b' = lane p' b).
Proof.
  intros Hb H Hwork. apply transact_ok in H as (t' & H & ->). pose proof (inv_reachable b Hb) as Hi.
  pose proof (safe_auto_work env p action (mkTx b 0 0) r t' Hi H) as Hi'. apply auto_work_run in H as (config & t1 & Hi1 & Es & H); [|done].
  assert (forall q, lane q (tx_board t1) = lane q b) as Hsame by (intros q; by apply lane_states).
  assert (lanes p (if action == "pause" then mkLane None [] else lane_advance (lane p b)) (tx_board t1) (tx_board t')) as [Hl Ho].
  { case_bool_decide as Ha.
    - by eapply pause_all_lanes.
    - rewrite <-(Hsame p). eapply start_lanes; [done|done|exact H|]. rewrite Hsame. destruct Hwork as [|Hwork]; [done|exact Hwork]. }
  split; [by apply lane_eq|]. intros p' Hp. by rewrite Ho, Hsame.
Qed.

(** C27: When a Scrum job completes or fails, the one card of its project that owns it goes
    to review, or to error, plays no more and keeps the job; it leaves the lane of its
    project and no other lane changes. *)
Theorem job_end_releases_card env id job status b b' : reachable b -> bd_jobs b !! id = Some job -> job_Pipeline job = PipelineScrum ->
  status = JobStatusCompleted \/ status = JobStatusFailed -> transact (end_job env id status) b = (Ok tt, b') ->
  let p := job_ProjectID job in
  exists card, find_card p (card_ID card) b = Some card /\ card_JobID card = job_text id /\
    (forall c, c ∈ project_cards p b -> card_JobID c = job_text id -> c = card) /\
    (exists card', find_card p (card_ID card) b' = Some card' /\ card_PlayState card' = "" /\ card_QueueOrder card' = 0 /\
       card_JobID card' = job_text id /\ card_Column card' = if status == JobStatusCompleted then "review" else "error") /\
    lane p b' = lane_drop (card_ID card) (lane p b) /\ (forall p', p' <> p -> lane p' b' = lane p' b).
Proof.
  intros Hb Hjob Hpipe Hst H p. apply transact_ok in H as (t' & H & ->). pose proof (inv_reachable b Hb) as Hi.
  pose proof (safe_end env id status (mkTx b 0 0) tt t' Hi H) as Hi'.
  destruct (end_lanes env id job status (mkTx b 0 0) tt t' Hi Hjob Hpipe Hst H) as (card & Hf & Hj & Hu & Hs & Hl & Ho). cbn [tx_board] in *.
  exists card. split_and!; [done..| |by apply lane_eq|done]. unfold states in Hs. rewrite lookup_fmap in Hs.
  destruct (bd_cards (tx_board t') !! card_ID card) as [card'|] eqn:Ec; [|done]. injection Hs as E1 E2 E3 E4 E5 _. exists card'.
  apply find_card_spec in Hf as [_ Hp]. rewrite find_card_spec, E2, E3, E4, E5. split_and!; [done| |done..]. rewrite E1. exact Hp.
Qed.

(** A page of a card's channel holds the messages of the card with consecutive numbers
    up to the cursor, or to the newest message: at least one where there is one, no more
    than the limit and the byte bound; it says whether older messages exist. *)
Theorem channel_page_contiguous p id limit before b page : reachable b -> ScrumChannelPage_of p id limit before b = Ok page ->
  exists card, find_card p id b = Some card /\ cp_Total page = card_ChannelMessageCount card /\ cp_PlayState page = card_PlayState card /\
    cp_HasMore page = (0 <? cp_Start page) /\
    sm_Ordinal <$> cp_Messages page = seqZ (cp_Start page + 1) (page_end before card - cp_Start page) /\
    Forall (message_of p id) (cp_Messages page) /\
    0 <= cp_Start page <= page_end before card /\ (0 < page_end before card -> cp_Start page < page_end before card) /\
    Z.of_nat (length (cp_Messages page)) <= limit /\ size_of (cp_Messages page) <= MaxScrumChannelPageBytes.
Proof. intros Hb. apply page_run. by apply inv_reachable. Qed.

(** A mutation of the checklist or the test criteria does exactly what it names: it
    appends an open item, sets the state of the one item with the identity, or removes
    that item and nothing else. *)
Theorem item_mutation_exact identity raw items m items' :
  decodeCanonicalScrumCardItems raw = Ok items -> applyScrumCardItemMutation identity items m = Ok items' ->
  items' = item_reference identity items m.
Proof. apply item_run. Qed.

(** Valid metrics survive their stored form. *)
Theorem flow_metrics_roundtrip m : validateScrumFlowMetrics m = Ok tt -> fm_Signals m <> None ->
  canonicalScrumFlowMetrics (encode_metrics m) = Ok (Some m).
Proof. apply metrics_back. Qed.

(** Refreshed metrics are bound to the card they are stored with: they read back under
    the card's revision, carry its column and message counters and the summed score, and
    the counters never shrink and never report more returns and bounces than regressions. *)
Theorem flow_metrics_refreshed card deltas v m0 : measurable card -> card_UpdatedAt card <> 0 ->
  stored_metrics (card_FlowMetrics card) = Ok m0 -> counted m0 -> next_flow_metrics card deltas = Ok v ->
  canonicalScrumFlowMetricsForRevision v (card_UpdatedAt card) = Ok v /\
  exists m incomplete, v = encode_metrics m /\ scrumChecklistIncomplete (card_Checklist card) = Ok incomplete /\
    fm_UpdatedAt m = render (card_UpdatedAt card) /\ fm_Column m = card_Column card /\
    fm_ChannelMessages m = card_ChannelMessageCount card /\ fm_ConversationChars m = card_ChannelContentBytes card /\
    fm_IncompleteScore m = flow_points m incomplete /\ judged m (flow_points m incomplete) (fm_CompletionStatus m) /\
    counted m /\ grown m0 m.
Proof.
  intros Hm Hz H0 Hc H. split; [by eapply next_reads|].
  destruct (next_run card deltas v Hm H) as (m1 & m & incomplete & m' & E0 & Hv & Hd & Hi & Hs & -> & _ & Hu).
  assert (m1 = m0) as -> by congruence. destruct (deltas_counted deltas m0 m Hc Hd) as [Hc' Hg].
  destruct (score_fields card m incomplete m' Hs) as (H1 & H2 & H3 & H4 & H5 & H6 & H7 & H8 & H9). exists m', incomplete. split_and!; try done.
  - by rewrite <-flow_points_sum, H4, (signals_same _ _ _ _ Hs).
  - apply completion_judged; [|by symmetry]. by rewrite <-flow_points_sum, H4, (signals_same _ _ _ _ Hs).
  - unfold counted, counters in *. by rewrite H6, H7, H8, H9.
  - unfold grown in *. by rewrite H6, H7, H8, H9.
Qed.

(** C35: Scoring a card's metrics fails exactly when its points exceed the 32-bit range.
    Otherwise the score is the points of its history and state, the signals are those
    the nine rules give in their order, the status is the judgement of the points, and
    nothing else changes. *)
Theorem flow_score_exact m incomplete : unscored m ->
  (2147483647 < flow_points m incomplete <-> score m incomplete = Err "Scrum flow incomplete score exceeds %d") /\
  (flow_points m incomplete <= 2147483647 -> exists listed status,
    score m incomplete = Ok (m <| fm_IncompleteScore := flow_points m incomplete |> <| fm_Signals := Some listed.*2 |>
                               <| fm_CompletionStatus := status |>) /\
    StronglySorted lt listed.*1 /\ (forall k s, (k, s) ∈ listed <-> signalled m incomplete k s) /\
    judged m (flow_points m incomplete) status).
Proof.
  intros Hm. rewrite (score_run m incomplete Hm), flow_points_sum. cbv zeta. change max_int32 with 2147483647.
  destruct (Z.leb_spec (flow_points m incomplete) 2147483647).
  - split; [split; [lia|done]|]. intros _. destruct (signals_by_rule m incomplete) as (listed & -> & Hs & Hi).
    eexists listed, _. split_and!; [reflexivity|done|done|].
    exact (proj1 (completion_judged (m <| fm_IncompleteScore := flow_points m incomplete |> <| fm_Signals := Some listed.*2 |>)
      (flow_points m incomplete) _ eq_refl) eq_refl).
  - split; [done|lia].
Qed.
