(* ===== verification/ScrumExample.v ===== *)
(** * A sample board

    A board built by the operations themselves, on which every property is applied, and
    the runs that show where the code does not do what it says. *)
From Stdlib Require Import Ascii.
From S2P Require Import Prelude Schema PathIdentity UserIntent JsonCodec Timestamp Scrum ScrumFlow ScrumBoard ScrumPlay ScrumEdit ScrumChannel ScrumFacts ScrumInv ScrumReach ScrumRevision ScrumMetrics ScrumMoveFacts ScrumLane ScrumSpec.
From stdpp Require Import sorting base tactics strings list gmap numbers pretty.
From stdpp Require Import list options.
Open Scope Z_scope.
Open Scope go_scope.

(** Text by its encoding as a number: a total order. *)
Definition text_le (a b : string) : bool := (encode a <=? encode b)%positive.
Definition sample_time : Z := 63900000000 * second.
(** The environment of the [n]-th transaction. *)
Definition sample_env (n : N) : Env := {|
  env_now := sample_time + Z.of_N n * second;
  env_clock k _ := sample_time + Z.of_N n * second + Z.of_nat k * microsecond;
  env_entropy k := Some [ascii_of_N n; ascii_of_N (N.of_nat k)];
  env_job := 100 + Z.of_N n;
  env_cancel _ _ := Ok tt;
  env_control _ _ _ := Ok JobStatusPending;
  env_recorded _ _ := false;
  env_collation := text_le;
  env_routing _ := Ok tt;
  env_snapshot _ := Ok (VObject []);
  env_snapshot_valid _ := Ok tt;
  env_coding := Ok (VObject []);
  env_coding_valid _ := Ok tt
|}.
#[global] Instance sample_collation n : Collation (sample_env n).
Proof.
  split; cbn [env_collation sample_env]; unfold text_le.
  - intros a b. rewrite !Pos.leb_le. lia.
  - intros a b c. rewrite !Pos.leb_le. lia.
  - intros a b. rewrite !Pos.leb_le. intros H1 H2. apply (inj encode). lia.
Qed.

Definition step (n : N) (c : Command) (b : Board) : Board := (transact (run (sample_env n) c) b).2.
Definition revision (id : string) (b : Board) : Z := match find_card 1 id b with Some card => card_UpdatedAt card | None => 0 end.
Definition new_card (n : N) (id : string) (column : string) : Board -> Board :=
  step n (Create 0 1 id ("Card " +:+ id) "" column RawEmpty RawEmpty).
Definition play (n : N) (id : string) (pivot : bool) (b : Board) : Board := step n (Play (mkPlay 1 id (revision id b) pivot)) b.

Definition empty_project : Board := mkBoard {[1 := mkProject (VObject []) sample_time sample_time]} ∅ [] ∅ ∅ ∅.
Definition three_cards : Board := new_card 3 "c" "ready" (new_card 2 "b" "ready" (new_card 1 "a" "ready" empty_project)).
(** [a] runs, [b] and [c] are queued behind it. *)
Definition playing : Board := play 6 "c" false (play 5 "b" false (play 4 "a" false three_cards)).

Lemma reachable_empty : reachable empty_project.
Proof. by apply reach_empty. Qed.
Lemma reachable_step n c b : reachable b -> reachable (step n c b).
Proof. apply reach_run. Qed.
#[export] Hint Resolve reachable_empty reachable_step : board.
Lemma reachable_cards : reachable three_cards.
Proof. unfold three_cards, new_card. auto with board. Qed.
Lemma reachable_playing : reachable playing.
Proof. unfold playing, play. auto using reachable_cards with board. Qed.

Example playing_lane : lane 1 playing = mkLane (Some "a") ["b"; "c"].
Proof. vm_compute. reflexivity. Qed.

(** Runs a transaction that commits. *)
Ltac commits c b x b' E :=
  let ok := fresh in
  assert (match (transact c b).1 with Ok _ => true | Err _ => false end = true) as ok by (vm_compute; reflexivity);
  destruct (transact c b) as [[x|?] b'] eqn:E; [clear ok|discriminate ok].

Lemma board_well_formed_witness : reachable playing /\ board_inv playing.
Proof. split; [exact reachable_playing|apply board_well_formed; exact reachable_playing]. Defined.
Lemma stale_revision_refused_witness : let c := Edit 1 "b" (revision "a" playing) (mkCardPatch (Some "New") None None None None None) in
  exists e, transact (run (sample_env 7) c) playing = (Err e, playing).
Proof.
  intros c.
  destruct (find_card 1 "b" playing) as [card|] eqn:Hf; [|exfalso; revert Hf; vm_compute; discriminate].
  refine (stale_revision_refused (sample_env 7) c playing 1 "b" (revision "a" playing) card eq_refl Hf _).
  intros E. assert (revision "b" playing = revision "a" playing) as H by (unfold revision at 1; by rewrite Hf, E). revert H. vm_compute. discriminate.
Defined.
Lemma command_commits_once_witness : let c := Edit 1 "b" (revision "b" three_cards) (mkCardPatch (Some "New") None None None None None) in
  exists b' e, transact (run (sample_env 7) c) three_cards = (Ok tt, b') /\ transact (run (sample_env 8) c) b' = (Err e, b').
Proof.
  intros c. commits (run (sample_env 7) c) three_cards x b' E. destruct x.
  destruct (command_commits_once (sample_env 7) (sample_env 8) c three_cards b' reachable_cards eq_refl E) as [e He]. eauto.
Defined.
Lemma play_refines_lane_witness : exists r b', transact (ApplyScrumCardPlay (sample_env 7) (mkPlay 1 "c" (revision "c" playing) true)) playing = (Ok r, b') /\
  lane 1 playing = mkLane (Some "a") ["b"; "c"] /\ lane 1 b' = mkLane (Some "c") ["b"].
Proof.
  commits (ApplyScrumCardPlay (sample_env 7) (mkPlay 1 "c" (revision "c" playing) true)) playing r b' E. exists r, b'. split; [done|].
  split; [vm_compute; reflexivity|]. destruct (play_refines_lane _ _ _ _ _ reachable_playing E) as [Hl _]. cbn [pc_ProjectID] in Hl. rewrite Hl. vm_compute. reflexivity.
Defined.
Lemma only_card (cards : gmap string DBScrumCard) job owner card :
  bool_decide (map_Forall (fun i c => card_JobID c = job -> i = owner) cards) = true -> cards !! card_ID card = Some card -> card_JobID card = job -> card_ID card = owner.
Proof. intros H%bool_decide_eq_true Hc Hj. exact (H _ _ Hc Hj). Qed.
(** The job of [a] has ended. *)
Definition finished : Board := step 7 (Complete 104) playing.
Lemma reachable_finished : reachable finished.
Proof. unfold finished. auto using reachable_playing with board. Qed.
Lemma auto_work_refines_lane_witness : exists r b' r2 b2,
  transact (ApplyProjectAutoWork (sample_env 8) 1 "play") finished = (Ok r, b') /\ lane 1 finished = mkLane None ["b"; "c"] /\
  lane 1 b' = mkLane (Some "b") ["c"] /\
  transact (ApplyProjectAutoWork (sample_env 8) 1 "pause") playing = (Ok r2, b2) /\ lane 1 b2 = mkLane None [].
Proof.
  commits (ApplyProjectAutoWork (sample_env 8) 1 "play") finished r b' E. commits (ApplyProjectAutoWork (sample_env 8) 1 "pause") playing r2 b2 E2.
  exists r, b', r2, b2. split; [done|]. split; [vm_compute; reflexivity|]. split.
  - assert (ln_queue (lane 1 finished) <> []) as Hq by (vm_compute; discriminate).
    destruct (auto_work_refines_lane (sample_env 8) 1 "play" finished r b' reachable_finished E (or_intror (or_intror Hq))) as [-> _]. vm_compute. reflexivity.
  - split; [done|]. destruct (auto_work_refines_lane (sample_env 8) 1 "pause" playing r2 b2 reachable_playing E2 (or_introl eq_refl)) as [-> _]. reflexivity.
Defined.
Lemma job_end_releases_card_witness : exists job b', bd_jobs playing !! 104 = Some job /\ transact (end_job (sample_env 7) 104 JobStatusCompleted) playing = (Ok tt, b') /\
  lane 1 b' = mkLane None ["b"; "c"].
Proof.
  assert (match bd_jobs playing !! 104 with Some job => bool_decide (job_ProjectID job = 1 /\ job_Pipeline job = PipelineScrum) | None => false end = true) as H by (vm_compute; reflexivity).
  destruct (bd_jobs playing !! 104) as [job|] eqn:Ej; [|discriminate H]. apply bool_decide_eq_true in H as [Hp Hpipe].
  commits (end_job (sample_env 7) 104 JobStatusCompleted) playing x b' E. destruct x. exists job, b'. split; [done|]. split; [done|].
  destruct (job_end_releases_card (sample_env 7) 104 job JobStatusCompleted playing b' reachable_playing Ej Hpipe (or_introl eq_refl) E) as (card & Hf & Hj & _ & _ & Hl & _).
  rewrite Hp in Hf, Hl. rewrite Hl. assert (lane 1 playing = mkLane (Some "a") ["b"; "c"]) as -> by (vm_compute; reflexivity).
  assert (card_ID card = "a") as ->; [|reflexivity].
  assert (bool_decide (map_Forall (fun i c => card_JobID c = job_text 104 -> i = "a") (bd_cards playing)) = true) as Ha by (vm_compute; reflexivity).
  exact (only_card (bd_cards playing) _ "a" card Ha (proj1 (proj1 (find_card_spec _ _ _ _) Hf)) Hj).
Defined.
Lemma move_exact_witness : let move := mkMove 1 "c" "ready" "a" (revision "c" three_cards) in
  exists result b', transact (MoveScrumCard (sample_env 4) move) three_cards = (Ok result, b') /\
  column_ids (sample_env 4) 1 "ready" "" three_cards = ["a"; "b"; "c"] /\ laid_out 1 "ready" ["c"; "a"; "b"] b'.
Proof.
  intros move. commits (MoveScrumCard (sample_env 4) move) three_cards r b' E. destruct r as [previous updated]. exists (previous, updated), b'.
  split; [done|]. split; [vm_compute; reflexivity|].
  destruct (move_exact (sample_env 4) move three_cards previous updated b' reachable_cards E) as (_ & (n & Hn & Hl) & _).
  cbn [move mv_ProjectID mv_CardID mv_Column mv_BeforeCardID] in Hn, Hl.
  assert (column_ids (sample_env 4) 1 "ready" "c" three_cards = ["a"; "b"]) as Hids by (vm_compute; reflexivity).
  rewrite Hids in Hn, Hl. vm_compute in Hn. injection Hn as <-. exact Hl.
Defined.
Lemma channel_page_contiguous_witness : exists page, ScrumChannelPage_of 1 "a" 50 (-1) playing = Ok page /\ sm_Ordinal <$> cp_Messages page = [1; 2].
Proof.
  assert (match ScrumChannelPage_of 1 "a" 50 (-1) playing with Ok page => bool_decide (cp_Start page = 0 /\ cp_Total page = 2) | Err _ => false end = true) as H by (vm_compute; reflexivity).
  destruct (ScrumChannelPage_of 1 "a" 50 (-1) playing) as [page|] eqn:E; [|discriminate H]. apply bool_decide_eq_true in H as [Hs Ht]. exists page. split; [done|].
  destruct (channel_page_contiguous 1 "a" 50 (-1) playing page reachable_playing E) as (card & _ & Htotal & _ & _ & Ho & _).
  rewrite Ho, Hs. unfold page_end. cbn [Z.ltb Z.compare]. rewrite <-Htotal, Ht. reflexivity.
Defined.
Definition two_items : list ScrumCardItem := [mkScrumItem "x" "First" false; mkScrumItem "y" "Second" false].
Lemma item_mutation_exact_witness : let m := mkItemMutation 1 "a" 1 "checklist" "toggle" "y" "" (Some true) in
  exists items', applyScrumCardItemMutation None two_items m = Ok items' /\ items' = [mkScrumItem "x" "First" false; mkScrumItem "y" "Second" true].
Proof.
  intros m. eexists. split; [vm_compute; reflexivity|].
  exact (item_mutation_exact None (VArray (to_json <$> two_items)) two_items m _ eq_refl eq_refl).
Defined.
(** A card that went back from review to progress once. *)
Definition bounced_metrics : ScrumFlowMetrics :=
  mkMetrics 0 1 1 3 2 40 30 "uncertain" (Some ["bounced out of review 1 time(s)"; "played 3 times"]) "failed" "in_progress" (render sample_time).
Lemma flow_metrics_roundtrip_witness : canonicalScrumFlowMetrics (encode_metrics bounced_metrics) = Ok (Some bounced_metrics).
Proof. apply flow_metrics_roundtrip; [vm_compute; reflexivity|discriminate]. Defined.
Lemma flow_score_exact_witness : let m := measured (mkCard "a" 1 "A" "" "review" (VArray []) (VArray []) "" "" (VArray []) (VArray [])
    (VObject []) "" "" 0 0 2 40 sample_time sample_time) bounced_metrics in
  exists (listed : list (nat * string)) status, flow_points m true = 60 /\
    score m true = Ok (m <| fm_IncompleteScore := 60 |> <| fm_Signals := Some listed.*2 |> <| fm_CompletionStatus := status |>) /\
    judged m 60 status.
Proof.
  intros m. destruct (flow_score_exact m true) as [_ H]; [split; reflexivity|].
  destruct H as (listed & status & Hs & _ & _ & Hj); [vm_compute; discriminate|].
  exists listed, status. split; [vm_compute; reflexivity|]. split; [exact Hs|exact Hj].
Defined.
Lemma flow_metrics_refreshed_witness : let card := mkCard "a" 1 "A" "" "assigned" (VArray []) (VArray []) "" "" (VArray []) (VArray [])
    (encode_metrics bounced_metrics) "" "" 0 0 2 40 sample_time sample_time in
  exists v m, next_flow_metrics card [mkDelta ColumnMove "in_progress" "assigned" ""] = Ok v /\ v = encode_metrics m /\ counted m /\ grown bounced_metrics m.
Proof.
  intros card. assert (match next_flow_metrics card [mkDelta ColumnMove "in_progress" "assigned" ""] with Ok _ => true | Err _ => false end = true) as H by (vm_compute; reflexivity).
  destruct (next_flow_metrics card [mkDelta ColumnMove "in_progress" "assigned" ""]) as [v|] eqn:E; [|discriminate H].
  assert (measurable card) as Hm by (unfold measurable; split_and!; [vm_compute; discriminate..|apply (bool_decide_unpack _); vm_compute; exact I]).
  assert (stored_metrics (card_FlowMetrics card) = Ok bounced_metrics) as Hs by (vm_compute; reflexivity).
  assert (counted bounced_metrics) as Hc by (split; [repeat apply Forall_cons_2; try apply Forall_nil_2; vm_compute; split; discriminate|vm_compute; discriminate]).
  destruct (flow_metrics_refreshed card _ v bounced_metrics Hm ltac:(vm_compute; discriminate) Hs Hc E) as (_ & m & incomplete & Hv & _ & _ & _ & _ & _ & _ & _ & Hcm & Hg).
  exists v, m. exact (conj eq_refl (conj Hv (conj Hcm Hg))).
Defined.

(** ** Where the code departs from its intent *)

Definition refusal (c : Command) (n : N) (b : Board) : option string :=
  match (transact (run (sample_env n) c) b).1 with Ok _ => None | Err e => Some e end.
(** A card whose job has ended keeps the job; queued again it can neither be paused nor
    does pausing the project succeed. *)
Definition requeued : Board := play 9 "a" false (play 8 "b" false finished).
Example requeued_card_owns_job :
  lane 1 requeued = mkLane (Some "b") ["c"; "a"] /\
  refusal (Pause 1 "a" (revision "a" requeued)) 10 requeued = Some "queued Scrum card %q unexpectedly owns a job" /\
  refusal (AutoWork 1 "pause") 10 requeued = Some "queued Scrum card %q unexpectedly owns a job".
Proof. vm_compute. auto. Qed.

(** The preparation of auto-work admits a paused card, which the metrics then refuse. *)
Definition paused_board : Board := step 8 (Pause 1 "a" (revision "a" playing)) playing.
Example paused_card_not_prepared :
  refusal (Reconcile (mkReconcile 1 "a" (revision "a" paused_board) "" AutoWorkReady "assigned" "" 0 "" [] "")) 9 paused_board =
  Some "Scrum flow transition %q to %q is not registered".
Proof. vm_compute. reflexivity. Qed.

(** A move shifts a card with metrics and gives it a new revision; the metrics still name
    the old one, so the card cannot be read any more. *)
Definition readable (id : string) (b : Board) : bool :=
  match find_card 1 id b with Some card => match validateStoredScrumCard card with Ok _ => true | Err _ => false end | None => false end.
Definition before_shift : Board := step 10 (Complete 109) (play 9 "b" false paused_board).
Definition after_shift : Board := step 11 (Move (mkMove 1 "a" "review" "b" (revision "a" before_shift))) before_shift.
Example shifted_card_unreadable :
  readable "b" before_shift = true /\ refusal (Move (mkMove 1 "a" "review" "b" (revision "a" before_shift))) 11 before_shift = None /\
  readable "b" after_shift = false.
Proof. vm_compute. auto. Qed.
(** For the same reason a card with metrics cannot be moved within its column. *)
Example move_within_column_refused :
  refusal (Move (mkMove 1 "b" "review" "" (revision "b" before_shift))) 11 before_shift =
  Some "updated_at %q differs from card revision %q".
Proof. vm_compute. reflexivity. Qed.

(** No channel operation commits on a reachable board without receipts. *)
Lemma channel_never_commits env c builder b : reachable b -> bd_operations b !! cr_OperationID (cc_Request c) = None ->
  exists e, transact (run env (Channel c builder)) b = (Err e, b).
Proof.
  intros Hb Ho. apply transact_refused. intros x t' H. apply dropped_inv in H as [r H].
  eapply (channel_refused env c builder (mkTx b 0 0)); [|exact Ho|exact H]. intros id job. apply inv_source. by apply inv_reachable.
Qed.
