(* ===== verification/Workspace.v ===== *)
(** * Workspace reconciliation

    Models [internal/workspace/reconciliation.go], [apply.go], [filesystem.go],
    [change_observer.go] and the path contract: a list of desired files is validated
    and applied to a workspace directory.

    The file system is a map from paths (their components below the workspace root) to
    directories, regular files and other entries.  Every call into the operating
    system, and every look at the context, is one tick of a clock; [fault] says at
    which ticks the call fails (or the context is cancelled), so that every theorem
    holds for every pattern of failures.  What a failing run did remains in the state.
    Nobody else changes the workspace: the mutation fence locks it.  No two
    paths are hard links of one file, and closing a handle is not represented. *)
From Stdlib Require Import Ascii.
From S2P Require Import Prelude Schema PathIdentity.
From stdpp Require Import sorting base tactics strings list gmap numbers pretty.
From stdpp Require Import list options.
Open Scope Z_scope.
Open Scope go_scope.

(** ** Desired files and their validation *)

Record DesiredFile := mkDesired {
  df_Path : text; df_Present : bool; df_Content : slice ascii; df_Mode : Z; df_MoveFrom : text;
  df_PreserveExisting : bool; df_CreateOnly : bool }.
Definition ChangeCreate : string := "create".
Definition ChangeReplace : string := "replace".
Definition ChangeDelete : string := "delete".
Definition ChangeMove : string := "move".
Record Change := mkChange { ch_Path : text; ch_Kind : string; ch_SourcePath : text }.

Definition validateRelativePath (value : text) : result unit :=
  reject "path %q must be one exact relative slash path" when
    ((value == []) || negb (valid_utf8 (of_bytes value)) || (value != bytes (trim_space (of_bytes value))) ||
     one_of value backslash || starts_with [slash] value || (Clean value != value) || (value == bytes ".") ||
     (value == bytes "..") || starts_with (bytes "../") value || one_of value (byte 0))%bool;
  reject "path %q contains an invalid basename" when
    existsb (fun name => bool_decide (name ∈ [[]; bytes "."; bytes ".."])) (split_slash value);
  Ok tt.

Definition permission_bits : Z := 511.
Definition validate_authority (state : DesiredFile) : result unit :=
  if df_Present state then
    reject "workspace path %q cannot preserve and move existing state" when
      (df_PreserveExisting state && (df_MoveFrom state != []))%bool;
    reject "workspace path %q cannot combine create-only with preserve or move authority" when
      (df_CreateOnly state && (df_PreserveExisting state || (df_MoveFrom state != [])))%bool;
    reject "workspace desired file %q has invalid permission bits" when Z.ldiff (df_Mode state) permission_bits != 0;
    Ok tt
  else
    reject "absent workspace path %q contains file authority" when
      (negb (bool_decide (df_Content state = None)) || (df_Mode state != 0) || (df_MoveFrom state != []) ||
       df_PreserveExisting state || df_CreateOnly state)%bool;
    Ok tt.
(** [append([]byte(nil), content...)]: an empty content becomes nil. *)
Definition clone_content (content : slice ascii) : slice ascii :=
  match elems content with [] => None | l => Some l end.
Definition normalized (state : DesiredFile) : DesiredFile :=
  mkDesired (df_Path state) (df_Present state) (clone_content (df_Content state)) (df_Mode state) (df_MoveFrom state)
    (df_PreserveExisting state) (df_CreateOnly state).
(** The loop carries the target and source paths seen so far. *)
Definition desired_step (st : gset text * gset text) (state : DesiredFile) : result (gset text * gset text) :=
  let '(targets, sources) := st in
  check validateRelativePath (df_Path state);
  reject "workspace desired state repeats path %q" when bool_decide (df_Path state ∈ targets);
  check validate_authority state;
  let? sources := (if df_MoveFrom state != [] then
    check validateRelativePath (df_MoveFrom state);
    reject "workspace move source and destination are both %q" when df_MoveFrom state == df_Path state;
    reject "workspace move source %q is repeated" when bool_decide (df_MoveFrom state ∈ sources);
    Ok ({[ df_MoveFrom state ]} ∪ sources) else Ok sources) in
  Ok ({[ df_Path state ]} ∪ targets, sources).
(** Only neighbours of the sorted paths are compared. *)
Fixpoint overlapping (paths : list string) : bool :=
  match paths with
  | previous :: (path :: _) as rest =>
      (((path != previous) && has_prefix path (previous +:+ "/")) || overlapping rest)%bool
  | _ => false
  end.
Definition validateDesiredFiles (desired : list DesiredFile) : result (list DesiredFile) :=
  let? st := loop desired_step (∅, ∅) desired in
  let paths := of_bytes <$> (elements st.1 ++ elements st.2) in
  reject "workspace reconciliation paths %q and %q overlap" when overlapping (sort_by id paths);
  Ok (sort_by (fun d => of_bytes (df_Path d)) (normalized <$> desired)).

(** ** The file system *)

Abbreviation key := (list text).
Definition parts (path : text) : key := split_slash path.
Definition parent (p : key) : key := removelast p.

(** Regular files are identified by an inode; [NOther] is a link or a special file. *)
Inductive node := NDir | NFile (inode : nat) (content : text) (mode : Z) | NOther (inode : nat).
#[global] Instance node_eq_dec : EqDecision node.
Proof. solve_decision. Defined.
Abbreviation fs_t := (gmap key node).

Inductive stat := SFound (n : node) | SMissing | SFail.
(** The components of a path below [done], one after the other. *)
Fixpoint resolve (fs : fs_t) (done rest : key) : stat :=
  match rest with
  | [] => SFound NDir
  | [x] => match fs !! (done ++ [x]) with Some n => SFound n | None => SMissing end
  | x :: rest =>
      match fs !! (done ++ [x]) with
      | Some NDir => resolve fs (done ++ [x]) rest
      | Some _ => SFail
      | None => SMissing
      end
  end.

Record machine := Machine { m_fs : fs_t; m_tick : nat; m_inode : nat; m_changes : list Change }.
(** A run of the program: the state survives an error. *)
Definition run (A : Type) : Type := machine -> result A * machine.
Definition ret {A} (a : A) : run A := fun m => (Ok a, m).
Definition stop {A} (e : string) : run A := fun m => (Err e, m).
Definition bind {A B} (c : run A) (k : A -> run B) : run B :=
  fun m => match c m with (Ok a, m') => k a m' | (Err e, m') => (Err e, m') end.
Notation "'let!' x ':=' c 'in' k" := (bind c (fun x => k))
  (at level 10, x name, c at level 100, k at level 200) : go_scope.
Notation "'do' c ';' k" := (bind c (fun _ => k)) (at level 10, c at level 100, k at level 200) : go_scope.
Definition stop_when (b : bool) (e : string) : run unit := if b then stop e else ret tt.
Fixpoint each {A} (f : A -> run unit) (l : list A) : run unit :=
  match l with [] => ret tt | x :: l => do f x; each f l end.

Inductive outcome := Done | Exists_ | Missing | Failed.
#[global] Instance outcome_eq_dec : EqDecision outcome.
Proof. solve_decision. Defined.

Section faults.
Context (fault : nat -> bool) (entropy : nat -> text).

(** A call into the operating system: [None] at a faulty tick. *)
Definition syscall {A} (f : machine -> A * machine) : run (option A) := fun m =>
  let m1 := Machine (m_fs m) (S (m_tick m)) (m_inode m) (m_changes m) in
  if fault (m_tick m) then (Ok None, m1) else let '(a, m2) := f m1 in (Ok (Some a), m2).
Definition with_fs (m : machine) (fs : fs_t) : machine := Machine fs (m_tick m) (m_inode m) (m_changes m).

(** A call that changes nothing here (opening, syncing, reading entropy), and
    [ctx.Err()] *)
Definition call (e : string) : run unit :=
  let! alive := syscall (fun m => (tt, m)) in
  match alive with Some _ => ret tt | None => stop e end.
Definition check_context : string -> run unit := call.
Definition lstat (p : key) : run stat :=
  let! s := syscall (fun m => (resolve (m_fs m) [] p, m)) in ret (default SFail s).
Definition is_dir (fs : fs_t) (p : key) : bool :=
  match resolve fs [] p with SFound NDir => true | _ => false end.
Definition mkdir (p : key) : run outcome :=
  let! r := syscall (fun m =>
    match resolve (m_fs m) [] p with
    | SFound _ => (Exists_, m)
    | SMissing => if is_dir (m_fs m) (parent p) then (Done, with_fs m (<[p := NDir]> (m_fs m))) else (Missing, m)
    | SFail => (Failed, m)
    end) in
  ret (default Failed r).
Definition children (fs : fs_t) (p : key) : list key :=
  filter (fun q => q <> [] /\ parent q = p) (map_to_list fs).*1.
(** [root.Remove]: a file, or an empty directory. *)
Definition remove_path (p : key) : run outcome :=
  let! r := syscall (fun m =>
    match resolve (m_fs m) [] p with
    | SFound NDir =>
        if bool_decide (p = [] \/ children (m_fs m) p <> []) then (Failed, m) else (Done, with_fs m (delete p (m_fs m)))
    | SFound _ => (Done, with_fs m (delete p (m_fs m)))
    | SMissing => (Missing, m)
    | SFail => (Failed, m)
    end) in
  ret (default Failed r).
(** Renaming a regular file; a directory is never replaced. *)
Definition rename (no_replace : bool) (from to : key) : run outcome :=
  let! r := syscall (fun m =>
    match resolve (m_fs m) [] from, resolve (m_fs m) [] to with
    | SFound (NFile i c mode), SMissing =>
        if is_dir (m_fs m) (parent to) then (Done, with_fs m (<[to := NFile i c mode]> (delete from (m_fs m)))) else (Missing, m)
    | SFound (NFile i c mode), SFound n =>
        if (no_replace || bool_decide (n = NDir))%bool then (Exists_, m)
        else (Done, with_fs m (<[to := NFile i c mode]> (delete from (m_fs m))))
    | _, _ => (Failed, m)
    end) in
  ret (default Failed r).
(** [O_CREATE|O_EXCL] with mode 0600 *)
Definition create_exclusive (p : key) : run outcome :=
  let! r := syscall (fun m =>
    match resolve (m_fs m) [] p with
    | SFound _ => (Exists_, m)
    | SMissing =>
        if is_dir (m_fs m) (parent p)
        then (Done, Machine (<[p := NFile (m_inode m) [] 384]> (m_fs m)) (m_tick m) (S (m_inode m)) (m_changes m))
        else (Missing, m)
    | SFail => (Failed, m)
    end) in
  ret (default Failed r).
(** Writing to, and changing the mode of, the open file [p]. *)
Definition update_file (p : key) (f : text -> Z -> text * Z) : run outcome :=
  let! r := syscall (fun m =>
    match m_fs m !! p with
    | Some (NFile i c mode) => let '(c, mode) := f c mode in (Done, with_fs m (<[p := NFile i c mode]> (m_fs m)))
    | _ => (Failed, m)
    end) in
  ret (default Failed r).
(** Opening and reading a file; [None] when it cannot be opened. *)
Definition read_content (p : key) : run (option text) :=
  let! r := syscall (fun m => (match m_fs m !! p with Some (NFile _ c _) => Some c | _ => None end, m)) in
  ret (mjoin r).
Definition read_names (p : key) : run (option (list key)) :=
  syscall (fun m => (children (m_fs m) p, m)).
Definition record_change (c : Change) : run unit := fun m =>
  (Ok tt, Machine (m_fs m) (m_tick m) (m_inode m) (m_changes m ++ [c])).

(** ** [filesystem.go] and [change_observer.go] *)

Definition text_of (p : key) : text := join_with [slash] p.
Definition verifyWorkspacePathAbsent (p : key) : run unit :=
  let! s := lstat p in
  match s with SMissing => ret tt | SFail => stop "%w" | SFound _ => stop "workspace path still exists" end.
Definition verifyAndRecordWorkspaceDeletion (p : key) : run unit :=
  do verifyWorkspacePathAbsent p;
  record_change (mkChange (text_of p) ChangeDelete []).

(** One parent directory: [Some missing] ends the walk. *)
Definition inspect_parent (create replaceExisting record : bool) (current : key) : run (option bool) :=
  let! s := lstat current in
  let! s := (match s with
    | SMissing =>
        if create then
          do check_context "create workspace parent for %q: %w";
          let! made := mkdir current in
          do stop_when (bool_decide (made <> Done /\ made <> Exists_)) "create workspace parent for %q: %w";
          let! s := lstat current in ret (Some s)
        else ret None
    | s => ret (Some s)
    end) in
  match s with
  | None => ret (Some true)
  | Some (SMissing | SFail) => stop "inspect workspace parent for %q: %w"
  | Some (SFound NDir) => ret None
  | Some (SFound _) =>
      if negb create then ret (Some true) else
      do stop_when (negb replaceExisting) "create-only workspace path %q has an existing non-directory parent %q";
      do check_context "replace workspace parent for %q: %w";
      let! removed := remove_path current in
      do stop_when (bool_decide (removed <> Done)) "replace workspace parent for %q: %w";
      do (if record then verifyAndRecordWorkspaceDeletion current else ret tt);
      let! made := mkdir current in
      do stop_when (bool_decide (made <> Done)) "create workspace parent for %q: %w";
      ret None
  end.
Fixpoint inspect_parents (create replaceExisting record : bool) (done rest : key) : run bool :=
  match rest with
  | [] | [_] => ret false
  | name :: rest =>
      let! ended := inspect_parent create replaceExisting record (done ++ [name]) in
      match ended with
      | Some missing => ret missing
      | None => inspect_parents create replaceExisting record (done ++ [name]) rest
      end
  end.
Definition inspectWorkspaceParents (p : key) (create replaceExisting record : bool) : run bool :=
  do check_context "inspect workspace parents: %w";
  inspect_parents create replaceExisting record [] p.

(** The pages of a directory are read as one.  The depth of the workspace bounds the
    recursion. *)
Fixpoint remove_entry (fuel : nat) (p : key) : run unit :=
  match fuel with
  | O => stop "out of fuel"
  | S fuel =>
      do check_context "remove workspace entry %q: %w";
      let! s := lstat p in
      match s with
      | SMissing => ret tt
      | SFail => stop "inspect workspace entry %q for removal: %w"
      | SFound NDir =>
          do call "open workspace directory %q for removal: %w";
          do call "workspace directory %q changed before removal";
          do check_context "remove workspace directory %q: %w";
          let! names := read_names p in
          match names with
          | None => stop "read workspace directory %q for removal: %w"
          | Some names =>
              do each (remove_entry fuel) names;
              let! s := lstat p in
              match s with
              | SFound NDir =>
                  do check_context "remove workspace directory %q: %w";
                  let! removed := remove_path p in
                  stop_when (bool_decide (removed <> Done)) "remove workspace directory %q: %w"
              | _ => stop "workspace directory %q changed during removal"
              end
          end
      | SFound _ =>
          do check_context "remove workspace entry %q: %w";
          let! removed := remove_path p in
          stop_when (bool_decide (removed <> Done)) "remove workspace entry %q: %w"
      end
  end.
Definition depth (fs : fs_t) : nat := max_list (length <$> (map_to_list fs).*1).
Definition removeWorkspaceEntry (p : key) : run unit := fun m => remove_entry (S (S (depth (m_fs m)))) p m.

(** Whether a regular file has the content, and whether it is left open: an empty file
    need not be readable. *)
Definition openRegularFileContentMatch (p : key) (before : node) (content : text) : run (bool * bool) :=
  do check_context "compare workspace file %q: %w";
  match before with
  | NFile _ old _ =>
      if negb (bool_decide (length old = length content)) then ret (false, false) else
      let! opened := read_content p in
      match opened with
      | None =>
          if content == [] then
            let! after := lstat p in
            match after with
            | SFound n => ret (false, bool_decide (n = before))
            | _ => stop "verify empty workspace file %q: %w"
            end
          else ret (false, false)
      | Some read =>
          do check_context "compare workspace file %q: %w";
          let! same := syscall (fun m => (m_fs m !! p == Some before, m)) in
          let! after := lstat p in
          ret (true, (default false same &&
                      match after with SFound n => bool_decide (n = before) | _ => false end && bool_decide (read = content))%bool)
      end
  | _ => ret (false, false)
  end.

Definition temporary_prefix : text := bytes ".omnidex-write-".
Fixpoint createSiblingTemporary (attempts : nat) (dir : key) : run key :=
  match attempts with
  | O => stop "reserve unique workspace temporary file"
  | S attempts =>
      do check_context "create workspace temporary file: %w";
      do call "entropy";
      let! name := (fun m => (Ok (dir ++ [temporary_prefix ++ entropy (m_tick m)]), m)) in
      let! created := create_exclusive name in
      match created with
      | Done => ret name
      | Exists_ => createSiblingTemporary attempts dir
      | _ => stop "%w"
      end
  end.
Definition removeIfPresent (p : key) : run unit :=
  let! removed := remove_path p in
  stop_when (bool_decide (removed <> Done /\ removed <> Missing)) "%w".
(** [defer]: [cleanup] runs when [c] fails; its own error is joined to the first. *)
Definition on_error {A} (c : run A) (cleanup : run unit) : run A := fun m =>
  match c m with
  | (Err e, m') => (Err e, (cleanup m').2)
  | r => r
  end.
(** Filling the temporary file; it is returned with its inode.  The bytes are written at
    once. *)
Definition fill_temporary (name : key) (content : text) (mode : Z) : run (key * nat) :=
  do (if content == [] then ret tt else
      do check_context "%w";
      let! written := update_file name (fun _ mode => (content, mode)) in
      stop_when (bool_decide (written <> Done)) "%w");
  do check_context "%w";
  do call "sync";
  do check_context "%w";
  let! changed := update_file name (fun c _ => (c, mode)) in
  do stop_when (bool_decide (changed <> Done)) "%w";
  let! s := lstat name in
  match s with
  | SFound (NFile inode c mode') =>
      do stop_when (negb (bool_decide (length c = length content)) || (mode' != mode))%bool
           "prepared workspace file differs from desired bytes or permissions";
      ret (name, inode)
  | _ => stop "%w"
  end.
Definition writePreparedFile (dir : key) (content : text) (mode : Z) : run (key * nat) :=
  let! name := createSiblingTemporary 64 dir in
  on_error (fill_temporary name content mode) (removeIfPresent name).

(** ** [apply.go] *)

Definition content_of (state : DesiredFile) : text := elems (df_Content state).
Definition verifyOpenFileExact (p : key) (before : node) (mode : Z) : run unit :=
  do check_context "verify workspace file %q: %w";
  let! opened := syscall (fun m => (m_fs m !! p, m)) in
  let! s := lstat p in
  match before, opened, s with
  | NFile i _ perm, Some (Some (NFile i1 _ perm1)), SFound (NFile i2 _ perm2) =>
      stop_when (negb (bool_decide (i = i1)) || negb (bool_decide (i = i2)) || (perm != mode) || (perm1 != mode) || (perm2 != mode))%bool
        "workspace file %q differs from desired state"
  | _, _, _ => stop "workspace file %q differs from desired state"
  end.
Definition verifyPathFileExact (p : key) (before : node) (mode : Z) : run unit :=
  let! s := lstat p in
  match before, s with
  | NFile i c _, SFound (NFile i' c' perm) =>
      stop_when (negb (bool_decide (i = i')) || negb (bool_decide (length c' = length c)) || (perm != mode))%bool
        "workspace file %q changed during exact verification"
  | _, _ => stop "workspace file %q changed during exact verification"
  end.
Definition verify_file (opened : bool) : key -> node -> Z -> run unit :=
  if opened then verifyOpenFileExact else verifyPathFileExact.

(** Installing the prepared file, which is removed when that fails. *)
Definition install_prepared (state : DesiredFile) (existing : option node) (temporary : key) : run unit :=
  let p := parts (df_Path state) in
  do check_context "install workspace file %q: %w";
  do (if bool_decide (existing = Some NDir) then removeWorkspaceEntry p else ret tt);
  let! renamed := rename (df_CreateOnly state) temporary p in
  stop_when (bool_decide (renamed <> Done)) "install workspace file %q: %w".
Definition install (state : DesiredFile) (existing : option node) (temporary : key) : run unit :=
  on_error (install_prepared state existing temporary) (removeIfPresent temporary).
Definition write_file (state : DesiredFile) (existing : option node) : run unit :=
  let p := parts (df_Path state) in
  let! prepared := writePreparedFile (parent p) (content_of state) (df_Mode state) in
  do install state existing prepared.1;
  let! s := lstat p in
  match s with
  | SFound (NFile inode c mode) =>
      do stop_when (negb (bool_decide (inode = prepared.2)) || negb (bool_decide (length c = length (content_of state))) ||
                    (mode != df_Mode state))%bool
           "installed workspace file %q differs from desired bytes or permissions";
      record_change (mkChange (df_Path state) (if bool_decide (existing = None) then ChangeCreate else ChangeReplace) [])
  | _ => stop "installed workspace file %q differs from desired bytes or permissions"
  end.
(** Whether the file [existing] is already as desired. *)
Definition settled_file (state : DesiredFile) (existing : option node) : run bool :=
  let p := parts (df_Path state) in
  match existing with
  | Some (NFile i c mode) =>
      let! matches := openRegularFileContentMatch p (NFile i c mode) (content_of state) in
      if (matches.2 && (mode == df_Mode state))%bool
      then do verify_file matches.1 p (NFile i c mode) (df_Mode state); ret true
      else ret false
  | _ => ret false
  end.
Definition applyFile (state : DesiredFile) : run unit :=
  let p := parts (df_Path state) in
  let! _missing := inspectWorkspaceParents p true (negb (df_CreateOnly state)) true in
  let! s := lstat p in
  let! existing := (match s with
    | SFound n => ret (Some n)
    | SMissing => ret None
    | SFail => stop "inspect workspace file %q: %w"
    end) in
  do stop_when (bool_decide (existing <> None) && df_CreateOnly state)%bool
       "create-only workspace file %q already exists without replacement authority";
  let! settled := settled_file state existing in
  if settled : bool then ret tt else write_file state existing.
Definition applyRequiredFile (state : DesiredFile) : run unit :=
  let p := parts (df_Path state) in
  let! missing := inspectWorkspaceParents p false false false in
  let! kept := (if missing : bool then ret false else
    let! s := lstat p in
    match s with
    | SFound (NFile _ _ _) => ret true
    | SFail => stop "inspect required workspace file %q: %w"
    | _ => ret false
    end) in
  if kept : bool then ret tt else applyFile state.
Definition applyDeletion (p : key) : run unit :=
  let! missing := inspectWorkspaceParents p false false false in
  if missing : bool then ret tt else
  let! s := lstat p in
  match s with
  | SMissing => ret tt
  | SFail => stop "inspect workspace deletion %q: %w"
  | SFound _ =>
      do check_context "delete workspace file %q: %w";
      do removeWorkspaceEntry p;
      verifyAndRecordWorkspaceDeletion p
  end.

(** Whether the regular file at [p] is as the move wants it. *)
Definition matching_file (e : string) (p : key) (move : DesiredFile) : run (option (bool * node)) :=
  let! missing := inspectWorkspaceParents p false false false in
  if missing : bool then ret None else
  let! s := lstat p in
  match s with
  | SFail => stop e
  | SFound (NFile i c mode) =>
      let! matches := openRegularFileContentMatch p (NFile i c mode) (content_of move) in
      ret (if (matches.2 && (mode == df_Mode move))%bool then Some (matches.1, NFile i c mode) else None)
  | _ => ret None
  end.
Definition reconcileMoveDestination (move : DesiredFile) : run bool :=
  let p := parts (df_Path move) in
  let! found := matching_file "inspect workspace move destination %q: %w" p move in
  match found with
  | None => ret false
  | Some before => do verify_file before.1 p before.2 (df_Mode move); ret true
  end.
Definition applyRenameFromMatchingSource (move : DesiredFile) : run bool :=
  let from := parts (df_MoveFrom move) in
  let to := parts (df_Path move) in
  let! found := matching_file "inspect workspace move source %q: %w" from move in
  match found with
  | None => ret false
  | Some before =>
      let! _missing := inspectWorkspaceParents to true true true in
      let! s := lstat to in
      do (match s with
          | SFound NDir => removeWorkspaceEntry to
          | SFail => stop "inspect workspace move destination %q: %w"
          | _ => ret tt
          end);
      do check_context "move workspace file %q to %q: %w";
      let! renamed := rename false from to in
      do stop_when (bool_decide (renamed <> Done)) "move workspace file %q to %q: %w";
      do verify_file before.1 to before.2 (df_Mode move);
      do verifyWorkspacePathAbsent from;
      do record_change (mkChange (df_Path move) ChangeMove (df_MoveFrom move));
      ret true
  end.
Definition apply_move (targets : list text) (move : DesiredFile) : run unit :=
  do check_context "apply workspace move: %w";
  let! settled := reconcileMoveDestination move in
  if settled : bool then ret tt else
  let! moved := (if bool_decide (df_MoveFrom move ∈ targets) then ret false else applyRenameFromMatchingSource move) in
  if moved : bool then ret tt else applyFile move.
Definition applyMoves (moves : list DesiredFile) : run unit :=
  let targets := df_Path <$> moves in
  do each (apply_move targets) moves;
  each (fun move => if bool_decide (df_MoveFrom move ∈ targets) then ret tt else applyDeletion (parts (df_MoveFrom move))) moves.
Definition apply_state (state : DesiredFile) : run unit :=
  if df_MoveFrom state != [] then ret tt else
  do check_context "apply workspace reconciliation: %w";
  if df_Present state then
    if df_PreserveExisting state then applyRequiredFile state else applyFile state
  else applyDeletion (parts (df_Path state)).
Definition applyReconciliation (desired : list DesiredFile) : run unit :=
  do applyMoves (filter (fun d => df_MoveFrom d <> []) desired);
  each apply_state desired.
End faults.
