(* ===== verification/WorkspaceFacts.v ===== *)
(** * Facts about the workspace

    Well-formed file systems, what each call into the operating system does to them,
    and the footprint of the operations of [Workspace.v]. *)
From Stdlib Require Import Ascii.
From S2P Require Import Prelude Schema SchemaFacts PathIdentity PathFacts UserIntent UserIntentFacts Workspace.
From stdpp Require Import sorting base tactics strings list gmap numbers pretty.
From stdpp Require Import list options.
Open Scope nat_scope.
Open Scope go_scope.

(** ** Well-formed file systems: every entry lies in directories *)

Definition strict_prefix (d p : key) : Prop := d `prefix_of` p /\ d <> p.
Definition wf (fs : fs_t) : Prop :=
  forall p n, fs !! p = Some n -> p <> [] /\ forall d, d <> [] -> strict_prefix d p -> fs !! d = Some NDir.
Definition directory (fs : fs_t) (p : key) : Prop := p = [] \/ fs !! p = Some NDir.

Lemma strict_snoc d p x : strict_prefix d (p ++ [x]) <-> d `prefix_of` p.
Proof.
  split.
  - intros [[k E] Hne]. destruct k as [|y k _] using rev_ind; [rewrite app_nil_r in E; congruence|].
    rewrite app_assoc in E. apply app_inj_tail in E as [-> _]. by exists k.
  - intros [k ->]. split; [exists (k ++ [x]); by rewrite app_assoc|].
    intros E. apply (f_equal length) in E. rewrite !length_app in E. simpl in E. lia.
Qed.
Lemma parent_snoc p x : parent (p ++ [x]) = p.
Proof. apply removelast_last. Qed.
Lemma key_cases (p : key) : p = [] \/ exists q x, p = q ++ [x].
Proof. destruct p as [|x q _] using rev_ind; [by left|right; eauto]. Qed.

Lemma resolve_cons fs pre x y rest : resolve fs pre (x :: y :: rest) =
  match fs !! (pre ++ [x]) with
  | Some NDir => resolve fs (pre ++ [x]) (y :: rest)
  | Some _ => SFail
  | None => SMissing
  end.
Proof. done. Qed.
Lemma resolve_found fs rest : forall pre n, rest <> [] -> resolve fs pre rest = SFound n <->
  fs !! (pre ++ rest) = Some n /\ forall d, d <> [] -> strict_prefix d rest -> fs !! (pre ++ d) = Some NDir.
Proof.
  induction rest as [|x rest IH]; intros pre n Hne; [done|]. destruct rest as [|y rest].
  - simpl. split.
    + intros H. split; [by destruct (fs !! _); simplify_eq|]. intros d Hd Hs.
      apply (strict_snoc d [] x) in Hs. by apply prefix_nil_inv in Hs.
    + by intros [-> _].
  - rewrite resolve_cons. destruct (fs !! (pre ++ [x])) as [[|i c mo|i]|] eqn:E.
    + rewrite IH by done. rewrite <-!app_assoc. simpl. split; intros [H1 H2]; (split; [done|]).
      * intros d Hd Hs. destruct d as [|z d]; [done|]. destruct Hs as [[k Hk] Hne']. injection Hk as <- Hk.
        destruct d as [|z' d]; [done|]. specialize (H2 (z' :: d)). rewrite <-app_assoc in H2. apply H2; [done|].
        split; [by exists k|congruence].
      * intros d Hd [[k Hk] Hne']. rewrite <-app_assoc. apply (H2 (x :: d)); [done|]. split; [exists k; simpl; by rewrite Hk|congruence].
    + split; [done|]. intros [_ H2]. specialize (H2 [x]). rewrite E in H2. discriminate H2; [done|].
      split; [by exists (y :: rest)|done].
    + split; [done|]. intros [_ H2]. specialize (H2 [x]). rewrite E in H2. discriminate H2; [done|].
      split; [by exists (y :: rest)|done].
    + split; [done|]. intros [_ H2]. specialize (H2 [x]). rewrite E in H2. discriminate H2; [done|].
      split; [by exists (y :: rest)|done].
Qed.
Lemma resolve_lookup fs p n : p <> [] -> resolve fs [] p = SFound n -> fs !! p = Some n.
Proof. intros Hp H. by apply resolve_found in H as [H _]. Qed.
Lemma lookup_resolve fs p n : wf fs -> fs !! p = Some n -> resolve fs [] p = SFound n.
Proof. intros Hwf H. destruct (Hwf p n H) as [Hne Hd]. by apply resolve_found. Qed.
Lemma resolve_missing fs p : wf fs -> resolve fs [] p = SMissing -> fs !! p = None.
Proof. intros Hwf H. destruct (fs !! p) eqn:E; [|done]. apply lookup_resolve in E; [congruence|done]. Qed.
Lemma is_dir_spec fs p : is_dir fs p = true -> directory fs p.
Proof.
  unfold is_dir, directory. intros H. destruct p as [|x p]; [by left|right].
  destruct (resolve fs [] (x :: p)) as [[]| |] eqn:E; try done. by apply resolve_lookup in E.
Qed.
Lemma directory_is_dir fs p : wf fs -> directory fs p -> is_dir fs p = true.
Proof. unfold is_dir. intros Hwf [->|H]; [done|]. by rewrite (lookup_resolve fs p NDir). Qed.
Lemma directory_missing fs p : wf fs -> p <> [] -> directory fs (parent p) -> fs !! p = None -> resolve fs [] p = SMissing.
Proof.
  intros Hwf Hne Hdir Hnone. destruct (key_cases p) as [->|(q & x & ->)]; [done|]. rewrite parent_snoc in Hdir.
  assert (forall pre q, wf fs -> directory fs (pre ++ q) -> fs !! (pre ++ q ++ [x]) = None -> resolve fs pre (q ++ [x]) = SMissing) as H.
  { clear. intros pre q Hwf. revert pre. induction q as [|y q IH]; intros pre Hdir Hnone; simpl in *; [by rewrite Hnone|].
    destruct (q ++ [x]) as [|z r] eqn:Eq; [by destruct q|].
    destruct Hdir as [E|Hd]; [by destruct pre|].
    assert (fs !! (pre ++ [y]) = Some NDir) as ->.
    { destruct q as [|y' q]; [exact Hd|]. destruct (Hwf _ _ Hd) as [_ Hp]. apply Hp; [by destruct pre|].
      split; [exists (y' :: q); by rewrite <-app_assoc|]. intros E. apply (f_equal length) in E. rewrite !length_app in E. simpl in E. lia. }
    apply IH; [|by rewrite <-app_assoc]. right. by rewrite <-app_assoc. }
  by apply (H [] q).
Qed.

Lemma wf_insert fs p n : wf fs -> p <> [] -> directory fs (parent p) -> (fs !! p = Some NDir -> n = NDir) -> wf (<[p := n]> fs).
Proof.
  intros Hwf Hne Hdir Hkeep q m Hq. destruct (key_cases p) as [->|(r & x & ->)]; [done|]. rewrite parent_snoc in Hdir.
  assert (forall d, d <> [] -> d `prefix_of` r -> fs !! d = Some NDir) as Hup.
  { intros d Hd Hpre. destruct Hdir as [->|Hdir]; [by apply prefix_nil_inv in Hpre|].
    destruct (decide (d = r)) as [->|Hdr]; [done|]. by apply (Hwf r NDir Hdir). }
  destruct (decide (q = r ++ [x])) as [->|Hqp].
  - split; [by destruct r|]. intros d Hd Hs. apply strict_snoc in Hs as Hs'.
    rewrite lookup_insert_ne; [by apply Hup|]. intros <-. by destruct Hs.
  - rewrite lookup_insert_ne in Hq by done. destruct (Hwf q m Hq) as [Hq0 Hqd]. split; [done|]. intros d Hd Hs.
    destruct (decide (r ++ [x] = d)) as [<-|Hdp]; [|rewrite lookup_insert_ne by done; by apply Hqd].
    rewrite lookup_insert_eq. f_equal. apply Hkeep. by apply Hqd.
Qed.
Lemma wf_delete fs p : wf fs -> (forall q, strict_prefix p q -> fs !! q = None) -> wf (delete p fs).
Proof.
  intros Hwf Hempty q n Hq. apply lookup_delete_Some in Hq as [Hne Hq]. destruct (Hwf q n Hq) as [Hq0 Hqd]. split; [done|].
  intros d Hd Hs. rewrite lookup_delete_ne; [by apply Hqd|]. intros <-. rewrite (Hempty q Hs) in Hq. done.
Qed.
Lemma wf_empty_below fs p n q : wf fs -> fs !! p = Some n -> n <> NDir -> strict_prefix p q -> fs !! q = None.
Proof.
  intros Hwf Hp Hn Hs. destruct (fs !! q) eqn:E; [|done]. destruct (Hwf p n Hp) as [Hp0 _].
  destruct (Hwf q _ E) as [_ Hd]. specialize (Hd p Hp0 Hs). congruence.
Qed.
Lemma children_spec fs p q : q ∈ children fs p <-> q <> [] /\ parent q = p /\ is_Some (fs !! q).
Proof.
  unfold children. rewrite list_elem_of_filter. rewrite list_elem_of_fmap. split.
  - intros [[H1 H2] ([q' n] & -> & H3%elem_of_map_to_list)]. simpl in *. eauto.
  - intros (H1 & H2 & [n H3]). split; [done|]. exists (q, n). split; [done|]. by apply elem_of_map_to_list.
Qed.
Lemma no_children fs p q : wf fs -> p <> [] -> children fs p = [] -> strict_prefix p q -> fs !! q = None.
Proof.
  intros Hwf Hp Hc [[k ->] Hne]. destruct k as [|x k]; [by rewrite app_nil_r in Hne|].
  destruct (fs !! (p ++ x :: k)) as [n|] eqn:E; [|done]. exfalso.
  assert (is_Some (fs !! (p ++ [x]))) as Hx.
  { destruct k as [|y k]; [by rewrite E|]. destruct (Hwf _ _ E) as [_ Hd].
    rewrite (Hd (p ++ [x])); [done|by destruct p|]. split; [exists (y :: k); by rewrite <-app_assoc|].
    intros E'. apply (f_equal length) in E'. rewrite !length_app in E'. simpl in E'. lia. }
  assert (p ++ [x] ∈ children fs p) as Hin by (apply children_spec; rewrite parent_snoc; by destruct p).
  rewrite Hc in Hin. by apply not_elem_of_nil in Hin.
Qed.

(** ** Frames

    [change ws ds]: what writing at [ws] and deleting at [ds] may do to a path. *)

Definition change (ws ds : list key) (fs fs' : fs_t) (q : key) : Prop :=
  (exists p, p ∈ ws /\ strict_prefix q p /\ fs !! q <> Some NDir /\ (fs' !! q = None \/ fs' !! q = Some NDir)) \/
  (exists p, p ∈ ws ++ ds /\ p `prefix_of` q /\ (fs' !! q = None \/ exists w, w ∈ ws /\ q `prefix_of` w)).
Definition temporary (ws : list key) (q : key) : Prop :=
  exists p x, p ∈ ws /\ q = parent p ++ [temporary_prefix ++ x].
Definition framed_at {A} (ws ds : list key) (c : run A) (m : machine) : Prop :=
  forall r m', wf (m_fs m) -> c m = (r, m') ->
    wf (m_fs m') /\ forall q, m_fs m' !! q = m_fs m !! q \/ change ws ds (m_fs m) (m_fs m') q \/
      ((exists e, r = Err e) /\ temporary ws q).
Definition framed {A} (ws ds : list key) (c : run A) : Prop := forall m, framed_at ws ds c m.
Definition quiet {A} (c : run A) : Prop := forall m r m', c m = (r, m') -> m_fs m' = m_fs m.

Lemma strict_prefix_neq d p : strict_prefix d p -> d <> p.
Proof. by intros []. Qed.
Lemma strict_prefix_of d p : strict_prefix d p -> d `prefix_of` p.
Proof. by intros []. Qed.

Lemma change_trans ws ds fs fs1 fs2 q :
  (fs1 !! q = fs !! q \/ change ws ds fs fs1 q) -> (fs2 !! q = fs1 !! q \/ change ws ds fs1 fs2 q) ->
  fs2 !! q = fs !! q \/ change ws ds fs fs2 q.
Proof.
  intros [E1|H1] [E2|H2].
  - left. by rewrite E2.
  - right. destruct H2 as [(p & Hp & Hs & Hn & Hq)|H2]; [left|by right]. rewrite E1 in Hn. eauto 10.
  - right. destruct H1 as [(p & Hp & Hs & Hn & Hq)|(p & Hp & Hpre & Hq)]; [left|right]; rewrite <-E2 in Hq; eauto 10.
  - right. destruct H2 as [(p & Hp & Hs & Hn & Hq)|H2]; [|by right].
    destruct H1 as [(p' & Hp' & Hs' & Hn' & _)|(p' & Hp' & Hpre & _)]; [left; eauto 10|right].
    exists p'. split_and!; try done. right. exists p. split; [done|by apply strict_prefix_of].
Qed.
Lemma change_mono ws ds ws' ds' fs fs' q : ws ⊆ ws' -> ds ⊆ ds' -> change ws ds fs fs' q -> change ws' ds' fs fs' q.
Proof.
  intros Hw Hd [(p & Hp & Hs)|(p & Hp & Hpre & Hq)].
  - left. exists p. split; [by apply Hw|done].
  - right. exists p. split_and!; [|done|].
    + apply elem_of_app. apply elem_of_app in Hp as [Hp|Hp]; [left; by apply Hw|right; by apply Hd].
    + destruct Hq as [Hq|(w & Hin & Hq)]; [by left|right]. exists w. split; [by apply Hw|done].
Qed.

(** What survives a run: the paths that are comparable with none of the written or
    deleted ones. *)
Definition comparable (p q : key) : Prop := p `prefix_of` q \/ q `prefix_of` p.
Lemma change_comparable ws ds fs fs' q : change ws ds fs fs' q -> exists p, p ∈ ws ++ ds /\ comparable p q.
Proof.
  intros [(p & Hp & [Hs _] & _)|(p & Hp & Hpre & _)].
  - exists p. split; [apply elem_of_app; by left|by right].
  - exists p. split; [done|by left].
Qed.

Section logic.
Context {A B : Type}.
Implicit Types (c : run A) (k : A -> run B) (m : machine).
Lemma bind_inv c k m (r : result B) m' : bind c k m = (r, m') ->
  (exists a m1, c m = (Ok a, m1) /\ k a m1 = (r, m')) \/ (exists e, c m = (Err e, m') /\ r = Err e).
Proof. unfold bind. destruct (c m) as [[a|e] m1] eqn:E; intros H; [left; eauto|right]. simplify_eq. eauto. Qed.
Lemma bind_ok_inv c k m (b : B) m' : bind c k m = (Ok b, m') -> exists a m1, c m = (Ok a, m1) /\ k a m1 = (Ok b, m').
Proof. intros [H|(e & _ & H)]%bind_inv; [done|discriminate]. Qed.
Lemma quiet_bind c k : quiet c -> (forall a, quiet (k a)) -> quiet (bind c k).
Proof.
  intros H1 H2 m r m' [(a & m1 & E1 & E2)|(e & E1 & _)]%bind_inv; [|by eapply H1].
  rewrite (H2 a m1 r m' E2). by eapply H1.
Qed.
Lemma quiet_framed ws ds c : quiet c -> framed ws ds c.
Proof. intros H m r m' Hwf E. rewrite (H m r m' E). split; [done|]. by left. Qed.
Lemma framed_at_bind ws ds c k m : framed_at ws ds c m ->
  (forall a m1, wf (m_fs m1) -> c m = (Ok a, m1) -> framed_at ws ds (k a) m1) -> framed_at ws ds (bind c k) m.
Proof.
  intros H1 H2 r m' Hwf [(a & m1 & E1 & E2)|(e & E1 & ->)]%bind_inv.
  - destruct (H1 _ m1 Hwf E1) as [Hwf1 F1]. destruct (H2 a m1 Hwf1 E1 r m' Hwf1 E2) as [Hwf2 F2]. split; [done|]. intros q.
    destruct (F2 q) as [F|[F|F]]; [| |by right; right];
      (destruct (F1 q) as [F'|[F'|[[? ?] _]]]; [| |discriminate]);
      destruct (change_trans ws ds (m_fs m) (m_fs m1) (m_fs m') q); auto.
  - destruct (H1 _ m' Hwf E1) as [Hwf1 F1]. split; [done|]. intros q.
    destruct (F1 q) as [F|[F|[_ F]]]; eauto.
Qed.
Lemma framed_bind ws ds c k : framed ws ds c -> (forall a, framed ws ds (k a)) -> framed ws ds (bind c k).
Proof. intros H1 H2 m. apply framed_at_bind; [apply H1|]. intros a m1 _ _. apply H2. Qed.
Lemma framed_mono ws ds ws' ds' c : ws ⊆ ws' -> ds ⊆ ds' -> framed ws ds c -> framed ws' ds' c.
Proof.
  intros Hw Hd H m r m' Hwf E. destruct (H m r m' Hwf E) as [Hwf' F]. split; [done|]. intros q.
  destruct (F q) as [F'|[F'|[Hr (p & x & Hp & Hq)]]]; [by left|right; left; by eapply change_mono|right; right].
  split; [done|]. exists p, x. split; [by apply Hw|done].
Qed.
End logic.
Lemma framed_each {A} ws ds (f : A -> run unit) l : (forall x, x ∈ l -> framed ws ds (f x)) -> framed ws ds (each f l).
Proof.
  induction l as [|x l IH]; intros H; simpl; [apply quiet_framed; unfold quiet, ret; congruence|].
  apply framed_bind; [apply H; by left|]. intros _. apply IH. intros y Hy. apply H. by right.
Qed.

(** ** The calls *)

(** What is left in [H] is a successful run. *)
Ltac run_ok H :=
  let a := fresh "a" in let m := fresh "m" in let E := fresh "E" in
  apply bind_ok_inv in H as (a & m & E & H).

Tactic Notation "run_as" hyp(H) "as" ident(a) ident(m) ident(E) := apply bind_ok_inv in H as (a & m & E & H).

Lemma quiet_ret {A} (a : A) : quiet (ret a).
Proof. unfold quiet, ret. congruence. Qed.
Lemma quiet_stop {A} e : quiet (@stop A e).
Proof. unfold quiet, stop. congruence. Qed.
Lemma quiet_stop_when b e : quiet (stop_when b e).
Proof. destruct b; [apply quiet_stop|apply quiet_ret]. Qed.
Lemma quiet_record c : quiet (record_change c).
Proof. unfold quiet, record_change. intros. by simplify_eq. Qed.
Lemma stop_when_ok b e m u m' : stop_when b e m = (Ok u, m') -> b = false /\ m' = m.
Proof. destruct b; [done|]. unfold stop_when, ret. intros. by simplify_eq. Qed.

Section calls.
Set Default Proof Using "Type".
Context (fault : nat -> bool).
Lemma quiet_syscall {A} (f : machine -> A) : quiet (syscall fault (fun m => (f m, m))).
Proof. intros m r m'. unfold syscall. destruct (fault _); intros; by simplify_eq. Qed.
(** A call either fails and changes nothing, or does its work. *)
Lemma syscall_inv {A B} (f : machine -> A * machine) (g : option A -> B) m r m' :
  (let! a := syscall fault f in ret (g a)) m = (r, m') ->
  (r = Ok (g None) /\ m_fs m' = m_fs m) \/
  (exists m1 a, m_fs m1 = m_fs m /\ m_inode m1 = m_inode m /\ f m1 = (a, m') /\ r = Ok (g (Some a))).
Proof.
  unfold bind, syscall. destruct (fault _); unfold ret; [intros; simplify_eq; by left|].
  set (m1 := Machine _ _ _ _). destruct (f m1) as [a m2] eqn:E. intros. simplify_eq. right. by exists m1, a.
Qed.
Lemma quiet_call e : quiet (call fault e).
Proof. apply quiet_bind; [apply (quiet_syscall (fun _ => tt))|]. intros []; [apply quiet_ret|apply quiet_stop]. Qed.
Lemma lstat_inv p m r m' : lstat fault p m = (r, m') ->
  m_fs m' = m_fs m /\ exists s, r = Ok s /\ (s = SFail \/ s = resolve (m_fs m) [] p).
Proof.
  intros [[-> E]|(m1 & a & E & _ & Ef & ->)]%syscall_inv; simplify_eq; simpl; [eauto|].
  split; [done|]. eexists. split; [done|]. right. by rewrite E.
Qed.
Lemma quiet_lstat p : quiet (lstat fault p).
Proof. intros m r m' H. by apply lstat_inv in H as [H _]. Qed.
Lemma read_content_inv p m r m' : read_content fault p m = (r, m') ->
  m_fs m' = m_fs m /\ exists c, r = Ok c /\ forall t, c = Some t -> exists i mo, m_fs m !! p = Some (NFile i t mo).
Proof.
  intros [[-> E]|(m1 & a & E & _ & Ef & ->)]%syscall_inv; simplify_eq; simpl.
  - split; [done|]. eexists. by split.
  - split; [done|]. rewrite <-E. eexists. split; [done|]. intros t Ht.
    destruct (m_fs m' !! p) as [[]|] eqn:El; simplify_eq. eauto.
Qed.
Lemma read_names_inv p m r m' : read_names fault p m = (r, m') ->
  m_fs m' = m_fs m /\ exists l, r = Ok l /\ (l = None \/ l = Some (children (m_fs m) p)).
Proof. unfold read_names, syscall. destruct (fault _); intros; simplify_eq; simpl; eauto. Qed.

Lemma found_directory fs p n : wf fs -> p <> [] -> resolve fs [] p = SFound n -> directory fs (parent p).
Proof.
  intros Hwf Hp H%resolve_lookup; [|done]. destruct (key_cases p) as [->|(q & x & ->)]; [done|]. rewrite parent_snoc.
  destruct (decide (q = [])) as [->|Hq]; [by left|right]. destruct (Hwf _ _ H) as [_ Hd]. apply Hd; [done|].
  by apply strict_snoc.
Qed.
Lemma missing_nonempty fs p : resolve fs [] p = SMissing -> p <> [].
Proof. by intros H ->. Qed.
Lemma mkdir_inv p m r m' : wf (m_fs m) -> mkdir fault p m = (r, m') ->
  exists o, r = Ok o /\ ((o <> Done /\ m_fs m' = m_fs m) \/
    (o = Done /\ p <> [] /\ m_fs m !! p = None /\ directory (m_fs m) (parent p) /\ m_fs m' = <[p := NDir]> (m_fs m))).
Proof.
  intros Hwf [[-> E]|(m1 & a & E & _ & Ef & ->)]%syscall_inv; simpl; [eauto 10|]. eexists. split; [done|].
  rewrite E in Ef. destruct (resolve (m_fs m) [] p) eqn:Er; [simplify_eq; by left| |simplify_eq; by left].
  destruct (is_dir (m_fs m) (parent p)) eqn:Ed; simplify_eq; [right|by left].
  split_and!; [done|by eapply missing_nonempty|by apply resolve_missing|by apply is_dir_spec|done].
Qed.
Lemma create_inv p m r m' : wf (m_fs m) -> create_exclusive fault p m = (r, m') ->
  exists o, r = Ok o /\ ((o <> Done /\ m_fs m' = m_fs m) \/
    (o = Done /\ p <> [] /\ m_fs m !! p = None /\ directory (m_fs m) (parent p) /\
     exists i, m_fs m' = <[p := NFile i [] 384]> (m_fs m))).
Proof.
  intros Hwf [[-> E]|(m1 & a & E & _ & Ef & ->)]%syscall_inv; simpl; [eauto 10|]. eexists. split; [done|].
  rewrite E in Ef. destruct (resolve (m_fs m) [] p) eqn:Er; [simplify_eq; by left| |simplify_eq; by left].
  destruct (is_dir (m_fs m) (parent p)) eqn:Ed; simplify_eq; [right|by left].
  split_and!; [done|by eapply missing_nonempty|by apply resolve_missing|by apply is_dir_spec|eauto].
Qed.
Lemma remove_inv p m r m' : wf (m_fs m) -> remove_path fault p m = (r, m') ->
  exists o, r = Ok o /\ ((o <> Done /\ m_fs m' = m_fs m) \/
    (o = Done /\ p <> [] /\ is_Some (m_fs m !! p) /\ (forall q, strict_prefix p q -> m_fs m !! q = None) /\
     m_fs m' = delete p (m_fs m))).
Proof.
  intros Hwf [[-> E]|(m1 & a & E & _ & Ef & ->)]%syscall_inv; simpl; [eauto 10|]. eexists. split; [done|].
  rewrite E in Ef. destruct (resolve (m_fs m) [] p) as [[|i c mo|i]| |] eqn:Er; [|..]; try (simplify_eq; by left).
  - case_bool_decide as Hc; simplify_eq; [by left|right]. apply Decidable.not_or in Hc as [Hp Hc].
    split_and!; [done|done|by rewrite (resolve_lookup _ _ _ Hp Er)| |done].
    intros q Hq. eapply no_children; [done..| |done]. by destruct (children _ _) eqn:?; [|destruct Hc].
  - assert (p <> []) as Hp by (intros ->; simplify_eq). apply resolve_lookup in Er; [|done]. simplify_eq. right.
    split_and!; [done|done|by rewrite Er| |done]. intros q Hq. by eapply wf_empty_below.
  - assert (p <> []) as Hp by (intros ->; simplify_eq). apply resolve_lookup in Er; [|done]. simplify_eq. right.
    split_and!; [done|done|by rewrite Er| |done]. intros q Hq. by eapply wf_empty_below.
Qed.
Lemma rename_inv nr from to m r m' : wf (m_fs m) -> rename fault nr from to m = (r, m') ->
  exists o, r = Ok o /\ ((o <> Done /\ m_fs m' = m_fs m) \/
    (o = Done /\ exists i c mo, from <> [] /\ to <> [] /\ m_fs m !! from = Some (NFile i c mo) /\
     directory (m_fs m) (parent to) /\ m_fs m !! to <> Some NDir /\ (nr = true -> m_fs m !! to = None) /\
     m_fs m' = <[to := NFile i c mo]> (delete from (m_fs m)))).
Proof.
  intros Hwf [[-> E]|(m1 & a & E & _ & Ef & ->)]%syscall_inv; simpl; [eauto 10|]. eexists. split; [done|].
  rewrite E in Ef. destruct (resolve (m_fs m) [] from) as [[|i c mo|i]| |] eqn:Er; try (simplify_eq; by left).
  assert (from <> []) as Hf by (intros ->; simplify_eq). apply resolve_lookup in Er; [|done].
  destruct (resolve (m_fs m) [] to) as [n| |] eqn:Et; [| |simplify_eq; by left].
  - destruct (nr || bool_decide (n = NDir))%bool eqn:Eb; simplify_eq; [by left|].
    apply orb_false_elim in Eb as [-> Hn%bool_decide_eq_false]. right. split; [done|]. exists i, c, mo.
    assert (to <> []) as Ht by (intros ->; injection Et as <-; by apply Hn).
    split_and!; try done; [by eapply found_directory|]. rewrite (resolve_lookup _ _ _ Ht Et). congruence.
  - destruct (is_dir (m_fs m) (parent to)) eqn:Ed; simplify_eq; [right|by left]. split; [done|]. exists i, c, mo.
    apply missing_nonempty in Et as Ht. apply resolve_missing in Et; [|done].
    split_and!; [done|done|done|by apply is_dir_spec|by rewrite Et|done|done].
Qed.
Lemma update_inv p f m r m' : update_file fault p f m = (r, m') ->
  exists o, r = Ok o /\ ((o <> Done /\ m_fs m' = m_fs m) \/
    (o = Done /\ exists i c mo, m_fs m !! p = Some (NFile i c mo) /\
     m_fs m' = <[p := NFile i (f c mo).1 (f c mo).2]> (m_fs m))).
Proof.
  intros [[-> E]|(m1 & a & E & _ & Ef & ->)]%syscall_inv; simpl; [eauto 10|]. eexists. split; [done|].
  rewrite E in Ef. destruct (m_fs m !! p) as [[|i c mo|i]|] eqn:El; try (simplify_eq; by left).
  destruct (f c mo) as [c' mo'] eqn:Efc. simplify_eq. right. split; [done|]. exists i, c, mo. split; [done|].
  by rewrite Efc.
Qed.
End calls.
#[export] Hint Resolve quiet_ret quiet_stop quiet_stop_when quiet_record quiet_call quiet_lstat quiet_syscall : quiet.
(** A run that only reads. *)
Ltac quiet_run :=
  repeat match goal with
  | |- quiet (let '(_, _) := ?x in _) => destruct x
  | |- quiet (match ?x with _ => _ end) => destruct x
  | |- quiet (bind _ _) => apply quiet_bind; [|intros ?]
  | |- quiet (syscall _ _) => apply quiet_syscall
  | |- quiet _ => solve [eauto with quiet]
  end.
