(* ===== verification/WorkspaceFrame.v ===== *)
(** * What reconciliation may touch and what it leaves

    Every operation of [Workspace.v], whatever fails, keeps the file system well
    formed and stays within the paths it was asked to write or delete, their missing
    or replaced parents, and temporary files left behind by a failure.
    Then the result of each operation when it succeeds, and how the operations of a
    list of desired files compose. *)
From Stdlib Require Import Ascii.
From S2P Require Import Prelude Schema PathIdentity UserIntent UserIntentFacts Workspace WorkspaceFacts.
From stdpp Require Import sorting base tactics strings list gmap numbers pretty.
From stdpp Require Import list options.
Open Scope nat_scope.
Open Scope go_scope.

Lemma parent_prefix p : parent p `prefix_of` p.
Proof. destruct (key_cases p) as [->|(q & x & ->)]; [done|]. rewrite parent_snoc. by apply prefix_app_r. Qed.
Lemma prefix_strict d p : d `prefix_of` p -> d <> p -> strict_prefix d p.
Proof. by split. Qed.
Lemma strict_nil p : ~ strict_prefix p [].
Proof. intros [H Hn]. by apply prefix_nil_inv in H. Qed.
Lemma strict_length d p : strict_prefix d p -> length d < length p.
Proof.
  intros [[k ->] Hn]. rewrite length_app. destruct k; [by rewrite app_nil_r in Hn|]. simpl. lia.
Qed.

(** ** Effects that stay in the frame *)

Lemma insert_frame ws ds fs p n :
  (p ∈ ws \/ (exists w, w ∈ ws /\ strict_prefix p w /\ fs !! p <> Some NDir /\ n = NDir)) ->
  forall q, <[p := n]> fs !! q = fs !! q \/ change ws ds fs (<[p := n]> fs) q.
Proof.
  intros Hp q. destruct (decide (p = q)) as [<-|Hne]; [right|left; by rewrite lookup_insert_ne].
  destruct Hp as [Hp|(w & Hw & Hs & Hn & ->)]; [right|left; exists w; rewrite lookup_insert_eq; auto]. exists p. split; [apply elem_of_app; by left|]. split; [done|]. right. by exists p.
Qed.
Lemma delete_frame ws ds fs p : (exists w, w ∈ ws ++ ds /\ w `prefix_of` p) ->
  forall q, delete p fs !! q = fs !! q \/ change ws ds fs (delete p fs) q.
Proof.
  intros (w & Hw & Hpre) q. destruct (decide (p = q)) as [<-|Hne]; [right|left; by rewrite lookup_delete_ne].
  right. exists w. split_and!; [done..|]. left. apply lookup_delete_eq.
Qed.

Section frames.
Set Default Proof Using "Type".
Context (fault : nat -> bool) (entropy : nat -> text).

Lemma framed_mkdir ws ds p w m : w ∈ ws -> strict_prefix p w -> framed_at ws ds (mkdir fault p) m.
Proof.
  intros Hw Hs r m' Hwf (o & -> & [[_ E]|(-> & Hp & Hnone & Hdir & E)])%mkdir_inv; [rewrite E..|done].
  - split; [done|]. by left.
  - split; [apply wf_insert; [done..|by rewrite Hnone]|]. intros q.
    destruct (insert_frame ws ds (m_fs m) p NDir) with (q := q); auto. right. exists w. by rewrite Hnone.
Qed.
Lemma framed_remove ws ds p w : w ∈ ws ++ ds -> w `prefix_of` p -> framed ws ds (remove_path fault p).
Proof.
  intros Hw Hpre m r m' Hwf (o & -> & [[_ E]|(-> & Hp & _ & Hbelow & E)])%remove_inv; [rewrite E..|done].
  - split; [done|]. by left.
  - split; [by apply wf_delete|]. intros q. destruct (delete_frame ws ds (m_fs m) p) with (q := q); eauto.
Qed.
(** A parent that is not a directory. *)
Lemma framed_remove_parent ws ds p w n m : w ∈ ws -> strict_prefix p w -> m_fs m !! p = Some n -> n <> NDir ->
  framed_at ws ds (remove_path fault p) m.
Proof.
  intros Hw Hs Hn Hnd r m' Hwf (o & -> & [[_ E]|(-> & Hp & _ & Hbelow & E)])%remove_inv; [rewrite E..|done].
  - split; [done|]. by left.
  - split; [by apply wf_delete|]. intros q. destruct (decide (p = q)) as [<-|Hne]; [|left; by rewrite lookup_delete_ne].
    right; left; left. exists w. split_and!; [done..| |left; apply lookup_delete_eq]. congruence.
Qed.
Lemma framed_rename ws ds nr from to : to ∈ ws -> from ∈ ws ++ ds -> framed ws ds (rename fault nr from to).
Proof.
  intros Hto Hfrom m r m' Hwf (o & -> & [[_ E]|(-> & i & c & mo & Hf & Ht & Hfile & Hdir & Hnd & _ & E)])%rename_inv;
    [rewrite E..|done].
  - split; [done|]. by left.
  - assert (wf (delete from (m_fs m))) as Hwf1.
    { apply wf_delete; [done|]. intros q Hq. by eapply wf_empty_below. }
    split.
    + apply wf_insert; [done..| |].
      * destruct Hdir as [Hdir|Hdir]; [by left|right]. rewrite lookup_delete_ne; [done|]. congruence.
      * intros [_ H]%lookup_delete_Some. done.
    + intros q. destruct (change_trans ws ds (m_fs m) (delete from (m_fs m)) (<[to := NFile i c mo]> (delete from (m_fs m))) q);
        [apply delete_frame; by exists from|apply insert_frame; by left|auto..].
Qed.

Lemma quiet_open_match p before content : quiet (openRegularFileContentMatch fault p before content).
Proof.
  unfold openRegularFileContentMatch, check_context. quiet_run.
  all: intros m r m' H; by apply read_content_inv in H as [H _].
Qed.
Lemma quiet_verify_file opened p before mode : quiet (verify_file fault opened p before mode).
Proof. destruct opened; unfold verify_file, verifyOpenFileExact, verifyPathFileExact, check_context; quiet_run. Qed.
Lemma quiet_verify_absent p : quiet (verifyWorkspacePathAbsent fault p).
Proof. unfold verifyWorkspacePathAbsent. quiet_run. Qed.
Lemma quiet_verify_deletion p : quiet (verifyAndRecordWorkspaceDeletion fault p).
Proof. apply quiet_bind; [apply quiet_verify_absent|]. eauto with quiet. Qed.
#[local] Hint Resolve quiet_open_match quiet_verify_file quiet_verify_absent quiet_verify_deletion : quiet.

Ltac frame_run :=
  repeat match goal with
  | |- framed_at _ _ (let! _ := _ in _) _ => apply framed_at_bind; [|intros]
  | |- framed_at _ _ (match ?x with _ => _ end) _ => destruct x eqn:?
  | |- framed_at ?ws ?ds ?c ?m => solve [apply (quiet_framed ws ds c); unfold check_context; quiet_run]
  end.

(** Looking at one parent: what is found is there, and a walk that creates nothing ends
    at the first missing one. *)
Definition look_parent (create : bool) (p : key) : run (option stat) :=
  let! s := lstat fault p in
  match s with
  | SMissing =>
      if create then
        do check_context fault "create workspace parent for %q: %w";
        let! made := mkdir fault p in
        do stop_when (bool_decide (made <> Done /\ made <> Exists_)) "create workspace parent for %q: %w";
        let! s := lstat fault p in ret (Some s)
      else ret None
  | s => ret (Some s)
  end.
Lemma inspect_parent_look create replace record p m :
  inspect_parent fault create replace record p m =
  (let! s := look_parent create p in
   match s with
   | None => ret (Some true)
   | Some (SMissing | SFail) => stop "inspect workspace parent for %q: %w"
   | Some (SFound NDir) => ret None
   | Some (SFound _) =>
      if negb create then ret (Some true) else
      do stop_when (negb replace) "create-only workspace path %q has an existing non-directory parent %q";
      do check_context fault "replace workspace parent for %q: %w";
      let! removed := remove_path fault p in
      do stop_when (bool_decide (removed <> Done)) "replace workspace parent for %q: %w";
      do (if record then verifyAndRecordWorkspaceDeletion fault p else ret tt);
      let! made := mkdir fault p in
      do stop_when (bool_decide (made <> Done)) "create workspace parent for %q: %w";
      ret None
   end) m.
Proof. unfold inspect_parent, look_parent, bind. by destruct (lstat fault p m) as [[s|e] m1]. Qed.
Lemma look_parent_inv create p m o m' : look_parent create p m = (Ok o, m') ->
  match o with
  | None => create = false /\ m_fs m' = m_fs m /\ resolve (m_fs m) [] p = SMissing
  | Some (SFound n) => resolve (m_fs m') [] p = SFound n /\ (create = false -> m_fs m' = m_fs m)
  | _ => True
  end.
Proof.
  intros H. run_ok H. apply lstat_inv in E as (Efs & s & Es & Hs). injection Es as ->.
  destruct s as [n| |]; [|destruct create|].
  - injection H as <- <-. destruct Hs as [?|Hs]; [done|]. by rewrite Efs, <-Hs.
  - do 4 run_ok H. injection H as <- <-. apply lstat_inv in E2 as (Efs2 & s & Es & Hs'). injection Es as ->.
    destruct s as [n| |]; [|done..]. destruct Hs' as [?|Hs']; [done|]. by rewrite Efs2, <-Hs'.
  - injection H as <- <-. destruct Hs as [?|Hs]; [done|]. by rewrite Efs.
  - by injection H as <- <-.
Qed.
Lemma framed_look_parent ws ds create p w : w ∈ ws -> strict_prefix p w -> framed ws ds (look_parent create p).
Proof. intros Hw Hs m. unfold look_parent. frame_run. by eapply framed_mkdir. Qed.
Lemma framed_inspect_parent ws ds create replace record p w m : w ∈ ws -> p <> [] -> strict_prefix p w ->
  framed_at ws ds (inspect_parent fault create replace record p) m.
Proof.
  intros Hw Hp Hs r m' Hwf. rewrite inspect_parent_look. revert r m' Hwf.
  apply framed_at_bind; [by eapply framed_look_parent|]. intros o m1 Hwf1 Ho%look_parent_inv.
  assert (forall n e m2 m3 a, o = Some (SFound n) -> n <> NDir -> stop_when (negb replace) e m1 = (Ok (a : unit), m2) ->
    check_context fault "replace workspace parent for %q: %w" m2 = (Ok tt, m3) -> framed_at ws ds (remove_path fault p) m3) as Hr.
  { intros n e m2 m3 a -> Hn E2 E3%quiet_call. apply stop_when_ok in E2 as [_ ->].
    apply (framed_remove_parent ws ds p w n); [done..| |done]. rewrite E3. destruct Ho. by apply resolve_lookup. }
  destruct o as [[[|i c mo|i]| |]|]; frame_run; try (by eapply framed_mkdir);
    match goal with u : unit |- _ => destruct u end; eauto.
Qed.
Lemma inspect_parents_cons create replace record pre x y rest :
  inspect_parents fault create replace record pre (x :: y :: rest) =
  (let! ended := inspect_parent fault create replace record (pre ++ [x]) in
   match ended with
   | Some missing => ret missing
   | None => inspect_parents fault create replace record (pre ++ [x]) (y :: rest)
   end).
Proof. done. Qed.
Lemma framed_inspect_parents ws ds create replace record rest : forall pre, pre ++ rest ∈ ws ->
  framed ws ds (inspect_parents fault create replace record pre rest).
Proof.
  induction rest as [|x rest IH]; intros pre Hw m; [apply quiet_framed, quiet_ret|].
  destruct rest as [|y rest]; [apply quiet_framed, quiet_ret|]. rewrite inspect_parents_cons.
  apply framed_at_bind.
  - eapply framed_inspect_parent; [done|by destruct pre|]. 
    split; [exists (y :: rest); by rewrite <-app_assoc|]. intros E. apply (f_equal length) in E. rewrite !length_app in E. simpl in E. lia.
  - intros [ended|] m1 Hwf1 _; [frame_run|]. apply IH. by rewrite <-app_assoc.
Qed.
Lemma framed_parents ws ds create replace record p : p ∈ ws ->
  framed ws ds (inspectWorkspaceParents fault p create replace record).
Proof. intros Hp m. apply framed_at_bind; [frame_run|]. intros _ m1 _ _. by apply framed_inspect_parents. Qed.
(** A walk that creates nothing. *)
Lemma quiet_inspect_parent record p : quiet (inspect_parent fault false false record p).
Proof. unfold inspect_parent. simpl. quiet_run. Qed.
Lemma quiet_parents record p : quiet (inspectWorkspaceParents fault p false false record).
Proof.
  apply quiet_bind; [unfold check_context; eauto with quiet|]. intros _.
  generalize ([] : key). induction p as [|x rest IH]; intros pre; [apply quiet_ret|]. destruct rest; [apply quiet_ret|].
  rewrite inspect_parents_cons. apply quiet_bind; [apply quiet_inspect_parent|]. intros []; [quiet_run|apply IH].
Qed.

Lemma children_prefix fs p q : q ∈ children fs p -> p `prefix_of` q.
Proof. intros (_ & <- & _)%children_spec. apply parent_prefix. Qed.
Lemma framed_remove_entry ws ds fuel w : w ∈ ws ++ ds -> forall p, w `prefix_of` p -> framed ws ds (remove_entry fault fuel p).
Proof.
  intros Hw. induction fuel as [|fuel IH]; intros p Hp m; simpl; [frame_run|].
  frame_run; try (by eapply framed_remove).
  - apply quiet_framed, quiet_syscall.
  - apply framed_each. intros q Hq. apply IH. trans p; [done|].
    match goal with H : read_names _ _ _ = _ |- _ => apply read_names_inv in H as (_ & l0 & E1 & E2) end.
    simplify_eq. destruct E2; simplify_eq. by eapply children_prefix.
Qed.
Lemma framed_removal ws ds p : p ∈ ws ++ ds -> framed ws ds (removeWorkspaceEntry fault p).
Proof. intros Hp m. unfold removeWorkspaceEntry. intros r m' Hwf H. by eapply framed_remove_entry. Qed.

(** ** Temporary files *)

Lemma create_temporary_inv attempts dir : forall m r m', wf (m_fs m) -> createSiblingTemporary fault entropy attempts dir m = (r, m') ->
  (exists e, r = Err e /\ m_fs m' = m_fs m) \/
  (exists x i, r = Ok (dir ++ [temporary_prefix ++ x]) /\ m_fs m !! (dir ++ [temporary_prefix ++ x]) = None /\
     directory (m_fs m) dir /\ m_fs m' = <[dir ++ [temporary_prefix ++ x] := NFile i [] 384]> (m_fs m)).
Proof.
  induction attempts as [|attempts IH]; intros m r m' Hwf H; simpl in H; [injection H as <- <-; eauto|].
  apply bind_inv in H as [(? & m1 & E1%quiet_call & H)|(e & E1%quiet_call & ->)]; [|eauto].
  apply bind_inv in H as [(? & m2 & E2%quiet_call & H)|(e & E2%quiet_call & ->)]; [|left; rewrite E2; eauto].
  apply bind_inv in H as [(name & m3 & E3 & H)|(e & E3 & ->)]; [|discriminate]. injection E3 as <- <-.
  rewrite <-E1, <-E2 in Hwf |- *.
  apply bind_inv in H as [(o & m4 & E4 & H)|(e & E4 & ->)]; apply create_inv in E4 as (o' & Eo & Hc); try done.
  injection Eo as <-. destruct Hc as [[Ho E4]|(-> & Hp & Hnone & Hdir & i & E4)].
  - destruct o; [done|..]; rewrite <-E4; try (injection H as <- <-; eauto). apply IH; [by rewrite E4|done].
  - injection H as <- <-. right. rewrite parent_snoc in Hdir. eauto 10.
Qed.
Lemma update_temporary name f fs i c mo m r m' : m_fs m = <[name := NFile i c mo]> fs ->
  (let! o := update_file fault name f in stop_when (bool_decide (o <> Done)) "%w") m = (r, m') ->
  m_fs m' = <[name := NFile i (f c mo).1 (f c mo).2]> fs \/ ((exists e, r = Err e) /\ m_fs m' = <[name := NFile i c mo]> fs).
Proof.
  intros Hm [(o & m1 & E1 & H)|(e & E1 & _)]%bind_inv; apply update_inv in E1 as (o' & Eo & Hu); [|done]. injection Eo as <-.
  destruct Hu as [[Ho E1]|(-> & i' & c' & mo' & Hl & E1)].
  - rewrite bool_decide_true in H by done. injection H as <- <-. right. rewrite E1. eauto.
  - injection H as <- <-. left. rewrite Hm, lookup_insert_eq in Hl. simplify_eq. by rewrite E1, Hm, insert_insert_eq.
Qed.
Lemma bind_assoc {A B C} (c : run A) (k : A -> run B) (h : B -> run C) m :
  bind c (fun a => bind (k a) h) m = bind (bind c k) h m.
Proof. unfold bind. by destruct (c m) as [[a|e] m1]. Qed.
Lemma fill_temporary_inv name content mode fs i m r m' : name <> [] -> m_fs m = <[name := NFile i [] 384]> fs ->
  fill_temporary fault name content mode m = (r, m') ->
  exists c mo, m_fs m' = <[name := NFile i c mo]> fs /\ forall a, r = Ok a -> a = (name, i) /\ c = content /\ mo = mode.
Proof.
  intros Hne Hm H. unfold fill_temporary, check_context in H.
  assert (forall r m1, (if content == [] then ret tt else
      do call fault "%w";
      let! written := update_file fault name (fun _ mode => (content, mode)) in
      stop_when (bool_decide (written <> Done)) "%w") m = (r, m1) ->
    m_fs m1 = <[name := NFile i content 384]> fs \/ ((exists e, r = Err e) /\ m_fs m1 = <[name := NFile i [] 384]> fs)) as Hw.
  { clear r m' H. intros r m1 H. case_bool_decide as Hc; [injection H as <- <-; rewrite Hc; by left|].
    apply bind_inv in H as [(? & m0 & E1%quiet_call & H)|(e & E1%quiet_call & ->)]; [|right; rewrite E1; eauto].
    eapply update_temporary in H; [|by rewrite E1]. by destruct H; auto. }
  apply bind_inv in H as [(? & m1 & E1 & H)|(e & E1 & ->)].
  2:{ apply Hw in E1 as [E1|[_ E1]]; eexists _, _; by rewrite E1. }
  apply Hw in E1 as [E1|[[e E1] _]]; [|discriminate]. clear Hw.
  do 3 (apply bind_inv in H as [(? & ? & E%quiet_call & H)|(e & E%quiet_call & ->)];
    [rewrite E1 in E; clear E1; rename E into E1|rewrite E1 in E; eexists _, _; by rewrite E]).
  rewrite bind_assoc in H. apply bind_inv in H as [(? & m2 & E & H)|(e & E & ->)].
  2:{ eapply update_temporary in E as [E|[_ E]]; [| |done]; eexists _, _; by rewrite E. }
  eapply update_temporary in E as [E|[[e E] _]]; [|discriminate|done]. simpl in E.
  exists content, mode. apply bind_inv in H as [(s & m3 & E3 & H)|(e & E3 & ->)];
    apply lstat_inv in E3 as (E3 & s' & Es & Hs); [|done]. injection Es as <-.
  assert (m_fs m' = m_fs m3) as E4.
  { revert H. match goal with |- ?c m3 = _ -> _ => assert (quiet c) as Hq by quiet_run end. apply Hq. }
  split; [by rewrite E4, E3, E|]. intros a ->. destruct s as [[|j c mo|j]| |]; try discriminate.
  run_ok H. injection H as <- <-. destruct Hs as [|Hs]; [done|]. symmetry in Hs. apply resolve_lookup in Hs; [|done].
  rewrite E, lookup_insert_eq in Hs. by simplify_eq.
Qed.
Lemma on_error_inv {A} (c : run A) cleanup m r m' : on_error c cleanup m = (r, m') ->
  (exists a, r = Ok a /\ c m = (Ok a, m')) \/ (exists e m1, r = Err e /\ c m = (Err e, m1) /\ m' = (cleanup m1).2).
Proof. unfold on_error. destruct (c m) as [[a|e] m1]; intros; simplify_eq; eauto 10. Qed.
Lemma remove_if_present_inv p m : wf (m_fs m) ->
  m_fs (removeIfPresent fault p m).2 = m_fs m \/
  ((forall q, strict_prefix p q -> m_fs m !! q = None) /\ m_fs (removeIfPresent fault p m).2 = delete p (m_fs m)).
Proof.
  intros Hwf. destruct (removeIfPresent fault p m) as [r m'] eqn:H. simpl.
  apply bind_inv in H as [(o & m1 & E & H)|(e & E & _)]; apply remove_inv in E as (o' & Eo & Hr); try done.
  apply quiet_stop_when in H. rewrite H. destruct Hr as [[_ E]|(_ & _ & _ & Hb & E)]; auto.
Qed.
(** The prepared file is new, and a failure leaves at most a temporary file. *)
Lemma prepared_inv dir content mode m r m' : wf (m_fs m) -> writePreparedFile fault entropy dir content mode m = (r, m') ->
  (exists e, r = Err e /\ wf (m_fs m') /\ forall q, m_fs m' !! q = m_fs m !! q \/ exists x, q = dir ++ [temporary_prefix ++ x]) \/
  (exists x i, r = Ok (dir ++ [temporary_prefix ++ x], i) /\ m_fs m !! (dir ++ [temporary_prefix ++ x]) = None /\
     directory (m_fs m) dir /\ m_fs m' = <[dir ++ [temporary_prefix ++ x] := NFile i content mode]> (m_fs m)).
Proof.
  intros Hwf [(name & m1 & E1 & H)|(e & E1 & ->)]%bind_inv.
  2:{ apply create_temporary_inv in E1 as [(e' & _ & E1)|(x & i & E1 & _)]; [|done..]. left. rewrite E1. eauto 10. }
  apply create_temporary_inv in E1 as [(e' & E1 & _)|(x & i & E1 & Hnone & Hdir & Em1)]; [discriminate| |done].
  injection E1 as ->. set (name := dir ++ _) in *.
  assert (name <> []) as Hne by (unfold name; by destruct dir).
  assert (forall c mo, wf (<[name := NFile i c mo]> (m_fs m))) as Hwf1.
  { intros c mo. apply wf_insert; [done..|unfold name; by rewrite parent_snoc|by rewrite Hnone]. }
  apply on_error_inv in H as [(a & -> & H)|(e & m2 & -> & H & ->)];
    apply (fill_temporary_inv name content mode (m_fs m) i) in H as (c & mo & E2 & Ha); try done.
  - right. destruct (Ha a) as (-> & -> & ->); [done|]. exists x, i. by rewrite E2.
  - left. exists e. split; [done|].
    destruct (remove_if_present_inv name m2) as [E3|[Hb E3]]; [by rewrite E2| |]; rewrite E3, E2.
    + split; [done|]. intros q. destruct (decide (name = q)) as [<-|Hq]; [right; by exists x|left; by rewrite lookup_insert_ne].
    + rewrite delete_insert_eq, delete_id by done. split; [done|]. by left.
Qed.
Lemma framed_drop p fs fs' (Q : Prop) : 
  (forall q, fs' !! q = fs !! q \/ change [] [p] fs fs' q \/ (Q /\ temporary [] q)) ->
  forall q, fs' !! q = fs !! q \/ (p `prefix_of` q /\ fs' !! q = None).
Proof.
  intros Hq q. destruct (Hq q) as [E|[[(w & Hw & _)|(w & Hw & Hpre & Hc)]|[_ (w & _ & Hw & _)]]];
    [by left|by apply not_elem_of_nil in Hw|right|by apply not_elem_of_nil in Hw].
  apply list_elem_of_singleton in Hw as ->. destruct Hc as [Hc|(w & Hw & _)]; [done|by apply not_elem_of_nil in Hw].
Qed.
Lemma removal_inv p m r m' : wf (m_fs m) -> removeWorkspaceEntry fault p m = (r, m') ->
  wf (m_fs m') /\ forall q, m_fs m' !! q = m_fs m !! q \/ (p `prefix_of` q /\ m_fs m' !! q = None).
Proof.
  intros Hwf H. destruct (framed_removal [] [p] p) with (m := m) (r := r) (m' := m') as [Hwf' Hq]; [by left|done..|].
  split; [done|]. by eapply framed_drop.
Qed.
Lemma renamed_wf fs from to i c mo : wf fs -> to <> [] -> fs !! from = Some (NFile i c mo) ->
  directory fs (parent to) -> fs !! to <> Some NDir -> wf (<[to := NFile i c mo]> (delete from fs)).
Proof.
  intros Hwf Ht Hfile Hdir Hnd. apply wf_insert; [|done|..].
  - apply wf_delete; [done|]. intros q Hq. by eapply wf_empty_below.
  - destruct Hdir as [Hdir|Hdir]; [by left|right]. rewrite lookup_delete_ne; [done|]. congruence.
  - by intros [_ H]%lookup_delete_Some.
Qed.
Lemma install_prepared_inv state existing tmp i fs content mode m r m' (p := parts (df_Path state)) :
  wf (m_fs m) -> m_fs m = <[tmp := NFile i content mode]> fs -> install_prepared fault state existing tmp m = (r, m') ->
  wf (m_fs m') /\
  ((exists e, r = Err e) /\ (forall q, m_fs m' !! q = m_fs m !! q \/ (p `prefix_of` q /\ m_fs m' !! q = None)) \/
   r = Ok tt /\ exists fs1, (forall q, fs1 !! q = m_fs m !! q \/ (p `prefix_of` q /\ fs1 !! q = None)) /\
     m_fs m' = <[p := NFile i content mode]> (delete tmp fs1)).
Proof.
  intros Hwf Hm H. unfold install_prepared in H. fold p in H.
  apply bind_inv in H as [(? & m1 & E1%quiet_call & H)|(e & E1%quiet_call & ->)].
  2:{ rewrite E1. eauto 10. }
  rewrite <-E1 in Hwf |- *.
  apply bind_inv in H as [(? & m2 & E2 & H)|(e & E2 & ->)].
  2:{ case_bool_decide; [|done]. apply removal_inv in E2 as [Hwf2 E2]; [|done]. eauto 10. }
  assert (wf (m_fs m2) /\ forall q, m_fs m2 !! q = m_fs m1 !! q \/ (p `prefix_of` q /\ m_fs m2 !! q = None)) as [Hwf2 F2].
  { case_bool_decide; [by apply removal_inv in E2|]. apply quiet_ret in E2. rewrite E2. auto. }
  apply bind_inv in H as [(o & m3 & E3 & H)|(e & E3 & ->)]; apply rename_inv in E3 as (o' & Eo & Hr); try done.
  injection Eo as <-. apply quiet_stop_when in H as Em. rewrite Em.
  destruct Hr as [[Ho E3]|(-> & i' & c & mo & Hf & Ht & Hfile & Hdir & Hnd & _ & E3)]; rewrite E3.
  - split; [done|]. left. split; [|done]. rewrite bool_decide_true in H by done. injection H as <- <-. eauto.
  - split; [by apply renamed_wf|]. right. injection H as <- <-. split; [done|]. exists (m_fs m2). split; [done|].
    destruct (F2 tmp) as [E|[_ E]]; [|congruence].
    rewrite E, E1, Hm, lookup_insert_eq in Hfile. by simplify_eq.
Qed.
(** Installing: on success the file has the prepared content and the temporary name is
    free again. *)
Lemma install_inv state existing tmp i fs content mode m r m' (p := parts (df_Path state)) :
  wf (m_fs m) -> m_fs m = <[tmp := NFile i content mode]> fs -> fs !! tmp = None ->
  install fault state existing tmp m = (r, m') ->
  wf (m_fs m') /\
  (r = Ok tt -> m_fs m' !! p = Some (NFile i content mode)) /\
  forall q, m_fs m' !! q = fs !! q \/ q = p \/ (p `prefix_of` q /\ m_fs m' !! q = None) \/ ((exists e, r = Err e) /\ q = tmp).
Proof.
  intros Hwf Hm Htmp [([] & -> & H)|(e & m1 & -> & H & ->)]%on_error_inv;
    eapply install_prepared_inv in H as [Hwf1 H]; try done; fold p in H.
  - destruct H as [[[e ?] _]|(_ & fs1 & F1 & E1)]; [discriminate|].
    split; [done|]. split; [intros _; by rewrite E1, lookup_insert_eq|].
    intros q. destruct (decide (q = p)) as [->|Hqp]; [auto|]. rewrite E1, lookup_insert_ne by done.
    destruct (decide (q = tmp)) as [->|Hqt]; [left; by rewrite lookup_delete_eq|]. rewrite lookup_delete_ne by done.
    destruct (F1 q) as [E|E]; [left|auto]. by rewrite E, Hm, lookup_insert_ne.
  - destruct H as [[_ F1]|[? _]]; [|discriminate].
    assert (forall q, q <> tmp -> m_fs m1 !! q = fs !! q \/ p `prefix_of` q /\ m_fs m1 !! q = None) as F2.
    { intros q Hq. destruct (F1 q) as [E|E]; [left|auto]. by rewrite E, Hm, lookup_insert_ne. }
    destruct (remove_if_present_inv tmp m1) as [E3|[Hb E3]]; [done| |]; rewrite E3;
      (split; [by try apply wf_delete|]; split; [done|]; intros q; destruct (decide (q = tmp)) as [->|Hq]; [by eauto 10|]).
    + destruct (F2 q); auto.
    + rewrite lookup_delete_ne by done. destruct (F2 q); auto.
Qed.

(** ** Writing one file *)

Lemma open_match_inv p i c mo content m o m' : m_fs m !! p = Some (NFile i c mo) ->
  openRegularFileContentMatch fault p (NFile i c mo) content m = (Ok (o, true), m') -> c = content.
Proof.
  intros Hl H. unfold openRegularFileContentMatch, check_context in H. run_ok H. apply quiet_call in E.
  case_bool_decide as Hlen; [|discriminate]. simpl in H. run_ok H. apply read_content_inv in E0 as (E0 & r & Er & Hr).
  injection Er as ->. destruct r as [t|].
  - do 3 run_ok H. injection H as _ Hb _.
    apply andb_prop in Hb as [_ Hb%bool_decide_eq_true]. destruct (Hr t) as (i' & mo' & Ht); [done|].
    rewrite E, Hl in Ht. by simplify_eq.
  - case_bool_decide as Hc; [|discriminate]. subst content. by apply nil_length_inv.
Qed.
Lemma settled_file_inv state existing m m' (p := parts (df_Path state)) :
  (forall n, existing = Some n -> m_fs m !! p = Some n) -> settled_file fault state existing m = (Ok true, m') ->
  exists i, m_fs m !! p = Some (NFile i (content_of state) (df_Mode state)).
Proof.
  intros Hl H. destruct existing as [[|i c mo|i]|]; try discriminate. unfold settled_file in H. fold p in H.
  run_ok H. destruct a as [o b]. destruct b; [|discriminate]. simpl in H. case_bool_decide as Hmo; [|discriminate].
  apply open_match_inv in E; [|by apply Hl]. exists i. subst. by apply Hl.
Qed.
Lemma quiet_settled_file state existing : quiet (settled_file fault state existing).
Proof. unfold settled_file. quiet_run. Qed.
Lemma write_file_inv state existing m r m' (p := parts (df_Path state)) :
  wf (m_fs m) -> write_file fault entropy state existing m = (r, m') ->
  wf (m_fs m') /\ (r = Ok tt -> exists i, m_fs m' !! p = Some (NFile i (content_of state) (df_Mode state))) /\
  forall q, m_fs m' !! q = m_fs m !! q \/ change [p] [] (m_fs m) (m_fs m') q \/ ((exists e, r = Err e) /\ temporary [p] q).
Proof.
  intros Hwf H. unfold write_file in H. fold p in H.
  assert (forall x, temporary [p] (parent p ++ [temporary_prefix ++ x])) as Htmp by (intros x; exists p, x; split; [by left|done]).
  apply bind_inv in H as [(a & m1 & E1 & H)|(e & E1 & ->)]; apply prepared_inv in E1 as [(e' & Er & Hwf1 & F1)|(x & i & Er & Hnone & Hdir & E1)];
    try done.
  2:{ split; [done|]. split; [done|]. intros q. destruct (F1 q) as [E|[x ->]]; [by left|right; right]. eauto. }
  injection Er as ->. simpl in H.
  assert (wf (m_fs m1)) as Hwf1.
  { rewrite E1. apply wf_insert; [done|by destruct (parent p)|by rewrite parent_snoc|by rewrite Hnone]. }
  assert (forall fs' q, fs' !! q = m_fs m !! q \/ q = p \/ p `prefix_of` q /\ fs' !! q = None ->
    fs' !! q = m_fs m !! q \/ change [p] [] (m_fs m) fs' q) as Hch.
  { intros fs' q [E|Hq]; [by left|right; right]. exists p. split; [by left|].
    destruct Hq as [->|[Hq E]]; [split; [done|]; right; exists p; split; [by left|done]|by split; [|left]]. }
  apply bind_inv in H as [(u & m2 & E2 & H)|(e & E2 & ->)];
    eapply install_inv in E2 as (Hwf2 & Hok & F2); try done; fold p in Hok, F2.
  - assert (m_fs m' = m_fs m2) as ->.
    { revert H. match goal with |- ?c m2 = _ -> _ => assert (quiet c) as Hq by quiet_run end. apply Hq. }
    split; [done|]. destruct u. split; [intros _; exists i; by apply Hok|]. intros q. destruct (F2 q) as [E|[E|[E|[[? ?] _]]]]; [..|discriminate].
    all: edestruct (Hch (m_fs m2) q); eauto.
  - split; [done|]. split; [done|]. intros q. destruct (F2 q) as [E|[E|[E|[_ ->]]]]; [..|right; right; split; [by eauto|apply Htmp]].
    all: edestruct (Hch (m_fs m') q); eauto.
Qed.
Lemma framed_write_file state existing : framed [parts (df_Path state)] [] (write_file fault entropy state existing).
Proof. intros m r m' Hwf H. by apply write_file_inv in H as (? & _ & ?). Qed.
Lemma framed_apply_file state : framed [parts (df_Path state)] [] (applyFile fault entropy state).
Proof.
  intros m. unfold applyFile. apply framed_at_bind; [apply framed_parents; by left|]. intros _ m1 _ _.
  do 3 (apply framed_at_bind; [frame_run|intros ? ? _ _]).
  apply framed_at_bind; [apply quiet_framed, quiet_settled_file|intros [] ? _ _]; [frame_run|apply framed_write_file].
Qed.
Lemma framed_ok {A} ws ds (c : run A) m a m' : framed ws ds c -> wf (m_fs m) -> c m = (Ok a, m') -> wf (m_fs m').
Proof. intros H Hwf E. by apply H in E as [? _]. Qed.

Definition holds (fs : fs_t) (p : key) (content : text) (mode : Z) : Prop := exists i, fs !! p = Some (NFile i content mode).
Lemma parts_nonempty path : parts path <> [].
Proof. apply split_slash_cons. Qed.
Lemma apply_file_ok state m u m' : wf (m_fs m) -> applyFile fault entropy state m = (Ok u, m') ->
  holds (m_fs m') (parts (df_Path state)) (content_of state) (df_Mode state).
Proof.
  intros Hwf H. unfold applyFile in H. set (p := parts (df_Path state)) in *. run_as H as missing m1 E1.
  eapply framed_ok in E1; [|apply (framed_parents [p] []); by left|done].
  run_as H as s m2 E2. run_as H as existing m3 E3. run_as H as v m4 E4. run_as H as settled m5 E5.
  apply stop_when_ok in E4 as [_ ->]. apply lstat_inv in E2 as (E2 & s' & Es & Hs). injection Es as <-.
  assert (forall n, existing = Some n -> m_fs m3 !! p = Some n) as Hl.
  { intros n ->. destruct s as [n'| |]; [|discriminate..]. injection E3 as -> <-.
    destruct Hs as [|Hs]; [discriminate|]. rewrite E2. by apply resolve_lookup; [apply parts_nonempty|]. }
  assert (m_fs m3 = m_fs m2) as E3' by (destruct s; [by apply quiet_ret in E3..|discriminate]).
  apply quiet_settled_file in E5 as E5q. destruct settled.
  - injection H as <- <-. apply settled_file_inv in E5; [|done]. by rewrite <-E5q in E5.
  - apply write_file_inv in H as (_ & H & _); [|by rewrite E5q, E3', E2]. destruct u. by apply H.
Qed.
End frames.

(** ** What success leaves *)

Section exact.
Set Default Proof Using "Type".
Context (fault : nat -> bool) (entropy : nat -> text).

(** ** Reading *)

Lemma missing_below fs d p : wf fs -> d <> [] -> strict_prefix d p -> fs !! d <> Some NDir -> fs !! p = None.
Proof.
  intros Hwf Hd Hs Hn. destruct (fs !! p) eqn:E; [|done]. destruct (Hwf p _ E) as [_ H]. by rewrite (H d) in Hn.
Qed.
Lemma parents_missing p m m' : wf (m_fs m) -> inspectWorkspaceParents fault p false false false m = (Ok true, m') ->
  m_fs m !! p = None.
Proof.
  intros Hwf H. run_as H as u m1 E1. apply quiet_call in E1. rewrite <-E1 in Hwf |- *. clear m E1.
  change p with ([] ++ p). revert H. generalize ([] : key) as pre. revert m1 Hwf.
  induction p as [|x rest IH]; intros m Hwf pre H; [discriminate|]. destruct rest as [|y rest]; [discriminate|].
  rewrite inspect_parents_cons in H. run_as H as ended m1 E1.
  apply quiet_inspect_parent in E1 as E1q. destruct ended as [missing|].
  - injection H as -> <-. rewrite inspect_parent_look in E1. run_as E1 as o m2 E2. apply look_parent_inv in E2 as Ho.
    apply (missing_below (m_fs m) (pre ++ [x])); [done|by destruct pre|apply prefix_strict|].
    + exists (y :: rest). by rewrite <-app_assoc.
    + intros E. apply (f_equal length) in E. rewrite !length_app in E. simpl in E. lia.
    + intros E. apply lookup_resolve in E; [|done].
      destruct o as [[[]| |]|]; try discriminate; destruct Ho; simplify_eq; destruct_and?; try congruence.
      all: rewrite H0 in H by done; congruence.
  - rewrite <-E1q in Hwf |- *. specialize (IH m1 Hwf (pre ++ [x]) H). by rewrite <-app_assoc in IH.
Qed.
Lemma verify_absent_ok p m u m' : wf (m_fs m) -> verifyWorkspacePathAbsent fault p m = (Ok u, m') -> m_fs m !! p = None.
Proof.
  intros Hwf H. run_as H as s m1 E. apply lstat_inv in E as (E & s' & Es & Hs). injection Es as <-.
  destruct s; [discriminate| |discriminate]. destruct Hs; [discriminate|]. by apply resolve_missing.
Qed.
Lemma matching_file_ok e p move m before m' : matching_file fault e p move m = (Ok (Some before), m') -> p <> [] ->
  m_fs m' = m_fs m /\ exists i, m_fs m !! p = Some (NFile i (content_of move) (df_Mode move)) /\
    before.2 = NFile i (content_of move) (df_Mode move).
Proof.
  intros H Hp. run_as H as missing m1 E1. apply quiet_parents in E1. destruct missing; [discriminate|].
  run_as H as s m2 E2. apply lstat_inv in E2 as (E2 & s' & Es & Hs). injection Es as <-.
  destruct s as [[|i c mo|i]| |]; try discriminate. run_as H as mt m3 E3.
  apply quiet_open_match in E3 as E3q. destruct mt as [o b]. simpl in H.
  destruct b; [|discriminate]. simpl in H. case_bool_decide as Hmo; [|discriminate]. injection H as <- <-.
  destruct Hs as [|Hs]; [discriminate|]. symmetry in Hs. apply resolve_lookup in Hs; [|done].
  rewrite <-E2 in Hs. apply open_match_inv in E3; [|done]. subst. split; [congruence|].
  exists i. simpl. split; [congruence|done].
Qed.
Lemma quiet_matching_file e p move : quiet (matching_file fault e p move).
Proof.
  apply quiet_bind; [apply quiet_parents|]. intros []; [apply quiet_ret|].
  apply quiet_bind; [apply quiet_lstat|]. intros [[|i c mo|i]| |]; try apply quiet_ret; [|apply quiet_stop].
  apply quiet_bind; [apply quiet_open_match|]. intros. apply quiet_ret.
Qed.

(** ** Deleting and requiring *)

Lemma framed_deletion ws ds p : p ∈ ws ++ ds -> framed ws ds (applyDeletion fault p).
Proof.
  intros Hp m. apply framed_at_bind; [apply quiet_framed, quiet_parents|]. intros [] m1 _ _; [apply quiet_framed, quiet_ret|].
  apply framed_at_bind; [apply quiet_framed, quiet_lstat|]. intros [n| |] m2 _ _; [|apply quiet_framed; eauto with quiet..].
  apply framed_at_bind; [apply quiet_framed, quiet_call|]. intros _ m3 _ _.
  apply framed_at_bind; [by apply framed_removal|]. intros _ m4 _ _. apply quiet_framed, quiet_verify_deletion.
Qed.
Lemma deletion_ok p m u m' : wf (m_fs m) -> applyDeletion fault p m = (Ok u, m') -> m_fs m' !! p = None.
Proof.
  intros Hwf H. run_as H as missing m1 E1. apply quiet_parents in E1 as E1q. destruct missing.
  - injection H as <- <-. rewrite E1q. by apply parents_missing in E1.
  - run_as H as s m2 E2. apply lstat_inv in E2 as (E2 & s' & Es & Hs). injection Es as <-.
    destruct s as [n| |]; [| |discriminate].
    + run_as H as v m3 E3. apply quiet_call in E3. run_as H as v' m4 E4. run_as H as v'' m5 E5.
      apply removal_inv in E4 as [Hwf4 _]; [|by rewrite E3, E2, E1q]. apply quiet_record in H.
      apply quiet_verify_absent in E5 as E5q. rewrite H, E5q. by apply verify_absent_ok in E5.
    + injection H as <- <-. destruct Hs as [|Hs]; [discriminate|]. rewrite E2. apply resolve_missing; [by rewrite E1q|done].
Qed.
Lemma framed_required state : framed [parts (df_Path state)] [] (applyRequiredFile fault entropy state).
Proof.
  intros m. apply framed_at_bind; [apply quiet_framed, quiet_parents|]. intros missing m1 _ _. apply framed_at_bind.
  - apply quiet_framed. destruct missing; [apply quiet_ret|]. apply quiet_bind; [apply quiet_lstat|].
    intros [[]| |]; eauto with quiet.
  - intros [] m2 _ _; [apply quiet_framed, quiet_ret|apply framed_apply_file].
Qed.
Definition regular (n : option node) : Prop := exists i c mo, n = Some (NFile i c mo).
Lemma required_file_ok state m u m' (p := parts (df_Path state)) :
  wf (m_fs m) -> applyRequiredFile fault entropy state m = (Ok u, m') ->
  (regular (m_fs m !! p) /\ m_fs m' !! p = m_fs m !! p) \/
  (~ regular (m_fs m !! p) /\ holds (m_fs m') p (content_of state) (df_Mode state)).
Proof.
  intros Hwf H. unfold applyRequiredFile in H. fold p in H. run_as H as missing m1 E1. apply quiet_parents in E1 as E1q.
  run_as H as kept m2 E2. destruct missing.
  - injection E2 as <- <-. right. apply apply_file_ok in H; [|by rewrite E1q]. split; [|done].
    apply parents_missing in E1; [|done]. rewrite E1. by intros (? & ? & ? & ?).
  - run_as E2 as s m3 E3. apply lstat_inv in E3 as (E3 & s' & Es & Hs). injection Es as <-. rewrite E1q in Hs.
    destruct Hs as [->|Hs]; [discriminate|]. symmetry in Hs. destruct s as [n| |]; [|..|discriminate].
    + apply resolve_lookup in Hs as Hl; [|apply parts_nonempty]. destruct n as [|i c mo|i].
      * injection E2 as <- <-. right. rewrite Hl. split; [by intros (? & ? & ? & ?)|].
        apply apply_file_ok in H; [done|]. by rewrite E3, E1q.
      * injection E2 as <- <-. injection H as <- <-. left. rewrite E3, E1q, Hl. split; [by eexists _, _, _|done].
      * injection E2 as <- <-. right. rewrite Hl. split; [by intros (? & ? & ? & ?)|].
        apply apply_file_ok in H; [done|]. by rewrite E3, E1q.
    + injection E2 as <- <-. right. apply resolve_missing in Hs as ->; [|done]. split; [by intros (? & ? & ? & ?)|].
      apply apply_file_ok in H; [done|]. by rewrite E3, E1q.
Qed.

(** ** Moving *)

Lemma quiet_move_destination move : quiet (reconcileMoveDestination fault move).
Proof.
  apply quiet_bind; [apply quiet_matching_file|]. intros [before|]; [|apply quiet_ret].
  apply quiet_bind; [apply quiet_verify_file|]. intros. apply quiet_ret.
Qed.
Lemma move_destination_ok move m m' : reconcileMoveDestination fault move m = (Ok true, m') ->
  holds (m_fs m') (parts (df_Path move)) (content_of move) (df_Mode move).
Proof.
  intros H. apply quiet_move_destination in H as Hq. run_as H as found m1 E1. destruct found as [before|]; [|discriminate].
  apply matching_file_ok in E1 as (_ & i & Hl & _); [|apply parts_nonempty]. exists i. by rewrite Hq.
Qed.
Lemma framed_move_source move :
  framed [parts (df_Path move)] [parts (df_MoveFrom move)] (applyRenameFromMatchingSource fault move).
Proof.
  intros m. apply framed_at_bind; [apply quiet_framed, quiet_matching_file|]. intros [before|] m1 _ _; [|apply quiet_framed, quiet_ret].
  apply framed_at_bind; [apply framed_parents; by left|]. intros _ m2 _ _.
  apply framed_at_bind; [apply quiet_framed, quiet_lstat|]. intros s m3 _ _. apply framed_at_bind.
  { destruct s as [[]| |]; try solve [apply quiet_framed; eauto with quiet]. apply framed_removal. by left. }
  intros _ m4 _ _. apply framed_at_bind; [apply quiet_framed, quiet_call|]. intros _ m5 _ _.
  apply framed_at_bind; [apply framed_rename; set_solver|]. intros renamed m6 _ _.
  apply quiet_framed.
  do 4 (apply quiet_bind; [eauto using quiet_verify_file, quiet_verify_absent with quiet|intros]). apply quiet_ret.
Qed.
Lemma framed_stable {A} ws ds (c : run A) m a m' q : framed ws ds c -> wf (m_fs m) -> c m = (Ok a, m') ->
  (forall p, p ∈ ws ++ ds -> ~ comparable p q) -> m_fs m' !! q = m_fs m !! q.
Proof.
  intros H Hwf E Hq. apply H in E as [_ F]; [|done]. destruct (F q) as [E|[E|[[? ?] _]]]; [done| |discriminate].
  apply change_comparable in E as (p & Hp & Hc). by destruct (Hq p Hp).
Qed.
(** The renamed file is the one that was compared. *)
Lemma move_source_ok move m m' (from := parts (df_MoveFrom move)) (to := parts (df_Path move)) :
  wf (m_fs m) -> ~ comparable to from -> applyRenameFromMatchingSource fault move m = (Ok true, m') ->
  holds (m_fs m') to (content_of move) (df_Mode move).
Proof.
  intros Hwf Hsep H. unfold applyRenameFromMatchingSource in H. fold from to in H. run_as H as found m1 E1.
  destruct found as [before|]; [|discriminate].
  apply matching_file_ok in E1 as (E1 & i & Hl & _); [|apply parts_nonempty].
  run_as H as missing m2 E2. rewrite <-E1 in Hwf, Hl.
  assert (framed [to] [] (inspectWorkspaceParents fault to true true true)) as F2 by (apply framed_parents; by left).
  apply (framed_stable [to] [] _ _ _ _ from F2) in E2 as Hs2; [|done|by intros p ->%list_elem_of_singleton].
  apply (framed_ok _ _ _ _ _ _ F2) in E2 as Hwf2; [|done].
  run_as H as s m3 E3. apply quiet_lstat in E3. rewrite <-E3 in Hs2, Hwf2. run_as H as u m4 E4.
  assert (wf (m_fs m4) /\ m_fs m4 !! from = m_fs m3 !! from) as [Hwf4 Hs4].
  { destruct s as [[]| |]; try discriminate; try (injection E4 as _ <-; done). apply removal_inv in E4 as [Hwf4 F4]; [|done].
    split; [done|]. destruct (F4 from) as [E|[E _]]; [done|]. destruct Hsep. by left. }
  run_as H as v m5 E5. apply quiet_call in E5. rewrite <-E5 in Hwf4, Hs4. run_as H as o m6 E6. run_as H as w m7 E7.
  apply stop_when_ok in E7 as [Eo ->]. apply bool_decide_eq_false in Eo.
  apply rename_inv in E6 as (o' & Eo' & [[Ho _]|(_ & i' & c & mo & _ & _ & Hf & _ & _ & _ & E6)]); [|..|done].
  { injection Eo' as ->. by destruct Eo. }
  rewrite Hs4, Hs2, Hl in Hf. injection Hf as <- <- <-.
  assert (m_fs m' = m_fs m6) as ->; [|exists i; by rewrite E6, lookup_insert_eq].
  run_as H as x m8 E8. run_as H as y m9 E9. run_as H as z m10 E10. apply quiet_verify_file in E8.
  apply quiet_verify_absent in E9. apply quiet_record in E10. apply quiet_ret in H. congruence.
Qed.
(** The source of a move is dropped unless another move writes it. *)
Definition dropped (targets : list text) (move : DesiredFile) : list key :=
  if bool_decide (df_MoveFrom move ∈ targets) then [] else [parts (df_MoveFrom move)].
Lemma framed_move targets move :
  framed [parts (df_Path move)] (dropped targets move) (apply_move fault entropy targets move).
Proof.
  intros m. apply framed_at_bind; [apply quiet_framed, quiet_call|]. intros _ m1 _ _.
  apply framed_at_bind; [apply quiet_framed, quiet_move_destination|]. intros [] m2 _ _; [apply quiet_framed, quiet_ret|].
  unfold dropped. apply framed_at_bind.
  - case_bool_decide; [apply quiet_framed, quiet_ret|apply framed_move_source].
  - intros [] m3 _ _; [apply quiet_framed, quiet_ret|].
    apply (framed_mono [parts (df_Path move)] []); [done|set_solver|apply framed_apply_file].
Qed.
Lemma move_ok targets move m u m' : wf (m_fs m) ->
  (df_MoveFrom move ∉ targets -> ~ comparable (parts (df_Path move)) (parts (df_MoveFrom move))) ->
  apply_move fault entropy targets move m = (Ok u, m') ->
  holds (m_fs m') (parts (df_Path move)) (content_of move) (df_Mode move).
Proof.
  intros Hwf Hsep H. run_as H as v m1 E1. apply quiet_call in E1. rewrite <-E1 in Hwf. run_as H as settled m2 E2.
  apply quiet_move_destination in E2 as E2q. destruct settled.
  { injection H as <- <-. by apply move_destination_ok in E2. }
  rewrite <-E2q in Hwf. run_as H as moved m3 E3. destruct moved.
  - injection H as <- <-. case_bool_decide as Ht; [discriminate|]. apply move_source_ok in E3; eauto.
  - apply apply_file_ok in H; [done|]. case_bool_decide; [by apply quiet_ret in E3; rewrite E3|].
    by apply framed_move_source in E3 as [? _].
Qed.

(** ** Lists of operations *)

Definition apart {A} (ws ds : A -> list key) (k : A -> key) (x y : A) : Prop :=
  (forall p, p ∈ ws y ++ ds y -> ~ comparable p (k x)) /\ (forall p, p ∈ ws x ++ ds x -> ~ comparable p (k y)).
Lemma each_settles {A} (ws ds : A -> list key) (f : A -> run unit) (k : A -> key) (P : A -> option node -> option node -> Prop) l :
  (forall x, x ∈ l -> framed (ws x) (ds x) (f x)) ->
  (forall x m u m', x ∈ l -> wf (m_fs m) -> f x m = (Ok u, m') -> P x (m_fs m !! k x) (m_fs m' !! k x)) ->
  ForallOrdPairs (apart ws ds k) l ->
  forall m u m', wf (m_fs m) -> each f l m = (Ok u, m') -> wf (m_fs m') /\
    (forall x, x ∈ l -> P x (m_fs m !! k x) (m_fs m' !! k x)) /\
    (forall q, (forall x p, x ∈ l -> p ∈ ws x ++ ds x -> ~ comparable p q) -> m_fs m' !! q = m_fs m !! q).
Proof.
  intros Hf HP Hl. induction Hl as [|x l Hx Hl IH]; intros m u m' Hwf H; simpl in H.
  - injection H as <- <-. split; [done|]. split; [by intros x Hx%not_elem_of_nil|done].
  - run_as H as v m1 E1. assert (framed (ws x) (ds x) (f x)) as Fx by (apply Hf; by left).
    apply (framed_ok _ _ _ _ _ _ Fx) in E1 as Hwf1; [|done].
    apply IH in H as (Hwf' & HPl & Hfr); [|intros; apply Hf; by right|intros; eapply HP; [by right|done..]|done].
    split; [done|]. rewrite List.Forall_forall in Hx. split.
    + intros y [->|Hy]%elem_of_cons.
      * rewrite Hfr; [eapply HP; [by left|done..]|]. intros z p Hz Hp. apply list_elem_of_In in Hz. by apply (Hx z Hz).
      * specialize (HPl y Hy). apply list_elem_of_In in Hy. destruct (Hx y Hy) as [_ Hap].
        by rewrite <-(framed_stable _ _ _ _ _ _ (k y) Fx Hwf E1 Hap).
    + intros q Hq. rewrite Hfr; [|intros y p Hy; apply Hq; by right].
      apply (framed_stable _ _ _ _ _ _ q Fx Hwf E1). intros p. apply Hq. by left.
Qed.
End exact.
