(* ===== verification/WorkspaceSpec.v ===== *)
(** * Workspace reconciliation: the theorems

    A reconciliation that succeeds leaves every desired file as desired and nothing
    else changed; whatever fails, it stays within what it was asked to change; and
    without failures it succeeds. *)
From Stdlib Require Import Ascii.
From S2P Require Import Prelude Schema SchemaFacts PathIdentity PathFacts UserIntent UserIntentFacts Workspace WorkspaceFacts WorkspaceFrame.
From stdpp Require Import sorting base tactics strings list gmap numbers pretty.
From stdpp Require Import list options.
Open Scope nat_scope.
Open Scope go_scope.

(** ** Validated desired files *)

Abbreviation moves_of desired := (filter (fun d => df_MoveFrom d <> []) desired).
Abbreviation paths_of desired := (df_Path <$> desired).
Abbreviation sources_of desired := (df_MoveFrom <$> moves_of desired).

Record validated (desired : list DesiredFile) : Prop := Validated {
  v_paths : NoDup (paths_of desired);
  v_sources : NoDup (sources_of desired);
  v_states : forall d, d ∈ desired -> validate_authority d = Ok tt /\ df_MoveFrom d <> df_Path d
}.
Lemma desired_loop_spec l : forall targets sources st, loop desired_step (targets, sources) l = Ok st ->
  NoDup (paths_of l) /\ (forall d, d ∈ l -> df_Path d ∉ targets) /\
  NoDup (sources_of l) /\ (forall d, d ∈ moves_of l -> df_MoveFrom d ∉ sources) /\
  forall d, d ∈ l -> validate_authority d = Ok tt /\ df_MoveFrom d <> df_Path d.
Proof.
  induction l as [|d l IH]; intros targets sources st H.
  { simpl. split_and!; try apply NoDup_nil_2; intros ? []%not_elem_of_nil. }
  cbn [loop] in H. apply bind_ok in H as ([ts ss] & H1 & H). apply IH in H as (Hnp & Hp & Hns & Hs & Ha). clear IH.
  unfold desired_step in H1. apply check_ok in H1 as [Hv H1]. apply reject_ok in H1 as [Hfresh%bool_decide_eq_false H1].
  apply check_ok in H1 as [Hauth H1]. apply bind_ok in H1 as (ss' & Hss & H1). injection H1 as <- <-.
  assert (df_Path d <> []) as Hne.
  { intros E. rewrite E in Hv. by vm_compute in Hv. }
  assert (df_MoveFrom d <> df_Path d /\ sources ⊆ ss' /\ (df_MoveFrom d <> [] -> df_MoveFrom d ∉ sources /\ df_MoveFrom d ∈ ss'))
    as (Hdp & Hsub & Hsrc).
  { case_bool_decide as Hm; simpl in Hss.
    - injection Hss as <-. split_and!; [congruence|done|done].
    - apply check_ok in Hss as [_ Hss]. apply reject_ok in Hss as [Hd%bool_decide_eq_false Hss].
      apply reject_ok in Hss as [Hd2%bool_decide_eq_false Hss]. injection Hss as <-. set_solver. }
  split_and!.
  - rewrite fmap_cons, NoDup_cons. split; [|done]. intros (d' & E & Hd')%list_elem_of_fmap. apply (Hp d' Hd'). set_solver.
  - intros d' [->|Hd']%elem_of_cons; [done|]. specialize (Hp d' Hd'). set_solver.
  - destruct (decide (df_MoveFrom d <> [])) as [Hm|Hm]; [|by rewrite filter_cons_False].
    rewrite filter_cons_True, fmap_cons, NoDup_cons by done. split; [|done].
    intros (d' & E & Hd')%list_elem_of_fmap. apply (Hs d' Hd'). rewrite <-E. by apply Hsrc.
  - intros d'. rewrite list_elem_of_filter. intros [Hm [->|Hd']%elem_of_cons]; [by apply Hsrc|].
    intros Hin. apply (Hs d'); [by apply list_elem_of_filter|by apply Hsub].
  - intros d' [->|Hd']%elem_of_cons; auto.
Qed.
Lemma authority_normalized d : validate_authority d = Ok tt -> validate_authority (normalized d) = Ok tt.
Proof.
  unfold validate_authority, normalized. simpl. destruct (df_Present d); [done|]. destruct (df_Content d) as [c|]; [|done].
  simpl. discriminate.
Qed.
Lemma moves_normalized (l : list DesiredFile) : sources_of (normalized <$> l) = sources_of l.
Proof.
  induction l as [|d l IH]; [done|]. rewrite fmap_cons. destruct (decide (df_MoveFrom d <> [])) as [Hm|Hm].
  - rewrite !filter_cons_True, !fmap_cons by done. by rewrite IH.
  - by rewrite !filter_cons_False.
Qed.
Lemma paths_normalized (l : list DesiredFile) : paths_of (normalized <$> l) = paths_of l.
Proof. rewrite <-list_fmap_compose. by apply list_fmap_ext. Qed.
Lemma validate_desired_spec input desired : validateDesiredFiles input = Ok desired ->
  desired ≡ₚ normalized <$> input /\ validated desired.
Proof.
  intros H. unfold validateDesiredFiles in H. apply bind_ok in H as (st & Hl & H). apply reject_ok in H as [_ H].
  injection H as <-. apply desired_loop_spec in Hl as (Hp & _ & Hs & _ & Ha).
  assert (sort_by (fun d => of_bytes (df_Path d)) (normalized <$> input) ≡ₚ normalized <$> input) as Hperm
    by apply sort_by_Permutation. split; [done|]. split.
  - by rewrite Hperm, paths_normalized.
  - by rewrite Hperm, moves_normalized.
  - intros d. rewrite Hperm, list_elem_of_fmap. intros (d' & -> & Hd'). destruct (Ha d' Hd') as [H1 H2].
    split; [by apply authority_normalized|done].
Qed.

(** ** What is written and what is deleted *)

Definition written (desired : list DesiredFile) : list key :=
  parts <$> paths_of (filter (fun d => df_Present d = true) desired).
Definition deleted (desired : list DesiredFile) : list key :=
  (parts <$> paths_of (filter (fun d => df_Present d = false) desired)) ++
  (parts <$> filter (fun s => s ∉ paths_of (moves_of desired)) (sources_of desired)).

(** No path is a directory of another one. *)
Definition separate (desired : list DesiredFile) : Prop :=
  forall a b, a ∈ paths_of desired ++ sources_of desired -> b ∈ paths_of desired ++ sources_of desired -> a <> b ->
    ~ comparable (parts a) (parts b).
(** A desired file after the run from [fs] to [fs']: an absent path is free; an existing
    regular file that is to be preserved, and is not the source of a move, is as it
    was; every other file has the desired content and mode. *)
Definition as_desired (sources : list text) (fs fs' : fs_t) (d : DesiredFile) : Prop :=
  let p := parts (df_Path d) in
  let kept := df_PreserveExisting d = true /\ df_Path d ∉ sources /\ regular (fs !! p) in
  (df_Present d = false -> fs' !! p = None) /\
  (df_Present d = true -> kept -> fs' !! p = fs !! p) /\
  (df_Present d = true -> ~ kept -> holds fs' p (content_of d) (df_Mode d)).

Lemma ordered_pairs {A B} (g : A -> B) (R : A -> A -> Prop) l : NoDup (g <$> l) ->
  (forall x y, x ∈ l -> y ∈ l -> g x <> g y -> R x y) -> ForallOrdPairs R l.
Proof.
  induction l as [|x l IH]; intros Hnd HR; [constructor|]. apply NoDup_cons in Hnd as [Hx Hnd]. constructor.
  - apply List.Forall_forall. intros y Hy%list_elem_of_In. apply HR; [by left|by right|]. intros E. apply Hx.
    apply list_elem_of_fmap. eauto.
  - apply IH; [done|]. intros y z Hy Hz. apply HR; by right.
Qed.
Lemma filtered_paths (l : list DesiredFile) : NoDup (paths_of l) -> NoDup (paths_of (moves_of l)).
Proof.
  induction l as [|d l IH]; intros Hnd; [done|]. apply NoDup_cons in Hnd as [Hd Hnd].
  destruct (decide (df_MoveFrom d <> [])) as [Hm|Hm]; [|rewrite filter_cons_False by done; auto].
  rewrite filter_cons_True, fmap_cons by done. apply NoDup_cons. split; [|auto].
  intros (d' & E & [_ Hd']%list_elem_of_filter)%list_elem_of_fmap. apply Hd. apply list_elem_of_fmap. eauto.
Qed.
Lemma comparable_sym p q : comparable p q -> comparable q p.
Proof. intros [H|H]; [by right|by left]. Qed.

Section reconcile.
Set Default Proof Using "Type".
Context (fault : nat -> bool) (entropy : nat -> text) (desired : list DesiredFile).

Lemma move_state d : validated desired -> d ∈ moves_of desired -> df_Present d = true /\ df_PreserveExisting d = false /\ df_CreateOnly d = false.
Proof.
  intros Hv [Hm Hd]%list_elem_of_filter. destruct (v_states _ Hv d Hd) as [Ha _]. unfold validate_authority in Ha.
  assert ((df_MoveFrom d != []) = true) as E by (rewrite bool_decide_false; done). rewrite !E in Ha.
  destruct (df_Present d); [|by rewrite !orb_true_r in Ha].
  destruct (df_PreserveExisting d); [done|]. by destruct (df_CreateOnly d).
Qed.
Lemma path_unique d d' : validated desired -> d ∈ desired -> d' ∈ desired -> df_Path d = df_Path d' -> d = d'.
Proof.
  intros Hv Hd Hd' E. apply list_elem_of_lookup in Hd as [i Hi]. apply list_elem_of_lookup in Hd' as [j Hj].
  assert (i = j) as ->; [|congruence]. apply (NoDup_lookup _ _ _ (df_Path d) (v_paths _ Hv)); rewrite list_lookup_fmap.
  - by rewrite Hi.
  - rewrite Hj. simpl. by rewrite E.
Qed.
(** The moves. *)
Lemma moves_ok m u m' (moves := moves_of desired) : validated desired -> separate desired -> wf (m_fs m) ->
  applyMoves fault entropy moves m = (Ok u, m') ->
  wf (m_fs m') /\ (forall d, d ∈ moves -> holds (m_fs m') (parts (df_Path d)) (content_of d) (df_Mode d)) /\
  (forall d, d ∈ moves -> df_MoveFrom d ∉ paths_of moves -> m_fs m' !! parts (df_MoveFrom d) = None) /\
  (forall a, a ∈ paths_of desired -> a ∉ paths_of moves -> a ∉ sources_of desired -> m_fs m' !! parts a = m_fs m !! parts a).
Proof.
  intros Hv Hsep Hwf H. unfold applyMoves in H. set (targets := paths_of moves) in *. run_as H as v m1 E1.
  assert (forall d, d ∈ moves -> df_Path d ∈ paths_of desired ++ sources_of desired) as Hin1.
  { intros d [_ Hd]%list_elem_of_filter. apply elem_of_app. left. apply list_elem_of_fmap. eauto. }
  assert (forall d, d ∈ moves -> df_MoveFrom d ∈ paths_of desired ++ sources_of desired) as Hin2.
  { intros d Hd. apply elem_of_app. right. apply list_elem_of_fmap. eauto. }
  assert (forall d, d ∈ moves -> df_Path d ∈ targets) as Hin3.
  { intros d Hd. apply list_elem_of_fmap. eauto. }
  assert (forall d p, p ∈ dropped targets d -> df_MoveFrom d ∉ targets /\ p = parts (df_MoveFrom d)) as Hdrop.
  { intros d p. unfold dropped. case_bool_decide; [by intros ?%not_elem_of_nil|]. by intros ->%list_elem_of_singleton. }
  assert (NoDup targets) as Hnd by (apply filtered_paths; by apply v_paths).
  apply (each_settles (fun d => [parts (df_Path d)]) (dropped targets) _ (fun d => parts (df_Path d))
    (fun d _ after => exists i, after = Some (NFile i (content_of d) (df_Mode d)))) in E1 as (Hwf1 & Hhold & Hfr1); [| | | |done].
  2:{ intros d _. apply framed_move. }
  2:{ intros d m0 u0 m0' Hd Hwf0 E. apply move_ok in E; [done..|]. intros Hn. apply Hsep; auto. intros E'. apply Hn. rewrite <-E'. auto. }
  2:{ apply (ordered_pairs df_Path); [done|]. intros x y Hx Hy Hne. split.
      - intros p [->%list_elem_of_singleton|[Hn ->]%Hdrop]%elem_of_app; apply Hsep; auto. intros E. apply Hn. rewrite E. auto.
      - intros p [->%list_elem_of_singleton|[Hn ->]%Hdrop]%elem_of_app; apply Hsep; auto. intros E. apply Hn. rewrite E. auto. }
  apply (each_settles (fun d => []) (dropped targets) _ (fun d => parts (df_MoveFrom d))
    (fun d _ after => df_MoveFrom d ∉ targets -> after = None)) in H as (Hwf' & Hgone & Hfr2); [| | | |done].
  2:{ intros d _ m0. unfold dropped. case_bool_decide; [apply quiet_framed, quiet_ret|]. apply framed_deletion. by left. }
  2:{ intros d m0 u0 m0' Hd Hwf0 E Hn. rewrite bool_decide_false in E by done. by apply deletion_ok in E. }
  2:{ apply (ordered_pairs df_MoveFrom); [by apply v_sources|]. intros x y Hx Hy Hne.
      split; intros p [_ ->]%Hdrop; apply Hsep; auto. }
  split_and!; [done| |done|].
  - intros d Hd. unfold holds. rewrite Hfr2; [by apply Hhold|]. intros x p Hx [Hn ->]%Hdrop. apply Hsep; auto.
    intros E. apply Hn. rewrite E. auto.
  - intros a Ha Hnt Hns. rewrite Hfr2, Hfr1; [done|..].
    + intros x p Hx [->%list_elem_of_singleton|[Hn ->]%Hdrop]%elem_of_app; (apply Hsep; [by auto|by apply elem_of_app; left|]).
      * intros <-. apply Hnt. auto.
      * intros <-. apply Hns. apply list_elem_of_fmap. eauto.
    + intros x p Hx [Hn ->]%Hdrop. apply Hsep; [by auto|by apply elem_of_app; left|]. intros <-. apply Hns. apply list_elem_of_fmap. eauto.
Qed.
(** The other files. *)
Lemma framed_state d : framed (if df_Present d then [parts (df_Path d)] else []) (if df_Present d then [] else [parts (df_Path d)])
  (apply_state fault entropy d).
Proof.
  intros m. unfold apply_state. case_bool_decide; simpl; [|apply quiet_framed, quiet_ret].
  apply framed_at_bind; [apply quiet_framed, quiet_call|]. intros _ m1 _ _. destruct (df_Present d).
  - destruct (df_PreserveExisting d); [apply framed_required|apply framed_apply_file].
  - apply framed_deletion. by left.
Qed.
Definition state_result (d : DesiredFile) (before after : option node) : Prop :=
  (df_MoveFrom d <> [] -> after = before) /\
  (df_MoveFrom d = [] -> df_Present d = false -> after = None) /\
  (df_MoveFrom d = [] -> df_Present d = true -> df_PreserveExisting d = true -> regular before -> after = before) /\
  (df_MoveFrom d = [] -> df_Present d = true -> (df_PreserveExisting d = false \/ ~ regular before) ->
     exists i, after = Some (NFile i (content_of d) (df_Mode d))).
Lemma state_ok d m u m' (p := parts (df_Path d)) : wf (m_fs m) -> apply_state fault entropy d m = (Ok u, m') ->
  state_result d (m_fs m !! p) (m_fs m' !! p).
Proof.
  intros Hwf H. unfold apply_state in H. unfold state_result. case_bool_decide as Hm; simpl in H.
  2:{ injection H as <- <-. by split_and!. }
  run_as H as v m1 E1. apply quiet_call in E1. rewrite <-E1 in Hwf |- *. split; [done|]. destruct (df_Present d).
  - split; [done|]. destruct (df_PreserveExisting d).
    + apply required_file_ok in H as [[Hr E]|[Hr Hh]]; [..|done]; split; intros; try done. by destruct_or?.
    + split; [done|]. intros _ _ _. by apply apply_file_ok in H.
  - apply deletion_ok in H; [|done]. by split_and!.
Qed.
Lemma reconcile_settles m u m' : validated desired -> separate desired -> wf (m_fs m) ->
  applyReconciliation fault entropy desired m = (Ok u, m') ->
  wf (m_fs m') /\ (forall d, d ∈ desired -> as_desired (sources_of desired) (m_fs m) (m_fs m') d) /\
  (forall s, s ∈ sources_of desired -> s ∉ paths_of desired -> m_fs m' !! parts s = None).
Proof.
  intros Hv Hsep Hwf H. run_as H as v m1 E1. apply moves_ok in E1 as (Hwf1 & Hmoved & Hgone & Hsame); [|done..].
  assert (forall d, d ∈ desired -> df_Path d ∈ paths_of desired ++ sources_of desired) as Hin.
  { intros d Hd. apply elem_of_app. left. apply list_elem_of_fmap. eauto. }
  assert (forall d p, p ∈ (if df_Present d then [parts (df_Path d)] else []) ++ (if df_Present d then [] else [parts (df_Path d)]) ->
    p = parts (df_Path d)) as Hown.
  { intros d p. destruct (df_Present d); simpl; by intros ->%list_elem_of_singleton. }
  apply (each_settles (fun d => if df_Present d then [parts (df_Path d)] else []) (fun d => if df_Present d then [] else [parts (df_Path d)])
    _ (fun d => parts (df_Path d)) state_result) in H as (Hwf' & Hst & Hfr); [| | | |done].
  2:{ intros d _. apply framed_state. }
  2:{ intros d m0 u0 m0' _ Hwf0 E. by apply state_ok in E. }
  2:{ apply (ordered_pairs df_Path); [by apply v_paths|]. intros x y Hx Hy Hne. split; intros p ->%Hown; apply Hsep; auto. }
  split; [done|]. split.
  - intros d Hd. destruct (Hst d Hd) as (H1 & H2 & H3 & H4). destruct (decide (df_MoveFrom d = [])) as [Hm|Hm].
    + assert (df_Path d ∉ paths_of (moves_of desired)) as Hnt.
      { intros (d' & E & [Hm' Hd']%list_elem_of_filter)%list_elem_of_fmap. apply (path_unique d d') in E; congruence. }
      split; [by apply H2|]. split.
      * intros Hp (Hk & Hs & Hr). rewrite <-(Hsame (df_Path d)) in Hr |- *; [by apply H3|try done..].
        all: apply list_elem_of_fmap; eauto.
      * intros Hp Hk. apply H4; [done..|]. destruct (df_PreserveExisting d); [right|by left]. intros Hr. apply Hk.
        assert (df_Path d ∉ sources_of desired) as Hs.
        { intros (d' & E & Hd')%list_elem_of_fmap. rewrite E in Hr, Hnt. rewrite (Hgone d' Hd' Hnt) in Hr. by destruct Hr as (? & ? & ? & ?). }
        rewrite (Hsame (df_Path d)) in Hr; [done|..|done|done]. apply list_elem_of_fmap; eauto.
    + assert (d ∈ moves_of desired) as Hdm by by apply list_elem_of_filter.
      destruct (move_state d Hv Hdm) as (Hp & Hk & _). unfold as_desired, holds. rewrite Hp, Hk, (H1 Hm). split; [done|].
      split; [by intros _ []|]. intros _ _. by apply Hmoved.
  - intros s (d & -> & Hd)%list_elem_of_fmap Hn. rewrite Hfr.
    + apply Hgone; [done|]. intros (d' & E & [_ Hd']%list_elem_of_filter)%list_elem_of_fmap. apply Hn, list_elem_of_fmap. eauto.
    + intros x p Hx ->%Hown. apply Hsep; [by auto|apply elem_of_app; right; apply list_elem_of_fmap; eauto|].
      intros E. apply Hn. rewrite <-E. apply list_elem_of_fmap; eauto.
Qed.
Lemma framed_moves ws ds moves :
  (forall d, d ∈ moves -> [parts (df_Path d)] ⊆ ws) -> (forall d, d ∈ moves -> dropped (paths_of moves) d ⊆ ds) ->
  framed ws ds (applyMoves fault entropy moves).
Proof.
  intros Hw Hs. apply framed_bind; [|intros _]; apply framed_each; intros d Hm.
  - eapply framed_mono; [by apply Hw|by apply Hs|apply framed_move].
  - specialize (Hs d Hm). unfold dropped in Hs. case_bool_decide; [apply quiet_framed, quiet_ret|].
    apply framed_deletion. apply elem_of_app. right. apply Hs. by left.
Qed.
Lemma framed_reconcile : validated desired -> framed (written desired) (deleted desired) (applyReconciliation fault entropy desired).
Proof.
  intros Hv.
  assert (forall d, d ∈ desired -> df_Present d = true -> [parts (df_Path d)] ⊆ written desired) as Hw.
  { intros d Hd Hp p ->%list_elem_of_singleton. apply list_elem_of_fmap. exists (df_Path d). split; [done|].
    apply list_elem_of_fmap. exists d. split; [done|]. by apply list_elem_of_filter. }
  assert (forall d, d ∈ desired -> df_Present d = false -> [parts (df_Path d)] ⊆ deleted desired) as Hd.
  { intros d Hd Hp p ->%list_elem_of_singleton. apply elem_of_app. left. apply list_elem_of_fmap. exists (df_Path d). split; [done|].
    apply list_elem_of_fmap. exists d. split; [done|]. by apply list_elem_of_filter. }
  assert (forall d, d ∈ moves_of desired -> dropped (paths_of (moves_of desired)) d ⊆ deleted desired) as Hs.
  { intros d Hm p. unfold dropped. case_bool_decide as Hn; [by intros ?%not_elem_of_nil|]. intros ->%list_elem_of_singleton.
    apply elem_of_app. right. apply list_elem_of_fmap. exists (df_MoveFrom d). split; [done|]. apply list_elem_of_filter.
    split; [done|]. apply list_elem_of_fmap. eauto. }
  apply framed_bind; [apply framed_moves; [|done]|intros _].
  - intros d Hm. destruct (move_state d Hv Hm) as (Hp & _). apply Hw; [by apply list_elem_of_filter in Hm as [_ ?]|done].
  - apply framed_each. intros d Hin. eapply framed_mono; [| |apply framed_state]; destruct (df_Present d) eqn:Ep.
    + by apply Hw.
    + apply list_subseteq_nil.
    + apply list_subseteq_nil.
    + by apply Hd.
Qed.
End reconcile.

(** ** The theorems *)

(** C18: a reconciliation of validated desired files that succeeds, whatever calls into
    the operating system failed on the way, leaves every desired path as desired: absent
    paths are free, present files have exactly the desired bytes and mode (or are the
    preserved regular file), the sources of moves are gone unless they are wanted
    themselves, no temporary file remains, and nothing changes but the written and
    deleted paths, what lies below them, and the parents that had to become
    directories.  It needs that no path is a directory of another, which the validation
    does not ensure. *)
Theorem reconcile_exact fault entropy input desired m u m' :
  validateDesiredFiles input = Ok desired -> separate desired -> wf (m_fs m) ->
  applyReconciliation fault entropy desired m = (Ok u, m') ->
  wf (m_fs m') /\
  (forall d, d ∈ desired -> as_desired (sources_of desired) (m_fs m) (m_fs m') d) /\
  (forall s, s ∈ sources_of desired -> s ∉ paths_of desired -> m_fs m' !! parts s = None) /\
  (forall q, m_fs m' !! q = m_fs m !! q \/ change (written desired) (deleted desired) (m_fs m) (m_fs m') q).
Proof.
  intros [_ Hv]%validate_desired_spec Hsep Hwf H. apply reconcile_settles in H as Hs; [|done..].
  destruct Hs as (Hwf' & Hd & Hs). split_and!; [done..|]. intros q.
  apply (framed_reconcile fault entropy desired Hv) in H as [_ F]; [|done].
  destruct (F q) as [E|[E|[[? ?] _]]]; [by left|by right|discriminate].
Qed.
(** C19: whatever happens during a reconciliation — any pattern of failing calls and
    cancellations, success or error — nothing is touched outside the paths to write or
    delete, what lies below them (which is only ever removed), their parents that are
    not directories, and, after an error, temporary files beside a path to write. *)
Theorem reconcile_frame fault entropy input desired m r m' :
  validateDesiredFiles input = Ok desired -> wf (m_fs m) -> applyReconciliation fault entropy desired m = (r, m') ->
  wf (m_fs m') /\
  forall q, m_fs m' !! q = m_fs m !! q \/ change (written desired) (deleted desired) (m_fs m) (m_fs m') q \/
    ((exists e, r = Err e) /\ temporary (written desired) q).
Proof. intros [_ Hv]%validate_desired_spec Hwf H. by apply (framed_reconcile fault entropy desired Hv) in H. Qed.
