(* ===== verification/WorkspaceTotal.v ===== *)
(** * Reconciliation succeeds when nothing fails

    A weakest precondition for runs in which no call fails, its rules for the calls, and
    that every operation of [Workspace.v] then returns.  The parts of a result that do
    not depend on this come from the partial rules of the other files. *)
From Stdlib Require Import Ascii.
From S2P Require Import Prelude Schema PathIdentity UserIntent UserIntentFacts Workspace WorkspaceFacts WorkspaceFrame.
From stdpp Require Import sorting base tactics strings list gmap numbers pretty.
From stdpp Require Import list options.
Open Scope nat_scope.
Open Scope go_scope.

Definition no_fault (_ : nat) : bool := false.
(** [c] returns from [m], with a value and a file system in [Q]. *)
Definition wp {A} (c : run A) (m : machine) (Q : A -> fs_t -> Prop) : Prop :=
  exists a m', c m = (Ok a, m') /\ Q a (m_fs m').

Section rules.
Context {A : Type}.
Implicit Types (c : run A) (m : machine).
Lemma wp_ret (a : A) m (Q : A -> fs_t -> Prop) : Q a (m_fs m) -> wp (ret a) m Q.
Proof. intros H. by exists a, m. Qed.
Lemma wp_bind {B} c (k : A -> run B) m Q :
  wp c m (fun a fs => forall m1, c m = (Ok a, m1) -> m_fs m1 = fs -> wp (k a) m1 Q) -> wp (bind c k) m Q.
Proof.
  intros (a & m1 & E & H). destruct (H m1 E eq_refl) as (b & m2 & E2 & HQ). exists b, m2. unfold bind. by rewrite E.
Qed.
Lemma wp_mono c m (Q Q' : A -> fs_t -> Prop) : (forall a fs, Q a fs -> Q' a fs) -> wp c m Q -> wp c m Q'.
Proof. intros HQ (a & m' & E & H). exists a, m'. auto. Qed.
(** The rules of the other files apply to the result. *)
Lemma wp_partial c m (Q : A -> fs_t -> Prop) : wp c m (fun _ _ => True) -> (forall a m', c m = (Ok a, m') -> Q a (m_fs m')) -> wp c m Q.
Proof. intros (a & m' & E & _) H. exists a, m'. auto. Qed.
Lemma wp_bind_post c m (Q1 Q : A -> fs_t -> Prop) : wp c m Q1 -> (forall a m', c m = (Ok a, m') -> Q1 a (m_fs m') -> Q a (m_fs m')) -> wp c m Q.
Proof. intros (a & m' & E & H1) H. exists a, m'. auto. Qed.
End rules.

Lemma wp_stop_when (b : bool) (e : string) (m : machine) (Q : unit -> fs_t -> Prop) : b = false -> Q tt (m_fs m) -> wp (stop_when b e) m Q.
Proof. intros ->. apply wp_ret. Qed.
Lemma wp_record (c : Change) (m : machine) (Q : unit -> fs_t -> Prop) : Q tt (m_fs m) -> wp (record_change c) m Q.
Proof. intros H. by eexists _, _. Qed.
Lemma wp_on_error {A} (c : run A) cleanup (m : machine) Q : wp c m Q -> wp (on_error c cleanup) m Q.
Proof. intros (a & m' & E & H). exists a, m'. unfold on_error. by rewrite E. Qed.
Lemma wp_syscall {A B} (f : machine -> A * machine) (g : option A -> B) (m : machine) Q :
  (forall m1, m_fs m1 = m_fs m -> Q (g (Some (f m1).1)) (m_fs (f m1).2)) ->
  wp (let! a := syscall no_fault f in ret (g a)) m Q.
Proof.
  intros H. unfold wp, bind, syscall, no_fault, ret. set (m1 := Machine _ _ _ _). specialize (H m1 eq_refl).
  destruct (f m1) as [a m2]. by eexists _, _.
Qed.
Lemma wp_call (e : string) (m : machine) (Q : unit -> fs_t -> Prop) : Q tt (m_fs m) -> wp (call no_fault e) m Q.
Proof. intros H. by eexists _, _. Qed.
Lemma wp_look {A} (f : machine -> A) (m : machine) (Q : option A -> fs_t -> Prop) :
  (forall m1, m_fs m1 = m_fs m -> Q (Some (f m1)) (m_fs m)) -> wp (syscall no_fault (fun m => (f m, m))) m Q.
Proof. intros H. eexists _, _. split; [done|]. by apply H. Qed.
Lemma wp_lstat (p : key) (m : machine) (Q : stat -> fs_t -> Prop) : Q (resolve (m_fs m) [] p) (m_fs m) -> wp (lstat no_fault p) m Q.
Proof. intros H. apply wp_syscall. intros m1 E. simpl. by rewrite E. Qed.
Lemma wp_mkdir (p : key) (m : machine) (Q : outcome -> fs_t -> Prop) : wf (m_fs m) -> p <> [] -> m_fs m !! p = None -> directory (m_fs m) (parent p) ->
  Q Done (<[p := NDir]> (m_fs m)) -> wp (mkdir no_fault p) m Q.
Proof.
  intros Hwf Hp Hn Hd H. apply wp_syscall. intros m1 E. rewrite E, (directory_missing _ _ Hwf Hp Hd Hn).
  rewrite (directory_is_dir _ _ Hwf Hd). done.
Qed.
Lemma wp_remove (p : key) (n : node) (m : machine) (Q : outcome -> fs_t -> Prop) : wf (m_fs m) -> m_fs m !! p = Some n ->
  (n = NDir -> children (m_fs m) p = []) -> Q Done (delete p (m_fs m)) -> wp (remove_path no_fault p) m Q.
Proof.
  intros Hwf Hn Hc H. apply wp_syscall. intros m1 E. rewrite E, (lookup_resolve _ _ _ Hwf Hn).
  destruct (Hwf p n Hn) as [Hp _]. destruct n as [|i c mo|i]; [|done..]. rewrite bool_decide_false; [done|].
  rewrite Hc by done. by intros [?|?].
Qed.
Lemma wp_create (p : key) (m : machine) (Q : outcome -> fs_t -> Prop) : wf (m_fs m) -> p <> [] -> m_fs m !! p = None -> directory (m_fs m) (parent p) ->
  (forall i, Q Done (<[p := NFile i [] 384]> (m_fs m))) -> wp (create_exclusive no_fault p) m Q.
Proof.
  intros Hwf Hp Hn Hd H. apply wp_syscall. intros m1 E. rewrite E, (directory_missing _ _ Hwf Hp Hd Hn).
  rewrite (directory_is_dir _ _ Hwf Hd). simpl. apply H.
Qed.
Lemma wp_update (p : key) (f : text -> Z -> text * Z) (i : nat) (c : text) (mo : Z) (m : machine) (Q : outcome -> fs_t -> Prop) : m_fs m !! p = Some (NFile i c mo) ->
  Q Done (<[p := NFile i (f c mo).1 (f c mo).2]> (m_fs m)) -> wp (update_file no_fault p f) m Q.
Proof. intros Hl H. apply wp_syscall. intros m1 E. rewrite E, Hl. by destruct (f c mo). Qed.
Lemma wp_rename (nr : bool) (from to : key) (i : nat) (c : text) (mo : Z) (m : machine) (Q : outcome -> fs_t -> Prop) : wf (m_fs m) -> to <> [] ->
  m_fs m !! from = Some (NFile i c mo) -> directory (m_fs m) (parent to) -> m_fs m !! to <> Some NDir ->
  (nr = true -> m_fs m !! to = None) -> Q Done (<[to := NFile i c mo]> (delete from (m_fs m))) ->
  wp (rename no_fault nr from to) m Q.
Proof.
  intros Hwf Ht Hf Hd Hnd Hnr H. apply wp_syscall. intros m1 E. rewrite E, (lookup_resolve _ _ _ Hwf Hf).
  destruct (m_fs m !! to) as [n|] eqn:El.
  - rewrite (lookup_resolve _ _ _ Hwf El). destruct nr; [by specialize (Hnr eq_refl)|]. rewrite bool_decide_false by congruence. done.
  - rewrite (directory_missing _ _ Hwf Ht Hd El), (directory_is_dir _ _ Hwf Hd). done.
Qed.

(** ** Parents *)

Lemma resolve_cases fs p : wf fs -> p <> [] -> directory fs (parent p) ->
  resolve fs [] p = match fs !! p with Some n => SFound n | None => SMissing end.
Proof.
  intros Hwf Hp Hd. destruct (fs !! p) as [n|] eqn:E; [by apply lookup_resolve|by apply directory_missing].
Qed.
(** A file or link in the place of a parent. *)
Lemma wp_replace_parent (record : bool) (p : key) (n : node) (m : machine) :
  wf (m_fs m) -> directory (m_fs m) (parent p) -> m_fs m !! p = Some n -> n <> NDir ->
  wp (do check_context no_fault "replace workspace parent for %q: %w";
      let! removed := remove_path no_fault p in
      do stop_when (bool_decide (removed <> Done)) "replace workspace parent for %q: %w";
      do (if record then verifyAndRecordWorkspaceDeletion no_fault p else ret tt);
      let! made := mkdir no_fault p in
      do stop_when (bool_decide (made <> Done)) "create workspace parent for %q: %w";
      ret None) m (fun (o : option bool) fs => o = None /\ fs = <[p := NDir]> (m_fs m)).
Proof.
  intros Hwf Hd Hl Hn. destruct (Hwf p n Hl) as [Hp _].
  apply wp_bind, wp_call. intros m1 _ E1. apply wp_bind, (wp_remove p n); [by rewrite E1..|done|]. intros m2 _ E2. rewrite E1 in E2.
  assert (directory (delete p (m_fs m)) (parent p)) as Hdd.
  { destruct Hd as [->|Hdd]; [by left|right]. rewrite lookup_delete_ne; congruence. }
  assert (wf (delete p (m_fs m))) as Hwf2.
  { apply wf_delete; [done|]. intros q Hq. by eapply wf_empty_below. }
  assert (resolve (delete p (m_fs m)) [] p = SMissing) as Er by (apply directory_missing; auto; apply lookup_delete_eq).
  apply wp_bind, wp_stop_when; [done|]. intros m3 _ E3. rewrite E2 in E3. apply wp_bind.
  assert (wp (if record then verifyAndRecordWorkspaceDeletion no_fault p else ret tt) m3 (fun _ fs => fs = delete p (m_fs m))) as Hv.
  { destruct record; [|by apply wp_ret]. apply wp_bind, wp_bind, wp_lstat. intros m7 _ E7. rewrite E3, Er.
    apply wp_ret. intros m8 _ E8. apply wp_record. by rewrite E8, E7, E3. }
  revert Hv. apply wp_mono. intros _ fs -> m7 _ E7. apply wp_bind, wp_mkdir; rewrite ?E7; auto; [apply lookup_delete_eq|].
  intros m8 _ E8. apply wp_bind, wp_stop_when; [done|]. intros m9 _ E9. apply wp_ret. split; [done|].
  by rewrite E9, E8, insert_delete_eq.
Qed.
Lemma wp_inspect_parent (replace record : bool) (p : key) (m : machine) :
  wf (m_fs m) -> p <> [] -> directory (m_fs m) (parent p) ->
  (replace = false -> m_fs m !! p = None \/ m_fs m !! p = Some NDir) ->
  wp (inspect_parent no_fault true replace record p) m (fun o fs => o = None /\ fs = <[p := NDir]> (m_fs m)).
Proof.
  intros Hwf Hp Hd Hr. unfold inspect_parent. apply wp_bind, wp_lstat. intros m1 _ E1.
  rewrite resolve_cases by done. apply wp_bind. destruct (m_fs m !! p) as [n|] eqn:El.
  - apply wp_ret. intros m2 _ E2. rewrite E1 in E2. destruct (decide (n = NDir)) as [->|Hn].
    { apply wp_ret. split; [done|]. by rewrite E2, insert_id. }
    destruct replace; [|destruct (Hr eq_refl); congruence].
    destruct n; [done|..]; (apply wp_bind, wp_stop_when; [done|]; intros m3 _ E3; rewrite E2 in E3; rewrite <-E3 in *;
      eapply wp_replace_parent; eauto).
  - apply wp_bind, wp_call. intros m2 _ E2. rewrite E1 in E2. apply wp_bind, wp_mkdir; rewrite ?E2; try done. intros m3 _ E3.
    apply wp_bind, wp_stop_when; [done|]. intros m4 _ E4. rewrite E3 in E4.
    apply wp_bind, wp_lstat. intros m5 _ E5. apply wp_ret. intros m6 _ E6. rewrite E5, E4 in E6.
    assert (resolve (m_fs m4) [] p = SFound NDir) as ->; [|by apply wp_ret].
    rewrite E4. apply lookup_resolve; [by apply wf_insert|apply lookup_insert_eq].
Qed.
Definition parents_made (p : key) (fs fs' : fs_t) : Prop :=
  wf fs' /\ directory fs' (parent p) /\
  forall q, fs' !! q = fs !! q \/ (strict_prefix q p /\ q <> [] /\ fs' !! q = Some NDir).
Lemma wp_inspect_parents (replace record : bool) (rest : key) : forall (pre : key) (m : machine), wf (m_fs m) -> rest <> [] ->
  (replace = false -> forall d, d <> [] -> strict_prefix d (pre ++ rest) -> m_fs m !! d = None \/ m_fs m !! d = Some NDir) ->
  directory (m_fs m) pre ->
  wp (inspect_parents no_fault true replace record pre rest) m (fun _ fs => parents_made (pre ++ rest) (m_fs m) fs).
Proof.
  induction rest as [|x rest IH]; intros pre m Hwf Hp Hr Hpre; [done|]. destruct rest as [|y rest].
  { apply wp_ret. split; [done|]. split; [by rewrite parent_snoc|]. by left. }
  rewrite inspect_parents_cons. assert (strict_prefix (pre ++ [x]) (pre ++ x :: y :: rest)) as Hs.
  { split; [exists (y :: rest); by rewrite <-app_assoc|]. intros E. apply (f_equal length) in E. rewrite !length_app in E. simpl in E. lia. }
  apply wp_bind. eapply wp_mono; [|apply wp_inspect_parent; [done|by destruct pre|by rewrite parent_snoc|]].
  2:{ intros Hre. apply Hr; [done|by destruct pre|done]. }
  intros o fs [-> ->] m1 _ E1. replace (pre ++ x :: y :: rest) with ((pre ++ [x]) ++ y :: rest) in * by by rewrite <-app_assoc.
  eapply wp_mono; [|apply IH; rewrite ?E1].
  - intros _ fs (Hwf' & Hd & Hq). split; [done|]. split; [done|]. intros q. destruct (Hq q) as [E|E]; [|by right].
    rewrite E, E1. destruct (decide (pre ++ [x] = q)) as [<-|Hne]; [right|left; by rewrite lookup_insert_ne].
    split; [done|]. split; [by destruct pre|apply lookup_insert_eq].
  - apply wf_insert; [done|by destruct pre|by rewrite parent_snoc|done].
  - done.
  - intros Hre d Hd Hsd. destruct (decide (pre ++ [x] = d)) as [<-|Hne]; [right; apply lookup_insert_eq|].
    rewrite lookup_insert_ne by done. by apply Hr.
  - right. apply lookup_insert_eq.
Qed.
Lemma wp_parents (replace record : bool) (p : key) (m : machine) : wf (m_fs m) -> p <> [] ->
  (replace = false -> forall d, d <> [] -> strict_prefix d p -> m_fs m !! d = None \/ m_fs m !! d = Some NDir) ->
  wp (inspectWorkspaceParents no_fault p true replace record) m (fun _ fs => parents_made p (m_fs m) fs).
Proof.
  intros Hwf Hp Hr. apply wp_bind, wp_call. intros m1 _ E1. rewrite <-E1 in *. apply (wp_inspect_parents _ _ p []); [done..|by left].
Qed.
(** Looking only: the file system is as it was, and without a missing parent the path
    has a directory. *)
Lemma wp_look_parents record (p : key) (m : machine) : wf (m_fs m) -> p <> [] ->
  wp (inspectWorkspaceParents no_fault p false false record) m
    (fun b fs => fs = m_fs m /\ (b = false -> directory (m_fs m) (parent p))).
Proof.
  intros Hwf Hp. apply wp_bind, wp_call. intros m1 _ E1. rewrite <-E1 in *. clear m E1.
  assert (forall rest pre m, wf (m_fs m) -> rest <> [] -> directory (m_fs m) pre ->
    wp (inspect_parents no_fault false false record pre rest) m
      (fun b fs => fs = m_fs m /\ (b = false -> directory (m_fs m) (parent (pre ++ rest))))) as H; [|by apply (H p []); [..|left]].
  clear m1 Hwf Hp p. induction rest as [|x rest IH]; intros pre m Hwf Hp Hpre; [done|]. destruct rest as [|y rest].
  { apply wp_ret. by rewrite parent_snoc. }
  rewrite inspect_parents_cons. apply wp_bind.
  assert (wp (inspect_parent no_fault false false record (pre ++ [x])) m (fun o fs => fs = m_fs m /\
    (o = Some true \/ (o = None /\ m_fs m !! (pre ++ [x]) = Some NDir)))) as Hi.
  { unfold inspect_parent. apply wp_bind, wp_lstat. intros m1 _ E1. rewrite resolve_cases; [|done|by destruct pre|by rewrite parent_snoc].
    apply wp_bind. destruct (m_fs m !! (pre ++ [x])) as [n|]; apply wp_ret; intros m2 _ E2; rewrite E1 in E2; [destruct n|];
      apply wp_ret; auto. }
  revert Hi. apply wp_mono. intros o fs [-> Ho] m1 _ E1. destruct Ho as [->|[-> Hl]]; [by apply wp_ret|].
  replace (pre ++ x :: y :: rest) with ((pre ++ [x]) ++ y :: rest) by by rewrite <-app_assoc.
  rewrite <-E1 in *. apply IH; [done..|by right].
Qed.

(** ** Removing a tree *)

(** Only paths below [p] change, and they go. *)
Definition shrinks (p : key) (fs fs' : fs_t) : Prop :=
  wf fs' /\ forall q, fs' !! q = fs !! q \/ (p `prefix_of` q /\ fs' !! q = None).
Lemma remove_entry_shrinks fault fuel p m r m' : wf (m_fs m) -> remove_entry fault fuel p m = (r, m') -> shrinks p (m_fs m) (m_fs m').
Proof.
  intros Hwf H. destruct (framed_remove_entry fault [] [p] fuel p) with (p := p) (m := m) (r := r) (m' := m') as [Hwf' Hq];
    [by left|done..|]. split; [done|]. by eapply framed_drop.
Qed.
Lemma shrinks_trans p q r fs fs1 fs2 : p `prefix_of` q -> p `prefix_of` r -> shrinks q fs fs1 -> shrinks r fs1 fs2 -> shrinks p fs fs2.
Proof.
  intros Hq Hr [_ H1] [Hwf H2]. split; [done|]. intros x. destruct (H2 x) as [->|[H2' E]]; [|right; split; [by trans r|done]].
  destruct (H1 x) as [->|[H1' E]]; [by left|right; split; [by trans q|done]].
Qed.
Lemma shrinks_refl p fs : wf fs -> shrinks p fs fs.
Proof. intros Hwf. split; [done|]. by left. Qed.
Definition height (fs : fs_t) (p : key) (fuel : nat) : Prop :=
  0 < fuel /\ forall q n, p `prefix_of` q -> fs !! q = Some n -> length q < length p + fuel.

Lemma wp_remove_each fuel p names : 
  (forall q m, q ∈ names -> wf (m_fs m) -> directory (m_fs m) (parent q) -> height (m_fs m) q fuel ->
     wp (remove_entry no_fault fuel q) m (fun _ fs => fs !! q = None)) ->
  (forall q, q ∈ names -> q <> [] /\ parent q = p) ->
  forall m : machine, wf (m_fs m) -> m_fs m !! p = Some NDir -> (forall q, q ∈ names -> height (m_fs m) q fuel) ->
  wp (each (remove_entry no_fault fuel) names) m (fun _ fs => shrinks p (m_fs m) fs /\ fs !! p = Some NDir /\ forall q, q ∈ names -> fs !! q = None).
Proof.
  induction names as [|q names IH]; intros Hf Hp m Hwf Hdir Hh.
  { apply wp_ret. split; [by apply shrinks_refl|]. split; [done|]. by intros q ?%not_elem_of_nil. }
  destruct (Hp q) as [Hq Hpq]; [by left|]. assert (p `prefix_of` q) as Hpre by (rewrite <-Hpq; apply parent_prefix).
  apply wp_bind. eapply wp_mono; [|apply Hf; [by left|done|right; by rewrite Hpq|apply Hh; by left]].
  intros u fs Hnone m1 Em <-. apply remove_entry_shrinks in Em as Hs; [|done]. destruct Hs as [Hwf1 Hs].
  assert (m_fs m1 !! p = Some NDir) as Hdir1.
  { destruct (Hs p) as [->|[Hc _]]; [done|]. apply prefix_length in Hc. destruct (key_cases q) as [->|(r & x & ->)]; [done|].
    rewrite parent_snoc in Hpq. subst r. rewrite length_app in Hc. simpl in Hc. lia. }
  eapply wp_mono; [|apply IH; [..|done|done|]].
  - intros _ fs (Hs2 & Hd2 & Hn2). split; [eapply (shrinks_trans p q p); [done|done|by split|done]|]. split; [done|]. intros r [->|Hr]%elem_of_cons; [|auto].
    destruct Hs2 as [_ Hs2]. by destruct (Hs2 q) as [->|[_ ?]].
  - intros r m2 Hr. apply Hf. by right.
  - intros r Hr. apply Hp. by right.
  - intros r Hr. destruct (Hh r) as [Hfu Hb]; [by right|]. split; [done|]. intros y n Hy Hyn.
    destruct (Hs y) as [E|[_ E]]; [|congruence]. apply (Hb y n Hy). congruence.
Qed.
Lemma wp_remove_entry fuel : forall (p : key) (m : machine), wf (m_fs m) -> p <> [] -> directory (m_fs m) (parent p) -> height (m_fs m) p fuel ->
  wp (remove_entry no_fault fuel p) m (fun _ fs => fs !! p = None).
Proof.
  induction fuel as [|fuel IH]; intros p m Hwf Hp Hd [Hfu Hb]; [lia|]. cbn [remove_entry].
  apply wp_bind, wp_call. intros m1 _ E1. apply wp_bind, wp_lstat. intros m2 _ E2. rewrite E1 in E2 |- *.
  rewrite resolve_cases by done. destruct (m_fs m !! p) as [n|] eqn:El; [|apply wp_ret; by rewrite E2].
  destruct (decide (n = NDir)) as [->|Hn].
  - do 3 (apply wp_bind, wp_call; let m := fresh "m" in let E := fresh "E" in intros m _ E).
    rewrite E0, E, E2 in E3. rewrite <-E3 in *. clear dependent m m1 m2 m0 m3.
    apply wp_bind. apply wp_look. intros m0 E0 m1 _ E1.
    assert (forall q, q ∈ children (m_fs m4) p -> length q = S (length p)) as Hlen.
    { intros q (Hq & <- & _)%children_spec. destruct (key_cases q) as [->|(r & x & ->)]; [done|]. rewrite parent_snoc, length_app. simpl. lia. }
    rewrite E0. apply wp_bind. rewrite <-E1 in *.
    eapply wp_mono; [|apply (wp_remove_each fuel p); [..|done|done|]].
    + intros _ fs (Hs & Hdir & Hgone) m2 _ E2. apply wp_bind, wp_lstat. intros m3 _ E3. rewrite E2 in *. rewrite <-E3 in *.
      rewrite (lookup_resolve _ _ NDir) by (by destruct Hs). apply wp_bind, wp_call. intros m5 _ E5.
      apply wp_bind. eapply wp_remove; [by destruct Hs; rewrite E5|by rewrite E5| |].
      * intros _. rewrite E5. destruct (children (m_fs m3) p) as [|q l] eqn:Ec; [done|]. exfalso.
        assert (q ∈ children (m_fs m3) p) as Hq by (rewrite Ec; by left). apply children_spec in Hq as (Hq & Hpq & [n Hqn]).
        rewrite (Hgone q) in Hqn; [done|]. apply children_spec. split; [done|]. split; [done|].
        destruct Hs as [_ Hs]. destruct (Hs q) as [E|[_ E]]; [|congruence]. rewrite <-E, Hqn. eauto.
      * intros m6 _ E6. apply wp_stop_when; [done|]. rewrite E6. apply lookup_delete_eq.
    + intros q m2 (Hq & _ & _)%children_spec. auto.
    + intros q (Hq & Hpq & _)%children_spec. done.
    + intros q Hq. apply Hlen in Hq as Hl. apply children_spec in Hq as (_ & Hpq & [n Hqn]).
      assert (p `prefix_of` q) as Hpre by (rewrite <-Hpq; apply parent_prefix).
      split; [specialize (Hb q n Hpre Hqn); lia|]. intros r n' Hr Hrn. assert (p `prefix_of` r) as Hpr by by trans q.
      specialize (Hb r n' Hpr Hrn). lia.
  - assert (wp (do check_context no_fault "remove workspace entry %q: %w";
        let! removed := remove_path no_fault p in
        stop_when (bool_decide (removed <> Done)) "remove workspace entry %q: %w") m2 (fun _ fs => fs !! p = None)) as H; [|by destruct n].
    apply wp_bind, wp_call. intros m3 _ E3. rewrite E2 in E3. apply wp_bind, (wp_remove p n); [by rewrite E3..|done|].
    intros m4 _ E4. apply wp_stop_when; [done|]. rewrite E4. apply lookup_delete_eq.
Qed.
Lemma wp_removal p (m : machine) : wf (m_fs m) -> p <> [] -> directory (m_fs m) (parent p) ->
  wp (removeWorkspaceEntry no_fault p) m (fun _ fs => fs !! p = None).
Proof.
  intros Hwf Hp Hd. unfold removeWorkspaceEntry. apply wp_remove_entry; [done..|]. split; [lia|]. intros q n _ Hq.
  assert (length q <= depth (m_fs m)); [|lia]. apply max_list_elem_of_le. apply list_elem_of_fmap. exists q. split; [done|].
  apply list_elem_of_fmap. exists (q, n). split; [done|]. by apply elem_of_map_to_list.
Qed.

(** ** Comparing and verifying *)

Lemma wp_quiet {A} (c : run A) (m : machine) (Q : A -> fs_t -> Prop) : quiet c ->
  wp c m (fun a _ => Q a (m_fs m)) -> wp c m Q.
Proof. intros Hc (a & m' & E & H). exists a, m'. split; [done|]. by rewrite (Hc m _ m' E). Qed.
Lemma wp_open_match p i c mo content (m : machine) : wf (m_fs m) -> m_fs m !! p = Some (NFile i c mo) ->
  wp (openRegularFileContentMatch no_fault p (NFile i c mo) content) m
    (fun r fs => fs = m_fs m /\ (r.2 = bool_decide (c = content))).
Proof.
  intros Hwf Hl. apply wp_quiet; [apply quiet_open_match|]. unfold openRegularFileContentMatch. apply wp_bind, wp_call.
  intros m1 _ E1. case_bool_decide as Hlen; simpl.
  2:{ apply wp_ret. split; [done|]. rewrite bool_decide_false; [done|congruence]. }
  apply wp_bind. apply wp_syscall. intros m2 E2. simpl. rewrite E2, E1, Hl. simpl. intros m3 _ E3.
  apply wp_bind, wp_call. intros m4 _ E4. rewrite E3 in E4. apply wp_bind, wp_look. intros m5 E5 m6 _ E6. rewrite E4 in E5, E6.
  apply wp_bind, wp_lstat. intros m7 _ E7. apply wp_ret. split; [done|]. simpl.
  rewrite E5, E6, Hl, bool_decide_true by done. by rewrite (lookup_resolve _ _ _ Hwf Hl), (bool_decide_true (NFile i c mo = NFile i c mo)).
Qed.
Lemma wp_verify_file opened p i c mo (m : machine) : wf (m_fs m) -> m_fs m !! p = Some (NFile i c mo) ->
  wp (verify_file no_fault opened p (NFile i c mo) mo) m (fun _ fs => fs = m_fs m).
Proof.
  intros Hwf Hl. apply wp_quiet; [apply quiet_verify_file|]. destruct opened; simpl.
  - apply wp_bind, wp_call. intros m1 _ E1. apply wp_bind, wp_look. intros m2 E2 m3 _ E3. apply wp_bind, wp_lstat. intros m4 _ E4.
    rewrite E2, E3, E1, Hl, (lookup_resolve _ _ _ Hwf Hl). apply wp_stop_when; [|done]. by rewrite !bool_decide_true.
  - apply wp_bind, wp_lstat. intros m1 _ E1. rewrite (lookup_resolve _ _ _ Hwf Hl). apply wp_stop_when; [|done]. by rewrite !bool_decide_true.
Qed.

(** ** Writing *)

Section writing.
Set Default Proof Using "Type".
Context (entropy : nat -> text).
(** The names the entropy gives are new. *)
Definition fresh_names (fs : fs_t) : Prop := forall dir t, fs !! (dir ++ [temporary_prefix ++ entropy t]) = None.
Definition no_names (p : key) : Prop := forall dir t, ~ (dir ++ [temporary_prefix ++ entropy t]) `prefix_of` p.

Lemma fresh_framed {A} ws ds (c : run A) m a m' : framed ws ds c -> (forall w, w ∈ ws -> no_names w) -> wf (m_fs m) -> fresh_names (m_fs m) ->
  c m = (Ok a, m') -> fresh_names (m_fs m').
Proof.
  intros Hc Hws Hwf Hf E dir t. apply Hc in E as [_ F]; [|done].
  destruct (F (dir ++ [temporary_prefix ++ entropy t])) as [E|[[(w & Hw & [Hs _] & _)|(w & Hw & _ & [E|(w' & Hw' & Hp)])]|[[? ?] _]]].
  - by rewrite E.
  - by destruct (Hws w Hw dir t).
  - done.
  - by destruct (Hws w' Hw' dir t).
  - discriminate.
Qed.
Lemma wp_temporary dir (m : machine) : wf (m_fs m) -> directory (m_fs m) dir -> fresh_names (m_fs m) ->
  wp (createSiblingTemporary no_fault entropy 64 dir) m
    (fun name fs => exists t i, name = dir ++ [temporary_prefix ++ entropy t] /\ fs = <[name := NFile i [] 384]> (m_fs m)).
Proof.
  intros Hwf Hd Hf. cbn [createSiblingTemporary]. apply wp_bind, wp_call. intros m1 _ E1. apply wp_bind, wp_call. intros m2 _ E2.
  rewrite E1 in E2. apply wp_bind. eexists _, _. split; [done|]. intros m3 _ E3. rewrite E2 in E3.
  apply wp_bind, wp_create; rewrite ?E3; [done|by destruct dir|apply Hf|by rewrite parent_snoc|].
  intros i m4 _ E4. apply wp_ret. exists (m_tick m2), i. by rewrite E4.
Qed.
Lemma wf_update fs p n n' : wf fs -> fs !! p = Some n -> n <> NDir -> wf (<[p := n']> fs).
Proof.
  intros Hwf Hl Hn. destruct (Hwf p n Hl) as [Hp _]. apply wf_insert; [done..| |congruence].
  eapply found_directory; [done..|]. by apply lookup_resolve.
Qed.
Lemma wp_fill name content mode fs i (m : machine) : wf (m_fs m) -> name <> [] -> m_fs m = <[name := NFile i [] 384]> fs ->
  wp (fill_temporary no_fault name content mode) m (fun _ _ => True).
Proof.
  intros Hwf Hne Hm. unfold fill_temporary. apply wp_bind.
  assert (forall f : text -> Z -> text * Z, forall c mo (m : machine), m_fs m !! name = Some (NFile i c mo) ->
    wp (update_file no_fault name f) m (fun o fs' => o = Done /\ fs' = <[name := NFile i (f c mo).1 (f c mo).2]> (m_fs m))) as Hu.
  { intros f c mo m0 H. by eapply wp_update. }
  assert (forall c mo, wf (<[name := NFile i c mo]> fs)) as Hwfs.
  { intros c mo. replace (<[name := NFile i c mo]> fs) with (<[name := NFile i c mo]> (m_fs m)) by by rewrite Hm, insert_insert_eq.
    apply (wf_update _ _ (NFile i [] 384)); [done| |done]. by rewrite Hm, lookup_insert_eq. }
  assert (wp (if content == [] then ret tt else
      do check_context no_fault "%w";
      let! written := update_file no_fault name (fun _ mode => (content, mode)) in
      stop_when (bool_decide (written <> Done)) "%w") m (fun _ fs' => fs' = <[name := NFile i content 384]> fs)) as Hw.
  { case_bool_decide as Hc; [apply wp_ret; by rewrite Hc|]. apply wp_bind, wp_call. intros m1 _ E1. rewrite Hm in E1. apply wp_bind.
    eapply wp_mono; [|apply (Hu _ [] 384%Z); by rewrite E1, lookup_insert_eq].
    intros o fs' [-> ->] m2 _ E2. apply wp_stop_when; [done|]. by rewrite E2, E1, insert_insert_eq. }
  revert Hw. apply wp_mono. intros _ fs' -> m1 _ E1.
  apply wp_bind, wp_call. intros m2 _ E2. apply wp_bind, wp_call. intros m3 _ E3. apply wp_bind, wp_call. intros m4 _ E4.
  rewrite E3, E2, E1 in E4. apply wp_bind. eapply wp_mono; [|apply (Hu _ content 384%Z); by rewrite E4, lookup_insert_eq].
  intros o fs' [-> ->] m5 _ E5. rewrite E4, insert_insert_eq in E5. simpl in E5. apply wp_bind, wp_stop_when; [done|]. intros m6 _ E6.
  rewrite E5 in E6. apply wp_bind, wp_lstat. intros m7 _ E7. rewrite E6, (lookup_resolve _ _ _ (Hwfs content mode) (lookup_insert_eq _ _ _)).
  simpl. apply wp_bind, wp_stop_when; [by rewrite !bool_decide_true|]. intros m8 _ E8. by apply wp_ret.
Qed.
Lemma wp_install state tmp i c mo (m : machine) (p := parts (df_Path state)) :
  wf (m_fs m) -> directory (m_fs m) (parent p) -> m_fs m !! tmp = Some (NFile i c mo) -> ~ p `prefix_of` tmp ->
  (df_CreateOnly state = true -> m_fs m !! p = None) ->
  wp (install no_fault state (m_fs m !! p) tmp) m (fun _ _ => True).
Proof.
  intros Hwf Hd Htmp Hpt Hco. assert (p <> []) as Hp by apply parts_nonempty.
  apply wp_on_error. unfold install_prepared. fold p. apply wp_bind, wp_call. intros m1 _ E1. apply wp_bind.
  assert (wp (if bool_decide (m_fs m !! p = Some NDir) then removeWorkspaceEntry no_fault p else ret tt) m1
    (fun _ fs => wf fs /\ directory fs (parent p) /\ fs !! tmp = Some (NFile i c mo) /\ fs !! p <> Some NDir /\
      (df_CreateOnly state = true -> fs !! p = None))) as Hr.
  { rewrite <-E1 in *. case_bool_decide as Hdir; [|by apply wp_ret].
    apply wp_bind_post with (Q1 := fun _ fs => fs !! p = None); [by apply wp_removal|]. intros u m2 E2 Hn.
    apply removal_inv in E2 as [Hwf2 F2]; [|done]. split_and!; [done|..].
    - destruct Hd as [Hd|Hd]; [by left|right]. destruct (F2 (parent p)) as [->|[Hc _]]; [done|]. exfalso.
      apply prefix_length in Hc. destruct (key_cases p) as [->|(r & x & Ep)]; [done|]. rewrite Ep, parent_snoc, length_app in Hc. simpl in Hc. lia.
    - by destruct (F2 tmp) as [->|[? _]].
    - congruence.
    - done. }
  revert Hr. apply wp_mono. intros _ fs (Hwf2 & Hd2 & Ht2 & Hn2 & Hc2) m2 _ E2. rewrite <-E2 in *.
  apply wp_bind. eapply wp_rename; [done|done|done|done|done|done|]. intros m3 _ E3. by apply wp_stop_when.
Qed.
Lemma wp_write_file state (m : machine) (p := parts (df_Path state)) :
  wf (m_fs m) -> directory (m_fs m) (parent p) -> fresh_names (m_fs m) -> no_names p ->
  (df_CreateOnly state = true -> m_fs m !! p = None) ->
  wp (write_file no_fault entropy state (m_fs m !! p)) m (fun _ _ => True).
Proof.
  intros Hwf Hd Hf Hnn Hco. unfold write_file. fold p. apply wp_bind.
  assert (wp (writePreparedFile no_fault entropy (parent p) (content_of state) (df_Mode state)) m (fun a fs => exists t,
    a.1 = parent p ++ [temporary_prefix ++ entropy t] /\
    fs = <[a.1 := NFile a.2 (content_of state) (df_Mode state)]> (m_fs m))) as Hw.
  { apply wp_bind. eapply wp_mono; [|by apply wp_temporary]. intros name fs (t & i & -> & ->) m1 _ E1.
    set (name := parent p ++ _) in *. assert (name <> []) as Hne by (unfold name; by destruct (parent p)).
    assert (wf (m_fs m1)) as Hwf1.
    { rewrite E1. apply wf_insert; [done..|unfold name; by rewrite parent_snoc|by rewrite (Hf (parent p) t : m_fs m !! name = None)]. }
    apply wp_on_error. apply wp_partial; [by eapply wp_fill|]. intros a m' E.
    eapply fill_temporary_inv in E as (c & mo & E & Ha); [|done..]. destruct (Ha a eq_refl) as (-> & -> & ->). exists t. done. }
  revert Hw. apply wp_mono. intros [name i] fs (t & Hname & ->) m1 _ E1. cbn [fst snd] in Hname, E1 |- *.
  assert (m_fs m !! name = None) as Hnone by (rewrite Hname; apply Hf).
  assert (p <> []) as Hp by apply parts_nonempty.
  assert (name <> p) as Hne by (intros E; apply (Hnn (parent p) t); by rewrite <-Hname, E).
  assert (~ p `prefix_of` name) as Hpn.
  { intros [k Hk]. destruct (key_cases p) as [->|(r & x & Ep)]; [done|]. destruct k as [|y k]; [by rewrite app_nil_r in Hk|].
    apply (f_equal length) in Hk. rewrite Hname, Ep, parent_snoc, !length_app in Hk. simpl in Hk. lia. }
  assert (wf (m_fs m1)) as Hwf1.
  { rewrite E1. apply wf_insert; [done|rewrite Hname; by destruct (parent p)|by rewrite Hname, parent_snoc|by rewrite Hnone]. }
  assert (m_fs m1 !! p = m_fs m !! p) as Esame by by rewrite E1, lookup_insert_ne.
  apply wp_bind. rewrite <-Esame. apply wp_partial.
  { eapply (wp_install state name i); [done|..|by rewrite E1, lookup_insert_eq|done|fold p; by rewrite Esame].
    destruct Hd as [Hd|Hd]; [by left|right]. rewrite E1, lookup_insert_ne; [done|]. intros E. fold p in E. rewrite <-E in Hd. congruence. }
  intros [] m2 E2 m3 _ E3. eapply install_inv in E2 as (Hwf2 & Hl & _); [|done|done|done]. specialize (Hl eq_refl). fold p in Hl.
  rewrite <-E3 in *. apply wp_bind, wp_lstat. intros m4 _ E4. rewrite (lookup_resolve _ _ _ Hwf2 Hl).
  apply wp_bind, wp_stop_when; [by rewrite !bool_decide_true|]. intros m5 _ E5. by apply wp_record.
Qed.
End writing.
