(* ===== verification/WorkspaceLive.v ===== *)
(** * Reconciliation: completion and idempotence

    Without failures every operation of [Workspace.v] returns; a workspace that is as
    desired is left alone. *)
From Stdlib Require Import Ascii.
From S2P Require Import Prelude Schema SchemaFacts PathIdentity PathFacts UserIntent UserIntentFacts Workspace WorkspaceFacts WorkspaceFrame WorkspaceSpec WorkspaceTotal.
From stdpp Require Import sorting base tactics strings list gmap numbers pretty.
From stdpp Require Import list options.
Open Scope nat_scope.
Open Scope go_scope.

Section live.
Set Default Proof Using "Type".
Context (entropy : nat -> text).

(** ** One file *)

(** A create-only path must be free, with parents that are or can become directories. *)
Definition creatable (fs : fs_t) (d : DesiredFile) : Prop :=
  df_CreateOnly d = true -> fs !! parts (df_Path d) = None /\
    forall a, a <> [] -> strict_prefix a (parts (df_Path d)) -> fs !! a = None \/ fs !! a = Some NDir.
Lemma wp_settled_file state (m : machine) (p := parts (df_Path state)) : wf (m_fs m) ->
  wp (settled_file no_fault state (m_fs m !! p)) m (fun b fs => fs = m_fs m /\
    (holds (m_fs m) p (content_of state) (df_Mode state) -> b = true)).
Proof.
  intros Hwf. unfold settled_file. fold p. destruct (m_fs m !! p) as [[|i c mo|i]|] eqn:El;
    try (apply wp_ret; split; [done|]; intros [j Hj]; unfold p in *; congruence).
  apply wp_bind. eapply wp_mono; [|by apply wp_open_match]. intros [o b] fs [-> Hb] m1 _ E1. simpl in Hb |- *. subst b.
  destruct (bool_decide (c = content_of state) && bool_decide (mo = df_Mode state))%bool eqn:Eb.
  - apply andb_prop in Eb as [->%bool_decide_eq_true ->%bool_decide_eq_true]. apply wp_bind.
    eapply wp_mono; [|apply wp_verify_file; by rewrite E1]. intros _ fs -> m2 _ E2. apply wp_ret. by rewrite E2.
  - apply wp_ret. split; [done|]. intros [j Hj]. rewrite El in Hj. simplify_eq. by rewrite !bool_decide_true in Eb.
Qed.
Lemma wp_apply_file state (m : machine) (p := parts (df_Path state)) :
  wf (m_fs m) -> fresh_names entropy (m_fs m) -> no_names entropy p -> creatable (m_fs m) state ->
  wp (applyFile no_fault entropy state) m (fun _ _ => True).
Proof.
  intros Hwf Hf Hn Hc. assert (p <> []) as Hp by apply parts_nonempty. unfold applyFile. fold p. apply wp_bind.
  eapply wp_mono; [|apply wp_parents; [done..|]].
  2:{ intros Hr%negb_false_iff. by apply Hc. }
  intros _ fs (Hwf1 & Hd1 & Hq1) m1 _ <-.
  assert (m_fs m1 !! p = m_fs m !! p) as Ep.
  { destruct (Hq1 p) as [E|[Hs _]]; [done|]. by destruct Hs. }
  apply wp_bind, wp_lstat. intros m2 _ E2. rewrite resolve_cases by done. apply wp_bind.
  assert (wp (match match m_fs m1 !! p with Some n => SFound n | None => SMissing end with
    | SFound n => ret (Some n) | SMissing => ret None | SFail => stop "inspect workspace file %q: %w" end) m2
    (fun e fs => e = m_fs m1 !! p /\ fs = m_fs m1)) as He by (destruct (m_fs m1 !! p); by apply wp_ret).
  revert He. apply wp_mono. intros e fs [-> ->] m3 _ E3. rewrite <-E3 in *. apply wp_bind, wp_stop_when.
  { destruct (df_CreateOnly state) eqn:Eco; [|by rewrite andb_false_r]. by rewrite Ep, (proj1 (Hc Eco) : m_fs m !! p = None). }
  intros m4 _ E4. apply wp_bind. rewrite <-E4 in *. eapply wp_mono; [|by apply wp_settled_file].
  intros b fs [-> _] m5 _ E5. destruct b; [by apply wp_ret|]. rewrite <-E5 in *. apply wp_write_file; [done..| |done|].
  - intros dir t. destruct (Hq1 (dir ++ [temporary_prefix ++ entropy t])) as [E|[[Hs _] _]]; [|by destruct (Hn dir t)].
    rewrite E. apply Hf.
  - intros Eco. fold p. rewrite Ep. by apply (Hc Eco).
Qed.
Lemma wp_required state (m : machine) (p := parts (df_Path state)) :
  wf (m_fs m) -> fresh_names entropy (m_fs m) -> no_names entropy p -> creatable (m_fs m) state ->
  wp (applyRequiredFile no_fault entropy state) m (fun _ _ => True).
Proof.
  intros Hwf Hf Hn Hc. assert (p <> []) as Hp by apply parts_nonempty. unfold applyRequiredFile. fold p. apply wp_bind.
  eapply wp_mono; [|by apply wp_look_parents]. intros missing fs [-> Hd] m1 _ E1. rewrite <-E1 in *. apply wp_bind.
  eapply (wp_mono _ _ (fun _ fs => fs = m_fs m1)).
  - intros kept fs -> m2 _ E2. rewrite <-E2 in *. destruct kept; [by apply wp_ret|by apply wp_apply_file].
  - destruct missing; [by apply wp_ret|]. apply wp_bind, wp_lstat. intros m2 _ E2. rewrite resolve_cases by auto.
    destruct (m_fs m1 !! p) as [[]|]; by apply wp_ret.
Qed.
Lemma wp_deletion p (m : machine) : wf (m_fs m) -> p <> [] -> wp (applyDeletion no_fault p) m (fun _ _ => True).
Proof.
  intros Hwf Hp. apply wp_bind. eapply wp_mono; [|by apply wp_look_parents]. intros missing fs [-> Hd] m1 _ E1. rewrite <-E1 in *.
  destruct missing; [by apply wp_ret|]. specialize (Hd eq_refl). apply wp_bind, wp_lstat. intros m2 _ E2. rewrite resolve_cases by done.
  destruct (m_fs m1 !! p) as [n|] eqn:El; [|by apply wp_ret]. apply wp_bind, wp_call. intros m3 _ E3. rewrite E2 in E3. rewrite <-E3 in *.
  apply wp_bind. eapply wp_bind_post; [by apply wp_removal|]. intros [] m4 E4 Hnone m5 _ E5.
  apply removal_inv in E4 as [Hwf4 F4]; [|done]. rewrite <-E5 in *. apply wp_bind, wp_bind, wp_lstat. intros m6 _ E6.
  rewrite resolve_cases, Hnone; [|done..|].
  - apply wp_ret. intros m7 _ E7. by apply wp_record.
  - destruct Hd as [Hd|Hd]; [by left|right]. destruct (F4 (parent p)) as [->|[Hc _]]; [done|]. exfalso.
    apply prefix_length in Hc. destruct (key_cases p) as [->|(r & x & ->)]; [done|]. rewrite parent_snoc, length_app in Hc. simpl in Hc. lia.
Qed.

(** ** One move *)

Lemma wp_matching_file (e : string) p move (m : machine) : wf (m_fs m) -> p <> [] ->
  wp (matching_file no_fault e p move) m (fun o fs => fs = m_fs m /\
    (holds (m_fs m) p (content_of move) (df_Mode move) -> o <> None) /\
    forall before, o = Some before -> exists i, before.2 = NFile i (content_of move) (df_Mode move) /\ m_fs m !! p = Some before.2).
Proof.
  intros Hwf Hp. apply wp_bind. eapply wp_bind_post; [by apply wp_look_parents|]. intros missing m0 E0 [Em0 Hd] m1 _ E1.
  rewrite Em0 in E1. rewrite <-E1 in *. destruct missing.
  { apply parents_missing in E0; [|by rewrite <-E1]. apply wp_ret. split_and!; [done| |done]. intros [i Hi]. congruence. }
  apply wp_bind, wp_lstat. intros m2 _ E2. rewrite resolve_cases by auto.
  destruct (m_fs m1 !! p) as [[|i c mo|i]|] eqn:El; try (apply wp_ret; split_and!; [done| |done]; intros [j Hj]; congruence).
  apply wp_bind. rewrite <-E2 in *. eapply wp_mono; [|by apply wp_open_match]. intros [o b] fs [-> Hb] m3 _ E3. simpl in Hb. subst b.
  apply wp_ret. split; [done|]. simpl. destruct (bool_decide (c = content_of move) && bool_decide (mo = df_Mode move))%bool eqn:Eb.
  - apply andb_prop in Eb as [->%bool_decide_eq_true ->%bool_decide_eq_true]. split; [done|]. intros before [= <-]. by exists i.
  - split; [|done]. intros [j Hj]. rewrite El in Hj. simplify_eq. by rewrite !bool_decide_true in Eb.
Qed.
Lemma wp_move_destination move (m : machine) : wf (m_fs m) ->
  wp (reconcileMoveDestination no_fault move) m (fun b fs => fs = m_fs m /\
    (holds (m_fs m) (parts (df_Path move)) (content_of move) (df_Mode move) -> b = true)).
Proof.
  intros Hwf. apply wp_bind. eapply wp_mono; [|apply wp_matching_file; [done|apply parts_nonempty]].
  intros o fs (-> & Hh & Hs) m1 _ E1. destruct o as [before|].
  - destruct (Hs before) as (i & Eb & Hl); [done|]. rewrite Eb in Hl. rewrite Eb, <-E1 in *. apply wp_bind.
    eapply wp_mono; [|by apply wp_verify_file]. intros _ fs -> m2 _ E2. by apply wp_ret.
  - apply wp_ret. split; [done|]. intros H. by destruct (Hh H).
Qed.
Lemma parent_not_below (p q : key) : p <> [] -> ~ p `prefix_of` q -> ~ p `prefix_of` parent q.
Proof. intros Hp H Hpq. apply H. etrans; [done|apply parent_prefix]. Qed.
Lemma wp_clear_destination (to : key) (m m' : machine) : wf (m_fs m) -> to <> [] -> directory (m_fs m) (parent to) -> m_fs m' = m_fs m ->
  wp (match match m_fs m !! to with Some n => SFound n | None => SMissing end with
      | SFound NDir => removeWorkspaceEntry no_fault to
      | SFail => stop "inspect workspace move destination %q: %w"
      | _ => ret tt
      end) m' (fun _ fs => wf fs /\ fs !! to <> Some NDir /\ forall q, fs !! q = m_fs m !! q \/ to `prefix_of` q).
Proof.
  intros Hwf Ht Hd E. rewrite <-E in *. clear E m. destruct (m_fs m' !! to) as [n|] eqn:El.
  2:{ apply wp_ret. split_and!; [done|congruence|by left]. }
  destruct (decide (n = NDir)) as [->|Hn].
  - eapply wp_bind_post; [by apply wp_removal|]. intros [] m4 E4 Hnone. apply removal_inv in E4 as [Hwf4 F4]; [|done].
    split_and!; [done|congruence|]. intros q. destruct (F4 q) as [?|[? _]]; [by left|by right].
  - assert (wp (ret tt) m' (fun _ fs => wf fs /\ fs !! to <> Some NDir /\ forall q, fs !! q = m_fs m' !! q \/ to `prefix_of` q)) as H;
      [|by destruct n]. apply wp_ret. split_and!; [done|congruence|by left].
Qed.
Lemma wp_move_source move (m : machine) (from := parts (df_MoveFrom move)) (to := parts (df_Path move)) :
  wf (m_fs m) -> ~ comparable to from -> wp (applyRenameFromMatchingSource no_fault move) m (fun _ _ => True).
Proof.
  intros Hwf Hsep. assert (from <> [] /\ to <> []) as [Hf Ht] by (split; apply parts_nonempty).
  assert (~ to `prefix_of` from /\ ~ from `prefix_of` to) as [Hn1 Hn2] by (split; intros ?; apply Hsep; [by left|by right]).
  unfold applyRenameFromMatchingSource. fold from to. apply wp_bind. eapply wp_mono; [|by apply wp_matching_file].
  intros o fs (-> & _ & Hs) m1 _ E1. destruct o as [before|]; [|by apply wp_ret]. destruct (Hs before) as (i & Eb & Hl); [done|]. clear Hs.
  rewrite Eb in *. rewrite <-E1 in *. assert (directory (m_fs m1) (parent from)) as Hdf.
  { eapply found_directory; [done..|]. by apply lookup_resolve. }
  apply wp_bind. eapply wp_mono; [|by apply wp_parents]. intros _ fs (Hwf2 & Hd2 & Hq2) m2 _ <-.
  assert (m_fs m2 !! from = Some (NFile i (content_of move) (df_Mode move))) as Hl2.
  { destruct (Hq2 from) as [->|[[? _] _]]; done. }
  assert (directory (m_fs m2) (parent from)) as Hdf2.
  { destruct Hdf as [Hdf|Hdf]; [by left|right]. by destruct (Hq2 (parent from)) as [->|(_ & _ & ?)]. }
  apply wp_bind, wp_lstat. intros m3 _ E3. rewrite resolve_cases by done. apply wp_bind.
  eapply (wp_mono _ _ (fun _ fs => wf fs /\ fs !! to <> Some NDir /\ forall q, fs !! q = m_fs m2 !! q \/ to `prefix_of` q)).
  2:{ by apply wp_clear_destination. }
  intros _ fs (Hwf4 & Hn4 & Hq4) m4 _ <-.
  assert (forall d, ~ to `prefix_of` d -> directory (m_fs m2) d -> directory (m_fs m4) d) as Hdirs.
  { intros d Hd [->|Hdd]; [by left|right]. by destruct (Hq4 d) as [->|?]. }
  assert (~ to `prefix_of` parent to) as Hpt.
  { intros Hc%prefix_length. destruct (key_cases to) as [->|(r & x & Er)]; [done|]. rewrite Er, parent_snoc, length_app in Hc. simpl in Hc. lia. }
  assert (m_fs m4 !! from = Some (NFile i (content_of move) (df_Mode move))) as Hl4 by (destruct (Hq4 from) as [->|?]; done).
  apply wp_bind, wp_call. intros m5 _ E5. apply wp_bind. eapply wp_rename; rewrite ?E5; [done|done|done|by apply Hdirs|done|done|].
  intros m6 _ E6. apply wp_bind, wp_stop_when; [done|]. intros m7 _ E7. rewrite E6 in E7.
  assert (wf (m_fs m7)) as Hwf7 by (rewrite E7; apply renamed_wf; auto).
  apply wp_bind. eapply wp_mono; [|apply wp_verify_file; [done|by rewrite E7, lookup_insert_eq]].
  intros _ fs -> m8 _ E8. rewrite <-E8 in *. assert (from <> to) as Hft by (intros E; apply Hn1; by rewrite E).
  apply wp_bind, wp_bind, wp_lstat. intros m9 _ E9. rewrite resolve_cases; [|done|done|].
  - rewrite E7, lookup_insert_ne, lookup_delete_eq by done. apply wp_ret. intros m10 _ E10. apply wp_bind, wp_record. intros m11 _ E11. by apply wp_ret.
  - destruct (Hdirs (parent from)) as [Hd|Hd]; [by apply parent_not_below|done|by left|right].
    rewrite E7, lookup_insert_ne, lookup_delete_ne; [done|congruence|]. intros E. rewrite <-E in Hd. done.
Qed.
Lemma wp_apply_move targets move (m : machine) (p := parts (df_Path move)) :
  wf (m_fs m) -> fresh_names entropy (m_fs m) -> no_names entropy p -> df_CreateOnly move = false ->
  (df_MoveFrom move ∉ targets -> ~ comparable p (parts (df_MoveFrom move))) ->
  wp (apply_move no_fault entropy targets move) m (fun _ _ => True).
Proof.
  intros Hwf Hf Hn Hco Hsep. apply wp_bind, wp_call. intros m1 _ E1. rewrite <-E1 in *. apply wp_bind.
  eapply wp_mono; [|by apply wp_move_destination]. intros settled fs [-> _] m2 _ E2. rewrite <-E2 in *.
  destruct settled; [by apply wp_ret|]. apply wp_bind. case_bool_decide as Ht.
  - apply wp_ret. intros m3 _ E3. rewrite <-E3 in *. apply wp_apply_file; [done..|]. unfold creatable. by rewrite Hco.
  - apply wp_partial; [by apply wp_move_source; auto|]. intros moved m3 E3 m4 _ E4. destruct moved; [by apply wp_ret|].
    apply wp_apply_file; rewrite ?E4; [| |done|unfold creatable; by rewrite Hco].
    + by apply framed_move_source in E3 as [? _].
    + eapply fresh_framed; [apply framed_move_source|..|done|done|done]. by intros w ->%list_elem_of_singleton.
Qed.

(** ** All of them *)

Lemma creatable_stable {A} ws ds (c : run A) m a m' d (p := parts (df_Path d)) : framed ws ds c -> wf (m_fs m) -> c m = (Ok a, m') ->
  (forall w, w ∈ ws -> ~ comparable w p) -> (forall w, w ∈ ds -> w = p \/ ~ comparable w p) ->
  creatable (m_fs m) d -> creatable (m_fs m') d.
Proof.
  intros Hc Hwf E Hws Hds Hcr Eco. destruct (Hcr Eco) as [Hnone Hanc]. fold p in Hnone, Hanc |- *.
  apply Hc in E as [_ F]; [|done]. split.
  - destruct (F p) as [->|[[(w & Hw & [Hs _] & _)|(w & Hw & _ & [E|(w' & Hw' & Hp)])]|[[? ?] _]]]; try done.
    + destruct (Hws w Hw). by right.
    + destruct (Hws w' Hw'). by right.
  - intros b Hb Hs. destruct (F b) as [->|[[(w & Hw & _ & _ & E)|(w & Hw & Hwb & _)]|[[? ?] _]]]; [by apply Hanc|done| |done].
    assert (w `prefix_of` p) as Hwp by (trans b; [done|by destruct Hs]). apply elem_of_app in Hw as [Hw|Hw].
    + destruct (Hws w Hw). by left.
    + destruct (Hds w Hw) as [->|Hn]; [|destruct Hn; by left]. apply strict_length in Hs. apply prefix_length in Hwb. lia.
Qed.
Lemma wp_each {A} (ready : fs_t -> A -> Prop) (f : A -> run unit) l :
  (forall x (m : machine), x ∈ l -> wf (m_fs m) -> fresh_names entropy (m_fs m) -> ready (m_fs m) x -> wp (f x) m (fun _ _ => True)) ->
  (forall x, x ∈ l -> exists ws ds, framed ws ds (f x) /\ forall w, w ∈ ws -> no_names entropy w) ->
  ForallOrdPairs (fun x y => forall m u m', wf (m_fs m) -> f x m = (Ok u, m') -> ready (m_fs m) y -> ready (m_fs m') y) l ->
  forall m : machine, wf (m_fs m) -> fresh_names entropy (m_fs m) -> (forall x, x ∈ l -> ready (m_fs m) x) ->
  wp (each f l) m (fun _ fs => wf fs /\ fresh_names entropy fs).
Proof.
  intros Hf Hfr Hl. induction Hl as [|x l Hx Hl IH]; intros m Hwf Hn Hr; [by apply wp_ret|].
  apply wp_bind, wp_partial; [apply Hf; [by left|done|done|apply Hr; by left]|]. intros u m1 E m2 _ E2.
  destruct (Hfr x) as (ws & ds & Hws & Hno); [by left|]. apply IH; rewrite ?E2.
  - intros y m0 Hy. apply Hf. by right.
  - intros y Hy. apply Hfr. by right.
  - by apply Hws in E as [? _].
  - by eapply fresh_framed.
  - intros y Hy. rewrite List.Forall_forall in Hx. eapply Hx; [by apply list_elem_of_In|done|done|apply Hr; by right].
Qed.
End live.

Section all.
Set Default Proof Using "All".
Context (entropy : nat -> text) (desired : list DesiredFile).
Hypotheses (Hv : validated desired) (Hsep : separate desired) (Hno : forall p, p ∈ written desired -> no_names entropy p).
#[local] Abbreviation moves := (moves_of desired).
#[local] Abbreviation targets := (paths_of moves).

Lemma present_no_names d : d ∈ desired -> df_Present d = true -> no_names entropy (parts (df_Path d)).
Proof.
  intros Hd Hp. apply Hno. apply list_elem_of_fmap. exists (df_Path d). split; [done|]. apply list_elem_of_fmap. exists d.
  split; [done|]. by apply list_elem_of_filter.
Qed.
Lemma path_listed d : d ∈ desired -> df_Path d ∈ paths_of desired ++ sources_of desired.
Proof. intros Hd. apply elem_of_app. left. apply list_elem_of_fmap. eauto. Qed.
Lemma source_listed d : d ∈ moves -> df_MoveFrom d ∈ paths_of desired ++ sources_of desired.
Proof. intros Hd. apply elem_of_app. right. apply list_elem_of_fmap. eauto. Qed.
Lemma move_facts d : d ∈ moves -> d ∈ desired /\ df_Present d = true /\ df_CreateOnly d = false.
Proof. intros Hd. destruct (move_state desired d Hv Hd) as (? & _ & ?). by apply list_elem_of_filter in Hd as [_ Hd]. Qed.
#[local] Hint Resolve present_no_names path_listed source_listed : core.

Lemma moves_return (m : machine) : wf (m_fs m) -> fresh_names entropy (m_fs m) ->
  wp (applyMoves no_fault entropy moves) m (fun _ fs => wf fs /\ fresh_names entropy fs).
Proof.
  intros Hwf Hf. apply wp_bind. eapply wp_mono; [|apply (wp_each entropy (fun _ _ => True)); [..|done|done|done]].
  - intros _ fs [Hwf1 Hf1] m1 _ <-. apply (wp_each entropy (fun _ _ => True)); [..|done|done|done].
    + intros d m2 Hd Hwf2 _ _. case_bool_decide; [by apply wp_ret|]. apply wp_deletion; [done|apply parts_nonempty].
    + intros d Hd. exists [], [parts (df_MoveFrom d)]. split; [|by intros w ?%not_elem_of_nil]. intros m2.
      case_bool_decide; [apply quiet_framed, quiet_ret|]. apply framed_deletion. by left.
    + by apply (ordered_pairs df_MoveFrom); [apply v_sources|].
  - intros d m1 Hd Hwf1 Hf1 _. destruct (move_facts d Hd) as (Hd' & Hp & Hco). apply wp_apply_move; auto.
    intros Hn. apply Hsep; auto. intros E. apply Hn. rewrite <-E. apply list_elem_of_fmap. eauto.
  - intros d Hd. destruct (move_facts d Hd) as (Hd' & Hp & Hco). eexists _, _. split; [apply framed_move|].
    intros w ->%list_elem_of_singleton. auto.
  - apply (ordered_pairs df_Path); [apply filtered_paths, v_paths, Hv|done].
Qed.
Lemma moves_creatable m u m' d : wf (m_fs m) -> applyMoves no_fault entropy moves m = (Ok u, m') -> d ∈ desired ->
  creatable (m_fs m) d -> creatable (m_fs m') d.
Proof.
  intros Hwf E Hd Hc. destruct (df_CreateOnly d) eqn:Eco; [|by unfold creatable; rewrite Eco].
  apply (creatable_stable (parts <$> targets) (mjoin (dropped targets <$> moves)) _ _ _ _ d) in E; auto.
  - apply framed_moves.
    + intros d' Hd' w ->%list_elem_of_singleton. apply list_elem_of_fmap. exists (df_Path d'). split; [done|].
      apply list_elem_of_fmap. eauto.
    + intros d' Hd' w Hw. apply list_elem_of_join. exists (dropped targets d'). split; [done|]. apply list_elem_of_fmap. eauto.
  - intros w (a & -> & (d' & -> & Hd')%list_elem_of_fmap)%list_elem_of_fmap. destruct (move_facts d' Hd') as (Hd'' & _ & Hco).
    apply Hsep; auto. intros E'. apply (path_unique desired d' d) in E'; [congruence|done..].
  - intros w (l & Hw & (d' & -> & Hd')%list_elem_of_fmap)%list_elem_of_join. unfold dropped in Hw.
    case_bool_decide; [by apply not_elem_of_nil in Hw|]. apply list_elem_of_singleton in Hw as ->.
    destruct (decide (df_MoveFrom d' = df_Path d)) as [->|Hne]; [by left|right]. apply Hsep; auto.
Qed.
Lemma states_return (m : machine) : wf (m_fs m) -> fresh_names entropy (m_fs m) -> (forall d, d ∈ desired -> creatable (m_fs m) d) ->
  wp (each (apply_state no_fault entropy) desired) m (fun _ _ => True).
Proof.
  intros Hwf Hf Hcr. eapply wp_mono; [|apply (wp_each entropy creatable); [..|done|done|done]]; [done|..].
  - intros d m3 Hd Hwf3 Hf3 Hc. unfold apply_state. case_bool_decide as Hm; simpl; [|by apply wp_ret].
    apply wp_bind, wp_call. intros m4 _ E4. rewrite <-E4 in *. destruct (df_Present d) eqn:Ep.
    + destruct (df_PreserveExisting d); [apply wp_required|apply wp_apply_file]; auto.
    + apply wp_deletion; [done|apply parts_nonempty].
  - intros d Hd. eexists _, _. split; [apply framed_state|]. destruct (df_Present d) eqn:Ep; [|by intros w ?%not_elem_of_nil].
    intros w ->%list_elem_of_singleton. auto.
  - apply (ordered_pairs df_Path); [by apply v_paths|]. intros x y Hx Hy Hne m3 v m4 Hwf3 E.
    assert (~ comparable (parts (df_Path x)) (parts (df_Path y))) as Hs by (apply Hsep; auto).
    apply (creatable_stable _ _ _ _ _ _ y (framed_state _ _ x) Hwf3 E).
    + destruct (df_Present x); [by intros w ->%list_elem_of_singleton|by intros w ?%not_elem_of_nil].
    + destruct (df_Present x); [by intros w ?%not_elem_of_nil|]. intros w ->%list_elem_of_singleton. by right.
Qed.
Lemma reconcile_returns (m : machine) : wf (m_fs m) -> fresh_names entropy (m_fs m) -> (forall d, d ∈ desired -> creatable (m_fs m) d) ->
  wp (applyReconciliation no_fault entropy desired) m (fun _ _ => True).
Proof.
  intros Hwf Hf Hcr. apply wp_bind. eapply wp_bind_post; [by apply moves_return|].
  intros u m1 E1 [Hwf1 Hf1] m2 _ E2. rewrite <-E2 in *. apply states_return; [done..|].
  intros d Hd. rewrite E2. by eapply (moves_creatable m u m1); [| |done|apply Hcr].
Qed.
End all.

(** C23: when no call fails, the names of temporary files are new, and the paths that may
    only be created are free, the reconciliation of validated desired files, none of
    which lies in another, returns without an error: every desired file is as desired
    and every moved source is gone. *)
Theorem reconcile_completes entropy input desired m :
  validateDesiredFiles input = Ok desired -> separate desired -> wf (m_fs m) ->
  fresh_names entropy (m_fs m) -> (forall p, p ∈ written desired -> no_names entropy p) ->
  (forall d, d ∈ desired -> creatable (m_fs m) d) ->
  exists m', applyReconciliation no_fault entropy desired m = (Ok tt, m') /\ wf (m_fs m') /\
    (forall d, d ∈ desired -> as_desired (sources_of desired) (m_fs m) (m_fs m') d) /\
    (forall s, s ∈ sources_of desired -> s ∉ paths_of desired -> m_fs m' !! parts s = None).
Proof.
  intros [_ Hv]%validate_desired_spec Hsep Hwf Hf Hno Hcr.
  destruct (reconcile_returns entropy desired Hv Hsep Hno m) as ([] & m' & E & _); [done..|].
  exists m'. split; [done|]. by eapply reconcile_settles.
Qed.

(** ** Running again *)

Section again.
Set Default Proof Using "Type".
Context (entropy : nat -> text).

Lemma parents_there p n fs fs' : wf fs -> fs !! p = Some n -> parents_made p fs fs' -> fs' = fs.
Proof.
  intros Hwf Hl (_ & _ & Hq). apply map_eq. intros q. destruct (Hq q) as [E|(Hs & Hq0 & E)]; [done|].
  destruct (Hwf p n Hl) as [_ Hd]. by rewrite E, (Hd q).
Qed.
Lemma wp_settled_apply state (m : machine) (p := parts (df_Path state)) : wf (m_fs m) -> df_CreateOnly state = false ->
  holds (m_fs m) p (content_of state) (df_Mode state) -> wp (applyFile no_fault entropy state) m (fun _ fs => fs = m_fs m).
Proof.
  intros Hwf Hco Hh. assert (p <> []) as Hp by apply parts_nonempty. unfold applyFile. fold p. rewrite Hco. apply wp_bind.
  eapply wp_mono; [|by apply wp_parents]. intros _ fs Hpm m1 _ <-. destruct Hh as [i Hi]. apply (parents_there _ _ _ _ Hwf Hi) in Hpm.
  rewrite <-Hpm in *. clear m Hpm. apply wp_bind, wp_lstat. intros m2 _ E2. rewrite (lookup_resolve _ _ _ Hwf Hi).
  apply wp_bind, wp_ret. intros m3 _ E3. rewrite E2 in E3. apply wp_bind, wp_stop_when; [by rewrite andb_false_r|]. intros m4 _ E4.
  rewrite E3 in E4. rewrite <-E4 in *. apply wp_bind. rewrite <-Hi. eapply wp_mono; [|by apply wp_settled_file].
  intros b fs [-> Hb] m5 _ E5. rewrite Hb by by exists i. by apply wp_ret.
Qed.
Lemma wp_settled_required state (m : machine) (p := parts (df_Path state)) : wf (m_fs m) -> regular (m_fs m !! p) ->
  wp (applyRequiredFile no_fault entropy state) m (fun _ fs => fs = m_fs m).
Proof.
  intros Hwf (i & c & mo & Hl). assert (p <> []) as Hp by apply parts_nonempty. unfold applyRequiredFile. fold p. apply wp_bind.
  eapply wp_bind_post; [by apply wp_look_parents|]. intros missing m0 E0 [Em0 _] m1 _ E1. rewrite Em0 in E1. apply wp_bind.
  destruct missing.
  { apply parents_missing in E0; [|done]. congruence. }
  apply wp_bind, wp_lstat. intros m2 _ E2. rewrite E1, (lookup_resolve _ _ _ Hwf Hl). apply wp_ret. intros m3 _ E3.
  apply wp_ret. by rewrite E3, E2.
Qed.
Lemma wp_settled_deletion p (m : machine) : wf (m_fs m) -> p <> [] -> m_fs m !! p = None ->
  wp (applyDeletion no_fault p) m (fun _ fs => fs = m_fs m).
Proof.
  intros Hwf Hp Hl. apply wp_bind. eapply wp_mono; [|by apply wp_look_parents]. intros missing fs [-> Hd] m1 _ E1.
  destruct missing; [by apply wp_ret|]. apply wp_bind, wp_lstat. intros m2 _ E2. rewrite E1, resolve_cases, Hl by auto.
  apply wp_ret. by rewrite E2.
Qed.
Lemma wp_each_same {A} (f : A -> run unit) (l : list A) (fs : fs_t) :
  (forall x (m : machine), x ∈ l -> m_fs m = fs -> wp (f x) m (fun _ fs' => fs' = fs)) ->
  forall m : machine, m_fs m = fs -> wp (each f l) m (fun _ fs' => fs' = fs).
Proof.
  induction l as [|x l IH]; intros Hf m E; [by apply wp_ret|]. apply wp_bind. eapply wp_mono; [|apply Hf; [by left|done]].
  intros _ fs' -> m1 _ E1. apply IH; [|done]. intros y m2 Hy. apply Hf. by right.
Qed.
(** A desired file that is there already. *)
Definition settled_state (fs : fs_t) (d : DesiredFile) : Prop :=
  let p := parts (df_Path d) in
  df_CreateOnly d = false /\
  if df_Present d then (if df_PreserveExisting d then regular (fs !! p) else holds fs p (content_of d) (df_Mode d))
  else fs !! p = None.
Lemma settled_noop desired (m : machine) (moves := moves_of desired) : validated desired -> wf (m_fs m) ->
  (forall d, d ∈ desired -> settled_state (m_fs m) d) ->
  (forall s, s ∈ sources_of desired -> s ∉ paths_of moves -> m_fs m !! parts s = None) ->
  wp (applyReconciliation no_fault entropy desired) m (fun _ fs => fs = m_fs m).
Proof.
  intros Hv Hwf Hst Hsrc. apply wp_bind. fold moves. eapply (wp_mono _ _ (fun _ fs => fs = m_fs m)).
  - intros _ fs -> m1 _ E1. apply wp_each_same; [|done]. intros d m2 Hd E2. rewrite <-E2 in *. unfold apply_state.
    case_bool_decide as Hm; simpl; [|by apply wp_ret]. apply wp_bind, wp_call. intros m3 _ E3. rewrite <-E3 in *.
    destruct (Hst d Hd) as [Hco Hs]. destruct (df_Present d); [destruct (df_PreserveExisting d)|].
    + by apply wp_settled_required.
    + by apply wp_settled_apply.
    + apply wp_settled_deletion; [done|apply parts_nonempty|done].
  - apply wp_bind. eapply (wp_mono _ _ (fun _ fs => fs = m_fs m)).
    + intros _ fs -> m1 _ E1. apply wp_each_same; [|done]. intros d m2 Hd E2. rewrite <-E2 in *. case_bool_decide as Ht; [by apply wp_ret|].
      apply wp_settled_deletion; [done|apply parts_nonempty|]. apply Hsrc; [|done]. apply list_elem_of_fmap. eauto.
    + apply wp_each_same; [|done]. intros d m2 Hd E2. rewrite <-E2 in *. apply wp_bind, wp_call. intros m3 _ E3. rewrite <-E3 in *.
      apply wp_bind. eapply wp_mono; [|by apply wp_move_destination]. intros b fs [-> Hb] m4 _ E4. rewrite Hb; [by apply wp_ret|].
      destruct (move_state desired d Hv Hd) as (Hp & Hk & _). apply list_elem_of_filter in Hd as [_ Hd].
      destruct (Hst d Hd) as [_ Hs]. by rewrite Hp, Hk in Hs.
Qed.
End again.

(** C24: reconciliation is idempotent.  After a successful run, whatever failed on the way,
    running the same desired files again, when nothing fails, succeeds and leaves the
    whole file system as it is, provided that none of them may only be created and no
    moved file is wanted again at its old path by a file that is not moved. *)
Theorem reconcile_idempotent fault entropy entropy' input desired m m1 :
  validateDesiredFiles input = Ok desired -> separate desired -> wf (m_fs m) ->
  (forall d, d ∈ desired -> df_CreateOnly d = false) ->
  (forall s, s ∈ sources_of desired -> s ∈ paths_of desired -> s ∈ paths_of (moves_of desired)) ->
  applyReconciliation fault entropy desired m = (Ok tt, m1) ->
  exists m2, applyReconciliation no_fault entropy' desired m1 = (Ok tt, m2) /\ m_fs m2 = m_fs m1.
Proof.
  intros [_ Hv]%validate_desired_spec Hsep Hwf Hco Hsrc E. apply reconcile_settles in E as (Hwf1 & Hd & Hgone); [|done..].
  destruct (settled_noop entropy' desired m1) as ([] & m2 & E2 & Em); [done|done|..|by exists m2].
  - intros d Hin. split; [by apply Hco|]. destruct (Hd d Hin) as (H1 & H2 & H3). destruct (df_Present d) eqn:Ep; [|by apply H1].
    destruct (df_PreserveExisting d) eqn:Ek; [|by apply H3; [|intros []]].
    destruct (decide (df_Path d ∈ sources_of desired)) as [Hs|Hs].
    + destruct (H3 eq_refl) as [i Hi]; [by intros (_ & ? & _)|]. rewrite Hi. by eexists _, _, _.
    + destruct (m_fs m !! parts (df_Path d)) as [[|i c mo|i]|] eqn:El.
      2:{ rewrite H2; [|done|]; rewrite ?El; [by eexists _, _, _|]. split; [done|]. split; [done|]. by eexists _, _, _. }
      all: destruct (H3 eq_refl) as [j Hj]; [rewrite ?El; by intros (_ & _ & ? & ? & ? & ?)|]; rewrite Hj; by eexists _, _, _.
  - intros s Hs Ht. apply Hgone; [done|]. intros Hp. by apply Ht, Hsrc.
Qed.
