(* ===== verification/WorkspaceRead.v ===== *)
(** * Reading a workspace, and the prepared reconciliation

    Models [internal/workspace/reader_types.go], [reader_file.go],
    [reader_directory.go], [expected_files.go] and the life of a
    [PreparedReconciliation] ([reconciliation.go], [apply.go]): files are read exactly,
    directories page by page, and a reconciliation is applied once, after the files it
    was planned against have been read again and found unchanged.

    [attributes] are the permission bits and the size the operating system reports for
    a directory or a special file, and [link] says which special files are symbolic
    links.  [container/heap] is represented by its contract, a list in descending order. *)
From Stdlib Require Import Ascii.
From S2P Require Import Prelude Schema PathIdentity Workspace.
From stdpp Require Import sorting base tactics strings list gmap numbers pretty.
From stdpp Require Import list options.
Open Scope Z_scope.
Open Scope go_scope.

Definition MaxDirectoryPageEntries : Z := 256.
Definition EntryFile : string := "file".
Definition EntryDirectory : string := "directory".
Definition EntryLink : string := "link".
Definition EntryOther : string := "other".
Record Entry := mkEntry { en_Path : text; en_Kind : string; en_Mode : Z; en_Size : Z }.
Record File := mkFile { fi_Entry : Entry; fi_Content : slice ascii }.
Record DirectoryPage := mkPage { dp_Entries : list Entry; dp_HasMore : bool }.
#[global] Instance Entry_eq_dec : EqDecision Entry.
Proof. solve_decision. Defined.

Definition validateReadPath (relative : text) : result unit :=
  if relative == bytes "." then Ok tt else validateRelativePath relative.
Definition entry_Validate (entry : Entry) (exactPath : text) : result unit :=
  check validateReadPath exactPath;
  reject "workspace entry differs from its requested path or valid filesystem values" when
    ((en_Path entry != exactPath) || (en_Size entry <? 0) || (Z.ldiff (en_Mode entry) permission_bits != 0))%bool;
  reject "workspace entry has an unregistered file kind" when
    negb (bool_decide (en_Kind entry ∈ [EntryFile; EntryDirectory; EntryLink; EntryOther]));
  Ok tt.
(** The root is the empty path. *)
Definition read_key (relative : text) : key := if relative == bytes "." then [] else parts relative.

Section reader.
Context (fault : nat -> bool) (attributes : node -> Z * Z) (link : nat -> bool).

Definition entryFromInfo (relative : text) (info : node) : Entry :=
  match info with
  | NFile _ c mode => mkEntry relative EntryFile mode (Z.of_nat (length c))
  | NDir => mkEntry relative EntryDirectory (attributes info).1 (attributes info).2
  | NOther i => mkEntry relative (if link i then EntryLink else EntryOther) (attributes info).1 (attributes info).2
  end.
Definition lift {A} (r : result A) : run A := fun m => (r, m).
(** [root.Lstat] with its error returned. *)
Definition found (p : key) : run node :=
  let! s := lstat fault p in match s with SFound n => ret n | _ => stop "lstat" end.
Fixpoint read_parents (pre rest : key) : run unit :=
  match rest with
  | [] | [_] => ret tt
  | name :: rest =>
      let! info := found (pre ++ [name]) in
      do stop_when (info != NDir) "workspace read parent %q is not an exact directory";
      read_parents (pre ++ [name]) rest
  end.
Definition validateRead (relative : text) : run unit :=
  do check_context fault "context";
  do lift (validateReadPath relative);
  read_parents [] (read_key relative).
Definition ReadEntry (relative : text) : run Entry :=
  do validateRead relative;
  let! info := found (read_key relative) in
  let entry := entryFromInfo relative info in
  do lift (entry_Validate entry relative);
  ret entry.

Definition sameReadFileObservation (before after : node) : bool :=
  match before, after with
  | NFile i c mode, NFile i' c' mode' => bool_decide (i = i' /\ mode = mode' /\ length c = length c')
  | _, _ => false
  end.
Definition stat_open (p : key) (e : string) : run node :=
  let! s := syscall fault (fun m => (m_fs m !! p, m)) in
  match s with Some (Some n) => ret n | _ => stop e end.
Definition ReadFile (relative : text) : run File :=
  let p := read_key relative in
  do validateRead relative;
  let! before := found p in
  match before with
  | NFile i c mode =>
      if c == [] then
        do validateRead relative;
        let! after := found p in
        do stop_when (negb (sameReadFileObservation before after)) "empty workspace file %q changed while observed";
        ret (mkFile (entryFromInfo relative after) (Some []))
      else
        do call fault "open";
        let! opened := stat_open p "workspace file changed before reading" in
        do stop_when (negb (match opened with NFile i' _ _ => bool_decide (i = i') | _ => false end))
             "workspace file changed before reading";
        let! content := read_content fault p in
        match content with
        | None => stop "read"
        | Some content =>
            do validateRead relative;
            let! after := found p in
            let! current := stat_open p "stat" in
            do stop_when (negb (sameReadFileObservation before after) || negb (sameReadFileObservation before current) ||
                          negb (bool_decide (length c = length content)))%bool
                 "workspace file %q changed while its bytes were read";
            ret (mkFile (entryFromInfo relative after) (Some content))
        end
  | _ => stop "workspace read path %q is not a regular file"
  end.

(** ** Directory pages *)

(** [directoryNames]: the greatest name first. *)
Fixpoint heap_push (name : string) (names : list string) : list string :=
  match names with
  | [] => [name]
  | x :: l => if str_lt x name then name :: x :: l else x :: heap_push name l
  end.
(** One name of the scan. *)
Definition keep_name (after : string) (limit : nat) (names : list string) (name : string) : list string :=
  if negb (str_lt after name) then names
  else if (length names <=? limit)%nat then heap_push name names
  else match names with
       | greatest :: rest => if str_lt name greatest then heap_push name rest else names
       | [] => names
       end.
Definition scan_names (after : string) (limit : nat) (entries : list string) : list string :=
  foldl (keep_name after limit) [] entries.
Definition base_name (p : key) : text := default [] (last p).
Fixpoint collect_run {A B} (f : A -> run B) (l : list A) : run (list B) :=
  match l with
  | [] => ret []
  | x :: l => let! y := f x in let! ys := collect_run f l in ret (y :: ys)
  end.
(** [path.Join(relative, name)] *)
Definition joined (relative name : text) : text :=
  if relative == bytes "." then name else relative ++ slash :: name.
Definition ReadDirectory (relative after : text) (limit : Z) : run DirectoryPage :=
  let p := read_key relative in
  do validateRead relative;
  do stop_when ((limit <? 1) || (MaxDirectoryPageEntries <? limit))%bool "directory page limit must be between 1 and %d";
  do stop_when ((after != []) && (one_of after slash || one_of after backslash ||
                 negb (match validateRelativePath after with Ok _ => true | Err _ => false end)))%bool
       "directory page cursor requires one exact basename";
  let! before := found p in
  do stop_when (before != NDir) "workspace listing requires an exact directory";
  do call fault "open";
  do call fault "workspace listing directory changed";
  do check_context fault "context";
  let! entries := read_names fault p in
  match entries with
  | None => stop "read"
  | Some entries =>
      let selected := sort_by id (scan_names (of_bytes after) (Z.to_nat limit) ((fun q => of_bytes (base_name q)) <$> entries)) in
      let more := bool_decide (limit < Z.of_nat (length selected)) in
      let selected := if more then take (Z.to_nat limit) selected else selected in
      let! page := collect_run (fun name =>
        do lift (validateRelativePath (bytes name));
        ReadEntry (joined relative (bytes name))) selected in
      let! current := found p in
      do stop_when (current != NDir) "workspace directory changed during pagination";
      ret (mkPage page more)
  end.

(** ** Expected files *)

Definition file_Validate (file : File) : result unit :=
  check entry_Validate (fi_Entry file) (en_Path (fi_Entry file));
  reject "workspace file differs from its exact regular-file data" when
    ((en_Kind (fi_Entry file) != EntryFile) || (en_Path (fi_Entry file) == bytes ".") ||
     (en_Size (fi_Entry file) != Z.of_nat (length (elems (fi_Content file)))))%bool;
  Ok tt.
Definition expected_step (seen : gset text) (file : File) : result (gset text) :=
  check file_Validate file;
  reject "expected workspace file %q is repeated" when bool_decide (en_Path (fi_Entry file) ∈ seen);
  Ok ({[ en_Path (fi_Entry file) ]} ∪ seen).
(** [bytes.Clone] keeps nil and empty contents apart. *)
Definition cloneExpectedFiles (files : list File) : result (list File) :=
  check loop expected_step ∅ files;
  Ok files.
Definition ValidateReconciliationFiles (desired : list DesiredFile) (expected : list File) : result (list DesiredFile * list File) :=
  let? normalized := validateDesiredFiles desired in
  let? retained := cloneExpectedFiles expected in
  Ok (normalized, retained).
Definition require_expected (file : File) : run unit :=
  let! actual := ReadFile (en_Path (fi_Entry file)) in
  stop_when ((fi_Entry actual != fi_Entry file) || (elems (fi_Content actual) != elems (fi_Content file)))%bool
    "previously observed workspace file %q changed before reconciliation".
Definition requireExpectedFiles (expected : list File) : run unit := each require_expected expected.

(** ** The prepared reconciliation

    Attesting the fence, the root and its mount are calls that can fail; the workspace
    root stays what it was while the fence is held. *)

Record PreparedReconciliation := mkPrepared {
  pr_desired : list DesiredFile; pr_expected : list File; pr_applied : bool }.
Definition Prepare (desired : list DesiredFile) (expected : list File) : run PreparedReconciliation :=
  do check_context fault "prepare workspace reconciliation: %w";
  do call fault "attest fenced workspace reconciliation root: %w";
  do call fault "prepare host-authoritative workspace root: %w";
  let! files := lift (ValidateReconciliationFiles desired expected) in
  ret (mkPrepared files.1 files.2 false).
Definition apply_prepared (entropy : nat -> text) (prepared : PreparedReconciliation) : run unit :=
  do stop_when (pr_applied prepared) "workspace reconciliation was already applied";
  do check_context fault "apply workspace reconciliation: %w";
  do call fault "reattest fenced workspace before mutation: %w";
  do call fault "revalidate host-authoritative workspace root: %w";
  do call fault "authoritative workspace root changed before mutation";
  do requireExpectedFiles (pr_expected prepared);
  applyReconciliation fault entropy (pr_desired prepared).
(** Only a successful run uses the prepared reconciliation up.  The changes reported are
    those of this run. *)
Definition ApplyVerified (entropy : nat -> text) (prepared : PreparedReconciliation) (m : machine) :
  (result unit * machine) * PreparedReconciliation :=
  match apply_prepared entropy prepared (Machine (m_fs m) (m_tick m) (m_inode m) []) with
  | (Ok u, m') => ((Ok u, m'), mkPrepared (pr_desired prepared) (pr_expected prepared) true)
  | (Err e, m') => ((Err e, m'), prepared)
  end.
End reader.
