(* ===== verification/WorkspaceReadSpec.v ===== *)
(** * Reading a workspace and applying what was prepared: the theorems

    A page of a directory is the next stretch of its sorted names; a file is read as it
    is; a prepared reconciliation is applied at most once, and only to a workspace whose
    expected files are unchanged. *)
From Stdlib Require Import Ascii.
From S2P Require Import Prelude Schema SchemaFacts PathIdentity PathFacts UserIntent UserIntentFacts Workspace WorkspaceFacts WorkspaceFrame WorkspaceSpec WorkspaceRead.
From stdpp Require Import sorting base tactics strings list gmap numbers pretty.
From stdpp Require Import list options.
Open Scope nat_scope.
Open Scope go_scope.

(** ** The names of a page *)

Abbreviation sorted_names l := (sort_by id (l : list string)).
Fixpoint insert_name (x : string) (l : list string) : list string :=
  match l with [] => [x] | y :: l => if str_lt y x then y :: insert_name x l else x :: y :: l end.
#[local] Instance name_le_antisym : AntiSymm (=) (key_le (@id string)).
Proof. intros a b. unfold key_le. rewrite !str_lt_le. simpl. intros H1 H2. by apply (anti_symm String.le). Qed.
Lemma str_lt_asym a b : str_lt a b = true -> str_lt b a = false.
Proof.
  intros H. destruct (total (key_le id) a b) as [E|E]; [done|]. unfold key_le in E. simpl in E. congruence.
Qed.
Lemma str_lt_trans a b c : str_lt a b = true -> str_lt b c = true -> str_lt a c = true.
Proof.
  intros H1 H2. destruct (str_lt a c) eqn:E; [done|]. apply str_lt_asym in H2 as H3.
  assert (key_le id b a) as E' by (unfold key_le; apply (key_le_trans id b c a); [exact H3|exact E]).
  unfold key_le in E'. simpl in E'. congruence.
Qed.
Lemma insert_name_perm x l : insert_name x l ≡ₚ x :: l.
Proof. induction l as [|y l IH]; simpl; [done|]. destruct (str_lt y x); [|done]. rewrite IH. constructor. Qed.
Lemma insert_name_sorted x l : StronglySorted (key_le id) l -> StronglySorted (key_le id) (insert_name x l).
Proof.
  induction 1 as [|y l Hl IH Hy]; simpl; [repeat constructor|]. destruct (str_lt y x) eqn:E.
  - constructor; [done|]. rewrite insert_name_perm. constructor; [|done]. by apply str_lt_asym.
  - constructor; [by constructor|]. constructor; [done|]. eapply Forall_impl; [done|]. intros z Hz. by trans y.
Qed.
Lemma sorted_same l l' : l ≡ₚ l' -> StronglySorted (key_le id) l' -> sorted_names l = l'.
Proof.
  intros Hp Hs. apply (StronglySorted_unique (key_le id)); [apply sort_by_sorted|done|]. by rewrite sort_by_Permutation.
Qed.
Lemma sorted_cons x l : sorted_names (x :: l) = insert_name x (sorted_names l).
Proof.
  apply sorted_same; [|apply insert_name_sorted, sort_by_sorted]. by rewrite insert_name_perm, sort_by_Permutation.
Qed.
Lemma sorted_perm l l' : l ≡ₚ l' -> sorted_names l = sorted_names l'.
Proof. intros H. apply sorted_same; [|apply sort_by_sorted]. by rewrite sort_by_Permutation. Qed.
Lemma take_insert_name x l : forall n, take n (insert_name x l) = take n (insert_name x (take n l)).
Proof.
  induction l as [|y l IH]; intros [|n]; simpl; try done. destruct (str_lt y x); simpl; [by rewrite IH|].
  destruct n; simpl; [done|]. by rewrite take_take, Nat.min_l by lia.
Qed.
Lemma insert_name_before x l g : str_lt x g = true -> insert_name x (l ++ [g]) = insert_name x l ++ [g].
Proof.
  intros H. induction l as [|y l IH]; simpl; [by rewrite str_lt_asym|]. destruct (str_lt y x); [|done]. simpl. by rewrite IH.
Qed.
Lemma insert_name_last x l : Forall (fun y => str_lt y x = true) l -> insert_name x l = l ++ [x].
Proof. induction 1 as [|y l Hy _ IH]; simpl; [done|]. by rewrite Hy, IH. Qed.

(** [heap_push] keeps the greatest name first. *)
Definition descending : list string -> Prop := StronglySorted (fun a b => key_le id b a).
Lemma heap_push_perm x l : heap_push x l ≡ₚ x :: l.
Proof. induction l as [|y l IH]; simpl; [done|]. destruct (str_lt y x); [done|]. rewrite IH. constructor. Qed.
Lemma heap_push_descending x l : descending l -> descending (heap_push x l).
Proof.
  induction 1 as [|y l Hl IH Hy]; simpl; [repeat constructor|]. destruct (str_lt y x) eqn:E.
  - constructor; [by constructor|]. apply str_lt_asym in E. constructor; [done|]. eapply Forall_impl; [done|].
    intros z Hz. by trans y.
  - constructor; [done|]. rewrite heap_push_perm. by constructor.
Qed.
Lemma sorted_greatest g l : descending (g :: l) -> sorted_names (g :: l) = sorted_names l ++ [g].
Proof.
  intros H. inversion_clear H as [|? ? Hl Hg]. apply sorted_same.
  - rewrite sort_by_Permutation. apply Permutation_cons_append.
  - apply StronglySorted_app_2; [|apply sort_by_sorted|repeat constructor]. intros x y Hx ->%list_elem_of_singleton.
    rewrite sort_by_Permutation in Hx. rewrite Forall_forall in Hg. by apply Hg.
Qed.
(** The scan keeps the least [limit + 1] of the names after the cursor. *)
Lemma scan_names_spec after limit l : NoDup l ->
  descending (scan_names after limit l) /\
  sorted_names (scan_names after limit l) = take (S limit) (sorted_names (filter (fun n => str_lt after n = true) l)).
Proof.
  unfold scan_names. induction l as [|x l IH] using rev_ind; intros Hnd; [by split; [constructor|]|].
  apply NoDup_app in Hnd as (Hnd & Hx & _). destruct (IH Hnd) as [Hd Hs]. clear IH. rewrite foldl_app. simpl.
  set (names := foldl _ _ l) in *. rewrite filter_app. unfold keep_name.
  destruct (str_lt after x) eqn:Ea; simpl; [|by rewrite filter_cons_False, app_nil_r by (rewrite Ea; done)].
  rewrite filter_cons_True by done. rewrite (sorted_perm (_ ++ [x]) (x :: filter (fun n => str_lt after n = true) l))
    by (symmetry; apply Permutation_cons_append).
  rewrite sorted_cons, take_insert_name, <-Hs.
  assert (Forall (fun y => y <> x) names) as Hne.
  { apply Forall_forall. intros y Hy ->. rewrite <-(sort_by_Permutation id), Hs in Hy. apply elem_of_take in Hy as (i & Hy & _).
    apply list_elem_of_lookup_2 in Hy. rewrite sort_by_Permutation in Hy. apply list_elem_of_filter in Hy as [_ Hy].
    apply (Hx x Hy). by left. }
  destruct (Nat.leb_spec (length names) limit) as [Hl|Hl].
  - split; [by apply heap_push_descending|]. rewrite (sorted_perm _ _ (heap_push_perm x names)), sorted_cons.
    symmetry. apply take_ge. rewrite insert_name_perm, sort_by_Permutation. simpl. lia.
  - assert (length names = S limit) as Hlen.
    { apply (f_equal length) in Hs. rewrite (Permutation_length (sort_by_Permutation id names)), length_take in Hs. lia. }
    destruct names as [|g rest]; [simpl in Hl; lia|]. rewrite (sorted_greatest g rest) by done. simpl in Hlen.
    assert (length (sorted_names rest) = limit) as Hr by (rewrite (Permutation_length (sort_by_Permutation id rest)); lia).
    destruct (str_lt x g) eqn:Eg.
    + split; [apply heap_push_descending; by inversion Hd|]. rewrite insert_name_before by done.
      rewrite (sorted_perm _ _ (heap_push_perm x rest)), sorted_cons. rewrite take_app_length'; [done|].
      rewrite (Permutation_length (insert_name_perm _ _)). simpl. lia.
    + split; [done|]. rewrite insert_name_last.
      * rewrite sorted_greatest by done. rewrite take_app_length'; [done|]. rewrite length_app. simpl. lia.
      * rewrite <-sorted_greatest, sort_by_Permutation by done. inversion_clear Hd as [|? ? _ Hg].
        assert (forall y, key_le id y g -> y <> x -> str_lt y x = true) as Hlt.
        { intros y Hy Hyx. destruct (str_lt_total y x Hyx) as [E|E]; [done|]. exfalso. apply Hyx, (anti_symm (key_le id)).
          - trans g; [done|]. exact Eg.
          - by apply str_lt_asym. }
        inversion_clear Hne as [|? ? Hgx Hne']. constructor; [apply Hlt; [apply str_lt_irrefl|done]|]. rewrite Forall_forall in Hg, Hne' |- *. auto.
Qed.

(** The names after a name of the list are what follows it. *)
Lemma sorted_split l1 n l2 : NoDup (l1 ++ n :: l2) -> StronglySorted (key_le id) (l1 ++ n :: l2) ->
  filter (fun x => str_lt n x = true) (l1 ++ n :: l2) = l2.
Proof.
  intros Hnd Hs. rewrite filter_app, filter_cons_False by (rewrite str_lt_irrefl; done).
  apply NoDup_app in Hnd as (_ & _ & [Hn2 _]%NoDup_cons).
  assert (filter (fun x => str_lt n x = true) l1 = []) as ->.
  { apply elem_of_nil_inv. intros x [Hx Hx1]%list_elem_of_filter.
    assert (key_le id x n) as H by (eapply StronglySorted_app_1_elem_of; [done..|by left]).
    unfold key_le in H. simpl in H. congruence. }
  simpl. apply StronglySorted_app_1_r in Hs. inversion_clear Hs as [|? ? _ Hall].
  revert Hn2 Hall. clear. induction l2 as [|x l IH]; intros Hn Hall; [done|]. apply not_elem_of_cons in Hn as [Hx Hn].
  inversion_clear Hall as [|? ? Hx' Hl]. rewrite filter_cons_True; [by rewrite IH|].
  destruct (str_lt_total n x Hx) as [E|E]; [done|]. unfold key_le in Hx'. simpl in Hx'. congruence.
Qed.
Definition names_after (after : string) (l : list string) : list string := sorted_names (filter (fun n => str_lt after n = true) l).
Lemma names_after_next after l k n : NoDup l -> last (take k (names_after after l)) = Some n ->
  names_after after l = take k (names_after after l) ++ names_after n l.
Proof.
  intros Hnd Hl. rewrite <-(take_drop k (names_after after l)) at 1. f_equal. symmetry.
  assert (StronglySorted (key_le id) (names_after after l)) as Hs by apply sort_by_sorted.
  assert (NoDup (names_after after l)) as Hnd' by (unfold names_after; rewrite sort_by_Permutation; by apply NoDup_filter).
  apply last_Some in Hl as [t Ht].
  assert (str_lt after n = true) as Han.
  { assert (n ∈ names_after after l) as Hin.
    { rewrite <-(take_drop k (names_after after l)), Ht. set_solver. }
    unfold names_after in Hin. rewrite sort_by_Permutation in Hin. by apply list_elem_of_filter in Hin as [? _]. }
  assert (names_after after l = t ++ n :: drop k (names_after after l)) as Hall.
  { rewrite <-(take_drop k (names_after after l)) at 1. by rewrite Ht, <-app_assoc. }
  apply sorted_same.
  - transitivity (filter (fun x => str_lt n x = true) (names_after after l)).
    + unfold names_after. rewrite sort_by_Permutation, list_filter_filter_l; [done|]. intros x Hx. by eapply str_lt_trans.
    + rewrite Hall at 1. by rewrite sorted_split by (by rewrite <-Hall).
  - rewrite Hall in Hs. apply StronglySorted_app_1_r in Hs. by inversion Hs.
Qed.

(** ** Reading *)

Section reading.
Set Default Proof Using "Type".
Context (fault : nat -> bool) (attributes : node -> Z * Z) (link : nat -> bool).

Lemma quiet_lift {A} (r : result A) : quiet (lift r).
Proof. intros m r' m'. unfold lift. congruence. Qed.
Lemma lift_ok {A} (r : result A) m a m' : lift r m = (Ok a, m') -> r = Ok a /\ m' = m.
Proof. unfold lift. intros. by simplify_eq. Qed.
Lemma quiet_found p : quiet (found fault p).
Proof. unfold found. quiet_run. Qed.
Lemma found_ok p m n m' : found fault p m = (Ok n, m') -> m_fs m' = m_fs m /\ resolve (m_fs m) [] p = SFound n.
Proof.
  intros H. apply quiet_found in H as Hq. split; [done|]. run_as H as s m1 E. apply lstat_inv in E as (_ & s' & Es & Hs).
  injection Es as <-. destruct s; try discriminate. injection H as <- <-. by destruct Hs.
Qed.
Lemma quiet_read_parents rest : forall pre, quiet (read_parents fault pre rest).
Proof.
  induction rest as [|x rest IH]; intros pre; [apply quiet_ret|]. destruct rest as [|y rest]; [apply quiet_ret|].
  apply quiet_bind; [apply quiet_found|]. intros n. apply quiet_bind; [apply quiet_stop_when|]. intros _. apply IH.
Qed.
Lemma quiet_validate_read relative : quiet (validateRead fault relative).
Proof.
  apply quiet_bind; [apply quiet_call|]. intros _. apply quiet_bind; [apply quiet_lift|]. intros _. apply quiet_read_parents.
Qed.
Lemma quiet_stat_open p e : quiet (stat_open fault p e).
Proof. unfold stat_open. quiet_run. Qed.
Lemma quiet_read_content p : quiet (read_content fault p).
Proof. intros m r m' H. by apply read_content_inv in H as [? _]. Qed.
Lemma quiet_read_entry relative : quiet (ReadEntry fault attributes link relative).
Proof.
  apply quiet_bind; [apply quiet_validate_read|]. intros _. apply quiet_bind; [apply quiet_found|]. intros n.
  apply quiet_bind; [apply quiet_lift|]. intros _. apply quiet_ret.
Qed.
Lemma read_entry_ok relative m e m' : ReadEntry fault attributes link relative m = (Ok e, m') ->
  exists n, resolve (m_fs m) [] (read_key relative) = SFound n /\ e = entryFromInfo attributes link relative n.
Proof.
  intros H. run_as H as u m1 E1. apply quiet_validate_read in E1. run_as H as n m2 E2. apply found_ok in E2 as [_ E2].
  run_as H as v m3 E3. injection H as <- <-. exists n. by rewrite E1 in E2.
Qed.
Lemma quiet_read_file relative : quiet (ReadFile fault attributes link relative).
Proof.
  unfold ReadFile. apply quiet_bind; [apply quiet_validate_read|]. intros _. apply quiet_bind; [apply quiet_found|]. intros n.
  repeat match goal with
  | |- quiet (match ?x with _ => _ end) => destruct x
  | |- quiet (bind _ _) => apply quiet_bind; [|intros]
  | |- _ => eauto using quiet_validate_read, quiet_found, quiet_stat_open, quiet_read_content with quiet
  end.
Qed.
(** A file is read as it is. *)
Lemma read_file_ok relative m f m' : read_key relative <> [] -> ReadFile fault attributes link relative m = (Ok f, m') ->
  exists i c mode, m_fs m !! read_key relative = Some (NFile i c mode) /\
    f = mkFile (mkEntry relative EntryFile mode (Z.of_nat (length c))) (Some c).
Proof.
  intros Hp H. unfold ReadFile in H. set (p := read_key relative) in *. run_as H as u m1 E1. apply quiet_validate_read in E1.
  run_as H as n m2 E2. apply found_ok in E2 as [Em2 Hn]. apply resolve_lookup in Hn as Hl; [|done]. rewrite E1 in Hl.
  destruct n as [|i c mode|i]; try discriminate. exists i, c, mode. split; [done|].
  assert (forall m n, m_fs m = m_fs m1 -> resolve (m_fs m) [] p = SFound n -> n = NFile i c mode) as Hsame by congruence.
  case_bool_decide as Hc.
  - run_as H as v m3 E3. apply quiet_validate_read in E3. run_as H as n m4 E4. apply found_ok in E4 as [_ Hn4].
    apply Hsame in Hn4 as ->; [|congruence]. run_as H as w m5 E5. injection H as <- <-. by rewrite Hc.
  - run_as H as v m3 E3. apply quiet_call in E3. run_as H as n m4 E4. apply quiet_stat_open in E4. run_as H as w m5 E5.
    apply quiet_stop_when in E5. run_as H as content m6 E6. apply read_content_inv in E6 as (E6 & c' & Ec & Hr). injection Ec as ->.
    destruct c' as [t|]; [|discriminate]. destruct (Hr t) as (i' & mo' & Ht); [done|].
    run_as H as x m7 E7. apply quiet_validate_read in E7. run_as H as n' m8 E8. apply found_ok in E8 as [_ Hn8].
    apply Hsame in Hn8 as ->; [|congruence]. run_as H as n'' m9 E9. run_as H as y m10 E10. injection H as <- <-.
    rewrite E5, E4, E3, Em2, E1, Hl in Ht. by simplify_eq.
Qed.

(** ** Pages *)

Lemma collect_run_ok {A B} (f : A -> run B) l : (forall x, quiet (f x)) -> forall m ys m', collect_run f l m = (Ok ys, m') ->
  m_fs m' = m_fs m /\ Forall2 (fun x y => exists m1 m2, m_fs m1 = m_fs m /\ f x m1 = (Ok y, m2)) l ys.
Proof.
  intros Hf. induction l as [|x l IH]; intros m ys m' H; [by injection H as <- <-|]. simpl in H. run_as H as y m1 E1.
  run_as H as ys' m2 E2. injection H as <- <-. apply Hf in E1 as Hq. apply IH in E2 as [E2 HF]. split; [congruence|].
  constructor; [eauto|]. by rewrite Hq in HF.
Qed.
Definition child_names (fs : fs_t) (p : key) : list string := (fun q => of_bytes (base_name q)) <$> children fs p.
Lemma child_names_nodup fs p : NoDup (child_names fs p).
Proof.
  apply NoDup_fmap_2_strong.
  - intros q r (Hq & Eq & _)%children_spec (Hr & Er & _)%children_spec E%of_bytes_inj.
    destruct (key_cases q) as [->|(q' & x & ->)]; [done|]. destruct (key_cases r) as [->|(r' & y & ->)]; [done|].
    unfold base_name in E. rewrite !last_snoc in E. rewrite !parent_snoc in *. simpl in E. congruence.
  - apply NoDup_filter, NoDup_fst_map_to_list.
Qed.
Lemma page_names (names : list string) (limit : Z) : (1 <= limit)%Z ->
  let more := bool_decide (limit < Z.of_nat (length (take (S (Z.to_nat limit)) names)))%Z in
  (if more then take (Z.to_nat limit) (take (S (Z.to_nat limit)) names) else take (S (Z.to_nat limit)) names) = take (Z.to_nat limit) names /\
  more = bool_decide (limit < Z.of_nat (length names))%Z.
Proof.
  intros Hl more. unfold more. rewrite length_take. case_bool_decide as Hm.
  - split; [rewrite take_take; f_equal; lia|]. symmetry. apply bool_decide_true. lia.
  - split; [rewrite !take_ge by lia; done|]. symmetry. apply bool_decide_false. lia.
Qed.
Lemma read_directory_ok relative after limit m page m' : ReadDirectory fault attributes link relative after limit m = (Ok page, m') ->
  let rest := names_after (of_bytes after) (child_names (m_fs m) (read_key relative)) in
  m_fs m' = m_fs m /\ resolve (m_fs m) [] (read_key relative) = SFound NDir /\
  Forall2 (fun name e => exists n, resolve (m_fs m) [] (read_key (joined relative (bytes name))) = SFound n /\
    e = entryFromInfo attributes link (joined relative (bytes name)) n) (take (Z.to_nat limit) rest) (dp_Entries page) /\
  dp_HasMore page = bool_decide (limit < Z.of_nat (length rest))%Z.
Proof.
  intros H rest. unfold ReadDirectory in H. run_as H as u1 m1 E1. apply quiet_validate_read in E1.
  run_as H as u2 m2 E2. apply stop_when_ok in E2 as [El ->]. apply orb_false_elim in El as [El%Z.ltb_ge _].
  run_as H as u3 m3 E3. apply stop_when_ok in E3 as [_ ->]. run_as H as before m4 E4. apply found_ok in E4 as [E4 Hdir].
  run_as H as u5 m5 E5. apply stop_when_ok in E5 as [Hb ->]. apply negb_false_iff, bool_decide_eq_true in Hb as ->.
  run_as H as u6 m6 E6. apply quiet_call in E6. run_as H as u7 m7 E7. apply quiet_call in E7. run_as H as u8 m8 E8. apply quiet_call in E8.
  run_as H as entries m9 E9. apply read_names_inv in E9 as (E9 & l & Eq & Hn). injection Eq as ->.
  destruct Hn as [->| ->]; [discriminate|]. rewrite E8, E7, E6, E4, E1 in H, E9. rewrite E1 in Hdir.
  fold (child_names (m_fs m) (read_key relative)) in H.
  destruct (scan_names_spec (of_bytes after) (Z.to_nat limit) (child_names (m_fs m) (read_key relative)) (child_names_nodup _ _)) as [_ Hs].
  rewrite Hs in H. fold (names_after (of_bytes after) (child_names (m_fs m) (read_key relative))) in H. fold rest in H.
  destruct (page_names rest limit El) as [Ht Hm]. rewrite Ht, Hm in H.
  run_as H as entries m10 E10. run_as H as current m11 E11. run_as H as u12 m12 E12. injection H as <- <-.
  apply collect_run_ok in E10 as [E10 HF].
  2:{ intros x. apply quiet_bind; [apply quiet_lift|]. intros _. apply quiet_read_entry. }
  apply quiet_found in E11. apply stop_when_ok in E12 as [_ ->]. split; [congruence|]. split; [done|]. split; [|done].
  eapply Forall2_impl; [done|]. intros name e (m' & m'' & Em' & He). simpl in He. run_as He as v m13 E13.
  apply lift_ok in E13 as [_ ->]. apply read_entry_ok in He as (n & Hn & ->). exists n. split; [congruence|done].
Qed.

(** ** Expected files *)

(** The file an [Entry] and a content describe. *)
Definition unchanged (fs : fs_t) (file : File) : Prop :=
  exists i c, fs !! read_key (en_Path (fi_Entry file)) = Some (NFile i c (en_Mode (fi_Entry file))) /\
    elems (fi_Content file) = c /\ en_Kind (fi_Entry file) = EntryFile /\ en_Size (fi_Entry file) = Z.of_nat (length c).
Lemma quiet_expected expected : quiet (requireExpectedFiles fault attributes link expected).
Proof.
  induction expected as [|f l IH]; [apply quiet_ret|]. apply quiet_bind; [|intros _; exact IH].
  apply quiet_bind; [apply quiet_read_file|]. intros. apply quiet_stop_when.
Qed.
Lemma expected_ok expected m u m' : Forall (fun f => read_key (en_Path (fi_Entry f)) <> []) expected ->
  requireExpectedFiles fault attributes link expected m = (Ok u, m') -> Forall (unchanged (m_fs m)) expected.
Proof.
  intros Hp. revert m. induction Hp as [|f l Hf _ IH]; intros m H; [done|]. run_as H as v m1 E1.
  run_as E1 as actual m2 E2. apply quiet_read_file in E2 as Hq. apply read_file_ok in E2 as (i & c & mode & Hl & ->); [|done].
  apply stop_when_ok in E1 as [Hb ->]. apply orb_false_elim in Hb as [H1 H2].
  apply negb_false_iff, bool_decide_eq_true in H1, H2. simpl in H1, H2. constructor; [|rewrite <-Hq; by eapply IH].
  exists i, c. rewrite <-H1. simpl. split_and!; done.
Qed.
Lemma clone_expected_ok files retained : cloneExpectedFiles files = Ok retained ->
  retained = files /\ Forall (fun f => read_key (en_Path (fi_Entry f)) <> []) files.
Proof.
  intros H. unfold cloneExpectedFiles in H. destruct (loop expected_step ∅ files) as [st|] eqn:E; [|discriminate].
  injection H as <-. split; [done|]. eapply loop_forall; [|exact E]. intros s x s' Hs. unfold expected_step in Hs.
  apply check_ok in Hs as [Hv _]. unfold file_Validate in Hv. apply check_ok in Hv as [_ Hv]. apply reject_ok in Hv as [Hv _].
  apply orb_false_elim in Hv as [Hv _]. apply orb_false_elim in Hv as [_ Hd%bool_decide_eq_false].
  unfold read_key. rewrite bool_decide_false by done. apply parts_nonempty.
Qed.
End reading.

(** ** The theorems *)

(** C28: a page of a directory.  Whatever fails, a listing that succeeds changes nothing
    and returns, for the names of the directory that come after the cursor, in order,
    the first [limit] of them, each with the entry that is there; it says that there is
    more exactly when there is; and the names after the last one of the page are those
    the page left out, so that following the cursors lists the directory exactly once. *)
Theorem directory_page_exact fault attributes link relative after limit m page m' :
  ReadDirectory fault attributes link relative after limit m = (Ok page, m') ->
  let names := child_names (m_fs m) (read_key relative) in
  let rest := names_after (of_bytes after) names in
  let listed := take (Z.to_nat limit) rest in
  m_fs m' = m_fs m /\
  Forall2 (fun name e => exists n, resolve (m_fs m) [] (read_key (joined relative (bytes name))) = SFound n /\
    e = entryFromInfo attributes link (joined relative (bytes name)) n) listed (dp_Entries page) /\
  (dp_HasMore page = true <-> (limit < Z.of_nat (length rest))%Z) /\
  (forall n, last listed = Some n -> rest = listed ++ names_after n names).
Proof.
  intros H names rest listed. apply read_directory_ok in H as (H1 & _ & H2 & H3). split; [done|]. split; [done|].
  split; [rewrite H3; apply bool_decide_eq_true|]. intros n. apply names_after_next, child_names_nodup.
Qed.
(** C25: a prepared reconciliation is applied at most once and only to the workspace it was
    prepared for.  If applying it changes the file system at all, or succeeds, then it
    was not applied before and every expected file is there with the same bytes, mode
    and size as when it was observed.  It is used up exactly by success, and applying it
    again then fails and changes nothing. *)
Theorem apply_verified_guarded fault attributes link entropy desired expected m prepared m1 m2 r m3 prepared' :
  Prepare fault desired expected m = (Ok prepared, m1) ->
  ApplyVerified fault attributes link entropy prepared m2 = ((r, m3), prepared') ->
  (r = Ok tt \/ m_fs m3 <> m_fs m2 -> Forall (unchanged (m_fs m2)) expected) /\
  (pr_applied prepared' = true <-> r = Ok tt) /\
  (r = Ok tt -> forall fault' entropy' m4, exists e m5,
     ApplyVerified fault' attributes link entropy' prepared' m4 = ((Err e, m5), prepared') /\ m_fs m5 = m_fs m4).
Proof.
  intros Hp H.
  assert (Forall (fun f => read_key (en_Path (fi_Entry f)) <> []) expected /\ pr_expected prepared = expected /\ pr_applied prepared = false)
    as (Hk & He & Ha).
  { run_as Hp as u1 m5 E1. run_as Hp as u2 m6 E2. run_as Hp as u3 m7 E3. run_as Hp as files m8 E4. injection Hp as <- <-.
    apply lift_ok in E4 as [E4 _]. unfold ValidateReconciliationFiles in E4. apply bind_ok in E4 as (d & _ & E4).
    apply bind_ok in E4 as (ret & Hc & E4). injection E4 as <-. by apply clone_expected_ok in Hc as [-> ?]. }
  unfold ApplyVerified in H. set (m2' := Machine (m_fs m2) (m_tick m2) (m_inode m2) []) in H.
  assert (forall r m3, apply_prepared fault attributes link entropy prepared m2' = (r, m3) ->
    m_fs m3 = m_fs m2 /\ (exists e, r = Err e) \/ Forall (unchanged (m_fs m2)) expected) as Hg.
  { clear r m3 H. intros r m3 H. unfold apply_prepared in H. rewrite Ha in H.
    apply bind_inv in H as [(u1 & n1 & E1%quiet_ret & H)|(e & E1 & ->)]; [|discriminate].
    do 4 (apply bind_inv in H as [(? & ? & E%quiet_call & H)|(e & E%quiet_call & ->)];
      [rewrite E1 in E; clear E1; rename E into E1|left; rewrite E; eauto]).
    apply bind_inv in H as [(u2 & n2 & E2 & H)|(e & E2 & ->)].
    - right. apply expected_ok in E2; [|by rewrite He]. by rewrite He, E1 in E2.
    - left. apply quiet_expected in E2. rewrite E2, E1. eauto. }
  destruct (apply_prepared fault attributes link entropy prepared m2') as [[[]|e] n3] eqn:E; injection H as <- <- <-;
    destruct (Hg _ _ eq_refl) as [Hs|Hs]; clear Hg E.
  - destruct Hs as [_ [e ?]]. discriminate.
  - split; [done|]. split; [done|]. intros _ fault' entropy' m4. eexists _, _. split; reflexivity.
  - split; [|rewrite Ha; by split; [split|]]. destruct Hs as [Hs _]. by intros [?|Hne].
  - split; [done|]. rewrite Ha. by split; [split|].
Qed.
