(* ===== verification/WorkspaceExample.v ===== *)
(** * Reconciliation of a sample workspace

    The theorems of [WorkspaceSpec.v], [WorkspaceLive.v] and [WorkspaceReadSpec.v] at concrete workspaces, and
    what the code does where its documentation promises more. *)
From Stdlib Require Import Ascii.
From S2P Require Import Prelude Schema SchemaFacts PathIdentity PathFacts UserIntent UserIntentFacts Workspace WorkspaceFacts WorkspaceFrame WorkspaceSpec WorkspaceTotal WorkspaceLive WorkspaceRead WorkspaceReadSpec.
From stdpp Require Import sorting base tactics strings list gmap numbers pretty.
From stdpp Require Import list options.
Open Scope go_scope.

(** ** Deciding the hypotheses *)

Definition prefixes (p : key) : list key := (fun n => take n p) <$> seq 1 (length p - 1).
Definition well_formed (fs : fs_t) : bool :=
  forallb (fun '(p, _) => (p != []) && forallb (fun d => fs !! d == Some NDir) (prefixes p))%bool (map_to_list fs).
Lemma well_formed_ok fs : well_formed fs = true -> wf fs.
Proof.
  intros H p n Hp. unfold well_formed in H. rewrite forallb_forall in H. specialize (H (p, n)). apply andb_prop in H as [H1 H2].
  2:{ apply list_elem_of_In. by apply elem_of_map_to_list. }
  apply negb_true_iff, bool_decide_eq_false in H1. split; [done|]. intros d Hd Hs. rewrite forallb_forall in H2.
  apply (bool_decide_eq_true_1 _), H2. apply list_elem_of_In, list_elem_of_fmap. exists (length d). apply strict_length in Hs as Hl.
  destruct Hs as [[k ->] _]. split; [by rewrite take_app_length|]. apply elem_of_seq. destruct d; [done|]. simpl in *. lia.
Qed.
Definition separated (desired : list DesiredFile) : bool :=
  let l := paths_of desired ++ sources_of desired in
  forallb (fun a => forallb (fun b => (a == b) || negb (bool_decide (parts a `prefix_of` parts b)) &&
    negb (bool_decide (parts b `prefix_of` parts a)))%bool l) l.
Lemma separated_ok desired : separated desired = true -> separate desired.
Proof.
  intros H a b Ha Hb Hne [Hc|Hc]; unfold separated in H; rewrite forallb_forall in H;
    specialize (H a (proj1 (list_elem_of_In _ _) Ha)); rewrite forallb_forall in H; specialize (H b (proj1 (list_elem_of_In _ _) Hb));
    rewrite bool_decide_false in H by done; apply andb_prop in H as [H1 H2].
  - by rewrite bool_decide_true in H1.
  - by rewrite bool_decide_true in H2.
Qed.
Lemma fresh_names_ok e fs : bool_decide (Forall (fun q => last q <> Some (temporary_prefix ++ e)) (map_to_list fs).*1) = true ->
  fresh_names (fun _ => e) fs.
Proof.
  intros H%bool_decide_eq_true dir t. destruct (fs !! _) as [n|] eqn:E; [|done]. rewrite Forall_forall in H. exfalso.
  apply (H (dir ++ [temporary_prefix ++ e])); [|apply last_snoc]. apply list_elem_of_fmap. exists (dir ++ [temporary_prefix ++ e], n).
  split; [done|]. by apply elem_of_map_to_list.
Qed.
Lemma no_names_ok e p : temporary_prefix ++ e ∉ p -> no_names (fun _ => e) p.
Proof. intros H dir t [k ->]. apply H. apply elem_of_app. left. apply elem_of_app. right. by left. Qed.

(** ** The sample *)

Module workspace_sample.
Definition at_path (p : string) : key := parts (bytes p).
Definition file (i : nat) (c : string) (mode : Z) : node := NFile i (bytes c) mode.
Definition files : fs_t := list_to_map [
  (at_path "a", file 0 "old" 420); (at_path "b", NDir); (at_path "b/x", file 1 "X" 420);
  (at_path "s", file 2 "moved" 420); (at_path "keep", file 3 "kept" 384); (at_path "g", file 4 "gone" 420);
  (at_path "o", file 5 "other" 420) ].
Definition start : machine := Machine files 0 100 [].
Definition desired_file (p c : string) (mode : Z) : DesiredFile := mkDesired (bytes p) true (Some (bytes c)) mode [] false false.
Definition moved_file (p c from : string) : DesiredFile := mkDesired (bytes p) true (Some (bytes c)) 420 (bytes from) false false.
Definition kept_file (p c : string) : DesiredFile := mkDesired (bytes p) true (Some (bytes c)) 420 [] true false.
Definition new_file (p c : string) : DesiredFile := mkDesired (bytes p) true (Some (bytes c)) 420 [] false true.
Definition no_file (p : string) : DesiredFile := mkDesired (bytes p) false None 0 [] false false.
Definition inputs : list DesiredFile :=
  [desired_file "b" "file" 384; moved_file "d/e" "moved" "s"; no_file "g"; kept_file "keep" "k"; desired_file "a" "new" 420].
Definition validated_or (l : list DesiredFile) : list DesiredFile :=
  match validateDesiredFiles l with Ok d => d | Err _ => [] end.
Definition e : text := bytes "0".
(** The comparison of a's content fails: the file is written anyway. *)
Definition reading_fails (t : nat) : bool := bool_decide (t = 28%nat).
(** Installing "a" fails, and so does removing the temporary file. *)
Definition installing_fails (t : nat) : bool := bool_decide (t = 43%nat \/ t = 44%nat).
Definition run_of fault desired : result unit * machine := applyReconciliation fault (fun _ => e) desired start.

Lemma reconcile_exact_witness :
  let desired := validated_or inputs in
  wf (m_fs (run_of reading_fails desired).2) /\
  (forall d, d ∈ desired -> as_desired (sources_of desired) (m_fs start) (m_fs (run_of reading_fails desired).2) d) /\
  (forall s, s ∈ sources_of desired -> s ∉ paths_of desired -> m_fs (run_of reading_fails desired).2 !! parts s = None) /\
  (forall q, m_fs (run_of reading_fails desired).2 !! q = m_fs start !! q \/
    change (written desired) (deleted desired) (m_fs start) (m_fs (run_of reading_fails desired).2) q).
Proof.
  apply (reconcile_exact reading_fails (fun _ => e) inputs (validated_or inputs) start tt).
  - vm_compute. reflexivity.
  - apply separated_ok. vm_compute. reflexivity.
  - apply well_formed_ok. vm_compute. reflexivity.
  - vm_compute. reflexivity.
Defined.
Lemma reconcile_frame_witness :
  let desired := validated_or inputs in
  wf (m_fs (run_of installing_fails desired).2) /\
  (run_of installing_fails desired).1 = Err "install workspace file %q: %w" /\
  m_fs (run_of installing_fails desired).2 !! [temporary_prefix ++ e] <> None /\
  forall q, m_fs (run_of installing_fails desired).2 !! q = m_fs start !! q \/
    change (written desired) (deleted desired) (m_fs start) (m_fs (run_of installing_fails desired).2) q \/
    ((exists er, Err "install workspace file %q: %w" = @Err unit er) /\ temporary (written desired) q).
Proof.
  destruct (reconcile_frame installing_fails (fun _ => e) inputs (validated_or inputs) start (Err "install workspace file %q: %w")
    (run_of installing_fails (validated_or inputs)).2) as [H1 H2].
  - vm_compute. reflexivity.
  - apply well_formed_ok. vm_compute. reflexivity.
  - vm_compute. reflexivity.
  - split; [exact H1|]. split; [vm_compute; reflexivity|]. split; [vm_compute; discriminate|]. exact H2.
Defined.
Lemma reconcile_completes_witness :
  let desired := validated_or (new_file "n/m" "fresh" :: inputs) in
  exists m', run_of no_fault desired = (Ok tt, m') /\ wf (m_fs m') /\
    (forall d, d ∈ desired -> as_desired (sources_of desired) (m_fs start) (m_fs m') d) /\
    (forall s, s ∈ sources_of desired -> s ∉ paths_of desired -> m_fs m' !! parts s = None).
Proof.
  apply (reconcile_completes (fun _ => e) (new_file "n/m" "fresh" :: inputs)).
  - vm_compute. reflexivity.
  - apply separated_ok. vm_compute. reflexivity.
  - apply well_formed_ok. vm_compute. reflexivity.
  - apply fresh_names_ok. vm_compute. reflexivity.
  - intros p Hp. apply no_names_ok. revert p Hp.
    apply (Forall_forall (fun p => temporary_prefix ++ e ∉ p)). refine (bool_decide_eq_true_1 _ _). vm_compute. reflexivity.
  - intros d Hd Hc. assert (d = normalized (new_file "n/m" "fresh")) as ->.
    { revert d Hd Hc. apply (Forall_forall (fun d => df_CreateOnly d = true -> d = normalized (new_file "n/m" "fresh"))).
      vm_compute. repeat constructor; discriminate. }
    split; [vm_compute; reflexivity|]. intros a Ha Hs. assert (a = at_path "n") as ->.
    { apply strict_length in Hs as Hl. destruct Hs as [[k Hk] _]. change (parts (df_Path _)) with [bytes "n"; bytes "m"] in Hk, Hl.
      destruct a as [|x [|y a]]; [done| |simpl in Hl; lia]. injection Hk as <- _. reflexivity. }
    left. vm_compute. reflexivity.
Defined.
Lemma reconcile_idempotent_witness :
  let desired := validated_or inputs in
  exists m2, applyReconciliation no_fault (fun _ => bytes "1") desired (run_of reading_fails desired).2 = (Ok tt, m2) /\
    m_fs m2 = m_fs (run_of reading_fails desired).2.
Proof.
  apply (reconcile_idempotent reading_fails (fun _ => e) (fun _ => bytes "1") inputs (validated_or inputs) start).
  - vm_compute. reflexivity.
  - apply separated_ok. vm_compute. reflexivity.
  - apply well_formed_ok. vm_compute. reflexivity.
  - apply (Forall_forall (fun d => df_CreateOnly d = false)). vm_compute. repeat constructor.
  - apply (Forall_forall (fun s => s ∈ paths_of (validated_or inputs) -> s ∈ paths_of (moves_of (validated_or inputs)))).
    refine (bool_decide_eq_true_1 _ _). vm_compute. reflexivity.
  - vm_compute. reflexivity.
Defined.

Definition attributes (n : node) : Z * Z := match n with NDir => (493%Z, 4096%Z) | _ => (511%Z, 1%Z) end.
Definition no_link (_ : nat) : bool := false.
Definition page_run := ReadDirectory no_fault attributes no_link (bytes ".") (bytes "b") 2 start.
Definition page : DirectoryPage := match page_run.1 with Ok p => p | Err _ => mkPage [] false end.
Lemma directory_page_exact_witness :
  page = mkPage [entryFromInfo attributes no_link (bytes "g") (file 4 "gone" 420);
                 entryFromInfo attributes no_link (bytes "keep") (file 3 "kept" 384)] true /\
  names_after "b" (child_names files []) = ["g"; "keep"] ++ names_after "keep" (child_names files []).
Proof.
  destruct (directory_page_exact no_fault attributes no_link (bytes ".") (bytes "b") 2 start page page_run.2) as (_ & _ & _ & H).
  - vm_compute. reflexivity.
  - split; [vm_compute; reflexivity|]. apply (H "keep"). vm_compute. reflexivity.
Defined.

Definition observed : list File := [mkFile (mkEntry (bytes "a") EntryFile 420 3) (Some (bytes "old"))].
Definition prepared : PreparedReconciliation := mkPrepared (validated_or inputs) observed false.
Definition applied := ApplyVerified no_fault attributes no_link (fun _ => e) prepared start.
Lemma apply_verified_guarded_witness :
  applied.1.1 = Ok tt /\ Forall (unchanged (m_fs start)) observed /\ pr_applied applied.2 = true.
Proof.
  assert (applied.1.1 = Ok tt) as Hr by (vm_compute; reflexivity).
  destruct (apply_verified_guarded no_fault attributes no_link (fun _ => e) inputs observed start prepared
    (Prepare no_fault inputs observed start).2 start applied.1.1 applied.1.2 applied.2) as (H1 & H2 & _).
  - vm_compute. reflexivity.
  - unfold applied. by destruct (ApplyVerified _ _ _ _ _ _) as [[]].
  - split; [exact Hr|]. split; [apply H1; by left|by apply H2].
Defined.

(** ** Where the code does less than it says *)

(** The validation compares only neighbours in the sorted list of paths, and a path with
    a character below the slash can stand between a file and what lies below it: "a",
    "a-b" and "a/b" pass.  The run then succeeds, and "a" is a directory. *)
Lemma overlap_not_rejected :
  let input := [desired_file "a" "file" 420; desired_file "a-b" "x" 420; desired_file "a/b" "below" 420] in
  exists desired, validateDesiredFiles input = Ok desired /\
    (run_of no_fault desired).1 = Ok tt /\ m_fs (run_of no_fault desired).2 !! at_path "a" = Some NDir.
Proof. eexists. split; [vm_compute; reflexivity|]. split; vm_compute; reflexivity. Qed.
(** An existing regular file that is to be preserved is replaced when it is also the
    source of a move: it is moved away and written anew. *)
Lemma preserved_source_replaced :
  let input := [moved_file "b/y" "kept" "keep"; kept_file "keep" "default"] in
  exists desired, validateDesiredFiles input = Ok desired /\ m_fs start !! at_path "keep" = Some (file 3 "kept" 384) /\
    (run_of no_fault desired).1 = Ok tt /\
    exists i, m_fs (run_of no_fault desired).2 !! at_path "keep" = Some (file i "default" 420).
Proof.
  eexists. split; [vm_compute; reflexivity|]. split; [vm_compute; reflexivity|]. split; [vm_compute; reflexivity|].
  eexists. vm_compute. reflexivity.
Qed.
End workspace_sample.
