(* ===== verification/Jobs.v ===== *)
(** * Jobs: tables and transactions

    The tables the job life cycle of [internal/queue] reads and writes, with the checks,
    keys and triggers [database/setup.sql] puts on them; a transaction as a state-passing
    computation whose failure rolls everything back; and the statements the operations
    share.  The rest of the database is a parameter [World], and what other components do
    in the same transaction is the record [Others] of their calls. *)
From Stdlib Require Import Ascii.
From S2P Require Import Prelude Schema PathIdentity UserIntent JsonCodec Scrum.
From S2P Require ScrumRead.
From stdpp Require Import sorting base tactics strings list gmap numbers pretty.
From stdpp Require Import list options.
Open Scope Z_scope.
Open Scope go_scope.

(** ** Rows *)

(** The statuses of jobs and of steps have the same six names. *)
Inductive Status := StatusPending | StatusRunning | StatusCompleted | StatusFailed | StatusWaiting | StatusCanceled.
#[global] Instance Status_eq : EqDecision Status. Proof. solve_decision. Defined.
Inductive StepAttemptStatus :=
  StepAttemptActive | StepAttemptCompleted | StepAttemptFailed | StepAttemptWaiting | StepAttemptCanceled | StepAttemptSuperseded | StepAttemptExpired.
#[global] Instance StepAttemptStatus_eq : EqDecision StepAttemptStatus. Proof. solve_decision. Defined.

(** A row of [jobs] under its [id]; [NULL] texts are [""], as [scanJob] reads them. *)
Record JobRow := mkJobRow {
  job_Instruction : string; job_Pipeline : string; job_Status : Status; job_Result : string; job_Error : string;
  job_Metadata : value; job_CurrentGeneration : Z; job_CreatedAt : Z; job_UpdatedAt : Z; job_CompletedAt : option Z
}.
#[global] Instance JobRow_eq : EqDecision JobRow.
Proof.
  intros x y. destruct (decide (value_eqb (job_Metadata x) (job_Metadata y) = true)) as [E|N].
  - apply value_eqb_spec in E. destruct x, y. cbn in E. subst. solve_decision.
  - right. intros ->. apply N. by apply value_eqb_spec.
Defined.
(** [model.Job] *)
Definition Job : Type := Z * JobRow.
Record JobGeneration := mkGeneration {
  gn_purpose : string; gn_predecessor : option Z; gn_boundary : option string; gn_feedback : option string
}.
(** A row of [job_steps] under its [id]. *)
Record StepRow := mkStepRow {
  step_JobID : Z; step_Action : string; step_SortIndex : Z; step_Status : Status; step_WorkerID : option string;
  step_Output : string; step_Error : string; step_StartedAt : option Z; step_FinishedAt : option Z;
  step_Generation : Z; step_SupersededAtGeneration : option Z; step_CurrentAttempt : Z
}.
(** A row of [job_step_attempts] under its step and its number; [expires_at] is a
    function of [renewed_at] ([job_step_attempts_check1]). *)
Record AttemptRow := mkAttemptRow {
  attempt_JobID : Z; attempt_Generation : Z; attempt_WorkerID : string; attempt_Status : StepAttemptStatus;
  attempt_ClaimedAt : Z; attempt_RenewedAt : Z; attempt_FinishedAt : option Z
}.
(** [INTERVAL '75 seconds'], in microseconds. *)
Definition lease : Z := 75 * 1000000.
Definition attempt_ExpiresAt (a : AttemptRow) : Z := attempt_RenewedAt a + lease.
(** The authority of a job's planning ledger. *)
Record LedgerRow := mkLedgerRow { ledger_ID : Z; ledger_State : string; ledger_CurrentRevision : Z; ledger_FrozenRevision : option Z }.
(** A coding-agent entry of [evidence]; the fields the life cycle reads or writes. *)
Record Entry := mkEntry {
  entry_Generation : Z; entry_Phase : string; entry_TaskID : string; entry_CallID : Z; entry_Role : string;
  entry_Notes : list string; entry_ResponseKind : string; entry_NativeInput : option value;
  entry_InputID : Z; entry_NativeReply : option value; entry_Continuation : option string; entry_Detail : value
}.
Record EvidenceRow := mkEvidenceRow { ev_ID : Z; ev_JobID : Z; ev_StepID : Z; ev_Entry : Entry }.

(** ** Commands *)

Record StepAttemptAuthority := mkAuthority { au_JobID : Z; au_Generation : Z; au_StepID : Z; au_Attempt : Z; au_WorkerID : string }.
#[global] Instance StepAttemptAuthority_eq : EqDecision StepAttemptAuthority. Proof. solve_decision. Defined.
Inductive LifecycleOperationKind :=
  LifecycleCompleteStep | LifecycleFailStep | LifecycleSubmitFeedback | LifecycleResumeJob | LifecycleInterruptJob | LifecycleReplanJob |
  LifecycleCancelJob | LifecycleResearch | LifecycleChannelSession | LifecycleChannelSessionMessage | LifecycleScrumChannel.
#[global] Instance LifecycleOperationKind_eq : EqDecision LifecycleOperationKind. Proof. solve_decision. Defined.
(** The role-play fields of a completion are kept as encoded text, [""] for none. *)
Record CompleteStepCommand := mkComplete {
  cs_OperationID : string; cs_Authority : StepAttemptAuthority; cs_StepID : Z; cs_Output : string; cs_ContextKey : string; cs_Roleplay : string
}.
Record FailStepCommand := mkFail { fs_OperationID : string; fs_Authority : StepAttemptAuthority; fs_StepID : Z; fs_Error : string }.
Record SubmitJobFeedbackCommand := mkFeedback {
  fb_ExpectedInputID : option Z; fb_OperationID : string; fb_JobID : Z; fb_Feedback : string; fb_WorkspaceRoot : string;
  fb_WorkspaceIdentity : string; fb_ExpectedGeneration : option Z; fb_ExpectedWaitingAttempt : option Z
}.
Record ReplanJobCommand := mkReplan {
  rp_ManualPlanning : bool; rp_PlanningItemID : string; rp_OperationID : string; rp_JobID : Z; rp_Feedback : string;
  rp_ObservedLedgerRevision : Z; rp_WorkspaceRoot : string; rp_WorkspaceIdentity : string
}.
Record CancelJobCommand := mkCancel {
  cn_OperationID : string; cn_JobID : Z; cn_Reason : string; cn_WorkspaceRoot : string; cn_WorkspaceIdentity : string
}.
Record ResumeJobCommand := mkResume {
  rs_OperationID : string; rs_JobID : Z; rs_Feedback : string; rs_ExpectedGeneration : Z; rs_ObservedLedgerRevision : Z;
  rs_WorkspaceRoot : string; rs_WorkspaceIdentity : string
}.
(** [command_payload]: the encoded command, which leaves out the fields tagged
    [json:"-"]; they are set to their zero values by [describe]. *)
Inductive Payload :=
| PayloadComplete (c : CompleteStepCommand) | PayloadFail (c : FailStepCommand) | PayloadFeedback (c : SubmitJobFeedbackCommand)
| PayloadReplan (c : ReplanJobCommand) | PayloadCancel (c : CancelJobCommand) | PayloadResume (c : ResumeJobCommand)
| PayloadOther (encoded : string).
#[global] Instance CompleteStepCommand_eq : EqDecision CompleteStepCommand. Proof. solve_decision. Defined.
#[global] Instance FailStepCommand_eq : EqDecision FailStepCommand. Proof. solve_decision. Defined.
#[global] Instance SubmitJobFeedbackCommand_eq : EqDecision SubmitJobFeedbackCommand. Proof. solve_decision. Defined.
#[global] Instance ReplanJobCommand_eq : EqDecision ReplanJobCommand. Proof. solve_decision. Defined.
#[global] Instance CancelJobCommand_eq : EqDecision CancelJobCommand. Proof. solve_decision. Defined.
#[global] Instance ResumeJobCommand_eq : EqDecision ResumeJobCommand. Proof. solve_decision. Defined.
#[global] Instance Payload_eq : EqDecision Payload. Proof. solve_decision. Defined.
(** A row of [job_lifecycle_operations]: the record of an applied command. *)
Record LifecycleOperation := mkOperation {
  op_JobID : Z; op_ObservedGeneration : Z; op_ResultGeneration : Z; op_StepID : option Z; op_Kind : LifecycleOperationKind;
  op_Payload : Payload; op_ResultJobStatus : Status; op_ResultStepStatus : option Status; op_ResultJob : Job
}.

(** ** The store *)

Record Store := mkStore {
  jobs : gmap Z JobRow;
  generations : gmap (Z * Z) JobGeneration;  (* job, generation *)
  steps : gmap Z StepRow;
  attempts : gmap (Z * Z) AttemptRow;  (* step, attempt *)
  registry : gmap string (LifecycleOperationKind * Payload);
  operations : gmap string LifecycleOperation;
  ledgers : gmap Z LedgerRow;  (* by job *)
  evidence : list EvidenceRow  (* by ascending id *)
}.
Definition empty_store : Store := mkStore ∅ ∅ ∅ ∅ ∅ ∅ ∅ [].

Ltac job_setter field :=
  let eta := constr:(fun x : JobRow => mkJobRow (job_Instruction x) (job_Pipeline x) (job_Status x) (job_Result x) (job_Error x)
    (job_Metadata x) (job_CurrentGeneration x) (job_CreatedAt x) (job_UpdatedAt x) (job_CompletedAt x)) in setter eta field.
#[export] Instance set_job_status : Setter job_Status := ltac:(job_setter job_Status).
#[export] Instance set_job_result : Setter job_Result := ltac:(job_setter job_Result).
#[export] Instance set_job_error : Setter job_Error := ltac:(job_setter job_Error).
#[export] Instance set_job_metadata : Setter job_Metadata := ltac:(job_setter job_Metadata).
#[export] Instance set_job_generation : Setter job_CurrentGeneration := ltac:(job_setter job_CurrentGeneration).
#[export] Instance set_job_updated : Setter job_UpdatedAt := ltac:(job_setter job_UpdatedAt).
#[export] Instance set_job_completed : Setter job_CompletedAt := ltac:(job_setter job_CompletedAt).
Ltac step_setter field :=
  let eta := constr:(fun x : StepRow => mkStepRow (step_JobID x) (step_Action x) (step_SortIndex x) (step_Status x) (step_WorkerID x)
    (step_Output x) (step_Error x) (step_StartedAt x) (step_FinishedAt x) (step_Generation x) (step_SupersededAtGeneration x)
    (step_CurrentAttempt x)) in setter eta field.
#[export] Instance set_step_status : Setter step_Status := ltac:(step_setter step_Status).
#[export] Instance set_step_worker : Setter step_WorkerID := ltac:(step_setter step_WorkerID).
#[export] Instance set_step_output : Setter step_Output := ltac:(step_setter step_Output).
#[export] Instance set_step_error : Setter step_Error := ltac:(step_setter step_Error).
#[export] Instance set_step_started : Setter step_StartedAt := ltac:(step_setter step_StartedAt).
#[export] Instance set_step_finished : Setter step_FinishedAt := ltac:(step_setter step_FinishedAt).
#[export] Instance set_step_superseded : Setter step_SupersededAtGeneration := ltac:(step_setter step_SupersededAtGeneration).
#[export] Instance set_step_attempt : Setter step_CurrentAttempt := ltac:(step_setter step_CurrentAttempt).
Ltac attempt_setter field :=
  let eta := constr:(fun x : AttemptRow => mkAttemptRow (attempt_JobID x) (attempt_Generation x) (attempt_WorkerID x) (attempt_Status x)
    (attempt_ClaimedAt x) (attempt_RenewedAt x) (attempt_FinishedAt x)) in setter eta field.
#[export] Instance set_attempt_status : Setter attempt_Status := ltac:(attempt_setter attempt_Status).
#[export] Instance set_attempt_renewed : Setter attempt_RenewedAt := ltac:(attempt_setter attempt_RenewedAt).
#[export] Instance set_attempt_finished : Setter attempt_FinishedAt := ltac:(attempt_setter attempt_FinishedAt).
Ltac ledger_setter field :=
  let eta := constr:(fun x : LedgerRow => mkLedgerRow (ledger_ID x) (ledger_State x) (ledger_CurrentRevision x) (ledger_FrozenRevision x)) in
  setter eta field.
#[export] Instance set_ledger_state : Setter ledger_State := ltac:(ledger_setter ledger_State).
#[export] Instance set_ledger_frozen : Setter ledger_FrozenRevision := ltac:(ledger_setter ledger_FrozenRevision).
Ltac store_setter field :=
  let eta := constr:(fun x : Store => mkStore (jobs x) (generations x) (steps x) (attempts x) (registry x) (operations x) (ledgers x) (evidence x)) in
  setter eta field.
#[export] Instance set_jobs : Setter jobs := ltac:(store_setter jobs).
#[export] Instance set_generations : Setter generations := ltac:(store_setter generations).
#[export] Instance set_steps : Setter steps := ltac:(store_setter steps).
#[export] Instance set_attempts : Setter attempts := ltac:(store_setter attempts).
#[export] Instance set_registry : Setter registry := ltac:(store_setter registry).
#[export] Instance set_operations : Setter operations := ltac:(store_setter operations).
#[export] Instance set_ledgers : Setter ledgers := ltac:(store_setter ledgers).
#[export] Instance set_evidence : Setter evidence := ltac:(store_setter evidence).
