(* ===== verification/JobStore.v ===== *)
(** * Jobs: statements

    Transactions over the job tables: reads, the statements that change a row with the
    triggers and constraints they fire, and the commit with the deferred triggers. *)
From Stdlib Require Import Ascii.
From S2P Require Import Prelude Schema PathIdentity UserIntent JsonCodec Scrum Jobs.
From S2P Require ScrumRead.
From stdpp Require Import sorting base tactics strings list gmap numbers pretty.
From stdpp Require Import list options.
Open Scope Z_scope.
Open Scope go_scope.

(** What a transaction reads from outside: PostgreSQL's [NOW()] and [clock_timestamp()],
    the values of the identity sequences, the rows other transactions hold locked, and
    the clock of the process (nanoseconds). *)
Record Env := mkEnv {
  env_now : Z; env_clock : nat -> Z; env_id : nat -> Z;
  env_locked_job : Z -> bool; env_locked_step : Z -> bool; env_local : nat -> Z
}.

(** The calls of other components inside the transactions: bindings in the metadata of a
    job, the channel and its messages, the Scrum card, role play, objective evidence, the
    rest of the planning ledger, the provider calls of an attempt and the native tool
    protocol. *)
Record Others (World : Type) := mkOthers {
  o_workspace : Job -> result (bool * (string * string));  (* channelJobWorkspaceRequirement, codingJobWorkspaceBinding *)
  o_workspace_root : string -> result unit;  (* ValidateChannelWorkspaceRoot *)
  o_workspace_identity : string -> result unit;  (* ValidateWorkspaceIdentity *)
  o_agents : value -> result bool;  (* ConfigurationFromMetadata: mode is Agents *)
  o_channel : Job -> result bool;  (* channelBindingForJob: bound *)
  o_channel_current : World -> Job -> bool;  (* its message and channel still carry the instruction *)
  o_scrum_metadata : value -> result unit;  (* scrum.DecodeStoredJobMetadata *)
  o_planning_item : value -> string -> bool -> bool;  (* ledger_item_planning names the item *)
  o_admission : World -> Job -> string -> string -> result unit;  (* requireObjectiveSessionContextAdmissionTx *)
  o_intent : World -> string -> bool;  (* channel_user_intents *)
  o_pending_messages : World -> Z -> Z -> result unit;  (* requireNoPendingChannelSessionMessagesTx *)
  o_retire_messages : Store -> World -> Job -> Z -> string -> result World;  (* retireChannelSessionMessagesTx *)
  o_release_card : World -> Job -> Status -> result World;  (* terminalizeScrumJobCardTx *)
  o_complete_channel : Store -> World -> Job -> CompleteStepCommand -> result World;  (* materializeChannelCompletionTx *)
  o_message : World -> Job -> string -> string -> result World;  (* ai_channel_messages *)
  o_outcomes : Store -> World -> Z -> Z -> AttemptRow -> result World;  (* require_llm_call_outcomes_before_attempt_completion *)
  o_roleplay : CompleteStepCommand -> result string;  (* role-play part of normalizeCompleteStepCommand *)
  o_roleplay_authority : Job -> CompleteStepCommand -> result unit;  (* requireRoleplayCompletionJobAuthority *)
  o_roleplay_payload : Job -> CompleteStepCommand -> result unit;  (* requireNewRoleplayCompletionPayload *)
  o_roleplay_replay : World -> Job -> LifecycleOperation -> CompleteStepCommand -> result unit;
  o_citations : World -> CompleteStepCommand -> list string -> result World;  (* insertObjectiveCompletionEvidenceTx *)
  o_citations_replay : World -> string -> list string -> result unit;
  o_receipt : Store -> World -> string -> LifecycleOperation -> bool;  (* deferred role-play and evidence triggers *)
  o_tasks_incomplete : World -> Z -> Z -> bool;  (* coding_agent_tasks not accepted *)
  o_cancel_tasks : World -> Z -> Z -> result World;
  o_owner_turn : World -> Z -> string -> Z -> string -> result World;  (* coding_ledger_owner_turns, action cancel *)
  o_last_frozen : World -> Z -> Z -> Z;  (* coding_ledger_revisions *)
  o_proposed : World -> Z -> Z -> bool;
  o_ledger_item : World -> Z -> string -> bool;  (* an active item of the current revision *)
  o_native_call : Store -> World -> StepAttemptAuthority -> Z -> string -> value -> bool;
  o_native_prompt : value -> string;
  o_native_reply : value -> string -> result value;  (* NativeInputRequest.Reply *)
  o_continuation : Store -> World -> Job -> string -> result (option Entry)  (* retainCodingContinuationTx *)
}.
Arguments o_workspace {World}. Arguments o_workspace_root {World}. Arguments o_workspace_identity {World}. Arguments o_agents {World}.
Arguments o_channel {World}. Arguments o_channel_current {World}. Arguments o_scrum_metadata {World}. Arguments o_planning_item {World}.
Arguments o_admission {World}. Arguments o_intent {World}. Arguments o_pending_messages {World}. Arguments o_retire_messages {World}.
Arguments o_release_card {World}. Arguments o_complete_channel {World}. Arguments o_message {World}. Arguments o_outcomes {World}.
Arguments o_roleplay {World}. Arguments o_roleplay_authority {World}. Arguments o_roleplay_payload {World}. Arguments o_roleplay_replay {World}.
Arguments o_citations {World}. Arguments o_citations_replay {World}. Arguments o_receipt {World}. Arguments o_tasks_incomplete {World}.
Arguments o_cancel_tasks {World}. Arguments o_owner_turn {World}. Arguments o_last_frozen {World}. Arguments o_proposed {World}.
Arguments o_ledger_item {World}. Arguments o_native_call {World}. Arguments o_native_prompt {World}. Arguments o_native_reply {World}.
Arguments o_continuation {World}.

(** ** Queries *)

(** The rows a condition selects, and whether there is one. *)
Definition rows {K A} `{Countable K} (p : K -> A -> bool) (m : gmap K A) : list (K * A) :=
  filter (fun kx => p kx.1 kx.2 = true) (map_to_list m).
Definition exists_row {K A} `{Countable K} (p : K -> A -> bool) (m : gmap K A) : bool := existsb (fun kx => p kx.1 kx.2) (map_to_list m).
(** [ORDER BY sort_index, id] and [ORDER BY id]. *)
Definition step_order (a b : Z * StepRow) : Prop :=
  step_SortIndex a.2 < step_SortIndex b.2 \/ (step_SortIndex a.2 = step_SortIndex b.2 /\ a.1 <= b.1).
Definition id_order {A} (a b : Z * A) : Prop := a.1 <= b.1.
#[global] Instance step_order_dec : RelDecision step_order. Proof. intros a b. unfold step_order. apply _. Defined.
#[global] Instance id_order_dec {A} : RelDecision (@id_order A). Proof. intros a b. unfold id_order. apply _. Defined.
Definition select_steps (p : Z -> StepRow -> bool) (s : Store) : list (Z * StepRow) := merge_sort step_order (rows p (steps s)).
Definition steps_by_id (p : Z -> StepRow -> bool) (s : Store) : list (Z * StepRow) := merge_sort id_order (rows p (steps s)).
Definition jobs_by_id (p : Z -> JobRow -> bool) (s : Store) : list (Z * JobRow) := merge_sort id_order (rows p (jobs s)).

Definition is_none {A} (x : option A) : bool := match x with None => true | Some _ => false end.
Definition unsuperseded (step : StepRow) : bool := is_none (step_SupersededAtGeneration step).
Definition open_status (status : Status) : bool :=
  match status with StatusPending | StatusRunning | StatusWaiting => true | _ => false end.
Definition terminalJobStatus (status : Status) : bool :=
  match status with StatusCanceled | StatusCompleted | StatusFailed => true | _ => false end.
Definition metadata_get (key : string) (metadata : value) : option value :=
  match metadata with VObject fs => field_get (bytes key) fs | _ => None end.
(** [metadata->>'key'] of a scalar. *)
Definition metadata_text (key : string) (job : JobRow) : option text := metadata_get key (job_Metadata job) ≫= ScrumRead.scalar_text.
Definition ledger_frozen (ledger : LedgerRow) : bool :=
  ((ledger_State ledger == "frozen") && (ledger_FrozenRevision ledger == Some (ledger_CurrentRevision ledger)))%bool.
Definition active (attempt : AttemptRow) : bool := attempt_Status attempt == StepAttemptActive.
(** An attempt of the step is active. *)
Definition active_attempt (stepID : Z) (s : Store) : bool := exists_row (fun key a => (key.1 == stepID) && active a)%bool (attempts s).
Definition uncommitted (operationID : string) (s : Store) : bool := is_none (operations s !! operationID).

(** ** Triggers and constraints *)

(** [frozen_coding_resume_authorized] *)
Definition frozen_coding_resume_authorized (s : Store) (jobID generation : Z) : bool :=
  match jobs s !! jobID, ledgers s !! jobID with
  | Some job, Some ledger =>
      (exists_row (fun id entry => match entry with
         | (LifecycleResumeJob, PayloadResume c) =>
             (rs_JobID c == jobID) && (rs_ExpectedGeneration c == generation) &&
             (rs_ObservedLedgerRevision c == ledger_CurrentRevision ledger) && uncommitted id s
         | _ => false end) (registry s) &&
       (job_CurrentGeneration job == generation) && bool_decide (job_Status job ∈ [StatusFailed; StatusWaiting]) && ledger_frozen ledger &&
       exists_row (fun _ step => (step_JobID step == jobID) && (step_Generation step == generation) && (step_Action step == "v3_coding") &&
         bool_decide (step_Status step ∈ [StatusFailed; StatusWaiting]) && unsuperseded step) (steps s))%bool
  | _, _ => false
  end.

Definition active_job_status (status : Status) : bool := open_status status.
(** [idx_jobs_one_active_channel_turn] *)
Definition channel_free (s : Store) (jobID : Z) (job : JobRow) : bool :=
  (negb (active_job_status (job_Status job)) || is_none (metadata_text "channel_id" job) ||
   negb (exists_row (fun other row => (other != jobID) && active_job_status (job_Status row) &&
     (metadata_text "channel_id" row == metadata_text "channel_id" job)) (jobs s)))%bool.
Definition retired_metadata_keys : list string :=
  ["agent_config"; "agent_config_source"; "instance_agent_config"; "external_agents_used"; "execution_agent"; "agent_strict";
   "scrum_raw_play"; "omnidex_no_delegate"; "recipe_id"; "recipe"].
(** The checks of [jobs] and its unique index. *)
Definition job_constraints (s : Store) (jobID : Z) (job : JobRow) : bool :=
  ((0 <? job_CurrentGeneration job) && bool_decide (job_Pipeline job ∈ ["chat"; "coding"; "scrum"]) &&
   match job_Metadata job with VObject _ => true | _ => false end &&
   forallb (fun key => is_none (metadata_get key (job_Metadata job))) retired_metadata_keys && channel_free s jobID job)%bool.
(** [enforce_jobs_state_authority] and [enforce_job_current_generation_advance] *)
Definition job_change_allowed (s : Store) (jobID : Z) (old new : JobRow) : bool :=
  ((job_Pipeline old == job_Pipeline new) &&
   (negb (terminalJobStatus (job_Status old)) || terminalJobStatus (job_Status new) ||
    ((job_Status old == StatusFailed) && (job_Status new == StatusRunning) && (job_CurrentGeneration new == job_CurrentGeneration old) &&
     frozen_coding_resume_authorized s jobID (job_CurrentGeneration old))) &&
   ((job_CurrentGeneration new == job_CurrentGeneration old) || (job_CurrentGeneration new == job_CurrentGeneration old + 1)))%bool.

(** The checks and the foreign keys of [job_steps]. *)
Definition step_constraints (s : Store) (step : StepRow) : bool :=
  ((0 <=? step_CurrentAttempt step) && (0 <? step_Generation step) && (step_Action step != "external_agent_execute") &&
   (negb (step_Status step == StatusRunning) || ((0 <? step_CurrentAttempt step) && negb (is_none (step_WorkerID step)))) &&
   match step_SupersededAtGeneration step with
   | Some g => (step_Generation step <? g) && negb (is_none (generations s !! (step_JobID step, g)))
   | None => true
   end && negb (is_none (jobs s !! step_JobID step)) && negb (is_none (generations s !! (step_JobID step, step_Generation step))))%bool.
Definition coding_entry (jobID stepID generation : Z) (phases : list string) (row : EvidenceRow) : bool :=
  ((ev_JobID row == jobID) && (ev_StepID row == stepID) && (entry_Generation (ev_Entry row) == generation) &&
   bool_decide (entry_Phase (ev_Entry row) ∈ phases))%bool.
(** A later entry of the step in one of the phases. *)
Definition followed_by (jobID stepID : Z) (phases : list string) (s : Store) (row : EvidenceRow) : bool :=
  existsb (fun later => (ev_JobID later == jobID) && (ev_StepID later == stepID) && (ev_ID row <? ev_ID later) &&
    bool_decide (entry_Phase (ev_Entry later) ∈ phases))%bool (evidence s).
Definition awaits_input (s : Store) (stepID : Z) (step : StepRow) : bool :=
  existsb (fun row => coding_entry (step_JobID step) stepID (step_Generation step)
      ["execution_response"; "review_response"; "task_incomplete"; "execution_native_input"] row &&
    (if entry_Phase (ev_Entry row) == "execution_native_input" then negb (is_none (entry_NativeInput (ev_Entry row)))
     else bool_decide (entry_ResponseKind (ev_Entry row) ∈ ["question"; "permission"])) &&
    negb (followed_by (step_JobID step) stepID
      ["execution_response"; "review_response"; "execution_native_input"; "execution_reply"; "task_incomplete"] s row))%bool (evidence s).
Definition replied (s : Store) (stepID : Z) (step : StepRow) : bool :=
  existsb (fun row => coding_entry (step_JobID step) stepID (step_Generation step) ["execution_reply"] row &&
    negb (followed_by (step_JobID step) stepID
      ["execution_response"; "review_response"; "execution_native_input"; "task_incomplete"] s row))%bool (evidence s).
(** An interruption of the job is being recorded over a frozen ledger. *)
Definition pausing (s : Store) (stepID : Z) (step : StepRow) : bool :=
  (exists_row (fun id entry => match entry with
     | (LifecycleInterruptJob, PayloadReplan c) => (rp_JobID c == step_JobID step) && uncommitted id s
     | _ => false end) (registry s) &&
   match ledgers s !! step_JobID step with Some ledger => ledger_frozen ledger | None => false end &&
   is_none (step_WorkerID step) && unsuperseded step && negb (active_attempt stepID s))%bool.
(** [prevent_job_step_generation_identity_mutation] *)
Definition step_change_allowed (s : Store) (stepID : Z) (old new : StepRow) : bool :=
  ((step_JobID old == step_JobID new) && (step_Generation old == step_Generation new) && (step_Action old == step_Action new) &&
   negb ((step_Status old != StatusPending) && (step_Status new == StatusPending) &&
     negb ((step_Status old == StatusWaiting) && (step_Action old == "v3_coding") && (step_CurrentAttempt old == 0) &&
           frozen_coding_resume_authorized s (step_JobID old) (step_Generation old))) &&
   negb ((step_Action new == "v3_coding") && (step_Status new == StatusWaiting) && negb (pausing s stepID new) &&
         negb (awaits_input s stepID new)) &&
   negb ((step_Action new == "v3_coding") && (step_Status old == StatusWaiting) && (step_Status new == StatusRunning) &&
         negb (frozen_coding_resume_authorized s (step_JobID new) (step_Generation new)) && negb (replied s stepID new)) &&
   unsuperseded old)%bool.

(** [prevent_job_step_attempt_invalid_change] and the checks of [job_step_attempts]. *)
Definition attempt_change_allowed (old new : AttemptRow) : bool :=
  ((attempt_JobID old == attempt_JobID new) && (attempt_Generation old == attempt_Generation new) &&
   (attempt_WorkerID old == attempt_WorkerID new) && (attempt_ClaimedAt old == attempt_ClaimedAt new) && active old &&
   (if active new then is_none (attempt_FinishedAt new) && (attempt_RenewedAt old <? attempt_RenewedAt new)
    else (attempt_RenewedAt new == attempt_RenewedAt old) && negb (is_none (attempt_FinishedAt new))))%bool.
Definition btrimmed (s : string) : bool := ((head (bytes s) != Some " "%char) && (last (bytes s) != Some " "%char))%bool.
Definition attempt_constraints (key : Z * Z) (a : AttemptRow) : bool :=
  ((0 <? key.2) && (0 <? attempt_Generation a) && (attempt_ClaimedAt a <=? attempt_RenewedAt a) &&
   (if active a then is_none (attempt_FinishedAt a) else negb (is_none (attempt_FinishedAt a))) && (attempt_WorkerID a != "") && btrimmed (attempt_WorkerID a))%bool.
(** [job_generations_authoritative_shape] *)
Definition generation_shape (generation : Z) (g : JobGeneration) : bool :=
  (((generation == 1) && (gn_purpose g == "initial") && is_none (gn_predecessor g) && is_none (gn_boundary g) && is_none (gn_feedback g)) ||
   ((1 <? generation) && bool_decide (gn_purpose g ∈ ["interrupt"; "replan"]) && (gn_predecessor g == Some (generation - 1)) &&
    bool_decide (gn_boundary g ∈ [Some "v3_coding_plan"; Some "objective_resolve"]) &&
    match gn_feedback g with Some text_ => negb (blank text_) && negb (bad_text text_) | None => false end))%bool.

(** [require_lifecycle_generation_transition], run at the commit for every operation
    the transaction recorded. *)
Definition pause_valid (s : Store) (op : LifecycleOperation) (stepID : Z) : bool :=
  match jobs s !! op_JobID op, ledgers s !! op_JobID op, steps s !! stepID with
  | Some job, Some ledger, Some step =>
      ((job_CurrentGeneration job == op_ResultGeneration op) && (job_Status job == StatusWaiting) && ledger_frozen ledger &&
       (step_JobID step == op_JobID op) && (step_Generation step == job_CurrentGeneration job) && (step_Action step == "v3_coding") &&
       (step_Status step == StatusWaiting) && is_none (step_WorkerID step) && unsuperseded step && negb (active_attempt stepID s))%bool
  | _, _, _ => false
  end.
(** The reply of the owner that a continuation answers. *)
Definition continuation_reply (s : Store) (jobID generation : Z) (operationID feedback : string) (p : EvidenceRow -> bool) : bool :=
  existsb (fun reply =>
    (ev_JobID reply == jobID) && (entry_Generation (ev_Entry reply) == generation) && (entry_Phase (ev_Entry reply) == "execution_reply") &&
    (entry_Notes (ev_Entry reply) !! 0%nat == Some operationID) && (entry_Notes (ev_Entry reply) !! 1%nat == Some feedback) && p reply &&
    existsb (fun source => (ev_JobID source == jobID) && (ev_StepID source == ev_StepID reply) &&
      bool_decide (entry_Phase (ev_Entry source) ∈ ["task_incomplete"; "planning_incomplete"]) &&
      (entry_CallID (ev_Entry source) == entry_CallID (ev_Entry reply))) (evidence s))%bool (evidence s).
Definition continuation_valid (s : Store) (operationID : string) (op : LifecycleOperation) (c : SubmitJobFeedbackCommand) (stepID : Z) : bool :=
  ((op_ResultGeneration op == op_ObservedGeneration op + 1) &&
   match generations s !! (op_JobID op, op_ResultGeneration op) with
   | Some g => (gn_purpose g == "replan") && (gn_predecessor g == Some (op_ObservedGeneration op)) && (gn_feedback g == Some (fb_Feedback c))
   | None => false
   end &&
   exists_row (fun _ planning => (step_JobID planning == op_JobID op) && (step_Generation planning == op_ResultGeneration op) &&
     (step_Action planning == "v3_coding_plan") && (step_Status planning == StatusPending)) (steps s) &&
   continuation_reply s (op_JobID op) (op_ObservedGeneration op) operationID (fb_Feedback c) (fun reply =>
     (ev_StepID reply == stepID) && match steps s !! stepID with
     | Some original => (step_JobID original == op_JobID op) && (step_Generation original == op_ObservedGeneration op) &&
         (step_Status original == StatusCanceled) && (step_SupersededAtGeneration original == Some (op_ResultGeneration op)) &&
         (Some (step_CurrentAttempt original) == fb_ExpectedWaitingAttempt c)
     | None => false end))%bool.
Definition interrupt_boundary (s : Store) (op : LifecycleOperation) (boundary : option string) : bool :=
  let mine (step : StepRow) := ((step_JobID step == op_JobID op) && (step_Generation step == op_ResultGeneration op) && unsuperseded step)%bool in
  (match jobs s !! op_JobID op with
   | Some job => (job_CurrentGeneration job == op_ResultGeneration op) && (job_Status job == StatusWaiting) | None => false end &&
   exists_row (fun _ step => mine step && (Some (step_Action step) == boundary) && (step_Status step == StatusWaiting) &&
     negb (exists_row (fun _ before => mine before && (step_SortIndex before <? step_SortIndex step)) (steps s))) (steps s) &&
   Nat.eqb (length (rows (fun _ step => mine step && (step_Status step == StatusWaiting)) (steps s))) 1)%bool.
Definition generation_transition_valid (s : Store) (operationID : string) (op : LifecycleOperation) : bool :=
  match op_Kind op, op_Payload op with
  | LifecycleInterruptJob, PayloadReplan c =>
      if op_ResultGeneration op == op_ObservedGeneration op
      then match op_StepID op with Some stepID => pause_valid s op stepID | None => false end
      else match generations s !! (op_JobID op, op_ResultGeneration op) with
        | Some g => ((gn_purpose g == "interrupt") && (gn_predecessor g == Some (op_ObservedGeneration op)) &&
                     (gn_feedback g == Some (rp_Feedback c)) && interrupt_boundary s op (gn_boundary g))%bool
        | None => false end
  | LifecycleReplanJob, PayloadReplan c =>
      match generations s !! (op_JobID op, op_ResultGeneration op) with
      | Some g => ((gn_purpose g == "replan") && (gn_predecessor g == Some (op_ObservedGeneration op)) &&
                   (gn_feedback g == Some (rp_Feedback c)) &&
                   match jobs s !! op_JobID op with
                   | Some job => (job_CurrentGeneration job == op_ResultGeneration op) && (job_Status job == StatusRunning)
                   | None => false end)%bool
      | None => false end
  | LifecycleSubmitFeedback, PayloadFeedback c =>
      match op_StepID op with
      | None => false
      | Some stepID =>
          if op_ResultGeneration op != op_ObservedGeneration op then continuation_valid s operationID op c stepID
          else match generations s !! (op_JobID op, op_ObservedGeneration op) with
            | Some g => (match fb_ExpectedWaitingAttempt c with
                         | None => true
                         | Some n => match steps s !! stepID with
                           | Some step => (step_JobID step == op_JobID op) && (step_Generation step == op_ObservedGeneration op) &&
                                          (step_CurrentAttempt step == n)
                           | None => false end
                         end && (gn_purpose g != "interrupt"))%bool
            | None => false end
      end
  | (LifecycleInterruptJob | LifecycleReplanJob | LifecycleSubmitFeedback), _ => false
  | _, _ => true
  end.
(** [job_lifecycle_operations_check2], [_check3], [_check4] *)
Definition operation_shape (agents : bool) (op : LifecycleOperation) : bool :=
  let same := op_ResultGeneration op == op_ObservedGeneration op in
  let next := op_ResultGeneration op == op_ObservedGeneration op + 1 in
  ((0 <? op_ObservedGeneration op) && (0 <? op_ResultGeneration op) && ((op_ResultJob op).1 == op_JobID op) &&
   (job_CurrentGeneration (op_ResultJob op).2 == op_ResultGeneration op) && (job_Status (op_ResultJob op).2 == op_ResultJobStatus op) &&
   match op_Kind op, op_Payload op, op_StepID op with
   | LifecycleCompleteStep, PayloadComplete c, Some stepID =>
       (cs_StepID c == stepID) && same && (op_ResultStepStatus op == Some StatusCompleted)
   | LifecycleFailStep, PayloadFail c, Some stepID =>
       (fs_StepID c == stepID) && same && (op_ResultStepStatus op == Some StatusFailed) && (op_ResultJobStatus op == StatusFailed)
   | LifecycleSubmitFeedback, PayloadFeedback c, Some _ =>
       (fb_JobID c == op_JobID op) &&
       ((same && ((op_ResultStepStatus op == Some StatusCompleted) ||
          ((op_ResultStepStatus op == Some StatusRunning) && (op_ResultJobStatus op == StatusRunning) && agents))) ||
        (next && (op_ResultStepStatus op == Some StatusCanceled) && (op_ResultJobStatus op == StatusRunning) && agents))
   | LifecycleInterruptJob, PayloadReplan c, stepID =>
       (rp_JobID c == op_JobID op) && (op_ResultJobStatus op == StatusWaiting) &&
       (if stepID then (op_ResultStepStatus op == Some StatusWaiting) && same else is_none (op_ResultStepStatus op) && next)
   | LifecycleResumeJob, PayloadResume c, None =>
       (rs_JobID c == op_JobID op) && is_none (op_ResultStepStatus op) && same && (op_ResultJobStatus op == StatusRunning)
   | LifecycleReplanJob, PayloadReplan c, None =>
       (rp_JobID c == op_JobID op) && is_none (op_ResultStepStatus op) && next && (op_ResultJobStatus op == StatusRunning)
   | LifecycleCancelJob, PayloadCancel c, None =>
       (cn_JobID c == op_JobID op) && is_none (op_ResultStepStatus op) && same && (op_ResultJobStatus op == StatusCanceled)
   | _, _, _ => false
   end)%bool.

(** [job_lifecycle_operations_feedback_generation_check]: a reply to an agent's execution
    names the generation and the attempt it observed. *)
Definition feedback_generation_check (agents : bool) (op : LifecycleOperation) : bool :=
  match op_Payload op with
  | PayloadFeedback c =>
      (match fb_ExpectedGeneration c with Some g => (1 <=? g) && (g <=? 2 ^ 63 - 1) && (g == op_ObservedGeneration op) | None => negb agents end &&
       match fb_ExpectedWaitingAttempt c with Some n => (1 <=? n) && (n <=? 2 ^ 63 - 1) | None => negb agents end)%bool
  | _ => true
  end.

(** ** Transactions *)

Section transactions.
Context {World : Type}.

(** The database: the job tables and the rest. *)
Definition State : Type := Store * World.
Record Tx := mkTx { tx_store : Store; tx_world : World; tx_tick : nat; tx_draw : nat; tx_recorded : list string }.
Definition tx (A : Type) : Type := Tx -> result (A * Tx).
Definition ret {A} (x : A) : tx A := fun t => Ok (x, t).
Definition bind {A B} (c : tx A) (f : A -> tx B) : tx B := fun t => match c t with Ok (x, t') => f x t' | Err e => Err e end.
Definition fail {A} (e : string) : tx A := fun _ => Err e.
Definition lift {A} (r : result A) : tx A := fun t => match r with Ok x => Ok (x, t) | Err e => Err e end.
Definition gets {A} (f : Store -> A) : tx A := fun t => Ok (f (tx_store t), t).
Definition put (f : Store -> Store) : tx unit :=
  fun t => Ok (tt, mkTx (f (tx_store t)) (tx_world t) (tx_tick t) (tx_draw t) (tx_recorded t)).
(** A read of the rest of the database, and a change of it by another component. *)
Definition asks {A} (f : Store -> World -> A) : tx A := fun t => Ok (f (tx_store t) (tx_world t), t).
Definition calls (f : Store -> World -> result World) : tx unit :=
  fun t => match f (tx_store t) (tx_world t) with
    | Ok w => Ok (tt, mkTx (tx_store t) w (tx_tick t) (tx_draw t) (tx_recorded t)) | Err e => Err e end.
Definition recorded (operationID : string) : tx unit :=
  fun t => Ok (tt, mkTx (tx_store t) (tx_world t) (tx_tick t) (tx_draw t) (operationID :: tx_recorded t)).
Fixpoint each {A} (f : A -> tx unit) (l : list A) : tx unit :=
  match l with [] => ret tt | x :: l => bind (f x) (fun _ => each f l) end.

End transactions.
Arguments State : clear implicits.
Arguments Tx : clear implicits.
Arguments tx : clear implicits.
Notation "'let*' x ':=' c 'in' k" := (bind c (fun x => k)) (at level 10, x name, c at level 100, k at level 200) : go_scope.
Notation "'exec' c ';' k" := (bind c (fun _ => k)) (at level 10, c at level 100, k at level 200) : go_scope.
(** [if b { return err }] *)
Notation "'abort' e 'if' b ';' k" := (if b then fail e else k) (at level 10, e at level 9, b at level 100, k at level 200) : go_scope.

Section statements.
Context {World : Type} (env : Env) (others : Others World).

(** The deferred foreign key of [jobs] and the deferred triggers. *)
Definition commit_allowed (t : Tx World) : bool :=
  (forallb (fun id => match operations (tx_store t) !! id with
     | Some op => generation_transition_valid (tx_store t) id op && o_receipt others (tx_store t) (tx_world t) id op
     | None => false end) (tx_recorded t) &&
   negb (exists_row (fun id job => is_none (generations (tx_store t) !! (id, job_CurrentGeneration job))) (jobs (tx_store t))))%bool.
(** [BeginTx ... Commit], with the deferred rollback. *)
Definition transact {A} (c : tx World A) (st : State World) : result A * State World :=
  match c (mkTx st.1 st.2 0 0 []) with
  | Ok (x, t) => if commit_allowed t then (Ok x, (tx_store t, tx_world t)) else (Err "commit", st)
  | Err e => (Err e, st)
  end.
(** The same where the function may return before [Commit]: [inr] rolls back. *)
Definition transact_or {A} (c : tx World (A + A)) (st : State World) : result A * State World :=
  match c (mkTx st.1 st.2 0 0 []) with
  | Ok (inl x, t) => if commit_allowed t then (Ok x, (tx_store t, tx_world t)) else (Err "commit", st)
  | Ok (inr x, _) => (Ok x, st)
  | Err e => (Err e, st)
  end.
(** [clock_timestamp()] *)
Definition clock : tx World Z :=
  fun t => Ok (env_clock env (tx_tick t), mkTx (tx_store t) (tx_world t) (S (tx_tick t)) (tx_draw t) (tx_recorded t)).
Definition next_id : tx World Z :=
  fun t => Ok (env_id env (tx_draw t), mkTx (tx_store t) (tx_world t) (tx_tick t) (S (tx_draw t)) (tx_recorded t)).
Definition now : Z := env_now env.

(** ** Statements *)

(** [SELECT ... FROM jobs WHERE id=$1 [FOR UPDATE]], scanned. *)
Definition scanLockedJobTx (jobID : Z) : tx World Job :=
  let* found := gets (fun s => jobs s !! jobID) in
  match found with Some job => ret (jobID, job) | None => fail "no rows in result set" end.
Definition lockedJobTx (jobID : Z) : tx World Job := scanLockedJobTx jobID.
(** [UPDATE jobs SET ... WHERE id=$1 AND p]: whether a row was affected. *)
Definition update_job (jobID : Z) (p : JobRow -> bool) (set : JobRow -> JobRow) : tx World bool :=
  let* s := gets id in
  match jobs s !! jobID with
  | Some job =>
      if p job then
        abort "jobs trigger" if negb (job_change_allowed s jobID job (set job));
        abort "jobs constraint" if negb (job_constraints s jobID (set job));
        exec put (fun s => s <| jobs := <[jobID := set job]> (jobs s) |>); ret true
      else ret false
  | None => ret false
  end.
(** The values of a sequence ascend; a transaction of the model runs alone, so a new row
    has the largest identifier. *)
Definition insert_job (job : JobRow) : tx World Z :=
  let* jobID := next_id in
  let* s := gets id in
  abort "jobs_pkey" if exists_row (fun other _ => jobID <=? other) (jobs s) || (jobID <=? 0);
  abort "jobs constraint" if negb (job_constraints s jobID job);
  exec put (fun s => s <| jobs := <[jobID := job]> (jobs s) |>); ret jobID.
Definition insert_generation (jobID generation : Z) (g : JobGeneration) : tx World unit :=
  let* s := gets id in
  abort "job_generations_pkey" if negb (is_none (generations s !! (jobID, generation)));
  abort "job_generations_job_id_fkey" if is_none (jobs s !! jobID);
  abort "job_generations_authoritative_shape" if negb (generation_shape generation g);
  abort "job_generations_job_id_predecessor_generation_fkey"
    if match gn_predecessor g with Some p => is_none (generations s !! (jobID, p)) | None => false end;
  put (fun s => s <| generations := <[(jobID, generation) := g]> (generations s) |>).
Definition new_step (jobID : Z) (action : string) (sortIndex : Z) (status : Status) (generation : Z) : StepRow :=
  mkStepRow jobID action sortIndex status None "" "" None None generation None 0.
Definition insert_step (step : StepRow) : tx World unit :=
  let* stepID := next_id in
  let* s := gets id in
  abort "job_steps_pkey" if exists_row (fun other _ => stepID <=? other) (steps s) || (stepID <=? 0);
  abort "job_steps constraint" if negb (step_constraints s step);
  put (fun s => s <| steps := <[stepID := step]> (steps s) |>).
(** [UPDATE job_steps SET ... WHERE id=$1 AND p] *)
Definition update_step (stepID : Z) (p : StepRow -> bool) (set : StepRow -> StepRow) : tx World bool :=
  let* s := gets id in
  match steps s !! stepID with
  | Some step =>
      if p step then
        abort "job_steps trigger" if negb (step_change_allowed s stepID step (set step));
        abort "job_steps constraint" if negb (step_constraints s (set step));
        exec put (fun s => s <| steps := <[stepID := set step]> (steps s) |>); ret true
      else ret false
  | None => ret false
  end.
(** [UPDATE job_steps SET ... WHERE p]: the number of rows affected. *)
Definition update_steps (p : Z -> StepRow -> bool) (set : StepRow -> StepRow) : tx World Z :=
  let* found := gets (steps_by_id p) in
  exec each (fun row => exec update_step row.1 (fun _ => true) set; ret tt) found;
  ret (Z.of_nat (length found)).
(** [INSERT INTO job_step_attempts], with [validate_job_step_attempt_insert] and the
    unique index of the active attempt. *)
Definition insert_attempt (stepID n : Z) (a : AttemptRow) : tx World unit :=
  let* s := gets id in
  match steps s !! stepID with
  | None => fail "step attempt has no exact job generation step"
  | Some step =>
      abort "step attempt has no exact job generation step"
        if (step_JobID step != attempt_JobID a) || (step_Generation step != attempt_Generation a);
      abort "step attempt must increase monotonically by one" if n != step_CurrentAttempt step + 1;
      abort "new step attempt must be active" if negb (active a) || negb (is_none (attempt_FinishedAt a));
      abort "job_step_attempts_pkey" if negb (is_none (attempts s !! (stepID, n)));
      abort "idx_job_step_attempts_one_active" if active_attempt stepID s;
      abort "job_step_attempts constraint" if negb (attempt_constraints (stepID, n) a);
      put (fun s => s <| attempts := <[(stepID, n) := a]> (attempts s) |>)
  end.
(** [UPDATE job_step_attempts SET ... WHERE job_id=$1 AND generation=$2 AND step_id=$3
    AND attempt=$4 AND p]; a new status fires the trigger on provider calls. *)
Definition attempt_of (jobID generation : Z) (a : AttemptRow) : bool :=
  ((attempt_JobID a == jobID) && (attempt_Generation a == generation))%bool.
Definition update_attempt (jobID generation stepID n : Z) (status : bool) (p : AttemptRow -> bool) (set : AttemptRow -> AttemptRow) : tx World bool :=
  let* s := gets id in
  match attempts s !! (stepID, n) with
  | Some a =>
      if (attempt_of jobID generation a && p a)%bool then
        abort "job_step_attempts trigger" if negb (attempt_change_allowed a (set a));
        abort "job_step_attempts constraint" if negb (attempt_constraints (stepID, n) (set a));
        exec (if status then calls (fun s w => o_outcomes others s w stepID n (set a)) else ret tt);
        exec put (fun s => s <| attempts := <[(stepID, n) := set a]> (attempts s) |>); ret true
      else ret false
  | None => ret false
  end.
(** [UPDATE coding_ledgers SET ... WHERE job_id=$1 AND p] *)
Definition update_ledger (jobID : Z) (p : LedgerRow -> bool) (set : LedgerRow -> LedgerRow) : tx World bool :=
  let* s := gets id in
  match ledgers s !! jobID with
  | Some ledger =>
      if p ledger then exec put (fun s => s <| ledgers := <[jobID := set ledger]> (ledgers s) |>); ret true else ret false
  | None => ret false
  end.
(** [INSERT INTO evidence ... 'coding_agent'] *)
Definition insert_evidence (jobID stepID : Z) (entry : Entry) : tx World Z :=
  let* rowID := next_id in
  let* s := gets id in
  abort "evidence_pkey" if existsb (fun row => rowID <=? ev_ID row) (evidence s);
  exec put (fun s => s <| evidence := evidence s ++ [mkEvidenceRow rowID jobID stepID entry] |>); ret rowID.

End statements.
