(* ===== verification/JobCommands.v ===== *)
(** * Jobs: commands and their records

    The validation of a command ([lifecycle_operation_descriptor.go]), the registration
    of its identity and the immutable record of its result
    ([lifecycle_operation_registry.go], [lifecycle_operation_store.go]), and what a
    replay of a recorded command requires ([lifecycle_operation_replay.go],
    [lifecycle_replan_replay.go], [lifecycle_cancel_replay.go]). *)
From Stdlib Require Import Ascii.
From S2P Require Import Prelude Schema PathIdentity UserIntent JsonCodec Scrum Jobs JobStore.
From stdpp Require Import sorting base tactics strings list gmap numbers pretty.
From stdpp Require Import list options.
Open Scope Z_scope.
Open Scope go_scope.

(** ** Steps *)

Record stepSeed := mkSeed { seed_action : string; seed_sortIndex : Z }.
#[global] Instance stepSeed_eq : EqDecision stepSeed. Proof. solve_decision. Defined.
Definition codingSteps : list stepSeed := [mkSeed "v3_coding_plan" 5; mkSeed "v3_coding" 10].
Definition conversationObjectiveSteps : list stepSeed := [mkSeed "objective_resolve" 5; mkSeed "v3_coding_plan" 10; mkSeed "v3_coding" 15].
Definition jobGenerationPurposeInitial : string := "initial".
Definition jobGenerationPurposeInterrupt : string := "interrupt".
Definition jobGenerationPurposeReplan : string := "replan".
Definition replanCodingBoundary : string := "v3_coding_plan".
Definition replanObjectiveBoundary : string := "objective_resolve".

(** ** Validation *)

Definition exact_worker (worker : string) : bool := ((worker != "") && trimmed worker && negb (bad_text worker))%bool.
Definition validateStepAttemptAuthority (a : StepAttemptAuthority) : result unit :=
  reject "%w: exact positive job, generation, step, and attempt identities are required"
    when ((au_JobID a <=? 0) || (au_Generation a <=? 0) || (au_StepID a <=? 0) || (au_Attempt a <=? 0))%bool;
  reject "%w: worker identity must be exact PostgreSQL-compatible text of at most 256 bytes" when negb (exact_worker (au_WorkerID a));
  Ok tt.
Definition kind_text (kind : LifecycleOperationKind) : string :=
  match kind with
  | LifecycleCompleteStep => "complete_step" | LifecycleFailStep => "fail_step" | LifecycleSubmitFeedback => "submit_feedback"
  | LifecycleResumeJob => "resume_job" | LifecycleInterruptJob => "interrupt_job" | LifecycleReplanJob => "replan_job"
  | LifecycleCancelJob => "cancel_job" | LifecycleResearch => "research_turn" | LifecycleChannelSession => "channel_session_turn"
  | LifecycleChannelSessionMessage => "channel_session_message" | LifecycleScrumChannel => "scrum_channel_message"
  end.
Definition NewStepLifecycleOperationID (a : StepAttemptAuthority) (kind : LifecycleOperationKind) : result string :=
  check validateStepAttemptAuthority a;
  reject "step lifecycle operation kind %q is unsupported" when ((kind != LifecycleCompleteStep) && (kind != LifecycleFailStep))%bool;
  let id := ("lifecycle_operation_step_" +:+ of_bytes (itoa (au_StepID a)) +:+ "_attempt_" +:+ of_bytes (itoa (au_Attempt a)) +:+ "_" +:+ kind_text kind)%string in
  check ParseLifecycleOperationID id; Ok id.

(** [validateLifecycleText]: its bound is not used. *)
Definition validateLifecycleText (text_ : string) (allowEmpty : bool) : result unit :=
  reject "%s must be PostgreSQL-compatible UTF-8" when bad_text text_;
  reject "%s is required" when (negb allowEmpty && blank text_)%bool; Ok tt.
(** [validateLifecycleFeedback], and [validateCancelReason] for a cancellation. *)
Definition validateLifecycleFeedback (feedback : string) : result unit :=
  reject "%s must be valid UTF-8" when negb (valid_utf8 feedback);
  reject "%s is required" when blank feedback;
  reject "%s must not contain NUL" when contains_nul feedback; Ok tt.
Definition validateCancelReason (reason : string) : result unit :=
  reject "cancel reason must be valid UTF-8" when negb (valid_utf8 reason);
  reject "cancel reason must not contain NUL" when contains_nul reason;
  reject "cancel reason is required" when blank reason; Ok tt.
Definition registeredLifecycleOperationKind (kind : LifecycleOperationKind) : bool := kind != LifecycleScrumChannel.

Record lifecycleOperationDescriptor := mkDescriptor { ds_ID : string; ds_Kind : LifecycleOperationKind; ds_Payload : Payload }.
Definition describeLifecycleOperation (id : string) (kind : LifecycleOperationKind) (payload : Payload) : result lifecycleOperationDescriptor :=
  check ParseLifecycleOperationID id;
  reject "unregistered lifecycle operation kind %q" when negb (registeredLifecycleOperationKind kind);
  Ok (mkDescriptor id kind payload).
(** [json.Marshal] of a command: without the fields tagged [json:"-"]. *)
Definition no_authority : StepAttemptAuthority := mkAuthority 0 0 0 0 "".
Definition encode_complete (c : CompleteStepCommand) : Payload :=
  PayloadComplete (mkComplete (cs_OperationID c) no_authority (cs_StepID c) (cs_Output c) (cs_ContextKey c) (cs_Roleplay c)).
Definition encode_fail (c : FailStepCommand) : Payload := PayloadFail (mkFail (fs_OperationID c) no_authority (fs_StepID c) (fs_Error c)).
Definition encode_replan (c : ReplanJobCommand) : Payload :=
  PayloadReplan (mkReplan false "" (rp_OperationID c) (rp_JobID c) (rp_Feedback c) (rp_ObservedLedgerRevision c) (rp_WorkspaceRoot c) (rp_WorkspaceIdentity c)).

Section commands.
Context {World : Type} (env : Env) (others : Others World).

Definition validateLifecycleWorkspaceBinding (root identity : string) : result unit :=
  if ((root == "") && (identity == ""))%bool then Ok tt else
  reject "lifecycle workspace root and identity must be supplied together" when ((root == "") || (identity == ""))%bool;
  check o_workspace_root others root; o_workspace_identity others identity.
Definition validateRequiredLifecycleWorkspaceBinding (root identity : string) : result unit :=
  reject "lifecycle workspace root and identity are required" when ((root == "") || (identity == ""))%bool;
  validateLifecycleWorkspaceBinding root identity.
Definition lifecycleJobWorkspaceRequirement (job : Job) : result (bool * (string * string)) :=
  if bool_decide (job_Pipeline job.2 ∈ ["chat"; "coding"]) then o_workspace others job
  else if job_Pipeline job.2 == "scrum" then Ok (false, ("", ""))
  else Err "%w: job %d pipeline %q has no workspace authority".
Definition requireLifecycleWorkspaceAuthority (job : Job) (root identity : string) : result unit :=
  let? requirement := lifecycleJobWorkspaceRequirement job in
  if negb requirement.1 then
    (reject "%w: job %d has no lifecycle workspace authority" when negb ((root == "") && (identity == ""))%bool; Ok tt)
  else
    check validateRequiredLifecycleWorkspaceBinding root identity;
    reject "%w: job %d differs from the exact workspace authority" when ((requirement.2.1 != root) || (requirement.2.2 != identity))%bool;
    Ok tt.

Definition normalizeCompleteStepCommand (c : CompleteStepCommand) : result CompleteStepCommand :=
  check validateStepAttemptAuthority (cs_Authority c);
  reject "complete-step command requires a positive step ID" when (cs_StepID c <=? 0);
  reject "%w: complete-step identity disagrees with attempt authority" when (cs_StepID c != au_StepID (cs_Authority c));
  check validateLifecycleText (cs_Output c) true;
  let key := trim_space (cs_ContextKey c) in
  check validateLifecycleText key true;
  reject "roleplay completion authority requires terminal objective-result completion authority"
    when ((cs_Roleplay c != "") && (key != "objective_result"))%bool;
  let? roleplay := o_roleplay others (mkComplete (cs_OperationID c) (cs_Authority c) (cs_StepID c) (cs_Output c) key (cs_Roleplay c)) in
  Ok (mkComplete (cs_OperationID c) (cs_Authority c) (cs_StepID c) (cs_Output c) key roleplay).
Definition normalizeFailStepCommand (c : FailStepCommand) : result FailStepCommand :=
  check validateStepAttemptAuthority (fs_Authority c);
  reject "fail-step command requires a positive step ID" when (fs_StepID c <=? 0);
  reject "%w: fail-step identity disagrees with attempt authority" when (fs_StepID c != au_StepID (fs_Authority c));
  check validateLifecycleText (fs_Error c) false;
  Ok (mkFail (fs_OperationID c) (fs_Authority c) (fs_StepID c) (trim_space (fs_Error c))).
Definition nonpositive (n : option Z) : bool := match n with Some n => n <=? 0 | None => false end.
Definition normalizeSubmitFeedbackCommand (c : SubmitJobFeedbackCommand) : result unit :=
  reject "feedback command requires a positive job ID" when (fb_JobID c <=? 0);
  reject "expected feedback generation must be positive" when nonpositive (fb_ExpectedGeneration c);
  reject "expected waiting attempt must be positive" when nonpositive (fb_ExpectedWaitingAttempt c);
  reject "expected native input identity must be positive" when nonpositive (fb_ExpectedInputID c);
  check validateLifecycleFeedback (fb_Feedback c);
  validateLifecycleWorkspaceBinding (fb_WorkspaceRoot c) (fb_WorkspaceIdentity c).
Definition normalizeReplanJobCommand (c : ReplanJobCommand) : result unit :=
  reject "replan command requires a positive job ID" when (rp_JobID c <=? 0);
  reject "observed ledger revision cannot be negative" when (rp_ObservedLedgerRevision c <? 0);
  check validateLifecycleFeedback (rp_Feedback c);
  validateLifecycleWorkspaceBinding (rp_WorkspaceRoot c) (rp_WorkspaceIdentity c).
Definition normalizeInterruptJobCommand (c : ReplanJobCommand) : result unit :=
  reject "interrupt command requires a positive job ID" when (rp_JobID c <=? 0);
  check validateLifecycleFeedback (rp_Feedback c);
  validateLifecycleWorkspaceBinding (rp_WorkspaceRoot c) (rp_WorkspaceIdentity c).
Definition normalizeCancelJobCommand (c : CancelJobCommand) : result unit :=
  reject "cancel command requires a positive job ID" when (cn_JobID c <=? 0);
  check validateCancelReason (cn_Reason c);
  validateLifecycleWorkspaceBinding (cn_WorkspaceRoot c) (cn_WorkspaceIdentity c).

(** ** Records *)

(** [lockLifecycleOperationIdentityTx]: the advisory lock serialises the commands of one
    identity; a transaction of the model runs alone. *)
Definition lockLifecycleOperationIdentityTx (id : string) : tx World unit := lift (ParseLifecycleOperationID id).
Definition reserveLifecycleOperationIdentityTx (d : lifecycleOperationDescriptor) : tx World bool :=
  exec lift (ParseLifecycleOperationID (ds_ID d));
  let* intent := asks (fun _ w => o_intent others w (ds_ID d)) in
  abort "%w: lifecycle operation conflict" if intent;
  let* known := gets (fun s => registry s !! ds_ID d) in
  match known with
  | None => exec put (fun s => s <| registry := <[ds_ID d := (ds_Kind d, ds_Payload d)]> (registry s) |>); ret true
  | Some entry =>
      abort "%w: operation ID %q is reserved for different kind, scope, or command content" if entry != (ds_Kind d, ds_Payload d);
      ret false
  end.
Definition loadLifecycleOperationTx (d : lifecycleOperationDescriptor) (expectedJobID : Z) : tx World (option LifecycleOperation) :=
  let* created := reserveLifecycleOperationIdentityTx d in
  let* found := gets (fun s => operations s !! ds_ID d) in
  match found with
  | None => abort "lifecycle operation %q is registered without its immutable result" if negb created; ret None
  | Some op =>
      abort "%w: operation ID %q is persisted with different job, kind, or command content"
        if (op_JobID op != expectedJobID) || (op_Kind op != ds_Kind d) || (op_Payload op != ds_Payload d);
      abort "lifecycle operation %q contains inconsistent result authority"
        if ((op_ResultJob op).1 != op_JobID op) || (job_CurrentGeneration (op_ResultJob op).2 != op_ResultGeneration op) ||
           (job_Status (op_ResultJob op).2 != op_ResultJobStatus op);
      ret (Some op)
  end.
(** [validate_lifecycle_workspace_operation] *)
Definition payload_workspace (payload : Payload) : string * string :=
  match payload with
  | PayloadFeedback c => (fb_WorkspaceRoot c, fb_WorkspaceIdentity c) | PayloadReplan c => (rp_WorkspaceRoot c, rp_WorkspaceIdentity c)
  | PayloadCancel c => (cn_WorkspaceRoot c, cn_WorkspaceIdentity c) | PayloadResume c => (rs_WorkspaceRoot c, rs_WorkspaceIdentity c)
  | _ => ("", "")
  end.
Definition workspace_bound (s : Store) (op : LifecycleOperation) : bool :=
  let '(root, identity) := payload_workspace (op_Payload op) in
  (((root == "") && (identity == "")) ||
   match jobs s !! op_JobID op with
   | Some job => bool_decide (job_Pipeline job ∈ ["chat"; "coding"]) && (metadata_text "client_cwd" job == Some (bytes root)) &&
                 (metadata_text "client_workspace_identity" job == Some (bytes identity))
   | None => false end)%bool.
(** [result_job->'metadata'->'coding_execution'->>'mode'='agents'] *)
Definition agents_metadata (metadata : value) : bool :=
  match metadata_get "coding_execution" metadata with Some coding => metadata_get "mode" coding == Some (VString (bytes "agents")) | None => false end.
(** The foreign keys of [job_lifecycle_operations]. *)
Definition operation_keys (s : Store) (id : string) (op : LifecycleOperation) : bool :=
  ((match registry s !! id with Some entry => entry.1 == op_Kind op | None => false end) && negb (is_none (jobs s !! op_JobID op)) &&
   negb (is_none (generations s !! (op_JobID op, op_ObservedGeneration op))) && negb (is_none (generations s !! (op_JobID op, op_ResultGeneration op))) &&
   match op_StepID op with
   | Some stepID => match steps s !! stepID with
     | Some step => (step_JobID step == op_JobID op) && (step_Generation step == op_ObservedGeneration op) | None => false end
   | None => true end)%bool.
Definition insertLifecycleOperationTx (d : lifecycleOperationDescriptor) (op : LifecycleOperation) : tx World unit :=
  let* s := gets id in
  match operations s !! ds_ID d with
  | Some _ => exec loadLifecycleOperationTx d (op_JobID op); ret tt
  | None =>
      abort "Lifecycle workspace authority differs from immutable job binding" if negb (workspace_bound s op);
      abort "job_lifecycle_operations check" if negb (operation_shape (agents_metadata (job_Metadata (op_ResultJob op).2)) op);
      abort "job_lifecycle_operations_feedback_generation_check"
        if negb (feedback_generation_check (agents_metadata (job_Metadata (op_ResultJob op).2)) op);
      abort "job_lifecycle_operations key" if negb (operation_keys s (ds_ID d) op);
      exec put (fun s => s <| operations := <[ds_ID d := op]> (operations s) |>);
      recorded (ds_ID d)
  end.

(** ** Replays *)

Definition requireLifecycleGenerationExistsTx (jobID generation : Z) : tx World unit :=
  let* found := gets (fun s => generations s !! (jobID, generation)) in
  abort "validate lifecycle generation %d for job %d: %w" if is_none found; ret tt.
Definition requireLifecycleStepTx (op : LifecycleOperation) (stepID : Z) (want : Status) (wantOutput wantError : option string) : tx World unit :=
  let* found := gets (fun s => steps s !! stepID) in
  match found with
  | Some step =>
      abort "validate lifecycle step %d: %w" if step_JobID step != op_JobID op;
      abort "%w: lifecycle operation %q has inconsistent step authority"
        if (step_Generation step != op_ObservedGeneration op) || (step_Status step != want) ||
           match wantOutput with Some output => step_Output step != output | None => false end ||
           match wantError with Some text_ => step_Error step != text_ | None => false end;
      abort "%w: lifecycle operation %q has inconsistent step generation retirement"
        if match step_SupersededAtGeneration step with Some g => g <=? step_Generation step | None => false end;
      ret tt
  | None => fail "validate lifecycle step %d: %w"
  end.
Definition current_pipeline (jobID generation : Z) (s : Store) : list (Z * StepRow) :=
  select_steps (fun _ step => (step_JobID step == jobID) && (step_Generation step == generation) && unsuperseded step)%bool s.
Definition requireTerminalObjectiveCodingTailCanceledTx (op : LifecycleOperation) (c : CompleteStepCommand) : tx World unit :=
  if cs_ContextKey c != "objective_result" then ret tt else
  let* found := gets (current_pipeline (op_JobID op) (op_ObservedGeneration op)) in
  abort "%w: lifecycle operation %q has inconsistent terminal objective coding tail"
    if ((fun row : Z * StepRow => (step_Action row.2, step_SortIndex row.2)) <$> found) !=
       ((fun seed => (seed_action seed, seed_sortIndex seed)) <$> conversationObjectiveSteps);
  match found with
  | first :: tail =>
      abort "%w: lifecycle operation %q has inconsistent terminal objective coding tail"
        if (step_Status first.2 != StatusCompleted) || negb (forallb (fun row : Z * StepRow => step_Status row.2 == StatusCanceled) tail);
      abort "%w: lifecycle operation %q has inconsistent terminal objective step authority"
        if (first.1 != cs_StepID c) || (step_CurrentAttempt first.2 != au_Attempt (cs_Authority c));
      abort "%w: lifecycle operation %q has inconsistent terminal objective canceled tail attempt"
        if negb (forallb (fun row : Z * StepRow => step_CurrentAttempt row.2 == 0) tail);
      ret tt
  | [] => ret tt
  end.
Definition requireCompleteStepReplayTx (op : LifecycleOperation) (c : CompleteStepCommand) : tx World unit :=
  abort "%w: lifecycle operation %q has inconsistent completed step result"
    if (op_StepID op != Some (cs_StepID c)) || (op_ResultStepStatus op != Some StatusCompleted);
  exec requireLifecycleStepTx op (cs_StepID c) StatusCompleted (Some (cs_Output c)) (Some "");
  exec requireTerminalObjectiveCodingTailCanceledTx op c;
  requireLifecycleGenerationExistsTx (op_JobID op) (op_ObservedGeneration op).
Definition requireFailStepReplayTx (op : LifecycleOperation) (c : FailStepCommand) : tx World unit :=
  abort "%w: lifecycle operation %q has inconsistent failed step result"
    if (op_StepID op != Some (fs_StepID c)) || (op_ResultStepStatus op != Some StatusFailed);
  exec requireLifecycleStepTx op (fs_StepID c) StatusFailed None (Some (fs_Error c));
  requireLifecycleGenerationExistsTx (op_JobID op) (op_ObservedGeneration op).
Definition requireCodingExecutionReplyTx (jobID stepID generation : Z) (operationID text_ : string) : tx World unit :=
  let* exists_ := gets (fun s => existsb (fun row => coding_entry jobID stepID generation ["execution_reply"] row &&
    (entry_Notes (ev_Entry row) !! 0%nat == Some operationID) && (entry_Notes (ev_Entry row) !! 1%nat == Some text_))%bool (evidence s)) in
  abort "execution reply lacks its exact persisted response" if negb exists_; ret tt.
Definition requireSubmitFeedbackReplayTx (op : LifecycleOperation) (c : SubmitJobFeedbackCommand) : tx World unit :=
  abort "%w: lifecycle operation %q has inconsistent feedback observed generation"
    if match fb_ExpectedGeneration c with Some g => g != op_ObservedGeneration op | None => false end;
  match op_StepID op, op_ResultStepStatus op with
  | Some stepID, Some status =>
      if op_ObservedGeneration op <? op_ResultGeneration op then
        let* bound := gets (fun s => continuation_reply s (op_JobID op) (op_ObservedGeneration op) (fb_OperationID c) (fb_Feedback c) (fun _ => true)) in
        abort "%w: lifecycle operation %q has inconsistent continuation owner reply" if negb bound; ret tt
      else if status == StatusRunning then
        requireCodingExecutionReplyTx (op_JobID op) stepID (op_ObservedGeneration op) (fb_OperationID c) (fb_Feedback c)
      else
        abort "%w: lifecycle operation %q has inconsistent feedback step result" if status != StatusCompleted;
        exec requireLifecycleStepTx op stepID StatusCompleted (Some (fb_Feedback c)) (Some "");
        requireLifecycleGenerationExistsTx (op_JobID op) (op_ObservedGeneration op)
  | _, _ => fail "%w: lifecycle operation %q has inconsistent feedback step result"
  end.
Definition requireGenerationCutoverReplayTx (op : LifecycleOperation) (c : ReplanJobCommand) (kind : LifecycleOperationKind)
    (purpose : string) (status : Status) : tx World unit :=
  abort "%w: lifecycle operation %q has inconsistent generation result"
    if (op_JobID op != rp_JobID c) || (op_Kind op != kind) || negb (is_none (op_StepID op)) || negb (is_none (op_ResultStepStatus op)) ||
       (op_ResultGeneration op != op_ObservedGeneration op + 1) || (op_ResultJobStatus op != status);
  let* found := gets (fun s => generations s !! (op_JobID op, op_ResultGeneration op)) in
  match found with
  | Some g =>
      abort "%w: lifecycle operation %q has inconsistent immutable generation"
        if (gn_predecessor g != Some (op_ObservedGeneration op)) || (gn_purpose g != purpose) ||
           negb (bool_decide (gn_boundary g ∈ [Some replanCodingBoundary; Some replanObjectiveBoundary])) || (gn_feedback g != Some (rp_Feedback c));
      ret tt
  | None => fail "validate lifecycle %s generation: %w"
  end.
Definition requireReplanReplayTx (op : LifecycleOperation) (c : ReplanJobCommand) : tx World unit :=
  requireGenerationCutoverReplayTx op c LifecycleReplanJob jobGenerationPurposeReplan StatusRunning.
Definition requireInterruptReplayTx (op : LifecycleOperation) (c : ReplanJobCommand) : tx World unit :=
  if op_ResultGeneration op == op_ObservedGeneration op then
    match op_StepID op with
    | Some stepID =>
        abort "%w: lifecycle operation %q has inconsistent frozen execution pause"
          if (op_JobID op != rp_JobID c) || (op_Kind op != LifecycleInterruptJob) || (op_ResultStepStatus op != Some StatusWaiting) ||
             (op_ResultJobStatus op != StatusWaiting);
        let* found := gets (fun s => steps s !! stepID) in
        abort "%w: lifecycle operation %q has inconsistent paused execution step"
          if negb match found with
             | Some step => (step_JobID step == op_JobID op) && (step_Generation step == op_ResultGeneration op) && (step_Action step == "v3_coding")
             | None => false end;
        ret tt
    | None => fail "%w: lifecycle operation %q has inconsistent frozen execution pause"
    end
  else requireGenerationCutoverReplayTx op c LifecycleInterruptJob jobGenerationPurposeInterrupt StatusWaiting.
Definition sameCanceledJobAuthority (current stored : Job) : bool := current == stored.
Definition requireCancelJobReplayTx (op : LifecycleOperation) (c : CancelJobCommand) (current : Job) : tx World unit :=
  abort "%w: lifecycle operation %q has inconsistent canceled job result"
    if (op_JobID op != cn_JobID c) || (op_Kind op != LifecycleCancelJob) || negb (is_none (op_StepID op)) || negb (is_none (op_ResultStepStatus op)) ||
       (op_ResultGeneration op != op_ObservedGeneration op) || (op_ResultJobStatus op != StatusCanceled) || (job_Error (op_ResultJob op).2 != cn_Reason c);
  abort "%w: lifecycle operation %q has inconsistent canceled job authority"
    if negb (sameCanceledJobAuthority current (op_ResultJob op)) || (job_Error current.2 != cn_Reason c);
  requireLifecycleGenerationExistsTx current.1 (job_CurrentGeneration current.2).

End commands.
