(* ===== verification/JobSteps.v ===== *)
(** * Jobs: steps and attempts

    Admission of a job ([enqueueJobWithStepsTx]), the claim of the next step under a
    lease ([ClaimNextStep]), the authority of an attempt and its renewal
    ([step_attempt_authority.go]), completion and failure ([repository_steps.go]), and
    the two ways an execution waits for its owner ([WaitForCodingExecutionInput],
    [WaitForCodingNativeInput]) and a plan waits for its review
    ([coding_ledger_review.go]). *)
From Stdlib Require Import Ascii.
From S2P Require Import Prelude Schema PathIdentity UserIntent JsonCodec Scrum Jobs JobStore JobCommands.
From stdpp Require Import sorting base tactics strings list gmap numbers pretty.
From stdpp Require Import list options.
Open Scope Z_scope.
Open Scope go_scope.

Section steps.
Context {World : Type} (env : Env) (others : Others World).

(** ** Admission *)

Definition validateJobInstruction (instruction : string) : result unit :=
  reject "%w: must be valid UTF-8" when negb (valid_utf8 instruction);
  reject "%w: must not contain NUL" when contains_nul instruction;
  reject "%w: must contain non-whitespace user authority" when blank instruction; Ok tt.
Definition new_job (instruction pipeline : string) (metadata : value) : JobRow :=
  mkJobRow instruction pipeline StatusPending "" "" metadata 1 (now env) (now env) None.
Definition enqueueJobWithStepsTx (instruction pipeline : string) (metadata : value) (seeds : list stepSeed) : tx World Job :=
  exec lift (validateJobInstruction instruction);
  abort "pipeline %q produced no executable steps" if bool_decide (seeds = []);
  let job := new_job instruction pipeline metadata in
  let* jobID := insert_job env job in
  exec insert_generation jobID 1 (mkGeneration jobGenerationPurposeInitial None None None);
  exec each (fun seed => insert_step env (new_step jobID (seed_action seed) (seed_sortIndex seed) StatusPending 1)) seeds;
  ret (jobID, job).
(** The transaction of the admissions, as in [EnqueueCodingJobMode]: the caller built the
    metadata and chose the steps. *)
Definition EnqueueJob (instruction pipeline : string) (metadata : value) (seeds : list stepSeed) : State World -> result Job * State World :=
  transact others (enqueueJobWithStepsTx instruction pipeline metadata seeds).

(** ** Claims *)

(** No unfinished step of the job comes before. *)
Definition no_predecessor (s : Store) (step : StepRow) : bool :=
  negb (exists_row (fun _ p => (step_JobID p == step_JobID step) && unsuperseded p && (step_SortIndex p <? step_SortIndex step) &&
    (step_Status p != StatusCompleted))%bool (steps s)).
Definition reclaimable (at_ : Z) (s : Store) (stepID : Z) (step : StepRow) : bool :=
  match attempts s !! (stepID, step_CurrentAttempt step) with
  | Some a => (attempt_of (step_JobID step) (step_Generation step) a &&
      ((active a && (attempt_ExpiresAt a <=? at_)) || ((step_Action step == "v3_coding") && (attempt_Status a == StepAttemptWaiting))))%bool
  | None => false
  end.
Definition claimable (at_ : Z) (s : Store) (jobID : Z) (job : JobRow) (stepID : Z) (step : StepRow) : bool :=
  ((step_JobID step == jobID) && unsuperseded step && (step_Generation step == job_CurrentGeneration job) &&
   (((step_Status step == StatusPending) && (step_CurrentAttempt step == 0)) ||
    ((step_Status step == StatusRunning) && reclaimable at_ s stepID step)) && no_predecessor s step)%bool.
Definition claimable_job (at_ : Z) (s : Store) (jobID : Z) (job : JobRow) : bool :=
  (bool_decide (job_Status job ∈ [StatusPending; StatusRunning]) && exists_row (claimable at_ s jobID job) (steps s))%bool.
(** [FOR UPDATE SKIP LOCKED LIMIT 1] *)
Definition first_unlocked {A} (locked : Z -> bool) (l : list (Z * A)) : option (Z * A) := head (filter (fun row => locked row.1 = false) l).
Definition claim_candidate (at_ : Z) (s : Store) : option (Z * JobRow) := first_unlocked (env_locked_job env) (jobs_by_id (claimable_job at_ s) s).
Definition claim_step (at_ : Z) (s : Store) (jobID : Z) (job : JobRow) : option (Z * StepRow) :=
  first_unlocked (env_locked_step env) (select_steps (claimable at_ s jobID job) s).

Record ClaimedStep := mkClaimed { cl_Job : Job; cl_Step : Z * StepRow; cl_Authority : StepAttemptAuthority; cl_LeaseDeadline : Z }.
(** The expired attempt of a running step ends; a waiting one already has. *)
Definition expire_previous (at_ stepID : Z) (step : StepRow) : tx World unit :=
  match step_Status step with
  | StatusRunning =>
      let* found := gets (fun s => attempts s !! (stepID, step_CurrentAttempt step)) in
      match found with
      | None => fail "no rows in result set"
      | Some previous =>
          if active previous then
            let* changed := update_attempt others (step_JobID step) (step_Generation step) stepID (step_CurrentAttempt step) true
              (fun a => active a && (attempt_ExpiresAt a <=? at_))%bool
              (fun a => a <| attempt_Status := StepAttemptExpired |> <| attempt_FinishedAt := Some at_ |>) in
            abort "expired attempt lost reclaim authority" if negb changed; ret tt
          else abort "step cannot reclaim terminal attempt %q"
                 if negb ((attempt_Status previous == StepAttemptWaiting) && (step_Action step == "v3_coding")); ret tt
      end
  | _ => ret tt
  end.
(** The nanoseconds the lease is still valid for. *)
Definition lease_valid_for (expiresAt at_ : Z) : Z := Z.max ((expiresAt - at_) * 1000) 0.
Definition claimTx (workerID : string) : tx World (option ClaimedStep + option ClaimedStep) :=
  let* databaseNow := clock env in
  let* candidate := gets (claim_candidate databaseNow) in
  match candidate with
  | None => ret (inr None)
  | Some (jobID, job) =>
      let* found := gets (fun s => claim_step databaseNow s jobID job) in
      match found with
      | None => ret (inr None)
      | Some (stepID, step) =>
          abort "%w: pending step %d has attempt %d" if (step_Status step == StatusPending) && (step_CurrentAttempt step != 0);
          exec expire_previous databaseNow stepID step;
          let attemptNumber := step_CurrentAttempt step + 1 in
          let attempt := mkAttemptRow (step_JobID step) (step_Generation step) workerID StepAttemptActive databaseNow databaseNow None in
          exec insert_attempt stepID attemptNumber attempt;
          let* measured := clock env in
          let running := fun row : StepRow => row <| step_Status := StatusRunning |> <| step_WorkerID := Some workerID |>
            <| step_CurrentAttempt := attemptNumber |> <| step_StartedAt := Some (default databaseNow (step_StartedAt row)) |>
            <| step_FinishedAt := None |> in
          let* claimed := update_step stepID (fun row => (step_Status row == step_Status step) && (step_CurrentAttempt row == step_CurrentAttempt step))%bool running in
          abort "%w: step %d lost claim authority" if negb claimed;
          let* started := update_job jobID (fun row => job_Status row == StatusPending)
            (fun row => row <| job_Status := StatusRunning |> <| job_UpdatedAt := now env |>) in
          abort "%w: job %d changed during step claim"
            if ((job_Status job == StatusPending) && negb started) || ((job_Status job == StatusRunning) && started);
          ret (inl (Some (mkClaimed (jobID, job <| job_Status := StatusRunning |>)
            (stepID, step <| step_Status := StatusRunning |> <| step_WorkerID := Some workerID |>
              <| step_StartedAt := Some (default databaseNow (step_StartedAt step)) |>)
            (mkAuthority (step_JobID step) (step_Generation step) stepID attemptNumber workerID)
            (env_local env 0 + lease_valid_for (attempt_ExpiresAt attempt) measured))))
      end
  end.
(** After the commit a claim whose lease already ran out is not delivered. *)
Definition deliver {A} (deadline : A -> Z) (e : string) (out : result (option A) * State World) : result (option A) * State World :=
  match out with
  | (Ok (Some x), st) => if deadline x - env_local env 1 <=? 0 then (Err e, st) else out
  | _ => out
  end.
Definition ClaimNextStep (workerID : string) (st : State World) : result (option ClaimedStep) * State World :=
  if exact_worker workerID then
    deliver cl_LeaseDeadline "step %d attempt %d lease expired before claim delivery" (transact_or others (claimTx workerID) st)
  else (Err "worker identity must be exact PostgreSQL-compatible text of at most 256 bytes", st).

(** ** Authority of an attempt *)

Record lockedStepAttempt := mkLocked { lk_JobStatus : Status; lk_StepStatus : Status; lk_AttemptStatus : StepAttemptStatus; lk_ExpiresAt : Z }.
Definition lockStepAttemptAuthorityTx (a : StepAttemptAuthority) : tx World lockedStepAttempt :=
  exec lift (validateStepAttemptAuthority a);
  let* s := gets id in
  match jobs s !! au_JobID a with
  | None => fail "job authority is unavailable"
  | Some job =>
      abort "job generation changed" if job_CurrentGeneration job != au_Generation a;
      match steps s !! au_StepID a with
      | None => fail "step authority is unavailable"
      | Some step =>
          abort "step authority is unavailable" if step_JobID step != au_JobID a;
          abort "step authority changed"
            if (step_Generation step != au_Generation a) || negb (unsuperseded step) || (step_CurrentAttempt step != au_Attempt a) ||
               (step_WorkerID step != Some (au_WorkerID a));
          match attempts s !! (au_StepID a, au_Attempt a) with
          | None => fail "attempt authority is unavailable"
          | Some attempt =>
              abort "attempt authority is unavailable" if negb (attempt_of (au_JobID a) (au_Generation a) attempt);
              abort "attempt worker changed" if attempt_WorkerID attempt != au_WorkerID a;
              ret (mkLocked (job_Status job) (step_Status step) (attempt_Status attempt) (attempt_ExpiresAt attempt))
          end
      end
  end.
Definition requireLockedStepAttemptActiveTx (locked : lockedStepAttempt) : tx World unit :=
  abort "attempt is not active" if lk_AttemptStatus locked != StepAttemptActive;
  let* at_ := clock env in
  abort "attempt lease expired" if negb (at_ <? lk_ExpiresAt locked); ret tt.
Definition requireActiveStepAttemptTx (a : StepAttemptAuthority) : tx World lockedStepAttempt :=
  let* locked := lockStepAttemptAuthorityTx a in
  exec requireLockedStepAttemptActiveTx locked; ret locked.
Definition jobAcceptsStepTerminal (status : Status) : bool := bool_decide (status ∈ [StatusRunning; StatusWaiting]).
(** [codingNativeInputWaitingTx] *)
Definition native_input_waiting (a : StepAttemptAuthority) (s : Store) : bool :=
  match steps s !! au_StepID a with
  | Some step => ((step_JobID step == au_JobID a) && bool_decide (step_Action step ∈ ["v3_coding"; "v3_coding_plan"]) &&
      existsb (fun row => coding_entry (au_JobID a) (au_StepID a) (au_Generation a) ["execution_native_input"] row &&
        negb (followed_by (au_JobID a) (au_StepID a)
          ["execution_reply"; "execution_native_input"; "execution_response"; "review_response"; "task_incomplete"] s row)) (evidence s))%bool
  | None => false
  end.
Definition waiting_status (locked : lockedStepAttempt) : bool := ((lk_JobStatus locked == StatusWaiting) && (lk_StepStatus locked == StatusWaiting))%bool.
Definition codingNativeInputWaitingTx (a : StepAttemptAuthority) : tx World bool := gets (native_input_waiting a).
Definition RequireActiveStepAttempt (a : StepAttemptAuthority) : State World -> result unit * State World :=
  transact others (
    let* locked := requireActiveStepAttemptTx a in
    let* valid := (if waiting_status locked then codingNativeInputWaitingTx a
      else ret ((lk_StepStatus locked == StatusRunning) && jobAcceptsStepTerminal (lk_JobStatus locked))%bool) in
    abort "workspace mutation writer job status %q step status %q" if negb valid; ret tt).
(** [terminalizeStepAttemptTx] *)
Definition terminalizeStepAttemptTx (a : StepAttemptAuthority) (status : StepAttemptStatus) : tx World unit :=
  abort "terminalize step attempt: active is not a terminal status" if status == StepAttemptActive;
  let* finished := clock env in
  let* at_ := clock env in
  let* changed := update_attempt others (au_JobID a) (au_Generation a) (au_StepID a) (au_Attempt a) true
    (fun row => (attempt_WorkerID row == au_WorkerID a) && active row && (at_ <? attempt_ExpiresAt row))%bool
    (fun row => row <| attempt_Status := status |> <| attempt_FinishedAt := Some finished |>) in
  abort "attempt lost terminal transition authority" if negb changed; ret tt.
Definition renewTx (a : StepAttemptAuthority) : tx World (option Z) :=
  let* locked := requireActiveStepAttemptTx a in
  let* waiting := (if waiting_status locked then codingNativeInputWaitingTx a else ret false) in
  abort "step is not running or awaiting bound native input" if negb ((lk_StepStatus locked == StatusRunning) || waiting);
  let* renewed := clock env in
  let* at_ := clock env in
  let* changed := update_attempt others (au_JobID a) (au_Generation a) (au_StepID a) (au_Attempt a) false
    (fun row => active row && (at_ <? attempt_ExpiresAt row))%bool (fun row => row <| attempt_RenewedAt := renewed |>) in
  abort "attempt expired before renewal" if negb changed;
  let* measured := clock env in
  ret (Some (env_local env 0 + lease_valid_for (renewed + lease) measured)).
Definition RenewStepAttempt (a : StepAttemptAuthority) (st : State World) : result (option Z) * State World :=
  deliver id "attempt lease expired before renewal delivery" (transact others (renewTx a) st).

(** ** Completion *)

Definition hasRoleplayCompletionPayload (c : CompleteStepCommand) : bool := cs_Roleplay c != "".
Definition open_steps (jobID : Z) (s : Store) : bool :=
  exists_row (fun _ step => (step_JobID step == jobID) && unsuperseded step && open_status (step_Status step))%bool (steps s).
(** [requireCodingAgentCompletionTx] and [materializeCodingTaskLedgerCompletionTx] *)
Definition materializeCodingTaskLedgerCompletionTx (jobID : Z) (ledger : LedgerRow) (revision : Z) : tx World unit :=
  let* incomplete := asks (fun _ w => o_tasks_incomplete others w (ledger_ID ledger) revision) in
  abort "coding task ledger completion requires every queued task accepted" if incomplete;
  let* changed := update_ledger jobID (fun row => (ledger_FrozenRevision row == Some revision) && (ledger_State row == "frozen"))%bool
    (fun row => row <| ledger_State := "completed" |>) in
  abort "coding task ledger changed before completion" if negb changed; ret tt.
Definition requireCodingAgentCompletionTx (job : Job) (stepID : Z) : tx World unit :=
  let* agents := lift (o_agents others (job_Metadata job.2)) in
  if negb agents then ret tt else
  let* s := gets id in
  match steps s !! stepID with
  | None => fail "no rows in result set"
  | Some step =>
      abort "no rows in result set" if step_JobID step != job.1;
      if step_Action step != "v3_coding" then ret tt else
      match ledgers s !! job.1 with
      | None => fail "agent completion requires one frozen PostgreSQL coding ledger"
      | Some ledger =>
          match ledger_FrozenRevision ledger with
          | None => fail "agent completion requires the current frozen task ledger"
          | Some revision =>
              abort "agent completion requires the current frozen task ledger" if (ledger_State ledger != "frozen") || (revision <? 1);
              materializeCodingTaskLedgerCompletionTx job.1 ledger revision
          end
      end
  end.
Definition cancelTerminalObjectiveCodingTailTx (job : Job) (c : CompleteStepCommand) : tx World unit :=
  abort "terminal objective completion requires the chat pipeline" if job_Pipeline job.2 != "chat";
  let generation := au_Generation (cs_Authority c) in
  let* found := gets (current_pipeline job.1 generation) in
  abort "terminal chat objective has %d current steps, expected %d"
    if ((fun row : Z * StepRow => (step_Action row.2, step_SortIndex row.2)) <$> found) !=
       ((fun seed => (seed_action seed, seed_sortIndex seed)) <$> conversationObjectiveSteps);
  match found with
  | [] => ret tt
  | first :: tail =>
      abort "terminal objective completion differs from its exact completed objective step"
        if (first.1 != cs_StepID c) || (step_Status first.2 != StatusCompleted) || (step_CurrentAttempt first.2 != au_Attempt (cs_Authority c));
      abort "terminal objective coding tail step %s is %s at attempt %d, expected pending at attempt 0"
        if negb (forallb (fun row : Z * StepRow => (step_Status row.2 == StatusPending) && (step_CurrentAttempt row.2 == 0))%bool tail);
      let* finished := clock env in
      let* n := update_steps (fun stepID step => (step_JobID step == job.1) && (step_Generation step == generation) && bool_decide (stepID ∈ tail.*1) &&
          unsuperseded step && (step_Status step == StatusPending) && (step_CurrentAttempt step == 0))%bool
        (fun step => step <| step_Status := StatusCanceled |> <| step_FinishedAt := Some finished |>) in
      abort "terminal objective coding tail changed before atomic cancellation" if n != Z.of_nat (length tail); ret tt
  end.
(** The row of the attempt's own step in the given status. *)
Definition own_step (a : StepAttemptAuthority) (status : Status) (row : StepRow) : bool :=
  ((step_JobID row == au_JobID a) && (step_Generation row == au_Generation a) && (step_CurrentAttempt row == au_Attempt a) &&
   (step_WorkerID row == Some (au_WorkerID a)) && (step_Status row == status))%bool.
Definition open_job (row : JobRow) : bool := open_status (job_Status row).
Definition record_operation (d : lifecycleOperationDescriptor) (observed : Z) (stepID : option Z) (stepStatus : option Status) (job : Job) : LifecycleOperation :=
  mkOperation job.1 observed (job_CurrentGeneration job.2) stepID (ds_Kind d) (ds_Payload d) (job_Status job.2) stepStatus job.
(** What completing the last open step does to the job. *)
Definition complete_job (job : Job) (c : CompleteStepCommand) : tx World unit :=
  exec calls (fun s w => o_complete_channel others s w job c);
  let* changed := update_job job.1 open_job (fun row => row <| job_Status := StatusCompleted |>
    <| job_Result := if cs_Output c == "" then job_Result row else cs_Output c |> <| job_CompletedAt := Some (now env) |> <| job_UpdatedAt := now env |>) in
  abort "job lost terminal-completion authority" if negb changed;
  calls (fun _ w => o_release_card others w job StatusCompleted).
Definition completeStep (c : CompleteStepCommand) (d : lifecycleOperationDescriptor) (evidence_ : option (list string)) : tx World (unit + unit) :=
  let a := cs_Authority c in
  exec lockLifecycleOperationIdentityTx (cs_OperationID c);
  let* locked := lockStepAttemptAuthorityTx a in
  let* job := scanLockedJobTx (au_JobID a) in
  let* existing := loadLifecycleOperationTx others d (au_JobID a) in
  match existing with
  | Some op =>
      exec requireCompleteStepReplayTx op c;
      let* replay := asks (fun _ w => o_roleplay_replay others w job op c) in
      exec lift replay;
      match evidence_ with
      | Some payloads => let* replayed := asks (fun _ w => o_citations_replay others w (cs_OperationID c) payloads) in exec lift replayed; ret (inr tt)
      | None => ret (inr tt)
      end
  | None =>
      exec lift (o_roleplay_authority others job c);
      exec requireLockedStepAttemptActiveTx locked;
      exec lift (o_roleplay_payload others job c);
      abort "completion writer job status %q step status %q"
        if (lk_StepStatus locked != StatusRunning) || negb (jobAcceptsStepTerminal (lk_JobStatus locked));
      exec requireCodingAgentCompletionTx job (cs_StepID c);
      let* pending := asks (fun _ w => o_pending_messages others w (au_JobID a) (au_Generation a)) in
      exec lift pending;
      exec match evidence_ with Some payloads => calls (fun _ w => o_citations others w c payloads) | None => ret tt end;
      exec terminalizeStepAttemptTx a StepAttemptCompleted;
      let* changed := update_step (cs_StepID c) (own_step a StatusRunning)
        (fun row => row <| step_Status := StatusCompleted |> <| step_Output := cs_Output c |> <| step_FinishedAt := Some (now env) |>) in
      abort "completion target lost current authority" if negb changed;
      exec (if cs_ContextKey c == "objective_result" then cancelTerminalObjectiveCodingTailTx job c else ret tt);
      let* remaining := gets (open_steps (au_JobID a)) in
      exec (if remaining then
              abort "roleplay facts require the terminal current-generation step" if hasRoleplayCompletionPayload c;
              exec update_job (au_JobID a) (fun row => job_Status row != StatusCanceled) (fun row => row <| job_UpdatedAt := now env |>); ret tt
            else complete_job job c);
      let* after := scanLockedJobTx (au_JobID a) in
      exec insertLifecycleOperationTx others d (record_operation d (au_Generation a) (Some (cs_StepID c)) (Some StatusCompleted) after);
      ret (inl tt)
  end.
Definition CompleteStep (command : CompleteStepCommand) (st : State World) : result unit * State World :=
  match normalizeCompleteStepCommand others command with
  | Err e => (Err e, st)
  | Ok c => match describeLifecycleOperation (cs_OperationID c) LifecycleCompleteStep (encode_complete c) with
    | Err e => (Err e, st)
    | Ok d => transact_or others (completeStep c d None) st
    end
  end.
(** [CompleteStepWithEvidence], whose records were encoded by [evidence.Record.Validate]. *)
Definition CompleteStepWithEvidence (command : CompleteStepCommand) (payloads : list string) (st : State World) : result unit * State World :=
  match normalizeCompleteStepCommand others command with
  | Err e => (Err e, st)
  | Ok c =>
      if cs_ContextKey c != "objective_result" then (Err "objective evidence completion requires context key %q", st) else
      match describeLifecycleOperation (cs_OperationID c) LifecycleCompleteStep (encode_complete c) with
      | Err e => (Err e, st)
      | Ok d => transact_or others (completeStep c d (Some payloads)) st
      end
  end.

(** ** Failure *)

Definition failStep (c : FailStepCommand) (d : lifecycleOperationDescriptor) : tx World (unit + unit) :=
  let a := fs_Authority c in
  exec lockLifecycleOperationIdentityTx (fs_OperationID c);
  let* locked := lockStepAttemptAuthorityTx a in
  let* job := scanLockedJobTx (au_JobID a) in
  let* existing := loadLifecycleOperationTx others d (au_JobID a) in
  match existing with
  | Some op => exec requireFailStepReplayTx op c; ret (inr tt)
  | None =>
      exec requireLockedStepAttemptActiveTx locked;
      let* valid := (if waiting_status locked then codingNativeInputWaitingTx a
        else ret ((lk_StepStatus locked == StatusRunning) && jobAcceptsStepTerminal (lk_JobStatus locked))%bool) in
      abort "failure writer job status %q step status %q" if negb valid;
      exec terminalizeStepAttemptTx a StepAttemptFailed;
      let* changed := update_step (fs_StepID c) (own_step a (lk_StepStatus locked))
        (fun row => row <| step_Status := StatusFailed |> <| step_Error := fs_Error c |> <| step_FinishedAt := Some (now env) |>) in
      abort "failure target lost current authority" if negb changed;
      let* ended := update_job (au_JobID a) open_job (fun row => row <| job_Status := StatusFailed |> <| job_Error := fs_Error c |>
        <| job_CompletedAt := Some (now env) |> <| job_UpdatedAt := now env |>) in
      abort "job lost terminal-failure authority" if negb ended;
      exec calls (fun _ w => o_release_card others w job StatusFailed);
      let* after := scanLockedJobTx (au_JobID a) in
      exec calls (fun s w => o_retire_messages others s w after (au_Generation a) (fs_OperationID c));
      exec insertLifecycleOperationTx others d (record_operation d (au_Generation a) (Some (fs_StepID c)) (Some StatusFailed) after);
      ret (inl tt)
  end.
Definition FailStep (command : FailStepCommand) (st : State World) : result unit * State World :=
  match normalizeFailStepCommand command with
  | Err e => (Err e, st)
  | Ok c => match describeLifecycleOperation (fs_OperationID c) LifecycleFailStep (encode_fail c) with
    | Err e => (Err e, st)
    | Ok d => transact_or others (failStep c d) st
    end
  end.

(** ** Waiting for the owner *)

Definition last_entry (p : EvidenceRow -> bool) (s : Store) : option EvidenceRow := last (filter (fun row => p row = true) (evidence s)).
Definition response_phases : list string := ["execution_response"; "review_response"; "execution_native_input"; "task_incomplete"; "planning_incomplete"].
(** [codingExecutionResponseTx]; [None] for [pgx.ErrNoRows]. *)
Definition codingExecutionResponseTx (jobID stepID generation : Z) : tx World (option EvidenceRow) :=
  let* found := gets (last_entry (coding_entry jobID stepID generation response_phases)) in
  match found with
  | None => ret None
  | Some row =>
      let entry := ev_Entry row in
      abort "execution is not awaiting a parsed question or permission request"
        if (entry_CallID entry <? 1) || negb (Nat.eqb (length (entry_Notes entry)) 1) ||
           (is_none (entry_NativeInput entry) && negb (bool_decide (entry_ResponseKind entry ∈ ["question"; "permission"])));
      ret (Some row)
  end.
Definition running_attempt (e : string) (a : StepAttemptAuthority) : tx World unit :=
  let* locked := requireActiveStepAttemptTx a in
  abort e if (lk_JobStatus locked != StatusRunning) || (lk_StepStatus locked != StatusRunning); ret tt.
Definition WaitForCodingExecutionInput (a : StepAttemptAuthority) (taskID : string) : State World -> result unit * State World :=
  transact others (
    exec running_attempt "execution input requires the running step" a;
    let* response := codingExecutionResponseTx (au_JobID a) (au_StepID a) (au_Generation a) in
    match response with
    | None => fail "no rows in result set"
    | Some row =>
        abort "execution input changed its selected task" if entry_TaskID (ev_Entry row) != taskID;
        exec terminalizeStepAttemptTx a StepAttemptWaiting;
        let* changed := update_step (au_StepID a) (fun step => (step_JobID step == au_JobID a) && (step_Generation step == au_Generation a) &&
            (step_CurrentAttempt step == au_Attempt a) && bool_decide (step_Action step ∈ ["v3_coding"; "v3_coding_plan"]) &&
            (step_Status step == StatusRunning))%bool
          (fun step => step <| step_Status := StatusWaiting |> <| step_WorkerID := None |>
            <| step_Output := default "" (head (entry_Notes (ev_Entry row))) |>) in
        abort "execution step changed before waiting for input" if negb changed;
        let* at_ := clock env in
        let* paused := update_job (au_JobID a) (fun job => (job_CurrentGeneration job == au_Generation a) && (job_Status job == StatusRunning))%bool
          (fun job => job <| job_Status := StatusWaiting |> <| job_UpdatedAt := at_ |>) in
        abort "execution job changed before waiting for input" if negb paused; ret tt
    end).
Definition always {A} (_ : A) : bool := true.
Definition WaitForCodingNativeInput (a : StepAttemptAuthority) (request : value) (callID : Z) (taskID : string) : State World -> result Z * State World :=
  transact others (
    exec running_attempt "native input requires the running attempt" a;
    let* bound := asks (fun s w => o_native_call others s w a callID taskID request) in
    abort "native request lacks its exact active task and call" if negb bound;
    let prompt := o_native_prompt others request in
    let* inputID := insert_evidence env (au_JobID a) (au_StepID a)
      (mkEntry (au_Generation a) "execution_native_input" taskID callID "" [prompt] "" (Some request) 0 None None VNull) in
    let* job := scanLockedJobTx (au_JobID a) in
    exec calls (fun _ w => o_message others w job "assistant" prompt);
    exec update_step (au_StepID a) always (fun step => step <| step_Status := StatusWaiting |> <| step_Output := prompt |>);
    let* at_ := clock env in
    exec update_job (au_JobID a) always (fun row => row <| job_Status := StatusWaiting |> <| job_UpdatedAt := at_ |>);
    ret inputID).

(** ** Review of the plan *)

Definition MarkCodingLedgerReviewReady (a : StepAttemptAuthority) (ledgerID revision : Z) (st : State World) : result unit * State World :=
  if ((ledgerID <=? 0) || (revision <=? 0))%bool then (Err "coding ledger review requires exact authority", st) else
  transact others (
    exec running_attempt "coding ledger review writer is not running" a;
    let* pending := asks (fun _ w => o_pending_messages others w (au_JobID a) (au_Generation a)) in
    exec lift pending;
    let* ready := asks (fun s w => match ledgers s !! au_JobID a with
      | Some ledger => (ledger_ID ledger == ledgerID) && (ledger_CurrentRevision ledger == revision) && (ledger_State ledger == "proposed") &&
                       o_proposed others w ledgerID revision
      | None => false end)%bool in
    abort "%w: coding ledger proposal changed before review" if negb ready;
    exec terminalizeStepAttemptTx a StepAttemptCompleted;
    let* changed := update_step (au_StepID a) (fun step => own_step a StatusRunning step && (step_Action step == "v3_coding_plan"))%bool
      (fun step => step <| step_Status := StatusWaiting |> <| step_WorkerID := None |>) in
    abort "coding ledger planning step changed before review" if negb changed;
    let* at_ := clock env in
    let* paused := update_job (au_JobID a) (fun job => (job_CurrentGeneration job == au_Generation a) && (job_Status job == StatusRunning))%bool
      (fun job => job <| job_Status := StatusWaiting |> <| job_UpdatedAt := at_ |>) in
    abort "coding ledger job changed before review" if negb paused; ret tt) st.
Definition completeCodingLedgerReviewTx (jobID ledgerID frozenRevision : Z) : tx World unit :=
  let* s := gets id in
  match jobs s !! jobID, ledgers s !! jobID with
  | Some job, Some ledger =>
      abort "no rows in result set" if (ledger_ID ledger != ledgerID) || (ledger_State ledger != "frozen") || (ledger_FrozenRevision ledger != Some frozenRevision);
      match head (select_steps (fun _ step => (step_JobID step == jobID) && (step_Generation step == job_CurrentGeneration job) &&
                    (step_Action step == "v3_coding_plan") && unsuperseded step)%bool s) with
      | None => fail "no rows in result set"
      | Some (stepID, step) =>
          if ((job_Status job == StatusRunning) && (step_Status step == StatusCompleted))%bool then ret tt else
          abort "%w: normalized planning boundary is job=%s step=%s" if (job_Status job != StatusWaiting) || (step_Status step != StatusWaiting);
          let* finished := clock env in
          let* changed := update_step stepID (fun row => step_Status row == StatusWaiting)
            (fun row => row <| step_Status := StatusCompleted |> <| step_Output := "coding ledger audited and frozen" |> <| step_FinishedAt := Some finished |>) in
          abort "%w: normalized planning step changed" if negb changed;
          let* at_ := clock env in
          let* advanced := update_job jobID (fun row => (job_CurrentGeneration row == job_CurrentGeneration job) && (job_Status row == StatusWaiting))%bool
            (fun row => row <| job_Status := StatusRunning |> <| job_Result := "" |> <| job_Error := "" |> <| job_CompletedAt := None |> <| job_UpdatedAt := at_ |>) in
          abort "%w: normalized planning job changed" if negb advanced; ret tt
      end
  | _, _ => fail "no rows in result set"
  end.
Definition CompleteCodingLedgerReview (jobID ledgerID frozenRevision : Z) (st : State World) : result unit * State World :=
  if ((jobID <=? 0) || (ledgerID <=? 0) || (frozenRevision <=? 0))%bool then (Err "coding ledger review completion requires exact authority", st)
  else transact others (completeCodingLedgerReviewTx jobID ledgerID frozenRevision) st.

End steps.
