(* ===== verification/JobControl.v ===== *)
(** * Jobs: control by the owner

    A job is interrupted, replanned, resumed, canceled or answered by its owner.
    Interruption and replanning retire the current generation of steps and install the
    canonical tail of the next one ([job_generation_replan.go], [job_generation_store.go],
    [repository_interrupt.go], [repository_replan.go]); a frozen execution is paused and
    resumed in place ([coding_recovery.go], [repository_resume.go]); a reply completes or
    resumes the waiting step ([repository_step_input.go], [coding_execution_input.go],
    [coding_task_continuation.go]); a cancellation ends every open step
    ([repository_cancel.go], [coding_plan_lifecycle.go]). *)
From Stdlib Require Import Ascii.
From S2P Require Import Prelude Schema PathIdentity UserIntent JsonCodec Scrum Jobs JobStore JobCommands JobSteps.
From S2P Require LedgerStore.
From stdpp Require Import sorting base tactics strings list gmap numbers pretty.
From stdpp Require Import list options.
Open Scope Z_scope.
Open Scope go_scope.

(** ** The canonical tail *)

Record replanBoundary := mkBoundary { bo_action : string; bo_sortIndex : Z; bo_seeds : list stepSeed }.
Record replanStepRecord := mkRecord { rr_ID : Z; rr_Action : string; rr_SortIndex : Z; rr_Status : Status; rr_Generation : Z }.
(** The loop of [canonicalReplanTail]: the sort index before, and where the two
    boundaries were found. *)
Definition boundary_scan (acc : Z * (option nat * option nat)) (at_ : nat * stepSeed) : result (Z * (option nat * option nat)) :=
  let '(previous, (coding, objective)) := acc in
  let '(index, seed) := at_ in
  reject "%w: canonical steps are not strictly ordered" when ((seed_action seed == "") || (seed_sortIndex seed <=? previous))%bool;
  if seed_action seed == replanCodingBoundary then
    (reject "%w: duplicate %s boundary" when negb (is_none coding); Ok (seed_sortIndex seed, (Some index, objective)))
  else if seed_action seed == replanObjectiveBoundary then
    (reject "%w: duplicate %s boundary" when negb (is_none objective); Ok (seed_sortIndex seed, (coding, Some index)))
  else Ok (seed_sortIndex seed, (coding, objective)).
Definition canonicalReplanTail (seeds : list stepSeed) : result replanBoundary :=
  reject "%w: canonical job has no steps" when bool_decide (seeds = []);
  let? scanned := loop boundary_scan (-1, (None, None)) (imap pair seeds) in
  let '(_, (coding, objective)) := scanned in
  reject "%w: objective boundary cannot follow the coding boundary"
    when match coding, objective with Some c, Some o => Nat.ltb c o | _, _ => false end;
  match (match objective with Some o => Some o | None => coding end) with
  | None => Err "%w: canonical job has neither %s nor %s boundary"
  | Some index =>
      match drop index seeds with
      | [] => Err "index out of range"
      | seed :: tail => Ok (mkBoundary (seed_action seed) (seed_sortIndex seed) (seed :: tail))
      end
  end.
Definition registeredStepStatus (status : Status) : bool :=
  match status with StatusPending | StatusRunning | StatusCompleted | StatusFailed | StatusWaiting | StatusCanceled => true end.
(** The loop of [validateCurrentReplanTail] over [rows[index:]]; [before] is
    [rows[index-1]], [position] is [canonicalIndex]. *)
Fixpoint tail_scan (generation : Z) (seeds : list stepSeed) (before : option replanStepRecord) (seen : list Z) (previousSort : Z) (position : nat)
    (l : list replanStepRecord) : result nat :=
  match l with
  | [] => Ok position
  | row :: l =>
      reject "%w: retiring step has invalid identity" when (rr_ID row <=? 0);
      reject "%w: duplicate retiring step %d" when bool_decide (rr_ID row ∈ seen);
      reject "%w: unsuperseded step %d belongs to generation %d, current generation is %d" when (rr_Generation row != generation);
      reject "%w: current replan tail is not strictly ordered" when (rr_SortIndex row <? previousSort);
      reject "%w: step %d has unregistered status %q" when negb (registeredStepStatus (rr_Status row));
      let seen := rr_ID row :: seen in
      match before with
      | Some previous =>
          if rr_SortIndex row == previousSort then
            reject "%w: step %d duplicates an unrecovered canonical position"
              when ((rr_Status previous != StatusFailed) || (rr_Action row != rr_Action previous) || (rr_ID row <=? rr_ID previous))%bool;
            tail_scan generation seeds (Some row) seen previousSort position l
          else
            reject "%w: step %d action %q is not canonical tail position %d" when (Some (rr_Action row) != (seed_action <$> seeds !! position));
            tail_scan generation seeds (Some row) seen (rr_SortIndex row) (S position) l
      | None =>
          reject "%w: step %d action %q is not canonical tail position %d" when (Some (rr_Action row) != (seed_action <$> seeds !! position));
          tail_scan generation seeds (Some row) seen (rr_SortIndex row) (S position) l
      end
  end.
Definition validateCurrentReplanTail (currentGeneration : Z) (boundary : replanBoundary) (l : list replanStepRecord) : result (list Z) :=
  match l with
  | [] => Err "%w: current replan tail is empty"
  | first :: _ =>
      reject "%w: current replan tail is empty" when ((currentGeneration <=? 0) || bool_decide (bo_seeds boundary = []))%bool;
      reject "%w: current boundary is %s@%d, expected %s@%d"
        when ((rr_Action first != bo_action boundary) || (rr_SortIndex first != bo_sortIndex boundary))%bool;
      let? position := tail_scan currentGeneration (bo_seeds boundary) None [] (-1) 0 l in
      reject "%w: current tail has %d canonical steps, expected %d" when negb (Nat.eqb position (length (bo_seeds boundary)));
      Ok (rr_ID <$> l)
  end.

Section control.
Context {World : Type} (env : Env) (others : Others World).

(** ** Retiring a generation *)

Definition canonicalReplanStepsTx (job : Job) : tx World (list stepSeed) :=
  let* bound := lift (o_channel others job) in
  if negb bound then
    if job_Pipeline job.2 == "chat" then fail "replan chat job %d requires exact channel authority"
    else if job_Pipeline job.2 == "coding" then ret codingSteps
    else if job_Pipeline job.2 == "scrum" then exec lift (o_scrum_metadata others (job_Metadata job.2)); ret codingSteps
    else fail "replan job %d has no executable pipeline %q"
  else
    let* valid := asks (fun _ w => o_channel_current others w job) in
    abort "replan chat job %d has stale or mismatched channel authority" if negb valid;
    let* agents := lift (o_agents others (job_Metadata job.2)) in
    ret (if agents : bool then codingSteps else conversationObjectiveSteps).
Definition replan_record (row : Z * StepRow) : replanStepRecord :=
  mkRecord row.1 (step_Action row.2) (step_SortIndex row.2) (step_Status row.2) (step_Generation row.2).
(** [lockCurrentReplanTailTx] *)
Definition current_tail (jobID boundarySort : Z) (s : Store) : list (Z * StepRow) :=
  select_steps (fun _ step => (step_JobID step == jobID) && (boundarySort <=? step_SortIndex step) && unsuperseded step)%bool s.
Definition lockCurrentJobGenerationTx (jobID : Z) : tx World Z :=
  let* job := scanLockedJobTx jobID in
  abort "%w: job %d has invalid generation %d" if job_CurrentGeneration job.2 <=? 0;
  ret (job_CurrentGeneration job.2).
Definition lockGenerationRecordTx (jobID generation : Z) : tx World unit :=
  let* found := gets (fun s => generations s !! (jobID, generation)) in
  abort "%w: job %d has no current generation record" if is_none found; ret tt.
Definition terminalize_attempt_of (jobID generation : Z) (terminal : StepAttemptStatus) (row : Z * StepRow) : tx World unit :=
  let '(stepID, step) := row in
  let worker := default "" (step_WorkerID step) in
  if ((step_Status step == StatusRunning) || ((step_Status step == StatusWaiting) && (worker != "")))%bool then
    abort "%w: running step %d has no attempt authority" if (step_CurrentAttempt step <=? 0) || (worker == "");
    let* finished := clock env in
    let* changed := update_attempt others jobID generation stepID (step_CurrentAttempt step) true
      (fun a => (attempt_WorkerID a == worker) && active a)%bool
      (fun a => a <| attempt_Status := terminal |> <| attempt_FinishedAt := Some finished |>) in
    if changed : bool then ret tt else
    let* found := gets (fun s => attempts s !! (stepID, step_CurrentAttempt step)) in
    match found with
    | Some a =>
        abort "no rows in result set" if negb (attempt_of jobID generation a) || (attempt_WorkerID a != worker);
        abort "%w: running step %d active attempt changed" if attempt_Status a != StepAttemptWaiting; ret tt
    | None => fail "no rows in result set"
    end
  else ret tt.
Definition terminalizeStepAttemptsForAuthorityChangeTx (jobID generation : Z) (stepIDs : list Z) (terminal : StepAttemptStatus) : tx World unit :=
  abort "terminalize step attempts: exact job, generation, and steps are required" if (jobID <=? 0) || (generation <=? 0) || bool_decide (stepIDs = []);
  abort "terminalize step attempts: status %q is not an authority-change terminal"
    if negb (bool_decide (terminal ∈ [StepAttemptCanceled; StepAttemptSuperseded]));
  let* states := gets (steps_by_id (fun stepID step => (step_JobID step == jobID) && (step_Generation step == generation) && bool_decide (stepID ∈ stepIDs))%bool) in
  abort "%w: job %d generation %d step set changed" if negb (Nat.eqb (length states) (length stepIDs));
  each (terminalize_attempt_of jobID generation terminal) states.
(** [transitionCodingAuthorityTx] towards a revision, and towards a cancellation. *)
Definition ledger_closed (ledger : LedgerRow) : bool := bool_decide (ledger_State ledger ∈ ["completed"; "cancelled"]).
Definition reviseCodingAuthorityTx (jobID : Z) : tx World unit :=
  let* found := gets (fun s => ledgers s !! jobID) in
  match found with
  | None => ret tt
  | Some ledger =>
      abort "%w: coding ledger for job %d is already %s" if ledger_closed ledger;
      if ledger_State ledger != "frozen" then ret tt else
      let* changed := update_ledger jobID (fun row => (ledger_CurrentRevision row == ledger_CurrentRevision ledger) && (ledger_State row == "frozen"))%bool
        (fun row => row <| ledger_State := "revising" |> <| ledger_FrozenRevision := None |>) in
      abort "%w: coding ledger %d changed during lifecycle transition" if negb changed; ret tt
  end.
Definition cancelCodingAuthorityTx (jobID : Z) (ownerTurnID ownerTurnText : string) : tx World unit :=
  let* found := gets (fun s => ledgers s !! jobID) in
  match found with
  | None => ret tt
  | Some ledger =>
      abort "%w: coding ledger for job %d is already %s" if ledger_closed ledger;
      exec lift (LedgerStore.validateCodingLedgerExternalOwnerTurnID ownerTurnID);
      abort "coding ledger cancellation requires exact owner text" if blank ownerTurnText;
      exec calls (fun _ w => o_owner_turn others w (ledger_ID ledger) ownerTurnID (ledger_CurrentRevision ledger) ownerTurnText);
      let* lastFrozen := (match ledger_FrozenRevision ledger with
        | Some revision => ret revision
        | None => asks (fun _ w => o_last_frozen others w (ledger_ID ledger) (ledger_CurrentRevision ledger)) end) in
      exec (if 0 <? lastFrozen then calls (fun _ w => o_cancel_tasks others w (ledger_ID ledger) lastFrozen) else ret tt);
      let* changed := update_ledger jobID (fun row => (ledger_CurrentRevision row == ledger_CurrentRevision ledger) &&
          bool_decide (ledger_State row ∈ ["proposed"; "frozen"; "revising"]))%bool
        (fun row => row <| ledger_State := "cancelled" |> <| ledger_FrozenRevision := if 0 <? lastFrozen then Some lastFrozen else None |>) in
      abort "%w: coding ledger %d changed during cancellation" if negb changed; ret tt
  end.
Definition create_generation (jobID current next : Z) (purpose : string) (boundary : replanBoundary) (feedback : string) : tx World unit :=
  insert_generation jobID next (mkGeneration purpose (Some current) (Some (bo_action boundary)) (Some feedback)).
(** [retireReplanTailTx] *)
Definition retired_step (next : Z) (step : StepRow) : StepRow :=
  (if open_status (step_Status step)
   then step <| step_FinishedAt := Some (default (now env) (step_FinishedAt step)) |> <| step_WorkerID := None |> <| step_Status := StatusCanceled |>
   else step) <| step_SupersededAtGeneration := Some next |>.
Definition retireReplanTailTx (jobID : Z) (stepIDs : list Z) (next : Z) : tx World unit :=
  let* n := update_steps (fun stepID step => (step_JobID step == jobID) && bool_decide (stepID ∈ stepIDs) && unsuperseded step)%bool (retired_step next) in
  abort "%w: job %d replan tail changed before supersession" if n != Z.of_nat (length stepIDs); ret tt.
Definition insertReplanTailTx (jobID next : Z) (seeds : list stepSeed) : tx World unit :=
  abort "%w: new replan tail is empty" if bool_decide (seeds = []);
  each (fun seed => insert_step env (new_step jobID (seed_action seed) (seed_sortIndex seed) StatusPending next)) seeds.
Definition insertInterruptedTailTx (jobID next : Z) (boundary : replanBoundary) : tx World unit :=
  match bo_seeds boundary with
  | [] => fail "%w: new interrupted tail is empty"
  | seed :: rest =>
      abort "%w: interrupted boundary seed is not canonical" if (seed_action seed != bo_action boundary) || (seed_sortIndex seed != bo_sortIndex boundary);
      exec insert_step env (new_step jobID (seed_action seed) (seed_sortIndex seed) StatusWaiting next);
      each (fun seed => insert_step env (new_step jobID (seed_action seed) (seed_sortIndex seed) StatusPending next)) rest
  end.
(** What interruption and replanning share: the tail of the current generation is
    checked against the canonical one and its attempts end. *)
Definition maxInt64 : Z := 2 ^ 63 - 1.
Record Cutover := mkCutover { cut_generation : Z; cut_boundary : replanBoundary; cut_retiring : list Z }.
Definition begin_cutover (job : Job) : tx World Cutover :=
  let* currentGeneration := lockCurrentJobGenerationTx job.1 in
  abort "%w: job %d exhausted generation capacity" if maxInt64 <=? currentGeneration;
  exec lockGenerationRecordTx job.1 currentGeneration;
  let* seeds := canonicalReplanStepsTx job in
  let* boundary := lift (canonicalReplanTail seeds) in
  let* tail := gets (current_tail job.1 (bo_sortIndex boundary)) in
  let* retiring := lift (validateCurrentReplanTail currentGeneration boundary (replan_record <$> tail)) in
  exec terminalizeStepAttemptsForAuthorityChangeTx job.1 currentGeneration retiring StepAttemptSuperseded;
  exec reviseCodingAuthorityTx job.1;
  ret (mkCutover currentGeneration boundary retiring).

(** ** Interruption *)

Record LifecycleJobResult := mkJobResult { lr_Job : Job; lr_Applied : bool }.
Definition advanceInterruptedJobTx (jobID current next : Z) : tx World Job :=
  let* changed := update_job jobID (fun row => (job_CurrentGeneration row == current) && bool_decide (job_Status row ∈ [StatusPending; StatusRunning]))%bool
    (fun row => row <| job_CurrentGeneration := next |> <| job_Status := StatusWaiting |> <| job_Result := "" |> <| job_Error := "" |>
      <| job_CompletedAt := None |> <| job_UpdatedAt := now env |>) in
  abort "%w: job %d generation changed during interruption" if negb changed;
  scanLockedJobTx jobID.
(** [pauseFrozenCodingTx]: the step of a frozen execution that is waiting to run or
    running. *)
Definition frozen_execution (job : Job) (p : StepRow -> bool) (s : Store) : option (Z * StepRow) :=
  match ledgers s !! job.1 with
  | Some ledger =>
      if ledger_frozen ledger then
        last (steps_by_id (fun _ step => (step_JobID step == job.1) && (step_Generation step == job_CurrentGeneration job.2) &&
          (step_Action step == "v3_coding") && unsuperseded step && p step)%bool s)
      else None
  | None => None
  end.
Definition pause_attempt (job : Job) (stepID : Z) (step : StepRow) : tx World unit :=
  if step_CurrentAttempt step <=? 0 then ret tt else
  let worker := default "" (step_WorkerID step) in
  let* finished := clock env in
  let* changed := update_attempt others job.1 (job_CurrentGeneration job.2) stepID (step_CurrentAttempt step) true
    (fun a => (attempt_WorkerID a == worker) && active a)%bool
    (fun a => a <| attempt_Status := StepAttemptWaiting |> <| attempt_FinishedAt := Some finished |>) in
  if changed : bool then ret tt else
  let* found := gets (fun s => attempts s !! (stepID, step_CurrentAttempt step)) in
  match found with
  | Some a =>
      abort "no rows in result set" if negb (attempt_of job.1 (job_CurrentGeneration job.2) a) || (attempt_WorkerID a != worker);
      abort "pause lost its exact active or waiting attempt" if attempt_Status a != StepAttemptWaiting; ret tt
  | None => fail "no rows in result set"
  end.
Definition pauseFrozenCodingTx (job : Job) (d : lifecycleOperationDescriptor) : tx World (option LifecycleJobResult) :=
  let* found := gets (frozen_execution job (fun step => bool_decide (step_Status step ∈ [StatusPending; StatusRunning]))) in
  match found with
  | None => ret None
  | Some (stepID, step) =>
      exec pause_attempt job stepID step;
      exec reserveLifecycleOperationIdentityTx others d;
      exec update_step stepID always (fun row => row <| step_Status := StatusWaiting |> <| step_WorkerID := None |>);
      let* at_ := clock env in
      exec update_job job.1 always (fun row => row <| job_Status := StatusWaiting |> <| job_UpdatedAt := at_ |>);
      let* after := scanLockedJobTx job.1 in
      exec insertLifecycleOperationTx others d (record_operation d (job_CurrentGeneration after.2) (Some stepID) (Some StatusWaiting) after);
      ret (Some (mkJobResult after true))
  end.
Definition interruptJobTx (c : ReplanJobCommand) (d : lifecycleOperationDescriptor) : tx World LifecycleJobResult :=
  exec lockLifecycleOperationIdentityTx (rp_OperationID c);
  let* job := lockedJobTx (rp_JobID c) in
  exec lift (requireLifecycleWorkspaceAuthority others job (rp_WorkspaceRoot c) (rp_WorkspaceIdentity c));
  let* existing := loadLifecycleOperationTx others d (rp_JobID c) in
  match existing with
  | Some op => exec requireInterruptReplayTx op c; ret (mkJobResult (op_ResultJob op) false)
  | None =>
      abort "job is already %s" if terminalJobStatus (job_Status job.2);
      abort "job %d status is %q; interruption requires active pending or running authority"
        if negb (bool_decide (job_Status job.2 ∈ [StatusPending; StatusRunning]));
      let* admitted := asks (fun _ w => o_admission others w job "interruption" (rp_Feedback c)) in
      exec lift admitted;
      let* paused := pauseFrozenCodingTx job d in
      match paused with
      | Some result => ret result
      | None =>
          let* cut := begin_cutover job in
          let current := cut_generation cut in
          let next := current + 1 in
          exec create_generation job.1 current next jobGenerationPurposeInterrupt (cut_boundary cut) (rp_Feedback c);
          exec retireReplanTailTx job.1 (cut_retiring cut) next;
          exec insertInterruptedTailTx job.1 next (cut_boundary cut);
          let* after := advanceInterruptedJobTx job.1 current next in
          exec calls (fun s w => o_retire_messages others s w after current (rp_OperationID c));
          exec insertLifecycleOperationTx others d (record_operation d current None None after);
          ret (mkJobResult after true)
      end
  end.
Definition InterruptJob (c : ReplanJobCommand) (st : State World) : result LifecycleJobResult * State World :=
  match normalizeInterruptJobCommand others c with
  | Err e => (Err e, st)
  | Ok _ => match describeLifecycleOperation (rp_OperationID c) LifecycleInterruptJob (encode_replan c) with
    | Err e => (Err e, st)
    | Ok d => transact others (interruptJobTx c d) st
    end
  end.

(** ** Replanning *)

Definition item_key : string := "ledger_item_planning".
(** [metadata-'ledger_item_planning'], or the item set. *)
Definition planned_metadata (c : ReplanJobCommand) (metadata : value) : value :=
  match metadata with
  | VObject fs =>
      if ((rp_PlanningItemID c == "") && negb (rp_ManualPlanning c))%bool then VObject (field_delete (bytes item_key) fs)
      else VObject (field_set (bytes item_key) (VObject [(bytes "item_id", VString (bytes (rp_PlanningItemID c)));
             (bytes "operation_id", VString (bytes (rp_OperationID c))); (bytes "manual", VBool (rp_ManualPlanning c))]) fs)
  | _ => metadata
  end.
Definition advanceReplannedJobTx (c : ReplanJobCommand) (jobID current next : Z) : tx World Job :=
  let* changed := update_job jobID (fun row => (job_CurrentGeneration row == current) && open_job row)%bool
    (fun row => row <| job_CurrentGeneration := next |> <| job_Status := StatusRunning |> <| job_Result := "" |> <| job_Error := "" |>
      <| job_CompletedAt := None |> <| job_UpdatedAt := now env |> <| job_Metadata := planned_metadata c (job_Metadata row) |>) in
  abort "%w: job %d generation changed during replan" if negb changed;
  scanLockedJobTx jobID.
(** The owner's words go to an assistant channel. *)
Definition assistant_channel (job : JobRow) : bool :=
  ((job_Pipeline job == "chat") && (metadata_text "channel_mode" job == Some (bytes "assistant")))%bool.
Definition applyReplanJobTx (c : ReplanJobCommand) (job : Job) : tx World (Job * Z) :=
  abort "job is already %s" if terminalJobStatus (job_Status job.2);
  let* admitted := asks (fun _ w => o_admission others w job "redirect" (rp_Feedback c)) in
  exec lift admitted;
  let* cut := begin_cutover job in
  let current := cut_generation cut in
  let next := current + 1 in
  exec create_generation job.1 current next jobGenerationPurposeReplan (cut_boundary cut) (rp_Feedback c);
  exec retireReplanTailTx job.1 (cut_retiring cut) next;
  exec insertReplanTailTx job.1 next (bo_seeds (cut_boundary cut));
  let* after := advanceReplannedJobTx c job.1 current next in
  exec (if (assistant_channel after.2 && agents_metadata (job_Metadata after.2))%bool
        then calls (fun _ w => o_message others w after "user" (rp_Feedback c)) else ret tt);
  exec calls (fun s w => o_retire_messages others s w after current (rp_OperationID c));
  ret (after, current).
Definition replanJobTx (c : ReplanJobCommand) (d : lifecycleOperationDescriptor) : tx World LifecycleJobResult :=
  exec lockLifecycleOperationIdentityTx (rp_OperationID c);
  let* job := lockedJobTx (rp_JobID c) in
  exec lift (requireLifecycleWorkspaceAuthority others job (rp_WorkspaceRoot c) (rp_WorkspaceIdentity c));
  let* existing := loadLifecycleOperationTx others d (rp_JobID c) in
  match existing with
  | Some op =>
      abort "lifecycle operation identity conflict"
        if negb (o_planning_item others (job_Metadata (op_ResultJob op).2) (rp_PlanningItemID c) (rp_ManualPlanning c));
      exec requireReplanReplayTx op c;
      ret (mkJobResult (op_ResultJob op) false)
  | None =>
      let* s := gets id in
      exec match ledgers s !! rp_JobID c with
      | Some ledger =>
          abort "%w: planning replan requires the exact observed ledger revision" if rp_ObservedLedgerRevision c <? 1;
          abort "%w: observed ledger revision %d is stale; current revision is %d" if rp_ObservedLedgerRevision c != ledger_CurrentRevision ledger; ret tt
      | None => abort "%w: job %d has no planning ledger" if 0 <? rp_ObservedLedgerRevision c; ret tt
      end;
      let* known := asks (fun _ w => (rp_PlanningItemID c == "") || o_ledger_item others w (rp_JobID c) (rp_PlanningItemID c))%bool in
      abort "no rows in result set" if negb known;
      let* applied := applyReplanJobTx c job in
      exec insertLifecycleOperationTx others d (record_operation d applied.2 None None applied.1);
      ret (mkJobResult applied.1 true)
  end.
Definition ReplanJob (c : ReplanJobCommand) (st : State World) : result LifecycleJobResult * State World :=
  match normalizeReplanJobCommand others c with
  | Err e => (Err e, st)
  | Ok _ => match describeLifecycleOperation (rp_OperationID c) LifecycleReplanJob (encode_replan c) with
    | Err e => (Err e, st)
    | Ok d => transact others (replanJobTx c d) st
    end
  end.

(** ** Resumption of a frozen execution *)

(** A later job of the same channel or the same workspace. *)
Definition newer_job (job : Job) (s : Store) : bool :=
  exists_row (fun jobID row => (job.1 <? jobID) &&
    ((negb (is_none (metadata_text "channel_id" row)) && (metadata_text "channel_id" row == metadata_text "channel_id" job.2)) ||
     ((job_Pipeline row == "coding") && negb (is_none (metadata_text "client_workspace_identity" row)) &&
      (metadata_text "client_workspace_identity" row == metadata_text "client_workspace_identity" job.2))))%bool (jobs s).
(** The interruption that paused the step. *)
Definition paused_by (job : Job) (stepID : Z) (s : Store) : bool :=
  exists_row (fun _ op => (op_JobID op == job.1) && (op_Kind op == LifecycleInterruptJob) && (op_StepID op == Some stepID) &&
    (op_ResultGeneration op == job_CurrentGeneration job.2) && (op_ObservedGeneration op == job_CurrentGeneration job.2))%bool (operations s).
Definition failed_planning (job : Job) (s : Store) : bool :=
  exists_row (fun _ p => (step_JobID p == job.1) && (step_Generation p == job_CurrentGeneration job.2) && (step_Action p == "v3_coding_plan") &&
    (step_Status p == StatusFailed) && unsuperseded p)%bool (steps s).
Definition recoverable (job : Job) (s : Store) (stepID : Z) (step : StepRow) : bool :=
  ((step_JobID step == job.1) && (step_Generation step == job_CurrentGeneration job.2) && (step_Action step == "v3_coding") && unsuperseded step &&
   (((job_Status job.2 == StatusFailed) && ((step_Status step == StatusFailed) ||
      ((step_Status step == StatusPending) && (step_CurrentAttempt step == 0) && failed_planning job s))) ||
    ((job_Status job.2 == StatusWaiting) && (step_Status step == StatusWaiting) && paused_by job stepID s)))%bool.
Definition codingRecoveryStepTx (job : Job) : tx World (Z * StepRow) :=
  let* found := gets (fun s => match ledgers s !! job.1 with
    | Some ledger => if (ledger_frozen ledger && negb (newer_job job s))%bool then last (steps_by_id (recoverable job s) s) else None
    | None => None end) in
  match found with Some row => ret row | None => fail "no rows in result set" end.
Definition recoverApprovedPlanningBoundaryTx (job : Job) (stepID : Z) : tx World unit :=
  if job_Status job.2 != StatusFailed then ret tt else
  let* found := gets (fun s => steps s !! stepID) in
  match found with
  | None => fail "no rows in result set"
  | Some step =>
      if step_Status step != StatusPending then ret tt else
      let* n := update_steps (fun _ p => (step_JobID p == job.1) && (step_Generation p == job_CurrentGeneration job.2) &&
          (step_Action p == "v3_coding_plan") && (step_Status p == StatusFailed) && unsuperseded p)%bool
        (fun p => p <| step_Status := StatusCompleted |> <| step_Output := "Owner-approved frozen ledger recovered after planning failure" |>) in
      abort "%w: coding ledger state" if n != 1;
      let* finished := clock env in
      exec update_step stepID (fun row => (step_Status row == StatusPending) && (step_CurrentAttempt row == 0))%bool
        (fun row => row <| step_Status := StatusFailed |>
          <| step_Error := ("Execution did not start because planning failed: " +:+ job_Error job.2)%string |> <| step_FinishedAt := Some finished |>);
      ret tt
  end.
(** The worker of the current attempt. *)
Definition attempt_worker (s : Store) (stepID : Z) (step : StepRow) : option string := attempt_WorkerID <$> attempts s !! (stepID, step_CurrentAttempt step).
Definition resumeFrozenCodingTx (job : Job) (ownerText : string) : tx World Job :=
  let* target := codingRecoveryStepTx job in
  let stepID := target.1 in
  exec recoverApprovedPlanningBoundaryTx job stepID;
  let* continued := asks (fun s w => o_continuation others s w job ownerText) in
  let* entry := lift continued in
  exec match entry with Some entry => exec insert_evidence env job.1 stepID entry; ret tt | None => ret tt end;
  exec (if job_Status job.2 == StatusFailed then
          let* found := gets (fun s => steps s !! stepID) in
          match found with
          | Some step => insert_step env (new_step (step_JobID step) (step_Action step) (step_SortIndex step) StatusPending (step_Generation step))
          | None => ret tt
          end
        else
          let* s := gets id in
          exec update_step stepID always (fun row => row <| step_Status := if step_CurrentAttempt row == 0 then StatusPending else StatusRunning |>
            <| step_WorkerID := attempt_worker s stepID row |>); ret tt);
  let* at_ := clock env in
  exec update_job job.1 always (fun row => row <| job_Status := StatusRunning |> <| job_Error := "" |> <| job_CompletedAt := None |> <| job_UpdatedAt := at_ |>);
  scanLockedJobTx job.1.
Definition resumeJobTx (c : ResumeJobCommand) : tx World LifecycleJobResult :=
  abort "resume requires exact job, generation and frozen revision"
    if (rs_JobID c <? 1) || (rs_ExpectedGeneration c <? 1) || (rs_ObservedLedgerRevision c <? 1);
  exec lift (validateLifecycleText (rs_Feedback c) false);
  exec lift (validateLifecycleWorkspaceBinding others (rs_WorkspaceRoot c) (rs_WorkspaceIdentity c));
  let* d := lift (describeLifecycleOperation (rs_OperationID c) LifecycleResumeJob (PayloadResume c)) in
  exec lockLifecycleOperationIdentityTx (rs_OperationID c);
  let* job := lockedJobTx (rs_JobID c) in
  exec lift (requireLifecycleWorkspaceAuthority others job (rs_WorkspaceRoot c) (rs_WorkspaceIdentity c));
  let* existing := loadLifecycleOperationTx others d job.1 in
  match existing with
  | Some op =>
      abort "%w: stale job generation" if job_CurrentGeneration job.2 != op_ResultGeneration op;
      ret (mkJobResult (op_ResultJob op) false)
  | None =>
      abort "%w: stale job generation" if job_CurrentGeneration job.2 != rs_ExpectedGeneration c;
      let* s := gets id in
      match ledgers s !! job.1 with
      | None => fail "no rows in result set"
      | Some ledger =>
          abort "no rows in result set" if negb (ledger_frozen ledger);
          abort "%w: coding ledger revision" if ledger_CurrentRevision ledger != rs_ObservedLedgerRevision c;
          exec codingRecoveryStepTx job;
          let* after := resumeFrozenCodingTx job (rs_Feedback c) in
          exec insertLifecycleOperationTx others d (record_operation d (job_CurrentGeneration after.2) None None after);
          ret (mkJobResult after true)
      end
  end.
Definition ResumeJob (c : ResumeJobCommand) : State World -> result LifecycleJobResult * State World := transact others (resumeJobTx c).

(** ** Cancellation *)

Definition applyJobCancellationTx (c : CancelJobCommand) (job : Job) : tx World Job :=
  abort "job is already %s" if bool_decide (job_Status job.2 ∈ [StatusCompleted; StatusFailed]);
  abort "%w: job %d is already canceled under a different lifecycle operation" if job_Status job.2 == StatusCanceled;
  let* admitted := asks (fun _ w => o_admission others w job "cancellation" (cn_Reason c)) in
  exec lift admitted;
  exec cancelCodingAuthorityTx job.1 (cn_OperationID c) (cn_Reason c);
  let* open_ := gets (steps_by_id (fun _ step => (step_JobID step == job.1) && (step_Generation step == job_CurrentGeneration job.2) && unsuperseded step &&
    open_status (step_Status step))%bool) in
  exec (if bool_decide (open_ = []) then ret tt
        else terminalizeStepAttemptsForAuthorityChangeTx job.1 (job_CurrentGeneration job.2) (open_.*1) StepAttemptCanceled);
  exec update_steps (fun _ step => (step_JobID step == job.1) && unsuperseded step && open_status (step_Status step))%bool
    (fun step => step <| step_Status := StatusCanceled |> <| step_Error := if step_Error step == "" then cn_Reason c else step_Error step |>
      <| step_FinishedAt := Some (default (now env) (step_FinishedAt step)) |>);
  let* changed := update_job job.1 always (fun row => row <| job_Status := StatusCanceled |> <| job_Error := cn_Reason c |>
    <| job_CompletedAt := Some (now env) |> <| job_UpdatedAt := now env |>) in
  abort "job %d disappeared during cancellation" if negb changed;
  let* after := scanLockedJobTx job.1 in
  exec calls (fun s w => o_retire_messages others s w after (job_CurrentGeneration after.2) (cn_OperationID c));
  ret after.
Definition cancelJobTx (c : CancelJobCommand) : tx World LifecycleJobResult :=
  exec lift (normalizeCancelJobCommand others c);
  let* d := lift (describeLifecycleOperation (cn_OperationID c) LifecycleCancelJob (PayloadCancel c)) in
  exec lockLifecycleOperationIdentityTx (cn_OperationID c);
  let* job := lockedJobTx (cn_JobID c) in
  exec lift (requireLifecycleWorkspaceAuthority others job (cn_WorkspaceRoot c) (cn_WorkspaceIdentity c));
  let* existing := loadLifecycleOperationTx others d (cn_JobID c) in
  match existing with
  | Some op => exec requireCancelJobReplayTx op c job; ret (mkJobResult (op_ResultJob op) false)
  | None =>
      let* after := applyJobCancellationTx c job in
      exec insertLifecycleOperationTx others d (record_operation d (job_CurrentGeneration after.2) None None after);
      ret (mkJobResult after true)
  end.
Definition CancelJob (c : CancelJobCommand) : State World -> result LifecycleJobResult * State World :=
  transact others (
    let* result := cancelJobTx c in
    exec (if lr_Applied result then calls (fun _ w => o_release_card others w (lr_Job result) StatusCanceled) else ret tt);
    ret result).

(** ** Replies *)

(** [replanIncompleteCodingTaskTx] *)
Definition continuation_command (c : SubmitJobFeedbackCommand) (job : Job) (responseID revision : Z) : ReplanJobCommand :=
  mkReplan false "" ("lifecycle_operation_continuation_" +:+ of_bytes (itoa job.1) +:+ "_" +:+ of_bytes (itoa (job_CurrentGeneration job.2)) +:+ "_" +:+
    of_bytes (itoa responseID))%string job.1 (fb_Feedback c) revision (fb_WorkspaceRoot c) (fb_WorkspaceIdentity c).
Definition replanIncompleteCodingTaskTx (c : SubmitJobFeedbackCommand) (job : Job) (response : EvidenceRow) : tx World Job :=
  let entry := ev_Entry response in
  abort "incomplete task lost its code-owned continuation receipt"
    if (entry_Role entry != "plan") || ((entry_Phase entry == "task_incomplete") && (entry_Continuation entry != Some (entry_TaskID entry)));
  let* revision := gets (fun s => match ledgers s !! job.1 with Some ledger => ledger_CurrentRevision ledger | None => 0 end) in
  let command := continuation_command c job (ev_ID response) revision in
  exec lift (normalizeReplanJobCommand others command);
  let* d := lift (describeLifecycleOperation (rp_OperationID command) LifecycleReplanJob (encode_replan command)) in
  let* result := replanJobTx command d in
  ret (lr_Job result).
Definition resumeCodingExecutionTx (c : SubmitJobFeedbackCommand) (job : Job) : tx World (Job * Z) :=
  abort "%w: observed %d, current %d" if match fb_ExpectedGeneration c with Some g => g != job_CurrentGeneration job.2 | None => false end;
  abort "%w: execution reply requires a waiting job" if job_Status job.2 != StatusWaiting;
  let* found := gets (steps_by_id (fun _ step => (step_JobID step == job.1) && (step_Generation step == job_CurrentGeneration job.2) &&
    bool_decide (step_Action step ∈ ["v3_coding"; "v3_coding_plan"]) && (step_Status step == StatusWaiting) && unsuperseded step)%bool) in
  match head found with
  | None => fail "%w: no waiting execution step: %v"
  | Some (stepID, step) =>
      abort "feedback differs from its observed waiting attempt"
        if match fb_ExpectedWaitingAttempt c with Some n => n != step_CurrentAttempt step | None => false end;
      let* response := codingExecutionResponseTx job.1 stepID (job_CurrentGeneration job.2) in
      match response with
      | None => fail "%w: planning discussion requires the planning conversation, not an execution reply"
      | Some row =>
          let entry := ev_Entry row in
          let reply inputID native answer := mkEntry (job_CurrentGeneration job.2) "execution_reply" (entry_TaskID entry) (entry_CallID entry) (entry_Role entry)
            [fb_OperationID c; fb_Feedback c] "" native inputID answer None VNull in
          let* written := (match entry_NativeInput entry with
            | Some request =>
                abort "%w: native reply differs from its observed input request" if fb_ExpectedInputID c != Some (ev_ID row);
                let* answer := lift (o_native_reply others request (fb_Feedback c)) in
                ret (reply (ev_ID row) (Some request) (Some answer))
            | None =>
                abort "%w: native input request is no longer waiting" if negb (is_none (fb_ExpectedInputID c));
                ret (reply 0 None None)
            end) in
          exec insert_evidence env job.1 stepID written;
          if bool_decide (entry_Phase entry ∈ ["task_incomplete"; "planning_incomplete"]) then
            let* after := replanIncompleteCodingTaskTx c job row in ret (after, stepID)
          else
            exec (if assistant_channel job.2 then calls (fun _ w => o_message others w job "user" (fb_Feedback c)) else ret tt);
            let* s := gets id in
            exec update_step stepID always (fun row => row <| step_Status := StatusRunning |> <| step_Output := "" |>
              <| step_WorkerID := attempt_worker s stepID step |>);
            let* at_ := clock env in
            exec update_job job.1 always (fun row => row <| job_Status := StatusRunning |> <| job_UpdatedAt := at_ |>);
            let* after := scanLockedJobTx job.1 in
            ret (after, stepID)
      end
  end.
Definition applyJobFeedbackTx (c : SubmitJobFeedbackCommand) (job : Job) : tx World (Job * Z) :=
  let* agents := lift (o_agents others (job_Metadata job.2)) in
  if agents : bool then resumeCodingExecutionTx c job else
  abort "%w: native input identity requires an Agents execution request" if negb (is_none (fb_ExpectedInputID c));
  abort "%w: observed %d, current %d" if match fb_ExpectedGeneration c with Some g => g != job_CurrentGeneration job.2 | None => false end;
  abort "%w: job %d status is %q, expected %q" if job_Status job.2 != StatusWaiting;
  let* generation := gets (fun s => generations s !! (job.1, job_CurrentGeneration job.2)) in
  match generation with
  | None => fail "read waiting job %d generation purpose: %w"
  | Some g =>
      abort "%w: %w: job %d generation %d cannot accept generic feedback" if gn_purpose g == jobGenerationPurposeInterrupt;
      abort "%w: job %d generation %d has unregistered purpose %q"
        if negb (bool_decide (gn_purpose g ∈ [jobGenerationPurposeInitial; jobGenerationPurposeReplan]));
      let* admitted := asks (fun _ w => o_admission others w job "follow_up" (fb_Feedback c)) in
      exec lift admitted;
      let* found := gets (select_steps (fun _ step => (step_JobID step == job.1) && (step_Status step == StatusWaiting) && unsuperseded step &&
        (step_Generation step == job_CurrentGeneration job.2))%bool) in
      match head found with
      | None => fail "no rows in result set"
      | Some (stepID, step) =>
          abort "%w: observed %d, current %d" if match fb_ExpectedWaitingAttempt c with Some n => n != step_CurrentAttempt step | None => false end;
          abort "%w: coding plan review accepts only persisted plan decisions, freeze, or same-job replan" if step_Action step == "v3_coding_plan";
          let* changed := update_step stepID always
            (fun row => row <| step_Status := StatusCompleted |> <| step_Output := fb_Feedback c |> <| step_FinishedAt := Some (now env) |>) in
          abort "%w: waiting step %d disappeared" if negb changed;
          let* remaining := gets (open_steps job.1) in
          let* advanced := (if remaining then
              update_job job.1 open_job (fun row => row <| job_Status := StatusRunning |> <| job_UpdatedAt := now env |> <| job_Error := "" |>)
            else update_job job.1 open_job (fun row => row <| job_Status := StatusCompleted |>
              <| job_Result := if fb_Feedback c == "" then job_Result row else fb_Feedback c |> <| job_CompletedAt := Some (now env) |>
              <| job_UpdatedAt := now env |> <| job_Error := "" |>)) in
          abort "%w: job %d did not accept the feedback" if negb advanced;
          let* after := scanLockedJobTx job.1 in
          ret (after, stepID)
      end
  end.
Definition submitJobFeedbackTx (c : SubmitJobFeedbackCommand) (d : lifecycleOperationDescriptor) : tx World LifecycleJobResult :=
  exec lockLifecycleOperationIdentityTx (fb_OperationID c);
  let* job := lockedJobTx (fb_JobID c) in
  exec lift (requireLifecycleWorkspaceAuthority others job (fb_WorkspaceRoot c) (fb_WorkspaceIdentity c));
  let* existing := loadLifecycleOperationTx others d (fb_JobID c) in
  match existing with
  | Some op => exec requireSubmitFeedbackReplayTx op c; ret (mkJobResult (op_ResultJob op) false)
  | None =>
      let* applied := applyJobFeedbackTx c job in
      let* found := gets (fun s => steps s !! applied.2) in
      match found with
      | None => fail "no rows in result set"
      | Some step =>
          abort "no rows in result set" if step_JobID step != applied.1.1;
          exec insertLifecycleOperationTx others d
            (record_operation d (job_CurrentGeneration job.2) (Some applied.2) (Some (step_Status step)) applied.1);
          ret (mkJobResult applied.1 true)
      end
  end.
Definition SubmitJobFeedback (c : SubmitJobFeedbackCommand) (st : State World) : result LifecycleJobResult * State World :=
  match normalizeSubmitFeedbackCommand others c with
  | Err e => (Err e, st)
  | Ok _ => match describeLifecycleOperation (fb_OperationID c) LifecycleSubmitFeedback (PayloadFeedback c) with
    | Err e => (Err e, st)
    | Ok d => transact others (submitJobFeedbackTx c d) st
    end
  end.

End control.
