(* ===== verification/JobFacts.v ===== *)
(** * Reasoning about job transactions

    Partial-correctness triples for the computations of [JobStore], what the statements
    do to the store, and the preorder every operation follows: what is recorded stays. *)
From Stdlib Require Import Ascii.
From S2P Require Import Prelude Schema PathIdentity UserIntent JsonCodec Scrum Jobs JobStore JobCommands JobSteps JobControl.
From stdpp Require Import sorting base tactics strings list gmap numbers pretty.
From stdpp Require Import list options.
Open Scope Z_scope.
Open Scope go_scope.

(** Reads the fields of an assigned row. *)
Ltac row_simpl :=
  cbn [assign set_job_status set_job_result set_job_error set_job_metadata set_job_generation set_job_updated set_job_completed
       set_step_status set_step_worker set_step_output set_step_error set_step_started set_step_finished set_step_superseded set_step_attempt
       set_attempt_status set_attempt_renewed set_attempt_finished set_ledger_state set_ledger_frozen
       set_jobs set_generations set_steps set_attempts set_registry set_operations set_ledgers set_evidence
       job_Instruction job_Pipeline job_Status job_Result job_Error job_Metadata job_CurrentGeneration job_CreatedAt job_UpdatedAt job_CompletedAt
       step_JobID step_Action step_SortIndex step_Status step_WorkerID step_Output step_Error step_StartedAt step_FinishedAt step_Generation
       step_SupersededAtGeneration step_CurrentAttempt
       attempt_JobID attempt_Generation attempt_WorkerID attempt_Status attempt_ClaimedAt attempt_RenewedAt attempt_FinishedAt
       ledger_ID ledger_State ledger_CurrentRevision ledger_FrozenRevision
       jobs generations steps attempts registry operations ledgers evidence] in *.

(** ** Rows *)

Lemma rows_spec {K A} `{Countable K} (p : K -> A -> bool) (m : gmap K A) k x : (k, x) ∈ rows p m <-> m !! k = Some x /\ p k x = true.
Proof. unfold rows. rewrite list_elem_of_filter, elem_of_map_to_list. simpl. tauto. Qed.
Lemma exists_row_spec {K A} `{Countable K} (p : K -> A -> bool) (m : gmap K A) :
  exists_row p m = true <-> exists k x, m !! k = Some x /\ p k x = true.
Proof.
  unfold exists_row. rewrite existsb_exists. split.
  - intros ([k x] & Hin & Hp). exists k, x. rewrite <- elem_of_map_to_list. split; [by apply list_elem_of_In|done].
  - intros (k & x & Hk & Hp). exists (k, x). split; [|done]. apply list_elem_of_In. by apply elem_of_map_to_list.
Qed.
Lemma exists_row_false {K A} `{Countable K} (p : K -> A -> bool) (m : gmap K A) :
  exists_row p m = false <-> forall k x, m !! k = Some x -> p k x = false.
Proof.
  rewrite <- not_true_iff_false, exists_row_spec. split.
  - intros Hn k x Hk. apply not_true_iff_false. intros Hp. apply Hn. eauto.
  - intros Hall (k & x & Hk & Hp). rewrite (Hall _ _ Hk) in Hp. done.
Qed.
#[global] Instance step_order_total : Total step_order.
Proof. intros a b. unfold step_order. lia. Qed.
#[global] Instance step_order_trans : Transitive step_order.
Proof. intros a b c. unfold step_order. lia. Qed.
#[global] Instance id_order_total {A} : Total (@id_order A).
Proof. intros a b. unfold id_order. lia. Qed.
#[global] Instance id_order_trans {A} : Transitive (@id_order A).
Proof. intros a b c. unfold id_order. lia. Qed.
Lemma rows_nodup {K A} `{Countable K} (p : K -> A -> bool) (m : gmap K A) : NoDup (rows p m).*1.
Proof. unfold rows. eapply sublist_NoDup; [apply (NoDup_fst_map_to_list m)|]. apply fmap_sublist, sublist_filter. Qed.
Lemma select_steps_spec p s stepID step : (stepID, step) ∈ select_steps p s <-> steps s !! stepID = Some step /\ p stepID step = true.
Proof. unfold select_steps. by rewrite merge_sort_Permutation, rows_spec. Qed.
Lemma steps_by_id_spec p s stepID step : (stepID, step) ∈ steps_by_id p s <-> steps s !! stepID = Some step /\ p stepID step = true.
Proof. unfold steps_by_id. by rewrite merge_sort_Permutation, rows_spec. Qed.
Lemma steps_by_id_nodup p s : NoDup (steps_by_id p s).*1.
Proof. unfold steps_by_id. rewrite merge_sort_Permutation. apply rows_nodup. Qed.
Lemma select_steps_nodup p s : NoDup (select_steps p s).*1.
Proof. unfold select_steps. rewrite merge_sort_Permutation. apply rows_nodup. Qed.
Lemma jobs_by_id_spec p s jobID job : (jobID, job) ∈ jobs_by_id p s <-> jobs s !! jobID = Some job /\ p jobID job = true.
Proof. unfold jobs_by_id. by rewrite merge_sort_Permutation, rows_spec. Qed.

(** ** Triples *)

Section triples.
Context {World : Type}.
Abbreviation txw := (tx World).
Definition post (A : Type) : Type := A -> Store -> Prop.
Definition runs {A} (P : Store -> Prop) (c : txw A) (Q : post A) : Prop :=
  forall t x t', P (tx_store t) -> c t = Ok (x, t') -> Q x (tx_store t').

Lemma runs_weaken {A} (P P' : Store -> Prop) (c : txw A) (Q Q' : post A) :
  runs P' c Q' -> (forall s, P s -> P' s) -> (forall x s, Q' x s -> Q x s) -> runs P c Q.
Proof. intros H HP HQ t x t' Ht E. eauto. Qed.
Lemma runs_bind {A B} (P : Store -> Prop) (c : txw A) (f : A -> txw B) (Q : post A) (R : post B) :
  runs P c Q -> (forall x, runs (Q x) (f x) R) -> runs P (bind c f) R.
Proof.
  intros Hc Hf t y t' Ht E. unfold bind in E. destruct (c t) as [[x t1]|e] eqn:Ec; [|done].
  eapply Hf; [eapply Hc; eauto|exact E].
Qed.
Lemma runs_ret {A} (x : A) (Q : post A) : runs (Q x) (ret x) Q.
Proof. intros t y t' Ht E. by injection E as <- <-. Qed.
Lemma runs_fail {A} e P (Q : post A) : runs P (fail e : txw A) Q.
Proof. by intros t y t' Ht E. Qed.
Lemma runs_lift {A} (r : result A) P (Q : post A) : (forall x s, r = Ok x -> P s -> Q x s) -> runs P (lift r : txw A) Q.
Proof. intros H t y t' Ht E. unfold lift in E. destruct r as [x|e]; [|done]. injection E as <- <-. eauto. Qed.
Lemma runs_gets {A} (f : Store -> A) P : runs P (gets f : txw A) (fun x s => x = f s /\ P s).
Proof. intros t y t' Ht E. by injection E as <- <-. Qed.
Lemma runs_asks {A} (f : Store -> World -> A) P : runs P (asks f) (fun _ s => P s).
Proof. intros t y t' Ht E. by injection E as <- <-. Qed.
Lemma runs_calls (f : Store -> World -> result World) P : runs P (calls f) (fun _ s => P s).
Proof. intros t y t' Ht E. unfold calls in E. destruct (f _ _); [|done]. by injection E as <- <-. Qed.
Lemma runs_recorded id P : runs P (recorded id : txw unit) (fun _ s => P s).
Proof. intros t y t' Ht E. by injection E as <- <-. Qed.
Lemma runs_put f P (Q : post unit) : (forall s, P s -> Q tt (f s)) -> runs P (put f : txw unit) Q.
Proof. intros H t y t' Ht E. injection E as <- <-. apply H, Ht. Qed.
Lemma runs_abort {A} e (b : bool) (k : txw A) P Q : (b = false -> runs P k Q) -> runs P (if b then fail e else k) Q.
Proof. intros H. destruct b; [apply runs_fail|by apply H]. Qed.
Lemma runs_clock env P : runs P (clock env : txw Z) (fun _ s => P s).
Proof. intros t y t' Ht E. by injection E as <- <-. Qed.
Lemma runs_next_id env P : runs P (next_id env : txw Z) (fun _ s => P s).
Proof. intros t y t' Ht E. by injection E as <- <-. Qed.
Lemma runs_pure {A} (phi : Prop) P (c : txw A) Q : (phi -> runs P c Q) -> runs (fun s => phi /\ P s) c Q.
Proof. intros H t y t' [Hp Ht] E. eapply H; eauto. Qed.
Lemma runs_pre {A} P (c : txw A) Q : (forall s0, P s0 -> runs (fun s => s = s0) c Q) -> runs P c Q.
Proof. intros H t y t' Ht E. eapply H; eauto. Qed.
Lemma runs_each {A} (f : A -> txw unit) l (I : list A -> Store -> Prop) :
  (forall x k, runs (I (x :: k)) (f x) (fun _ => I k)) -> runs (I l) (each f l) (fun _ => I []).
Proof.
  intros H. induction l as [|x l IH]; [exact (runs_ret tt _)|]. cbn [each].
  eapply runs_bind; [apply H|]. intros []. exact IH.
Qed.
Lemma runs_conj {A} P (c : txw A) (Q R : post A) : runs P c Q -> runs P c R -> runs P c (fun x s => Q x s /\ R x s).
Proof. intros H1 H2 t y t' Ht E. split; eauto. Qed.

(** A computation that changes no job table. *)
Definition reads {A} (c : txw A) : Prop := forall t x t', c t = Ok (x, t') -> tx_store t' = tx_store t.
Lemma runs_reads {A} (c : txw A) P : reads c -> runs P c (fun _ s => P s).
Proof. intros H t x t' Ht E. by rewrite (H _ _ _ E). Qed.
Lemma tx_reads_bind {A B} (c : txw A) (f : A -> txw B) : reads c -> (forall x, reads (f x)) -> reads (bind c f).
Proof.
  intros Hc Hf t y t' E. unfold bind in E. destruct (c t) as [[x t1]|e] eqn:Ec; [|done].
  rewrite (Hf _ _ _ _ E). exact (Hc _ _ _ Ec).
Qed.
Lemma tx_reads_ret {A} (x : A) : reads (ret x).
Proof. intros t y t' E. by injection E as <- <-. Qed.
Lemma tx_reads_fail {A} e : reads (fail (A := A) e).
Proof. by intros t y t' E. Qed.
Lemma tx_reads_lift {A} (r : result A) : reads (lift r).
Proof. intros t y t' E. unfold lift in E. destruct r; [|done]. by injection E as <- <-. Qed.
Lemma tx_reads_gets {A} (f : Store -> A) : reads (gets f).
Proof. intros t y t' E. by injection E as <- <-. Qed.
Lemma reads_asks {A} (f : Store -> World -> A) : reads (asks f).
Proof. intros t y t' E. by injection E as <- <-. Qed.
Lemma reads_calls f : reads (calls f).
Proof. intros t y t' E. unfold calls in E. destruct (f _ _); [|done]. by injection E as <- <-. Qed.
Lemma reads_recorded id : reads (recorded id).
Proof. intros t y t' E. by injection E as <- <-. Qed.
Lemma tx_reads_clock env : reads (clock env).
Proof. intros t y t' E. by injection E as <- <-. Qed.
Lemma reads_next_id env : reads (next_id env).
Proof. intros t y t' E. by injection E as <- <-. Qed.

(** A computation that takes the store along a preorder. *)
Definition keeps (R : Store -> Store -> Prop) {A} (c : txw A) : Prop := forall t x t', c t = Ok (x, t') -> R (tx_store t) (tx_store t').
Context (R : Store -> Store -> Prop) `{!PreOrder R}.
Lemma tx_keeps_reads {A} (c : txw A) : reads c -> keeps R c.
Proof using Type*. intros H t x t' E. by rewrite (H _ _ _ E). Qed.
Lemma tx_keeps_bind {A B} (c : txw A) (f : A -> txw B) : keeps R c -> (forall x, keeps R (f x)) -> keeps R (bind c f).
Proof using Type*.
  intros Hc Hf t y t' E. unfold bind in E. destruct (c t) as [[x t1]|e] eqn:Ec; [|done].
  etransitivity; [exact (Hc _ _ _ Ec)|exact (Hf _ _ _ _ E)].
Qed.
Lemma tx_keeps_each {A} (f : A -> txw unit) l : (forall x, keeps R (f x)) -> keeps R (each f l).
Proof using Type*. intros H. induction l as [|x l IH]; [apply tx_keeps_reads, tx_reads_ret|]. cbn [each]. by apply tx_keeps_bind. Qed.
End triples.

Create HintDb jobs.
#[export] Hint Resolve tx_reads_ret tx_reads_fail tx_reads_lift tx_reads_gets reads_asks reads_calls reads_recorded tx_reads_clock reads_next_id : jobs.
(** Proves [reads] by the shape of the computation. *)
Ltac reading :=
  repeat match goal with
  | |- reads (bind _ _) => apply tx_reads_bind; [|intros ?]
  | |- reads (if ?b then _ else _) => destruct b
  | |- reads (match ?x with _ => _ end) => destruct x
  | |- reads (let _ := _ in _) => cbv zeta
  end; auto with jobs.

Section reading.
Context {World : Type} (env : Env) (others : Others World).
Lemma tx_reads_scan jobID : reads (scanLockedJobTx (World := World) jobID).
Proof. unfold scanLockedJobTx. reading. Qed.
Lemma reads_locked jobID : reads (lockedJobTx (World := World) jobID).
Proof. apply tx_reads_scan. Qed.
Lemma reads_lock_authority a : reads (lockStepAttemptAuthorityTx (World := World) a).
Proof. unfold lockStepAttemptAuthorityTx. reading. Qed.
Lemma reads_require_active locked : reads (requireLockedStepAttemptActiveTx (World := World) env locked).
Proof. unfold requireLockedStepAttemptActiveTx. reading. Qed.
#[local] Hint Resolve tx_reads_scan reads_locked reads_lock_authority reads_require_active : jobs.
Lemma reads_active a : reads (requireActiveStepAttemptTx (World := World) env a).
Proof. unfold requireActiveStepAttemptTx. reading. Qed.
Lemma reads_native a : reads (codingNativeInputWaitingTx (World := World) a).
Proof. unfold codingNativeInputWaitingTx. reading. Qed.
Lemma reads_lock_identity id : reads (lockLifecycleOperationIdentityTx (World := World) id).
Proof. unfold lockLifecycleOperationIdentityTx. reading. Qed.
Lemma reads_generation j g : reads (requireLifecycleGenerationExistsTx (World := World) j g).
Proof. unfold requireLifecycleGenerationExistsTx. reading. Qed.
Lemma reads_step op id want o e : reads (requireLifecycleStepTx (World := World) op id want o e).
Proof. unfold requireLifecycleStepTx. reading. Qed.
Lemma reads_tail_canceled op c : reads (requireTerminalObjectiveCodingTailCanceledTx (World := World) op c).
Proof. unfold requireTerminalObjectiveCodingTailCanceledTx. reading. Qed.
#[local] Hint Resolve reads_generation reads_step reads_tail_canceled : jobs.
Lemma reads_complete_replay op c : reads (requireCompleteStepReplayTx (World := World) op c).
Proof. unfold requireCompleteStepReplayTx. reading. Qed.
Lemma reads_fail_replay op c : reads (requireFailStepReplayTx (World := World) op c).
Proof. unfold requireFailStepReplayTx. reading. Qed.
Lemma reads_execution_reply j st g id x : reads (requireCodingExecutionReplyTx (World := World) j st g id x).
Proof. unfold requireCodingExecutionReplyTx. reading. Qed.
#[local] Hint Resolve reads_execution_reply : jobs.
Lemma reads_feedback_replay op c : reads (requireSubmitFeedbackReplayTx (World := World) op c).
Proof. unfold requireSubmitFeedbackReplayTx. reading. Qed.
Lemma reads_cutover_replay op c k p st : reads (requireGenerationCutoverReplayTx (World := World) op c k p st).
Proof. unfold requireGenerationCutoverReplayTx. reading. Qed.
#[local] Hint Resolve reads_cutover_replay : jobs.
Lemma reads_replan_replay op c : reads (requireReplanReplayTx (World := World) op c).
Proof. unfold requireReplanReplayTx. reading. Qed.
Lemma reads_interrupt_replay op c : reads (requireInterruptReplayTx (World := World) op c).
Proof. unfold requireInterruptReplayTx. reading. Qed.
Lemma reads_cancel_replay op c j : reads (requireCancelJobReplayTx (World := World) op c j).
Proof. unfold requireCancelJobReplayTx. reading. Qed.
Lemma reads_canonical_steps job : reads (canonicalReplanStepsTx others job).
Proof. unfold canonicalReplanStepsTx. reading. Qed.
Lemma reads_current_generation j : reads (lockCurrentJobGenerationTx (World := World) j).
Proof. unfold lockCurrentJobGenerationTx. reading. Qed.
Lemma reads_generation_record j g : reads (lockGenerationRecordTx (World := World) j g).
Proof. unfold lockGenerationRecordTx. reading. Qed.
Lemma reads_response j st g : reads (codingExecutionResponseTx (World := World) j st g).
Proof. unfold codingExecutionResponseTx. reading. Qed.
Lemma reads_recovery job : reads (codingRecoveryStepTx (World := World) job).
Proof. unfold codingRecoveryStepTx. reading. Qed.
Lemma tx_reads_running e a : reads (running_attempt (World := World) env e a).
Proof. unfold running_attempt. pose proof reads_active. reading. Qed.
End reading.
#[export] Hint Resolve tx_reads_scan reads_locked reads_lock_authority reads_require_active reads_active reads_native reads_lock_identity reads_generation
  reads_step reads_tail_canceled reads_complete_replay reads_fail_replay reads_execution_reply reads_feedback_replay reads_cutover_replay
  reads_replan_replay reads_interrupt_replay reads_cancel_replay reads_canonical_steps reads_current_generation reads_generation_record
  reads_response reads_recovery tx_reads_running : jobs.

(** ** What stays *)

Lemma is_none_true {A} (x : option A) : is_none x = true <-> x = None.
Proof. by destruct x. Qed.
Lemma some_is_none {A} (x : option A) : is_none x = false <-> is_Some x.
Proof. destruct x; split; [by eauto|done|done|by intros []]. Qed.
(** Turns the boolean guards of the statements into propositions. *)
Ltac guards :=
  repeat match goal with
  | H : (_ && _)%bool = true |- _ => apply andb_prop in H; destruct H
  | H : (_ || _)%bool = false |- _ => apply orb_false_elim in H; destruct H
  | H : negb _ = true |- _ => apply negb_true_iff in H
  | H : negb _ = false |- _ => apply negb_false_iff in H
  | H : bool_decide _ = true |- _ => apply bool_decide_eq_true in H
  | H : bool_decide _ = false |- _ => apply bool_decide_eq_false in H
  | H : is_none _ = true |- _ => apply is_none_true in H
  | H : is_none _ = false |- _ => apply some_is_none in H
  | H : (_ <? _) = true |- _ => apply Z.ltb_lt in H
  | H : (_ <? _) = false |- _ => apply Z.ltb_ge in H
  | H : (_ <=? _) = true |- _ => apply Z.leb_le in H
  | H : (_ <=? _) = false |- _ => apply Z.leb_gt in H
  end.

Record attempt_kept (a a' : AttemptRow) : Prop := {
  ak_job : attempt_JobID a' = attempt_JobID a; ak_generation : attempt_Generation a' = attempt_Generation a;
  ak_worker : attempt_WorkerID a' = attempt_WorkerID a; ak_claimed : attempt_ClaimedAt a' = attempt_ClaimedAt a;
  ak_renewed : attempt_RenewedAt a <= attempt_RenewedAt a'; ak_ended : active a = false -> a' = a
}.
Record step_kept (x x' : StepRow) : Prop := {
  sk_job : step_JobID x' = step_JobID x; sk_generation : step_Generation x' = step_Generation x;
  sk_action : step_Action x' = step_Action x; sk_superseded : unsuperseded x = false -> x' = x
}.
Record job_kept (x x' : JobRow) : Prop := {
  jk_pipeline : job_Pipeline x' = job_Pipeline x; jk_generation : job_CurrentGeneration x <= job_CurrentGeneration x';
  jk_ended : job_Status x = StatusCompleted \/ job_Status x = StatusCanceled -> terminalJobStatus (job_Status x') = true
}.
#[global] Instance attempt_kept_preorder : PreOrder attempt_kept.
Proof.
  split; [intros a; by constructor|]. intros a b c [] []. constructor; try congruence; [lia|].
  intros H. rewrite ak_ended1; [auto|]. by rewrite ak_ended0.
Qed.
#[global] Instance step_kept_preorder : PreOrder step_kept.
Proof.
  split; [intros a; by constructor|]. intros a b c [] []. constructor; try congruence.
  intros H. rewrite sk_superseded1; [auto|]. by rewrite sk_superseded0.
Qed.
(** Rows stay, changed along a preorder at most. *)
Definition rows_kept {K A} `{Countable K} (R : A -> A -> Prop) (m m' : gmap K A) : Prop :=
  forall k x, m !! k = Some x -> exists x', m' !! k = Some x' /\ R x x'.
#[global] Instance rows_kept_preorder {K A} `{Countable K} (R : A -> A -> Prop) `{!PreOrder R} : PreOrder (rows_kept (K := K) R).
Proof.
  split; [intros m k x Hk; by exists x|]. intros m1 m2 m3 H1 H2 k x Hk.
  destruct (H1 _ _ Hk) as (y & Hy & Ry). destruct (H2 _ _ Hy) as (z & Hz & Rz). exists z. split; [done|by etransitivity].
Qed.
Lemma rows_kept_update {K A} `{Countable K} (R : A -> A -> Prop) `{!PreOrder R} (m : gmap K A) k x x' :
  m !! k = Some x -> R x x' -> rows_kept R m (<[k := x']> m).
Proof.
  intros Hk Hx i y Hi. destruct (decide (i = k)) as [->|Hn].
  - exists x'. rewrite lookup_insert_eq. simplify_eq. done.
  - exists y. rewrite lookup_insert_ne by done. done.
Qed.
Lemma rows_kept_insert {K A} `{Countable K} (R : A -> A -> Prop) `{!PreOrder R} (m : gmap K A) k x' :
  m !! k = None -> rows_kept R m (<[k := x']> m).
Proof. intros Hk i y Hi. exists y. rewrite lookup_insert_ne; [done|]. intros ->. by simplify_eq. Qed.

(** Nothing that is recorded is lost or rewritten: attempts that ended, superseded
    steps, generations, registered identities and recorded operations. *)
Record preserved (s s' : Store) : Prop := {
  pr_attempts : rows_kept attempt_kept (attempts s) (attempts s'); pr_steps : rows_kept step_kept (steps s) (steps s');
  pr_generations : rows_kept eq (generations s) (generations s'); pr_registry : rows_kept eq (registry s) (registry s');
  pr_operations : rows_kept eq (operations s) (operations s');
  pr_recorded : forall id op, operations s' !! id = Some op -> operations s !! id = Some op \/ is_Some (registry s' !! id);
  pr_checked : forall key a, attempts s' !! key = Some a -> attempts s !! key = Some a \/ attempt_constraints key a = true
}.
#[global] Instance preserved_preorder : PreOrder preserved.
Proof.
  split; [intros s; constructor; auto; reflexivity|]. intros s1 s2 s3 H1 H2. constructor; try (destruct H1, H2; by etransitivity).
  - intros id op Ho. destruct (pr_recorded _ _ H2 _ _ Ho) as [Ho2|]; [|auto].
    destruct (pr_recorded _ _ H1 _ _ Ho2) as [|[e He]]; [auto|right]. destruct (pr_registry _ _ H2 _ _ He) as (e' & He' & _). eauto.
  - intros key a Ha. destruct (pr_checked _ _ H2 _ _ Ha) as [Ha2|]; [|auto]. apply (pr_checked _ _ H1 _ _ Ha2).
Qed.
Ltac preserving := constructor; first [done|by auto|idtac].

Section keeping.
Context {World : Type} (env : Env) (others : Others World).
Abbreviation kept c := (keeps (World := World) preserved c).

Lemma kept_reads {A} (c : tx World A) : reads c -> kept c.
Proof. apply tx_keeps_reads, _. Qed.
Lemma kept_bind {A B} (c : tx World A) (f : A -> tx World B) : kept c -> (forall x, kept (f x)) -> kept (bind c f).
Proof. apply tx_keeps_bind, _. Qed.
Lemma kept_put f : (forall s, preserved s (f s)) -> kept (put f).
Proof. intros H t x t' E. injection E as <- <-. apply H. Qed.
(** A statement that reads the store, checks and writes. *)
Lemma kept_statement {A} (f : Store -> tx World A) : (forall t x t', f (tx_store t) t = Ok (x, t') -> preserved (tx_store t) (tx_store t')) -> kept (bind (gets id) f).
Proof. intros H t x t' E. exact (H _ _ _ E). Qed.
Ltac statement :=
  apply kept_statement; intros t out t' E;
  repeat match type of E with
  | (match ?m with _ => _ end) _ = Ok _ => destruct m eqn:?; try discriminate E
  | (match ?m with _ => _ end) = Ok _ => destruct m eqn:?; try discriminate E
  end.

Lemma kept_update_job j p set : kept (update_job j p set).
Proof. unfold update_job. statement; injection E as <- <-; by preserving. Qed.
Lemma kept_insert_job job : kept (insert_job env job).
Proof.
  unfold insert_job. apply kept_bind; [apply kept_reads; auto with jobs|]. intros j.
  statement. injection E as <- <-. by preserving.
Qed.
Lemma kept_insert_generation j g x : kept (insert_generation j g x).
Proof.
  unfold insert_generation. statement. injection E as <- <-. guards. preserving. row_simpl. by apply rows_kept_insert; [apply _|].
Qed.
Lemma step_change_kept s id old new : step_change_allowed s id old new = true -> step_kept old new.
Proof. unfold step_change_allowed. intros H. guards. constructor; [congruence..|]. intros. congruence. Qed.
Lemma kept_update_step id p set : kept (update_step id p set).
Proof.
  unfold update_step. statement; injection E as <- <-; [|done|done]. guards. preserving. row_simpl.
  eapply rows_kept_update; [apply _|done|]. by eapply step_change_kept.
Qed.
Lemma kept_insert_step step : kept (insert_step env step).
Proof.
  unfold insert_step. apply kept_bind; [apply kept_reads; auto with jobs|]. intros j. statement. injection E as <- <-. guards.
  preserving. row_simpl. apply rows_kept_insert; [apply _|].
  apply eq_None_not_Some. intros [x Hx]. match goal with H : exists_row _ _ = false |- _ => pose proof (proj1 (exists_row_false _ _) H _ _ Hx) as Hle end.
  simpl in Hle. guards. lia.
Qed.
Lemma kept_each {A} (f : A -> tx World unit) l : (forall x, kept (f x)) -> kept (each f l).
Proof. apply tx_keeps_each, _. Qed.
Lemma kept_update_steps p set : kept (update_steps p set).
Proof.
  unfold update_steps. apply kept_bind; [apply kept_reads; auto with jobs|]. intros l.
  apply kept_bind; [|intros; apply kept_reads; auto with jobs].
  apply kept_each. intros x. apply kept_bind; [apply kept_update_step|intros; apply kept_reads; auto with jobs].
Qed.
Lemma kept_insert_attempt id n a : kept (insert_attempt id n a).
Proof.
  unfold insert_attempt. statement. injection E as <- <-. guards. preserving; row_simpl; [by apply rows_kept_insert; [apply _|]|].
  intros key b Hb. simpl in Hb. apply lookup_insert_Some in Hb as [(<- & <-)|(_ & Hb)]; auto.
Qed.
Lemma attempt_change_kept old new : attempt_change_allowed old new = true -> attempt_kept old new.
Proof.
  unfold attempt_change_allowed. intros H. guards. constructor; try congruence.
  destruct (active new); guards; lia.
Qed.
Lemma kept_update_attempt j g id n status p set : kept (update_attempt others j g id n status p set).
Proof.
  unfold update_attempt. statement; try (injection E as <- <-; done). guards.
  assert (preserved (tx_store t) (tx_store t <| attempts := <[(id, n) := set a]> (attempts (tx_store t)) |>)) as Hp.
  { preserving; row_simpl; [eapply rows_kept_update; [apply _|done|]; by eapply attempt_change_kept|].
    intros key b [(<- & <-)|(_ & Hb)]%lookup_insert_Some; auto. }
  destruct status; unfold bind, calls, ret, put in E; simpl in E; [destruct (o_outcomes _ _ _ _ _ _); [|done]|]; by injection E as <- <-.
Qed.
Lemma kept_update_ledger j p set : kept (update_ledger j p set).
Proof. unfold update_ledger. statement; injection E as <- <-; by preserving. Qed.
Lemma kept_insert_evidence j id e : kept (insert_evidence env j id e).
Proof.
  unfold insert_evidence. apply kept_bind; [apply kept_reads; auto with jobs|]. intros x. statement. injection E as <- <-. by preserving.
Qed.
Lemma kept_reserve d : kept (reserveLifecycleOperationIdentityTx others d).
Proof.
  unfold reserveLifecycleOperationIdentityTx. apply kept_bind; [apply kept_reads; auto with jobs|]. intros [].
  apply kept_bind; [apply kept_reads; auto with jobs|]. intros []; [by intros ???|].
  intros t x t' E. unfold bind, gets in E. simpl in E. destruct (registry (tx_store t) !! ds_ID d) eqn:Er.
  - destruct (p != _); [done|]. by injection E as <- <-.
  - injection E as <- <-. preserving. row_simpl. by apply rows_kept_insert; [apply _|].
Qed.
End keeping.
#[export] Hint Resolve kept_update_job kept_insert_job kept_insert_generation kept_update_step kept_insert_step kept_update_steps kept_insert_attempt
  kept_update_attempt kept_update_ledger kept_insert_evidence kept_reserve : jobs.
(** Proves [keeps preserved] by the shape of the computation. *)
Ltac keeping :=
  repeat match goal with
  | |- keeps _ (bind _ _) => apply kept_bind; [|intros ?]
  | |- keeps _ (each _ _) => apply kept_each; intros ?
  | |- keeps _ (if ?b then _ else _) => destruct b
  | |- keeps _ (match ?x with _ => _ end) => destruct x
  | |- keeps _ (let _ := _ in _) => cbv zeta
  end; first [solve [auto with jobs] | solve [apply kept_reads; reading] | idtac].

Section operations.
Context {World : Type} (env : Env) (others : Others World).
Abbreviation kept c := (keeps (World := World) preserved c).
Lemma kept_load d j : kept (loadLifecycleOperationTx others d j).
Proof. unfold loadLifecycleOperationTx. keeping. Qed.
#[local] Hint Resolve kept_load : jobs.
Lemma kept_insert_operation d op : kept (insertLifecycleOperationTx others d op).
Proof.
  unfold insertLifecycleOperationTx. intros t x t' E. unfold bind, gets in E. simpl in E.
  destruct (operations (tx_store t) !! ds_ID d) eqn:Eo.
  - revert E. apply (kept_bind (loadLifecycleOperationTx others d (op_JobID op)) (fun _ => ret tt)); [auto with jobs|]. intros. apply kept_reads. auto with jobs.
  - do 3 (destruct (negb _); [done|]). destruct (negb (operation_keys _ _ _)) eqn:Hkey; [done|]. apply negb_false_iff in Hkey.
    injection E as <- <-. preserving; row_simpl; [by apply rows_kept_insert; [apply _|]|].
    intros id o Ho. simpl in Ho. destruct (decide (id = ds_ID d)) as [->|Hn]; [right|left; rewrite lookup_insert_ne in Ho by done; done].
    simpl. unfold operation_keys in Hkey. destruct (registry (tx_store t) !! ds_ID d); [by eexists|done].
Qed.
#[local] Hint Resolve kept_insert_operation : jobs.
Lemma kept_terminalize a x : kept (terminalizeStepAttemptTx env others a x).
Proof. unfold terminalizeStepAttemptTx. keeping. Qed.
Lemma kept_terminalize_all j g l x : kept (terminalizeStepAttemptsForAuthorityChangeTx env others j g l x).
Proof. unfold terminalizeStepAttemptsForAuthorityChangeTx, terminalize_attempt_of. keeping. Qed.
Lemma kept_revise j : kept (reviseCodingAuthorityTx j).
Proof. unfold reviseCodingAuthorityTx. keeping. Qed.
Lemma kept_cancel_ledger j a b : kept (cancelCodingAuthorityTx others j a b).
Proof. unfold cancelCodingAuthorityTx. keeping. Qed.
#[local] Hint Resolve kept_terminalize kept_terminalize_all kept_revise kept_cancel_ledger : jobs.
Lemma kept_enqueue i p m l : kept (enqueueJobWithStepsTx env i p m l).
Proof. unfold enqueueJobWithStepsTx. keeping. Qed.
Lemma kept_claim w : kept (claimTx env others w).
Proof. unfold claimTx, expire_previous. keeping. Qed.
Lemma kept_renew a : kept (renewTx env others a).
Proof. unfold renewTx. keeping. Qed.
Lemma kept_agent_completion job id : kept (requireCodingAgentCompletionTx others job id).
Proof. unfold requireCodingAgentCompletionTx, materializeCodingTaskLedgerCompletionTx. keeping. Qed.
Lemma kept_tail job c : kept (cancelTerminalObjectiveCodingTailTx env job c).
Proof. unfold cancelTerminalObjectiveCodingTailTx. keeping. Qed.
Lemma kept_complete_job job c : kept (complete_job env others job c).
Proof. unfold complete_job. keeping. Qed.
#[local] Hint Resolve kept_agent_completion kept_tail kept_complete_job : jobs.
Lemma kept_complete c d e : kept (completeStep env others c d e).
Proof. unfold completeStep. keeping. Qed.
Lemma kept_fail c d : kept (failStep env others c d).
Proof. unfold failStep. keeping. Qed.
Lemma kept_review j l r : kept (completeCodingLedgerReviewTx env j l r).
Proof. unfold completeCodingLedgerReviewTx. keeping. Qed.
Lemma kept_cutover job : kept (begin_cutover env others job).
Proof. unfold begin_cutover. keeping. Qed.
Lemma kept_retire j l g : kept (retireReplanTailTx env j l g).
Proof. unfold retireReplanTailTx. keeping. Qed.
Lemma kept_interrupted_tail j g b : kept (insertInterruptedTailTx env j g b).
Proof. unfold insertInterruptedTailTx. keeping. Qed.
Lemma kept_replan_tail j g l : kept (insertReplanTailTx env j g l).
Proof. unfold insertReplanTailTx. keeping. Qed.
Lemma kept_pause job d : kept (pauseFrozenCodingTx env others job d).
Proof. unfold pauseFrozenCodingTx, pause_attempt. keeping. Qed.
#[local] Hint Resolve kept_cutover kept_retire kept_interrupted_tail kept_replan_tail kept_pause : jobs.
Lemma kept_interrupt c d : kept (interruptJobTx env others c d).
Proof. unfold interruptJobTx, create_generation, advanceInterruptedJobTx. keeping. Qed.
Lemma kept_replan c d : kept (replanJobTx env others c d).
Proof. unfold replanJobTx, applyReplanJobTx, create_generation, advanceReplannedJobTx. keeping. Qed.
Lemma kept_resume c : kept (resumeJobTx env others c).
Proof. unfold resumeJobTx, resumeFrozenCodingTx, recoverApprovedPlanningBoundaryTx. keeping. Qed.
Lemma kept_cancel c : kept (cancelJobTx env others c).
Proof. unfold cancelJobTx, applyJobCancellationTx. keeping. Qed.
#[local] Hint Resolve kept_replan : jobs.
Lemma kept_feedback c d : kept (submitJobFeedbackTx env others c d).
Proof. unfold submitJobFeedbackTx, applyJobFeedbackTx, resumeCodingExecutionTx, replanIncompleteCodingTaskTx. keeping. Qed.
End operations.
#[export] Hint Resolve kept_load kept_insert_operation kept_terminalize kept_terminalize_all kept_revise kept_cancel_ledger kept_enqueue kept_claim kept_renew
  kept_agent_completion kept_tail kept_complete_job kept_complete kept_fail kept_review kept_cutover kept_retire kept_interrupted_tail kept_replan_tail
  kept_pause kept_interrupt kept_replan kept_resume kept_cancel kept_feedback : jobs.
