(* ===== verification/JobReach.v ===== *)
(** * The life of jobs

    The calls of the job queue as steps of one database, with the changes other
    components make in between, and the states they reach.  What the lock of an attempt's
    authority establishes; an attempt that ended, or whose lease ran out, does nothing any
    more; a recorded command does nothing again. *)
From Stdlib Require Import Ascii.
From S2P Require Import Prelude Schema PathIdentity UserIntent JsonCodec Scrum Jobs JobStore JobCommands JobSteps JobControl JobFacts.
From stdpp Require Import sorting base tactics strings list gmap numbers pretty.
From stdpp Require Import list options.
Open Scope Z_scope.
Open Scope go_scope.

(** ** Calls and states *)

(** A call of the queue.  Jobs are admitted with the steps of their pipeline. *)
Inductive Operation :=
| OpEnqueue (objective : bool) (instruction pipeline : string) (metadata : value)
| OpClaim (workerID : string) | OpRequire (a : StepAttemptAuthority) | OpRenew (a : StepAttemptAuthority)
| OpComplete (c : CompleteStepCommand) | OpCompleteEvidence (c : CompleteStepCommand) (payloads : list string) | OpFail (c : FailStepCommand)
| OpWait (a : StepAttemptAuthority) (taskID : string) | OpWaitNative (a : StepAttemptAuthority) (request : value) (callID : Z) (taskID : string)
| OpReviewReady (a : StepAttemptAuthority) (ledgerID revision : Z) | OpReviewDone (jobID ledgerID revision : Z)
| OpInterrupt (c : ReplanJobCommand) | OpReplan (c : ReplanJobCommand) | OpResume (c : ResumeJobCommand) | OpCancel (c : CancelJobCommand)
| OpFeedback (c : SubmitJobFeedbackCommand).

Definition pipeline_steps (objective : bool) : list stepSeed := if objective then conversationObjectiveSteps else codingSteps.
(** The outcome of a call without its result. *)
Definition outcome {A World} (out : result A * State World) : result unit * State World := (match out.1 with Ok _ => Ok tt | Err e => Err e end, out.2).
Definition perform {World} (env : Env) (others : Others World) (op : Operation) (st : State World) : result unit * State World :=
  match op with
  | OpEnqueue objective instruction pipeline metadata => outcome (EnqueueJob env others instruction pipeline metadata (pipeline_steps objective) st)
  | OpClaim workerID => outcome (ClaimNextStep env others workerID st)
  | OpRequire a => RequireActiveStepAttempt env others a st
  | OpRenew a => outcome (RenewStepAttempt env others a st)
  | OpComplete c => CompleteStep env others c st
  | OpCompleteEvidence c payloads => CompleteStepWithEvidence env others c payloads st
  | OpFail c => FailStep env others c st
  | OpWait a taskID => WaitForCodingExecutionInput env others a taskID st
  | OpWaitNative a request callID taskID => outcome (WaitForCodingNativeInput env others a request callID taskID st)
  | OpReviewReady a ledgerID revision => MarkCodingLedgerReviewReady env others a ledgerID revision st
  | OpReviewDone jobID ledgerID revision => CompleteCodingLedgerReview env others jobID ledgerID revision st
  | OpInterrupt c => outcome (InterruptJob env others c st)
  | OpReplan c => outcome (ReplanJob env others c st)
  | OpResume c => outcome (ResumeJob env others c st)
  | OpCancel c => outcome (CancelJob env others c st)
  | OpFeedback c => outcome (SubmitJobFeedback env others c st)
  end.

(** What other components do to the tables of jobs: they revise the planning ledger,
    append evidence and register their own identities. *)
Definition job_kind (kind : LifecycleOperationKind) : bool :=
  bool_decide (kind ∈ [LifecycleCompleteStep; LifecycleFailStep; LifecycleSubmitFeedback; LifecycleResumeJob; LifecycleInterruptJob; LifecycleReplanJob; LifecycleCancelJob]).
Record foreign (s s' : Store) : Prop := {
  fo_jobs : jobs s' = jobs s; fo_generations : generations s' = generations s; fo_steps : steps s' = steps s; fo_attempts : attempts s' = attempts s;
  fo_operations : operations s' = operations s; fo_registry : rows_kept eq (registry s) (registry s');
  fo_registered : forall id e, registry s' !! id = Some e -> registry s !! id = Some e \/ job_kind e.1 = false
}.
Inductive step {World} : State World -> State World -> Prop :=
| step_call env others op st : step st (perform env others op st).2
| step_foreign s s' w w' : foreign s s' -> step (s, w) (s', w').
Definition steps_to {World} : State World -> State World -> Prop := rtc step.
Definition reachable {World} (st : State World) : Prop := exists w, steps_to (empty_store, w) st.

Section reach.
Context {World : Type}.
Implicit Types st : State World.

(** A call that fails, or that returns without a commit, changes nothing. *)
Lemma transact_cases {A} others (c : tx World A) st r st' :
  transact others c st = (r, st') -> (exists e, r = Err e /\ st' = st) \/
  exists x t', r = Ok x /\ c (mkTx st.1 st.2 0 0 []) = Ok (x, t') /\ st' = (tx_store t', tx_world t') /\ commit_allowed others t' = true.
Proof.
  unfold transact. destruct (c _) as [[x t']|e] eqn:E; [|intros [= <- <-]; left; eauto].
  destruct (commit_allowed others t') eqn:Ec; intros [= <- <-]; [right; eauto 6|left; eauto].
Qed.
Lemma transact_or_cases {A} others (c : tx World (A + A)) st r st' :
  transact_or others c st = (r, st') -> (exists e, r = Err e /\ st' = st) \/ (exists x t', r = Ok x /\ c (mkTx st.1 st.2 0 0 []) = Ok (inr x, t') /\ st' = st) \/
  exists x t', r = Ok x /\ c (mkTx st.1 st.2 0 0 []) = Ok (inl x, t') /\ st' = (tx_store t', tx_world t') /\ commit_allowed others t' = true.
Proof.
  unfold transact_or. destruct (c _) as [[[x|x] t']|e] eqn:E; [| |intros [= <- <-]; left; eauto].
  - destruct (commit_allowed others t') eqn:Ec; intros [= <- <-]; [right; right; eauto 6|left; eauto].
  - intros [= <- <-]. right. left. eauto.
Qed.
Lemma deliver_state {A} env (deadline : A -> Z) e (out : result (option A) * State World) : (deliver env deadline e out).2 = out.2.
Proof. destruct out as [[[x|]|] st]; simpl; [by destruct (_ <=? 0)|done..]. Qed.
Lemma outcome_state {A} (out : result A * State World) : (outcome out).2 = out.2.
Proof. done. Qed.

(** A property of stores that every transaction keeps holds after every call. *)
Section invariant.
Context (R : Store -> Store -> Prop) `{!Reflexive R}.
Lemma transact_keeps {A} others (c : tx World A) st : keeps R c -> R st.1 (transact others c st).2.1.
Proof using Type*.
  intros Hc. destruct (transact others c st) as [r st'] eqn:E.
  apply transact_cases in E as [(e & _ & ->)|(x & t' & _ & E & -> & _)]; [done|]. exact (Hc _ _ _ E).
Qed.
Lemma transact_or_keeps {A} others (c : tx World (A + A)) st :
  (forall t x t', c t = Ok (inl x, t') -> R (tx_store t) (tx_store t')) -> R st.1 (transact_or others c st).2.1.
Proof using Type*.
  intros Hc. destruct (transact_or others c st) as [r st'] eqn:E.
  apply transact_or_cases in E as [(e & _ & ->)|[(x & t' & _ & _ & ->)|(x & t' & _ & E & -> & _)]]; [done..|]. exact (Hc _ _ _ E).
Qed.
End invariant.

Lemma kept_complete_describe env others c d e st : preserved st.1 (transact_or others (completeStep env others c d e) st).2.1.
Proof. apply transact_or_keeps; [apply _|]. intros t x t' E. exact (kept_complete env others c d e _ _ _ E). Qed.
Lemma perform_preserved env others op st : preserved st.1 (perform env others op st).2.1.
Proof.
  destruct op; unfold perform; rewrite ?outcome_state.
  - unfold EnqueueJob. apply transact_keeps; [apply _|auto with jobs].
  - unfold ClaimNextStep. destruct (exact_worker workerID); [|done]. rewrite deliver_state.
    apply transact_or_keeps; [apply _|]. intros t x t' E. exact (kept_claim env others workerID _ _ _ E).
  - unfold RequireActiveStepAttempt. apply transact_keeps; [apply _|]. keeping.
  - unfold RenewStepAttempt. rewrite deliver_state. apply transact_keeps; [apply _|auto with jobs].
  - unfold CompleteStep. destruct (normalizeCompleteStepCommand others c) as [c'|]; [|done].
    destruct (describeLifecycleOperation _ _ _); [apply kept_complete_describe|done].
  - unfold CompleteStepWithEvidence. destruct (normalizeCompleteStepCommand others c) as [c'|]; [|done]. destruct (_ != _); [done|].
    destruct (describeLifecycleOperation _ _ _); [apply kept_complete_describe|done].
  - unfold FailStep. destruct (normalizeFailStepCommand c) as [c'|]; [|done].
    destruct (describeLifecycleOperation _ _ _); [|done]. apply transact_or_keeps; [apply _|]. intros t x t' E. exact (kept_fail env others c' _ _ _ _ E).
  - unfold WaitForCodingExecutionInput. apply transact_keeps; [apply _|]. keeping.
  - unfold WaitForCodingNativeInput. apply transact_keeps; [apply _|]. keeping.
  - unfold MarkCodingLedgerReviewReady. destruct (_ || _)%bool; [done|]. apply transact_keeps; [apply _|]. keeping.
  - unfold CompleteCodingLedgerReview. destruct (_ || _ || _)%bool; [done|]. apply transact_keeps; [apply _|auto with jobs].
  - unfold InterruptJob. destruct (normalizeInterruptJobCommand others c); [|done]. destruct (describeLifecycleOperation _ _ _); [|done].
    apply transact_keeps; [apply _|auto with jobs].
  - unfold ReplanJob. destruct (normalizeReplanJobCommand others c); [|done]. destruct (describeLifecycleOperation _ _ _); [|done].
    apply transact_keeps; [apply _|auto with jobs].
  - unfold ResumeJob. apply transact_keeps; [apply _|auto with jobs].
  - unfold CancelJob. apply transact_keeps; [apply _|]. keeping.
  - unfold SubmitJobFeedback. destruct (normalizeSubmitFeedbackCommand others c); [|done]. destruct (describeLifecycleOperation _ _ _); [|done].
    apply transact_keeps; [apply _|auto with jobs].
Qed.
Lemma foreign_preserved s s' : foreign s s' -> preserved s s'.
Proof. intros []. constructor; rewrite ?fo_attempts0, ?fo_steps0, ?fo_generations0, ?fo_operations0; try done; auto. Qed.
Lemma step_preserved st st' : step st st' -> preserved st.1 st'.1.
Proof. intros [env others op st0|s s' w w' H]; [apply perform_preserved|by apply foreign_preserved]. Qed.
Lemma steps_preserved st st' : steps_to st st' -> preserved st.1 st'.1.
Proof. induction 1 as [|st1 st2 st3 H _ IH]; [done|]. etransitivity; [by apply step_preserved|exact IH]. Qed.
End reach.

(** ** Authority of an attempt *)

(** ** Following a transaction *)

Lemma tx_bind_ok {World A B} (c : tx World A) (f : A -> tx World B) t y t' :
  bind c f t = Ok (y, t') <-> exists x t1, c t = Ok (x, t1) /\ f x t1 = Ok (y, t').
Proof.
  unfold bind. split.
  - destruct (c t) as [[x t1]|e]; [|done]. intros H. by exists x, t1.
  - intros (x & t1 & -> & H). done.
Qed.
Lemma tx_lift_ok {World A} (r : result A) (t : Tx World) x t' : lift r t = Ok (x, t') <-> r = Ok x /\ t' = t.
Proof. unfold lift. destruct r; split; [intros [= -> ->]; done|intros [[= ->] ->]; done|done|by intros []]. Qed.
Lemma gets_ok {World A} (f : Store -> A) (t : Tx World) x t' : gets f t = Ok (x, t') <-> x = f (tx_store t) /\ t' = t.
Proof. unfold gets. split; [by intros [= <- <-]|by intros [-> ->]]. Qed.
Lemma ret_ok {World A} (y : A) (t : Tx World) x t' : ret y t = Ok (x, t') <-> x = y /\ t' = t.
Proof. unfold ret. split; [by intros [= <- <-]|by intros [-> ->]]. Qed.
(** Follows a computation that returned, binding by binding and guard by guard. *)
Ltac follow E :=
  repeat match type of E with
  | bind (lift _) _ _ = Ok _ => apply tx_bind_ok in E as (? & ? & [? ->]%tx_lift_ok & E)
  | bind (gets _) _ _ = Ok _ => apply tx_bind_ok in E as (? & ? & [-> ->]%gets_ok & E); cbv beta in E
  | (if ?b then fail _ else _) _ = Ok _ => destruct b eqn:?; [discriminate E|]
  | fail _ _ = Ok _ => discriminate E
  | ret _ _ = Ok _ => apply ret_ok in E as [-> ->]
  | ret _ _ = Ok _ => apply ret_ok in E as [_ ->]
  | (let _ := _ in _) _ = Ok _ => cbv zeta in E
  end.

(** The rows an authority names, as [lockStepAttemptAuthorityTx] finds them. *)
Record held (a : StepAttemptAuthority) (s : Store) (job : JobRow) (step : StepRow) (attempt : AttemptRow) : Prop := {
  he_valid : validateStepAttemptAuthority a = Ok tt;
  he_job : jobs s !! au_JobID a = Some job; he_step : steps s !! au_StepID a = Some step; he_attempt : attempts s !! (au_StepID a, au_Attempt a) = Some attempt;
  he_current : job_CurrentGeneration job = au_Generation a; he_owner : step_JobID step = au_JobID a; he_generation : step_Generation step = au_Generation a;
  he_unsuperseded : unsuperseded step = true; he_number : step_CurrentAttempt step = au_Attempt a; he_worker : step_WorkerID step = Some (au_WorkerID a);
  he_attempt_job : attempt_JobID attempt = au_JobID a; he_attempt_generation : attempt_Generation attempt = au_Generation a;
  he_attempt_worker : attempt_WorkerID attempt = au_WorkerID a
}.
Section authority.
Context {World : Type} (env : Env) (others : Others World).
Lemma lock_authority_ok a (t : Tx World) locked t' :
  lockStepAttemptAuthorityTx a t = Ok (locked, t') <-> t' = t /\ exists job step attempt, held a (tx_store t) job step attempt /\
    locked = mkLocked (job_Status job) (step_Status step) (attempt_Status attempt) (attempt_ExpiresAt attempt).
Proof.
  unfold lockStepAttemptAuthorityTx. split.
  - intros E. follow E. destruct (jobs _ !! _) as [job|] eqn:Ej; follow E. destruct (steps _ !! _) as [step|] eqn:Es; follow E.
    destruct (attempts _ !! _) as [attempt|] eqn:Ea; follow E. unfold attempt_of in *. guards. split; [done|].
    exists job, step, attempt. split; [|done]. by destruct x; constructor.
  - intros (-> & job & step & attempt & [] & ->). unfold bind, lift, gets, attempt_of. rewrite he_valid0. simpl.
    rewrite he_job0, he_step0, he_attempt0, he_current0, he_owner0, he_generation0, he_unsuperseded0, he_number0, he_worker0,
      he_attempt_job0, he_attempt_generation0, he_attempt_worker0.
    by rewrite !(bool_decide_eq_true_2 (_ = _)) by done.
Qed.
Lemma require_active_ok locked (t : Tx World) x t' :
  requireLockedStepAttemptActiveTx env locked t = Ok (x, t') <->
    lk_AttemptStatus locked = StepAttemptActive /\ env_clock env (tx_tick t) < lk_ExpiresAt locked /\
    t' = mkTx (tx_store t) (tx_world t) (S (tx_tick t)) (tx_draw t) (tx_recorded t).
Proof.
  unfold requireLockedStepAttemptActiveTx. split.
  - intros E. follow E. apply tx_bind_ok in E as (now & t1 & E1 & E). injection E1 as <- <-. follow E. by guards.
  - intros (Ha & Hlt & ->). apply Z.ltb_lt in Hlt. rewrite Ha, bool_decide_eq_true_2 by done. unfold bind, clock. simpl. rewrite Hlt. by destruct x.
Qed.
End authority.

(** ** Attempts that are over *)

(** The authority a call of a worker presents. *)
Definition op_authority (op : Operation) : option StepAttemptAuthority :=
  match op with
  | OpRequire a | OpRenew a | OpWait a _ | OpWaitNative a _ _ _ | OpReviewReady a _ _ => Some a
  | OpComplete c | OpCompleteEvidence c _ => Some (cs_Authority c)
  | OpFail c => Some (fs_Authority c)
  | _ => None
  end.
(** The call names an operation that is recorded. *)
Definition op_recorded (op : Operation) (s : Store) : Prop :=
  match op with
  | OpComplete c | OpCompleteEvidence c _ => is_Some (operations s !! cs_OperationID c)
  | OpFail c => is_Some (operations s !! fs_OperationID c)
  | _ => False
  end.
Definition ended (a : StepAttemptAuthority) (s : Store) : Prop := exists row, attempts s !! (au_StepID a, au_Attempt a) = Some row /\ active row = false.
Definition expired (env : Env) (a : StepAttemptAuthority) (s : Store) : Prop :=
  forall row n, attempts s !! (au_StepID a, au_Attempt a) = Some row -> attempt_ExpiresAt row <= env_clock env n.
Definition over (env : Env) (a : StepAttemptAuthority) (s : Store) : Prop := ended a s \/ expired env a s.

Lemma describe_id id kind payload d : describeLifecycleOperation id kind payload = Ok d -> ds_ID d = id.
Proof. unfold describeLifecycleOperation. intros H. split_ok H. by subst. Qed.
Lemma normalize_complete_authority {World} (others : Others World) c c' :
  normalizeCompleteStepCommand others c = Ok c' -> cs_Authority c' = cs_Authority c /\ cs_OperationID c' = cs_OperationID c.
Proof. unfold normalizeCompleteStepCommand. intros H. split_ok H. by subst. Qed.
Lemma normalize_fail_authority c c' : normalizeFailStepCommand c = Ok c' -> fs_Authority c' = fs_Authority c /\ fs_OperationID c' = fs_OperationID c.
Proof. unfold normalizeFailStepCommand. intros H. split_ok H. by subst. Qed.

Section fence.
Context {World : Type} (env : Env) (others : Others World).
Lemma ended_forever a (st st' : State World) : steps_to st st' -> ended a st.1 -> ended a st'.1.
Proof.
  intros H (row & Hrow & Hend). destruct (pr_attempts _ _ (steps_preserved _ _ H) _ _ Hrow) as (row' & Hrow' & Hk).
  exists row'. split; [done|]. by rewrite (ak_ended _ _ Hk Hend).
Qed.
Lemma over_refused a (t : Tx World) locked t1 : over env a (tx_store t) -> lockStepAttemptAuthorityTx a t = Ok (locked, t1) ->
  forall x (t2 t3 : Tx World), requireLockedStepAttemptActiveTx env locked t2 <> Ok (x, t3).
Proof.
  intros Hover [-> (job & step & attempt & Hheld & ->)]%lock_authority_ok x t2 t3 [Ha [Hlt _]]%require_active_ok. simpl in *.
  destruct Hover as [(row & Hrow & Hend)|Hexp].
  - rewrite (he_attempt _ _ _ _ _ Hheld) in Hrow. simplify_eq. unfold active in Hend. guards. done.
  - specialize (Hexp _ (tx_tick t2) (he_attempt _ _ _ _ _ Hheld)). lia.
Qed.
(** A computation that starts by requiring the attempt fails. *)
Lemma over_fails {A} a (k : lockedStepAttempt -> tx World A) t : over env a (tx_store t) -> exists e, bind (requireActiveStepAttemptTx env a) k t = Err e.
Proof.
  intros Hover. destruct (bind _ k t) as [[y t']|e] eqn:E; [|eauto]. exfalso.
  apply tx_bind_ok in E as (locked & t1 & E1 & _). apply tx_bind_ok in E1 as (locked' & t2 & E1 & E2).
  apply tx_bind_ok in E2 as ([] & t3 & E2 & _). exact (over_refused _ _ _ _ Hover E1 _ _ _ E2).
Qed.
Lemma over_running {A} e a (k : unit -> tx World A) t : over env a (tx_store t) -> exists e', bind (running_attempt env e a) k t = Err e'.
Proof.
  intros Hover. destruct (bind _ k t) as [[y t']|e'] eqn:E; [|eauto]. exfalso.
  apply tx_bind_ok in E as ([] & t1 & E & _). unfold running_attempt in E.
  match type of E with bind _ ?k _ = _ => destruct (over_fails a k t Hover) as [? ?] end. congruence.
Qed.
Lemma transact_err {A} (c : tx World A) (st : State World) : (exists e, c (mkTx st.1 st.2 0 0 []) = Err e) -> exists e, transact others c st = (Err e, st).
Proof. intros [e E]. unfold transact. rewrite E. eauto. Qed.
Lemma load_recorded d jobID (t : Tx World) op t' : loadLifecycleOperationTx others d jobID t = Ok (Some op, t') -> operations (tx_store t) !! ds_ID d = Some op.
Proof.
  unfold loadLifecycleOperationTx. intros E. apply tx_bind_ok in E as (created & t1 & E1 & E). follow E.
  assert (operations (tx_store t1) = operations (tx_store t)) as <-.
  { unfold reserveLifecycleOperationIdentityTx in E1. follow E1. apply tx_bind_ok in E1 as (intent & t2 & E2 & E1). injection E2 as <- <-.
    follow E1. destruct (registry _ !! _); follow E1; [done|]. by injection E1 as <- <-. }
  destruct (operations _ !! ds_ID d) eqn:Eo; follow E; [|done]. congruence.
Qed.
Lemma over_complete c d e (st : State World) : over env (cs_Authority c) st.1 ->
  exists r, transact_or others (completeStep env others c d e) st = (r, st) /\ (r = Ok tt -> is_Some (operations st.1 !! ds_ID d)).
Proof.
  intros Hover. destruct (transact_or _ _ st) as [r st'] eqn:E. exists r.
  apply transact_or_cases in E as [(e' & -> & ->)|E]; [done|].
  assert (exists x t', r = Ok tt /\ completeStep env others c d e (mkTx st.1 st.2 0 0 []) = Ok (x, t') /\ (x = inr tt -> st' = st)) as (x & t' & -> & E' & Hst).
  { destruct E as [([] & t' & -> & E & ->)|([] & t' & -> & E & _)]; eauto 6. exists (inl tt), t'. by rewrite E. }
  unfold completeStep, lockLifecycleOperationIdentityTx in E'. cbv zeta in E'. follow E'. apply tx_bind_ok in E' as (locked & t1 & E1 & E').
  apply tx_bind_ok in E' as (job & t2 & E2 & E'). apply tx_bind_ok in E' as ([op|] & t3 & E3 & E').
  - rewrite Hst; [split; [done|]|].
    + intros _. apply load_recorded in E3. rewrite (tx_reads_scan _ _ _ _ E2) in E3. apply lock_authority_ok in E1 as [-> _]. eauto.
    + apply tx_bind_ok in E' as ([] & t4 & _ & E'). apply tx_bind_ok in E' as (replay & t5 & _ & E'). follow E'.
      destruct e; [apply tx_bind_ok in E' as (replayed & t6 & _ & E')|]; follow E'; done.
  - exfalso. follow E'. apply tx_bind_ok in E' as ([] & t4 & E4 & _). exact (over_refused _ (mkTx st.1 st.2 0 0 []) _ _ Hover E1 _ _ _ E4).
Qed.
Lemma over_fail c d (st : State World) : over env (fs_Authority c) st.1 ->
  exists r, transact_or others (failStep env others c d) st = (r, st) /\ (r = Ok tt -> is_Some (operations st.1 !! ds_ID d)).
Proof.
  intros Hover. destruct (transact_or _ _ st) as [r st'] eqn:E. exists r.
  apply transact_or_cases in E as [(e' & -> & ->)|E]; [done|].
  assert (exists x t', r = Ok tt /\ failStep env others c d (mkTx st.1 st.2 0 0 []) = Ok (x, t') /\ (x = inr tt -> st' = st)) as (x & t' & -> & E' & Hst).
  { destruct E as [([] & t' & -> & E & ->)|([] & t' & -> & E & _)]; eauto 6. exists (inl tt), t'. by rewrite E. }
  unfold failStep, lockLifecycleOperationIdentityTx in E'. cbv zeta in E'. follow E'. apply tx_bind_ok in E' as (locked & t1 & E1 & E').
  apply tx_bind_ok in E' as (job & t2 & E2 & E'). apply tx_bind_ok in E' as ([op|] & t3 & E3 & E').
  - rewrite Hst; [split; [done|]|].
    + intros _. apply load_recorded in E3. rewrite (tx_reads_scan _ _ _ _ E2) in E3. apply lock_authority_ok in E1 as [-> _]. eauto.
    + apply tx_bind_ok in E' as ([] & t4 & _ & E'). follow E'. done.
  - exfalso. apply tx_bind_ok in E' as ([] & t4 & E4 & _). exact (over_refused _ (mkTx st.1 st.2 0 0 []) _ _ Hover E1 _ _ _ E4).
Qed.
(** Every call of a worker whose attempt is over changes nothing, and fails unless it
    repeats a recorded operation. *)
Lemma over_fenced op a (st : State World) : op_authority op = Some a -> over env a st.1 ->
  exists r, perform env others op st = (r, st) /\ (r = Ok tt -> op_recorded op st.1).
Proof.
  assert (forall A (out : result A * State World), (exists e, out = (Err e, st)) -> exists r, outcome out = (r, st) /\ (r = Ok tt -> False)) as Hout.
  { intros A out [e ->]. by exists (Err e). }
  assert (forall out : result unit * State World, (exists e, out = (Err e, st)) -> exists r, out = (r, st) /\ (r = Ok tt -> False)) as Herr.
  { intros out [e ->]. by exists (Err e). }
  intros Ha Hover. destruct op; simpl in Ha |- *; try discriminate Ha; injection Ha as <-.
  - apply Herr, transact_err, over_fails, Hover.
  - apply Hout. unfold RenewStepAttempt. match goal with |- context [transact others ?c st] => destruct (transact_err c st) as [e ->] end; [apply over_fails, Hover|by exists e].
  - unfold CompleteStep. destruct (normalizeCompleteStepCommand others c) as [c'|] eqn:En; [|by eexists].
    destruct (normalize_complete_authority _ _ _ En) as [Hc Hid]. rewrite <- Hc in Hover.
    destruct (describeLifecycleOperation _ _ _) as [d|] eqn:Ed; [|by eexists]. rewrite <- Hid, <- (describe_id _ _ _ _ Ed). by apply over_complete.
  - unfold CompleteStepWithEvidence. destruct (normalizeCompleteStepCommand others c) as [c'|] eqn:En; [|by eexists].
    destruct (normalize_complete_authority _ _ _ En) as [Hc Hid]. rewrite <- Hc in Hover. destruct (_ != _); [by eexists|].
    destruct (describeLifecycleOperation _ _ _) as [d|] eqn:Ed; [|by eexists]. rewrite <- Hid, <- (describe_id _ _ _ _ Ed). by apply over_complete.
  - unfold FailStep. destruct (normalizeFailStepCommand c) as [c'|] eqn:En; [|by eexists].
    destruct (normalize_fail_authority _ _ En) as [Hc Hid]. rewrite <- Hc in Hover.
    destruct (describeLifecycleOperation _ _ _) as [d|] eqn:Ed; [|by eexists]. rewrite <- Hid, <- (describe_id _ _ _ _ Ed). by apply over_fail.
  - apply Herr, transact_err, over_running, Hover.
  - apply Hout, transact_err, over_running, Hover.
  - apply Herr. unfold MarkCodingLedgerReviewReady. destruct (_ || _)%bool; [by eexists|]. apply transact_err, over_running, Hover.
Qed.
End fence.
