(* ===== verification/JobReplay.v ===== *)
(** * Commands at most once

    A command that was applied is recorded under its identity, the record stays, and
    whatever is later sent under that identity changes nothing and is accepted only when
    it repeats the recorded command. *)
From Stdlib Require Import Ascii.
From S2P Require Import Prelude Schema PathIdentity UserIntent JsonCodec Scrum Jobs JobStore JobCommands JobSteps JobControl JobFacts JobReach.
From stdpp Require Import sorting base tactics strings list gmap numbers pretty.
From stdpp Require Import list options.
Open Scope Z_scope.
Open Scope go_scope.

(** The identity a call carries, and the kind and content it is recorded with. *)
Definition command_id (op : Operation) : option string :=
  match op with
  | OpComplete c | OpCompleteEvidence c _ => Some (cs_OperationID c) | OpFail c => Some (fs_OperationID c)
  | OpInterrupt c | OpReplan c => Some (rp_OperationID c) | OpResume c => Some (rs_OperationID c)
  | OpCancel c => Some (cn_OperationID c) | OpFeedback c => Some (fb_OperationID c)
  | _ => None
  end.
Definition command_content {World} (others : Others World) (op : Operation) : result (LifecycleOperationKind * Payload) :=
  match op with
  | OpComplete c | OpCompleteEvidence c _ => let? c := normalizeCompleteStepCommand others c in Ok (LifecycleCompleteStep, encode_complete c)
  | OpFail c => let? c := normalizeFailStepCommand c in Ok (LifecycleFailStep, encode_fail c)
  | OpInterrupt c => Ok (LifecycleInterruptJob, encode_replan c) | OpReplan c => Ok (LifecycleReplanJob, encode_replan c)
  | OpResume c => Ok (LifecycleResumeJob, PayloadResume c) | OpCancel c => Ok (LifecycleCancelJob, PayloadCancel c)
  | OpFeedback c => Ok (LifecycleSubmitFeedback, PayloadFeedback c)
  | _ => Err "not a command"
  end.
(** What the owner's commands answer. *)
Definition answer {World} (env : Env) (others : Others World) (op : Operation) (st : State World) : option (result LifecycleJobResult * State World) :=
  match op with
  | OpInterrupt c => Some (InterruptJob env others c st) | OpReplan c => Some (ReplanJob env others c st) | OpResume c => Some (ResumeJob env others c st)
  | OpCancel c => Some (CancelJob env others c st) | OpFeedback c => Some (SubmitJobFeedback env others c st)
  | _ => None
  end.
(** The store holds the record of a descriptor. *)
Definition recorded_as (id : string) (content : LifecycleOperationKind * Payload) (s : Store) (op : LifecycleOperation) : Prop :=
  operations s !! id = Some op /\ (op_Kind op, op_Payload op) = content.
Definition committed (d : lifecycleOperationDescriptor) (s : Store) : Prop := exists op, recorded_as (ds_ID d) (ds_Kind d, ds_Payload d) s op.
(** Recorded identities are registered. *)
Definition registered (s : Store) : Prop := forall id op, operations s !! id = Some op -> is_Some (registry s !! id).

Lemma registered_kept s s' : preserved s s' -> registered s -> registered s'.
Proof.
  intros Hp Hr id op Ho. destruct (pr_recorded _ _ Hp _ _ Ho) as [Hs|]; [|done].
  destruct (Hr _ _ Hs) as [e He]. destruct (pr_registry _ _ Hp _ _ He) as (e' & He' & _). eauto.
Qed.
Lemma recorded_kept s s' id content op : preserved s s' -> recorded_as id content s op -> recorded_as id content s' op.
Proof. intros Hp [Ho Hc]. destruct (pr_operations _ _ Hp _ _ Ho) as (op' & Ho' & <-). done. Qed.
Lemma committed_kept d s s' : preserved s s' -> committed d s -> committed d s'.
Proof. intros Hp [op H]. exists op. by eapply recorded_kept. Qed.
Lemma reachable_registered {World} (st : State World) : reachable st -> registered st.1.
Proof. intros [w H]. apply (registered_kept _ _ (steps_preserved _ _ H)). intros id op Ho. done. Qed.

(** ** A repeated command is quiet *)

(** Neither the job tables nor the rest of the database change. *)
Definition quiet {World A} (c : tx World A) : Prop := forall t x t', c t = Ok (x, t') -> tx_store t' = tx_store t /\ tx_world t' = tx_world t.
(** Reads the result a computation returned. *)
Ltac result_of E := repeat first [apply tx_bind_ok in E as (? & ? & ? & E) | progress follow E | match type of E with match ?x with _ => _ end _ = _ => destruct x end].

Section quiet.
Context {World : Type} (others : Others World).
Lemma tx_quiet_bind {A B} (c : tx World A) (f : A -> tx World B) : quiet c -> (forall x, quiet (f x)) -> quiet (bind c f).
Proof. intros Hc Hf t y t' (x & t1 & [E1 E2]%Hc & [E3 E4]%Hf)%tx_bind_ok. split; congruence. Qed.
Lemma tx_quiet_ret {A} (x : A) : quiet (ret x : tx World A).
Proof. intros t y t' E. by injection E as <- <-. Qed.
Lemma quiet_fail {A} e : quiet (fail e : tx World A).
Proof. by intros t y t' E. Qed.
Lemma tx_quiet_lift {A} (r : result A) : quiet (lift r : tx World A).
Proof. by intros t y t' [_ ->]%tx_lift_ok. Qed.
Lemma quiet_gets {A} (f : Store -> A) : quiet (gets f : tx World A).
Proof. by intros t y t' [_ ->]%gets_ok. Qed.
Lemma quiet_asks {A} (f : Store -> World -> A) : quiet (asks f).
Proof. intros t y t' E. by injection E as <- <-. Qed.
End quiet.
Create HintDb quiet.
#[export] Hint Resolve tx_quiet_ret quiet_fail tx_quiet_lift quiet_gets quiet_asks : quiet.
Ltac quieting :=
  repeat match goal with
  | |- quiet (bind _ _) => apply tx_quiet_bind; [|intros ?]
  | |- quiet (if ?b then _ else _) => destruct b
  | |- quiet (match ?x with _ => _ end) => destruct x
  | |- quiet (let _ := _ in _) => cbv zeta
  end; auto with quiet.
Section replays.
Context {World : Type} (others : Others World).
Lemma quiet_step op id want o e : quiet (requireLifecycleStepTx (World := World) op id want o e).
Proof. unfold requireLifecycleStepTx. quieting. Qed.
Lemma quiet_generation j g : quiet (requireLifecycleGenerationExistsTx (World := World) j g).
Proof. unfold requireLifecycleGenerationExistsTx. quieting. Qed.
#[local] Hint Resolve quiet_step quiet_generation : quiet.
Lemma quiet_complete_replay op c : quiet (requireCompleteStepReplayTx (World := World) op c).
Proof. unfold requireCompleteStepReplayTx, requireTerminalObjectiveCodingTailCanceledTx. quieting. Qed.
Lemma quiet_fail_replay op c : quiet (requireFailStepReplayTx (World := World) op c).
Proof. unfold requireFailStepReplayTx. quieting. Qed.
Lemma quiet_feedback_replay op c : quiet (requireSubmitFeedbackReplayTx (World := World) op c).
Proof. unfold requireSubmitFeedbackReplayTx, requireCodingExecutionReplyTx. quieting. Qed.
Lemma quiet_cutover_replay op c k p st : quiet (requireGenerationCutoverReplayTx (World := World) op c k p st).
Proof. unfold requireGenerationCutoverReplayTx. quieting. Qed.
#[local] Hint Resolve quiet_cutover_replay : quiet.
Lemma quiet_replan_replay op c : quiet (requireReplanReplayTx (World := World) op c).
Proof. unfold requireReplanReplayTx. quieting. Qed.
Lemma quiet_interrupt_replay op c : quiet (requireInterruptReplayTx (World := World) op c).
Proof. unfold requireInterruptReplayTx. quieting. Qed.
Lemma quiet_cancel_replay op c j : quiet (requireCancelJobReplayTx (World := World) op c j).
Proof. unfold requireCancelJobReplayTx. quieting. Qed.
Lemma quiet_scan jobID : quiet (scanLockedJobTx (World := World) jobID).
Proof. unfold scanLockedJobTx. quieting. Qed.
Lemma quiet_authority a : quiet (lockStepAttemptAuthorityTx (World := World) a).
Proof. intros t x t' [-> _]%lock_authority_ok. done. Qed.
End replays.
#[export] Hint Resolve quiet_complete_replay quiet_fail_replay quiet_feedback_replay quiet_replan_replay quiet_interrupt_replay quiet_cancel_replay
  quiet_scan quiet_authority : quiet.

Section replay.
Context {World : Type} (env : Env) (others : Others World).
(** Loading a recorded operation: the record, when its content is that of the command. *)
Lemma load_replay d jobID (t : Tx World) x t' op : operations (tx_store t) !! ds_ID d = Some op -> is_Some (registry (tx_store t) !! ds_ID d) ->
  loadLifecycleOperationTx others d jobID t = Ok (x, t') -> t' = t /\ x = Some op /\ (op_Kind op, op_Payload op) = (ds_Kind d, ds_Payload d).
Proof.
  intros Ho [e He] E. unfold loadLifecycleOperationTx in E. apply tx_bind_ok in E as (created & t1 & E1 & E).
  unfold reserveLifecycleOperationIdentityTx in E1. follow E1. apply tx_bind_ok in E1 as (intent & t2 & E2 & E1). injection E2 as <- <-.
  follow E1. rewrite He in E1. follow E1. follow E. rewrite Ho in E. follow E. guards. by repeat split; congruence.
Qed.
(** The commands start alike: some quiet checks, the job, and the recorded operation. *)
Lemma replay_bind {A} d jobID (f : option LifecycleOperation -> tx World A) t y t' op :
  operations (tx_store t) !! ds_ID d = Some op -> is_Some (registry (tx_store t) !! ds_ID d) ->
  bind (loadLifecycleOperationTx others d jobID) f t = Ok (y, t') -> (op_Kind op, op_Payload op) = (ds_Kind d, ds_Payload d) /\ f (Some op) t = Ok (y, t').
Proof. intros Ho Hr (x & t1 & E1 & E)%tx_bind_ok. destruct (load_replay _ _ _ _ _ _ Ho Hr E1) as (-> & -> & Hc). done. Qed.
(** What a transaction that repeats a record does. *)
Definition repeats {A} (d : lifecycleOperationDescriptor) (op : LifecycleOperation) (P : A -> Prop) (c : tx World A) : Prop := forall t x t',
  operations (tx_store t) !! ds_ID d = Some op -> is_Some (registry (tx_store t) !! ds_ID d) -> c t = Ok (x, t') ->
  tx_store t' = tx_store t /\ tx_world t' = tx_world t /\ (op_Kind op, op_Payload op) = (ds_Kind d, ds_Payload d) /\ P x.
Lemma repeats_bind {A B} d op P (c : tx World A) (f : A -> tx World B) : quiet c -> (forall x, repeats d op P (f x)) -> repeats d op P (bind c f).
Proof.
  intros Hc Hf t y t' Ho Hr (x & t1 & E1 & E)%tx_bind_ok. destruct (Hc _ _ _ E1) as [Hs Hw]. rewrite <- Hs, <- Hw. rewrite <- Hs in Ho, Hr.
  eapply Hf; eauto.
Qed.
Lemma repeats_load {B} d op P jobID (f : option LifecycleOperation -> tx World B) : quiet (f (Some op)) ->
  (forall t x t', f (Some op) t = Ok (x, t') -> P x) -> repeats d op P (bind (loadLifecycleOperationTx others d jobID) f).
Proof. intros Hf HP t y t' Ho Hr [Hc E]%(replay_bind _ _ _ _ _ _ op); [|done..]. destruct (Hf _ _ _ E). eauto. Qed.
Lemma repeats_then {A B} d op P Q (c : tx World A) (f : A -> tx World B) :
  repeats d op P c -> (forall x, P x -> quiet (f x)) -> (forall x t y t', P x -> f x t = Ok (y, t') -> Q y) -> repeats d op Q (bind c f).
Proof.
  intros Hc Hf HQ t y t' Ho Hr (x & t1 & E1 & E)%tx_bind_ok. destruct (Hc _ _ _ Ho Hr E1) as (Hs & Hw & Hk & HP).
  destruct (Hf x HP _ _ _ E). repeat split; [congruence..|done|eauto].
Qed.
Ltac repeating := repeat match goal with |- repeats _ _ _ (bind (loadLifecycleOperationTx _ _ _) _) => fail 1 | |- repeats _ _ _ (bind _ _) => apply repeats_bind; [by auto with quiet|intros ?] end.
Definition returns (op : LifecycleOperation) (result : LifecycleJobResult) : Prop := result = mkJobResult (op_ResultJob op) false.
Lemma repeats_complete c d e op : repeats d op (fun x => x = inr tt) (completeStep env others c d e).
Proof.
  unfold completeStep, lockLifecycleOperationIdentityTx. cbv zeta. repeating. apply repeats_load; [quieting|].
  intros ??? E. by result_of E.
Qed.
Lemma repeats_fail c d op : repeats d op (fun x => x = inr tt) (failStep env others c d).
Proof.
  unfold failStep, lockLifecycleOperationIdentityTx. cbv zeta. repeating. apply repeats_load; [quieting|].
  intros ??? E. by result_of E.
Qed.
Lemma repeats_interrupt c d op : repeats d op (returns op) (interruptJobTx env others c d).
Proof.
  unfold interruptJobTx, lockLifecycleOperationIdentityTx, lockedJobTx. repeating. apply repeats_load; [quieting|].
  intros ??? E. by result_of E.
Qed.
Lemma repeats_replan c d op : repeats d op (returns op) (replanJobTx env others c d).
Proof.
  unfold replanJobTx, lockLifecycleOperationIdentityTx, lockedJobTx. repeating. apply repeats_load; [quieting|].
  intros ??? E. by result_of E.
Qed.
Lemma repeats_feedback c d op : repeats d op (returns op) (submitJobFeedbackTx env others c d).
Proof.
  unfold submitJobFeedbackTx, lockLifecycleOperationIdentityTx, lockedJobTx. repeating. apply repeats_load; [quieting|].
  intros ??? E. by result_of E.
Qed.
Lemma repeats_lift {A B} d op P (r : result A) (f : A -> tx World B) : (forall x, r = Ok x -> repeats d op P (f x)) -> repeats d op P (bind (lift r) f).
Proof. intros Hf t y t' Ho Hr (x & t1 & [Hx ->]%tx_lift_ok & E)%tx_bind_ok. eapply Hf; eauto. Qed.
Lemma describe_spec id kind payload d : describeLifecycleOperation id kind payload = Ok d -> d = mkDescriptor id kind payload.
Proof. unfold describeLifecycleOperation. intros H. split_ok H. done. Qed.
Lemma repeats_resume c op : repeats (mkDescriptor (rs_OperationID c) LifecycleResumeJob (PayloadResume c)) op (returns op) (resumeJobTx env others c).
Proof.
  unfold resumeJobTx, lockLifecycleOperationIdentityTx, lockedJobTx. destruct (_ || _ || _)%bool; [by intros ???|]. do 2 (apply repeats_bind; [by auto with quiet|intros ?]).
  apply repeats_lift. intros d ->%describe_spec. repeating. apply repeats_load; [quieting|].
  intros ??? E. by result_of E.
Qed.
Lemma repeats_cancel_tx c op : repeats (mkDescriptor (cn_OperationID c) LifecycleCancelJob (PayloadCancel c)) op (returns op) (cancelJobTx env others c).
Proof.
  unfold cancelJobTx, lockLifecycleOperationIdentityTx, lockedJobTx. apply repeats_bind; [by auto with quiet|intros ?].
  apply repeats_lift. intros d ->%describe_spec. repeating. apply repeats_load; [quieting|].
  intros ??? E. by result_of E.
Qed.
Lemma repeats_cancel c op : repeats (mkDescriptor (cn_OperationID c) LifecycleCancelJob (PayloadCancel c)) op (returns op)
  (let* result := cancelJobTx env others c in
   exec (if lr_Applied result then calls (fun _ w => o_release_card others w (lr_Job result) StatusCanceled) else ret tt); ret result).
Proof.
  eapply repeats_then; [apply repeats_cancel_tx| |]; unfold returns.
  - intros x ->. cbn [lr_Applied]. quieting.
  - intros x t y t' -> E. by result_of E.
Qed.

(** A transaction that repeats a record, committed or not, leaves the database. *)
Lemma repeats_transact {A} d op P (c : tx World A) (st st' : State World) r : repeats d op P c ->
  operations st.1 !! ds_ID d = Some op -> is_Some (registry st.1 !! ds_ID d) -> transact others c st = (r, st') ->
  st' = st /\ forall x, r = Ok x -> (op_Kind op, op_Payload op) = (ds_Kind d, ds_Payload d) /\ P x.
Proof.
  intros Hc Ho Hr E. apply transact_cases in E as [(e & -> & ->)|(x & t' & -> & E & -> & _)]; [done|].
  destruct (Hc (mkTx st.1 st.2 0 0 []) _ _ Ho Hr E) as (Hs & Hw & Hk & HP). rewrite Hs, Hw. split; [by destruct st|]. by intros ? [= <-].
Qed.
Lemma repeats_transact_or d op (c : tx World (unit + unit)) (st st' : State World) r : repeats d op (fun x => x = inr tt) c ->
  operations st.1 !! ds_ID d = Some op -> is_Some (registry st.1 !! ds_ID d) -> transact_or others c st = (r, st') ->
  st' = st /\ (r = Ok tt -> (op_Kind op, op_Payload op) = (ds_Kind d, ds_Payload d)).
Proof.
  intros Hc Ho Hr E. apply transact_or_cases in E as [(e & -> & ->)|[(x & t' & -> & E & ->)|(x & t' & -> & E & _)]]; [done| |];
    destruct (Hc (mkTx st.1 st.2 0 0 []) _ _ Ho Hr E) as (Hs & Hw & Hk & HP); [done|done].
Qed.
End replay.

(** *** A recorded command *)

Section inert.
Context {World : Type} (env : Env) (others : Others World) (st : State World) (id : string) (rec : LifecycleOperation).
Hypotheses (Hregistered : registered st.1) (Hrecorded : operations st.1 !! id = Some rec).
(** The call leaves the database, and is accepted only for the recorded content and with
    the recorded answer. *)
Definition repeated (out : result unit * State World) (content : result (LifecycleOperationKind * Payload))
    (answered : option (result LifecycleJobResult * State World)) : Prop :=
  exists r, out = (r, st) /\ (r = Ok tt -> content = Ok (op_Kind rec, op_Payload rec)) /\
    forall x, answered = Some x -> forall res, x.1 = Ok res -> res = mkJobResult (op_ResultJob rec) false.
Lemma repeated_step (c : lifecycleOperationDescriptor -> tx World (unit + unit)) kind payload : (forall d, repeats d rec (fun x => x = inr tt) (c d)) ->
  repeated (match describeLifecycleOperation id kind payload with Err e => (Err e, st) | Ok d => transact_or others (c d) st end) (Ok (kind, payload)) None.
Proof using Type*.
  intros Hc. destruct (describeLifecycleOperation _ _ _) as [d|e] eqn:Ed; [|by exists (Err e)]. apply describe_spec in Ed as ->.
  destruct (transact_or _ _ st) as [r st'] eqn:E. destruct (repeats_transact_or others (mkDescriptor id kind payload) _ _ _ _ _ (Hc _) Hrecorded (Hregistered _ _ Hrecorded) E) as [-> Hr].
  exists r. split; [done|]. split; [|done]. intros ->. by rewrite (Hr eq_refl).
Qed.
Lemma repeated_transact (c : tx World LifecycleJobResult) kind payload : repeats (mkDescriptor id kind payload) rec (returns rec) c ->
  repeated (outcome (transact others c st)) (Ok (kind, payload)) (Some (transact others c st)).
Proof using Type*.
  intros Hc. destruct (transact _ _ st) as [r st'] eqn:E.
  destruct (repeats_transact others (mkDescriptor id kind payload) _ _ _ _ _ _ Hc Hrecorded (Hregistered _ _ Hrecorded) E) as [-> Hr].
  unfold outcome. destruct r as [x|e]; [|exists (Err e); split; [done|split; [done|by intros ? [= <-]]]].
  destruct (Hr _ eq_refl) as [Hk Hx]. exists (Ok tt). split; [done|]. split; [by rewrite Hk|]. by intros ? [= <-] ? [= <-].
Qed.
Lemma repeated_owner {A} (checked : result A) (c : lifecycleOperationDescriptor -> tx World LifecycleJobResult) kind payload :
  (forall d, repeats d rec (returns rec) (c d)) ->
  let out := match checked with Err e => (Err e, st) | Ok _ => match describeLifecycleOperation id kind payload with
    Err e => (Err e, st) | Ok d => transact others (c d) st end end in
  repeated (outcome out) (Ok (kind, payload)) (Some out).
Proof using Type*.
  intros Hc. assert (forall e, repeated (outcome (Err e : result LifecycleJobResult, st)) (Ok (kind, payload)) (Some (Err e, st))) as Herr.
  { intros e. exists (Err e). split; [done|split; [done|by intros ? [= <-]]]. }
  destruct checked; [|done]. destruct (describeLifecycleOperation _ _ _) as [d|e] eqn:Ed; [|done]. apply describe_spec in Ed as ->.
  by apply repeated_transact.
Qed.
Lemma repeated_inert op : command_id op = Some id -> repeated (perform env others op st) (command_content others op) (answer env others op st).
Proof using Type*.
  intros Hid. destruct op; simpl in Hid; try discriminate Hid; injection Hid as Hid; simpl.
  - unfold CompleteStep. destruct (normalizeCompleteStepCommand others c) as [c'|e] eqn:En; [|by exists (Err e)].
    destruct (normalize_complete_authority _ _ _ En) as [_ Hc]. rewrite Hc, Hid. apply repeated_step. intros d. apply repeats_complete.
  - unfold CompleteStepWithEvidence. destruct (normalizeCompleteStepCommand others c) as [c'|e] eqn:En; [|by exists (Err e)].
    destruct (normalize_complete_authority _ _ _ En) as [_ Hc]. destruct (_ != _); [by eexists (Err _)|].
    rewrite Hc, Hid. apply repeated_step. intros d. apply repeats_complete.
  - unfold FailStep. destruct (normalizeFailStepCommand c) as [c'|e] eqn:En; [|by exists (Err e)].
    destruct (normalize_fail_authority _ _ En) as [_ Hc]. rewrite Hc, Hid. apply repeated_step. intros d. apply repeats_fail.
  - unfold InterruptJob. rewrite Hid. apply repeated_owner. intros d. apply repeats_interrupt.
  - unfold ReplanJob. rewrite Hid. apply repeated_owner. intros d. apply repeats_replan.
  - apply repeated_transact. rewrite <- Hid. apply repeats_resume.
  - apply repeated_transact. rewrite <- Hid. apply repeats_cancel.
  - unfold SubmitJobFeedback. rewrite Hid. apply repeated_owner. intros d. apply repeats_feedback.
Qed.
End inert.

(** ** An applied command is recorded *)

Section records.
Context {World : Type} (env : Env) (others : Others World).
(** A transaction whose every return leaves the record of the descriptor. *)
Definition leaves {A} (d : lifecycleOperationDescriptor) (P : A -> Prop) (c : tx World A) : Prop :=
  forall t x t', c t = Ok (x, t') -> committed d (tx_store t') /\ P x.
Definition records {A} (d : lifecycleOperationDescriptor) (P : A -> Prop) (c : tx World A) : Prop :=
  forall t x t', operations (tx_store t) !! ds_ID d = None -> c t = Ok (x, t') -> committed d (tx_store t') /\ P x.
Lemma leaves_bind {A B} d P (c : tx World A) (f : A -> tx World B) : (forall x, leaves d P (f x)) -> leaves d P (bind c f).
Proof. intros Hf t y t' (x & t1 & _ & E)%tx_bind_ok. eapply Hf, E. Qed.
Lemma leaves_fail {A} d P e : leaves (A := A) d P (fail e).
Proof. by intros t y t' E. Qed.
Lemma leaves_insert {B} d (P : B -> Prop) op (f : unit -> tx World B) : op_Kind op = ds_Kind d -> op_Payload op = ds_Payload d ->
  keeps preserved (f tt) -> (forall t x t', f tt t = Ok (x, t') -> P x) -> leaves d P (bind (insertLifecycleOperationTx others d op) f).
Proof.
  intros Hk Hp Hf HP t y t' ([] & t1 & E1 & E)%tx_bind_ok. split; [|eauto]. apply (committed_kept _ _ _ (Hf _ _ _ E)).
  unfold insertLifecycleOperationTx in E1. follow E1. unfold id in E1. destruct (operations (tx_store t) !! ds_ID d) as [old|] eqn:Eo.
  - apply tx_bind_ok in E1 as (found & t2 & E1 & E2). follow E2. unfold loadLifecycleOperationTx in E1.
    apply tx_bind_ok in E1 as (created & t3 & E3 & E1). follow E1. destruct (operations (tx_store t3) !! ds_ID d) as [op'|] eqn:Eo'; follow E1.
    + guards. exists op'. split; [done|congruence].
    + destruct (pr_operations _ _ (kept_reserve others d _ _ _ E3) _ _ Eo) as (? & ? & _). congruence.
  - follow E1. injection E1 as <-. exists op. split; [simpl; by rewrite lookup_insert_eq|congruence].
Qed.
Lemma records_reads {A B} d P (c : tx World A) (f : A -> tx World B) : reads c -> (forall x, records d P (f x)) -> records d P (bind c f).
Proof. intros Hc Hf t y t' Ho (x & t1 & E1 & E)%tx_bind_ok. rewrite <- (Hc _ _ _ E1) in Ho. eapply Hf; eauto. Qed.
Lemma records_lift {A B} d P (r : result A) (f : A -> tx World B) : (forall x, r = Ok x -> records d P (f x)) -> records d P (bind (lift r) f).
Proof. intros Hf t y t' Ho (x & t1 & [Hx ->]%tx_lift_ok & E)%tx_bind_ok. eapply Hf; eauto. Qed.
Lemma records_load {B} d P jobID (f : option LifecycleOperation -> tx World B) : leaves d P (f None) ->
  records d P (bind (loadLifecycleOperationTx others d jobID) f).
Proof.
  intros Hf t y t' Ho ([op|] & t1 & E1 & E)%tx_bind_ok; [|by eapply Hf, E].
  apply load_recorded in E1. congruence.
Qed.
End records.
Ltac leaving :=
  repeat match goal with
  | |- leaves _ _ (bind (insertLifecycleOperationTx _ _ _) _) => fail 1
  | |- leaves _ _ (bind (pauseFrozenCodingTx _ _ _ _) _) => fail 1
  | |- leaves _ _ (bind _ _) => apply leaves_bind; intros ?
  | |- leaves _ _ (fail _) => apply leaves_fail
  | |- leaves _ _ (if ?b then _ else _) => destruct b
  | |- leaves _ _ (match ?x with _ => _ end) => destruct x
  end.
Ltac recording := cbv zeta; repeat match goal with
  | |- records _ _ (bind (loadLifecycleOperationTx _ _ _) _) => fail 1
  | |- records _ _ (bind _ _) => apply records_reads; [by auto with jobs|intros ?] end; apply records_load.
Ltac recorded_last := apply leaves_insert; [done|done|keeping|by intros ??? [-> _]%ret_ok].

Section commands.
Context {World : Type} (env : Env) (others : Others World).
Lemma records_complete c d e : records d (fun x => x = inl tt) (completeStep env others c d e).
Proof. unfold completeStep. recording. leaving. recorded_last. Qed.
Lemma records_fail c d : records d (fun x => x = inl tt) (failStep env others c d).
Proof. unfold failStep. recording. leaving; recorded_last. Qed.
Definition applied (result : LifecycleJobResult) : Prop := lr_Applied result = true.
Lemma pause_leaves job d (t : Tx World) result t' : pauseFrozenCodingTx env others job d t = Ok (Some result, t') -> committed d (tx_store t') /\ applied result.
Proof.
  unfold pauseFrozenCodingTx. intros E. follow E. destruct (frozen_execution _ _ _) as [[stepID step]|]; [|by apply ret_ok in E as [[=] _]].
  match type of E with ?c _ = _ => assert (leaves d (from_option applied False) c) as Hc end; [leaving; recorded_last|exact (Hc _ _ _ E)].
Qed.
Lemma records_interrupt c d : records d applied (interruptJobTx env others c d).
Proof.
  unfold interruptJobTx, lockedJobTx. recording. leaving. intros t y t' ([result|] & t1 & E1 & E)%tx_bind_ok.
  - apply ret_ok in E as [-> ->]. by apply pause_leaves in E1.
  - match type of E with ?k _ = _ => assert (leaves d applied k) as Hc; [|exact (Hc _ _ _ E)] end. leaving. recorded_last.
Qed.
Lemma records_replan c d : records d applied (replanJobTx env others c d).
Proof. unfold replanJobTx, lockedJobTx. recording. leaving. recorded_last. Qed.
Lemma records_feedback c d : records d applied (submitJobFeedbackTx env others c d).
Proof. unfold submitJobFeedbackTx, lockedJobTx. recording. leaving. recorded_last. Qed.
Lemma records_resume c : records (mkDescriptor (rs_OperationID c) LifecycleResumeJob (PayloadResume c)) applied (resumeJobTx env others c).
Proof.
  unfold resumeJobTx, lockedJobTx. destruct (_ || _ || _)%bool; [by intros ???|]. do 2 (apply records_reads; [by auto with jobs|intros ?]).
  apply records_lift. intros d ->%describe_spec. recording. leaving. recorded_last.
Qed.
Lemma records_cancel_tx c : records (mkDescriptor (cn_OperationID c) LifecycleCancelJob (PayloadCancel c)) applied (cancelJobTx env others c).
Proof.
  unfold cancelJobTx, lockedJobTx. apply records_reads; [by auto with jobs|intros ?].
  apply records_lift. intros d ->%describe_spec. recording. leaving. recorded_last.
Qed.
End commands.

Section once.
Context {World : Type} (env : Env) (others : Others World) (st : State World) (id : string).
Hypothesis Hnew : operations st.1 !! id = None.
Definition noted (out : result unit * State World) (content : result (LifecycleOperationKind * Payload)) : Prop :=
  out.1 = Ok tt -> exists rec, operations out.2.1 !! id = Some rec /\ content = Ok (op_Kind rec, op_Payload rec).
Lemma noted_committed kind payload (st' : State World) : committed (mkDescriptor id kind payload) st'.1 -> noted (Ok tt, st') (Ok (kind, payload)).
Proof using Type. intros [rec [Ho Hc]] _. exists rec. by rewrite Hc. Qed.
Lemma noted_step (c : lifecycleOperationDescriptor -> tx World (unit + unit)) kind payload : (forall d, records d (fun x => x = inl tt) (c d)) ->
  noted (match describeLifecycleOperation id kind payload with Err e => (Err e, st) | Ok d => transact_or others (c d) st end) (Ok (kind, payload)).
Proof using Type*.
  intros Hc. destruct (describeLifecycleOperation _ _ _) as [d|e] eqn:Ed; [|done]. apply describe_spec in Ed as ->.
  destruct (transact_or _ _ st) as [r st'] eqn:E. apply transact_or_cases in E as [(e & -> & ->)|[(x & t' & _ & E & _)|([] & t' & -> & E & -> & _)]]; [done| |].
  - by destruct (Hc (mkDescriptor id kind payload) (mkTx st.1 st.2 0 0 []) _ _ Hnew E) as [_ ?].
  - apply noted_committed. by destruct (Hc (mkDescriptor id kind payload) (mkTx st.1 st.2 0 0 []) _ _ Hnew E) as [? _].
Qed.
Lemma noted_transact {A} (P : A -> Prop) (c : tx World A) kind payload : records (mkDescriptor id kind payload) P c -> noted (outcome (transact others c st)) (Ok (kind, payload)).
Proof using Type*.
  intros Hc. destruct (transact _ _ st) as [r st'] eqn:E. apply transact_cases in E as [(e & -> & ->)|(x & t' & -> & E & -> & _)]; [done|].
  apply noted_committed. by destruct (Hc (mkTx st.1 st.2 0 0 []) _ _ Hnew E) as [? _].
Qed.
Lemma noted_owner {A} (checked : result A) (c : lifecycleOperationDescriptor -> tx World LifecycleJobResult) kind payload :
  (forall d, records d applied (c d)) ->
  noted (outcome (match checked with Err e => (Err e, st) | Ok _ => match describeLifecycleOperation id kind payload with
    Err e => (Err e, st) | Ok d => transact others (c d) st end end)) (Ok (kind, payload)).
Proof using Type*.
  intros Hc. destruct checked; [|done]. destruct (describeLifecycleOperation _ _ _) as [d|e] eqn:Ed; [|done]. apply describe_spec in Ed as ->.
  eapply noted_transact, Hc.
Qed.
Lemma noted_command op : command_id op = Some id -> noted (perform env others op st) (command_content others op).
Proof using Type*.
  intros Hid. destruct op; simpl in Hid; try discriminate Hid; injection Hid as Hid; simpl.
  - unfold CompleteStep. destruct (normalizeCompleteStepCommand others c) as [c'|e] eqn:En; [|done].
    destruct (normalize_complete_authority _ _ _ En) as [_ Hc]. rewrite Hc, Hid. apply noted_step. intros d. apply records_complete.
  - unfold CompleteStepWithEvidence. destruct (normalizeCompleteStepCommand others c) as [c'|e] eqn:En; [|done].
    destruct (normalize_complete_authority _ _ _ En) as [_ Hc]. destruct (_ != _); [done|].
    rewrite Hc, Hid. apply noted_step. intros d. apply records_complete.
  - unfold FailStep. destruct (normalizeFailStepCommand c) as [c'|e] eqn:En; [|done].
    destruct (normalize_fail_authority _ _ En) as [_ Hc]. rewrite Hc, Hid. apply noted_step. intros d. apply records_fail.
  - unfold InterruptJob. rewrite Hid. apply noted_owner. intros d. apply records_interrupt.
  - unfold ReplanJob. rewrite Hid. apply noted_owner. intros d. apply records_replan.
  - eapply noted_transact. rewrite <- Hid. apply records_resume.
  - unfold CancelJob. eapply (noted_transact (fun _ => True)). intros t x t' Ho (result & t1 & E1 & E)%tx_bind_ok. subst id.
    destruct (records_cancel_tx env others c _ _ _ Ho E1) as [Hc _]. split; [|done].
    eapply committed_kept, Hc. match type of E with ?k _ = _ => assert (keeps preserved k) as Hk by keeping end. exact (Hk _ _ _ E).
  - unfold SubmitJobFeedback. rewrite Hid. apply noted_owner. intros d. apply records_feedback.
Qed.
End once.

(** An accepted command is recorded with its content, whether it was applied or repeats
    its record. *)
Lemma accepted_recorded {World} env others op id (st st' : State World) : registered st.1 -> command_id op = Some id -> perform env others op st = (Ok tt, st') ->
  exists rec, operations st'.1 !! id = Some rec /\ command_content others op = Ok (op_Kind rec, op_Payload rec).
Proof.
  intros Hr Hid E. destruct (operations st.1 !! id) as [rec|] eqn:Eo.
  - destruct (repeated_inert env others st id rec Hr Eo op Hid) as (r & E' & Hc & _). rewrite E in E'. injection E' as <- ->. eauto.
  - pose proof (noted_command env others st id Eo op Hid) as Hn. rewrite E in Hn. by apply Hn.
Qed.
