(* ===== verification/JobInv.v ===== *)
(** * Statements and well-formed jobs

    Inversion of the statements of [JobStore]: the rows a transaction that returned has
    read and written; the parts of a transaction that leave jobs, generations, steps and
    attempts alone.  The invariant of the job tables: how steps belong to the generations
    of their job, how attempts are numbered, which steps may have started, and what the
    status of a job says of its steps; and the changes that keep it. *)
From Stdlib Require Import Ascii.
From S2P Require Import Prelude Schema PathIdentity UserIntent JsonCodec Scrum Jobs JobStore JobCommands JobSteps JobControl JobFacts JobReach.
From stdpp Require Import sorting base tactics strings list gmap numbers pretty.
From stdpp Require Import list options.
Open Scope Z_scope.
Open Scope go_scope.

(** ** What the statements do *)

(** Jobs, generations, steps and attempts are the same. *)
Record frame (s s' : Store) : Prop := {
  fr_jobs : jobs s' = jobs s; fr_generations : generations s' = generations s; fr_steps : steps s' = steps s; fr_attempts : attempts s' = attempts s
}.
#[global] Instance frame_preorder : PreOrder frame.
Proof. split; [by constructor|]. intros a b c [] []. constructor; congruence. Qed.

(** The rows of a map a condition selects are set. *)
Definition alter_where {K A} `{Countable K} (p : K -> A -> bool) (set : A -> A) (m : gmap K A) : gmap K A :=
  map_imap (fun k x => Some (if p k x then set x else x)) m.
Lemma alter_where_lookup {K A} `{Countable K} (p : K -> A -> bool) (set : A -> A) (m : gmap K A) k :
  alter_where p set m !! k = (fun x => if p k x then set x else x) <$> m !! k.
Proof. unfold alter_where. rewrite map_lookup_imap. by destruct (m !! k). Qed.

(** Rows are appended under ascending identifiers. *)
Inductive appended : list StepRow -> gmap Z StepRow -> gmap Z StepRow -> Prop :=
| appended_nil m : appended [] m m
| appended_cons x l id m m' : 0 < id -> (forall other y, m !! other = Some y -> other < id) -> appended l (<[id := x]> m) m' -> appended (x :: l) m m'.
Lemma appended_old l m m' id x : appended l m m' -> m !! id = Some x -> m' !! id = Some x.
Proof.
  induction 1 as [|y l k m m' _ Hk _ IH]; [done|]. intros Hx. apply IH. rewrite lookup_insert_ne; [done|]. intros ->. specialize (Hk _ _ Hx). lia.
Qed.
Lemma appended_lookup l m m' id x : appended l m m' -> m' !! id = Some x -> m !! id = Some x \/ (0 < id /\ (forall other y, m !! other = Some y -> other < id) /\ x ∈ l).
Proof.
  induction 1 as [|y l k m m' Hpos Hk _ IH]; [by left|]. intros Hx. destruct (IH Hx) as [[(<- & <-)|(Hn & Hm)]%lookup_insert_Some|(Hp & Hlt & Hin)].
  - right. split; [done|]. split; [done|]. by left.
  - by left.
  - right. split; [done|]. split; [|by right]. intros other z Hz. pose proof (Hlt k y ltac:(by rewrite lookup_insert_eq)). specialize (Hk _ _ Hz). lia.
Qed.
(** Two appended rows stand in the order of their identifiers. *)
Lemma appended_order (R : StepRow -> StepRow -> Prop) l m m' i k x y : appended l m m' -> StronglySorted R l -> m !! i = None -> m !! k = None ->
  m' !! i = Some x -> m' !! k = Some y -> i < k -> R x y.
Proof.
  induction 1 as [|z l id m m' Hpos Hid Happ IH]; [congruence|]. intros [Hs Hall]%StronglySorted_inv Hi Hk Hx Hy Hlt.
  destruct (decide (i = id)) as [->|Hni].
  - rewrite (appended_old _ _ _ id z Happ ltac:(by rewrite lookup_insert_eq)) in Hx. injection Hx as <-.
    destruct (appended_lookup _ _ _ _ _ Happ Hy) as [[(<- & _)|(_ & Hm)]%lookup_insert_Some|(_ & _ & Hin)]; [lia|congruence|].
    by eapply Forall_forall in Hall.
  - destruct (decide (k = id)) as [->|Hnk].
    + destruct (appended_lookup _ _ _ _ _ Happ Hx) as [[(<- & _)|(_ & Hm)]%lookup_insert_Some|(_ & Hlater & _)]; [done|congruence|].
      specialize (Hlater id z ltac:(by rewrite lookup_insert_eq)). lia.
    + apply IH; [done|by rewrite lookup_insert_ne|by rewrite lookup_insert_ne|done..].
Qed.

Section exact.
Context {World : Type} (env : Env) (others : Others World).
Implicit Types t : Tx World.
Definition with_store t (s : Store) : Tx World := mkTx s (tx_world t) (tx_tick t) (tx_draw t) (tx_recorded t).

Lemma update_job_ok j p set t b t' : update_job j p set t = Ok (b, t') ->
  (b = true /\ exists job, jobs (tx_store t) !! j = Some job /\ p job = true /\ job_change_allowed (tx_store t) j job (set job) = true /\
    job_constraints (tx_store t) j (set job) = true /\ t' = with_store t (tx_store t <| jobs := <[j := set job]> (jobs (tx_store t)) |>)) \/
  (b = false /\ t' = t /\ forall job, jobs (tx_store t) !! j = Some job -> p job = false).
Proof.
  unfold update_job. intros E. follow E. unfold id in E. destruct (jobs (tx_store t) !! j) as [job|] eqn:Ej; [|right; by follow E].
  destruct (p job) eqn:Ep; [|right; follow E; repeat split; congruence]. follow E. injection E as <- <-. guards. left. eauto 10.
Qed.
Lemma update_step_ok id p set t b t' : update_step id p set t = Ok (b, t') ->
  (b = true /\ exists step, steps (tx_store t) !! id = Some step /\ p step = true /\ step_change_allowed (tx_store t) id step (set step) = true /\
    step_constraints (tx_store t) (set step) = true /\ t' = with_store t (tx_store t <| steps := <[id := set step]> (steps (tx_store t)) |>)) \/
  (b = false /\ t' = t /\ forall step, steps (tx_store t) !! id = Some step -> p step = false).
Proof.
  unfold update_step. intros E. follow E. cbv [Datatypes.id] in E. destruct (steps _ !! id) as [step|] eqn:Ej; [|right; by follow E].
  destruct (p step) eqn:Ep; [|right; follow E; repeat split; congruence]. follow E. injection E as <- <-. guards. left. eauto 10.
Qed.
Lemma update_attempt_ok j g id n status p set t b t' : update_attempt others j g id n status p set t = Ok (b, t') ->
  (b = true /\ exists a w, attempts (tx_store t) !! (id, n) = Some a /\ attempt_of j g a = true /\ p a = true /\
    attempt_change_allowed a (set a) = true /\ attempt_constraints (id, n) (set a) = true /\
    t' = mkTx (tx_store t <| attempts := <[(id, n) := set a]> (attempts (tx_store t)) |>) w (tx_tick t) (tx_draw t) (tx_recorded t)) \/
  (b = false /\ t' = t /\ forall a, attempts (tx_store t) !! (id, n) = Some a -> (attempt_of j g a && p a)%bool = false).
Proof.
  unfold update_attempt. intros E. follow E. cbv [Datatypes.id] in E. destruct (attempts _ !! (id, n)) as [a|] eqn:Ej; [|right; by follow E].
  destruct (_ && _)%bool eqn:Ep; [|right; follow E; repeat split; congruence]. follow E. guards.
  apply tx_bind_ok in E as ([] & t1 & E1 & E). injection E as <- <-. left. split; [done|].
  assert (exists w, t1 = mkTx (tx_store t) w (tx_tick t) (tx_draw t) (tx_recorded t)) as [w ->].
  { destruct status; [|apply ret_ok in E1 as [_ ->]; exists (tx_world t); by destruct t]. unfold calls in E1. destruct (o_outcomes _ _ _ _ _ _); [|done]. injection E1 as <-. eauto. }
  exists a, w. auto 10.
Qed.
Lemma insert_attempt_ok id n a t x t' : insert_attempt (World := World) id n a t = Ok (x, t') -> exists step, steps (tx_store t) !! id = Some step /\
  step_JobID step = attempt_JobID a /\ step_Generation step = attempt_Generation a /\ n = step_CurrentAttempt step + 1 /\ active a = true /\
  attempts (tx_store t) !! (id, n) = None /\ active_attempt id (tx_store t) = false /\
  t' = with_store t (tx_store t <| attempts := <[(id, n) := a]> (attempts (tx_store t)) |>).
Proof.
  unfold insert_attempt. intros E. follow E. cbv [Datatypes.id] in E. destruct (steps _ !! id) as [step|]; follow E. injection E as <- <-. guards.
  exists step. auto 12.
Qed.
Lemma insert_step_ok step t x t' : insert_step env step t = Ok (x, t') -> exists id k, 0 < id /\
  (forall other x, steps (tx_store t) !! other = Some x -> other < id) /\ step_constraints (tx_store t) step = true /\
  t' = mkTx (tx_store t <| steps := <[id := step]> (steps (tx_store t)) |>) (tx_world t) (tx_tick t) k (tx_recorded t).
Proof.
  unfold insert_step. intros E. apply tx_bind_ok in E as (id & t1 & E1 & E). injection E1 as <- <-. follow E. injection E as <- <-.
  match goal with H : (_ || _)%bool = false |- _ => apply orb_false_elim in H as [Hids Hpos] end. guards.
  eexists _, _. split; [exact Hpos|]. split; [|split; [done|reflexivity]].
  intros other y Hy. pose proof (proj1 (exists_row_false _ _) Hids _ _ Hy) as Hlt. simpl in Hlt. guards. done.
Qed.
Lemma insert_job_ok job t j t' : insert_job env job t = Ok (j, t') -> exists k, 0 < j /\
  (forall other x, jobs (tx_store t) !! other = Some x -> other < j) /\ job_constraints (tx_store t) j job = true /\
  t' = mkTx (tx_store t <| jobs := <[j := job]> (jobs (tx_store t)) |>) (tx_world t) (tx_tick t) k (tx_recorded t).
Proof.
  unfold insert_job. intros E. apply tx_bind_ok in E as (id & t1 & E1 & E). injection E1 as <- <-. follow E. injection E as <- <-.
  match goal with H : (_ || _)%bool = false |- _ => apply orb_false_elim in H as [Hids Hpos] end. guards.
  eexists _. split; [exact Hpos|]. split; [|split; [done|reflexivity]].
  intros other y Hy. pose proof (proj1 (exists_row_false _ _) Hids _ _ Hy) as Hlt. simpl in Hlt. guards. done.
Qed.
Lemma insert_generation_ok j g x t y t' : insert_generation j g x t = Ok (y, t') -> generations (tx_store t) !! (j, g) = None /\
  is_Some (jobs (tx_store t) !! j) /\ generation_shape g x = true /\
  t' = with_store t (tx_store t <| generations := <[(j, g) := x]> (generations (tx_store t)) |>).
Proof. unfold insert_generation. intros E. follow E. injection E as <- <-. guards. auto. Qed.
Lemma clock_ok t x t' : clock env t = Ok (x, t') -> x = env_clock env (tx_tick t) /\
  t' = mkTx (tx_store t) (tx_world t) (S (tx_tick t)) (tx_draw t) (tx_recorded t).
Proof. by intros [= <- <-]. Qed.
Lemma asks_ok {A} (f : Store -> World -> A) t x t' : asks f t = Ok (x, t') -> x = f (tx_store t) (tx_world t) /\ t' = t.
Proof. by intros [= <- <-]. Qed.
Lemma calls_ok f t x t' : calls f t = Ok (x, t') -> exists w, f (tx_store t) (tx_world t) = Ok w /\
  t' = mkTx (tx_store t) w (tx_tick t) (tx_draw t) (tx_recorded t).
Proof. unfold calls. destruct (f _ _) as [w|]; [|done]. intros [= <- <-]. eauto. Qed.
Lemma scan_ok j t x t' : scanLockedJobTx j t = Ok (x, t') -> exists job, jobs (tx_store t) !! j = Some job /\ x = (j, job) /\ t' = t.
Proof. unfold scanLockedJobTx. intros E. follow E. destruct (jobs _ !! j) as [job|]; follow E. eauto. Qed.

(** *** Loops *)
Lemma insert_steps_ok (l : list StepRow) t x t' : each (insert_step env) l t = Ok (x, t') -> exists m k, appended l (steps (tx_store t)) m /\
  t' = mkTx (tx_store t <| steps := m |>) (tx_world t) (tx_tick t) k (tx_recorded t).
Proof.
  revert t. induction l as [|y l IH]; intros t E.
  - apply ret_ok in E as [_ ->]. exists (steps (tx_store t)), (tx_draw t). split; [constructor|by destruct t as [[] ]].
  - cbn [each] in E. apply tx_bind_ok in E as ([] & t1 & E1 & E). apply insert_step_ok in E1 as (id & k & Hpos & Hids & _ & ->).
    apply IH in E as (m & k' & Happ & ->). exists m, k'. split; [by econstructor|done].
Qed.
Lemma each_map {A B} (f : B -> tx World unit) (g : A -> B) (l : list A) : each (fun x => f (g x)) l = each f (g <$> l).
Proof. induction l as [|x l IH]; [done|]. cbn. by rewrite IH. Qed.
Lemma each_steps_ok set (l : list (Z * StepRow)) t x t' :
  NoDup l.*1 -> (forall id step, (id, step) ∈ l -> steps (tx_store t) !! id = Some step) ->
  each (fun row => exec update_step row.1 (fun _ => true) set; ret tt) l t = Ok (x, t') ->
  exists m, t' = with_store t (tx_store t <| steps := m |>) /\ forall id, m !! id = (fun step => if bool_decide (id ∈ l.*1) then set step else step) <$> steps (tx_store t) !! id.
Proof.
  revert t. induction l as [|[id step] l IH]; intros t Hn Hl E.
  - apply ret_ok in E as [_ ->]. exists (steps (tx_store t)). split; [by destruct t as [[] ]|]. intros id. by destruct (_ !! id).
  - cbn [each] in E. apply tx_bind_ok in E as ([] & t1 & E1 & E). apply tx_bind_ok in E1 as (b & t2 & E1 & E2). apply ret_ok in E2 as [_ ->].
    apply NoDup_cons in Hn as [Hn1 Hn]. pose proof (Hl id step ltac:(by left)) as Hid. simpl in Hn1.
    apply update_step_ok in E1 as [(-> & step' & Hs & _ & _ & _ & ->)|(_ & _ & Hs)]; [|by specialize (Hs _ Hid)]. simpl in Hs. simplify_eq.
    apply IH in E as (m & -> & Hm); [|done|].
    + exists m. split; [done|]. intros i. rewrite Hm, fmap_cons. row_simpl. cbn [with_store tx_store fst]. row_simpl. destruct (decide (i = id)) as [->|Hi].
      * rewrite lookup_insert_eq, Hs. simpl. rewrite bool_decide_eq_false_2 by done. by rewrite bool_decide_eq_true_2 by (by left).
      * rewrite lookup_insert_ne by done. destruct (steps _ !! i); [|done]. simpl.
        by rewrite (bool_decide_ext (i ∈ id :: l.*1) (i ∈ l.*1)) by (rewrite elem_of_cons; tauto).
    + intros i y Hy. simpl. rewrite lookup_insert_ne; [by apply Hl; right|]. intros ->. apply Hn1. apply list_elem_of_fmap. by exists (i, y).
Qed.
Lemma update_steps_ok p set t n t' : update_steps p set t = Ok (n, t') -> n = Z.of_nat (length (steps_by_id p (tx_store t))) /\
  t' = with_store t (tx_store t <| steps := alter_where p set (steps (tx_store t)) |>).
Proof.
  unfold update_steps. intros E. follow E. apply tx_bind_ok in E as ([] & t1 & E1 & E). apply ret_ok in E as [-> ->].
  apply each_steps_ok in E1 as (m & -> & Hm); [|apply steps_by_id_nodup|by intros id step [? _]%steps_by_id_spec].
  split; [done|]. assert (m = alter_where p set (steps (tx_store t))) as ->; [|done]. apply map_eq. intros id. rewrite Hm, alter_where_lookup. destruct (steps _ !! id) as [step|] eqn:Es; [|done]. simpl. f_equal.
  destruct (p id step) eqn:Ep; [rewrite bool_decide_eq_true_2; [done|]|rewrite bool_decide_eq_false_2; [done|]].
  - apply list_elem_of_fmap. exists (id, step). by rewrite steps_by_id_spec.
  - intros ([i y] & Hi & [Hy Hp]%steps_by_id_spec)%list_elem_of_fmap. simpl in Hi. subst i. congruence.
Qed.
End exact.

(** ** Well-formed jobs *)

Definition seed_of (x : StepRow) : stepSeed := mkSeed (step_Action x) (step_SortIndex x).
(** A step of the current generation of its job. *)
Definition current_step (s : Store) (j id : Z) (x : StepRow) : Prop := steps s !! id = Some x /\ step_JobID x = j /\ unsuperseded x = true.
Definition closed_job (job : JobRow) : Prop := job_Status job = StatusCompleted \/ job_Status job = StatusCanceled.
(** A step that was claimed, or that failed. *)
Definition started (x : StepRow) : Prop := 0 < step_CurrentAttempt x \/ step_Status x = StatusFailed.
(** A failed step that no later step of the same position follows. *)
Definition failed_last (s : Store) (j id : Z) (x : StepRow) : Prop :=
  current_step s j id x /\ step_Status x = StatusFailed /\ forall i y, current_step s j i y -> step_SortIndex y = step_SortIndex x -> i <= id.
(** The checks of one row of [jobs]. *)
Definition job_row (job : JobRow) : bool :=
  ((0 <? job_CurrentGeneration job) && bool_decide (job_Pipeline job ∈ ["chat"; "coding"; "scrum"]) &&
   match job_Metadata job with VObject _ => true | _ => false end &&
   forallb (fun key => is_none (metadata_get key (job_Metadata job))) retired_metadata_keys)%bool.
Definition channel_of (job : JobRow) : option text := metadata_text "channel_id" job.

Record well_formed (s : Store) : Prop := {
  (* a step belongs to a generation of its job, and is current exactly in the last one *)
  wf_step : forall id x, steps s !! id = Some x -> 0 <= step_CurrentAttempt x /\ exists job, jobs s !! step_JobID x = Some job /\
    1 <= step_Generation x <= job_CurrentGeneration job /\ (unsuperseded x = true <-> step_Generation x = job_CurrentGeneration job);
  (* superseded steps are over *)
  wf_retired : forall id x, steps s !! id = Some x -> unsuperseded x = false -> open_status (step_Status x) = false;
  (* the steps of a generation come from one pipeline *)
  wf_seeds : forall i x k y, steps s !! i = Some x -> steps s !! k = Some y -> step_JobID x = step_JobID y -> step_Generation x = step_Generation y ->
    exists objective, seed_of x ∈ pipeline_steps objective /\ seed_of y ∈ pipeline_steps objective;
  (* the attempts of a step are numbered from 1 to the current one *)
  wf_numbers : forall id n, is_Some (attempts s !! (id, n)) <-> exists x, steps s !! id = Some x /\ 1 <= n <= step_CurrentAttempt x;
  (* only the current one can be active *)
  wf_attempt : forall id n a x, attempts s !! (id, n) = Some a -> steps s !! id = Some x ->
    attempt_JobID a = step_JobID x /\ attempt_Generation a = step_Generation x /\ (n < step_CurrentAttempt x -> active a = false);
  (* a running step has an attempt by its worker *)
  wf_running : forall id x, steps s !! id = Some x -> step_Status x = StatusRunning ->
    0 < step_CurrentAttempt x /\ exists a, attempts s !! (id, step_CurrentAttempt x) = Some a /\ step_WorkerID x = Some (attempt_WorkerID a);
  (* what comes before a started step is completed *)
  wf_order : forall j i x k y, current_step s j i x -> current_step s j k y -> started x -> step_SortIndex y < step_SortIndex x -> step_Status y = StatusCompleted;
  (* two steps share a position only when the first is a failed execution *)
  wf_recovered : forall j i x k y, current_step s j i x -> current_step s j k y -> step_SortIndex x = step_SortIndex y -> i < k ->
    step_Status x = StatusFailed /\ step_Action x = "v3_coding";
  wf_failed : forall j job, jobs s !! j = Some job -> job_Status job = StatusFailed -> exists id x, failed_last s j id x;
  wf_closed : forall j job id x, jobs s !! j = Some job -> closed_job job -> current_step s j id x -> open_status (step_Status x) = false;
  wf_finished : forall j job, jobs s !! j = Some job -> (terminalJobStatus (job_Status job) = true <-> is_Some (job_CompletedAt job));
  wf_generations : forall j g, is_Some (generations s !! (j, g)) <-> exists job, jobs s !! j = Some job /\ 1 <= g <= job_CurrentGeneration job;
  wf_row : forall j job, jobs s !! j = Some job -> job_row job = true;
  (* a channel has one open job *)
  wf_channel : forall i job k other, jobs s !! i = Some job -> jobs s !! k = Some other -> i <> k -> open_status (job_Status job) = true ->
    open_status (job_Status other) = true -> is_Some (channel_of job) -> channel_of job <> channel_of other
}.

Lemma well_formed_frame s s' : frame s s' -> well_formed s -> well_formed s'.
Proof.
  intros [Hj Hg Hs Ha] H. destruct s as [j g st a r o l e], s' as [j' g' st' a' r' o' l' e']. simpl in *. subst.
  destruct H. constructor; assumption.
Qed.

(** ** Attempts change *)

(** The same attempts of the same workers, active only if they were. *)
Definition attempt_less (a a' : AttemptRow) : Prop := attempt_JobID a' = attempt_JobID a /\ attempt_Generation a' = attempt_Generation a /\
  attempt_WorkerID a' = attempt_WorkerID a /\ (active a' = true -> active a = true).
Definition attempts_less (m m' : gmap (Z * Z) AttemptRow) : Prop :=
  forall key, match m !! key, m' !! key with Some a, Some a' => attempt_less a a' | None, None => True | _, _ => False end.
#[global] Instance attempts_less_preorder : PreOrder attempts_less.
Proof.
  split.
  - intros m key. destruct (m !! key); [|done]. by repeat split.
  - intros m1 m2 m3 H1 H2 key. specialize (H1 key). specialize (H2 key). destruct (m1 !! key), (m2 !! key), (m3 !! key); try done.
    destruct H1 as (?&?&?&?), H2 as (?&?&?&?). repeat split; [congruence..|auto].
Qed.
Lemma attempts_less_update m key a a' : m !! key = Some a -> attempt_less a a' -> attempts_less m (<[key := a']> m).
Proof.
  intros Hk Ha i. destruct (decide (i = key)) as [->|Hn]; [by rewrite lookup_insert_eq, Hk|]. rewrite lookup_insert_ne by done. destruct (m !! i); by repeat split.
Qed.
Lemma attempt_change_less a a' : attempt_change_allowed a a' = true -> attempt_less a a'.
Proof. unfold attempt_change_allowed. intros H. guards. by repeat split. Qed.
Lemma wf_attempts s m : well_formed s -> attempts_less (attempts s) m -> well_formed (s <| attempts := m |>).
Proof.
  intros H Hm. destruct H. constructor; row_simpl; try assumption.
  - intros id n. rewrite <- wf_numbers0. specialize (Hm (id, n)). destruct (attempts s !! _), (m !! _); naive_solver.
  - intros id n a x Ha Hx. specialize (Hm (id, n)). rewrite Ha in Hm. destruct (attempts s !! _) as [b|] eqn:Hb; [|done].
    destruct Hm as (Ej & Eg & _ & Hact). destruct (wf_attempt0 _ _ _ _ Hb Hx) as (Hj & Hg & Hlt). split; [congruence|]. split; [congruence|].
    intros Hn. specialize (Hlt Hn). destruct (active a); [by rewrite Hact in Hlt|done].
  - intros id x Hx Hr. destruct (wf_running0 _ _ Hx Hr) as (Hpos & a & Ha & Hw). split; [done|]. specialize (Hm (id, step_CurrentAttempt x)).
    rewrite Ha in Hm. destruct (m !! _) as [b|]; [|done]. destruct Hm as (_ & _ & Hb & _). exists b. split; [done|congruence].
Qed.

(** ** Steps change *)

Record step_moved (s : Store) (id : Z) (x x' : StepRow) : Prop := {
  sm_job : step_JobID x' = step_JobID x; sm_generation : step_Generation x' = step_Generation x; sm_action : step_Action x' = step_Action x;
  sm_sort : step_SortIndex x' = step_SortIndex x; sm_superseded : step_SupersededAtGeneration x' = step_SupersededAtGeneration x;
  sm_attempt : step_CurrentAttempt x' = step_CurrentAttempt x;
  sm_current : unsuperseded x = true; sm_completed : step_Status x = StatusCompleted -> step_Status x' = StatusCompleted;
  sm_failed : step_Status x = StatusFailed -> step_Status x' = StatusFailed;
  sm_started : step_Status x' = StatusFailed -> started x;
  sm_running : step_Status x' = StatusRunning -> 0 < step_CurrentAttempt x /\ exists a, attempts s !! (id, step_CurrentAttempt x) = Some a /\
    step_WorkerID x' = Some (attempt_WorkerID a);
  sm_open : open_status (step_Status x') = true -> open_status (step_Status x) = true \/
    forall job, jobs s !! step_JobID x = Some job -> ~ closed_job job
}.
Definition steps_moved (s : Store) (m : gmap Z StepRow) : Prop :=
  forall id, match steps s !! id, m !! id with Some x, Some x' => x' = x \/ step_moved s id x x' | None, None => True | _, _ => False end.
Section steps_moved.
Context (s : Store) (m : gmap Z StepRow) (Hm : steps_moved s m).
Lemma moved_back id x' : m !! id = Some x' -> exists x, steps s !! id = Some x /\ (x' = x \/ step_moved s id x x').
Proof using Type*. intros Hx. specialize (Hm id). rewrite Hx in Hm. destruct (steps s !! id) as [x|]; [|done]. eauto. Qed.
Lemma moved_forth id x : steps s !! id = Some x -> exists x', m !! id = Some x' /\ (x' = x \/ step_moved s id x x').
Proof using Type*. intros Hx. specialize (Hm id). rewrite Hx in Hm. destruct (m !! id) as [x'|]; [|done]. eauto. Qed.
Lemma moved_current j id x' : current_step (s <| steps := m |>) j id x' -> exists x, current_step s j id x /\ step_SortIndex x' = step_SortIndex x /\
  step_Action x' = step_Action x /\ step_CurrentAttempt x' = step_CurrentAttempt x /\ (x' = x \/ step_moved s id x x').
Proof using Type*.
  intros (Hx & Hj & Hu). row_simpl. destruct (moved_back _ _ Hx) as (x & Hs & [->|Hmv]); exists x; [by repeat split; auto|].
  destruct Hmv. unfold current_step, unsuperseded in *. repeat split; try congruence. by right; constructor.
Qed.
End steps_moved.
(** The same rows but for their status, worker, results and times. *)
Definition same_row (x x' : StepRow) : Prop := step_JobID x' = step_JobID x /\ step_Generation x' = step_Generation x /\ seed_of x' = seed_of x /\
  step_SupersededAtGeneration x' = step_SupersededAtGeneration x /\ step_CurrentAttempt x' = step_CurrentAttempt x.
Lemma wf_statuses s m : well_formed s ->
  (forall id, match steps s !! id, m !! id with Some x, Some x' => x' = x \/ (unsuperseded x = true /\ same_row x x') | None, None => True | _, _ => False end) ->
  (forall id x, m !! id = Some x -> step_Status x = StatusRunning ->
     0 < step_CurrentAttempt x /\ exists a, attempts s !! (id, step_CurrentAttempt x) = Some a /\ step_WorkerID x = Some (attempt_WorkerID a)) ->
  (let s' := s <| steps := m |> in
   (forall j i x k y, current_step s' j i x -> current_step s' j k y -> started x -> step_SortIndex y < step_SortIndex x -> step_Status y = StatusCompleted) /\
   (forall j i x k y, current_step s' j i x -> current_step s' j k y -> step_SortIndex x = step_SortIndex y -> i < k ->
      step_Status x = StatusFailed /\ step_Action x = "v3_coding") /\
   (forall j job, jobs s !! j = Some job -> job_Status job = StatusFailed -> exists id x, failed_last s' j id x) /\
   (forall j job id x, jobs s !! j = Some job -> closed_job job -> current_step s' j id x -> open_status (step_Status x) = false)) ->
  well_formed (s <| steps := m |>).
Proof.
  intros H Hm Hrun (Hord & Hrec & Hfail & Hcl).
  assert (forall id x', m !! id = Some x' -> exists x, steps s !! id = Some x /\ same_row x x' /\ (x' = x \/ unsuperseded x = true)) as Hback.
  { intros id x' Hx'. specialize (Hm id). rewrite Hx' in Hm. destruct (steps s !! id) as [x|]; [|done]. exists x.
    split; [done|]. destruct Hm as [->|[? ?]]; [by repeat split; auto|auto]. }
  assert (forall id x, steps s !! id = Some x -> exists x', m !! id = Some x' /\ same_row x x') as Hforth.
  { intros id x Hx. specialize (Hm id). rewrite Hx in Hm. destruct (m !! id) as [x'|]; [|done]. exists x'.
    split; [done|]. by destruct Hm as [->|[? ?]]. }
  constructor; row_simpl; try assumption; try apply H.
  - intros id x' Hx'. destruct (Hback _ _ Hx') as (x & Hx & (-> & -> & _ & Es & ->) & _). unfold unsuperseded. rewrite Es. by apply (wf_step s H _ _ Hx).
  - intros id x' Hx' Hu. destruct (Hback _ _ Hx') as (x & Hx & (_ & _ & _ & Es & _) & [->|Hux]); [by eapply (wf_retired s H)|]. unfold unsuperseded in *. congruence.
  - intros i x' k y' Hx' Hy' Hj Hg. destruct (Hback _ _ Hx') as (x & Hx & (Ej & Eg & -> & _) & _). destruct (Hback _ _ Hy') as (y & Hy & (Ej' & Eg' & -> & _) & _).
    apply (wf_seeds s H i x k y); congruence.
  - intros id n. rewrite (wf_numbers s H). split.
    + intros (x & Hx & Hn). destruct (Hforth _ _ Hx) as (x' & Hx' & (_ & _ & _ & _ & E)). exists x'. split; [done|congruence].
    + intros (x' & Hx' & Hn). destruct (Hback _ _ Hx') as (x & Hx & (_ & _ & _ & _ & E) & _). exists x. split; [done|congruence].
  - intros id n a x' Ha Hx'. destruct (Hback _ _ Hx') as (x & Hx & (-> & -> & _ & _ & ->) & _). by apply (wf_attempt s H id n).
Qed.
Lemma wf_steps s m : well_formed s -> steps_moved s m -> well_formed (s <| steps := m |>).
Proof.
  intros H Hm. apply wf_statuses; [done| | |].
  - intros id. specialize (Hm id). destruct (steps s !! id) as [x|], (m !! id) as [x'|]; try done. destruct Hm as [->|[]]; [by left|right].
    unfold same_row, seed_of. repeat split; congruence.
  - intros id x' Hx' Hr. destruct (moved_back _ _ Hm _ _ Hx') as (x & Hx & [->|[]]); [by eapply (wf_running s H)|]. rewrite sm_attempt0. auto.
  - cbv zeta. split; [|split; [|split]].
    + intros j i x' k y' Hx' Hy' Hst Hlt. destruct (moved_current _ _ Hm _ _ _ Hx') as (x & Hx & Sx & _ & Cx & Mx).
      destruct (moved_current _ _ Hm _ _ _ Hy') as (y & Hy & Sy & _ & _ & My). rewrite Sx, Sy in Hlt.
      assert (started x) as Hsx. { destruct Hst as [Hp|Hf]; [left; congruence|]. destruct Mx as [->|[]]; [by right|auto]. }
      pose proof (wf_order s H _ _ _ _ _ Hx Hy Hsx Hlt) as Hc. destruct My as [->|[]]; auto.
    + intros j i x' k y' Hx' Hy' He Hlt. destruct (moved_current _ _ Hm _ _ _ Hx') as (x & Hx & Sx & Ax & _ & Mx).
      destruct (moved_current _ _ Hm _ _ _ Hy') as (y & Hy & Sy & _). destruct (wf_recovered s H j i x k y Hx Hy ltac:(congruence) Hlt) as [Hf Ha].
      split; [|congruence]. destruct Mx as [->|[]]; auto.
    + intros j job Hj Hf. destruct (wf_failed s H _ _ Hj Hf) as (id & x & (Hx & Hxj & Hxu) & Hxf & Hmax).
      destruct (moved_forth _ _ Hm _ _ Hx) as (x' & Hx' & Mx). exists id, x'. split; [|split].
      * unfold current_step, unsuperseded in *. row_simpl. destruct Mx as [->|[]]; repeat split; congruence.
      * destruct Mx as [->|[]]; auto.
      * intros i y' Hy' Hs. destruct (moved_current _ _ Hm _ _ _ Hy') as (y & Hy & Sy & _). apply (Hmax _ _ Hy). destruct Mx as [->|[]]; congruence.
    + intros j job id x' Hj Hc Hx'. destruct (moved_current _ _ Hm _ _ _ Hx') as (x & Hx & _ & _ & _ & Mx).
      pose proof (wf_closed s H _ _ _ _ Hj Hc Hx) as Ho. destruct Mx as [->|[]]; [done|]. apply not_true_iff_false. intros Ho'.
      destruct (sm_open0 Ho') as [|Hnc]; [congruence|]. destruct Hx as (_ & <- & _). by apply (Hnc job).
Qed.
Lemma steps_moved_one s id x x' : steps s !! id = Some x -> step_moved s id x x' -> steps_moved s (<[id := x']> (steps s)).
Proof.
  intros Hx Hm i. destruct (decide (i = id)) as [->|Hn]; [rewrite lookup_insert_eq, Hx; auto|]. rewrite lookup_insert_ne by done. destruct (steps s !! i); auto.
Qed.
Lemma steps_moved_where s p set : (forall id x, steps s !! id = Some x -> p id x = true -> step_moved s id x (set x)) -> steps_moved s (alter_where p set (steps s)).
Proof. intros H id. rewrite alter_where_lookup. destruct (steps s !! id) as [x|] eqn:Hx; [|done]. simpl. destruct (p id x) eqn:Hp; auto. Qed.

(** ** A job changes *)

Lemma constraints_row s j job : job_constraints s j job = true -> job_row job = true.
Proof. unfold job_constraints, job_row. intros H. apply andb_prop in H as [H _]. exact H. Qed.
Lemma channel_free_other s j job k other : job_constraints s j job = true -> open_status (job_Status job) = true -> is_Some (channel_of job) ->
  jobs s !! k = Some other -> k <> j -> open_status (job_Status other) = true -> channel_of other <> channel_of job.
Proof.
  unfold job_constraints, channel_free, active_job_status. intros Hc Ho [c Hch] Hk Hd Hoo He. unfold channel_of in *. guards.
  rewrite Ho, Hch in *. simpl in *. guards. match goal with H : exists_row _ _ = false |- _ => pose proof (proj1 (exists_row_false _ _) H _ _ Hk) as Hf end.
  simpl in Hf. rewrite Hoo, He, (bool_decide_eq_false_2 (k = j)), bool_decide_eq_true_2 in Hf by done. done.
Qed.
Definition channels_free (m : gmap Z JobRow) : Prop := forall i job k other, m !! i = Some job -> m !! k = Some other -> i <> k ->
  open_status (job_Status job) = true -> open_status (job_Status other) = true -> is_Some (channel_of job) -> channel_of job <> channel_of other.
Lemma wf_channel_insert s j job : channels_free (jobs s) -> job_constraints s j job = true -> channels_free (<[j := job]> (jobs s)).
Proof.
  intros H Hc i x k y [(<- & <-)|(Hni & Hi)]%lookup_insert_Some [(<- & <-)|(Hnk & Hk)]%lookup_insert_Some Hne Hx Hy Hch.
  - done.
  - intros He. by eapply channel_free_other.
  - intros He. rewrite He in Hch. by eapply channel_free_other.
  - by apply (H i x k y).
Qed.

Lemma wf_job s j job job' : well_formed s -> jobs s !! j = Some job -> job_CurrentGeneration job' = job_CurrentGeneration job ->
  job_constraints s j job' = true -> (job_Status job' = StatusFailed -> exists id x, failed_last s j id x) ->
  (closed_job job' -> forall id x, current_step s j id x -> open_status (step_Status x) = false) ->
  (terminalJobStatus (job_Status job') = true <-> is_Some (job_CompletedAt job')) -> well_formed (s <| jobs := <[j := job']> (jobs s) |>).
Proof.
  intros H Hj Hg Hc Hf Hcl Hfin. constructor; row_simpl; try apply H.
  - intros id x Hx. destruct (wf_step s H _ _ Hx) as (Hn & old & Ho & Hgen & Hu). split; [done|].
    destruct (decide (step_JobID x = j)) as [<-|Hd]; [|exists old; by rewrite lookup_insert_ne].
    exists job'. rewrite lookup_insert_eq, Hg. simplify_eq. done.
  - intros k other Hk Hfk. destruct (decide (k = j)) as [->|Hd]; [rewrite lookup_insert_eq in Hk; simplify_eq; by apply Hf|].
    rewrite lookup_insert_ne in Hk by done. by apply (wf_failed s H k other).
  - intros k other id x Hk Hck Hx. destruct (decide (k = j)) as [->|Hd]; [rewrite lookup_insert_eq in Hk; simplify_eq; by eapply Hcl|].
    rewrite lookup_insert_ne in Hk by done. by eapply (wf_closed s H k other).
  - intros k other Hk. destruct (decide (k = j)) as [->|Hd]; [rewrite lookup_insert_eq in Hk; by simplify_eq|].
    rewrite lookup_insert_ne in Hk by done. by apply (wf_finished s H k other).
  - intros k g. rewrite (wf_generations s H). destruct (decide (k = j)) as [->|Hd]; [|by rewrite lookup_insert_ne].
    rewrite lookup_insert_eq, Hj. split; intros (o & [= <-] & Hr); eexists; (split; [done|lia]).
  - intros k other [(<- & <-)|(Hd & Hk)]%lookup_insert_Some; [by apply constraints_row in Hc|by apply (wf_row s H k)].
  - exact (wf_channel_insert _ _ _ (wf_channel s H) Hc).
Qed.

(** ** A step is claimed *)

Lemma no_predecessor_spec s x : no_predecessor s x = true <-> forall k y, steps s !! k = Some y -> step_JobID y = step_JobID x -> unsuperseded y = true ->
  step_SortIndex y < step_SortIndex x -> step_Status y = StatusCompleted.
Proof.
  unfold no_predecessor. rewrite negb_true_iff, exists_row_false. split.
  - intros H k y Hy Hj Hu Hlt. specialize (H _ _ Hy). simpl in H. rewrite Hu, bool_decide_eq_true_2 in H by done.
    apply Z.ltb_lt in Hlt. rewrite Hlt in H. simpl in H. by guards.
  - intros H k y Hy. destruct (_ && _ && _)%bool eqn:E; [|done]. guards. exfalso. eauto.
Qed.
Definition claimed_row (worker : string) (at_ : Z) (x : StepRow) : StepRow := x <| step_Status := StatusRunning |> <| step_WorkerID := Some worker |>
  <| step_CurrentAttempt := step_CurrentAttempt x + 1 |> <| step_StartedAt := Some (default at_ (step_StartedAt x)) |> <| step_FinishedAt := None |>.
Section claim.
Context (s : Store) (id : Z) (x : StepRow) (a : AttemptRow) (at_ : Z) (job : JobRow).
Hypotheses (H : well_formed s) (Hx : steps s !! id = Some x) (Hu : unsuperseded x = true) (Hjob : jobs s !! step_JobID x = Some job)
  (Hopen : job_Status job = StatusPending \/ job_Status job = StatusRunning) (Hst : step_Status x = StatusPending \/ step_Status x = StatusRunning)
  (Hpred : no_predecessor s x = true) (Hprev : forall b, attempts s !! (id, step_CurrentAttempt x) = Some b -> active b = false)
  (Haj : attempt_JobID a = step_JobID x) (Hag : attempt_Generation a = step_Generation x).
Definition claimed_store : Store := s <| attempts := <[(id, step_CurrentAttempt x + 1) := a]> (attempts s) |>
  <| steps := <[id := claimed_row (attempt_WorkerID a) at_ x]> (steps s) |>.
Lemma claimed_current j k y : current_step claimed_store j k y -> exists y0, current_step s j k y0 /\ step_SortIndex y = step_SortIndex y0 /\
  step_Action y = step_Action y0 /\ (y = y0 \/ (k = id /\ y0 = x /\ y = claimed_row (attempt_WorkerID a) at_ x)).
Proof using Type*.
  intros (Hy & Hj & Huy). unfold claimed_store in Hy. row_simpl. apply lookup_insert_Some in Hy as [(<- & <-)|(Hn & Hy)].
  - exists x. repeat split; auto.
  - exists y. repeat split; auto.
Qed.
Lemma wf_claim : well_formed claimed_store.
Proof using Type*.
  assert (forall k y, steps claimed_store !! k = Some y -> exists y0, steps s !! k = Some y0 /\ step_JobID y = step_JobID y0 /\
    step_Generation y = step_Generation y0 /\ seed_of y = seed_of y0 /\ unsuperseded y = unsuperseded y0 /\
    (y = y0 \/ (k = id /\ y0 = x /\ y = claimed_row (attempt_WorkerID a) at_ x))) as Hback.
  { unfold claimed_store. row_simpl. intros k y [(<- & <-)|(Hn & Hy)]%lookup_insert_Some; [exists x|exists y]; repeat split; auto. }
  pose proof (wf_step s H _ _ Hx) as [Hcur _]. constructor.
  - intros k y Hy. destruct (Hback _ _ Hy) as (y0 & Hy0 & -> & -> & _ & -> & Hc). destruct (wf_step s H _ _ Hy0) as (Hn & Hr).
    split; [|exact Hr]. destruct Hc as [->|(_ & -> & ->)]; [done|unfold claimed_row; row_simpl; lia].
  - intros k y Hy Huy. destruct (Hback _ _ Hy) as (y0 & Hy0 & _ & _ & _ & E & Hc). destruct Hc as [->|(_ & -> & ->)]; [by eapply (wf_retired s H)|congruence].
  - intros i y k z Hy Hz Hj Hg. destruct (Hback _ _ Hy) as (y0 & Hy0 & E1 & E2 & -> & _). destruct (Hback _ _ Hz) as (z0 & Hz0 & E3 & E4 & -> & _).
    apply (wf_seeds s H i y0 k z0); congruence.
  - intros i n. unfold claimed_store. row_simpl. destruct (decide (i = id)) as [->|Hi].
    + rewrite lookup_insert_eq. destruct (decide (n = step_CurrentAttempt x + 1)) as [->|Hn].
      * rewrite lookup_insert_eq. split; [intros _|by eexists]. eexists. split; [done|]. unfold claimed_row. row_simpl. lia.
      * rewrite lookup_insert_ne by congruence. rewrite (wf_numbers s H). rewrite Hx. unfold claimed_row.
        split; intros (y & [= <-] & Hr); eexists; (split; [done|]); row_simpl; lia.
    + rewrite !lookup_insert_ne by congruence. apply (wf_numbers s H).
  - intros i n b y. unfold claimed_store. row_simpl. intros Hb Hy. apply lookup_insert_Some in Hy as [(<- & <-)|(Hn & Hy)]; apply lookup_insert_Some in Hb as [(E & <-)|(Hnb & Hb)].
    + injection E as <-. unfold claimed_row. row_simpl. split; [done|]. split; [done|lia].
    + destruct (wf_attempt s H _ _ _ _ Hb Hx) as (E1 & E2 & E3). unfold claimed_row. row_simpl. split; [done|]. split; [done|]. intros Hlt.
      destruct (decide (n = step_CurrentAttempt x)) as [->|Hne]; [auto|apply E3; lia].
    + congruence.
    + by apply (wf_attempt s H i n).
  - intros k y Hy Hr. destruct (Hback _ _ Hy) as (y0 & Hy0 & _ & _ & _ & _ & Hc). unfold claimed_store. row_simpl. destruct Hc as [->|(-> & -> & ->)].
    + destruct (wf_running s H _ _ Hy0 Hr) as (Hp & b & Hb & Hw). split; [done|]. exists b. split; [|done]. rewrite lookup_insert_ne; [done|].
      intros E. injection E as -> E. simplify_eq. lia.
    + unfold claimed_row in *. row_simpl. split; [lia|]. exists a. by rewrite lookup_insert_eq.
  - intros j i y k z Hy Hz Hs Hlt. destruct (claimed_current _ _ _ Hy) as (y0 & Cy & Sy & _ & Ey). destruct (claimed_current _ _ _ Hz) as (z0 & Cz & Sz & _ & Ez).
    assert (step_Status z0 = StatusCompleted) as Hz0.
    { destruct Ey as [->|(-> & -> & ->)]; [by apply (wf_order s H j i y0 k z0); [..|congruence]|].
      destruct Cz as (Hk & Hkj & Hku), Cy as (_ & Hyj & _). eapply no_predecessor_spec; [done|exact Hk|congruence|done|congruence]. }
    destruct Ez as [->|(_ & -> & _)]; [done|]. destruct Hst; congruence.
  - intros j i y k z Hy Hz Hs Hlt. destruct (claimed_current _ _ _ Hy) as (y0 & Cy & Sy & Ay & Ey). destruct (claimed_current _ _ _ Hz) as (z0 & Cz & Sz & _).
    destruct (wf_recovered s H j i y0 k z0 Cy Cz ltac:(congruence) Hlt) as [Hf Ha]. destruct Ey as [->|(_ & -> & _)]; [done|]. destruct Hst; congruence.
  - intros j other Hj Hf. destruct (wf_failed s H j other Hj Hf) as (k & y & (Hy & Hyj & Hyu) & Hyf & Hmax). exists k, y.
    assert (k <> id) as Hk. { intros ->. destruct Hst; congruence. } repeat split; [unfold claimed_store; row_simpl; by rewrite lookup_insert_ne|done..|].
    intros i z Hz Hs. destruct (claimed_current _ _ _ Hz) as (z0 & Cz & Sz & _). apply (Hmax _ _ Cz). congruence.
  - intros j other k y Hj Hc Hy. destruct (claimed_current _ _ _ Hy) as (y0 & Cy & _ & _ & Ey). pose proof (wf_closed s H _ _ _ _ Hj Hc Cy) as Ho.
    destruct Ey as [->|(_ & -> & _)]; [done|]. destruct Hst as [E|E]; rewrite E in Ho; done.
  - apply (wf_finished s H).
  - apply (wf_generations s H).
  - apply (wf_row s H).
  - apply (wf_channel s H).
Qed.
End claim.

(** ** A step is appended *)

Section append.
Context (s : Store) (j id k0 : Z) (x0 new : StepRow) (job : JobRow).
Hypotheses (H : well_formed s) (Hjob : jobs s !! j = Some job) (Hids : forall other y, steps s !! other = Some y -> other < id)
  (Hopen : terminalJobStatus (job_Status job) = false) (H0 : current_step s j k0 x0) (Hseed : seed_of new = seed_of x0)
  (Hj : step_JobID new = j) (Hg : step_Generation new = step_Generation x0) (Hu : unsuperseded new = true) (Hn : step_CurrentAttempt new = 0)
  (Hst : step_Status new = StatusPending)
  (Hbefore : forall k y, current_step s j k y -> step_SortIndex y = step_SortIndex new -> step_Status y = StatusFailed /\ step_Action y = "v3_coding").
Lemma append_fresh : steps s !! id = None.
Proof using Hids. apply eq_None_not_Some. intros [y Hy]. specialize (Hids _ _ Hy). lia. Qed.
Lemma append_attempts n : attempts s !! (id, n) = None.
Proof using Hids H. apply eq_None_not_Some. intros Hs. apply (wf_numbers s H) in Hs as (y & Hy & _). rewrite append_fresh in Hy. done. Qed.
Lemma wf_append : well_formed (s <| steps := <[id := new]> (steps s) |>).
Proof using Type*.
  pose proof append_fresh as Hfresh. pose proof append_attempts as Hnone. destruct H0 as (Hx0 & Hj0 & Hu0).
  assert (forall i k y, current_step (s <| steps := <[id := new]> (steps s) |>) i k y -> (k = id /\ y = new /\ i = j) \/ (k < id /\ current_step s i k y)) as Hcur.
  { intros i k y (Hy & Hyj & Hyu). row_simpl. apply lookup_insert_Some in Hy as [(<- & <-)|(Hne & Hy)]; [left; split; [done|split; congruence]|].
    right. split; [by eapply Hids|done]. }
  constructor; row_simpl; try apply H.
  - intros k y [(<- & <-)|(Hne & Hy)]%lookup_insert_Some; [|by eapply (wf_step s H)]. split; [lia|]. rewrite Hj, Hg, Hu.
    destruct (wf_step s H _ _ Hx0) as (_ & job0 & Hjob0 & Hr & Hiff). rewrite Hj0 in Hjob0. exists job0. split; [done|]. split; [done|]. by rewrite <- Hiff, Hu0.
  - intros k y [(<- & <-)|(Hne & Hy)]%lookup_insert_Some Huy; [congruence|by eapply (wf_retired s H)].
  - intros i y k z [(<- & <-)|(Hne & Hy)]%lookup_insert_Some [(<- & <-)|(Hne' & Hz)]%lookup_insert_Some Ej Eg.
    + destruct (wf_seeds s H k0 x0 k0 x0 Hx0 Hx0 eq_refl eq_refl) as (o & Ho & _). exists o. by rewrite Hseed.
    + rewrite Hseed. apply (wf_seeds s H k0 x0 k z); congruence.
    + rewrite Hseed. apply (wf_seeds s H i y k0 x0); congruence.
    + by apply (wf_seeds s H i y k z).
  - intros k n. rewrite (wf_numbers s H). destruct (decide (k = id)) as [->|Hk]; [|by rewrite lookup_insert_ne].
    rewrite lookup_insert_eq, Hfresh. split; [intros (y & [=] & _)|intros (y & [= <-] & Hr); lia].
  - intros k n a y Ha [(<- & <-)|(Hne & Hy)]%lookup_insert_Some; [by rewrite Hnone in Ha|by apply (wf_attempt s H k n)].
  - intros k y [(<- & <-)|(Hne & Hy)]%lookup_insert_Some Hr; [congruence|by eapply (wf_running s H)].
  - intros i k y l z Hy Hz Hs Hlt. destruct (Hcur _ _ _ Hy) as [(-> & -> & ->)|[_ Cy]], (Hcur _ _ _ Hz) as [(-> & -> & Hji)|[_ Cz]].
    + lia.
    + destruct Hs; [lia|congruence].
    + subst i. exfalso. (* nothing stands after an execution *)
      destruct Cy as (Hky & Hjy & Huy), Hz as (_ & _ & _). destruct (wf_step s H _ _ Hky) as (_ & jy & Hjy' & _ & Hiff). destruct (wf_step s H _ _ Hx0) as (_ & jx & Hjx & _ & Hiff0).
      rewrite Hjy in Hjy'. rewrite Hj0 in Hjx. simplify_eq. destruct (Hbefore k0 x0) as [_ Hcode]; [done| |].
      { unfold seed_of in Hseed. congruence. }
      destruct (wf_seeds s H k y k0 x0 Hky Hx0) as (o & Ho & Ho0); [congruence|rewrite (proj1 Hiff Huy), (proj1 Hiff0 Hu0); done|].
      unfold seed_of in *. rewrite Hcode in Ho0. destruct o; simpl in Ho, Ho0; set_unfold; naive_solver lia.
    + by apply (wf_order s H i k y l z).
  - intros i k y l z Hy Hz Hs Hlt. destruct (Hcur _ _ _ Hy) as [(-> & -> & ->)|[Hky Cy]], (Hcur _ _ _ Hz) as [(-> & -> & Hji)|[Hlz Cz]].
    + lia.
    + lia.
    + subst i. by apply (Hbefore k).
    + by apply (wf_recovered s H i k y l z).
  - intros i other Hi Hf. destruct (wf_failed s H i other Hi Hf) as (k & y & (Hy & Hyj & Hyu) & Hyf & Hmax).
    assert (i <> j) as Hij. { intros ->. simplify_eq. by rewrite Hf in Hopen. }
    exists k, y. split; [|split; [done|]].
    + split; [|done]. row_simpl. rewrite lookup_insert_ne; [done|]. intros ->. by rewrite Hfresh in Hy.
    + intros l z Hz Hs. destruct (Hcur _ _ _ Hz) as [(_ & _ & ?)|[_ Cz]]; [done|by apply (Hmax l z)].
  - intros i other k y Hi Hc Hy. destruct (Hcur _ _ _ Hy) as [(-> & -> & ->)|[_ Cy]]; [|by eapply (wf_closed s H i other)].
    simplify_eq. by destruct Hc as [E|E]; rewrite E in Hopen.
Qed.
End append.

(** ** A generation begins *)

(** A step of the previous generation is superseded, no longer open. *)
Definition retired (j : Z) (x x' : StepRow) : Prop :=
  if decide (step_JobID x = j /\ unsuperseded x = true)
  then step_JobID x' = step_JobID x /\ step_Generation x' = step_Generation x /\ seed_of x' = seed_of x /\ step_CurrentAttempt x' = step_CurrentAttempt x /\
       unsuperseded x' = false /\ open_status (step_Status x') = false
  else x' = x.
Section generation.
Context (s : Store) (j g : Z) (job' : JobRow) (record : JobGeneration) (at' : gmap (Z * Z) AttemptRow) (m m' : gmap Z StepRow) (l : list StepRow) (objective : bool).
Hypotheses (H : well_formed s) (Hg : match jobs s !! j with Some job => job_CurrentGeneration job = g | None => g = 0 end) (Hg' : job_CurrentGeneration job' = g + 1)
  (Hc : job_constraints s j job' = true) (Hopen : terminalJobStatus (job_Status job') = false) (Hfin : job_CompletedAt job' = None)
  (Hat : attempts_less (attempts s) at') (Hm : forall id, match steps s !! id, m !! id with Some x, Some x' => retired j x x' | None, None => True | _, _ => False end)
  (Happ : appended l m m') (Hsorted : StronglySorted (fun x y => step_SortIndex x < step_SortIndex y) l)
  (Hl : Forall (fun x => exists action sort status, x = new_step j action sort status (g + 1) /\ status <> StatusRunning /\ status <> StatusFailed /\
    mkSeed action sort ∈ pipeline_steps objective) l).
Definition begun : Store := s <| jobs := <[j := job']> (jobs s) |> <| generations := <[(j, g + 1) := record]> (generations s) |> <| attempts := at' |> <| steps := m' |>.
(** A step of the new store: an old one, superseded if it is the job's, or a new one. *)
Lemma begun_step id x' : m' !! id = Some x' -> (exists x, steps s !! id = Some x /\ retired j x x') \/
  (steps s !! id = None /\ m !! id = None /\ x' ∈ l /\ forall other y, steps s !! other = Some y -> other < id).
Proof using Hm Happ.
  intros Hx. destruct (appended_lookup _ _ _ _ _ Happ Hx) as [Hold|(Hp & Hlt & Hin)].
  - specialize (Hm id). rewrite Hold in Hm. destruct (steps s !! id) as [x|]; [|done]. left. eauto.
  - right. assert (m !! id = None) as Hnone. { apply eq_None_not_Some. intros [y Hy]. specialize (Hlt _ _ Hy). lia. }
    split; [|split; [done|split; [done|]]].
    + specialize (Hm id). rewrite Hnone in Hm. by destruct (steps s !! id).
    + intros other y Hy. specialize (Hm other). rewrite Hy in Hm. destruct (m !! other) as [z|] eqn:Ez; [|done]. by eapply Hlt.
Qed.
Lemma new_row x : x ∈ l -> step_JobID x = j /\ step_Generation x = g + 1 /\ unsuperseded x = true /\ step_CurrentAttempt x = 0 /\
  step_Status x <> StatusRunning /\ step_Status x <> StatusFailed /\ seed_of x ∈ pipeline_steps objective.
Proof using Hl. intros Hx. eapply Forall_forall in Hl as (action & sort & status & -> & ? & ? & ?); [|done]. by repeat split. Qed.
Lemma retired_other x x' : retired j x x' -> step_JobID x' = step_JobID x /\ step_Generation x' = step_Generation x /\ seed_of x' = seed_of x /\
  step_CurrentAttempt x' = step_CurrentAttempt x.
Proof using Type. unfold retired. destruct (decide _); [intros (?&?&?&?&?); auto|by intros ->]. Qed.
(** The current steps of another job stay, and those of this one are new. *)
Lemma begun_current i id x' : current_step begun i id x' ->
  if decide (i = j) then steps s !! id = None /\ m !! id = None /\ x' ∈ l else current_step s i id x'.
Proof using Hm Happ Hl.
  intros (Hx & Hi & Hu). unfold begun in Hx. row_simpl. destruct (begun_step _ _ Hx) as [(x & Hold & Hr)|(Hn & Hnm & Hin & _)].
  - destruct (retired_other _ _ Hr) as (Ej & _). unfold retired in Hr. destruct (decide (step_JobID x = j /\ _)) as [Hd|Hd]; [destruct Hr as (_&_&_&_&?&_); congruence|].
    subst x'. destruct (decide (i = j)) as [->|]; [destruct Hd; split; congruence|done].
  - destruct (new_row _ Hin) as (Hj & _). rewrite decide_True by congruence. done.
Qed.
Lemma begun_kept i id x : i <> j -> current_step s i id x -> current_step begun i id x.
Proof using Hm Happ.
  intros Hi (Hx & Hxi & Hu). split; [|done]. unfold begun. row_simpl. eapply appended_old; [done|]. specialize (Hm id). rewrite Hx in Hm.
  destruct (m !! id) as [x'|]; [|done]. unfold retired in Hm. rewrite decide_False in Hm by (intros [? _]; congruence). congruence.
Qed.
Lemma wf_begun : well_formed begun.
Proof using Type*.
  assert (forall id x' x, steps s !! id = Some x -> m' !! id = Some x' -> retired j x x') as Hret.
  { intros id x' x Hx Hx'. destruct (begun_step _ _ Hx') as [(y & Hy & Hr)|(Hn & _)]; [congruence|congruence]. }
  pose proof (wf_generations s H) as Hgens. constructor; unfold begun; row_simpl.
  - intros id x' Hx'. destruct (begun_step _ _ Hx') as [(x & Hx & Hr)|(_ & _ & Hin & _)].
    + destruct (retired_other _ _ Hr) as (-> & -> & _ & ->). destruct (wf_step s H _ _ Hx) as (Hn & job & Hj & Hgen & Hiff). split; [done|].
      unfold retired in Hr. destruct (decide (step_JobID x = j)) as [E|E].
      * exists job'. rewrite E, lookup_insert_eq, Hg'. split; [done|]. rewrite E in Hj. rewrite Hj in Hg. split; [lia|].
        destruct (unsuperseded x) eqn:Eu; [rewrite decide_True in Hr by done; destruct Hr as (_&_&_&_&->&_); split; [done|lia]|].
        rewrite decide_False in Hr by (intros [_ ?]; done). subst x'. rewrite Eu. split; [done|lia].
      * rewrite decide_False in Hr by tauto. subst x'. exists job. rewrite lookup_insert_ne by done. done.
    + destruct (new_row _ Hin) as (-> & -> & -> & -> & _). split; [lia|]. exists job'. rewrite lookup_insert_eq, Hg'. split; [done|].
      assert (0 <= g). { destruct (jobs s !! j) as [job|] eqn:Ej; [|lia]. unfold job_constraints in Hc. guards. lia. }
      split; [lia|done].
  - intros id x' Hx' Hu. destruct (begun_step _ _ Hx') as [(x & Hx & Hr)|(_ & _ & Hin & _)]; [|destruct (new_row _ Hin) as (_&_&?&_); congruence].
    unfold retired in Hr. destruct (decide _) as [[Hd1 Hd2]|Hd]; [by destruct Hr as (_&_&_&_&_&?)|]. subst x'. by eapply (wf_retired s H).
  - intros i x' k y' Hx' Hy' Ej Eg. destruct (begun_step _ _ Hx') as [(x & Hx & Hr)|(_ & _ & Hin & _)], (begun_step _ _ Hy') as [(y & Hy & Hs)|(_ & _ & Hin' & _)].
    + destruct (retired_other _ _ Hr) as (E1 & E2 & -> & _), (retired_other _ _ Hs) as (E3 & E4 & -> & _). apply (wf_seeds s H i x k y); congruence.
    + exfalso. destruct (retired_other _ _ Hr) as (E1 & E2 & _), (new_row _ Hin') as (E3 & E4 & _). destruct (wf_step s H _ _ Hx) as (_ & job & Hj & Hgen & _).
      rewrite <- E1, Ej, E3 in Hj. rewrite Hj in Hg. lia.
    + exfalso. destruct (retired_other _ _ Hs) as (E1 & E2 & _), (new_row _ Hin) as (E3 & E4 & _). destruct (wf_step s H _ _ Hy) as (_ & job & Hj & Hgen & _).
      rewrite <- E1, <- Ej, E3 in Hj. rewrite Hj in Hg. lia.
    + exists objective. split; by eapply new_row.
  - intros id n. specialize (Hat (id, n)). assert (is_Some (at' !! (id, n)) <-> is_Some (attempts s !! (id, n))) as ->.
    { destruct (attempts s !! _), (at' !! _); split; naive_solver. }
    rewrite (wf_numbers s H). split.
    + intros (x & Hx & Hn). specialize (Hm id). rewrite Hx in Hm. destruct (m !! id) as [x'|] eqn:Ex; [|done]. exists x'.
      split; [by eapply appended_old|]. destruct (retired_other _ _ Hm) as (_ & _ & _ & ->). done.
    + intros (x' & Hx' & Hn). destruct (begun_step _ _ Hx') as [(x & Hx & Hr)|(_ & _ & Hin & _)].
      * exists x. split; [done|]. destruct (retired_other _ _ Hr) as (_ & _ & _ & <-). done.
      * destruct (new_row _ Hin) as (_&_&_&?&_). lia.
  - intros id n a' x' Ha' Hx'. destruct (wf_attempts s at' H Hat) as [_ _ _ Hnum Hatt _ _ _ _ _ _ _ _ _]. row_simpl.
    destruct (begun_step _ _ Hx') as [(x & Hx & Hr)|(Hnone & _)].
    + destruct (retired_other _ _ Hr) as (-> & -> & _ & ->). by apply (Hatt id n).
    + exfalso. assert (is_Some (at' !! (id, n))) as Hs by eauto. apply Hnum in Hs as (x & Hx & _). congruence.
  - intros id x' Hx' Hr. destruct (wf_attempts s at' H Hat) as [_ _ _ _ _ Hrun _ _ _ _ _ _ _ _]. row_simpl.
    destruct (begun_step _ _ Hx') as [(x & Hx & Hrt)|(_ & _ & Hin & _)]; [|destruct (new_row _ Hin) as (_&_&_&_&?&_); done].
    unfold retired in Hrt. destruct (decide _) as [Hd|Hd]; [destruct Hrt as (_&_&_&_&_&Ho); by rewrite Hr in Ho|]. subst x'. by apply Hrun.
  - intros i k x y z Hx Hz Hs Hlt. pose proof (begun_current _ _ _ Hx) as Cx. pose proof (begun_current _ _ _ Hz) as Cz. destruct (decide (i = j)) as [->|Hi].
    + exfalso. destruct Cx as (_ & _ & Hin). destruct (new_row _ Hin) as (_&_&_&?&_&?&_). destruct Hs; [lia|done].
    + by apply (wf_order s H i k x y z).
  - intros i k x y z Hx Hz Hs Hlt. pose proof (begun_current _ _ _ Hx) as Cx. pose proof (begun_current _ _ _ Hz) as Cz. destruct (decide (i = j)) as [->|Hi].
    + exfalso. destruct Cx as (_ & Hk & _), Cz as (_ & Hy & _), Hx as (Hx & _), Hz as (Hz & _). unfold begun in *. row_simpl.
      pose proof (appended_order _ _ _ _ _ _ _ _ Happ Hsorted Hk Hy Hx Hz Hlt). simpl in *. lia.
    + by apply (wf_recovered s H i k x y z).
  - intros i job Hi Hf. apply lookup_insert_Some in Hi as [(<- & <-)|(Hne & Hi)]; [by rewrite Hf in Hopen|].
    destruct (wf_failed s H i job Hi Hf) as (id & x & Hx & Hxf & Hmax). exists id, x. split; [by apply begun_kept|]. split; [done|].
    intros k y Hy Hs. pose proof (begun_current _ _ _ Hy) as Cy. rewrite decide_False in Cy by done. by apply (Hmax k y).
  - intros i job id x Hi Hcl Hx. apply lookup_insert_Some in Hi as [(<- & <-)|(Hne & Hi)]; [by destruct Hcl as [E|E]; rewrite E in Hopen|].
    pose proof (begun_current _ _ _ Hx) as Cx. rewrite decide_False in Cx by done. by eapply (wf_closed s H i job).
  - intros i job [(<- & <-)|(Hne & Hi)]%lookup_insert_Some; [rewrite Hopen, Hfin; split; [done|by intros []]|by apply (wf_finished s H i)].
  - intros i n. destruct (decide (i = j)) as [->|Hi].
    + rewrite lookup_insert_eq. destruct (decide (n = g + 1)) as [->|Hn].
      * rewrite lookup_insert_eq. split; [intros _|by eexists]. exists job'. split; [done|]. unfold job_constraints in Hc. guards. lia.
      * rewrite lookup_insert_ne by congruence. rewrite Hgens. destruct (jobs s !! j) as [job|] eqn:Ej.
        -- split; intros (y & [= <-] & Hr); eexists; (split; [done|lia]).
        -- split; [intros (y & [=] & _)|]. intros (y & [= <-] & Hr). lia.
    + rewrite !lookup_insert_ne by congruence. apply Hgens.
  - intros k other [(<- & <-)|(Hd & Hk)]%lookup_insert_Some; [by apply constraints_row in Hc|by apply (wf_row s H k)].
  - exact (wf_channel_insert _ _ _ (wf_channel s H) Hc).
Qed.
End generation.
