(* ===== verification/JobKeeps.v ===== *)
(** * Every call keeps jobs well formed

    The invariant of [JobInv] along the transactions of workers: admission, claims,
    renewal, completion, failure, and the ways a step waits. *)
From Stdlib Require Import Ascii.
From S2P Require Import Prelude Schema PathIdentity UserIntent JsonCodec Scrum Jobs JobStore JobCommands JobSteps JobControl JobFacts JobReach JobInv.
From stdpp Require Import sorting base tactics strings list gmap numbers pretty.
From stdpp Require Import list options.
Open Scope Z_scope.
Open Scope go_scope.

(** ** Frames *)

(** Proves [keeps frame] by the shape of the computation. *)
Ltac framing :=
  repeat match goal with
  | |- keeps _ (bind _ _) => apply tx_keeps_bind; [apply _| |intros ?]
  | |- keeps _ (if ?b then _ else _) => destruct b
  | |- keeps _ (match ?x with _ => _ end) => destruct x
  | |- keeps _ (let _ := _ in _) => cbv zeta
  end; first [solve [auto with jobs frames] | solve [apply tx_keeps_reads; [apply _|reading]] | idtac].
Create HintDb frames.
Section frames.
Context {World : Type} (env : Env) (others : Others World).
Abbreviation framed c := (keeps (World := World) frame c).
Lemma framed_put f : (forall s, frame s (f s)) -> framed (put f).
Proof. intros H t x t' E. injection E as <- <-. apply H. Qed.
Lemma framed_update_ledger j p set : framed (update_ledger j p set).
Proof.
  unfold update_ledger. intros t x t' E. follow E. destruct (ledgers _ !! j) as [ledger|]; [destruct (p ledger)|]; follow E; [|done..].
  injection E as <- <-. by constructor.
Qed.
Lemma framed_insert_evidence j id e : framed (insert_evidence env j id e).
Proof.
  unfold insert_evidence. intros t x t' E. apply tx_bind_ok in E as (i & t1 & E1 & E). injection E1 as <- <-. follow E. injection E as <- <-. by constructor.
Qed.
Lemma framed_reserve d : framed (reserveLifecycleOperationIdentityTx others d).
Proof.
  unfold reserveLifecycleOperationIdentityTx. framing. apply framed_put. intros s. by constructor.
Qed.
#[local] Hint Resolve framed_reserve framed_update_ledger framed_insert_evidence : frames.
Lemma framed_load d j : framed (loadLifecycleOperationTx others d j).
Proof. unfold loadLifecycleOperationTx. framing. Qed.
#[local] Hint Resolve framed_load : frames.
Lemma framed_insert_operation d op : framed (insertLifecycleOperationTx others d op).
Proof. unfold insertLifecycleOperationTx. framing. apply framed_put. intros s. by constructor. Qed.
Lemma framed_agent_completion job id : framed (requireCodingAgentCompletionTx others job id).
Proof. unfold requireCodingAgentCompletionTx, materializeCodingTaskLedgerCompletionTx. framing. Qed.
Lemma framed_revise j : framed (reviseCodingAuthorityTx j).
Proof. unfold reviseCodingAuthorityTx. framing. Qed.
Lemma framed_cancel_ledger j a b : framed (cancelCodingAuthorityTx others j a b).
Proof. unfold cancelCodingAuthorityTx. framing. Qed.
End frames.
#[export] Hint Resolve framed_reserve framed_update_ledger framed_insert_evidence framed_load framed_insert_operation framed_agent_completion framed_revise
  framed_cancel_ledger : frames.

(** ** Following a transaction *)

(** The bindings that read, or change only what other components own. *)
Ltac unroll E :=
  repeat (follow E; match type of E with
  | bind (clock _) _ _ = Ok _ => apply tx_bind_ok in E as (? & ? & [-> ->]%clock_ok & E)
  | bind (asks _) _ _ = Ok _ => apply tx_bind_ok in E as (? & ? & [-> ->]%asks_ok & E)
  | bind (calls _) _ _ = Ok _ => apply tx_bind_ok in E as (? & ? & (? & ? & ->)%calls_ok & E)
  | bind (ret _) _ _ = Ok _ => apply tx_bind_ok in E as (? & ? & [-> ->]%ret_ok & E)
  | bind (lockedJobTx _) _ _ = Ok _ => unfold lockedJobTx in E
  | bind (scanLockedJobTx _) _ _ = Ok _ => let Hs := fresh "Hscan" in apply tx_bind_ok in E as (? & ? & (? & Hs & -> & ->)%scan_ok & E)
  end); follow E; cbn [tx_store tx_world tx_tick tx_draw tx_recorded with_store] in E.
(** The next binding, which leaves the tables of jobs as they are. *)
Ltac skip E Hf :=
  let H := fresh in let t1 := fresh "t" in
  apply tx_bind_ok in E as (? & t1 & H & E);
  match type of H with ?c ?t = Ok (?x, _) => assert (frame (tx_store t) (tx_store t1)) as Hf;
    [let Hk := fresh in assert (keeps frame c) as Hk by framing; exact (Hk _ _ _ H)|] end.

(** Forgets how the state a computation goes on from was reached, but for its
    invariant and the row of its job. *)
Ltac abstract_state E H Hj :=
  match type of E with _ ?T = Ok _ =>
    change (well_formed (tx_store T)) in H;
    match type of Hj with jobs _ !! ?j = ?o => change (jobs (tx_store T) !! j = o) in Hj end;
    let t := fresh "t" in set (t := T) in *; clearbody t end.

Section keeps.
Context {World : Type} (env : Env) (others : Others World).
Implicit Types t : Tx World.
Lemma terminalize_ok a status t x t' : terminalizeStepAttemptTx env others a status t = Ok (x, t') -> status <> StepAttemptActive /\
  exists row finished w k, attempts (tx_store t) !! (au_StepID a, au_Attempt a) = Some row /\ active row = true /\ attempt_WorkerID row = au_WorkerID a /\
    attempt_JobID row = au_JobID a /\ attempt_Generation row = au_Generation a /\
    t' = mkTx (tx_store t <| attempts := <[(au_StepID a, au_Attempt a) := row <| attempt_Status := status |> <| attempt_FinishedAt := Some finished |>]> (attempts (tx_store t)) |>)
      w k (tx_draw t) (tx_recorded t).
Proof.
  unfold terminalizeStepAttemptTx. intros E. unroll E. apply tx_bind_ok in E as (b & t1 & E1 & E).
  apply update_attempt_ok in E1 as [(-> & row & w & Hrow & Hof & Hp & _ & _ & ->)|(-> & -> & _)]; [|discriminate E].
  follow E. unfold attempt_of in Hof. guards. split; [done|]. eexists row, _, w, _. by repeat split.
Qed.
Lemma terminalized_less (m : gmap (Z * Z) AttemptRow) key row status finished : m !! key = Some row -> status <> StepAttemptActive ->
  attempts_less m (<[key := row <| attempt_Status := status |> <| attempt_FinishedAt := Some finished |>]> m).
Proof.
  intros Hk Hs. eapply attempts_less_update; [done|]. repeat split. unfold active. row_simpl. rewrite bool_decide_eq_false_2 by done. done.
Qed.
Lemma active_ok a t x t' : requireActiveStepAttemptTx env a t = Ok (x, t') -> exists job step attempt k, held a (tx_store t) job step attempt /\
  active attempt = true /\ x = mkLocked (job_Status job) (step_Status step) (attempt_Status attempt) (attempt_ExpiresAt attempt) /\
  t' = mkTx (tx_store t) (tx_world t) k (tx_draw t) (tx_recorded t).
Proof.
  unfold requireActiveStepAttemptTx. intros E. apply tx_bind_ok in E as (locked & t1 & E1 & E). apply lock_authority_ok in E1 as [-> (job & step & attempt & Hh & ->)].
  apply tx_bind_ok in E as ([] & t2 & E2 & E). apply require_active_ok in E2 as (Ha & _ & ->). apply ret_ok in E as [-> ->]. simpl in Ha.
  exists job, step, attempt, (S (tx_tick t)). split; [done|]. split; [unfold active; by rewrite Ha, bool_decide_eq_true_2|done].
Qed.
Lemma running_ok e a t x t' : running_attempt env e a t = Ok (x, t') -> exists job step attempt k, held a (tx_store t) job step attempt /\
  active attempt = true /\ job_Status job = StatusRunning /\ step_Status step = StatusRunning /\
  t' = mkTx (tx_store t) (tx_world t) k (tx_draw t) (tx_recorded t).
Proof.
  unfold running_attempt. intros E. apply tx_bind_ok in E as (locked & t1 & E1 & E). apply active_ok in E1 as (job & step & attempt & k & Hh & Ha & -> & ->).
  follow E. simpl in *. guards. exists job, step, attempt, k. done.
Qed.

(** *** Admission *)
Lemma pipeline_sorted objective : StronglySorted (fun x y => seed_sortIndex x < seed_sortIndex y) (pipeline_steps objective).
Proof. destruct objective; repeat (constructor; [|by repeat constructor]); constructor. Qed.
Lemma new_steps_sorted j g status seeds : StronglySorted (fun x y => seed_sortIndex x < seed_sortIndex y) seeds ->
  StronglySorted (fun x y => step_SortIndex x < step_SortIndex y) ((fun seed => new_step j (seed_action seed) (seed_sortIndex seed) status g) <$> seeds).
Proof. induction 1 as [|seed seeds _ IH Hall]; [constructor|]. cbn. constructor; [done|]. apply Forall_fmap. eapply Forall_impl; [exact Hall|done]. Qed.
Lemma wf_enqueue instruction pipeline metadata objective t x t' :
  well_formed (tx_store t) -> enqueueJobWithStepsTx env instruction pipeline metadata (pipeline_steps objective) t = Ok (x, t') -> well_formed (tx_store t').
Proof.
  intros H E. unfold enqueueJobWithStepsTx in E. unroll E. apply tx_bind_ok in E as (j & t1 & E1 & E).
  apply insert_job_ok in E1 as (k & Hpos & Hids & Hc & ->). apply tx_bind_ok in E as ([] & t1 & E1 & E). apply insert_generation_ok in E1 as (_ & _ & _ & ->).
  apply tx_bind_ok in E as ([] & t1 & E1 & E). rewrite (each_map (insert_step env) (fun seed => new_step j (seed_action seed) (seed_sortIndex seed) StatusPending 1)) in E1.
  apply insert_steps_ok in E1 as (m & k' & Happ & ->). apply ret_ok in E as [-> ->]. cbn [tx_store with_store] in *. row_simpl.
  assert (jobs (tx_store t) !! j = None) as Hnone. { apply eq_None_not_Some. intros [y Hy]. specialize (Hids _ _ Hy). lia. }
  eapply (wf_begun (tx_store t) j 0 _ _ (attempts (tx_store t)) (steps (tx_store t)) m _ objective H); try done.
  - by rewrite Hnone.
  - intros id. destruct (steps (tx_store t) !! id) as [y|] eqn:Hy; [|done]. unfold retired. destruct (decide _) as [[Hj _]|]; [|done].
    destruct (wf_step _ H _ _ Hy) as (_ & job & Hjob & _). congruence.
  - apply new_steps_sorted, pipeline_sorted.
  - apply Forall_fmap, Forall_forall. intros seed Hseed. exists (seed_action seed), (seed_sortIndex seed), StatusPending. by destruct seed.
Qed.

(** *** Claims *)
Lemma first_unlocked_in {A} locked (l : list (Z * A)) row : first_unlocked locked l = Some row -> row ∈ l /\ locked row.1 = false.
Proof.
  unfold first_unlocked. intros Hh. assert (row ∈ filter (fun row : Z * A => locked row.1 = false) l) as Hin.
  { destruct (filter _ l); [done|]. injection Hh as ->. by left. }
  by apply list_elem_of_filter in Hin as [? ?].
Qed.
Lemma claim_candidate_ok at_ s j job : claim_candidate env at_ s = Some (j, job) -> jobs s !! j = Some job /\
  (job_Status job = StatusPending \/ job_Status job = StatusRunning).
Proof.
  unfold claim_candidate. intros [Hin _]%first_unlocked_in. apply jobs_by_id_spec in Hin as [Hj Hc]. unfold claimable_job in Hc. guards.
  split; [done|]. set_solver.
Qed.
Lemma claim_step_ok at_ s j job id x : claim_step env at_ s j job = Some (id, x) -> steps s !! id = Some x /\ claimable at_ s j job id x = true.
Proof. unfold claim_step. intros [Hin _]%first_unlocked_in. by apply select_steps_spec in Hin. Qed.
Lemma expire_ok at_ id x t y t' : expire_previous others at_ id x t = Ok (y, t') -> exists m w, t' = mkTx (tx_store t <| attempts := m |>) w (tx_tick t) (tx_draw t) (tx_recorded t) /\
  attempts_less (attempts (tx_store t)) m /\ (step_Status x = StatusRunning -> exists a, m !! (id, step_CurrentAttempt x) = Some a /\ active a = false).
Proof.
  unfold expire_previous. intros E. assert (forall t, t = mkTx (tx_store t <| attempts := attempts (tx_store t) |>) (tx_world t) (tx_tick t) (tx_draw t) (tx_recorded t)) as Heta.
  { clear. by intros [[] ]. }
  destruct (step_Status x) eqn:Ex; try (apply ret_ok in E as [_ ->]; eexists _, _; split; [apply Heta|]; done).
  unroll E. destruct (attempts (tx_store t) !! _) as [a|] eqn:Ea; follow E. destruct (active a) eqn:Hact.
  - apply tx_bind_ok in E as (b & t1 & E1 & E). apply update_attempt_ok in E1 as [(-> & a' & w & Ha' & _ & _ & _ & _ & ->)|(-> & -> & _)]; [|discriminate E].
    follow E. simplify_eq. eexists _, w. split; [done|]. split.
    + eapply attempts_less_update; [done|]. repeat split. unfold active. by row_simpl.
    + intros _. eexists. by rewrite lookup_insert_eq.
  - follow E. eexists _, _. split; [apply Heta|]. split; [done|]. intros _. exists a. done.
Qed.
Lemma wf_claim_tx worker t x t' : well_formed (tx_store t) -> claimTx env others worker t = Ok (x, t') -> well_formed (tx_store t').
Proof.
  intros H E. unfold claimTx in E. unroll E. destruct (claim_candidate _ _ _) as [[j job]|] eqn:Ec; [|by follow E].
  unroll E. destruct (claim_step _ _ _ _ _) as [[id step]|] eqn:Es; [|by follow E]. apply claim_candidate_ok in Ec as [Hj Hopen]. apply claim_step_ok in Es as [Hs Hcl].
  cbn [tx_store] in *. unfold claimable in Hcl. guards. unroll E.
  apply tx_bind_ok in E as ([] & t1 & E1 & E). apply expire_ok in E1 as (m & w & -> & Hless & Hprev).
  apply tx_bind_ok in E as ([] & t1 & E1 & E). apply insert_attempt_ok in E1 as (step' & Hs' & Hjs & Hgs & _ & Hact & Hfresh & Hone & ->).
  cbn [tx_store with_store] in *. row_simpl. simplify_eq. unroll E.
  apply tx_bind_ok in E as (b & t1 & E1 & E). apply update_step_ok in E1 as [(-> & y & Hst & _ & _ & _ & ->)|(-> & -> & _)]; [|discriminate E].
  cbn [tx_store with_store] in *. row_simpl. simplify_eq. follow E.
  apply tx_bind_ok in E as (b & t1 & E1 & E). follow E.
  set (a := mkAttemptRow _ _ _ _ _ _ _) in *. set (s1 := tx_store t <| attempts := m |>).
  assert (step_Status step = StatusPending \/ step_Status step = StatusRunning) as Hstat.
  { match goal with Hor : (_ || _)%bool = true |- _ => apply orb_prop in Hor as [?|?] end; guards; auto. }
  assert (well_formed (claimed_store s1 id step a (env_clock env (tx_tick t)))) as Hwf.
  { eapply wf_claim; try done; [by apply wf_attempts|]. subst s1. row_simpl. intros b' Hb'. destruct Hstat as [Hp|Hr].
    - exfalso. assert (step_CurrentAttempt step = 0) as Hz.
      { match goal with Hor : (_ || _)%bool = true |- _ => apply orb_prop in Hor as [?|?] end; guards; congruence. }
      assert (is_Some (m !! (id, step_CurrentAttempt step))) as Hsome by eauto. specialize (Hless (id, step_CurrentAttempt step)).
      rewrite Hb' in Hless. destruct (attempts (tx_store t) !! _) eqn:Ea; [|done].
      assert (is_Some (attempts (tx_store t) !! (id, step_CurrentAttempt step))) as Hn by eauto. apply (wf_numbers _ H) in Hn as (y & _ & Hy). lia.
    - destruct (Hprev Hr) as (a' & Ha' & Hi). congruence. }
  apply update_job_ok in E1 as [(-> & job' & Hj' & Hp & _ & Hcj & ->)|(-> & -> & _)]; [|exact Hwf].
  cbn [tx_store with_store] in *. row_simpl. simplify_eq. guards.
  refine (wf_job _ (step_JobID step) job _ Hwf Hj _ Hcj _ _ _); try done.
  - row_simpl. intros [?|?]; done.
  - row_simpl. rewrite <- (wf_finished _ H _ _ Hj). by rewrite Hp.
Qed.

(** *** Renewal *)
Lemma wf_renew a t x t' : well_formed (tx_store t) -> renewTx env others a t = Ok (x, t') -> well_formed (tx_store t').
Proof.
  intros H E. unfold renewTx in E. apply tx_bind_ok in E as (locked & t1 & E1 & E). apply active_ok in E1 as (job & step & attempt & k & _ & _ & -> & ->).
  apply tx_bind_ok in E as (waiting & t1 & E1 & E). assert (tx_store t1 = tx_store t) as Hs1.
  { destruct (waiting_status _); [|by apply ret_ok in E1 as [_ ->]]. apply (reads_native a _ _ _ E1). }
  unroll E. apply tx_bind_ok in E as (b & t2 & E2 & E). unroll E. simpl.
  apply update_attempt_ok in E2 as [(-> & row & w & Hrow & _ & _ & Hch & _ & ->)|(-> & -> & _)]; cbn [tx_store] in *; [|by rewrite Hs1].
  rewrite Hs1 in *. apply wf_attempts; [done|]. eapply attempts_less_update; [done|]. by apply attempt_change_less.
Qed.

(** *** Completion and failure *)
(** An open step of the current generation takes another status. *)
Lemma moved_open s id x x' : step_JobID x' = step_JobID x -> step_Generation x' = step_Generation x -> step_Action x' = step_Action x ->
  step_SortIndex x' = step_SortIndex x -> step_SupersededAtGeneration x' = step_SupersededAtGeneration x -> step_CurrentAttempt x' = step_CurrentAttempt x ->
  unsuperseded x = true -> open_status (step_Status x) = true -> (step_Status x' = StatusFailed -> 0 < step_CurrentAttempt x) ->
  (step_Status x' = StatusRunning -> 0 < step_CurrentAttempt x /\ exists a, attempts s !! (id, step_CurrentAttempt x) = Some a /\
    step_WorkerID x' = Some (attempt_WorkerID a)) -> step_moved s id x x'.
Proof. intros ? ? ? ? ? ? ? Ho Hf Hr. constructor; try done; [intros E; by rewrite E in Ho..|by left; auto|by left]. Qed.
Lemma wf_open_step s id x x' : well_formed s -> steps s !! id = Some x -> step_moved s id x x' -> well_formed (s <| steps := <[id := x']> (steps s) |>).
Proof. intros H Hx Hm. apply wf_steps; [done|by eapply steps_moved_one]. Qed.
(** The row of a job is touched, its status kept. *)
Lemma wf_touch s j job job' : well_formed s -> jobs s !! j = Some job -> job_CurrentGeneration job' = job_CurrentGeneration job ->
  job_constraints s j job' = true -> job_Status job' = job_Status job -> job_CompletedAt job' = job_CompletedAt job -> well_formed (s <| jobs := <[j := job']> (jobs s) |>).
Proof.
  intros H Hj Hg Hc Hst Hfin. apply (wf_job s j job); try done; rewrite ?Hst, ?Hfin.
  - by apply (wf_failed s H).
  - unfold closed_job. rewrite Hst. intros Hcl id x. by apply (wf_closed s H j job).
  - by apply (wf_finished s H j).
Qed.
(** A job that is not terminal takes another status that is not. *)
Lemma wf_open_job s j job job' : well_formed s -> jobs s !! j = Some job -> job_CurrentGeneration job' = job_CurrentGeneration job ->
  job_constraints s j job' = true -> terminalJobStatus (job_Status job') = false ->
  job_CompletedAt job' = None \/ (job_CompletedAt job' = job_CompletedAt job /\ terminalJobStatus (job_Status job) = false) ->
  well_formed (s <| jobs := <[j := job']> (jobs s) |>).
Proof.
  intros H Hj Hg Hc Hst Hfin. apply (wf_job s j job); try done.
  - intros E. by rewrite E in Hst.
  - unfold closed_job. intros [E|E]; by rewrite E in Hst.
  - rewrite Hst. destruct Hfin as [->|[-> Ho]]; [split; [done|by intros []]|]. by rewrite <- (wf_finished s H j job Hj), Ho.
Qed.
Lemma wf_tail job c t x t' : well_formed (tx_store t) -> (forall row, jobs (tx_store t) !! job.1 = Some row -> ~ closed_job row) ->
  cancelTerminalObjectiveCodingTailTx env job c t = Ok (x, t') -> well_formed (tx_store t') /\ jobs (tx_store t') = jobs (tx_store t).
Proof.
  intros H Hc E. unfold cancelTerminalObjectiveCodingTailTx in E. unroll E. destruct (current_pipeline _ _ _) as [|[i first] tail]; [by follow E|].
  unroll E. apply tx_bind_ok in E as (n & t1 & E1 & E). apply update_steps_ok in E1 as [_ ->]. follow E. cbn [tx_store with_store]. split; [|done].
  apply wf_steps; [done|]. apply steps_moved_where. intros id y Hy Hp. guards. apply moved_open; try done; match goal with H : _ = StatusPending |- _ => rewrite ?H end; done.
Qed.
Lemma open_steps_false s j : open_steps j s = false -> forall id x, current_step s j id x -> open_status (step_Status x) = false.
Proof.
  unfold open_steps. intros Hf id x (Hx & Hj & Hu). pose proof (proj1 (exists_row_false _ _) Hf _ _ Hx) as Hr. simpl in Hr.
  by rewrite Hu, bool_decide_eq_true_2 in Hr.
Qed.
Lemma own_step_status a status row : own_step a status row = true -> step_Status row = status.
Proof. unfold own_step. intros H. by guards. Qed.
Lemma own_step_spec a status row : own_step a status row = true -> step_JobID row = au_JobID a /\ step_CurrentAttempt row = au_Attempt a /\ step_Status row = status.
Proof. unfold own_step. intros H. by guards. Qed.
Lemma authority_positive a : validateStepAttemptAuthority a = Ok tt -> 0 < au_Attempt a /\ 0 < au_JobID a.
Proof. unfold validateStepAttemptAuthority. intros H. split_ok H. guards. lia. Qed.
Lemma change_unsuperseded s id old new : step_change_allowed s id old new = true -> unsuperseded old = true.
Proof. unfold step_change_allowed. intros H. by guards. Qed.
Lemma wf_finish c job jobrow t y t' : well_formed (tx_store t) -> jobs (tx_store t) !! job = Some jobrow -> ~ closed_job jobrow ->
  complete_job env others (job, jobrow) c t = Ok (y, t') -> (forall id x, current_step (tx_store t) job id x -> open_status (step_Status x) = false) ->
  well_formed (tx_store t').
Proof.
  intros H Hj Hc E Hopen. unfold complete_job in E. unroll E. apply tx_bind_ok in E as (b & t1 & E1 & E).
  apply update_job_ok in E1 as [(-> & row & Hrow & _ & _ & Hcj & ->)|(-> & -> & _)]; [|discriminate E]. follow E.
  apply calls_ok in E as (w & _ & ->). cbn [tx_store with_store fst] in *. simplify_eq. apply (wf_job _ job jobrow); done.
Qed.
Lemma wf_complete c d e t x t' : well_formed (tx_store t) -> completeStep env others c d e t = Ok (x, t') -> well_formed (tx_store t').
Proof.
  intros H E. unfold completeStep, lockLifecycleOperationIdentityTx in E. cbv zeta in E. unroll E.
  apply tx_bind_ok in E as (locked & t1 & E1 & E). apply lock_authority_ok in E1 as [-> (job & step & attempt & Hh & ->)]. unroll E.
  rewrite (he_job _ _ _ _ _ Hh) in Hscan. injection Hscan as <-.
  skip E Hf. destruct x1 as [op|].
  - assert (frame (tx_store t0) (tx_store t')) as Hf'; [|by apply (well_formed_frame (tx_store t)); [etransitivity|]].
    match type of E with ?k ?t0 = _ => assert (keeps frame k) as Hk by framing; exact (Hk _ _ _ E) end.
  - unroll E. apply tx_bind_ok in E as ([] & t2 & E2 & E). apply require_active_ok in E2 as (_ & _ & ->). unroll E. simpl in Heqb.
    guards. skip E Hf2. unroll E. skip E Hf3. simpl in Hf2. assert (frame (tx_store t) (tx_store t2)) as Hfr by (etransitivity; [done|etransitivity; done]).
    clear Hf Hf2 Hf3. apply (well_formed_frame _ _ Hfr) in H. pose proof (he_job _ _ _ _ _ Hh) as Hj. rewrite <- (fr_jobs _ _ Hfr) in Hj.
    apply tx_bind_ok in E as ([] & t3 & E3 & E). apply terminalize_ok in E3 as (Hns & row & finished & w & k & Hrow & Hact & _ & _ & _ & ->).
    apply (fun H => wf_attempts _ _ H (terminalized_less _ _ _ _ finished Hrow Hns)) in H.
    apply tx_bind_ok in E as (b & t3 & E3 & E). apply update_step_ok in E3 as [(-> & y & Hy & Hown & Hch & _ & ->)|(-> & -> & _)]; [|discriminate E].
    apply own_step_status in Hown. apply change_unsuperseded in Hch. follow E.
    eapply wf_open_step in H; [|exact Hy|apply (moved_open _ _ _ (y <| step_Status := StatusCompleted |> <| step_Output := cs_Output c |>
      <| step_FinishedAt := Some (now env) |>)); try done; by rewrite Hown].
    abstract_state E H Hj.
    assert (~ closed_job job) as Hcl. { unfold jobAcceptsStepTerminal in *. guards. intros [Hs|Hs]; rewrite Hs in *; set_solver. }
    apply tx_bind_ok in E as ([] & t4 & E4 & E). assert (well_formed (tx_store t4) /\ jobs (tx_store t4) = jobs (tx_store t3)) as [H4' Hj4].
    { destruct (_ == _); [|by apply ret_ok in E4 as [_ ->]]. eapply wf_tail; [done| |done]. simpl. intros row' Hr. congruence. }
    rewrite <- Hj4 in Hj. unroll E. apply tx_bind_ok in E as ([] & t5 & E5 & E). apply (well_formed_frame (tx_store t5)).
    { match type of E with ?k ?t0 = _ => assert (keeps frame k) as Hk by framing; exact (Hk _ _ _ E) end. }
    destruct (open_steps _ _) eqn:Ho; [|by eapply wf_finish; [..|by apply open_steps_false]].
    follow E5. apply tx_bind_ok in E5 as (b & t6 & E6 & E5). apply ret_ok in E5 as [_ ->].
    apply update_job_ok in E6 as [(-> & row' & Hrow' & _ & _ & Hcj & ->)|(-> & -> & _)]; [|done]. cbn [tx_store with_store]. simplify_eq.
    by eapply wf_touch.
Qed.
Lemma terminal_writer_ok a locked t b t' :
  (if waiting_status locked then codingNativeInputWaitingTx a else ret ((lk_StepStatus locked == StatusRunning) && jobAcceptsStepTerminal (lk_JobStatus locked))%bool) t =
    Ok (b, t') -> b = true -> tx_store t' = tx_store t /\ (lk_StepStatus locked = StatusRunning \/ lk_StepStatus locked = StatusWaiting) /\
    (lk_JobStatus locked = StatusRunning \/ lk_JobStatus locked = StatusWaiting).
Proof.
  unfold waiting_status, jobAcceptsStepTerminal. destruct (_ && _)%bool eqn:Ew.
  - intros E _. guards. split; [exact (reads_native _ _ _ _ E)|auto].
  - intros [-> ->]%ret_ok Hb. guards. split; [done|]. split; [auto|]. set_solver.
Qed.
(** The last step of its position fails, and its job with it. *)
Lemma wf_fail_job s j id y y' job job' : well_formed s -> current_step s j id y -> step_moved s id y y' -> open_status (step_Status y) = true ->
  step_Status y' = StatusFailed -> jobs s !! j = Some job -> job_CurrentGeneration job' = job_CurrentGeneration job -> job_constraints s j job' = true ->
  job_Status job' = StatusFailed -> is_Some (job_CompletedAt job') ->
  well_formed (s <| steps := <[id := y']> (steps s) |> <| jobs := <[j := job']> (jobs s) |>).
Proof.
  intros H (Hy & Hyj & Hyu) Hm Ho Hf Hj Hg Hc Hjf Hfin. pose proof (steps_moved_one s id y y' Hy Hm) as Hmv.
  refine (wf_job _ j job _ (wf_steps _ _ H Hmv) Hj Hg Hc _ _ _).
  - intros _. exists id, y'. split; [|split; [done|]].
    + unfold current_step, unsuperseded in *. row_simpl. rewrite lookup_insert_eq. destruct Hm. repeat split; congruence.
    + intros i z Hz Hs. destruct (moved_current _ _ Hmv _ _ _ Hz) as (z0 & Hz0 & Sz & _). destruct (decide (id < i)) as [Hlt|]; [|lia].
      destruct (wf_recovered s H j id y i z0) as [Hyf _]; [done|done|destruct Hm; congruence|done|]. by rewrite Hyf in Ho.
  - intros [E|E]; congruence.
  - rewrite Hjf. done.
Qed.
Lemma wf_fail c d t x t' : well_formed (tx_store t) -> failStep env others c d t = Ok (x, t') -> well_formed (tx_store t').
Proof.
  intros H E. unfold failStep, lockLifecycleOperationIdentityTx in E. cbv zeta in E. unroll E.
  apply tx_bind_ok in E as (locked & t1 & E1 & E). apply lock_authority_ok in E1 as [-> (job & step & attempt & Hh & ->)]. unroll E.
  rewrite (he_job _ _ _ _ _ Hh) in Hscan. injection Hscan as <-.
  skip E Hf. destruct x1 as [op|].
  - assert (frame (tx_store t0) (tx_store t')) as Hf'; [|by apply (well_formed_frame (tx_store t)); [etransitivity|]].
    match type of E with ?k ?t0 = _ => assert (keeps frame k) as Hk by framing; exact (Hk _ _ _ E) end.
  - unroll E. apply tx_bind_ok in E as ([] & t2 & E2 & E). apply require_active_ok in E2 as (_ & _ & ->). skip E Hf2. follow E.
    match type of H2 with _ = Ok (?b, _) => destruct b; [|discriminate] end. apply terminal_writer_ok in H2 as (_ & Hst & Hjst); [|done]. cbn [lk_StepStatus lk_JobStatus] in *.
    simpl in Hf2. assert (frame (tx_store t) (tx_store t1)) as Hfr by (etransitivity; done).
    clear Hf Hf2. apply (well_formed_frame _ _ Hfr) in H. pose proof (he_job _ _ _ _ _ Hh) as Hj. rewrite <- (fr_jobs _ _ Hfr) in Hj.
    apply tx_bind_ok in E as ([] & t3 & E3 & E). apply terminalize_ok in E3 as (Hns & row & finished & w & k & Hrow & Hact & _ & _ & _ & ->).
    apply (fun H => wf_attempts _ _ H (terminalized_less _ _ _ _ finished Hrow Hns)) in H.
    apply tx_bind_ok in E as (b & t3 & E3 & E). apply update_step_ok in E3 as [(-> & y & Hy & Hown & Hch & _ & ->)|(-> & -> & _)]; [|discriminate E].
    apply own_step_spec in Hown as (Hyj & Hyc & Hys). apply change_unsuperseded in Hch. follow E. pose proof (he_valid _ _ _ _ _ Hh) as Hpos.
    apply authority_positive in Hpos. apply tx_bind_ok in E as (b & t3 & E3 & E).
    apply update_job_ok in E3 as [(-> & row' & Hrow' & _ & _ & Hcj & ->)|(-> & -> & _)]; [|discriminate E].
    unroll E. apply (well_formed_frame (tx_store (with_store t1 (tx_store t1 <| attempts := <[(au_StepID (fs_Authority c), au_Attempt (fs_Authority c)):=
      row <| attempt_Status := StepAttemptFailed |> <| attempt_FinishedAt := Some finished |>]> (attempts (tx_store t1)) |>
      <| steps := <[fs_StepID c := y <| step_Status := StatusFailed |> <| step_Error := fs_Error c |> <| step_FinishedAt := Some (now env) |>]> (steps (tx_store t1)) |>
      <| jobs := <[au_JobID (fs_Authority c) := row' <| job_Status := StatusFailed |> <| job_Error := fs_Error c |> <| job_CompletedAt := Some (now env) |>
         <| job_UpdatedAt := now env |>]> (jobs (tx_store t1)) |>)))).
    { match type of E with ?k ?t0 = _ => assert (keeps frame k) as Hk by framing; exact (Hk _ _ _ E) end. }
    cbn [tx_store with_store] in *. row_simpl. simplify_eq.
    assert (open_status (step_Status y) = true) as Hyo. { rewrite Hys. by destruct Hst as [->| ->]. }
    refine (wf_fail_job _ _ (fs_StepID c) y _ row' _ H _ _ Hyo _ _ _ Hcj _ _); try done.
    apply moved_open; try done. intros _. lia.
Qed.

(** *** Waiting *)
Lemma unsuperseded_held a s job step attempt : held a s job step attempt -> current_step s (au_JobID a) (au_StepID a) step.
Proof. intros []. by repeat split. Qed.
Lemma wf_wait_native a request callID taskID (st : State World) : well_formed st.1 ->
  well_formed (WaitForCodingNativeInput env others a request callID taskID st).2.1.
Proof.
  intros H. unfold WaitForCodingNativeInput. destruct (transact others _ st) as [r st'] eqn:E. simpl.
  apply transact_cases in E as [(e & -> & ->)|(x & t' & -> & E & -> & _)]; [done|].
  apply tx_bind_ok in E as ([] & t1 & E1 & E). apply running_ok in E1 as (job & step & attempt & k & Hh & _ & Hjr & Hsr & ->). unroll E.
  apply tx_bind_ok in E as (inputID & t1 & E1 & E). assert (frame st.1 (tx_store t1)) as Hf.
  { match type of E1 with ?c ?t0 = _ => assert (keeps frame c) as Hk by framing; exact (Hk _ _ _ E1) end. }
  apply (well_formed_frame _ _ Hf) in H. pose proof (he_job _ _ _ _ _ Hh) as Hj. pose proof (he_step _ _ _ _ _ Hh) as Hs. simpl in Hj, Hs.
  rewrite <- (fr_jobs _ _ Hf) in Hj. rewrite <- (fr_steps _ _ Hf) in Hs. unroll E.
  apply tx_bind_ok in E as (b & t2 & E2 & E). cbn [tx_store] in *.
  apply update_step_ok in E2 as [(-> & y & Hy & _ & _ & _ & ->)|(-> & -> & Hno)]; [|by specialize (Hno _ Hs)]. cbn [tx_store] in *. assert (y = step) as -> by congruence. clear Hy.
  eapply wf_open_step in H; [|exact Hs|apply (moved_open _ _ _ (step <| step_Status := StatusWaiting |> <| step_Output := o_native_prompt others request |>)); try done;
    [by apply he_unsuperseded in Hh|by rewrite Hsr]].
  unroll E. apply tx_bind_ok in E as (b & t2 & E2 & E). follow E.
  apply update_job_ok in E2 as [(-> & row & Hrow & _ & _ & Hcj & ->)|(-> & -> & _)]; [|exact H]. cbn [tx_store with_store] in *. row_simpl. assert (row = job) as -> by congruence. clear Hrow.
  refine (wf_open_job _ _ _ _ H Hj _ Hcj _ _); try done. right. split; [done|by rewrite Hjr].
Qed.
(** The running step waits, its attempt over, and its job with it. *)
Lemma wf_wait a status (p : StepRow -> bool) set pj setj e1 e2 (t : Tx World) t' :
  well_formed (tx_store t) -> status <> StepAttemptActive ->
  (forall y, set y = y <| step_Status := StatusWaiting |> <| step_WorkerID := None |> <| step_Output := step_Output (set y) |>) ->
  (forall at_ row, setj at_ row = row <| job_Status := StatusWaiting |> <| job_UpdatedAt := at_ |>) -> (forall y, p y = true -> step_Status y = StatusRunning) ->
  (forall row, pj row = true -> job_Status row = StatusRunning) ->
  (exec terminalizeStepAttemptTx env others a status;
   let* changed := update_step (au_StepID a) p set in abort e1 if negb changed;
   let* at_ := clock env in
   let* paused := update_job (au_JobID a) pj (setj at_) in abort e2 if negb paused; ret tt) t = Ok (tt, t') -> well_formed (tx_store t').
Proof.
  intros H Hst Hset Hsetj Hp Hpj E. apply tx_bind_ok in E as ([] & t1 & E1 & E). apply terminalize_ok in E1 as (_ & row & finished & w & k & Hrow & _ & _ & _ & _ & ->).
  apply (fun H => wf_attempts _ _ H (terminalized_less _ _ _ _ finished Hrow Hst)) in H.
  apply tx_bind_ok in E as (b & t1 & E1 & E). apply update_step_ok in E1 as [(-> & y & Hy & Hpy & Hch & _ & ->)|(-> & -> & _)]; [|discriminate E].
  follow E. cbn [tx_store] in *. row_simpl. apply Hp in Hpy. apply change_unsuperseded in Hch. rewrite Hset in E.
  eapply wf_open_step in H; [|exact Hy|apply (moved_open _ _ _ (y <| step_Status := StatusWaiting |> <| step_WorkerID := None |> <| step_Output := step_Output (set y) |>)); try done;
    by rewrite Hpy].
  unroll E. apply tx_bind_ok in E as (b & t1 & E1 & E). apply update_job_ok in E1 as [(-> & job & Hj & Hpr & _ & Hcj & ->)|(-> & -> & _)]; [|discriminate E].
  follow E. cbn [tx_store with_store] in *. rewrite Hsetj in *. apply Hpj in Hpr.
  refine (wf_open_job _ _ _ _ H Hj _ Hcj _ _); try done. right. split; [done|by rewrite Hpr].
Qed.
Lemma wf_wait_input a taskID (st : State World) : well_formed st.1 -> well_formed (WaitForCodingExecutionInput env others a taskID st).2.1.
Proof.
  intros H. unfold WaitForCodingExecutionInput. destruct (transact others _ st) as [r st'] eqn:E. simpl.
  apply transact_cases in E as [(e & -> & ->)|([] & t' & -> & E & -> & _)]; [done|].
  apply tx_bind_ok in E as ([] & t1 & E1 & E). apply running_ok in E1 as (job & step & attempt & k & Hh & _ & Hjr & Hsr & ->).
  apply tx_bind_ok in E as (response & t1 & E1 & E). pose proof (reads_response _ _ _ _ _ _ E1) as Hs. simpl in Hs. destruct response as [row|]; [|done].
  follow E. rewrite <- Hs in H. eapply (wf_wait a StepAttemptWaiting); [| | | | | |exact E];
    [exact H|done|done|done|intros y Hy; cbv beta in Hy; by guards|intros y Hy; cbv beta in Hy; by guards].
Qed.
Lemma wf_review_ready a ledgerID revision (st : State World) : well_formed st.1 -> well_formed (MarkCodingLedgerReviewReady env others a ledgerID revision st).2.1.
Proof.
  intros H. unfold MarkCodingLedgerReviewReady. destruct (_ || _)%bool; [done|]. destruct (transact others _ st) as [r st'] eqn:E. simpl.
  apply transact_cases in E as [(e & -> & ->)|([] & t' & -> & E & -> & _)]; [done|].
  apply tx_bind_ok in E as ([] & t1 & E1 & E). apply running_ok in E1 as (job & step & attempt & k & Hh & _ & Hjr & Hsr & ->). unroll E.
  eapply (wf_wait a StepAttemptCompleted); [| | | | | |exact E];
    [exact H|done|by intros []|done|intros y Hy; cbv beta in Hy; guards; by eapply own_step_status|intros y Hy; cbv beta in Hy; by guards].
Qed.
Lemma wf_review jobID ledgerID revision t x t' : well_formed (tx_store t) -> completeCodingLedgerReviewTx env jobID ledgerID revision t = Ok (x, t') -> well_formed (tx_store t').
Proof.
  intros H E. unfold completeCodingLedgerReviewTx in E. unroll E. cbv [Datatypes.id] in E. destruct (jobs (tx_store t) !! jobID) as [job|] eqn:Hj; [|done].
  destruct (ledgers (tx_store t) !! jobID) as [ledger|]; [|done]. follow E. destruct (head _) as [[stepID step]|] eqn:Hh; [|done].
  destruct (_ && _)%bool; [by follow E|]. unroll E. guards.
  apply tx_bind_ok in E as (b & t1 & E1 & E). apply update_step_ok in E1 as [(-> & y & Hy & Hpy & Hch & _ & ->)|(-> & -> & _)]; [|discriminate E].
  apply change_unsuperseded in Hch. guards. cbn [tx_store] in *. match type of Hy with _ !! _ = Some ?y0 => match type of E with context [?z <| step_FinishedAt := ?f |>] =>
    eapply (wf_open_step _ _ y0 (z <| step_FinishedAt := f |>)) in H; [|exact Hy|apply moved_open; try done; by rewrite Hpy] end end.
  unroll E. apply tx_bind_ok in E as (b & t1 & E1 & E). apply update_job_ok in E1 as [(-> & row & Hrow & Hpr & _ & Hcj & ->)|(-> & -> & _)]; [|discriminate E].
  follow E. cbn [tx_store with_store] in *. row_simpl. simplify_eq. refine (wf_open_job _ _ _ _ H Hj _ Hcj _ _); try done. by left.
Qed.
End keeps.
