(* ===== verification/JobCutover.v ===== *)
(** * Generations are cut over

    What interruption and replanning do to the tables: the attempts of the current
    generation end, all its steps are superseded, and the canonical steps of the next one
    are appended. *)
From Stdlib Require Import Ascii.
From S2P Require Import Prelude Schema PathIdentity UserIntent JsonCodec Scrum Jobs JobStore JobCommands JobSteps JobControl JobFacts JobReach JobInv JobKeeps.
From stdpp Require Import sorting base tactics strings list gmap numbers pretty.
From stdpp Require Import list options.
Open Scope Z_scope.
Open Scope go_scope.

(** The boundary of the two canonical pipelines is their first step. *)
Definition boundary_of (objective : bool) : replanBoundary :=
  if objective then mkBoundary replanObjectiveBoundary 5 conversationObjectiveSteps else mkBoundary replanCodingBoundary 5 codingSteps.
Lemma canonical_boundary objective : canonicalReplanTail (pipeline_steps objective) = Ok (boundary_of objective).
Proof. by destruct objective; vm_compute. Qed.
Lemma pipeline_lower objective seed : seed ∈ pipeline_steps objective -> 5 <= seed_sortIndex seed.
Proof. destruct objective; simpl; intros H; set_unfold; naive_solver lia. Qed.

Section cutover.
Context {World : Type} (env : Env) (others : Others World).
Implicit Types t : Tx World.

Lemma store_eta s : s = s <| attempts := attempts s |>.
Proof. by destruct s. Qed.
(** The active attempts a condition names end with the given status; the others stay. *)
Definition attempts_ended (terminal : StepAttemptStatus) (P : Z * Z -> Prop) (m m' : gmap (Z * Z) AttemptRow) : Prop := forall key,
  match m !! key, m' !! key with
  | Some a, Some a' => (a' = a /\ (P key -> active a = false)) \/
      (P key /\ active a = true /\ exists finished, a' = a <| attempt_Status := terminal |> <| attempt_FinishedAt := Some finished |>)
  | None, None => True
  | _, _ => False
  end.
Lemma ended_less terminal P m m' : terminal <> StepAttemptActive -> attempts_ended terminal P m m' -> attempts_less m m'.
Proof.
  intros Ht He key. specialize (He key). destruct (m !! key) as [a|], (m' !! key) as [a'|]; try done. destruct He as [(-> & _)|(_ & Ha & f & ->)]; [by repeat split|].
  by repeat split.
Qed.
Lemma ended_none terminal m : attempts_ended terminal (fun _ => False) m m.
Proof. intros key. destruct (m !! key); [|done]. left. done. Qed.
Lemma ended_weaken terminal P Q m m' : attempts_ended terminal P m m' -> (forall key, P key <-> Q key) -> attempts_ended terminal Q m m'.
Proof. intros He Hpq key. specialize (He key). destruct (m !! key), (m' !! key); try done. by rewrite <- Hpq. Qed.
Lemma ended_then terminal P Q m1 m2 m3 : terminal <> StepAttemptActive -> attempts_ended terminal P m1 m2 -> attempts_ended terminal Q m2 m3 ->
  attempts_ended terminal (fun key => P key \/ Q key) m1 m3.
Proof.
  intros Ht H1 H2 key. specialize (H1 key). specialize (H2 key). destruct (m1 !! key) as [a|], (m2 !! key) as [b|], (m3 !! key) as [c|]; try done.
  assert (forall f, active (a <| attempt_Status := terminal |> <| attempt_FinishedAt := Some f |>) = false) as Hf.
  { intros f. unfold active. row_simpl. by apply bool_decide_eq_false_2. }
  destruct H1 as [(-> & Hp)|(Hp & Ha & f & ->)], H2 as [(-> & Hq)|(Hq & Hb & f' & ->)].
  - left. split; [done|]. intros [?|?]; auto.
  - right. split; [by right|]. eauto.
  - right. split; [by left|]. eauto.
  - by rewrite Hf in Hb.
Qed.
Lemma end_attempt_ok j g id n (worker : string) terminal (e1 e2 : string) e3 t x t' : terminal <> StepAttemptActive ->
  (let* finished := clock env in
   let* changed := update_attempt others j g id n true (fun a => (attempt_WorkerID a == worker) && active a)%bool
     (fun a => a <| attempt_Status := terminal |> <| attempt_FinishedAt := Some finished |>) in
   if changed : bool then ret tt else
   let* found := gets (fun s => attempts s !! (id, n)) in
   match found with
   | Some a => abort e1 if negb (attempt_of j g a) || (attempt_WorkerID a != worker); abort e2 if attempt_Status a != StepAttemptWaiting; ret tt
   | None => fail e3
   end) t = Ok (x, t') ->
  exists m w, t' = mkTx (tx_store t <| attempts := m |>) w (S (tx_tick t)) (tx_draw t) (tx_recorded t) /\
    attempts_ended terminal (fun key => key = (id, n)) (attempts (tx_store t)) m.
Proof.
  intros Hst E. unroll E. apply tx_bind_ok in E as (b & t1 & E1 & E).
  apply update_attempt_ok in E1 as [(-> & a & w & Ha & _ & Hp & _ & _ & ->)|(-> & -> & _)]; cbn [tx_store tx_tick tx_draw tx_recorded] in *.
  - follow E. apply andb_prop in Hp as [_ Hact]. eexists _, w. split; [reflexivity|]. intros key. destruct (decide (key = (id, n))) as [->|Hn].
    + rewrite Ha, lookup_insert_eq. right. eauto.
    + rewrite lookup_insert_ne by done. destruct (attempts (tx_store t) !! key); [|done]. by left.
  - unroll E. cbn [tx_store] in E. destruct (attempts (tx_store t) !! (id, n)) as [a|] eqn:Ea; follow E.
    exists (attempts (tx_store t)), (tx_world t). split; [by destruct t as [[] ]|]. intros key. destruct (attempts (tx_store t) !! key) as [b|] eqn:Eb; [|done].
    left. split; [done|]. intros ->. guards. unfold active. simplify_eq. by match goal with H : attempt_Status _ = _ |- _ => rewrite H end.
Qed.
(** A running step, and a waiting one that is still held by a worker. *)
Definition held_step (x : StepRow) : bool := ((step_Status x == StatusRunning) || ((step_Status x == StatusWaiting) && (default "" (step_WorkerID x) != "")))%bool.
(** The current attempts of the rows that are held. *)
Definition held_keys (l : list (Z * StepRow)) (key : Z * Z) : Prop := exists y, (key.1, y) ∈ l /\ held_step y = true /\ key.2 = step_CurrentAttempt y.
Lemma terminalize_each_ok j g terminal l t x t' : terminal <> StepAttemptActive -> each (terminalize_attempt_of env others j g terminal) l t = Ok (x, t') ->
  exists m w k, t' = mkTx (tx_store t <| attempts := m |>) w k (tx_draw t) (tx_recorded t) /\ attempts_ended terminal (held_keys l) (attempts (tx_store t)) m.
Proof.
  intros Hst. revert t. induction l as [|[id y] l IH]; intros t E.
  - apply ret_ok in E as [_ ->]. exists (attempts (tx_store t)), (tx_world t), (tx_tick t). split; [by destruct t as [[] ]|].
    eapply ended_weaken; [apply ended_none|]. intros key. split; [done|]. intros (y & Hin & _). by apply not_elem_of_nil in Hin.
  - cbn [each] in E. apply tx_bind_ok in E as ([] & t1 & E1 & E). unfold terminalize_attempt_of in E1. cbv zeta in E1. fold (held_step y) in E1.
    assert (exists m w k, t1 = mkTx (tx_store t <| attempts := m |>) w k (tx_draw t) (tx_recorded t) /\
      attempts_ended terminal (fun key => held_step y = true /\ key = (id, step_CurrentAttempt y)) (attempts (tx_store t)) m) as (m & w & k & -> & Hl).
    { destruct (held_step y).
      - follow E1. apply end_attempt_ok in E1 as (m & w & -> & Hl); [|done]. exists m, w, (S (tx_tick t)). split; [done|]. eapply ended_weaken; [exact Hl|]. naive_solver.
      - apply ret_ok in E1 as [_ ->]. exists (attempts (tx_store t)), (tx_world t), (tx_tick t). split; [by destruct t as [[] ]|].
        eapply ended_weaken; [apply ended_none|]. naive_solver. }
    apply IH in E as (m' & w' & k' & -> & Hl'). cbn [tx_store tx_draw tx_recorded] in *. row_simpl. exists m', w', k'. split; [done|].
    eapply ended_weaken; [eapply ended_then; [done|exact Hl|exact Hl']|]. intros [i n]. unfold held_keys. cbn [fst snd]. split.
    + intros [[Hh [= -> ->]]|(z & Hin & Hh & ->)]; [exists y; split; [by left|done]|exists z; split; [by right|done]].
    + intros (z & [[= -> ->]|Hin]%elem_of_cons & Hh & ->); [by left|right; eauto].
Qed.
Lemma terminalize_all_ok j g ids terminal t x t' : terminalizeStepAttemptsForAuthorityChangeTx env others j g ids terminal t = Ok (x, t') ->
  terminal <> StepAttemptActive /\ exists m w k, t' = mkTx (tx_store t <| attempts := m |>) w k (tx_draw t) (tx_recorded t) /\
    attempts_ended terminal (fun key => exists y, steps (tx_store t) !! key.1 = Some y /\ step_JobID y = j /\ step_Generation y = g /\ key.1 ∈ ids /\
      held_step y = true /\ key.2 = step_CurrentAttempt y) (attempts (tx_store t)) m.
Proof.
  unfold terminalizeStepAttemptsForAuthorityChangeTx. intros E. unroll E. assert (terminal <> StepAttemptActive) as Ht. { guards. intros ->. set_solver. }
  split; [done|]. apply terminalize_each_ok in E as (m & w & k & -> & Hl); [|done]. exists m, w, k. split; [done|]. eapply ended_weaken; [exact Hl|].
  intros [i n]. unfold held_keys. cbn [fst snd]. split.
  - intros (y & [Hy Hp]%steps_by_id_spec & Hh & ->). guards. exists y. done.
  - intros (y & Hy & Hj & Hg & Hin & Hh & ->). exists y. split; [|done]. apply steps_by_id_spec. split; [done|]. by rewrite !bool_decide_eq_true_2.
Qed.

(** ** The cutover *)

Lemma canonical_steps_ok job t seeds t' : canonicalReplanStepsTx others job t = Ok (seeds, t') -> t' = t /\ exists objective, seeds = pipeline_steps objective.
Proof.
  unfold canonicalReplanStepsTx. intros E. unroll E. destruct (negb x).
  - destruct (_ == _); [done|]. destruct (_ == _); [follow E; split; [done|by exists false]|]. destruct (_ == _); [|done]. unroll E. split; [done|by exists false].
  - unroll E. split; [done|]. match goal with |- context [if ?b then codingSteps else _] => destruct b end; [by exists false|by exists true].
Qed.
Lemma begin_cutover_ok job t cut t' : begin_cutover env others job t = Ok (cut, t') -> exists row objective m,
  jobs (tx_store t) !! job.1 = Some row /\ cut_generation cut = job_CurrentGeneration row /\ 0 < job_CurrentGeneration row < maxInt64 /\
  cut_boundary cut = boundary_of objective /\ cut_retiring cut = (current_tail job.1 5 (tx_store t)).*1 /\
  validateCurrentReplanTail (job_CurrentGeneration row) (boundary_of objective) (replan_record <$> current_tail job.1 5 (tx_store t)) = Ok (cut_retiring cut) /\
  frame (tx_store t <| attempts := m |>) (tx_store t') /\
  attempts_ended StepAttemptSuperseded (fun key => exists y, steps (tx_store t) !! key.1 = Some y /\ step_JobID y = job.1 /\
    step_Generation y = job_CurrentGeneration row /\ key.1 ∈ cut_retiring cut /\ held_step y = true /\ key.2 = step_CurrentAttempt y) (attempts (tx_store t)) m.
Proof.
  unfold begin_cutover. intros E. apply tx_bind_ok in E as (g & t1 & E1 & E). unfold lockCurrentJobGenerationTx in E1. unroll E1. simpl in *. follow E.
  apply tx_bind_ok in E as ([] & t1 & E1 & E). unfold lockGenerationRecordTx in E1. unroll E1.
  apply tx_bind_ok in E as (seeds & t1 & E1 & E). apply canonical_steps_ok in E1 as (-> & objective & ->). follow E.
  match goal with H : canonicalReplanTail _ = Ok _ |- _ => rewrite canonical_boundary in H; injection H as <- end.
  assert (bo_sortIndex (boundary_of objective) = 5) as H5 by (by destruct objective). rewrite H5 in *. follow E.
  match goal with H : validateCurrentReplanTail _ _ _ = Ok _ |- _ => rename H into Hv end.
  assert (forall g b l ids, validateCurrentReplanTail g b l = Ok ids -> ids = rr_ID <$> l) as Hids.
  { intros ? ? [|first l] ids Hr; [done|]. unfold validateCurrentReplanTail in Hr. split_ok Hr. done. }
  pose proof (Hids _ _ _ _ Hv) as ->. rewrite <- list_fmap_compose in E, Hv.
  apply tx_bind_ok in E as ([] & t1 & E1 & E). apply terminalize_all_ok in E1 as (_ & m & w & k & -> & Hl).
  apply tx_bind_ok in E as ([] & t2 & E2 & E). apply ret_ok in E as [-> ->]. pose proof (framed_revise _ _ _ _ E2) as Hf. simpl in Hf.
  guards. eexists _, objective, m. cbn [cut_generation cut_boundary cut_retiring]. split; [done|]. split; [done|]. split; [done|]. split; [done|]. split; [done|]. split; [done|].
  split; [done|]. exact Hl.
Qed.

(** The rows of the new tail. *)
Definition tail_rows (j next : Z) (first : Status) (seeds : list stepSeed) : list StepRow :=
  match seeds with
  | [] => []
  | seed :: rest => new_step j (seed_action seed) (seed_sortIndex seed) first next ::
      ((fun seed => new_step j (seed_action seed) (seed_sortIndex seed) StatusPending next) <$> rest)
  end.
Lemma replan_tail_ok j next seeds t x t' : insertReplanTailTx env j next seeds t = Ok (x, t') -> exists m k,
  appended (tail_rows j next StatusPending seeds) (steps (tx_store t)) m /\ t' = mkTx (tx_store t <| steps := m |>) (tx_world t) (tx_tick t) k (tx_recorded t).
Proof.
  unfold insertReplanTailTx. intros E. follow E. rewrite (each_map (insert_step env) (fun seed => new_step j (seed_action seed) (seed_sortIndex seed) StatusPending next)) in E.
  apply insert_steps_ok in E. by destruct seeds.
Qed.
Lemma interrupted_tail_ok j next boundary t x t' : insertInterruptedTailTx env j next boundary t = Ok (x, t') -> exists m k,
  appended (tail_rows j next StatusWaiting (bo_seeds boundary)) (steps (tx_store t)) m /\
  t' = mkTx (tx_store t <| steps := m |>) (tx_world t) (tx_tick t) k (tx_recorded t).
Proof.
  unfold insertInterruptedTailTx. intros E. destruct (bo_seeds boundary) as [|seed rest]; [done|]. follow E.
  rewrite (each_map (insert_step env) (fun seed => new_step j (seed_action seed) (seed_sortIndex seed) StatusPending next)) in E.
  exact (insert_steps_ok env (_ :: _) _ _ _ E).
Qed.
Lemma tail_rows_sorted j next first seeds : StronglySorted (fun x y => seed_sortIndex x < seed_sortIndex y) seeds ->
  StronglySorted (fun x y => step_SortIndex x < step_SortIndex y) (tail_rows j next first seeds).
Proof.
  destruct 1 as [|seed rest Hs Hall]; [constructor|]. constructor; [by apply new_steps_sorted|]. apply Forall_fmap. eapply Forall_impl; [exact Hall|done].
Qed.
Lemma retired_step_row j next x : step_JobID x = j -> unsuperseded x = true -> retired j x (retired_step env next x).
Proof. intros Hj Hu. unfold retired. rewrite decide_True by done. unfold retired_step. destruct (open_status (step_Status x)) eqn:Ho; by repeat split. Qed.
(** The tables after the generation of a job was cut over. *)
Definition cut_over (s : Store) (j : Z) (objective : bool) (first : Status) (record : JobGeneration) (set : JobRow -> JobRow) (s' : Store) : Prop :=
  exists row at' m', jobs s !! j = Some row /\ job_constraints s j (set row) = true /\ 
    attempts_ended StepAttemptSuperseded (fun key => exists y, current_step s j key.1 y /\ held_step y = true /\ key.2 = step_CurrentAttempt y) (attempts s) at' /\
    appended (tail_rows j (job_CurrentGeneration row + 1) first (pipeline_steps objective))
      (alter_where (fun _ x => (step_JobID x == j) && unsuperseded x)%bool (retired_step env (job_CurrentGeneration row + 1)) (steps s)) m' /\
    frame (begun s j (job_CurrentGeneration row) (set row) record at' m') s'.
Lemma cutover_ok job t0 cut purpose feedback first t p set t1 t2 t3 t4 : well_formed (tx_store t0) ->
  begin_cutover env others job t0 = Ok (cut, t) -> create_generation job.1 (cut_generation cut) (cut_generation cut + 1) purpose (cut_boundary cut) feedback t = Ok (tt, t1) ->
  retireReplanTailTx env job.1 (cut_retiring cut) (cut_generation cut + 1) t1 = Ok (tt, t2) ->
  (exists m k, appended (tail_rows job.1 (cut_generation cut + 1) first (bo_seeds (cut_boundary cut))) (steps (tx_store t2)) m /\
     t3 = mkTx (tx_store t2 <| steps := m |>) (tx_world t2) (tx_tick t2) k (tx_recorded t2)) ->
  update_job job.1 p set t3 = Ok (true, t4) -> exists objective row, jobs (tx_store t0) !! job.1 = Some row /\ p row = true /\
    cut_generation cut = job_CurrentGeneration row /\ cut_boundary cut = boundary_of objective /\
    validateCurrentReplanTail (job_CurrentGeneration row) (boundary_of objective) (replan_record <$> current_tail job.1 5 (tx_store t0)) = Ok (cut_retiring cut) /\
    cut_over (tx_store t0) job.1 objective first
      (mkGeneration purpose (Some (cut_generation cut)) (Some (bo_action (boundary_of objective))) (Some feedback)) set (tx_store t4).
Proof.
  intros H E E1 E2 (m' & k & Happ & ->) E4.
  apply begin_cutover_ok in E as (row & objective & at' & Hj & Hg & Hpos & Hb & Hret & Hv & Hf & Hl).
  exists objective, row. apply insert_generation_ok in E1 as (_ & _ & _ & ->). unfold retireReplanTailTx in E2.
  apply tx_bind_ok in E2 as (n & t2' & E2 & E3). apply update_steps_ok in E2 as [_ ->]. follow E3. cbn [tx_store with_store] in *. row_simpl.
  apply update_job_ok in E4 as [(_ & row' & Hj' & Hp & _ & Hc & ->)|([=] & _)]. cbn [tx_store] in *.
  assert (row' = row) as ->. { change (jobs (tx_store t) !! job.1 = Some row') in Hj'. rewrite (fr_jobs _ _ Hf) in Hj'. row_simpl. congruence. }
  repeat (split; [done|]). rewrite Hg, Hb in *. assert (bo_seeds (boundary_of objective) = pipeline_steps objective) as Hbs by (by destruct objective). rewrite Hbs in Happ.
  assert (forall id y, current_step (tx_store t0) job.1 id y -> step_Generation y = job_CurrentGeneration row /\ 5 <= step_SortIndex y) as Hall.
  { intros id y (Hy & Hyj & Hu). destruct (wf_step _ H _ _ Hy) as (_ & row' & Hr & _ & Hiff). rewrite Hyj, Hj in Hr. injection Hr as <-. split; [by apply Hiff|].
    destruct (wf_seeds _ H id y id y Hy Hy eq_refl eq_refl) as (o & Ho & _). by apply pipeline_lower in Ho. }
  assert (forall id y, current_step (tx_store t0) job.1 id y -> id ∈ cut_retiring cut) as Hin.
  { intros id y Hcur. rewrite Hret. apply list_elem_of_fmap. exists (id, y). split; [done|]. unfold current_tail. apply select_steps_spec.
    destruct (Hall _ _ Hcur) as [_ Hs], Hcur as (Hy & Ej & Eu). split; [done|]. rewrite Eu, bool_decide_eq_true_2 by done. by rewrite (proj2 (Z.leb_le _ _)). }
  exists row, at', m'. split; [done|]. split; [|split; [|split; [|]]].
  - unfold job_constraints, channel_free in *. row_simpl. rewrite (fr_jobs _ _ Hf) in Hc. exact Hc.
  - eapply ended_weaken; [exact Hl|]. intros [i k0]. cbn [fst snd]. split.
    + intros (y & Hy & Hyj & _ & Hi & Hh & ->). exists y. split; [|done]. rewrite Hret in Hi. apply list_elem_of_fmap in Hi as ([i' z] & Hii & Hz). simpl in Hii. subst i'.
      unfold current_tail in Hz. apply select_steps_spec in Hz as [Hz Hpz]. guards. assert (z = y) as -> by congruence. done.
    + intros (y & Hcur & Hh & ->). destruct (Hall _ _ Hcur) as [Hgen _]. pose proof (Hin _ _ Hcur). destruct Hcur as (Hy & Hyj & _). exists y. done.
  - enough (alter_where (fun _ x => (step_JobID x == job.1) && unsuperseded x)%bool (retired_step env (job_CurrentGeneration row + 1)) (steps (tx_store t0)) =
      alter_where (fun stepID step => (step_JobID step == job.1) && bool_decide (stepID ∈ cut_retiring cut) && unsuperseded step)%bool
        (retired_step env (job_CurrentGeneration row + 1)) (steps (tx_store t))) as -> by done.
    rewrite (fr_steps _ _ Hf). row_simpl. apply map_eq. intros id. rewrite !alter_where_lookup. destruct (steps (tx_store t0) !! id) as [y|] eqn:Hy; [|done]. simpl. f_equal.
    destruct (unsuperseded y) eqn:Eu, (decide (step_JobID y = job.1)) as [Ej|Ej];
      rewrite ?andb_false_r, ?andb_true_r, ?(bool_decide_eq_false_2 _ Ej), ?(bool_decide_eq_true_2 _ Ej); simpl; [|done..].
    rewrite bool_decide_eq_true_2; [done|]. by apply (Hin id y).
  - destruct Hf as [Fj Fg Fs Fa]. constructor; unfold begun; cbn [tx_store with_store]; row_simpl; congruence.
Qed.
Lemma wf_cut_over s j objective first record set s' : well_formed s -> cut_over s j objective first record set s' -> first <> StatusRunning -> first <> StatusFailed ->
  (forall row, jobs s !! j = Some row -> job_CurrentGeneration (set row) = job_CurrentGeneration row + 1 /\ terminalJobStatus (job_Status (set row)) = false /\
     job_CompletedAt (set row) = None) -> well_formed s'.
Proof.
  intros H (row & at' & m' & Hj & Hc & Hl%ended_less & Happ & Hf) Hr Hfl Hset; [|done]. destruct (Hset _ Hj) as (Hg & Ho & Hfin). apply (well_formed_frame _ _ Hf).
  eapply (wf_begun s j (job_CurrentGeneration row) _ _ at' _ m' _ objective H); try done.
  - by rewrite Hj.
  - intros id. rewrite alter_where_lookup. destruct (steps s !! id) as [x|] eqn:Hx; [|done]. simpl. destruct (_ && _)%bool eqn:Eb.
    + guards. by apply retired_step_row.
    + unfold retired. rewrite decide_False; [done|]. intros [Hd1 Hd2]. by rewrite Hd1, Hd2, bool_decide_eq_true_2 in Eb.
  - apply tail_rows_sorted, pipeline_sorted.
  - apply Forall_forall. intros x Hx. destruct objective; simpl in Hx; set_unfold; destruct_or!; subst x;
      eexists _, _, _; (split; [reflexivity|]); (split; [done|]); (split; [done|]); set_solver.
Qed.
End cutover.
