(* ===== verification/JobWellFormed.v ===== *)
(** * Every reachable state is well formed

    The invariant of [JobInv] along interruption, replanning and cancellation; along the
    resumption of a frozen execution, where the step that is started again is the last of
    its position and a failed planning that the owner had approved counts as completed;
    along the replies of the owner; and with the lemmas of [JobKeeps] along every call. *)
From Stdlib Require Import Ascii.
From S2P Require Import Prelude Schema PathIdentity UserIntent JsonCodec Scrum Jobs JobStore JobCommands JobSteps JobControl JobFacts JobReach JobInv JobKeeps JobCutover.
From stdpp Require Import sorting base tactics strings list gmap numbers pretty.
From stdpp Require Import list options.
Open Scope Z_scope.
Open Scope go_scope.

(** ** The owner's commands *)

(** Closes a computation that leaves the tables of jobs. *)
Ltac frame_rest E :=
  match type of E with ?c ?t = Ok (_, ?t') => apply (well_formed_frame (tx_store t));
    [let Hk := fresh in assert (keeps frame c) as Hk by framing; exact (Hk _ _ _ E)|] end.

Section owner.
Context {World : Type} (env : Env) (others : Others World).
Implicit Types t : Tx World.

(** *** Interruption *)
Lemma last_in {A} (l : list A) x : last l = Some x -> x ∈ l.
Proof. intros H. apply last_Some in H as [l' ->]. set_solver. Qed.
Lemma frozen_execution_ok job p s id x : frozen_execution job p s = Some (id, x) -> steps s !! id = Some x /\ step_JobID x = job.1 /\
  step_Action x = "v3_coding" /\ unsuperseded x = true /\ p x = true.
Proof.
  unfold frozen_execution. destruct (ledgers s !! job.1); [|done]. destruct (ledger_frozen _); [|done]. intros Hl%last_in%steps_by_id_spec. guards.
  destruct Hl as [Hx Hp]. guards. done.
Qed.
Lemma pause_attempt_ok job id x t y t' : pause_attempt env others job id x t = Ok (y, t') -> exists m w k,
  t' = mkTx (tx_store t <| attempts := m |>) w k (tx_draw t) (tx_recorded t) /\
  attempts_ended StepAttemptWaiting (fun key => 0 < step_CurrentAttempt x /\ key = (id, step_CurrentAttempt x)) (attempts (tx_store t)) m.
Proof.
  unfold pause_attempt. cbv zeta. destruct (step_CurrentAttempt x <=? 0) eqn:Ec; intros E; guards.
  - apply ret_ok in E as [_ ->]. exists (attempts (tx_store t)), (tx_world t), (tx_tick t). split; [by destruct t as [[] ]|].
    eapply ended_weaken; [apply ended_none|]. intros key. split; [done|]. intros [? _]. lia.
  - apply end_attempt_ok in E as (m & w & -> & Hl); [|done]. exists m, w, (S (tx_tick t)). split; [done|]. eapply ended_weaken; [exact Hl|]. intros key. tauto.
Qed.
Lemma wf_pause job row d t x t' : well_formed (tx_store t) -> jobs (tx_store t) !! job = Some row -> terminalJobStatus (job_Status row) = false ->
  pauseFrozenCodingTx env others (job, row) d t = Ok (x, t') -> well_formed (tx_store t') /\ (x = None -> t' = t).
Proof.
  intros H Hj Ho E. unfold pauseFrozenCodingTx in E. unroll E. destruct (frozen_execution _ _ _) as [[id step]|] eqn:Ef; [|apply ret_ok in E as [-> ->]; done].
  apply frozen_execution_ok in Ef as (Hs & Hsj & _ & Hu & Hp). guards.
  apply tx_bind_ok in E as ([] & t1 & E1 & E). apply pause_attempt_ok in E1 as (m & w & k & -> & Hl%ended_less); [|done].
  split; [|intros ->; repeat (apply tx_bind_ok in E as (? & ? & _ & E)); by apply ret_ok in E as [? _]].
  apply (wf_attempts _ m) in H; [|done]. apply tx_bind_ok in E as (b & t1 & E1 & E). apply framed_reserve in E1. apply (well_formed_frame _ _ E1) in H.
  cbn [tx_store] in E1. rewrite <- (fr_jobs _ _ E1 : jobs (tx_store t1) = jobs (tx_store t)) in Hj. rewrite <- (fr_steps _ _ E1 : steps (tx_store t1) = steps (tx_store t)) in Hs.
  apply tx_bind_ok in E as (b' & t2 & E2 & E). apply update_step_ok in E2 as [(-> & y & Hy & _ & _ & _ & ->)|(-> & -> & Hno)]; [|by specialize (Hno _ Hs)].
  assert (y = step) as -> by congruence. clear Hy.
  eapply wf_open_step in H; [|exact Hs|apply (moved_open _ _ _ (step <| step_Status := StatusWaiting |> <| step_WorkerID := None |>)); try done].
  2: { apply elem_of_cons in Hp as [->|[->|Hp]%elem_of_cons]; [done..|]. by apply not_elem_of_nil in Hp. }
  unroll E. apply tx_bind_ok in E as (b' & t2 & E2 & E). cbn [fst tx_store with_store] in *.
  assert (well_formed (tx_store t2)) as H2.
  { apply update_job_ok in E2 as [(-> & row' & Hrow & _ & _ & Hcj & ->)|(-> & -> & _)]; [|exact H]. cbn [tx_store with_store] in *. row_simpl.
    assert (row' = row) as -> by congruence. refine (wf_open_job _ _ _ _ H Hj _ Hcj _ _); try done. right. done. }
  unroll E. frame_rest E. exact H2.
Qed.
Lemma wf_interrupt c d t x t' : well_formed (tx_store t) -> interruptJobTx env others c d t = Ok (x, t') -> well_formed (tx_store t').
Proof.
  intros H E. unfold interruptJobTx, lockLifecycleOperationIdentityTx in E. unroll E. rename Hscan into Hj. skip E Hf.
  rewrite <- (fr_jobs _ _ Hf) in Hj. apply (well_formed_frame _ _ Hf) in H. destruct x2 as [op|]; [frame_rest E; done|].
  unroll E. apply tx_bind_ok in E as (paused & t1 & E1 & E). guards. simpl in *. apply wf_pause in E1 as [Hw Hnone]; [|done..].
  destruct paused as [result|]; [by apply ret_ok in E as [-> ->]|]. rewrite (Hnone eq_refl) in *. clear Hnone.
  apply tx_bind_ok in E as (cut & t2 & E2 & E). cbv zeta in E. apply tx_bind_ok in E as ([] & t3 & E3 & E). apply tx_bind_ok in E as ([] & t4 & E4 & E).
  apply tx_bind_ok in E as ([] & t5 & E5 & E). apply tx_bind_ok in E as (after & t6 & E6 & E). unfold advanceInterruptedJobTx in E6.
  apply tx_bind_ok in E6 as (b & t7 & E7 & E6). destruct b; [|discriminate E6]. follow E6. apply scan_ok in E6 as (row & Hrow & -> & ->).
  frame_rest E. pose proof (cutover_ok env others _ _ _ _ _ StatusWaiting _ _ _ _ _ _ _ Hw E2 E3 E4 (interrupted_tail_ok env _ _ _ _ _ _ E5) E7) as
    (objective & row' & Hrow' & _ & Hg & _ & _ & Hcut).
  eapply (wf_cut_over _ _ _ _ _ _ _ _ Hw Hcut); [done|done|]. intros row2 Hrow2. cbn [fst] in *. assert (row2 = row') as -> by congruence.
  row_simpl. by rewrite Hg.
Qed.

(** *** Replanning *)
Lemma wf_apply_replan c job row t x t' : well_formed (tx_store t) -> jobs (tx_store t) !! job = Some row -> applyReplanJobTx env others c (job, row) t = Ok (x, t') ->
  well_formed (tx_store t').
Proof.
  intros H Hj E. unfold applyReplanJobTx in E. unroll E.
  apply tx_bind_ok in E as (cut & t2 & E2 & E). cbv zeta in E. apply tx_bind_ok in E as ([] & t3 & E3 & E). apply tx_bind_ok in E as ([] & t4 & E4 & E).
  apply tx_bind_ok in E as ([] & t5 & E5 & E). apply tx_bind_ok in E as (after & t6 & E6 & E). unfold advanceReplannedJobTx in E6.
  apply tx_bind_ok in E6 as (b & t7 & E7 & E6). destruct b; [|discriminate E6]. follow E6. apply scan_ok in E6 as (row3 & Hrow & -> & ->).
  frame_rest E. pose proof (cutover_ok env others _ _ _ _ _ StatusPending _ _ _ _ _ _ _ H E2 E3 E4 (replan_tail_ok env _ _ _ _ _ _ E5) E7) as
    (objective & row' & Hrow' & _ & Hg & _ & _ & Hcut).
  eapply (wf_cut_over _ _ _ _ _ _ _ _ H Hcut); [done|done|]. intros row2 Hrow2. cbn [fst] in *. assert (row2 = row') as -> by congruence.
  row_simpl. by rewrite Hg.
Qed.
Lemma wf_replan c d t x t' : well_formed (tx_store t) -> replanJobTx env others c d t = Ok (x, t') -> well_formed (tx_store t').
Proof.
  intros H E. unfold replanJobTx, lockLifecycleOperationIdentityTx in E. unroll E. rename Hscan into Hj. skip E Hf.
  rewrite <- (fr_jobs _ _ Hf) in Hj. apply (well_formed_frame _ _ Hf) in H. destruct x2 as [op|]; [frame_rest E; done|].
  unroll E. skip E Hf2. rewrite <- (fr_jobs _ _ Hf2) in Hj. apply (well_formed_frame _ _ Hf2) in H.
  unroll E. apply tx_bind_ok in E as (applied_ & t2 & E2 & E). frame_rest E. by eapply wf_apply_replan.
Qed.

(** *** Cancellation *)
Lemma wf_apply_cancellation c job row t x t' : well_formed (tx_store t) -> jobs (tx_store t) !! job = Some row ->
  applyJobCancellationTx env others c (job, row) t = Ok (x, t') -> well_formed (tx_store t').
Proof.
  intros H Hj E. unfold applyJobCancellationTx in E. unroll E. guards. simpl in *. skip E Hf.
  rewrite <- (fr_jobs _ _ Hf) in Hj. apply (well_formed_frame _ _ Hf) in H. cbn [tx_store] in *. unroll E.
  apply tx_bind_ok in E as ([] & t1 & E1 & E). cbn [fst] in *. assert (exists m, tx_store t1 = tx_store t0 <| attempts := m |> /\ attempts_less (attempts (tx_store t0)) m) as (m & Hs & Hl).
  { destruct (bool_decide _); [apply ret_ok in E1 as [_ ->]; exists (attempts (tx_store t0)); split; [by destruct (tx_store t0)|done]|].
    apply terminalize_all_ok in E1 as (Ht & m & w & k & -> & Hl). exists m. split; [done|]. by eapply ended_less. }
  apply (wf_attempts _ m) in H; [|done]. rewrite <- Hs in H. apply tx_bind_ok in E as (n & t2 & E2 & E). apply update_steps_ok in E2 as [_ ->].
  assert (jobs (tx_store t1) !! job = Some row) as Hj1 by (rewrite Hs; row_simpl; done).
  clear E1. match type of E with context [alter_where ?p0 ?set0 _] => set (p := p0) in *; set (canceled := set0) in * end.
  assert (well_formed (tx_store t1 <| steps := alter_where p canceled (steps (tx_store t1)) |>)) as Hw.
  { apply wf_steps; [done|]. apply steps_moved_where. intros id y Hy Hp. subst p canceled. cbv beta in Hp. guards. by apply moved_open. }
  apply tx_bind_ok in E as (b & t2 & E2 & E). apply update_job_ok in E2 as [(-> & row' & Hrow & _ & _ & Hcj & ->)|(-> & -> & _)]; [|discriminate E].
  unroll E. simpl. cbn [tx_store with_store fst] in *. row_simpl. assert (row' = row) as -> by congruence.
  refine (wf_job _ _ _ _ Hw Hj1 _ Hcj _ _ _); try done.
  - intros _ id y (Hy & Hyj & Hu). row_simpl. rewrite alter_where_lookup in Hy. destruct (steps (tx_store t1) !! id) as [y0|] eqn:Hy0; [|done]. simpl in Hy. injection Hy as <-.
    destruct (p id y0) eqn:Ep; [done|]. subst p. cbv beta in Ep. rewrite Hu, bool_decide_eq_true_2 in Ep by done. exact Ep.
Qed.
Lemma wf_cancel_tx c t x t' : well_formed (tx_store t) -> cancelJobTx env others c t = Ok (x, t') -> well_formed (tx_store t').
Proof.
  intros H E. unfold cancelJobTx, lockLifecycleOperationIdentityTx in E. unroll E. rename Hscan into Hj. skip E Hf.
  rewrite <- (fr_jobs _ _ Hf) in Hj. apply (well_formed_frame _ _ Hf) in H. match type of E with match ?o with _ => _ end _ = _ => destruct o as [op|] end; [frame_rest E; done|].
  apply tx_bind_ok in E as (after & t2 & E2 & E). frame_rest E. by eapply wf_apply_cancellation.
Qed.
End owner.

(** ** Resumption *)

(** ** Positions of a pipeline *)

Lemma current_seeds s j i x k y : well_formed s -> current_step s j i x -> current_step s j k y ->
  exists objective, seed_of x ∈ pipeline_steps objective /\ seed_of y ∈ pipeline_steps objective.
Proof.
  intros H (Hx & Hxj & Hxu) (Hy & Hyj & Hyu). apply (wf_seeds s H i x k y Hx Hy); [congruence|].
  destruct (wf_step s H _ _ Hx) as (_ & jx & Hjx & _ & Ix). destruct (wf_step s H _ _ Hy) as (_ & jy & Hjy & _ & Iy).
  rewrite Hxj in Hjx. rewrite Hyj in Hjy. simplify_eq. rewrite (proj1 Ix Hxu), (proj1 Iy Hyu). done.
Qed.
(** An execution stands last, and what stands there is an execution. *)
Lemma execution_last s j i x k y : well_formed s -> current_step s j i x -> current_step s j k y -> step_Action x = "v3_coding" ->
  step_SortIndex y <= step_SortIndex x /\ (step_SortIndex y = step_SortIndex x -> step_Action y = "v3_coding") /\
  (step_Action y = "v3_coding" -> step_SortIndex y = step_SortIndex x).
Proof.
  intros H Hx Hy Ha. destruct (current_seeds s j i x k y H Hx Hy) as ([] & Hsx & Hsy); unfold seed_of in *; rewrite Ha in Hsx; simpl in Hsx, Hsy;
    set_unfold; destruct_or!; simplify_eq; try congruence; split; (lia || (split; intros; congruence || lia)).
Qed.
(** What stands before an execution is a planning or stands before every planning. *)
Lemma before_execution s j i x k y l p : well_formed s -> current_step s j i x -> step_Action x = "v3_coding" -> current_step s j k y ->
  current_step s j l p -> step_Action p = "v3_coding_plan" -> step_SortIndex y < step_SortIndex x ->
  step_SortIndex y = step_SortIndex p \/ step_SortIndex y < step_SortIndex p.
Proof.
  intros H Hx Ha Hy Hp Hpa Hlt. destruct (current_seeds s j i x k y H Hx Hy) as ([] & Hsx & Hsy); destruct (current_seeds s j i x l p H Hx Hp) as ([] & Hsx' & Hsp);
    unfold seed_of in *; rewrite Ha in Hsx, Hsx'; rewrite Hpa in Hsp; simpl in *; set_unfold; destruct_or!; simplify_eq; try congruence; lia.
Qed.
Lemma last_by_id p s id x : last (steps_by_id p s) = Some (id, x) -> steps s !! id = Some x /\ p id x = true /\
  forall i y, steps s !! i = Some y -> p i y = true -> i <= id.
Proof.
  intros Hl. pose proof (last_in _ _ Hl) as Hin. apply steps_by_id_spec in Hin as [Hx Hp]. split; [done|]. split; [done|]. intros i y Hy Hpy.
  assert ((i, y) ∈ steps_by_id p s) as Hin by by apply steps_by_id_spec.
  assert (StronglySorted id_order (steps_by_id p s)) as Hs. { unfold steps_by_id. apply StronglySorted_merge_sort; apply _. }
  apply last_Some in Hl as [l El]. rewrite El in Hin, Hs. apply elem_of_app in Hin as [Hin|Hin].
  - apply StronglySorted_app in Hs as (Hall & _ & _). by specialize (Hall _ _ Hin ltac:(by left)).
  - apply list_elem_of_singleton in Hin. injection Hin as <- <-. done.
Qed.

(** ** The step that is resumed *)

Section recover.
Context {World : Type} (env : Env) (others : Others World).
Implicit Types t : Tx World.
Lemma recovery_ok job t row t' : codingRecoveryStepTx job t = Ok (row, t') -> t' = t /\ recoverable job (tx_store t) row.1 row.2 = true /\
  steps (tx_store t) !! row.1 = Some row.2 /\
  forall i y, steps (tx_store t) !! i = Some y -> recoverable job (tx_store t) i y = true -> i <= row.1.
Proof.
  unfold codingRecoveryStepTx. intros E. follow E. destruct (ledgers _ !! job.1) as [ledger|]; [|done]. destruct (_ && _)%bool; [|done].
  destruct (last _) as [[id x]|] eqn:El; follow E. apply last_by_id in El as (? & ? & ?). done.
Qed.
(** A failed execution that can be resumed is the last of its position. *)
Lemma recoverable_last s j job id x : well_formed s -> jobs s !! j = Some job -> job_Status job = StatusFailed -> steps s !! id = Some x ->
  recoverable (j, job) s id x = true -> (forall i y, steps s !! i = Some y -> recoverable (j, job) s i y = true -> i <= id) ->
  current_step s j id x /\ step_Action x = "v3_coding" /\
  (forall i y, current_step s j i y -> step_SortIndex y = step_SortIndex x -> i <= id) /\
  (step_Status x = StatusFailed \/ (step_Status x = StatusPending /\ step_CurrentAttempt x = 0 /\ failed_planning (j, job) s = true)).
Proof.
  intros H Hj Hjf Hx Hr Hmax. pose proof Hr as Hr'. unfold recoverable in Hr'. cbn [fst snd] in Hr'. guards. rewrite Hjf in *.
  assert (current_step s j id x) as Hc by done. assert (step_Status x = StatusFailed \/ (step_Status x = StatusPending /\ step_CurrentAttempt x = 0 /\ failed_planning (j, job) s = true)) as Hst.
  { match goal with Ho : (_ || _)%bool = true |- _ => apply orb_prop in Ho as [Ho|Ho] end; guards; [|done].
    match goal with Ho : (_ || _)%bool = true |- _ => apply orb_prop in Ho as [Ho|Ho] end; guards; auto. }
  split; [done|]. split; [done|]. split; [|done]. intros i y Hy Hs. destruct (decide (id < i)) as [Hlt|]; [exfalso|lia].
  destruct (wf_recovered s H j id x i y Hc Hy ltac:(congruence) Hlt) as [Hxf Hxa].
  destruct (wf_failed s H j job Hj Hjf) as (f & z & Hz & Hzf & Hzmax).
  destruct (execution_last s j id x f z H Hc Hz Hxa) as (Hle & Hact & _).
  assert (step_SortIndex z = step_SortIndex x) as Hzs.
  { destruct (decide (step_SortIndex z < step_SortIndex x)) as [Hlt'|]; [|lia]. pose proof (wf_order s H j id x f z Hc Hz ltac:(by right) Hlt'). congruence. }
  pose proof (Hzmax i y Hy ltac:(congruence)). enough (f <= id) by lia. destruct Hz as (Hz & Hzj & Hzu). apply (Hmax f z Hz).
  assert (step_Generation z = job_CurrentGeneration job) as Hzg.
  { destruct (wf_step s H _ _ Hz) as (_ & jz & Hjz & _ & Iz). rewrite Hzj in Hjz. simplify_eq. by apply Iz. }
  unfold recoverable. cbn [fst snd]. by rewrite Hzj, Hzu, Hjf, (Hact Hzs), Hzf, Hzg, (bool_decide_eq_true_2 (j = j)), (bool_decide_eq_true_2 (job_CurrentGeneration job = _)) by done.
Qed.

(** The planning that failed counts as completed, and the execution that waited for it
    as failed. *)
Section approved.
Context (s : Store) (j : Z) (job : JobRow) (id : Z) (x x' : StepRow) (completed : StepRow -> StepRow).
Definition failed_plan (p : StepRow) : bool := ((step_JobID p == j) && (step_Generation p == job_CurrentGeneration job) &&
  (step_Action p == "v3_coding_plan") && (step_Status p == StatusFailed) && unsuperseded p)%bool.
Hypotheses (H : well_formed s) (Hj : jobs s !! j = Some job) (Hjf : job_Status job = StatusFailed) (Hc : current_step s j id x)
  (Ha : step_Action x = "v3_coding") (Hmax : forall i y, current_step s j i y -> step_SortIndex y = step_SortIndex x -> i <= id)
  (Hst : step_Status x = StatusPending) (Hplan : exists k p, steps s !! k = Some p /\ failed_plan p = true)
  (Hx' : same_row x x' /\ step_Status x' = StatusFailed) (Hcompleted : forall p, same_row p (completed p) /\ step_Status (completed p) = StatusCompleted).
Definition approved : gmap Z StepRow := <[id := x']> (alter_where (fun _ => failed_plan) completed (steps s)).
Lemma approved_back i y' : approved !! i = Some y' -> exists y, steps s !! i = Some y /\ same_row y y' /\
  ((i = id /\ y = x /\ y' = x') \/ (i <> id /\ failed_plan y = true /\ y' = completed y) \/ (i <> id /\ failed_plan y = false /\ y' = y)).
Proof using Hc Hx' Hcompleted.
  unfold approved. intros [(<- & <-)|(Hn & Hy)]%lookup_insert_Some; [exists x; destruct Hc as (? & _), Hx' as [? _]; auto 6|].
  rewrite alter_where_lookup in Hy. destruct (steps s !! i) as [y|]; [|done]. simpl in Hy. injection Hy as <-. exists y.
  destruct (failed_plan y) eqn:Ep; [destruct (Hcompleted y); auto 8|]. split; [done|]. split; [by repeat split|auto].
Qed.
Lemma approved_current i k y' : current_step (s <| steps := approved |>) i k y' -> exists y, current_step s i k y /\
  step_SortIndex y' = step_SortIndex y /\ step_Action y' = step_Action y /\ step_CurrentAttempt y' = step_CurrentAttempt y /\
  ((k = id /\ y = x /\ y' = x') \/ (k <> id /\ failed_plan y = true /\ y' = completed y) \/ (k <> id /\ failed_plan y = false /\ y' = y)).
Proof using Hc Hx' Hcompleted.
  intros (Hy & Hyj & Hyu). row_simpl. destruct (approved_back _ _ Hy) as (y & Hs & (Ej & Eg & Es & Eu & En) & Hcase). exists y.
  unfold seed_of in Es. injection Es as Ea Es. unfold current_step, unsuperseded in *. repeat split; congruence || done.
Qed.
(** The failed planning of the job stands alone at its position. *)
Lemma plan_alone k p i y : steps s !! k = Some p -> failed_plan p = true -> current_step s j i y -> step_SortIndex y = step_SortIndex p -> i = k /\ y = p.
Proof using H.
  intros Hk Hp Hy Hs. unfold failed_plan in Hp. guards. assert (current_step s j k p) as Cp by done. destruct (Z.lt_trichotomy i k) as [Hlt|[->|Hlt]].
  - destruct (wf_recovered s H j i y k p Hy Cp Hs Hlt) as [_ Hya]. destruct (execution_last s j i y k p H Hy Cp Hya) as (_ & E & _). rewrite E in *; congruence.
  - destruct Hy as (Hy & _). split; [done|congruence].
  - destruct (wf_recovered s H j k p i y Cp Hy ltac:(congruence) Hlt) as [_ Hpa]. congruence.
Qed.
Lemma approved_before i y : current_step s j i y -> step_SortIndex y < step_SortIndex x -> i <> id -> failed_plan y = false -> step_Status y = StatusCompleted.
Proof using H Hc Ha Hplan.
  intros Hy Hlt Hn Hf. destruct Hplan as (k & p & Hk & Hp). assert (current_step s j k p /\ step_Action p = "v3_coding_plan" /\ step_Status p = StatusFailed) as (Cp & Hpa & Hpf).
  { pose proof Hp as Hp'. unfold failed_plan in Hp'. by guards. }
  destruct (before_execution s j id x i y k p H Hc Ha Hy Cp Hpa Hlt) as [E|E].
  - destruct (plan_alone k p i y Hk Hp Hy E) as [-> ->]. congruence.
  - apply (wf_order s H j k p i y); [done|done|by right|done].
Qed.
Lemma wf_approved : well_formed (s <| steps := approved |>) /\ failed_last (s <| steps := approved |>) j id x'.
Proof using Type*.
  destruct Hx' as [Hsame Hf']. assert (failed_last (s <| steps := approved |>) j id x') as Hlast.
  { destruct Hc as (Hx & Hxj & Hxu), Hsame as (Ej & Eg & Es & Eu & En). split; [|split; [done|]].
    - unfold current_step, unsuperseded, approved in *. row_simpl. rewrite lookup_insert_eq. repeat split; congruence.
    - intros i y' Hy' Hs. destruct (approved_current _ _ _ Hy') as (y & Hy & Sy & _). unfold seed_of in Es. injection Es as _ Es. apply (Hmax i y Hy). congruence. }
  split; [|done]. apply wf_statuses; [done| | |].
  - intros i. unfold approved. destruct (decide (i = id)) as [->|Hn].
    + rewrite lookup_insert_eq. destruct Hc as (-> & _ & ?). by right.
    + rewrite lookup_insert_ne, alter_where_lookup by done. destruct (steps s !! i) as [y|]; [|done]. simpl. destruct (failed_plan y) eqn:Ep; [|by left].
      right. split; [unfold failed_plan in Ep; by guards|apply Hcompleted].
  - intros i y' Hy' Hr. destruct (approved_back _ _ Hy') as (y & Hy & (_ & _ & _ & _ & En) & [(_ & _ & ->)|[(_ & _ & ->)|(_ & _ & ->)]]).
    + congruence.
    + destruct (Hcompleted y). congruence.
    + by apply (wf_running s H).
  - cbv zeta. split; [|split; [|split]].
    + intros i k y' l z' Hy' Hz' Hs Hlt. destruct (approved_current _ _ _ Hy') as (y & Hy & Sy & _ & Cy & Ey).
      destruct (approved_current _ _ _ Hz') as (z & Hz & Sz & _ & _ & Ez). rewrite Sy, Sz in Hlt.
      destruct Ez as [(-> & -> & ->)|[(_ & _ & ->)|(Hnz & Hfz & ->)]]; [|apply Hcompleted|].
      * exfalso. assert (i = j) as -> by (destruct Hc as (_ & ? & _), Hz as (_ & ? & _); congruence).
        destruct (execution_last s j id x k y H Hc Hy Ha). lia.
      * destruct Ey as [(-> & -> & ->)|Ey].
        -- assert (i = j) as -> by (destruct Hc as (_ & ? & _), Hy as (_ & ? & _); congruence). by apply (approved_before l z).
        -- assert (started y) as Hsy.
           { destruct Ey as [(_ & Hp & ->)|(_ & _ & ->)]; [|done]. right. unfold failed_plan in Hp. by guards. }
           by apply (wf_order s H i k y l z).
    + intros i k y' l z' Hy' Hz' Hs Hlt. destruct (approved_current _ _ _ Hy') as (y & Hy & Sy & Ay & _ & Ey).
      destruct (approved_current _ _ _ Hz') as (z & Hz & Sz & _). destruct (wf_recovered s H i k y l z Hy Hz ltac:(congruence) Hlt) as [Hyf Hya].
      destruct Ey as [(-> & -> & ->)|[(_ & Hp & ->)|(_ & _ & ->)]]; [congruence| |done]. unfold failed_plan in Hp. guards. congruence.
    + intros i other Hi Hf. destruct (decide (i = j)) as [->|Hn]; [eauto|]. destruct (wf_failed s H i other Hi Hf) as (k & y & (Hy & Hyj & Hyu) & Hyf & Hym).
      exists k, y. assert (k <> id) as Hk. { intros ->. destruct Hc as (Hx & Hxj & _). congruence. }
      split; [|split; [done|]].
      * split; [|done]. row_simpl. unfold approved. rewrite lookup_insert_ne, alter_where_lookup, Hy by done. simpl.
        destruct (failed_plan y) eqn:Ep; [|done]. unfold failed_plan in Ep. guards. congruence.
      * intros l z' Hz' Hs. destruct (approved_current _ _ _ Hz') as (z & Hz & Sz & _). apply (Hym l z Hz). congruence.
    + intros i other k y' Hi Hcl Hy'. destruct (approved_current _ _ _ Hy') as (y & Hy & _ & _ & _ & Ey).
      destruct Ey as [(_ & _ & ->)|[(_ & _ & ->)|(_ & _ & ->)]]; [by rewrite Hf'|by rewrite (proj2 (Hcompleted y))|by apply (wf_closed s H i other k y)].
Qed.
End approved.

(** ** Resumption *)

Lemma wf_recover_boundary j job id x t y t' : well_formed (tx_store t) -> jobs (tx_store t) !! j = Some job -> steps (tx_store t) !! id = Some x ->
  recoverable (j, job) (tx_store t) id x = true ->
  (forall i z, steps (tx_store t) !! i = Some z -> recoverable (j, job) (tx_store t) i z = true -> i <= id) ->
  recoverApprovedPlanningBoundaryTx env (j, job) id t = Ok (y, t') ->
  well_formed (tx_store t') /\ jobs (tx_store t') = jobs (tx_store t) /\ attempts (tx_store t') = attempts (tx_store t) /\
  (job_Status job = StatusFailed -> exists x', failed_last (tx_store t') j id x' /\ step_Action x' = "v3_coding") /\
  (job_Status job <> StatusFailed -> tx_store t' = tx_store t).
Proof.
  intros H Hj Hx Hr Hmax E. unfold recoverApprovedPlanningBoundaryTx in E. cbn [fst snd] in E. destruct (job_Status job != StatusFailed) eqn:Ejf.
  { apply ret_ok in E as [_ ->]. guards. done. }
  guards. destruct (recoverable_last _ _ _ _ _ H Hj Ejf Hx Hr Hmax) as (Hc & Ha & Hlast & Hst). unroll E. rewrite Hx in E.
  destruct (step_Status x != StatusPending) eqn:Esp.
  { apply ret_ok in E as [_ ->]. guards. split; [done|]. split; [done|]. split; [done|]. split; [|done]. intros _. exists x.
    destruct Hst as [Hf|(? & _)]; [|done]. split; [|done]. split; [done|]. split; [done|exact Hlast]. }
  guards. destruct Hst as [?|(_ & Hx0 & Hfp)]; [congruence|]. apply tx_bind_ok in E as (n & t1 & E1 & E). apply update_steps_ok in E1 as [-> ->]. unroll E.
  apply tx_bind_ok in E as (b & t2 & E2 & E). follow E. cbn [tx_store with_store] in *.
  unfold failed_planning in Hfp. apply exists_row_spec in Hfp as (k & p & Hk & Hp). cbn [fst snd] in Hp.
  assert (failed_plan j job x = false) as Hnx. { unfold failed_plan. by rewrite Ha, !andb_false_r. }
  apply update_step_ok in E2 as [(-> & x1 & Hx1 & _ & _ & _ & ->)|(-> & -> & Hno)]; cbn [tx_store with_store] in *; row_simpl.
  2: { specialize (Hno x). rewrite alter_where_lookup, Hx in Hno. cbn [fmap option_fmap option_map] in Hno. change (_ && _ && _ && _ && _)%bool with (failed_plan j job x) in Hno.
       rewrite Hnx in Hno. specialize (Hno eq_refl). rewrite Esp, Hx0 in Hno. done. }
  rewrite alter_where_lookup, Hx in Hx1. cbn [fmap option_fmap option_map] in Hx1.
  assert (x1 = x) as ->. { change (_ && _ && _ && _ && _)%bool with (failed_plan j job x) in Hx1. rewrite Hnx in Hx1. congruence. }
  edestruct (wf_approved (tx_store t) j job id x (x <| step_Status := StatusFailed |> <| step_Error :=
      ("Execution did not start because planning failed: " +:+ job_Error job)%string |> <| step_FinishedAt := Some (env_clock env (tx_tick t)) |>)
    (fun p => p <| step_Status := StatusCompleted |> <| step_Output := "Owner-approved frozen ledger recovered after planning failure" |>)) as [Hw Hl];
    try done; [by exists k, p|].
  split; [exact Hw|]. split; [done|]. split; [done|]. split; [|done]. intros _. eexists. split; [exact Hl|done].
Qed.
Lemma wf_resume_frozen j job text_ t x t' : well_formed (tx_store t) -> jobs (tx_store t) !! j = Some job ->
  resumeFrozenCodingTx env others (j, job) text_ t = Ok (x, t') -> well_formed (tx_store t').
Proof.
  intros H Hj E. unfold resumeFrozenCodingTx in E. apply tx_bind_ok in E as ([id step] & t1 & E1 & E). apply recovery_ok in E1 as (-> & Hr & Hx & Hmax). cbn [fst snd] in *.
  apply tx_bind_ok in E as ([] & t1 & E1 & E). pose proof (wf_recover_boundary _ _ _ _ _ _ _ H Hj Hx Hr Hmax E1) as (H1 & Hj1 & Ha1 & Hfail & Hsame).
  unroll E. skip E Hf. apply (well_formed_frame _ _ Hf) in H1. rewrite <- Hj1, <- (fr_jobs _ _ Hf) in Hj.
  apply tx_bind_ok in E as ([] & t2 & E2 & E). unroll E. apply tx_bind_ok in E as (b & t3 & E3 & E). unroll E. apply scan_ok in E as (row & _ & _ & ->).
  destruct (job_Status job == StatusFailed) eqn:Ejf; guards.
  - destruct (Hfail Ejf) as (x' & (Hc & Hxf & Hl) & Ha). assert (current_step (tx_store t0) j id x') as Hc0. { destruct Hc as (Hs & ? & ?). split; [|done]. by rewrite (fr_steps _ _ Hf). }
    unroll E2. destruct Hc0 as (Hs & Hsj & Hsu). rewrite Hs in E2. apply insert_step_ok in E2 as (new & k & Hpos & Hids & Hcs & ->). cbn [tx_store with_store] in *. row_simpl.
    apply update_job_ok in E3 as [(-> & row' & Hrow & _ & _ & Hcj & ->)|(-> & -> & Hno)]; cbn [tx_store with_store fst] in *; row_simpl.
    2: { by specialize (Hno _ Hj). }
    assert (row' = job) as -> by congruence.
    assert (well_formed (tx_store t0 <| jobs := <[j := job <| job_Status := StatusRunning |> <| job_Error := "" |> <| job_CompletedAt := None |>
      <| job_UpdatedAt := env_clock env (tx_tick t0) |>]> (jobs (tx_store t0)) |>)) as Hw.
    { refine (wf_open_job _ _ _ _ H1 Hj _ Hcj _ _); try done. by left. }
    refine (wf_append _ j new id x' _ _ Hw _ Hids _ _ _ _ _ _ _ _ _); try done.
    + row_simpl. by rewrite lookup_insert_eq.
    + done.
    + intros k' y Hy Hs'. assert (current_step (tx_store t1) j k' y) as Hy1. { destruct Hy as (Hy & ? & ?). split; [|done]. row_simpl. by rewrite (fr_steps _ _ Hf) in Hy. }
      assert (well_formed (tx_store t1)) as Hw1. { eapply wf_recover_boundary; [exact H| | | | |exact E1]; eauto. by rewrite <- Hj1, <- (fr_jobs _ _ Hf). }
      destruct (execution_last _ _ _ _ _ _ Hw1 Hc Hy1 Ha) as (_ & Hact & _). unfold new_step in Hs'. cbn [step_SortIndex] in Hs'. split; [|by apply Hact].
      specialize (Hl _ _ Hy1 Hs'). destruct (decide (k' = id)) as [->|Hne]; [destruct Hy1 as (? & _), Hc as (? & _); congruence|].
      destruct (wf_recovered _ Hw1 j k' y id x' Hy1 Hc Hs' ltac:(lia)). done.
  - unroll E2. cbv [Datatypes.id] in E2. apply tx_bind_ok in E2 as (b2 & t4 & E4 & E2). apply ret_ok in E2 as [_ ->]. cbn [tx_store] in *.
    pose proof (Hsame Ejf) as Hs1. assert (steps (tx_store t0) !! id = Some step) as Hs. { rewrite (fr_steps _ _ Hf), Hs1. done. }
    apply update_step_ok in E4 as [(-> & y & Hy & _ & Hch & _ & ->)|(-> & -> & Hno)]; [|by specialize (Hno _ Hs)]. assert (y = step) as -> by congruence. clear Hy.
    apply change_unsuperseded in Hch. assert (step_Status step = StatusWaiting) as Hsw.
    { unfold recoverable in Hr. cbn [fst snd] in Hr. guards. match goal with Ho : (_ || _)%bool = true |- _ => apply orb_prop in Ho as [Ho|Ho] end; guards; [congruence|done]. }
    cbn [tx_store with_store fst] in *. row_simpl.
    eapply wf_open_step in H1; [|exact Hs|apply (moved_open _ _ _ (step <| step_Status := if step_CurrentAttempt step == 0 then StatusPending else StatusRunning |>
       <| step_WorkerID := attempt_worker (tx_store t0) id step |>)); try done].
    2: by rewrite Hsw. 2: { row_simpl. by destruct (_ == _). }
    2: { row_simpl. destruct (step_CurrentAttempt step == 0) eqn:Ez; [done|]. intros _. guards. pose proof (wf_step _ H _ _ Hx) as [Hn _]. split; [lia|].
         assert (is_Some (attempts (tx_store t) !! (id, step_CurrentAttempt step))) as [a Ha]. { apply (wf_numbers _ H). exists step. split; [done|lia]. }
         exists a. unfold attempt_worker. rewrite (fr_attempts _ _ Hf), Ha1, Ha. done. }
    apply update_job_ok in E3 as [(-> & row' & Hrow & _ & _ & Hcj & ->)|(-> & -> & _)]; cbn [tx_store with_store] in *; row_simpl; [|exact H1].
    assert (row' = job) as -> by congruence. refine (wf_open_job _ _ _ _ H1 Hj _ Hcj _ _); try done. by left.
Qed.
Lemma wf_resume c t x t' : well_formed (tx_store t) -> resumeJobTx env others c t = Ok (x, t') -> well_formed (tx_store t').
Proof.
  intros H E. unfold resumeJobTx, lockLifecycleOperationIdentityTx in E. unroll E. rename Hscan into Hj. skip E Hf.
  rewrite <- (fr_jobs _ _ Hf) in Hj. apply (well_formed_frame _ _ Hf) in H.
  match type of E with match ?o with _ => _ end _ = _ => destruct o as [op|] end; [frame_rest E; done|].
  unroll E. cbv [Datatypes.id] in E. cbn [fst snd] in *. destruct (ledgers _ !! _) as [ledger|]; [|done]. unroll E. skip E Hf2.
  rewrite <- (fr_jobs _ _ Hf2) in Hj. apply (well_formed_frame _ _ Hf2) in H. apply tx_bind_ok in E as (after & t2 & E2 & E). frame_rest E.
  by eapply wf_resume_frozen.
Qed.
End recover.

(** ** Replies and calls *)

Section replies.
Context {World : Type} (env : Env) (others : Others World).
Implicit Types t : Tx World.
Lemma head_in {A} (l : list A) x : head l = Some x -> x ∈ l.
Proof. destruct l; [done|]. intros [= ->]. by left. Qed.
Lemma running_constraints s x : step_constraints s x = true -> step_Status x = StatusRunning -> 0 < step_CurrentAttempt x /\ is_Some (step_WorkerID x).
Proof. unfold step_constraints. intros H Hr. guards. rewrite Hr in *. simpl in *. by guards. Qed.
Lemma wf_continue c j job response t x t' : well_formed (tx_store t) -> replanIncompleteCodingTaskTx env others c (j, job) response t = Ok (x, t') ->
  well_formed (tx_store t').
Proof.
  intros H E. unfold replanIncompleteCodingTaskTx in E. unroll E. apply tx_bind_ok in E as (result & t1 & E1 & E). unroll E. by eapply wf_replan.
Qed.
Lemma wf_resume_execution c j job t x t' : well_formed (tx_store t) -> jobs (tx_store t) !! j = Some job ->
  resumeCodingExecutionTx env others c (j, job) t = Ok (x, t') -> well_formed (tx_store t').
Proof.
  intros H Hj E. unfold resumeCodingExecutionTx in E. unroll E. destruct (head _) as [[id step]|] eqn:Eh; [|done]. cbn [fst snd] in *.
  apply head_in, steps_by_id_spec in Eh as [Hs Hp]. guards. follow E. skip E Hf. destruct x0 as [row|]; [|done]. unroll E. skip E Hf2.
  assert (frame (tx_store t) (tx_store t1)) as Hfr by (etransitivity; done). clear Hf Hf2.
  apply (well_formed_frame _ _ Hfr) in H. rewrite <- (fr_jobs _ _ Hfr) in Hj. rewrite <- (fr_steps _ _ Hfr) in Hs.
  skip E Hf. apply (well_formed_frame _ _ Hf) in H. rewrite <- (fr_jobs _ _ Hf) in Hj. rewrite <- (fr_steps _ _ Hf) in Hs.
  destruct (bool_decide (entry_Phase _ ∈ _)).
  { apply tx_bind_ok in E as (after & t3 & E3 & E). unroll E. by eapply wf_continue. }
  skip E Hf2. apply (well_formed_frame _ _ Hf2) in H. rewrite <- (fr_jobs _ _ Hf2) in Hj. rewrite <- (fr_steps _ _ Hf2) in Hs. unroll E.
  apply tx_bind_ok in E as (b & t4 & E4 & E). cbv [Datatypes.id] in E4.
  apply update_step_ok in E4 as [(-> & y & Hy & _ & Hch & Hcs & ->)|(-> & -> & Hno)]; [|by specialize (Hno _ Hs)]. assert (y = step) as -> by congruence. clear Hy.
  apply change_unsuperseded in Hch. assert (exists a, attempts (tx_store t3) !! (id, step_CurrentAttempt step) = Some a /\ 0 < step_CurrentAttempt step /\
    attempt_worker (tx_store t3) id step = Some (attempt_WorkerID a)) as (a & Ha & Hpos & Hw).
  { apply running_constraints in Hcs as [? [w Hw]]; [|done]. row_simpl.
    unfold attempt_worker in Hw |- *. destruct (attempts _ !! _) as [a|]; [|done]. by exists a. }
  rewrite Hw in *. cbn [tx_store with_store] in *.
  eapply wf_open_step in H; [|exact Hs|apply (moved_open _ _ _ (step <| step_Status := StatusRunning |> <| step_Output := "" |> <| step_WorkerID := Some (attempt_WorkerID a) |>)); try done].
  2: by match goal with H : step_Status step = StatusWaiting |- _ => rewrite H end. 2: { intros _. split; [done|]. by exists a. }
  unroll E. apply tx_bind_ok in E as (b & t4 & E4 & E). unroll E.
  apply update_job_ok in E4 as [(-> & row' & Hrow & _ & _ & Hcj & ->)|(-> & -> & _)]; cbn [tx_store with_store] in *; row_simpl; [|exact H].
  assert (row' = job) as -> by congruence. refine (wf_open_job _ _ _ _ H Hj _ Hcj _ _); try done. right. split; [done|].
  by match goal with H : job_Status job = StatusWaiting |- _ => rewrite H end.
Qed.
Lemma wf_apply_feedback c j job t x t' : well_formed (tx_store t) -> jobs (tx_store t) !! j = Some job -> applyJobFeedbackTx env others c (j, job) t = Ok (x, t') ->
  well_formed (tx_store t').
Proof.
  intros H Hj E. unfold applyJobFeedbackTx in E. unroll E. match type of E with (if ?b then _ else _) _ = _ => destruct b end; [by eapply wf_resume_execution|].
  unroll E. cbn [fst snd] in *. destruct (generations _ !! _) as [g|]; [|done]. unroll E. destruct (head _) as [[id step]|] eqn:Eh; [|done].
  apply head_in, select_steps_spec in Eh as [Hs Hp]. cbn [tx_store] in *. guards. follow E.
  apply tx_bind_ok in E as (b & t1 & E1 & E). apply update_step_ok in E1 as [(-> & y & Hy & _ & Hch & _ & ->)|(-> & -> & _)]; [|discriminate E].
  assert (y = step) as -> by congruence. clear Hy. cbn [tx_store with_store] in *.
  eapply wf_open_step in H; [|exact Hs|apply (moved_open _ _ _ (step <| step_Status := StatusCompleted |> <| step_Output := fb_Feedback c |> <| step_FinishedAt := Some (now env) |>)); try done].
  2: by match goal with H : step_Status step = StatusWaiting |- _ => rewrite H end.
  unroll E. match type of E with bind (if ?r then _ else _) _ _ = _ => destruct r eqn:Er end; cbn [tx_store with_store fst] in *;
    apply tx_bind_ok in E as (b & t1 & E1 & E); unroll E; apply update_job_ok in E1 as [(-> & row' & Hrow & _ & _ & Hcj & ->)|(-> & -> & _)];
    cbn [tx_store with_store] in *; row_simpl; try done; (assert (row' = job) as -> by congruence).
  - refine (wf_open_job _ _ _ _ H Hj _ Hcj _ _); try done. right. split; [done|].
    by match goal with H : job_Status job = StatusWaiting |- _ => rewrite H end.
  - refine (wf_job _ _ _ _ H Hj _ Hcj _ _ _); try done.
    intros _ i y Hy. by eapply open_steps_false.
Qed.
Lemma wf_feedback c d t x t' : well_formed (tx_store t) -> submitJobFeedbackTx env others c d t = Ok (x, t') -> well_formed (tx_store t').
Proof.
  intros H E. unfold submitJobFeedbackTx, lockLifecycleOperationIdentityTx in E. unroll E. rename Hscan into Hj. skip E Hf.
  rewrite <- (fr_jobs _ _ Hf) in Hj. apply (well_formed_frame _ _ Hf) in H.
  match type of E with match ?o with _ => _ end _ = _ => destruct o as [op|] end; [frame_rest E; done|].
  apply tx_bind_ok in E as (applied_ & t2 & E2 & E). frame_rest E. by eapply wf_apply_feedback.
Qed.
End replies.

(** ** Every call *)

Section calls.
Context {World : Type}.
Implicit Types st : State World.
Definition leads (s s' : Store) : Prop := well_formed s -> well_formed s'.
#[local] Instance leads_reflexive : Reflexive leads. Proof. by intros s H. Qed.
Lemma leads_transact {A} others (c : tx World A) st : (forall t x t', well_formed (tx_store t) -> c t = Ok (x, t') -> well_formed (tx_store t')) ->
  leads st.1 (transact others c st).2.1.
Proof. intros Hc. apply (transact_keeps leads). intros t x t' E H. by eapply Hc. Qed.
Lemma leads_transact_or {A} others (c : tx World (A + A)) st : (forall t x t', well_formed (tx_store t) -> c t = Ok (x, t') -> well_formed (tx_store t')) ->
  leads st.1 (transact_or others c st).2.1.
Proof. intros Hc. apply (transact_or_keeps leads). intros t x t' E H. by eapply Hc. Qed.
Lemma perform_well_formed env others op st : well_formed st.1 -> well_formed (perform env others op st).2.1.
Proof.
  change (leads st.1 (perform env others op st).2.1). destruct op; unfold perform; rewrite ?outcome_state.
  - apply leads_transact. intros t x t'. apply wf_enqueue.
  - unfold ClaimNextStep. destruct (exact_worker workerID); [|done]. rewrite deliver_state. apply leads_transact_or. intros t x t'. apply wf_claim_tx.
  - unfold RequireActiveStepAttempt. apply leads_transact. intros t x t' H E. apply (well_formed_frame (tx_store t)); [|done].
    match type of E with ?c _ = _ => assert (keeps frame c) as Hk by framing; exact (Hk _ _ _ E) end.
  - unfold RenewStepAttempt. rewrite deliver_state. apply leads_transact. intros t x t'. apply wf_renew.
  - unfold CompleteStep. destruct (normalizeCompleteStepCommand others c) as [c'|]; [|done]. destruct (describeLifecycleOperation _ _ _); [|done].
    apply leads_transact_or. intros t x t'. apply wf_complete.
  - unfold CompleteStepWithEvidence. destruct (normalizeCompleteStepCommand others c) as [c'|]; [|done]. destruct (_ != _); [done|].
    destruct (describeLifecycleOperation _ _ _); [|done]. apply leads_transact_or. intros t x t'. apply wf_complete.
  - unfold FailStep. destruct (normalizeFailStepCommand c) as [c'|]; [|done]. destruct (describeLifecycleOperation _ _ _); [|done].
    apply leads_transact_or. intros t x t'. apply wf_fail.
  - intros H. by apply wf_wait_input.
  - intros H. by apply wf_wait_native.
  - intros H. by apply wf_review_ready.
  - unfold CompleteCodingLedgerReview. destruct (_ || _ || _)%bool; [done|]. apply leads_transact. intros t x t'. apply wf_review.
  - unfold InterruptJob. destruct (normalizeInterruptJobCommand others c); [|done]. destruct (describeLifecycleOperation _ _ _); [|done].
    apply leads_transact. intros t x t'. apply wf_interrupt.
  - unfold ReplanJob. destruct (normalizeReplanJobCommand others c); [|done]. destruct (describeLifecycleOperation _ _ _); [|done].
    apply leads_transact. intros t x t'. apply wf_replan.
  - unfold ResumeJob. apply leads_transact. intros t x t'. apply wf_resume.
  - unfold CancelJob. apply leads_transact. intros t x t' H E. apply tx_bind_ok in E as (result & t1 & E1 & E). frame_rest E. by eapply wf_cancel_tx.
  - unfold SubmitJobFeedback. destruct (normalizeSubmitFeedbackCommand others c); [|done]. destruct (describeLifecycleOperation _ _ _); [|done].
    apply leads_transact. intros t x t'. apply wf_feedback.
Qed.
Lemma empty_well_formed : well_formed empty_store.
Proof.
  constructor; unfold empty_store, current_step; simpl; try (intros; set_solver); try done.
  - intros id n. rewrite lookup_empty. split; [by intros []|by intros (x & [=] & _)].
  - intros j g. rewrite lookup_empty. split; [by intros []|by intros (x & [=] & _)].
Qed.
Lemma step_well_formed st st' : step st st' -> well_formed st.1 -> well_formed st'.1.
Proof.
  intros [env others op st0|s s' w w' H] Hw; [by apply perform_well_formed|]. apply (well_formed_frame s); [|done]. destruct H. by constructor.
Qed.
Lemma steps_well_formed st st' : steps_to st st' -> well_formed st.1 -> well_formed st'.1.
Proof. induction 1 as [|st1 st2 st3 H _ IH]; [done|]. intros Hw. by eapply IH, step_well_formed. Qed.
Lemma reachable_well_formed st : reachable st -> well_formed st.1.
Proof. intros [w H]. eapply steps_well_formed; [exact H|apply empty_well_formed]. Qed.
End calls.
