(* ===== verification/JobSpec.v ===== *)
(** * What the job queue promises

    The invariant of jobs, the exclusion of two workers from one job, the fence around an
    attempt that is over, commands that are applied once, and what a claim does. *)
From Stdlib Require Import Ascii.
From S2P Require Import Prelude Schema PathIdentity UserIntent JsonCodec Scrum Jobs JobStore JobCommands JobSteps JobControl JobFacts JobReach JobReplay JobInv JobKeeps JobCutover JobWellFormed.
From stdpp Require Import sorting base tactics strings list gmap numbers pretty.
From stdpp Require Import list options.
Open Scope Z_scope.
Open Scope go_scope.

(** C3: every state the queue reaches is well formed: steps belong to generations of
    their job and are current exactly in the last one, attempts are numbered from 1 and
    only the current one can be active, a running step has an attempt by its worker, what
    comes before a started step is completed, two steps share a position only when the
    first is a failed execution, a failed job has a failed last step, a completed or
    canceled job has no open step, and a channel has at most one open job. *)
Theorem jobs_well_formed {World} (st : State World) : reachable st -> well_formed st.1.
Proof. apply reachable_well_formed. Qed.

(** ** Exclusion *)

Section exclusion.
Context {World : Type}.
(** A step an accepted authority names was claimed and is still open. *)
Definition engaged (a : StepAttemptAuthority) (s : Store) (step : StepRow) : Prop :=
  current_step s (au_JobID a) (au_StepID a) step /\ 0 < step_CurrentAttempt step /\ open_status (step_Status step) = true /\
  step_CurrentAttempt step = au_Attempt a /\ step_WorkerID step = Some (au_WorkerID a) /\ step_Generation step = au_Generation a.
Lemma require_engaged env others a (st st' : State World) : RequireActiveStepAttempt env others a st = (Ok tt, st') -> exists step, engaged a st.1 step.
Proof.
  unfold RequireActiveStepAttempt. intros [(e & [=] & _)|(x & t' & _ & E & _)]%transact_cases.
  apply tx_bind_ok in E as (locked & t1 & E1 & E). apply active_ok in E1 as (job & step & attempt & k & Hh & _ & -> & ->).
  apply tx_bind_ok in E as (valid & t2 & E2 & E). follow E. guards. subst. apply terminal_writer_ok in E2 as (_ & Hst & _); [|done]. simpl in *.
  exists step. pose proof (unsuperseded_held _ _ _ _ _ Hh) as Hc. pose proof (authority_positive _ (he_valid _ _ _ _ _ Hh)). destruct Hh. simpl in *.
  split; [done|]. split; [lia|]. split; [by destruct Hst as [->| ->]|done].
Qed.
Lemma engaged_unique s a a' x x' : well_formed s -> engaged a s x -> engaged a' s x' -> au_JobID a = au_JobID a' -> a = a'.
Proof.
  intros H (Hc & Hp & Ho & Hn & Hw & Hg) (Hc' & Hp' & Ho' & Hn' & Hw' & Hg') Hj. rewrite <- Hj in Hc'.
  assert (forall i y k z, current_step s (au_JobID a) i y -> current_step s (au_JobID a) k z -> 0 < step_CurrentAttempt y -> open_status (step_Status z) = true ->
    ~ step_SortIndex z < step_SortIndex y) as Hsort.
  { intros i y k z Hy Hz Hpy Hoz Hlt. rewrite (wf_order s H _ _ _ _ _ Hy Hz ltac:(by left) Hlt) in Hoz. done. }
  pose proof (Hsort _ _ _ _ Hc Hc' Hp Ho'). pose proof (Hsort _ _ _ _ Hc' Hc Hp' Ho). assert (step_SortIndex x = step_SortIndex x') as Hs by lia.
  assert (au_StepID a = au_StepID a') as Hid.
  { destruct (Z.lt_trichotomy (au_StepID a) (au_StepID a')) as [Hlt|[|Hlt]]; [|done|].
    - destruct (wf_recovered s H _ _ _ _ _ Hc Hc' Hs Hlt) as [Hf _]. by rewrite Hf in Ho.
    - destruct (wf_recovered s H _ _ _ _ _ Hc' Hc (eq_sym Hs) Hlt) as [Hf _]. by rewrite Hf in Ho'. }
  destruct Hc as (Hx & _), Hc' as (Hx' & _). rewrite <- Hid in Hx'. rewrite Hx in Hx'. injection Hx' as <-.
  destruct a, a'. simpl in *. f_equal; congruence.
Qed.
End exclusion.

(** C4: at any moment at most one worker is accepted for a job: two authorities of the
    same job that both pass the check of an active attempt, whatever the clocks and the
    rest of the database say, are the same attempt of the same step by the same worker. *)
Theorem authority_exclusive {World} (st st1 st2 : State World) env others a env' others' a' :
  reachable st -> RequireActiveStepAttempt env others a st = (Ok tt, st1) -> RequireActiveStepAttempt env' others' a' st = (Ok tt, st2) ->
  au_JobID a = au_JobID a' -> a = a'.
Proof.
  intros H%reachable_well_formed [x Hx]%require_engaged [x' Hx']%require_engaged. by eapply engaged_unique.
Qed.

(** C5: an attempt that ended, or whose lease has run out by the clock of the database,
    is fenced for good: after any further steps of the queue, whatever call its worker
    makes with it (checking, renewing, completing, failing, waiting, or submitting the
    plan) leaves the whole database unchanged, and is refused unless it repeats an
    operation that is already recorded. *)
Theorem lapsed_attempt_fenced {World} (st st' : State World) env others op a : op_authority op = Some a -> steps_to st st' ->
  ended a st.1 \/ expired env a st'.1 -> exists r, perform env others op st' = (r, st') /\ (r = Ok tt -> op_recorded op st'.1).
Proof.
  intros Ha Hsteps Hover. apply (over_fenced env others op a st' Ha). destruct Hover as [He|He]; [left|by right]. by eapply ended_forever.
Qed.

(** C6: a command is applied at most once: once it was accepted, its record stays
    through all further steps, and whatever is later sent under its identity leaves the
    database unchanged, is accepted only with the recorded kind and content, and answers
    the recorded job, marked as not applied. *)
Theorem lifecycle_command_once {World} (st st' st'' : State World) env others op id : reachable st -> command_id op = Some id ->
  perform env others op st = (Ok tt, st') -> steps_to st' st'' -> exists rec, operations st''.1 !! id = Some rec /\
    command_content others op = Ok (op_Kind rec, op_Payload rec) /\ forall env' others' op', command_id op' = Some id ->
      repeated st'' rec (perform env' others' op' st'') (command_content others' op') (answer env' others' op' st'').
Proof.
  intros Hr Hid E Hsteps. pose proof (reachable_registered _ Hr) as Hreg. destruct (accepted_recorded env others op id st st' Hreg Hid E) as (rec & Ho & Hc).
  pose proof (steps_preserved _ _ Hsteps) as Hp. destruct (pr_operations _ _ Hp _ _ Ho) as (rec' & Ho' & <-). exists rec. split; [done|]. split; [done|].
  intros env' others' op' Hid'. apply (repeated_inert env' others' st'' id rec); [|done|done]. apply (registered_kept _ _ Hp).
  pose proof (perform_preserved env others op st) as Hp'. rewrite E in Hp'. by apply (registered_kept _ _ Hp').
Qed.

(** C13: no step of the queue loses or rewrites history: an attempt keeps its job,
    generation, worker and claim, and stays as it is once it ended; a superseded step
    stays as it is; generations, registered identities and recorded operations stay. *)
Theorem history_kept {World} (st st' : State World) : steps_to st st' -> preserved st.1 st'.1.
Proof. apply steps_preserved. Qed.
