(* ===== verification/JobClaim.v ===== *)
(** * What a claim does

    Which step [ClaimNextStep] takes, the tables after it, and that a step that can be
    claimed is claimed. *)
From Stdlib Require Import Ascii.
From S2P Require Import Prelude Schema SchemaFacts PathIdentity UserIntent JsonCodec Scrum Jobs JobStore JobCommands JobSteps JobControl JobFacts JobReach JobReplay JobInv JobKeeps JobCutover JobWellFormed.
From stdpp Require Import sorting base tactics strings list gmap numbers pretty.
From stdpp Require Import list options.
Open Scope Z_scope.
Open Scope go_scope.

(** ** The choice *)

(** The first row of a list in order whose lock is free. *)
Lemma first_unlocked_least {A} (R : Z * A -> Z * A -> Prop) `{!Reflexive R} locked (l : list (Z * A)) row : StronglySorted R l -> first_unlocked locked l = Some row ->
  forall other, other ∈ l -> locked other.1 = false -> R row other.
Proof.
  unfold first_unlocked. induction 1 as [|x l Hs IH Hall]; [done|]. rewrite filter_cons. intros Hh other Hin Hl.
  destruct (decide (locked x.1 = false)) as [Hx|Hx].
  - injection Hh as <-. apply elem_of_cons in Hin as [->|Hin]; [done|]. by eapply Forall_forall in Hall.
  - apply elem_of_cons in Hin as [->|Hin]; [done|]. by apply IH.
Qed.
Lemma first_unlocked_none {A} locked (l : list (Z * A)) : first_unlocked locked l = None -> forall row, row ∈ l -> locked row.1 = true.
Proof.
  unfold first_unlocked. intros Hh row Hin. apply not_false_iff_true. intros Hl.
  assert (row ∈ filter (fun row : Z * A => locked row.1 = false) l) as Hf by by apply list_elem_of_filter.
  destruct (filter _ l); [by apply not_elem_of_nil in Hf|done].
Qed.
#[global] Instance id_order_refl {A} : Reflexive (@id_order A). Proof. intros x. unfold id_order. lia. Qed.
#[global] Instance step_order_refl : Reflexive step_order. Proof. intros x. unfold step_order. lia. Qed.
(** The least unlocked job with a claimable step. *)
Definition chosen_job (env : Env) (at_ : Z) (s : Store) (j : Z) (job : JobRow) : Prop :=
  jobs s !! j = Some job /\ claimable_job at_ s j job = true /\ env_locked_job env j = false /\
  forall k other, jobs s !! k = Some other -> claimable_job at_ s k other = true -> env_locked_job env k = false -> j <= k.
(** Its first claimable step that is not locked. *)
Definition chosen_step (env : Env) (at_ : Z) (s : Store) (j : Z) (job : JobRow) (id : Z) (x : StepRow) : Prop :=
  steps s !! id = Some x /\ claimable at_ s j job id x = true /\ env_locked_step env id = false /\
  forall k y, steps s !! k = Some y -> claimable at_ s j job k y = true -> env_locked_step env k = false -> step_order (id, x) (k, y).
Lemma candidate_chosen env at_ s j job : claim_candidate env at_ s = Some (j, job) -> chosen_job env at_ s j job.
Proof.
  intros Hc. unfold claim_candidate in Hc. pose proof (first_unlocked_in _ _ _ Hc) as [Hin Hl]. apply jobs_by_id_spec in Hin as [Hj Hcl].
  split; [done|]. split; [done|]. split; [done|]. intros k other Hk Hck Hlk.
  apply (first_unlocked_least id_order _ _ _ (StronglySorted_merge_sort _ _) Hc (k, other)); [by apply jobs_by_id_spec|done].
Qed.
Lemma step_chosen env at_ s j job id x : claim_step env at_ s j job = Some (id, x) -> chosen_step env at_ s j job id x.
Proof.
  intros Hc. unfold claim_step in Hc. pose proof (first_unlocked_in _ _ _ Hc) as [Hin Hl]. apply select_steps_spec in Hin as [Hx Hcl].
  split; [done|]. split; [done|]. split; [done|]. intros k y Hk Hck Hlk.
  apply (first_unlocked_least step_order _ _ _ (StronglySorted_merge_sort _ _) Hc (k, y)); [by apply select_steps_spec|done].
Qed.

(** ** The tables *)

Definition expired_attempt (at_ : Z) (a : AttemptRow) : AttemptRow := a <| attempt_Status := StepAttemptExpired |> <| attempt_FinishedAt := Some at_ |>.
Definition new_attempt (at_ : Z) (worker : string) (x : StepRow) : AttemptRow :=
  mkAttemptRow (step_JobID x) (step_Generation x) worker StepAttemptActive at_ at_ None.
(** The active attempt of a running step that is claimed again. *)
Definition lapsed (s : Store) (id : Z) (x : StepRow) : option AttemptRow :=
  match step_Status x, attempts s !! (id, step_CurrentAttempt x) with
  | StatusRunning, Some a => if active a then Some a else None
  | _, _ => None
  end.
Definition expired_attempts (at_ : Z) (s : Store) (id : Z) (x : StepRow) : gmap (Z * Z) AttemptRow :=
  match lapsed s id x with Some a => <[(id, step_CurrentAttempt x) := expired_attempt at_ a]> (attempts s) | None => attempts s end.
Definition claimed_tables (env : Env) (worker : string) (at_ : Z) (s : Store) (j : Z) (job : JobRow) (id : Z) (x : StepRow) : Store :=
  s <| attempts := <[(id, step_CurrentAttempt x + 1) := new_attempt at_ worker x]> (expired_attempts at_ s id x) |>
    <| steps := <[id := claimed_row worker at_ x]> (steps s) |>
    <| jobs := if job_Status job == StatusPending
               then <[j := job <| job_Status := StatusRunning |> <| job_UpdatedAt := now env |>]> (jobs s) else jobs s |>.
Definition claim_of (env : Env) (worker : string) (at_ measured : Z) (j : Z) (job : JobRow) (id : Z) (x : StepRow) : ClaimedStep :=
  mkClaimed (j, job <| job_Status := StatusRunning |>)
    (id, x <| step_Status := StatusRunning |> <| step_WorkerID := Some worker |> <| step_StartedAt := Some (default at_ (step_StartedAt x)) |>)
    (mkAuthority j (step_Generation x) id (step_CurrentAttempt x + 1) worker) (env_local env 0 + lease_valid_for (at_ + lease) measured).

Section claim.
Context {World : Type} (env : Env) (others : Others World).
Implicit Types t : Tx World.
Abbreviation at0 t := (env_clock env (tx_tick t)).
Lemma expire_exact at_ id x t y t' : expire_previous others at_ id x t = Ok (y, t') ->
  exists w, t' = mkTx (tx_store t <| attempts := expired_attempts at_ (tx_store t) id x |>) w (tx_tick t) (tx_draw t) (tx_recorded t) /\
    (lapsed (tx_store t) id x = None -> w = tx_world t).
Proof.
  unfold expire_previous, expired_attempts, lapsed. intros E.
  assert (forall t, t = mkTx (tx_store t <| attempts := attempts (tx_store t) |>) (tx_world t) (tx_tick t) (tx_draw t) (tx_recorded t)) as Heta.
  { clear. by intros [[] ]. }
  destruct (step_Status x); try (apply ret_ok in E as [_ ->]; exists (tx_world t); split; [apply Heta|done]).
  unroll E. destruct (attempts (tx_store t) !! _) as [a|] eqn:Ea; follow E. destruct (active a) eqn:Hact; [|follow E; exists (tx_world t); split; [apply Heta|done]].
  apply tx_bind_ok in E as (b & t1 & E1 & E). apply update_attempt_ok in E1 as [(-> & a' & w & Ha' & _ & _ & _ & _ & ->)|(-> & -> & _)]; [|discriminate E].
  follow E. simplify_eq. exists w. done.
Qed.
(** What the transaction of a claim that found its step has done. *)
Lemma claim_tx_exact worker t x t' : claimTx env others worker t = Ok (x, t') ->
  match claim_candidate env (at0 t) (tx_store t) with
  | None => x = inr None
  | Some (j, job) => match claim_step env (at0 t) (tx_store t) j job with
    | None => x = inr None
    | Some (id, step) => x = inl (Some (claim_of env worker (at0 t) (env_clock env (S (tx_tick t))) j job id step)) /\
        tx_store t' = claimed_tables env worker (at0 t) (tx_store t) j job id step /\
        (lapsed (tx_store t) id step = None -> tx_world t' = tx_world t)
    end
  end.
Proof.
  intros E. unfold claimTx in E. unroll E. destruct (claim_candidate _ _ _) as [[j job]|] eqn:Ec; [|by follow E].
  unroll E. destruct (claim_step _ _ _ _ _) as [[id step]|] eqn:Es; [|by follow E]. apply claim_candidate_ok in Ec as [Hj Hopen]. apply claim_step_ok in Es as [Hs Hcl].
  cbn [tx_store] in *. unfold claimable in Hcl. guards. unroll E.
  apply tx_bind_ok in E as ([] & t1 & E1 & E). apply expire_exact in E1 as (w & -> & Hw).
  apply tx_bind_ok in E as ([] & t1 & E1 & E). apply insert_attempt_ok in E1 as (step' & Hs' & _ & _ & _ & _ & _ & _ & ->).
  cbn [tx_store with_store] in *. row_simpl. unroll E.
  apply tx_bind_ok in E as (b & t1 & E1 & E). apply update_step_ok in E1 as [(-> & y & Hy & _ & _ & _ & ->)|(-> & -> & _)]; [|discriminate E].
  cbn [tx_store with_store] in *. row_simpl. assert (y = step) as -> by congruence. clear Hy. follow E.
  apply tx_bind_ok in E as (b & t1 & E1 & E). follow E. subst j. split; [done|].
  apply update_job_ok in E1 as [(-> & job' & Hj' & Hp & _ & _ & ->)|(-> & -> & Hno)]; cbn [tx_store tx_world with_store] in *; row_simpl.
  - assert (job' = job) as -> by congruence. guards. split; [|done]. unfold claimed_tables. by rewrite Hp.
  - specialize (Hno _ Hj). guards. split; [|done]. unfold claimed_tables. rewrite (bool_decide_eq_false_2 (job_Status job = StatusPending)) by done. done.
Qed.
End claim.

(** C7: a claim takes the first claimable step that is not locked of the least unlocked
    job that has one: it ends the lapsed attempt of a step that was running, records the
    next attempt of the step, active for its lease from the time the database reads, sets
    the step running under the worker, starts a pending job, and answers the authority of
    that attempt with a deadline that the lease bounds; a claim that finds nothing or
    fails changes nothing, but for a claim whose lease ran out before its delivery. *)
Theorem claim_exact {World} env others worker (st st' : State World) r : ClaimNextStep env others worker st = (r, st') -> let at_ := env_clock env 0 in
  (st' = st /\ ((exists e, r = Err e) \/ r = Ok None)) \/
  exists j job id x, chosen_job env at_ st.1 j job /\ chosen_step env at_ st.1 j job id x /\ exact_worker worker = true /\
    st'.1 = claimed_tables env worker at_ st.1 j job id x /\ (lapsed st.1 id x = None -> st'.2 = st.2) /\
    let claim := claim_of env worker at_ (env_clock env 1) j job id x in
    if cl_LeaseDeadline claim <=? env_local env 1 then exists e, r = Err e else r = Ok (Some claim).
Proof.
  unfold ClaimNextStep. destruct (exact_worker worker); [|intros [= <- <-]; left; eauto].
  destruct (transact_or others (claimTx env others worker) st) as [r0 st0] eqn:E. intros Hd.
  apply transact_or_cases in E as [(e & -> & ->)|[(x & t' & -> & E & ->)|(x & t' & -> & E & -> & _)]].
  - injection Hd as <- <-. left. eauto.
  - apply claim_tx_exact in E. cbn [tx_tick tx_store] in E. assert (x = None) as ->.
    { destruct (claim_candidate _ _ _) as [[j job]|]; [|by injection E as ->]. destruct (claim_step _ _ _ _ _) as [[id step]|]; [by destruct E|by injection E as ->]. }
    injection Hd as <- <-. left. auto.
  - apply claim_tx_exact in E. cbn [tx_tick tx_store tx_world] in E. destruct (claim_candidate _ _ _) as [[j job]|] eqn:Ec; [|done].
    destruct (claim_step _ _ _ _ _) as [[id step]|] eqn:Es; [|done]. destruct E as ([= ->] & Hs & Hw). right. exists j, job, id, step.
    split; [by apply candidate_chosen|]. split; [by apply step_chosen|]. split; [done|]. simpl. unfold deliver in Hd.
    assert (forall a b, (a - b <=? 0) = (a <=? b)) as Hle. { intros a b. apply eq_true_iff_eq. rewrite !Z.leb_le. lia. }
    rewrite Hle in Hd.
    simpl in Hd. destruct (_ <=? env_local env 1); injection Hd as <- <-; (split; [done|]; split; [done|]); [eauto|done].
Qed.

(** ** A step that can be claimed is claimed *)

(** The checks of every attempt hold. *)
Definition checked (s : Store) : Prop := forall key a, attempts s !! key = Some a -> attempt_constraints key a = true.
Lemma reachable_checked {World} (st : State World) : reachable st -> checked st.1.
Proof. intros [w H] key a Ha. destruct (pr_checked _ _ (steps_preserved _ _ H) _ _ Ha); [done|done]. Qed.

Section progress.
Context {World : Type} (env : Env) (others : Others World).
Implicit Types t : Tx World.
Section claimed.
Context (worker : string) (at_ : Z) (s : Store) (j : Z) (job : JobRow) (id : Z) (x : StepRow).
Hypotheses (H : well_formed s) (Hck : checked s) (Hw : exact_worker worker = true) (Hj : jobs s !! j = Some job)
  (Hopen : job_Status job = StatusPending \/ job_Status job = StatusRunning) (Hx : steps s !! id = Some x) (Hcl : claimable at_ s j job id x = true).
Lemma claimable_facts : step_JobID x = j /\ unsuperseded x = true /\ step_Generation x = job_CurrentGeneration job /\ no_predecessor s x = true /\
  ((step_Status x = StatusPending /\ step_CurrentAttempt x = 0) \/
   (step_Status x = StatusRunning /\ exists a, attempts s !! (id, step_CurrentAttempt x) = Some a /\ attempt_JobID a = j /\ attempt_Generation a = step_Generation x /\
     ((active a = true /\ attempt_ExpiresAt a <= at_) \/ (active a = false /\ attempt_Status a = StepAttemptWaiting /\ step_Action x = "v3_coding")))).
Proof using Type*.
  unfold claimable, reclaimable, attempt_of in Hcl. guards. repeat (split; [done|]).
  match goal with Ho : (_ || _)%bool = true |- _ => apply orb_prop in Ho as [Ho|Ho] end; guards; [by left|right]. split; [done|].
  destruct (attempts s !! _) as [a|]; [|done]. guards. exists a. split; [done|]. split; [congruence|]. split; [done|].
  match goal with Ho : (_ || _)%bool = true |- _ => apply orb_prop in Ho as [Ho|Ho] end; guards; [by left|right].
  unfold active. by match goal with E : attempt_Status a = _ |- _ => rewrite E end.
Qed.
Lemma worker_nonempty : (worker != "") = true.
Proof using Type*. unfold exact_worker in Hw. by apply andb_prop in Hw as [[Hne _]%andb_prop _]. Qed.
Lemma worker_btrimmed : btrimmed worker = true.
Proof using Type*.
  unfold exact_worker in Hw. apply andb_prop in Hw as [[_ Ht]%andb_prop _]. apply bool_decide_eq_true in Ht. unfold btrimmed.
  unfold trim_space in Ht. set (l := trim_left (String.list_ascii_of_string worker)) in Ht.
  destruct (scan_spec trim_left starts_space trim_left_step (String.list_ascii_of_string worker)) as [Hl _]. fold l in Hl.
  destruct (scan_spec trim_right_rev ends_space trim_right_step (reverse l)) as [Hr [p Hp]]. set (k := trim_right_rev (reverse l)) in *.
  assert (bytes worker = reverse k) as ->. { rewrite Ht. apply String.list_ascii_of_string_of_list_ascii. }
  assert (starts_space (reverse k) = false) as Hs. { apply starts_space_prefix with l; [|done]. exists (reverse p). by rewrite <- reverse_app, <- Hp, reverse_involutive. }
  assert (forall A (x y : A) `{Decision (x = y)}, x <> y -> (x != y) = true) as Hne by (intros; by apply negb_true_iff, bool_decide_eq_false).
  apply andb_true_intro. split; apply Hne; intros E.
  - destruct (reverse k) as [|c r]; [done|]. injection E as ->. done.
  - rewrite last_reverse in E. destruct k as [|c r]; [done|]. injection E as ->. done.
Qed.
Lemma lapsed_allowed a : attempts s !! (id, step_CurrentAttempt x) = Some a -> active a = true -> 
  attempt_change_allowed a (expired_attempt at_ a) = true /\ attempt_constraints (id, step_CurrentAttempt x) (expired_attempt at_ a) = true.
Proof using Type*.
  intros Ha Hact. pose proof (Hck _ _ Ha) as Hc. unfold attempt_change_allowed, attempt_constraints, btrimmed, expired_attempt, active in *. row_simpl. guards.
  rewrite !bool_decide_eq_true_2 by done. simpl. rewrite !bool_decide_eq_true_2 by done. split; [done|]. repeat (apply andb_true_intro; split); rewrite ?Z.ltb_lt, ?Z.leb_le; try done.
  all: apply negb_true_iff; by apply bool_decide_eq_false_2.
Qed.
Lemma expire_forward t : tx_store t = s -> (forall s w i n a, attempt_Status a = StepAttemptExpired -> exists w', o_outcomes others s w i n a = Ok w') ->
  exists t', expire_previous others at_ id x t = Ok (tt, t') /\ tx_tick t' = tx_tick t /\ tx_recorded t' = tx_recorded t.
Proof using Type*.
  intros Hs Hout. destruct claimable_facts as (Ej & _ & _ & _ & [(Ep & _)|(Er & a & Ha & Haj & Hag & Hcase)]); unfold expire_previous.
  - rewrite Ep. exists t. done.
  - rewrite Er. unfold bind at 1, gets. rewrite Hs, Ha. destruct Hcase as [(Hact & Hexp)|(Hact & Hwait & Hcode)]; rewrite Hact.
    + destruct (lapsed_allowed a Ha Hact) as [Hch Hco]. unfold bind at 1, update_attempt. unfold bind at 1, gets. cbv [Datatypes.id]. rewrite Hs, Ha.
      unfold attempt_of. rewrite Haj, Hag, Ej, Hact, (proj2 (Z.leb_le _ _) Hexp), !bool_decide_eq_true_2 by done. simpl.
      unfold expired_attempt in Hch, Hco. rewrite Hch, Hco. simpl. unfold bind, calls. cbn [tx_store tx_world]. rewrite Hs.
      destruct (Hout s (tx_world t) id (step_CurrentAttempt x) (expired_attempt at_ a) eq_refl) as [w' Hw']. unfold expired_attempt in Hw'. rewrite Hw'.
      eexists. by split.
    + rewrite Hwait, Hcode. exists t. done.
Qed.
(** After the lapsed attempt ended no attempt of the step is active. *)
Lemma expired_none : active_attempt id (s <| attempts := expired_attempts at_ s id x |>) = false.
Proof using Type*.
  unfold active_attempt. apply exists_row_false. intros [i n] b Hb. simpl. destruct (decide (i = id)) as [->|Hi]; [|by rewrite bool_decide_eq_false_2].
  rewrite bool_decide_eq_true_2 by done. simpl. row_simpl. unfold expired_attempts in Hb.
  assert (forall b', attempts s !! (id, n) = Some b' -> n < step_CurrentAttempt x \/ n = step_CurrentAttempt x) as Hn.
  { intros b' Hb'. assert (is_Some (attempts s !! (id, n))) as Hs by eauto. apply (wf_numbers s H) in Hs as (y & Hy & Hr). assert (y = x) as -> by congruence. lia. }
  assert (forall b', attempts s !! (id, n) = Some b' -> n < step_CurrentAttempt x -> active b' = false) as Hold.
  { intros b' Hb' Hlt. by apply (wf_attempt s H id n b' x). }
  destruct (lapsed s id x) as [a|] eqn:Ela.
  - apply lookup_insert_Some in Hb as [([= <-] & <-)|(Hne & Hb)]; [done|]. destruct (Hn _ Hb) as [Hlt|He]; [by apply Hold|congruence].
  - destruct (Hn _ Hb) as [Hlt|He]; [by apply Hold|]. subst n. unfold lapsed in Ela. destruct claimable_facts as (_ & _ & _ & _ & [(Ep & E0)|(Er & _)]).
    + assert (is_Some (attempts s !! (id, step_CurrentAttempt x))) as Hs by eauto. apply (wf_numbers s H) in Hs as (y & Hy & Hr). lia.
    + rewrite Er, Hb in Ela. by destruct (active b).
Qed.
Lemma next_fresh : expired_attempts at_ s id x !! (id, step_CurrentAttempt x + 1) = None.
Proof using Type*.
  assert (attempts s !! (id, step_CurrentAttempt x + 1) = None) as Hnone.
  { apply eq_None_not_Some. intros Hs. apply (wf_numbers s H) in Hs as (y & Hy & Hr). assert (y = x) as -> by congruence. lia. }
  unfold expired_attempts. destruct (lapsed s id x); [|done]. rewrite lookup_insert_ne; [done|]. intros [= E]. lia.
Qed.
Lemma insert_forward t : tx_store t = s <| attempts := expired_attempts at_ s id x |> -> exists t',
  insert_attempt (World := World) id (step_CurrentAttempt x + 1) (new_attempt at_ worker x) t = Ok (tt, t') /\
  tx_store t' = s <| attempts := <[(id, step_CurrentAttempt x + 1) := new_attempt at_ worker x]> (expired_attempts at_ s id x) |> /\ tx_tick t' = tx_tick t /\
  tx_recorded t' = tx_recorded t.
Proof using Type*.
  intros Hs. unfold insert_attempt, bind, gets. cbv [Datatypes.id]. rewrite Hs, expired_none. row_simpl. rewrite Hx, next_fresh.
  unfold new_attempt, attempt_constraints, active. row_simpl. rewrite !bool_decide_eq_true_2 by done. simpl. pose proof (wf_step s H _ _ Hx) as (Hn & jb & _ & Hg & _).
  rewrite worker_nonempty, worker_btrimmed, (proj2 (Z.leb_le at_ at_)), (proj2 (Z.ltb_lt 0 (step_CurrentAttempt x + 1))), (proj2 (Z.ltb_lt 0 (step_Generation x))) by lia.
  simpl. eexists. split; [reflexivity|]. rewrite Hs. done.
Qed.
Lemma claimed_allowed s' : steps s' = steps s -> jobs s' = jobs s -> generations s' = generations s ->
  step_change_allowed s' id x (claimed_row worker at_ x) = true /\ step_constraints s' (claimed_row worker at_ x) = true.
Proof using Type*.
  intros Es Ej Eg. destruct claimable_facts as (Hxj & Hu & Hg & _ & Hst). pose proof (wf_step s H _ _ Hx) as (Hn & jb & Hjb & Hgen & _).
  assert (step_Status x = StatusPending \/ step_Status x = StatusRunning) as Hst' by (destruct Hst as [[? _]|[? _]]; auto).
  unfold step_change_allowed, step_constraints, claimed_row. row_simpl. rewrite Hu, Ej, Eg, Hjb, !(bool_decide_eq_true_2 (_ = _)) by done. split.
  - destruct Hst' as [->| ->]; simpl; by rewrite !andb_false_r, ?andb_true_r.
  - assert (step_SupersededAtGeneration x = None) as ->. { unfold unsuperseded in Hu. by guards. }
    destruct (wf_seeds s H id x id x Hx Hx eq_refl eq_refl) as (o & Ho & _).
    assert (step_Action x <> "external_agent_execute") as Hact. { intros Ex. unfold seed_of in Ho. rewrite Ex in Ho. destruct o; simpl in Ho; set_unfold; destruct_or!; discriminate. }
    assert (is_Some (generations s !! (step_JobID x, step_Generation x))) as [g ->]. { apply (wf_generations s H). eauto. }
    simpl. rewrite (bool_decide_eq_false_2 _ Hact). repeat (apply andb_true_intro; split); rewrite ?Z.leb_le, ?Z.ltb_lt; try done; lia.
Qed.
Lemma start_allowed s' : jobs s' = jobs s -> job_Status job = StatusPending ->
  let job' := job <| job_Status := StatusRunning |> <| job_UpdatedAt := now env |> in job_change_allowed s' j job job' = true /\ job_constraints s' j job' = true.
Proof using Type*.
  intros Ej Hp job'. split.
  - unfold job_change_allowed, job'. row_simpl. rewrite Hp, (bool_decide_eq_true_2 (job_Pipeline job = _)), (bool_decide_eq_true_2 (job_CurrentGeneration job = job_CurrentGeneration job)) by done. done.
  - unfold job_constraints. pose proof (wf_row s H _ _ Hj) as Hrow. unfold job_row in Hrow. unfold job'. row_simpl. apply andb_true_intro. split; [exact Hrow|].
    unfold channel_free. row_simpl. apply orb_true_intro. destruct (metadata_text "channel_id" job) as [ch|] eqn:Ech; cycle 1.
    { left. unfold metadata_text in *. row_simpl. by rewrite Ech. }
    right. apply negb_true_iff, exists_row_false. rewrite Ej. intros k other Hk. destruct (k != j) eqn:Ekj; [|done]. destruct (active_job_status (job_Status other)) eqn:Eo; [|done]. simpl.
    apply bool_decide_eq_false_2. guards. intros Ec. apply (wf_channel s H j job k other); [done..|by rewrite Hp|done|by unfold channel_of; rewrite Ech|].
    unfold channel_of, metadata_text in *. row_simpl. by rewrite Ec.
Qed.
End claimed.

Lemma commit_free t : well_formed (tx_store t) -> tx_recorded t = [] -> commit_allowed others t = true.
Proof.
  intros H Hr. unfold commit_allowed. rewrite Hr. simpl. apply negb_true_iff, exists_row_false. intros j job Hj.
  assert (is_Some (generations (tx_store t) !! (j, job_CurrentGeneration job))) as [g ->]; [|done]. apply (wf_generations _ H). exists job. split; [done|].
  pose proof (wf_row _ H _ _ Hj) as Hrow. unfold job_row in Hrow. guards. lia.
Qed.
Lemma claim_forward worker t j job id x : well_formed (tx_store t) -> checked (tx_store t) -> exact_worker worker = true ->
  claim_candidate env (env_clock env (tx_tick t)) (tx_store t) = Some (j, job) -> claim_step env (env_clock env (tx_tick t)) (tx_store t) j job = Some (id, x) ->
  (forall s w i n a, attempt_Status a = StepAttemptExpired -> exists w', o_outcomes others s w i n a = Ok w') ->
  exists y t', claimTx env others worker t = Ok (y, t') /\ tx_recorded t' = tx_recorded t.
Proof.
  intros H Hck Hw Hc Hs Hout. pose proof (claim_candidate_ok _ _ _ _ _ Hc) as [Hj Hopen]. pose proof (claim_step_ok _ _ _ _ _ _ _ Hs) as [Hx Hcl].
  set (at_ := env_clock env (tx_tick t)) in *. set (t0 := mkTx (tx_store t) (tx_world t) (S (tx_tick t)) (tx_draw t) (tx_recorded t)).
  pose proof (claimable_facts _ _ _ _ _ _ H Hck Hj Hopen Hx Hcl) as (Hxj & Hu & Hxg & _ & Hst).
  destruct (expire_forward at_ (tx_store t) j job id x H Hck Hj Hopen Hx Hcl t0 eq_refl Hout) as (t1 & E1 & _ & R1).
  pose proof E1 as E1'. apply expire_exact in E1' as (w1 & Et1 & _). cbn [tx_store t0] in Et1.
  destruct (insert_forward worker at_ (tx_store t) j job id x H Hck Hw Hj Hopen Hx Hcl t1) as (t2 & E2 & S2 & _ & R2); [by rewrite Et1|].
  set (t3 := mkTx (tx_store t2) (tx_world t2) (S (tx_tick t2)) (tx_draw t2) (tx_recorded t2)).
  destruct (claimed_allowed worker at_ (tx_store t) j job id x H Hck Hw Hj Hopen Hx Hcl (tx_store t2)) as [A1 A2]; [by rewrite S2..|].
  unfold claimTx. unfold bind at 1, clock. fold at_. unfold bind at 1, gets. cbn [tx_store]. rewrite Hc. unfold bind at 1, gets. cbn [tx_store]. rewrite Hs.
  assert (((step_Status x == StatusPending) && (step_CurrentAttempt x != 0))%bool = false) as ->.
  { destruct Hst as [(-> & ->)|(-> & _)]; done. }
  cbv zeta. fold t0. unfold bind at 1. rewrite E1. fold (new_attempt at_ worker x). unfold bind at 1. rewrite E2. unfold bind at 1, clock. fold t3.
  unfold bind at 1, update_step. unfold bind at 1, gets. cbv [Datatypes.id]. cbn [tx_store t3].
  assert (steps (tx_store t2) !! id = Some x) as -> by (rewrite S2; row_simpl; done). rewrite !bool_decide_eq_true_2 by done. cbn [andb].
  unfold claimed_row in A1, A2. cbv [Datatypes.id] in A1, A2. rewrite A1, A2. cbn [negb]. unfold bind at 1, put, ret. unfold bind at 1, update_job. unfold bind at 1, gets. cbn [tx_store with_store].
  assert (jobs (tx_store t2) !! j = Some job) as Hj2 by (rewrite S2; row_simpl; done). cbn [negb]. cbv beta. cbv [Datatypes.id]. cbn [tx_store with_store]. change (tx_store t3) with (tx_store t2). row_simpl. rewrite Hj2.
  destruct Hopen as [Hp|Hr].
  - rewrite Hp. destruct (start_allowed at_ (tx_store t) j job id x H Hck Hj (or_introl Hp) Hx Hcl (tx_store t2 <| steps := <[id := x <| step_Status := StatusRunning |>
      <| step_WorkerID := Some worker |> <| step_CurrentAttempt := step_CurrentAttempt x + 1 |> <| step_StartedAt := Some (default at_ (step_StartedAt x)) |>
      <| step_FinishedAt := None |>]> (steps (tx_store t2)) |>)) as [B1 B2]; [by rewrite S2|done|].
    cbv zeta in B1, B2. cbv [Datatypes.id] in B1, B2. rewrite !bool_decide_eq_true_2 by done. cbv beta iota. rewrite B1, B2. cbn [negb]. eexists _, _. split; [reflexivity|]. simpl. by rewrite R2, R1.
  - rewrite Hr. eexists _, _. split; [reflexivity|]. simpl. by rewrite R2, R1.
Qed.
End progress.

(** C8: a job that can go on goes on: in every reachable state with an unlocked job that
    has a claimable step (pending and never claimed, or running with a lapsed or an
    answered attempt, everything before it completed), and no step locked, a valid worker
    that asks gets one: no check, key or trigger of the tables stands in the way, and the
    database holds the claim afterwards. *)
Theorem claim_progress {World} env others worker (st : State World) k other : reachable st -> exact_worker worker = true ->
  jobs st.1 !! k = Some other -> claimable_job (env_clock env 0) st.1 k other = true -> env_locked_job env k = false ->
  (forall id, env_locked_step env id = false) ->
  (forall s w i n a, attempt_Status a = StepAttemptExpired -> exists w', o_outcomes others s w i n a = Ok w') ->
  exists j job id x, chosen_job env (env_clock env 0) st.1 j job /\ chosen_step env (env_clock env 0) st.1 j job id x /\
    (ClaimNextStep env others worker st).2.1 = claimed_tables env worker (env_clock env 0) st.1 j job id x.
Proof.
  intros Hreach Hw Hk Hck Hlk Hls Hout. pose proof (reachable_well_formed _ Hreach) as H. pose proof (reachable_checked _ Hreach) as Hchk.
  destruct (claim_candidate env (env_clock env 0) st.1) as [[j job]|] eqn:Ec.
  2: { unfold claim_candidate in Ec. pose proof (first_unlocked_none _ _ Ec (k, other) ltac:(by apply jobs_by_id_spec)). simpl in *. congruence. }
  destruct (claim_step env (env_clock env 0) st.1 j job) as [[id x]|] eqn:Es.
  2: { pose proof (candidate_chosen _ _ _ _ _ Ec) as (_ & Hcl & _). unfold claimable_job in Hcl. guards.
       match goal with Hr : exists_row _ _ = true |- _ => apply exists_row_spec in Hr as (id & x & Hx & Hp) end.
       pose proof (first_unlocked_none _ _ Es (id, x) ltac:(by apply select_steps_spec)) as Hl. rewrite Hls in Hl. done. }
  destruct (claim_forward env others worker (mkTx st.1 st.2 0 0 []) j job id x H Hchk Hw Ec Es Hout) as (y & t' & E & Hrec).
  pose proof (claim_tx_exact env others worker _ _ _ E) as Hx. cbn [tx_tick tx_store tx_world] in Hx. rewrite Ec, Es in Hx. destruct Hx as (-> & Hs & _).
  exists j, job, id, x. split; [by apply candidate_chosen|]. split; [by apply step_chosen|].
  unfold ClaimNextStep. rewrite Hw, deliver_state. unfold transact_or. rewrite E.
  rewrite commit_free; [done| |done]. exact (wf_claim_tx env others worker (mkTx st.1 st.2 0 0 []) _ _ H E).
Qed.
