(* ===== verification/JobOutcome.v ===== *)
(** * What the commands do

    The tables of jobs after a step is completed, after a job is replanned, interrupted
    or canceled. *)
From Stdlib Require Import Ascii.
From S2P Require Import Prelude Schema PathIdentity UserIntent JsonCodec Scrum Jobs JobStore JobCommands JobSteps JobControl JobFacts JobReach JobReplay JobInv JobKeeps JobCutover JobWellFormed.
From stdpp Require Import sorting base tactics strings list gmap numbers pretty.
From stdpp Require Import list options.
Open Scope Z_scope.
Open Scope go_scope.

Lemma current_step_frame s s' j id x : frame s s' -> current_step s' j id x <-> current_step s j id x.
Proof. intros Hf. unfold current_step. by rewrite (fr_steps _ _ Hf). Qed.
Lemma constraints_frame s s' j job : frame s s' -> job_constraints s' j job = job_constraints s j job.
Proof. intros Hf. unfold job_constraints, channel_free. by rewrite (fr_jobs _ _ Hf). Qed.
Lemma cut_over_frame env s0 s j objective first record set s' s1 : frame s0 s -> cut_over env s j objective first record set s' -> frame s' s1 ->
  cut_over env s0 j objective first record set s1.
Proof.
  intros Hf (row & at' & m' & Hj & Hc & He & Ha & Hb) Hf'. exists row, at', m'. rewrite <- (fr_jobs _ _ Hf), <- (fr_attempts _ _ Hf), <- (fr_steps _ _ Hf).
  split; [done|]. split; [by rewrite <- (constraints_frame _ _ _ _ Hf)|]. split; [|split; [done|]].
  - eapply ended_weaken; [exact He|]. intros key. split; intros (y & Hy & Hr); exists y; by rewrite (current_step_frame _ _ _ _ _ Hf) in *.
  - etransitivity; [|exact Hf']. destruct Hb as [B1 B2 B3 B4], Hf as [F1 F2 F3 F4]. unfold begun in *. row_simpl. constructor; row_simpl; congruence.
Qed.

(** ** Replanning *)

(** The row of a job that was replanned. *)
Definition replanned (env : Env) (c : ReplanJobCommand) (next : Z) (row : JobRow) : JobRow :=
  row <| job_CurrentGeneration := next |> <| job_Status := StatusRunning |> <| job_Result := "" |> <| job_Error := "" |>
    <| job_CompletedAt := None |> <| job_UpdatedAt := now env |> <| job_Metadata := planned_metadata c (job_Metadata row) |>.
Definition cutover_record (purpose : string) (objective : bool) (current : Z) (feedback : string) : JobGeneration :=
  mkGeneration purpose (Some current) (Some (bo_action (boundary_of objective))) (Some feedback).
Definition revision_observed (s : Store) (c : ReplanJobCommand) : Prop :=
  match ledgers s !! rp_JobID c with
  | Some ledger => 1 <= rp_ObservedLedgerRevision c /\ rp_ObservedLedgerRevision c = ledger_CurrentRevision ledger
  | None => rp_ObservedLedgerRevision c <= 0
  end.
Section outcome.
Context {World : Type} (env : Env) (others : Others World).
Implicit Types t : Tx World.
Lemma load_ledgers d j t x t' : loadLifecycleOperationTx others d j t = Ok (x, t') -> ledgers (tx_store t') = ledgers (tx_store t).
Proof.
  unfold loadLifecycleOperationTx, reserveLifecycleOperationIdentityTx. intros E. apply tx_bind_ok in E as (created & t1 & E1 & E). unroll E1.
  assert (ledgers (tx_store t1) = ledgers (tx_store t)) as <-.
  { destruct (registry _ !! _); unroll E1; [done|]. by injection E1 as <- <-. }
  unroll E. destruct (operations _ !! _); by unroll E.
Qed.
Lemma apply_replan_ok c j row t x t' : well_formed (tx_store t) -> jobs (tx_store t) !! j = Some row -> applyReplanJobTx env others c (j, row) t = Ok (x, t') ->
  terminalJobStatus (job_Status row) = false /\ x = ((j, replanned env c (job_CurrentGeneration row + 1) row), job_CurrentGeneration row) /\
  exists objective, cut_over env (tx_store t) j objective StatusPending
    (cutover_record jobGenerationPurposeReplan objective (job_CurrentGeneration row) (rp_Feedback c)) (replanned env c (job_CurrentGeneration row + 1)) (tx_store t').
Proof.
  intros H Hj E. unfold applyReplanJobTx in E. unroll E. split; [done|].
  apply tx_bind_ok in E as (cut & t2 & E2 & E). cbv zeta in E. apply tx_bind_ok in E as ([] & t3 & E3 & E). apply tx_bind_ok in E as ([] & t4 & E4 & E).
  apply tx_bind_ok in E as ([] & t5 & E5 & E). apply tx_bind_ok in E as (after & t6 & E6 & E). unfold advanceReplannedJobTx in E6.
  apply tx_bind_ok in E6 as (b & t7 & E7 & E6). destruct b; [|discriminate E6]. follow E6. apply scan_ok in E6 as (row3 & Hrow & -> & ->).
  pose proof (cutover_ok env others _ _ _ _ _ StatusPending _ _ _ _ _ _ _ H E2 E3 E4 (replan_tail_ok env _ _ _ _ _ _ E5) E7) as
    (objective & row' & Hrow' & _ & Hg & _ & _ & Hcut). cbn [fst] in *. assert (row' = row) as -> by congruence. rewrite Hg in *.
  assert (row3 = replanned env c (job_CurrentGeneration row + 1) row) as ->.
  { destruct Hcut as (row4 & at' & m' & Hj4 & _ & _ & _ & Hf). rewrite (fr_jobs _ _ Hf) in Hrow. unfold begun in Hrow. row_simpl. rewrite lookup_insert_eq in Hrow.
    assert (row4 = row) as -> by congruence. by injection Hrow as <-. }
  assert (frame (tx_store t7) (tx_store t')) as Hf.
  { match type of E with ?c0 ?t0 = _ => assert (keeps frame c0) as Hk by framing; exact (Hk _ _ _ E) end. }
  split.
  - apply tx_bind_ok in E as ([] & t8 & _ & E). apply tx_bind_ok in E as ([] & t9 & _ & E). by apply ret_ok in E as [-> _].
  - exists objective. by eapply cut_over_frame.
Qed.
Lemma replan_ok c d t x t' : well_formed (tx_store t) -> replanJobTx env others c d t = Ok (x, t') -> lr_Applied x = true ->
  exists row objective, jobs (tx_store t) !! rp_JobID c = Some row /\ terminalJobStatus (job_Status row) = false /\ revision_observed (tx_store t) c /\
    lr_Job x = (rp_JobID c, replanned env c (job_CurrentGeneration row + 1) row) /\
    cut_over env (tx_store t) (rp_JobID c) objective StatusPending (cutover_record jobGenerationPurposeReplan objective (job_CurrentGeneration row) (rp_Feedback c))
      (replanned env c (job_CurrentGeneration row + 1)) (tx_store t').
Proof.
  intros H E Happ. unfold replanJobTx, lockLifecycleOperationIdentityTx in E. unroll E. rename Hscan into Hj.
  apply tx_bind_ok in E as (existing & t1 & E1 & E). pose proof (framed_load others _ _ _ _ _ E1) as Hf. pose proof (load_ledgers _ _ _ _ _ E1) as Hl.
  rewrite <- (fr_jobs _ _ Hf) in Hj. apply (well_formed_frame _ _ Hf) in H.
  destruct existing as [op|]; [follow E; apply tx_bind_ok in E as ([] & t2 & _ & E); apply ret_ok in E as [-> _]; done|].
  unroll E. cbv [Datatypes.id] in E. apply tx_bind_ok in E as ([] & t2 & E2 & E).
  assert (t2 = t1 /\ revision_observed (tx_store t) c) as [-> Hrev].
  { unfold revision_observed. rewrite <- Hl. destruct (ledgers (tx_store t1) !! rp_JobID c) as [ledger|]; unroll E2; guards; auto. }
  unroll E. apply tx_bind_ok in E as (applied_ & t3 & E3 & E). apply (apply_replan_ok _ _ _ _ _ _ H Hj) in E3 as (Hterm & -> & objective & Hcut). cbn [fst snd] in E.
  assert (frame (tx_store t3) (tx_store t')) as Hf'.
  { match type of E with ?c0 ?t0 = _ => assert (keeps frame c0) as Hk by framing; exact (Hk _ _ _ E) end. }
  apply tx_bind_ok in E as ([] & t4 & _ & E). apply ret_ok in E as [-> _]. rewrite (fr_jobs _ _ Hf) in Hj. eexists _, objective. split; [exact Hj|]. split; [done|].
  split; [done|]. split; [done|]. by eapply cut_over_frame.
Qed.

(** ** Interruption *)

Definition interrupted (next : Z) (row : JobRow) : JobRow :=
  row <| job_CurrentGeneration := next |> <| job_Status := StatusWaiting |> <| job_Result := "" |> <| job_Error := "" |>
    <| job_CompletedAt := None |> <| job_UpdatedAt := now env |>.
(** The frozen execution of the job was paused in place. *)
Definition paused (s : Store) (j : Z) (s' : Store) : Prop := exists row id x at_ m,
  jobs s !! j = Some row /\ current_step s j id x /\ step_Action x = "v3_coding" /\ (step_Status x = StatusPending \/ step_Status x = StatusRunning) /\
  match ledgers s !! j with Some ledger => ledger_frozen ledger = true | None => False end /\
  attempts_ended StepAttemptWaiting (fun key => 0 < step_CurrentAttempt x /\ key = (id, step_CurrentAttempt x)) (attempts s) m /\
  frame (s <| attempts := m |> <| steps := <[id := x <| step_Status := StatusWaiting |> <| step_WorkerID := None |>]> (steps s) |>
           <| jobs := <[j := row <| job_Status := StatusWaiting |> <| job_UpdatedAt := at_ |>]> (jobs s) |>) s'.
Lemma pause_ok j row d t result t' : jobs (tx_store t) !! j = Some row -> pauseFrozenCodingTx env others (j, row) d t = Ok (Some result, t') ->
  paused (tx_store t) j (tx_store t').
Proof.
  intros Hj E. unfold pauseFrozenCodingTx in E. unroll E. destruct (frozen_execution _ _ _) as [[id step]|] eqn:Ef; [|by apply ret_ok in E as [? _]].
  assert (match ledgers (tx_store t) !! j with Some ledger => ledger_frozen ledger = true | None => False end) as Hled.
  { unfold frozen_execution in Ef. cbn [fst] in Ef. destruct (ledgers _ !! j) as [ledger|]; [|done]. by destruct (ledger_frozen ledger). }
  apply frozen_execution_ok in Ef as (Hs & Hsj & Ha & Hu & Hp). cbn [fst] in *. guards.
  apply tx_bind_ok in E as ([] & t1 & E1 & E). apply pause_attempt_ok in E1 as (m & w & k & -> & Hl).
  apply tx_bind_ok in E as (b & t1 & E1 & E). apply framed_reserve in E1. cbn [tx_store] in E1.
  assert (steps (tx_store t1) !! id = Some step) as Hs1 by by rewrite (fr_steps _ _ E1). assert (jobs (tx_store t1) !! j = Some row) as Hj1 by by rewrite (fr_jobs _ _ E1).
  apply tx_bind_ok in E as (b' & t2 & E2 & E). apply update_step_ok in E2 as [(-> & y & Hy & _ & _ & _ & ->)|(-> & -> & Hno)]; [|by specialize (Hno _ Hs1)].
  assert (y = step) as -> by congruence. clear Hy. unroll E. apply tx_bind_ok in E as (b' & t2 & E2 & E). cbn [fst tx_store with_store] in *.
  apply update_job_ok in E2 as [(-> & row' & Hrow & _ & _ & Hcj & ->)|(-> & -> & Hno)]; cbn [tx_store with_store] in *; row_simpl; [|by specialize (Hno _ Hj1)].
  assert (row' = row) as -> by congruence. unroll E. skip E Hf. apply ret_ok in E as [_ ->]. cbn [tx_store] in Hf.
  exists row, id, step, (env_clock env (tx_tick t1)), m. split; [done|]. split; [done|]. split; [done|]. split; [set_solver|]. split; [done|]. split; [exact Hl|].
  etransitivity; [|exact Hf]. destruct E1 as [F1 F2 F3 F4]. row_simpl. constructor; cbn [tx_store with_store]; row_simpl; congruence.
Qed.
Lemma paused_frame s0 s j s' : frame s0 s -> ledgers s = ledgers s0 -> paused s j s' -> paused s0 j s'.
Proof.
  intros Hf Hl (row & id & x & at_ & m & Hj & Hc & Ha & Hst & Hled & He & Hfr). exists row, id, x, at_, m.
  rewrite <- (fr_jobs _ _ Hf), <- (fr_attempts _ _ Hf), <- (fr_steps _ _ Hf), <- Hl, <- (current_step_frame _ _ _ _ _ Hf).
  repeat (split; [done|]). etransitivity; [|exact Hfr]. destruct Hf. constructor; row_simpl; done.
Qed.
Lemma interrupt_ok c d t x t' : well_formed (tx_store t) -> interruptJobTx env others c d t = Ok (x, t') -> lr_Applied x = true ->
  exists row, jobs (tx_store t) !! rp_JobID c = Some row /\ (job_Status row = StatusPending \/ job_Status row = StatusRunning) /\
    (paused (tx_store t) (rp_JobID c) (tx_store t') \/
     exists objective, lr_Job x = (rp_JobID c, interrupted (job_CurrentGeneration row + 1) row) /\
       cut_over env (tx_store t) (rp_JobID c) objective StatusWaiting
         (cutover_record jobGenerationPurposeInterrupt objective (job_CurrentGeneration row) (rp_Feedback c)) (interrupted (job_CurrentGeneration row + 1)) (tx_store t')).
Proof.
  intros H E Happ. unfold interruptJobTx, lockLifecycleOperationIdentityTx in E. unroll E. rename Hscan into Hj.
  apply tx_bind_ok in E as (existing & t1 & E1 & E). pose proof (framed_load others _ _ _ _ _ E1) as Hf. pose proof (load_ledgers _ _ _ _ _ E1) as Hl.
  rewrite <- (fr_jobs _ _ Hf) in Hj. apply (well_formed_frame _ _ Hf) in H.
  destruct existing as [op|]; [apply tx_bind_ok in E as ([] & t2 & _ & E); apply ret_ok in E as [-> _]; done|].
  match type of Hj with _ = Some ?r => rename r into row end.
  unroll E. guards. cbn [snd] in *. apply tx_bind_ok in E as (paused_ & t2 & E2 & E). eexists. split; [rewrite (fr_jobs _ _ Hf) in Hj; exact Hj|]. split; [set_solver|].
  destruct paused_ as [result|].
  - apply ret_ok in E as [-> ->]. left. eapply paused_frame; [done|done|]. by eapply pause_ok.
  - pose proof E2 as E2'. eapply wf_pause in E2' as [_ Hnone]; [|exact H|exact Hj|done]. rewrite (Hnone eq_refl) in *. clear Hnone E2. right.
    apply tx_bind_ok in E as (cut & t3 & E3 & E). cbv zeta in E. apply tx_bind_ok in E as ([] & t4 & E4 & E). apply tx_bind_ok in E as ([] & t5 & E5 & E).
    apply tx_bind_ok in E as ([] & t6 & E6 & E). apply tx_bind_ok in E as (after & t7 & E7 & E). unfold advanceInterruptedJobTx in E7.
    apply tx_bind_ok in E7 as (b & t8 & E8 & E7). destruct b; [|discriminate E7]. follow E7. apply scan_ok in E7 as (row3 & Hrow & -> & ->).
    pose proof (cutover_ok env others _ _ _ _ _ StatusWaiting _ _ _ _ _ _ _ H E3 E4 E5 (interrupted_tail_ok env _ _ _ _ _ _ E6) E8) as
      (objective & row' & Hrow' & _ & Hg & _ & _ & Hcut). cbn [fst] in *. assert (row' = row) as -> by congruence. rewrite Hg in *.
    assert (row3 = interrupted (job_CurrentGeneration row + 1) row) as ->.
    { destruct Hcut as (row4 & at' & m' & Hj4 & _ & _ & _ & Hfr). rewrite (fr_jobs _ _ Hfr) in Hrow. unfold begun in Hrow. row_simpl. rewrite lookup_insert_eq in Hrow.
      assert (row4 = row) as -> by congruence. by injection Hrow as <-. }
    assert (frame (tx_store t8) (tx_store t')) as Hf'.
    { match type of E with ?c0 ?t0 = _ => assert (keeps frame c0) as Hk by framing; exact (Hk _ _ _ E) end. }
    exists objective. split; [|by eapply cut_over_frame].
    apply tx_bind_ok in E as ([] & t9 & _ & E). apply tx_bind_ok in E as ([] & t10 & _ & E). by apply ret_ok in E as [-> _].
Qed.

(** ** Completion *)

(** The steps a terminal objective leaves undone: pending and never claimed. *)
Definition undone (j g : Z) (_ : Z) (x : StepRow) : bool :=
  ((step_JobID x == j) && (step_Generation x == g) && unsuperseded x && (step_Status x == StatusPending) && (step_CurrentAttempt x == 0))%bool.
Definition completed_step (c : CompleteStepCommand) (x : StepRow) : StepRow :=
  x <| step_Status := StatusCompleted |> <| step_Output := cs_Output c |> <| step_FinishedAt := Some (now env) |>.
Definition canceled_step (at_ : Z) (x : StepRow) : StepRow := x <| step_Status := StatusCanceled |> <| step_FinishedAt := Some at_ |>.
Definition completed_steps (s : Store) (c : CompleteStepCommand) (at_ : Z) (x : StepRow) : gmap Z StepRow :=
  let m := <[cs_StepID c := completed_step c x]> (steps s) in
  if cs_ContextKey c == "objective_result" then alter_where (undone (step_JobID x) (step_Generation x)) (canceled_step at_) m else m.
Definition completed_job (c : CompleteStepCommand) (remaining : bool) (row : JobRow) : JobRow :=
  if remaining then row <| job_UpdatedAt := now env |>
  else row <| job_Status := StatusCompleted |> <| job_Result := if cs_Output c == "" then job_Result row else cs_Output c |>
    <| job_CompletedAt := Some (now env) |> <| job_UpdatedAt := now env |>.
Lemma tail_ok job c t x t' : cancelTerminalObjectiveCodingTailTx env job c t = Ok (x, t') ->
  (exists y, steps (tx_store t) !! cs_StepID c = Some y /\ step_Status y = StatusCompleted) /\
  exists at_, frame (tx_store t <| steps := alter_where (undone job.1 (au_Generation (cs_Authority c))) (canceled_step at_) (steps (tx_store t)) |>) (tx_store t').
Proof.
  unfold cancelTerminalObjectiveCodingTailTx. intros E. unroll E. set (g := au_Generation _) in *.
  assert (forall row, row ∈ current_pipeline job.1 g (tx_store t) -> steps (tx_store t) !! row.1 = Some row.2) as Hrow by by intros [] [? _]%select_steps_spec.
  assert (forall id y, steps (tx_store t) !! id = Some y -> ((step_JobID y == job.1) && (step_Generation y == g) && unsuperseded y)%bool = true ->
    (id, y) ∈ current_pipeline job.1 g (tx_store t)) as Hin by (intros id y Hy Hp; by apply select_steps_spec).
  destruct (current_pipeline _ _ _) as [|first tail]; [by guards|]. unroll E.
  apply tx_bind_ok in E as (n & t1 & E1 & E). apply update_steps_ok in E1 as [_ ->]. follow E. cbn [tx_store with_store fst snd] in *. guards.
  split; [exists first.2; split; [|done]; match goal with Hf : first.1 = _ |- _ => rewrite <- Hf end; apply Hrow; by left|].
  eexists. match goal with |- frame (_ <| steps := ?a |>) (_ <| steps := ?b |>) => enough (a = b) as -> by done end.
  apply map_eq. intros id. rewrite !alter_where_lookup. destruct (steps (tx_store t) !! id) as [y|] eqn:Hy; [|done]. simpl. f_equal.
  unfold undone. destruct (step_JobID y == job.1) eqn:E1; [|done]. destruct (step_Generation y == _) eqn:E2; [|done]. simpl.
  destruct (unsuperseded y) eqn:E3; [|by rewrite andb_false_r]. destruct (step_Status y == StatusPending) eqn:E4; [|by rewrite !andb_false_r].
  destruct (step_CurrentAttempt y == 0) eqn:E5; [|by rewrite !andb_false_r]. guards.
  rewrite bool_decide_eq_true_2; [done|]. apply list_elem_of_fmap. exists (id, y). split; [done|].
  pose proof (Hin _ _ Hy ltac:(by rewrite E3, !bool_decide_eq_true_2)) as [<-|]%elem_of_cons; [simpl in *; congruence|done].
Qed.
Lemma complete_ok c d e t x t' : operations (tx_store t) !! ds_ID d = None -> completeStep env others c d e t = Ok (x, t') -> x = inl tt /\
  exists row step attempt finished at_, held (cs_Authority c) (tx_store t) row step attempt /\ active attempt = true /\ step_Status step = StatusRunning /\
    (cs_StepID c = au_StepID (cs_Authority c) ->
     let s1 := tx_store t <| steps := completed_steps (tx_store t) c at_ step |> in
     frame (s1 <| attempts := <[(cs_StepID c, step_CurrentAttempt step) :=
                    attempt <| attempt_Status := StepAttemptCompleted |> <| attempt_FinishedAt := Some finished |>]> (attempts (tx_store t)) |>
               <| jobs := <[au_JobID (cs_Authority c) := completed_job c (open_steps (au_JobID (cs_Authority c)) s1) row]> (jobs (tx_store t)) |>) (tx_store t')).
Proof.
  intros Hnew E. unfold completeStep, lockLifecycleOperationIdentityTx in E. cbv zeta in E. unroll E.
  apply tx_bind_ok in E as (locked & t1 & E1 & E). apply lock_authority_ok in E1 as [-> (job & step & attempt & Hh & ->)]. unroll E.
  rewrite (he_job _ _ _ _ _ Hh) in Hscan. injection Hscan as <-.
  apply tx_bind_ok in E as (existing & t1 & E1 & E). pose proof (framed_load others _ _ _ _ _ E1) as Hf.
  destruct existing as [op|]; [apply load_recorded in E1; congruence|]. split; [clear - E; by result_of E|].
  unroll E. apply tx_bind_ok in E as ([] & t2 & E2 & E). apply require_active_ok in E2 as (Hact & _ & ->). unroll E. simpl in Heqb, Hact.
  guards. skip E Hf2. unroll E. skip E Hf3. simpl in Hf2. assert (frame (tx_store t) (tx_store t2)) as Hfr by (etransitivity; [done|etransitivity; done]).
  clear Hf Hf2 Hf3. pose proof (he_job _ _ _ _ _ Hh) as Hj. rewrite <- (fr_jobs _ _ Hfr) in Hj.
  apply tx_bind_ok in E as ([] & t3 & E3 & E). apply terminalize_ok in E3 as (Hns & row & finished & w & k & Hrow & _ & _ & _ & _ & ->).
  assert (row = attempt) as ->. { rewrite (fr_attempts _ _ Hfr), (he_attempt _ _ _ _ _ Hh) in Hrow. congruence. }
  apply tx_bind_ok in E as (b & t3 & E3 & E). apply update_step_ok in E3 as [(-> & y & Hy & Hown & Hch & _ & ->)|(-> & -> & _)]; [|discriminate E].
  follow E. cbn [tx_store with_store] in *. row_simpl. apply tx_bind_ok in E as ([] & t4 & E4 & E).
  set (t3 := with_store _ _) in E4.
  assert (exists at_, frame (tx_store t3 <| steps := completed_steps (tx_store t2) c at_ y |>) (tx_store t4)) as (at_ & Hf4).
  { unfold completed_steps. fold (completed_step c y) in t3. destruct (cs_ContextKey c == _).
    - apply tail_ok in E4 as [_ (at_ & Hf4)]. exists at_. cbn [fst] in Hf4. unfold own_step in Hown. guards.
      assert (step_JobID y = au_JobID (cs_Authority c)) as -> by done. assert (step_Generation y = au_Generation (cs_Authority c)) as -> by done. exact Hf4.
    - apply ret_ok in E4 as [_ ->]. exists 0. done. }
  exists job, step, attempt, finished, at_. split; [done|]. split; [unfold active; by rewrite Hact|]. split; [done|]. intros Hid.
  assert (y = step) as ->. { rewrite Hid, (fr_steps _ _ Hfr), (he_step _ _ _ _ _ Hh) in Hy. congruence. }
  assert (completed_steps (tx_store t2) c at_ step = completed_steps (tx_store t) c at_ step) as Hcs by (unfold completed_steps; by rewrite (fr_steps _ _ Hfr)).
  rewrite Hcs in Hf4. unroll E. apply tx_bind_ok in E as ([] & t5 & E5 & E). transitivity (tx_store t5).
  2: { match type of E with ?k0 ?t0 = _ => assert (keeps frame k0) as Hk by framing; exact (Hk _ _ _ E) end. }
  assert (open_steps (au_JobID (cs_Authority c)) (tx_store t4) = open_steps (au_JobID (cs_Authority c)) (tx_store t <| steps := completed_steps (tx_store t) c at_ step |>)) as Hos.
  { unfold open_steps. rewrite (fr_steps _ _ Hf4). done. }
  assert (jobs (tx_store t4) !! au_JobID (cs_Authority c) = Some job) as Hj4. { rewrite (fr_jobs _ _ Hf4). exact Hj. }
  assert (step_CurrentAttempt step = au_Attempt (cs_Authority c)) as Hn by by destruct Hh. rewrite Hn, Hid.
  rewrite Hos in E5. cbv zeta. set (remaining := open_steps _ _) in *. clearbody remaining.
  assert (exists job', job' = completed_job c remaining job /\ frame (tx_store t4 <| jobs := <[au_JobID (cs_Authority c) := job']> (jobs (tx_store t4)) |>) (tx_store t5)) as (job' & <- & Hf5).
  { destruct remaining; unfold completed_job.
    - follow E5. apply tx_bind_ok in E5 as (b & t6 & E6 & E5). apply ret_ok in E5 as [_ ->].
      apply update_job_ok in E6 as [(-> & row' & Hrow' & _ & _ & Hcj & ->)|(-> & -> & Hno)].
      + assert (row' = job) as -> by congruence. eexists. split; [done|]. done.
      + specialize (Hno _ Hj4). unfold jobAcceptsStepTerminal in *. guards. exfalso. rewrite Hno in *. set_solver.
    - unfold complete_job in E5. unroll E5. apply tx_bind_ok in E5 as (b & t6 & E6 & E5).
      apply update_job_ok in E6 as [(-> & row' & Hrow' & _ & _ & Hcj & ->)|(-> & -> & Hno)]; [|discriminate E5]. follow E5. apply calls_ok in E5 as (w' & _ & ->).
      cbn [tx_store with_store fst] in *. assert (row' = job) as -> by congruence. eexists. split; [done|]. done. }
  etransitivity; [|exact Hf5]. destruct Hf4 as [G1 G2 G3 G4], Hfr as [F1 F2 F3 F4]. subst t3. cbn [tx_store with_store] in *. row_simpl. constructor; row_simpl; congruence.
Qed.

(** ** Cancellation *)

Definition canceled_row (c : CancelJobCommand) (row : JobRow) : JobRow :=
  row <| job_Status := StatusCanceled |> <| job_Error := cn_Reason c |> <| job_CompletedAt := Some (now env) |> <| job_UpdatedAt := now env |>.
Definition stopped_step (c : CancelJobCommand) (x : StepRow) : StepRow :=
  x <| step_Status := StatusCanceled |> <| step_Error := if step_Error x == "" then cn_Reason c else step_Error x |>
    <| step_FinishedAt := Some (default (now env) (step_FinishedAt x)) |>.
Definition canceled_tables (s : Store) (c : CancelJobCommand) (s' : Store) : Prop := exists row m, jobs s !! cn_JobID c = Some row /\
  terminalJobStatus (job_Status row) = false /\
  attempts_ended StepAttemptCanceled (fun key => exists y, current_step s (cn_JobID c) key.1 y /\ held_step y = true /\ key.2 = step_CurrentAttempt y) (attempts s) m /\
  frame (s <| attempts := m |>
           <| steps := alter_where (fun _ x => (step_JobID x == cn_JobID c) && unsuperseded x && open_status (step_Status x))%bool (stopped_step c) (steps s) |>
           <| jobs := <[cn_JobID c := canceled_row c row]> (jobs s) |>) s'.
Lemma cancel_tx_ok c t x t' : well_formed (tx_store t) -> cancelJobTx env others c t = Ok (x, t') -> lr_Applied x = true -> canceled_tables (tx_store t) c (tx_store t') /\
  forall row, jobs (tx_store t) !! cn_JobID c = Some row -> lr_Job x = (cn_JobID c, canceled_row c row).
Proof.
  intros H E Happ. unfold cancelJobTx, lockLifecycleOperationIdentityTx in E. unroll E. rename Hscan into Hj. skip E Hf.
  match type of E with match ?o with _ => _ end _ = _ => destruct o as [op|] end.
  { apply tx_bind_ok in E as ([] & t2 & _ & E). apply ret_ok in E as [-> _]. done. }
  apply tx_bind_ok in E as (after & t2 & E2 & E). unfold applyJobCancellationTx in E2. unroll E2. guards. cbn [fst snd] in *.
  match type of Hj with _ = Some ?r => rename r into row end. skip E2 Hf2. cbn [tx_store] in *.
  match type of E2 with _ ?ta = _ => set (tc := ta) in * end. assert (frame (tx_store t) (tx_store tc)) as Hfr by (etransitivity; done). clear Hf Hf2.
  pose proof (well_formed_frame _ _ Hfr H) as H'. rewrite <- (fr_jobs _ _ Hfr) in Hj. unroll E2.
  apply tx_bind_ok in E2 as ([] & t3 & E3 & E2).
  assert (forall id y, current_step (tx_store tc) (cn_JobID c) id y -> step_Generation y = job_CurrentGeneration row) as Hgen.
  { intros id y (Hy & Hyj & Hu). destruct (wf_step _ H' _ _ Hy) as (_ & r & Hr & _ & Hiff). rewrite Hyj, Hj in Hr. injection Hr as <-. by apply Hiff. }
  set (opened := steps_by_id _ _) in E3.
  assert (exists m w k, t3 = mkTx (tx_store tc <| attempts := m |>) w k (tx_draw tc) (tx_recorded tc) /\
    attempts_ended StepAttemptCanceled (fun key => exists y, current_step (tx_store tc) (cn_JobID c) key.1 y /\ held_step y = true /\ key.2 = step_CurrentAttempt y)
      (attempts (tx_store tc)) m) as (m & w & k & -> & He).
  { assert (forall id y, current_step (tx_store tc) (cn_JobID c) id y -> held_step y = true -> (id, y) ∈ opened) as Hop.
    { intros id y Hc Hh. apply steps_by_id_spec. pose proof (Hgen _ _ Hc) as Hg. destruct Hc as (Hy & Hyj & Hu). split; [done|].
      rewrite Hyj, Hg, Hu, !bool_decide_eq_true_2 by done. unfold held_step in Hh. apply orb_prop in Hh as [Hr|Hr]; guards; by match goal with E : step_Status y = _ |- _ => rewrite E end. }
    destruct (bool_decide (opened = [])) eqn:Eo.
    - apply ret_ok in E3 as [_ ->]. exists (attempts (tx_store tc)), (tx_world tc), (tx_tick tc). split; [by destruct tc as [[] ]|].
      eapply ended_weaken; [apply ended_none|]. intros key. split; [done|]. intros (y & Hc & Hh & _). apply bool_decide_eq_true in Eo. specialize (Hop _ _ Hc Hh).
      rewrite Eo in Hop. by apply not_elem_of_nil in Hop.
    - apply terminalize_all_ok in E3 as (_ & m & w & k & -> & He). exists m, w, k. split; [done|]. eapply ended_weaken; [exact He|]. intros [i n]. cbn [fst snd]. split.
      + intros (y & Hy & Hyj & Hyg & Hi & Hh & ->). exists y. split; [|done]. split; [done|]. split; [done|].
        destruct (wf_step _ H' _ _ Hy) as (_ & r & Hr & _ & Hiff). rewrite Hyj, Hj in Hr. injection Hr as <-. by apply Hiff.
      + intros (y & Hc & Hh & ->). exists y. pose proof (Hgen _ _ Hc). pose proof (Hop _ _ Hc Hh) as Ho. destruct Hc as (? & ? & ?). repeat (split; [done|]). split; [|done].
        apply list_elem_of_fmap. by exists (i, y). }
  apply tx_bind_ok in E2 as (n & t4 & E4 & E2). apply update_steps_ok in E4 as [_ ->]. cbn [tx_store with_store] in *.
  apply tx_bind_ok in E2 as (b & t4 & E4 & E2). apply update_job_ok in E4 as [(-> & row' & Hrow & _ & _ & Hcj & ->)|(-> & -> & _)]; [|discriminate E2].
  cbn [tx_store with_store] in *. row_simpl. assert (row' = row) as -> by congruence. unroll E2.
  cbn [tx_store with_store fst snd] in *. row_simpl. rewrite lookup_insert_eq in Hscan. injection Hscan as <-.
  skip E Hf4. apply ret_ok in E as [-> ->]. cbn [tx_store] in Hf4. split.
  - exists row, m. rewrite (fr_jobs _ _ Hfr) in Hj. split; [done|]. split; [destruct (job_Status row); (done || set_solver)|]. split.
    + rewrite (fr_attempts _ _ Hfr) in He. eapply ended_weaken; [exact He|]. intros key. split; intros (y & Hy & Hr); exists y; by rewrite (current_step_frame _ _ _ _ _ Hfr) in *.
    + etransitivity; [|exact Hf4]. destruct Hfr as [F1 F2 F3 F4]. constructor; row_simpl; rewrite ?F1, ?F2, ?F3, ?F4; done.
  - intros row0 Hr0. rewrite <- (fr_jobs _ _ Hfr) in Hr0. assert (row0 = row) as -> by congruence. done.
Qed.
End outcome.

(** C9: an applied replan is exactly a cutover: the job was open and its ledger at the
    revision the caller saw; every claimed attempt of its current steps ends as
    superseded, every current step is superseded at the current generation (and canceled
    if it was open), the canonical steps of the same pipeline are appended, pending and
    never claimed, under the next generation, whose record names the cutover and the
    feedback, and the job runs that generation with its result cleared; no row of another
    job changes. *)
Theorem replan_exact {World} env (others : Others World) c st res st' : reachable st -> ReplanJob env others c st = (Ok res, st') -> lr_Applied res = true ->
  exists row objective, jobs st.1 !! rp_JobID c = Some row /\ terminalJobStatus (job_Status row) = false /\ revision_observed st.1 c /\
    lr_Job res = (rp_JobID c, replanned env c (job_CurrentGeneration row + 1) row) /\
    cut_over env st.1 (rp_JobID c) objective StatusPending (cutover_record jobGenerationPurposeReplan objective (job_CurrentGeneration row) (rp_Feedback c))
      (replanned env c (job_CurrentGeneration row + 1)) st'.1.
Proof.
  intros H%reachable_well_formed E Happ. unfold ReplanJob in E. destruct (normalizeReplanJobCommand _ _); [|done]. destruct (describeLifecycleOperation _ _ _) as [d|]; [|done].
  apply transact_cases in E as [(e & [=] & _)|(x & t' & [= ->] & E & -> & _)]. by apply replan_ok in E.
Qed.

(** C10: an applied interruption stops an open job in one of two exact ways: a frozen
    coding execution is paused in place (its step and job wait, its attempt ends as
    waiting, the generation stays), and any other execution is cut over to the next
    generation, whose first steps wait until the job is resumed. *)
Theorem interrupt_exact {World} env (others : Others World) c st res st' : reachable st -> InterruptJob env others c st = (Ok res, st') -> lr_Applied res = true ->
  exists row, jobs st.1 !! rp_JobID c = Some row /\ (job_Status row = StatusPending \/ job_Status row = StatusRunning) /\
    (paused st.1 (rp_JobID c) st'.1 \/
     exists objective, lr_Job res = (rp_JobID c, interrupted env (job_CurrentGeneration row + 1) row) /\
       cut_over env st.1 (rp_JobID c) objective StatusWaiting
         (cutover_record jobGenerationPurposeInterrupt objective (job_CurrentGeneration row) (rp_Feedback c)) (interrupted env (job_CurrentGeneration row + 1)) st'.1).
Proof.
  intros H%reachable_well_formed E Happ. unfold InterruptJob in E. destruct (normalizeInterruptJobCommand _ _); [|done].
  destruct (describeLifecycleOperation _ _ _) as [d|]; [|done]. apply transact_cases in E as [(e & [=] & _)|(x & t' & [= ->] & E & -> & _)]. by apply interrupt_ok in E.
Qed.

(** C11: a step that is completed for the first time was running under the attempt that
    completes it, and the tables afterwards are exact: the attempt is completed, the step
    holds the output, a terminal objective cancels the coding steps it leaves undone, and
    the job is completed with that output exactly when no open step is left. *)
Theorem completion_exact {World} env (others : Others World) c st st' : operations st.1 !! cs_OperationID c = None -> CompleteStep env others c st = (Ok tt, st') ->
  exists c' row step attempt finished at_, normalizeCompleteStepCommand others c = Ok c' /\
    held (cs_Authority c) st.1 row step attempt /\ active attempt = true /\ step_Status step = StatusRunning /\
    let s1 := st.1 <| steps := completed_steps env st.1 c' at_ step |> in
    frame (s1 <| attempts := <[(cs_StepID c, step_CurrentAttempt step) :=
                   attempt <| attempt_Status := StepAttemptCompleted |> <| attempt_FinishedAt := Some finished |>]> (attempts st.1) |>
              <| jobs := <[au_JobID (cs_Authority c) := completed_job env c' (open_steps (au_JobID (cs_Authority c)) s1) row]> (jobs st.1) |>) st'.1.
Proof.
  intros Hnew E. unfold CompleteStep in E. destruct (normalizeCompleteStepCommand others c) as [c'|] eqn:En; [|done].
  destruct (describeLifecycleOperation _ _ _) as [d|] eqn:Ed; [|done]. pose proof (normalize_complete_authority _ _ _ En) as [Ha Hid].
  assert (cs_StepID c' = cs_StepID c /\ cs_StepID c = au_StepID (cs_Authority c)) as [Hs Hau].
  { unfold normalizeCompleteStepCommand in En. split_ok En. subst. simpl. by guards. }
  assert (operations st.1 !! ds_ID d = None) as Hd. { apply describe_spec in Ed as ->. simpl. by rewrite Hid. }
  apply transact_or_cases in E as [(e & [=] & _)|[(x & t' & _ & E & ->)|(x & t' & _ & E & -> & _)]].
  - by apply complete_ok in E as ([=] & _).
  - apply complete_ok in E as (_ & row & step & attempt & finished & at_ & Hh & Hact & Hrun & Hf); [|done]. rewrite Hs, Ha in *.
    exists c', row, step, attempt, finished, at_. split; [done|]. split; [done|]. split; [done|]. split; [done|]. by apply Hf.
Qed.

(** C12: an applied cancellation ends the whole job and nothing else: the job was not
    terminal and is canceled with the reason, its claimed attempts end as canceled, its
    open steps are canceled with that reason, and no row of another job changes. *)
Theorem cancellation_exact {World} env (others : Others World) c st res st' : reachable st -> CancelJob env others c st = (Ok res, st') -> lr_Applied res = true ->
  canceled_tables env st.1 c st'.1 /\ forall row, jobs st.1 !! cn_JobID c = Some row -> lr_Job res = (cn_JobID c, canceled_row env c row).
Proof.
  intros H%reachable_well_formed E Happ. unfold CancelJob in E. apply transact_cases in E as [(e & [=] & _)|(x & t' & [= ->] & E & -> & _)].
  apply tx_bind_ok in E as (result & t1 & E1 & E). apply tx_bind_ok in E as ([] & t2 & E2 & E). apply ret_ok in E as [-> ->].
  apply cancel_tx_ok in E1 as (Hc & Hr); [|done..]. assert (tx_store t2 = tx_store t1) as Hst.
  { destruct (lr_Applied result); [by apply calls_ok in E2 as (w & _ & ->)|by apply ret_ok in E2 as [_ ->]]. }
  simpl. rewrite Hst. done.
Qed.
