(* ===== verification/JobExample.v ===== *)
(** * A sample job

    A coding job that is claimed, completed, replanned, interrupted and canceled, and the
    theorems of [JobSpec.v], [JobClaim.v] and [JobOutcome.v] at its states. *)
From Stdlib Require Import Ascii.
From S2P Require Import Prelude Schema PathIdentity UserIntent JsonCodec Scrum Jobs JobStore JobCommands JobSteps JobControl JobFacts JobReach JobReplay JobInv JobKeeps JobCutover JobWellFormed JobSpec JobClaim JobOutcome.
From stdpp Require Import sorting base tactics strings list gmap numbers pretty.
From stdpp Require Import list options.
Open Scope Z_scope.
Open Scope go_scope.

(** The other components accept; jobs are bound to no workspace. *)
Definition others : Others unit := {|
  o_workspace := fun _ => Ok (false, ("", "")); o_workspace_root := fun _ => Ok tt; o_workspace_identity := fun _ => Ok tt;
  o_agents := fun _ => Ok false; o_channel := fun _ => Ok false; o_channel_current := fun _ _ => true; o_scrum_metadata := fun _ => Ok tt;
  o_planning_item := fun _ _ _ => false; o_admission := fun _ _ _ _ => Ok tt; o_intent := fun _ _ => false;
  o_pending_messages := fun _ _ _ => Ok tt; o_retire_messages := fun _ w _ _ _ => Ok w; o_release_card := fun w _ _ => Ok w;
  o_complete_channel := fun _ w _ _ => Ok w; o_message := fun w _ _ _ => Ok w; o_outcomes := fun _ w _ _ _ => Ok w; o_roleplay := fun c => Ok (cs_Roleplay c);
  o_roleplay_authority := fun _ _ => Ok tt; o_roleplay_payload := fun _ _ => Ok tt; o_roleplay_replay := fun _ _ _ _ => Ok tt;
  o_citations := fun w _ _ => Ok w; o_citations_replay := fun _ _ _ => Ok tt; o_receipt := fun _ _ _ _ => true;
  o_tasks_incomplete := fun _ _ _ => false; o_cancel_tasks := fun w _ _ => Ok w; o_owner_turn := fun w _ _ _ _ => Ok w;
  o_last_frozen := fun _ _ _ => 0; o_proposed := fun _ _ _ => false; o_ledger_item := fun _ _ _ => false; o_native_call := fun _ _ _ _ _ _ => false;
  o_native_prompt := fun _ => ""; o_native_reply := fun _ _ => Ok VNull; o_continuation := fun _ _ _ _ => Ok None
|}.
(** The time [at_] of the database, with identifiers from [id] on and no locks. *)
Definition sample (at_ id : Z) : Env := mkEnv at_ (fun k => at_ + Z.of_nat k) (fun k => id + Z.of_nat k) (fun _ => false) (fun _ => false) (fun k => Z.of_nat k).
Definition start : State unit := (empty_store, tt).
Definition call (at_ id : Z) (op : Operation) (st : State unit) : State unit := (perform (sample at_ id) others op st).2.
Lemma call_reach at_ id op st : reachable st -> reachable (call at_ id op st).
Proof. intros [w H]. exists w. eapply rtc_r; [exact H|]. apply step_call. Qed.
Lemma start_reach : reachable start.
Proof. by exists tt. Qed.

(** Job 1 with the steps 2 (planning) and 3 (coding), then its first attempt. *)
Definition admitted : State unit := call 10 1 (OpEnqueue false "Add a parser" "coding" (VObject [])) start.
Definition claimed : State unit := call 20 10 (OpClaim "worker-a") admitted.
Definition first_attempt : StepAttemptAuthority := mkAuthority 1 1 2 1 "worker-a".
Lemma admitted_reach : reachable admitted. Proof. apply call_reach, start_reach. Qed.
Lemma claimed_reach : reachable claimed. Proof. apply call_reach, admitted_reach. Qed.
Example admitted_steps : (step_Status <$> steps admitted.1 !! 2, step_Status <$> steps admitted.1 !! 3) = (Some StatusPending, Some StatusPending).
Proof. vm_compute. reflexivity. Qed.
Example claimed_step : (step_Status <$> steps claimed.1 !! 2, step_CurrentAttempt <$> steps claimed.1 !! 2, attempt_ExpiresAt <$> attempts claimed.1 !! (2, 1)) =
  (Some StatusRunning, Some 1, Some 75000020).
Proof. vm_compute. reflexivity. Qed.

Definition operation_id (n : string) : string := ("lifecycle_operation_" +:+ n)%string.
Definition completion : CompleteStepCommand := mkComplete (operation_id "complete") first_attempt 2 "the plan" "" "".
Definition revision : ReplanJobCommand := mkReplan false "" (operation_id "replan") 1 "Use a table" 0 "" "".
Definition interruption : ReplanJobCommand := mkReplan false "" (operation_id "interrupt") 1 "Wait for me" 0 "" "".
Definition cancellation : CancelJobCommand := mkCancel (operation_id "cancel") 1 "not needed" "" "".
Definition completed : State unit := call 40 20 (OpComplete completion) claimed.
Definition no_result : LifecycleJobResult := mkJobResult (0, new_job (sample 0 0) "" "" VNull) false.
Definition result_of_call (out : result LifecycleJobResult * State unit) : LifecycleJobResult := match out.1 with Ok r => r | Err _ => no_result end.

(** ** The theorems *)

Lemma jobs_well_formed_witness : well_formed claimed.1.
Proof. apply (jobs_well_formed claimed claimed_reach). Defined.
Lemma authority_exclusive_witness : RequireActiveStepAttempt (sample 30 0) others first_attempt claimed = (Ok tt, claimed) /\ first_attempt = first_attempt.
Proof.
  assert (RequireActiveStepAttempt (sample 30 0) others first_attempt claimed = (Ok tt, claimed)) as E by (vm_compute; reflexivity).
  split; [exact E|]. exact (authority_exclusive claimed claimed claimed _ _ _ _ _ _ claimed_reach E E eq_refl).
Defined.
(** The lease of the attempt has run out, so its worker cannot complete the step. *)
Lemma lapsed_attempt_fenced_witness : exists r, perform (sample 80000000 20) others (OpComplete completion) claimed = (r, claimed) /\
  (r = Ok tt -> op_recorded (OpComplete completion) claimed.1).
Proof.
  apply (lapsed_attempt_fenced claimed claimed (sample 80000000 20) others (OpComplete completion) first_attempt); [reflexivity|apply rtc_refl|].
  right. intros row n Hr. assert (attempt_ExpiresAt row = 75000020) as ->.
  { assert (attempt_ExpiresAt <$> attempts claimed.1 !! (2, 1) = Some 75000020) as E by (vm_compute; reflexivity).
    change (attempts claimed.1 !! (2, 1) = Some row) in Hr. rewrite Hr in E. by injection E. }
  change (75000020 <= 80000000 + Z.of_nat n). lia.
Defined.
(** The completion is accepted again, changes nothing, and no other content is. *)
Lemma lifecycle_command_once_witness : exists rec, operations completed.1 !! operation_id "complete" = Some rec /\
  command_content others (OpComplete completion) = Ok (op_Kind rec, op_Payload rec) /\ forall env' others' op', command_id op' = Some (operation_id "complete") ->
    repeated completed rec (perform env' others' op' completed) (command_content others' op') (answer env' others' op' completed).
Proof.
  apply (lifecycle_command_once claimed completed completed (sample 40 20) others (OpComplete completion) (operation_id "complete") claimed_reach eq_refl);
    [vm_compute; reflexivity|apply rtc_refl].
Defined.
Lemma history_kept_witness : preserved admitted.1 completed.1.
Proof. apply (history_kept admitted completed). do 2 (eapply rtc_l; [apply step_call|]). apply rtc_refl. Defined.
Lemma claim_exact_witness : let out := ClaimNextStep (sample 20 10) others "worker-a" admitted in
  (out.2 = admitted /\ ((exists e, out.1 = Err e) \/ out.1 = Ok None)) \/
  exists j job id x, chosen_job (sample 20 10) 20 admitted.1 j job /\ chosen_step (sample 20 10) 20 admitted.1 j job id x /\ exact_worker "worker-a" = true /\
    out.2.1 = claimed_tables (sample 20 10) "worker-a" 20 admitted.1 j job id x /\ (lapsed admitted.1 id x = None -> out.2.2 = admitted.2) /\
    let claim := claim_of (sample 20 10) "worker-a" 20 21 j job id x in
    if cl_LeaseDeadline claim <=? 1 then exists e, out.1 = Err e else out.1 = Ok (Some claim).
Proof. intros out. apply (claim_exact (sample 20 10) others "worker-a" admitted out.2 out.1). subst out. by destruct (ClaimNextStep _ _ _ _). Defined.
Lemma claim_progress_witness : exists j job id x, chosen_job (sample 20 10) 20 admitted.1 j job /\ chosen_step (sample 20 10) 20 admitted.1 j job id x /\
    (ClaimNextStep (sample 20 10) others "worker-a" admitted).2.1 = claimed_tables (sample 20 10) "worker-a" 20 admitted.1 j job id x.
Proof.
  eapply (claim_progress (sample 20 10) others "worker-a" admitted 1 (new_job (sample 10 1) "Add a parser" "coding" (VObject [])) admitted_reach);
    [vm_compute; reflexivity..|done|]. intros s w i n a _. by exists w.
Defined.
Lemma replan_exact_witness : let out := ReplanJob (sample 40 20) others revision claimed in
  exists row objective, jobs claimed.1 !! 1 = Some row /\ terminalJobStatus (job_Status row) = false /\ revision_observed claimed.1 revision /\
    lr_Job (result_of_call out) = (1, replanned (sample 40 20) revision (job_CurrentGeneration row + 1) row) /\
    cut_over (sample 40 20) claimed.1 1 objective StatusPending (cutover_record jobGenerationPurposeReplan objective (job_CurrentGeneration row) "Use a table")
      (replanned (sample 40 20) revision (job_CurrentGeneration row + 1)) out.2.1.
Proof. apply (replan_exact (sample 40 20) others revision claimed _ _ claimed_reach); vm_compute; reflexivity. Defined.
Lemma interrupt_exact_witness : let out := InterruptJob (sample 40 20) others interruption claimed in
  exists row, jobs claimed.1 !! 1 = Some row /\ (job_Status row = StatusPending \/ job_Status row = StatusRunning) /\
    (paused claimed.1 1 out.2.1 \/
     exists objective, lr_Job (result_of_call out) = (1, interrupted (sample 40 20) (job_CurrentGeneration row + 1) row) /\
       cut_over (sample 40 20) claimed.1 1 objective StatusWaiting
         (cutover_record jobGenerationPurposeInterrupt objective (job_CurrentGeneration row) "Wait for me") (interrupted (sample 40 20) (job_CurrentGeneration row + 1)) out.2.1).
Proof. apply (interrupt_exact (sample 40 20) others interruption claimed _ _ claimed_reach); vm_compute; reflexivity. Defined.
Lemma completion_exact_witness : exists c' row step attempt finished at_, normalizeCompleteStepCommand others completion = Ok c' /\
    held first_attempt claimed.1 row step attempt /\ active attempt = true /\ step_Status step = StatusRunning /\
    let s1 := claimed.1 <| steps := completed_steps (sample 40 20) claimed.1 c' at_ step |> in
    frame (s1 <| attempts := <[(2, step_CurrentAttempt step) :=
                   attempt <| attempt_Status := StepAttemptCompleted |> <| attempt_FinishedAt := Some finished |>]> (attempts claimed.1) |>
              <| jobs := <[1 := completed_job (sample 40 20) c' (open_steps 1 s1) row]> (jobs claimed.1) |>) completed.1.
Proof. apply (completion_exact (sample 40 20) others completion claimed completed); vm_compute; reflexivity. Defined.
Lemma cancellation_exact_witness : let out := CancelJob (sample 40 20) others cancellation claimed in
  canceled_tables (sample 40 20) claimed.1 cancellation out.2.1 /\ forall row, jobs claimed.1 !! 1 = Some row ->
    lr_Job (result_of_call out) = (1, canceled_row (sample 40 20) cancellation row).
Proof. apply (cancellation_exact (sample 40 20) others cancellation claimed _ _ claimed_reach); vm_compute; reflexivity. Defined.
